(* ===== verification/_CoqProject ===== *)
-Q . S2P
Prelude.v
GoStrings.v
Errs.v
Store.v
Paths.v
HttpRange.v
Json.v
Crypto.v
Users.v
Metas.v
Accounts.v
Perm.v
Prog.v
AccountsThms.v
Storage.v
StorageThms.v
FsOps.v
FsOpsExamples.v
FsOpsThms.v
FsOpsTree.v
Sign.v
Shares.v
ShareHandlers.v
SharesThms.v
FsHandlers.v
FsHandlersSpec.v
FsHandlersThms.v
FsHandlersExamples.v
FsPkg.v
FsPkgThms.v
FsCopyThms.v
FsPkgExamples.v
Downloads.v
DownloadsThms.v
Ftp.v
FtpThms.v
FtpServer.v
Search.v
Mcp.v
McpThms.v
S3.v
S3Thms.v
Alias.v
AliasThms.v
Settings.v
SettingsThms.v
Archive.v
ArchiveThms.v
ArchiveExact.v
ArchiveTree.v
Sessions.v
Auth.v
AuthThms.v
GoHeap.v
WebdavLock.v
WebdavLockRep.v
WebdavLockSpec.v
WebdavLockOps.v
WebdavLockThms.v
WebdavIf.v
WebdavHandler.v
WebdavHandlerThms.v
Serve.v
Downloader.v
DownloaderThms.v
Runtime.v
RuntimeThms.v
ChunkerNames.v
ChunkerNamesThms.v
Chunker.v
ChunkerRead.v
ChunkerServe.v
ChunkerPut.v
ChunkerMem.v
ChunkerThms.v
UrlTree.v
UrlTreeThms.v
UrlTreeParse.v
UrlTreeOps.v
