(* ===== verification/Prelude.v ===== *)
(** * AList: a verification development

    The repository hosts AList, a Go server under [src/alist] that mounts many
    remote storages in one virtual tree and serves it over HTTP, WebDAV, S3,
    FTP and MCP, inside the iSH emulator (C code outside [src/alist]).  This
    library models the part of the Go server that decides what a request may
    touch and which bytes it gets, and proves it correct.

    ** How a request goes through the code

    A login compares the password, issues a token and registers the device
    ([server/handles/auth.go], [server/common/auth.go], [internal/device]); a
    later request carries the token and is given its user by the middlewares
    ([server/middlewares/auth.go]).  The request path is cleaned
    ([pkg/utils/path.go]) and joined to the user's base path
    ([internal/model/user.go], [JoinPath]).  The permissions at the path are
    merged from the roles of the user and the password from the nearest meta
    ([server/common/role_perm.go]); roles, users and metas are rows of the
    database behind the caches of [internal/op].  The path is then resolved to
    a mounted storage and a path inside it by package [fs] ([internal/fs],
    [internal/op/storage.go], [internal/op/path.go]), where its objects are listed, linked and changed
    through the driver, behind a cache of listings ([internal/op/fs.go]).  A
    download link carries a path and a signature and no user ([pkg/sign],
    [internal/sign], [server/middlewares/down.go]); it redirects to the
    storage or the content is
    served in whole or in ranges ([internal/net/serve.go], [pkg/http_range])
    and may be fetched over several connections ([internal/net/request.go]).
    A WebDAV request ([server/webdav.go], [server/webdav]) has the same checks
    and also goes through the lock table.  The sessions of FTP and SFTP
    ([server/ftp.go], [server/sftp.go], [server/ftp]) and the tools of the MCP
    server ([server/mcp]) are logged in in their own way and have their own
    permissions, and then call package [fs] as the file API does; the S3 server
    ([server/s3]) has no users and serves the directories named in the
    settings.  A share gives a visitor without an
    account one directory or file ([internal/share],
    [server/handles/share_public.go]).  On iOS the whole server is started and
    stopped by the host app ([iosbridge/runtime.go]).  One driver keeps its
    files, cut into chunks, on other mounted storages ([drivers/chunker]);
    another has files that are links and keeps its tree in its settings
    ([drivers/url_tree]), and a third shows directories of other storages as
    one ([drivers/alias]).  An archive on a storage can be extracted into a
    temporary directory of the server ([internal/archive]).  The settings that
    all of this reads are rows behind two caches ([internal/op/setting.go]).

    ** Files and what they model

    - [Prelude]: byte strings, 64-bit integers with their wrap-around, panics
      ([outcome], [let?]), tactics.  [GoStrings]: the functions of [strings],
      [strconv], [path] and [net/textproto] the code calls.  [Errs]:
      [internal/errs].  [Crypto]: MD5, SHA-1, SHA-256, HMAC and base64,
      executable.  [Json]: the texts of [encoding/json] the code reads and
      writes.
      [GoHeap]: [container/heap] over the class [heap_Interface].
    - [Store]: calls that change state and may fail ([Op], [let*]), and the
      classes [Table] and [Cache] that stand for GORM tables and go-cache
      caches, with their laws; finite maps are instances.
    - [Paths]: [pkg/utils/path.go], [balance.go], [parsePath] of
      [server/middlewares/down.go].  A path is seen as its list of segments
      ([path_segs]); the string functions are related to that view.
      Relative paths are joined below a directory as [key_segs].
    - [HttpRange]: [pkg/http_range/range.go].
    - [Users]: the records and functions of [internal/model] for users, roles
      and metas, and [ResolvePath] of [server/webdav/path.go].
    - [Perm]: [server/common/role_perm.go], [check.go] and the guards of
      [server/mcp/auth.go], against the interfaces [RoleStore], [MetaStore]
      and [RegexpLib].
    - [Metas]: [internal/op/meta.go] and [internal/db/meta.go].
    - [Accounts], [AccountsThms]: [internal/op/role.go], [internal/op/user.go]
      and their tables; the state [acc] has both tables and every cache and
      variable of package [op] for them.
    - [Storage], [StorageThms]: [internal/op/storage.go], [path.go] and the
      storage table; the state [store] has the table, [storagesMap],
      [balanceMap] and the accounts.  The drivers are the class [Drivers].
    - [FsOps]: [internal/op/fs.go] and [internal/model/obj.go] for one mounted
      storage.  The state [fs] has the driver's own state, the listing cache,
      the arrays its slices share and the sorts that wait for their timer.
      [FsOpsExamples]: a driver in memory and runs on it.  [FsOpsThms]: the
      cache as a map from keys to lists.  [FsOpsTree]: the laws [TreeLaws] of a
      driver that keeps a tree, and what the operations do on one.
    - [Sign]: [pkg/sign/hmac.go], [internal/sign/sign.go], [archive.go] and the
      token change of [server/handles/setting.go].
    - [Shares], [ShareHandlers], [SharesThms]: [internal/model/share.go],
      [internal/db/share.go], [internal/share/access.go] and the handlers of
      [server/handles/share.go] and [share_public.go].
    - [Prog]: programs that call another package, their runs, and the rule
      [wp] to reason about all of them.  [FsHandlers]: the file API,
      [server/handles/fsread.go], [fsmanage.go], [fsbatch.go], [fsup.go] and
      [server/middlewares/fsup.go], as programs over the calls of package [fs].
      [FsHandlersSpec]: what such a call may do.  [FsHandlersThms],
      [FsHandlersExamples]: the theorems, and runs of requests.
    - [FsPkg]: [internal/fs] and [ObjMerge] of [internal/model/obj.go], as
      programs over the calls of package [op]; [fs_impl] carries out the calls
      of the file API.  [FsPkgThms], [FsCopyThms], [FsPkgExamples].
    - [Downloads], [DownloadsThms]: the routes [/d] and
      [/p], [server/middlewares/down.go], [server/handles/down.go] and
      [server/common/proxy.go].
    - [Ftp], [FtpThms]: the operations of an FTP or SFTP session
      and its uploads, [server/ftp] and [server/sftp/sftp.go].  [FtpServer]:
      logging in and the passive ports, [server/ftp.go] and [server/sftp.go].
    - [Search]: [server/handles/search.go] as a program over the calls of the
      index.  [Mcp], [McpThms]: the tools of [server/mcp].
    - [S3], [S3Thms]: the backend of the S3 server, [server/s3],
      over the class [Gofakes3] of the library's lists.
    - [Alias], [AliasThms]: [drivers/alias] as programs over
      the calls of packages [fs] and [op].
    - [Settings], [SettingsThms]: [internal/op/setting.go],
      its hooks, table and handlers; the arrays of the cached lists are
      locations of a heap, because their callers change them.
    - [Archive]: the safe path, the limit and the extraction of the five tools
      of [internal/archive], as programs over the calls of package [os].
      [ArchiveThms]: where and how much they write.  [ArchiveExact]: what they
      write.  [ArchiveTree]: the tree of the entries, of nodes on a heap, and
      its look-up in [internal/op/archive.go].
    - [Sessions]: [internal/device/session.go], [internal/db/session.go] and
      [server/handles/session.go].
    - [Auth], [AuthThms]: tokens, middlewares, the handlers of login, logout
      and of the account, over [Accounts] and [Sessions].
    - [WebdavLock]: [server/webdav/lock.go]; nodes are locations of a heap
      shared by three indices, as the pointers of the code are.
      [WebdavLockRep], [WebdavLockSpec], [WebdavLockOps], [WebdavLockThms]: the
      representation relation to an abstract table of locks, and the
      refinement.
    - [WebdavIf]: [server/webdav/if.go], the parser of the If header.
    - [WebdavHandler], [WebdavHandlerThms]: [server/webdav.go] and the handlers
      of [server/webdav/webdav.go], over the lock table; the calls of package
      [fs] are a log with an oracle for the answers.
    - [Serve]: [internal/net/util.go] and [ServeHTTP] of [serve.go].
    - [Downloader], [DownloaderThms]: [internal/net/request.go]; each critical
      section is a function on the record [downloader], the goroutines are a
      step relation over it.
    - [Runtime], [RuntimeThms]: [iosbridge/runtime.go] as threads with program
      counters over one process.
    - [ChunkerNames], [ChunkerNamesThms]: the names of chunks and the metadata
      objects of [drivers/chunker/util.go]; the regular expression is a
      function to the list of its matches in the order Go prefers them.
      [Chunker]: the driver, over the class [Remotes] of the calls of packages
      [fs] and [op] it makes.  [ChunkerRead], [ChunkerServe], [ChunkerPut]:
      what a remote promises ([RemoteView], [ReadLaws], [WriteLaws]), how a
      file lies on the targets, and what reading and uploading do to it.
      [ChunkerMem]: remotes in memory that keep these promises.
      [ChunkerThms]: the theorems.
    - [UrlTree]: [drivers/url_tree].  [UrlTreeThms]: the text of a tree is read
      as the tree.  [UrlTreeParse]:
      what is read from a text is well formed.  [UrlTreeOps]: sequences of
      changes.

    ** What the theorems show

    - Identity: [token_request_authenticated], [login_guesses_bounded],
      [device_limit], [evicted_device_stays_out]; [password_change_undone] is
      a defect.
    - Confinement: [JoinPath_confined], [JoinBasePath_contained],
      [JoinUnderBase_one_level], [IsSubPath_is_prefix_order],
      [FixAndCleanPath_canonical]: no request leaves the base path or, with the
      path limit and but for the request of [/] itself, the scopes of the roles.
    - Rights: [MergeRolePermissions_granted] (at [/] and at the base path every
      scope counts), [CanAccessWithRoles_password],
      [readable_covers_permissions], [checkManage_authorised].
    - Caches of the database: [role_cache_transparent], [user_cache_current],
      [GetNearestMeta_longest] hold in every state reached by any sequence of
      operations, so the rights above are those of the database;
      [account_caches_go_stale] has the three cases where they are not.
    - Resolution: [GetStorageAndActualPath_longest], [balance_rotates],
      [virtual_files_exact]; [UpdateStorage_disabled_stays_mounted] is a defect.
    - Objects: [cached_listing_equivalent] and [fs_ops_total] for every
      sequence of operations on a driver that keeps a tree, in which no
      directory is moved, renamed or removed and a delayed sort fires only
      while its slice is the cached one,
      [cache_updates_refine] and [clear_terminates] for the cache alone;
      [stale_listings], [ClearCache_diverges], [debounced_sort_breaks] and
      [upload_removes_directory] are what happens outside their conditions.
    - File API: [fs_changes_authorised] (each change is one the request asks
      for, with the permission at the path the request names),
      [fs_requests_confined], [fs_changes_careful] and [FsList_exact] for every
      answer of package [fs];
      [fs_storage_calls_authorised] for the handlers and package [fs] together,
      down to the storages; [fs_list_exact] for listings, [copy_tree_exact] for
      the tasks of a copy; [fs_checks_bypassed] and [fs_package_defects] are
      defects.
    - Downloads: [download_authorised], [listed_links_download];
      [download_link_defects] are the links that do not work.
    - FTP and SFTP: [ftp_login_authentic], [ftp_session_authorised],
      [ftp_upload_exact] (what [Close] stores of the bytes that were sent,
      however they were cut, and that an empty upload is not stored),
      [port_mapper_exact]; [ftp_checks_bypassed] has the ways
      around the checks.
    - MCP and search: [mcp_tools_authorised], [search_results_authorised] (the
      pages that are asked for and the nodes that are kept);
      [mcp_search_defects].
    - S3: [s3_calls_confined] for keys without dots, [s3_listing_exact] (a listing is the one S3 asks
      for), [s3_pages_exact] (its pages end and have each object once);
      [s3_defects].
    - Aliases: [alias_reads_union] (what is read is the union of the targets),
      [alias_changes_protected] (a change goes to the only target that has the
      object); [alias_defects].
    - Settings: [settings_current] (the caches show the database in every
      reachable state, but for the value of default_role in lists); [settings_defects] has the cases in between.
    - Archives: [extraction_confined] (no entry is written outside of the
      output directory, over a file or past the limit), [extraction_exact] (the
      files are the entries), [archive_tree_exact] (the listing of a directory
      of an archive); [archive_defects], [archive_tree_defects].
    - Links: [Verify_accepts_exactly_Sign], [signed_link_lifetime],
      [SetToken_revokes_files_only].
    - Shares: [share_content_authorised], [share_access_limit],
      [share_token_roundtrip], [share_link_roundtrip];
      [share_guards_bypassed] has the ways around the guards.
    - Locks: [locks_mutually_exclusive] in every reachable state, and
      [Create_refines], [Refresh_Unlock_refine], [Confirm_release_refine]: each
      operation returns and changes the abstract table as specified.
    - WebDAV requests: [parseIfHeader_exact], [dav_write_guarded],
      [dav_write_authorised], [dav_calls_confined]: the checks of locks and
      permissions that the code makes; [dav_locks_bypassed] and
      [dav_checks_bypassed] are the ways around them.
    - Content: [ServeHTTP_exact], [etag_conditions], [ParseRange_in_bounds] and
      the round trips of the range headers; [Download_delivers],
      [schedule_safe], [downloadChunk_exact], [downloadChunk_terminates] for
      the multi-connection download.
    - Host: [runtime_exclusive] and [runtime_calls_finish] under every schedule
      of the host's threads.
    - Chunks: [chunk_name_roundtrip], [metadata_roundtrip],
      [openChunkReader_exact], [chunker_put_get] (an uploaded file reads as
      what was uploaded), [chunker_put_atomic] (a failed upload leaves the old
      file), both with metadata and under the conditions of [upload_ok];
      [chunker_misreads] has what happens without them.
    - Link trees: [url_text_stable] (the text written for a tree is read as the
      tree), [url_tree_persistent] (every sequence of changes that a line can
      hold survives a restart); [url_tree_defects] has the changes that do not.

    ** Bounds and fuel

    Integers have Go's width wherever the code could overflow ([wrap64],
    [wrapu64]).  Recursion that is not structural takes fuel, computed by the
    caller from the input: [getNearestMeta], [walk] and [etag_list] from the
    length of the string they shorten at each turn, [path_fuel] the length of
    the path whose ancestors [fs_Get] and [fs_MakeDir] visit, [clear_fuel] the
    longest cached key, [heap_up], [heap_down] and [collect] from the size of
    the heap, [digits] the number of decimal digits of a 64-bit integer,
    [blocks] the number of bytes, [put_fuel] the number of chunks.  The theorems about these functions state
    the result, not only what holds if one is returned, so a lack of fuel
    would falsify them.  The loops of [FsRemoveEmptyDirectory] and
    [FsRecursiveMove] follow listings that another client may change, so they
    need not end: their fuel is a parameter, and the theorems hold of every
    part of a run.  So is that of [handle_Search], as an index may keep
    answering; [add_parents] has more fuel than its path has elements; that of [entryListR] is the height of the tree it lists, and that
    of [walkDir] a parameter of which [extraction_confined] is independent.  [chunk_loop] follows a script of server answers;
    [downloadChunk_terminates] bounds the part of it that is used.
    [Create_refines] asks for fewer than 2^64 locks ever created, the range of
    the token counter.

    ** What is not modelled

    Code outside the repository is a parameter: GORM, go-cache, the drivers'
    services, JWT, TOTP, HTTP dates, MIME types, regular expressions given by
    the user.  Waiting (sleeps, condition variables) is not modelled: a step
    relation has every interleaving.  Left out: the storage drivers that talk
    to a service, the handlers that only decode a request and encode a
    response, the search index, the readers of archive formats and the caches
    of their listings, streams over network connections, the forked XML
    package, the command line and the start-up, and the emulator. *)

From stdpp Require Export base list gmap strings numbers option sorting.
From Stdlib Require Export ZArith Ascii Lia.

#[export] Set Default Goal Selector "!".

(** ** Byte strings

    A Go [string] is an immutable sequence of bytes: [ascii] is Rocq's
    eight-bit character, so a Go string is a list of them.  The notation
    [#"text"] is a literal, already evaluated to the list. *)

Abbreviation gostr := (list ascii).

Fixpoint lit (s : string) : gostr :=
  match s with
  | EmptyString => []
  | String c s' => c :: lit s'
  end.

Declare Scope go_scope.
Delimit Scope go_scope with go.

Notation "# s" :=
  (ltac:(let x := eval cbv in (lit s%string) in exact x))
  (at level 1, s at level 0, only parsing) : go_scope.

#[global] Open Scope go_scope.

(** The numeric value of a byte, and the byte of a numeric value. *)
Definition byte_val (c : ascii) : Z := Z.of_N (N_of_ascii c).
Definition val_byte (z : Z) : ascii := ascii_of_N (Z.to_N z).

(** ** Machine integers

    Go's [int], [int64] and [time.Duration] are 64-bit two's complement,
    [uint64] wraps modulo 2^64 and [int32] is 32-bit. *)

Local Open Scope Z_scope.

Definition max_int64 : Z := 9223372036854775807.
Definition min_int64 : Z := -9223372036854775808.
Definition max_uint64 : Z := 18446744073709551615.

Definition int64_ok (z : Z) : Prop := min_int64 ≤ z ≤ max_int64.

Definition wrap64 (z : Z) : Z :=
  (z + 9223372036854775808) mod 18446744073709551616 - 9223372036854775808.

Definition wrapu64 (z : Z) : Z := z mod 18446744073709551616.

Ltac unfold_int64 :=
  unfold int64_ok, max_int64, min_int64, max_uint64 in *.

Lemma wrap64_id z : int64_ok z → wrap64 z = z.
Proof. unfold_int64. intros. unfold wrap64. rewrite Z.mod_small; lia. Qed.

Lemma wrap64_ok z : int64_ok (wrap64 z).
Proof.
  unfold_int64. unfold wrap64.
  pose proof (Z.mod_pos_bound (z + 9223372036854775808) 18446744073709551616).
  lia.
Qed.

Lemma wrap64_wrap64 z : wrap64 (wrap64 z) = wrap64 z.
Proof. apply wrap64_id, wrap64_ok. Qed.

Lemma wrap64_mod z :
  wrap64 z mod 18446744073709551616 = z mod 18446744073709551616.
Proof.
  unfold wrap64.
  rewrite Zminus_mod_idemp_l.
  f_equal. lia.
Qed.

Lemma wrap64_add_l a b : wrap64 (wrap64 a + b) = wrap64 (a + b).
Proof.
  unfold wrap64. set (m := 18446744073709551616). set (h := 9223372036854775808). f_equal.
  replace ((a + h) mod m - h + b + h) with ((a + h) mod m + b) by lia.
  rewrite Zplus_mod_idemp_l. f_equal. lia.
Qed.

Lemma wrapu64_id z : 0 ≤ z ≤ max_uint64 → wrapu64 z = z.
Proof. unfold_int64. intros. unfold wrapu64. rewrite Z.mod_small; lia. Qed.

Lemma wrapu64_ok z : 0 ≤ wrapu64 z ≤ max_uint64.
Proof.
  unfold_int64. unfold wrapu64.
  pose proof (Z.mod_pos_bound z 18446744073709551616). lia.
Qed.

Local Close Scope Z_scope.

(** ** Automation *)

Create HintDb alist.
Create Rewrite HintDb alist.

(** Split every conjunction of the goal and try to close the parts. *)
Ltac split_ands :=
  repeat match goal with |- _ ∧ _ => split end.

(** Turn boolean equations of the context into propositions. *)
Ltac reflect_bools :=
  repeat match goal with
  | H : _ && _ = true |- _ => apply andb_true_iff in H as [??]
  | H : _ || _ = false |- _ => apply orb_false_iff in H as [??]
  | H : negb _ = true |- _ => apply negb_true_iff in H
  | H : negb _ = false |- _ => apply negb_false_iff in H
  | H : bool_decide _ = true |- _ => apply bool_decide_eq_true in H
  | H : bool_decide _ = false |- _ => apply bool_decide_eq_false in H
  | H : (_ <? _)%Z = true |- _ => apply Z.ltb_lt in H
  | H : (_ <? _)%Z = false |- _ => apply Z.ltb_ge in H
  | H : (_ <=? _)%Z = true |- _ => apply Z.leb_le in H
  | H : (_ <=? _)%Z = false |- _ => apply Z.leb_gt in H
  | H : (_ =? _)%Z = true |- _ => apply Z.eqb_eq in H
  | H : (_ =? _)%Z = false |- _ => apply Z.eqb_neq in H
  end.

(** Case analysis on the [match] or [if] the goal is stuck on. *)
Ltac case_goal :=
  match goal with
  | |- context [match ?x with _ => _ end] => destruct x eqn:?
  end.

Ltac case_hyp H :=
  match type of H with
  | context [match ?x with _ => _ end] => destruct x eqn:?
  end.

(** Close a decidable goal by evaluating it. *)
Ltac decide_now := apply (bool_decide_unpack _); vm_compute; exact I.

(** ** Panics

    An indexing or slicing error of the Go code ends the call in a panic. *)

Inductive outcome (A : Type) :=
  | Ret (a : A)
  | Panic.
Arguments Ret {A} a.
Arguments Panic {A}.

(** Decide by [lia] every integer comparison of the goal it can decide. *)
Ltac zcmp :=
  repeat match goal with
  | |- context [(?a <? ?b)%Z] =>
      first [rewrite (proj2 (Z.ltb_ge a b)) by lia | rewrite (proj2 (Z.ltb_lt a b)) by lia]
  | |- context [(?a <=? ?b)%Z] =>
      first [rewrite (proj2 (Z.leb_gt a b)) by lia | rewrite (proj2 (Z.leb_le a b)) by lia]
  | |- context [(?a =? ?b)%Z] =>
      first [rewrite (proj2 (Z.eqb_eq a b)) by lia | rewrite (proj2 (Z.eqb_neq a b)) by lia]
  end.

(** ** Filters that keep everything or nothing *)

Lemma filter_id {A} (P : A → Prop) `{!∀ x, Decision (P x)} l : Forall P l → filter P l = l.
Proof. induction 1 as [|x l Hx _ IH]; [done|]. rewrite filter_cons_True by done. by rewrite IH. Qed.

Lemma filter_none {A} (P : A → Prop) `{!∀ x, Decision (P x)} (l : list A) :
  (∀ x, x ∈ l → ¬ P x) → filter P l = [].
Proof.
  induction l as [|x l IH]; intros Hl; [done|]. rewrite filter_cons_False by (apply Hl; left).
  apply IH. intros y Hy. apply Hl. by right.
Qed.
