(* ===== verification/GoStrings.v ===== *)
(** * The parts of Go's standard library the modelled code calls

    [strings], [strconv], [path] and [net/textproto] functions over byte
    strings, each named after the Go function.  They are executable; the
    lemmas here are the facts about them that the components share. *)

From S2P Require Import Prelude.

Local Open Scope Z_scope.

(** ** Package strings *)

Fixpoint HasPrefix (s p : gostr) {struct p} : bool :=
  match p, s with
  | [], _ => true
  | c :: p', d :: s' => bool_decide (c = d) && HasPrefix s' p'
  | _ :: _, [] => false
  end.

Definition HasSuffix (s p : gostr) : bool := HasPrefix (reverse s) (reverse p).

(** [strings.Index]: the offset of the first occurrence, or [-1]. *)
Fixpoint index_from (i : Z) (s sub : gostr) : Z :=
  if HasPrefix s sub then i
  else match s with
       | [] => -1
       | _ :: s' => index_from (i + 1) s' sub
       end.

Definition Index (s sub : gostr) : Z := index_from 0 s sub.

Definition Contains (s sub : gostr) : bool := 0 <=? Index s sub.

(** [strings.IndexByte] *)
Fixpoint index_byte_from (i : Z) (s : gostr) (c : ascii) : Z :=
  match s with
  | [] => -1
  | d :: s' => if bool_decide (d = c) then i else index_byte_from (i + 1) s' c
  end.

Definition IndexByte (s : gostr) (c : ascii) : Z := index_byte_from 0 s c.

(** Slices [s[:i]], [s[i:]] and [s[i:j]] with in-range bounds. *)
Definition slice_to (s : gostr) (i : Z) : gostr := take (Z.to_nat i) s.
Definition slice_from (s : gostr) (i : Z) : gostr := drop (Z.to_nat i) s.
Definition slice (s : gostr) (i j : Z) : gostr := slice_from (slice_to s j) i.

(** [strings.Split] with a one-byte separator. *)
Fixpoint Split (sep : ascii) (s : gostr) : list gostr :=
  match s with
  | [] => [[]]
  | d :: s' =>
      if bool_decide (d = sep) then [] :: Split sep s'
      else match Split sep s' with
           | [] => [[d]]
           | w :: ws => (d :: w) :: ws
           end
  end.

Fixpoint Join (sep : gostr) (l : list gostr) : gostr :=
  match l with
  | [] => []
  | [w] => w
  | w :: ws => w ++ sep ++ Join sep ws
  end.

(** [strings.ReplaceAll] of a one-byte string. *)
Definition ReplaceByte (s : gostr) (old : ascii) (new : gostr) : gostr :=
  s ≫= λ d, if bool_decide (d = old) then new else [d].

Definition TrimPrefix (s p : gostr) : gostr :=
  if HasPrefix s p then drop (length p) s else s.

Definition TrimSuffix (s p : gostr) : gostr :=
  if HasSuffix s p then take (length s - length p) s else s.

(** [strings.LastIndex]: the offset of the last occurrence, or [-1]. *)
Fixpoint last_index_from (i : Z) (s sub : gostr) : Z :=
  let here := if HasPrefix s sub then i else -1 in
  match s with
  | [] => here
  | _ :: s' => let r := last_index_from (i + 1) s' sub in
               if r <? 0 then here else r
  end.

Definition LastIndex (s sub : gostr) : Z := last_index_from 0 s sub.

(** [strings.Count] of a one-byte string. *)
Definition CountByte (s : gostr) (c : ascii) : nat :=
  length (filter (λ d, d = c) s).

(** Removing a class of bytes at the left end, and at both ends. *)
Fixpoint trim_left (P : ascii → bool) (s : gostr) : gostr :=
  match s with
  | c :: s' => if P c then trim_left P s' else s
  | [] => []
  end.

Definition trim_both (P : ascii → bool) (s : gostr) : gostr :=
  reverse (trim_left P (reverse (trim_left P s))).

(** [textproto.TrimString] removes space, tab, newline, carriage return. *)
Definition is_http_space (c : ascii) : bool :=
  bool_decide (c ∈ [" "%char; "009"%char; "010"%char; "013"%char]).

Definition TrimString (s : gostr) : gostr := trim_both is_http_space s.

(** [strings.TrimSpace] removes the white space of Unicode: the UTF-8
    encodings of the runes for which [unicode.IsSpace] holds. *)
Definition space_runes : list gostr :=
  [["009"]; ["010"]; ["011"]; ["012"]; ["013"]; [" "];
   ["194"; "133"]; ["194"; "160"]; ["225"; "154"; "128"];
   ["226"; "128"; "128"]; ["226"; "128"; "129"]; ["226"; "128"; "130"];
   ["226"; "128"; "131"]; ["226"; "128"; "132"]; ["226"; "128"; "133"];
   ["226"; "128"; "134"]; ["226"; "128"; "135"]; ["226"; "128"; "136"];
   ["226"; "128"; "137"]; ["226"; "128"; "138"]; ["226"; "128"; "168"];
   ["226"; "128"; "169"]; ["226"; "128"; "175"]; ["226"; "129"; "159"];
   ["227"; "128"; "128"]]%char.

Fixpoint first_rune (rs : list gostr) (s : gostr) : option gostr :=
  match rs with
  | [] => None
  | r :: rs' => if HasPrefix s r then Some (drop (length r) s) else first_rune rs' s
  end.

Fixpoint strip_runes (fuel : nat) (rs : list gostr) (s : gostr) : gostr :=
  match fuel with
  | O => s
  | S f => match first_rune rs s with
           | Some s' => strip_runes f rs s'
           | None => s
           end
  end.

Definition TrimSpace (s : gostr) : gostr :=
  let l := strip_runes (length s) space_runes s in
  reverse (strip_runes (length l) (map (@reverse ascii) space_runes) (reverse l)).

(** ** Package strconv *)

Inductive num_error := ErrSyntax | ErrRange.

Definition is_digit (c : ascii) : bool :=
  (48 <=? byte_val c) && (byte_val c <=? 57).

(** The digit loop of [strconv.ParseUint(s, 10, 64)]. *)
Fixpoint parse_digits (n : Z) (s : gostr) : Z * option num_error :=
  match s with
  | [] => (n, None)
  | c :: s' =>
      if is_digit c then
        let n1 := n * 10 + (byte_val c - 48) in
        if max_uint64 <? n1 then (max_uint64, Some ErrRange)
        else parse_digits n1 s'
      else (0, Some ErrSyntax)
  end.

Definition ParseUint (s : gostr) : Z * option num_error :=
  match s with
  | [] => (0, Some ErrSyntax)
  | _ => parse_digits 0 s
  end.

(** [strconv.ParseInt(s, 10, 64)]: the value returned with a range error
    is the nearest representable one, and 0 with a syntax error. *)
Definition parse_signed (neg : bool) (s : gostr) : Z * option num_error :=
  match ParseUint s with
  | (_, Some ErrSyntax) => (0, Some ErrSyntax)
  | (un, _) =>
      if negb neg && (max_int64 <? un) then (max_int64, Some ErrRange)
      else if neg && (max_int64 + 1 <? un) then (min_int64, Some ErrRange)
      else (if neg then - un else un, None)
  end.

Definition ParseInt (s : gostr) : Z * option num_error :=
  match s with
  | [] => (0, Some ErrSyntax)
  | c :: s' =>
      if bool_decide (c = "+"%char) then parse_signed false s'
      else if bool_decide (c = "-"%char) then parse_signed true s'
      else parse_signed false s
  end.

(** [strconv.FormatInt(i, 10)]; [fuel] bounds the number of digits. *)
Definition digit (d : Z) : ascii := val_byte (48 + d).

Fixpoint digits (fuel : nat) (n : Z) : gostr :=
  match fuel with
  | O => []
  | S f => if n <? 10 then [digit n] else digits f (n / 10) ++ [digit (n mod 10)]
  end.

Definition FormatUint (n : Z) : gostr := digits (S (Z.to_nat (Z.log2 n))) n.

Definition FormatInt (i : Z) : gostr :=
  if i <? 0 then "-"%char :: FormatUint (- i) else FormatUint i.

(** ** Package path *)

(** [path.Clean], by the rules of its documentation: empty and [.]
    elements go, an inner [..] removes the element before it, a [..] at
    the root of a rooted path is dropped. *)
Definition clean_step (rooted : bool) (stack : list gostr) (seg : gostr) : list gostr :=
  if bool_decide (seg = []) || bool_decide (seg = #".") then stack
  else if bool_decide (seg = #"..") then
    match stack with
    | top :: rest => if bool_decide (top = #"..") then seg :: stack else rest
    | [] => if rooted then [] else [seg]
    end
  else seg :: stack.

Definition clean_segs (rooted : bool) (s : gostr) : list gostr :=
  reverse (fold_left (clean_step rooted) (Split "/" s) []).

Definition Clean (s : gostr) : gostr :=
  if HasPrefix s #"/" then "/"%char :: Join #"/" (clean_segs true s)
  else match Join #"/" (clean_segs false s) with
       | [] => #"."
       | r => r
       end.

(** [path.Join] of two elements. *)
Definition path_join (a b : gostr) : gostr :=
  match filter (λ e, e ≠ []) [a; b] with
  | [] => []
  | l => Clean (Join #"/" l)
  end.

(** The part of [s] after its last slash, and the part up to and with it:
    [path.Split]. *)
Fixpoint after_last_slash (s : gostr) : gostr :=
  match s with
  | [] => []
  | c :: s' =>
      if bool_decide ("/"%char ∈ s') then after_last_slash s'
      else if bool_decide (c = "/"%char) then s' else s
  end.

Definition path_Split (s : gostr) : gostr * gostr :=
  let file := after_last_slash s in
  (take (length s - length file) s, file).

Definition path_Dir (s : gostr) : gostr := Clean (fst (path_Split s)).

Definition path_Base (s : gostr) : gostr :=
  match s with
  | [] => #"."
  | _ =>
      let t := reverse (trim_left (λ c, bool_decide (c = "/"%char)) (reverse s)) in
      match after_last_slash t with
      | [] => #"/"
      | r => r
      end
  end.

(** ** Facts: prefixes *)

Lemma HasPrefix_spec s p : HasPrefix s p = true ↔ p `prefix_of` s.
Proof.
  revert s. induction p as [|c p IH]; intros s; simpl.
  - split; [intros _; apply prefix_nil | done].
  - destruct s as [|d s].
    + split; [done | intros H; by apply prefix_nil_not in H].
    + rewrite andb_true_iff, IH, bool_decide_eq_true. split.
      * intros [-> H]. by apply prefix_cons.
      * intros H. split; [by apply prefix_cons_inv_1 in H | by apply prefix_cons_inv_2 in H].
Qed.

Lemma HasPrefix_app p s : HasPrefix (p ++ s) p = true.
Proof. apply HasPrefix_spec. by apply prefix_app_r. Qed.

Lemma HasSuffix_spec s p : HasSuffix s p = true ↔ p `suffix_of` s.
Proof.
  unfold HasSuffix. by rewrite HasPrefix_spec, suffix_prefix_reverse.
Qed.

(** ** Facts: searching *)

Lemma index_from_neg i s sub : 0 ≤ i → index_from i s sub = -1 ∨ i ≤ index_from i s sub.
Proof.
  revert i. induction s as [|d s IH]; intros i Hi; simpl; case_match; try lia.
  specialize (IH (i + 1)). lia.
Qed.

Lemma index_from_spec i s sub :
  0 ≤ i → (0 ≤ index_from i s sub ↔ ∃ a b, s = a ++ sub ++ b).
Proof.
  revert i. induction s as [|d s IH]; intros i Hi; simpl.
  - destruct (HasPrefix [] sub) eqn:E.
    + apply HasPrefix_spec in E. destruct E as [b Hb]. split; [intros _|lia].
      exists [], b. done.
    + split; [lia|]. intros (a & b & Hs).
      symmetry in Hs. apply app_eq_nil in Hs as [-> Hs].
      apply app_eq_nil in Hs as [-> ->]. done.
  - destruct (HasPrefix (d :: s) sub) eqn:E.
    + apply HasPrefix_spec in E. destruct E as [b Hb]. split; [intros _|lia].
      exists [], b. done.
    + rewrite IH by lia. split.
      * intros (a & b & ->). by exists (d :: a), b.
      * intros (a & b & Hs). destruct a as [|d' a].
        -- simpl in Hs. exfalso. assert (HasPrefix (d :: s) sub = true); [|congruence].
           apply HasPrefix_spec. by exists b.
        -- simplify_eq/=. eauto.
Qed.

Lemma Contains_spec s sub : Contains s sub = true ↔ ∃ a b, s = a ++ sub ++ b.
Proof. unfold Contains, Index. rewrite Z.leb_le. by apply index_from_spec. Qed.

Lemma index_byte_from_spec i s c :
  ((c ∉ s) ∧ index_byte_from i s c = -1) ∨
  ∃ a b, s = a ++ c :: b ∧ (c ∉ a) ∧ index_byte_from i s c = i + Z.of_nat (length a).
Proof.
  revert i. induction s as [|d s IH]; intros i; simpl.
  - left. split; [apply not_elem_of_nil|done].
  - destruct (decide (d = c)) as [->|Hne].
    + right. exists [], s. rewrite bool_decide_true by done.
      split_ands; [done|apply not_elem_of_nil|simpl; lia].
    + rewrite bool_decide_false by done.
      destruct (IH (i + 1)) as [[Hn ->]|(a & b & -> & Ha & ->)].
      * left. split; [|done]. apply not_elem_of_cons. naive_solver.
      * right. exists (d :: a), b. split_ands; [done| |simpl; lia].
        apply not_elem_of_cons. naive_solver.
Qed.

Lemma IndexByte_spec s c :
  ((c ∉ s) ∧ IndexByte s c = -1) ∨
  ∃ a b, s = a ++ c :: b ∧ (c ∉ a) ∧ IndexByte s c = Z.of_nat (length a).
Proof.
  unfold IndexByte.
  destruct (index_byte_from_spec 0 s c) as [?|(a & b & ? & ? & ->)]; [by left|].
  right. exists a, b. split_ands; [done..|lia].
Qed.

Lemma Index_byte s c : Index s [c] = IndexByte s c.
Proof.
  unfold Index, IndexByte. generalize 0.
  induction s as [|d s IH]; intros i; simpl; [done|].
  rewrite andb_true_r. destruct (decide (d = c)) as [->|Hne].
  - by rewrite !bool_decide_true.
  - by rewrite !bool_decide_false by congruence.
Qed.

(** ** Facts: splitting and joining *)

Lemma Join_cons sep w ws : ws ≠ [] → Join sep (w :: ws) = w ++ sep ++ Join sep ws.
Proof. by destruct ws. Qed.

Lemma Split_cons_inv sep s : ∃ w ws, Split sep s = w :: ws.
Proof.
  induction s as [|d s IH]; simpl; [eauto|].
  destruct IH as (w & ws & ->). case_bool_decide; eauto.
Qed.

Lemma Split_no_sep sep s : Forall (λ w, sep ∉ w) (Split sep s).
Proof.
  induction s as [|d s IH]; simpl.
  - repeat constructor. apply not_elem_of_nil.
  - case_bool_decide.
    + constructor; [apply not_elem_of_nil|done].
    + destruct (Split sep s) as [|w ws].
      * repeat constructor. apply not_elem_of_cons. split; [congruence|apply not_elem_of_nil].
      * apply Forall_cons in IH as [Hw Hws].
        constructor; [|done]. apply not_elem_of_cons. naive_solver.
Qed.

Lemma Split_app sep w s : sep ∉ w → Split sep (w ++ sep :: s) = w :: Split sep s.
Proof.
  induction w as [|d w IH]; intros Hw; simpl.
  - by rewrite bool_decide_true.
  - apply not_elem_of_cons in Hw as [Hd Hw].
    rewrite bool_decide_false by congruence. by rewrite IH.
Qed.

Lemma Split_none sep w : sep ∉ w → Split sep w = [w].
Proof.
  induction w as [|d w IH]; intros Hw; simpl; [done|].
  apply not_elem_of_cons in Hw as [Hd Hw].
  rewrite bool_decide_false by congruence. by rewrite IH.
Qed.

Lemma Split_Join sep l :
  l ≠ [] → Forall (λ w, sep ∉ w) l → Split sep (Join [sep] l) = l.
Proof.
  induction l as [|w l IH]; [done|]. intros _ [Hw Hl]%Forall_cons.
  destruct l as [|w' l].
  - simpl. by apply Split_none.
  - change (Join [sep] (w :: w' :: l)) with (w ++ sep :: Join [sep] (w' :: l)).
    rewrite Split_app by done. f_equal. by apply IH.
Qed.

Lemma Join_Split sep s : Join [sep] (Split sep s) = s.
Proof.
  induction s as [|d s IH]; simpl; [done|].
  destruct (Split_cons_inv sep s) as (w & ws & E). rewrite E in *.
  case_bool_decide as Hd.
  - subst d. rewrite Join_cons by done. by rewrite IH.
  - rewrite <- IH. by destruct ws.
Qed.


(** ** Facts: paths as lists of segments

    A rooted path is represented by the list of its segments: [render]
    writes the path, [clean_segs true] reads it back.  Every theorem about
    cleaned paths goes through this pair. *)

Definition norm_seg (w : gostr) : Prop :=
  w ≠ [] ∧ w ≠ #"." ∧ w ≠ #".." ∧ ("/"%char ∉ w).

#[export] Instance norm_seg_dec w : Decision (norm_seg w).
Proof. unfold norm_seg. apply _. Defined.

Definition render (l : list gostr) : gostr := "/"%char :: Join #"/" l.

Lemma clean_step_norm st w :
  Forall norm_seg st → ("/"%char ∉ w) → Forall norm_seg (clean_step true st w).
Proof.
  intros Hst Hw. unfold clean_step.
  destruct (bool_decide (w = [])) eqn:E1; simpl; [done|].
  destruct (bool_decide (w = #".")) eqn:E2; simpl; [done|].
  reflect_bools. case_bool_decide as E3.
  - destruct st as [|top st]; [done|]. apply Forall_cons in Hst as [Ht Hst].
    case_bool_decide; [|done]. subst. by destruct Ht as (_ & _ & ? & _).
  - constructor; [|done]. unfold norm_seg. done.
Qed.

Lemma fold_clean_norm ws st :
  Forall norm_seg st → Forall (λ w, "/"%char ∉ w) ws →
  Forall norm_seg (fold_left (clean_step true) ws st).
Proof.
  revert st. induction ws as [|w ws IH]; intros st Hst Hws; simpl; [done|].
  apply Forall_cons in Hws as [Hw Hws]. apply IH; [|done].
  by apply clean_step_norm.
Qed.

Lemma clean_segs_norm s : Forall norm_seg (clean_segs true s).
Proof.
  unfold clean_segs. apply Forall_reverse. apply fold_clean_norm; [constructor|].
  apply Split_no_sep.
Qed.

Lemma clean_step_id st w : norm_seg w → clean_step true st w = w :: st.
Proof.
  intros (H1 & H2 & H3 & _). unfold clean_step.
  by rewrite !bool_decide_false.
Qed.

Lemma fold_clean_id ws st :
  Forall norm_seg ws → fold_left (clean_step true) ws st = reverse ws ++ st.
Proof.
  revert st. induction ws as [|w ws IH]; intros st Hws; simpl; [done|].
  apply Forall_cons in Hws as [Hw Hws].
  rewrite clean_step_id, IH by done.
  by rewrite reverse_cons, <- app_assoc.
Qed.

Lemma clean_segs_slash s : clean_segs true ("/"%char :: s) = clean_segs true s.
Proof. done. Qed.

Lemma norm_no_slash l : Forall norm_seg l → Forall (λ w, "/"%char ∉ w) l.
Proof. intros H. eapply Forall_impl; [exact H|]. by intros w (_ & _ & _ & ?). Qed.

Lemma clean_segs_render l : Forall norm_seg l → clean_segs true (render l) = l.
Proof.
  intros Hl. unfold render. rewrite clean_segs_slash. unfold clean_segs.
  destruct l as [|w l]; [done|].
  rewrite Split_Join by (done || by apply norm_no_slash).
  rewrite fold_clean_id by done.
  by rewrite app_nil_r, reverse_involutive.
Qed.

Lemma Clean_rooted s : Clean ("/"%char :: s) = render (clean_segs true s).
Proof. done. Qed.

Lemma Clean_render l : Forall norm_seg l → Clean (render l) = render l.
Proof.
  intros Hl. unfold render at 1. rewrite Clean_rooted, <- clean_segs_slash.
  fold (render l). by rewrite clean_segs_render.
Qed.

Lemma render_inj l1 l2 :
  Forall norm_seg l1 → Forall norm_seg l2 → render l1 = render l2 → l1 = l2.
Proof.
  intros H1 H2 E. rewrite <- (clean_segs_render l1), <- (clean_segs_render l2) by done.
  by rewrite E.
Qed.

(** Appending one more segment list to a rendered path. *)
Lemma Join_app l1 l2 :
  l1 ≠ [] → l2 ≠ [] → Join #"/" (l1 ++ l2) = Join #"/" l1 ++ "/"%char :: Join #"/" l2.
Proof.
  intros H1 H2. induction l1 as [|w l1 IH]; [done|].
  destruct l1 as [|w' l1].
  - simpl app. by rewrite Join_cons.
  - rewrite (Join_cons _ w (w' :: l1)) by done.
    change ((w :: w' :: l1) ++ l2) with (w :: ((w' :: l1) ++ l2)).
    rewrite Join_cons by done. rewrite IH by done.
    by rewrite <- !app_assoc.
Qed.

Lemma Join_nonempty l : l ≠ [] → Forall norm_seg l → Join #"/" l ≠ [].
Proof.
  destruct l as [|w l]; [done|]. intros _ [Hw _]%Forall_cons.
  destruct Hw as (Hw & _). destruct w; [done|]. by destruct l.
Qed.

(** A cleaned path below another one: the segments extend each other. *)
Lemma render_prefix l1 l2 :
  l1 ≠ [] → Forall norm_seg l1 → Forall norm_seg l2 →
  (render l1 ++ #"/") `prefix_of` render l2 ↔ ∃ l, l ≠ [] ∧ l2 = l1 ++ l.
Proof.
  intros Hne H1 H2. split.
  - intros [r Hr]. unfold render in Hr.
    assert (Hs : Join #"/" l2 = Join #"/" l1 ++ "/"%char :: r).
    { simpl in Hr. injection Hr as ->. by rewrite <- app_assoc. }
    assert (Hl2 : l2 ≠ []).
    { intros ->. simpl in Hs. by destruct (Join #"/" l1). }
    exists (Split "/" r). split.
    { destruct (Split_cons_inv "/" r) as (? & ? & ->). done. }
    rewrite <- (Split_Join "/" l2) by (done || by apply norm_no_slash).
    rewrite Hs. clear Hs Hr H2 Hl2 l2.
    induction l1 as [|w l1 IH]; [done|].
    apply Forall_cons in H1 as [(_ & _ & _ & Hw) H1].
    destruct l1 as [|w' l1].
    + simpl. by rewrite Split_app.
    + rewrite Join_cons by done. rewrite <- !app_assoc. simpl.
      rewrite Split_app by done. simpl. f_equal. by apply IH.
  - intros (l & Hl & ->). exists (Join #"/" l). unfold render.
    rewrite Join_app by done. simpl. by rewrite <- app_assoc.
Qed.

(** ** Facts: numbers *)

Lemma byte_val_byte z : 0 ≤ z < 256 → byte_val (val_byte z) = z.
Proof.
  intros Hz. unfold byte_val, val_byte.
  rewrite N_ascii_embedding by lia. lia.
Qed.

Lemma byte_val_bound c : 0 ≤ byte_val c < 256.
Proof. unfold byte_val. pose proof (N_ascii_bounded c). lia. Qed.

Lemma digit_val d : 0 ≤ d ≤ 9 → byte_val (digit d) = 48 + d.
Proof. intros Hd. apply byte_val_byte. lia. Qed.

Lemma is_digit_digit d : 0 ≤ d ≤ 9 → is_digit (digit d) = true.
Proof.
  intros Hd. unfold is_digit. rewrite digit_val by done.
  apply andb_true_iff. split; apply Z.leb_le; lia.
Qed.

Lemma parse_digits_app a s t m :
  parse_digits a s = (m, None) → parse_digits a (s ++ t) = parse_digits m t.
Proof.
  revert a. induction s as [|c s IH]; intros a; simpl; [by intros [= ->]|].
  destruct (is_digit c); [|done]. case_match; [done|]. apply IH.
Qed.

Lemma parse_digits_digits fuel n :
  0 ≤ n ≤ max_uint64 → n < 10 ^ Z.of_nat fuel → parse_digits 0 (digits fuel n) = (n, None).
Proof.
  revert n. induction fuel as [|f IH]; intros n Hn Hf; [simpl in *; f_equal; lia|].
  simpl. destruct (n <? 10) eqn:E; reflect_bools.
  - simpl. rewrite is_digit_digit, digit_val by lia.
    rewrite (proj2 (Z.ltb_ge _ _)) by (unfold max_uint64; lia).
    f_equal. lia.
  - pose proof (Z.mod_pos_bound n 10). pose proof (Z.div_mod n 10).
    rewrite (parse_digits_app _ _ _ (n / 10)).
    + simpl. rewrite is_digit_digit, digit_val by lia.
      replace (n / 10 * 10 + (48 + n mod 10 - 48)) with n by lia.
      by rewrite (proj2 (Z.ltb_ge _ _)) by lia.
    + apply IH; [lia|].
      rewrite Nat2Z.inj_succ, Z.pow_succ_r in Hf by lia. lia.
Qed.

Lemma log2_pow10 n : 0 ≤ n → n < 10 ^ Z.of_nat (S (Z.to_nat (Z.log2 n))).
Proof.
  intros Hn. pose proof (Z.log2_nonneg n).
  rewrite Nat2Z.inj_succ, Z2Nat.id by done.
  destruct (decide (n = 0)) as [->|Hne]; [done|].
  apply Z.lt_le_trans with (2 ^ Z.succ (Z.log2 n)); [by apply Z.log2_spec; lia|].
  apply Z.pow_le_mono_l. lia.
Qed.

Lemma digits_head f n :
  0 ≤ n < 10 ^ Z.of_nat (S f) → ∃ c s, digits (S f) n = c :: s ∧ is_digit c = true.
Proof.
  revert n. induction f as [|f IH]; intros n Hn; cbn [digits];
    destruct (n <? 10) eqn:E; reflect_bools; cycle -1.
  { destruct (IH (n / 10)) as (c & s & H & Hc).
    - rewrite Nat2Z.inj_succ, Z.pow_succ_r in Hn by lia.
      split; [apply Z.div_pos; lia|apply Z.div_lt_upper_bound; lia].
    - cbn [digits] in H. rewrite H. simpl. eauto. }
  2: simpl in Hn; lia.
  all: exists (digit n), []; split; [done|]; apply is_digit_digit; lia.
Qed.

Lemma FormatUint_head n : 0 ≤ n → ∃ c s, FormatUint n = c :: s ∧ is_digit c = true.
Proof. intros Hn. apply digits_head. split; [done|by apply log2_pow10]. Qed.

Lemma ParseUint_FormatUint n : 0 ≤ n ≤ max_uint64 → ParseUint (FormatUint n) = (n, None).
Proof.
  intros Hn. destruct (FormatUint_head n) as (c & s & E & _); [lia|].
  unfold ParseUint. rewrite E, <- E. unfold FormatUint.
  apply parse_digits_digits; [done|]. apply log2_pow10. lia.
Qed.

Lemma digit_not_sign c : is_digit c = true → c ≠ "+"%char ∧ c ≠ "-"%char.
Proof. split; by intros ->. Qed.

(** Printing a 64-bit integer and parsing it gives it back. *)
Lemma ParseInt_FormatInt i : int64_ok i → ParseInt (FormatInt i) = (i, None).
Proof.
  intros Hi. unfold_int64. unfold FormatInt. destruct (i <? 0) eqn:E; reflect_bools.
  - unfold ParseInt, parse_signed. simpl.
    rewrite ParseUint_FormatUint by (unfold_int64; lia).
    simpl. rewrite (proj2 (Z.ltb_ge _ _)) by (unfold_int64; lia).
    f_equal. lia.
  - destruct (FormatUint_head i) as (c & s & Hc & Hd); [lia|].
    destruct (digit_not_sign c Hd) as [H1 H2].
    unfold ParseInt. rewrite Hc, !bool_decide_false by done. rewrite <- Hc.
    unfold parse_signed. rewrite ParseUint_FormatUint by (unfold_int64; lia).
    simpl. by rewrite (proj2 (Z.ltb_ge _ _)) by (unfold_int64; lia).
Qed.

Lemma parse_digits_value a s n e :
  parse_digits a s = (n, e) → 0 ≤ a ≤ max_uint64 → 0 ≤ n ≤ max_uint64.
Proof.
  revert a. induction s as [|c s IH]; intros a; simpl.
  - intros [= -> <-]. done.
  - destruct (is_digit c) eqn:Hd; [|intros [= <- <-]; unfold_int64; lia].
    case_match; [intros [= <- <-]; unfold_int64; lia|].
    intros Hp Ha. apply (IH _ Hp). unfold is_digit in Hd. reflect_bools. lia.
Qed.

(** Whatever the input, [ParseInt] returns a 64-bit integer. *)
Lemma ParseInt_ok s : int64_ok (fst (ParseInt s)).
Proof.
  assert (Hp : ∀ b t, int64_ok (fst (parse_signed b t))).
  { intros b t. unfold parse_signed, ParseUint.
    destruct t as [|c t]; [unfold_int64; simpl; lia|].
    destruct (parse_digits 0 (c :: t)) as [n e] eqn:E.
    apply parse_digits_value in E; [|unfold_int64; lia].
    unfold_int64.
    destruct e as [[]|], b; simpl; try lia; repeat case_match; simpl; reflect_bools;
      unfold_int64; lia. }
  unfold ParseInt. destruct s as [|c s]; [unfold_int64; simpl; lia|].
  repeat case_match; apply Hp.
Qed.

(** A number that starts with a digit is not negative. *)
Lemma ParseInt_digit_nonneg c s n e :
  is_digit c = true → ParseInt (c :: s) = (n, e) → 0 ≤ n.
Proof.
  intros Hc. destruct (digit_not_sign c Hc) as [Hp Hm]. unfold ParseInt.
  rewrite !bool_decide_false by done. unfold parse_signed.
  destruct (ParseUint (c :: s)) as [un err] eqn:E.
  apply parse_digits_value in E; [|unfold_int64; lia].
  destruct err as [[]|]; cbn; repeat case_match; intros [= <- _]; unfold_int64; lia.
Qed.

(** ** Facts: the last occurrence of a byte *)

Lemma last_index_none i w c : 0 ≤ i → (c ∉ w) → last_index_from i w [c] = -1.
Proof.
  revert i. induction w as [|d w IH]; intros i Hi Hw; [done|].
  apply not_elem_of_cons in Hw as [Hd Hw]. cbn [last_index_from HasPrefix].
  rewrite IH by (done || lia). simpl. by rewrite bool_decide_false.
Qed.

Lemma last_index_byte i a c w :
  0 ≤ i → (c ∉ w) → last_index_from i (a ++ c :: w) [c] = i + Z.of_nat (length a).
Proof.
  revert i. induction a as [|d a IH]; intros i Hi Hw.
  - cbn [app last_index_from HasPrefix]. rewrite last_index_none by (done || lia). simpl.
    rewrite bool_decide_true by done. simpl. lia.
  - cbn [app last_index_from]. rewrite IH by (done || lia).
    rewrite (proj2 (Z.ltb_ge _ _)) by lia. cbn [length]. lia.
Qed.

Lemma LastIndex_split s c : 0 ≤ LastIndex s [c] → ∃ a b, s = a ++ c :: b ∧ LastIndex s [c] = Z.of_nat (length a) ∧ (c ∉ b).
Proof.
  unfold LastIndex. intros Hi. destruct (decide (c ∈ s)) as [Hin|Hn]; [|by rewrite last_index_none in Hi].
  apply list_elem_of_split_r in Hin as (a & b & -> & Hb). exists a, b. by rewrite last_index_byte.
Qed.

(** ** Facts: joining rooted paths *)

Lemma Split_app_sep sep a b : Split sep (a ++ sep :: b) = Split sep a ++ Split sep b.
Proof.
  induction a as [|d a IH]; simpl; [by rewrite bool_decide_true|].
  rewrite IH. case_bool_decide; [done|].
  by destruct (Split_cons_inv sep a) as (w & ws & ->).
Qed.

Lemma fold_clean_render m st :
  Forall norm_seg m →
  fold_left (clean_step true) (Split "/" (render m)) st = reverse m ++ st.
Proof.
  intros Hm. unfold render. simpl.
  destruct m as [|w m]; [done|].
  rewrite Split_Join by (done || by apply norm_no_slash).
  by apply fold_clean_id.
Qed.

Lemma clean_segs_join a m :
  Forall norm_seg m → clean_segs true (a ++ "/"%char :: render m) = clean_segs true a ++ m.
Proof.
  intros Hm. unfold clean_segs.
  rewrite Split_app_sep, fold_left_app, fold_clean_render by done.
  by rewrite reverse_app, reverse_involutive.
Qed.

Lemma path_join_render l m :
  Forall norm_seg l → Forall norm_seg m →
  path_join (render l) (render m) = render (l ++ m).
Proof.
  intros Hl Hm. unfold path_join.
  rewrite !filter_cons_True by done. rewrite filter_nil.
  change (Join #"/" [render l; render m]) with
    ("/"%char :: (Join #"/" l ++ "/"%char :: render m)).
  rewrite Clean_rooted, clean_segs_join by done.
  rewrite <- clean_segs_slash. fold (render l). by rewrite clean_segs_render.
Qed.

Lemma Split_elem sep s w c : w ∈ Split sep s → c ∈ w → c ∈ s.
Proof.
  revert w. induction s as [|d s IH]; intros w; simpl.
  - by intros ->%list_elem_of_singleton.
  - case_bool_decide.
    + intros [->|Hw]%elem_of_cons Hc; [by apply elem_of_nil in Hc|].
      apply elem_of_cons. right. by eapply IH.
    + destruct (Split sep s) as [|v vs].
      * by intros ->%list_elem_of_singleton Hc%list_elem_of_singleton; subst; left.
      * intros [->|Hw]%elem_of_cons Hc.
        -- apply elem_of_cons in Hc as [->|Hc]; [by left|].
           right. apply (IH v); [by left|done].
        -- right. apply (IH w); [by right|done].
Qed.

Lemma clean_segs_subset rooted s w : w ∈ clean_segs rooted s → w ∈ Split "/" s ∨ w = #"..".
Proof.
  unfold clean_segs. rewrite elem_of_reverse.
  assert (H : ∀ ws st, (w ∈ fold_left (clean_step rooted) ws st) →
              w ∈ ws ∨ w ∈ st ∨ w = #"..").
  { induction ws as [|v ws IH]; intros st; simpl; [tauto|].
    intros [?|[Hst|?]]%IH; [left; by right| |tauto].
    unfold clean_step in Hst.
    assert (Hin : w ∈ v :: st); [|apply elem_of_cons in Hin as [->|?]; [left; by left|tauto]].
    revert Hst. repeat case_match; rewrite ?elem_of_cons; subst; rewrite ?elem_of_cons; tauto. }
  intros Hw. destruct (H _ _ Hw) as [?|[Hn|?]]; [by left| |by right].
  by apply elem_of_nil in Hn.
Qed.

Lemma ReplaceByte_no_old s old new : (old ∉ new) → old ∉ ReplaceByte s old new.
Proof.
  intros Hn. unfold ReplaceByte. rewrite list_elem_of_bind. intros (d & Hd & _).
  case_bool_decide; [done|]. apply list_elem_of_singleton in Hd. congruence.
Qed.

Lemma ReplaceByte_id s old new : (old ∉ s) → ReplaceByte s old new = s.
Proof.
  induction s as [|d s IH]; intros Hs; [done|].
  apply not_elem_of_cons in Hs as [Hd Hs].
  unfold ReplaceByte in *. rewrite bind_cons, IH by done.
  by rewrite bool_decide_false by congruence.
Qed.

Lemma render_no_elem c l :
  c ≠ "/"%char → Forall (λ w, c ∉ w) l → c ∉ render l.
Proof.
  intros Hc Hl. unfold render. apply not_elem_of_cons. split; [done|].
  induction l as [|w l IH]; [apply not_elem_of_nil|].
  apply Forall_cons in Hl as [Hw Hl]. destruct l as [|w' l]; [done|].
  rewrite Join_cons by done. rewrite !not_elem_of_app. split_ands; [done| |by apply IH].
  by intros ->%list_elem_of_singleton.
Qed.

(** ** Facts: trimming and printing *)

Lemma trim_left_id P s : Forall (λ c, P c = false) s → trim_left P s = s.
Proof. destruct s as [|c s]; [done|]. intros [Hc _]%Forall_cons. simpl. by rewrite Hc. Qed.

Lemma trim_both_id P s : Forall (λ c, P c = false) s → trim_both P s = s.
Proof.
  intros Hs. unfold trim_both. rewrite (trim_left_id P s) by done.
  rewrite trim_left_id by by apply Forall_reverse.
  apply reverse_involutive.
Qed.

Lemma digits_all f n : 0 ≤ n → Forall (λ c, is_digit c = true) (digits f n).
Proof.
  revert n. induction f as [|f IH]; intros n Hn; simpl; [constructor|].
  destruct (n <? 10) eqn:E; reflect_bools.
  - apply Forall_singleton. apply is_digit_digit. lia.
  - apply Forall_app. split; [apply IH, Z.div_pos; lia|].
    apply Forall_singleton, is_digit_digit. pose proof (Z.mod_pos_bound n 10). lia.
Qed.

Lemma FormatInt_digits i : 0 ≤ i → Forall (λ c, is_digit c = true) (FormatInt i).
Proof.
  intros Hi. unfold FormatInt. rewrite (proj2 (Z.ltb_ge _ _)) by done. by apply digits_all.
Qed.

Lemma FormatInt_nonempty i : FormatInt i ≠ [].
Proof.
  unfold FormatInt. destruct (i <? 0) eqn:E; [done|]. reflect_bools.
  by destruct (FormatUint_head i E) as (c & s & -> & _).
Qed.

Lemma FormatInt_chars i : Forall (λ c, is_digit c = true ∨ c = "-"%char) (FormatInt i).
Proof.
  unfold FormatInt. destruct (i <? 0) eqn:E; reflect_bools.
  - apply Forall_cons. split; [by right|].
    eapply Forall_impl; [by apply digits_all; lia|]. by left.
  - eapply Forall_impl; [by apply digits_all|]. by left.
Qed.

Lemma digit_ne c d : is_digit c = true → is_digit d = false → c ≠ d.
Proof. intros H1 H2 ->. congruence. Qed.

Lemma digits_not_in s d :
  is_digit d = false → Forall (λ c, is_digit c = true) s → d ∉ s.
Proof.
  intros Hd Hs Hin. apply (proj1 (Forall_forall _ _) Hs) in Hin. congruence.
Qed.

Lemma digit_not_space c : is_digit c = true → is_http_space c = false.
Proof.
  intros Hc. apply bool_decide_eq_false. intros Hin.
  repeat (apply elem_of_cons in Hin as [->|Hin]; [done|]). by apply elem_of_nil in Hin.
Qed.

Lemma IndexByte_app a b c : (c ∉ a) → IndexByte (a ++ c :: b) c = Z.of_nat (length a).
Proof.
  unfold IndexByte. intros Ha.
  enough (H : ∀ i, index_byte_from i (a ++ c :: b) c = i + Z.of_nat (length a)) by by rewrite H.
  induction a as [|d a IH]; intros i; simpl.
  - rewrite bool_decide_true by done. lia.
  - apply not_elem_of_cons in Ha as [Hd Ha].
    rewrite bool_decide_false by congruence. rewrite IH by done. lia.
Qed.

Lemma slice_to_app a b : slice_to (a ++ b) (Z.of_nat (length a)) = a.
Proof. unfold slice_to. rewrite Nat2Z.id. apply take_app_length. Qed.

Lemma slice_from_app a b n :
  n = Z.of_nat (length a) → slice_from (a ++ b) n = b.
Proof. intros ->. unfold slice_from. rewrite Nat2Z.id. apply drop_app_length. Qed.

Lemma slice_app a b c i j :
  i = Z.of_nat (length a) → j = Z.of_nat (length a + length b) → slice (a ++ b ++ c) i j = b.
Proof.
  intros -> ->. unfold slice, slice_to. rewrite app_assoc, Nat2Z.id.
  rewrite <- length_app, take_app_length. by apply slice_from_app.
Qed.

(** *** The parent of a path *)

Lemma after_last_slash_app s w :
  ("/"%char ∉ w) → after_last_slash (s ++ "/"%char :: w) = w.
Proof.
  intros Hw. induction s as [|c s IH]; cbn [after_last_slash app].
  - rewrite bool_decide_eq_false_2, bool_decide_eq_true_2 by done. done.
  - rewrite bool_decide_eq_true_2 by set_solver. done.
Qed.

Lemma path_Dir_app s w :
  ("/"%char ∉ w) → path_Dir (s ++ "/"%char :: w) = Clean (s ++ #"/").
Proof.
  intros Hw. unfold path_Dir, path_Split. simpl. rewrite after_last_slash_app by done. f_equal.
  rewrite length_app. simpl. replace (s ++ "/"%char :: w) with ((s ++ #"/") ++ w) by (by rewrite <- app_assoc).
  apply take_app_length'. rewrite length_app. simpl. lia.
Qed.

Lemma Clean_render_slash l : Forall norm_seg l → l ≠ [] → Clean (render l ++ #"/") = render l.
Proof.
  intros Hl Hne. unfold render at 1. simpl. rewrite Clean_rooted. f_equal. unfold clean_segs.
  assert (Join #"/" l ++ #"/" = Join #"/" (l ++ [[]])) as ->.
  { rewrite Join_app by done. done. }
  rewrite Split_Join.
  - rewrite fold_left_app, (fold_clean_id l) by done. simpl. unfold clean_step. simpl.
    by rewrite app_nil_r, reverse_involutive.
  - by destruct l.
  - apply Forall_app. split; [by apply norm_no_slash|]. constructor; [|done]. apply not_elem_of_nil.
Qed.

Lemma render_snoc l w : ∃ s, render (l ++ [w]) = s ++ "/"%char :: w.
Proof.
  destruct (decide (l = [])) as [->|Hne]; [by exists []|].
  exists (render l). unfold render. by rewrite Join_app by done.
Qed.

Lemma path_Dir_render l w :
  Forall norm_seg l → norm_seg w → path_Dir (render (l ++ [w])) = render l.
Proof.
  intros Hl (Hw0&_&_&Hw). destruct (decide (l = [])) as [->|Hne].
  - change (render ([] ++ [w])) with ([] ++ "/"%char :: w). rewrite path_Dir_app by done. done.
  - assert (render (l ++ [w]) = render l ++ "/"%char :: w) as ->.
    { unfold render. rewrite Join_app by done. done. }
    rewrite path_Dir_app by done. by apply Clean_render_slash.
Qed.

Lemma path_Base_render l w : norm_seg w → path_Base (render (l ++ [w])) = w.
Proof.
  intros (Hw0&_&_&Hw). destruct (render_snoc l w) as [s Hs].
  assert (∃ c s', render (l ++ [w]) = c :: s') as (c&s'&E) by (unfold render; eauto).
  unfold path_Base. rewrite E, <- E, Hs. clear c s' E Hs.
  assert (trim_left (λ c, bool_decide (c = "/"%char)) (reverse (s ++ "/"%char :: w))
          = reverse (s ++ "/"%char :: w)) as ->.
  { rewrite reverse_app, reverse_cons. destruct (reverse w) as [|d w'] eqn:Er.
    - by apply (f_equal reverse) in Er; rewrite reverse_involutive in Er.
    - simpl. rewrite bool_decide_false; [done|]. intros ->. apply Hw.
      apply elem_of_reverse. rewrite Er. by constructor. }
  rewrite reverse_involutive, after_last_slash_app by done. by destruct w.
Qed.

(** The number a digit string stands for. *)
Definition decimal (s : gostr) : Z := fold_left (λ a c, a * 10 + (byte_val c - 48)) s 0.

Lemma decimal_digits fuel n : 0 ≤ n < 10 ^ Z.of_nat fuel → decimal (digits fuel n) = n.
Proof.
  revert n. induction fuel as [|fuel IH]; intros n Hn; [simpl in *; unfold decimal; simpl; lia|].
  simpl. destruct (n <? 10) eqn:E; reflect_bools.
  - unfold decimal. simpl. rewrite digit_val by lia. lia.
  - pose proof (Z.mod_pos_bound n 10). pose proof (Z.div_mod n 10).
    unfold decimal. rewrite fold_left_app. fold (decimal (digits fuel (n / 10))). rewrite IH.
    + simpl. rewrite digit_val by lia. lia.
    + rewrite Nat2Z.inj_succ, Z.pow_succ_r in Hn by lia. lia.
Qed.

Lemma FormatUint_inj i j : 0 ≤ i → 0 ≤ j → FormatUint i = FormatUint j → i = j.
Proof.
  intros Hi Hj E. apply (f_equal decimal) in E. unfold FormatUint in E.
  rewrite !decimal_digits in E by (split; [done|by apply log2_pow10]). done.
Qed.

Lemma FormatInt_inj i j : FormatInt i = FormatInt j → i = j.
Proof.
  unfold FormatInt. destruct (Z.ltb_spec i 0), (Z.ltb_spec j 0); intros E.
  - injection E as E. apply FormatUint_inj in E; lia.
  - destruct (FormatUint_head j) as (c & s & Ej & Hc); [done|]. rewrite Ej in E. injection E as <- _. done.
  - destruct (FormatUint_head i) as (c & s & Ei & Hc); [done|]. rewrite Ei in E. injection E as -> _. done.
  - by apply FormatUint_inj.
Qed.
