(* ===== verification/Errs.v ===== *)
(** * Errors: package [internal/errs]

    The sentinel errors and the predicates that classify a wrapped error.
    A Go error value is a sentinel, a fresh error made from a message, or
    one of these wrapped by [errors.WithMessage]/[Wrap]/[WithStack] (which
    [pkgerr.Cause] removes), by [fmt.Errorf] with a [%w] verb (which only
    [errors.Is] looks through) or joined by [errors.Join]. *)

From S2P Require Import Prelude.

(** The sentinels of [internal/errs] and of [pkg/sign], and
    [gorm.ErrRecordNotFound]. *)
Inductive sentinel :=
  | NotImplement | NotSupport | RelativePath
  | MoveBetweenTwoStorages | UploadNotSupported
  | MetaNotFound | StorageNotFound | StreamIncomplete | StreamPeekFail
  | UnknownArchiveFormat | WrongArchivePassword | DriverExtractNotSupported
  | ObjectNotFound | NotFolder | NotFile
  | PermissionDenied | InvalidName
  | EmptyUsername | EmptyPassword | WrongPassword | DeleteAdminOrGuest
  | TooManyDevices | SessionInactive
  | EmptyToken | LinkIsDir
  | ErrChangeDefaultRole
  | ErrRecordNotFound
  | ErrSignExpired | ErrSignInvalid | ErrExpireInvalid | ErrExpireMissing.

#[export] Instance sentinel_eq_dec : EqDecision sentinel.
Proof. solve_decision. Defined.

Inductive error :=
  | ESentinel (s : sentinel)
  | EMessage (msg : gostr)
  | EWithMessage (e : error) (msg : gostr)
  | EFmtWrap (e : error) (msg : gostr)
  | EJoin (e1 e2 : error).

#[export] Instance error_eq_dec : EqDecision error.
Proof. solve_decision. Defined.

(** [pkgerr.Cause] *)
Fixpoint Cause (e : error) : error :=
  match e with
  | EWithMessage e' _ => Cause e'
  | _ => e
  end.

(** [errors.Is] against a sentinel *)
Fixpoint errors_Is (e : error) (s : sentinel) : bool :=
  match e with
  | ESentinel s' => bool_decide (s' = s)
  | EMessage _ => false
  | EWithMessage e' _ => errors_Is e' s
  | EFmtWrap e' _ => errors_Is e' s
  | EJoin e1 e2 => errors_Is e1 s || errors_Is e2 s
  end.

(** [errors.Join] of errors that are not nil; it wraps a single one too. *)
Fixpoint errors_Join (l : list error) : option error :=
  match l with
  | [] => None
  | e :: l' => Some (match errors_Join l' with Some e' => EJoin e e' | None => EFmtWrap e [] end)
  end.

(** [NewErr]: a constant error with an extra message. *)
Definition NewErr (s : sentinel) (msg : gostr) : error := EFmtWrap (ESentinel s) msg.

Definition IsNotFoundError (e : error) : bool :=
  errors_Is (Cause e) ObjectNotFound || errors_Is (Cause e) StorageNotFound.

Definition IsNotSupportError (e : error) : bool := errors_Is (Cause e) NotSupport.

Definition IsNotImplement (e : error) : bool := errors_Is (Cause e) NotImplement.

Definition IsObjectNotFound (e : error) : bool := errors_Is (Cause e) ObjectNotFound.

(** Results of fallible code. *)
Abbreviation result A := (error + A)%type.

Notation "'let!' x ':=' c 'in' k" :=
  (match c with inl e => inl e | inr x => k end)
  (at level 10, x pattern, c at level 100, k at level 200,
   format "'[v' 'let!'  x  ':='  c  'in' '//' k ']'") : go_scope.

(** [err.Error()] *)
Class ErrorTexts := err_Error : error → gostr.

(** Wrapping never hides a sentinel from [errors.Is] after [Cause]. *)
Lemma errors_Is_Cause e s : errors_Is (Cause e) s = errors_Is e s.
Proof. by induction e. Qed.

Lemma IsObjectNotFound_wrap e msg : IsObjectNotFound (EWithMessage e msg) = IsObjectNotFound e.
Proof. done. Qed.
