(* ===== verification/Store.v ===== *)
(** * What package [op] needs from the database and from the caches

    [internal/db] works on GORM tables and [internal/op] keeps rows in
    go-cache caches; both libraries are interfaces here.  The operations and
    the laws are classes, so that the client's theorems hold for every
    implementation; finite maps implement both. *)

From S2P Require Import Prelude GoStrings Errs.

Local Open Scope Z_scope.

(** ** Calls that change state and may fail *)

(** A call returns its result and the state it leaves, also when it fails. *)
Definition Op (S A : Type) := S → result A * S.

Definition op_ret {S A} (a : A) : Op S A := λ s, (inr a, s).
Definition op_fail {S A} (e : error) : Op S A := λ s, (inl e, s).
Definition op_bind {S A B} (m : Op S A) (k : A → Op S B) : Op S B :=
  λ s, match m s with
       | (inl e, s') => (inl e, s')
       | (inr a, s') => k a s'
       end.
Definition op_modify {S} (f : S → S) : Op S unit := λ s, (inr (), f s).
Definition op_gets {S A} (f : S → A) : Op S A := λ s, (inr (f s), s).

(** A fallible read of the state, and a fallible write of it. *)
Definition op_query {S A} (f : S → result A) : Op S A := λ s, (f s, s).
Definition op_exec {S} (f : S → result S) : Op S unit :=
  λ s, match f s with inl e => (inl e, s) | inr s' => (inr (), s') end.

Notation "'let*' x ':=' m 'in' k" := (op_bind m (λ x, k))
  (at level 10, x pattern, m at level 100, k at level 200,
   format "'[v' 'let*'  x  ':='  m  'in' '//' k ']'") : go_scope.

Lemma op_bind_inr {S A B} (m : Op S A) (k : A → Op S B) s b s' :
  op_bind m k s = (inr b, s') → ∃ a s1, m s = (inr a, s1) ∧ k a s1 = (inr b, s').
Proof. unfold op_bind. destruct (m s) as [[e|a] s1]; [done|]. eauto. Qed.

(** A call preserves [P], whatever it returns. *)
Definition keeps {S A} (P : S → Prop) (m : Op S A) : Prop := ∀ s, P s → P (m s).2.

Lemma keeps_ret {S A} (P : S → Prop) (a : A) : keeps P (op_ret a).
Proof. by intros s. Qed.
Lemma keeps_fail {S A} (P : S → Prop) (e : error) : keeps P (op_fail (A := A) e).
Proof. by intros s. Qed.
Lemma keeps_query {S A} (P : S → Prop) (f : S → result A) : keeps P (op_query f).
Proof. by intros s. Qed.
Lemma keeps_gets {S A} (P : S → Prop) (f : S → A) : keeps P (op_gets f).
Proof. by intros s. Qed.
Lemma keeps_modify {S} (P : S → Prop) (f : S → S) :
  (∀ s, P s → P (f s)) → keeps P (op_modify f).
Proof. intros H s Hs. by apply H. Qed.
Lemma keeps_exec {S} (P : S → Prop) (f : S → result S) :
  (∀ s s', P s → f s = inr s' → P s') → keeps P (op_exec f).
Proof. intros H s Hs. unfold op_exec. destruct (f s) eqn:E; [done|]. simpl. eauto. Qed.
Lemma keeps_bind {S A B} (P : S → Prop) (m : Op S A) (k : A → Op S B) :
  keeps P m → (∀ a, keeps P (k a)) → keeps P (op_bind m k).
Proof.
  intros Hm Hk s Hs. unfold op_bind. specialize (Hm s Hs).
  destruct (m s) as [[e|a] s1]; simpl in *; [done|]. by apply Hk.
Qed.

#[export] Hint Resolve keeps_ret keeps_fail keeps_query keeps_gets : alist.

(** ** Tables *)

(** A row type: its primary key, an unsigned integer, and its unique column. *)
Class Row (R : Type) := {
  row_id : R → Z;
  with_id : Z → R → R;
  row_key : R → gostr;
}.

(** [First] by primary key and by a condition, [Find], [Save] of an existing
    row, [Create], [Delete] and a conditional [Update]. *)
Class Table (R : Type) := {
  table : Type;
  First : table → Z → result R;
  FirstWhere : table → (R → bool) → result R;
  FindAll : table → result (list R);
  Save : table → R → result table;
  CreateRow : table → R → result (table * R);
  DeleteRow : table → Z → result table;
  UpdateWhere : table → (R → bool) → (R → R) → result table;
}.
Arguments table R {_}.

Definition not_found : error := ESentinel ErrRecordNotFound.

(** The behaviour of the calls that succeed, and of those that find nothing;
    the library does not return the program's own sentinels. *)
Class TableLaws (R : Type) `{!Row R, !Table R} := {
  rows : table R → gmap Z R;
  rows_id : ∀ t i r, rows t !! i = Some r → row_id r = i;
  rows_uint : ∀ t i r, rows t !! i = Some r → 0 ≤ i ≤ max_uint64;
  rows_unique : ∀ t i j r1 r2,
    rows t !! i = Some r1 → rows t !! j = Some r2 → row_key r1 = row_key r2 → i = j;
  First_ok : ∀ t i r, First t i = inr r → rows t !! i = Some r;
  First_none : ∀ t i e, First t i = inl e → errors_Is e ErrRecordNotFound = true → rows t !! i = None;
  FirstWhere_ok : ∀ t p r, FirstWhere t p = inr r → p r = true ∧ ∃ i, rows t !! i = Some r;
  FirstWhere_none : ∀ t p e i r,
    FirstWhere t p = inl e → errors_Is e ErrRecordNotFound = true → rows t !! i = Some r → p r = false;
  FirstWhere_foreign : ∀ t p e, FirstWhere t p = inl e → Cause e ≠ ESentinel MetaNotFound;
  FindAll_ok : ∀ t l r, FindAll t = inr l → r ∈ l ↔ ∃ i, rows t !! i = Some r;
  Save_ok : ∀ t t' r, is_Some (rows t !! row_id r) → Save t r = inr t' →
    rows t' = <[row_id r := r]> (rows t);
  CreateRow_ok : ∀ t t' r r', CreateRow t r = inr (t', r') →
    ∃ i, r' = with_id i r ∧ row_id r' = i ∧ rows t !! i = None ∧ rows t' = <[i := r']> (rows t);
  DeleteRow_ok : ∀ t t' i, DeleteRow t i = inr t' → rows t' = delete i (rows t);
  UpdateWhere_ok : ∀ t t' p f, UpdateWhere t p f = inr t' →
    (∀ r, row_id (f r) = row_id r ∧ row_key (f r) = row_key r) →
    rows t' = (λ r, if p r then f r else r) <$> rows t;
}.

(** A database that answers: rows are found, and a write that changes neither
    primary keys nor unique columns succeeds. *)
Class TableUp (R : Type) `{!Row R, !Table R, !TableLaws R} : Prop := {
  First_up : ∀ t i r, rows t !! i = Some r → First t i = inr r;
  Save_up : ∀ t r r0, rows t !! row_id r = Some r0 → row_key r = row_key r0 → ∃ t', Save t r = inr t';
  UpdateWhere_up : ∀ t p f,
    (∀ r, row_id (f r) = row_id r ∧ row_key (f r) = row_key r) → ∃ t', UpdateWhere t p f = inr t';
}.

(** ** Caches *)

Class Cache (V : Type) := {
  cache : Type;
  cache_Get : cache → gostr → option V;
  cache_Set : cache → gostr → V → Z → cache;
  cache_Del : cache → gostr → cache;
  cache_Clear : cache → cache;
}.
Arguments cache V {_}.

Class CacheLaws (V : Type) `{!Cache V} := {
  cache_Get_Set : ∀ c k v ex k',
    cache_Get (cache_Set c k v ex) k' = if decide (k' = k) then Some v else cache_Get c k';
  cache_Get_Del : ∀ c k k',
    cache_Get (cache_Del c k) k' = if decide (k' = k) then None else cache_Get c k';
  cache_Get_Clear : ∀ c k, cache_Get (cache_Clear c) k = None;
}.

(** Time passes: entries may expire. *)
Definition expired {V} `{!Cache V} (c c' : cache V) : Prop :=
  ∀ k, cache_Get c' k = None ∨ cache_Get c' k = cache_Get c k.

(** ** Finite maps implement both *)

Definition map_Cache V : Cache V := {|
  cache := gmap gostr V;
  cache_Get c k := c !! k;
  cache_Set c k v _ := <[k := v]> c;
  cache_Del c k := delete k c;
  cache_Clear _ := ∅;
|}.

Lemma map_CacheLaws V : @CacheLaws V (map_Cache V).
Proof.
  split; simpl.
  - intros c k v _ k'. destruct (decide (k' = k)) as [->|]; [apply lookup_insert_eq|].
    by apply lookup_insert_ne.
  - intros c k k'. destruct (decide (k' = k)) as [->|]; [apply lookup_delete_eq|].
    by apply lookup_delete_ne.
  - intros. apply lookup_empty.
Qed.

(** A table whose rows are stored under their primary keys and differ in
    their unique column. *)
Definition map_table_ok {R} `{!Row R} (m : gmap Z R) : Prop :=
  map_Forall (λ i r, row_id r = i ∧ 0 ≤ i ≤ max_uint64) m ∧
  map_Forall (λ i r, map_Forall (λ j r', row_key r = row_key r' → i = j) m) m.

#[export] Instance map_table_ok_dec {R} `{!Row R} (m : gmap Z R) : Decision (map_table_ok m).
Proof. unfold map_table_ok. apply _. Defined.

Definition dup_key : error := EMessage #"UNIQUE constraint failed".

(** The next value of the primary key. *)
Definition fresh_id {R} (m : gmap Z R) : Z := 1 + map_fold (λ i _ acc, Z.max i acc) 0 m.

Definition checked {R} `{!Row R} (m : gmap Z R) : result { m : gmap Z R | map_table_ok m } :=
  match decide (map_table_ok m) with
  | left p => inr (m ↾ p)
  | right _ => inl dup_key
  end.

Definition find_row {R} (p : R → bool) (m : gmap Z R) : result R :=
  match list_find (λ r, p r = true) (map_to_list m).*2 with
  | Some (_, r) => inr r
  | None => inl not_found
  end.

Definition map_Table (R : Type) `{!Row R} : Table R := {|
  table := { m : gmap Z R | map_table_ok m };
  First t i := match `t !! i with Some r => inr r | None => inl not_found end;
  FirstWhere t p := find_row p (`t);
  FindAll t := inr (map_to_list (`t)).*2;
  Save t r := checked (<[row_id r := r]> (`t));
  CreateRow t r :=
    let i := fresh_id (`t) in
    let r' := with_id i r in
    let! t' := checked (<[i := r']> (`t)) in inr (t', r');
  DeleteRow t i := checked (delete i (`t));
  UpdateWhere t p f := checked ((λ r, if p r then f r else r) <$> `t);
|}.

Lemma checked_ok {R} `{!Row R} (m : gmap Z R) t : checked m = inr t → `t = m.
Proof. unfold checked. destruct (decide _); [|done]. intros [= <-]. done. Qed.

Lemma fresh_id_ge {R} (m : gmap Z R) i r : m !! i = Some r → i < fresh_id m.
Proof.
  unfold fresh_id. revert i r.
  apply (map_fold_weak_ind (λ acc m, ∀ i r, m !! i = Some r → i < 1 + acc)); [done|].
  intros j x m' acc Hj IH i r. destruct (decide (i = j)) as [->|]; [lia|].
  rewrite lookup_insert_ne by done. intros H%IH. lia.
Qed.

Lemma find_row_ok {R} (p : R → bool) (m : gmap Z R) :
  match find_row p m with
  | inr r => p r = true ∧ ∃ i, m !! i = Some r
  | inl _ => ∀ i r, m !! i = Some r → p r = false
  end.
Proof.
  unfold find_row. destruct (list_find _ _) as [[j r]|] eqn:E.
  - apply list_find_Some in E as (Hj&Hp&_). split; [done|].
    apply list_elem_of_lookup_2 in Hj. apply list_elem_of_fmap in Hj as ([i r']&->&Hin).
    apply elem_of_map_to_list in Hin. eauto.
  - apply list_find_None in E. intros i r Hr. rewrite Forall_forall in E.
    destruct (p r) eqn:Ep; [|done]. exfalso. apply (E r); [|done].
    apply list_elem_of_fmap. exists (i, r). split; [done|]. by apply elem_of_map_to_list.
Qed.

(** The laws, for a row type whose key can be set. *)
Lemma map_TableLaws (R : Type) `{!Row R} :
  (∀ i (r : R), row_id (with_id i r) = i) → @TableLaws R _ (map_Table R).
Proof.
  intros Hid. refine {| rows := λ t : @table R (map_Table R), `t |}.
  - intros [m [H1 H2]] i r. simpl. apply H1.
  - intros [m [H1 H2]] i r. simpl. apply H1.
  - intros [m [H1 H2]] i j r1 r2. simpl. intros E1 E2. apply (H2 i r1 E1 j r2 E2).
  - intros t i r. simpl. destruct (`t !! i); naive_solver.
  - intros t i e. simpl. destruct (`t !! i); naive_solver.
  - intros t p r. simpl. intros E. pose proof (find_row_ok p (`t)) as H. by rewrite E in H.
  - intros t p e i r. simpl. intros E _. pose proof (find_row_ok p (`t)) as H. rewrite E in H. apply H.
  - intros t p e. simpl. unfold find_row. case_goal; [case_goal; done|]. intros [= <-]. done.
  - intros t l r [= <-]. rewrite list_elem_of_fmap. split.
    + intros ([i r']&->&Hin%elem_of_map_to_list). eauto.
    + intros [i Hi]. exists (i, r). split; [done|]. by apply elem_of_map_to_list.
  - intros t t' r _. simpl. apply checked_ok.
  - intros t t' r r'. simpl. destruct (checked _) as [|t1] eqn:E; [done|]. intros [= <- <-].
    exists (fresh_id (`t)). split_ands; [done|apply Hid| |by apply checked_ok].
    apply eq_None_not_Some. intros [r1 H1%fresh_id_ge]. lia.
  - intros t t' i. simpl. apply checked_ok.
  - intros t t' p f E _. simpl in *. by apply checked_ok.
Defined.

Lemma checked_up {R} `{!Row R} (m : gmap Z R) : map_table_ok m → ∃ t, checked m = inr t.
Proof. intros H. unfold checked. destruct (decide _); [eauto|done]. Qed.

Lemma map_TableUp (R : Type) `{!Row R} (Hid : ∀ i (r : R), row_id (with_id i r) = i) :
  @TableUp R _ (map_Table R) (map_TableLaws R Hid).
Proof.
  split; simpl.
  - intros t i r E. by rewrite E.
  - intros [m [H1 H2]] r r0 E Ek. simpl in *. apply checked_up. split.
    + apply map_Forall_insert_2; [|done]. split; [done|]. apply (H1 _ _ E).
    + intros i r1 Hi j r2 Hj Ekey. rewrite lookup_insert_Some in Hi. rewrite lookup_insert_Some in Hj.
      destruct Hi as [[<- <-]|[Hne Hi]], Hj as [[<- <-]|[Hne' Hj]]; [done| | |by eapply H2].
      * apply (H2 _ _ E j r2 Hj). congruence.
      * apply (H2 _ _ Hi _ r0 E). congruence.
  - intros [m [H1 H2]] p f Hf. simpl. apply checked_up. split.
    + intros i r. rewrite lookup_fmap. destruct (m !! i) as [r0|] eqn:E; [|done]. intros [= <-].
      specialize (H1 i r0 E). destruct (p r0); [|done]. by rewrite (proj1 (Hf r0)).
    + intros i r1 Hi j r2 Hj. rewrite lookup_fmap in Hi, Hj.
      destruct (m !! i) as [a|] eqn:Ea; [|done]. destruct (m !! j) as [b|] eqn:Eb; [|done].
      simpl in Hi, Hj. injection Hi as <-. injection Hj as <-. intros Ekey. apply (H2 i a Ea j b Eb).
      destruct (p a), (p b); rewrite ?(proj2 (Hf a)), ?(proj2 (Hf b)) in Ekey; done.
Qed.
