(* ===== verification/Paths.v ===== *)
(** * Path handling: [pkg/utils/path.go], [pkg/utils/balance.go] and
      [server/webdav/path.go]

    Every request path of the server goes through [FixAndCleanPath]; the
    permission checks, the mount-point lookup and the lock system compare
    the cleaned strings.  The theorems relate the string functions to the
    abstract view of a path as a list of segments ([path_segs]). *)

From S2P Require Import Prelude GoStrings Errs.

Local Open Scope Z_scope.

(** ** The code *)

Definition FixAndCleanPath (path : gostr) : gostr :=
  let path := ReplaceByte path "\" #"/" in
  let path := if negb (HasPrefix path #"/") then #"/" ++ path else path in
  Clean path.

Definition PathAddSeparatorSuffix (path : gostr) : gostr :=
  if negb (HasSuffix path #"/") then path ++ #"/" else path.

Definition PathEqual (path1 path2 : gostr) : bool :=
  bool_decide (FixAndCleanPath path1 = FixAndCleanPath path2).

Definition IsSubPath (path subPath : gostr) : bool :=
  let path := FixAndCleanPath path in
  let subPath := FixAndCleanPath subPath in
  bool_decide (path = subPath) || HasPrefix subPath (PathAddSeparatorSuffix path).

(** [url.PathEscape], for one path segment. *)
Definition is_unreserved (c : ascii) : bool :=
  let v := byte_val c in
  ((97 <=? v) && (v <=? 122)) || ((65 <=? v) && (v <=? 90)) || is_digit c
  || bool_decide (c ∈ #"-_.~").

Definition should_escape_segment (c : ascii) : bool :=
  negb (is_unreserved c) && negb (bool_decide (c ∈ #"$&+:=@")).

Definition upperhex (d : Z) : ascii :=
  if d <? 10 then val_byte (48 + d) else val_byte (55 + d).

Definition PathEscape (s : gostr) : gostr :=
  s ≫= λ c,
    if should_escape_segment c
    then ["%"%char; upperhex (byte_val c / 16); upperhex (byte_val c mod 16)]
    else [c].

Definition toReplace : list (ascii * gostr) :=
  [("%"%char, #"%25"); ("%"%char, #"%25"); ("?"%char, #"%3F"); ("#"%char, #"%23")].

(** The variadic [all ...bool] is a list. *)
Definition EncodePath (path : gostr) (all : list bool) : gostr :=
  let seg := Split "/" path in
  let seg := map (λ w,
    if match all with a :: _ => a | [] => false end then PathEscape w
    else fold_left (λ w r, ReplaceByte w (fst r) (snd r)) toReplace w) seg in
  Join #"/" seg.

(** [url.PathUnescape]; [None] is its error. *)
Definition unhex (c : ascii) : option Z :=
  let v := byte_val c in
  if is_digit c then Some (v - 48)
  else if (97 <=? v) && (v <=? 102) then Some (v - 87)
  else if (65 <=? v) && (v <=? 70) then Some (v - 55)
  else None.

Fixpoint PathUnescape (s : gostr) : option gostr :=
  match s with
  | [] => Some []
  | c :: s1 =>
      if bool_decide (c = "%"%char) then
        match s1 with
        | h :: l :: s2 =>
            match unhex h, unhex l with
            | Some a, Some b => cons (val_byte (16 * a + b)) <$> PathUnescape s2
            | _, _ => None
            end
        | _ => None
        end
      else cons c <$> PathUnescape s1
  end.

(** [parsePath] of [server/middlewares/down.go]: the error is ignored and
    the path is then the empty string. *)
Definition parsePath (path : gostr) : gostr :=
  let path := default [] (PathUnescape path) in
  FixAndCleanPath path.

Definition JoinBasePath (basePath reqPath : gostr) : result gostr :=
  if bool_decide (reqPath = #"..") || HasSuffix reqPath #"/.."
     || HasPrefix reqPath #"../" || Contains reqPath #"/../"
  then inl (ESentinel RelativePath)
  else inr (path_join (FixAndCleanPath basePath) (FixAndCleanPath reqPath)).

Definition IsBalance (str : gostr) : bool := Contains str #".balance".

Definition GetActualMountPath (mountPath : gostr) : gostr :=
  let bIndex := LastIndex mountPath #".balance" in
  if negb (bIndex =? -1) then slice_to mountPath bIndex else mountPath.

Definition GetFullPath (mountPath path : gostr) : gostr :=
  path_join (GetActualMountPath mountPath) path.

Definition ValidateNameComponent (name : gostr) : option error :=
  if bool_decide (name = #"") then Some (ESentinel InvalidName)
  else if bool_decide (name = #".") || bool_decide (name = #"..")
    then Some (ESentinel InvalidName)
  else if Contains name #"/" || Contains name #"\" then Some (ESentinel InvalidName)
  else if Contains name #".." then Some (ESentinel InvalidName)
  else if Contains name ["000"%char] then Some (ESentinel InvalidName)
  else None.

Definition JoinUnderBase (baseDir name : gostr) : result gostr :=
  match ValidateNameComponent name with
  | Some err => inl err
  | None =>
      let base := FixAndCleanPath baseDir in
      let joined := FixAndCleanPath (path_join base name) in
      if negb (IsSubPath base joined) then inl (ESentinel InvalidName)
      else inr joined
  end.

(** ** Paths as segment lists *)

Definition path_segs (p : gostr) : list gostr :=
  clean_segs true (ReplaceByte p "\" #"/").

(** A path segment of a cleaned request path: no backslash either. *)
Definition good_seg (w : gostr) : Prop := norm_seg w ∧ ("\"%char ∉ w).

#[export] Instance good_seg_dec w : Decision (good_seg w).
Proof. unfold good_seg. apply _. Defined.

Lemma good_norm l : Forall good_seg l → Forall norm_seg l.
Proof. intros H. eapply Forall_impl; [exact H|]. by intros w [? _]. Qed.

Lemma path_segs_norm p : Forall norm_seg (path_segs p).
Proof. apply clean_segs_norm. Qed.

Lemma path_segs_good p : Forall good_seg (path_segs p).
Proof.
  apply Forall_forall. intros w Hw. split.
  - by apply (proj1 (Forall_forall _ _) (path_segs_norm p)).
  - intros Hc. apply clean_segs_subset in Hw as [Hw| ->].
    + apply (ReplaceByte_no_old p "\" #"/"); [decide_now|].
      by eapply Split_elem.
    + revert Hc. decide_now.
Qed.

Lemma FixAndCleanPath_segs p : FixAndCleanPath p = render (path_segs p).
Proof.
  unfold FixAndCleanPath, path_segs.
  destruct (HasPrefix (ReplaceByte p "\" #"/") #"/") eqn:E; simpl negb; cbv iota.
  - unfold Clean. by rewrite E.
  - simpl app. by rewrite Clean_rooted.
Qed.

Lemma path_segs_render l : Forall good_seg l → path_segs (render l) = l.
Proof.
  intros Hl. unfold path_segs. rewrite ReplaceByte_id.
  - apply clean_segs_render. by apply good_norm.
  - apply render_no_elem; [done|]. eapply Forall_impl; [exact Hl|]. by intros w [_ ?].
Qed.

Lemma path_segs_Fix p : path_segs (FixAndCleanPath p) = path_segs p.
Proof. rewrite FixAndCleanPath_segs. apply path_segs_render, path_segs_good. Qed.

Lemma FixAndCleanPath_render l : Forall good_seg l → FixAndCleanPath (render l) = render l.
Proof. intros Hl. by rewrite FixAndCleanPath_segs, path_segs_render. Qed.

Lemma PathEqual_segs p q : PathEqual p q = true ↔ path_segs p = path_segs q.
Proof.
  unfold PathEqual. rewrite bool_decide_eq_true, !FixAndCleanPath_segs. split; [|congruence].
  apply render_inj; apply path_segs_norm.
Qed.

Lemma render_suffix_slash l :
  Forall norm_seg l → HasSuffix (render l) #"/" = true ↔ l = [].
Proof.
  intros Hl. rewrite HasSuffix_spec. split; [|intros ->; by exists []].
  intros [p Hp]. destruct (decide (l = [])) as [|Hne]; [done|exfalso].
  destruct (exists_last Hne) as (l' & w & ->).
  apply Forall_app in Hl as [Hl' [Hw _]%Forall_cons].
  destruct Hw as (Hw1 & _ & _ & Hw2).
  destruct (exists_last Hw1) as (w' & c & ->).
  assert (Hc : c = "/"%char); [|subst; apply Hw2; apply elem_of_app; right; by left].
  assert (Hr : ∃ x, render (l' ++ [w' ++ [c]]) = x ++ [c]).
  { destruct (decide (l' = [])) as [->|Hl]; [by exists ("/"%char :: w')|].
    exists ("/"%char :: Join #"/" l' ++ "/"%char :: w').
    unfold render. rewrite Join_app by done. simpl. by rewrite <- app_assoc. }
  destruct Hr as [x Hr]. rewrite Hr in Hp. by apply app_inj_tail in Hp as [_ ?].
Qed.

(** The abstract meaning of [IsSubPath]: one segment list extends the other. *)
Lemma IsSubPath_segs p q : IsSubPath p q = true ↔ path_segs p `prefix_of` path_segs q.
Proof.
  unfold IsSubPath. rewrite !FixAndCleanPath_segs, orb_true_iff, bool_decide_eq_true.
  rewrite HasPrefix_spec. unfold PathAddSeparatorSuffix.
  pose proof (path_segs_norm p) as Hp. pose proof (path_segs_norm q) as Hq.
  revert Hp Hq. generalize (path_segs p) (path_segs q). intros l m Hl Hm.
  destruct (decide (l = [])) as [->|Hne].
  - split; [intros _; apply prefix_nil|]. intros _. right. simpl.
    unfold render. change #"/" with (render []) at 1. apply prefix_cons, prefix_nil.
  - assert (E : HasSuffix (render l) #"/" = false).
    { apply not_true_is_false. by rewrite render_suffix_slash. }
    rewrite E. simpl negb. cbv iota. rewrite render_prefix by done. split.
    + intros [E'%render_inj|(k & _ & ->)]; [by subst|done..|by apply prefix_app_r].
    + intros [k ->]. destruct (decide (k = [])) as [->|]; [left; by rewrite app_nil_r|].
      right. eauto.
Qed.

Lemma IsSubPath_refl p : IsSubPath p p = true.
Proof. by apply IsSubPath_segs. Qed.

Lemma IsSubPath_trans p q r :
  IsSubPath p q = true → IsSubPath q r = true → IsSubPath p r = true.
Proof. rewrite !IsSubPath_segs. by intros H1 H2; etransitivity. Qed.

(** Components only see paths through [path_segs], so equal paths are
    interchangeable. *)
Definition path_eq (p q : gostr) : Prop := path_segs p = path_segs q.

#[export] Instance path_eq_equiv : Equivalence path_eq.
Proof. split; [intros x|intros x y|intros x y z]; unfold path_eq; congruence. Qed.

#[export] Instance FixAndCleanPath_proper : Proper (path_eq ==> eq) FixAndCleanPath.
Proof. intros p q H. unfold path_eq in H. by rewrite !FixAndCleanPath_segs, H. Qed.

#[export] Instance IsSubPath_proper : Proper (path_eq ==> path_eq ==> eq) IsSubPath.
Proof.
  intros p p' Hp q q' Hq. unfold IsSubPath.
  by rewrite (FixAndCleanPath_proper _ _ Hp), (FixAndCleanPath_proper _ _ Hq).
Qed.

#[export] Instance PathEqual_proper : Proper (path_eq ==> path_eq ==> eq) PathEqual.
Proof.
  intros p p' Hp q q' Hq. unfold PathEqual.
  by rewrite (FixAndCleanPath_proper _ _ Hp), (FixAndCleanPath_proper _ _ Hq).
Qed.

Lemma path_eq_Fix p : path_eq (FixAndCleanPath p) p.
Proof. apply path_segs_Fix. Qed.

#[export] Hint Rewrite path_segs_Fix FixAndCleanPath_segs : alist.
#[export] Hint Resolve path_segs_norm path_segs_good clean_segs_norm IsSubPath_refl : alist.

(** [path.Join] of two cleaned paths concatenates their segments. *)
Lemma path_join_Fix p q :
  path_join (FixAndCleanPath p) (FixAndCleanPath q) = render (path_segs p ++ path_segs q).
Proof. rewrite !FixAndCleanPath_segs. apply path_join_render; apply path_segs_norm. Qed.

Lemma path_join_name l w :
  Forall norm_seg l → norm_seg w → path_join (render l) w = render (l ++ [w]).
Proof.
  intros Hl Hw. rewrite <- (path_join_render l [w]) by auto.
  destruct Hw as (Hw & _). unfold path_join.
  rewrite !filter_cons_True by done. rewrite filter_nil.
  change (Join #"/" [render l; w]) with ("/"%char :: (Join #"/" l ++ "/"%char :: w)).
  change (Join #"/" [render l; render [w]]) with
    ("/"%char :: (Join #"/" l ++ "/"%char :: ("/"%char :: w))).
  rewrite !Clean_rooted. f_equal. unfold clean_segs.
  by rewrite !Split_app_sep, !fold_left_app.
Qed.

(** ** [JoinBasePath] and [JoinUnderBase] *)

(** The guard of [JoinBasePath] finds exactly the [..] segments. *)
Lemma dotdot_guard req :
  bool_decide (req = #"..") || HasSuffix req #"/.." || HasPrefix req #"../"
    || Contains req #"/../" = true ↔ #".." ∈ Split "/" req.
Proof.
  rewrite !orb_true_iff, bool_decide_eq_true, HasSuffix_spec, HasPrefix_spec, Contains_spec.
  split.
  - intros [[[->|[a ->]]|[b ->]]|(a & b & ->)].
    + by left.
    + change (a ++ #"/..") with (a ++ "/"%char :: #"..").
      rewrite Split_app_sep, elem_of_app. right. by left.
    + change (#"../" ++ b) with (#".." ++ "/"%char :: b).
      rewrite Split_app_sep, elem_of_app. left. by left.
    + change (a ++ #"/../" ++ b) with (a ++ "/"%char :: (#".." ++ "/"%char :: b)).
      rewrite !Split_app_sep, !elem_of_app. right. left. by left.
  - intros Hin. apply list_elem_of_split in Hin as (l1 & l2 & E).
    rewrite <- (Join_Split "/" req), E. clear E.
    assert (H2 : l2 = [] ∨ ∃ s, Join #"/" (#".." :: l2) = #".." ++ "/"%char :: s).
    { destruct l2 as [|w l2]; [by left|right]. by exists (Join #"/" (w :: l2)). }
    destruct (decide (l1 = [])) as [->|H1].
    + destruct H2 as [->|[s Hs]]; [left; left; by left|].
      left. right. exists s. simpl app. by rewrite Hs.
    + change (["/"%char]) with #"/". rewrite (Join_app l1) by done.
      destruct H2 as [->|[s ->]].
      * left. left. right. by exists (Join #"/" l1).
      * right. by exists (Join #"/" l1), s.
Qed.

Lemma JoinBasePath_ok base req r :
  JoinBasePath base req = inr r → r = render (path_segs base ++ path_segs req).
Proof.
  unfold JoinBasePath. case_match; [done|]. intros [= <-]. apply path_join_Fix.
Qed.

Lemma path_segs_app_good p q : Forall good_seg (path_segs p ++ path_segs q).
Proof. apply Forall_app. split; apply path_segs_good. Qed.

Lemma ValidateNameComponent_good name :
  ValidateNameComponent name = None → good_seg name.
Proof.
  unfold ValidateNameComponent, good_seg, norm_seg.
  repeat case_match; try done. intros _. reflect_bools.
  assert (Hn : ∀ c, Contains name [c] = false → c ∉ name).
  { intros c Hc Hin. apply list_elem_of_split in Hin as (a & b & ->).
    assert (Contains (a ++ c :: b) [c] = true); [|congruence].
    apply Contains_spec. by exists a, b. }
  auto 10.
Qed.

Lemma JoinUnderBase_ok base name :
  JoinUnderBase base name =
    match ValidateNameComponent name with
    | Some err => inl err
    | None => inr (render (path_segs base ++ [name]))
    end.
Proof.
  unfold JoinUnderBase. destruct (ValidateNameComponent name) as [err|] eqn:E; [done|].
  apply ValidateNameComponent_good in E as [Hn Hb].
  rewrite FixAndCleanPath_segs, path_join_name by auto with alist.
  assert (Hg : Forall good_seg (path_segs base ++ [name])).
  { apply Forall_app. split; [apply path_segs_good|]. by apply Forall_singleton. }
  rewrite FixAndCleanPath_render by done.
  assert (Hs : IsSubPath (render (path_segs base)) (render (path_segs base ++ [name])) = true).
  { apply IsSubPath_segs. rewrite !path_segs_render by auto with alist. by apply prefix_app_r. }
  by rewrite Hs.
Qed.

(** ** Directories and names *)

(** The directory part of a path: empty, or up to a slash. *)
Definition dir_part (dir : gostr) : Prop := dir = [] ∨ ∃ s, dir = s ++ #"/".

Lemma after_last_slash_none s : ("/"%char ∉ s) → after_last_slash s = s.
Proof.
  intros H. destruct s as [|c s]; [done|]. simpl.
  rewrite !bool_decide_eq_false_2 by set_solver. done.
Qed.

Lemma path_Split_dir dir name : dir_part dir → ("/"%char ∉ name) → path_Split (dir ++ name) = (dir, name).
Proof.
  intros Hd Hn. unfold path_Split.
  assert (E : after_last_slash (dir ++ name) = name).
  { destruct Hd as [->|[s ->]]; [by apply after_last_slash_none|].
    rewrite <- app_assoc. by apply after_last_slash_app. }
  rewrite E. f_equal. apply take_app_length'. rewrite length_app. lia.
Qed.

(** The directory part [path.Split] finds. *)
Definition dir_slash (segs : list gostr) : gostr :=
  match segs with [] => #"/" | _ => render segs ++ #"/" end.

Lemma render_snoc_slash segs n : render (segs ++ [n]) = dir_slash segs ++ n.
Proof.
  destruct segs as [|s segs]; [done|]. unfold render, dir_slash. rewrite Join_app by done.
  simpl. by rewrite <- app_assoc.
Qed.

Lemma dir_slash_part segs : dir_part (dir_slash segs).
Proof. right. destruct segs as [|s segs]; [by exists []|]. by exists (render (s :: segs)). Qed.

Lemma path_Split_render segs n :
  ("/"%char ∉ n) → path_Split (render (segs ++ [n])) = (dir_slash segs, n).
Proof. intros Hn. rewrite render_snoc_slash. apply path_Split_dir; [apply dir_slash_part|done]. Qed.

Lemma Clean_dir_slash segs : Forall norm_seg segs → Clean (dir_slash segs) = render segs.
Proof. intros H. destruct segs as [|s segs]; [done|]. by apply Clean_render_slash. Qed.

Lemma path_segs_dir_slash segs : Forall good_seg segs → path_segs (dir_slash segs) = segs.
Proof.
  intros H. unfold path_segs. rewrite ReplaceByte_id.
  - apply render_inj; [apply clean_segs_norm|by apply good_norm|].
    rewrite <- (Clean_dir_slash segs) by (by apply good_norm).
    destruct segs as [|s segs]; [done|].
    change (dir_slash (s :: segs)) with ("/"%char :: Join #"/" (s :: segs) ++ #"/").
    by rewrite clean_segs_slash, Clean_rooted.
  - destruct segs as [|s segs]; [decide_now|]. cbn [dir_slash]. intros [Hin|Hin]%elem_of_app.
    + revert Hin. apply render_no_elem; [done|]. eapply Forall_impl; [exact H|]. by intros w [_ ?].
    + revert Hin. decide_now.
Qed.

Lemma path_join_dir_slash segs n :
  Forall good_seg segs → good_seg n → path_join (dir_slash segs) n = render (segs ++ [n]).
Proof.
  intros Hs Hn. rewrite <- (path_join_name segs n) by (by apply good_norm || apply Hn).
  destruct segs as [|s segs]; [done|]. cbn [dir_slash].
  assert (Hne : n ≠ []) by (destruct Hn as [(? & _) _]; done).
  unfold path_join. rewrite !filter_cons_True by done. rewrite filter_nil.
  change (Join #"/" [render (s :: segs) ++ #"/"; n]) with ((render (s :: segs) ++ #"/") ++ #"/" ++ n).
  change (Join #"/" [render (s :: segs); n]) with (render (s :: segs) ++ #"/" ++ n).
  unfold render. rewrite <- app_assoc. simpl app. rewrite !Clean_rooted. f_equal. unfold clean_segs.
  rewrite !Split_app_sep. cbn [Split]. by rewrite !fold_left_app.
Qed.

(** ** Percent encoding *)

Lemma unhex_upperhex d : 0 ≤ d < 16 → unhex (upperhex d) = Some d.
Proof.
  intros Hd.
  assert (d = 0 ∨ d = 1 ∨ d = 2 ∨ d = 3 ∨ d = 4 ∨ d = 5 ∨ d = 6 ∨ d = 7 ∨ d = 8 ∨ d = 9 ∨
    d = 10 ∨ d = 11 ∨ d = 12 ∨ d = 13 ∨ d = 14 ∨ d = 15) as H by lia.
  repeat (destruct H as [->|H]; [reflexivity|]). by subst.
Qed.

Lemma val_byte_val c : val_byte (byte_val c) = c.
Proof. unfold val_byte, byte_val. rewrite N2Z.id. apply ascii_N_embedding. Qed.

Lemma PathUnescape_hex c s :
  PathUnescape ("%"%char :: upperhex (byte_val c / 16) :: upperhex (byte_val c mod 16) :: s)
  = cons c <$> PathUnescape s.
Proof.
  pose proof (byte_val_bound c). pose proof (Z.div_mod (byte_val c) 16).
  pose proof (Z.mod_pos_bound (byte_val c) 16).
  cbn [PathUnescape]. rewrite bool_decide_true by done.
  rewrite !unhex_upperhex by lia.
  replace (16 * (byte_val c / 16) + byte_val c mod 16) with (byte_val c) by lia.
  by rewrite val_byte_val.
Qed.

Lemma PathUnescape_lit c s : c ≠ "%"%char → PathUnescape (c :: s) = cons c <$> PathUnescape s.
Proof. intros Hc. cbn [PathUnescape]. by rewrite bool_decide_false. Qed.

Lemma PathUnescape_plain s : ("%"%char ∉ s) → PathUnescape s = Some s.
Proof.
  induction s as [|c s IH]; intros Hs; [done|]. apply not_elem_of_cons in Hs as [Hc Hs]. simpl.
  rewrite bool_decide_false by done. by rewrite IH.
Qed.

(** A byte that is neither a slash nor in the path is not in the cleaned path. *)
Lemma Fix_no_elem c p : c ≠ "/"%char → c ≠ "."%char → (c ∉ p) → c ∉ FixAndCleanPath p.
Proof.
  intros Hs Hd Hp. rewrite FixAndCleanPath_segs. apply render_no_elem; [done|]. apply Forall_forall. intros w Hw Hc.
  apply clean_segs_subset in Hw as [Hw| ->].
  - eapply Split_elem in Hw; [|done]. unfold ReplaceByte in Hw. apply list_elem_of_bind in Hw as (d&Hx&Hin).
    case_bool_decide; apply list_elem_of_singleton in Hx; congruence.
  - by repeat (apply elem_of_cons in Hc as [?|Hc]); [..|apply not_elem_of_nil in Hc].
Qed.

Lemma path_segs_trim p : path_segs (TrimPrefix (FixAndCleanPath p) #"/") = path_segs p.
Proof.
  rewrite <- (path_segs_Fix p). rewrite FixAndCleanPath_segs. unfold TrimPrefix, render. cbn [HasPrefix]. 
  rewrite bool_decide_true by done. done.
Qed.

Lemma PathUnescape_escape w s :
  PathUnescape (PathEscape w ++ s) = app w <$> PathUnescape s.
Proof.
  induction w as [|c w IH].
  - simpl. by rewrite option_fmap_id.
  - unfold PathEscape in *. rewrite bind_cons, <- app_assoc.
    assert (E : ∀ o : option gostr, app (c :: w) <$> o = cons c <$> (app w <$> o)) by by intros [].
    rewrite E, <- IH. destruct (should_escape_segment c) eqn:Hc.
    + apply PathUnescape_hex.
    + apply PathUnescape_lit. by intros ->.
Qed.

(** Escaping segment by segment and unescaping the whole path. *)
Lemma PathUnescape_join (f g : gostr → gostr) l :
  (∀ w s, w ∈ l → PathUnescape (f w ++ s) = app (g w) <$> PathUnescape s) →
  PathUnescape (Join #"/" (map f l)) = Some (Join #"/" (map g l)).
Proof.
  induction l as [|w l IH]; intros H; [done|].
  assert (Hw : ∀ s, PathUnescape (f w ++ s) = app (g w) <$> PathUnescape s).
  { intros s. apply H. by left. }
  destruct l as [|w' l].
  - simpl. rewrite <- (app_nil_r (f w)), Hw. simpl. by rewrite app_nil_r.
  - cbn [map] in *. rewrite !Join_cons by done. rewrite Hw. cbn [app].
    rewrite PathUnescape_lit by done. rewrite IH; [done|].
    intros v s Hv. apply H. by right.
Qed.

(** The default mode of [EncodePath], byte by byte. *)
Definition encode_byte (c : ascii) : gostr :=
  if bool_decide (c = "%"%char) then #"%2525"
  else if bool_decide (c = "?"%char) then #"%3F"
  else if bool_decide (c = "#"%char) then #"%23"
  else [c].

Lemma ReplaceByte_app a b old new :
  ReplaceByte (a ++ b) old new = ReplaceByte a old new ++ ReplaceByte b old new.
Proof. apply bind_app. Qed.

Lemma replace_all_bytes w :
  fold_left (λ w r, ReplaceByte w (fst r) (snd r)) toReplace w = w ≫= encode_byte.
Proof.
  induction w as [|c w IH]; [done|].
  rewrite bind_cons, <- IH. cbn [fold_left toReplace fst snd].
  change (c :: w) with ([c] ++ w). rewrite !ReplaceByte_app. f_equal.
  unfold encode_byte. repeat case_bool_decide; subst; try reflexivity.
  rewrite !(ReplaceByte_id [c]) by (intros ?%list_elem_of_singleton; congruence).
  done.
Qed.

Lemma PathUnescape_encode w s :
  PathUnescape ((w ≫= encode_byte) ++ s) = app (ReplaceByte w "%" #"%25") <$> PathUnescape s.
Proof.
  induction w as [|c w IH].
  - simpl. by rewrite option_fmap_id.
  - rewrite bind_cons, <- app_assoc.
    unfold ReplaceByte at 1. rewrite bind_cons. fold (ReplaceByte w "%" #"%25").
    set (o := (w ≫= encode_byte) ++ s) in *.
    assert (E : ∀ v, (app (v ++ ReplaceByte w "%" #"%25") <$> PathUnescape s)
                     = app v <$> PathUnescape o).
    { intros v. rewrite IH. destruct (PathUnescape s); simpl; [|done]. by rewrite <- app_assoc. }
    rewrite E. clear E IH. unfold encode_byte.
    case_bool_decide; subst; [|repeat case_bool_decide; subst; simpl].
    + change (#"%2525" ++ o) with ("%"%char :: "2"%char :: "5"%char :: "2"%char :: "5"%char :: o).
      simpl. by destruct (PathUnescape o).
    + by destruct (PathUnescape o).
    + by destruct (PathUnescape o).
    + by rewrite bool_decide_false.
Qed.

Lemma Join_ReplaceByte old new l :
  old ≠ "/"%char →
  Join #"/" (map (λ w, ReplaceByte w old new) l) = ReplaceByte (Join #"/" l) old new.
Proof.
  intros Ho. induction l as [|w l IH]; [done|]. destruct l as [|w' l]; [done|].
  cbn [map] in *. rewrite (Join_cons _ w), (Join_cons _ (ReplaceByte w old new)) by done.
  rewrite IH, !ReplaceByte_app. f_equal.
  f_equal. symmetry. apply ReplaceByte_id. intros ?%list_elem_of_singleton; congruence.
Qed.

(** ** The properties *)

(** [FixAndCleanPath] puts every path in canonical form: the result is a
    slash followed by segments joined by slashes, no segment is empty, [.],
    [..] or contains a slash or a backslash, and cleaning again changes
    nothing. *)
Theorem FixAndCleanPath_canonical p :
  (∃ l, Forall good_seg l ∧ FixAndCleanPath p = "/"%char :: Join #"/" l) ∧
  FixAndCleanPath (FixAndCleanPath p) = FixAndCleanPath p.
Proof.
  split.
  - exists (path_segs p). split; [apply path_segs_good|]. apply FixAndCleanPath_segs.
  - apply FixAndCleanPath_proper, path_eq_Fix.
Qed.

(** [IsSubPath] decides the segment-prefix order of cleaned paths (so
    [/a/bc] is not below [/a/b]), and two paths below each other are the
    paths [PathEqual] identifies. *)
Theorem IsSubPath_is_prefix_order p q :
  (IsSubPath p q = true ↔ path_segs p `prefix_of` path_segs q) ∧
  (IsSubPath p q = true ∧ IsSubPath q p = true ↔ PathEqual p q = true).
Proof.
  split; [apply IsSubPath_segs|].
  rewrite PathEqual_segs, !IsSubPath_segs. split.
  - intros [H1 H2]. by apply (anti_symm prefix).
  - by intros ->.
Qed.

(** [JoinBasePath] refuses exactly the request paths with a [..] segment,
    and every path it returns lies below the base path, whatever mixture of
    slashes, backslashes and dots the request contains. *)
Theorem JoinBasePath_contained base req :
  (JoinBasePath base req = inl (ESentinel RelativePath) ↔ #".." ∈ Split "/" req) ∧
  (∀ r, JoinBasePath base req = inr r →
     IsSubPath base r = true ∧ path_segs r = path_segs base ++ path_segs req ∧
     FixAndCleanPath r = r).
Proof.
  split.
  - rewrite <- dotdot_guard. unfold JoinBasePath. by case_match.
  - intros r ->%JoinBasePath_ok.
    pose proof (path_segs_app_good base req) as Hg. split_ands.
    + apply IsSubPath_segs. rewrite path_segs_render by done. by apply prefix_app_r.
    + by apply path_segs_render.
    + by apply FixAndCleanPath_render.
Qed.

(** [JoinUnderBase] accepts a name exactly when [ValidateNameComponent]
    does, and the path it then returns is the base directory with that name
    as one more segment: a validated name can not leave the directory or
    descend more than one level. *)
Theorem JoinUnderBase_one_level base name :
  JoinUnderBase base name =
    match ValidateNameComponent name with
    | Some err => inl err
    | None => inr (render (path_segs base ++ [name]))
    end ∧
  (ValidateNameComponent name = None → path_segs (render (path_segs base ++ [name])) =
     path_segs base ++ [name]).
Proof.
  split; [apply JoinUnderBase_ok|].
  intros Hn%ValidateNameComponent_good. apply path_segs_render, Forall_app.
  split; [apply path_segs_good|by apply Forall_singleton].
Qed.

(** The download links the server writes ([EncodePath] with full escaping)
    are read back by the download middleware ([parsePath]) as the cleaned
    path they were made from. *)
Theorem parsePath_EncodePath p : parsePath (EncodePath p [true]) = FixAndCleanPath p.
Proof.
  unfold parsePath, EncodePath. cbn match.
  rewrite (PathUnescape_join PathEscape id).
  - rewrite map_id. by rewrite Join_Split.
  - intros w s _. apply PathUnescape_escape.
Qed.

(** Without full escaping [EncodePath] escapes every percent sign twice:
    unescaping its result once gives the path with each [%] spelled [%25], so
    it gives the path back exactly when the path has no percent sign. *)
Theorem EncodePath_escapes_percent_twice p :
  PathUnescape (EncodePath p []) = Some (ReplaceByte p "%" #"%25") ∧
  (PathUnescape (EncodePath p []) = Some p ↔ "%"%char ∉ p).
Proof.
  assert (E : PathUnescape (EncodePath p []) = Some (ReplaceByte p "%" #"%25")).
  { unfold EncodePath. cbn match.
    rewrite (PathUnescape_join _ (λ w, ReplaceByte w "%" #"%25")).
    - rewrite Join_ReplaceByte by done. by rewrite Join_Split.
    - intros w s _. rewrite replace_all_bytes. apply PathUnescape_encode. }
  split; [done|]. rewrite E. split; [|intros; by rewrite ReplaceByte_id].
  intros [= H] Hin. apply list_elem_of_split in Hin as (a & b & ->).
  assert (Hl : length (ReplaceByte (a ++ "%"%char :: b) "%" #"%25")
               = length (a ++ "%"%char :: b)) by by rewrite H.
  assert (Hg : ∀ s, (length s ≤ length (ReplaceByte s "%" #"%25"))%nat).
  { induction s as [|c s IH]; [done|]. unfold ReplaceByte in *.
    rewrite bind_cons, length_app. case_bool_decide; simpl; lia. }
  change ("%"%char :: b) with (#"%" ++ b) in Hl. rewrite !ReplaceByte_app in Hl.
  rewrite !length_app in Hl. pose proof (Hg a). pose proof (Hg b). simpl in Hl. lia.
Qed.

(** ** Relative paths

    [path.Join] of a directory and a path below it that a client has written:
    the keys of the S3 server and the paths inside an alias. *)

(** The segments of a key, without the empty ones and the dots; a plain key has
    no segment [..] and no backslash, which package [fs] takes for a slash. *)
Definition proper_seg (w : gostr) : Prop := w ≠ [] ∧ w ≠ #".".
Definition key_segs (k : gostr) : list gostr := filter proper_seg (Split "/" k).
Definition plain_key (k : gostr) : Prop := (#".." ∉ Split "/" k) ∧ ("\"%char ∉ k).

#[export] Instance plain_key_dec k : Decision (plain_key k).
Proof. unfold plain_key. apply _. Defined.

Lemma fold_clean_plain rooted ws st : (#".." ∉ ws) →
  fold_left (clean_step rooted) ws st = reverse (filter proper_seg ws) ++ st.
Proof.
  revert st. induction ws as [|w ws IH]; intros st Hw; [done|]. apply not_elem_of_cons in Hw as [Hw Hws]. cbn [fold_left].
  rewrite IH by done. unfold clean_step. destruct (decide (w = [] ∨ w = #".")) as [Hd|Hp].
  - rewrite filter_cons_False by (unfold proper_seg; naive_solver).
    destruct Hd as [->| ->]; done.
  - rewrite filter_cons_True by (unfold proper_seg; naive_solver).
    rewrite !bool_decide_eq_false_2 by naive_solver. simpl. by rewrite reverse_cons, <- app_assoc.
Qed.

Lemma clean_segs_plain rooted k : plain_key k → clean_segs rooted k = key_segs k.
Proof. intros [Hk _]. unfold clean_segs, key_segs. rewrite fold_clean_plain by done. by rewrite app_nil_r, reverse_involutive. Qed.

Lemma key_segs_good k : plain_key k → Forall good_seg (key_segs k).
Proof.
  intros [Hd Hb]. apply Forall_forall. intros w [[Hw1 Hw2] Hw]%list_elem_of_filter. repeat split; try done.
  - intros ->. done.
  - by apply (proj1 (Forall_forall _ _) (Split_no_sep _ _) _ Hw).
  - intros Hc. apply Hb. by eapply Split_elem.
Qed.

Lemma key_segs_Join l : Forall norm_seg l → key_segs (Join #"/" l) = l.
Proof.
  intros Hl. destruct l as [|w l]; [done|]. unfold key_segs. change #"/" with ["/"%char].
  rewrite Split_Join by (done || by apply norm_no_slash). apply filter_id. eapply Forall_impl; [exact Hl|].
  by intros v (? & ? & _).
Qed.

Lemma plain_Join l : Forall good_seg l → plain_key (Join #"/" l).
Proof.
  intros Hl. pose proof (good_norm _ Hl) as Hg. split.
  - destruct l as [|w ws]; [decide_now|]. change #"/" with ["/"%char]. rewrite Split_Join by (done || by apply norm_no_slash).
    intros Hin. by destruct (proj1 (Forall_forall _ _) Hg _ Hin) as (_ & _ & ? & _).
  - intros Hin. assert (Hr : "\"%char ∈ render l) by (unfold render; by right). revert Hr.
    apply render_no_elem; [done|]. eapply Forall_impl; [exact Hl|]. by intros w [_ ?].
Qed.

Lemma join_segs b k : Forall norm_seg b → (#".." ∉ Split "/" k) → path_join (render b) k = render (b ++ key_segs k).
Proof.
  intros Hb Hk. unfold path_join. rewrite filter_cons_True by done. destruct (decide (k = [])) as [->|Hne].
  - rewrite filter_cons_False by naive_solver. cbn [filter list_filter Join]. rewrite app_nil_r. by apply Clean_render.
  - rewrite filter_cons_True by done. rewrite filter_nil. change (Join #"/" [render b; k]) with ("/"%char :: (Join #"/" b ++ "/"%char :: k)).
    rewrite Clean_rooted. unfold clean_segs. rewrite Split_app_sep, fold_left_app, (fold_clean_plain _ (Split "/" k)) by done.
    rewrite reverse_app, reverse_involutive. fold (key_segs k). f_equal. f_equal. fold (clean_segs true (Join #"/" b)).
    rewrite <- clean_segs_slash. fold (render b). by apply clean_segs_render.
Qed.

Lemma join_key b k : Forall norm_seg b → plain_key k → path_join (render b) k = render (b ++ key_segs k).
Proof. intros Hb [Hk _]. by apply join_segs. Qed.

Lemma key_segs_norm k : (#".." ∉ Split "/" k) → Forall norm_seg (key_segs k).
Proof.
  intros Hd. apply Forall_forall. intros w [[Hw1 Hw2] Hw]%list_elem_of_filter. repeat split; try done.
  - intros ->. done.
  - by apply (proj1 (Forall_forall _ _) (Split_no_sep _ _) _ Hw).
Qed.

(** A name below a directory of the bucket. *)
Lemma key_join d n : plain_key d → good_seg n →
  plain_key (path_join d n) ∧ key_segs (path_join d n) = key_segs d ++ [n].
Proof.
  intros Hd Hn. assert (Hpn : key_segs n = [n] ∧ plain_key n).
  { destruct Hn as [(? & ? & ? & Hs) Hb]. unfold key_segs, plain_key. rewrite Split_none by done.
    rewrite filter_cons_True by done. split; [done|]. split; [|done]. by intros ?%list_elem_of_singleton. }
  assert (E : ∃ s, path_join d n = Clean s ∧ plain_key s ∧ key_segs s = key_segs d ++ [n]).
  { unfold path_join. destruct (decide (d = [])) as [->|Hne].
    - exists n. rewrite filter_cons_False by naive_solver. rewrite filter_cons_True by apply Hn. by destruct Hpn.
    - exists (d ++ "/"%char :: n). rewrite !filter_cons_True by (done || apply Hn). split; [done|].
      unfold plain_key, key_segs. rewrite Split_app_sep, filter_app. destruct Hpn as [En Hpn]. unfold key_segs in En. rewrite En.
      split; [|done]. split; [intros [?|?]%elem_of_app; [by apply (proj1 Hd)|by apply (proj1 Hpn)]|].
      intros [?|[?|?]%elem_of_cons]%elem_of_app; [by apply (proj2 Hd)|done|by apply (proj2 Hn)]. }
  destruct E as (s & -> & Hs & Ek). rewrite <- Ek. pose proof (good_norm _ (key_segs_good s Hs)) as Hg.
  assert (Hj : plain_key (Join #"/" (key_segs s)) ∧ key_segs (Join #"/" (key_segs s)) = key_segs s).
  { split; [by apply plain_Join, key_segs_good|by apply key_segs_Join]. }
  unfold Clean. rewrite !clean_segs_plain by done. destruct (HasPrefix s #"/").
  - destruct Hj as [[H1 H2] H3]. unfold plain_key, key_segs. cbn [Split]. rewrite bool_decide_eq_true_2 by done.
    rewrite filter_cons_False by (unfold proper_seg; naive_solver). split; [|done]. split; [|set_solver].
    intros [?|?]%elem_of_cons; done.
  - destruct (Join #"/" (key_segs s)) as [|c j] eqn:E; [|by rewrite <- E in Hj |- *].
    exfalso. revert E. apply Join_nonempty; [|done]. rewrite Ek. by destruct (key_segs d).
Qed.

Lemma plain_key_front a b : plain_key (a ++ "/"%char :: b) → plain_key a.
Proof.
  unfold plain_key. rewrite Split_app_sep. intros [H1 H2]. split; [|set_solver]. intros Hin. apply H1, elem_of_app. by left.
Qed.
