(* ===== verification/HttpRange.v ===== *)
(** * HTTP ranges: [pkg/http_range/range.go]

    Parsing of the [Range] request header and of the [Content-Range]
    response header, and the headers the server writes itself.  All
    arithmetic is 64-bit with Go's wrap-around. *)

From S2P Require Import Prelude GoStrings.

Local Open Scope Z_scope.

(** ** Data *)

Record Range := mkRange { Start : Z; Length : Z }.

#[export] Instance Range_eq_dec : EqDecision Range.
Proof. solve_decision. Defined.

Inductive range_error := ErrNoOverlap | ErrInvalid.

(** An [http.Header]: canonical keys with the list of their values. *)
Abbreviation header := (gmap gostr (list gostr)).

Definition header_Get (h : header) (k : gostr) : gostr :=
  match h !! k with
  | Some (v :: _) => v
  | _ => []
  end.

(** ** The code *)

Definition ContentRange (r : Range) (size : Z) : gostr :=
  #"bytes " ++ FormatInt (Start r) ++ #"-"
    ++ FormatInt (wrap64 (wrap64 (Start r + Length r) - 1)) ++ #"/" ++ FormatInt size.

(** One element of the comma-separated list: an error, a range to append,
    or nothing to append ([true] when the element does not overlap). *)
Definition parse_one (ra : gostr) (size : Z) : range_error + (Range + bool) :=
  let ra := TrimString ra in
  if bool_decide (ra = []) then inr (inr false)
  else
    let i := Index ra #"-" in
    if i <? 0 then inl ErrInvalid
    else
      let start := TrimString (slice_to ra i) in
      let stop := TrimString (slice_from ra (i + 1)) in
      if bool_decide (start = []) then
        match stop with
        | [] => inl ErrInvalid
        | c :: _ =>
            if bool_decide (c = "-"%char) then inl ErrInvalid
            else
              let '(i, err) := ParseInt stop in
              if (i <? 0) || bool_decide (err ≠ None) then inl ErrInvalid
              else
                let i := if size <? i then size else i in
                let st := wrap64 (size - i) in
                inr (inl (mkRange st (wrap64 (size - st))))
        end
      else
        let '(i, err) := ParseInt start in
        if bool_decide (err ≠ None) || (i <? 0) then inl ErrInvalid
        else if size <=? i then inr (inr true)
        else if bool_decide (stop = []) then inr (inl (mkRange i (wrap64 (size - i))))
        else
          let '(j, err) := ParseInt stop in
          if bool_decide (err ≠ None) || (j <? i) then inl ErrInvalid
          else
            let j := if size <=? j then wrap64 (size - 1) else j in
            inr (inl (mkRange i (wrap64 (wrap64 (j - i) + 1)))).

Fixpoint parse_list (l : list gostr) (size : Z) (ranges : list Range) (noOverlap : bool)
    : range_error + (list Range * bool) :=
  match l with
  | [] => inr (ranges, noOverlap)
  | ra :: l' =>
      match parse_one ra size with
      | inl e => inl e
      | inr (inr b) => parse_list l' size ranges (b || noOverlap)
      | inr (inl r) => parse_list l' size (ranges ++ [r]) noOverlap
      end
  end.

Definition ParseRange (s : gostr) (size : Z) : range_error + list Range :=
  if bool_decide (s = []) then inr []
  else if negb (HasPrefix s #"bytes=") then inl ErrInvalid
  else
    match parse_list (Split "," (slice_from s 6)) size [] false with
    | inl e => inl e
    | inr (ranges, noOverlap) =>
        if noOverlap && bool_decide (ranges = []) then inl ErrNoOverlap
        else inr ranges
    end.

(** [ParseContentRange]: start, end and whether the joined error is nil; the
    slice [s[p1+1:p2]] panics when the slash precedes the dash. *)
Definition ParseContentRange (s : gostr) : outcome (range_error + (Z * Z * bool)) :=
  if bool_decide (s = []) then Ret (inl ErrInvalid)
  else if negb (HasPrefix s #"bytes ") then Ret (inl ErrInvalid)
  else
    let p1 := Index s #"-" in
    let p2 := Index s #"/" in
    if (p1 <? 0) || (p2 <? 0) then Ret (inl ErrInvalid)
    else if (p1 <? 6) || (p2 <? p1 + 1) then Panic
    else
      let startStr := TrimString (slice s 6 p1) in
      let endStr := TrimString (slice s (p1 + 1) p2) in
      let '(start, startErr) := ParseInt startStr in
      let '(stop, endErr) := ParseInt endStr in
      Ret (inr (start, stop, bool_decide (startErr = None) && bool_decide (endErr = None))).

Definition MimeHeader (r : Range) (contentType : gostr) (size : Z) : header :=
  {[ #"Content-Range" := [ContentRange r size];
     #"Content-Type" := [contentType] ]}.

(** [None] is the nil header. *)
Definition ApplyRangeToHttpHeader (p : Range) (headerRef : option header) : header :=
  let h := default ∅ headerRef in
  if (Start p =? 0) && (Length p <? 0) then delete #"Range" h
  else
    let stop := if 0 <=? Length p
                then FormatInt (wrap64 (wrap64 (Start p + Length p) - 1)) else [] in
    <[ #"Range" := [ #"bytes=" ++ FormatInt (Start p) ++ #"-" ++ stop ] ]> h.

(** ** Lemmas *)

Definition plain (s : gostr) : Prop := Forall (λ c, is_http_space c = false) s.

Lemma FormatInt_plain i : plain (FormatInt i).
Proof.
  eapply Forall_impl; [apply FormatInt_chars|].
  intros c [Hc| ->]; [by apply digit_not_space|done].
Qed.

Lemma plain_app a b : plain a → plain b → plain (a ++ b).
Proof. intros. by apply Forall_app. Qed.

Lemma plain_cons c a : is_http_space c = false → plain a → plain (c :: a).
Proof. intros. by apply Forall_cons. Qed.

Ltac plain :=
  repeat first [assumption | apply FormatInt_plain | apply Forall_nil_2 | apply plain_app
               | apply plain_cons; [reflexivity|]].

(** [parse_one] on a well-formed element whose start is a printed number. *)
Lemma parse_one_fmt i b size :
  int64_ok i → 0 ≤ i → plain b →
  parse_one (FormatInt i ++ #"-" ++ b) size =
    if size <=? i then inr (inr true)
    else if bool_decide (b = []) then inr (inl (mkRange i (wrap64 (size - i))))
    else
      let '(j, err) := ParseInt b in
      if bool_decide (err ≠ None) || (j <? i) then inl ErrInvalid
      else
        let j := if size <=? j then wrap64 (size - 1) else j in
        inr (inl (mkRange i (wrap64 (wrap64 (j - i) + 1)))).
Proof.
  intros Hi Hp Hb. unfold parse_one.
  assert (Hd : "-"%char ∉ FormatInt i) by by apply digits_not_in, FormatInt_digits.
  assert (Ht : ∀ s, plain s → TrimString s = s) by (intros; by apply trim_both_id).
  rewrite Ht by plain.
  rewrite bool_decide_false; cycle 1.
  { intros [?%FormatInt_nonempty _]%app_eq_nil. done. }
  rewrite Index_byte. cbn [app]. rewrite IndexByte_app by done.
  rewrite (proj2 (Z.ltb_ge _ _)) by lia.
  rewrite slice_to_app.
  change (FormatInt i ++ "-"%char :: b) with (FormatInt i ++ (["-"%char] ++ b)).
  rewrite app_assoc, slice_from_app by (rewrite length_app; simpl; lia).
  rewrite !Ht by plain.
  rewrite bool_decide_false by apply FormatInt_nonempty.
  rewrite ParseInt_FormatInt by done. simpl bool_decide.
  by rewrite (proj2 (Z.ltb_ge _ _)) by lia.
Qed.

Lemma ParseRange_single a size :
  ("," %char ∉ a) →
  ParseRange (#"bytes=" ++ a) size =
    match parse_one a size with
    | inl e => inl e
    | inr (inr true) => inl ErrNoOverlap
    | inr (inr false) => inr []
    | inr (inl r) => inr [r]
    end.
Proof.
  intros Ha. unfold ParseRange. rewrite bool_decide_false by done.
  rewrite HasPrefix_app. cbn [negb].
  rewrite slice_from_app by done. rewrite Split_none by done.
  cbn [parse_list]. by destruct (parse_one a size) as [e|[r|[]]].
Qed.

Lemma FormatInt_no_comma i : ","%char ∉ FormatInt i.
Proof.
  intros Hin. pose proof (proj1 (Forall_forall _ _) (FormatInt_chars i) _ Hin) as [?|?]; done.
Qed.

Definition in_bounds (size : Z) (r : Range) : Prop :=
  0 ≤ Start r ∧ 0 ≤ Length r ∧ Start r + Length r ≤ size.

Lemma parse_one_bounds ra size r :
  0 ≤ size ≤ max_int64 → parse_one ra size = inr (inl r) → in_bounds size r.
Proof.
  intros Hs. unfold parse_one. destruct (bool_decide (TrimString ra = [])); [done|].
  destruct (Index _ _ <? 0); [done|].
  generalize (TrimString (slice_to (TrimString ra) (Index (TrimString ra) #"-"))).
  generalize (TrimString (slice_from (TrimString ra) (Index (TrimString ra) #"-" + 1))).
  intros stop start. case_bool_decide.
  - destruct stop as [|c stop]; [done|]. case_bool_decide; [done|].
    pose proof (ParseInt_ok (c :: stop)) as Hok.
    destruct (ParseInt (c :: stop)) as [i err]. simpl in Hok.
    destruct ((i <? 0) || bool_decide (err ≠ None)) eqn:E; [done|]. reflect_bools.
    intros [= <-]. unfold in_bounds. simpl. unfold_int64.
    destruct (size <? i) eqn:E2; reflect_bools; rewrite !wrap64_id; unfold_int64; try lia;
      rewrite !wrap64_id; unfold_int64; lia.
  - destruct (ParseInt start) as [i err] eqn:Ei.
    destruct (bool_decide (err ≠ None) || (i <? 0)) eqn:E; [done|]. reflect_bools.
    destruct (size <=? i) eqn:E2; [done|]. reflect_bools. unfold_int64.
    case_bool_decide.
    + intros [= <-]. unfold in_bounds. simpl. rewrite wrap64_id; unfold_int64; lia.
    + pose proof (ParseInt_ok stop) as Hok. destruct (ParseInt stop) as [j err'].
      simpl in Hok. unfold_int64.
      destruct (bool_decide (err' ≠ None) || (j <? i)) eqn:E3; [done|]. reflect_bools.
      intros [= <-]. unfold in_bounds. simpl.
      destruct (size <=? j) eqn:E4; reflect_bools.
      * rewrite (wrap64_id (size - 1)) by (unfold_int64; lia).
        rewrite (wrap64_id (size - 1 - i)) by (unfold_int64; lia).
        rewrite wrap64_id; unfold_int64; lia.
      * rewrite (wrap64_id (j - i)) by (unfold_int64; lia).
        rewrite wrap64_id; unfold_int64; lia.
Qed.

Lemma parse_list_bounds l size rs b rs' b' :
  0 ≤ size ≤ max_int64 → Forall (in_bounds size) rs →
  parse_list l size rs b = inr (rs', b') → Forall (in_bounds size) rs'.
Proof.
  intros Hs. revert rs b. induction l as [|ra l IH]; intros rs b Hrs; simpl.
  - by intros [= -> ->].
  - destruct (parse_one ra size) as [e|[r|b1]] eqn:E; [done|apply IH|by apply IH].
    apply Forall_app. split; [done|]. apply Forall_singleton.
    by eapply parse_one_bounds.
Qed.

Lemma ParseRange_bounds s size rs :
  0 ≤ size ≤ max_int64 → ParseRange s size = inr rs → Forall (in_bounds size) rs.
Proof.
  intros Hs. unfold ParseRange. case_bool_decide; [by intros [= <-]|].
  destruct (HasPrefix s #"bytes="); [|done]. cbn [negb].
  destruct (parse_list _ _ _ _) as [e|[rs' b]] eqn:E; [done|].
  destruct (b && _); [done|]. intros [= <-]. by eapply parse_list_bounds.
Qed.

(** ** The properties *)

(** Every range [ParseRange] accepts lies inside the file: its start and
    length are not negative and it ends at or before the last byte, for every
    header text and every non-negative 64-bit size (no overflow occurs). *)
Theorem ParseRange_in_bounds s size rs (Hsize : 0 ≤ size ≤ max_int64)
    (Hparse : ParseRange s size = inr rs) :
  Forall (λ r, 0 ≤ Start r ∧ 0 ≤ Length r ∧ Start r + Length r ≤ size) rs.
Proof.
  unfold ParseRange in Hparse. case_bool_decide; [by simplify_eq|].
  case_match; [done|].
  destruct (parse_list _ _ _ _) as [e|[rs' b]] eqn:E; [done|].
  case_match; [done|]. simplify_eq.
  by apply (parse_list_bounds _ _ _ _ _ _ Hsize (Forall_nil_2 _)) in E.
Qed.

(** The [Range] header written for a range is parsed back as that range:
    a negative length (unlimited) becomes the rest of the file, the whole file
    is requested with no header at all, and an empty range is refused. *)
Theorem ParseRange_ApplyRange p h size
    (Hstart : 0 ≤ Start p < size) (Hend : Start p + Length p ≤ size)
    (Hsize : size ≤ max_int64) :
  ParseRange (header_Get (ApplyRangeToHttpHeader p h) #"Range") size =
    if Length p <? 0 then
      if Start p =? 0 then inr [] else inr [mkRange (Start p) (size - Start p)]
    else if Length p =? 0 then inl ErrInvalid
    else inr [p].
Proof.
  unfold_int64. unfold ApplyRangeToHttpHeader, header_Get.
  destruct ((Start p =? 0) && (Length p <? 0)) eqn:E0.
  { rewrite lookup_delete_eq. apply andb_true_iff in E0 as [-> ->]. done. }
  rewrite lookup_insert_eq.
  destruct (0 <=? Length p) eqn:E; reflect_bools.
  - rewrite (proj2 (Z.ltb_ge _ _)) by lia.
    rewrite !wrap64_id by (unfold_int64; rewrite ?wrap64_id; unfold_int64; lia).
    rewrite ParseRange_single; cycle 1.
    { rewrite !not_elem_of_app. split_ands; [apply FormatInt_no_comma|decide_now|].
      apply FormatInt_no_comma. }
    rewrite parse_one_fmt by (unfold_int64; lia || plain).
    rewrite (proj2 (Z.leb_gt _ _)) by lia.
    rewrite bool_decide_false by apply FormatInt_nonempty.
    rewrite ParseInt_FormatInt by (unfold_int64; lia). simpl bool_decide. cbn [orb].
    destruct (Length p =? 0) eqn:E1; reflect_bools.
    + by rewrite (proj2 (Z.ltb_lt _ _)) by lia.
    + rewrite (proj2 (Z.ltb_ge _ _)), (proj2 (Z.leb_gt _ _)) by lia.
      rewrite !wrap64_id by (unfold_int64; rewrite ?wrap64_id; unfold_int64; lia).
      destruct p as [st ln]. simpl in *. do 3 f_equal. lia.
  - rewrite (proj2 (Z.ltb_lt _ _)) in * by lia. rewrite andb_true_r in E0.
    rewrite E0. rewrite app_nil_r. rewrite ParseRange_single; cycle 1.
    { rewrite !not_elem_of_app. split_ands; [apply FormatInt_no_comma|decide_now]. }
    rewrite <- (app_nil_r #"-"). rewrite parse_one_fmt by (unfold_int64; lia || plain).
    rewrite (proj2 (Z.leb_gt _ _)) by lia.
    rewrite bool_decide_true by done. by rewrite wrap64_id by (unfold_int64; lia).
Qed.

Lemma IndexByte_prefix p u c :
  (c ∉ p) → IndexByte (p ++ u) c =
    if IndexByte u c <? 0 then -1 else Z.of_nat (length p) + IndexByte u c.
Proof.
  intros Hp. destruct (IndexByte_spec u c) as [[Hu ->]|(a & b & -> & Ha & E)].
  - simpl. destruct (IndexByte_spec (p ++ u) c) as [[_ ->]|(a & b & E & _ & _)]; [done|].
    exfalso. assert (Hin : c ∈ p ++ u).
    { rewrite E. apply elem_of_app. right. by left. }
    apply elem_of_app in Hin as [?|?]; done.
  - rewrite E. rewrite (proj2 (Z.ltb_ge _ _)) by lia. rewrite app_assoc.
    rewrite IndexByte_app by (apply not_elem_of_app; done). rewrite length_app. lia.
Qed.

(** The first slash and the first dash of a string are at different places. *)
Lemma first_bytes u c d :
  c ≠ d → 0 ≤ IndexByte u c → 0 ≤ IndexByte u d → IndexByte u c < IndexByte u d + 1 →
  ∃ a b, u = a ++ c :: b ∧ (c ∉ a) ∧ (d ∉ a) ∧ d ∈ b.
Proof.
  intros Hcd. destruct (IndexByte_spec u c) as [[_ ->]|(a & b & -> & Ha & ->)]; [lia|].
  intros _. destruct (IndexByte_spec (a ++ c :: b) d) as [[_ ->]|(a' & b' & E & Ha' & ->)]; [lia|].
  intros _ Hl. exists a, b. apply app_eq_inv in E as [(k & -> & E2)|(k & -> & E2)].
  - destruct k as [|x k]; simplify_eq/=. rewrite length_app in Hl. simpl in Hl. lia.
  - apply not_elem_of_app in Ha' as [Ha1 Ha2]. split_ands; try done.
    destruct k as [|x k]; simplify_eq/=. apply elem_of_app. right. by left.
Qed.

(** [ParseContentRange] recovers the first and last byte positions from
    the [Content-Range] header the server writes for a non-empty range. *)
Theorem ParseContentRange_ContentRange r size
    (Hstart : 0 ≤ Start r) (Hlen : 1 ≤ Length r) (Hend : Start r + Length r ≤ max_int64) :
  ParseContentRange (ContentRange r size) =
    Ret (inr (Start r, Start r + Length r - 1, true)).
Proof.
  unfold_int64. unfold ContentRange.
  rewrite !wrap64_id by (unfold_int64; rewrite ?wrap64_id; unfold_int64; lia).
  set (A := FormatInt (Start r)). set (B := FormatInt (Start r + Length r - 1)).
  set (C := FormatInt size).
  assert (HA : ∀ d, is_digit d = false → d ∉ A)
    by (intros; apply digits_not_in, FormatInt_digits; lia || done).
  assert (HB : ∀ d, is_digit d = false → d ∉ B)
    by (intros; apply digits_not_in, FormatInt_digits; lia || done).
  unfold ParseContentRange. rewrite bool_decide_false by done. rewrite HasPrefix_app.
  cbn [negb]. rewrite !Index_byte, !(IndexByte_prefix #"bytes ") by decide_now.
  rewrite (IndexByte_app A (B ++ #"/" ++ C) "-" (HA "-"%char eq_refl) :
    IndexByte (A ++ #"-" ++ B ++ #"/" ++ C) "-" = _).
  rewrite (IndexByte_prefix A _ "/") by by apply HA.
  rewrite (IndexByte_prefix #"-" _ "/") by decide_now.
  rewrite (IndexByte_app B C "/" (HB "/"%char eq_refl) : IndexByte (B ++ #"/" ++ C) "/" = _).
  cbn [length].
  zcmp. cbn [orb].
  rewrite (slice_app #"bytes " A) by (simpl; lia).
  change (#"bytes " ++ A ++ #"-" ++ B ++ #"/" ++ C)
    with (#"bytes " ++ A ++ (#"-" ++ B ++ #"/" ++ C)).
  rewrite (app_assoc A), (app_assoc #"bytes ").
  rewrite (slice_app _ B) by (rewrite !length_app; simpl; lia).
  rewrite !(trim_both_id is_http_space) by apply FormatInt_plain.
  unfold A, B. rewrite !ParseInt_FormatInt by (unfold_int64; lia). done.
Qed.

(** [ParseContentRange] panics (slice bounds out of range) exactly on the
    headers that start with [bytes ] and have a slash before their first
    dash; it returns on every other input. *)
Theorem ParseContentRange_panics s :
  ParseContentRange s = Panic ↔
  ∃ u v, s = #"bytes " ++ u ++ "/"%char :: v ∧ ("/"%char ∉ u) ∧ ("-"%char ∉ u) ∧ "-"%char ∈ v.
Proof.
  unfold ParseContentRange. split.
  - case_bool_decide; [done|]. destruct (HasPrefix s #"bytes ") eqn:Hp; simpl negb; [|done].
    apply HasPrefix_spec in Hp as [u ->]. rewrite !Index_byte, !(IndexByte_prefix #"bytes ") by decide_now.
    change (length #"bytes ") with 6%nat.
    destruct (IndexByte u "-" <? 0) eqn:E1; simpl; [done|].
    destruct (IndexByte u "/" <? 0) eqn:E2; simpl; [by rewrite orb_true_r|].
    reflect_bools. zcmp. cbn [orb].
    destruct (_ <? _) eqn:E3; [|by repeat case_match]. reflect_bools. intros _.
    destruct (first_bytes u "/" "-") as (a & b & -> & ? & ? & ?); [done|lia..|].
    by exists a, b.
  - intros (u & v & -> & H1 & H2 & H3). rewrite bool_decide_false by done.
    rewrite HasPrefix_app. cbn [negb].
    rewrite !Index_byte, !(IndexByte_prefix #"bytes ") by decide_now.
    rewrite (IndexByte_app u) by done.
    rewrite (IndexByte_prefix u) by done.
    rewrite (IndexByte_prefix #"/" v "-" ltac:(decide_now) :
      IndexByte ("/"%char :: v) "-" = _).
    destruct (IndexByte_spec v "-") as [[? _]|(a & b & -> & Ha & ->)]; [done|].
    cbn [app length]. by zcmp.
Qed.
