(* ===== verification/Json.v ===== *)
(** * UTF-8 and JSON (Go's [unicode/utf8] and [encoding/json])

    What the code uses of the two packages: the encoder of strings, the
    decoder of a document, and the facts that a printed object is read back.
    A document is at most a few hundred bytes long where it is used, far below
    the nesting limit of the package. *)

From S2P Require Import Prelude GoStrings Paths.

Local Open Scope Z_scope.

(** ** [unicode/utf8] *)

Definition in_range (lo hi : Z) (c : ascii) : bool := (lo <=? byte_val c) && (byte_val c <=? hi).
Definition is_cont (c : ascii) : bool := in_range 128 191 c.

(** The number of bytes of the rune at the start of [s]; [None] when they are
    no encoding, and the decoder then goes on by one byte. *)
Definition rune_len (s : gostr) : option nat :=
  match s with
  | [] => None
  | a :: s1 =>
      if in_range 0 127 a then Some 1%nat
      else match s1 with
      | [] => None
      | b :: s2 =>
          if in_range 194 223 a then if is_cont b then Some 2%nat else None
          else match s2 with
          | [] => None
          | c :: s3 =>
              if in_range 224 239 a then
                let lo := if byte_val a =? 224 then 160 else 128 in
                let hi := if byte_val a =? 237 then 159 else 191 in
                if in_range lo hi b && is_cont c then Some 3%nat else None
              else match s3 with
              | [] => None
              | d :: _ =>
                  let lo := if byte_val a =? 240 then 144 else 128 in
                  let hi := if byte_val a =? 244 then 143 else 191 in
                  if in_range 240 244 a && in_range lo hi b && is_cont c && is_cont d
                  then Some 4%nat else None
              end
          end
      end
  end.

(** [utf8.ValidString]; [k] bytes of the current rune are left. *)
Fixpoint valid_from (k : nat) (s : gostr) : bool :=
  match s with
  | [] => true
  | _ :: s' =>
      match k with
      | S k' => valid_from k' s'
      | O => match rune_len s with Some n => valid_from (n - 1) s' | None => false end
      end
  end.
Definition utf8_Valid (s : gostr) : bool := valid_from 0 s.

Definition RuneError : gostr := ["239"; "191"; "189"]%char.

(** A byte that starts no rune becomes [RuneError]. *)
Fixpoint to_valid (k : nat) (s : gostr) : gostr :=
  match s with
  | [] => []
  | c :: s' =>
      match k with
      | S k' => c :: to_valid k' s'
      | O => match rune_len s with
             | Some n => c :: to_valid (n - 1) s'
             | None => RuneError ++ to_valid 0 s'
             end
      end
  end.

(** [utf8.AppendRune] *)
Definition encode_rune (r : Z) : gostr :=
  if (r <? 0) || (1114111 <? r) || ((55296 <=? r) && (r <=? 57343)) then RuneError
  else if r <? 128 then [val_byte r]
  else if r <? 2048 then [val_byte (192 + r / 64); val_byte (128 + r mod 64)]
  else if r <? 65536 then
    [val_byte (224 + r / 4096); val_byte (128 + r / 64 mod 64); val_byte (128 + r mod 64)]
  else [val_byte (240 + r / 262144); val_byte (128 + r / 4096 mod 64);
        val_byte (128 + r / 64 mod 64); val_byte (128 + r mod 64)].

(** ** Strings of a document *)

Definition dquote : ascii := "034".

Definition jhex (d : Z) : ascii := if d <? 10 then val_byte (48 + d) else val_byte (87 + d).

(** The bytes below 128 the encoder, with its HTML escaping, copies. *)
Definition json_safe (c : ascii) : bool :=
  in_range 32 127 c && negb (bool_decide (c ∈ [dquote; "\"; "<"; ">"; "&"]%char)).

Definition json_escape (c : ascii) : gostr :=
  "\"%char ::
  if bool_decide (c = dquote) || bool_decide (c = "\"%char) then [c]
  else if byte_val c =? 8 then #"b"
  else if byte_val c =? 12 then #"f"
  else if byte_val c =? 10 then #"n"
  else if byte_val c =? 13 then #"r"
  else if byte_val c =? 9 then #"t"
  else #"u00" ++ [jhex (byte_val c / 16); jhex (byte_val c mod 16)].

(** The loop of [appendString]: [k] bytes are left of a rune that is copied or,
    with [skip], already written. *)
Fixpoint append_runes (skip : bool) (k : nat) (s : gostr) : gostr :=
  match s with
  | [] => []
  | c :: s' =>
      match k with
      | S k' => (if skip then [] else [c]) ++ append_runes skip k' s'
      | O =>
          if in_range 0 127 c then
            (if json_safe c then [c] else json_escape c) ++ append_runes false 0 s'
          else match rune_len s with
          | None => #"\ufffd" ++ append_runes false 0 s'
          | Some n =>
              if HasPrefix s ["226"; "128"; "168"]%char then #"\u2028" ++ append_runes true 2 s'
              else if HasPrefix s ["226"; "128"; "169"]%char then #"\u2029" ++ append_runes true 2 s'
              else c :: append_runes false (n - 1) s'
          end
      end
  end.

Definition json_string (s : gostr) : gostr := dquote :: append_runes false 0 s ++ [dquote].

(** The literal up to its closing quote: the bytes between and the rest. *)
Fixpoint scan_string (esc : bool) (hexes : nat) (s : gostr) : option (gostr * gostr) :=
  match s with
  | [] => None
  | c :: s' =>
      let go esc hexes := '(raw, rest) ← scan_string esc hexes s'; Some (c :: raw, rest) in
      match hexes with
      | S k => match unhex c with Some _ => go false k | None => None end
      | O =>
          if esc then
            if bool_decide (c ∈ dquote :: #"bfnrt\/") then go false 0%nat
            else if bool_decide (c = "u"%char) then go false 4%nat
            else None
          else if bool_decide (c = dquote) then Some ([], s')
          else if byte_val c <? 32 then None
          else go (bool_decide (c = "\"%char)) 0%nat
      end
  end.

(** [getu4] on the text after a backslash *)
Definition getu4 (s : gostr) : option (Z * gostr) :=
  match s with
  | u :: a :: b :: c :: d :: rest =>
      if bool_decide (u = "u"%char) then
        a ← unhex a; b ← unhex b; c ← unhex c; d ← unhex d;
        Some (((a * 16 + b) * 16 + c) * 16 + d, rest)
      else None
  | _ => None
  end.

Definition surrogate (r : Z) : bool := (55296 <=? r) && (r <=? 57343).

(** [utf16.DecodeRune] of two halves *)
Definition surrogate_pair (r1 r2 : Z) : option Z :=
  if (55296 <=? r1) && (r1 <? 56320) && (56320 <=? r2) && (r2 <? 57344)
  then Some ((r1 - 55296) * 1024 + (r2 - 56320) + 65536) else None.

Definition simple_escape (c : ascii) : ascii :=
  if bool_decide (c = "b"%char) then "008"%char
  else if bool_decide (c = "f"%char) then "012"%char
  else if bool_decide (c = "n"%char) then "010"%char
  else if bool_decide (c = "r"%char) then "013"%char
  else if bool_decide (c = "t"%char) then "009"%char
  else c.

(** [unquoteBytes] of a scanned literal. *)
Fixpoint unquote (fuel : nat) (s : gostr) : gostr :=
  match fuel, s with
  | S f, c :: s' =>
      if bool_decide (c = "\"%char) then
        match getu4 s' with
        | Some (r, rest) =>
            if surrogate r then
              let second := match rest with b :: rest' => if bool_decide (b = "\"%char) then getu4 rest' else None | [] => None end in
              match second with
              | Some (r2, rest2) =>
                  match surrogate_pair r r2 with
                  | Some r' => encode_rune r' ++ unquote f rest2
                  | None => RuneError ++ unquote f rest
                  end
              | None => RuneError ++ unquote f rest
              end
            else encode_rune r ++ unquote f rest
        | None =>
            match s' with
            | e :: s'' => simple_escape e :: unquote f s''
            | [] => []
            end
        end
      else match rune_len s with
           | Some n => take n s ++ unquote f (drop n s)
           | None => RuneError ++ unquote f s'
           end
  | _, _ => []
  end.

Definition read_string (s : gostr) : option (gostr * gostr) :=
  '(raw, rest) ← scan_string false 0 s; Some (unquote (length raw) raw, rest).

(** ** Documents *)

Inductive json :=
  | JNull
  | JBool (b : bool)
  | JNumber (text : gostr)
  | JString (s : gostr)
  | JArray (l : list json)
  | JObject (l : list (gostr * json)).

Definition json_space (c : ascii) : bool := bool_decide (c ∈ [" "; "009"; "010"; "013"]%char).
Definition skip_space (s : gostr) : gostr := trim_left json_space s.

Fixpoint span (P : ascii → bool) (s : gostr) : gostr * gostr :=
  match s with
  | [] => ([], [])
  | c :: s' => if P c then let '(a, b) := span P s' in (c :: a, b) else ([], s)
  end.

(** One digit or more. *)
Definition some_digits (s : gostr) : option (gostr * gostr) :=
  match span is_digit s with
  | ([], _) => None
  | r => Some r
  end.

Definition read_int (s : gostr) : option (gostr * gostr) :=
  match s with
  | c :: s' =>
      if bool_decide (c = "0"%char) then Some ([c], s') else some_digits s
  | [] => None
  end.

Definition read_frac (s : gostr) : option (gostr * gostr) :=
  match s with
  | c :: s' =>
      if bool_decide (c = "."%char) then '(ds, rest) ← some_digits s'; Some (c :: ds, rest)
      else Some ([], s)
  | [] => Some ([], [])
  end.

Definition read_exp (s : gostr) : option (gostr * gostr) :=
  match s with
  | c :: s' =>
      if bool_decide (c ∈ #"eE") then
        let '(sign, s'') := match s' with
                            | d :: s'' => if bool_decide (d ∈ #"+-") then ([d], s'') else ([], s')
                            | [] => ([], [])
                            end in
        '(ds, rest) ← some_digits s''; Some (c :: sign ++ ds, rest)
      else Some ([], s)
  | [] => Some ([], [])
  end.

Definition read_number (s : gostr) : option (gostr * gostr) :=
  let '(sign, s) := match s with
                    | c :: s' => if bool_decide (c = "-"%char) then ([c], s') else ([], s)
                    | [] => ([], [])
                    end in
  '(i, s) ← read_int s;
  '(f, s) ← read_frac s;
  '(e, s) ← read_exp s;
  Some (sign ++ i ++ f ++ e, s).

(** A value, the elements of an array after its bracket, the members of an
    object after its brace; each returns the text that follows. *)
Fixpoint read_value (fuel : nat) (s : gostr) : option (json * gostr) :=
  match fuel with
  | O => None
  | S f =>
      match skip_space s with
      | [] => None
      | c :: s' =>
          if bool_decide (c = "{"%char) then
            match skip_space s' with
            | d :: s'' => if bool_decide (d = "}"%char) then Some (JObject [], s'')
                          else '(l, rest) ← read_members f s'; Some (JObject l, rest)
            | [] => None
            end
          else if bool_decide (c = "["%char) then
            match skip_space s' with
            | d :: s'' => if bool_decide (d = "]"%char) then Some (JArray [], s'')
                          else '(l, rest) ← read_elements f s'; Some (JArray l, rest)
            | [] => None
            end
          else if bool_decide (c = dquote) then '(str, rest) ← read_string s'; Some (JString str, rest)
          else if HasPrefix (c :: s') #"null" then Some (JNull, drop 3 s')
          else if HasPrefix (c :: s') #"true" then Some (JBool true, drop 3 s')
          else if HasPrefix (c :: s') #"false" then Some (JBool false, drop 4 s')
          else '(text, rest) ← read_number (c :: s'); Some (JNumber text, rest)
      end
  end
with read_members (fuel : nat) (s : gostr) : option (list (gostr * json) * gostr) :=
  match fuel with
  | O => None
  | S f =>
      match skip_space s with
      | c :: s' =>
          if bool_decide (c = dquote) then
            '(key, s1) ← read_string s';
            match skip_space s1 with
            | d :: s2 =>
                if bool_decide (d = ":"%char) then
                  '(v, s3) ← read_value f s2;
                  match skip_space s3 with
                  | e :: s4 =>
                      if bool_decide (e = ","%char) then
                        '(l, rest) ← read_members f s4; Some ((key, v) :: l, rest)
                      else if bool_decide (e = "}"%char) then Some ([(key, v)], s4)
                      else None
                  | [] => None
                  end
                else None
            | [] => None
            end
          else None
      | [] => None
      end
  end
with read_elements (fuel : nat) (s : gostr) : option (list json * gostr) :=
  match fuel with
  | O => None
  | S f =>
      '(v, s1) ← read_value f s;
      match skip_space s1 with
      | e :: s2 =>
          if bool_decide (e = ","%char) then '(l, rest) ← read_elements f s2; Some (v :: l, rest)
          else if bool_decide (e = "]"%char) then Some ([v], s2)
          else None
      | [] => None
      end
  end.

(** A call reads a byte before it makes another on the rest, or is the first
    of three on the same byte. *)
Definition read_fuel (s : gostr) : nat := (3 * length s + 3)%nat.

Definition read_json (s : gostr) : option json :=
  match read_value (read_fuel s) s with
  | Some (v, rest) => if bool_decide (skip_space rest = []) then Some v else None
  | None => None
  end.

(** [foldName]: the keys of a struct match whatever the case; two runes
    outside ASCII fold to a letter of it. *)
Definition upper (c : ascii) : ascii :=
  if in_range 97 122 c then val_byte (byte_val c - 32) else c.

Fixpoint foldName (s : gostr) : gostr :=
  match s with
  | "226"%char :: "132"%char :: "170"%char :: s' => "K"%char :: foldName s'
  | "197"%char :: "191"%char :: s' => "S"%char :: foldName s'
  | c :: s' => upper c :: foldName s'
  | [] => []
  end.

Definition key_matches (field key : gostr) : bool := bool_decide (foldName field = foldName key).

(** A number into an integer; [None] is the error of another kind of value. *)
Definition json_int (v : json) : option (option Z) :=
  match v with
  | JNull => Some None
  | JNumber text => match ParseInt text with
                    | (n, None) => Some (Some n)
                    | _ => None
                    end
  | _ => None
  end.

(** A string into a string field, which null leaves as it is. *)
Definition json_str (old : gostr) (v : json) : option gostr :=
  match v with
  | JNull => Some old
  | JString s => Some s
  | _ => None
  end.

(** ** Reading back what is printed *)

(** The members of an object whose values are printed texts. *)
Definition print_object (l : list (gostr * gostr)) : gostr :=
  #"{" ++ Join #"," (map (λ '(k, text), json_string k ++ #":" ++ text) l) ++ #"}".

Definition plain (s : gostr) : Prop := Forall (λ c, json_safe c = true) s.

Lemma json_safe_range c : json_safe c = true → 32 ≤ byte_val c ≤ 127 ∧ c ≠ dquote ∧ c ≠ "\"%char.
Proof.
  unfold json_safe, in_range. intros. reflect_bools. split; [lia|].
  split; intros ->; set_solver.
Qed.

Lemma json_safe_ascii c : json_safe c = true → in_range 0 127 c = true.
Proof. intros H%json_safe_range. unfold in_range. apply andb_true_iff; lia. Qed.

Lemma json_string_plain s : plain s → json_string s = dquote :: s ++ [dquote].
Proof.
  intros H. unfold json_string. do 2 f_equal.
  induction H as [|c s Hc Hs IH]; [done|]. simpl.
  by rewrite (json_safe_ascii c Hc), Hc, IH.
Qed.

Lemma scan_plain s rest : plain s → scan_string false 0 (s ++ dquote :: rest) = Some (s, rest).
Proof.
  induction 1 as [|c s Hc Hs IH]; [done|]. simpl.
  destruct (json_safe_range c Hc) as (Hr & Hq & Hb).
  rewrite !bool_decide_eq_false_2 by done.
  destruct (Z.ltb_spec (byte_val c) 32); [lia|]. by rewrite IH.
Qed.

Lemma unquote_plain s n : plain s → (length s ≤ n)%nat → unquote n s = s.
Proof.
  intros H. revert n. induction H as [|c s Hc Hs IH]; intros n Hn; [by destruct n|].
  destruct n as [|n]; [simpl in Hn; lia|]. cbn [unquote].
  destruct (json_safe_range c Hc) as (Hr & Hq & Hb).
  rewrite bool_decide_eq_false_2 by done. cbn [rune_len].
  rewrite (json_safe_ascii c Hc). change (c :: unquote n s = c :: s). f_equal.
  apply IH. simpl in Hn. lia.
Qed.

Lemma read_string_plain s rest : plain s → read_string (s ++ dquote :: rest) = Some (s, rest).
Proof. intros H. unfold read_string. rewrite scan_plain by done. simpl. by rewrite unquote_plain. Qed.

Lemma skip_space_id s c : json_space c = false → skip_space (c :: s) = c :: s.
Proof. unfold skip_space. intros H. simpl. by rewrite H. Qed.

(** A text that is read as [v] before a comma or a brace. *)
Definition reads_as (text : gostr) (v : json) : Prop :=
  ∀ f c rest, c ∈ [","; "}"]%char → read_value (S f) (text ++ c :: rest) = Some (v, c :: rest).

Lemma reads_string s : plain s → reads_as (json_string s) (JString s).
Proof.
  intros H f c rest Hc. rewrite json_string_plain by done.
  cbn [read_value app]. rewrite skip_space_id by done.
  rewrite !bool_decide_eq_false_2 by done. rewrite bool_decide_eq_true_2 by done.
  rewrite <- app_assoc. simpl app. by rewrite read_string_plain.
Qed.

Lemma span_digits s c rest :
  Forall (λ c, is_digit c = true) s → is_digit c = false → span is_digit (s ++ c :: rest) = (s, c :: rest).
Proof.
  induction 1 as [|d s Hd Hs IH]; intros Hc; simpl; [by rewrite Hc|].
  by rewrite Hd, IH.
Qed.

Lemma digits_lead fuel n :
  0 < n < 10 ^ Z.of_nat fuel → ∃ c s, digits fuel n = c :: s ∧ is_digit c = true ∧ c ≠ "0"%char.
Proof.
  revert n. induction fuel as [|f IH]; intros n Hn; [simpl in Hn; lia|].
  cbn [digits]. destruct (Z.ltb_spec n 10).
  - exists (digit n), []. split; [done|]. split; [apply is_digit_digit; lia|].
    intros E. apply (f_equal byte_val) in E. rewrite digit_val in E by lia. change (byte_val "0"%char) with 48 in E. lia.
  - destruct (IH (n / 10)) as (c & s & -> & Hc).
    { rewrite Nat2Z.inj_succ, Z.pow_succ_r in Hn by lia. split; [apply Z.div_str_pos; lia|].
      apply Z.div_lt_upper_bound; lia. }
    by exists c, (s ++ [digit (n mod 10)]).
Qed.

Lemma read_int_format n c rest :
  0 ≤ n → is_digit c = false → read_int (FormatUint n ++ c :: rest) = Some (FormatUint n, c :: rest).
Proof.
  intros Hn Hc. destruct (decide (n = 0)) as [->|]; [done|].
  destruct (digits_lead (S (Z.to_nat (Z.log2 n))) n) as (d & s & E & Hd & Hz).
  { split; [lia|]. apply log2_pow10. lia. }
  fold (FormatUint n) in E.
  assert (Hall : Forall (λ c, is_digit c = true) (FormatUint n)) by (apply digits_all; lia).
  unfold read_int, some_digits. rewrite E in *. cbn [app].
  rewrite bool_decide_eq_false_2 by done.
  change (d :: s ++ c :: rest) with ((d :: s) ++ c :: rest). by rewrite span_digits.
Qed.

Lemma read_number_format n c rest :
  c ∈ [","; "}"]%char → read_number (FormatInt n ++ c :: rest) = Some (FormatInt n, c :: rest).
Proof.
  intros Hc.
  assert (Hcases : c = ","%char ∨ c = "}"%char) by set_solver.
  assert (Hd : is_digit c = false) by (by destruct Hcases as [->| ->]).
  assert (Hfrac : read_frac (c :: rest) = Some ([], c :: rest)) by (by destruct Hcases as [->| ->]).
  assert (Hexp : read_exp (c :: rest) = Some ([], c :: rest)) by (by destruct Hcases as [->| ->]).
  unfold read_number, FormatInt. destruct (Z.ltb_spec n 0).
  - cbn [app]. cbv iota. rewrite bool_decide_eq_true_2 by done. rewrite read_int_format by (done || lia).
    cbn [mbind option_bind]. rewrite Hfrac. cbn [mbind option_bind]. rewrite Hexp. simpl. by rewrite !app_nil_r.
  - destruct (FormatUint_head n) as (d & s & E & Hdd); [done|].
    pose proof (read_int_format n c rest ltac:(done) Hd) as Hi. rewrite E in *. cbn [app] in *. cbv iota.
    rewrite bool_decide_eq_false_2 by (by apply digit_not_sign).
    rewrite Hi. cbn [mbind option_bind]. rewrite Hfrac. cbn [mbind option_bind]. rewrite Hexp. simpl. by rewrite !app_nil_r.
Qed.

Lemma reads_int n : reads_as (FormatInt n) (JNumber (FormatInt n)).
Proof.
  intros f c rest Hc.
  assert (Hh : ∃ d s, FormatInt n = d :: s ∧ (is_digit d = true ∨ d = "-"%char)).
  { pose proof (FormatInt_chars n) as Hch. pose proof (FormatInt_nonempty n).
    destruct (FormatInt n) as [|d s]; [done|]. apply Forall_cons in Hch as [??]. eauto. }
  destruct Hh as (d & s & E & Hd). pose proof (read_number_format n c rest Hc) as Hn.
  rewrite E in *. cbn [app read_value] in *.
  assert (Hneq : ∀ x, is_digit x = false → x ≠ "-"%char → d ≠ x).
  { intros x Hx Hx' ->. destruct Hd; congruence. }
  rewrite skip_space_id.
  2: { unfold json_space. apply bool_decide_eq_false_2. intros Hin.
       repeat (apply elem_of_cons in Hin as [Hin|Hin]; [by apply Hneq in Hin|]). by apply elem_of_nil in Hin. }
  rewrite !bool_decide_eq_false_2 by (by apply Hneq).
  assert (Hp : ∀ x p, is_digit x = false → x ≠ "-"%char → HasPrefix (d :: s ++ c :: rest) (x :: p) = false).
  { intros x p ??. apply not_true_is_false. rewrite HasPrefix_spec. intros [k E']. injection E' as E' _.
    by apply Hneq in E'. }
  rewrite !Hp by done. by rewrite Hn.
Qed.

Lemma read_members_print l vs rest f :
  l ≠ [] → Forall (λ '(k, _), plain k) l → Forall2 (λ kt kv, kt.1 = kv.1 ∧ reads_as kt.2 kv.2) l vs →
  (length l < f)%nat →
  read_members f (Join #"," (map (λ '(k, text), json_string k ++ #":" ++ text) l) ++ "}"%char :: rest)
  = Some (vs, rest).
Proof.
  intros Hne Hk Hv. revert f Hne Hk.
  induction Hv as [|[k text] [k' v] l vs [E Hr] Hv IH]; intros f Hne Hk Hf; [done|].
  simpl in E, Hr. subst k'. apply Forall_cons in Hk as [Hk Hks].
  destruct f as [|f]; [simpl in Hf; lia|]. cbn [map]. rewrite json_string_plain by done.
  assert (Hcase : ∃ c more, c ∈ [","; "}"]%char ∧
    Join #"," (((dquote :: k ++ [dquote]) ++ #":" ++ text) :: map (λ '(k, text), json_string k ++ #":" ++ text) l)
      ++ "}"%char :: rest = dquote :: k ++ dquote :: ":"%char :: text ++ c :: more ∧
    (c = "}"%char ∧ l = [] ∧ more = rest ∨
     c = ","%char ∧ l ≠ [] ∧ more = Join #"," (map (λ '(k, text), json_string k ++ #":" ++ text) l) ++ "}"%char :: rest)).
  { destruct l as [|x l].
    - exists "}"%char, rest. split; [set_solver|]. split; [|by left]. simpl. by rewrite <- !app_assoc.
    - exists ","%char. eexists. split; [set_solver|]. split; [|by right].
      rewrite Join_cons by done. simpl. by rewrite <- !app_assoc. }
  destruct Hcase as (c & more & Hc & -> & Hcase).
  cbn [read_members]. rewrite skip_space_id by done. rewrite bool_decide_eq_true_2 by done.
  rewrite read_string_plain by done. cbn [mbind option_bind]. rewrite skip_space_id by done.
  rewrite bool_decide_eq_true_2 by done.
  destruct f as [|f]; [simpl in Hf; lia|].
  rewrite (Hr f c more Hc). cbn [mbind option_bind].
  destruct Hcase as [(-> & -> & ->)|(-> & Hl & ->)].
  - inversion Hv; subst. done.
  - rewrite skip_space_id by done. rewrite bool_decide_eq_true_2 by done.
    rewrite IH; [done|done|done|]. simpl in Hf. lia.
Qed.

(** An object of integers and plain strings is read back. *)
Lemma read_print_object l vs :
  l ≠ [] → Forall (λ '(k, _), plain k) l → Forall2 (λ kt kv, kt.1 = kv.1 ∧ reads_as kt.2 kv.2) l vs →
  read_json (print_object l) = Some (JObject vs).
Proof.
  intros Hne Hk Hv. unfold read_json.
  assert (Hhead : ∃ s, Join #"," (map (λ '(k, text), json_string k ++ #":" ++ text) l) = dquote :: s).
  { destruct l as [|[k text] l]; [done|]. cbn [map]. destruct l; simpl; eauto. }
  assert (Hlen : (length l ≤ length (print_object l))%nat).
  { unfold print_object. rewrite !length_app. cbn [length].
    assert (∀ m, (length m ≤ S (length (Join #"," (map (λ '(k, text), json_string k ++ #":" ++ text) m))))%nat) as Hm.
    { intros m. induction m as [|[k t] m IH]; [simpl; lia|]. cbn [map].
      destruct (decide (m = [])) as [->|Hm]; [simpl; lia|].
      rewrite Join_cons by (by destruct m). rewrite !length_app. cbn [length]. lia. }
    specialize (Hm l). lia. }
  pose proof (read_members_print l vs [] (3 * length (print_object l) + 2) Hne Hk Hv ltac:(lia)) as H.
  unfold read_fuel. rewrite Nat.add_succ_r.
  destruct Hhead as [s Hs].
  assert (print_object l = "{"%char :: Join #"," (map (λ '(k, text), json_string k ++ #":" ++ text) l) ++ #"}") as E by done.
  rewrite E at 2. cbn [read_value]. rewrite skip_space_id by done. rewrite bool_decide_eq_true_2 by done.
  rewrite Hs in *. cbn [app] in *. rewrite skip_space_id by done. rewrite bool_decide_eq_false_2 by done.
  rewrite H. done.
Qed.
