(* ===== verification/Crypto.v ===== *)
(** * SHA-256, SHA-1, MD5, HMAC, hexadecimal and base64 (Go's [crypto], [encoding])

    The hash functions the code calls, executable on byte strings.  The
    components only rely on the few facts proved at the end. *)

From S2P Require Import Prelude GoStrings.

Local Open Scope Z_scope.

(** ** SHA-256 (FIPS 180-4), 32-bit words as integers below 2^32 *)

Definition w32 (z : Z) : Z := Z.land z 4294967295.
Definition rotr (n x : Z) : Z := Z.lor (Z.shiftr x n) (w32 (Z.shiftl x (32 - n))).
Definition xor3 (a b c : Z) : Z := Z.lxor a (Z.lxor b c).

Definition sha_k : list Z :=
  [1116352408; 1899447441; 3049323471; 3921009573; 961987163; 1508970993; 2453635748; 2870763221;
   3624381080; 310598401; 607225278; 1426881987; 1925078388; 2162078206; 2614888103; 3248222580;
   3835390401; 4022224774; 264347078; 604807628; 770255983; 1249150122; 1555081692; 1996064986;
   2554220882; 2821834349; 2952996808; 3210313671; 3336571891; 3584528711; 113926993; 338241895;
   666307205; 773529912; 1294757372; 1396182291; 1695183700; 1986661051; 2177026350; 2456956037;
   2730485921; 2820302411; 3259730800; 3345764771; 3516065817; 3600352804; 4094571909; 275423344;
   430227734; 506948616; 659060556; 883997877; 958139571; 1322822218; 1537002063; 1747873779;
   1955562222; 2024104815; 2227730452; 2361852424; 2428436474; 2756734187; 3204031479; 3329325298].

Definition sha_h0 : list Z :=
  [1779033703; 3144134277; 1013904242; 2773480762; 1359893119; 2600822924; 528734635; 1541459225].

(** The message schedule: [w] holds the last 16 words, newest first. *)
Fixpoint schedule (n : nat) (w : list Z) : list Z :=
  match n with
  | O => []
  | S n' =>
      let x15 := nth 14 w 0 in let x2 := nth 1 w 0 in
      let s0 := xor3 (rotr 7 x15) (rotr 18 x15) (Z.shiftr x15 3) in
      let s1 := xor3 (rotr 17 x2) (rotr 19 x2) (Z.shiftr x2 10) in
      let x := w32 (nth 15 w 0 + s0 + nth 6 w 0 + s1) in
      x :: schedule n' (x :: take 15 w)
  end.

Definition sha_round (st : list Z) (kw : Z * Z) : list Z :=
  match st with
  | [a; b; c; d; e; f; g; h] =>
      let s1 := xor3 (rotr 6 e) (rotr 11 e) (rotr 25 e) in
      let ch := Z.lxor (Z.land e f) (Z.land (w32 (Z.lnot e)) g) in
      let t1 := w32 (h + s1 + ch + fst kw + snd kw) in
      let s0 := xor3 (rotr 2 a) (rotr 13 a) (rotr 22 a) in
      let maj := xor3 (Z.land a b) (Z.land a c) (Z.land b c) in
      let t2 := w32 (s0 + maj) in
      [w32 (t1 + t2); a; b; c; w32 (d + t1); e; f; g]
  | _ => st
  end.

Definition sha_block (st : list Z) (blk : list Z) : list Z :=
  let w := blk ++ schedule 48 (reverse blk) in
  zip_with (λ x y, w32 (x + y)) st (fold_left sha_round (zip sha_k w) st).

(** Big-endian words of a byte list, and back. *)
Fixpoint words (l : list Z) : list Z :=
  match l with
  | a :: b :: c :: d :: l' => (((a * 256 + b) * 256 + c) * 256 + d) :: words l'
  | _ => []
  end.

Definition word_bytes (w : Z) : list Z :=
  [Z.shiftr w 24; Z.land (Z.shiftr w 16) 255; Z.land (Z.shiftr w 8) 255; Z.land w 255].

Definition sha_pad (n : nat) : list Z :=
  let zeros := (55 - Z.of_nat n) mod 64 in
  let bits := 8 * Z.of_nat n in
  128 :: replicate (Z.to_nat zeros) 0
    ++ word_bytes (w32 (Z.shiftr bits 32)) ++ word_bytes (w32 bits).

Fixpoint blocks (fuel : nat) (l : list Z) (st : list Z) : list Z :=
  match fuel, l with
  | S f, _ :: _ => blocks f (drop 16 l) (sha_block st (take 16 l))
  | _, _ => st
  end.

Definition sha256 (s : gostr) : gostr :=
  let bytes := map byte_val s ++ sha_pad (length s) in
  let ws := words bytes in
  map val_byte (blocks (length ws) ws sha_h0 ≫= word_bytes).

(** ** [md5.Sum] *)

Definition md5_k : list Z :=
  [
   3614090360; 3905402710; 606105819; 3250441966; 4118548399; 1200080426; 2821735955; 4249261313;
   1770035416; 2336552879; 4294925233; 2304563134; 1804603682; 4254626195; 2792965006; 1236535329;
   4129170786; 3225465664; 643717713; 3921069994; 3593408605; 38016083; 3634488961; 3889429448;
   568446438; 3275163606; 4107603335; 1163531501; 2850285829; 4243563512; 1735328473; 2368359562;
   4294588738; 2272392833; 1839030562; 4259657740; 2763975236; 1272893353; 4139469664; 3200236656;
   681279174; 3936430074; 3572445317; 76029189; 3654602809; 3873151461; 530742520; 3299628645;
   4096336452; 1126891415; 2878612391; 4237533241; 1700485571; 2399980690; 4293915773; 2240044497;
   1873313359; 4264355552; 2734768916; 1309151649; 4149444226; 3174756917; 718787259; 3951481745].

Definition md5_shift (i : Z) : Z :=
  nth (Z.to_nat (4 * (i / 16) + i mod 4)) [7; 12; 17; 22; 5; 9; 14; 20; 4; 11; 16; 23; 6; 10; 15; 21] 0.

Definition not32 (x : Z) : Z := Z.lxor x 4294967295.

(** The mixing function of a round and the word it takes. *)
Definition md5_mix (i b c d : Z) : Z * Z :=
  if i <? 16 then (Z.lor (Z.land b c) (Z.land (not32 b) d), i)
  else if i <? 32 then (Z.lor (Z.land d b) (Z.land (not32 d) c), (5 * i + 1) mod 16)
  else if i <? 48 then (xor3 b c d, (3 * i + 5) mod 16)
  else (Z.lxor c (Z.lor b (not32 d)), (7 * i) mod 16).

Definition md5_round (m : list Z) (st : Z * Z * Z * Z) (ik : Z * Z) : Z * Z * Z * Z :=
  let '(a, b, c, d) := st in
  let '(i, k) := ik in
  let '(f, g) := md5_mix i b c d in
  let f := w32 (f + a + k + nth (Z.to_nat g) m 0) in
  (d, w32 (b + rotr (32 - md5_shift i) f), b, c).

Definition md5_block (st : Z * Z * Z * Z) (m : list Z) : Z * Z * Z * Z :=
  let '(a, b, c, d) := st in
  let '(a', b', c', d') := foldl (md5_round m) st (zip (map Z.of_nat (seq 0 64)) md5_k) in
  (w32 (a + a'), w32 (b + b'), w32 (c + c'), w32 (d + d')).

Fixpoint words_le (l : list Z) : list Z :=
  match l with
  | a :: b :: c :: d :: l' => (((d * 256 + c) * 256 + b) * 256 + a) :: words_le l'
  | _ => []
  end.

Definition md5_pad (n : nat) : list Z :=
  let zeros := (55 - Z.of_nat n) mod 64 in
  let bits := 8 * Z.of_nat n in
  128 :: replicate (Z.to_nat zeros) 0
    ++ reverse (word_bytes (w32 bits)) ++ reverse (word_bytes (w32 (Z.shiftr bits 32))).

Fixpoint md5_blocks (fuel : nat) (l : list Z) (st : Z * Z * Z * Z) : Z * Z * Z * Z :=
  match fuel, l with
  | S f, _ :: _ => md5_blocks f (drop 16 l) (md5_block st (take 16 l))
  | _, _ => st
  end.

Definition md5 (s : gostr) : gostr :=
  let ws := words_le (map byte_val s ++ md5_pad (length s)) in
  let '(a, b, c, d) := md5_blocks (length ws) ws (1732584193, 4023233417, 2562383102, 271733878) in
  map val_byte ([a; b; c; d] ≫= λ w, reverse (word_bytes w)).

(** ** [hmac.New(sha256.New, key)] *)

Definition xor_pad (key : gostr) (p : Z) : gostr :=
  map (λ c, val_byte (Z.lxor (byte_val c) p)) (key ++ replicate (64 - length key) "000"%char).

Definition hmac_sha256 (key msg : gostr) : gostr :=
  let key := if (64 <? length key)%nat then sha256 key else key in
  sha256 (xor_pad key 92 ++ sha256 (xor_pad key 54 ++ msg)).

(** ** [sha1.Sum] (FIPS 180-4) *)

Definition rotl (n x : Z) : Z := rotr (32 - n) x.

(** The message schedule, with the last 16 words newest first. *)
Fixpoint sha1_schedule (n : nat) (w : list Z) : list Z :=
  match n with
  | O => []
  | S n' =>
      let x := rotl 1 (Z.lxor (xor3 (nth 2 w 0) (nth 7 w 0) (nth 13 w 0)) (nth 15 w 0)) in
      x :: sha1_schedule n' (x :: take 15 w)
  end.

(** The mixing function and the constant of a round. *)
Definition sha1_mix (i b c d : Z) : Z * Z :=
  if i <? 20 then (Z.lor (Z.land b c) (Z.land (not32 b) d), 1518500249)
  else if i <? 40 then (xor3 b c d, 1859775393)
  else if i <? 60 then (Z.lor (Z.land b c) (Z.lor (Z.land b d) (Z.land c d)), 2400959708)
  else (xor3 b c d, 3395469782).

Definition sha1_round (st : list Z) (iw : Z * Z) : list Z :=
  match st with
  | [a; b; c; d; e] =>
      let '(f, k) := sha1_mix (fst iw) b c d in
      [w32 (rotl 5 a + f + e + k + snd iw); a; rotl 30 b; c; d]
  | _ => st
  end.

Definition sha1_block (st blk : list Z) : list Z :=
  let w := blk ++ sha1_schedule 64 (reverse blk) in
  zip_with (λ x y, w32 (x + y)) st (fold_left sha1_round (zip (map Z.of_nat (seq 0 80)) w) st).

Fixpoint sha1_blocks (fuel : nat) (l : list Z) (st : list Z) : list Z :=
  match fuel, l with
  | S f, _ :: _ => sha1_blocks f (drop 16 l) (sha1_block st (take 16 l))
  | _, _ => st
  end.

Definition sha1_h0 : list Z := [1732584193; 4023233417; 2562383102; 271733878; 3285377520].

Definition sha1 (s : gostr) : gostr :=
  let ws := words (map byte_val s ++ sha_pad (length s)) in
  map val_byte (sha1_blocks (length ws) ws sha1_h0 ≫= word_bytes).

(** ** [hex.EncodeToString] *)

Definition lowerhex (d : Z) : ascii :=
  if d <? 10 then val_byte (48 + d) else val_byte (87 + d).

Definition hex_encode (s : gostr) : gostr :=
  s ≫= λ c, [lowerhex (byte_val c / 16); lowerhex (byte_val c mod 16)].

(** ** [base64.URLEncoding] *)

Definition b64url_char (v : Z) : ascii :=
  if v <? 26 then val_byte (65 + v)
  else if v <? 52 then val_byte (71 + v)
  else if v <? 62 then val_byte (v - 4)
  else if v =? 62 then "-"%char else "_"%char.

Fixpoint base64url (s : gostr) : gostr :=
  match s with
  | a :: b :: c :: s' =>
      let n := (byte_val a * 256 + byte_val b) * 256 + byte_val c in
      b64url_char (n / 262144) :: b64url_char (n / 4096 mod 64)
        :: b64url_char (n / 64 mod 64) :: b64url_char (n mod 64) :: base64url s'
  | [a; b] =>
      let n := byte_val a * 256 + byte_val b in
      [b64url_char (n / 1024); b64url_char (n / 16 mod 64); b64url_char (n mod 16 * 4); "="%char]
  | [a] =>
      [b64url_char (byte_val a / 4); b64url_char (byte_val a mod 4 * 16); "="%char; "="%char]
  | [] => []
  end.

(** ** Test vectors *)

Example sha256_abc :
  hex_encode (sha256 #"abc")
  = #"ba7816bf8f01cfea414140de5dae2223b00361a396177a9cb410ff61f20015ad".
Proof. vm_compute. reflexivity. Qed.

Example md5_fox :
  hex_encode (md5 #"The quick brown fox jumps over the lazy dog") = #"9e107d9d372bb6826bd81d3542a419d6".
Proof. vm_compute. reflexivity. Qed.

Example sha1_abc : hex_encode (sha1 #"abc") = #"a9993e364706816aba3e25717850c26c9cd0d89d".
Proof. vm_compute. reflexivity. Qed.

Example md5_empty : hex_encode (md5 []) = #"d41d8cd98f00b204e9800998ecf8427e".
Proof. vm_compute. reflexivity. Qed.

Example sha256_two_blocks :
  hex_encode (sha256 #"abcdbcdecdefdefgefghfghighijhijkijkljklmklmnlmnomnopnopq")
  = #"248d6a61d20638b8e5c026930c3e6039a33ce45964ff2167f6ecedd419db06c1".
Proof. vm_compute. reflexivity. Qed.

Example hmac_rfc4231_2 :
  hex_encode (hmac_sha256 #"Jefe" #"what do ya want for nothing?")
  = #"5bdcc146bf60754e6a042426089575c75a003f089d2739839dec58b964ec3843".
Proof. vm_compute. reflexivity. Qed.

Example base64url_foobar :
  base64url #"fooba" = #"Zm9vYmE=" ∧ base64url ["251"; "255"; "191"]%char = #"-_-_".
Proof. vm_compute. split; reflexivity. Qed.

(** ** Facts *)

Lemma byte_val_cases c : ∃ v, byte_val c = v ∧ 0 ≤ v < 256.
Proof. exists (byte_val c). split; [done|apply byte_val_bound]. Qed.

Lemma b64url_char_no_colon v : 0 ≤ v < 64 → b64url_char v ≠ ":"%char.
Proof.
  intros Hv E. apply (f_equal byte_val) in E. revert E. change (byte_val ":") with 58.
  unfold b64url_char. repeat case_match; reflect_bools;
    rewrite ?byte_val_byte by lia; try done; lia.
Qed.

(** The encoded text never contains the colon that separates it from the
    expiry time of a signature. *)
Lemma base64url_no_colon s : ":"%char ∉ base64url s.
Proof.
  assert (Hc : ∀ v, 0 ≤ v < 64 → ":"%char ≠ b64url_char v).
  { intros v Hv E. by apply (b64url_char_no_colon v). }
  assert (H : ∀ n s, (length s < n)%nat → ":"%char ∉ base64url s).
  { induction n as [|n IH]; intros t Ht; [lia|].
    destruct t as [|a [|b [|c t]]]; cbn [base64url length] in *;
      repeat match goal with
      | |- _ ∉ [] => apply not_elem_of_nil
      | |- _ ∉ base64url _ => apply IH; lia
      | |- _ ∉ _ :: _ => apply not_elem_of_cons; split; [first [done|apply Hc]|]
      end;
      repeat match goal with
      | c : ascii |- _ => pose proof (byte_val_bound c); generalize dependent (byte_val c);
          clear c; intros
      end; Z.div_mod_to_equations; lia. }
  apply (H (S (length s))). lia.
Qed.

(** Texts of one length with the same encoding are the same. *)
Lemma b64url_char_inj v w : 0 ≤ v < 64 → 0 ≤ w < 64 → b64url_char v = b64url_char w → v = w.
Proof.
  intros Hv Hw E. apply (f_equal byte_val) in E. revert E. unfold b64url_char.
  repeat case_match; reflect_bools; rewrite ?byte_val_byte by lia;
    change (byte_val "-") with 45; change (byte_val "_") with 95; lia.
Qed.

Lemma byte_val_inj a b : byte_val a = byte_val b → a = b.
Proof.
  unfold byte_val. intros E%N2Z.inj. rewrite <- (ascii_N_embedding a), <- (ascii_N_embedding b). by rewrite E.
Qed.

Lemma base64url_triple_inj a b c a' b' c' s s' :
  base64url (a :: b :: c :: s) = base64url (a' :: b' :: c' :: s') →
  a = a' ∧ b = b' ∧ c = c' ∧ base64url s = base64url s'.
Proof.
  cbn [base64url]. intros [= E1 E2 E3 E4 E].
  pose proof (byte_val_bound a). pose proof (byte_val_bound b). pose proof (byte_val_bound c).
  pose proof (byte_val_bound a'). pose proof (byte_val_bound b'). pose proof (byte_val_bound c').
  apply b64url_char_inj in E1, E2, E3, E4; try (Z.div_mod_to_equations; lia).
  split_ands; [| | |done]; apply byte_val_inj; Z.div_mod_to_equations; lia.
Qed.

Lemma base64url_inj s t : length s = length t → base64url s = base64url t → s = t.
Proof.
  remember (length s) as n eqn:Hn. revert s t Hn. induction (lt_wf n) as [n _ IH].
  intros s t Hs Ht E.
  destruct s as [|a [|b [|c s]]], t as [|a' [|b' [|c' t]]]; cbn [length] in *; try lia; [done| | |].
  - cbn [base64url] in E. injection E as E1 E2.
    pose proof (byte_val_bound a). pose proof (byte_val_bound a').
    apply b64url_char_inj in E1, E2; try (Z.div_mod_to_equations; lia).
    f_equal. apply byte_val_inj. Z.div_mod_to_equations; lia.
  - cbn [base64url] in E. injection E as E1 E2 E3.
    pose proof (byte_val_bound a). pose proof (byte_val_bound b). pose proof (byte_val_bound a'). pose proof (byte_val_bound b').
    apply b64url_char_inj in E1, E2, E3; try (Z.div_mod_to_equations; lia).
    f_equal; [|f_equal]; apply byte_val_inj; Z.div_mod_to_equations; lia.
  - apply base64url_triple_inj in E as (->&->&->&E). do 3 f_equal.
    apply (IH (length s)); [lia|done|lia|done].
Qed.

Lemma hex_encode_length s : length (hex_encode s) = (2 * length s)%nat.
Proof.
  unfold hex_encode. induction s as [|c s IH]; [done|].
  rewrite bind_cons, length_app, IH. simpl. lia.
Qed.

Lemma zip_with_length_8 {A B C} (f : A → B → C) l k :
  length l = 8%nat → length k = 8%nat → length (zip_with f l k) = 8%nat.
Proof. intros. rewrite length_zip_with. lia. Qed.

Lemma sha_round_length st kw : length st = 8%nat → length (sha_round st kw) = 8%nat.
Proof. intros H. do 9 (destruct st as [|? st]; try done). Qed.

Lemma fold_round_length l st :
  length st = 8%nat → length (fold_left sha_round l st) = 8%nat.
Proof.
  revert st. induction l as [|kw l IH]; intros st H; simpl; [done|].
  apply IH. by apply sha_round_length.
Qed.

Lemma blocks_length f l st : length st = 8%nat → length (blocks f l st) = 8%nat.
Proof.
  revert l st. induction f as [|f IH]; intros l st H; simpl; [done|].
  destruct l; [done|]. apply IH. unfold sha_block.
  apply zip_with_length_8; [done|]. by apply fold_round_length.
Qed.

(** A digest has 32 bytes; in particular it is not empty. *)
Lemma sha256_length s : length (sha256 s) = 32%nat.
Proof.
  unfold sha256. rewrite length_map.
  assert (H : ∀ l : list Z, length (l ≫= word_bytes) = (4 * length l)%nat).
  { induction l as [|w l IH]; [done|]. rewrite bind_cons, length_app, IH. simpl. lia. }
  rewrite H, blocks_length by done. done.
Qed.
