(* ===== verification/Users.v ===== *)
(** * Users, roles and metas: [internal/model]

    The records of [user.go], [role.go], [roles.go] and [meta.go], the
    permission bits, the password hash and [JoinPath], the function every
    handler uses to turn a request path into a path of the virtual tree. *)

From S2P Require Import Prelude GoStrings Errs Paths Crypto.

Local Open Scope Z_scope.

(** ** Data *)

Definition Roles := list Z.

Record PermissionEntry := { pe_Path : gostr; pe_Permission : Z }.

(** [RawPermission] is the database encoding of [PermissionScopes]. *)
Record Role := {
  role_ID : Z;
  role_Name : gostr;
  role_Description : gostr;
  role_Default : bool;
  PermissionScopes : list PermissionEntry;
}.

Record User := {
  user_ID : Z;
  Username : gostr;
  PwdHash : gostr;
  PwdTS : Z;
  Salt : gostr;
  Password : gostr;
  BasePath : gostr;
  user_Role : Roles;
  Disabled : bool;
  Permission : Z;
  OtpSecret : gostr;
  SsoID : gostr;
  Authn : gostr;
}.

Record Meta := {
  meta_ID : Z;
  meta_Path : gostr;
  meta_Password : gostr;
  PSub : bool;
  meta_Write : bool;
  WSub : bool;
  Hide : gostr;
  HSub : bool;
  Readme : gostr;
  RSub : bool;
  Header : gostr;
  HeaderSub : bool;
}.

#[export] Instance PermissionEntry_eq_dec : EqDecision PermissionEntry.
Proof. solve_decision. Defined.
#[export] Instance Role_eq_dec : EqDecision Role.
Proof. solve_decision. Defined.
#[export] Instance User_eq_dec : EqDecision User.
Proof. solve_decision. Defined.
#[export] Instance Meta_eq_dec : EqDecision Meta.
Proof. solve_decision. Defined.

Definition GENERAL : Z := 0.
Definition GUEST : Z := 1.
Definition ADMIN : Z := 2.
Definition NEWGENERAL : Z := 3.

(** ** The code *)

Fixpoint Roles_Contains (r : Roles) (role : Z) : bool :=
  match r with
  | [] => false
  | v :: r' => if v =? role then true else Roles_Contains r' role
  end.

Definition IsGuest (u : User) : bool := Roles_Contains (user_Role u) GUEST.
Definition IsAdmin (u : User) : bool := Roles_Contains (user_Role u) ADMIN.

Definition StaticHashSalt : gostr := #"https://github.com/alist-org/alist".

(** [utils.HashData(utils.SHA256, ...)]: the digest in hexadecimal. *)
Definition HashData_SHA256 (data : gostr) : gostr := hex_encode (sha256 data).

Definition StaticHash (password : gostr) : gostr :=
  HashData_SHA256 (password ++ #"-" ++ StaticHashSalt).

Definition HashPwd (static salt : gostr) : gostr :=
  HashData_SHA256 (static ++ #"-" ++ salt).

Definition TwoHashPwd (password salt : gostr) : gostr :=
  HashPwd (StaticHash password) salt.

Definition ValidatePwdStaticHash (u : User) (pwdStaticHash : gostr) : option error :=
  if bool_decide (pwdStaticHash = #"") then Some (EWithMessage (ESentinel EmptyPassword) #"")
  else if negb (bool_decide (PwdHash u = HashPwd pwdStaticHash (Salt u)))
  then Some (EWithMessage (ESentinel WrongPassword) #"")
  else None.

Definition ValidateRawPassword (u : User) (password : gostr) : option error :=
  ValidatePwdStaticHash u (StaticHash password).

(** [salt] is the value of [random.String(16)], [now] of [time.Now().Unix()]. *)
Definition SetPassword (u : User) (pwd salt : gostr) (now : Z) : User :=
  {| user_ID := user_ID u; Username := Username u;
     PwdHash := TwoHashPwd pwd salt; PwdTS := now; Salt := salt;
     Password := Password u; BasePath := BasePath u; user_Role := user_Role u;
     Disabled := Disabled u; Permission := Permission u;
     OtpSecret := OtpSecret u; SsoID := SsoID u; Authn := Authn u |}.

(** The permission tests are one shift and mask each. *)
Definition perm_bit (perm : Z) (bit : Z) : bool := Z.land (Z.shiftr perm bit) 1 =? 1.

Definition CanSeeHides (u : User) : bool := Z.land (Permission u) 1 =? 1.
Definition CanAccessWithoutPassword (u : User) : bool := perm_bit (Permission u) 1.
Definition CanAddOfflineDownloadTasks (u : User) : bool := perm_bit (Permission u) 2.
Definition user_CanWrite (u : User) : bool := perm_bit (Permission u) 3.
Definition CanRename (u : User) : bool := perm_bit (Permission u) 4.
Definition CanMove (u : User) : bool := perm_bit (Permission u) 5.
Definition CanCopy (u : User) : bool := perm_bit (Permission u) 6.
Definition CanRemove (u : User) : bool := perm_bit (Permission u) 7.
Definition CanWebdavRead (u : User) : bool := perm_bit (Permission u) 8.
Definition CanWebdavManage (u : User) : bool := perm_bit (Permission u) 9.
Definition CanFTPAccess (u : User) : bool := perm_bit (Permission u) 10.
Definition CanFTPManage (u : User) : bool := perm_bit (Permission u) 11.
Definition CanReadArchives (u : User) : bool := perm_bit (Permission u) 12.
Definition CanDecompress (u : User) : bool := perm_bit (Permission u) 13.
Definition CheckPathLimit (u : User) : bool := perm_bit (Permission u) 14.
Definition CanMCPAccess (u : User) : bool := perm_bit (Permission u) 15.
Definition CanMCPManage (u : User) : bool := perm_bit (Permission u) 16.

(** [binary.LittleEndian.PutUint64] *)
Definition WebAuthnID (u : User) : gostr :=
  map (λ i, val_byte (Z.land (Z.shiftr (wrapu64 (user_ID u)) (8 * i)) 255))
      [0; 1; 2; 3; 4; 5; 6; 7].

Section roles.
(** [model.FetchRole], set by package [op]; [None] is the nil function. *)
Context (FetchRole : option (Z → result Role)).

Fixpoint collect_scopes (scopes : list PermissionEntry)
    (basePaths : list gostr) (seen : gset gostr) : list gostr * gset gostr :=
  match scopes with
  | [] => (basePaths, seen)
  | entry :: scopes' =>
      if bool_decide (pe_Path entry = #"") then collect_scopes scopes' basePaths seen
      else if bool_decide (pe_Path entry ∈ seen) then collect_scopes scopes' basePaths seen
      else collect_scopes scopes' (basePaths ++ [pe_Path entry]) ({[pe_Path entry]} ∪ seen)
  end.

Fixpoint collect_roles (rids : Roles)
    (basePaths : list gostr) (seen : gset gostr) : list gostr :=
  match rids with
  | [] => basePaths
  | rid :: rids' =>
      match FetchRole with
      | None => collect_roles rids' basePaths seen
      | Some fetch =>
          match fetch (wrapu64 rid) with
          | inl _ => collect_roles rids' basePaths seen
          | inr role =>
              let '(basePaths, seen) := collect_scopes (PermissionScopes role) basePaths seen in
              collect_roles rids' basePaths seen
          end
      end
  end.

Definition GetAllBasePathsFromRoles (u : User) : list gostr :=
  collect_roles (user_Role u) [] ∅.

Definition JoinPath (u : User) (reqPath : gostr) : result gostr :=
  if bool_decide (reqPath = #"/") then inr (FixAndCleanPath (BasePath u))
  else
    let! path := JoinBasePath (BasePath u) reqPath in
    if negb (bool_decide (path = #"/")) && CheckPathLimit u then
      if existsb (λ base, IsSubPath base path) (GetAllBasePathsFromRoles u)
      then inr path
      else inl (ESentinel PermissionDenied)
    else inr path.

(** *** [server/webdav/path.go] *)
Definition ResolvePath (u : User) (raw : gostr) : result gostr :=
  let cleaned := FixAndCleanPath raw in
  let basePath := FixAndCleanPath (BasePath u) in
  let cleaned :=
    if negb (bool_decide (basePath = #"/")) && IsSubPath basePath cleaned then
      let cleaned := TrimPrefix cleaned basePath in
      if bool_decide (cleaned = #"") then #"/" else cleaned
    else cleaned in
  JoinPath u cleaned.
End roles.

(** ** Facts *)

Lemma Roles_Contains_spec r role : Roles_Contains r role = true ↔ role ∈ r.
Proof.
  induction r as [|v r IH]; simpl; [set_solver|].
  rewrite elem_of_cons. destruct (Z.eqb_spec v role); [naive_solver|].
  rewrite IH. naive_solver.
Qed.

Lemma perm_bit_testbit perm bit : 0 ≤ bit → perm_bit perm bit = Z.testbit perm bit.
Proof.
  intros Hb. unfold perm_bit.
  change 1 with (Z.ones 1) at 1. rewrite Z.land_ones by lia.
  change (2 ^ 1) with 2. rewrite <- Z.bit0_mod, Z.shiftr_spec by lia.
  rewrite Z.add_0_l. by destruct (Z.testbit perm bit).
Qed.

(** A role of the user that the lookup finds. *)
Definition user_role (fetch : Z → result Role) (u : User) (role : Role) : Prop :=
  ∃ rid, rid ∈ user_Role u ∧ fetch (wrapu64 rid) = inr role.

(** A permission scope one of the user's roles grants. *)
Definition granted (fetch : Z → result Role) (u : User) (e : PermissionEntry) : Prop :=
  ∃ role, user_role fetch u role ∧ e ∈ PermissionScopes role.

Lemma collect_scopes_spec scopes bp seen bp' seen' :
  collect_scopes scopes bp seen = (bp', seen') →
  (∀ p, p ∈ seen ↔ p ∈ bp) → NoDup bp →
  (∀ p, p ∈ seen' ↔ p ∈ bp') ∧ NoDup bp' ∧
  (∀ p, p ∈ bp' ↔ p ∈ bp ∨ p ≠ [] ∧ ∃ e, e ∈ scopes ∧ pe_Path e = p).
Proof.
  revert bp seen. induction scopes as [|e scopes IH]; intros bp seen Hc Hs Hn; simpl in Hc.
  - simplify_eq. split_ands; [done|done|]. intros p. set_solver.
  - repeat case_bool_decide.
    + apply IH in Hc as (?&?&Hp); [|done|done]. split_ands; [done|done|].
      intros p. rewrite Hp. set_solver.
    + apply IH in Hc as (?&?&Hp); [|done|done]. split_ands; [done|done|].
      intros p. rewrite Hp. set_solver.
    + apply IH in Hc as (?&?&Hp).
      * split_ands; [done|done|]. intros p. rewrite Hp. set_solver.
      * intros p. rewrite elem_of_union, elem_of_singleton, elem_of_app, list_elem_of_singleton, Hs.
        naive_solver.
      * apply NoDup_app. split_ands; [done| |apply NoDup_singleton].
        intros p Hp. rewrite list_elem_of_singleton. intros ->. by apply Hs in Hp.
Qed.

(** The scopes paths of the roles found for a list of role numbers. *)
Definition scope_of (fetch : Z → result Role) (rids : Roles) (p : gostr) : Prop :=
  ∃ rid role e, rid ∈ rids ∧ fetch (wrapu64 rid) = inr role ∧
    e ∈ PermissionScopes role ∧ pe_Path e = p.

Lemma scope_of_cons fetch rid rids p :
  scope_of fetch (rid :: rids) p ↔
    (∃ role e, fetch (wrapu64 rid) = inr role ∧ e ∈ PermissionScopes role ∧ pe_Path e = p) ∨
    scope_of fetch rids p.
Proof.
  split.
  - intros (r&role&e&Hr&?&?&?). apply elem_of_cons in Hr as [->|Hr].
    + left. by exists role, e.
    + right. by exists r, role, e.
  - intros [(role&e&?&?&?)|(r&role&e&?&?&?&?)].
    + exists rid, role, e. split_ands; [apply elem_of_cons; by left|done..].
    + exists r, role, e. split_ands; [apply elem_of_cons; by right|done..].
Qed.

Lemma collect_roles_spec fetch rids bp seen :
  (∀ p, p ∈ seen ↔ p ∈ bp) → NoDup bp →
  NoDup (collect_roles (Some fetch) rids bp seen) ∧
  (∀ p, p ∈ collect_roles (Some fetch) rids bp seen ↔
     p ∈ bp ∨ p ≠ [] ∧ scope_of fetch rids p).
Proof.
  revert bp seen. induction rids as [|rid rids IH]; intros bp seen Hs Hn; simpl.
  { split; [done|]. intros p. split; [by left|]. intros [?|[_ (?&?&?&Hin&_)]]; [done|].
    by apply elem_of_nil in Hin. }
  destruct (fetch (wrapu64 rid)) as [err|role] eqn:E.
  { destruct (IH bp seen Hs Hn) as [? Hp]. split; [done|].
    intros p. rewrite Hp, scope_of_cons, E. split; [tauto|].
    intros [?|[? [(?&?&?&_)|?]]]; [tauto|done|tauto]. }
  destruct (collect_scopes (PermissionScopes role) bp seen) as [bp' seen'] eqn:Ec.
  destruct (collect_scopes_spec _ _ _ _ _ Ec Hs Hn) as (Hs'&Hn'&Hp').
  destruct (IH bp' seen' Hs' Hn') as [? Hp]. split; [done|].
  intros p. rewrite Hp, Hp', scope_of_cons, E. split.
  - intros [[?|[? (e&?&?)]]|[? ?]]; [tauto| |tauto].
    right. split; [done|]. left. by exists role, e.
  - intros [?|[? [(r&e&[= ->]&?&?)|?]]]; [tauto| |tauto].
    left. right. split; [done|]. by exists e.
Qed.

(** The base paths are the distinct non-empty scopes the user's roles grant. *)
Lemma GetAllBasePaths_spec fetch u :
  NoDup (GetAllBasePathsFromRoles (Some fetch) u) ∧
  (∀ p, p ∈ GetAllBasePathsFromRoles (Some fetch) u ↔
     p ≠ [] ∧ ∃ e, granted fetch u e ∧ pe_Path e = p).
Proof.
  destruct (collect_roles_spec fetch (user_Role u) [] ∅) as [Hn Hp];
    [set_solver|constructor|]. split; [done|]. intros p.
  unfold GetAllBasePathsFromRoles. rewrite Hp, elem_of_nil.
  unfold granted, user_role, scope_of. split.
  - intros [[]|[? (rid&role&e&?&?&?&?)]]. split; [done|]. exists e. split; [|done].
    exists role. split; [by exists rid|done].
  - intros [? (e&(role&(rid&?&?)&?)&?)]. right. split; [done|]. by exists rid, role, e.
Qed.

Lemma render_root l : Forall norm_seg l → render l = #"/" ↔ l = [].
Proof.
  intros Hl. split; [|by intros ->]. intros H. by apply (render_inj l []).
Qed.

Lemma Fix_root p : FixAndCleanPath p = #"/" ↔ path_segs p = [].
Proof. rewrite FixAndCleanPath_segs. apply render_root, path_segs_norm. Qed.

(** What [JoinPath] returns, on every branch. *)
Lemma JoinPath_ok fetch u req p :
  JoinPath (Some fetch) u req = inr p →
  path_segs p = path_segs (BasePath u) ++ path_segs req ∧
  FixAndCleanPath p = p ∧
  (CheckPathLimit u = true → req ≠ #"/" → p ≠ #"/" →
   ∃ e, granted fetch u e ∧ pe_Path e ≠ [] ∧ IsSubPath (pe_Path e) p = true).
Proof.
  unfold JoinPath. case_bool_decide as Hr.
  { intros [= <-]. subst req. rewrite path_segs_Fix, app_nil_r. split_ands; [done| |done].
    rewrite !FixAndCleanPath_segs. by rewrite path_segs_render by auto with alist. }
  destruct (JoinBasePath (BasePath u) req) as [err|q] eqn:E; [done|].
  apply JoinBasePath_ok in E.
  assert (Hq : path_segs q = path_segs (BasePath u) ++ path_segs req ∧ FixAndCleanPath q = q).
  { subst q. rewrite path_segs_render by apply path_segs_app_good.
    split; [done|]. apply FixAndCleanPath_render, path_segs_app_good. }
  destruct Hq as [Hq1 Hq2].
  destruct (negb (bool_decide (q = #"/")) && CheckPathLimit u) eqn:El.
  - destruct (existsb _ _) eqn:Ex; [|done]. intros [= <-]. split_ands; [done..|].
    intros _ _ _. apply existsb_exists in Ex as (b&Hb&Hsub).
    apply list_elem_of_In in Hb. apply GetAllBasePaths_spec in Hb as [Hne (e&He&Hpe)].
    exists e. rewrite Hpe. done.
  - intros [= <-]. split_ands; [done..|]. intros Hl _ Hne. rewrite Hl, bool_decide_false in El; done.
Qed.


Lemma render_app l m :
  l ≠ [] → m ≠ [] → render (l ++ m) = render l ++ render m.
Proof. intros. unfold render. rewrite Join_app by done. done. Qed.

Lemma JoinBasePath_clean base l :
  Forall norm_seg l → JoinBasePath base (render l) = inr (render (path_segs base ++ path_segs (render l))).
Proof.
  intros Hl. unfold JoinBasePath.
  destruct (_ || _) eqn:E; [|by rewrite path_join_Fix].
  apply dotdot_guard in E. exfalso. unfold render in E.
  change ("/"%char :: Join #"/" l) with ([] ++ "/"%char :: Join #"/" l) in E.
  rewrite Split_app in E by (apply not_elem_of_nil).
  apply elem_of_cons in E as [E|E]; [done|].
  destruct l as [|w l]; [by apply list_elem_of_singleton in E|].
  rewrite Split_Join in E; [|done|by apply norm_no_slash].
  eapply Forall_forall in Hl; [|exact E]. unfold norm_seg in Hl. naive_solver.
Qed.

(** The path relative to the base that [ResolvePath] hands to [JoinPath]. *)
Definition resolve_rel (base raw : list gostr) : list gostr :=
  if bool_decide (base `prefix_of` raw) then drop (length base) raw else raw.

Lemma ResolvePath_rel fetch u raw :
  ResolvePath fetch u raw
  = JoinPath fetch u (render (resolve_rel (path_segs (BasePath u)) (path_segs raw))).
Proof.
  unfold ResolvePath, resolve_rel. f_equal.
  destruct (decide (path_segs (BasePath u) = [])) as [Hb|Hb].
  - rewrite Hb. rewrite (bool_decide_true (FixAndCleanPath _ = _)) by by apply Fix_root.
    rewrite (bool_decide_true ([] `prefix_of` _)) by apply prefix_nil. simpl.
    apply FixAndCleanPath_segs.
  - rewrite bool_decide_false by by rewrite Fix_root. simpl.
    destruct (IsSubPath _ _) eqn:E.
    + apply IsSubPath_segs in E. rewrite !path_segs_Fix in E.
      rewrite (bool_decide_true (_ `prefix_of` _)) by done. destruct E as [m Hm].
      rewrite !FixAndCleanPath_segs, Hm, drop_app_length.
      destruct (decide (m = [])) as [->|Hne].
      * rewrite app_nil_r. unfold TrimPrefix.
        rewrite (proj2 (HasPrefix_spec _ _)) by reflexivity. by rewrite drop_all.
      * rewrite render_app by done. unfold TrimPrefix.
        rewrite HasPrefix_app, drop_app_length. by case_bool_decide.
    + rewrite bool_decide_false; [apply FixAndCleanPath_segs|].
      intros Hp. apply not_true_iff_false in E. apply E, IsSubPath_segs.
      by rewrite !path_segs_Fix.
Qed.

Lemma StaticHash_nonempty pwd : StaticHash pwd ≠ [].
Proof.
  intros H. apply (f_equal length) in H. unfold StaticHash, HashData_SHA256 in H.
  rewrite hex_encode_length, sha256_length in H. done.
Qed.

(** ** Properties *)

(** C3. [JoinPath] keeps a request below the user's base path: a path it
    returns is clean and consists of the base path's segments followed by the
    request's.  When the user's path-limit bit is set the path is also inside a
    non-empty scope one of the user's roles grants, with two exceptions the
    code makes: the request that is literally [/], which gives the base path
    whether or not a scope contains it, and a path that is the root. *)
Theorem JoinPath_confined fetch u req p (Hp : JoinPath (Some fetch) u req = inr p) :
  IsSubPath (BasePath u) p = true ∧
  path_segs p = path_segs (BasePath u) ++ path_segs req ∧
  FixAndCleanPath p = p ∧
  (Z.testbit (Permission u) 14 = true → req ≠ #"/" → p ≠ #"/" →
   ∃ e, granted fetch u e ∧ pe_Path e ≠ [] ∧ IsSubPath (pe_Path e) p = true).
Proof.
  apply JoinPath_ok in Hp as (Hs&Hc&Hl). split_ands; [|done|done|].
  - apply IsSubPath_segs. rewrite Hs. by eexists.
  - rewrite <- perm_bit_testbit by lia. done.
Qed.

Definition example_user (perm : Z) : User :=
  {| user_ID := 7; Username := #"bob"; PwdHash := []; PwdTS := 0; Salt := [];
     Password := []; BasePath := #"/home/bob"; user_Role := [5]; Disabled := false;
     Permission := perm; OtpSecret := []; SsoID := []; Authn := [] |}.

Definition example_roles (id : Z) : result Role :=
  if id =? 5 then
    inr {| role_ID := 5; role_Name := #"docs"; role_Description := []; role_Default := false;
           PermissionScopes := [ {| pe_Path := #"/home/bob/docs"; pe_Permission := 8 |} ] |}
  else inl (EMessage #"role not found").

Lemma JoinPath_confined_witness :
  IsSubPath #"/home/bob" #"/home/bob/docs/a.txt" = true ∧
  ∃ e, granted example_roles (example_user 16384) e ∧ pe_Path e ≠ [] ∧
       IsSubPath (pe_Path e) #"/home/bob/docs/a.txt" = true.
Proof.
  destruct (JoinPath_confined example_roles (example_user 16384) #"docs//./a.txt"
    #"/home/bob/docs/a.txt") as (H1&_&_&H2); [by vm_compute|].
  split; [exact H1|]. by apply H2.
Defined.

(** A WebDAV path resolves below the user's base path whether or not the
    client repeats the base path in the URL: the base path is removed from a
    request that starts with it, the only possible error is the path limit's
    refusal, and the result never leaves the base path. *)
Theorem ResolvePath_both_forms fetch u raw :
  match ResolvePath (Some fetch) u raw with
  | inr p =>
      IsSubPath (BasePath u) p = true ∧
      path_segs p = (if bool_decide (path_segs (BasePath u) `prefix_of` path_segs raw)
                     then path_segs raw else path_segs (BasePath u) ++ path_segs raw)
  | inl e => e = ESentinel PermissionDenied ∧ CheckPathLimit u = true
  end.
Proof.
  rewrite ResolvePath_rel. unfold resolve_rel.
  set (rel := if bool_decide _ then _ else _).
  assert (Hg : Forall good_seg rel).
  { unfold rel. case_bool_decide; [apply Forall_drop|]; apply path_segs_good. }
  destruct (JoinPath (Some fetch) u (render rel)) as [e|p] eqn:E.
  - revert E. unfold JoinPath. case_bool_decide; [done|].
    rewrite JoinBasePath_clean by by apply good_norm.
    destruct (negb _ && _) eqn:El; [|done]. reflect_bools.
    destruct (existsb _ _); [done|]. by intros [= <-].
  - apply JoinPath_ok in E as (Hs&_&_). rewrite path_segs_render in Hs by done.
    split; [apply IsSubPath_segs; rewrite Hs; by eexists|].
    rewrite Hs. unfold rel. case_bool_decide as Hpre; [|done].
    destruct Hpre as [m ->]. by rewrite drop_app_length.
Qed.

(** A user whose password was set can log in with it, and with another
    password exactly when the two salted hashes collide; a wrong password is
    reported as such. *)
Theorem SetPassword_Validate u pwd pwd' salt now :
  ValidateRawPassword (SetPassword u pwd salt now) pwd = None ∧
  (ValidateRawPassword (SetPassword u pwd salt now) pwd' = None ↔
     TwoHashPwd pwd' salt = TwoHashPwd pwd salt) ∧
  (∀ e, ValidateRawPassword (SetPassword u pwd salt now) pwd' = Some e →
     Cause e = ESentinel WrongPassword).
Proof.
  unfold ValidateRawPassword, ValidatePwdStaticHash.
  rewrite !(bool_decide_false (StaticHash _ = _)) by apply StaticHash_nonempty.
  unfold SetPassword, TwoHashPwd; cbn [PwdHash Salt]. split_ands.
  - by rewrite bool_decide_true.
  - case_bool_decide; naive_solver.
  - case_bool_decide; [done|]. by intros ? [= <-].
Qed.
