(* ===== verification/Metas.v ===== *)
(** * Metas: [internal/op/meta.go] and [internal/db/meta.go]

    A meta attaches a password, a hide list and texts to a path; the request
    handlers ask for the nearest meta above a path.  Rows are cached by path,
    missing ones too. *)

From S2P Require Import Prelude GoStrings Errs Store Paths Users.

Local Open Scope Z_scope.

#[export] Instance Meta_Row : Row Meta := {|
  row_id := meta_ID;
  with_id i m :=
    {| meta_ID := i; meta_Path := meta_Path m; meta_Password := meta_Password m; PSub := PSub m;
       meta_Write := meta_Write m; WSub := WSub m; Hide := Hide m; HSub := HSub m; Readme := Readme m;
       RSub := RSub m; Header := Header m; HeaderSub := HeaderSub m |};
  row_key := meta_Path;
|}.

Definition with_path (p : gostr) (m : Meta) : Meta :=
  {| meta_ID := meta_ID m; meta_Path := p; meta_Password := meta_Password m; PSub := PSub m;
     meta_Write := meta_Write m; WSub := WSub m; Hide := Hide m; HSub := HSub m; Readme := Readme m;
     RSub := RSub m; Header := Header m; HeaderSub := HeaderSub m |}.

Definition second : Z := 1000000000.
Definition hour : Z := 3600000000000.

Definition defaultMetaNotFoundCacheSec : Z := 60.

(** The value of the setting, or why it cannot be read. *)
Definition metaNotFoundCacheExpiration (item : result (option gostr)) : Z :=
  match item with
  | inl _ | inr None => second * defaultMetaNotFoundCacheSec
  | inr (Some value) =>
      match ParseInt value with
      | (_, Some _) => second * defaultMetaNotFoundCacheSec
      | (seconds, None) => if seconds <=? 0 then 0 else wrap64 (second * seconds)
      end
  end.

Section metas.
Context `{!Table Meta, !Cache (option Meta)}.

Record meta_state := { metas : table Meta; metaCache : cache (option Meta) }.

Definition set_metas (t : table Meta) (s : meta_state) : meta_state :=
  {| metas := t; metaCache := metaCache s |}.
Definition set_metaCache (c : cache (option Meta)) (s : meta_state) : meta_state :=
  {| metas := metas s; metaCache := c |}.

(** ** Package [db] *)

(** A struct condition only compares the fields that are not zero. *)
Definition db_GetMetaByPath (path : gostr) (s : meta_state) : result Meta :=
  match FirstWhere (metas s) (λ m, bool_decide (path = []) || bool_decide (meta_Path m = path)) with
  | inl e => inl (EWithMessage e #"failed select meta")
  | inr m => inr m
  end.

Definition db_GetMetaById (id : Z) (s : meta_state) : result Meta :=
  match First (metas s) id with
  | inl e => inl (EWithMessage e #"failed get old meta")
  | inr m => inr m
  end.

Definition db_CreateMeta (u : Meta) : Op meta_state unit :=
  op_exec (λ s,
    match CreateRow (metas s) u with
    | inl e => inl (EWithMessage e [])
    | inr (t, _) => inr (set_metas t s)
    end).

Definition db_UpdateMeta (u : Meta) : Op meta_state unit :=
  op_exec (λ s,
    match Save (metas s) u with
    | inl e => inl (EWithMessage e [])
    | inr t => inr (set_metas t s)
    end).

Definition db_DeleteMetaById (id : Z) : Op meta_state unit :=
  op_exec (λ s,
    match DeleteRow (metas s) id with
    | inl e => inl (EWithMessage e [])
    | inr t => inr (set_metas t s)
    end).

(** ** Package [op] *)

Definition metaCache_Del (path : gostr) : Op meta_state unit :=
  op_modify (λ s, set_metaCache (cache_Del (metaCache s) path) s).

(** [nfe] is the setting behind the expiration of negative entries. *)
Context (nfe : result (option gostr)).

Definition getMetaByPath (path : gostr) : Op meta_state Meta :=
  λ s,
  match cache_Get (metaCache s) path with
  | Some None => (inl (ESentinel MetaNotFound), s)
  | Some (Some meta) => (inr meta, s)
  | None =>
      match db_GetMetaByPath path s with
      | inl e =>
          if errors_Is e ErrRecordNotFound then
            let ex := metaNotFoundCacheExpiration nfe in
            (inl (ESentinel MetaNotFound),
             if 0 <? ex then set_metaCache (cache_Set (metaCache s) path None ex) s else s)
          else (inl e, s)
      | inr meta => (inr meta, set_metaCache (cache_Set (metaCache s) path (Some meta) hour) s)
      end
  end.

Definition GetMetaByPath (path : gostr) : Op meta_state Meta := getMetaByPath (FixAndCleanPath path).

(** The recursion goes up one directory at a time: [fuel] bounds its depth. *)
Fixpoint getNearestMeta (fuel : nat) (path : gostr) : Op meta_state Meta :=
  λ s,
  match GetMetaByPath path s with
  | (inr meta, s') => (inr meta, s')
  | (inl e, s') =>
      if negb (bool_decide (Cause e = ESentinel MetaNotFound)) then (inl e, s')
      else if bool_decide (path = #"/") then (inl (ESentinel MetaNotFound), s')
      else
        match fuel with
        | O => (inl (EMessage #"stack overflow"), s')
        | S fuel' => getNearestMeta fuel' (path_Dir path) s'
        end
  end.

Definition op_GetNearestMeta (path : gostr) : Op meta_state Meta :=
  let path := FixAndCleanPath path in getNearestMeta (length path) path.

Definition DeleteMetaById (id : Z) : Op meta_state unit :=
  let* old := op_query (db_GetMetaById id) in
  let* _ := metaCache_Del (meta_Path old) in
  db_DeleteMetaById id.

(** [UpdateMeta] between the cleaning of the path and the write of the row,
    and all of it. *)
Definition UpdateMeta_invalidate (u : Meta) : Op meta_state unit :=
  let* old := op_query (db_GetMetaById (meta_ID u)) in
  let* _ := metaCache_Del (meta_Path old) in
  metaCache_Del (meta_Path u).

Definition UpdateMeta (u : Meta) : Op meta_state unit :=
  let u := with_path (FixAndCleanPath (meta_Path u)) u in
  let* _ := UpdateMeta_invalidate u in
  db_UpdateMeta u.

Definition CreateMeta (u : Meta) : Op meta_state unit :=
  let u := with_path (FixAndCleanPath (meta_Path u)) u in
  let* _ := metaCache_Del (meta_Path u) in
  db_CreateMeta u.

Definition GetMetaById (id : Z) : Op meta_state Meta := op_query (db_GetMetaById id).

(** [RegisterSettingChangingCallback] *)
Definition on_setting_change : Op meta_state unit :=
  op_modify (λ s, set_metaCache (cache_Clear (metaCache s)) s).
End metas.
Arguments meta_state {_ _}.

(** ** Coherence of the cache *)

Section coherence.
Context `{HT : !Table Meta, !TableLaws Meta, HC : !Cache (option Meta), !CacheLaws (option Meta)}.
Implicit Types s : meta_state.

(** The table has a row for a path. *)
Definition has_meta (s : meta_state) (path : gostr) (m : Meta) : Prop :=
  meta_Path m = path ∧ ∃ i, rows (metas s) !! i = Some m.

(** What is cached is what the table has; the stored paths are clean. *)
Record coherent (s : meta_state) : Prop := {
  coh_cache : ∀ path v, cache_Get (metaCache s) path = Some v →
    match v with
    | Some m => has_meta s path m
    | None => ∀ m, ¬ has_meta s path m
    end;
  coh_clean : ∀ i m, rows (metas s) !! i = Some m → FixAndCleanPath (meta_Path m) = meta_Path m;
}.

Lemma has_meta_unique s path m m' : has_meta s path m → has_meta s path m' → m = m'.
Proof using Type*.
  intros [E [i Hi]] [E' [j Hj]].
  assert (i = j) as -> by (eapply rows_unique; [exact Hi|exact Hj|simpl; congruence]).
  congruence.
Qed.

Lemma coherent_del s path : coherent s → coherent (set_metaCache (cache_Del (metaCache s) path) s).
Proof using Type*.
  intros [Hc Hp]. split; [|done]. intros p v. simpl. rewrite cache_Get_Del. case_decide; [done|]. apply Hc.
Qed.

Lemma metaCache_Del_coherent path : keeps coherent (metaCache_Del path).
Proof using Type*. apply keeps_modify. intros. by apply coherent_del. Qed.

(** Rows that do not change what is cached. *)
Lemma coherent_rows s t :
  coherent s →
  (∀ i m, rows t !! i = Some m → FixAndCleanPath (meta_Path m) = meta_Path m) →
  (∀ path m, is_Some (cache_Get (metaCache s) path) → has_meta (set_metas t s) path m ↔ has_meta s path m) →
  coherent (set_metas t s).
Proof using Type*.
  intros [Hc Hp] Hclean Heq. split; [|done]. intros path v Hv. simpl in Hv.
  specialize (Hc path v Hv). destruct v as [m|].
  - apply Heq; [by eexists|done].
  - intros m Hm. apply (Hc m). apply Heq; [by eexists|done].
Qed.

Lemma Fix_nonempty p : FixAndCleanPath p ≠ [].
Proof using. rewrite FixAndCleanPath_segs. done. Qed.

Lemma getMetaByPath_coherent nfe path s :
  path ≠ [] → coherent s →
  coherent (getMetaByPath nfe path s).2 ∧ metas (getMetaByPath nfe path s).2 = metas s ∧
  match (getMetaByPath nfe path s).1 with
  | inr m => has_meta s path m
  | inl e => Cause e = ESentinel MetaNotFound → ∀ m, ¬ has_meta s path m
  end.
Proof using Type*.
  intros Hne Hs. pose proof Hs as [Hc Hp]. unfold getMetaByPath.
  destruct (cache_Get (metaCache s) path) as [[m|]|] eqn:Ec.
  - split_ands; [done|done|apply (Hc _ _ Ec)].
  - split_ands; [done|done|]. intros _. apply (Hc _ _ Ec).
  - unfold db_GetMetaByPath. rewrite bool_decide_eq_false_2 by done. cbn [orb].
    set (p := λ m : Meta, bool_decide (meta_Path m = path)).
    destruct (FirstWhere (metas s) p) as [e|m] eqn:E.
    + cbn [errors_Is]. destruct (errors_Is e ErrRecordNotFound) eqn:Ee.
      * assert (∀ m, ¬ has_meta s path m) as Hno.
        { intros m [Em [i Hi]]. pose proof (FirstWhere_none _ _ _ _ _ E Ee Hi) as Hf. subst p. simpl in Hf.
          reflect_bools. done. }
        destruct (0 <? _); simpl; split_ands; try done. split; [|done].
        intros q v. simpl. rewrite cache_Get_Set. case_decide as Hq; [|apply Hc].
        subst q. intros [= <-]. done.
      * simpl. split_ands; [done|done|]. intros Hcause. exfalso.
        by apply (FirstWhere_foreign _ _ _ E).
    + apply FirstWhere_ok in E as [Hm [i Hi]]. subst p. simpl in Hm. reflect_bools.
      assert (has_meta s path m) as Hh by (split; eauto). simpl. split_ands; [|done|done].
      split; [|done]. intros q v. simpl. rewrite cache_Get_Set. case_decide as Hq; [|apply Hc].
      subst q. intros [= <-]. done.
Qed.

Lemma GetMetaByPath_coherent nfe path s :
  coherent s →
  coherent (GetMetaByPath nfe path s).2 ∧ metas (GetMetaByPath nfe path s).2 = metas s ∧
  match (GetMetaByPath nfe path s).1 with
  | inr m => has_meta s (FixAndCleanPath path) m
  | inl e => Cause e = ESentinel MetaNotFound → ∀ m, ¬ has_meta s (FixAndCleanPath path) m
  end.
Proof using Type*. intros. apply getMetaByPath_coherent; [apply Fix_nonempty|done]. Qed.

Lemma db_DeleteMetaById_coherent id m s :
  coherent s → rows (metas s) !! id = Some m → cache_Get (metaCache s) (meta_Path m) = None →
  coherent (db_DeleteMetaById id s).2.
Proof using Type*.
  intros Hs Hm Hnc. unfold db_DeleteMetaById, op_exec.
  destruct (DeleteRow (metas s) id) as [e|t] eqn:E; [done|]. apply DeleteRow_ok in E. simpl.
  apply coherent_rows; [done| |].
  - intros i m'. rewrite E. intros [_ H]%lookup_delete_Some. by apply (coh_clean _ Hs i).
  - intros path m' [v Hv]. unfold has_meta. simpl. rewrite E. split.
    + intros [? [i [_ Hi]%lookup_delete_Some]]. eauto.
    + intros [Ep [i Hi]]. split; [done|]. exists i. apply lookup_delete_Some. split; [|done].
      intros <-. assert (m' = m) as -> by congruence. congruence.
Qed.

Lemma db_UpdateMeta_coherent u old s :
  coherent s → rows (metas s) !! meta_ID u = Some old → FixAndCleanPath (meta_Path u) = meta_Path u →
  cache_Get (metaCache s) (meta_Path old) = None → cache_Get (metaCache s) (meta_Path u) = None →
  coherent (db_UpdateMeta u s).2.
Proof using Type*.
  intros Hs Hold Hu Hnc Hnc'. unfold db_UpdateMeta, op_exec.
  destruct (Save (metas s) u) as [e|t] eqn:E; [done|].
  apply Save_ok in E; [|by eexists]. simpl in *. apply coherent_rows; [done| |].
  - intros i m'. rewrite E. intros [[<- <-]|[_ H]]%lookup_insert_Some; [done|]. by apply (coh_clean _ Hs i).
  - intros path m' [v Hv]. unfold has_meta. simpl. rewrite E. split.
    + intros [Ep [i [[<- <-]|[_ Hi]]%lookup_insert_Some]]; [|eauto]. congruence.
    + intros [Ep [i Hi]]. split; [done|]. exists i. apply lookup_insert_Some. right. split; [|done].
      intros <-. assert (m' = old) as -> by congruence. congruence.
Qed.

Lemma db_CreateMeta_coherent u s :
  coherent s → FixAndCleanPath (meta_Path u) = meta_Path u →
  cache_Get (metaCache s) (meta_Path u) = None → coherent (db_CreateMeta u s).2.
Proof using Type*.
  intros Hs Hu Hnc. unfold db_CreateMeta, op_exec.
  destruct (CreateRow (metas s) u) as [e|[t u']] eqn:E; [done|].
  apply CreateRow_ok in E as (i&->&_&Hi&E). simpl. apply coherent_rows; [done| |].
  - intros j m'. rewrite E. intros [[<- <-]|[_ H]]%lookup_insert_Some; [done|]. by apply (coh_clean _ Hs j).
  - intros path m' [v Hv]. unfold has_meta. simpl. rewrite E. split.
    + intros [Ep [j [[<- <-]|[_ Hj]]%lookup_insert_Some]]; [|eauto]. simpl in Ep. congruence.
    + intros [Ep [j Hj]]. split; [done|]. exists j. apply lookup_insert_Some. right. split; [|done].
      intros <-. congruence.
Qed.

Lemma DeleteMetaById_coherent id : keeps coherent (DeleteMetaById id).
Proof using Type*.
  intros s Hs. unfold DeleteMetaById, op_bind, op_query, metaCache_Del, op_modify, db_GetMetaById.
  destruct (First (metas s) id) as [e|m] eqn:E; [done|]. apply First_ok in E.
  apply (db_DeleteMetaById_coherent id m); [by apply coherent_del|done|].
  simpl. rewrite cache_Get_Del. by rewrite decide_True.
Qed.

Lemma Fix_with_path u :
  FixAndCleanPath (meta_Path (with_path (FixAndCleanPath (meta_Path u)) u))
  = meta_Path (with_path (FixAndCleanPath (meta_Path u)) u).
Proof using. simpl. by rewrite (FixAndCleanPath_segs (FixAndCleanPath _)), path_segs_Fix, FixAndCleanPath_segs. Qed.

Lemma UpdateMeta_coherent u : keeps coherent (UpdateMeta u).
Proof using Type*.
  intros s Hs. unfold UpdateMeta, UpdateMeta_invalidate, op_bind, op_query, metaCache_Del, op_modify, db_GetMetaById.
  pose proof (Fix_with_path u) as Hf. set (u' := with_path _ u) in *.
  destruct (First (metas s) (meta_ID u')) as [e|m] eqn:E; [done|]. apply First_ok in E.
  apply (db_UpdateMeta_coherent u' m); [by do 2 apply coherent_del|done|done| |];
    simpl; rewrite !cache_Get_Del; repeat case_decide; done.
Qed.

Lemma CreateMeta_coherent u : keeps coherent (CreateMeta u).
Proof using Type*.
  intros s Hs. unfold CreateMeta, op_bind, metaCache_Del, op_modify.
  pose proof (Fix_with_path u) as Hf. set (u' := with_path _ u) in *.
  apply db_CreateMeta_coherent; [by apply coherent_del|done|].
  simpl. rewrite cache_Get_Del. by rewrite decide_True.
Qed.

Lemma on_setting_change_coherent : keeps coherent on_setting_change.
Proof using Type*.
  apply keeps_modify. intros s [Hc Hp]. split; [|done]. intros p v. simpl. by rewrite cache_Get_Clear.
Qed.

(** ** The nearest meta *)

(** The metas above a path, in the segment order. *)
Definition nearest (s : meta_state) (l : list gostr) (r : result Meta) : Prop :=
  match r with
  | inr m =>
      ∃ k, k `prefix_of` l ∧ has_meta s (render k) m ∧
        ∀ k' m', k' `prefix_of` l → has_meta s (render k') m' → k' `prefix_of` k
  | inl e =>
      Cause e = ESentinel MetaNotFound → ∀ k m, k `prefix_of` l → ¬ has_meta s (render k) m
  end.

Lemma nearest_step s l w r :
  (∀ m, ¬ has_meta s (render (l ++ [w])) m) → nearest s l r → nearest s (l ++ [w]) r.
Proof using.
  intros Hno. assert (∀ k m, k `prefix_of` l ++ [w] → has_meta s (render k) m → k `prefix_of` l) as Hp.
  { intros k m [t Ht] Hm. destruct t as [|x t _] using rev_ind.
    - rewrite app_nil_r in Ht. subst k. by apply Hno in Hm.
    - rewrite app_assoc in Ht. apply app_inj_tail in Ht as [-> _]. by exists t. }
  destruct r as [e|m]; simpl.
  - intros He Hc k m Hk Hm. apply (He Hc k m); [|done]. by eapply Hp.
  - intros (k&Hk&Hm&Hmax). exists k. split_ands; [|done|].
    + etrans; [exact Hk|]. by exists [w].
    + intros k' m' Hk' Hm'. eapply Hmax; [|done]. by eapply Hp.
Qed.

Lemma has_meta_same s s' path m : metas s' = metas s → has_meta s' path m ↔ has_meta s path m.
Proof using. intros E. unfold has_meta. by rewrite E. Qed.

Lemma nearest_same s s' l r : metas s' = metas s → nearest s' l r → nearest s l r.
Proof using.
  intros E. destruct r as [e|m]; simpl.
  - intros H Hc k m Hk. rewrite <- (has_meta_same s s') by done. by apply H.
  - intros (k&Hk&Hm&Hmax). exists k. rewrite <- (has_meta_same s s') by done. split_ands; [done|done|].
    intros k' m' Hk'. rewrite <- (has_meta_same s s') by done. by apply Hmax.
Qed.

Lemma getNearestMeta_nearest nfe fuel l s :
  Forall good_seg l → (length l ≤ fuel)%nat → coherent s →
  coherent (getNearestMeta nfe fuel (render l) s).2 ∧
  metas (getNearestMeta nfe fuel (render l) s).2 = metas s ∧
  nearest s l (getNearestMeta nfe fuel (render l) s).1.
Proof using Type*.
  revert l s. induction fuel as [|fuel IH]; intros l s Hl Hlen Hs;
    pose proof (GetMetaByPath_coherent nfe (render l) s Hs) as (H1&H2&H3);
    rewrite FixAndCleanPath_render in H3 by done; simpl;
    destruct (GetMetaByPath nfe (render l) s) as [[e|m] s1]; simpl in *.
  2,4: split_ands; [done|done|]; exists l; split_ands; [done|done|by intros].
  all: destruct (decide (Cause e = ESentinel MetaNotFound)) as [He|He];
    [rewrite (bool_decide_eq_true_2 _ He)|rewrite (bool_decide_eq_false_2 _ He)]; simpl;
    [|split_ands; [done|done|by intros]]; specialize (H3 He).
  - destruct l; [|simpl in Hlen; lia]. simpl. split_ands; [done|done|].
    intros _ k m Hk%prefix_nil_inv. subst k. apply H3.
  - destruct l as [|w l _] using rev_ind.
    { simpl. split_ands; [done|done|]. intros _ k m Hk%prefix_nil_inv. subst k. apply H3. }
    rewrite bool_decide_eq_false_2.
    2: { change #"/" with (render []). intros E%render_inj; [by destruct l|by apply good_norm|done]. }
    apply Forall_app in Hl as [Hl Hw]. apply Forall_cons in Hw as [[Hw _] _].
    rewrite path_Dir_render by (done || by apply good_norm).
    destruct (IH l s1) as (G1&G2&G3); [done|rewrite length_app in Hlen; simpl in Hlen; lia|done|].
    split_ands; [done|congruence|]. apply nearest_step; [done|]. by eapply nearest_same.
Qed.

Lemma length_render l : Forall norm_seg l → (length l ≤ length (render l))%nat.
Proof using.
  intros Hl. unfold render. simpl. induction Hl as [|w l (Hw&_) Hl IH]; simpl; [lia|].
  destruct l as [|w' l]; [simpl; lia|]. rewrite length_app. simpl in *. destruct w; [done|]. simpl. lia.
Qed.

(** The runs of package [op] on the metas: its calls, one after the other, and
    the expiration of cached entries. *)
Inductive meta_step (nfe : result (option gostr)) : meta_state → meta_state → Prop :=
  | ms_get s path : meta_step nfe s (GetMetaByPath nfe path s).2
  | ms_nearest s path : meta_step nfe s (op_GetNearestMeta nfe path s).2
  | ms_create s u : meta_step nfe s (CreateMeta u s).2
  | ms_update s u : meta_step nfe s (UpdateMeta u s).2
  | ms_delete s id : meta_step nfe s (DeleteMetaById id s).2
  | ms_setting s : meta_step nfe s (on_setting_change s).2
  | ms_expire s c : expired (metaCache s) c → meta_step nfe s (set_metaCache c s).

Lemma op_GetNearestMeta_nearest nfe path s :
  coherent s →
  coherent (op_GetNearestMeta nfe path s).2 ∧ metas (op_GetNearestMeta nfe path s).2 = metas s ∧
  nearest s (path_segs path) (op_GetNearestMeta nfe path s).1.
Proof using Type*.
  intros Hs. unfold op_GetNearestMeta. rewrite FixAndCleanPath_segs. cbn zeta.
  apply getNearestMeta_nearest; [apply path_segs_good| |done].
  apply length_render, good_norm, path_segs_good.
Qed.

Lemma meta_step_coherent nfe s s' : coherent s → meta_step nfe s s' → coherent s'.
Proof using Type*.
  intros Hs. destruct 1 as [s path|s path|s u|s u|s id|s|s c He].
  - by apply GetMetaByPath_coherent.
  - by apply op_GetNearestMeta_nearest.
  - by apply CreateMeta_coherent.
  - by apply UpdateMeta_coherent.
  - by apply DeleteMetaById_coherent.
  - by apply on_setting_change_coherent.
  - destruct Hs as [Hc Hp]. split; [|done]. intros p v Hv. simpl in Hv.
    destruct (He p) as [E|E]; [congruence|]. rewrite E in Hv. by apply Hc.
Qed.
End coherence.

(** C34. After any sequence of meta operations starting from an empty cache,
    [GetNearestMeta] returns the table's meta whose path is the longest one at
    or above the requested path, and reports [MetaNotFound] only when no such
    path has a meta: positive and negative cache entries never show. *)
Theorem GetNearestMeta_longest
    `{HT : !Table Meta, !TableLaws Meta, HC : !Cache (option Meta), !CacheLaws (option Meta)}
    nfe (s0 s : meta_state) path :
  (∀ k, cache_Get (metaCache s0) k = None) →
  (∀ i m, rows (metas s0) !! i = Some m → FixAndCleanPath (meta_Path m) = meta_Path m) →
  rtc (meta_step nfe) s0 s →
  nearest s (path_segs path) (op_GetNearestMeta nfe path s).1.
Proof.
  intros Hempty Hclean Hr. apply op_GetNearestMeta_nearest. revert Hr.
  apply (rtc_ind_r (λ s, coherent s)).
  - split; [|done]. intros p v. by rewrite Hempty.
  - intros x z _ Hstep Hx. by eapply meta_step_coherent.
Qed.

(** ** Instances and a run *)

Module MetaMaps.
#[export] Existing Instance map_Cache.
#[export] Existing Instance map_CacheLaws.
#[export] Instance meta_table : Table Meta := map_Table Meta.
#[export] Instance meta_laws : TableLaws Meta := map_TableLaws Meta (λ _ _, eq_refl).

Definition mk_meta (id : Z) (path password : gostr) : Meta :=
  {| meta_ID := id; meta_Path := path; meta_Password := password; PSub := true; meta_Write := false;
     WSub := false; Hide := []; HSub := false; Readme := []; RSub := false; Header := []; HeaderSub := false |}.

Definition empty_table : table Meta.
Proof. refine ((∅ : gmap Z Meta) ↾ _). by split. Defined.

Definition empty_state : meta_state := {| metas := empty_table; metaCache := (∅ : gmap gostr (option Meta)) |}.

(** A lookup that leaves a negative entry, then the creation of that meta and
    of one above it. *)
Definition run_state : meta_state :=
  (CreateMeta (mk_meta 0 #"a" #"outer")
    (CreateMeta (mk_meta 0 #"/a/b/" #"secret")
      (GetMetaByPath (inr None) #"/a/b" empty_state).2).2).2.

Lemma run_reachable : rtc (meta_step (inr None)) empty_state run_state.
Proof.
  eapply rtc_l; [apply (ms_get (inr None) _ #"/a/b")|].
  eapply rtc_l; [apply (ms_create _ _ (mk_meta 0 #"/a/b/" #"secret"))|].
  eapply rtc_l; [apply (ms_create _ _ (mk_meta 0 #"a" #"outer"))|]. apply rtc_refl.
Qed.
End MetaMaps.
Import MetaMaps.

Lemma GetNearestMeta_longest_witness :
  nearest MetaMaps.run_state (path_segs #"/a/b/c")
    (op_GetNearestMeta (inr None) #"/a/b/c" MetaMaps.run_state).1 ∧
  (op_GetNearestMeta (inr None) #"/a/b/c" MetaMaps.run_state).1
  = inr (MetaMaps.mk_meta 1 #"/a/b" #"secret").
Proof.
  split; [|vm_compute; reflexivity].
  apply (GetNearestMeta_longest (inr None) MetaMaps.empty_state MetaMaps.run_state);
    [intros k; apply lookup_empty|by intros i m Hm|exact MetaMaps.run_reachable].
Defined.

(** [UpdateMeta] clears the cached entry before it writes the row: a lookup
    between the two puts the old row back, and the new password is not seen
    until that entry expires. *)
Lemma UpdateMeta_race :
  let s0 := MetaMaps.run_state in
  let u := MetaMaps.mk_meta 1 #"/a/b" #"changed" in
  let s1 := (UpdateMeta_invalidate u s0).2 in
  let s2 := (GetMetaByPath (inr None) #"/a/b" s1).2 in
  let s3 := (db_UpdateMeta u s2).2 in
  (GetMetaByPath (inr None) #"/a/b" s3).1 = inr (MetaMaps.mk_meta 1 #"/a/b" #"secret") ∧
  (GetMetaById 1 s3).1 = inr u.
Proof. split; vm_compute; reflexivity. Qed.
