(* ===== verification/Accounts.v ===== *)
(** * Roles and users: [internal/op/role.go], [internal/op/user.go] and their
      tables in [internal/db]

    Package [op] keeps rows of both tables in caches: roles under their id and
    under their name, users under their name, and the administrator and the
    guest in two variables.  Pointers are shared between a cache and its
    callers, so a change made to a cached row in place is written back to the
    cache here. *)

From S2P Require Import Prelude GoStrings Errs Store Paths Users.

Local Open Scope Z_scope.

(** ** Rows and their updates *)

#[export] Instance Role_Row : Row Role := {|
  row_id := role_ID;
  with_id i r :=
    {| role_ID := i; role_Name := role_Name r; role_Description := role_Description r;
       role_Default := role_Default r; PermissionScopes := PermissionScopes r |};
  row_key := role_Name;
|}.

#[export] Instance User_Row : Row User := {|
  row_id := user_ID;
  with_id i u :=
    {| user_ID := i; Username := Username u; PwdHash := PwdHash u; PwdTS := PwdTS u; Salt := Salt u;
       Password := Password u; BasePath := BasePath u; user_Role := user_Role u; Disabled := Disabled u;
       Permission := Permission u; OtpSecret := OtpSecret u; SsoID := SsoID u; Authn := Authn u |};
  row_key := Username;
|}.

Definition role_set_scopes (l : list PermissionEntry) (r : Role) : Role :=
  {| role_ID := role_ID r; role_Name := role_Name r; role_Description := role_Description r;
     role_Default := role_Default r; PermissionScopes := l |}.
Definition role_set_name (n : gostr) (r : Role) : Role :=
  {| role_ID := role_ID r; role_Name := n; role_Description := role_Description r;
     role_Default := role_Default r; PermissionScopes := PermissionScopes r |}.
Definition role_set_default (b : bool) (r : Role) : Role :=
  {| role_ID := role_ID r; role_Name := role_Name r; role_Description := role_Description r;
     role_Default := b; PermissionScopes := PermissionScopes r |}.

Definition user_set (name base : gostr) (perm : Z) (otp : gostr) (dis : bool) (u : User) : User :=
  {| user_ID := user_ID u; Username := name; PwdHash := PwdHash u; PwdTS := PwdTS u; Salt := Salt u;
     Password := Password u; BasePath := base; user_Role := user_Role u; Disabled := dis;
     Permission := perm; OtpSecret := otp; SsoID := SsoID u; Authn := Authn u |}.
Definition user_set_base (base : gostr) (u : User) : User :=
  user_set (Username u) base (Permission u) (OtpSecret u) (Disabled u) u.
Definition user_set_otp (otp : gostr) (u : User) : User :=
  user_set (Username u) (BasePath u) (Permission u) otp (Disabled u) u.

Definition all_permissions : Z := 65535.

Section accounts.
Context `{!Table Role, !Table User, !Cache Role, !Cache User}.

Record acc := {
  roles : table Role;
  users : table User;
  roleCache : cache Role;
  userCache : cache User;
  adminUser : option User;
  guestUser : option User;
  DefaultRole : result gostr;
}.

Definition set_roles t (s : acc) : acc :=
  {| roles := t; users := users s; roleCache := roleCache s; userCache := userCache s;
     adminUser := adminUser s; guestUser := guestUser s; DefaultRole := DefaultRole s |}.
Definition set_users t (s : acc) : acc :=
  {| roles := roles s; users := t; roleCache := roleCache s; userCache := userCache s;
     adminUser := adminUser s; guestUser := guestUser s; DefaultRole := DefaultRole s |}.
Definition set_roleCache c (s : acc) : acc :=
  {| roles := roles s; users := users s; roleCache := c; userCache := userCache s;
     adminUser := adminUser s; guestUser := guestUser s; DefaultRole := DefaultRole s |}.
Definition set_userCache c (s : acc) : acc :=
  {| roles := roles s; users := users s; roleCache := roleCache s; userCache := c;
     adminUser := adminUser s; guestUser := guestUser s; DefaultRole := DefaultRole s |}.
Definition set_adminUser u (s : acc) : acc :=
  {| roles := roles s; users := users s; roleCache := roleCache s; userCache := userCache s;
     adminUser := u; guestUser := guestUser s; DefaultRole := DefaultRole s |}.
Definition set_guestUser u (s : acc) : acc :=
  {| roles := roles s; users := users s; roleCache := roleCache s; userCache := userCache s;
     adminUser := adminUser s; guestUser := u; DefaultRole := DefaultRole s |}.
Definition set_DefaultRole v (s : acc) : acc :=
  {| roles := roles s; users := users s; roleCache := roleCache s; userCache := userCache s;
     adminUser := adminUser s; guestUser := guestUser s; DefaultRole := v |}.

Definition hour : Z := 3600000000000.

Definition roleCache_Del (k : gostr) : Op acc unit :=
  op_modify (λ s, set_roleCache (cache_Del (roleCache s) k) s).
Definition roleCache_Set (k : gostr) (r : Role) : Op acc unit :=
  op_modify (λ s, set_roleCache (cache_Set (roleCache s) k r hour) s).
Definition roleCache_Clear : Op acc unit :=
  op_modify (λ s, set_roleCache (cache_Clear (roleCache s)) s).
Definition userCache_Del (k : gostr) : Op acc unit :=
  op_modify (λ s, set_userCache (cache_Del (userCache s) k) s).
Definition userCache_Set (k : gostr) (u : User) : Op acc unit :=
  op_modify (λ s, set_userCache (cache_Set (userCache s) k u hour) s).

(** ** Package [db] *)

Definition wrapped {A} (r : result A) (msg : gostr) : result A :=
  match r with inl e => inl (EWithMessage e msg) | inr a => inr a end.

Definition db_GetRole (id : Z) (s : acc) : result Role := wrapped (First (roles s) id) #"failed get role".

Definition db_GetRoleByName (name : gostr) (s : acc) : result Role :=
  wrapped (FirstWhere (roles s) (λ r, bool_decide (name = []) || bool_decide (role_Name r = name)))
    #"failed get role".

(** [Update("default", false)] of the other rows. *)
Definition db_clear_default (id : Z) : Op acc unit :=
  op_exec (λ s,
    match UpdateWhere (roles s) (λ r, negb (role_ID r =? id)) (role_set_default false) with
    | inl e => inl (EWithMessage e [])
    | inr t => inr (set_roles t s)
    end).

(** The row with the id the database gave it. *)
Definition db_CreateRole (r : Role) : Op acc Role :=
  let* r' := (λ s, match CreateRow (roles s) r with
                   | inl e => (inl (EWithMessage e []), s)
                   | inr (t, r') => (inr r', set_roles t s)
                   end) in
  if role_Default r' then let* _ := db_clear_default (role_ID r') in op_ret r' else op_ret r'.

Definition db_UpdateRole (r : Role) : Op acc unit :=
  let* _ := op_exec (λ s,
    match Save (roles s) r with
    | inl e => inl (EWithMessage e [])
    | inr t => inr (set_roles t s)
    end) in
  if role_Default r then db_clear_default (role_ID r) else op_ret ().

Definition db_DeleteRole (id : Z) : Op acc unit :=
  op_exec (λ s,
    match DeleteRow (roles s) id with
    | inl e => inl (EWithMessage e [])
    | inr t => inr (set_roles t s)
    end).

Definition db_GetUserByRole (role : Z) (s : acc) : result User :=
  let! us := FindAll (users s) in
  match List.find (λ u, Roles_Contains (user_Role u) role) us with
  | Some u => inr u
  | None => inl not_found
  end.

Definition db_GetUsersByRole (role : Z) (s : acc) : result (list User) :=
  let! us := FindAll (users s) in
  inr (List.filter (λ u, bool_decide (role ∈ user_Role u)) us).

Definition db_GetUserByName (name : gostr) (s : acc) : result User :=
  wrapped (FirstWhere (users s) (λ u, bool_decide (name = []) || bool_decide (Username u = name)))
    #"failed find user".

Definition db_GetUserById (id : Z) (s : acc) : result User :=
  wrapped (First (users s) id) #"failed get old user".

Definition db_CreateUser (u : User) : Op acc User :=
  λ s, match CreateRow (users s) u with
       | inl e => (inl (EWithMessage e []), s)
       | inr (t, u') => (inr u', set_users t s)
       end.

Definition db_UpdateUser (u : User) : Op acc unit :=
  op_exec (λ s,
    match Save (users s) u with
    | inl e => inl (EWithMessage e [])
    | inr t => inr (set_users t s)
    end).

Definition db_DeleteUserById (id : Z) : Op acc unit :=
  op_exec (λ s,
    match DeleteRow (users s) id with
    | inl e => inl (EWithMessage e [])
    | inr t => inr (set_users t s)
    end).

(** ** Roles *)

(** The administrator's role always has every permission on the root. *)
Definition enforceAdminRoleDefaults (r : Role) : Op acc Role :=
  if negb (bool_decide (role_Name r = #"admin")) then op_ret r
  else
    let reset :=
      let r := role_set_scopes [{| pe_Path := #"/"; pe_Permission := all_permissions |}] r in
      let* _ := db_UpdateRole r in op_ret r in
    match PermissionScopes r with
    | [e] =>
        if bool_decide (FixAndCleanPath (pe_Path e) = #"/") && (pe_Permission e =? all_permissions)
        then op_ret (role_set_scopes [{| pe_Path := #"/"; pe_Permission := pe_Permission e |}] r)
        else reset
    | _ => reset
    end.

(** What [GetRole], [GetRoleByName] and [GetRolesByUserID] do on a cache miss. *)
Definition load_role (fetch : acc → result Role) (keys : Role → gostr * gostr) : Op acc Role :=
  let* r := op_query fetch in
  let* r := enforceAdminRoleDefaults r in
  let* _ := roleCache_Set (fst (keys r)) r in
  let* _ := roleCache_Set (snd (keys r)) r in
  op_ret r.

Definition op_GetRole (id : Z) : Op acc Role :=
  λ s,
  let key := FormatUint id in
  match cache_Get (roleCache s) key with
  | Some r => (inr r, s)
  | None => load_role (db_GetRole id) (λ r, (key, role_Name r)) s
  end.

Definition GetRoleByName (name : gostr) : Op acc Role :=
  λ s,
  match cache_Get (roleCache s) name with
  | Some r => (inr r, s)
  | None => load_role (db_GetRoleByName name) (λ r, (name, FormatUint (role_ID r))) s
  end.

Definition GetDefaultRoleID (s : acc) : Z :=
  let fallback :=
    match FirstWhere (roles s) role_Default with
    | inr r => role_ID r
    | inl _ => GUEST
    end in
  match DefaultRole s with
  | inr value =>
      if bool_decide (value = []) then fallback
      else
        let by_name :=
          match db_GetRoleByName value s with
          | inr r => role_ID r
          | inl _ => fallback
          end in
        match ParseInt value with
        | (id, None) => if negb (id =? 0) then id else by_name
        | (_, Some _) => by_name
        end
  | inl _ => fallback
  end.

Definition GetUserById (id : Z) : Op acc User := op_query (db_GetUserById id).

(** The loop of [GetRolesByUserID] over the role ids, which are [int]s. *)
Fixpoint roles_of (ids : Roles) : Op acc (list Role) :=
  match ids with
  | [] => op_ret []
  | rid :: ids' =>
      let* r := (λ s,
        let key := FormatInt rid in
        match cache_Get (roleCache s) key with
        | Some r => (inr r, s)
        | None => load_role (db_GetRole (wrapu64 rid)) (λ r, (key, role_Name r)) s
        end) in
      let* rest := roles_of ids' in
      op_ret (r :: rest)
  end.

Definition GetRolesByUserID (userID : Z) : Op acc (list Role) :=
  let* user := GetUserById userID in
  roles_of (user_Role user).

Definition clean_scopes (r : Role) : Role :=
  role_set_scopes
    ((λ e, {| pe_Path := FixAndCleanPath (pe_Path e); pe_Permission := pe_Permission e |})
       <$> PermissionScopes r) r.

(** The outcome of [SaveSettingItem] for the default role. *)
Context (save_setting : gostr → option error).

(** A new default role: every cached role is dropped and the setting saved. *)
Definition make_default (r : Role) : Op acc unit :=
  let* _ := roleCache_Clear in
  let* _ := op_query DefaultRole in
  let value := FormatInt (wrap64 (role_ID r)) in
  op_exec (λ s,
    match save_setting value with
    | Some e => inl e
    | None => inr (set_DefaultRole (inr value) s)
    end).

Definition CreateRole (r : Role) : Op acc unit :=
  let r := clean_scopes r in
  let* _ := roleCache_Del (FormatUint (role_ID r)) in
  let* _ := roleCache_Del (role_Name r) in
  let* r := db_CreateRole r in
  if role_Default r then make_default r else op_ret ().

Definition UpdateRole (r : Role) : Op acc unit :=
  let* old := op_query (db_GetRole (role_ID r)) in
  if bool_decide (role_Name old = #"admin") then op_fail (ESentinel ErrChangeDefaultRole)
  else
    let r := if bool_decide (role_Name old = #"guest") then role_set_name #"guest" r else r in
    let r := clean_scopes r in
    let* _ := roleCache_Del (FormatUint (role_ID r)) in
    let* _ := roleCache_Del (role_Name r) in
    let* _ := db_UpdateRole r in
    if role_Default r then make_default r else op_ret ().

Definition DeleteRole (id : Z) : Op acc unit :=
  let* old := op_query (db_GetRole id) in
  if bool_decide (role_Name old = #"admin") || bool_decide (role_Name old = #"guest")
  then op_fail (ESentinel ErrChangeDefaultRole)
  else
    let* _ := roleCache_Del (FormatUint id) in
    let* _ := roleCache_Del (role_Name old) in
    db_DeleteRole id.

(** ** Users *)

(** [flags.FixedAdmin]; the salt and the time [SetPassword] uses. *)
Context (FixedAdmin : bool) (salt : gostr) (now : Z).

(** The user after the defaults, and whether anything changed. *)
Definition applyAdminDefaults (u : User) : User * bool :=
  let '(u, changed) :=
    if negb (bool_decide (FixAndCleanPath (BasePath u) = #"/"))
    then (user_set_base #"/" u, true) else (u, false) in
  let '(u, changed) :=
    if negb (Permission u =? all_permissions)
    then (user_set (Username u) (BasePath u) all_permissions (OtpSecret u) (Disabled u) u, true)
    else (u, changed) in
  if FixedAdmin then
    let '(u, changed) :=
      if negb (bool_decide (Username u = #"admin"))
      then (user_set #"admin" (BasePath u) (Permission u) (OtpSecret u) (Disabled u) u, true)
      else (u, changed) in
    let '(u, changed) :=
      if negb (bool_decide (ValidateRawPassword u #"admin" = None))
      then (SetPassword u #"admin" salt now, true) else (u, changed) in
    let '(u, changed) :=
      if negb (bool_decide (OtpSecret u = [])) then (user_set_otp [] u, true) else (u, changed) in
    if Disabled u
    then (user_set (Username u) (BasePath u) (Permission u) (OtpSecret u) false u, true)
    else (u, changed)
  else (u, changed).

(** The user is changed in place, also when the write fails. *)
Definition enforceAdminUserDefaults (u : User) (s : acc) : User * option error * acc :=
  if negb (IsAdmin u) then (u, None, s)
  else
    let '(u', changed) := applyAdminDefaults u in
    let s := if changed && negb (bool_decide (Username u = Username u'))
             then (userCache_Del (Username u) s).2 else s in
    if negb changed then (u', None, s)
    else
      match db_UpdateUser u' s with
      | (inl e, s) => (u', Some e, s)
      | (inr _, s) => (u', None, s)
      end.

Definition fail_or {A} (e : option error) (a : A) : result A :=
  match e with Some e => inl e | None => inr a end.

Definition GetAdmin : Op acc User :=
  λ s,
  match adminUser s with
  | None =>
      (let* role := GetRoleByName #"admin" in
       let* user := op_query (db_GetUserByRole (wrap64 (role_ID role))) in
       λ s,
       match enforceAdminUserDefaults user s with
       | (_, Some e, s) => (inl e, s)
       | (user, None, s) => (inr user, set_adminUser (Some user) s)
       end) s
  | Some user =>
      let '(user, e, s) := enforceAdminUserDefaults user s in
      (fail_or e user, set_adminUser (Some user) s)
  end.

Definition GetGuest : Op acc User :=
  λ s,
  match guestUser s with
  | None =>
      (let* role := GetRoleByName #"guest" in
       let* user := op_query (db_GetUserByRole (wrap64 (role_ID role))) in
       let* _ := op_modify (set_guestUser (Some user)) in
       op_ret user) s
  | Some user => (inr user, s)
  end.

Definition GetUserByName (username : gostr) : Op acc User :=
  λ s,
  if bool_decide (username = []) then (inl (ESentinel EmptyUsername), s)
  else
    match cache_Get (userCache s) username with
    | Some user =>
        let '(user, e, s) := enforceAdminUserDefaults user s in
        let s := if bool_decide (cache_Get (userCache s) username = None) then s
                 else (userCache_Set username user s).2 in
        (fail_or e user, s)
    | None =>
        match db_GetUserByName username s with
        | inl e => (inl e, s)
        | inr user =>
            match enforceAdminUserDefaults user s with
            | (_, Some e, s) => (inl e, s)
            | (user, None, s) => (inr user, (userCache_Set username user s).2)
            end
        end
    end.

(** The base path of a new user is the first scope of its roles. *)
Definition first_scope (rs : list Role) : option gostr :=
  match List.find (λ r, match PermissionScopes r with [] => false | _ => true end) rs with
  | Some r => match PermissionScopes r with e :: _ => Some (pe_Path e) | [] => None end
  | None => None
  end.

Definition CreateUser (u : User) : Op acc unit :=
  let u := user_set_base (FixAndCleanPath (BasePath u)) u in
  let* u := db_CreateUser u in
  λ s,
  match GetRolesByUserID (user_ID u) s with
  | (inl _, s) => (inr (), s)
  | (inr rs, s) =>
      let u := match first_scope rs with
               | Some p => user_set_base (FixAndCleanPath p) u
               | None => u
               end in
      let s := (db_UpdateUser u s).2 in
      (inr (), (userCache_Del (Username u) s).2)
  end.

Definition DeleteUserById (id : Z) : Op acc unit :=
  let* old := op_query (db_GetUserById id) in
  if IsAdmin old || IsGuest old then op_fail (ESentinel DeleteAdminOrGuest)
  else
    let* _ := userCache_Del (Username old) in
    db_DeleteUserById id.

Definition UpdateUser (u : User) : Op acc unit :=
  let* old := op_query (db_GetUserById (user_ID u)) in
  let* _ := (if IsAdmin u then op_modify (set_adminUser None) else op_ret ()) in
  let* _ := (if IsGuest u then op_modify (set_guestUser None) else op_ret ()) in
  let* _ := userCache_Del (Username old) in
  let u := user_set_base (FixAndCleanPath (BasePath u)) u in
  let u := if IsAdmin u then fst (applyAdminDefaults u) else u in
  db_UpdateUser u.

Definition Cancel2FAByUser (u : User) : Op acc unit := UpdateUser (user_set_otp [] u).

Definition Cancel2FAById (id : Z) : Op acc unit :=
  let* user := op_query (db_GetUserById id) in
  Cancel2FAByUser user.

Definition DelUserCache (username : gostr) : Op acc unit :=
  let* user := GetUserByName username in
  let* _ := (if IsAdmin user then op_modify (set_adminUser None) else op_ret ()) in
  let* _ := (if IsGuest user then op_modify (set_guestUser None) else op_ret ()) in
  userCache_Del username.
End accounts.
