(* ===== verification/Perm.v ===== *)
(** * Role permissions: [server/common/role_perm.go], [server/common/check.go]
      and the guards of [server/mcp/auth.go]

    A user's permission at a path is the union of the permission masks of
    all scopes of all roles that contain the path.  The role and meta lookups
    belong to package [op]; they are the interfaces [RoleStore] and
    [MetaStore] here.  Patterns of hidden files are compiled by a regular
    expression library: [MustCompile] is a parameter. *)

From S2P Require Import Prelude GoStrings Errs Paths Users.

Local Open Scope Z_scope.

(** ** Interfaces *)

Class RoleStore := GetRole : Z → result Role.
Class MetaStore := GetNearestMeta : gostr → result Meta.

(** [regexp2.MustCompile]: [None] when it panics, else the match function. *)
Class RegexpLib := MustCompile : gostr → option (gostr → bool).

(** ** The code *)

Definition PermSeeHides : Z := 0.
Definition PermAccessWithoutPassword : Z := 1.
Definition PermAddOfflineDownload : Z := 2.
Definition PermWrite : Z := 3.
Definition PermRename : Z := 4.
Definition PermMove : Z := 5.
Definition PermCopy : Z := 6.
Definition PermRemove : Z := 7.
Definition PermWebdavRead : Z := 8.
Definition PermWebdavManage : Z := 9.
Definition PermFTPAccess : Z := 10.
Definition PermFTPManage : Z := 11.
Definition PermReadArchives : Z := 12.
Definition PermDecompress : Z := 13.
Definition PermPathLimit : Z := 14.
Definition PermMCPAccess : Z := 15.
Definition PermMCPManage : Z := 16.

Definition HasPermission (perm bit : Z) : bool := Z.land (Z.shiftr perm bit) 1 =? 1.

(** [server/common/check.go] *)
Definition meta_CanWrite (meta : option Meta) (path : gostr) : bool :=
  match meta with
  | None => false
  | Some m => if negb (meta_Write m) then false else WSub m || bool_decide (meta_Path m = path)
  end.

Definition IsApply (metaPath reqPath : gostr) (applySub : bool) : bool :=
  if PathEqual metaPath reqPath then true else IsSubPath metaPath reqPath && applySub.

Section perm.
Context {RS : RoleStore} {RL : RegexpLib} {MS : MetaStore}.

Fixpoint merge_scopes (all : bool) (reqPath : gostr) (scopes : list PermissionEntry) (perm : Z) : Z :=
  match scopes with
  | [] => perm
  | entry :: scopes' =>
      merge_scopes all reqPath scopes'
        (if all || IsSubPath (pe_Path entry) reqPath
         then Z.lor perm (pe_Permission entry) else perm)
  end.

Fixpoint merge_roles (all : bool) (reqPath : gostr) (rids : Roles) (perm : Z) : Z :=
  match rids with
  | [] => perm
  | rid :: rids' =>
      match GetRole (wrapu64 rid) with
      | inl _ => merge_roles all reqPath rids' perm
      | inr role =>
          merge_roles all reqPath rids' (merge_scopes all reqPath (PermissionScopes role) perm)
      end
  end.

(** The nil user is [None]. *)
Definition MergeRolePermissions (u : option User) (reqPath : gostr) : Z :=
  match u with
  | None => 0
  | Some u =>
      merge_roles (bool_decide (reqPath = #"/") || PathEqual reqPath (BasePath u))
        reqPath (user_Role u) 0
  end.

(** The first role entry that satisfies a test, through every role of the
    user; a role that cannot be loaded is skipped. *)
Fixpoint any_entry (test : PermissionEntry → bool) (rids : Roles) : bool :=
  match rids with
  | [] => false
  | rid :: rids' =>
      match GetRole (wrapu64 rid) with
      | inl _ => any_entry test rids'
      | inr role => if existsb test (PermissionScopes role) then true else any_entry test rids'
      end
  end.

Definition CanReadPathByRole (u : option User) (reqPath : gostr) : bool :=
  match u with
  | None => false
  | Some u =>
      if bool_decide (reqPath = #"/") || PathEqual reqPath (BasePath u)
      then 0 <? Z.of_nat (length (user_Role u))
      else any_entry (λ entry,
             PathEqual (pe_Path entry) reqPath || IsSubPath (pe_Path entry) reqPath
             || IsSubPath reqPath (pe_Path entry)) (user_Role u)
  end.

Definition HasChildPermission (u : option User) (reqPath : gostr) (bit : Z) : bool :=
  match u with
  | None => false
  | Some u =>
      any_entry (λ entry, IsSubPath reqPath (pe_Path entry) && HasPermission (pe_Permission entry) bit)
        (user_Role u)
  end.

Definition CheckPathLimitWithRoles (u : option User) (reqPath : gostr) : bool :=
  let perm := MergeRolePermissions u reqPath in
  if HasPermission perm PermPathLimit then CanReadPathByRole u reqPath else true.

(** The loop over the lines of [meta.Hide]: does one of them match? *)
Fixpoint hidden_by (hides : list gostr) (name : gostr) : outcome bool :=
  match hides with
  | [] => Ret false
  | hide :: hides' =>
      match MustCompile hide with
      | None => Panic
      | Some re => if re name then Ret true else hidden_by hides' name
      end
  end.

Definition newline : ascii := "010"%char.

Definition hides_name (perm : Z) (meta : option Meta) (reqPath : gostr) : outcome bool :=
  match meta with
  | None => Ret false
  | Some m =>
      if negb (HasPermission perm PermSeeHides) && negb (bool_decide (Hide m = #""))
         && IsApply (meta_Path m) (path_Dir reqPath) (HSub m)
      then hidden_by (Split newline (Hide m)) (path_Base reqPath)
      else Ret false
  end.

Definition CanAccessWithRoles (u : option User) (meta : option Meta)
    (reqPath password : gostr) : outcome bool :=
  if negb (CanReadPathByRole u reqPath) then Ret false
  else
    let perm := MergeRolePermissions u reqPath in
    match hides_name perm meta reqPath with
    | Panic => Panic
    | Ret true => Ret false
    | Ret false =>
        if HasPermission perm PermAccessWithoutPassword then Ret true
        else
          match meta with
          | None => Ret true
          | Some m =>
              if bool_decide (meta_Password m = #"") then Ret true
              else if negb (PathEqual (meta_Path m) reqPath) && negb (PSub m) then Ret true
              else Ret (bool_decide (meta_Password m = password))
          end
    end.

Definition CanAccess (u : option User) (meta : option Meta)
    (reqPath password : gostr) : outcome bool :=
  CanAccessWithRoles u meta reqPath password.

(** *** [server/mcp/auth.go] *)
Definition checkAccess (user : User) (reqPath : gostr) : outcome (option error) :=
  let meta := match GetNearestMeta reqPath with inl _ => None | inr m => Some m end in
  match CanAccessWithRoles (Some user) meta reqPath #"" with
  | Panic => Panic
  | Ret false => Ret (Some (EMessage #"permission denied"))
  | Ret true =>
      let perm := MergeRolePermissions (Some user) reqPath in
      if negb (IsAdmin user) && negb (HasPermission perm PermMCPAccess)
      then Ret (Some (EMessage #"MCP access not permitted"))
      else Ret None
  end.

Definition checkManage (user : User) (reqPath : gostr) (permBit : Z) : outcome (option error) :=
  match checkAccess user reqPath with
  | Panic => Panic
  | Ret (Some err) => Ret (Some err)
  | Ret None =>
      let perm := MergeRolePermissions (Some user) reqPath in
      if negb (IsAdmin user) && negb (HasPermission perm PermMCPManage)
      then Ret (Some (EMessage #"MCP manage not permitted"))
      else if negb (IsAdmin user) && negb (HasPermission perm permBit)
      then Ret (Some (EMessage #"permission denied for this operation"))
      else Ret None
  end.

(** ** Facts *)

Lemma HasPermission_testbit perm bit : 0 ≤ bit → HasPermission perm bit = Z.testbit perm bit.
Proof. apply perm_bit_testbit. Qed.

Lemma merge_scopes_bit all req scopes perm bit :
  0 ≤ bit →
  Z.testbit (merge_scopes all req scopes perm) bit = true ↔
    Z.testbit perm bit = true ∨
    ∃ e, e ∈ scopes ∧ (all || IsSubPath (pe_Path e) req = true) ∧
         Z.testbit (pe_Permission e) bit = true.
Proof.
  intros Hb. revert perm. induction scopes as [|e scopes IH]; intros perm; simpl.
  { split; [by left|]. intros [?|(?&H&_)]; [done|by apply elem_of_nil in H]. }
  rewrite IH. split.
  - intros [H|(e'&?&?&?)]; [|right; exists e'; rewrite elem_of_cons; tauto].
    destruct (all || _) eqn:E; [|by left].
    rewrite Z.lor_spec, orb_true_iff in H. destruct H as [?|?]; [by left|].
    right. exists e. rewrite elem_of_cons. tauto.
  - intros [H|(e'&[->|Hin]%elem_of_cons&Hc&Hbit)].
    + left. destruct (all || _); [|done]. by rewrite Z.lor_spec, H.
    + left. rewrite Hc, Z.lor_spec, Hbit. by rewrite orb_true_r.
    + right. by exists e'.
Qed.

Lemma merge_roles_bit all req rids perm bit :
  0 ≤ bit →
  Z.testbit (merge_roles all req rids perm) bit = true ↔
    Z.testbit perm bit = true ∨
    ∃ rid role e, rid ∈ rids ∧ GetRole (wrapu64 rid) = inr role ∧ e ∈ PermissionScopes role ∧
      (all || IsSubPath (pe_Path e) req = true) ∧ Z.testbit (pe_Permission e) bit = true.
Proof.
  intros Hb. revert perm. induction rids as [|rid rids IH]; intros perm; simpl.
  { split; [by left|]. intros [?|(?&?&?&H&_)]; [done|by apply elem_of_nil in H]. }
  destruct (GetRole (wrapu64 rid)) as [err|role] eqn:E; rewrite IH.
  - split.
    + intros [?|(r&?&e&?&?&?&?&?)]; [by left|].
      right. exists r. do 2 eexists. split_ands; [by apply elem_of_cons; right|eassumption..].
    + intros [?|(r&?&e&[->|?]%elem_of_cons&?&?&?&?)]; [by left|congruence|].
      right. by exists r; do 2 eexists.
  - rewrite merge_scopes_bit by done. split.
    + intros [[?|(e&?&?&?)]|(r&?&e&?&?&?&?&?)]; [by left| |].
      * right. exists rid, role, e. split_ands; [by apply elem_of_cons; left|eassumption..].
      * right. exists r. do 2 eexists. split_ands; [by apply elem_of_cons; right|eassumption..].
    + intros [?|(r&role'&e&[->|?]%elem_of_cons&?&?&?&?)]; [tauto| |].
      * left. right. exists e. by assert (role' = role) as -> by congruence.
      * right. by exists r, role', e.
Qed.

Lemma any_entry_spec test rids :
  any_entry test rids = true ↔
    ∃ rid role e, rid ∈ rids ∧ GetRole (wrapu64 rid) = inr role ∧
      e ∈ PermissionScopes role ∧ test e = true.
Proof.
  induction rids as [|rid rids IH]; simpl.
  { split; [done|]. intros (?&?&?&H&_). by apply elem_of_nil in H. }
  destruct (GetRole (wrapu64 rid)) as [err|role] eqn:E.
  - rewrite IH. split.
    + intros (r&?&e&?&?&?&?). exists r. do 2 eexists. split_ands; [by apply elem_of_cons; right|eassumption..].
    + intros (r&?&e&[->|?]%elem_of_cons&?&?&?); [congruence|]. by exists r; do 2 eexists.
  - destruct (existsb test _) eqn:Ex.
    + split; [intros _|done]. apply existsb_exists in Ex as (e&He&Ht).
      apply list_elem_of_In in He. exists rid, role, e. split_ands; [by apply elem_of_cons; left|eassumption..].
    + rewrite IH. split.
      * intros (r&?&e&?&?&?&?). exists r. do 2 eexists. split_ands; [by apply elem_of_cons; right|eassumption..].
      * intros (r&role'&e&[->|?]%elem_of_cons&?&He&?); [|by exists r; do 2 eexists].
        exfalso. assert (role' = role) as -> by congruence. apply not_true_iff_false in Ex. apply Ex, existsb_exists.
        exists e. by rewrite <- list_elem_of_In.
Qed.

Lemma any_entry_granted test u :
  any_entry test (user_Role u) = true ↔ ∃ e, granted GetRole u e ∧ test e = true.
Proof.
  rewrite any_entry_spec. unfold granted, user_role. split.
  - intros (rid&role&e&?&?&?&?). exists e. split; [|done]. exists role. split; [by exists rid|done].
  - intros (e&(role&(rid&?&?)&?)&?). by exists rid, role, e.
Qed.

(** Is the path one at which every scope of the user counts? *)
Definition at_root (u : User) (req : gostr) : Prop := req = #"/" ∨ path_segs req = path_segs (BasePath u).

#[export] Instance at_root_dec u req : Decision (at_root u req).
Proof. unfold at_root. apply _. Defined.

Lemma at_root_spec u req :
  bool_decide (req = #"/") || PathEqual req (BasePath u) = true ↔ at_root u req.
Proof. unfold at_root. by rewrite orb_true_iff, bool_decide_eq_true, PathEqual_segs. Qed.

Lemma MergeRolePermissions_bit u req bit :
  0 ≤ bit →
  HasPermission (MergeRolePermissions (Some u) req) bit = true ↔
    ∃ e, granted GetRole u e ∧ Z.testbit (pe_Permission e) bit = true ∧
      (at_root u req ∨ path_segs (pe_Path e) `prefix_of` path_segs req).
Proof.
  intros Hb. rewrite HasPermission_testbit by done. unfold MergeRolePermissions.
  rewrite merge_roles_bit by done. rewrite Z.testbit_0_l.
  setoid_rewrite orb_true_iff. setoid_rewrite at_root_spec. setoid_rewrite IsSubPath_segs.
  unfold granted, user_role. split.
  - intros [[=]|(rid&role&e&?&?&?&?&?)]. exists e. split_ands; [|done..].
    exists role. split; [by exists rid|done].
  - intros (e&(role&(rid&?&?)&?)&?&?). right. by exists rid, role, e.
Qed.

Lemma read_test_spec e req :
  PathEqual (pe_Path e) req || IsSubPath (pe_Path e) req || IsSubPath req (pe_Path e) = true ↔
    path_segs (pe_Path e) `prefix_of` path_segs req ∨
    path_segs req `prefix_of` path_segs (pe_Path e).
Proof.
  rewrite !orb_true_iff, PathEqual_segs, (IsSubPath_segs (pe_Path e) req),
    (IsSubPath_segs req (pe_Path e)).
  split; [|tauto]. intros [[->|?]|?]; [by left|tauto..].
Qed.

Lemma CanReadPathByRole_spec u req :
  CanReadPathByRole (Some u) req = true ↔
    (at_root u req ∧ user_Role u ≠ []) ∨
    (¬ at_root u req ∧ ∃ e, granted GetRole u e ∧
       (path_segs (pe_Path e) `prefix_of` path_segs req ∨
        path_segs req `prefix_of` path_segs (pe_Path e))).
Proof.
  unfold CanReadPathByRole. destruct (bool_decide (req = _) || PathEqual _ _) eqn:E.
  - apply at_root_spec in E. rewrite Z.ltb_lt. destruct (user_Role u); simpl; split.
    + lia.
    + by intros [[??]|[??]].
    + by left.
    + lia.
  - apply not_true_iff_false in E. rewrite at_root_spec in E. rewrite any_entry_granted.
    setoid_rewrite read_test_spec. split; [by right|]. by intros [[??]|[_ ?]].
Qed.

(** Does the meta ask for a password at this path? *)
Definition password_applies (m : Meta) (req : gostr) : Prop :=
  meta_Password m ≠ [] ∧ (PSub m = true ∨ path_segs (meta_Path m) = path_segs req).

Lemma CanAccessWithRoles_iff u meta req pw :
  CanAccessWithRoles (Some u) meta req pw = Ret true ↔
    CanReadPathByRole (Some u) req = true ∧
    hides_name (MergeRolePermissions (Some u) req) meta req = Ret false ∧
    (HasPermission (MergeRolePermissions (Some u) req) PermAccessWithoutPassword = true ∨
     ∀ m, meta = Some m → password_applies m req → pw = meta_Password m).
Proof.
  unfold CanAccessWithRoles. destruct (CanReadPathByRole (Some u) req); cbn [negb];
    [|split; [done|by intros [? _]]].
  set (perm := MergeRolePermissions (Some u) req).
  destruct (hides_name perm meta req) as [b|] eqn:Eh; [|split; [done|by intros (_&?&_)]].
  destruct b; [split; [done|by intros (_&?&_)]|].
  destruct (HasPermission perm PermAccessWithoutPassword); [split; [by auto|done]|].
  assert (Hpass : ∀ m, meta = Some m → ¬ password_applies m req →
    ∀ m', meta = Some m' → password_applies m' req → pw = meta_Password m').
  { intros m -> Hna ? [= <-] Ha. done. }
  destruct meta as [m|]; [|split; [intros _|done]; split_ands; [done..|by right]].
  case_bool_decide as Hpw.
  { split; [intros _|done]. split_ands; [done..|]. right. apply (Hpass m); [done|]. by intros [? _]. }
  destruct (negb _ && negb _) eqn:Ea; reflect_bools.
  - split; [intros _|done]. split_ands; [done..|]. right. apply (Hpass m); [done|].
    intros [_ [Hp|Hp]]; [congruence|]. apply PathEqual_segs in Hp. congruence.
  - assert (Ha : password_applies m req).
    { split; [done|]. apply andb_false_iff in Ea as [Ea|Ea]; reflect_bools; [|by left].
      right. by apply PathEqual_segs. }
    case_bool_decide as Heq.
    + split; [intros _|done]. split_ands; [done..|]. right. by intros ? [= <-] _.
    + split; [done|]. intros (_&_&[?|Hpw']); [done|]. exfalso. apply Heq. symmetry. by apply Hpw'.
Qed.

Lemma checkAccess_ok user req :
  checkAccess user req = Ret None →
  CanReadPathByRole (Some user) req = true ∧
  (IsAdmin user = true ∨ HasPermission (MergeRolePermissions (Some user) req) PermMCPAccess = true).
Proof.
  unfold checkAccess.
  destruct (CanAccessWithRoles _ _ _ _) as [[]|] eqn:E; [|done|done].
  apply CanAccessWithRoles_iff in E as (?&_).
  destruct (IsAdmin user); cbn [negb andb]; [by auto|].
  destruct (HasPermission _ PermMCPAccess) eqn:Ep; cbn [negb]; [|done]. by auto.
Qed.

(** ** Properties *)

(** C4. The merged permission of a user at a path has a bit exactly when one
    of the user's roles grants a scope with that bit that contains the path;
    at [/] and at the base path every scope counts.  A role that cannot be
    loaded grants nothing. *)
Theorem MergeRolePermissions_granted u req (bit : nat) :
  HasPermission (MergeRolePermissions (Some u) req) (Z.of_nat bit) = true ↔
    ∃ e, granted GetRole u e ∧ Z.testbit (pe_Permission e) (Z.of_nat bit) = true ∧
      (req = #"/" ∨ path_segs req = path_segs (BasePath u) ∨
       IsSubPath (pe_Path e) req = true).
Proof.
  rewrite MergeRolePermissions_bit by lia. unfold at_root.
  setoid_rewrite IsSubPath_segs. apply exist_proper. intros e. tauto.
Qed.

(** A path at which the user has any permission bit is readable; and
    away from [/] and the base path, a readable path below which another
    path lies with a scope stays readable: every ancestor of a path that a
    scope contains is readable, so the way to each granted subtree is open. *)
Theorem readable_covers_permissions u req (bit : nat) :
  (HasPermission (MergeRolePermissions (Some u) req) (Z.of_nat bit) = true →
     CanReadPathByRole (Some u) req = true) ∧
  (∀ e anc, granted GetRole u e → IsSubPath anc (pe_Path e) = true →
     CanReadPathByRole (Some u) anc = true).
Proof.
  assert (Hrole : ∀ e, granted GetRole u e → user_Role u ≠ []).
  { intros e (role&(rid&Hin&_)&_) Hnil. rewrite Hnil in Hin. by apply elem_of_nil in Hin. }
  split.
  - rewrite MergeRolePermissions_bit by lia. intros (e&He&_&Hc).
    apply CanReadPathByRole_spec. destruct (decide (at_root u req)) as [Hr|Hr].
    + left. split; [done|]. by eapply Hrole.
    + right. split; [done|]. exists e. destruct Hc; [done|]. by auto.
  - intros e anc He Hs. apply IsSubPath_segs in Hs. apply CanReadPathByRole_spec.
    destruct (decide (at_root u anc)) as [Hr|Hr].
    + left. split; [done|]. by eapply Hrole.
    + right. split; [done|]. exists e. by auto.
Qed.

(** [CanAccessWithRoles] lets a request through exactly when the path is
    readable, its name is not hidden, and either the user may skip passwords
    or the given password is the one of the meta wherever the meta applies
    (at its own path, below it only with [PSub]). *)
Theorem CanAccessWithRoles_password u meta req pw :
  CanAccessWithRoles (Some u) meta req pw = Ret true ↔
    CanReadPathByRole (Some u) req = true ∧
    hides_name (MergeRolePermissions (Some u) req) meta req = Ret false ∧
    (HasPermission (MergeRolePermissions (Some u) req) PermAccessWithoutPassword = true ∨
     ∀ m, meta = Some m → password_applies m req → pw = meta_Password m).
Proof. apply CanAccessWithRoles_iff. Qed.

(** An MCP tool that passed [checkManage] runs for a path the user can
    read, and the user is an administrator or has, at this path, the bits
    for MCP access, MCP management and the operation itself. *)
Theorem checkManage_authorised user req (bit : nat)
    (H : checkManage user req (Z.of_nat bit) = Ret None) :
  CanReadPathByRole (Some user) req = true ∧
  (ADMIN ∈ user_Role user ∨
   ∀ b, b ∈ [PermMCPAccess; PermMCPManage; Z.of_nat bit] →
     ∃ e, granted GetRole user e ∧ Z.testbit (pe_Permission e) b = true ∧
       (at_root user req ∨ path_segs (pe_Path e) `prefix_of` path_segs req)).
Proof.
  unfold checkManage in H. destruct (checkAccess user req) as [[|]|] eqn:E; [done| |done].
  apply checkAccess_ok in E as [Hread HA]. split; [done|].
  destruct (IsAdmin user) eqn:Ea; [left; by apply Roles_Contains_spec|].
  cbn [negb andb] in H. destruct HA as [?|HA]; [done|].
  destruct (HasPermission _ PermMCPManage) eqn:Em; [|done]. cbn [negb] in H.
  destruct (HasPermission _ (Z.of_nat bit)) eqn:Eb; [|done].
  right. intros b Hb. apply MergeRolePermissions_bit;
    repeat (apply elem_of_cons in Hb as [->|Hb]); try lia; done || by apply elem_of_nil in Hb.
Qed.

End perm.

Definition example_mcp_roles (id : Z) : result Role :=
  if id =? 5 then
    inr {| role_ID := 5; role_Name := #"mcp"; role_Description := []; role_Default := false;
           PermissionScopes := [ {| pe_Path := #"/home"; pe_Permission := 98312 |} ] |}
  else inl (EMessage #"role not found").

