(* ===== verification/Prog.v ===== *)
(** * Programs that call another package

    A program of a package is a tree: it returns, calls the package below
    with an action and goes on with the answer, panics, or runs out of fuel.
    What a program does with every possible answer is its set of runs
    ([runs_to]): a list of calls with their answers, and an end.  [wp] is the
    rule to reason about them: every call is allowed after the calls before
    it, and the end satisfies a predicate of the whole history. *)

From S2P Require Import Prelude GoStrings Errs.

Section prog.
Context {action : Type} {answer : action → Type}.

Inductive prog (A : Type) : Type :=
  | PRet (a : A)
  | PCall (c : action) (k : answer c → prog A)
  | PPanic
  | PFuel.
Arguments PRet {A} a.
Arguments PCall {A} c k.
Arguments PPanic {A}.
Arguments PFuel {A}.

Fixpoint prog_bind {A B} (m : prog A) (k : A → prog B) : prog B :=
  match m with
  | PRet a => k a
  | PCall c f => PCall c (λ r, prog_bind (f r) k)
  | PPanic => PPanic
  | PFuel => PFuel
  end.

Definition pcall (c : action) : prog (answer c) := PCall c PRet.

Definition prog_outcome {A} (o : outcome A) : prog A := match o with Ret a => PRet a | Panic => PPanic end.

(** A call with its answer. *)
Definition event := { c : action & answer c }.
Definition ev (c : action) (r : answer c) : event := existT c r.

Inductive finish (A : Type) := Returned (a : A) | Panicked | OutOfFuel.
Arguments Returned {A} a.
Arguments Panicked {A}.
Arguments OutOfFuel {A}.

Inductive runs_to {A} : prog A → list event → finish A → Prop :=
  | run_ret a : runs_to (PRet a) [] (Returned a)
  | run_call c k r tr x : runs_to (k r) tr x → runs_to (PCall c k) (ev c r :: tr) x
  | run_panic : runs_to PPanic [] Panicked
  | run_fuel : runs_to PFuel [] OutOfFuel.

(** One run, with the answers of an oracle that sees the calls before. *)
Fixpoint run_with {A} (oracle : list event → ∀ c, answer c) (h : list event) (m : prog A) : list event * finish A :=
  match m with
  | PRet a => (h, Returned a)
  | PCall c k => let r := oracle h c in run_with oracle (h ++ [ev c r]) (k r)
  | PPanic => (h, Panicked)
  | PFuel => (h, OutOfFuel)
  end.

Lemma run_with_runs {A} oracle (m : prog A) h :
  ∃ tr, (run_with oracle h m).1 = h ++ tr ∧ runs_to m tr (run_with oracle h m).2.
Proof.
  revert h. induction m as [a|c k IH| |]; intros h; simpl.
  - exists []. rewrite app_nil_r. split; [done|constructor].
  - destruct (IH (oracle h c) (h ++ [ev c (oracle h c)])) as (tr & E & H).
    exists (ev c (oracle h c) :: tr). rewrite E, <- app_assoc. split; [done|by constructor].
  - exists []. rewrite app_nil_r. split; [done|constructor].
  - exists []. rewrite app_nil_r. split; [done|constructor].
Qed.

(** ** The rule *)

Section wp.
(** Which answers are given, and which calls are allowed after a history. *)
Context (good : ∀ c, answer c → Prop) (ok : list event → action → Prop).

Fixpoint wp {A} (m : prog A) (h : list event) (Q : finish A → list event → Prop) : Prop :=
  match m with
  | PRet a => Q (Returned a) h
  | PCall c k => ok h c ∧ ∀ r, good c r → wp (k r) (h ++ [ev c r]) Q
  | PPanic => Q Panicked h
  | PFuel => Q OutOfFuel h
  end.

Lemma wp_mono {A} (m : prog A) h (P Q : finish A → list event → Prop) :
  wp m h P → (∀ x h', P x h' → Q x h') → wp m h Q.
Proof.
  intros H HPQ. revert h H. induction m as [a|c k IH| |]; intros h; simpl; [auto| |auto..].
  intros [Hc Hk]. split; [done|]. auto.
Qed.

(** What the end of [m] does to the rest of [prog_bind m k]. *)
Definition bind_post {A B} (k : A → prog B) (Q : finish B → list event → Prop) (x : finish A) (h : list event) : Prop :=
  match x with
  | Returned a => wp (k a) h Q
  | Panicked => Q Panicked h
  | OutOfFuel => Q OutOfFuel h
  end.

Lemma wp_bind {A B} (m : prog A) (k : A → prog B) h Q : wp m h (bind_post k Q) → wp (prog_bind m k) h Q.
Proof.
  revert h. induction m as [a|c f IH| |]; intros h; simpl; [done| |done..].
  intros [Hc Hk]. split; [done|]. auto.
Qed.

Lemma wp_sound {A} (m : prog A) h Q tr x :
  wp m h Q → runs_to m tr x → Forall (λ e, good (projT1 e) (projT2 e)) tr →
  Q x (h ++ tr) ∧ ∀ t1 e t2, tr = t1 ++ e :: t2 → ok (h ++ t1) (projT1 e).
Proof.
  intros Hwp Hrun. revert h Hwp. induction Hrun as [a|c k r tr x Hrun IH| |]; intros h Hwp Hg.
  - rewrite app_nil_r. split; [done|]. intros t1 e t2 E. by destruct t1.
  - destruct Hwp as [Hc Hk]. apply Forall_cons in Hg as [Hr Hg].
    destruct (IH (h ++ [ev c r])) as [HQ Hok]; [by apply Hk|done|].
    rewrite <- app_assoc in HQ. split; [done|]. intros [|e' t1] e t2 E.
    + simpl in E. injection E as <- <-. by rewrite app_nil_r.
    + injection E as <- ->. specialize (Hok t1 e t2 eq_refl). by rewrite <- app_assoc in Hok.
  - rewrite app_nil_r. split; [done|]. intros t1 e t2 E. by destruct t1.
  - rewrite app_nil_r. split; [done|]. intros t1 e t2 E. by destruct t1.
Qed.
End wp.

(** The end of a run, when only that matters. *)
Lemma wp_end {A} good (m : prog A) Q tr x : wp good (λ _ _, True) m [] Q → runs_to m tr x →
  Forall (λ e, good (projT1 e) (projT2 e)) tr → Q x tr.
Proof. intros Hwp Hrun Hg. by eapply wp_sound in Hwp as [HQ _]. Qed.

Lemma wp_run {A} (m : prog A) Q tr x :
  wp (λ _ _, True) (λ _ _, True) m [] Q → runs_to m tr x → Q x tr.
Proof. intros Hwp Hrun. eapply wp_end; [done..|by apply Forall_forall]. Qed.

(** Histories grow. *)
Lemma wp_grow {A} good (m : prog A) h h0 : h0 `prefix_of` h → wp good (λ _ _, True) m h (λ _ h', h0 `prefix_of` h').
Proof.
  revert h. induction m as [a|c k IH| |]; intros h Hp; simpl; [done| |done..].
  split; [done|]. intros r _. apply IH. by apply prefix_app_r.
Qed.

Lemma wp_impl {A} (g g' : ∀ c, answer c → Prop) (ok ok' : list event → action → Prop) (m : prog A) h Q :
  (∀ c r, g' c r → g c r) → (∀ h c, ok h c → ok' h c) → wp g ok m h Q → wp g' ok' m h Q.
Proof.
  intros Hg Hok. revert h. induction m as [a|c k IH| |]; intros h; simpl; [done| |done..].
  intros [Hc Hk]. split; [auto|]. auto.
Qed.
End prog.

Arguments prog {action} answer A.
Arguments PRet {action answer A} a.
Arguments PCall {action answer A} c k.
Arguments PPanic {action answer A}.
Arguments PFuel {action answer A}.
Arguments event {action} answer.
Arguments Returned {A} a.
Arguments Panicked {A}.
Arguments OutOfFuel {A}.

(** ** Programs that may fail *)

Section fails.
Context {action : Type} {answer : action → Type} {E : Type}.

Definition p_ok {A} (a : A) : prog answer (E + A) := PRet (inr a).
Definition p_fail {A} (e : E) : prog answer (E + A) := PRet (inl e).
Definition p_result {A} (r : E + A) : prog answer (E + A) := PRet r.
Definition p_then {A B} (m : prog answer (E + A)) (k : A → prog answer (E + B)) : prog answer (E + B) :=
  prog_bind m (λ r, match r with inl e => p_fail e | inr a => k a end).
Definition p_call (c : action) : prog answer (E + answer c) := PCall c (λ r, PRet (inr r)).
Definition p_outcome {A} (o : outcome A) : prog answer (E + A) := match o with Ret a => p_ok a | Panic => PPanic end.

Fixpoint p_fold {A B} (f : B → A → prog answer (E + B)) (l : list A) (b : B) : prog answer (E + B) :=
  match l with [] => p_ok b | x :: l' => p_then (f b x) (p_fold f l') end.

Context (good : ∀ c, answer c → Prop) (ok : list (event answer) → action → Prop).

(** Calls are allowed; a result, if there is one, satisfies [Q]. *)
Definition ewp {A} (m : prog answer (E + A)) (h : list (event answer)) (Q : A → list (event answer) → Prop) : Prop :=
  wp good ok m h (λ x h', ∀ a, x = Returned (inr a) → Q a h').

Lemma ewp_mono {A} (m : prog answer (E + A)) h (P Q : A → list (event answer) → Prop) :
  ewp m h P → (∀ a h', P a h' → Q a h') → ewp m h Q.
Proof. intros H HPQ. eapply wp_mono; [exact H|]. eauto. Qed.

Lemma ewp_ok {A} (a : A) h (Q : A → list (event answer) → Prop) : Q a h → ewp (p_ok a) h Q.
Proof. intros H b Eb. by simplify_eq. Qed.

Lemma ewp_fail {A} e h (Q : A → list (event answer) → Prop) : ewp (PRet (inl e)) h Q.
Proof. intros b Eb. by simplify_eq. Qed.

Lemma ewp_panic {A} h (Q : A → list (event answer) → Prop) : ewp PPanic h Q.
Proof. by intros b Eb. Qed.

Lemma ewp_then {A B} (m : prog answer (E + A)) (k : A → prog answer (E + B)) h Q :
  ewp m h (λ a h', ewp (k a) h' Q) → ewp (p_then m k) h Q.
Proof.
  intros H. apply wp_bind. eapply wp_mono; [exact H|].
  intros [[e|a]| |] h' HP; simpl; [|by apply HP|..]; intros b Eb; by simplify_eq.
Qed.

Lemma ewp_call c h (Q : answer c → list (event answer) → Prop) :
  ok h c → (∀ r, good c r → Q r (h ++ [ev c r])) → ewp (p_call c) h Q.
Proof. intros Hc H. split; [done|]. intros r Hr b Eb. simplify_eq. auto. Qed.

Lemma ewp_result {A} (r : E + A) h (Q : A → list (event answer) → Prop) :
  (∀ a, r = inr a → Q a h) → ewp (p_result r) h Q.
Proof. intros H b Eb. simplify_eq. auto. Qed.

Lemma ewp_fold {A B} (f : B → A → prog answer (E + B)) (l : list A) (I : list A → B → list (event answer) → Prop) b h :
  I l b h → (∀ x l' b h, I (x :: l') b h → x ∈ l → ewp (f b x) h (I l')) → ewp (p_fold f l b) h (I []).
Proof.
  intros Hi Hf. assert (H : ∀ k b h, k `suffix_of` l → I k b h → ewp (p_fold f k b) h (I [])); [|by apply H].
  clear b h Hi. induction k as [|x k IH]; intros b h Hs Hi; cbn [p_fold]; [by apply ewp_ok|].
  assert (x ∈ l) by (destruct Hs as [l0 ->]; apply elem_of_app; right; left).
  apply ewp_then. eapply ewp_mono; [by apply Hf|]. intros b' h' Hi'. apply IH; [|done].
  destruct Hs as [l0 ->]. exists (l0 ++ [x]). by rewrite <- app_assoc.
Qed.

(** Whatever the answers are, among the given ones, there is a result and it satisfies [Q]. *)
Definition swp {A} (m : prog answer (E + A)) (h : list (event answer)) (Q : A → list (event answer) → Prop) : Prop :=
  wp good ok m h (λ x h', ∃ a, x = Returned (inr a) ∧ Q a h').

Lemma swp_mono {A} (m : prog answer (E + A)) h (P Q : A → list (event answer) → Prop) :
  swp m h P → (∀ a h', P a h' → Q a h') → swp m h Q.
Proof. intros H HPQ. eapply wp_mono; [exact H|]. intros x h' (a & Ea & Ha). eauto. Qed.

Lemma swp_ok {A} (a : A) h (Q : A → list (event answer) → Prop) : Q a h → swp (p_ok a) h Q.
Proof. intros H. by exists a. Qed.

Lemma swp_then {A B} (m : prog answer (E + A)) (k : A → prog answer (E + B)) h Q :
  swp m h (λ a h', swp (k a) h' Q) → swp (p_then m k) h Q.
Proof. intros H. apply wp_bind. eapply wp_mono; [exact H|]. by intros x h' (a & -> & Ha). Qed.

Lemma swp_call c h (Q : answer c → list (event answer) → Prop) :
  ok h c → (∀ r, good c r → Q r (h ++ [ev c r])) → swp (p_call c) h Q.
Proof. intros Hc H. split; [done|]. intros r Hr. exists r. auto. Qed.

Lemma swp_fold {A B} (f : B → A → prog answer (E + B)) (l : list A) (I : list A → B → list (event answer) → Prop) b h :
  I l b h → (∀ x l' b h, I (x :: l') b h → x ∈ l → swp (f b x) h (I l')) → swp (p_fold f l b) h (I []).
Proof.
  intros Hi Hf. assert (H : ∀ k b h, k `suffix_of` l → I k b h → swp (p_fold f k b) h (I [])); [|by apply H].
  clear b h Hi. induction k as [|x k IH]; intros b h Hs Hi; cbn [p_fold]; [by apply swp_ok|].
  assert (x ∈ l) by (destruct Hs as [l0 ->]; apply elem_of_app; right; left).
  apply swp_then. eapply swp_mono; [by apply Hf|]. intros b' h' Hi'. apply IH; [|done].
  destruct Hs as [l0 ->]. exists (l0 ++ [x]). by rewrite <- app_assoc.
Qed.
End fails.

Notation "'try^' x ':=' m 'in' k" := (p_then m (λ x, k))
  (at level 10, x pattern, m at level 100, k at level 200,
   format "'[v' 'try^'  x  ':='  m  'in' '//' k ']'") : go_scope.

(** ** Programs over programs *)

(** The actions of a program carried out by programs of the package below. *)
Section interp.
Context {a1 : Type} {r1 : a1 → Type} {a2 : Type} {r2 : a2 → Type}.
Context (impl : ∀ c : a1, prog r2 (r1 c)).

Fixpoint interp {A} (m : prog r1 A) : prog r2 A :=
  match m with
  | PRet a => PRet a
  | PCall c k => prog_bind (impl c) (λ r, interp (k r))
  | PPanic => PPanic
  | PFuel => PFuel
  end.

(** The calls of [impl] are allowed when the calls they carry out are, and a
    relation of the two histories is kept. *)
Lemma wp_interp {A} (good1 : ∀ c, r1 c → Prop) ok1 (good2 : ∀ c, r2 c → Prop) ok2
    (R : list (event r1) → list (event r2) → Prop) (m : prog r1 A) h1 h2 Q :
  (∀ h1 h2 c, R h1 h2 → ok1 h1 c →
    wp good2 ok2 (impl c) h2 (λ x h2', ∀ r, x = Returned r → good1 c r ∧ R (h1 ++ [ev c r]) h2')) →
  R h1 h2 → wp good1 ok1 m h1 Q → wp good2 ok2 (interp m) h2 (λ _ _, True).
Proof.
  intros Himpl. revert h1 h2. induction m as [a|c k IH| |]; intros h1 h2 HR Hm; simpl; [done| |done..].
  destruct Hm as [Hc Hk]. apply wp_bind. eapply wp_mono; [by eapply Himpl|].
  intros [r| |] h' Hx; simpl; [|done..]. destruct (Hx r eq_refl) as [Hg HR']. eapply IH; eauto.
Qed.
End interp.
