(* ===== verification/AccountsThms.v ===== *)
(** * The caches of roles and users never show stale rights

    Whatever sequence of operations ran, the permissions computed through the
    role cache are those of the role table, and a user found by name is the
    row of the user table. *)

From S2P Require Import Prelude GoStrings Errs Store Paths Users Perm Accounts.

Local Open Scope Z_scope.

(** ** Keys *)

Definition numeric (k : gostr) : Prop := ∃ id, 0 ≤ id ≤ max_uint64 ∧ k = FormatUint id.

Lemma numeric_nonempty : ¬ numeric [].
Proof. intros (id&Hid&E). destruct (FormatUint_head id) as (c&s&E'&_); [lia|]. congruence. Qed.

Lemma negative_not_numeric i : i < 0 → ¬ numeric (FormatInt i).
Proof.
  intros Hi (id&Hid&E). unfold FormatInt in E. rewrite (proj2 (Z.ltb_lt i 0)) in E by done.
  destruct (FormatUint_head id) as (c&s&E'&Hd); [lia|]. rewrite E' in E. injection E as <- _. done.
Qed.

(** ** Roles *)

Section roles.
Context `{HTR : !Table Role, !TableLaws Role, HTU : !Table User, HCR : !Cache Role, !CacheLaws Role,
          HCU : !Cache User}.
Implicit Types s : acc.

(** The scopes a role has in effect. *)
Definition effective (r : Role) : list PermissionEntry :=
  if bool_decide (role_Name r = #"admin")
  then [{| pe_Path := #"/"; pe_Permission := all_permissions |}] else PermissionScopes r.

Record role_inv (s : acc) : Prop := {
  ri_cache : ∀ id r, 0 ≤ id ≤ max_uint64 → cache_Get (roleCache s) (FormatUint id) = Some r →
    ∃ r0, rows (roles s) !! id = Some r0 ∧ PermissionScopes r = effective r0;
  ri_names : ∀ i r, rows (roles s) !! i = Some r → ¬ numeric (role_Name r);
}.

(** Only the role table and the role cache matter. *)
Lemma role_inv_same s s' : roles s' = roles s → roleCache s' = roleCache s → role_inv s → role_inv s'.
Proof using. intros E1 E2 [H1 H2]. split; rewrite E1, ?E2; done. Qed.

(** A table with the same names and effective scopes. *)
Definition same_rights (t t' : table Role) : Prop :=
  ∀ i, (λ r, (role_Name r, effective r)) <$> rows t' !! i = (λ r, (role_Name r, effective r)) <$> rows t !! i.

Lemma role_inv_rights s t : same_rights (roles s) t → role_inv s → role_inv (set_roles t s).
Proof using.
  intros Hsame [H1 H2]. split; simpl.
  - intros id r Hid Hc. destruct (H1 id r Hid Hc) as (r0&E&Es). specialize (Hsame id). rewrite E in Hsame.
    destruct (rows t !! id) as [r1|]; simpl in Hsame; [|done]. injection Hsame as ? ?. exists r1. split; [done|congruence].
  - intros i r E. specialize (Hsame i). rewrite E in Hsame.
    destruct (rows (roles s) !! i) as [r1|] eqn:E1; simpl in Hsame; [|done]. injection Hsame as -> ?. by apply (H2 i).
Qed.

Lemma role_inv_del s k : role_inv s → role_inv (set_roleCache (cache_Del (roleCache s) k) s).
Proof using Type*.
  intros [H1 H2]. split; [|done]. intros id r Hid. simpl. rewrite cache_Get_Del. case_decide; [done|]. by apply H1.
Qed.

Lemma role_inv_clear s : role_inv s → role_inv (set_roleCache (cache_Clear (roleCache s)) s).
Proof using Type*.
  intros [H1 H2]. split; [|done]. intros id r Hid. simpl. by rewrite cache_Get_Clear.
Qed.

Lemma role_inv_set s k r :
  role_inv s →
  (∀ id, 0 ≤ id ≤ max_uint64 → k = FormatUint id →
     ∃ r0, rows (roles s) !! id = Some r0 ∧ PermissionScopes r = effective r0) →
  role_inv (set_roleCache (cache_Set (roleCache s) k r hour) s).
Proof using Type*.
  intros [H1 H2] Hk. split; [|done]. intros id r' Hid. simpl. rewrite cache_Get_Set.
  case_decide as E; [|by apply H1]. intros [= <-]. by apply Hk.
Qed.

Lemma db_clear_default_inv id : keeps role_inv (db_clear_default id).
Proof using Type*.
  intros s Hs. unfold db_clear_default, op_exec.
  destruct (UpdateWhere _ _ _) as [e|t] eqn:E; [done|]. simpl. apply role_inv_rights; [|done].
  apply UpdateWhere_ok in E; [|done]. intros i. rewrite E, lookup_fmap.
  destruct (rows (roles s) !! i) as [r|]; [|done]. simpl. f_equal. by destruct (negb _).
Qed.

(** What a step does not touch, and what it keeps of a row. *)
Definition keeps_right (id : Z) (r : Role) (s : acc) : Prop :=
  ∃ r0, rows (roles s) !! id = Some r0 ∧ role_Name r0 = role_Name r ∧ effective r0 = effective r.

Lemma rights_keep s t id r :
  same_rights (roles s) t → keeps_right id r s → keeps_right id r (set_roles t s).
Proof using.
  intros Hs (r0&E&En&Ee). specialize (Hs id). rewrite E in Hs. unfold keeps_right. simpl.
  destruct (rows t !! id) as [r1|]; simpl in Hs; [|done]. injection Hs as ? ?. exists r1.
  split_ands; congruence.
Qed.

Lemma db_clear_default_spec id0 id r s :
  keeps_right id r s → keeps_right id r (db_clear_default id0 s).2 ∧
  roleCache (db_clear_default id0 s).2 = roleCache s.
Proof using Type*.
  intros Hk. unfold db_clear_default, op_exec.
  destruct (UpdateWhere _ _ _) as [e|t] eqn:E; [done|]. simpl. split; [|done].
  apply rights_keep; [|done]. apply UpdateWhere_ok in E; [|done]. intros i. rewrite E, lookup_fmap.
  destruct (rows (roles s) !! i) as [r'|]; [|done]. simpl. f_equal. by destruct (negb _).
Qed.

(** Rewriting the administrator's scopes. *)
Lemma save_rights s r r' t :
  rows (roles s) !! role_ID r = Some r → role_ID r' = role_ID r → role_Name r' = role_Name r →
  effective r' = effective r → Save (roles s) r' = inr t → same_rights (roles s) t.
Proof using Type*.
  intros Hr Ei En Ee E. apply Save_ok in E; [|simpl; rewrite Ei; by eexists]. simpl in E.
  intros i. rewrite E, Ei. destruct (decide (i = role_ID r)) as [->|].
  - rewrite lookup_insert_eq, Hr. simpl. by rewrite En, Ee.
  - by rewrite lookup_insert_ne.
Qed.

Lemma db_UpdateRole_rights s r r' :
  role_inv s → rows (roles s) !! role_ID r = Some r →
  role_ID r' = role_ID r → role_Name r' = role_Name r → effective r' = effective r →
  role_inv (db_UpdateRole r' s).2 ∧ keeps_right (role_ID r) r (db_UpdateRole r' s).2 ∧
  roleCache (db_UpdateRole r' s).2 = roleCache s.
Proof using Type*.
  intros Hs Hr Ei En Ee. assert (keeps_right (role_ID r) r s) as Hk by (exists r; done).
  unfold db_UpdateRole, op_bind, op_exec. destruct (Save (roles s) r') as [e|t] eqn:E; [done|].
  pose proof (save_rights s r r' t Hr Ei En Ee E) as Hsame.
  pose proof (role_inv_rights s t Hsame Hs) as Hs'. pose proof (rights_keep s t _ _ Hsame Hk) as Hk'.
  destruct (role_Default r'); [|done].
  split; [by apply db_clear_default_inv|]. by apply (db_clear_default_spec (role_ID r') _ _ (set_roles t s)).
Qed.

Lemma enforce_spec s r :
  role_inv s → rows (roles s) !! role_ID r = Some r →
  let o := enforceAdminRoleDefaults r s in
  role_inv o.2 ∧ keeps_right (role_ID r) r o.2 ∧ roleCache o.2 = roleCache s ∧
  ∀ r', o.1 = inr r' → role_ID r' = role_ID r ∧ role_Name r' = role_Name r ∧ PermissionScopes r' = effective r.
Proof using Type*.
  intros Hs Hr. assert (keeps_right (role_ID r) r s) as Hk by (exists r; done).
  unfold enforceAdminRoleDefaults, effective.
  destruct (bool_decide (role_Name r = #"admin")) eqn:En; cbn [negb].
  2: { simpl. split_ands; try done. intros r' [= <-]. done. }
  set (r1 := role_set_scopes [{| pe_Path := #"/"; pe_Permission := all_permissions |}] r).
  assert (effective r1 = effective r) as Ee by (unfold effective; simpl; by rewrite En).
  assert (let o := op_bind (db_UpdateRole r1) (λ _, op_ret r1) s in
    role_inv o.2 ∧ keeps_right (role_ID r) r o.2 ∧ roleCache o.2 = roleCache s ∧
    ∀ r', o.1 = inr r' → role_ID r' = role_ID r ∧ role_Name r' = role_Name r ∧
      PermissionScopes r' = [{| pe_Path := #"/"; pe_Permission := all_permissions |}]) as Hreset.
  { destruct (db_UpdateRole_rights s r r1 Hs Hr eq_refl eq_refl Ee) as (G1&G2&G3). unfold op_bind.
    destruct (db_UpdateRole r1 s) as [[e|[]] s1]; simpl in *; split_ands; try done. intros r' [= <-]. done. }
  destruct (PermissionScopes r) as [|e [|]]; [exact Hreset| |exact Hreset].
  destruct (bool_decide (FixAndCleanPath _ = _) && _) eqn:E; [|exact Hreset]. reflect_bools.
  simpl. split_ands; try done. intros r' [= <-]. simpl. by rewrite H0.
Qed.

(** A key under which a role with this id may be cached. *)
Definition key_ok (id : Z) (k : gostr) : Prop := ∀ i, 0 ≤ i ≤ max_uint64 → k = FormatUint i → i = id.

Lemma key_ok_id id : 0 ≤ id ≤ max_uint64 → key_ok id (FormatUint id).
Proof using. intros Hid i Hi E. apply FormatUint_inj; [lia|lia|done]. Qed.

Lemma key_ok_name id k : ¬ numeric k → key_ok id k.
Proof using. intros Hk i Hi ->. destruct Hk. by exists i. Qed.

Lemma load_role_spec fetch keys s :
  role_inv s →
  (∀ r, fetch s = inr r → rows (roles s) !! role_ID r = Some r) →
  (∀ r r', fetch s = inr r → role_ID r' = role_ID r → role_Name r' = role_Name r →
     key_ok (role_ID r) (fst (keys r')) ∧ key_ok (role_ID r) (snd (keys r'))) →
  let o := load_role fetch keys s in
  role_inv o.2 ∧
  (∀ r', o.1 = inr r' → ∃ r, fetch s = inr r ∧ role_ID r' = role_ID r ∧ PermissionScopes r' = effective r).
Proof using Type*.
  intros Hs Hf Hkeys. unfold load_role, op_bind, op_query, roleCache_Set, op_modify, op_ret.
  destruct (fetch s) as [e|r] eqn:E; [by split|]. pose proof (Hf r eq_refl) as Hr.
  destruct (enforce_spec s r Hs Hr) as (G1&(r0&E0&En0&Ee0)&_&G4).
  destruct (enforceAdminRoleDefaults r s) as [[e|r'] s1]; simpl in *; [by split|].
  destruct (G4 r' eq_refl) as (Ei&En&Es). destruct (Hkeys r r' eq_refl Ei En) as [K1 K2].
  split; [|intros ? [= <-]; eauto].
  assert (∀ k s2, key_ok (role_ID r) k → roles s2 = roles s1 → role_inv s2 →
    role_inv (set_roleCache (cache_Set (roleCache s2) k r' hour) s2)) as Hset.
  { intros k s2 Hk Er H2. apply role_inv_set; [done|]. intros i Hi Eki. rewrite (Hk i Hi Eki), Er.
    exists r0. split; [done|congruence]. }
  apply Hset; [done|done|]. by apply Hset.
Qed.

Lemma db_GetRole_row id s r : db_GetRole id s = inr r → rows (roles s) !! id = Some r ∧ role_ID r = id.
Proof using Type*.
  unfold db_GetRole, wrapped. destruct (First (roles s) id) as [e|r'] eqn:E; [done|]. intros [= <-].
  apply First_ok in E. split; [done|]. by apply rows_id in E.
Qed.

Lemma op_GetRole_spec id s :
  0 ≤ id ≤ max_uint64 → role_inv s →
  role_inv (op_GetRole id s).2 ∧
  ∀ r, (op_GetRole id s).1 = inr r →
    ∃ r0, rows (roles s) !! id = Some r0 ∧ PermissionScopes r = effective r0.
Proof using Type*.
  intros Hid Hs. unfold op_GetRole. destruct (cache_Get _ _) as [r|] eqn:E.
  { split; [done|]. intros ? [= <-]. by apply (ri_cache _ Hs). }
  destruct (load_role_spec (db_GetRole id) (λ r, (FormatUint id, role_Name r)) s) as [G1 G2]; [done| | |].
  - intros r [Hr Er]%db_GetRole_row. by rewrite Er.
  - intros r r' [Hr Er]%db_GetRole_row Ei En. simpl. rewrite Er, En. split; [by apply key_ok_id|].
    apply key_ok_name. by apply (ri_names _ Hs id).
  - split; [done|]. intros r Hr. destruct (G2 r Hr) as (r0&[E0 _]%db_GetRole_row&_&Es). eauto.
Qed.

Lemma GetRoleByName_inv name : keeps role_inv (GetRoleByName name).
Proof using Type*.
  intros s Hs. unfold GetRoleByName. destruct (cache_Get _ _) as [r|] eqn:E; [done|].
  assert (∀ r, db_GetRoleByName name s = inr r →
    (name = [] ∨ role_Name r = name) ∧ rows (roles s) !! role_ID r = Some r) as Hdb.
  { intros r. unfold db_GetRoleByName, wrapped. destruct (FirstWhere _ _) as [e|r'] eqn:Ef; [done|].
    intros [= <-]. apply FirstWhere_ok in Ef as [Hp [i Hi]]. split.
    - apply orb_true_iff in Hp as [?|?]; reflect_bools; auto.
    - by rewrite (rows_id _ _ _ Hi : role_ID r' = i). }
  apply load_role_spec; [done|intros r Hr; by apply Hdb|].
  intros r r' Hr Ei En. destruct (Hdb r Hr) as [Hn Hrow]. simpl. split.
  - apply key_ok_name. destruct Hn as [->|<-]; [apply numeric_nonempty|]. by apply (ri_names _ Hs (role_ID r)).
  - rewrite Ei. apply key_ok_id. by eapply rows_uint.
Qed.

Lemma roles_of_inv ids : keeps role_inv (roles_of ids).
Proof using Type*.
  induction ids as [|rid ids IH]; [apply keeps_ret|]. simpl. apply keeps_bind.
  - intros s Hs. destruct (cache_Get _ _) as [r|] eqn:E; [done|].
    apply load_role_spec; [done| |].
    + intros r [Hr Er]%db_GetRole_row. by rewrite Er.
    + intros r r' [Hr Er]%db_GetRole_row Ei En. simpl. rewrite Er, En. split.
      * destruct (decide (rid < 0)) as [Hneg|Hpos]; [by apply key_ok_name, negative_not_numeric|].
        unfold FormatInt. rewrite (proj2 (Z.ltb_ge rid 0)) by lia. intros i Hi Eki.
        apply FormatUint_inj in Eki; [|lia|lia]. subst rid. by rewrite wrapu64_id.
      * apply key_ok_name. by apply (ri_names _ Hs (wrapu64 rid)).
  - intros a. apply keeps_bind; [done|]. intros l. apply keeps_ret.
Qed.

(** Writing a row that is not cached under its id. *)
Lemma role_inv_row s t id r :
  role_inv s → rows t = <[id := r]> (rows (roles s)) →
  (0 ≤ id ≤ max_uint64 → cache_Get (roleCache s) (FormatUint id) = None) →
  ¬ numeric (role_Name r) → role_inv (set_roles t s).
Proof using.
  intros [H1 H2] E Hnc Hn. split; simpl.
  - intros i r' Hi Hc. destruct (H1 i r' Hi Hc) as (r0&E0&Es). exists r0. split; [|done].
    rewrite E, lookup_insert_ne; [done|]. intros <-. rewrite Hnc in Hc by done. done.
  - intros i r'. rewrite E. intros [[_ <-]|[_ ?]]%lookup_insert_Some; [done|]. by apply (H2 i).
Qed.

Lemma make_default_inv save r : keeps role_inv (make_default save r).
Proof using Type*.
  apply keeps_bind; [apply keeps_modify; apply role_inv_clear|]. intros _.
  apply keeps_bind; [apply keeps_query|]. intros _. apply keeps_exec. intros s s' Hs.
  destruct (save _); [done|]. intros [= <-]. by apply (role_inv_same s).
Qed.

Lemma CreateRole_inv save r : ¬ numeric (role_Name r) → keeps role_inv (CreateRole save r).
Proof using Type*.
  intros Hn. unfold CreateRole. apply keeps_bind; [apply keeps_modify; intros s; apply role_inv_del|]. intros _.
  apply keeps_bind; [apply keeps_modify; intros s; apply role_inv_del|]. intros _.
  apply keeps_bind; [|intros r1; destruct (role_Default r1); [apply make_default_inv|apply keeps_ret]].
  apply keeps_bind.
  - intros s Hs. destruct (CreateRow _ _) as [e|[t r1]] eqn:E; [done|].
    apply CreateRow_ok in E as (i&->&_&Hi&E). simpl. eapply role_inv_row; [done|exact E| |done].
    intros Hr. destruct (cache_Get _ _) as [r0|] eqn:Ec; [|done].
    destruct (ri_cache _ Hs i r0 Hr Ec) as (r2&E2&_). congruence.
  - intros r1. destruct (role_Default r1); [|apply keeps_ret].
    apply keeps_bind; [apply db_clear_default_inv|]. intros _. apply keeps_ret.
Qed.

Lemma guest_not_numeric : ¬ numeric #"guest".
Proof using. intros (id&Hid&E). destruct (FormatUint_head id) as (c&t&E'&Hd); [lia|]. rewrite E' in E. by injection E as <- _. Qed.

Lemma UpdateRole_inv save r : ¬ numeric (role_Name r) → keeps role_inv (UpdateRole save r).
Proof using Type*.
  intros Hn s Hs. unfold UpdateRole, op_bind at 1, op_query.
  destruct (db_GetRole (role_ID r) s) as [e|old] eqn:Eo; [done|]. apply db_GetRole_row in Eo as [Eo _].
  destruct (bool_decide (role_Name old = #"admin")); [done|].
  set (r1 := clean_scopes (if bool_decide (role_Name old = #"guest") then role_set_name #"guest" r else r)).
  assert (role_ID r1 = role_ID r ∧ ¬ numeric (role_Name r1)) as [Ei Hn1].
  { subst r1. destruct (bool_decide _); [|done]. split; [done|]. apply guest_not_numeric. }
  unfold op_bind at 1 2, roleCache_Del, op_modify. set (s1 := set_roleCache _ _).
  assert (role_inv s1) as Hs1 by (by do 2 apply role_inv_del).
  unfold op_bind. match goal with |- context [db_UpdateRole r1 ?x] => change x with s1 end.
  assert (role_inv (db_UpdateRole r1 s1).2) as Hu.
  { unfold db_UpdateRole, op_bind, op_exec. destruct (Save (roles s1) r1) as [e|t] eqn:E; [done|].
    apply Save_ok in E; [|change (row_id r1) with (role_ID r1); rewrite Ei; by eexists].
    assert (role_inv (set_roles t s1)).
    { eapply role_inv_row; [done|exact E| |done]. intros _. subst s1. simpl. rewrite !cache_Get_Del.
      repeat case_decide; done. }
    destruct (role_Default r1); [|done]. by apply db_clear_default_inv. }
  destruct (db_UpdateRole r1 s1) as [[e|[]] s2]; [done|].
  destruct (role_Default r1); [|done]. by apply make_default_inv.
Qed.

Lemma DeleteRole_inv id : keeps role_inv (DeleteRole id).
Proof using Type*.
  intros s Hs. unfold DeleteRole, op_bind at 1, op_query.
  destruct (db_GetRole id s) as [e|old] eqn:Eo; [done|]. apply db_GetRole_row in Eo as [Eo _].
  destruct (_ || _); [done|]. unfold op_bind, roleCache_Del, op_modify. set (s1 := set_roleCache _ _).
  assert (role_inv s1) as Hs1 by (by do 2 apply role_inv_del).
  match goal with |- context [db_DeleteRole id ?x] => change x with s1 end.
  unfold db_DeleteRole, op_exec. destruct (DeleteRow _ _) as [e|t] eqn:E; [done|]. apply DeleteRow_ok in E.
  destruct Hs1 as [H1 H2]. split; simpl; rewrite E.
  - intros i r Hi Hc. destruct (H1 i r Hi Hc) as (r0&E0&Es). exists r0. split; [|done].
    rewrite lookup_delete_ne; [done|]. intros <-. revert Hc. subst s1. simpl. rewrite !cache_Get_Del.
    repeat case_decide; done.
  - intros i r [_ Hr]%lookup_delete_Some. by apply (H2 i).
Qed.
End roles.

(** ** Users *)

Section users.
Context `{HTR : !Table Role, HTU : !Table User, !TableLaws User, HCR : !Cache Role,
          HCU : !Cache User, !CacheLaws User}.
Context (salt : gostr) (now : Z).
Implicit Types s : acc.

Abbreviation defaults := (applyAdminDefaults false salt now).
Abbreviation enforce := (enforceAdminUserDefaults false salt now).

(** A cached user is its row, and an administrator has its defaults. *)
Definition user_ok (s : acc) (u : User) : Prop :=
  rows (users s) !! user_ID u = Some u ∧ (IsAdmin u = true → defaults u = (u, false)).

Definition user_inv (s : acc) : Prop :=
  ∀ name u, cache_Get (userCache s) name = Some u → Username u = name ∧ user_ok s u.

Lemma user_inv_same s s' : users s' = users s → userCache s' = userCache s → user_inv s → user_inv s'.
Proof using. intros E1 E2 H name u. unfold user_ok. rewrite E1, E2. apply H. Qed.

Lemma defaults_keep u : Username (defaults u).1 = Username u ∧ user_ID (defaults u).1 = user_ID u ∧
  IsAdmin (defaults u).1 = IsAdmin u.
Proof using.
  unfold applyAdminDefaults. destruct (negb _); destruct (negb _); done.
Qed.

Lemma defaults_fix u : defaults (defaults u).1 = ((defaults u).1, false) ∧
  ((defaults u).2 = false → (defaults u).1 = u).
Proof using.
  assert (bool_decide (FixAndCleanPath #"/" = #"/") = true) as E0 by reflexivity.
  unfold applyAdminDefaults.
  destruct (bool_decide (FixAndCleanPath (BasePath u) = _)) eqn:E1; cbn [negb];
    [destruct (Permission u =? all_permissions) eqn:E2
    |destruct (Permission (user_set_base _ u) =? all_permissions) eqn:E2];
    cbn [negb fst snd]; (split; [|done]); cbn [BasePath Permission user_set_base user_set];
    cbn [BasePath Permission user_set_base user_set] in E2; rewrite ?E0, ?E1;
    cbn [negb BasePath Permission user_set_base user_set]; rewrite ?E2, ?Z.eqb_refl; done.
Qed.

Lemma user_inv_del s k : user_inv s → user_inv (set_userCache (cache_Del (userCache s) k) s).
Proof using Type*. intros H name u. simpl. rewrite cache_Get_Del. case_decide; [done|]. apply H. Qed.

Lemma user_inv_set s u :
  user_inv s → user_ok s u → user_inv (set_userCache (cache_Set (userCache s) (Username u) u hour) s).
Proof using Type*.
  intros H Hu name u'. simpl. rewrite cache_Get_Set. case_decide as E; [|apply H]. subst name.
  intros [= <-]. done.
Qed.

(** Writing a row that is not cached. *)
Lemma user_inv_row s t id :
  user_inv s → (∀ i, i ≠ id → rows t !! i = rows (users s) !! i) →
  (∀ name u, cache_Get (userCache s) name = Some u → user_ID u ≠ id) → user_inv (set_users t s).
Proof using.
  intros H Ht Hnc name u Hc. simpl in Hc. destruct (H name u Hc) as [E [Hr Hd]]. split; [done|].
  split; [|done]. simpl. rewrite Ht by (by eapply Hnc). done.
Qed.

Lemma enforce_user s u :
  user_inv s → rows (users s) !! user_ID u = Some u →
  match enforce u s with
  | (u', e, s') =>
      user_inv s' ∧ roles s' = roles s ∧ roleCache s' = roleCache s ∧ userCache s' = userCache s ∧
      adminUser s' = adminUser s ∧
      Username u' = Username u ∧ (e = None → user_ok s' u')
  end.
Proof using Type*.
  intros Hs Hr. unfold enforceAdminUserDefaults. destruct (IsAdmin u) eqn:Ea; cbn [negb].
  2: { split_ands; try done. intros _. split; [done|]. congruence. }
  destruct (defaults_keep u) as (En&Ei&Eadm). destruct (defaults_fix u) as [Hfix Hsame].
  destruct (defaults u) as [u' changed] eqn:Ed. simpl in *. rewrite En, bool_decide_eq_true_2, andb_false_r by done.
  destruct changed; cbn [negb].
  2: { rewrite (Hsame eq_refl) in *. split_ands; try done. }
  unfold db_UpdateUser, op_exec. destruct (Save (users s) u') as [e|t] eqn:E; [split_ands; done|].
  apply Save_ok in E; [|simpl; rewrite Ei; by eexists]. simpl in E. split_ands; try done.
  - apply (user_inv_row s t (user_ID u)); [done| |].
    + intros i Hi. rewrite E, Ei. by apply lookup_insert_ne.
    + intros name c Hc Eid. destruct (Hs name c Hc) as [_ [Hrow Hd]]. rewrite Eid, Hr in Hrow.
      injection Hrow as <-. rewrite Ed in Hd. by specialize (Hd Ea).
  - intros _. split; [|done]. simpl. rewrite E. apply lookup_insert_eq.
Qed.

Lemma enforce_cached s u : (IsAdmin u = true → defaults u = (u, false)) → enforce u s = (u, None, s).
Proof using.
  intros Hd. unfold enforceAdminUserDefaults. destruct (IsAdmin u); [|done]. by rewrite Hd.
Qed.

Lemma GetUserByName_spec name s :
  user_inv s →
  user_inv (GetUserByName false salt now name s).2 ∧
  roles (GetUserByName false salt now name s).2 = roles s ∧
  roleCache (GetUserByName false salt now name s).2 = roleCache s ∧
  adminUser (GetUserByName false salt now name s).2 = adminUser s ∧
  ∀ u, (GetUserByName false salt now name s).1 = inr u →
    Username u = name ∧ user_ok (GetUserByName false salt now name s).2 u.
Proof using Type*.
  intros Hs. unfold GetUserByName. destruct (decide (name = [])) as [->|Hne]; [done|].
  rewrite bool_decide_eq_false_2 by done.
  destruct (cache_Get (userCache s) name) as [u|] eqn:Ec.
  - destruct (Hs name u Ec) as [En Hu]. rewrite enforce_cached by apply Hu.
    rewrite Ec, bool_decide_eq_false_2 by done. simpl. subst name. split_ands; [by apply user_inv_set|done..|].
    intros u1 [= <-]. done.
  - unfold db_GetUserByName, wrapped. rewrite bool_decide_eq_false_2 by done.
    destruct (FirstWhere _ _) as [e|u] eqn:Ef; [simpl; done|].
    apply FirstWhere_ok in Ef as [Hp [i Hi]]. simpl in Hp. reflect_bools.
    pose proof (rows_id _ _ _ Hi) as Eid. simpl in Eid. subst i.
    pose proof (enforce_user s u Hs Hi) as H. destruct (enforce u s) as [[u' [e|]] s1];
      destruct H as (H1&H2&H3&H4&H7&H5&H6); simpl; [split_ands; try done|].
    specialize (H6 eq_refl). rewrite <- Hp, <- H5. split_ands; [by apply user_inv_set|done..|].
    intros u1 [= <-]. done.
Qed.
End users.

(** ** Which part of the state a call touches *)

Section frames.
Context `{HTR : !Table Role, HTU : !Table User, HCR : !Cache Role, HCU : !Cache User}.
Implicit Types s : acc.

Definition leaves_users {A} (m : Op acc A) : Prop :=
  ∀ s, users (m s).2 = users s ∧ userCache (m s).2 = userCache s ∧ adminUser (m s).2 = adminUser s.

Lemma leaves_bind {A B} (m : Op acc A) (k : A → Op acc B) :
  leaves_users m → (∀ a, leaves_users (k a)) → leaves_users (op_bind m k).
Proof using.
  intros Hm Hk s. unfold op_bind. specialize (Hm s). destruct (m s) as [[e|a] s1]; simpl in *; [done|].
  destruct (Hk a s1) as (?&?&?), Hm as (?&?&?). split_ands; congruence.
Qed.

Lemma leaves_ret {A} (a : A) : leaves_users (op_ret a).
Proof using. by intros s. Qed.
Lemma leaves_fail {A} e : leaves_users (op_fail (A := A) e).
Proof using. by intros s. Qed.
Lemma leaves_query {A} (f : acc → result A) : leaves_users (op_query f).
Proof using. by intros s. Qed.

Lemma leaves_clear_default id : leaves_users (db_clear_default id).
Proof using. intros s. unfold db_clear_default, op_exec. by destruct (UpdateWhere _ _ _). Qed.

Lemma leaves_db_UpdateRole r : leaves_users (db_UpdateRole r).
Proof using.
  apply leaves_bind.
  - intros s. unfold op_exec. by destruct (Save _ _).
  - intros _. destruct (role_Default r); [apply leaves_clear_default|apply leaves_ret].
Qed.

Lemma leaves_enforce r : leaves_users (enforceAdminRoleDefaults r).
Proof using.
  unfold enforceAdminRoleDefaults. destruct (negb _); [apply leaves_ret|].
  assert (∀ r1, leaves_users (op_bind (db_UpdateRole r1) (λ _, op_ret r1))) as Hr.
  { intros r1. apply leaves_bind; [apply leaves_db_UpdateRole|intros _; apply leaves_ret]. }
  destruct (PermissionScopes r) as [|e [|]]; [apply Hr| |apply Hr].
  destruct (_ && _); [apply leaves_ret|apply Hr].
Qed.

Lemma leaves_load fetch keys : leaves_users (load_role fetch keys).
Proof using.
  apply leaves_bind; [apply leaves_query|]. intros r. apply leaves_bind; [apply leaves_enforce|]. intros r'.
  apply leaves_bind; [by intros s|]. intros _. apply leaves_bind; [by intros s|]. intros _. apply leaves_ret.
Qed.

Lemma leaves_GetRole id : leaves_users (op_GetRole id).
Proof using. intros s. unfold op_GetRole. destruct (cache_Get (roleCache s) _); [done|]. apply leaves_load. Qed.

Lemma leaves_GetRoleByName name : leaves_users (GetRoleByName name).
Proof using. intros s. unfold GetRoleByName. destruct (cache_Get (roleCache s) _); [done|]. apply leaves_load. Qed.

Lemma leaves_roles_of ids : leaves_users (roles_of ids).
Proof using.
  induction ids as [|rid ids IH]; [apply leaves_ret|]. apply leaves_bind.
  - intros s. cbn zeta. case_goal; [done|]. apply leaves_load.
  - intros r. apply leaves_bind; [done|]. intros l. apply leaves_ret.
Qed.

Lemma leaves_GetRolesByUserID id : leaves_users (GetRolesByUserID id).
Proof using. apply leaves_bind; [apply leaves_query|]. intros u. apply leaves_roles_of. Qed.

Lemma leaves_make_default save r : leaves_users (make_default save r).
Proof using.
  apply leaves_bind; [by intros s|]. intros _. apply leaves_bind; [apply leaves_query|]. intros _ s.
  unfold op_exec. by destruct (save _).
Qed.

Lemma leaves_CreateRole save r : leaves_users (CreateRole save r).
Proof using.
  apply leaves_bind; [by intros s|]. intros _. apply leaves_bind; [by intros s|]. intros _. apply leaves_bind.
  - apply leaves_bind; [intros s; by destruct (CreateRow _ _) as [|[??]]|]. intros r1.
    destruct (role_Default r1); [|apply leaves_ret].
    apply leaves_bind; [apply leaves_clear_default|]. intros _. apply leaves_ret.
  - intros r1. destruct (role_Default r1); [apply leaves_make_default|apply leaves_ret].
Qed.

Lemma leaves_UpdateRole save r : leaves_users (UpdateRole save r).
Proof using.
  apply leaves_bind; [apply leaves_query|]. intros old. destruct (bool_decide _); [apply leaves_fail|].
  apply leaves_bind; [by intros s|]. intros _. apply leaves_bind; [by intros s|]. intros _.
  apply leaves_bind; [apply leaves_db_UpdateRole|]. intros _.
  case_goal; [apply leaves_make_default|apply leaves_ret].
Qed.

Lemma leaves_DeleteRole id : leaves_users (DeleteRole id).
Proof using.
  apply leaves_bind; [apply leaves_query|]. intros old. destruct (_ || _); [apply leaves_fail|].
  apply leaves_bind; [by intros s|]. intros _. apply leaves_bind; [by intros s|]. intros _ s.
  unfold db_DeleteRole, op_exec. by destruct (DeleteRow _ _).
Qed.
End frames.

(** ** Every sequence of operations *)

Section reach.
Context `{HTR : !Table Role, !TableLaws Role, HTU : !Table User, !TableLaws User,
          HCR : !Cache Role, !CacheLaws Role, HCU : !Cache User, !CacheLaws User}.
Context (salt : gostr) (now : Z) (save : gostr → option error).
Implicit Types s : acc.

(** The variable [adminUser] holds a user with the administrator's defaults. *)
Definition admin_ok (s : acc) : Prop :=
  ∀ u, adminUser s = Some u → IsAdmin u = true → applyAdminDefaults false salt now u = (u, false).

Definition acc_inv (s : acc) : Prop := role_inv s ∧ user_inv salt now s ∧ admin_ok s.

Lemma role_op_inv {A} (m : Op acc A) : keeps role_inv m → leaves_users m → keeps acc_inv m.
Proof using Type*.
  intros Hk Hl s (Hr&Hu&Ha). destruct (Hl s) as (E1&E2&E3). unfold acc_inv; split_ands; [by apply Hk|by eapply user_inv_same|].
  intros u. rewrite E3. apply Ha.
Qed.

(** A call that only touches users. *)
Lemma user_op_inv s s' : roles s' = roles s → roleCache s' = roleCache s →
  adminUser s' = adminUser s ∨ adminUser s' = None →
  acc_inv s → user_inv salt now s' → acc_inv s'.
Proof using Type*.
  intros E1 E2 E3 (Hr&_&Ha) Hu. unfold acc_inv; split_ands; [by eapply role_inv_same|done|].
  intros u Eu. apply Ha. destruct E3; congruence.
Qed.

Lemma GetUserByName_inv name : keeps acc_inv (GetUserByName false salt now name).
Proof using Type*.
  intros s Hs. destruct (GetUserByName_spec salt now name s) as (H1&H2&H3&H4&_); [apply Hs|].
  eapply user_op_inv; [done|done|by left|done|done].
Qed.

Lemma db_GetUserByRole_row role s u :
  db_GetUserByRole role s = inr u → rows (users s) !! user_ID u = Some u.
Proof using Type*.
  unfold db_GetUserByRole. destruct (FindAll _) as [e|us] eqn:E; [done|].
  destruct (List.find _ us) as [u'|] eqn:Ef; [|done]. intros [= <-].
  apply List.find_some in Ef as [Hin _]. apply list_elem_of_In in Hin.
  apply (FindAll_ok _ _ _ E) in Hin as [i Hi]. by rewrite (rows_id _ _ _ Hi : user_ID u' = i).
Qed.

Lemma db_GetUserById_row id s u :
  db_GetUserById id s = inr u → rows (users s) !! id = Some u ∧ user_ID u = id.
Proof using Type*.
  unfold db_GetUserById, wrapped. destruct (First (users s) id) as [e|u'] eqn:E; [done|]. intros [= <-].
  apply First_ok in E. split; [done|]. by apply rows_id in E.
Qed.

Lemma modify_inv f :
  (∀ s, roles (f s) = roles s ∧ roleCache (f s) = roleCache s ∧ users (f s) = users s ∧
     userCache (f s) = userCache s ∧ (adminUser (f s) = adminUser s ∨ adminUser (f s) = None)) →
  keeps acc_inv (op_modify f).
Proof using Type*.
  intros Hf. apply keeps_modify. intros s Hs. destruct (Hf s) as (?&?&?&?&?).
  eapply user_op_inv; [done|done|done|done|]. eapply user_inv_same; [done|done|]. apply Hs.
Qed.

Lemma GetGuest_inv : keeps acc_inv GetGuest.
Proof using Type*.
  intros s Hs. unfold GetGuest. destruct (guestUser s) as [u|]; [done|].
  apply keeps_bind; [|intros role; apply keeps_bind|done].
  - apply role_op_inv; [apply GetRoleByName_inv|apply leaves_GetRoleByName].
  - apply keeps_query.
  - intros u. apply keeps_bind; [|intros _; apply keeps_ret]. apply modify_inv. intros s1. simpl. auto 6.
Qed.

Lemma GetAdmin_inv : keeps acc_inv (GetAdmin false salt now).
Proof using Type*.
  intros s Hs. unfold GetAdmin. destruct (adminUser s) as [u|] eqn:Ea.
  - rewrite enforce_cached by (intros; by apply Hs). simpl.
    replace (set_adminUser (Some u) s) with s; [done|]. destruct s. simpl in *. by subst.
  - apply keeps_bind; [|intros role s1 H1|done].
    + apply role_op_inv; [apply GetRoleByName_inv|apply leaves_GetRoleByName].
    + unfold op_bind, op_query. destruct (db_GetUserByRole _ s1) as [e|u] eqn:E; [done|].
      apply db_GetUserByRole_row in E.
      pose proof (enforce_user salt now s1 u (proj1 (proj2 H1)) E) as H.
      destruct (enforceAdminUserDefaults false salt now u s1) as [[u' [e|]] s2];
        destruct H as (G1&G2&G3&G4&G5&G6&G7); simpl.
      * eapply user_op_inv; [done|done|by left|done|done].
      * assert (acc_inv s2) as (K1&K2&K3) by (eapply user_op_inv; [done|done|by left|done|done]).
        unfold acc_inv; split_ands; [by apply (role_inv_same s2)|by apply (user_inv_same salt now s2)|].
        intros u1 [= <-]. by apply G7.
Qed.

(** Saving the row of a user that is not cached. *)
Lemma db_UpdateUser_inv u s :
  acc_inv s → is_Some (rows (users s) !! user_ID u) →
  (∀ name c, cache_Get (userCache s) name = Some c → user_ID c ≠ user_ID u) →
  acc_inv (db_UpdateUser u s).2.
Proof using Type*.
  intros Hs Hrow Hnc. unfold db_UpdateUser, op_exec.
  destruct (Save (users s) u) as [e|t] eqn:E; [done|]. apply Save_ok in E; [|done]. simpl in *.
  apply (user_op_inv s); [done|done|by left|done|].
  apply (user_inv_row salt now s t (user_ID u)); [apply Hs| |done].
  intros i Hi. rewrite E. by apply lookup_insert_ne.
Qed.

Lemma userCache_Del_inv k : keeps acc_inv (userCache_Del k).
Proof using Type*.
  apply keeps_modify. intros s Hs. apply (user_op_inv s); [done|done|by left|done|].
  apply user_inv_del. apply Hs.
Qed.

(** After the entry of a row is deleted, no cached user has its id. *)
Lemma del_uncached s id old :
  acc_inv s → rows (users s) !! id = Some old →
  ∀ name c, cache_Get (userCache (userCache_Del (Username old) s).2) name = Some c → user_ID c ≠ id.
Proof using Type*.
  intros (_&Hu&_) Hold name c. simpl. rewrite cache_Get_Del. case_decide as E; [done|].
  intros Hc Eid. destruct (Hu name c Hc) as [En [Hr _]]. rewrite Eid, Hold in Hr. congruence.
Qed.

Lemma UpdateUser_inv u : keeps acc_inv (UpdateUser false salt now u).
Proof using Type*.
  intros s Hs. unfold UpdateUser, op_bind at 1, op_query.
  destruct (db_GetUserById (user_ID u) s) as [e|old] eqn:Eo; [done|].
  apply db_GetUserById_row in Eo as [Eo _].
  set (u1 := user_set_base _ u). set (u2 := if IsAdmin u1 then _ else u1).
  assert (user_ID u2 = user_ID u) as Ei.
  { subst u2. destruct (IsAdmin u1); [|done]. by destruct (defaults_keep salt now u1) as (_&->&_). }
  set (s1 := if IsAdmin u then set_adminUser None s else s).
  set (s2 := if IsGuest u then set_guestUser None s1 else s1).
  assert (acc_inv s2 ∧ users s2 = users s) as [H2 E2].
  { assert (acc_inv s1 ∧ users s1 = users s) as [H1 E1].
    { subst s1. destruct (IsAdmin u); [|done]. split; [|done].
      by apply (modify_inv (set_adminUser None) ltac:(intros; simpl; auto 6) s). }
    subst s2. destruct (IsGuest u); [|done]. split; [|done].
    by apply (modify_inv (set_guestUser None) ltac:(intros; simpl; auto 6) s1). }
  assert (acc_inv (db_UpdateUser u2 (userCache_Del (Username old) s2).2).2) as H.
  { apply db_UpdateUser_inv; [by apply userCache_Del_inv|simpl; rewrite E2, Ei; by eexists|].
    rewrite Ei. apply (del_uncached s2); [done|by rewrite E2]. }
  revert H. subst s2 s1. unfold op_bind. destruct (IsAdmin u), (IsGuest u); done.
Qed.

Lemma DeleteUserById_inv id : keeps acc_inv (DeleteUserById id).
Proof using Type*.
  intros s Hs. unfold DeleteUserById, op_bind at 1, op_query.
  destruct (db_GetUserById id s) as [e|old] eqn:Eo; [done|]. apply db_GetUserById_row in Eo as [Eo _].
  destruct (_ || _); [done|]. unfold op_bind.
  pose proof (userCache_Del_inv (Username old) s Hs) as H1. pose proof (del_uncached s id old Hs Eo) as Hnc.
  set (s1 := (userCache_Del (Username old) s).2) in *.
  change (acc_inv (db_DeleteUserById id s1).2). unfold db_DeleteUserById, op_exec.
  destruct (DeleteRow _ _) as [e|t] eqn:E; [done|]. apply DeleteRow_ok in E. simpl.
  apply (user_op_inv s1); [done|done|by left|done|].
  apply (user_inv_row salt now s1 t id); [apply H1| |done].
  intros i Hi. rewrite E. by apply lookup_delete_ne.
Qed.

Lemma Cancel2FAById_inv id : keeps acc_inv (Cancel2FAById false salt now id).
Proof using Type*. apply keeps_bind; [apply keeps_query|]. intros u. apply UpdateUser_inv. Qed.

Lemma DelUserCache_inv name : keeps acc_inv (DelUserCache false salt now name).
Proof using Type*.
  apply keeps_bind; [apply GetUserByName_inv|]. intros u.
  apply keeps_bind; [destruct (IsAdmin u); [apply modify_inv; intros; simpl; auto 6|apply keeps_ret]|]. intros _.
  apply keeps_bind; [destruct (IsGuest u); [apply modify_inv; intros; simpl; auto 6|apply keeps_ret]|]. intros _.
  apply userCache_Del_inv.
Qed.

Lemma GetRolesByUserID_inv id : keeps acc_inv (GetRolesByUserID id).
Proof using Type*.
  apply role_op_inv; [|apply leaves_GetRolesByUserID].
  apply keeps_bind; [apply keeps_query|]. intros u. apply roles_of_inv.
Qed.

Lemma CreateUser_inv u : keeps acc_inv (CreateUser u).
Proof using Type*.
  intros s Hs. unfold CreateUser. set (u1 := user_set_base _ u). unfold op_bind, db_CreateUser.
  destruct (CreateRow (users s) u1) as [e|[t u2]] eqn:E; [done|].
  apply CreateRow_ok in E as (i&Eu2&Ei&Hi&E). simpl in Ei.
  assert (acc_inv (set_users t s)) as H1.
  { apply (user_op_inv s); [done|done|by left|done|]. apply (user_inv_row salt now s t i); [apply Hs| |].
    - intros j Hj. rewrite E. by apply lookup_insert_ne.
    - intros name c Hc Eid. destruct Hs as (_&Hu&_). destruct (Hu name c Hc) as [_ [Hr _]]. congruence. }
  pose proof (GetRolesByUserID_inv (user_ID u2) _ H1) as H2.
  pose proof (leaves_GetRolesByUserID (user_ID u2) (set_users t s)) as (F1&F2&_). simpl in F1, F2.
  destruct (GetRolesByUserID (user_ID u2) (set_users t s)) as [[e|rs] s2]; simpl in *; [done|].
  set (u3 := match first_scope rs with Some p => _ | None => u2 end).
  assert (user_ID u3 = i) as E3 by (subst u3; by destruct (first_scope rs)).
  apply userCache_Del_inv. apply db_UpdateUser_inv; [done| |]; rewrite E3.
  - rewrite F1, E, lookup_insert_eq. by eexists.
  - rewrite F2. intros name c Hc Eid. destruct Hs as (_&Hu&_). destruct (Hu name c Hc) as [_ [Hr _]]. congruence.
Qed.

(** The calls of package [op], one after the other, and expiring entries.
    Role names are not written like numbers. *)
Inductive acc_step : acc → acc → Prop :=
  | as_GetRole s id : 0 ≤ id ≤ max_uint64 → acc_step s (op_GetRole id s).2
  | as_GetRoleByName s name : acc_step s (GetRoleByName name s).2
  | as_GetRolesByUserID s id : acc_step s (GetRolesByUserID id s).2
  | as_CreateRole s r : ¬ numeric (role_Name r) → acc_step s (CreateRole save r s).2
  | as_UpdateRole s r : ¬ numeric (role_Name r) → acc_step s (UpdateRole save r s).2
  | as_DeleteRole s id : acc_step s (DeleteRole id s).2
  | as_GetAdmin s : acc_step s (GetAdmin false salt now s).2
  | as_GetGuest s : acc_step s (GetGuest s).2
  | as_GetUserByName s name : acc_step s (GetUserByName false salt now name s).2
  | as_CreateUser s u : acc_step s (CreateUser u s).2
  | as_UpdateUser s u : acc_step s (UpdateUser false salt now u s).2
  | as_DeleteUserById s id : acc_step s (DeleteUserById id s).2
  | as_Cancel2FAById s id : acc_step s (Cancel2FAById false salt now id s).2
  | as_DelUserCache s name : acc_step s (DelUserCache false salt now name s).2
  | as_expire s cr cu : expired (roleCache s) cr → expired (userCache s) cu →
      acc_step s (set_userCache cu (set_roleCache cr s)).

Lemma acc_step_inv s s' : acc_inv s → acc_step s s' → acc_inv s'.
Proof using Type*.
  intros Hs. destruct 1 as [s id Hid|s name|s id|s r Hn|s r Hn|s id|s|s|s name|s u|s u|s id|s id|s name|s cr cu Hr Hu].
  - apply role_op_inv; [|apply leaves_GetRole|done]. intros s1 H1. by apply op_GetRole_spec.
  - apply role_op_inv; [apply GetRoleByName_inv|apply leaves_GetRoleByName|done].
  - by apply GetRolesByUserID_inv.
  - apply role_op_inv; [by apply CreateRole_inv|apply leaves_CreateRole|done].
  - apply role_op_inv; [by apply UpdateRole_inv|apply leaves_UpdateRole|done].
  - apply role_op_inv; [apply DeleteRole_inv|apply leaves_DeleteRole|done].
  - by apply GetAdmin_inv.
  - by apply GetGuest_inv.
  - by apply GetUserByName_inv.
  - by apply CreateUser_inv.
  - by apply UpdateUser_inv.
  - by apply DeleteUserById_inv.
  - by apply Cancel2FAById_inv.
  - by apply DelUserCache_inv.
  - destruct Hs as ([R1 R2]&U&A). unfold acc_inv. split_ands; [split; [|done]| |done]; simpl.
    + intros id r Hid. destruct (Hr (FormatUint id)) as [->| ->]; [done|]. by apply R1.
    + intros name u. simpl. destruct (Hu name) as [->| ->]; [done|]. apply U.
Qed.

(** Empty caches over tables whose role names are not numbers. *)
Definition acc_start (s : acc) : Prop :=
  (∀ k, cache_Get (roleCache s) k = None) ∧ (∀ k, cache_Get (userCache s) k = None) ∧
  adminUser s = None ∧ ∀ i r, rows (roles s) !! i = Some r → ¬ numeric (role_Name r).

Lemma reach_inv s0 s : acc_start s0 → rtc acc_step s0 s → acc_inv s.
Proof using Type*.
  intros (H1&H2&H3&H4). apply (rtc_ind_r acc_inv).
  - unfold acc_inv. split_ands; [split; [|done]| |].
    + intros id r _. by rewrite H1.
    + intros name u. by rewrite H2.
    + intros u. by rewrite H3.
  - intros x z _ Hstep Hx. by eapply acc_step_inv.
Qed.
End reach.

(** ** Permissions through the cache *)

(** Two role stores with the same rights. *)
Definition same_store (S1 S2 : RoleStore) : Prop :=
  ∀ id, 0 ≤ id ≤ max_uint64 →
    match S1 id, S2 id with
    | inr r1, inr r2 => PermissionScopes r1 = PermissionScopes r2
    | inl _, inl _ => True
    | _, _ => False
    end.

Lemma merge_same S1 S2 all req rids p :
  same_store S1 S2 → merge_roles (RS := S1) all req rids p = merge_roles (RS := S2) all req rids p.
Proof.
  intros H. revert p. induction rids as [|rid rids IH]; intros p; simpl; [done|].
  specialize (H (wrapu64 rid) (wrapu64_ok rid)). unfold GetRole.
  destruct (S1 (wrapu64 rid)), (S2 (wrapu64 rid)); try done. rewrite H. apply IH.
Qed.

Lemma any_same S1 S2 test rids :
  same_store S1 S2 → any_entry (RS := S1) test rids = any_entry (RS := S2) test rids.
Proof.
  intros H. induction rids as [|rid rids IH]; simpl; [done|].
  specialize (H (wrapu64 rid) (wrapu64_ok rid)). unfold GetRole.
  destruct (S1 (wrapu64 rid)), (S2 (wrapu64 rid)); try done. rewrite H, IH. done.
Qed.

Section transparent.
Context `{HTR : !Table Role, !TableLaws Role, !TableUp Role, HTU : !Table User, !TableLaws User,
          HCR : !Cache Role, !CacheLaws Role, HCU : !Cache User, !CacheLaws User}.

(** [op.GetRole] at a state, as the interface the permission checks use, and
    the roles of the table with the administrator's defaults. *)
Definition cached_roles (s : acc) : RoleStore := λ id, (op_GetRole id s).1.
Definition stored_roles (s : acc) : RoleStore := λ id,
  match rows (roles s) !! id with
  | Some r => inr (role_set_scopes (effective r) r)
  | None => inl not_found
  end.

Lemma db_UpdateRole_up r r0 s :
  rows (roles s) !! role_ID r = Some r0 → role_Name r = role_Name r0 → (db_UpdateRole r s).1 = inr ().
Proof using Type*.
  intros E En. unfold db_UpdateRole, op_bind, op_exec.
  destruct (Save_up (roles s) r r0 E En) as [t ->]. destruct (role_Default r); [|done].
  unfold db_clear_default, op_exec.
  by destruct (UpdateWhere_up (roles (set_roles t s)) (λ r1, negb (role_ID r1 =? role_ID r)) (role_set_default false)) as [t' ->].
Qed.

Lemma enforce_up r s : rows (roles s) !! role_ID r = Some r → ∃ r', (enforceAdminRoleDefaults r s).1 = inr r'.
Proof using Type*.
  intros E. unfold enforceAdminRoleDefaults. destruct (negb _); [by eexists|].
  set (r1 := role_set_scopes _ r).
  assert (∃ r', (op_bind (db_UpdateRole r1) (λ _, op_ret r1) s).1 = inr r') as Hreset.
  { unfold op_bind. pose proof (db_UpdateRole_up r1 r s E eq_refl) as H.
    destruct (db_UpdateRole r1 s) as [[|] s1]; [done|]. by eexists. }
  destruct (PermissionScopes r) as [|e [|]]; [done| |done]. destruct (_ && _); [by eexists|done].
Qed.

Lemma op_GetRole_up id r s : rows (roles s) !! id = Some r → ∃ r', (op_GetRole id s).1 = inr r'.
Proof using Type*.
  intros E. unfold op_GetRole. destruct (cache_Get _ _); [by eexists|].
  unfold load_role, op_bind, op_query, db_GetRole, wrapped. rewrite (First_up _ _ _ E).
  pose proof (rows_id _ _ _ E) as Ei. simpl in Ei.
  destruct (enforce_up r s) as [r' H]; [by rewrite Ei|].
  destruct (enforceAdminRoleDefaults r s) as [[|r1] s1]; [done|]. by eexists.
Qed.

Lemma cached_stored s : role_inv s → same_store (cached_roles s) (stored_roles s).
Proof using Type*.
  intros Hs id Hid. unfold cached_roles, stored_roles.
  destruct (op_GetRole_spec id s Hid Hs) as [_ Hspec].
  destruct (rows (roles s) !! id) as [r0|] eqn:E.
  - destruct (op_GetRole_up id r0 s E) as [r Er]. rewrite Er.
    destruct (Hspec r Er) as (r1&E1&Es). assert (r1 = r0) as -> by congruence. done.
  - destruct ((op_GetRole id s).1) as [e|r]; [done|]. destruct (Hspec r eq_refl) as (r1&E1&_). congruence.
Qed.
End transparent.

(** After any sequence of role and user operations, the permissions and
    the readability of a path computed through the role cache are those of the
    rows now in the role table (with the administrator's role always granted
    everything), provided the database answers and role names are not written
    like numbers. *)
Theorem role_cache_transparent
    `{HTR : !Table Role, !TableLaws Role, !TableUp Role, HTU : !Table User, !TableLaws User,
      HCR : !Cache Role, !CacheLaws Role, HCU : !Cache User, !CacheLaws User}
    salt now save (s0 s : acc) u path :
  acc_start s0 → rtc (acc_step salt now save) s0 s →
  MergeRolePermissions (RS := cached_roles s) u path = MergeRolePermissions (RS := stored_roles s) u path ∧
  CanReadPathByRole (RS := cached_roles s) u path = CanReadPathByRole (RS := stored_roles s) u path.
Proof.
  intros H0 Hr. destruct (reach_inv salt now save s0 s H0 Hr) as [Hi _].
  pose proof (cached_stored s Hi) as Hsame. destruct u as [u|]; [|done].
  unfold MergeRolePermissions, CanReadPathByRole. split; [by apply merge_same|].
  case_goal; [done|]. by apply any_same.
Qed.

(** After any sequence of role and user operations, a user that
    [GetUserByName] returns has the requested name and is the row now in the
    user table: a changed password, role or disabled flag is seen at once. *)
Theorem user_cache_current
    `{HTR : !Table Role, !TableLaws Role, HTU : !Table User, !TableLaws User,
      HCR : !Cache Role, !CacheLaws Role, HCU : !Cache User, !CacheLaws User}
    salt now save (s0 s s' : acc) name u :
  acc_start s0 → rtc (acc_step salt now save) s0 s →
  GetUserByName false salt now name s = (inr u, s') →
  Username u = name ∧ rows (users s') !! user_ID u = Some u.
Proof.
  intros H0 Hr E. destruct (reach_inv salt now save s0 s H0 Hr) as (_&Hu&_).
  destruct (GetUserByName_spec salt now name s Hu) as (_&_&_&_&H). rewrite E in H.
  destruct (H u eq_refl) as [? [? _]]. done.
Qed.

(** ** Runs over finite maps *)

Module AccMaps.
#[export] Existing Instance map_Cache.
#[export] Existing Instance map_CacheLaws.
#[export] Instance role_table : Table Role := map_Table Role.
#[export] Instance role_laws : TableLaws Role := map_TableLaws Role (λ _ _, eq_refl).
#[export] Instance role_up : TableUp Role := map_TableUp Role (λ _ _, eq_refl).
#[export] Instance user_table : Table User := map_Table User.
#[export] Instance user_laws : TableLaws User := map_TableLaws User (λ _ _, eq_refl).

Definition mk_role (id : Z) (name path : gostr) (perm : Z) : Role :=
  {| role_ID := id; role_Name := name; role_Description := []; role_Default := false;
     PermissionScopes := [{| pe_Path := path; pe_Permission := perm |}] |}.

Definition mk_user (id : Z) (name : gostr) (rids : Roles) : User :=
  {| user_ID := id; Username := name; PwdHash := []; PwdTS := 0; Salt := []; Password := [];
     BasePath := #"/"; user_Role := rids; Disabled := false; Permission := all_permissions; OtpSecret := [];
     SsoID := []; Authn := [] |}.

Definition role_rows : gmap Z Role :=
  list_to_map [(1, mk_role 1 #"guest" #"/" 0); (2, mk_role 2 #"admin" #"/" 65535);
               (3, mk_role 3 #"ops" #"/pub" 8); (4, mk_role 4 #"2" #"/junk" 1)].
Definition user_rows : gmap Z User :=
  list_to_map [(1, mk_user 1 #"alice" [2]); (2, mk_user 2 #"bob" [3])].

Definition roles0 : table Role.
Proof. refine (delete 4 role_rows ↾ _). decide_now. Defined.
Definition roles1 : table Role.
Proof. refine (role_rows ↾ _). decide_now. Defined.
Definition users0 : table User.
Proof. refine (user_rows ↾ _). decide_now. Defined.

Definition state_of (t : table Role) : acc :=
  {| roles := t; users := users0; roleCache := (∅ : gmap gostr Role); userCache := (∅ : gmap gostr User);
     adminUser := None; guestUser := None; DefaultRole := inr [] |}.

Definition state0 : acc := state_of roles0.

Lemma state0_start : acc_start state0.
Proof.
  unfold acc_start. split_ands; [intros k; apply lookup_empty|intros k; apply lookup_empty|done|].
  assert (map_Forall (λ _ r, existsb is_digit (take 1 (role_Name r)) = false) (rows (roles state0))) as H.
  { simpl. decide_now. }
  intros i r Hr (id&Hid&E). specialize (H i r Hr). simpl in H.
  destruct (FormatUint_head id) as (c&t&E'&Hd); [lia|]. rewrite E, E' in H. simpl in H. by rewrite Hd in H.
Qed.

(** The role is cached, then narrowed, and the user's role is loaded again. *)
Definition narrowed : Role := mk_role 3 #"ops" #"pub/docs/" 8.
Definition run_end : acc :=
  (GetUserByName false [] 0 #"bob"
    (UpdateRole (λ _, None) narrowed (op_GetRole 3 state0).2).2).2.

Lemma acc_run_reachable : rtc (acc_step [] 0 (λ _, None)) state0 run_end.
Proof.
  eapply rtc_l; [apply (as_GetRole _ _ _ _ 3); unfold_int64; lia|].
  eapply rtc_l; [apply (as_UpdateRole _ _ _ _ narrowed)|].
  - intros (id&Hid&E). destruct (FormatUint_head id) as (c&t&E'&Hd); [lia|]. rewrite E' in E.
    by injection E as <- _.
  - eapply rtc_l; [apply (as_GetUserByName _ _ _ _ #"bob")|]. apply rtc_refl.
Qed.
End AccMaps.
Import AccMaps.

(** ** Where the caches do go stale *)

(** Three cases in which a cache shows a row that is gone.  Renaming a role
    drops the cached entry of the new name, not of the old one, so the old
    name still finds the role although no row has it.  Ids and names of roles
    share one cache, so a role named like the id of another one takes its
    place once it was looked up by name.  And [UpdateUser] forgets the cached
    administrator only when the new row is an administrator, so after a
    demotion [GetAdmin] still returns the old row. *)
Theorem account_caches_go_stale :
  (let s1 := (GetRoleByName #"ops" state0).2 in
   let s2 := (UpdateRole (λ _, None) (mk_role 3 #"dev" #"/" 0) s1).2 in
   (GetRoleByName #"ops" s2).1 = inr (mk_role 3 #"ops" #"/pub" 8) ∧
   db_GetRoleByName #"ops" s2 = inl (EWithMessage not_found #"failed get role")) ∧
  (let s1 := (GetRoleByName #"2" (state_of roles1)).2 in
   (op_GetRole 2 (state_of roles1)).1 = inr (mk_role 2 #"admin" #"/" 65535) ∧
   (op_GetRole 2 s1).1 = inr (mk_role 4 #"2" #"/junk" 1)) ∧
  (let s1 := (GetAdmin false [] 0 state0).2 in
   let s2 := (UpdateUser false [] 0 (mk_user 1 #"alice" [3]) s1).2 in
   (GetAdmin false [] 0 s2).1 = inr (mk_user 1 #"alice" [2]) ∧
   (GetUserById 1 s2).1 = inr (mk_user 1 #"alice" [3])).
Proof. split_ands; vm_compute; split_ands; reflexivity. Qed.
