(* ===== verification/Storage.v ===== *)
(** * Mounted storages: [internal/op/storage.go] and [internal/op/path.go]

    The storages of the database and the drivers mounted in memory; a path of
    the virtual tree is resolved to the mounted storage with the longest mount
    path, in rotation when several are mounted for balance.  The drivers
    themselves are the interface [Drivers]. *)

From S2P Require Import Prelude GoStrings Errs Store Paths Users Accounts.

Local Open Scope Z_scope.

(** ** Data *)

Record Sort := { OrderBy : gostr; OrderDirection : gostr; ExtractFolder : gostr }.

Record Proxy := {
  WebProxy : bool;
  WebdavPolicy : gostr;
  ProxyRange : bool;
  DownProxyUrl : gostr;
  DownProxySign : bool;
}.

Record Storage := {
  st_ID : Z;
  MountPath : gostr;
  st_Order : Z;
  st_Driver : gostr;
  CacheExpiration : Z;
  st_Status : gostr;
  Addition : gostr;
  Remark : gostr;
  Modified : Z;
  st_Disabled : bool;
  DisableIndex : bool;
  EnableSign : bool;
  st_Sort : Sort;
  st_Proxy : Proxy;
}.

(** The fields the operations assign. *)
Definition st_set (id : Z) (mount status addition : gostr) (modified : Z) (disabled : bool) (s : Storage) : Storage :=
  {| st_ID := id; MountPath := mount; st_Order := st_Order s; st_Driver := st_Driver s;
     CacheExpiration := CacheExpiration s; st_Status := status; Addition := addition; Remark := Remark s;
     Modified := modified; st_Disabled := disabled; DisableIndex := DisableIndex s; EnableSign := EnableSign s;
     st_Sort := st_Sort s; st_Proxy := st_Proxy s |}.
Definition SetStatus (v : gostr) (s : Storage) : Storage :=
  st_set (st_ID s) (MountPath s) v (Addition s) (Modified s) (st_Disabled s) s.
Definition set_Addition (v : gostr) (s : Storage) : Storage :=
  st_set (st_ID s) (MountPath s) (st_Status s) v (Modified s) (st_Disabled s) s.
Definition set_MountPath (v : gostr) (s : Storage) : Storage :=
  st_set (st_ID s) v (st_Status s) (Addition s) (Modified s) (st_Disabled s) s.
Definition set_Modified (v : Z) (s : Storage) : Storage :=
  st_set (st_ID s) (MountPath s) (st_Status s) (Addition s) v (st_Disabled s) s.
Definition set_Disabled (v : bool) (s : Storage) : Storage :=
  st_set (st_ID s) (MountPath s) (st_Status s) (Addition s) (Modified s) v s.

#[export] Instance Storage_Row : Row Storage := {|
  row_id := st_ID;
  with_id i s := st_set i (MountPath s) (st_Status s) (Addition s) (Modified s) (st_Disabled s) s;
  row_key := MountPath;
|}.

Definition Webdav302 (p : Proxy) : bool := bool_decide (WebdavPolicy p = #"302_redirect").
Definition WebdavProxy (p : Proxy) : bool := bool_decide (WebdavPolicy p = #"use_proxy_url").
Definition WebdavNative (p : Proxy) : bool := negb (Webdav302 p) && negb (WebdavProxy p).

Definition WORK : gostr := #"work".
Definition DISABLED : gostr := #"disabled".

(** A driver: its own state and the storage it embeds. *)
Record driver (D : Type) := mkDriver { d_val : D; GetStorage : Storage }.
Arguments mkDriver {D} _ _.
Arguments d_val {D} _.
Arguments GetStorage {D} _.

(** What the registered drivers do: [None] for a driver that takes no
    reference, [Panic] for an initialisation that panics. *)
Class Drivers := {
  drv : Type;
  GetDriver : gostr → result drv;
  UnmarshalAddition : gostr → drv → result drv;
  MarshalAddition : drv → result gostr;
  InitReference : drv → option (driver drv → result drv);
  Config_Name : drv → gostr;
  Init : driver drv → outcome (option error * driver drv);
  DropDriver : driver drv → option error * driver drv;
}.

(** ** Byte order of strings *)

Fixpoint str_leb (a b : gostr) : bool :=
  match a, b with
  | [], _ => true
  | _ :: _, [] => false
  | x :: a', y :: b' =>
      if byte_val x <? byte_val y then true
      else if byte_val y <? byte_val x then false else str_leb a' b'
  end.

Definition str_le (a b : gostr) : Prop := str_leb a b = true.

#[export] Instance str_le_dec a b : Decision (str_le a b).
Proof. unfold str_le. apply _. Defined.

(** ** Looking storages up *)

(** The drivers in memory by mount path, and the rotation counters by virtual
    path. *)
Abbreviation mounts := (gmap gostr (driver drv)).
Abbreviation balances := (gmap gostr Z).

Section lookup.
Context {DR : Drivers}.

Definition HasStorage (mountPath : gostr) (m : mounts) : bool :=
  bool_decide (is_Some (m !! FixAndCleanPath mountPath)).

Definition GetStorageByMountPath (mountPath : gostr) (m : mounts) : result (driver drv) :=
  let mountPath := FixAndCleanPath mountPath in
  match m !! mountPath with
  | Some d => inr d
  | None => inl (EMessage (#"no mount path for an storage is: " ++ mountPath))
  end.

Definition firstPathSegment (p : gostr) : gostr :=
  let p := TrimPrefix (FixAndCleanPath p) #"/" in
  if bool_decide (p = []) then []
  else let i := Index p #"/" in if 0 <=? i then slice_to p i else p.

(** One step of the [Range] loop of [getStoragesByPath]: the best storages so
    far and their number of slashes. *)
Definition longest_step (path : gostr) (acc : list (driver drv) * Z) (e : gostr * driver drv)
    : list (driver drv) * Z :=
  let '(storages, curSlashCount) := acc in
  let mountPath := GetActualMountPath (fst e) in
  if IsSubPath mountPath path then
    let slashCount := Z.of_nat (CountByte (PathAddSeparatorSuffix mountPath) "/") in
    let '(storages, curSlashCount) :=
      if curSlashCount <? slashCount then ([], slashCount) else (storages, curSlashCount) in
    if slashCount =? curSlashCount then (storages ++ [snd e], curSlashCount)
    else (storages, curSlashCount)
  else acc.

Definition by_mount (a b : driver drv) : Prop :=
  str_le (MountPath (GetStorage a)) (MountPath (GetStorage b)).

#[export] Instance by_mount_dec a b : Decision (by_mount a b).
Proof. unfold by_mount. apply _. Defined.

(** The order of the [Range] is the map's; the result is sorted. *)
Definition getStoragesByPath (path : gostr) (m : mounts) : list (driver drv) :=
  merge_sort by_mount (fst (foldl (longest_step path) ([], 0) (map_to_list m))).

(** Sorted by [Order] and then by mount path. *)
Definition by_order (a b : driver drv) : Prop :=
  st_Order (GetStorage a) < st_Order (GetStorage b) ∨
  (st_Order (GetStorage a) = st_Order (GetStorage b) ∧ by_mount a b).

#[export] Instance by_order_dec a b : Decision (by_order a b).
Proof. unfold by_order. apply _. Defined.

Record VirtualFile := { vf_Name : gostr; vf_Modified : Z }.

(** The first component of what follows the prefix. *)
Definition virtual_name (prefix mountPath : gostr) : gostr :=
  hd [] (Split "/" (TrimPrefix (slice_from mountPath (Z.of_nat (length prefix))) #"/")).

Fixpoint virtual_files (prefix : gostr) (seen : gset gostr) (ds : list (driver drv)) : list VirtualFile :=
  match ds with
  | [] => []
  | d :: ds' =>
      let mountPath := GetActualMountPath (MountPath (GetStorage d)) in
      if (length mountPath <=? length prefix)%nat || negb (IsSubPath prefix mountPath)
      then virtual_files prefix seen ds'
      else
        let name := virtual_name prefix mountPath in
        if bool_decide (name ∈ seen) then virtual_files prefix seen ds'
        else {| vf_Name := name; vf_Modified := Modified (GetStorage d) |}
             :: virtual_files prefix ({[name]} ∪ seen) ds'
  end.

Definition GetStorageVirtualFilesByPath (prefix : gostr) (m : mounts) : list VirtualFile :=
  virtual_files (FixAndCleanPath prefix) ∅ (merge_sort by_order (map_to_list m).*2).

Definition GetBalancedStorage (path : gostr) (m : mounts) (b : balances)
    : option (driver drv) * balances :=
  let path := FixAndCleanPath path in
  let storages := getStoragesByPath path m in
  match storages with
  | [] => (None, b)
  | [d] => (Some d, b)
  | d :: _ =>
      let virtualPath := GetActualMountPath (MountPath (GetStorage d)) in
      let i := default 0 (b !! virtualPath) in
      let i := Z.rem (i + 1) (Z.of_nat (length storages)) in
      (storages !! Z.to_nat i, <[virtualPath := i]> b)
  end.

Definition GetStorageAndActualPath (rawPath : gostr) (m : mounts) (b : balances)
    : result (driver drv * gostr) * balances :=
  let rawPath := FixAndCleanPath rawPath in
  match GetBalancedStorage rawPath m b with
  | (None, b) =>
      (inl (NewErr StorageNotFound
              (if bool_decide (rawPath = #"/") then #"please add a storage first"
               else #"rawPath: " ++ rawPath)), b)
  | (Some d, b) =>
      let mountPath := GetActualMountPath (MountPath (GetStorage d)) in
      (inr (d, FixAndCleanPath (TrimPrefix rawPath mountPath)), b)
  end.
End lookup.

(** ** Mounting and unmounting *)

Section mounting.
Context {DR : Drivers}.
Context `{!Table Storage, !Table Role, !Table User, !Cache Role, !Cache User}.

(** The storage table, the mounted drivers, the rotation, and the accounts,
    whose role scopes follow a renamed mount path. *)
Record store := {
  storages : table Storage;
  storagesMap : mounts;
  balanceMap : balances;
  accounts : acc;
}.

Definition set_storages t (s : store) : store :=
  {| storages := t; storagesMap := storagesMap s; balanceMap := balanceMap s; accounts := accounts s |}.
Definition set_storagesMap m (s : store) : store :=
  {| storages := storages s; storagesMap := m; balanceMap := balanceMap s; accounts := accounts s |}.
Definition set_accounts a (s : store) : store :=
  {| storages := storages s; storagesMap := storagesMap s; balanceMap := balanceMap s; accounts := a |}.

Definition on_accounts {A} (m : Op acc A) : Op store A :=
  λ s, let '(r, a) := m (accounts s) in (r, set_accounts a s).

Definition with_message {A} (msg : gostr) (m : Op store A) : Op store A :=
  λ s, match m s with
       | (inl e, s') => (inl (EWithMessage e msg), s')
       | r => r
       end.

(** *** Package [db] *)

Definition db_CreateStorage (st : Storage) : Op store Storage :=
  λ s, match CreateRow (storages s) st with
       | inl e => (inl (EWithMessage e []), s)
       | inr (t, st') => (inr st', set_storages t s)
       end.

Definition db_UpdateStorage (st : Storage) : Op store unit :=
  op_exec (λ s,
    match Save (storages s) st with
    | inl e => inl (EWithMessage e [])
    | inr t => inr (set_storages t s)
    end).

Definition db_DeleteStorageById (id : Z) : Op store unit :=
  op_exec (λ s,
    match DeleteRow (storages s) id with
    | inl e => inl (EWithMessage e [])
    | inr t => inr (set_storages t s)
    end).

(** A zero primary key is no condition. *)
Definition db_GetStorageById (id : Z) (s : store) : result Storage :=
  wrapped (if id =? 0 then FirstWhere (storages s) (λ _, true) else First (storages s) id) [].

(** [UpdateRolePermissionsPathPrefix]: the scope after the rename, and whether
    it changed. *)
Definition move_scope (oldPath newPath : gostr) (e : PermissionEntry) : PermissionEntry * bool :=
  let entryPath := Clean (pe_Path e) in
  let oldPathClean := Clean oldPath in
  if bool_decide (entryPath = oldPathClean)
  then ({| pe_Path := newPath; pe_Permission := pe_Permission e |}, true)
  else if HasPrefix entryPath (oldPathClean ++ #"/")
  then ({| pe_Path := newPath ++ slice_from entryPath (Z.of_nat (length oldPathClean));
           pe_Permission := pe_Permission e |}, true)
  else (e, false).

Fixpoint move_roles (oldPath newPath : gostr) (rs : list Role) (modified : list Z) : Op acc (list Z) :=
  match rs with
  | [] => op_ret modified
  | role :: rs' =>
      if bool_decide (role_Name role = #"admin") || bool_decide (role_Name role = #"guest")
      then move_roles oldPath newPath rs' modified
      else
        let moved := move_scope oldPath newPath <$> PermissionScopes role in
        if existsb snd moved then
          let* _ := (λ s, match db_UpdateRole (role_set_scopes moved.*1 role) s with
                          | (inl e, s') => (inl (EWithMessage e #"failed to update role ID "), s')
                          | r => r
                          end) in
          move_roles oldPath newPath rs' (modified ++ [role_ID role])
        else move_roles oldPath newPath rs' modified
  end.

Definition UpdateRolePermissionsPathPrefix (oldPath newPath : gostr) : Op acc (list Z) :=
  let* rs := op_query (λ s, wrapped (FindAll (roles s)) #"failed to load roles") in
  move_roles oldPath newPath rs [].

(** *** Package [op] *)

(** [saveDriverStorage]: the driver's storage gets the new addition even when
    the write fails; [MustSaveDriverStorage] only logs the error. *)
Definition saveDriverStorage (d : driver drv) (s : store) : driver drv * result unit * store :=
  match MarshalAddition (d_val d) with
  | inl e => (d, inl (EWithMessage e #"error while marshal addition"), s)
  | inr str =>
      let d := mkDriver (d_val d) (set_Addition str (GetStorage d)) in
      match db_UpdateStorage (GetStorage d) s with
      | (inl e, s) => (d, inl (EWithMessage e #"failed update storage in database"), s)
      | (inr _, s) => (d, inr (), s)
      end
  end.

Definition MustSaveDriverStorage (d : driver drv) (s : store) : driver drv * store :=
  let '(d, _, s) := saveDriverStorage d s in (d, s).

(** The mount path after [ref:] in the remark, up to the end of the line. *)
Definition ref_mount_path (remark : gostr) : gostr :=
  let i := Index remark ["010"%char] in
  if 0 <? i then slice remark 4 i else slice_from remark 4.

(** The reference step of [initStorage]. *)
Definition init_reference (d : driver drv) (m : mounts) : result (driver drv) :=
  match InitReference (d_val d) with
  | None => inr d
  | Some init =>
      if HasPrefix (Remark (GetStorage d)) #"ref:/" then
        match GetStorageByMountPath (ref_mount_path (Remark (GetStorage d))) m with
        | inl e => inl (EFmtWrap e #"ref: ")
        | inr ref =>
            match init ref with
            | inl e =>
                if IsNotSupportError e
                then inl (EMessage (#"ref: storage is not " ++ Config_Name (d_val d)))
                else inl e
            | inr v => inr (mkDriver v (GetStorage d))
            end
        end
      else inr d
  end.

(** The message of an error; [panic_info] is the status after a panic. *)
Context (err_msg : error → gostr) (panic_info : gostr).

(** [initStorage]: the driver is mounted in every case, with its status in
    the storage.  When [Init] panics the named result is still nil. *)
Definition initStorage (st : Storage) (v : drv) : Op store unit :=
  λ s,
  let d := mkDriver v st in
  let mounted d s := set_storagesMap (<[MountPath (GetStorage d) := d]> (storagesMap s)) s in
  let finish d (e : option error) s :=
    let status := match e with Some e => err_msg e | None => WORK end in
    let d := mkDriver (d_val d) (SetStatus status (GetStorage d)) in
    let '(d, s) := MustSaveDriverStorage d s in
    (match e with Some e => inl (EWithMessage e #"failed init storage") | None => inr () end, mounted d s) in
  match UnmarshalAddition (Addition st) v with
  | inl e => finish d (Some e) s
  | inr v =>
      match init_reference (mkDriver v st) (storagesMap s) with
      | inl e => finish (mkDriver v st) (Some e) s
      | inr d =>
          match Init d with
          | Panic =>
              let d := mkDriver (d_val d) (SetStatus panic_info (GetStorage d)) in
              let '(d, s) := MustSaveDriverStorage d s in (inr (), mounted d s)
          | Ret (e, d) => finish d e s
          end
      end
  end.

(** [now] is the time of the call. *)
Context (now : Z).

Definition CreateStorage (st : Storage) : Op store Z :=
  let st := set_MountPath (FixAndCleanPath (MountPath st)) (set_Modified now st) in
  let* v := with_message #"failed get driver new" (op_query (λ _, GetDriver (st_Driver st))) in
  let* st := with_message #"failed create storage in database" (db_CreateStorage st) in
  let* _ := with_message #"failed init storage but storage is already created" (initStorage st v) in
  op_ret (st_ID st).

Definition LoadStorage (st : Storage) : Op store unit :=
  let st := set_MountPath (FixAndCleanPath (MountPath st)) st in
  let* v := with_message #"failed get driver new" (op_query (λ _, GetDriver (st_Driver st))) in
  initStorage st v.

Definition EnableStorage (id : Z) : Op store unit :=
  let* st := with_message #"failed get storage" (op_query (db_GetStorageById id)) in
  if negb (st_Disabled st) then op_fail (EMessage #"this storage have enabled")
  else
    let st := set_Disabled false st in
    let* _ := with_message #"failed update storage in db" (db_UpdateStorage st) in
    with_message #"failed load storage" (LoadStorage st).

(** Dropping a mounted driver changes its state where it is mounted. *)
Definition drop_mounted (mountPath : gostr) (d : driver drv) : Op store (driver drv) :=
  λ s,
  let '(e, d) := DropDriver d in
  let s := set_storagesMap (<[FixAndCleanPath mountPath := d]> (storagesMap s)) s in
  match e with
  | Some e => (inl (EWithMessage e #"failed drop storage"), s)
  | None => (inr d, s)
  end.

Definition unmount (mountPath : gostr) : Op store unit :=
  op_modify (λ s, set_storagesMap (delete mountPath (storagesMap s)) s).

Definition DisableStorage (id : Z) : Op store unit :=
  let* st := with_message #"failed get storage" (op_query (db_GetStorageById id)) in
  if st_Disabled st then op_fail (EMessage #"this storage have disabled")
  else
    let* d := with_message #"failed get storage driver"
                (op_query (λ s, GetStorageByMountPath (MountPath st) (storagesMap s))) in
    let* _ := drop_mounted (MountPath st) d in
    let* _ := with_message #"failed update storage in db"
                (db_UpdateStorage (SetStatus DISABLED (set_Disabled true st))) in
    unmount (MountPath st).

(** The caches that follow a renamed mount path. *)
Fixpoint forget_roles (ids : list Z) : Op acc unit :=
  match ids with
  | [] => op_ret ()
  | id :: ids' =>
      let* _ := roleCache_Del (FormatUint id) in
      let* us := op_query (λ s, wrapped (db_GetUsersByRole (wrap64 id) s) #"failed to get users by role") in
      let* _ := op_modify (λ s, foldl (λ s u, (userCache_Del (Username u) s).2) s us) in
      forget_roles ids'
  end.

Definition rename_mount (oldPath newPath : gostr) : Op store unit :=
  let* _ := unmount oldPath in
  let* ids := with_message #"failed to update role permissions"
                (on_accounts (UpdateRolePermissionsPathPrefix oldPath newPath)) in
  let* _ := on_accounts (op_modify (λ s, foldl (λ s id, (roleCache_Del (FormatUint id) s).2) s ids)) in
  on_accounts (forget_roles ids).

Definition UpdateStorage (st : Storage) : Op store unit :=
  let* old := with_message #"failed get old storage" (op_query (db_GetStorageById (st_ID st))) in
  if negb (bool_decide (st_Driver old = st_Driver st)) then op_fail (EMessage #"driver cannot be changed")
  else
    let st := set_MountPath (FixAndCleanPath (MountPath st)) (set_Modified now st) in
    let* _ := with_message #"failed update storage in database" (db_UpdateStorage st) in
    let* found := op_gets (λ s, GetStorageByMountPath (MountPath old) (storagesMap s)) in
    if st_Disabled st then op_ret ()
    else
      let* _ := (if negb (bool_decide (MountPath old = MountPath st))
                 then rename_mount (MountPath old) (MountPath st) else op_ret ()) in
      let* d := with_message #"failed get storage driver" (op_query (λ _, found)) in
      let* v := (if bool_decide (MountPath old = MountPath st)
                 then let* d := drop_mounted (MountPath old) d in op_ret (d_val d)
                 else λ s, match DropDriver d with
                           | (Some e, _) => (inl (EWithMessage e #"failed drop storage"), s)
                           | (None, d) => (inr (d_val d), s)
                           end) in
      initStorage st v.

(** The roles and users whose paths start in the storage's first directory. *)
Definition role_uses (firstMount : gostr) (r : Role) : bool :=
  existsb (λ e, bool_decide (firstPathSegment (pe_Path e) = firstMount)) (PermissionScopes r).
Definition user_uses (firstMount : gostr) (u : User) : bool :=
  bool_decide (firstPathSegment (BasePath u) = firstMount).

Definition used_by (firstMount : gostr) (rs : list Role) (us : list User) : list gostr :=
  ((λ r, #"role:" ++ role_Name r) <$> List.filter (role_uses firstMount) rs) ++
  ((λ u, #"user:" ++ Username u) <$> List.filter (user_uses firstMount) us).

Definition check_unused (st : Storage) : Op store unit :=
  let firstMount := firstPathSegment (MountPath st) in
  if bool_decide (firstMount = []) then op_ret ()
  else
    let* rs := with_message #"failed to load roles" (op_query (λ s, FindAll (roles (accounts s)))) in
    let* us := with_message #"failed to load users" (op_query (λ s, FindAll (users (accounts s)))) in
    match used_by firstMount rs us with
    | [] => op_ret ()
    | l => op_fail (EMessage (#"storage is used by " ++ Join #", " l ++ #", please cancel usage first"))
    end.

Definition DeleteStorageById (id : Z) : Op store unit :=
  let* st := with_message #"failed get storage" (op_query (db_GetStorageById id)) in
  let* _ := check_unused st in
  let* _ := (if st_Disabled st then op_ret ()
             else
               let* d := with_message #"failed get storage driver"
                           (op_query (λ s, GetStorageByMountPath (MountPath st) (storagesMap s))) in
               let* _ := drop_mounted (MountPath st) d in
               unmount (MountPath st)) in
  with_message #"failed delete storage in database" (db_DeleteStorageById id).
End mounting.
