(* ===== verification/StorageThms.v ===== *)
(** * Path resolution over the mounted storages

    A path resolves to the storage with the longest mount path above it, and
    the two parts of the path are what the caller asked for; storages mounted
    for balance are used in turn; the virtual directories of a path are the
    next components of the mount paths below it. *)

From S2P Require Import Prelude GoStrings Errs Store Paths Users Accounts Storage.

Local Open Scope Z_scope.

(** ** Mount paths *)

Lemma CountByte_app a b c : CountByte (a ++ b) c = (CountByte a c + CountByte b c)%nat.
Proof. unfold CountByte. by rewrite filter_app, length_app. Qed.

Lemma CountByte_none s c : (c ∉ s) → CountByte s c = 0%nat.
Proof.
  intros H. unfold CountByte. induction s as [|x s IH]; [done|]. rewrite filter_cons.
  apply not_elem_of_cons in H as [H1 H2]. rewrite decide_False by done. by apply IH.
Qed.

Lemma CountByte_Join l : Forall norm_seg l → CountByte (Join #"/" l) "/" = (length l - 1)%nat.
Proof.
  induction 1 as [|w l (_&_&_&Hw) Hl IH]; [done|].
  destruct l as [|w' l]; [simpl; by rewrite CountByte_none|].
  rewrite Join_cons by done. rewrite !CountByte_app, CountByte_none, IH by done. simpl. lia.
Qed.

(** The number of slashes is one more than the number of segments. *)
Lemma slash_count l :
  Forall norm_seg l → CountByte (PathAddSeparatorSuffix (render l)) "/" = S (length l).
Proof.
  intros Hl. unfold PathAddSeparatorSuffix. destruct (HasSuffix (render l) #"/") eqn:E; cbn [negb].
  - apply render_suffix_slash in E as ->; done.
  - destruct l as [|w l]; [done|]. rewrite CountByte_app.
    change (render (w :: l)) with (#"/" ++ Join #"/" (w :: l)). rewrite CountByte_app, CountByte_Join by done.
    change (CountByte #"/" "/") with 1%nat. simpl length. lia.
Qed.

(** A mount path without its balance suffix is a clean path. *)
Definition plain_mount (k : gostr) : Prop := FixAndCleanPath (GetActualMountPath k) = GetActualMountPath k.

Definition mount_segs (k : gostr) : list gostr := path_segs (GetActualMountPath k).

Lemma plain_mount_render k : plain_mount k → GetActualMountPath k = render (mount_segs k).
Proof. intros H. unfold mount_segs. by rewrite <- FixAndCleanPath_segs, H. Qed.

Section longest.
Context {DR : Drivers}.
Implicit Types (path raw k : gostr) (m : mounts) (b : balances) (n : nat) (d : driver drv).

Definition covers (path k : gostr) : Prop := mount_segs k `prefix_of` path_segs path.

(** Where the loop over the mounts ends. *)
Lemma longest_fold path (es done : list (gostr * driver drv)) ds c :
  Forall (λ e, plain_mount e.1) es → Forall (λ e, plain_mount e.1) done →
  (∀ e, e ∈ done → covers path e.1 → Z.of_nat (S (length (mount_segs e.1))) ≤ c) →
  (∀ d, d ∈ ds → ∃ k, (k, d) ∈ done ∧ covers path k ∧ Z.of_nat (S (length (mount_segs k))) = c) →
  (∀ k d, (k, d) ∈ done → covers path k → Z.of_nat (S (length (mount_segs k))) = c → d ∈ ds) →
  0 ≤ c → (ds = [] → c = 0) →
  match foldl (longest_step path) (ds, c) es with
  | (ds', c') =>
      (∀ e, e ∈ done ++ es → covers path e.1 → Z.of_nat (S (length (mount_segs e.1))) ≤ c') ∧
      (∀ d, d ∈ ds' → ∃ k, (k, d) ∈ done ++ es ∧ covers path k ∧ Z.of_nat (S (length (mount_segs k))) = c') ∧
      (∀ k d, (k, d) ∈ done ++ es → covers path k → Z.of_nat (S (length (mount_segs k))) = c' → d ∈ ds') ∧
      (ds' = [] → c' = 0)
  end.
Proof using.
  revert done ds c. induction es as [|[k d] es IH]; intros done ds c Hes Hdone H1 H2 H3 Hc Hnil; simpl.
  { rewrite app_nil_r. done. }
  apply Forall_cons in Hes as [Hk Hes]. simpl in Hk.
  rewrite (plain_mount_render k Hk). rewrite slash_count by (apply good_norm, path_segs_good).
  assert (IsSubPath (render (mount_segs k)) path = true ↔ covers path k) as Hcov.
  { rewrite IsSubPath_segs, path_segs_render by apply path_segs_good. done. }
  change (done ++ (k, d) :: es) with (done ++ [(k, d)] ++ es). rewrite (app_assoc done).
  set (n := Z.of_nat (S (length (mount_segs k)))) in *.
  assert (Forall (λ e, plain_mount e.1) (done ++ [(k, d)])) as Hd' by (apply Forall_app; split; [done|by constructor]).
  destruct (IsSubPath (render (mount_segs k)) path) eqn:Es.
  2: { assert (¬ covers path k) as Hn by (intros Hn; by apply Hcov in Hn). apply IH; [done|done| | | |done|done].
    - intros e [He|He%list_elem_of_singleton]%elem_of_app; [by apply H1|]. subst e. done.
    - intros x Hx. destruct (H2 x Hx) as (k'&?&?). exists k'. rewrite elem_of_app. auto.
    - intros k' x [He|He%list_elem_of_singleton]%elem_of_app; [by apply H3|]. injection He as -> ->. done. }
  assert (covers path k) as Hcv by (by apply Hcov). destruct (c <? n) eqn:En; reflect_bools.
  - rewrite Z.eqb_refl. apply IH; [done|done| | | |lia|done].
    + intros e [He|He%list_elem_of_singleton]%elem_of_app Hce; [specialize (H1 e He Hce); lia|]. subst e. simpl. lia.
    + intros x [Hx%elem_of_nil|Hx%list_elem_of_singleton]%elem_of_app; [done|]. subst x. exists k.
      rewrite elem_of_app, list_elem_of_singleton. auto.
    + intros k' x [He|He%list_elem_of_singleton]%elem_of_app Hce Hn.
      * specialize (H1 _ He Hce). simpl in H1. lia.
      * injection He as -> ->. apply elem_of_app. right. by apply list_elem_of_singleton.
  - destruct (n =? c) eqn:Eq; reflect_bools.
    + apply IH; [done|done| | | |done|by intros [_ ?]%app_nil].
      * intros e [He|He%list_elem_of_singleton]%elem_of_app Hce; [by apply H1|]. subst e. simpl. lia.
      * intros x [Hx|Hx%list_elem_of_singleton]%elem_of_app.
        -- destruct (H2 x Hx) as (k'&?&?). exists k'. rewrite elem_of_app. auto.
        -- subst x. exists k. rewrite elem_of_app, list_elem_of_singleton. auto.
      * intros k' x [He|He%list_elem_of_singleton]%elem_of_app Hce Hn; apply elem_of_app.
        -- left. by eapply H3.
        -- right. injection He as -> ->. by apply list_elem_of_singleton.
    + apply IH; [done|done| | | |done|done].
      * intros e [He|He%list_elem_of_singleton]%elem_of_app Hce; [by apply H1|]. subst e. simpl. lia.
      * intros x Hx. destruct (H2 x Hx) as (k'&?&?). exists k'. rewrite elem_of_app. auto.
      * intros k' x [He|He%list_elem_of_singleton]%elem_of_app Hce Hn; [by eapply H3|].
        injection He as -> ->. fold n in Hn. lia.
Qed.

(** The drivers [getStoragesByPath] returns. *)
Lemma getStoragesByPath_spec (path : gostr) (m : gmap gostr (driver drv)) :
  map_Forall (λ k _, plain_mount k) m →
  (∀ d, d ∈ getStoragesByPath path m ↔
     ∃ k, m !! k = Some d ∧ covers path k ∧
       ∀ k' d', m !! k' = Some d' → covers path k' → (length (mount_segs k') ≤ length (mount_segs k))%nat) ∧
  (getStoragesByPath path m = [] → ∀ k d, m !! k = Some d → ¬ covers path k).
Proof using.
  intros Hm. unfold getStoragesByPath.
  assert (Forall (λ e : gostr * driver drv, plain_mount e.1) (map_to_list m)) as Hl.
  { apply Forall_forall. intros [k x] Hx%elem_of_map_to_list. by apply (Hm k x). }
  pose proof (longest_fold path (map_to_list m) [] [] 0 Hl) as H.
  destruct (foldl (longest_step path) ([], 0) (map_to_list m)) as [ds c].
  destruct H as (H1&H2&H3&H4); [done|by intros ? ?%elem_of_nil|by intros ? ?%elem_of_nil|by intros ? ? ?%elem_of_nil|lia|done|].
  simpl in *. split; [intros d; rewrite merge_sort_Permutation; split|].
  - intros Hd. destruct (H2 d Hd) as (k&Hk%elem_of_map_to_list&Hc&Hn). exists k. split_ands; [done|done|].
    intros k' d' Hk' Hc'. apply elem_of_map_to_list in Hk'. specialize (H1 _ Hk' Hc'). simpl in H1. lia.
  - intros (k&Hk&Hc&Hmax). apply elem_of_map_to_list in Hk as Hin. apply (H3 k d Hin Hc).
    pose proof (H1 _ Hin Hc) as Hle. simpl in Hle. destruct (decide (ds = [])) as [->|Hne].
    + specialize (H4 eq_refl). lia.
    + destruct ds as [|x ds]; [done|]. destruct (H2 x) as (k'&Hk'%elem_of_map_to_list&Hc'&Hn'); [left|].
      specialize (Hmax k' x Hk' Hc'). lia.
  - intros E k d Hk Hc. pose proof (merge_sort_Permutation by_mount ds) as HP. rewrite E in HP.
    apply Permutation_nil_l in HP. apply elem_of_map_to_list in Hk. specialize (H1 _ Hk Hc).
    specialize (H4 (eq_sym HP)). lia.
Qed.

(** The drivers are mounted under the mount path of their storage, and every
    rotation counter is a natural number. *)
Definition keyed (m : mounts) : Prop := map_Forall (λ k d, MountPath (GetStorage d) = k) m.
Definition counters_ok (b : balances) : Prop := map_Forall (λ _ i, 0 ≤ i) b.

Lemma balanced_index (i n : Z) : 0 ≤ i → 0 < n → 0 ≤ Z.rem (i + 1) n < n.
Proof using. intros. rewrite Z.rem_mod_nonneg by lia. apply Z.mod_pos_bound. lia. Qed.

Lemma counter_nonneg b k : counters_ok b → 0 ≤ default 0 (b !! k).
Proof using. intros Hb. destruct (b !! k) as [i|] eqn:E; simpl; [|lia]. by apply (Hb k i). Qed.

Lemma GetBalancedStorage_spec path m b :
  counters_ok b →
  counters_ok (GetBalancedStorage path m b).2 ∧
  match (GetBalancedStorage path m b).1 with
  | Some d => d ∈ getStoragesByPath (FixAndCleanPath path) m
  | None => getStoragesByPath (FixAndCleanPath path) m = []
  end.
Proof using.
  intros Hb. unfold GetBalancedStorage. destruct (getStoragesByPath _ m) as [|d [|d2 ds]] eqn:E; [done|simpl; split; [done|by left]|].
  set (l := d :: d2 :: ds) in *. set (k := GetActualMountPath _).
  pose proof (balanced_index _ (Z.of_nat (length l)) (counter_nonneg b k Hb) ltac:(simpl; lia)) as Hi.
  set (i := Z.rem _ _) in *. cbn [fst snd]. split.
  - apply map_Forall_insert_2; [lia|done].
  - destruct (l !! Z.to_nat i) as [x|] eqn:Ex; [by eapply list_elem_of_lookup_2|].
    apply lookup_ge_None in Ex. lia.
Qed.

Lemma TrimPrefix_app (s t : gostr) : TrimPrefix (s ++ t) s = t.
Proof using.
  unfold TrimPrefix. rewrite HasPrefix_app. unfold slice_from. first [apply drop_app_length | rewrite drop_app_length; done].
Qed.

Lemma TrimPrefix_render p q :
  Forall good_seg p → Forall good_seg q →
  FixAndCleanPath (TrimPrefix (render (p ++ q)) (render p)) = render q.
Proof using.
  intros Hp Hq. destruct q as [|w q].
  - rewrite app_nil_r. rewrite <- (app_nil_r (render p)) at 1. rewrite TrimPrefix_app. done.
  - destruct p as [|v p].
    + change (render ([] ++ w :: q)) with (#"/" ++ Join #"/" (w :: q)). change (render []) with #"/".
      rewrite TrimPrefix_app, FixAndCleanPath_segs.
      change (path_segs (Join #"/" (w :: q))) with (path_segs (render (w :: q))). by rewrite path_segs_render.
    + assert (render ((v :: p) ++ w :: q) = render (v :: p) ++ render (w :: q)) as ->.
      { unfold render at 1. rewrite Join_app by done. done. }
      rewrite TrimPrefix_app. by apply FixAndCleanPath_render.
Qed.

(** Resolving a path over keyed mounts. *)
Lemma resolve_spec (raw : gostr) (m : mounts) b :
  keyed m → map_Forall (λ k _, plain_mount k) m → counters_ok b →
  match (GetStorageAndActualPath raw m b).1 with
  | inr (d, actual) =>
      ∃ k, m !! k = Some d ∧ covers raw k ∧
        (∀ k' d', m !! k' = Some d' → covers raw k' → (length (mount_segs k') ≤ length (mount_segs k))%nat) ∧
        path_segs raw = mount_segs k ++ path_segs actual ∧ FixAndCleanPath actual = actual
  | inl e => errors_Is e StorageNotFound = true ∧ ∀ k d, m !! k = Some d → ¬ covers raw k
  end.
Proof using.
  intros Hk Hp Hb. unfold GetStorageAndActualPath.
  assert (∀ k, covers (FixAndCleanPath (FixAndCleanPath raw)) k ↔ covers raw k) as Hcov.
  { intros k. unfold covers. by rewrite !path_segs_Fix. }
  pose proof (GetBalancedStorage_spec (FixAndCleanPath raw) m b Hb) as [_ H].
  pose proof (getStoragesByPath_spec (FixAndCleanPath (FixAndCleanPath raw)) m Hp) as [Hspec Hnone].
  destruct (GetBalancedStorage (FixAndCleanPath raw) m b) as [[d|] b']; cbn [fst snd] in *.
  - apply Hspec in H as (k&Hkd&Hc&Hmax). exists k. rewrite Hcov in Hc. pose proof Hc as [q Hq].
    assert (Forall good_seg (mount_segs k) ∧ Forall good_seg q) as [G1 G2].
    { apply Forall_app. rewrite <- Hq. apply path_segs_good. }
    rewrite (Hk k d Hkd), (plain_mount_render k (Hp k d Hkd)), (FixAndCleanPath_segs raw), Hq.
    rewrite TrimPrefix_render by done. split_ands; [done|done| | |by apply FixAndCleanPath_render].
    + intros k' d' Hk' Hc'. apply (Hmax k' d'); [done|by apply Hcov].
    + by rewrite path_segs_render.
  - split; [done|]. intros k d Hkd Hc.
    apply (Hnone H k d Hkd). by apply Hcov.
Qed.

(** *** Rotation *)

(** [n] successive calls. *)
Fixpoint rounds (n : nat) (path : gostr) (m : mounts) (b : balances) : list (option (driver drv)) :=
  match n with
  | O => []
  | S n' => let '(d, b') := GetBalancedStorage path m b in d :: rounds n' path m b'
  end.

Lemma rounds_lookup n path m b d1 d2 ds (i0 : nat) :
  getStoragesByPath (FixAndCleanPath path) m = d1 :: d2 :: ds →
  default 0 (b !! GetActualMountPath (MountPath (GetStorage d1))) = Z.of_nat i0 →
  rounds n path m b =
  (λ j, (d1 :: d2 :: ds) !! ((i0 + 1 + j) mod length (d1 :: d2 :: ds))%nat) <$> seq 0 n.
Proof using.
  intros E. revert b i0. induction n as [|n IH]; intros b i0 Hi; [done|].
  cbn [rounds]. unfold GetBalancedStorage. rewrite E. set (l := d1 :: d2 :: ds) in *.
  set (k := GetActualMountPath (MountPath (GetStorage d1))) in *. rewrite Hi.
  assert (Z.rem (Z.of_nat i0 + 1) (Z.of_nat (length l)) = Z.of_nat ((i0 + 1) mod length l)) as ->.
  { rewrite Z.rem_mod_nonneg by (simpl; lia). rewrite Nat2Z.inj_mod. f_equal. lia. }
  rewrite Nat2Z.id. cbn [seq fmap list_fmap]. f_equal; [by rewrite Nat.add_0_r|].
  rewrite (IH _ ((i0 + 1) mod length l)%nat) by (by rewrite lookup_insert_eq).
  rewrite <- fmap_S_seq, <- list_fmap_compose. apply list_fmap_ext. intros _ j _. unfold compose. f_equal.
  replace (i0 + 1 + S j)%nat with (i0 + 1 + (1 + j))%nat by lia.
  rewrite <- Nat.add_assoc, Nat.Div0.add_mod_idemp_l. done.
Qed.

Lemma rotate_Permutation {A} n (l : list A) : rotate n l ≡ₚ l.
Proof using. unfold rotate. by rewrite Permutation_app_comm, take_drop. Qed.

Lemma rounds_Permutation path m b :
  counters_ok b →
  let l := getStoragesByPath (FixAndCleanPath path) m in
  rounds (length l) path m b ≡ₚ Some <$> l.
Proof using.
  intros Hb l. destruct l as [|d1 [|d2 ds]] eqn:E; subst l; [done| |].
  { simpl. unfold GetBalancedStorage. rewrite E. done. }
  set (k := GetActualMountPath (MountPath (GetStorage d1))).
  pose proof (counter_nonneg b k Hb) as Hi. set (i := default 0 (b !! k)) in *.
  rewrite (rounds_lookup _ path m b d1 d2 ds (Z.to_nat i) E) by (rewrite Z2Nat.id by done; done).
  set (l := d1 :: d2 :: ds). etrans; [|apply (fmap_Permutation Some), (rotate_Permutation (Z.to_nat i + 1) l)].
  match goal with |- ?a ≡ₚ ?c => assert (a = c) as ->; [|done] end. apply list_eq. intros j. rewrite !list_lookup_fmap.
  destruct (decide (j < length l)%nat) as [Hj|Hj].
  - rewrite lookup_seq_lt by done. simpl. rewrite lookup_rotate_r by done. unfold rotate_nat_add.
    replace (Z.to_nat ((Z.of_nat (Z.to_nat i + 1) + Z.of_nat j) `mod` Z.of_nat (length l)))
      with ((Z.to_nat i + 1 + (0 + j)) `mod` length l)%nat by (rewrite <- Nat2Z.inj_add, <- Nat2Z.inj_mod, Nat2Z.id; done).
    destruct (l !! _) eqn:El; [done|]. apply lookup_ge_None in El.
    subst l. simpl in El. lia.
  - rewrite !lookup_ge_None_2; [done|rewrite length_rotate; lia|rewrite length_seq; lia].
Qed.

(** *** Virtual directories *)

Lemma Split_head w q : norm_seg w → Forall norm_seg q → hd [] (Split "/" (Join #"/" (w :: q))) = w.
Proof using. intros Hw Hq. rewrite Split_Join; [done|done|]. apply norm_no_slash. by constructor. Qed.

Lemma TrimPrefix_none (s : gostr) w q :
  norm_seg w → s = Join #"/" (w :: q) → TrimPrefix s #"/" = s.
Proof using.
  intros (Hw&_&_&Hn) ->. unfold TrimPrefix. destruct w as [|c w]; [done|].
  assert (c ≠ "/"%char) as Hc by (intros ->; apply Hn; left).
  assert (HasPrefix (Join #"/" ((c :: w) :: q)) #"/" = false) as ->; [|done].
  destruct q; simpl; by rewrite bool_decide_eq_false_2.
Qed.

Lemma render_app_cons p w q :
  render (p ++ w :: q) = (if decide (p = []) then #"/" else render p ++ #"/") ++ Join #"/" (w :: q).
Proof using.
  destruct (decide (p = [])) as [->|Hp]; [done|].
  unfold render. rewrite Join_app by done. simpl. by rewrite <- app_assoc.
Qed.

Lemma virtual_name_next p w q :
  Forall norm_seg (p ++ w :: q) → virtual_name (render p) (render (p ++ w :: q)) = w.
Proof using.
  intros [Hp [Hw Hq]%Forall_cons]%Forall_app. unfold virtual_name, slice_from. rewrite Nat2Z.id, render_app_cons.
  destruct (decide (p = [])) as [->|Hne].
  - change (render []) with #"/". rewrite drop_app_length.
    rewrite (TrimPrefix_none _ w q Hw eq_refl). by apply Split_head.
  - rewrite <- app_assoc, drop_app_length, TrimPrefix_app. by apply Split_head.
Qed.

Lemma virtual_test p k :
  Forall good_seg p → plain_mount k →
  (length (GetActualMountPath k) <=? length (render p))%nat || negb (IsSubPath (render p) (GetActualMountPath k)) = false ↔
  ∃ w q, mount_segs k = p ++ w :: q.
Proof using.
  intros Hp Hk. rewrite (plain_mount_render k Hk).
  assert (Forall good_seg (mount_segs k)) as Hg by apply path_segs_good.
  rewrite orb_false_iff, negb_false_iff, IsSubPath_segs, !path_segs_render, Nat.leb_gt by done. split.
  - intros [Hlen [[|w q] E]]; [|eauto]. rewrite E, app_nil_r in Hlen. lia.
  - intros (w&q&E). split; [|by exists (w :: q)]. rewrite E, render_app_cons.
    assert (Join #"/" (w :: q) ≠ []) as Hj.
    { apply Join_nonempty; [done|]. rewrite E in Hg. apply Forall_app in Hg as [_ Hg]. by apply good_norm. }
    assert (0 < length (Join #"/" (w :: q)))%nat by (destruct (Join #"/" (w :: q)); [done|simpl; lia]).
    rewrite length_app. destruct (decide (p = [])) as [->|]; [change (length (render [])) with 1%nat|rewrite length_app];
      change (length #"/") with 1%nat; lia.
Qed.

Lemma virtual_files_spec p seen ds :
  Forall good_seg p → Forall (λ d, plain_mount (MountPath (GetStorage d))) ds →
  NoDup (vf_Name <$> virtual_files (render p) seen ds) ∧
  (∀ w, w ∈ vf_Name <$> virtual_files (render p) seen ds ↔
     w ∉ seen ∧ ∃ d q, d ∈ ds ∧ mount_segs (MountPath (GetStorage d)) = p ++ w :: q).
Proof using.
  intros Hp. revert seen. induction ds as [|d ds IH]; intros seen Hds; simpl.
  { split; [constructor|]. intros w. rewrite elem_of_nil. split; [done|]. by intros (_&d&q&?%elem_of_nil&_). }
  apply Forall_cons in Hds as [Hd Hds]. pose proof (virtual_test p _ Hp Hd) as Ht.
  set (k := MountPath (GetStorage d)) in *.
  destruct (_ || _) eqn:Eb.
  - destruct (IH seen Hds) as [H1 H2]. split; [done|]. intros w. rewrite H2. split.
    + intros (Hs&d'&q&Hin&E). split; [done|]. exists d', q. split; [by right|done].
    + intros (Hs&d'&q&[->|Hin]%elem_of_cons&E); [|eauto 6].
      exfalso. assert (true = false) by (apply Ht; eauto). done.
  - destruct (proj1 Ht eq_refl) as (w&q&E). rewrite (plain_mount_render k Hd), E.
    assert (Forall norm_seg (p ++ w :: q)) as Hn by (rewrite <- E; apply good_norm, path_segs_good).
    rewrite virtual_name_next by done. destruct (decide (w ∈ seen)) as [Hw|Hw].
    + rewrite bool_decide_eq_true_2 by done. destruct (IH seen Hds) as [H1 H2]. split; [done|].
      intros x. rewrite H2. split.
      * intros (Hs&d'&q'&Hin&E'). split; [done|]. exists d', q'. split; [by right|done].
      * intros (Hs&d'&q'&[->|Hin]%elem_of_cons&E'); [|eauto 6]. fold k in E'. rewrite E in E'.
        apply app_inv_head in E'. injection E' as -> ->. done.
    + rewrite bool_decide_eq_false_2 by done. destruct (IH ({[w]} ∪ seen) Hds) as [H1 H2]. simpl. split.
      * constructor; [|done]. rewrite H2. set_solver.
      * intros x. rewrite elem_of_cons, H2. split.
        -- intros [->|(Hs&d'&q'&Hin&E')]; [split; [done|]; exists d, q; split; [by left|done]|].
           split; [set_solver|]. exists d', q'. split; [by right|done].
        -- intros (Hs&d'&q'&[->|Hin]%elem_of_cons&E').
           ++ left. fold k in E'. rewrite E in E'. apply app_inv_head in E'. congruence.
           ++ destruct (decide (x = w)) as [->|]; [by left|]. right. split; [set_solver|eauto].
Qed.
End longest.

(** ** Every sequence of mount operations *)

(** Dropping a driver does not change the mount path of its storage. *)
Class DriverLaws `{DR : Drivers} : Prop :=
  Drop_MountPath : ∀ d : driver drv, MountPath (GetStorage (DropDriver d).2) = MountPath (GetStorage d).

Section reach.
Context {DR : Drivers} {DL : DriverLaws}.
Context `{!Table Storage, !Table Role, !Table User, !Cache Role, !Cache User}.
Context (err_msg : error → gostr) (panic_info : gostr) (now : Z).
Implicit Types (s : store) (m : mounts) (d : driver drv).

Definition mount_inv (s : store) : Prop := keyed (storagesMap s) ∧ counters_ok (balanceMap s).

Lemma mount_inv_same s s' :
  storagesMap s' = storagesMap s → balanceMap s' = balanceMap s → mount_inv s → mount_inv s'.
Proof using. intros E1 E2 [H1 H2]. split; [by rewrite E1|by rewrite E2]. Qed.

Lemma keyed_insert m d : keyed m → keyed (<[MountPath (GetStorage d) := d]> m).
Proof using. intros H. by apply map_Forall_insert_2. Qed.

Lemma exec_inv f : (∀ s s', f s = inr s' → storagesMap s' = storagesMap s ∧ balanceMap s' = balanceMap s) →
  keeps mount_inv (op_exec f).
Proof using. intros Hf. apply keeps_exec. intros s s' Hs E. destruct (Hf s s' E). by eapply mount_inv_same. Qed.

Lemma with_message_inv {A} msg (f : Op store A) : keeps mount_inv f → keeps mount_inv (with_message msg f).
Proof using. intros Hf s Hs. unfold with_message. specialize (Hf s Hs). by destruct (f s) as [[|] ?]. Qed.

Lemma on_accounts_inv {A} (f : Op acc A) : keeps mount_inv (on_accounts f).
Proof using. intros s Hs. unfold on_accounts. destruct (f (accounts s)). by eapply mount_inv_same. Qed.

Lemma db_UpdateStorage_inv st : keeps mount_inv (db_UpdateStorage st).
Proof using. apply exec_inv. intros s s'. destruct (Save _ _); [done|]. by intros [= <-]. Qed.

Lemma db_CreateStorage_inv st : keeps mount_inv (db_CreateStorage st).
Proof using. intros s Hs. unfold db_CreateStorage. destruct (CreateRow _ _) as [|[??]]; [done|]. by eapply mount_inv_same. Qed.

Lemma db_DeleteStorageById_inv id : keeps mount_inv (db_DeleteStorageById id).
Proof using. apply exec_inv. intros s s'. destruct (DeleteRow _ _); [done|]. by intros [= <-]. Qed.

Lemma MustSave_inv d s : mount_inv s → mount_inv (MustSaveDriverStorage d s).2.
Proof using.
  intros Hs. unfold MustSaveDriverStorage, saveDriverStorage. destruct (MarshalAddition _) as [e|str]; [done|].
  pose proof (db_UpdateStorage_inv (GetStorage (mkDriver (d_val d) (set_Addition str (GetStorage d)))) s Hs) as H.
  destruct (db_UpdateStorage _ s) as [[|] ?]; done.
Qed.

Lemma mounted_inv d s : mount_inv s →
  mount_inv (set_storagesMap (<[MountPath (GetStorage d) := d]> (storagesMap s)) s).
Proof using. intros [H1 H2]. split; [by apply keyed_insert|done]. Qed.

(** Whatever the driver does, it ends up under its own mount path. *)
Lemma initStorage_inv st v : keeps mount_inv (initStorage err_msg panic_info st v).
Proof using.
  intros s Hs. unfold initStorage.
  assert (∀ d e, let o := (let status := match e with Some e => err_msg e | None => WORK end in
    let d := mkDriver (d_val d) (SetStatus status (GetStorage d)) in
    let '(d, s) := MustSaveDriverStorage d s in
    (match e with Some e => inl (EWithMessage e #"failed init storage") | None => inr () end : result unit,
     set_storagesMap (<[MountPath (GetStorage d) := d]> (storagesMap s)) s)) in mount_inv o.2) as Hfin.
  { intros d e. cbn zeta. pose proof (MustSave_inv (mkDriver (d_val d) (SetStatus (match e with Some e => err_msg e | None => WORK end) (GetStorage d))) s Hs) as H.
    destruct (MustSaveDriverStorage _ s) as [d' s']. simpl in *. by apply mounted_inv. }
  destruct (UnmarshalAddition _ _) as [e|v']; [apply (Hfin (mkDriver v st) (Some e))|].
  destruct (init_reference _ _) as [e|d]; [apply (Hfin (mkDriver v' st) (Some e))|].
  destruct (Init d) as [[e d']|]; [apply (Hfin d' e)|].
  pose proof (MustSave_inv (mkDriver (d_val d) (SetStatus panic_info (GetStorage d))) s Hs) as H.
  destruct (MustSaveDriverStorage _ s) as [d' s']. simpl in *. by apply mounted_inv.
Qed.

Lemma query_inv {A} msg (f : store → result A) : keeps mount_inv (with_message msg (op_query f)).
Proof using. apply with_message_inv, keeps_query. Qed.

Lemma unmount_inv k : keeps mount_inv (unmount k).
Proof using. apply keeps_modify. intros s [H1 H2]. split; [by apply map_Forall_delete|done]. Qed.

Lemma drop_mounted_inv k s d :
  mount_inv s → GetStorageByMountPath k (storagesMap s) = inr d → mount_inv (drop_mounted k d s).2.
Proof using DL.
  intros [H1 H2] E. unfold GetStorageByMountPath in E.
  destruct (storagesMap s !! FixAndCleanPath k) as [d0|] eqn:Ed; [|done]. injection E as <-.
  unfold drop_mounted. pose proof (Drop_MountPath d0) as Hm. destruct (DropDriver d0) as [e d'].
  assert (mount_inv (set_storagesMap (<[FixAndCleanPath k := d']> (storagesMap s)) s)).
  { split; [|done]. simpl in *. rewrite <- (H1 _ _ Ed), <- Hm. by apply keyed_insert. }
  by destruct e.
Qed.

Lemma LoadStorage_inv st : keeps mount_inv (LoadStorage err_msg panic_info st).
Proof using. apply keeps_bind; [apply query_inv|]. intros v. apply initStorage_inv. Qed.

Lemma CreateStorage_inv st : keeps mount_inv (CreateStorage err_msg panic_info now st).
Proof using.
  apply keeps_bind; [apply query_inv|]. intros v.
  apply keeps_bind; [apply with_message_inv, db_CreateStorage_inv|]. intros st'.
  apply keeps_bind; [apply with_message_inv, initStorage_inv|]. intros _. apply keeps_ret.
Qed.

Lemma EnableStorage_inv id : keeps mount_inv (EnableStorage err_msg panic_info id).
Proof using.
  apply keeps_bind; [apply query_inv|]. intros st. destruct (negb _); [apply keeps_fail|].
  apply keeps_bind; [apply with_message_inv, db_UpdateStorage_inv|]. intros _.
  apply with_message_inv, LoadStorage_inv.
Qed.

(** Looking a driver up and dropping it, then going on. *)
Lemma drop_then_inv {A} msg k (f : driver drv → Op store A) :
  (∀ d, keeps mount_inv (f d)) →
  keeps mount_inv (op_bind (with_message msg (op_query (λ s, GetStorageByMountPath k (storagesMap s))))
                     (λ d, op_bind (drop_mounted k d) f)).
Proof using DL.
  intros Hf s Hs. unfold op_bind, with_message, op_query.
  destruct (GetStorageByMountPath k (storagesMap s)) as [e|d] eqn:E; [done|].
  pose proof (drop_mounted_inv k s d Hs E) as H. destruct (drop_mounted k d s) as [[e|d'] s']; [done|].
  by apply Hf.
Qed.

Lemma DisableStorage_inv id : keeps mount_inv (DisableStorage id).
Proof using DL.
  apply keeps_bind; [apply query_inv|]. intros st. destruct (st_Disabled st); [apply keeps_fail|].
  apply drop_then_inv. intros _. apply keeps_bind; [apply with_message_inv, db_UpdateStorage_inv|].
  intros _. apply unmount_inv.
Qed.

Lemma check_unused_inv st : keeps mount_inv (check_unused st).
Proof using.
  unfold check_unused. destruct (bool_decide _); [apply keeps_ret|].
  apply keeps_bind; [apply query_inv|]. intros rs. apply keeps_bind; [apply query_inv|]. intros us.
  destruct (used_by _ _ _); [apply keeps_ret|apply keeps_fail].
Qed.

Lemma DeleteStorageById_inv id : keeps mount_inv (DeleteStorageById id).
Proof using DL.
  apply keeps_bind; [apply query_inv|]. intros st. apply keeps_bind; [apply check_unused_inv|]. intros _.
  apply keeps_bind; [|intros _; apply with_message_inv, db_DeleteStorageById_inv].
  destruct (st_Disabled st); [apply keeps_ret|]. apply drop_then_inv. intros _. apply unmount_inv.
Qed.

Lemma rename_mount_inv a b : keeps mount_inv (rename_mount a b).
Proof using.
  apply keeps_bind; [apply unmount_inv|]. intros _.
  apply keeps_bind; [apply with_message_inv, on_accounts_inv|]. intros ids.
  apply keeps_bind; [apply on_accounts_inv|]. intros _. apply on_accounts_inv.
Qed.

Lemma UpdateStorage_inv st : keeps mount_inv (UpdateStorage err_msg panic_info now st).
Proof using DL.
  apply keeps_bind; [apply query_inv|]. intros old. destruct (negb (bool_decide (st_Driver old = _))); [apply keeps_fail|].
  apply keeps_bind; [apply with_message_inv, db_UpdateStorage_inv|]. intros _.
  intros s Hs. unfold op_bind at 1, op_gets.
  set (st' := set_MountPath _ _). destruct (st_Disabled st'); [done|].
  destruct (bool_decide (MountPath old = MountPath st')) eqn:Em; cbn [negb].
  - unfold op_bind at 1, op_ret at 1. unfold op_bind at 1, with_message, op_query.
    destruct (GetStorageByMountPath (MountPath old) (storagesMap s)) as [e|d] eqn:E; [done|].
    unfold op_bind at 1 2. pose proof (drop_mounted_inv (MountPath old) s d Hs E) as H.
    destruct (drop_mounted (MountPath old) d s) as [[e|d'] s']; [done|]. by apply initStorage_inv.
  - apply keeps_bind; [apply rename_mount_inv| |done]. intros _.
    apply keeps_bind; [apply query_inv|]. intros d. apply keeps_bind; [|intros v; apply initStorage_inv].
    intros s1 H1. by destruct (DropDriver d) as [[e|] ?].
Qed.

(** The mount operations, the lookups, which advance the rotation, and
    whatever happens to the accounts. *)
Inductive store_step : store → store → Prop :=
  | ss_create s st : store_step s (CreateStorage err_msg panic_info now st s).2
  | ss_load s st : store_step s (LoadStorage err_msg panic_info st s).2
  | ss_enable s id : store_step s (EnableStorage err_msg panic_info id s).2
  | ss_disable s id : store_step s (DisableStorage id s).2
  | ss_update s st : store_step s (UpdateStorage err_msg panic_info now st s).2
  | ss_delete s id : store_step s (DeleteStorageById id s).2
  | ss_lookup s path : store_step s
      {| storages := storages s; storagesMap := storagesMap s;
         balanceMap := (GetStorageAndActualPath path (storagesMap s) (balanceMap s)).2;
         accounts := accounts s |}
  | ss_accounts s a : store_step s (set_accounts a s).

Lemma store_step_inv s s' : mount_inv s → store_step s s' → mount_inv s'.
Proof using DL.
  intros Hs. destruct 1 as [s st|s st|s id|s id|s st|s id|s path|s a].
  - by apply CreateStorage_inv.
  - by apply LoadStorage_inv.
  - by apply EnableStorage_inv.
  - by apply DisableStorage_inv.
  - by apply UpdateStorage_inv.
  - by apply DeleteStorageById_inv.
  - destruct Hs as [H1 H2]. split; [done|]. simpl. unfold GetStorageAndActualPath.
    pose proof (GetBalancedStorage_spec (FixAndCleanPath path) (storagesMap s) (balanceMap s) H2) as [H _].
    destruct (GetBalancedStorage _ _ _) as [[d|] b]; done.
  - by eapply mount_inv_same.
Qed.

Lemma store_reach_inv s0 s :
  storagesMap s0 = ∅ → balanceMap s0 = ∅ → rtc store_step s0 s → mount_inv s.
Proof using DL.
  intros E1 E2. apply (rtc_ind_r mount_inv).
  - split; rewrite ?E1, ?E2; apply map_Forall_empty.
  - intros x z _ Hstep Hx. by eapply store_step_inv.
Qed.
End reach.

(** C5. After any sequence of mount operations and lookups, a path resolves
    to a mounted storage whose mount path (without the balance suffix) is the
    longest one at or above the path, with the rest of the path as the path
    inside the storage; [StorageNotFound] is reported only when no mount path
    is above it. *)
Theorem GetStorageAndActualPath_longest
    {DR : Drivers} {DL : DriverLaws}
    `{!Table Storage, !Table Role, !Table User, !Cache Role, !Cache User}
    err_msg panic_info now (s0 s : store) (raw : gostr) :
  storagesMap s0 = ∅ → balanceMap s0 = ∅ → rtc (store_step err_msg panic_info now) s0 s →
  map_Forall (λ k _, plain_mount k) (storagesMap s) →
  match (GetStorageAndActualPath raw (storagesMap s) (balanceMap s)).1 with
  | inr (d, actual) =>
      ∃ k, storagesMap s !! k = Some d ∧ covers raw k ∧
        (∀ k' d', storagesMap s !! k' = Some d' → covers raw k' →
           (length (mount_segs k') ≤ length (mount_segs k))%nat) ∧
        path_segs raw = mount_segs k ++ path_segs actual ∧ FixAndCleanPath actual = actual
  | inl e => errors_Is e StorageNotFound = true ∧ ∀ k d, storagesMap s !! k = Some d → ¬ covers raw k
  end.
Proof.
  intros E1 E2 Hr Hp. destruct (store_reach_inv _ _ _ s0 s E1 E2 Hr) as [Hk Hb]. by apply resolve_spec.
Qed.

(** Storages mounted for balance are used in turn: over as many lookups of
    a path as there are storages at its longest mount path, each of them is
    returned exactly once, wherever the rotation stands. *)
Theorem balance_rotates {DR : Drivers} (path : gostr) (m : mounts) (b : balances) :
  counters_ok b →
  let l := getStoragesByPath (FixAndCleanPath path) m in
  rounds (length l) path m b ≡ₚ Some <$> l.
Proof. apply rounds_Permutation. Qed.

(** The virtual directories of a path are exactly the next path components
    of the mount paths strictly below it, each listed once. *)
Theorem virtual_files_exact {DR : Drivers} (prefix : gostr) (m : mounts) :
  keyed m → map_Forall (λ k _, plain_mount k) m →
  NoDup (vf_Name <$> GetStorageVirtualFilesByPath prefix m) ∧
  ∀ w, w ∈ vf_Name <$> GetStorageVirtualFilesByPath prefix m ↔
    ∃ k q, is_Some (m !! k) ∧ mount_segs k = path_segs prefix ++ w :: q.
Proof.
  intros Hk Hp. unfold GetStorageVirtualFilesByPath. rewrite FixAndCleanPath_segs.
  set (ds := merge_sort by_order (map_to_list m).*2).
  assert (∀ d, d ∈ ds ↔ ∃ k, m !! k = Some d) as Hds.
  { intros d. subst ds. rewrite merge_sort_Permutation, list_elem_of_fmap. split.
    - intros ([k x]&->&Hx%elem_of_map_to_list). eauto.
    - intros [k Hx]. exists (k, d). split; [done|]. by apply elem_of_map_to_list. }
  destruct (virtual_files_spec (path_segs prefix) ∅ ds) as [H1 H2]; [apply path_segs_good| |].
  - apply Forall_forall. intros d [k Hd]%Hds. rewrite (Hk k d Hd). by apply (Hp k d).
  - split; [done|]. intros w. rewrite H2. split.
    + intros (_&d&q&[k Hd]%Hds&E). exists k, q. rewrite (Hk k d Hd) in E. split; [by eexists|done].
    + intros (k&q&[d Hd]&E). split; [set_solver|]. exists d, q. rewrite (Hk k d Hd). split; [|done].
      apply Hds. eauto.
Qed.

(** [UpdateStorage] with a row that is disabled writes the row and returns
    before it unmounts anything: the driver stays mounted and reachable. *)
Theorem UpdateStorage_disabled_stays_mounted
    {DR : Drivers} `{!Table Storage, !Table Role, !Table User, !Cache Role, !Cache User}
    err_msg panic_info now (s s' : store) st :
  st_Disabled st = true → UpdateStorage err_msg panic_info now st s = (inr (), s') →
  storagesMap s' = storagesMap s.
Proof.
  intros Hd. unfold UpdateStorage, op_bind at 1, with_message at 1, op_query.
  destruct (db_GetStorageById (st_ID st) s) as [e|old]; [done|].
  destruct (negb _); [done|]. unfold op_bind, op_gets. set (st' := set_MountPath _ _).
  change (st_Disabled st') with (st_Disabled st). rewrite Hd. unfold with_message, db_UpdateStorage, op_exec.
  destruct (Save _ _); [done|]. by intros [= <-].
Qed.

(** ** A concrete tree *)

Module StoreMaps.
#[export] Existing Instance map_Cache.
#[export] Instance storage_table : Table Storage := map_Table Storage.
#[export] Instance role_table : Table Role := map_Table Role.
#[export] Instance user_table : Table User := map_Table User.

(** A driver without state. *)
#[export] Instance local_driver : Drivers := {|
  drv := unit;
  GetDriver name := if bool_decide (name = #"Local") then inr () else inl (EMessage (#"no driver named: " ++ name));
  UnmarshalAddition _ v := inr v;
  MarshalAddition _ := inr #"{}";
  InitReference _ := None;
  Config_Name _ := #"Local";
  Init d := Ret (None, d);
  DropDriver d := (None, d);
|}.

#[export] Instance local_laws : DriverLaws.
Proof. by intros d. Qed.

Definition mk_storage (id : Z) (mount : gostr) (disabled : bool) : Storage :=
  {| st_ID := id; MountPath := mount; st_Order := 0; st_Driver := #"Local"; CacheExpiration := 30;
     st_Status := []; Addition := #"{}"; Remark := []; Modified := 0; st_Disabled := disabled;
     DisableIndex := false; EnableSign := false;
     st_Sort := {| OrderBy := []; OrderDirection := []; ExtractFolder := [] |};
     st_Proxy := {| WebProxy := false; WebdavPolicy := []; ProxyRange := false; DownProxyUrl := []; DownProxySign := true |} |}.

Definition no_rows {R} `{!Row R} : @table R (map_Table R).
Proof. refine ((∅ : gmap Z R) ↾ _). by split. Defined.

Definition store0 : store :=
  {| storages := no_rows; storagesMap := (∅ : mounts); balanceMap := (∅ : balances);
     accounts := {| roles := no_rows; users := no_rows; roleCache := (∅ : gmap gostr Role);
                    userCache := (∅ : gmap gostr User); adminUser := None; guestUser := None;
                    DefaultRole := inr [] |} |}.

Definition msg (e : error) : gostr := #"error".

Definition store1 : store :=
  (CreateStorage msg [] 7 (mk_storage 0 #"/a/b.balance1" false)
    (CreateStorage msg [] 7 (mk_storage 0 #"a/b/" false)
      (CreateStorage msg [] 7 (mk_storage 0 #"/a" false) store0).2).2).2.

Lemma store_reachable : rtc (store_step msg [] 7) store0 store1.
Proof.
  eapply rtc_l; [apply (ss_create _ _ _ _ (mk_storage 0 #"/a" false))|].
  eapply rtc_l; [apply (ss_create _ _ _ _ (mk_storage 0 #"a/b/" false))|].
  eapply rtc_l; [apply (ss_create _ _ _ _ (mk_storage 0 #"/a/b.balance1" false))|]. apply rtc_refl.
Qed.

Definition tree : mounts := Eval vm_compute in storagesMap store1.

Lemma tree_eq : storagesMap store1 = tree.
Proof. vm_compute. reflexivity. Qed.

#[export] Instance plain_mount_dec k : Decision (plain_mount k).
Proof. unfold plain_mount. apply _. Defined.

Lemma tree_plain : map_Forall (λ k _, plain_mount k) tree.
Proof. decide_now. Qed.

Lemma tree_keyed : keyed tree.
Proof. unfold keyed. decide_now. Qed.
End StoreMaps.
Import StoreMaps.

Lemma GetStorageAndActualPath_longest_witness :
  ∃ d, (GetStorageAndActualPath #"/a/b/c" (storagesMap store1) (balanceMap store1)).1 = inr (d, #"/c") ∧
  ∃ k, storagesMap store1 !! k = Some d ∧ path_segs #"/a/b/c" = mount_segs k ++ path_segs #"/c".
Proof.
  pose proof (GetStorageAndActualPath_longest msg [] 7 store0 store1 #"/a/b/c" eq_refl eq_refl store_reachable) as H.
  assert (∃ d, (GetStorageAndActualPath #"/a/b/c" (storagesMap store1) (balanceMap store1)).1 = inr (d, #"/c")) as [d E].
  { eexists. vm_compute. reflexivity. }
  exists d. split; [exact E|]. rewrite E in H. rewrite tree_eq in *.
  destruct (H tree_plain) as (k&H1&_&_&H2&_). exists k. split; [exact H1|exact H2].
Defined.

