(* ===== verification/FsOps.v ===== *)
(** * Objects of one storage: [internal/op/fs.go], [internal/model/obj.go]

    Listing, finding, linking and changing the objects of a mounted storage,
    over the interface of its driver.  Listings are cached as Go slices: the
    arrays they share are part of the state, since the cache is updated in
    place and a sort is started a minute later on the slice it was given.
    Calls run one after the other; [singleflight] is then the plain call, and
    the update hook of the search index, which runs on its own, is left out. *)

From S2P Require Import Prelude GoStrings Errs Store Paths Users Accounts Storage.

Local Open Scope Z_scope.

(** ** Objects: [internal/model/object.go], [obj.go] *)

(** The hashes, the creation time and the thumbnail are not used here. *)
Record Object := {
  o_ID : gostr;
  o_Path : gostr;
  o_Name : gostr;
  o_Size : Z;
  o_Modified : Z;
  o_IsFolder : bool;
}.

#[export] Instance Object_eq_dec : EqDecision Object.
Proof. solve_decision. Defined.

Inductive Obj :=
  | Raw (o : Object)
  | ObjWrapName (name : gostr) (o : Obj).

#[export] Instance Obj_eq_dec : EqDecision Obj.
Proof. solve_decision. Defined.

Fixpoint raw (o : Obj) : Object := match o with Raw o => o | ObjWrapName _ o => raw o end.

Definition GetName (o : Obj) : gostr := match o with Raw o => o_Name o | ObjWrapName name _ => name end.
Definition GetSize (o : Obj) : Z := o_Size (raw o).
Definition GetPath (o : Obj) : gostr := o_Path (raw o).
Definition IsDir (o : Obj) : bool := o_IsFolder (raw o).
Definition UnwrapObj (o : Obj) : Obj := match o with Raw _ => o | ObjWrapName _ o => o end.

(** Only a bare [Object] has [SetPath]. *)
Definition SetPath (p : gostr) (o : Obj) : Obj :=
  match o with
  | Raw o => Raw {| o_ID := o_ID o; o_Path := p; o_Name := o_Name o; o_Size := o_Size o;
                    o_Modified := o_Modified o; o_IsFolder := o_IsFolder o |}
  | ObjWrapName _ _ => o
  end.

Definition can_SetPath (o : Obj) : bool := match o with Raw _ => true | ObjWrapName _ _ => false end.

(** [strings.ReplaceAll] of a string that is not empty: [skip] bytes of a match
    are still to be dropped. *)
Fixpoint replace_all (c : ascii) (old new : gostr) (skip : nat) (s : gostr) : gostr :=
  match s with
  | [] => []
  | d :: s' =>
      match skip with
      | S k => replace_all c old new k s'
      | O => if HasPrefix s (c :: old) then new ++ replace_all c old new (length old) s'
             else d :: replace_all c old new 0 s'
      end
  end.

(** [strings.Replace] of the first occurrence. *)
Definition replace_first (s old new : gostr) : gostr :=
  let i := Index s old in
  if i <? 0 then s else take (Z.to_nat i) s ++ new ++ drop (Z.to_nat i + length old) s.

(** The entries of [conf.FilenameCharMap], in the order the map is walked. *)
Definition char_map := list (ascii * gostr * gostr).

Definition MappingName (m : char_map) (name : gostr) : gostr :=
  fold_left (λ name '(c, old, new), replace_all c old new 0 name) m name.

Definition WrapObjName (m : char_map) (o : Obj) : Obj := ObjWrapName (MappingName m (GetName o)) o.

(** *** Sorting *)

(** [sort.Slice], which is not stable, and [natural.Less]. *)
Class SortLib := {
  sort_Slice : ∀ {A}, (A → A → bool) → list A → list A;
  natural_Less : gostr → gostr → bool;
}.
Class SortLaws `{SL : SortLib} : Prop := { sort_Slice_perm A less (l : list A) : sort_Slice less l ≡ₚ l }.

Definition sort_less `{SortLib} (orderBy orderDirection : gostr) (a b : Obj) : bool :=
  let desc := bool_decide (orderDirection = #"desc") in
  if bool_decide (orderBy = #"name") then
    let c := natural_Less (GetName a) (GetName b) in if desc then negb c else c
  else if bool_decide (orderBy = #"size") then
    if desc then GetSize b <=? GetSize a else GetSize a <=? GetSize b
  else if bool_decide (orderBy = #"modified") then
    if desc then o_Modified (raw b) <? o_Modified (raw a) else o_Modified (raw a) <? o_Modified (raw b)
  else false.

(** The sort of a slice with a nil in it panics once the nil is compared. *)
Definition nil_less (less : Obj → Obj → bool) (a b : option Obj) : bool :=
  match a, b with Some a, Some b => less a b | _, _ => false end.

Definition compares (orderBy : gostr) : bool := bool_decide (orderBy ∈ [ #"name"; #"size"; #"modified"]).

Definition SortFiles `{SortLib} (objs : list (option Obj)) (orderBy orderDirection : gostr) : option (list (option Obj)) :=
  if bool_decide (orderBy = #"") then Some objs
  else if compares orderBy && (1 <? length objs)%nat && bool_decide (None ∈ objs) then None
  else Some (sort_Slice (nil_less (sort_less orderBy orderDirection)) objs).

(** [sort.SliceStable] inserts each element before the first one it is not
    after. *)
Fixpoint insert_stable {A} (less : A → A → bool) (x : A) (l : list A) : list A :=
  match l with
  | [] => [x]
  | y :: l' => if less y x then y :: insert_stable less x l' else x :: l
  end.
Definition sort_SliceStable {A} (less : A → A → bool) (l : list A) : list A := foldr (insert_stable less) [] l.

Definition folder_less (front : bool) (a b : Obj) : bool :=
  if IsDir a || IsDir b then
    if negb (IsDir a) then negb front
    else if negb (IsDir b) then front
    else false
  else false.

Definition ExtractFolder_objs (objs : list Obj) (extractFolder : gostr) : list Obj :=
  if bool_decide (extractFolder = #"") then objs
  else sort_SliceStable (folder_less (bool_decide (extractFolder = #"front"))) objs.

(** ** The driver *)

Record Config := {
  LocalSort : bool;
  OnlyLocal : bool;
  NoCache : bool;
  CheckStatus : bool;
  NoOverwriteUpload : bool;
}.

Record Link := { l_URL : gostr; l_Expiration : option Z; l_IPCacheKey : bool }.

(** A method a driver may lack; one of two kinds returns the new object, or nil. *)
Inductive method (I D : Type) :=
  | NoMethod
  | Plain (f : I → D → result unit * D)
  | WithResult (f : I → D → result (option Obj) * D).
Arguments NoMethod {I D}.
Arguments Plain {I D} f.
Arguments WithResult {I D} f.

Inductive root_kind (D : Type) :=
  | GetRooter (f : D → result (option Obj) * D)
  | IRootId (id : gostr)
  | IRootPath (path : gostr)
  | NoRoot.
Arguments GetRooter {D} f.
Arguments IRootId {D} id.
Arguments IRootPath {D} path.
Arguments NoRoot {D}.

(** A file to upload: its name, its size and the object it replaces. *)
Record upload := { u_Name : gostr; u_Size : Z; u_Exist : option Obj }.

Class FsDriver := {
  dstate : Type;
  d_Config : Config;
  d_Storage : Storage;
  d_root : root_kind dstate;
  d_Get : option (gostr → dstate → result Obj * dstate);
  d_List : Obj → bool → dstate → result (list Obj) * dstate;
  d_Link : Obj → gostr → dstate → result Link * dstate;
  d_MakeDir : method (Obj * gostr) dstate;
  d_Move : method (Obj * Obj) dstate;
  d_Rename : method (Obj * gostr) dstate;
  d_Copy : method (Obj * Obj) dstate;
  d_Remove : option (Obj → dstate → result unit * dstate);
  d_Put : method (Obj * upload) dstate;
  d_PutURL : method (Obj * gostr * gostr) dstate;
}.

(** ** The state *)

(** A slice from the start of an array; its capacity is the array's length. *)
Record slice := { s_arr : positive; s_len : nat }.

Section fs.
Context {FD : FsDriver} {SL : SortLib} (names : char_map) (grow : nat → nat).

Record fs := {
  arrays : gmap positive (list (option Obj));
  listCache : gmap gostr slice;
  linkCache : gmap gostr Link;
  addSortDebounceMap : gmap gostr slice;
  drv_state : dstate;
}.

Definition set_arrays x (s : fs) : fs :=
  {| arrays := x; listCache := listCache s; linkCache := linkCache s;
     addSortDebounceMap := addSortDebounceMap s; drv_state := drv_state s |}.
Definition set_listCache x (s : fs) : fs :=
  {| arrays := arrays s; listCache := x; linkCache := linkCache s;
     addSortDebounceMap := addSortDebounceMap s; drv_state := drv_state s |}.
Definition set_linkCache x (s : fs) : fs :=
  {| arrays := arrays s; listCache := listCache s; linkCache := x;
     addSortDebounceMap := addSortDebounceMap s; drv_state := drv_state s |}.
Definition set_debounce x (s : fs) : fs :=
  {| arrays := arrays s; listCache := listCache s; linkCache := linkCache s;
     addSortDebounceMap := x; drv_state := drv_state s |}.
Definition set_drv_state x (s : fs) : fs :=
  {| arrays := arrays s; listCache := listCache s; linkCache := linkCache s;
     addSortDebounceMap := addSortDebounceMap s; drv_state := x |}.

(** A call returns a value or an error, panics, or has no fuel left. *)
Inductive exec (A : Type) := Done (r : result A) (s : fs) | Crash | NoFuel.
Arguments Done {A} r s.
Arguments Crash {A}.
Arguments NoFuel {A}.

Definition Fs (A : Type) := fs → exec A.
Definition fs_ret {A} (a : A) : Fs A := λ s, Done (inr a) s.
Definition fs_fail {A} (e : error) : Fs A := λ s, Done (inl e) s.
Definition fs_crash {A} : Fs A := λ _, Crash.
Definition fs_bind {A B} (m : Fs A) (k : A → Fs B) : Fs B :=
  λ s, match m s with
       | Done (inr a) s' => k a s'
       | Done (inl e) s' => Done (inl e) s'
       | Crash => Crash
       | NoFuel => NoFuel
       end.

(** A call whose error the caller looks at. *)
Definition fs_try {A} (m : Fs A) : Fs (result A) :=
  λ s, match m s with
       | Done r s' => Done (inr r) s'
       | Crash => Crash
       | NoFuel => NoFuel
       end.
Definition fs_gets {A} (f : fs → A) : Fs A := λ s, Done (inr (f s)) s.
Definition fs_modify (f : fs → fs) : Fs unit := λ s, Done (inr ()) (f s).
Definition fs_wrap {A} (m : Fs A) (msg : gostr) : Fs A :=
  λ s, match m s with Done (inl e) s' => Done (inl (EWithMessage e msg)) s' | r => r end.
Definition on_drv {A} (f : dstate → result A * dstate) : Fs A :=
  λ s, let '(r, d) := f (drv_state s) in Done r (set_drv_state d s).
End fs.
Arguments Done {FD A} r s.
Arguments Crash {FD A}.
Arguments NoFuel {FD A}.

Notation "'let%' x ':=' m 'in' k" := (fs_bind m (λ x, k))
  (at level 10, x pattern, m at level 100, k at level 200,
   format "'[v' 'let%'  x  ':='  m  'in' '//' k ']'") : go_scope.

Section ops.
Context {FD : FsDriver} {SL : SortLib} (names : char_map) (grow : nat → nat).

(** ** Slices *)

(** The elements of a slice; a nil among them is [None]. *)
Definition elems (s : fs) (sl : slice) : list (option Obj) :=
  take (s_len sl) (default [] (arrays s !! s_arr sl)).

(** A new array with room for [extra] more elements. *)
Definition alloc (l : list (option Obj)) (extra : nat) : Fs slice :=
  λ s, let a := fresh (dom (arrays s)) in
       Done (inr {| s_arr := a; s_len := length l |})
            (set_arrays (<[a := l ++ replicate extra None]> (arrays s)) s).

Definition store (a : positive) (i : nat) (x : option Obj) (s : fs) : fs :=
  set_arrays (alter (λ l, <[i := x]> l) a (arrays s)) s.

(** [append(objs, x)]: in place when there is room. *)
Definition slice_append (sl : slice) (x : option Obj) : Fs slice :=
  λ s, if (s_len sl <? length (default [] (arrays s !! s_arr sl)))%nat
       then Done (inr {| s_arr := s_arr sl; s_len := S (s_len sl) |}) (store (s_arr sl) (s_len sl) x s)
       else alloc (elems s sl ++ [x]) (grow (S (s_len sl))) s.

(** The elements after the [i]-th move down by one; the last place keeps its
    element ([append(objs[:i], objs[i+1:]...)]) or is cleared
    ([slices.Delete(objs, i, i+1)]). *)
Definition shift_down (i n : nat) (clear : bool) (l : list (option Obj)) : list (option Obj) :=
  take i l ++ drop (S i) (take n l) ++
  (if clear then [None] else take 1 (drop (n - 1) l)) ++ drop n l.

Definition slice_remove (clear : bool) (sl : slice) (i : nat) : Fs slice :=
  λ s, Done (inr {| s_arr := s_arr sl; s_len := s_len sl - 1 |})
            (set_arrays (alter (shift_down i (s_len sl) clear) (s_arr sl) (arrays s)) s).

(** The loops that look for a name: a nil before it is found panics. *)
Fixpoint find_name (i : nat) (name : gostr) (l : list (option Obj)) : option (option nat) :=
  match l with
  | [] => Some None
  | None :: _ => None
  | Some o :: l' => if bool_decide (GetName o = name) then Some (Some i) else find_name (S i) name l'
  end.

Definition search (sl : slice) (name : gostr) : Fs (option nat) :=
  λ s, match find_name 0 name (elems s sl) with
       | Some r => Done (inr r) s
       | None => Crash
       end.

(** ** The listing cache *)

Definition Key (path : gostr) : gostr := path_join (MountPath d_Storage) (FixAndCleanPath path).

Definition cache_set (key : gostr) (sl : slice) : Fs unit :=
  fs_modify (λ s, set_listCache (<[key := sl]> (listCache s)) s).

Definition updateCacheObj (path : gostr) (oldObj newObj : Obj) : Fs unit :=
  let key := Key path in
  let% cached := fs_gets (λ s, listCache s !! key) in
  match cached with
  | None => fs_ret ()
  | Some objs =>
      let% i := search objs (GetName newObj) in
      let% objs := match i with Some i => slice_remove true objs i | None => fs_ret objs end in
      let% i := search objs (GetName oldObj) in
      let% _ := match i with
                | Some i => fs_modify (store (s_arr objs) i (Some newObj))
                | None => fs_ret ()
                end in
      cache_set key objs
  end.

Definition delCacheObj (path : gostr) (obj : Obj) : Fs unit :=
  let key := Key path in
  let% cached := fs_gets (λ s, listCache s !! key) in
  match cached with
  | None => fs_ret ()
  | Some objs =>
      let% i := search objs (GetName obj) in
      let% objs := match i with Some i => slice_remove false objs i | None => fs_ret objs end in
      cache_set key objs
  end.

(** [objs[len(objs)-1].IsDir() == newObj.IsDir()] for a slice that is not empty. *)
Definition last_same_kind (objs : slice) (newObj : Obj) : Fs bool :=
  λ s, match last (elems s objs) with
       | None => Done (inr false) s
       | Some None => Crash
       | Some (Some o) => Done (inr (bool_decide (IsDir o = IsDir newObj))) s
       end.

Definition addCacheObj (path : gostr) (newObj : Obj) : Fs unit :=
  let key := Key path in
  let% cached := fs_gets (λ s, listCache s !! key) in
  match cached with
  | None => fs_ret ()
  | Some objs =>
      let% i := search objs (GetName newObj) in
      match i with
      | Some i => fs_modify (store (s_arr objs) i (Some newObj))
      | None =>
          let% same := last_same_kind objs newObj in
          let% objs :=
            if same then slice_append objs (Some newObj)
            else λ s, alloc (Some newObj :: elems s objs) (grow (S (s_len objs))) s in
          let% _ := (if LocalSort d_Config
                     then fs_modify (λ s, set_debounce (<[key := objs]> (addSortDebounceMap s)) s)
                     else fs_ret ()) in
          cache_set key objs
      end
  end.

(** What the timer of [addCacheObj] runs: the sort of the slice it was given. *)
Definition debounced_sort (key : gostr) : Fs unit :=
  λ s, match addSortDebounceMap s !! key with
       | None => Done (inr ()) s
       | Some sl =>
           match SortFiles (elems s sl) (OrderBy (st_Sort d_Storage)) (OrderDirection (st_Sort d_Storage)) with
           | None => Crash
           | Some l =>
               Done (inr ()) (set_debounce (delete key (addSortDebounceMap s))
                 (set_arrays (alter (λ a, l ++ drop (s_len sl) a) (s_arr sl) (arrays s)) s))
           end
       end.

Fixpoint ClearCache (fuel : nat) (path : gostr) : Fs unit :=
  match fuel with
  | O => λ _, NoFuel
  | S fuel =>
      let% objs := fs_gets (λ s, match listCache s !! Key path with Some sl => elems s sl | None => [] end) in
      let% _ := (fix each (objs : list (option Obj)) : Fs unit :=
        match objs with
        | [] => fs_ret ()
        | None :: _ => fs_crash
        | Some obj :: objs' =>
            let% _ := (if IsDir obj then ClearCache fuel (path_join path (GetName obj)) else fs_ret ()) in
            each objs'
        end) objs in
      fs_modify (λ s, set_listCache (delete (Key path) (listCache s)) s)
  end.

(** ** Listing and finding *)

Definition status_check : Fs unit :=
  if CheckStatus d_Config && negb (bool_decide (st_Status d_Storage = WORK))
  then fs_fail (EMessage (#"storage not init: " ++ st_Status d_Storage)) else fs_ret ().

Definition root_error : error := EMessage #"please implement IRootPath or IRootId or GetRooter method".

Definition root_object (id path : gostr) : Obj :=
  Raw {| o_ID := id; o_Path := path; o_Name := #"root"; o_Size := 0; o_Modified := Modified d_Storage; o_IsFolder := true |}.

Definition get_root : Fs Obj :=
  let% rootObj :=
    match d_root with
    | GetRooter f => fs_wrap (on_drv f) #"failed get root obj"
    | IRootId id => fs_ret (Some (root_object id []))
    | IRootPath p => fs_ret (Some (root_object [] p))
    | NoRoot => fs_ret None
    end in
  match rootObj with
  | None => fs_fail root_error
  | Some o => fs_ret (ObjWrapName #"root" o)
  end.

(** [Get] with the [List] it calls for the parent. *)
Definition get_via (list : gostr → Fs slice) (path : gostr) : Fs Obj :=
  let path := FixAndCleanPath path in
  let% direct := match d_Get with
                 | Some g => fs_try (on_drv (g path))
                 | None => fs_ret (inl (ESentinel NotImplement))
                 end in
  match direct with
  | inr obj => fs_ret (WrapObjName names obj)
  | inl _ =>
      if PathEqual path #"/" then get_root
      else
        let '(dir, name) := path_Split path in
        let% files := fs_wrap (list dir) #"failed get parent list" in
        let% i := search files name in
        match i with
        | None => fs_fail (EWithMessage (ESentinel ObjectNotFound) [])
        | Some i => λ s, match elems s files !! i with
                         | Some (Some f) => Done (inr f) s
                         | _ => Crash
                         end
        end
  end.

Definition unwrap_via (list : gostr → Fs slice) (path : gostr) : Fs Obj :=
  let% obj := get_via list path in fs_ret (UnwrapObj obj).

(** A file that was given no path gets one. *)
Definition set_path (dir f : Obj) : Obj :=
  if can_SetPath f && bool_decide (GetPath f = #"") && negb (bool_decide (GetPath dir = #""))
  then SetPath (path_join (GetPath dir) (GetName f)) f else f.

(** The files of the driver, prepared for the cache. *)
Definition sort_files (files : list Obj) : list Obj :=
  let sort := st_Sort d_Storage in
  if LocalSort d_Config then
    match SortFiles (Some <$> files) (OrderBy sort) (OrderDirection sort) with
    | Some l => omap id l
    | None => files
    end
  else files.

Definition prepare (dir : Obj) (files : list Obj) : list Obj :=
  let files := (λ f, WrapObjName names (set_path dir f)) <$> files in
  ExtractFolder_objs (sort_files files) (ExtractFolder (st_Sort d_Storage)).

(** An empty listing is not cached. *)
Definition cache_listing (key : gostr) (files : list Obj) (objs : slice) : Fs unit :=
  if NoCache d_Config then fs_ret ()
  else if (0 <? length files)%nat then cache_set key objs
  else fs_modify (λ s, set_listCache (delete key (listCache s)) s).

Fixpoint op_List (fuel : nat) (path : gostr) (refresh : bool) : Fs slice :=
  match fuel with
  | O => λ _, NoFuel
  | S fuel =>
      let% _ := status_check in
      let path := FixAndCleanPath path in
      let key := Key path in
      let% cached := fs_gets (λ s, if refresh then None else listCache s !! key) in
      match cached with
      | Some objs => fs_ret objs
      | None =>
          let% dir := fs_wrap (unwrap_via (λ p, op_List fuel p false) path) #"failed get dir" in
          if negb (IsDir dir) then fs_fail (EWithMessage (ESentinel NotFolder) [])
          else
            let% files := fs_wrap (on_drv (d_List dir refresh)) #"failed to list objs" in
            let files := prepare dir files in
            let% objs := alloc (Some <$> files) 0 in
            let% _ := cache_listing key files objs in
            fs_ret objs
      end
  end.

(** One call per component of the path, and one for the root. *)
Definition path_fuel (path : gostr) : nat := S (length (FixAndCleanPath path)).

Definition fs_List (path : gostr) (refresh : bool) : Fs slice := op_List (S (path_fuel path)) path refresh.
Definition fs_Get (path : gostr) : Fs Obj := get_via (λ p, op_List (path_fuel path) p false) path.
Definition fs_GetUnwrap (path : gostr) : Fs Obj := let% obj := fs_Get path in fs_ret (UnwrapObj obj).

(** ** Links *)

Definition fs_Link (path ip : gostr) : Fs (Link * Obj) :=
  let% _ := status_check in
  let% file := fs_wrap (fs_GetUnwrap path) #"failed to get file" in
  if IsDir file then fs_fail (EWithMessage (ESentinel NotFile) [])
  else
    let key := Key path in
    let% cached := fs_gets (λ s, linkCache s !! key) in
    match cached with
    | Some link => fs_ret (link, file)
    | None =>
        let% link := fs_wrap (on_drv (d_Link file ip)) #"failed get link" in
        let% _ := match l_Expiration link with
                  | None => fs_ret ()
                  | Some _ =>
                      let key := if l_IPCacheKey link then key ++ #":" ++ ip else key in
                      fs_modify (λ s, set_linkCache (<[key := link]> (linkCache s)) s)
                  end in
        fs_ret (link, file)
    end.

(** ** Changing objects *)

(** More than the components any cached key has. *)
Definition clear_fuel (s : fs) : nat := S (S (max_list (length <$> (map_to_list (listCache s)).*1))).
Definition clear (path : gostr) : Fs unit := λ s, ClearCache (clear_fuel s) path s.

(** After a change in a directory: the new object, if the driver returned it,
    goes in its listing; otherwise the listing is dropped, unless the caller
    does so later. *)
Definition run_method {I} (m : method I dstate) (arg : I) (before : Fs unit)
    (dir : gostr) (add : Obj → Fs unit) (lazy : bool) : Fs unit :=
  match m with
  | NoMethod => fs_fail (ESentinel NotImplement)
  | WithResult f =>
      let% newObj := fs_wrap (on_drv (f arg)) [] in
      let% _ := before in
      match newObj with
      | Some o => add (WrapObjName names o)
      | None => if lazy then fs_ret () else clear dir
      end
  | Plain f =>
      let% _ := fs_wrap (on_drv (f arg)) [] in
      let% _ := before in
      if lazy then fs_ret () else clear dir
  end.

Fixpoint make_dir (fuel : nat) (path : gostr) (lazy : bool) : Fs unit :=
  match fuel with
  | O => λ _, NoFuel
  | S fuel =>
      let% _ := status_check in
      let path := FixAndCleanPath path in
      let% f := fs_try (fs_GetUnwrap path) in
      match f with
      | inr f => if IsDir f then fs_ret () else fs_fail (EMessage #"file exists")
      | inl e =>
          if IsObjectNotFound e then
            let '(parentPath, dirName) := path_Split path in
            let% _ := fs_wrap (make_dir fuel parentPath false) #"failed to make parent dir" in
            let% parentDir := fs_wrap (fs_GetUnwrap parentPath) #"failed to get parent dir" in
            run_method d_MakeDir (parentDir, dirName) (fs_ret ()) parentPath (addCacheObj parentPath) lazy
          else fs_fail (EWithMessage e #"failed to check if dir exists")
      end
  end.

Definition fs_MakeDir (path : gostr) (lazy : bool) : Fs unit := make_dir (path_fuel path) path lazy.

Definition fs_Move (srcPath dstDirPath : gostr) (lazy : bool) : Fs unit :=
  let% _ := status_check in
  let srcPath := FixAndCleanPath srcPath in
  let dstDirPath := FixAndCleanPath dstDirPath in
  let% srcRawObj := fs_wrap (fs_Get srcPath) #"failed to get src object" in
  let% dstDir := fs_wrap (fs_GetUnwrap dstDirPath) #"failed to get dst dir" in
  run_method d_Move (UnwrapObj srcRawObj, dstDir) (delCacheObj (path_Dir srcPath) srcRawObj)
    dstDirPath (addCacheObj dstDirPath) lazy.

Definition fs_Rename (srcPath dstName : gostr) (lazy : bool) : Fs unit :=
  let% _ := status_check in
  let srcPath := FixAndCleanPath srcPath in
  let% srcRawObj := fs_wrap (fs_Get srcPath) #"failed to get src object" in
  let srcDirPath := path_Dir srcPath in
  run_method d_Rename (UnwrapObj srcRawObj, dstName) (fs_ret ())
    srcDirPath (updateCacheObj srcDirPath srcRawObj) lazy.

Definition fs_Copy (srcPath dstDirPath : gostr) (lazy : bool) : Fs unit :=
  let% _ := status_check in
  let dstDirPath := FixAndCleanPath dstDirPath in
  let% srcObj := fs_wrap (fs_GetUnwrap (FixAndCleanPath srcPath)) #"failed to get src object" in
  let% dstDir := fs_wrap (fs_GetUnwrap dstDirPath) #"failed to get dst dir" in
  run_method d_Copy (srcObj, dstDir) (fs_ret ()) dstDirPath (addCacheObj dstDirPath) lazy.

Definition fs_Remove (path : gostr) : Fs unit :=
  let% _ := status_check in
  if PathEqual path #"/" then fs_fail (EMessage #"delete root folder is not allowed")
  else
    let path := FixAndCleanPath path in
    let% rawObj := fs_try (fs_Get path) in
    match rawObj with
    | inl e => if IsObjectNotFound e then fs_ret () else fs_fail (EWithMessage e #"failed to get object")
    | inr rawObj =>
        match d_Remove with
        | None => fs_fail (ESentinel NotImplement)
        | Some remove =>
            let% _ := fs_wrap (on_drv (remove (UnwrapObj rawObj))) [] in
            let% _ := delCacheObj (path_Dir path) rawObj in
            if IsDir rawObj then clear path else fs_ret ()
        end
    end.

(** The part of an [UrlTree] path before the URL: [None] when the slice
    expression panics. *)
Definition urlTreeSplitLineFormPath (path : gostr) : option (gostr * gostr) :=
  let path := replace_first path #"https:/" #"https://" in
  let path := replace_first path #"http:/" #"http://" in
  let split :=
    if Contains path #":https:/" || Contains path #":http:/" then
      let fPath := take (Z.to_nat (Index path #":")) path in
      let pp := fst (path_Split fPath) in
      Some (pp, drop (length pp) path)
    else if Contains path #"/https:/" || Contains path #"/http:/" then
      let index := Index path #"/http://" in
      let index := if index =? -1 then Index path #"/https://" else index in
      if index <? 0 then None else Some (take (Z.to_nat index) path, drop (Z.to_nat index + 1) path)
    else Some (path_Split path) in
  match split with
  | Some (pp, file) => Some (if bool_decide (pp = #"") then #"/" else pp, file)
  | None => None
  end.

Definition with_Exist (o : Obj) (f : upload) : upload :=
  {| u_Name := u_Name f; u_Size := u_Size f; u_Exist := Some o |}.

(** Where the file goes, and the file. *)
Definition put_target (dstDirPath : gostr) (file : upload) : option (gostr * upload) :=
  if bool_decide (st_Driver d_Storage = #"UrlTree") then
    match urlTreeSplitLineFormPath (path_join dstDirPath (u_Name file)) with
    | Some (pp, link) => Some (pp, {| u_Name := link; u_Size := 0; u_Exist := None |})
    | None => None
    end
  else Some (dstDirPath, file).

(** What becomes of an object that is already there: an empty one is removed,
    and a driver that cannot overwrite has it renamed. *)
Definition put_existing (dstDirPath : gostr) (file : upload) (fi : option Obj) : Fs upload :=
  match fi with
  | None => fs_ret file
  | Some fi =>
      let dstPath := path_join dstDirPath (u_Name file) in
      if GetSize fi =? 0 then
        let% _ := fs_wrap (fs_Remove dstPath) #"while uploading, failed remove existing file which size = 0" in
        fs_ret file
      else if NoOverwriteUpload d_Config then
        let% _ := fs_Rename dstPath (u_Name file ++ #".alist_to_delete") false in
        fs_ret file
      else fs_ret (with_Exist fi file)
  end.

(** Once the upload ended: the renamed object comes back or goes. *)
Definition put_finish (dstDirPath : gostr) (file : upload) (fi : option Obj) (r : result unit) : Fs unit :=
  let done := match r with inl e => fs_fail e | inr _ => fs_ret () end in
  match fi with
  | Some fi =>
      if NoOverwriteUpload d_Config && (0 <? GetSize fi) then
        let tempPath := path_join dstDirPath (u_Name file ++ #".alist_to_delete") in
        match r with
        | inl _ => let% _ := fs_try (fs_Rename tempPath (u_Name file) false) in done
        | inr _ =>
            let% _ := fs_Remove tempPath in
            fs_modify (λ s, set_linkCache (delete (Key (path_join dstDirPath (u_Name file))) (linkCache s)) s)
        end
      else done
  | None => done
  end.

(** Does the driver take uploads? *)
Definition has_method {I D} (m : method I D) : bool := match m with NoMethod => false | _ => true end.

Definition fs_Put (dstDirPath : gostr) (file : upload) (lazy : bool) : Fs unit :=
  let% _ := status_check in
  match put_target dstDirPath file with
  | None => fs_crash
  | Some (dstDirPath, file) =>
      let dstDirPath := FixAndCleanPath dstDirPath in
      let% found := fs_try (fs_GetUnwrap (path_join dstDirPath (u_Name file))) in
      let fi := match found with inr fi => Some fi | inl _ => None end in
      let% file := put_existing dstDirPath file fi in
      let% _ := fs_wrap (fs_MakeDir dstDirPath false) #"failed to make dir" in
      let% parentDir := fs_wrap (fs_GetUnwrap dstDirPath) #"failed to get dir" in
      if has_method d_Put then
        let% r := fs_try (run_method d_Put (parentDir, file) (fs_ret ()) dstDirPath (addCacheObj dstDirPath) lazy) in
        put_finish dstDirPath file fi r
      else fs_fail (ESentinel NotImplement)
  end.

Definition fs_PutURL (dstDirPath dstName url : gostr) (lazy : bool) : Fs unit :=
  let% _ := status_check in
  let dstDirPath := FixAndCleanPath dstDirPath in
  let% found := fs_try (fs_GetUnwrap (path_join dstDirPath dstName)) in
  match found with
  | inr _ => fs_fail (EMessage #"obj already exists")
  | inl _ =>
      let% _ := fs_wrap (fs_MakeDir dstDirPath false) #"failed to put url" in
      let% dstDir := fs_wrap (fs_GetUnwrap dstDirPath) #"failed to put url" in
      run_method d_PutURL (dstDir, dstName, url) (fs_ret ()) dstDirPath (addCacheObj dstDirPath) lazy
  end.
End ops.
