(* ===== verification/FsOpsExamples.v ===== *)
(** * Package [op] on a driver in memory

    A driver that keeps its objects by path, as an instance of the interface
    of [FsOps], and runs on it: what the operations do, and where the caches
    and the upload do what they should not. *)

From S2P Require Import Prelude GoStrings Errs Store Paths Users Accounts Storage FsOps.

Local Open Scope Z_scope.

Module Mem.
Definition objects := gmap gostr Object.

Definition mk (path : gostr) (size : Z) (dir : bool) : Object :=
  {| o_ID := []; o_Path := path; o_Name := path_Base path; o_Size := size; o_Modified := 0; o_IsFolder := dir |}.

Definition tree (l : list (gostr * Z * bool)) : objects :=
  list_to_map ((λ '(p, n, d), (p, mk p n d)) <$> l).

(** The objects in a directory, and those at or below a path. *)
Definition children (p : gostr) (t : objects) : list Object :=
  (map_to_list (filter (λ kv, path_Dir kv.1 = p ∧ kv.1 ≠ p) t)).*2.
Definition below (p : gostr) (t : objects) : list Object :=
  (map_to_list (filter (λ kv, IsSubPath p kv.1 = true) t)).*2.

Definition remove (p : gostr) (t : objects) : objects :=
  filter (λ kv, IsSubPath p kv.1 = false) t.

(** Everything at or below [p], now at or below [q]. *)
Definition relocate (p q : gostr) (o : Object) : Object :=
  {| o_ID := o_ID o; o_Path := q ++ drop (length p) (o_Path o);
     o_Name := path_Base (q ++ drop (length p) (o_Path o)); o_Size := o_Size o;
     o_Modified := o_Modified o; o_IsFolder := o_IsFolder o |}.
Definition insert_all (l : list Object) (t : objects) : objects :=
  foldr (λ o t, <[o_Path o := o]> t) t l.

Definition add (o : Object) (t : objects) : result (option Obj) * objects :=
  (inr (Some (Raw o)), <[o_Path o := o]> t).

Definition move (p q : gostr) (t : objects) : result (option Obj) * objects :=
  let t' := insert_all (relocate p q <$> below p t) (remove p t) in
  (inr (Raw <$> t' !! q), t').

Definition copy (p q : gostr) (t : objects) : result (option Obj) * objects :=
  let t' := insert_all (relocate p q <$> below p t) t in
  (inr (Raw <$> t' !! q), t').

(** The same calls without their result. *)
Definition plain {I} (results : bool) (f : I → objects → result (option Obj) * objects) : method I objects :=
  if results then WithResult f
  else Plain (λ i t, let '(r, t') := f i t in (match r with inl e => inl e | inr _ => inr () end, t')).

Definition storage (order : gostr) : Storage :=
  {| st_ID := 1; MountPath := #"/mnt"; st_Order := 0; st_Driver := #"Mem"; CacheExpiration := 30; st_Status := WORK;
     Addition := []; Remark := []; Modified := 0; st_Disabled := false; DisableIndex := false; EnableSign := false;
     st_Sort := {| OrderBy := order; OrderDirection := #"asc"; ExtractFolder := #"front" |};
     st_Proxy := {| WebProxy := false; WebdavPolicy := []; ProxyRange := false; DownProxyUrl := []; DownProxySign := false |} |}.

Definition driver (results local_sort : bool) : FsDriver := {|
  dstate := objects;
  d_Config := {| LocalSort := local_sort; OnlyLocal := false; NoCache := false; CheckStatus := true;
                 NoOverwriteUpload := false |};
  d_Storage := storage #"name";
  d_root := IRootPath #"/";
  d_Get := None;
  d_List dir _ t := (inr (Raw <$> children (GetPath dir) t), t);
  d_Link file ip t := (inr {| l_URL := GetPath file; l_Expiration := Some 60; l_IPCacheKey := true |}, t);
  d_MakeDir := plain results (λ '(dir, name) t, add (mk (path_join (GetPath dir) name) 0 true) t);
  d_Move := plain results (λ '(src, dir) t, move (GetPath src) (path_join (GetPath dir) (GetName src)) t);
  d_Rename := plain results (λ '(src, name) t, move (GetPath src) (path_join (path_Dir (GetPath src)) name) t);
  d_Copy := plain results (λ '(src, dir) t, copy (GetPath src) (path_join (GetPath dir) (GetName src)) t);
  d_Remove := Some (λ o t, (inr (), remove (GetPath o) t));
  d_Put := plain results (λ '(dir, f) t, add (mk (path_join (GetPath dir) (u_Name f)) (u_Size f) false) t);
  d_PutURL := NoMethod;
|}.

#[export] Instance sort_lib : SortLib := {|
  sort_Slice A less l := sort_SliceStable less l;
  natural_Less a b := negb (str_leb b a);
|}.

Definition start {FD : FsDriver} (t : dstate) : fs :=
  {| arrays := ∅; listCache := ∅; linkCache := ∅; addSortDebounceMap := ∅; drv_state := t |}.

(** The names a listing returns. *)
Definition list_names {FD : FsDriver} (m : exec slice) : option (list gostr) :=
  match m with
  | Done (inr sl) s => mapM (fmap GetName) (elems s sl)
  | _ => None
  end.

Definition after {FD : FsDriver} {A} (m : exec A) (s0 : fs) : fs :=
  match m with Done _ s => s | _ => s0 end.
Definition crashed {FD : FsDriver} {A} (m : exec A) : bool := match m with Crash => true | _ => false end.
Definition ok {FD : FsDriver} {A} (m : exec A) : bool := match m with Done (inr _) _ => true | _ => false end.
End Mem.
Import Mem.

Definition t0 : objects := tree [( #"/a", 0, true); ( #"/a/b", 0, true); ( #"/a/b/x", 7, false); ( #"/f", 5, false)].

(** ** Runs *)

Definition D : FsDriver := driver true false.
#[local] Existing Instance D.

(** The rest of a run. *)
Definition run (ms : list (Fs unit)) (s : fs) : fs := foldl (λ s m, after (m s) s) s ms.
Definition listed (p : gostr) : Fs unit := let% _ := fs_List [] p false in fs_ret ().

Example listing_and_changes :
  list_names (fs_List [] #"/" false (start t0)) = Some [ #"a"; #"f"] ∧
  (let s := run [listed #"/"; fs_MakeDir [] Nat.double #"/n/m" false;
                 fs_Put [] Nat.double #"/n" {| u_Name := #"p"; u_Size := 3; u_Exist := None |} false;
                 fs_Rename [] #"/f" #"g" false; fs_Remove [] #"/a"] (start t0) in
   list_names (fs_List [] #"/" false s) = Some [ #"n"; #"g"] ∧
   list_names (fs_List [] #"/n" false s) = Some [ #"p"; #"m"] ∧
   list_names (fs_List [] #"/a" false s) = None).
Proof. vm_compute. split_ands; reflexivity. Qed.

(** Three ways in which a listing outlives its directory: a directory that
    is moved or renamed keeps its cached listing under the old path; and when
    the listing of a directory expired before the one of a directory in it,
    removing the former leaves the latter.  The listing is then returned for a
    path at which [Get] finds nothing. *)
Theorem stale_listings :
  (let s := run [listed #"/a"; fs_Move [] Nat.double #"/a" #"/f2" false]
                (start (tree [( #"/a", 0, true); ( #"/a/x", 1, false); ( #"/f2", 0, true)])) in
   list_names (fs_List [] #"/a" false s) = Some [ #"x"] ∧ ok (fs_Get [] #"/a" s) = false) ∧
  (let s := run [listed #"/a/b"; fs_Rename [] #"/a" #"z" false] (start t0) in
   list_names (fs_List [] #"/a" false s) = Some [ #"b"] ∧ ok (fs_Get [] #"/a" s) = false) ∧
  (let s := run [listed #"/a/b"] (start t0) in
   let s := set_listCache (delete #"/mnt/a" (listCache s)) s in
   let s := run [listed #"/"; fs_Remove [] #"/a"] s in
   list_names (fs_List [] #"/a/b" false s) = Some [ #"x"] ∧ ok (fs_Get [] #"/a" s) = false).
Proof. vm_compute. split_ands; reflexivity. Qed.

(** An upload removes what is there under its name when that has size zero,
    which is what drivers report for a directory: a file named like a directory
    deletes the directory with everything in it, also for a user who may write
    but not remove. *)
Theorem upload_removes_directory :
  let s := run [fs_Put [] Nat.double #"/" {| u_Name := #"a"; u_Size := 3; u_Exist := None |} false] (start t0) in
  drv_state (start t0) !! #"/a/b/x" = Some (mk #"/a/b/x" 7 false) ∧
  drv_state s !! #"/a/b/x" = None ∧ drv_state s !! #"/a" = Some (mk #"/a" 3 false).
Proof. vm_compute. split_ands; reflexivity. Qed.

(** The URL of the link a request gets. *)
Definition link_url (m : exec (Link * Obj)) : gostr :=
  match m with Done (inr (l, _)) _ => l_URL l | _ => [] end.

(** A link bound to the address of a client is cached under the key of its
    file, a colon and the address, but looked up under the key alone: it is
    never found again for its own file, and it is found for the file whose name
    ends in a colon and that address. *)
Example address_link_confused :
  let t := tree [( #"/f", 5, false); ( #"/f:10.0.0.1", 6, false)] in
  let s := after (fs_Link [] #"/f" #"10.0.0.1" (start t)) (start t) in
  linkCache s !! Key #"/f" = None ∧
  link_url (fs_Link [] #"/f:10.0.0.1" #"10.9.9.9" s) = #"/f".
Proof. vm_compute. split_ands; reflexivity. Qed.

(** ** Directory names that are not names *)

(** A listing with a directory called [.], as the S3 driver returns for a bucket
    with a key that starts with a slash. *)
Definition dotted : fs :=
  {| arrays := {[ 1%positive := [Some (ObjWrapName #"." (Raw (mk #"/" 0 true)))] ]};
     listCache := {[ #"/mnt" := {| s_arr := 1; s_len := 1 |} ]};
     linkCache := ∅; addSortDebounceMap := ∅; drv_state := t0 |}.

(** Clearing the cache never ends when a cached listing has a directory
    called [.]: the recursion is on the same path again, whatever the fuel. *)
Theorem ClearCache_diverges fuel : ClearCache fuel #"/" dotted = NoFuel.
Proof.
  induction fuel as [|fuel IH]; [done|].
  cbn [ClearCache]. unfold fs_bind at 1, fs_gets.
  replace (match listCache dotted !! Key #"/" with Some sl => elems dotted sl | None => [] end)
    with [Some (ObjWrapName #"." (Raw (mk #"/" 0 true)))] by (vm_compute; reflexivity).
  unfold fs_bind at 2. cbn [IsDir raw o_IsFolder mk].
  replace (path_join #"/" (GetName (ObjWrapName #"." (Raw (mk #"/" 0 true))))) with #"/" by (vm_compute; reflexivity).
  unfold fs_bind at 1. by rewrite IH.
Qed.

(** ** The sort that comes a minute later *)

(** With a driver that is sorted locally and returns the object it made, a
    new directory schedules a sort of the cached slice.  A rename onto an
    existing name in the meantime deletes an element of that slice in place,
    which leaves a nil behind the end of the cached slice and inside the one
    to be sorted: the timer panics, which ends the server.  A removal in the
    meantime repeats the last element instead, and the sort brings the
    repetition into the cached listing. *)
Theorem debounced_sort_breaks :
  let FD := driver true true in
  let t := tree [( #"/a", 1, false); ( #"/b", 2, false); ( #"/c", 3, false)] in
  let step (s : fs) (m : Fs unit) := after (m s) s in
  let new := {| u_Name := #"aa"; u_Size := 3; u_Exist := None |} in
  let s1 := foldl step (start t) [let% _ := fs_List [] #"/" false in fs_ret (); fs_Put [] Nat.double #"/" new false] in
  crashed (debounced_sort #"/mnt" (step s1 (fs_Rename [] #"/a" #"b" false))) = true ∧
  list_names (fs_List [] #"/" false (step (step s1 (fs_Remove [] #"/a")) (debounced_sort #"/mnt")))
  = Some [ #"aa"; #"aa"; #"b"].
Proof. vm_compute. split_ands; reflexivity. Qed.
