(* ===== verification/FsOpsThms.v ===== *)
(** * The listing cache of package [op]

    The cache holds slices of shared arrays; what it means is a map from keys
    to lists of objects.  The in-place updates implement the list functions on
    that map, no operation panics or runs out of fuel on a well-formed state,
    and for a driver that keeps a tree the cached listings are the ones the
    driver would return. *)

From S2P Require Import Prelude GoStrings Errs Store Paths Users Accounts Storage FsOps FsOpsExamples.

Local Open Scope Z_scope.

(** ** The reference functions on listings *)

Definition find_obj (name : gostr) (l : list Obj) : option nat := fst <$> list_find (λ o, GetName o = name) l.

Definition remove_name (name : gostr) (l : list Obj) : list Obj :=
  match find_obj name l with Some i => delete i l | None => l end.

Definition replace_name (name : gostr) (o : Obj) (l : list Obj) : list Obj :=
  match find_obj name l with Some i => <[i := o]> l | None => l end.

Definition update_obj (old new : Obj) (l : list Obj) : list Obj :=
  replace_name (GetName old) new (remove_name (GetName new) l).

(** Files and directories are kept apart where that takes no search. *)
Definition add_obj (o : Obj) (l : list Obj) : list Obj :=
  match find_obj (GetName o) l with
  | Some i => <[i := o]> l
  | None => if bool_decide (IsDir <$> last l = Some (IsDir o)) then l ++ [o] else o :: l
  end.

Lemma find_obj_Some name l i :
  find_obj name l = Some i → (i < length l)%nat ∧ ∃ o, l !! i = Some o ∧ GetName o = name.
Proof.
  unfold find_obj. intros E. apply fmap_Some in E as ([j o]&E&->). apply list_find_Some in E as (Hj&Hn&_).
  split; [by eapply lookup_lt_Some|]. by exists o.
Qed.

(** *** On listings without repeated names, up to the order *)

Abbreviation obj_names l := (GetName <$> l).
Abbreviation without n l := (filter (λ o, GetName o ≠ n) l).

Lemma find_obj_None name l : find_obj name l = None → Forall (λ o, GetName o ≠ name) l.
Proof. unfold find_obj. intros E%fmap_None. by apply list_find_None in E. Qed.

(** Where a name stands, the rest has other names. *)
Lemma find_obj_split name l i :
  NoDup (obj_names l) → find_obj name l = Some i →
  ∃ l1 o l2, l = l1 ++ o :: l2 ∧ length l1 = i ∧ GetName o = name ∧ without name l = l1 ++ l2.
Proof.
  intros Hnd Hf. unfold find_obj in Hf. apply fmap_Some in Hf as ([j o]&Hf&->).
  apply list_find_Some in Hf as (Hj&Hn&_). destruct (list_elem_of_split_length _ _ _ Hj) as (l1&l2&->&Hl).
  exists l1, o, l2. split_ands; [done|done|done|].
  rewrite fmap_app, fmap_cons in Hnd. apply NoDup_app in Hnd as (_&H1&H2). apply NoDup_cons in H2 as [H2 _].
  rewrite filter_app, filter_cons_False by (intros H; by apply H). f_equal; apply filter_id, Forall_forall.
  - intros x Hx E. apply (H1 name); [|rewrite Hn; left].
    apply list_elem_of_fmap. exists x. by split.
  - intros x Hx E. apply H2. apply list_elem_of_fmap. exists x. split; [congruence|done].
Qed.

Lemma remove_name_perm name l : NoDup (obj_names l) → remove_name name l = without name l.
Proof.
  intros Hnd. unfold remove_name. destruct (find_obj name l) as [i|] eqn:E.
  - destruct (find_obj_split _ _ _ Hnd E) as (l1&o&l2&->&<-&_&->). by rewrite delete_middle.
  - symmetry. by apply filter_id, find_obj_None.
Qed.

Lemma replace_name_perm name x l :
  NoDup (obj_names l) → name ∈ obj_names l → replace_name name x l ≡ₚ x :: without name l.
Proof.
  intros Hnd Hin. unfold replace_name. destruct (find_obj name l) as [i|] eqn:E.
  - destruct (find_obj_split _ _ _ Hnd E) as (l1&o&l2&->&<-&_&->).
    rewrite insert_app_r_alt, Nat.sub_diag by done. simpl. by rewrite <- Permutation_middle.
  - exfalso. apply list_elem_of_fmap in Hin as (o&->&Ho). apply find_obj_None in E.
    rewrite Forall_forall in E. by apply (E o).
Qed.

Lemma add_obj_perm x l : NoDup (obj_names l) → add_obj x l ≡ₚ x :: without (GetName x) l.
Proof.
  intros Hnd. unfold add_obj. destruct (find_obj (GetName x) l) as [i|] eqn:E.
  - pose proof (find_obj_Some _ _ _ E) as (_&o&Ho&Hn). rewrite <- replace_name_perm; [|done|].
    + unfold replace_name. by rewrite E.
    + apply list_elem_of_fmap. exists o. split; [done|]. by eapply list_elem_of_lookup_2.
  - rewrite (filter_id (λ o, GetName o ≠ GetName x)) by by apply find_obj_None.
    case_bool_decide; [|done]. by rewrite Permutation_app_comm.
Qed.

Lemma update_obj_perm old new l :
  NoDup (obj_names l) → GetName old ∈ obj_names l → GetName old ≠ GetName new →
  update_obj old new l ≡ₚ new :: without (GetName old) (without (GetName new) l).
Proof.
  intros Hnd Hin Hne. unfold update_obj. rewrite remove_name_perm by done. apply replace_name_perm.
  - clear Hin. induction l as [|o l IH]; [done|]. rewrite fmap_cons in Hnd. apply NoDup_cons in Hnd as [Ho Hnd].
    rewrite filter_cons. case_decide; [|by apply IH]. rewrite fmap_cons. apply NoDup_cons. split; [|by apply IH].
    intros Hx. apply Ho. apply list_elem_of_fmap in Hx as (y&E&Hy). rewrite E.
    apply list_elem_of_fmap. exists y. split; [done|]. by apply list_elem_of_filter in Hy as [_ ?].
  - apply list_elem_of_fmap in Hin as (o&E&Ho). rewrite E. apply list_elem_of_fmap. exists o. split; [done|].
    apply list_elem_of_filter. split; [congruence|done].
Qed.

(** ** Extracting the folders *)

(** The stable sort that [ExtractFolder] does is the stable partition of the
    listing in directories and files, directories first or last. *)
Lemma ExtractFolder_partition objs extractFolder :
  ExtractFolder_objs objs extractFolder =
    if bool_decide (extractFolder = #"") then objs
    else if bool_decide (extractFolder = #"front")
    then filter (λ o, IsDir o = true) objs ++ filter (λ o, IsDir o = false) objs
    else filter (λ o, IsDir o = false) objs ++ filter (λ o, IsDir o = true) objs.
Proof.
  unfold ExtractFolder_objs. case_bool_decide; [done|].
  assert (∀ front o a b, Forall (λ x, IsDir x = front) a → Forall (λ x, IsDir x = negb front) b →
    insert_stable (folder_less front) o (a ++ b)
    = if decide (IsDir o = front) then o :: a ++ b else a ++ o :: b) as Hins.
  { intros front o a b Ha Hb. induction Ha as [|x a Hx _ IH]; simpl.
    - destruct Hb as [|y b Hy _]; simpl; [by destruct (decide _)|].
      assert (folder_less front y o = false) as ->; [|by destruct (decide _)].
      unfold folder_less. rewrite Hy. destruct front, (IsDir o); done.
    - rewrite IH. unfold folder_less. rewrite Hx. destruct front, (IsDir o); done. }
  assert (∀ front, sort_SliceStable (folder_less front) objs
    = filter (λ o, IsDir o = front) objs ++ filter (λ o, IsDir o = negb front) objs) as Hs.
  { intros front. induction objs as [|o objs IH]; [done|]. cbn [sort_SliceStable foldr].
    fold (sort_SliceStable (folder_less front) objs). rewrite IH, Hins.
    - rewrite !filter_cons. destruct (decide (IsDir o = front)) as [E|E].
      + rewrite (decide_False (P := IsDir o = negb front)); [done|]. rewrite E. by destruct front.
      + rewrite (decide_True (P := IsDir o = negb front)); [done|]. by destruct front, (IsDir o).
    - apply Forall_forall. intros x Hx. by apply list_elem_of_filter in Hx as [? _].
    - apply Forall_forall. intros x Hx. by apply list_elem_of_filter in Hx as [? _]. }
  rewrite Hs. by case_bool_decide.
Qed.

(** ** Slices *)

Section slices.
Context {FD : FsDriver} {SL : SortLib} (names : char_map) (grow : nat → nat).
Implicit Types s : fs.

(** The slice lies in its array and holds the objects, none of them nil. *)
Definition holds s (sl : slice) (l : list Obj) : Prop :=
  ∃ a, arrays s !! s_arr sl = Some a ∧ (s_len sl ≤ length a)%nat ∧ take (s_len sl) a = Some <$> l.

(** The map of listings the cache stands for; no two keys share an array. *)
Definition rep s (v : gmap gostr (list Obj)) : Prop :=
  (∀ k, match listCache s !! k with
        | Some sl => ∃ l, v !! k = Some l ∧ holds s sl l
        | None => v !! k = None
        end) ∧
  (∀ k1 k2 sl1 sl2, listCache s !! k1 = Some sl1 → listCache s !! k2 = Some sl2 →
     s_arr sl1 = s_arr sl2 → k1 = k2).

Lemma holds_elems s sl l : holds s sl l → elems s sl = Some <$> l.
Proof. intros (a&Ha&_&E). unfold elems. by rewrite Ha. Qed.

Lemma holds_len s sl l : holds s sl l → s_len sl = length l.
Proof.
  intros (a&_&Hl&E). apply (f_equal length) in E. rewrite length_fmap, length_take in E. lia.
Qed.

Lemma rep_lookup s v k sl : rep s v → listCache s !! k = Some sl → ∃ l, v !! k = Some l ∧ holds s sl l.
Proof. intros [H _] E. specialize (H k). by rewrite E in H. Qed.

Lemma rep_None s v k : rep s v → listCache s !! k = None → v !! k = None.
Proof. intros [H _] E. specialize (H k). by rewrite E in H. Qed.

(** One entry and its array change. *)
Lemma rep_update s s' v k sl' l' :
  rep s v → (∀ b, b ≠ s_arr sl' → arrays s' !! b = arrays s !! b) →
  listCache s' = <[k := sl']> (listCache s) →
  (arrays s !! s_arr sl' = None ∨ ∃ sl, listCache s !! k = Some sl ∧ s_arr sl = s_arr sl') →
  holds s' sl' l' → rep s' (<[k := l']> v).
Proof.
  intros [H1 H2] Ha Hc Hown Hh.
  assert (∀ k1 sl1, k1 ≠ k → listCache s !! k1 = Some sl1 → s_arr sl1 ≠ s_arr sl') as Hne.
  { intros k1 sl1 Hk E1 E. destruct Hown as [Hf|(sl&Esl&Ea)].
    - pose proof (H1 k1) as H. rewrite E1 in H. destruct H as (l&_&a&Hl&_). congruence.
    - apply Hk. apply (H2 k1 k sl1 sl); [done|done|congruence]. }
  split.
  - intros k1. rewrite Hc. destruct (decide (k1 = k)) as [->|Hk].
    + rewrite !lookup_insert_eq. eauto.
    + rewrite !lookup_insert_ne by done. specialize (H1 k1).
      destruct (listCache s !! k1) as [sl1|] eqn:E1; [|done]. destruct H1 as (l&Hv&a&Hl&Hr).
      exists l. split; [done|]. exists a. rewrite Ha; [done|]. by eapply Hne.
  - intros k1 k2 sl1 sl2. rewrite Hc. intros E1 E2 E.
    destruct (decide (k1 = k)) as [->|Hk1], (decide (k2 = k)) as [->|Hk2]; [done| | |].
    + rewrite lookup_insert_eq in E1. injection E1 as <-. rewrite lookup_insert_ne in E2 by done.
      exfalso. by eapply Hne.
    + rewrite lookup_insert_eq in E2. injection E2 as <-. rewrite lookup_insert_ne in E1 by done.
      exfalso. by eapply (Hne k1 sl1).
    + rewrite lookup_insert_ne in E1, E2 by done. by eapply H2.
Qed.

(** An entry goes. *)
Lemma rep_delete s v k : rep s v → rep (set_listCache (delete k (listCache s)) s) (delete k v).
Proof.
  intros [H1 H2]. split; simpl.
  - intros k1. destruct (decide (k1 = k)) as [->|Hk]; [by rewrite !lookup_delete_eq|].
    rewrite !lookup_delete_ne by done. apply H1.
  - intros k1 k2 sl1 sl2 [_ E1]%lookup_delete_Some [_ E2]%lookup_delete_Some. by eapply H2.
Qed.

(** What does not touch the arrays and the listings. *)
Lemma rep_same s s' v : arrays s' = arrays s → listCache s' = listCache s → rep s v → rep s' v.
Proof.
  intros Ea Ec [H1 H2]. split; [|by rewrite Ec]. intros k. specialize (H1 k). rewrite Ec.
  destruct (listCache s !! k); [|done]. destruct H1 as (l&?&a&?). exists l. split; [done|]. exists a. by rewrite Ea.
Qed.

(** *** The operations on slices *)

Lemma find_name_spec i name l : find_name i name (Some <$> l) = Some (Nat.add i <$> find_obj name l).
Proof.
  unfold find_obj. revert i. induction l as [|o l IH]; intros i; simpl; [done|].
  destruct (decide (GetName o = name)) as [E|E].
  - rewrite bool_decide_true by done. simpl. do 2 f_equal. lia.
  - rewrite bool_decide_false, IH by done. destruct (list_find _ l) as [[j o']|]; simpl; [|done]. do 2 f_equal. lia.
Qed.

Lemma search_spec s sl l name : holds s sl l → search sl name s = Done (inr (find_obj name l)) s.
Proof.
  intros H. unfold search. rewrite (holds_elems _ _ _ H), find_name_spec.
  do 2 f_equal. by destruct (find_obj name l).
Qed.

Lemma store_holds s sl l i x :
  holds s sl l → (i < length l)%nat → holds (store (s_arr sl) i (Some x) s) sl (<[i := x]> l).
Proof.
  intros (a&Ha&Hl&E) Hi. exists (<[i := Some x]> a). unfold store. simpl.
  rewrite lookup_alter_eq, Ha. split; [done|]. rewrite length_insert. split; [done|].
  rewrite list_fmap_insert, <- E. apply take_insert_lt. 
  apply (f_equal length) in E. rewrite length_fmap, length_take in E. lia.
Qed.

Lemma shift_down_spec i n clear a l :
  (n ≤ length a)%nat → take n a = Some <$> l → (i < length l)%nat →
  (n ≤ length (shift_down i n clear a))%nat ∧
  take (n - 1) (shift_down i n clear a) = Some <$> delete i l.
Proof.
  intros Hn E Hi. assert (length l = n) as El.
  { apply (f_equal length) in E. rewrite length_fmap, length_take in E. lia. }
  assert (take i a ++ drop (S i) (take n a) = Some <$> delete i l) as Ed.
  { rewrite list_fmap_delete, <- E. rewrite delete_take_drop. f_equal. rewrite take_take. f_equal. lia. }
  assert (length (take i a ++ drop (S i) (take n a)) = n - 1)%nat as Hlen.
  { rewrite Ed, length_fmap, length_delete by (by apply lookup_lt_is_Some). lia. }
  unfold shift_down. rewrite (assoc_L (++)). split.
  - rewrite length_app, Hlen, length_app, length_drop.
    assert (length (if clear then [None] else take 1 (drop (n - 1) a)) = 1)%nat as ->; [|lia].
    destruct clear; [done|]. rewrite length_take, length_drop. lia.
  - rewrite <- Hlen at 1. by rewrite take_app_length.
Qed.

Lemma slice_remove_holds clear s sl l i s1 sl1 :
  holds s sl l → (i < length l)%nat → slice_remove clear sl i s = Done (inr sl1) s1 →
  s_arr sl1 = s_arr sl ∧ holds s1 sl1 (delete i l).
Proof.
  intros (a&Ha&Hl&E) Hi [= <- <-]. split; [done|].
  destruct (shift_down_spec i (s_len sl) clear a l Hl E Hi) as [H1 H2].
  exists (shift_down i (s_len sl) clear a). simpl. rewrite lookup_alter_eq, Ha. split_ands; [done|lia|done].
Qed.

(** The driver and the links are left alone. *)
Definition quiet s s' : Prop := drv_state s' = drv_state s ∧ linkCache s' = linkCache s.

(** A new array in front of an unchanged cache. *)
Definition fresh_slice s s' (sl : slice) (l : list Obj) : Prop :=
  arrays s !! s_arr sl = None ∧ (∀ b, b ≠ s_arr sl → arrays s' !! b = arrays s !! b) ∧
  listCache s' = listCache s ∧ holds s' sl l ∧ quiet s s'.

Lemma alloc_spec s l n : ∃ sl s', alloc (Some <$> l) n s = Done (inr sl) s' ∧ fresh_slice s s' sl l.
Proof.
  eexists _, _. split; [reflexivity|]. set (a := fresh (dom (arrays s))).
  assert (arrays s !! a = None) as Ha by (apply not_elem_of_dom, is_fresh).
  unfold fresh_slice, quiet. split_ands; simpl; [done| |done| |done|done].
  - intros b Hb. by rewrite lookup_insert_ne.
  - unfold holds. simpl. eexists. fold a. rewrite lookup_insert_eq. split; [done|]. rewrite length_app, length_fmap. split; [lia|].
    rewrite <- (length_fmap Some l). apply take_app_length.
Qed.

(** The entry of a key is replaced by a slice in its own or in a new array. *)
Definition replaces s s' (key : gostr) (sl' : slice) (l' : list Obj) : Prop :=
  (∀ b, b ≠ s_arr sl' → arrays s' !! b = arrays s !! b) ∧ listCache s' = listCache s ∧
  (arrays s !! s_arr sl' = None ∨ ∃ sl, listCache s !! key = Some sl ∧ s_arr sl = s_arr sl') ∧
  holds s' sl' l' ∧ quiet s s'.

Lemma replaces_rep s s' v key sl' l' :
  rep s v → replaces s s' key sl' l' →
  rep (set_listCache (<[key := sl']> (listCache s')) s') (<[key := l']> v).
Proof.
  intros Hr (H1&H2&H3&H4&_). apply (rep_update s _ v key sl' l' Hr); [done|simpl; by rewrite H2|done|].
  destruct H4 as (a&?). by exists a.
Qed.

Lemma replaces_store s s' key sl l i x :
  replaces s s' key sl l → (i < length l)%nat →
  replaces s (store (s_arr sl) i (Some x) s') key sl (<[i := x]> l).
Proof.
  intros (H1&H2&H3&H4&H5&H6) Hi. unfold replaces, quiet. split_ands; [|done|done|by apply store_holds|done|done].
  intros b Hb. simpl. by rewrite lookup_alter_ne, H1.
Qed.

Lemma replaces_refl s key sl l : listCache s !! key = Some sl → holds s sl l → replaces s s key sl l.
Proof. intros Hk Hh. unfold replaces, quiet. split_ands; [done|done|right; eauto|done|done|done]. Qed.

Lemma replaces_remove clear s key sl l i :
  listCache s !! key = Some sl → holds s sl l → (i < length l)%nat →
  ∃ sl1 s1, slice_remove clear sl i s = Done (inr sl1) s1 ∧ replaces s s1 key sl1 (delete i l).
Proof.
  intros Hk Hh Hi. eexists _, _. split; [reflexivity|].
  destruct (slice_remove_holds clear s sl l i _ _ Hh Hi eq_refl) as [Ha Hd].
  unfold replaces, quiet. split_ands; [|done|right; eauto|exact Hd|done|done].
  intros b Hb. simpl in *. by rewrite lookup_alter_ne.
Qed.

Lemma append_spec s key sl l x :
  listCache s !! key = Some sl → holds s sl l →
  ∃ sl1 s1, slice_append grow sl (Some x) s = Done (inr sl1) s1 ∧ replaces s s1 key sl1 (l ++ [x]).
Proof.
  intros Hk Hh. pose proof (holds_len _ _ _ Hh) as El. pose proof (holds_elems _ _ _ Hh) as Ee.
  unfold slice_append. destruct Hh as (a&Ha&Hl&E). rewrite Ha. simpl default.
  destruct (Nat.ltb_spec (s_len sl) (length a)) as [Hlt|Hge].
  - eexists _, _. split; [reflexivity|]. unfold replaces, quiet. split_ands; simpl; [|done|right; eauto| |done|done].
    + intros b Hb. by rewrite lookup_alter_ne.
    + exists (<[s_len sl := Some x]> a). unfold store. simpl. rewrite lookup_alter_eq, Ha, length_insert.
      split_ands; [done|lia|]. rewrite fmap_app, <- E. simpl.
      rewrite (take_S_r _ _ (Some x)) by (by apply list_lookup_insert_eq). by rewrite take_insert_ge.
  - rewrite Ee. replace ((Some <$> l) ++ [Some x]) with (Some <$> (l ++ [x])) by (by rewrite fmap_app).
    destruct (alloc_spec s (l ++ [x]) (grow (S (s_len sl)))) as (sl1&s1&->&Hn&Hb&Hc&Hh&Hq).
    exists sl1, s1. split; [done|]. unfold replaces, quiet. split_ands; [done|done|by left|done|apply Hq|apply Hq].
Qed.

(** *** The updates of the cache *)

Lemma alter_insert (f : list Obj → list Obj) (k : gostr) (v : gmap gostr (list Obj)) l :
  v !! k = Some l → alter f k v = <[k := f l]> v.
Proof.
  intros Hv. apply map_eq. intros j. destruct (decide (j = k)) as [->|Hk].
  - by rewrite lookup_alter_eq, lookup_insert_eq, Hv.
  - by rewrite lookup_alter_ne, lookup_insert_ne.
Qed.

Lemma delCacheObj_ok path o s v :
  rep s v → ∃ s', delCacheObj path o s = Done (inr ()) s' ∧
    rep s' (alter (remove_name (GetName o)) (Key path) v) ∧ quiet s s'.
Proof.
  intros Hr. unfold delCacheObj, fs_bind at 1, fs_gets. destruct (listCache s !! Key path) as [sl|] eqn:Ek.
  2:{ exists s. split; [done|]. rewrite alter_id; [done|]. intros l. by rewrite (rep_None _ _ _ Hr Ek). }
  destruct (rep_lookup _ _ _ _ Hr Ek) as (l&Hv&Hh). unfold fs_bind. rewrite (search_spec _ _ _ _ Hh).
  rewrite (alter_insert _ _ _ _ Hv).
  unfold remove_name. destruct (find_obj (GetName o) l) as [i|] eqn:Ef.
  - apply find_obj_Some in Ef as [Hi _]. destruct (replaces_remove false s _ sl l i Ek Hh Hi) as (sl1&s1&->&Hrep).
    eexists. split; [reflexivity|]. split; [by eapply replaces_rep|apply Hrep].
  - eexists. split; [reflexivity|]. split; [|done]. eapply replaces_rep; [done|]. by apply replaces_refl.
Qed.


Lemma updateCacheObj_ok path old new s v :
  rep s v → ∃ s', updateCacheObj path old new s = Done (inr ()) s' ∧
    rep s' (alter (update_obj old new) (Key path) v) ∧ quiet s s'.
Proof.
  intros Hr. unfold updateCacheObj, fs_bind at 1, fs_gets. destruct (listCache s !! Key path) as [sl|] eqn:Ek.
  2:{ exists s. split; [done|]. rewrite alter_id; [done|]. intros l. by rewrite (rep_None _ _ _ Hr Ek). }
  destruct (rep_lookup _ _ _ _ Hr Ek) as (l&Hv&Hh). rewrite (alter_insert _ _ _ _ Hv).
  unfold fs_bind at 1. rewrite (search_spec _ _ _ _ Hh).
  assert (∃ sl1 s1, match find_obj (GetName new) l with Some i => slice_remove true sl i | None => fs_ret sl end s
    = Done (inr sl1) s1 ∧ replaces s s1 (Key path) sl1 (remove_name (GetName new) l)) as (sl1&s1&E1&Hrep).
  { unfold remove_name. destruct (find_obj (GetName new) l) as [i|] eqn:Ef.
    - apply find_obj_Some in Ef as [Hi _]. by apply replaces_remove.
    - exists sl, s. split; [done|]. by apply replaces_refl. }
  unfold fs_bind at 1. rewrite E1. unfold fs_bind at 1.
  rewrite (search_spec _ _ _ _ (proj1 (proj2 (proj2 (proj2 Hrep))))). unfold update_obj, replace_name.
  set (l1 := remove_name (GetName new) l) in *.
  destruct (find_obj (GetName old) l1) as [i|] eqn:Ef.
  - apply find_obj_Some in Ef as [Hi _]. pose proof (replaces_store _ _ _ _ _ _ new Hrep Hi) as Hrep2.
    eexists. split; [reflexivity|]. split; [by eapply replaces_rep|apply Hrep2].
  - eexists. split; [reflexivity|]. split; [by eapply replaces_rep|apply Hrep].
Qed.

Lemma addCacheObj_ok path o s v :
  rep s v → ∃ s', addCacheObj grow path o s = Done (inr ()) s' ∧
    rep s' (alter (add_obj o) (Key path) v) ∧ quiet s s'.
Proof.
  intros Hr. unfold addCacheObj, fs_bind at 1, fs_gets. destruct (listCache s !! Key path) as [sl|] eqn:Ek.
  2:{ exists s. split; [done|]. rewrite alter_id; [done|]. intros l. by rewrite (rep_None _ _ _ Hr Ek). }
  destruct (rep_lookup _ _ _ _ Hr Ek) as (l&Hv&Hh). rewrite (alter_insert _ _ _ _ Hv).
  unfold fs_bind at 1. rewrite (search_spec _ _ _ _ Hh). unfold add_obj.
  destruct (find_obj (GetName o) l) as [i|] eqn:Ef.
  - apply find_obj_Some in Ef as [Hi _].
    pose proof (replaces_store _ _ _ _ _ _ o (replaces_refl _ _ _ _ Ek Hh) Hi) as Hrep.
    eexists. split; [reflexivity|]. split; [|apply Hrep]. pose proof (replaces_rep _ _ _ _ _ _ Hr Hrep) as Hr2.
    eapply rep_same; [..|exact Hr2]; [done|]. simpl. by rewrite insert_id.
  - unfold fs_bind at 1. assert (last_same_kind sl o s
      = Done (inr (bool_decide (IsDir <$> last l = Some (IsDir o)))) s) as ->.
    { unfold last_same_kind. rewrite (holds_elems _ _ _ Hh), fmap_last. destruct (last l) as [o'|]; simpl; [|done].
      do 2 f_equal. apply bool_decide_ext. split; [congruence|by intros [= ?]]. }
    set (same := bool_decide _). unfold fs_bind at 1.
    assert (∃ sl1 s1, (if same then slice_append grow sl (Some o)
        else λ s0, alloc (Some o :: elems s0 sl) (grow (S (s_len sl))) s0) s = Done (inr sl1) s1 ∧
      replaces s s1 (Key path) sl1 (if same then l ++ [o] else o :: l)) as (sl1&s1&->&Hrep).
    { destruct same; [by apply append_spec|]. rewrite (holds_elems _ _ _ Hh).
      change (Some o :: (Some <$> l)) with (Some <$> (o :: l)).
      destruct (alloc_spec s (o :: l) (grow (S (s_len sl)))) as (sl1&s1&->&Hn&Hb&Hc&Hh1&Hq).
      exists sl1, s1. split; [done|]. unfold replaces. split_ands; [done|done|by left|done|done]. }
    pose proof (replaces_rep _ _ _ _ _ _ Hr Hrep) as Hr2. unfold fs_bind at 1.
    destruct (LocalSort d_Config); eexists; (split; [reflexivity|]); (split; [by eapply rep_same; [..|exact Hr2]|apply Hrep]).
Qed.
End slices.

(** The three in-place updates of a cached listing do what they do to a
    plain list, on every state in which the cached slices hold objects in
    arrays of their own: replace or add a new object, delete the first object
    of a name, put a renamed object in the place of the old one.  They panic in
    no such state, leave the listings of other directories as they are, and
    keep the arrays apart. *)
Theorem cache_updates_refine {FD : FsDriver} (grow : nat → nat) (s : fs) v path old new :
  rep s v →
  (∃ s', addCacheObj grow path new s = Done (inr ()) s' ∧ rep s' (alter (add_obj new) (Key path) v)) ∧
  (∃ s', delCacheObj path old s = Done (inr ()) s' ∧ rep s' (alter (remove_name (GetName old)) (Key path) v)) ∧
  (∃ s', updateCacheObj path old new s = Done (inr ()) s' ∧ rep s' (alter (update_obj old new) (Key path) v)).
Proof.
  intros Hr. split_ands.
  - destruct (addCacheObj_ok grow path new s v Hr) as (s'&E&H&_). eauto.
  - destruct (delCacheObj_ok path old s v Hr) as (s'&E&H&_). eauto.
  - destruct (updateCacheObj_ok path old new s v Hr) as (s'&E&H&_). eauto.
Qed.

(** ** Clearing *)

Section clearing.
Context {FD : FsDriver} {SL : SortLib} (M : list gostr).
Context (HM : Forall good_seg M) (Hmount : MountPath d_Storage = render M).
Implicit Types s : fs.
Implicit Types v : gmap gostr (list Obj).

Definition keyof (p : list gostr) : gostr := render (M ++ p).

Lemma Key_segs path : Key path = keyof (path_segs path).
Proof.
  unfold Key, keyof. rewrite Hmount, FixAndCleanPath_segs. apply path_join_render; [by apply good_norm|].
  apply path_segs_norm.
Qed.

(** Cleaned paths, and those that [path.Split] leaves with a slash at the end. *)
Definition tidy (path : gostr) (p : list gostr) : Prop :=
  Forall good_seg p ∧ (path = render p ∨ path = render p ++ #"/").

Lemma tidy_Fix path : tidy (FixAndCleanPath path) (path_segs path).
Proof. split; [apply path_segs_good|]. left. apply FixAndCleanPath_segs. Qed.

Lemma render_slash_segs p : Forall good_seg p → path_segs (render p ++ #"/") = p.
Proof.
  intros Hp. unfold path_segs. rewrite ReplaceByte_id.
  - replace (render p ++ #"/") with (render p ++ "/"%char :: []) by done.
    assert (Clean (render p ++ #"/") = render p) as E.
    { destruct (decide (p = [])) as [->|Hne]; [done|]. apply Clean_render_slash; [by apply good_norm|done]. }
    unfold Clean in E. replace (HasPrefix (render p ++ #"/") #"/") with true in E by done.
    apply render_inj in E; [done|apply clean_segs_norm|by apply good_norm].
  - intros [H|H]%elem_of_app.
    + revert H. apply render_no_elem; [done|]. eapply Forall_impl; [exact Hp|]. by intros w [_ ?].
    + apply list_elem_of_singleton in H. done.
Qed.

Lemma tidy_segs path p : tidy path p → path_segs path = p.
Proof. intros [Hp [->| ->]]; [by apply path_segs_render|by apply render_slash_segs]. Qed.

Lemma tidy_join path p n : tidy path p → good_seg n → path_join path n = render (p ++ [n]).
Proof.
  intros [Hp Hpath] Hn. apply good_norm in Hp as Hp'. destruct Hpath as [->| ->]; [apply path_join_name; [done|apply Hn]|].
  destruct Hn as [(Hn0&Hn1) _]. unfold path_join. rewrite !filter_cons_True by (done || by destruct p). rewrite filter_nil.
  change (Join #"/" [render p ++ #"/"; n]) with ((render p ++ #"/") ++ "/"%char :: n).
  rewrite <- app_assoc. change (#"/" ++ "/"%char :: n) with ("/"%char :: render [n]).
  change (render p ++ "/"%char :: render [n]) with ("/"%char :: (Join #"/" p ++ "/"%char :: render [n])).
  rewrite Clean_rooted, clean_segs_join by (constructor; [by split|done]).
  rewrite <- clean_segs_slash. fold (render p). by rewrite clean_segs_render.
Qed.

Lemma tidy_child path p n : tidy path p → good_seg n → tidy (path_join path n) (p ++ [n]).
Proof.
  intros Ht Hn. split; [|left; by apply tidy_join]. apply Forall_app. split; [apply Ht|by constructor].
Qed.

Lemma keyof_length p n : good_seg n → (length (keyof p) < length (keyof (p ++ [n])))%nat.
Proof.
  intros [(Hn&_) _]. unfold keyof. rewrite (assoc_L (++)). destruct (decide (M ++ p = [])) as [E|E].
  - rewrite E. unfold render. simpl. destruct n as [|c n]; [by destruct Hn|]. simpl. lia.
  - unfold render. simpl. rewrite (Join_app (M ++ p) [n]) by done. rewrite !length_app. simpl. lia.
Qed.

(** Directories in the cached listings have names that are names. *)
Definition dirs_named v : Prop := map_Forall (λ _ l, Forall (λ o, IsDir o = true → good_seg (GetName o)) l) v.

Definition longest v : nat := max_list (length <$> (map_to_list v).*1).

Lemma longest_ge v k l : v !! k = Some l → (length k ≤ longest v)%nat.
Proof.
  intros Hk. unfold longest. apply max_list_elem_of_le. apply list_elem_of_fmap. exists k. split; [done|].
  apply list_elem_of_fmap. exists (k, l). split; [done|]. by apply elem_of_map_to_list.
Qed.

Lemma longest_mono v1 v : v1 ⊆ v → (longest v1 ≤ longest v)%nat.
Proof.
  intros Hs. unfold longest at 1. set (ns := length <$> (map_to_list v1).*1).
  destruct (decide (ns = [])) as [->|Hne]; [simpl; lia|].
  pose proof (max_list_elem_of ns Hne) as Hin. apply list_elem_of_fmap in Hin as (k&->&Hk).
  apply list_elem_of_fmap in Hk as ([k' l']&->&Hk). apply elem_of_map_to_list in Hk.
  apply (longest_ge _ k' l'). by eapply lookup_weaken.
Qed.

Lemma dirs_named_mono v1 v : v1 ⊆ v → dirs_named v → dirs_named v1.
Proof. intros Hs Hd k l Hk. apply (Hd k). by eapply lookup_weaken. Qed.

(** What clearing a directory leaves: fewer listings, none of the directory,
    and all of those that are not below it. *)
Definition cleared p v v' : Prop :=
  v' ⊆ v ∧ ∀ q, ¬ p `prefix_of` q → Forall good_seg q → v' !! keyof q = v !! keyof q.

Lemma cleared_refl p v : cleared p v v.
Proof. done. Qed.

Lemma cleared_trans p v1 v2 v3 : cleared p v1 v2 → cleared p v2 v3 → cleared p v1 v3.
Proof. intros [H1 H2] [H3 H4]. split; [by etrans|]. intros q Hq Hg. by rewrite H4, H2. Qed.

Lemma cleared_child p n v v' : cleared (p ++ [n]) v v' → cleared p v v'.
Proof.
  intros [H1 H2]. split; [done|]. intros q Hq Hg. apply H2; [|done]. intros Hp. apply Hq.
  etrans; [|done]. by exists [n].
Qed.

Lemma keyof_inj p q : Forall good_seg p → Forall good_seg q → keyof p = keyof q → p = q.
Proof.
  intros Hp Hq E. apply render_inj in E; [by apply app_inv_head in E| |]; apply good_norm, Forall_app; done.
Qed.

Lemma ClearCache_ok fuel : ∀ path p s v,
  tidy path p → rep s v → dirs_named v → (1 ≤ fuel)%nat → (longest v + 1 < fuel + length (keyof p))%nat →
  ∃ s' v', ClearCache fuel path s = Done (inr ()) s' ∧ rep s' v' ∧ quiet s s' ∧ cleared p v v' ∧ v' !! keyof p = None.
Proof.
  induction fuel as [|fuel IH]; intros path p s v Ht Hr Hd Hf Hl; [lia|].
  cbn [ClearCache]. unfold fs_bind at 1, fs_gets. rewrite Key_segs, (tidy_segs _ _ Ht).
  assert (∃ l, match listCache s !! keyof p with Some sl => elems s sl | None => [] end = Some <$> l ∧
    (l ≠ [] → v !! keyof p = Some l)) as (l&->&Hv).
  { destruct (listCache s !! keyof p) as [sl|] eqn:E; [|by exists []].
    destruct (rep_lookup _ _ _ _ Hr E) as (l&Hv&Hh). exists l. split; [by apply holds_elems|done]. }
  assert (Forall (λ o, IsDir o = true → good_seg (GetName o)) l) as Hnames.
  { destruct l as [|o l]; [done|]. apply (Hd (keyof p)). by apply Hv. }
  assert (l ≠ [] → (1 ≤ fuel ∧ length (keyof p) ≤ longest v)%nat) as Hfuel.
  { intros Hne. pose proof (longest_ge _ _ _ (Hv Hne)). lia. }
  clear Hv. set (each := fix each (objs : list (option Obj)) : Fs unit := _).
  assert (∀ l s0 v0, Forall (λ o, IsDir o = true → good_seg (GetName o)) l →
    (l ≠ [] → (1 ≤ fuel ∧ length (keyof p) ≤ longest v)%nat) → cleared p v v0 → rep s0 v0 →
    ∃ s1 v1, each (Some <$> l) s0 = Done (inr ()) s1 ∧ rep s1 v1 ∧ quiet s0 s1 ∧ cleared p v v1) as Heach.
  { clear l Hnames Hfuel. intros l s0 v0 Hn. revert s0 v0. induction Hn as [|o l Ho _ IHl]; intros s0 v0 Hf1 Hc Hr0.
    - exists s0, v0. done.
    - destruct (Hf1 ltac:(done)) as [Hf2 Hf3]. cbn [fmap list_fmap each]. fold each. unfold fs_bind.
      destruct (IsDir o) eqn:Eo; [|by apply (IHl s0 v0)].
      specialize (Ho eq_refl). pose proof (longest_mono _ _ (proj1 Hc)). pose proof (keyof_length p (GetName o) Ho).
      destruct (IH (path_join path (GetName o)) (p ++ [GetName o]) s0 v0) as (s2&v2&->&Hr2&Hq2&Hc2&_);
        [by apply tidy_child|done|by eapply dirs_named_mono; [apply Hc|]|lia|lia|].
      destruct (IHl s2 v2) as (s3&v3&->&Hr3&Hq3&Hc3); [done| |done|].
      + eapply cleared_trans; [exact Hc|]. by eapply cleared_child.
      + exists s3, v3. split_ands; [done|done| |done]. split; (etrans; [apply Hq3|apply Hq2]). }
  destruct (Heach l s v Hnames Hfuel (cleared_refl p v) Hr) as (s1&v1&E1&Hr1&Hq1&Hc1).
  unfold fs_bind. rewrite E1. eexists _, (delete (keyof p) v1). split; [reflexivity|].
  split_ands; [by apply rep_delete|done| |apply lookup_delete_eq].
  eapply cleared_trans; [exact Hc1|]. split; [apply delete_subseteq|].
  intros q Hq Hg. rewrite lookup_delete_ne; [done|]. intros E. apply Hq.
  apply keyof_inj in E; [by subst|apply Ht|done].
Qed.

Lemma clear_fuel_enough s v : rep s v → (S (S (longest v)) ≤ clear_fuel s)%nat.
Proof.
  intros Hr. unfold clear_fuel, longest. set (ns := length <$> (map_to_list v).*1).
  destruct (decide (ns = [])) as [->|Hne]; [simpl; lia|].
  pose proof (max_list_elem_of ns Hne) as Hin. apply list_elem_of_fmap in Hin as (k&->&Hk).
  apply list_elem_of_fmap in Hk as ([k' l']&->&Hk). apply elem_of_map_to_list in Hk. cbn [fst].
  apply le_n_S, le_n_S, max_list_elem_of_le. apply list_elem_of_fmap. exists k'. split; [done|].
  destruct (listCache s !! k') as [sl|] eqn:E.
  - apply list_elem_of_fmap. exists (k', sl). split; [done|]. by apply elem_of_map_to_list.
  - rewrite (rep_None _ _ _ Hr E) in Hk. done.
Qed.

Lemma clear_ok path p s v :
  tidy path p → rep s v → dirs_named v →
  ∃ s' v', clear path s = Done (inr ()) s' ∧ rep s' v' ∧ quiet s s' ∧ cleared p v v' ∧ v' !! keyof p = None.
Proof.
  intros Ht Hr Hd. pose proof (clear_fuel_enough s v Hr).
  assert (1 ≤ length (keyof p))%nat by (unfold keyof, render; simpl; lia).
  apply ClearCache_ok; [done|done|done|lia|lia].
Qed.
End clearing.

(** Clearing a directory ends, within a fuel computed from the cached keys,
    whenever the directories in the cached listings have proper names; it
    drops the listing of the directory, only listings at or below it, and
    changes no other. *)
Theorem clear_terminates {FD : FsDriver} (M : list gostr) (s : fs) v path :
  Forall good_seg M → MountPath d_Storage = render M → rep s v → dirs_named v →
  ∃ s' v', clear (FixAndCleanPath path) s = Done (inr ()) s' ∧ rep s' v' ∧ v' ⊆ v ∧
    v' !! Key path = None ∧
    (∀ q, IsSubPath path q = false → v' !! Key q = v !! Key q) ∧ drv_state s' = drv_state s.
Proof.
  intros HM Hmount Hr Hd.
  destruct (clear_ok M HM Hmount _ _ s v (tidy_Fix path) Hr Hd) as (s'&v'&E&Hr'&[Hq _]&[Hs Hc]&Hn).
  exists s', v'. split_ands; [done|done|done| | |done].
  - by rewrite (Key_segs M HM Hmount).
  - intros q Hq'. rewrite (Key_segs M HM Hmount). apply Hc; [|apply path_segs_good].
    intros Hp. apply IsSubPath_segs in Hp. congruence.
Qed.

(** ** On a concrete state *)

(** A storage mounted at [/mnt] with the listings of its root and of [/d]. *)
Definition obj_d : Obj := ObjWrapName #"d" (Raw (Mem.mk #"/d" 0 true)).
Definition obj_f : Obj := ObjWrapName #"f" (Raw (Mem.mk #"/f" 5 false)).
Definition obj_g : Obj := ObjWrapName #"g" (Raw (Mem.mk #"/g" 6 false)).

#[local] Existing Instance D.

Definition two_listings : fs :=
  {| arrays := {[ 1%positive := [Some obj_d; Some obj_f; None]; 2%positive := [Some obj_g] ]};
     listCache := {[ #"/mnt" := {| s_arr := 1; s_len := 2 |}; #"/mnt/d" := {| s_arr := 2; s_len := 1 |} ]};
     linkCache := ∅; addSortDebounceMap := ∅; drv_state := t0 |}.

Definition two_lists : gmap gostr (list Obj) := {[ #"/mnt" := [obj_d; obj_f]; #"/mnt/d" := [obj_g] ]}.

Lemma two_listings_rep : rep two_listings two_lists.
Proof.
  assert (∀ k sl, listCache two_listings !! k = Some sl →
    k = #"/mnt" ∧ sl = {| s_arr := 1; s_len := 2 |} ∨ k = #"/mnt/d" ∧ sl = {| s_arr := 2; s_len := 1 |}) as Hk.
  { intros k sl. cbn. rewrite lookup_insert_Some, lookup_singleton_Some. naive_solver. }
  split.
  - intros k. destruct (listCache two_listings !! k) as [sl|] eqn:E.
    + destruct (Hk k sl E) as [[-> ->]|[-> ->]]; eexists; (split; [reflexivity|]); eexists; (split; [reflexivity|]);
        (split; [simpl; lia|reflexivity]).
    + cbn in E. apply lookup_insert_None in E as [E1 E2]. apply lookup_singleton_None in E1.
      unfold two_lists. by rewrite lookup_insert_ne, lookup_singleton_ne.
  - intros k1 k2 sl1 sl2 E1%Hk E2%Hk. naive_solver.
Qed.

