(* ===== verification/FsOpsTree.v ===== *)
(** * Cached listings of a driver that keeps a tree

    For a driver whose directories are identified by their paths and whose
    calls change the listings the way their names say ([TreeLaws]), every
    operation of [FsOps] returns, and the cached listings stay what the driver
    would list, as long as directories are not moved, renamed or removed. *)

From S2P Require Import Prelude GoStrings Errs Store Paths Users Accounts Storage FsOps FsOpsThms.

Local Open Scope Z_scope.

(** ** Drivers *)

(** The listings of the driver, by the path below its root [R]. *)
Class TreeDriver {FD : FsDriver} := files : dstate → gmap (list gostr) (list Object).

Section spec.
Context {FD : FsDriver} {TD : TreeDriver} (R : list gostr).
Implicit Types d : dstate.
Implicit Types os : list Object.

Definition file_ok (p : list gostr) (o : Object) : Prop :=
  good_seg (o_Name o) ∧ o_Path o = render (R ++ p ++ [o_Name o]).

Definition dir_at (p : list gostr) (dir : Obj) : Prop := GetPath dir = render (R ++ p) ∧ Forall good_seg p.

(** The object is a file, listed in [p] under the name [n]. *)
Definition file_at d (p : list gostr) (n : gostr) (src : Obj) : Prop :=
  ∃ o os, src = Raw o ∧ o_Name o = n ∧ o_IsFolder o = false ∧ files d !! p = Some os ∧ o ∈ os.

(** Listings other than those of the given directories are as before. *)
Definition others (ps : list (list gostr)) d d' : Prop :=
  ∀ q l, q ∉ ps → files d !! q = Some l → files d' !! q = Some l.

(** The listing of [p] becomes [f] of what it was, up to the order. *)
Definition relists (p : list gostr) (f : list Object → list Object) d d' : Prop :=
  ∃ os os', files d !! p = Some os ∧ files d' !! p = Some os' ∧ os' ≡ₚ f os.

Abbreviation but n := (filter (λ x, o_Name x ≠ n)).

Definition added p n (o : Object) d d' : Prop :=
  o_Name o = n ∧ relists p (λ os, o :: but n os) d d' ∧ others [p] d d'.
Definition removed p n d d' : Prop := relists p (but n) d d' ∧ others [p] d d'.
Definition moved p q n (o : Object) d d' : Prop :=
  o_Name o = n ∧ relists p (but n) d d' ∧ relists q (λ os, o :: but n os) d d' ∧ others [p; q] d d'.
Definition renamed p n m (o : Object) d d' : Prop :=
  o_Name o = m ∧ relists p (λ os, o :: but n (but m os)) d d' ∧ others [p] d d'.

(** A call that fails changes nothing; one that succeeds has the effect, and
    the object it returns, if any, is the new one. *)
Definition obeys {I} (m : method I dstate) (i : I) d (P : Object → dstate → Prop) : Prop :=
  match m with
  | NoMethod => True
  | Plain f => match f i d with
               | (inl _, d') => files d' = files d
               | (inr _, d') => ∃ o, P o d'
               end
  | WithResult f => match f i d with
                    | (inl _, d') => files d' = files d
                    | (inr r, d') => ∃ o, P o d' ∧ (r = None ∨ r = Some (Raw o))
                    end
  end.

Class TreeLaws : Prop := {
  tl_ok d p os : files d !! p = Some os →
    Forall (file_ok p) os ∧ NoDup (o_Name <$> os) ∧ Forall good_seg p;
  tl_list dir p refresh d : dir_at p dir →
    match d_List dir refresh d with
    | (inl _, d') => files d' = files d
    | (inr l, d') => files d' = files d ∧ ∃ os, files d !! p = Some os ∧ (set_path dir <$> l) ≡ₚ (Raw <$> os)
    end;
  tl_link f ip d : files (d_Link f ip d).2 = files d;
  tl_mkdir dir p n d : dir_at p dir → good_seg n → obeys d_MakeDir (dir, n) d (λ o, added p n o d);
  tl_put dir p f d : dir_at p dir → good_seg (u_Name f) → obeys d_Put (dir, f) d (λ o, added p (u_Name f) o d);
  tl_puturl dir p n url d : dir_at p dir → good_seg n → obeys d_PutURL (dir, n, url) d (λ o, added p n o d);
  tl_copy src dir p d : dir_at p dir → obeys d_Copy (src, dir) d (λ o, added p (GetName src) o d);
  tl_move src dir p q n d : file_at d p n src → dir_at q dir → q ≠ p →
    obeys d_Move (src, dir) d (λ o, moved p q n o d);
  tl_rename src p n m d : file_at d p n src → good_seg m → m ≠ n →
    obeys d_Rename (src, m) d (λ o, renamed p n m o d);
  tl_remove src p n d f : file_at d p n src → d_Remove = Some f →
    match f src d with
    | (inl _, d') => files d' = files d
    | (inr _, d') => removed p n d d'
    end;
}.
End spec.
Arguments TreeLaws {FD TD} R.

(** ** Coherent caches *)

Section coherent.
Context {FD : FsDriver} {TD : TreeDriver} {SL : SortLib} {SLaws : SortLaws} (grow : nat → nat).
Context (M R : list gostr) (HM : Forall good_seg M) (Hmount : MountPath d_Storage = render M).
Context (Hroot : d_root = IRootPath (render R)) (Hget : d_Get = None).
Context {TL : TreeLaws R}.
Implicit Types s : fs.
Implicit Types v : gmap gostr (list Obj).
Implicit Types d : dstate.
Implicit Types os : list Object.
Implicit Types l : list Obj.

Abbreviation keyof := (keyof M).
Abbreviation but n := (filter (λ x, o_Name x ≠ n)).

Definition wrap (o : Object) : Obj := ObjWrapName (o_Name o) (Raw o).

(** Every cached listing is the driver's, up to the order. *)
Definition coherent v d : Prop :=
  ∀ k l, v !! k = Some l → ∃ p os, k = keyof p ∧ files d !! p = Some os ∧ l ≡ₚ (wrap <$> os).

Definition inv s : Prop := ∃ v, rep s v ∧ coherent v (drv_state s).

Lemma coherent_same v d d' : files d' = files d → coherent v d → coherent v d'.
Proof. intros E H k l Hk. destruct (H k l Hk) as (p&os&?). exists p, os. by rewrite E. Qed.

Lemma coherent_sub v v' d : v' ⊆ v → coherent v d → coherent v' d.
Proof. intros Hs H k l Hk. apply H. by eapply lookup_weaken. Qed.

Lemma coherent_at v d p l :
  coherent v d → Forall good_seg p → v !! keyof p = Some l → ∃ os, files d !! p = Some os ∧ l ≡ₚ (wrap <$> os).
Proof.
  intros H Hp Hk. destruct (H _ _ Hk) as (q&os&E&Hf&Hl). destruct (tl_ok R _ _ _ Hf) as (_&_&Hq).
  apply keyof_inj in E; [|done..]. subst q. eauto.
Qed.

Lemma names_wrap (os : list Object) : obj_names (wrap <$> os) = o_Name <$> os.
Proof. rewrite <- list_fmap_compose. done. Qed.

Lemma coherent_named v d : coherent v d → dirs_named v.
Proof.
  intros H k l Hk. destruct (H k l Hk) as (p&os&->&Hf&Hl). destruct (tl_ok R _ _ _ Hf) as (Ho&_).
  rewrite Hl. apply Forall_fmap. eapply Forall_impl; [exact Ho|]. intros o [Hn _] _. exact Hn.
Qed.

Lemma listing_names d p os l : files d !! p = Some os → l ≡ₚ (wrap <$> os) → NoDup (obj_names l).
Proof.
  intros Hf Hl. destruct (tl_ok R _ _ _ Hf) as (_&Hn&_). rewrite Hl, names_wrap. exact Hn.
Qed.

Lemma without_wrap n (os : list Object) : without n (wrap <$> os) = wrap <$> but n os.
Proof.
  induction os as [|o os IH]; [done|]. rewrite fmap_cons, !filter_cons. cbn [wrap GetName].
  case_decide; [by rewrite fmap_cons, IH|done].
Qed.

(** One listing changes the way the driver's does. *)
Lemma coherent_relist v d d' p g f :
  coherent v d → Forall good_seg p → relists p f d d' → others [p] d d' →
  (∀ l os, files d !! p = Some os → l ≡ₚ (wrap <$> os) → g l ≡ₚ (wrap <$> f os)) →
  coherent (alter g (keyof p) v) d'.
Proof.
  intros Hc Hp (os&os'&Hf&Hf'&Hos) Ho Hg k l Hk. destruct (decide (k = keyof p)) as [->|Hne].
  - rewrite lookup_alter_eq in Hk. apply fmap_Some in Hk as (l0&Hk&->).
    destruct (coherent_at _ _ _ _ Hc Hp Hk) as (os0&Hf0&Hl). assert (os0 = os) as -> by congruence.
    exists p, os'. split_ands; [done|done|]. rewrite (Hg l0 os Hf Hl). by rewrite Hos.
  - rewrite lookup_alter_ne in Hk by done. destruct (Hc k l Hk) as (q&osq&->&Hfq&Hl).
    exists q, osq. split_ands; [done| |done]. apply Ho; [|done]. intros ->%list_elem_of_singleton. done.
Qed.

(** The listing is dropped instead. *)
Lemma coherent_forget v v' d d' p :
  coherent v d → Forall good_seg p → others [p] d d' → v' ⊆ v → v' !! keyof p = None → coherent v' d'.
Proof.
  intros Hc Hp Ho Hs Hn k l Hk. destruct (Hc k l) as (q&os&->&Hf&Hl); [by eapply lookup_weaken|].
  exists q, os. split_ands; [done| |done]. apply Ho; [|done]. intros ->%list_elem_of_singleton. congruence.
Qed.

Lemma add_wrap d p os l o :
  files d !! p = Some os → l ≡ₚ (wrap <$> os) → add_obj (wrap o) l ≡ₚ (wrap <$> (o :: but (o_Name o) os)).
Proof.
  intros Hf Hl. rewrite add_obj_perm by by eapply listing_names. rewrite fmap_cons, <- without_wrap.
  by apply Permutation_cons, filter_Permutation.
Qed.

Lemma remove_wrap d p os l n :
  files d !! p = Some os → l ≡ₚ (wrap <$> os) → remove_name n l ≡ₚ (wrap <$> but n os).
Proof.
  intros Hf Hl. rewrite remove_name_perm by by eapply listing_names. rewrite <- without_wrap.
  by apply filter_Permutation.
Qed.

Lemma update_wrap d p os l x o n :
  files d !! p = Some os → l ≡ₚ (wrap <$> os) → x ∈ os → o_Name x = n → n ≠ o_Name o →
  update_obj (wrap x) (wrap o) l ≡ₚ (wrap <$> (o :: but n (but (o_Name o) os))).
Proof.
  intros Hf Hl Hx <- Hne. rewrite update_obj_perm; [| |rewrite Hl, names_wrap; by apply (list_elem_of_fmap_2 o_Name)|done].
  - rewrite fmap_cons, <- !without_wrap. by apply Permutation_cons, filter_Permutation, filter_Permutation.
  - by eapply listing_names.
Qed.

(** *** Listing *)

Lemma insert_stable_perm {A} less (x : A) (l : list A) : insert_stable less x l ≡ₚ x :: l.
Proof.
  induction l as [|y l IH]; simpl; [done|]. destruct (less y x); [|done]. rewrite IH. constructor.
Qed.

Lemma sort_SliceStable_perm {A} less (l : list A) : sort_SliceStable less l ≡ₚ l.
Proof. induction l as [|x l IH]; simpl; [done|]. by rewrite insert_stable_perm, IH. Qed.

Lemma ExtractFolder_perm objs e : ExtractFolder_objs objs e ≡ₚ objs.
Proof. unfold ExtractFolder_objs. case_bool_decide; [done|]. apply sort_SliceStable_perm. Qed.

Lemma omap_id_Some {A} (l : list A) : omap id (Some <$> l) = l.
Proof. induction l as [|x l IH]; simpl; [done|]. by f_equal. Qed.

Lemma sort_files_perm files : sort_files files ≡ₚ files.
Proof.
  unfold sort_files. destruct (LocalSort d_Config); [|done]. unfold SortFiles.
  case_bool_decide; [by rewrite omap_id_Some|]. destruct (_ && _); [done|].
  rewrite <- (omap_id_Some files) at 2. apply omap_Permutation, sort_Slice_perm.
Qed.

Lemma prepare_perm dir l os :
  (set_path dir <$> l) ≡ₚ (Raw <$> os) → prepare [] dir l ≡ₚ (wrap <$> os).
Proof.
  intros H. unfold prepare. rewrite ExtractFolder_perm, sort_files_perm.
  rewrite (list_fmap_compose (set_path dir) (WrapObjName [])), H, <- list_fmap_compose. done.
Qed.

(** What a call leaves: it returns, keeps the invariant and the driver's files. *)
Definition reads {A} (m : Fs A) (Q : A → fs → Prop) : Prop :=
  ∀ s, inv s → ∃ r s', m s = Done r s' ∧ inv s' ∧ files (drv_state s') = files (drv_state s) ∧
    match r with inr a => Q a s' | inl _ => True end.

Lemma reads_bind {A B} (m : Fs A) (k : A → Fs B) Q Q' :
  reads m Q → (∀ a s, inv s → Q a s → ∃ r s', k a s = Done r s' ∧ inv s' ∧
    files (drv_state s') = files (drv_state s) ∧ match r with inr b => Q' b s' | inl _ => True end) →
  reads (fs_bind m k) Q'.
Proof.
  intros Hm Hk s Hs. unfold fs_bind. destruct (Hm s Hs) as (r&s1&->&Hi&Hf&HQ). destruct r as [e|a].
  - by exists (inl e), s1.
  - destruct (Hk a s1 Hi HQ) as (r&s2&->&Hi2&Hf2&HQ2). exists r, s2. split_ands; [done|done|congruence|done].
Qed.

Lemma reads_ret {A} (a : A) (Q : A → fs → Prop) : (∀ s, inv s → Q a s) → reads (fs_ret a) Q.
Proof. intros H s Hs. exists (inr a), s. split_ands; [done|done|done|by apply H]. Qed.

Lemma reads_fail {A} e (Q : A → fs → Prop) : reads (fs_fail e) Q.
Proof. intros s Hs. by exists (inl e), s. Qed.

Lemma reads_wrap {A} (m : Fs A) msg Q : reads m Q → reads (fs_wrap m msg) Q.
Proof.
  intros Hm s Hs. unfold fs_wrap. destruct (Hm s Hs) as (r&s1&->&Hi&Hf&HQ). destruct r as [e|a].
  - by exists (inl (EWithMessage e msg)), s1.
  - by exists (inr a), s1.
Qed.

Lemma reads_try {A} (m : Fs A) Q :
  reads m Q → reads (fs_try m) (λ r s, match r with inr a => Q a s | inl _ => True end).
Proof. intros Hm s Hs. unfold fs_try. destruct (Hm s Hs) as (r&s1&->&Hi&Hf&HQ). by exists (inr r), s1. Qed.

Lemma reads_status : reads status_check (λ _ _, True).
Proof. unfold status_check. destruct (_ && _); [apply reads_fail|by apply reads_ret]. Qed.

Lemma inv_drv s d : inv s → files d = files (drv_state s) → inv (set_drv_state d s).
Proof.
  intros (v&Hr&Hc) E. exists v. split; [by eapply rep_same|]. by eapply coherent_same.
Qed.

(** The slice a listing returns. *)
Definition listing_of (p : list gostr) (sl : slice) (s : fs) : Prop :=
  ∃ l os, holds s sl l ∧ files (drv_state s) !! p = Some os ∧ l ≡ₚ (wrap <$> os).

(** The object found at a path: the root, or one that its directory lists. *)
Definition found_at (p : list gostr) (f : Obj) (s : fs) : Prop :=
  (p = [] ∧ f = ObjWrapName #"root" (root_object [] (render R))) ∨
  (∃ p0 n o os, p = p0 ++ [n] ∧ files (drv_state s) !! p0 = Some os ∧ o ∈ os ∧ o_Name o = n ∧ f = wrap o).

Lemma found_path p f s : Forall good_seg p → found_at p f s → dir_at R p (UnwrapObj f).
Proof.
  intros Hp [[-> ->]|(p0&n&o&os&->&Hf&Ho&Hn&->)]; (split; [|done]).
  - cbn. by rewrite app_nil_r.
  - destruct (tl_ok R _ _ _ Hf) as (Hall&_). rewrite Forall_forall in Hall. destruct (Hall o Ho) as [_ E].
    change (GetPath (UnwrapObj (wrap o))) with (o_Path o). rewrite E. by rewrite Hn.
Qed.

Lemma split_path p n : Forall good_seg (p ++ [n]) →
  ∃ dir, path_Split (render (p ++ [n])) = (dir, n) ∧ tidy dir p.
Proof.
  intros Hg. apply Forall_app in Hg as [Hp Hn]. apply Forall_inv in Hn.
  assert ("/"%char ∉ n) as Hns by apply Hn.
  exists (match p with [] => render [] | _ => render p ++ #"/" end). split.
  - unfold path_Split. destruct p as [|w p].
    + change (render ([] ++ [n])) with ([] ++ "/"%char :: n). rewrite after_last_slash_app by done.
      simpl. f_equal. rewrite Nat.sub_succ_l, Nat.sub_diag by done. done.
    + assert (render ((w :: p) ++ [n]) = (render (w :: p) ++ #"/") ++ n) as ->.
      { unfold render. rewrite Join_app by done. by rewrite <- !app_assoc. }
      assert (after_last_slash ((render (w :: p) ++ #"/") ++ n) = n) as ->.
      { rewrite <- app_assoc. by apply after_last_slash_app. }
      f_equal. apply take_app_length'. rewrite !length_app. lia.
  - split; [done|]. destruct p; auto.
Qed.

Lemma path_nonroot path : PathEqual (FixAndCleanPath path) #"/" = false →
  ∃ p n, path_segs path = p ++ [n] ∧ Forall good_seg (p ++ [n]).
Proof.
  intros H. assert (path_segs path ≠ []) as Hne.
  { intros E. rewrite (proj2 (PathEqual_segs _ _)) in H; [done|]. by rewrite path_segs_Fix, E. }
  destruct (exists_last Hne) as (p&n&E). exists p, n. split; [done|]. rewrite <- E. apply path_segs_good.
Qed.

Lemma get_via_reads list path :
  (∀ dir p n, path_segs path = p ++ [n] → tidy dir p → reads (list dir) (listing_of p)) →
  reads (get_via [] list path) (found_at (path_segs path)).
Proof.
  intros Hl. unfold get_via. rewrite Hget. cbv zeta. unfold fs_bind at 1, fs_ret at 1.
  destruct (PathEqual (FixAndCleanPath path) #"/") eqn:Eroot.
  - intros s Hs. unfold get_root. rewrite Hroot. eexists _, s. split; [reflexivity|]. split_ands; [done|done|].
    left. split; [|done]. apply PathEqual_segs in Eroot. by rewrite path_segs_Fix in Eroot.
  - destruct (path_nonroot path Eroot) as (p&n&E&Hg). rewrite FixAndCleanPath_segs, E.
    destruct (split_path p n Hg) as (dir&->&Ht). apply (reads_bind _ _ (listing_of p)).
    + apply reads_wrap. by eapply Hl.
    + intros sl s Hs (l&os&Hh&Hf&Hp). unfold fs_bind. rewrite (search_spec _ _ _ _ Hh).
      destruct (find_obj n l) as [i|] eqn:Ei; [|eexists _, s; by split_ands].
      destruct (find_obj_Some _ _ _ Ei) as (Hi&o&Ho&Hn). rewrite (holds_elems _ _ _ Hh), list_lookup_fmap, Ho.
      eexists _, s. split; [reflexivity|]. split_ands; [done|done|]. right.
      assert (o ∈ wrap <$> os) as Hin by (rewrite <- Hp; by eapply list_elem_of_lookup_2).
      apply list_elem_of_fmap in Hin as (x&->&Hx). by exists p, n, x, os.
Qed.

(** A listing of the driver becomes a slice and goes in the cache. *)
Lemma rep_fresh s s' v sl l : fresh_slice s s' sl l → rep s v → rep s' v.
Proof.
  intros (Hn&Ha&Hc&_) [H1 H2]. split; [|by rewrite Hc]. intros k. rewrite Hc. specialize (H1 k).
  destruct (listCache s !! k) as [sl1|]; [|done]. destruct H1 as (l1&Hv&a&Hl&Hr). exists l1. split; [done|].
  exists a. rewrite Ha; [done|]. intros E. rewrite E in Hl. congruence.
Qed.

Lemma cache_listing_ok p l s v os :
  rep s v → coherent v (drv_state s) → files (drv_state s) !! p = Some os → l ≡ₚ (wrap <$> os) →
  ∃ sl s', (let% objs := alloc (Some <$> l) 0 in let% _ := cache_listing (keyof p) l objs in fs_ret objs) s
    = Done (inr sl) s' ∧ inv s' ∧ drv_state s' = drv_state s ∧ listing_of p sl s'.
Proof.
  intros Hr Hc Hf Hl. destruct (alloc_spec s l 0) as (sl&s1&E&Hfr). unfold fs_bind at 1. rewrite E.
  pose proof (rep_fresh _ _ _ _ _ Hfr Hr) as Hr1. destruct Hfr as (Hn&Ha&Hc1&Hh&Hd&Hk).
  assert (∀ s2, arrays s2 = arrays s1 → drv_state s2 = drv_state s → listing_of p sl s2) as Hlist.
  { intros s2 Ea Ed. exists l, os. split_ands; [|by rewrite Ed|done]. destruct Hh as (a&Hx). exists a. by rewrite Ea. }
  unfold cache_listing. destruct (NoCache d_Config); [|destruct (0 <? length l)%nat]; unfold fs_bind, fs_ret.
  - exists sl, s1. split_ands; [done| |done|by apply Hlist]. exists v. split; [done|]. by rewrite Hd.
  - eexists sl, _. split; [reflexivity|]. split_ands; [|done|by apply Hlist]. exists (<[keyof p := l]> v). split.
    + apply (replaces_rep s); [done|]. unfold replaces. split_ands; [done|done|by left|done|done].
    + simpl. rewrite Hd. intros k l' Hk'. destruct (decide (k = keyof p)) as [->|Hne].
      * rewrite lookup_insert_eq in Hk'. injection Hk' as <-. by exists p, os.
      * rewrite lookup_insert_ne in Hk' by done. by apply Hc.
  - eexists sl, _. split; [reflexivity|]. split_ands; [|done|by apply Hlist]. exists (delete (keyof p) v). split.
    + by apply rep_delete.
    + simpl. rewrite Hd. eapply coherent_sub; [|exact Hc]. apply delete_subseteq.
Qed.

Lemma op_List_reads fuel : ∀ path refresh,
  (length (path_segs path) < fuel)%nat →
  reads (op_List [] fuel path refresh) (listing_of (path_segs path)).
Proof.
  induction fuel as [|fuel IH]; intros path refresh Hfuel; [lia|]. cbn [op_List]. cbv zeta.
  apply (reads_bind _ _ (λ _ _, True)); [apply reads_status|]. intros _ s Hs _.
  set (path' := FixAndCleanPath path). assert (path_segs path' = path_segs path) as Ep by apply path_segs_Fix.
  rewrite (Key_segs M HM Hmount), Ep. set (p := path_segs path) in *.
  assert (Forall good_seg p) as Hp by apply path_segs_good.
  unfold fs_bind at 1, fs_gets. destruct (if refresh then None else listCache s !! keyof p) as [sl|] eqn:Ek.
  - destruct refresh; [done|]. destruct Hs as (v&Hr&Hc). exists (inr sl), s. split_ands; [done|by exists v|done|].
    destruct (rep_lookup _ _ _ _ Hr Ek) as (l&Hv&Hh). destruct (coherent_at _ _ _ _ Hc Hp Hv) as (os&Hf&Hl).
    by exists l, os.
  - clear Ek. revert s Hs. apply (reads_bind _ _ (λ o _, dir_at R p o)).
    + apply reads_wrap. unfold unwrap_via. apply (reads_bind _ _ (found_at p)).
      * rewrite <- Ep. apply get_via_reads. intros dir p0 n E Ht. rewrite <- (tidy_segs _ _ Ht). apply IH.
        rewrite (tidy_segs _ _ Ht). rewrite Ep in E. rewrite E, length_app in Hfuel. simpl in Hfuel. lia.
      * intros f s Hs Hf. apply (reads_ret (UnwrapObj f) (λ o _, dir_at R p o)); [|done]. intros _ _.
        by apply (found_path _ _ s).
    + intros dir s Hs Hdir. destruct (negb (IsDir dir)); [by apply reads_fail|].
      unfold fs_bind at 1, fs_wrap, on_drv. pose proof (tl_list R dir p refresh (drv_state s) Hdir) as Hl.
      destruct (d_List dir refresh (drv_state s)) as [[e|l] d'].
      * eexists _, _. split; [reflexivity|]. split_ands; [by apply inv_drv|done|done].
      * destruct Hl as (Hf&os&Hos&Hl). pose proof (inv_drv s d' Hs Hf) as (v&Hr&Hc).
        destruct (cache_listing_ok p (prepare [] dir l) (set_drv_state d' s) v os Hr Hc) as (sl&s'&E&Hi&Ed&Hlist);
          [simpl; by rewrite Hf|by apply prepare_perm|].
        rewrite E. eexists _, s'. split; [reflexivity|]. split_ands; [done|by rewrite Ed|done].
Qed.

(** The fuel of the paths is enough. *)
Lemma segs_length (l : list gostr) : Forall norm_seg l → (length l ≤ length (Join #"/" l))%nat.
Proof.
  induction 1 as [|w l (Hw&_) Hl IH]; [simpl; lia|]. destruct l as [|w' l].
  - simpl. destruct w; [by destruct Hw|simpl; lia].
  - change (Join #"/" (w :: w' :: l)) with (w ++ #"/" ++ Join #"/" (w' :: l)). rewrite !length_app.
    cbn [length] in *. lia.
Qed.

Lemma path_fuel_enough path : (length (path_segs path) < path_fuel path)%nat.
Proof.
  unfold path_fuel. rewrite FixAndCleanPath_segs. unfold render. pose proof (segs_length _ (path_segs_norm path)).
  simpl. lia.
Qed.

Lemma fs_List_reads path refresh : reads (fs_List [] path refresh) (listing_of (path_segs path)).
Proof. apply op_List_reads. pose proof (path_fuel_enough path). lia. Qed.

Lemma fs_Get_reads path : reads (fs_Get [] path) (found_at (path_segs path)).
Proof.
  apply get_via_reads. intros dir p n E Ht. rewrite <- (tidy_segs _ _ Ht). apply op_List_reads.
  rewrite (tidy_segs _ _ Ht). pose proof (path_fuel_enough path) as H. rewrite E, length_app in H. simpl in H. lia.
Qed.

Lemma fs_GetUnwrap_reads path : reads (fs_GetUnwrap [] path) (λ o _, dir_at R (path_segs path) o).
Proof.
  apply (reads_bind _ _ (found_at (path_segs path))); [apply fs_Get_reads|]. intros f s Hs Hf.
  apply (reads_ret (UnwrapObj f) (λ o _, dir_at R (path_segs path) o)); [|done]. intros _ _.
  by apply (found_path _ _ s); [apply path_segs_good|].
Qed.

Lemma fs_Link_reads path ip : reads (fs_Link [] path ip) (λ _ _, True).
Proof.
  apply (reads_bind _ _ (λ _ _, True)); [apply reads_status|]. intros _ s0 Hs0 _. revert s0 Hs0.
  eapply reads_bind; [apply reads_wrap, fs_GetUnwrap_reads|]. intros f s Hs _.
  destruct (IsDir f); [by apply (reads_fail _ (λ _ _, True))|]. unfold fs_bind at 1, fs_gets.
  destruct (linkCache s !! Key path) as [link|]; [by apply (reads_ret (link, f) (λ _ _, True))|].
  unfold fs_bind at 1, fs_wrap, on_drv. pose proof (tl_link R f ip (drv_state s)) as Hl.
  destruct (d_Link f ip (drv_state s)) as [[e|link] d']; simpl in Hl.
  - eexists _, _. split; [reflexivity|]. split_ands; [by apply inv_drv|done|done].
  - destruct (l_Expiration link); (eexists _, _; split; [reflexivity|]; split_ands; [|done|done]); [|by apply inv_drv].
    destruct (inv_drv s d' Hs Hl) as (v&Hr&Hc). exists v. split; [by eapply rep_same; [..|exact Hr]|done].
Qed.

(** *** Changing *)

Lemma quiet_tree_trans s1 s2 s3 : quiet s1 s2 → quiet s2 s3 → quiet s1 s3.
Proof. intros [H1 H2] [H3 H4]. split; congruence. Qed.

(** A method of the driver and what is done to the cache after it. *)
Lemma run_method_ok {I} (m : method I dstate) arg before dir pdir add s v f P g :
  rep s v → coherent v (drv_state s) → tidy dir pdir → obeys m arg (drv_state s) P →
  (∀ s1, rep s1 v → ∃ s2, before s1 = Done (inr ()) s2 ∧ rep s2 (f v) ∧ quiet s1 s2) →
  (∀ o s1 v1, rep s1 v1 → ∃ s2, add (wrap o) s1 = Done (inr ()) s2 ∧ rep s2 (g o v1) ∧ quiet s1 s2) →
  dirs_named (f v) →
  (∀ o d', P o d' → coherent (g o (f v)) d') →
  (∀ o d' v', P o d' → v' ⊆ f v → v' !! keyof pdir = None → coherent v' d') →
  ∃ r s', run_method [] m arg before dir add false s = Done r s' ∧ inv s'.
Proof.
  intros Hr Hc Ht Hm Hbefore Hadd Hnamed Hg Hforget.
  assert (∀ d', files d' = files (drv_state s) → inv (set_drv_state d' s)) as Hsame.
  { intros d' E. apply inv_drv; [by exists v|done]. }
  assert (∀ o s2 d', P o d' → rep s2 (f v) → drv_state s2 = d' →
    ∃ s3, clear dir s2 = Done (inr ()) s3 ∧ inv s3) as Hclear.
  { intros o s2 d' HP Hr2 Ed. destruct (clear_ok M HM Hmount dir pdir s2 (f v) Ht Hr2 Hnamed) as
      (s3&v3&E3&Hr3&[Hd3 _]&[Hsub _]&Hn3). exists s3. split; [done|]. exists v3. split; [done|].
    rewrite Hd3, Ed. by eapply Hforget. }
  unfold run_method. destruct m as [|h|h]; simpl in Hm.
  - by exists (inl (ESentinel NotImplement)), s; split; [|exists v].
  - unfold fs_bind at 1, fs_wrap, on_drv. destruct (h arg (drv_state s)) as [[e|[]] d'].
    + eexists _, _. split; [reflexivity|by apply Hsame].
    + destruct Hm as (o&HP). destruct (Hbefore (set_drv_state d' s)) as (s2&E2&Hr2&[Hd2 _]); [by eapply rep_same|].
      unfold fs_bind. rewrite E2. destruct (Hclear o s2 d' HP Hr2 Hd2) as (s3&->&Hi). eauto.
  - unfold fs_bind at 1, fs_wrap, on_drv. destruct (h arg (drv_state s)) as [[e|r] d'].
    + eexists _, _. split; [reflexivity|by apply Hsame].
    + destruct Hm as (o&HP&Hres). destruct (Hbefore (set_drv_state d' s)) as (s2&E2&Hr2&[Hd2 _]); [by eapply rep_same|].
      unfold fs_bind. rewrite E2. destruct Hres as [->| ->].
      * destruct (Hclear o s2 d' HP Hr2 Hd2) as (s3&->&Hi). eauto.
      * change (WrapObjName [] (Raw o)) with (wrap o). destruct (Hadd o s2 (f v) Hr2) as (s3&->&Hr3&[Hd3 _]).
        exists (inr ()), s3. split; [done|]. exists (g o (f v)). split; [done|]. rewrite Hd3, Hd2. by apply Hg.
Qed.

Lemma ret_before v s1 : rep s1 v → ∃ s2, fs_ret () s1 = Done (inr ()) s2 ∧ rep s2 v ∧ quiet s1 s2.
Proof. intros H. exists s1. by split_ands. Qed.

Lemma tidy_key dir p : tidy dir p → Key dir = keyof p.
Proof. intros Ht. by rewrite (Key_segs M HM Hmount), (tidy_segs _ _ Ht). Qed.

Lemma add_method {I} (m : method I dstate) arg dir p n s :
  inv s → tidy dir p → obeys m arg (drv_state s) (λ o, added p n o (drv_state s)) →
  ∃ r s', run_method [] m arg (fs_ret ()) dir (addCacheObj grow dir) false s = Done r s' ∧ inv s'.
Proof.
  intros (v&Hr&Hc) Ht Hm. destruct Ht as [Hp Ht'].
  eapply (run_method_ok m arg _ dir p _ s v id _ (λ o, alter (add_obj (wrap o)) (keyof p)));
    [done|done|by split|exact Hm|apply ret_before| |by eapply coherent_named| |].
  - intros o s1 v1 Hr1. rewrite <- (tidy_key dir p) by by split. by apply addCacheObj_ok.
  - intros o d' (Hn&Hre&Ho). eapply coherent_relist; [done|done|exact Hre|done|].
    intros l os Hf Hl. rewrite <- Hn. by eapply add_wrap.
  - intros o d' v' (Hn&Hre&Ho) Hsub Hnone. by eapply coherent_forget.
Qed.

(** What the program may be asked to do: it returns and keeps the invariant. *)
Definition keeps_inv {A} (m : Fs A) (s : fs) : Prop := ∃ r s', m s = Done r s' ∧ inv s'.

Lemma keeps_reads {A} (m : Fs A) Q s : reads m Q → inv s → keeps_inv m s.
Proof. intros Hm Hs. destruct (Hm s Hs) as (r&s'&E&Hi&_). by exists r, s'. Qed.

Lemma keeps_tree_bind {A B} (m : Fs A) (k : A → Fs B) Q s :
  reads m Q → inv s →
  (∀ a s', inv s' → files (drv_state s') = files (drv_state s) → Q a s' → keeps_inv (k a) s') →
  keeps_inv (fs_bind m k) s.
Proof.
  intros Hm Hs Hk. unfold keeps_inv, fs_bind. destruct (Hm s Hs) as (r&s1&->&Hi&Hf&HQ).
  destruct r as [e|a]; [by exists (inl e), s1|]. by apply Hk.
Qed.

Lemma keeps_wrap {A} (m : Fs A) msg s : keeps_inv m s → keeps_inv (fs_wrap m msg) s.
Proof. intros (r&s'&E&Hi). unfold keeps_inv, fs_wrap. rewrite E. destruct r; eauto. Qed.

(** A call whose effect is not tracked, then another. *)
Lemma keeps_then {A B} (m : Fs A) (k : A → Fs B) s :
  keeps_inv m s → (∀ a s', inv s' → keeps_inv (k a) s') → keeps_inv (fs_bind m k) s.
Proof.
  intros (r&s1&E&Hi) Hk. unfold keeps_inv, fs_bind. rewrite E. destruct r as [e|a]; [by exists (inl e), s1|by apply Hk].
Qed.

Lemma root_found path s : path_segs path = [] →
  fs_GetUnwrap [] path s = Done (inr (root_object [] (render R))) s.
Proof.
  intros E. unfold fs_GetUnwrap, fs_Get, get_via. rewrite Hget. cbv zeta. unfold fs_bind, fs_ret.
  rewrite (proj2 (PathEqual_segs (FixAndCleanPath path) #"/")) by (by rewrite path_segs_Fix, E).
  unfold get_root. by rewrite Hroot.
Qed.

Lemma make_dir_keeps fuel : ∀ path s,
  (length (path_segs path) < fuel)%nat → inv s → keeps_inv (make_dir [] grow fuel path false) s.
Proof.
  induction fuel as [|fuel IH]; intros path s Hfuel Hs; [lia|]. cbn [make_dir]. cbv zeta.
  apply (keeps_tree_bind _ _ (λ _ _, True)); [apply reads_status|done|].
  intros _ s' Hs' _ _. clear s Hs. rename s' into s, Hs' into Hs.
  set (path' := FixAndCleanPath path). assert (path_segs path' = path_segs path) as Ep by apply path_segs_Fix.
  destruct (decide (path_segs path = [])) as [E0|Hne].
  { unfold keeps_inv, fs_bind, fs_try. rewrite root_found by congruence. by exists (inr ()), s. }
  destruct (exists_last Hne) as (p&n&E). assert (Forall good_seg (p ++ [n])) as Hg by (rewrite <- E; apply path_segs_good).
  eapply keeps_tree_bind; [apply reads_try, fs_GetUnwrap_reads|done|]. intros f s1 Hs1 Hf1 Hf.
  destruct f as [e|f]; [|destruct (IsDir f); [exists (inr ()), s1|eexists (inl _), s1]; done].
  destruct (IsObjectNotFound e); [|by eexists (inl _), s1].
  replace path' with (render (p ++ [n])) by (unfold path'; by rewrite FixAndCleanPath_segs, E).
  destruct (split_path p n Hg) as (dir&->&Ht).
  apply keeps_then.
  - apply keeps_wrap, IH; [|done]. rewrite (tidy_segs _ _ Ht). rewrite E, length_app in Hfuel. simpl in Hfuel. lia.
  - intros _ s2 Hs2. eapply keeps_tree_bind; [apply reads_wrap, fs_GetUnwrap_reads|done|].
    intros parent s3 Hs3 _ Hd. rewrite (tidy_segs _ _ Ht) in Hd.
    apply (add_method _ _ _ p n); [done|done|]. apply (tl_mkdir R); [done|]. apply Forall_app in Hg as [_ Hg].
    by apply Forall_inv in Hg.
Qed.

Lemma fs_MakeDir_keeps path s : inv s → keeps_inv (fs_MakeDir [] grow path false) s.
Proof. apply make_dir_keeps, path_fuel_enough. Qed.

Lemma fs_Copy_keeps src dst s : inv s → keeps_inv (fs_Copy [] grow src dst false) s.
Proof.
  intros Hs. apply (keeps_tree_bind _ _ (λ _ _, True)); [apply reads_status|done|]. intros _ s1 Hs1 _ _.
  eapply keeps_tree_bind; [apply reads_wrap, fs_GetUnwrap_reads|done|]. intros o s2 Hs2 _ _.
  eapply keeps_tree_bind; [apply reads_wrap, fs_GetUnwrap_reads|done|]. intros dir s3 Hs3 _ Hd. rewrite path_segs_Fix in Hd.
  apply (add_method _ _ _ (path_segs dst) (GetName o)); [done|apply tidy_Fix|]. by apply (tl_copy R).
Qed.

Lemma fs_PutURL_keeps dst n url s : good_seg n → inv s → keeps_inv (fs_PutURL [] grow dst n url false) s.
Proof.
  intros Hn Hs. apply (keeps_tree_bind _ _ (λ _ _, True)); [apply reads_status|done|]. intros _ s1 Hs1 _ _. cbv zeta.
  eapply keeps_tree_bind; [apply reads_try, fs_GetUnwrap_reads|done|]. intros f s2 Hs2 _ _.
  destruct f; [|by eexists (inl _), s2]. apply keeps_then; [by apply keeps_wrap, fs_MakeDir_keeps|]. intros _ s3 Hs3.
  eapply keeps_tree_bind; [apply reads_wrap, fs_GetUnwrap_reads|done|]. intros dir s4 Hs4 _ Hd. rewrite path_segs_Fix in Hd.
  apply (add_method _ _ _ (path_segs dst) n); [done|apply tidy_Fix|]. by apply (tl_puturl R).
Qed.

(** What is at the path, if anything, is a file. *)
Definition is_file d (path : gostr) : Prop :=
  ∃ p n, path_segs path = p ++ [n] ∧
    ∀ os o, files d !! p = Some os → o ∈ os → o_Name o = n → o_IsFolder o = false.

Lemma is_file_same d d' path : files d' = files d → is_file d path → is_file d' path.
Proof. intros E (p&n&Hp&H). exists p, n. by rewrite E. Qed.

(** A file that [Get] found, with its directory. *)
Lemma file_found path f s :
  is_file (drv_state s) path → found_at (path_segs path) f s →
  ∃ p n o os, path_segs path = p ++ [n] ∧ Forall good_seg p ∧ good_seg n ∧ f = wrap o ∧ o_Name o = n ∧
    o_IsFolder o = false ∧ files (drv_state s) !! p = Some os ∧ o ∈ os ∧
    tidy (path_Dir (FixAndCleanPath path)) p.
Proof.
  intros (p&n&Hp&Hfile) [[E _]|(p0&n0&o&os&E&Hf&Ho&Hn&->)].
  { rewrite E in Hp. by destruct p. }
  rewrite E in Hp. apply app_inj_2 in Hp as [-> [= ->]]; [|done].
  assert (Forall good_seg (p ++ [n])) as Hg by (rewrite <- E; apply path_segs_good).
  apply Forall_app in Hg as [Hgp Hgn]. apply Forall_inv in Hgn. exists p, n, o, os. split_ands; try done.
  - by apply (Hfile os).
  - split; [done|]. left. rewrite FixAndCleanPath_segs, E. apply path_Dir_render; [by apply good_norm|apply Hgn].
Qed.

Lemma fs_Remove_keeps path s : is_file (drv_state s) path → inv s → keeps_inv (fs_Remove [] path) s.
Proof.
  intros Hfile Hs. apply (keeps_tree_bind _ _ (λ _ _, True)); [apply reads_status|done|]. intros _ s1 Hs1 Hf1 _.
  apply (is_file_same _ _ _ Hf1) in Hfile. clear s Hs Hf1. destruct (PathEqual path #"/"); [by eexists (inl _), s1|]. cbv zeta.
  eapply keeps_tree_bind; [apply reads_try, fs_Get_reads|done|]. intros f s2 Hs2 Hf2 Hfound.
  apply (is_file_same _ _ _ Hf2) in Hfile. destruct f as [e|f].
  { destruct (IsObjectNotFound e); [exists (inr ()), s2|eexists (inl _), s2]; done. }
  rewrite path_segs_Fix in Hfound.
  destruct (file_found path f s2 Hfile Hfound) as (p&n&o&os&E&Hp&Hn&->&Hon&Hdir&Hos&Ho&Ht).
  destruct d_Remove as [rm|] eqn:Erm; [|by eexists (inl _), s2].
  change (UnwrapObj (wrap o)) with (Raw o). unfold keeps_inv, fs_bind at 1, fs_wrap, on_drv.
  assert (file_at (drv_state s2) p n (Raw o)) as Hat by (by exists o, os).
  pose proof (tl_remove R (Raw o) p n (drv_state s2) rm Hat Erm) as Hrm.
  destruct Hs2 as (v&Hr&Hc). destruct (rm (Raw o) (drv_state s2)) as [[e|[]] d'].
  - eexists _, _. split; [reflexivity|]. apply inv_drv; [by exists v|done].
  - destruct (delCacheObj_ok (path_Dir (FixAndCleanPath path)) (wrap o) (set_drv_state d' s2) v)
      as (s3&E3&Hr3&[Hd3 _]); [by eapply rep_same|].
    unfold fs_bind. rewrite E3. change (IsDir (wrap o)) with (o_IsFolder o). rewrite Hdir.
    exists (inr ()), s3. split; [done|]. rewrite (tidy_key _ _ Ht) in Hr3. change (GetName (wrap o)) with (o_Name o) in Hr3.
    eexists. split; [exact Hr3|]. rewrite Hd3. simpl. destruct Hrm as [Hre Hot]. rewrite Hon.
    eapply coherent_relist; [done|done|exact Hre|done|]. intros l os' Hf' Hl. by eapply remove_wrap.
Qed.

Lemma fs_Rename_keeps path m s :
  is_file (drv_state s) path → good_seg m → path_Base (FixAndCleanPath path) ≠ m → inv s →
  keeps_inv (fs_Rename [] path m false) s.
Proof.
  intros Hfile Hm Hne Hs. apply (keeps_tree_bind _ _ (λ _ _, True)); [apply reads_status|done|]. intros _ s1 Hs1 Hf1 _.
  apply (is_file_same _ _ _ Hf1) in Hfile. clear s Hs Hf1. cbv zeta.
  eapply keeps_tree_bind; [apply reads_wrap, fs_Get_reads|done|]. intros f s2 Hs2 Hf2 Hfound.
  apply (is_file_same _ _ _ Hf2) in Hfile. rewrite path_segs_Fix in Hfound.
  destruct (file_found path f s2 Hfile Hfound) as (p&n&o&os&E&Hp&Hn&->&Hon&Hdir&Hos&Ho&Ht).
  assert (n ≠ m) as Hnm.
  { intros <-. apply Hne. rewrite FixAndCleanPath_segs, E. apply path_Base_render, Hn. }
  destruct Hs2 as (v&Hr&Hc). change (UnwrapObj (wrap o)) with (Raw o).
  eapply (run_method_ok d_Rename (Raw o, m) _ _ p _ s2 v id _ (λ x, alter (update_obj (wrap o) (wrap x)) (keyof p)));
    [done|done|exact Ht| |apply ret_before| |by eapply coherent_named| |].
  - apply (tl_rename R (Raw o) p n m); [by exists o, os|done|done].
  - intros x s3 v3 Hr3. rewrite <- (tidy_key _ _ Ht). by apply updateCacheObj_ok.
  - intros x d' (Hx&Hre&Hot). eapply coherent_relist; [done|done|exact Hre|done|].
    intros l os' Hf' Hl. rewrite <- Hx. assert (os' = os) as -> by congruence.
    eapply update_wrap; [done|done|done|done|congruence].
  - intros x d' v' (Hx&Hre&Hot) Hsub Hnone. by eapply coherent_forget.
Qed.

(** A file leaves one listing and comes into another. *)
Lemma coherent_moved v d d' p q n o :
  coherent v d → Forall good_seg p → Forall good_seg q → q ≠ p → moved p q n o d d' →
  let v1 := alter (remove_name n) (keyof p) v in
  coherent (alter (add_obj (wrap o)) (keyof q) v1) d' ∧
  ∀ v', v' ⊆ v1 → v' !! keyof q = None → coherent v' d'.
Proof.
  intros Hc Hp Hq Hne (Hn&Hrp&Hrq&Hot) v1.
  assert (∀ k l, k ≠ keyof q → v1 !! k = Some l →
    ∃ p0 os, k = keyof p0 ∧ files d' !! p0 = Some os ∧ l ≡ₚ (wrap <$> os)) as Hv1.
  { intros k l Hk Hl. unfold v1 in Hl. destruct (decide (k = keyof p)) as [->|Hkp].
    - rewrite lookup_alter_eq in Hl. apply fmap_Some in Hl as (l0&Hl&->).
      destruct (coherent_at _ _ _ _ Hc Hp Hl) as (os&Hf&Hl0). destruct Hrp as (os0&os'&Hf0&Hf'&Hperm).
      assert (os0 = os) as -> by congruence. exists p, os'. split_ands; [done|done|].
      rewrite (remove_wrap d p os l0 n Hf Hl0). by rewrite Hperm.
    - rewrite lookup_alter_ne in Hl by done. destruct (Hc k l Hl) as (p0&os&->&Hf&Hl0).
      exists p0, os. split_ands; [done| |done]. apply Hot; [|done].
      intros [->|[->|[]%not_elem_of_nil]%elem_of_cons]%elem_of_cons; done. }
  split.
  - intros k l Hk. destruct (decide (k = keyof q)) as [->|Hkq].
    + rewrite lookup_alter_eq in Hk. apply fmap_Some in Hk as (l0&Hk&->). unfold v1 in Hk.
      rewrite lookup_alter_ne in Hk by (intros E; by apply keyof_inj in E).
      destruct (coherent_at _ _ _ _ Hc Hq Hk) as (os&Hf&Hl0). destruct Hrq as (os0&os'&Hf0&Hf'&Hperm).
      assert (os0 = os) as -> by congruence. exists q, os'. split_ands; [done|done|].
      rewrite (add_wrap d q os l0 o Hf Hl0). by rewrite Hperm, Hn.
    + rewrite lookup_alter_ne in Hk by done. by apply Hv1.
  - intros v' Hsub Hnone k l Hk. apply Hv1; [congruence|]. by eapply lookup_weaken.
Qed.

Lemma named_remove v k n : dirs_named v → dirs_named (alter (remove_name n) k v).
Proof.
  intros H j l Hj. destruct (decide (j = k)) as [->|Hne].
  - rewrite lookup_alter_eq in Hj. apply fmap_Some in Hj as (l0&Hl&->). specialize (H k l0 Hl). unfold remove_name.
    destruct (find_obj n l0); [|done]. by apply Forall_delete.
  - rewrite lookup_alter_ne in Hj by done. by apply (H j).
Qed.

Lemma fs_Move_keeps src dst s :
  is_file (drv_state s) src → path_Dir (FixAndCleanPath src) ≠ FixAndCleanPath dst → inv s →
  keeps_inv (fs_Move [] grow src dst false) s.
Proof.
  intros Hfile Hne Hs. apply (keeps_tree_bind _ _ (λ _ _, True)); [apply reads_status|done|]. intros _ s1 Hs1 Hf1 _.
  apply (is_file_same _ _ _ Hf1) in Hfile. clear s Hs Hf1. cbv zeta.
  eapply keeps_tree_bind; [apply reads_wrap, fs_Get_reads|done|]. intros f s2 Hs2 Hf2 Hfound.
  apply (is_file_same _ _ _ Hf2) in Hfile. rewrite path_segs_Fix in Hfound.
  destruct (file_found src f s2 Hfile Hfound) as (p&n&o&os&E&Hp&Hn&->&Hon&Hdir&Hos&Ho&Ht).
  eapply keeps_tree_bind; [apply reads_wrap, fs_GetUnwrap_reads|done|]. intros dir s3 Hs3 Hf3 Hd. rewrite path_segs_Fix in Hd.
  set (q := path_segs dst) in *. assert (q ≠ p) as Hqp.
  { intros <-. apply Hne. rewrite !FixAndCleanPath_segs, E. apply path_Dir_render; [by apply good_norm|apply Hn]. }
  destruct Hs3 as (v&Hr&Hc). change (UnwrapObj (wrap o)) with (Raw o). rewrite <- Hf3 in Hos.
  assert (Forall good_seg q) as Hq by apply path_segs_good.
  eapply (run_method_ok d_Move (Raw o, dir) _ _ q _ s3 v (alter (remove_name n) (keyof p)) _
    (λ x, alter (add_obj (wrap x)) (keyof q))); [done|done|apply tidy_Fix| | | |by eapply named_remove, coherent_named| |].
  - apply (tl_move R (Raw o) dir p q n); [by exists o, os|done|done].
  - intros s4 Hr4. destruct (delCacheObj_ok (path_Dir (FixAndCleanPath src)) (wrap o) s4 v Hr4) as (s5&E5&Hr5&Hq5).
    exists s5. split_ands; [done| |done]. rewrite (tidy_key _ _ Ht) in Hr5. change (GetName (wrap o)) with (o_Name o) in Hr5.
    by rewrite Hon in Hr5.
  - intros x s4 v4 Hr4. rewrite <- (tidy_key (FixAndCleanPath dst) q) by apply tidy_Fix. by apply addCacheObj_ok.
  - intros x d' HP. exact (proj1 (coherent_moved v _ d' p q n x Hc Hp Hq Hqp HP)).
  - intros x d' v' HP Hsub Hnone. by apply (proj2 (coherent_moved v _ d' p q n x Hc Hp Hq Hqp HP)).
Qed.

Lemma fs_Put_keeps dst (f : upload) s :
  st_Driver d_Storage ≠ #"UrlTree" → NoOverwriteUpload d_Config = false → good_seg (u_Name f) →
  is_file (drv_state s) (path_join (FixAndCleanPath dst) (u_Name f)) → inv s →
  keeps_inv (fs_Put [] grow dst f false) s.
Proof.
  intros Hdrv Hov Hn Hfile Hs. apply (keeps_tree_bind _ _ (λ _ _, True)); [apply reads_status|done|]. intros _ s1 Hs1 Hf1 _.
  apply (is_file_same _ _ _ Hf1) in Hfile. clear s Hs Hf1. unfold put_target. rewrite bool_decide_false by done. cbv zeta.
  eapply keeps_tree_bind; [apply reads_try, fs_GetUnwrap_reads|done|]. intros fi s2 Hs2 Hf2 _.
  apply (is_file_same _ _ _ Hf2) in Hfile. clear s1 Hs1 Hf2.
  set (fo := match fi with inr x => Some x | inl _ => None end).
  assert (∃ r s3, put_existing [] (FixAndCleanPath dst) f fo s2 = Done r s3 ∧ inv s3 ∧
    match r with inr f' => u_Name f' = u_Name f | inl _ => True end) as (r&s3&E3&Hs3&Hr3).
  { unfold put_existing. destruct fo as [x|]; [|by exists (inr f), s2]. rewrite Hov.
    destruct (GetSize x =? 0); [|by eexists (inr _), s2].
    destruct (keeps_wrap _ #"while uploading, failed remove existing file which size = 0" _ (fs_Remove_keeps _ s2 Hfile Hs2))
      as (r&s3&E&Hi). unfold fs_bind. rewrite E. destruct r as [e|[]]; [by exists (inl e), s3|by exists (inr f), s3]. }
  unfold keeps_inv, fs_bind at 1. rewrite E3. destruct r as [e|f']; [by exists (inl e), s3|].
  apply keeps_then; [by apply keeps_wrap, fs_MakeDir_keeps|]. intros _ s4 Hs4.
  eapply keeps_tree_bind; [apply reads_wrap, fs_GetUnwrap_reads|done|]. intros dir s5 Hs5 _ Hd. rewrite path_segs_Fix in Hd.
  destruct (has_method d_Put); [|by eexists (inl _), s5].
  destruct (add_method d_Put (dir, f') (FixAndCleanPath dst) (path_segs dst) (u_Name f') s5 Hs5 (tidy_Fix dst)) as (r&s6&E6&Hs6).
  { apply (tl_put R); [done|]. by rewrite Hr3. }
  unfold keeps_inv, fs_bind, fs_try. rewrite E6. unfold put_finish. rewrite Hov.
  destruct fo; destruct r as [e|[]]; cbn [andb]; [exists (inl e), s6|exists (inr ()), s6|exists (inl e), s6|exists (inr ()), s6]; done.
Qed.

(** *** Sequences of operations *)

Inductive fs_op :=
  | OList (path : gostr) (refresh : bool) | OLink (path ip : gostr)
  | OMakeDir (path : gostr) | OMove (src dst : gostr) | ORename (path name : gostr)
  | OCopy (src dst : gostr) | ORemove (path : gostr) | OPut (dst : gostr) (f : upload)
  | OPutURL (dst name url : gostr) | OClear (path : gostr) | OExpire (key : gostr) | OTimer (key : gostr).

Definition exec_op (op : fs_op) : Fs unit :=
  match op with
  | OList path refresh => let% _ := fs_List [] path refresh in fs_ret ()
  | OLink path ip => let% _ := fs_Link [] path ip in fs_ret ()
  | OMakeDir path => fs_MakeDir [] grow path false
  | OMove src dst => fs_Move [] grow src dst false
  | ORename path name => fs_Rename [] path name false
  | OCopy src dst => fs_Copy [] grow src dst false
  | ORemove path => fs_Remove [] path
  | OPut dst f => fs_Put [] grow dst f false
  | OPutURL dst name url => fs_PutURL [] grow dst name url false
  | OClear path => clear (FixAndCleanPath path)
  | OExpire key => fs_modify (λ s, set_listCache (delete key (listCache s)) s)
  | OTimer key => debounced_sort key
  end.

(** Directories are not moved, renamed or removed, a file is not moved to where
    it is nor renamed to its own name, new names are names, and a timer that
    sorts a listing fires only while the slice it was given is the one in the
    cache: since it was started nothing was removed from the directory, and the
    listing has not expired (see [debounced_sort_breaks]). *)
Definition allowed (op : fs_op) (s : fs) : Prop :=
  match op with
  | OMove src dst => is_file (drv_state s) src ∧ path_Dir (FixAndCleanPath src) ≠ FixAndCleanPath dst
  | ORename path name => is_file (drv_state s) path ∧ good_seg name ∧ path_Base (FixAndCleanPath path) ≠ name
  | ORemove path => is_file (drv_state s) path
  | OPut dst f => st_Driver d_Storage ≠ #"UrlTree" ∧ NoOverwriteUpload d_Config = false ∧ good_seg (u_Name f) ∧
      is_file (drv_state s) (path_join (FixAndCleanPath dst) (u_Name f))
  | OPutURL _ name _ => good_seg name
  | OTimer key => ∀ sl, addSortDebounceMap s !! key = Some sl → listCache s !! key = Some sl
  | _ => True
  end.

Lemma SortFiles_objs (l : list Obj) orderBy orderDirection :
  ∃ l', SortFiles (Some <$> l) orderBy orderDirection = Some (Some <$> l') ∧ l' ≡ₚ l.
Proof.
  unfold SortFiles. case_bool_decide; [by exists l|]. rewrite (bool_decide_false (None ∈ _)), andb_false_r.
  - destruct (Permutation_map_inv Some l (sort_Slice_perm _ (nil_less (sort_less orderBy orderDirection)) (Some <$> l))) as (l' & E & Hp).
    exists l'. split; [by f_equal|by symmetry].
  - by intros (x & ? & _)%list_elem_of_fmap.
Qed.

(** A sort of the cached slice keeps its objects. *)
Lemma debounced_sort_keeps key s : inv s → allowed (OTimer key) s → keeps_inv (debounced_sort key) s.
Proof.
  intros (v & Hr & Hc) Ha. unfold keeps_inv, debounced_sort. destruct (addSortDebounceMap s !! key) as [sl|] eqn:E.
  - specialize (Ha sl E). destruct (rep_lookup s v key sl Hr Ha) as (l & Hv & Hh).
    rewrite (holds_elems s sl l Hh).
    destruct (SortFiles_objs l (OrderBy (st_Sort d_Storage)) (OrderDirection (st_Sort d_Storage))) as (l' & -> & Hp).
    eexists (inr ()), _. split; [reflexivity|]. exists (<[key := l']> v). split.
    + apply (rep_update s _ v key sl l'); [done| | |right; by exists sl|].
      * intros b Hb. simpl. by rewrite lookup_alter_ne.
      * simpl. by rewrite insert_id.
      * pose proof (holds_len s sl l Hh) as Hlen. destruct Hh as (a & Harr & Hla & _).
        exists ((Some <$> l') ++ drop (s_len sl) a). simpl. rewrite lookup_alter_eq, Harr.
        assert (El : length l' = s_len sl) by (by rewrite Hp). split; [done|].
        rewrite length_app, length_fmap, length_drop. split; [lia|]. by rewrite take_app_length' by (by rewrite length_fmap).
    + intros k l0 Hk. simpl. apply lookup_insert_Some in Hk as [[<- <-]|[Hne Hk]]; [|by apply Hc].
      destruct (Hc key l Hv) as (p & os & Ek & Hf & Hl). exists p, os. split_ands; [done..|]. by rewrite Hp.
  - eexists (inr ()), s. split; [done|]. by exists v.
Qed.

Lemma exec_op_keeps op s : inv s → allowed op s → keeps_inv (exec_op op) s.
Proof.
  intros Hs. destruct op; simpl; intros Ha.
  - apply keeps_then; [by eapply keeps_reads; [apply fs_List_reads|]|]. intros _ s' Hs'. by exists (inr ()), s'.
  - apply keeps_then; [by eapply keeps_reads; [apply fs_Link_reads|]|]. intros _ s' Hs'. by exists (inr ()), s'.
  - by apply fs_MakeDir_keeps.
  - destruct Ha. by apply fs_Move_keeps.
  - destruct Ha as (?&?&?). by apply fs_Rename_keeps.
  - by apply fs_Copy_keeps.
  - by apply fs_Remove_keeps.
  - destruct Ha as (?&?&?&?). by apply fs_Put_keeps.
  - by apply fs_PutURL_keeps.
  - destruct Hs as (v&Hr&Hc).
    destruct (clear_ok M HM Hmount _ _ s v (tidy_Fix path) Hr (coherent_named _ _ Hc)) as (s'&v'&E&Hr'&[Hd _]&[Hs _]&_).
    exists (inr ()), s'. split; [done|]. exists v'. split; [done|]. rewrite Hd. by eapply coherent_sub.
  - destruct Hs as (v&Hr&Hc). eexists (inr ()), _. split; [reflexivity|]. exists (delete key v).
    split; [by apply rep_delete|]. simpl. eapply coherent_sub; [|exact Hc]. apply delete_subseteq.
  - by apply debounced_sort_keeps.
Qed.

Definition fs_step s s' : Prop := ∃ op r, allowed op s ∧ exec_op op s = Done r s'.

(** Nothing is cached at the start. *)
Definition fs_start s : Prop := listCache s = ∅.

Lemma tree_start_inv s : fs_start s → inv s.
Proof.
  intros E. exists ∅. split; [split|].
  - intros k. rewrite E. by rewrite !lookup_empty.
  - intros k1 k2 sl1 sl2. by rewrite E, lookup_empty.
  - intros k l. by rewrite lookup_empty.
Qed.

Lemma tree_run_inv s0 s : fs_start s0 → rtc fs_step s0 s → inv s.
Proof.
  intros H0 Hr. apply tree_start_inv in H0. induction Hr as [|s0 s1 s2 (op&r&Ha&E) _ IH]; [done|]. apply IH.
  destruct (exec_op_keeps op s0 H0 Ha) as (r'&s'&E'&Hi). rewrite E in E'. by injection E' as _ <-.
Qed.

Lemma cached_listing path refresh s :
  inv s → ∃ r s', fs_List [] path refresh s = Done r s' ∧
    match r with
    | inr sl => ∃ os, files (drv_state s) !! path_segs path = Some os ∧ elems s' sl ≡ₚ (Some <$> (wrap <$> os))
    | inl _ => True
    end.
Proof.
  intros Hs. destruct (fs_List_reads path refresh s Hs) as (r&s'&E&_&Hf&Hl). exists r, s'. split; [done|].
  destruct r as [e|sl]; [done|]. destruct Hl as (l&os&Hh&Hos&Hp). exists os. rewrite <- Hf. split; [done|].
  rewrite (holds_elems _ _ _ Hh). by rewrite Hp.
Qed.
End coherent.



(** ** A driver in memory that keeps the laws *)

Module TreeMem.
Abbreviation but n := (filter (λ x, o_Name x ≠ n)).

Definition tree_ok (m : gmap (list gostr) (list Object)) : Prop :=
  map_Forall (λ p os, Forall (file_ok [] p) os ∧ NoDup (o_Name <$> os) ∧ Forall good_seg p) m.

#[export] Instance file_ok_dec p o : Decision (file_ok [] p o).
Proof. unfold file_ok. apply _. Defined.
#[export] Instance tree_ok_dec m : Decision (tree_ok m).
Proof. unfold tree_ok. apply _. Defined.

Definition trees := { m : gmap (list gostr) (list Object) | tree_ok m }.
Definition no_dir : error := ESentinel ObjectNotFound.

(** A change is refused when a name in it is not one. *)
Definition commit {A} (d : trees) (a : A) (m : gmap (list gostr) (list Object)) : result A * trees :=
  match decide (tree_ok m) with left p => (inr a, m ↾ p) | right _ => (inl no_dir, d) end.

Definition new_obj (p : list gostr) (n : gostr) (size : Z) (dir : bool) : Object :=
  {| o_ID := []; o_Path := render (p ++ [n]); o_Name := n; o_Size := size; o_Modified := 0; o_IsFolder := dir |}.

(** The object comes into the listing of [p], and its own listing is kept. *)
Definition put_obj (dir : Obj) (n : gostr) (size : Z) (folder : bool) (d : trees) : result (option Obj) * trees :=
  let p := path_segs (GetPath dir) in
  match `d !! p with
  | None => (inl no_dir, d)
  | Some os =>
      let o := new_obj p n size folder in
      let m := <[p := o :: but n os]> (`d) in
      commit d (Some (Raw o)) (if folder then match m !! (p ++ [n]) with None => <[p ++ [n] := []]> m | _ => m end else m)
  end.

(** The directory and the name of an object. *)
Definition place (o : Obj) : list gostr * gostr :=
  let l := path_segs (GetPath o) in (removelast l, List.last l []).

Definition move_obj (src dir : Obj) (d : trees) : result (option Obj) * trees :=
  let '(p, n) := place src in
  let q := path_segs (GetPath dir) in
  match `d !! p, `d !! q with
  | Some os, Some oq =>
      let o := new_obj q n (GetSize src) false in
      commit d (Some (Raw o)) (<[q := o :: but n oq]> (<[p := but n os]> (`d)))
  | _, _ => (inl no_dir, d)
  end.

Definition rename_obj (src : Obj) (m : gostr) (d : trees) : result (option Obj) * trees :=
  let '(p, n) := place src in
  match `d !! p with
  | Some os => let o := new_obj p m (GetSize src) false in
               commit d (Some (Raw o)) (<[p := o :: but n (but m os)]> (`d))
  | None => (inl no_dir, d)
  end.

Definition remove_obj (src : Obj) (d : trees) : result unit * trees :=
  let '(p, n) := place src in
  match `d !! p with
  | Some os => commit d () (<[p := but n os]> (`d))
  | None => (inl no_dir, d)
  end.

Definition list_obj (dir : Obj) (d : trees) : result (list Obj) * trees :=
  match `d !! path_segs (GetPath dir) with
  | Some os => (inr (Raw <$> os), d)
  | None => (inl no_dir, d)
  end.

Definition storage : Storage :=
  {| st_ID := 1; MountPath := #"/mnt"; st_Order := 0; st_Driver := #"TreeMem"; CacheExpiration := 30; st_Status := WORK;
     Addition := []; Remark := []; Modified := 0; st_Disabled := false; DisableIndex := false; EnableSign := false;
     st_Sort := {| OrderBy := #"name"; OrderDirection := #"desc"; ExtractFolder := #"front" |};
     st_Proxy := {| WebProxy := false; WebdavPolicy := []; ProxyRange := false; DownProxyUrl := []; DownProxySign := false |} |}.

#[export] Instance driver : FsDriver := {|
  dstate := trees;
  d_Config := {| LocalSort := true; OnlyLocal := false; NoCache := false; CheckStatus := true; NoOverwriteUpload := false |};
  d_Storage := storage;
  d_root := IRootPath (render []);
  d_Get := None;
  d_List dir _ d := list_obj dir d;
  d_Link file ip d := (inr {| l_URL := GetPath file; l_Expiration := Some 60; l_IPCacheKey := false |}, d);
  d_MakeDir := WithResult (λ '(dir, n) d, put_obj dir n 0 true d);
  d_Move := WithResult (λ '(src, dir) d, move_obj src dir d);
  d_Rename := WithResult (λ '(src, m) d, rename_obj src m d);
  d_Copy := WithResult (λ '(src, dir) d, put_obj dir (GetName src) (GetSize src) (IsDir src) d);
  d_Remove := Some remove_obj;
  d_Put := WithResult (λ '(dir, f) d, put_obj dir (u_Name f) (u_Size f) false d);
  d_PutURL := NoMethod;
|}.

#[export] Instance trees_files : TreeDriver := λ d : trees, `d.

#[export] Instance sorting : SortLib := {|
  sort_Slice A less l := sort_SliceStable less l;
  natural_Less a b := negb (str_leb b a);
|}.
#[export] Instance sorting_laws : SortLaws.
Proof. constructor. intros A less l. apply sort_SliceStable_perm. Qed.

Lemma dir_at_segs p dir : dir_at [] p dir → path_segs (GetPath dir) = p.
Proof. intros [-> Hp]. by apply path_segs_render. Qed.

Lemma file_at_place (d : trees) p n src : file_at d p n src → place src = (p, n).
Proof.
  intros (o&os&->&Hn&_&Hf&Ho). destruct d as [m Hm]. cbn in Hf. destruct (Hm p os Hf) as (Hall&_&Hp).
  rewrite Forall_forall in Hall. destruct (Hall o Ho) as [Hg E]. unfold place.
  change (GetPath (Raw o)) with (o_Path o). rewrite E, Hn. change ([] ++ p ++ [n]) with (p ++ [n]). rewrite path_segs_render.
  - by rewrite removelast_last, last_last.
  - apply Forall_app. split; [done|]. constructor; [by rewrite <- Hn|done].
Qed.

Lemma put_added dir p n size folder d :
  dir_at [] p dir →
  match put_obj dir n size folder d with
  | (inl _, d') => files d' = files d
  | (inr r, d') => ∃ o, added p n o d d' ∧ (r = None ∨ r = Some (Raw o))
  end.
Proof.
  intros Hd. unfold put_obj. rewrite (dir_at_segs _ _ Hd). destruct (`d !! p) as [os|] eqn:E; [|done].
  set (o := new_obj p n size folder). set (m := <[p := o :: but n os]> (`d)). unfold commit.
  set (m' := if folder then _ else m). destruct (decide (tree_ok m')) as [Hok|]; [|done].
  exists o. split; [|by right].
  assert (∀ q l, m !! q = Some l → m' !! q = Some l) as Hm'.
  { intros q l Hq. subst m'. destruct folder; [|done]. destruct (m !! (p ++ [n])) eqn:En; [done|].
    rewrite lookup_insert_ne; [done|]. intros <-. congruence. }
  unfold added. split_ands; [done| |].
  - exists os, (o :: but n os). split_ands; [done| |done]. apply Hm'. apply lookup_insert_eq.
  - intros q l Hq Hl. apply Hm'. unfold m. rewrite lookup_insert_ne; [done|]. intros <-. apply Hq. left.
Qed.

#[export] Instance tree_laws : TreeLaws [].
Proof.
  split.
  - intros [m Hm] p os. cbn. apply Hm.
  - intros dir p r d Hd. cbn. unfold list_obj. rewrite (dir_at_segs _ _ Hd).
    destruct (`d !! p) as [os|] eqn:E; [|done]. split; [done|]. exists os. split; [done|].
    replace (set_path dir <$> (Raw <$> os)) with (Raw <$> os); [done|]. rewrite <- list_fmap_compose.
    apply list_fmap_ext. intros i o Ho. unfold compose, set_path. destruct d as [m Hm]. cbn in E.
    destruct (Hm p os E) as (Hall&_). rewrite Forall_lookup in Hall. destruct (Hall i o Ho) as [_ Ep].
    change (GetPath (Raw o)) with (o_Path o). rewrite Ep. unfold render. simpl. done.
  - done.
  - intros dir p n d Hd _. by apply put_added.
  - intros dir p f d Hd _. by apply put_added.
  - done.
  - intros src dir p d Hd. by apply put_added.
  - intros src dir p q n d Hf Hd Hne. cbn [obeys d_Move driver]. unfold move_obj. rewrite (file_at_place _ _ _ _ Hf), (dir_at_segs _ _ Hd).
    destruct (`d !! p) as [os|] eqn:E; [|done]. destruct (`d !! q) as [oq|] eqn:Eq; [|done].
    unfold commit. destruct (decide _) as [Hok|]; [|done]. eexists. split; [|by right].
    unfold moved. split_ands; [done| | |].
    + exists os, (but n os). split_ands; [done| |done]. cbn. by rewrite lookup_insert_ne, lookup_insert_eq.
    + exists oq. eexists. split_ands; [done| |done]. cbn. by rewrite lookup_insert_eq.
    + intros x l Hx Hl. cbn. rewrite !lookup_insert_ne; [done|..]; intros <-; apply Hx; set_solver.
  - intros src p n m d Hf _ Hne. cbn [obeys d_Rename driver]. unfold rename_obj. rewrite (file_at_place _ _ _ _ Hf).
    destruct (`d !! p) as [os|] eqn:E; [|done]. unfold commit. destruct (decide _) as [Hok|]; [|done].
    eexists. split; [|by right]. unfold renamed. split_ands; [done| |].
    + exists os. eexists. split_ands; [done| |done]. cbn. by rewrite lookup_insert_eq.
    + intros x l Hx Hl. cbn. rewrite lookup_insert_ne; [done|]. intros <-. apply Hx. left.
  - intros src p n d f Hf [= <-]. unfold remove_obj. rewrite (file_at_place _ _ _ _ Hf).
    destruct (`d !! p) as [os|] eqn:E; [|done]. unfold commit. destruct (decide _) as [Hok|]; [|done]. split.
    + exists os, (but n os). split_ands; [done| |done]. cbn. by rewrite lookup_insert_eq.
    + intros x l Hx Hl. cbn. rewrite lookup_insert_ne; [done|]. intros <-. apply Hx. left.
Qed.

Definition tree0 : trees.
Proof.
  refine (list_to_map [([], [new_obj [] #"a" 0 true; new_obj [] #"f" 5 false]);
                       ([ #"a"], [new_obj [ #"a"] #"x" 7 false])] ↾ _). decide_now.
Defined.

Definition start : fs :=
  {| arrays := ∅; listCache := ∅; linkCache := ∅; addSortDebounceMap := ∅; drv_state := tree0 |}.

(** The state after a call that returned. *)
Definition finished {A} (m : exec A) : bool := match m with Done _ _ => true | _ => false end.
Definition after {A} (m : exec A) (s0 : fs) : fs := match m with Done _ s => s | _ => s0 end.

Lemma step_after op s : allowed op s → finished (exec_op Nat.double op s) = true →
  fs_step Nat.double s (after (exec_op Nat.double op s) s).
Proof. intros Ha Hf. destruct (exec_op Nat.double op s) as [r s'| |] eqn:E; [|done..]. by exists op, r. Qed.

Definition s1 : fs := after (exec_op Nat.double (OList #"/a" false) start) start.
Definition s2 : fs := after (exec_op Nat.double (OCopy #"/f" #"/a") s1) s1.
Definition s3 : fs := after (exec_op Nat.double (OMakeDir #"/b/c") s2) s2.

Lemma run3 : rtc (fs_step Nat.double) start s3.
Proof.
  eapply rtc_l; [apply (step_after (OList #"/a" false)); [done|vm_compute; reflexivity]|].
  eapply rtc_l; [apply (step_after (OCopy #"/f" #"/a")); [done|vm_compute; reflexivity]|].
  eapply rtc_l; [apply (step_after (OMakeDir #"/b/c")); [done|vm_compute; reflexivity]|]. apply rtc_refl.
Qed.

Definition names_of (l : list (option Obj)) : list gostr := GetName <$> omap id l.
Definition listing (m : exec slice) : list (option Obj) :=
  match m with Done (inr sl) s => elems s sl | _ => [] end.

Lemma listing_ok m :
  match m with Done (inr _) _ => true | _ => false end = true →
  ∃ sl s, m = Done (inr sl) s ∧ listing m = elems s sl.
Proof. destruct m as [[e|sl] s| |]; [done| |done..]. by exists sl, s. Qed.
End TreeMem.
Import TreeMem.


