(* ===== verification/Sign.v ===== *)
(** * Signed links: [pkg/sign/hmac.go] and [internal/sign]

    A download link carries [base64(HMAC-SHA256(key, data ":" expire)) ":"
    expire].  [internal/sign] keeps one signer for files and one for archive
    entries; each is made from the token setting the first time it is used,
    and [sign.Instance] makes the file signer again when the token changes. *)

From S2P Require Import Prelude GoStrings Errs Crypto.

Local Open Scope Z_scope.

(** ** [pkg/sign] *)

Record HMACSign := { SecretKey : gostr }.

(** Writing to the hash never fails, so [Sign] has no error branch to take. *)
Definition signed_message (data : gostr) (expire : Z) : gostr :=
  data ++ #":" ++ FormatInt expire.

Definition hmac_Sign (s : HMACSign) (data : gostr) (expire : Z) : gostr :=
  base64url (hmac_sha256 (SecretKey s) (signed_message data expire))
    ++ #":" ++ FormatInt expire.

(** [now] is the value of [time.Now().Unix()]; [None] is the nil error. *)
Definition hmac_Verify (now : Z) (s : HMACSign) (data sign : gostr) : option error :=
  let signSlice := Split ":" sign in
  let lastPart := List.last signSlice [] in
  if bool_decide (lastPart = #"") then Some (ESentinel ErrExpireMissing)
  else
    let '(expires, err) := ParseInt lastPart in
    match err with
    | Some _ => Some (ESentinel ErrExpireInvalid)
    | None =>
        if (expires <? now) && negb (expires =? 0) then Some (ESentinel ErrSignExpired)
        else if negb (bool_decide (hmac_Sign s data expires = sign))
        then Some (ESentinel ErrSignInvalid)
        else None
    end.

(** ** [internal/sign] *)

(** Times are nanoseconds since the Unix epoch, durations 64-bit counts of
    nanoseconds. *)
Definition Unix (t : Z) : Z := t / 1000000000.
Definition Hour : Z := 3600000000000.

(** The settings the signers read and the two lazily made signers; [None] is
    a signer whose [sync.Once] has not run. *)
Record sign_state := {
  st_token : gostr;
  st_link_expiration : gostr;
  instance : option HMACSign;
  instanceArchive : option HMACSign;
}.

(** [setting.GetInt] of the link expiration with default [0]. *)
Definition link_expiration (st : sign_state) : Z :=
  match ParseInt (st_link_expiration st) with
  | (i, None) => i
  | (_, Some _) => 0
  end.

Definition Instance (st : sign_state) : sign_state :=
  {| st_token := st_token st; st_link_expiration := st_link_expiration st;
     instance := Some {| SecretKey := st_token st |};
     instanceArchive := instanceArchive st |}.

Definition InstanceArchive (st : sign_state) : sign_state :=
  {| st_token := st_token st; st_link_expiration := st_link_expiration st;
     instance := instance st;
     instanceArchive := Some {| SecretKey := st_token st ++ #"-archive" |} |}.

(** [once.Do(Instance)] and the signer it leaves in place. *)
Definition once_Instance (st : sign_state) : sign_state * HMACSign :=
  match instance st with
  | Some s => (st, s)
  | None => (Instance st, {| SecretKey := st_token st |})
  end.

Definition once_InstanceArchive (st : sign_state) : sign_state * HMACSign :=
  match instanceArchive st with
  | Some s => (st, s)
  | None => (InstanceArchive st, {| SecretKey := st_token st ++ #"-archive" |})
  end.

Definition WithDuration (now : Z) (d : Z) (data : gostr) (st : sign_state) : sign_state * gostr :=
  let '(st, s) := once_Instance st in (st, hmac_Sign s data (Unix (now + d))).

Definition NotExpired (data : gostr) (st : sign_state) : sign_state * gostr :=
  let '(st, s) := once_Instance st in (st, hmac_Sign s data 0).

Definition sign_Sign (now : Z) (data : gostr) (st : sign_state) : sign_state * gostr :=
  let expire := link_expiration st in
  if expire =? 0 then NotExpired data st
  else WithDuration now (wrap64 (expire * Hour)) data st.

Definition sign_Verify (now : Z) (data sign : gostr) (st : sign_state) : sign_state * option error :=
  let '(st, s) := once_Instance st in (st, hmac_Verify (Unix now) s data sign).

Definition WithDurationArchive (now : Z) (d : Z) (data : gostr) (st : sign_state)
    : sign_state * gostr :=
  let '(st, s) := once_InstanceArchive st in (st, hmac_Sign s data (Unix (now + d))).

Definition NotExpiredArchive (data : gostr) (st : sign_state) : sign_state * gostr :=
  let '(st, s) := once_InstanceArchive st in (st, hmac_Sign s data 0).

Definition SignArchive (now : Z) (data : gostr) (st : sign_state) : sign_state * gostr :=
  let expire := link_expiration st in
  if expire =? 0 then NotExpiredArchive data st
  else WithDurationArchive now (wrap64 (expire * Hour)) data st.

Definition VerifyArchive (now : Z) (data sign : gostr) (st : sign_state)
    : sign_state * option error :=
  let '(st, s) := once_InstanceArchive st in (st, hmac_Verify (Unix now) s data sign).

(** [SetToken] and [ResetToken] of [server/handles/setting.go], once the new
    token is saved: the handlers call [sign.Instance]. *)
Definition SetToken (token : gostr) (st : sign_state) : sign_state :=
  Instance {| st_token := token; st_link_expiration := st_link_expiration st;
              instance := instance st; instanceArchive := instanceArchive st |}.

(** ** Facts *)

Lemma FormatInt_no_colon i : ":"%char ∉ FormatInt i.
Proof.
  intros H. pose proof (FormatInt_chars i) as Hc. rewrite Forall_forall in Hc.
  destruct (Hc _ H) as [E|E]; vm_compute in E; done.
Qed.

Lemma Split_sign s data e :
  Split ":" (hmac_Sign s data e)
  = [base64url (hmac_sha256 (SecretKey s) (signed_message data e)); FormatInt e].
Proof.
  unfold hmac_Sign. simpl app at 2. rewrite Split_app by apply base64url_no_colon.
  by rewrite Split_none by apply FormatInt_no_colon.
Qed.

Lemma hmac_Verify_iff now s data sig :
  hmac_Verify now s data sig = None ↔
    ∃ e, int64_ok e ∧ sig = hmac_Sign s data e ∧ (e = 0 ∨ now ≤ e).
Proof.
  unfold hmac_Verify. split.
  - case_bool_decide; [done|].
    destruct (ParseInt _) as [e err] eqn:Ep. destruct err; [done|].
    destruct (_ && _) eqn:El; [done|]. case_bool_decide as Hs; [|done]. intros _.
    exists e. split_ands; [|done|].
    + pose proof (ParseInt_ok (List.last (Split ":" sig) [])) as Hok. by rewrite Ep in Hok.
    + apply andb_false_iff in El as [El|El]; reflect_bools; [by right|by left].
  - intros (e&He&->&Hnow). rewrite Split_sign. cbn [List.last].
    rewrite bool_decide_false by apply FormatInt_nonempty.
    rewrite ParseInt_FormatInt by done.
    rewrite (bool_decide_true (hmac_Sign _ _ _ = _)) by done. cbn [negb].
    destruct Hnow as [->|Hnow]; [by rewrite andb_false_r|].
    by rewrite (proj2 (Z.ltb_ge _ _)).
Qed.

(** The signed text determines the data and the expiry time. *)
Lemma signed_message_inj d1 e1 d2 e2 :
  int64_ok e1 → int64_ok e2 →
  signed_message d1 e1 = signed_message d2 e2 → d1 = d2 ∧ e1 = e2.
Proof.
  intros H1 H2 E. unfold signed_message in E. simpl in E.
  pose proof (f_equal (Split ":") E) as Es. rewrite !Split_app_sep in Es.
  rewrite !(Split_none _ (FormatInt _)) in Es by apply FormatInt_no_colon.
  apply app_inj_tail in Es as [Ed Ee]. split.
  - rewrite <- (Join_Split ":" d1), <- (Join_Split ":" d2). by rewrite Ed.
  - by apply FormatInt_inj.
Qed.

Lemma Unix_mono a b : a ≤ b → Unix a ≤ Unix b.
Proof. intros. unfold Unix. apply Z.div_le_mono; lia. Qed.

Lemma Unix_ok t : int64_ok t → int64_ok (Unix t).
Proof. unfold Unix. unfold_int64. intros. split; [apply Z.div_le_lower_bound|apply Z.div_le_upper_bound]; lia. Qed.

(** ** Properties *)

(** [Verify] accepts exactly the signatures [Sign] makes with the same key
    for the same data and an expiry time that is 0 or not yet past; in
    particular the expiry time cannot be edited, and the signed text
    determines both the data and the expiry time. *)
Theorem Verify_accepts_exactly_Sign now s data sig :
  (hmac_Verify now s data sig = None ↔
    ∃ e, int64_ok e ∧ sig = hmac_Sign s data e ∧ (e = 0 ∨ now ≤ e)) ∧
  (∀ d1 e1 d2 e2, int64_ok e1 → int64_ok e2 →
    signed_message d1 e1 = signed_message d2 e2 → d1 = d2 ∧ e1 = e2).
Proof. split; [apply hmac_Verify_iff|apply signed_message_inj]. Qed.

(** A link signed at time [t0] with a link expiration of [h] hours is
    accepted until that many hours have passed and refused from the next
    second on; with an expiration of 0 it never expires. *)
Theorem signed_link_lifetime st st1 t0 t1 data sig h
    (Hh : link_expiration st = h) (Hrange : 0 ≤ h ≤ 1000000) (Ht : 0 ≤ t0 ≤ 5000000000000000000)
    (Hs : sign_Sign t0 data st = (st1, sig)) :
  snd (sign_Verify t1 data sig st1) =
    if bool_decide (h = 0 ∨ Unix t1 ≤ Unix (t0 + h * Hour)) then None
    else Some (ESentinel ErrSignExpired).
Proof.
  assert (Hk : ∃ s, instance st1 = Some s ∧
    sig = hmac_Sign s data (if h =? 0 then 0 else Unix (t0 + h * Hour))).
  { revert Hs. unfold sign_Sign, NotExpired, WithDuration, once_Instance. rewrite Hh.
    rewrite wrap64_id by (unfold Hour; unfold_int64; lia).
    destruct (h =? 0), (instance st) as [s|] eqn:Ei; intros [= <- <-]; eauto. }
  destruct Hk as (s&Hi&->). unfold sign_Verify, once_Instance. rewrite Hi. cbn [snd].
  set (e := if h =? 0 then 0 else _).
  assert (Hpos : h ≠ 0 → 0 < Unix (t0 + h * Hour)).
  { intros. unfold Unix, Hour. apply Z.div_str_pos. lia. }
  assert (Hok : int64_ok e).
  { unfold e. destruct (h =? 0); [by unfold_int64; lia|].
    apply Unix_ok. unfold Hour. unfold_int64. lia. }
  unfold hmac_Verify. rewrite Split_sign. cbn [List.last].
  rewrite bool_decide_false by apply FormatInt_nonempty. rewrite ParseInt_FormatInt by done.
  rewrite (bool_decide_true (hmac_Sign _ _ _ = _)) by done. cbn [negb].
  unfold e. destruct (Z.eqb_spec h 0) as [->|Hne].
  - rewrite bool_decide_true by by left. by rewrite andb_false_r.
  - specialize (Hpos Hne). case_bool_decide as Hd.
    + destruct Hd as [?|Hd]; [done|]. by rewrite (proj2 (Z.ltb_ge _ _)).
    + rewrite (proj2 (Z.ltb_lt _ _)) by (destruct (Z.lt_ge_cases (Unix (t0 + h * Hour)) (Unix t1)); [done|tauto]).
      by rewrite (proj2 (Z.eqb_neq _ _)) by lia.
Qed.

Definition example_sign_state : sign_state :=
  {| st_token := #"alist-token"; st_link_expiration := #"2";
     instance := None; instanceArchive := None |}.

(** Changing the token takes effect at once for file links, whose
    signatures are then checked with the new token, but not for archive
    links: an archive signer that was used before keeps the old key, so
    archive links made with the old token are still accepted. *)
Theorem SetToken_revokes_files_only st token now data sig :
  snd (sign_Verify now data sig (SetToken token st))
    = hmac_Verify (Unix now) {| SecretKey := token |} data sig ∧
  snd (VerifyArchive now data sig (SetToken token (fst (VerifyArchive now data sig st))))
    = snd (VerifyArchive now data sig st).
Proof.
  split; [done|]. unfold VerifyArchive, once_InstanceArchive.
  by destruct (instanceArchive st) eqn:E; simpl; rewrite ?E.
Qed.
