(* ===== verification/Shares.v ===== *)
(** * Shares: [internal/model/share.go], [internal/db/share.go],
      [internal/share/access.go] and the handlers of [server/handles/share.go]
      and [share_public.go]

    A user publishes a file or a directory under a share id, with a password,
    an expiry time and a limit on the number of times its content is fetched.
    The table is the interface [ShareTable]; the columns GORM sets by itself
    (defaults and timestamps) are written out. *)

From S2P Require Import Prelude GoStrings Errs Store Paths Crypto Users Perm FsOps Sign.

Local Open Scope Z_scope.

(** ** The row *)

(** Times are nanoseconds since the epoch; [None] is a nil pointer or, for the
    last two columns, the zero time. *)
Record Share := {
  sh_ID : Z;
  ShareID : gostr;
  CreatorID : Z;
  sh_Name : gostr;
  RootPath : gostr;
  sh_IsDir : bool;
  PasswordHash : gostr;
  PasswordSalt : gostr;
  BurnAfterRead : bool;
  AccessLimit : Z;
  AccessCount : Z;
  AllowPreview : bool;
  AllowDownload : bool;
  Enabled : bool;
  ViewCount : Z;
  DownloadCount : Z;
  LastAccessAt : option Z;
  ConsumedAt : option Z;
  ExpiresAt : option Z;
  CreatedAt : option Z;
  UpdatedAt : option Z;
}.

#[export] Instance Share_eq_dec : EqDecision Share.
Proof. solve_decision. Defined.

Definition HasPassword (s : Share) : bool := negb (bool_decide (PasswordHash s = #"")).

Definition EffectiveAccessLimit (s : Share) : Z :=
  if 0 <? AccessLimit s then AccessLimit s
  else if BurnAfterRead s then 1
  else 0.

Definition RemainingAccesses (s : Share) : Z :=
  let limit := EffectiveAccessLimit s in
  if limit <=? 0 then 0
  else
    let remaining := wrap64 (limit - AccessCount s) in
    if remaining <? 0 then 0 else remaining.

Definition IsConsumed (s : Share) : bool :=
  let limit := EffectiveAccessLimit s in
  bool_decide (is_Some (ConsumedAt s)) || ((0 <? limit) && (limit <=? AccessCount s)).

Definition IsExpired (s : Share) (now : Z) : bool :=
  match ExpiresAt s with Some e => negb (now <? e) | None => false end.

(** ** What GORM does with a row *)

(** [Create] sets the timestamps that are zero, and a field with a [default]
    tag that has the zero value gets the default: a false that should be
    stored in a column with [default:true] is stored as true. *)
Definition with_default (d b : bool) : bool := if b then b else d.
Definition gorm_create (now : Z) (s : Share) : Share :=
  {| sh_ID := sh_ID s; ShareID := ShareID s; CreatorID := CreatorID s; sh_Name := sh_Name s;
     RootPath := RootPath s; sh_IsDir := sh_IsDir s; PasswordHash := PasswordHash s;
     PasswordSalt := PasswordSalt s; BurnAfterRead := with_default false (BurnAfterRead s);
     AccessLimit := AccessLimit s; AccessCount := AccessCount s;
     AllowPreview := with_default true (AllowPreview s); AllowDownload := with_default true (AllowDownload s);
     Enabled := with_default true (Enabled s); ViewCount := ViewCount s; DownloadCount := DownloadCount s;
     LastAccessAt := LastAccessAt s; ConsumedAt := ConsumedAt s; ExpiresAt := ExpiresAt s;
     CreatedAt := Some (default now (CreatedAt s)); UpdatedAt := Some (default now (UpdatedAt s)) |}.

(** [Save], [Update] and [Updates] set [updated_at]; [UpdateColumns] does not. *)
Definition gorm_touch (now : Z) (s : Share) : Share :=
  {| sh_ID := sh_ID s; ShareID := ShareID s; CreatorID := CreatorID s; sh_Name := sh_Name s;
     RootPath := RootPath s; sh_IsDir := sh_IsDir s; PasswordHash := PasswordHash s;
     PasswordSalt := PasswordSalt s; BurnAfterRead := BurnAfterRead s; AccessLimit := AccessLimit s;
     AccessCount := AccessCount s; AllowPreview := AllowPreview s; AllowDownload := AllowDownload s;
     Enabled := Enabled s; ViewCount := ViewCount s; DownloadCount := DownloadCount s;
     LastAccessAt := LastAccessAt s; ConsumedAt := ConsumedAt s; ExpiresAt := ExpiresAt s;
     CreatedAt := CreatedAt s; UpdatedAt := Some now |}.

Definition set_sh_ID (i : Z) (s : Share) : Share :=
  {| sh_ID := i; ShareID := ShareID s; CreatorID := CreatorID s; sh_Name := sh_Name s; RootPath := RootPath s;
     sh_IsDir := sh_IsDir s; PasswordHash := PasswordHash s; PasswordSalt := PasswordSalt s;
     BurnAfterRead := BurnAfterRead s; AccessLimit := AccessLimit s; AccessCount := AccessCount s;
     AllowPreview := AllowPreview s; AllowDownload := AllowDownload s; Enabled := Enabled s;
     ViewCount := ViewCount s; DownloadCount := DownloadCount s; LastAccessAt := LastAccessAt s;
     ConsumedAt := ConsumedAt s; ExpiresAt := ExpiresAt s; CreatedAt := CreatedAt s; UpdatedAt := UpdatedAt s |}.
Definition set_Enabled (b : bool) (s : Share) : Share :=
  {| sh_ID := sh_ID s; ShareID := ShareID s; CreatorID := CreatorID s; sh_Name := sh_Name s;
     RootPath := RootPath s; sh_IsDir := sh_IsDir s; PasswordHash := PasswordHash s;
     PasswordSalt := PasswordSalt s; BurnAfterRead := BurnAfterRead s; AccessLimit := AccessLimit s;
     AccessCount := AccessCount s; AllowPreview := AllowPreview s; AllowDownload := AllowDownload s; Enabled := b;
     ViewCount := ViewCount s; DownloadCount := DownloadCount s; LastAccessAt := LastAccessAt s;
     ConsumedAt := ConsumedAt s; ExpiresAt := ExpiresAt s; CreatedAt := CreatedAt s; UpdatedAt := UpdatedAt s |}.
Definition count_view (now : Z) (s : Share) : Share :=
  {| sh_ID := sh_ID s; ShareID := ShareID s; CreatorID := CreatorID s; sh_Name := sh_Name s;
     RootPath := RootPath s; sh_IsDir := sh_IsDir s; PasswordHash := PasswordHash s;
     PasswordSalt := PasswordSalt s; BurnAfterRead := BurnAfterRead s; AccessLimit := AccessLimit s;
     AccessCount := AccessCount s; AllowPreview := AllowPreview s; AllowDownload := AllowDownload s;
     Enabled := Enabled s; ViewCount := ViewCount s + 1; DownloadCount := DownloadCount s;
     LastAccessAt := Some now; ConsumedAt := ConsumedAt s; ExpiresAt := ExpiresAt s; CreatedAt := CreatedAt s;
     UpdatedAt := UpdatedAt s |}.
Definition count_download (now : Z) (s : Share) : Share :=
  {| sh_ID := sh_ID s; ShareID := ShareID s; CreatorID := CreatorID s; sh_Name := sh_Name s;
     RootPath := RootPath s; sh_IsDir := sh_IsDir s; PasswordHash := PasswordHash s;
     PasswordSalt := PasswordSalt s; BurnAfterRead := BurnAfterRead s; AccessLimit := AccessLimit s;
     AccessCount := AccessCount s; AllowPreview := AllowPreview s; AllowDownload := AllowDownload s;
     Enabled := Enabled s; ViewCount := ViewCount s; DownloadCount := DownloadCount s + 1;
     LastAccessAt := Some now; ConsumedAt := ConsumedAt s; ExpiresAt := ExpiresAt s; CreatedAt := CreatedAt s;
     UpdatedAt := UpdatedAt s |}.
Definition set_access (n now : Z) (s : Share) : Share :=
  {| sh_ID := sh_ID s; ShareID := ShareID s; CreatorID := CreatorID s; sh_Name := sh_Name s;
     RootPath := RootPath s; sh_IsDir := sh_IsDir s; PasswordHash := PasswordHash s;
     PasswordSalt := PasswordSalt s; BurnAfterRead := BurnAfterRead s; AccessLimit := AccessLimit s;
     AccessCount := n; AllowPreview := AllowPreview s; AllowDownload := AllowDownload s; Enabled := Enabled s;
     ViewCount := ViewCount s; DownloadCount := DownloadCount s; LastAccessAt := Some now;
     ConsumedAt := ConsumedAt s; ExpiresAt := ExpiresAt s; CreatedAt := CreatedAt s; UpdatedAt := UpdatedAt s |}.
Definition set_consumed (now : Z) (s : Share) : Share :=
  {| sh_ID := sh_ID s; ShareID := ShareID s; CreatorID := CreatorID s; sh_Name := sh_Name s;
     RootPath := RootPath s; sh_IsDir := sh_IsDir s; PasswordHash := PasswordHash s;
     PasswordSalt := PasswordSalt s; BurnAfterRead := BurnAfterRead s; AccessLimit := AccessLimit s;
     AccessCount := AccessCount s; AllowPreview := AllowPreview s; AllowDownload := AllowDownload s;
     Enabled := false; ViewCount := ViewCount s; DownloadCount := DownloadCount s; LastAccessAt := LastAccessAt s;
     ConsumedAt := Some now; ExpiresAt := ExpiresAt s; CreatedAt := CreatedAt s; UpdatedAt := UpdatedAt s |}.

(** The fields [UpdateShare] assigns. *)
Definition set_edit (shareID name : gostr) (burn : bool) (limit : Z) (preview download : bool) (expires : option Z)
    (s : Share) : Share :=
  {| sh_ID := sh_ID s; ShareID := shareID; CreatorID := CreatorID s; sh_Name := name; RootPath := RootPath s;
     sh_IsDir := sh_IsDir s; PasswordHash := PasswordHash s; PasswordSalt := PasswordSalt s; BurnAfterRead := burn;
     AccessLimit := limit; AccessCount := AccessCount s; AllowPreview := preview; AllowDownload := download;
     Enabled := Enabled s; ViewCount := ViewCount s; DownloadCount := DownloadCount s;
     LastAccessAt := LastAccessAt s; ConsumedAt := ConsumedAt s; ExpiresAt := expires; CreatedAt := CreatedAt s;
     UpdatedAt := UpdatedAt s |}.
Definition set_password (salt hash : gostr) (s : Share) : Share :=
  {| sh_ID := sh_ID s; ShareID := ShareID s; CreatorID := CreatorID s; sh_Name := sh_Name s;
     RootPath := RootPath s; sh_IsDir := sh_IsDir s; PasswordHash := hash; PasswordSalt := salt;
     BurnAfterRead := BurnAfterRead s; AccessLimit := AccessLimit s; AccessCount := AccessCount s;
     AllowPreview := AllowPreview s; AllowDownload := AllowDownload s; Enabled := Enabled s;
     ViewCount := ViewCount s; DownloadCount := DownloadCount s; LastAccessAt := LastAccessAt s;
     ConsumedAt := ConsumedAt s; ExpiresAt := ExpiresAt s; CreatedAt := CreatedAt s; UpdatedAt := UpdatedAt s |}.

(** ** The table *)

Class ShareTable := {
  shtable : Type;
  sh_rows : shtable → gmap Z Share;
  sh_Take : (Share → bool) → shtable → result Share;
  sh_Count : (Share → bool) → shtable → result Z;
  sh_Create : Share → shtable → result (shtable * Share);
  sh_Save : Share → shtable → result shtable;
  sh_Update : (Share → bool) → (Share → Share) → shtable → result shtable;
  sh_Delete : (Share → bool) → shtable → result shtable;
}.

(** Queries answer what the rows say and a write that succeeds does what it
    says; any query may fail, which leaves the table as it was.  The primary
    key is not changed by an update and the share id is unique. *)
Class ShareLaws `{ST : ShareTable} : Prop := {
  sh_keyed t i s : sh_rows t !! i = Some s → sh_ID s = i;
  sh_unique t i j s1 s2 :
    sh_rows t !! i = Some s1 → sh_rows t !! j = Some s2 → ShareID s1 = ShareID s2 → i = j;
  sh_Take_some p t s : sh_Take p t = inr s → sh_rows t !! sh_ID s = Some s ∧ p s = true;
  sh_Take_none p t e : sh_Take p t = inl e → errors_Is e ErrRecordNotFound = true →
    ∀ i s, sh_rows t !! i = Some s → p s = false;
  sh_Count_spec p t n : sh_Count p t = inr n →
    n = Z.of_nat (size (filter (λ ks, p ks.2 = true) (sh_rows t)));
  sh_Create_spec s t t' s' : sh_Create s t = inr (t', s') →
    ∃ i, s' = set_sh_ID i s ∧ sh_rows t !! i = None ∧ sh_rows t' = <[i := s']> (sh_rows t);
  sh_Save_spec s t t' : sh_Save s t = inr t' → is_Some (sh_rows t !! sh_ID s) →
    sh_rows t' = <[sh_ID s := s]> (sh_rows t);
  sh_Update_spec p f t t' : (∀ s, sh_ID (f s) = sh_ID s) → sh_Update p f t = inr t' →
    sh_rows t' = (λ s, if p s then f s else s) <$> sh_rows t;
  sh_Delete_spec p t t' : sh_Delete p t = inr t' →
    sh_rows t' = filter (λ ks, p ks.2 = false) (sh_rows t);
}.

Section db.
Context {ST : ShareTable}.

Definition has_share_id (shareID : gostr) (s : Share) : bool := bool_decide (ShareID s = shareID).
Definition is_share_of (creatorID : Z) (shareID : gostr) (s : Share) : bool :=
  (CreatorID s =? creatorID) && has_share_id shareID s.

Definition GetShareByShareID (shareID : gostr) (t : shtable) : result Share := sh_Take (has_share_id shareID) t.
Definition GetShareByCreatorAndShareID (creatorID : Z) (shareID : gostr) (t : shtable) : result Share :=
  sh_Take (is_share_of creatorID shareID) t.
Definition ShareIDExists (shareID : gostr) (t : shtable) : result bool :=
  let! count := sh_Count (has_share_id shareID) t in inr (0 <? count).
Definition ShareIDExistsExceptID (shareID : gostr) (id : Z) (t : shtable) : result bool :=
  let! count := sh_Count (λ s, has_share_id shareID s && negb (sh_ID s =? id)) t in inr (0 <? count).
Definition db_CreateShare (now : Z) (s : Share) (t : shtable) : result (shtable * Share) :=
  sh_Create (gorm_create now s) t.
Definition db_UpdateShare (now : Z) (s : Share) (t : shtable) : result shtable := sh_Save (gorm_touch now s) t.
Definition DeleteShareByShareID (creatorID : Z) (shareID : gostr) (t : shtable) : result shtable :=
  sh_Delete (is_share_of creatorID shareID) t.
Definition DisableShareByShareID (now creatorID : Z) (shareID : gostr) (t : shtable) : result shtable :=
  sh_Update (is_share_of creatorID shareID) (λ s, gorm_touch now (set_Enabled false s)) t.
Definition TouchShareView (now : Z) (shareID : gostr) (t : shtable) : result shtable :=
  sh_Update (has_share_id shareID) (count_view now) t.
Definition TouchShareDownload (now : Z) (shareID : gostr) (t : shtable) : result shtable :=
  sh_Update (has_share_id shareID) (count_download now) t.

(** The row after an access, as the transaction computes it: the updated copy
    has no new [updated_at], the stored row has. *)
Definition accessed (now : Z) (s : Share) : Share :=
  let s := set_access (wrap64 (AccessCount s + 1)) now s in
  let limit := EffectiveAccessLimit s in
  if (0 <? limit) && (limit <=? AccessCount s) then set_consumed now s else s.

(** The columns the transaction writes, for the row that [s] is a copy of. *)
Definition write_access (now : Z) (s row : Share) : Share :=
  let row' := set_access (AccessCount s) now row in
  let limit := EffectiveAccessLimit s in
  gorm_touch now (if (0 <? limit) && (limit <=? AccessCount s) then set_consumed now row' else row').

Definition RecordShareAccess (now : Z) (shareID : gostr) (t : shtable) : result (shtable * Share) :=
  let! s := sh_Take (has_share_id shareID) t in
  let updated := accessed now s in
  let! t := sh_Update (λ r, sh_ID r =? sh_ID updated) (write_access now updated) t in
  inr (t, updated).
End db.

(** ** Access tokens: [internal/share] *)

Definition tokenPayload (s : Share) : gostr :=
  let updatedAt := match UpdatedAt s with Some t => Unix t | None => 0 end in
  ShareID s ++ #":" ++ PasswordHash s ++ #":" ++ FormatInt updatedAt.

Definition signer (token : gostr) : HMACSign := {| SecretKey := token ++ #"-share-access" |}.

Definition SignAccess (token : gostr) (now : Z) (s : Share) (d : Z) : gostr :=
  hmac_Sign (signer token) (tokenPayload s) (Unix (now + d)).
Definition VerifyAccess (token : gostr) (now : Z) (s : Share) (access : gostr) : option error :=
  hmac_Verify (Unix now) (signer token) (tokenPayload s) access.
