(* ===== verification/ShareHandlers.v ===== *)
(** * The handlers of shares: [server/handles/share.go] and [share_public.go]

    A handler reads and writes the table of [Shares] and answers with a status
    or a value.  The fetch of content ends in [Down] or [Proxy] on a path, so
    the answer of these handlers is that path. *)

From S2P Require Import Prelude GoStrings Errs Store Paths Crypto Users Perm FsOps Sign Shares.

Local Open Scope Z_scope.

(** ** Handlers *)

(** A slice expression that panics is answered by the recovery middleware. *)
Inductive reply (A : Type) :=
  | Refuse (code : Z) (e : error)
  | Answer (a : A)
  | Crashed.
Arguments Refuse {A} code e.
Arguments Answer {A} a.
Arguments Crashed {A}.

Section monad.
Context {ST : ShareTable}.

Definition Hd (A : Type) := shtable → reply A * shtable.

Definition h_ret {A} (a : A) : Hd A := λ t, (Answer a, t).
Definition h_refuse {A} (code : Z) (e : error) : Hd A := λ t, (Refuse code e, t).
Definition h_bind {A B} (m : Hd A) (k : A → Hd B) : Hd B :=
  λ t, match m t with
       | (Refuse code e, t) => (Refuse code e, t)
       | (Crashed, t) => (Crashed, t)
       | (Answer a, t) => k a t
       end.

(** A query, a write, and a write whose error is dropped. *)
Definition h_query {A} (code : Z) (q : shtable → result A) : Hd A :=
  λ t, match q t with inl e => (Refuse code e, t) | inr a => (Answer a, t) end.
Definition h_exec {A} (code : Z) (q : shtable → result (shtable * A)) : Hd A :=
  λ t, match q t with inl e => (Refuse code e, t) | inr (t, a) => (Answer a, t) end.
Definition h_write (code : Z) (q : shtable → result shtable) : Hd unit :=
  λ t, match q t with inl e => (Refuse code e, t) | inr t => (Answer (), t) end.
Definition h_ignore (q : shtable → result shtable) : Hd unit :=
  λ t, match q t with inl _ => (Answer (), t) | inr t => (Answer (), t) end.
Definition h_result {A} (code : Z) (r : result A) : Hd A :=
  match r with inl e => h_refuse code e | inr a => h_ret a end.
Definition h_check (r : option (Z * error)) : Hd unit :=
  match r with Some (code, e) => h_refuse code e | None => h_ret () end.
End monad.

Notation "'let^' x ':=' m 'in' k" := (h_bind m (λ x, k))
  (at level 10, x pattern, m at level 100, k at level 200,
   format "'[v' 'let^'  x  ':='  m  'in' '//' k ']'") : go_scope.

(** ** Requests *)

Record CreateShareReq := {
  cs_Path : gostr; cs_ShareID : gostr; cs_Name : gostr; cs_Password : gostr; cs_ExpireAt : gostr;
  cs_ExpireHours : Z; cs_AccessLimit : Z; cs_BurnAfterRead : option bool;
  cs_AllowPreview : option bool; cs_AllowDownload : option bool;
}.

Record UpdateShareReq := {
  us_ShareID : gostr; us_NewShareID : gostr; us_Name : gostr; us_Password : gostr; us_ExpireAt : option gostr;
  us_AccessLimit : option Z; us_AllowPreview : option bool; us_AllowDownload : option bool;
}.

(** What the handlers take from the request besides its body: the [auth]
    query, the token header, the method, the server's URL as [GetApiUrl] finds
    it, and the readings of the clock. *)
Record share_ctx := {
  c_auth : gostr;
  c_header : gostr;
  c_Method : gostr;
  c_ApiUrl : gostr;
  c_clock : nat → Z;
}.

(** [time.Parse] and [time.ParseInLocation] with the local zone: layout and
    value; package [fs]; whether the storage of a path proxies a name; the
    token setting. *)
Class ShareEnv := {
  time_Parse : gostr → gostr → option Z;
  time_ParseLocal : gostr → gostr → option Z;
  fs_get : gostr → result Obj;
  fs_list : gostr → result (list Obj);
  can_proxy : gostr → gostr → bool;
  token_setting : gostr;
  random_id : nat → gostr;
  random_salt : gostr;
}.

Definition shareAccessTokenLifetime : Z := 24 * Hour.

(** [shareIDPattern]: one to 32 letters, digits, underscores or hyphens. *)
Definition is_share_char (c : ascii) : bool :=
  let v := byte_val c in
  ((97 <=? v) && (v <=? 122)) || ((65 <=? v) && (v <=? 90)) || is_digit c || bool_decide (c ∈ #"_-").
Definition shareIDPattern (s : gostr) : bool :=
  (1 <=? Z.of_nat (length s)) && (Z.of_nat (length s) <=? 32) && forallb is_share_char s.

Definition normalizeOptionalShareName (name fallback : gostr) : gostr :=
  if negb (bool_decide (TrimSpace name = #"")) then TrimSpace name else fallback.
Definition normalizeShareName (obj : Obj) (name : gostr) : gostr := normalizeOptionalShareName name (GetName obj).

Definition sharePasswordHash (password salt : gostr) : gostr := HashPwd (StaticHash password) salt.

(** The two errors the handlers tell apart, and the others. *)
Inductive id_error := ShareIDInvalid | ShareIDExists_ | IDOther (e : error).

Definition validateCustomShareID (shareID : gostr) : bool :=
  bool_decide (shareID = #"") || shareIDPattern shareID.

Definition normalizeShareAccessLimit (accessLimit : Z) (burnAfterRead : option bool) : result (Z * bool) :=
  if accessLimit <? 0 then inl (EMessage #"access_limit must be 0 or greater")
  else
    let accessLimit := if (accessLimit =? 0) && default false burnAfterRead then 1 else accessLimit in
    inr (accessLimit, accessLimit =? 1).

Definition sharePasswordMatched (s : Share) (password : gostr) : bool :=
  if negb (HasPassword s) then true
  else bool_decide (sharePasswordHash password (PasswordSalt s) = PasswordHash s).

Definition getShareAccessToken (c : share_ctx) (fallback : gostr) : gostr :=
  if negb (bool_decide (fallback = #"")) then fallback
  else if negb (bool_decide (c_auth c = #"")) then c_auth c
  else c_header c.

Definition ensureShareAvailable (now : Z) (s : Share) : option (Z * error) :=
  if IsConsumed s then Some (410, EMessage #"share has been consumed")
  else if negb (Enabled s) then Some (404, EMessage #"share is disabled")
  else if IsExpired s now then Some (410, EMessage #"share is expired")
  else None.

Definition shouldTrackShareContentAccess (c : share_ctx) : bool := negb (bool_decide (c_Method c = #"HEAD")).

Definition resolveShareTarget (s : Share) (rawRelPath : gostr) : result (gostr * gostr) :=
  let cleanRelPath := FixAndCleanPath rawRelPath in
  if negb (sh_IsDir s) && negb (bool_decide (cleanRelPath = #"/"))
  then inl (EMessage #"file share does not support nested path")
  else if bool_decide (cleanRelPath = #"/") then inr (RootPath s, #"/")
  else
    let target := FixAndCleanPath (path_join (RootPath s) cleanRelPath) in
    if negb (IsSubPath (RootPath s) target) then inl (EMessage #"share path out of range")
    else inr (target, cleanRelPath).

Definition resolveShareWildcardTarget (s : Share) (rawPath : gostr) : result (gostr * gostr) :=
  match PathUnescape rawPath with
  | None => inl (EMessage #"invalid URL escape")
  | Some path => resolveShareTarget s (TrimPrefix path #"/")
  end.

(** [url.QueryEscape] and [Encode] of the two keys, which are sorted. *)
Definition QueryEscape (s : gostr) : gostr :=
  s ≫= λ c,
    if is_unreserved c then [c]
    else if bool_decide (c = " "%char) then #"+"
    else ["%"%char; upperhex (byte_val c / 16); upperhex (byte_val c mod 16)].

Definition asset_query (token : gostr) (preview : bool) : gostr :=
  let auth := if negb (bool_decide (token = #"")) then [ #"auth=" ++ QueryEscape token] else [] in
  let type := if preview then [ #"type=preview"] else [] in
  Join #"&" (auth ++ type).

(** The path of the link, without the server and the query. *)
Definition asset_path (prefix shareID relPath : gostr) : gostr :=
  let cleanPath := FixAndCleanPath relPath in
  prefix ++ shareID ++ (if negb (bool_decide (cleanPath = #"/")) then EncodePath cleanPath [true] else []).

Definition buildPublicShareAssetURL (c : share_ctx) (prefix shareID relPath token : gostr) (preview : bool) : gostr :=
  let base := c_ApiUrl c ++ asset_path prefix shareID relPath in
  let encoded := asset_query token preview in
  if negb (bool_decide (encoded = #"")) then base ++ #"?" ++ encoded else base.

(** The answer for an object; its times, type, thumbnail and storage class are
    copied and left out. *)
Record PublicShareObjResp := {
  po_Name : gostr;
  po_Size : Z;
  po_IsDir : bool;
  po_Path : gostr;
  po_DownloadURL : gostr;
  po_PreviewURL : gostr;
}.

Record PublicShareInfoResp := {
  pi_ShareID : gostr; pi_Name : gostr; pi_IsDir : bool; pi_HasPassword : bool; pi_BurnAfterRead : bool;
  pi_AccessLimit : Z; pi_AccessCount : Z; pi_RemainingAccesses : Z; pi_AllowPreview : bool; pi_AllowDownload : bool;
  pi_Authed : bool; pi_ConsumedAt : option Z; pi_ExpiresAt : option Z;
}.

Record PublicShareListResp := {
  pl_Content : list PublicShareObjResp; pl_Total : Z; pl_Page : Z; pl_PerPage : Z; pl_HasMore : bool; pl_PagesTotal : Z;
}.

(** ** Pages of a listing: [server/handles/fsread.go] *)

Definition DefaultPerPage : Z := 200.
Definition MaxPerPage : Z := 500.
Definition AllPerPage : Z := -1.

Definition normalizeListPage (page perPage : Z) : Z * Z :=
  let effPage := if page <=? 0 then 1 else page in
  if perPage <? 0 then (effPage, AllPerPage)
  else
    let effPerPage := if perPage =? 0 then DefaultPerPage else perPage in
    (effPage, if MaxPerPage <? effPerPage then MaxPerPage else effPerPage).

Definition calcPagesTotal (total perPage : Z) : Z :=
  if perPage =? AllPerPage then if 0 <? total then 1 else 0
  else if (total <=? 0) || (perPage <=? 0) then 0
  else Z.quot (wrap64 (total + perPage - 1)) perPage.

(** [objs[start:end]] panics when [start] is negative, and so when the product
    overflows. *)
Definition pagination {A} (objs : list A) (pageIndex pageSize : Z) : outcome (Z * list A) :=
  let total := Z.of_nat (length objs) in
  if pageSize =? AllPerPage then Ret (total, objs)
  else
    let start := wrap64 ((pageIndex - 1) * pageSize) in
    if total <? start then Ret (total, [])
    else
      let end_ := wrap64 (start + pageSize) in
      let end_ := if total <? end_ then total else end_ in
      if (start <? 0) || (end_ <? start) then Panic
      else Ret (total, take (Z.to_nat (end_ - start)) (drop (Z.to_nat start) objs)).

Section handlers.
Context {ST : ShareTable} {SE : ShareEnv} {RS : RoleStore}.

(** ** Owners *)

Fixpoint generate_id (n k : nat) (t : shtable) : result gostr :=
  match n with
  | O => inl (EMessage #"failed to generate unique share id")
  | S n =>
      let shareID := random_id k in
      let! exists_ := ShareIDExists shareID t in
      if exists_ then generate_id n (S k) t else inr shareID
  end.
Definition generateShareID (t : shtable) : result gostr := generate_id 10 0 t.

Definition resolveRequestedShareID (rawShareID fallback : gostr) (excludeID : Z) (t : shtable) : id_error + gostr :=
  let shareID := TrimSpace rawShareID in
  let check (r : result bool) : id_error + gostr :=
    match r with
    | inl e => inl (IDOther (EFmtWrap e #"check share id availability"))
    | inr true => inl ShareIDExists_
    | inr false => inr shareID
    end in
  if bool_decide (shareID = #"") then
    if negb (bool_decide (fallback = #"")) then inr fallback
    else match generateShareID t with inl e => inl (IDOther e) | inr id => inr id end
  else if negb (validateCustomShareID shareID) then inl ShareIDInvalid
  else if excludeID =? 0 then check (ShareIDExists shareID t)
  else check (ShareIDExistsExceptID shareID excludeID t).

Definition requested_id (rawShareID fallback : gostr) (excludeID : Z) : Hd gostr :=
  λ t, match resolveRequestedShareID rawShareID fallback excludeID t with
       | inl ShareIDInvalid => (Refuse 400 (EMessage #"share_id must be 1-32 characters"), t)
       | inl ShareIDExists_ => (Refuse 400 (EMessage #"share link already exists"), t)
       | inl (IDOther e) => (Refuse 500 e, t)
       | inr id => (Answer id, t)
       end.

Fixpoint first_layout (layouts : list gostr) (value : gostr) : result (option Z) :=
  match layouts with
  | [] => inl (EMessage #"invalid expire_at")
  | layout :: rest =>
      match time_ParseLocal layout value with
      | Some parsed => inr (Some parsed)
      | None => first_layout rest value
      end
  end.

Definition RFC3339 : gostr := #"2006-01-02T15:04:05Z07:00".

Definition parseShareExpireAt (raw : gostr) : result (option Z) :=
  let value := TrimSpace raw in
  if bool_decide (value = #"") then inr None
  else match time_Parse RFC3339 value with
       | Some parsed => inr (Some parsed)
       | None => first_layout [ #"2006-01-02T15:04:05"; #"2006-01-02T15:04"; #"2006-01-02 15:04:05"] value
       end.

Definition resolveShareExpireAt (now : Z) (expireAt : gostr) (expireHours : Z) : result (option Z) :=
  if negb (bool_decide (TrimSpace expireAt = #"")) then parseShareExpireAt expireAt
  else if expireHours <? 0 then inl (EMessage #"expire_hours must be 0 or greater")
  else if expireHours =? 0 then inr None
  else inr (Some (now + wrap64 (expireHours * Hour))).

(** The row [CreateShare] makes; [Create] gives it its key. *)
Definition new_share (shareID : gostr) (user : User) (name path : gostr) (dir burn : bool) (limit : Z)
    (preview download : bool) (expires : option Z) : Share :=
  {| sh_ID := 0; ShareID := shareID; CreatorID := user_ID user; sh_Name := name; RootPath := path; sh_IsDir := dir;
     PasswordHash := #""; PasswordSalt := #""; BurnAfterRead := burn; AccessLimit := limit; AccessCount := 0;
     AllowPreview := preview; AllowDownload := download; Enabled := true; ViewCount := 0; DownloadCount := 0;
     LastAccessAt := None; ConsumedAt := None; ExpiresAt := expires; CreatedAt := None; UpdatedAt := None |}.

Definition protect (password : gostr) (s : Share) : Share :=
  if negb (bool_decide (password = #"")) then set_password random_salt (sharePasswordHash password random_salt) s else s.

Definition CreateShare (c : share_ctx) (user : User) (req : CreateShareReq) : Hd Share :=
  if bool_decide (cs_Path req = #"") then h_refuse 400 (EMessage #"path is required")
  else
    let^ reqPath := h_result 403 (JoinPath (Some GetRole) user (cs_Path req)) in
    if negb (CanReadPathByRole (Some user) reqPath) then h_refuse 403 (EMessage #"you have no permission")
    else
      let^ obj := h_result 500 (fs_get reqPath) in
      let^ shareID := requested_id (cs_ShareID req) #"" 0 in
      let^ (accessLimit, burnAfterRead) :=
        h_result 400 (normalizeShareAccessLimit (cs_AccessLimit req) (cs_BurnAfterRead req)) in
      let^ expiresAt := h_result 400 (resolveShareExpireAt (c_clock c 0) (cs_ExpireAt req) (cs_ExpireHours req)) in
      let share := new_share shareID user (normalizeShareName obj (cs_Name req)) reqPath (IsDir obj) burnAfterRead
        accessLimit (default true (cs_AllowPreview req)) (default true (cs_AllowDownload req)) expiresAt in
      h_exec 500 (db_CreateShare (c_clock c 1) (protect (cs_Password req) share)).

(** A limit that is reached already closes the share. *)
Definition close_reached (now : Z) (accessLimit : Z) (s : Share) : Share :=
  if Enabled s && (0 <? accessLimit) && (accessLimit <=? AccessCount s)
  then match ConsumedAt s with
       | Some _ => set_Enabled false s
       | None => set_consumed now s
       end
  else s.

Definition UpdateShare (c : share_ctx) (user : User) (req : UpdateShareReq) : Hd Share :=
  if bool_decide (us_ShareID req = #"") then h_refuse 400 (EMessage #"share_id is required")
  else
    let^ share := h_query 404 (GetShareByCreatorAndShareID (user_ID user) (us_ShareID req)) in
    let^ shareID := requested_id (us_NewShareID req) (ShareID share) (sh_ID share) in
    let^ (accessLimit, burnAfterRead) :=
      match us_AccessLimit req with
      | Some limit => h_result 400 (normalizeShareAccessLimit limit None)
      | None => h_ret (EffectiveAccessLimit share, EffectiveAccessLimit share =? 1)
      end in
    let^ expiresAt :=
      match us_ExpireAt req with
      | Some raw => h_result 400 (parseShareExpireAt raw)
      | None => h_ret (ExpiresAt share)
      end in
    let share := set_edit shareID (normalizeOptionalShareName (us_Name req) (sh_Name share)) burnAfterRead accessLimit
      (default (AllowPreview share) (us_AllowPreview req)) (default (AllowDownload share) (us_AllowDownload req))
      expiresAt share in
    let share := close_reached (c_clock c 0) accessLimit (protect (us_Password req) share) in
    let^ _ := h_write 500 (db_UpdateShare (c_clock c 1) share) in
    h_ret share.

Definition DisableShare (c : share_ctx) (user : User) (shareID : gostr) : Hd unit :=
  if bool_decide (shareID = #"") then h_refuse 400 (EMessage #"share_id is required")
  else
    let^ _ := h_query 404 (GetShareByCreatorAndShareID (user_ID user) shareID) in
    h_write 500 (DisableShareByShareID (c_clock c 0) (user_ID user) shareID).

Definition DeleteShare (user : User) (shareID : gostr) : Hd unit :=
  if bool_decide (shareID = #"") then h_refuse 400 (EMessage #"share_id is required")
  else h_write 500 (DeleteShareByShareID (user_ID user) shareID).

(** ** Visitors *)

Definition ensureShareAccess (now : Z) (s : Share) (token : gostr) : option (Z * error) :=
  if negb (HasPassword s) then None
  else if bool_decide (token = #"") then Some (401, EMessage #"share password required")
  else match VerifyAccess token_setting now s token with
       | Some e => Some (401, e)
       | None => None
       end.

Definition GetPublicShareInfo (c : share_ctx) (shareID : gostr) : Hd PublicShareInfoResp :=
  if bool_decide (shareID = #"") then h_refuse 400 (EMessage #"share_id is required")
  else
    let^ share := h_query 404 (GetShareByShareID shareID) in
    let^ _ := h_check (ensureShareAvailable (c_clock c 0) share) in
    let token := getShareAccessToken c #"" in
    let authed :=
      if HasPassword share && negb (bool_decide (token = #""))
      then match VerifyAccess token_setting (c_clock c 1) share token with None => true | Some _ => false end
      else negb (HasPassword share) in
    let^ _ := (if authed then h_ignore (TouchShareView (c_clock c 2) (ShareID share)) else h_ret ()) in
    h_ret {| pi_ShareID := ShareID share; pi_Name := sh_Name share; pi_IsDir := sh_IsDir share;
             pi_HasPassword := HasPassword share; pi_BurnAfterRead := EffectiveAccessLimit share =? 1;
             pi_AccessLimit := EffectiveAccessLimit share; pi_AccessCount := AccessCount share;
             pi_RemainingAccesses := RemainingAccesses share; pi_AllowPreview := AllowPreview share;
             pi_AllowDownload := AllowDownload share; pi_Authed := authed; pi_ConsumedAt := ConsumedAt share;
             pi_ExpiresAt := ExpiresAt share |}.

(** How long the token of a share is valid; [None] when the share expired in
    the meantime. *)
Definition token_ttl (now : Z) (s : Share) : option Z :=
  match ExpiresAt s with
  | None => Some shareAccessTokenLifetime
  | Some e =>
      let remaining := e - now in
      if remaining <=? 0 then None
      else Some (if remaining <? shareAccessTokenLifetime then remaining else shareAccessTokenLifetime)
  end.

Definition AuthPublicShare (c : share_ctx) (shareID password : gostr) : Hd gostr :=
  if bool_decide (shareID = #"") then h_refuse 400 (EMessage #"share_id is required")
  else
    let^ share := h_query 404 (GetShareByShareID shareID) in
    let^ _ := h_check (ensureShareAvailable (c_clock c 0) share) in
    if negb (sharePasswordMatched share password) then h_refuse 403 (EMessage #"password is incorrect")
    else
      let^ token :=
        (if HasPassword share then
           match token_ttl (c_clock c 1) share with
           | None => h_refuse 410 (EMessage #"share is expired")
           | Some ttl => h_ret (SignAccess token_setting (c_clock c 2) share ttl)
           end
         else h_ret #"") in
      let^ _ := h_ignore (TouchShareView (c_clock c 3) (ShareID share)) in
      h_ret token.

Definition toPublicShareObjResp (c : share_ctx) (s : Share) (obj : Obj) (targetPath relPath token : gostr)
    : PublicShareObjResp :=
  {| po_Name := GetName obj; po_Size := GetSize obj; po_IsDir := IsDir obj; po_Path := relPath;
     po_DownloadURL := if negb (IsDir obj) && AllowDownload s
       then buildPublicShareAssetURL c #"/sd/" (ShareID s) relPath token false else #"";
     po_PreviewURL := if negb (IsDir obj) && AllowPreview s
       then buildPublicShareAssetURL c (if can_proxy targetPath (GetName obj) then #"/sp/" else #"/sd/")
              (ShareID s) relPath token true
       else #"" |}.

(** An item of a listing; one that resolves outside of the share is skipped. *)
Definition share_item (c : share_ctx) (s : Share) (relPath token : gostr) (item : Obj) : option PublicShareObjResp :=
  let itemRelPath :=
    if bool_decide (relPath = #"/") then path_join #"/" (GetName item) else path_join relPath (GetName item) in
  match resolveShareTarget s itemRelPath with
  | inl _ => None
  | inr (itemTargetPath, _) => Some (toPublicShareObjResp c s item itemTargetPath itemRelPath token)
  end.

(** The lookup of the share with the checks every visit makes. *)
Definition open_share (c : share_ctx) (shareID reqToken : gostr) (allowed : Share → option (Z * error)) : Hd Share :=
  let^ share := h_query 404 (GetShareByShareID shareID) in
  let^ _ := h_check (ensureShareAvailable (c_clock c 0) share) in
  let^ _ := h_check (allowed share) in
  let^ _ := h_check (ensureShareAccess (c_clock c 1) share (getShareAccessToken c reqToken)) in
  h_ret share.

Definition ListPublicShare (c : share_ctx) (shareID path reqToken : gostr) (page perPage : Z) : Hd PublicShareListResp :=
  if bool_decide (shareID = #"") then h_refuse 400 (EMessage #"share_id is required")
  else
    let '(page, perPage) := normalizeListPage page perPage in
    let^ share := open_share c shareID reqToken (λ _, None) in
    let token := getShareAccessToken c reqToken in
    let^ (targetPath, relPath) := h_result 400 (resolveShareTarget share path) in
    let^ obj := h_result 404 (fs_get targetPath) in
    if negb (IsDir obj) then h_refuse 400 (EMessage #"path is not a directory")
    else
      let^ objs := h_result 500 (fs_list targetPath) in
      match pagination objs page perPage with
      | Panic => λ t, (Crashed, t)
      | Ret (total, pageObjs) =>
          h_ret {| pl_Content := omap (share_item c share relPath token) pageObjs; pl_Total := total;
                   pl_Page := page; pl_PerPage := perPage;
                   pl_HasMore := negb (perPage =? AllPerPage) && (wrap64 (page * perPage) <? total);
                   pl_PagesTotal := calcPagesTotal total perPage |}
      end.

(** The name of the driver is left out of the answer. *)
Definition GetPublicShare (c : share_ctx) (shareID path reqToken : gostr) : Hd PublicShareObjResp :=
  if bool_decide (shareID = #"") then h_refuse 400 (EMessage #"share_id is required")
  else
    let^ share := open_share c shareID reqToken (λ _, None) in
    let^ (targetPath, relPath) := h_result 400 (resolveShareTarget share path) in
    let^ obj := h_result 404 (fs_get targetPath) in
    h_ret (toPublicShareObjResp c share obj targetPath relPath (getShareAccessToken c reqToken)).

(** *** Fetching content *)

Inductive fetch := FetchDown | FetchProxy.

Definition fetch_allowed (f : fetch) (s : Share) : option (Z * error) :=
  match f with
  | FetchDown => if negb (AllowDownload s) then Some (403, EMessage #"download is not allowed") else None
  | FetchProxy => if negb (AllowPreview s) then Some (403, EMessage #"preview is not allowed") else None
  end.

(** The part of [ShareDown] and [ShareProxy] before the access is recorded:
    it reads the row once. *)
Definition fetch_check (f : fetch) (c : share_ctx) (shareID path : gostr) : Hd (Share * gostr) :=
  let^ share := open_share c shareID #"" (fetch_allowed f) in
  let^ (targetPath, _) := h_result 400 (resolveShareWildcardTarget share path) in
  let^ obj := h_result 404 (fs_get targetPath) in
  if IsDir obj then h_refuse 400 (EMessage #"a directory is not supported")
  else h_ret (share, targetPath).

Definition recordShareAccess (now : Z) (share : Share) : Hd unit :=
  let^ _ := h_exec 500 (RecordShareAccess now (ShareID share)) in h_ret ().

Definition fetch_record (f : fetch) (c : share_ctx) (share : Share) : Hd unit :=
  if shouldTrackShareContentAccess c then
    let^ _ := match f with
              | FetchDown => h_ignore (TouchShareDownload (c_clock c 2) (ShareID share))
              | FetchProxy => h_ret ()
              end in
    recordShareAccess (c_clock c 3) share
  else h_ret ().

Definition share_fetch (f : fetch) (c : share_ctx) (shareID path : gostr) : Hd gostr :=
  let^ (share, targetPath) := fetch_check f c shareID path in
  let^ _ := fetch_record f c share in
  h_ret targetPath.

Definition ShareDown : share_ctx → gostr → gostr → Hd gostr := share_fetch FetchDown.
Definition ShareProxy : share_ctx → gostr → gostr → Hd gostr := share_fetch FetchProxy.
End handlers.
