(* ===== verification/SharesThms.v ===== *)
(** * Theorems of shares

    Whom a share lets in, where it lets them, how long a token is good for and
    how often the content can be fetched, also when requests overlap. *)

From S2P Require Import Prelude GoStrings Errs Store Paths Crypto Users Perm FsOps Sign Shares ShareHandlers.

Local Open Scope Z_scope.

(** ** Resolution of a path in a share *)

Lemma path_segs_slash : path_segs #"/" = [].
Proof. reflexivity. Qed.

Lemma Fix_slash p : FixAndCleanPath p = #"/" ↔ path_segs p = [].
Proof.
  rewrite FixAndCleanPath_segs. split; [|by intros ->].
  intros E. apply (render_inj _ []); [apply path_segs_norm|done|done].
Qed.

Lemma target_confined s raw target rel :
  resolveShareTarget s raw = inr (target, rel) →
  IsSubPath (RootPath s) target = true ∧ (sh_IsDir s = false → target = RootPath s) ∧ rel = FixAndCleanPath raw.
Proof.
  unfold resolveShareTarget. destruct (negb (sh_IsDir s) && _) eqn:E1; [done|].
  case_bool_decide as Hr.
  - intros [= <- <-]. split_ands; [apply IsSubPath_refl|done|done].
  - destruct (IsSubPath _ _) eqn:E2; [|done]. cbn [negb]. intros [= <- <-]. split_ands; [done| |done].
    intros Hd. rewrite Hd in E1. discriminate.
Qed.

(** The root of a share that was created is a cleaned path: the guard against
    leaving it never fires. *)
Lemma target_below s raw :
  sh_IsDir s = true → RootPath s = render (path_segs (RootPath s)) →
  resolveShareTarget s raw = inr (render (path_segs (RootPath s) ++ path_segs raw), FixAndCleanPath raw).
Proof.
  intros Hd Hroot. unfold resolveShareTarget. rewrite Hd. cbn [negb andb].
  assert (Forall good_seg (path_segs (RootPath s) ++ path_segs raw)) as Hg.
  { apply Forall_app. split; apply path_segs_good. }
  case_bool_decide as Hr.
  - rewrite Hr. apply Fix_slash in Hr. rewrite Hr, app_nil_r. by rewrite <- Hroot.
  - replace (path_join (RootPath s) (FixAndCleanPath raw)) with (render (path_segs (RootPath s) ++ path_segs raw)).
    2: { rewrite Hroot at 2. rewrite FixAndCleanPath_segs. symmetry. apply path_join_render; apply path_segs_norm. }
    rewrite FixAndCleanPath_render by done.
    assert (IsSubPath (RootPath s) (render (path_segs (RootPath s) ++ path_segs raw)) = true) as ->; [|done].
    apply IsSubPath_segs. rewrite path_segs_render by done. by apply prefix_app_r.
Qed.

(** ** Inversion of handlers *)

Section handlers.
Context {ST : ShareTable} {SE : ShareEnv} {RS : RoleStore}.

Lemma h_bind_Answer {A B} (m : Hd A) (k : A → Hd B) t b t' :
  h_bind m k t = (Answer b, t') → ∃ a t1, m t = (Answer a, t1) ∧ k a t1 = (Answer b, t').
Proof. unfold h_bind. destruct (m t) as [[code e|a|] t1]; try done. eauto. Qed.

Lemma h_query_Answer {A} code (q : shtable → result A) t a t' :
  h_query code q t = (Answer a, t') → q t = inr a ∧ t' = t.
Proof. unfold h_query. destruct (q t); [done|]. by intros [= -> ->]. Qed.

Lemma h_check_Answer r t u t' : h_check r t = (Answer u, t') → r = None ∧ t' = t.
Proof. destruct r as [[code e]|]; [done|]. by intros [= _ ->]. Qed.

Lemma h_result_Answer {A} code (r : result A) t a t' : h_result code r t = (Answer a, t') → r = inr a ∧ t' = t.
Proof. destruct r; [done|]. by intros [= -> ->]. Qed.

(** What a visitor shows and what the row says, at the readings of the clock
    of the request. *)
Definition admitted (c : share_ctx) (reqToken : gostr) (s : Share) : Prop :=
  Enabled s = true ∧ IsConsumed s = false ∧ IsExpired s (c_clock c 0) = false ∧
  (HasPassword s = true → ∃ e, int64_ok e ∧ (e = 0 ∨ Unix (c_clock c 1) ≤ e) ∧
     getShareAccessToken c reqToken = hmac_Sign (signer token_setting) (tokenPayload s) e).

Lemma available_None now s :
  ensureShareAvailable now s = None ↔ Enabled s = true ∧ IsConsumed s = false ∧ IsExpired s now = false.
Proof.
  unfold ensureShareAvailable. destruct (IsConsumed s), (Enabled s), (IsExpired s now); naive_solver.
Qed.

Lemma access_None now s token :
  ensureShareAccess now s token = None ↔
    (HasPassword s = true → ∃ e, int64_ok e ∧ (e = 0 ∨ Unix now ≤ e) ∧
       token = hmac_Sign (signer token_setting) (tokenPayload s) e).
Proof.
  unfold ensureShareAccess. destruct (HasPassword s); cbn [negb]; [|naive_solver].
  unfold VerifyAccess. case_bool_decide as Ht.
  - split; [done|]. intros H. destruct (H eq_refl) as (e&_&_&He). exfalso. rewrite Ht in He.
    unfold hmac_Sign in He. by destruct (base64url _).
  - destruct (hmac_Verify _ _ _ _) eqn:E.
    + split; [done|]. intros H. destruct (H eq_refl) as (e'&H1&H2&H3).
      pose proof (proj2 (hmac_Verify_iff (Unix now) (signer token_setting) (tokenPayload s) token)) as Hv.
      rewrite Hv in E; [done|]. eauto.
    + split; [|done]. intros _ _. apply hmac_Verify_iff in E as (e&H1&H2&H3). eauto.
Qed.

Lemma open_share_Answer c id reqToken allowed t s t' :
  open_share c id reqToken allowed t = (Answer s, t') →
  t' = t ∧ GetShareByShareID id t = inr s ∧ admitted c reqToken s ∧ allowed s = None.
Proof.
  unfold open_share. intros (s0&t1&H1&H)%h_bind_Answer. apply h_query_Answer in H1 as [H1 ->].
  apply h_bind_Answer in H as (u1&t2&H2&H). apply h_check_Answer in H2 as [H2 ->].
  apply h_bind_Answer in H as (u2&t3&H3&H). apply h_check_Answer in H3 as [H3 ->].
  apply h_bind_Answer in H as (u3&t4&H4&H). apply h_check_Answer in H4 as [H4 ->].
  injection H as -> ->. apply available_None in H2 as (?&?&?). rewrite access_None in H4. by repeat split.
Qed.

Lemma fetch_check_Answer f c id path t s target t' :
  fetch_check f c id path t = (Answer (s, target), t') →
  t' = t ∧ GetShareByShareID id t = inr s ∧ admitted c #"" s ∧ fetch_allowed f s = None ∧
  ∃ rel obj, resolveShareWildcardTarget s path = inr (target, rel) ∧ fs_get target = inr obj ∧ IsDir obj = false.
Proof.
  unfold fetch_check. intros (s0&t1&H1&H)%h_bind_Answer. apply open_share_Answer in H1 as (->&Hg&Ha&Hf).
  apply h_bind_Answer in H as ([tg rel]&t2&H2&H). apply h_result_Answer in H2 as [H2 ->].
  apply h_bind_Answer in H as (obj&t3&H3&H). apply h_result_Answer in H3 as [H3 ->].
  destruct (IsDir obj) eqn:Hd; [done|]. injection H as -> -> ->. split_ands; eauto.
Qed.

Lemma wildcard_confined s raw target rel :
  resolveShareWildcardTarget s raw = inr (target, rel) →
  IsSubPath (RootPath s) target = true ∧ (sh_IsDir s = false → target = RootPath s).
Proof.
  unfold resolveShareWildcardTarget. destruct (PathUnescape raw); [|done]. intros H%target_confined. naive_solver.
Qed.

Lemma found_row {SLaw : ShareLaws} id t s :
  GetShareByShareID id t = inr s → sh_rows t !! sh_ID s = Some s ∧ ShareID s = id.
Proof. intros [H1 H2]%sh_Take_some. split; [done|]. unfold has_share_id in H2. by reflect_bools. Qed.

Lemma fetch_authorised {SLaw : ShareLaws} c id path t t' f target :
  share_fetch f c id path t = (Answer target, t') →
  ∃ s obj, sh_rows t !! sh_ID s = Some s ∧ ShareID s = id ∧ admitted c #"" s ∧
    match f with FetchDown => AllowDownload s | FetchProxy => AllowPreview s end = true ∧
    IsSubPath (RootPath s) target = true ∧ (sh_IsDir s = false → target = RootPath s) ∧
    fs_get target = inr obj ∧ IsDir obj = false.
Proof.
  unfold share_fetch. intros ([s tg]&t1&H1&H)%h_bind_Answer.
  apply fetch_check_Answer in H1 as (->&Hg&Ha&Hf&rel&obj&Hr&Ho&Hd).
  apply h_bind_Answer in H as (u&t2&_&H). injection H as -> _.
  apply found_row in Hg as [Hrow Hid]. destruct (wildcard_confined _ _ _ _ Hr) as [Hc1 Hc2].
  exists s, obj. split_ands; try done. destruct f; cbn in Hf; [by destruct (AllowDownload s)|by destruct (AllowPreview s)].
Qed.

Lemma share_item_name c s rel token obj o : share_item c s rel token obj = Some o → po_Name o = GetName obj.
Proof. unfold share_item. destruct (resolveShareTarget _ _) as [|[]]; [done|]. by intros [= <-]. Qed.

Lemma pagination_sub {A} (objs : list A) page size total l x :
  pagination objs page size = Ret (total, l) → x ∈ l → x ∈ objs.
Proof.
  unfold pagination. repeat case_match; try done; intros [= <- <-]; try done; try (by intros ?%not_elem_of_nil);
    intros Hx; (eapply sublist_subseteq; [apply sublist_drop|]); (eapply sublist_subseteq; [apply sublist_take|exact Hx]).
Qed.

Lemma list_authorised {SLaw : ShareLaws} c id path t t' reqToken page perPage r :
  ListPublicShare c id path reqToken page perPage t = (Answer r, t') →
  ∃ s target objs, t' = t ∧ sh_rows t !! sh_ID s = Some s ∧ ShareID s = id ∧ admitted c reqToken s ∧
    IsSubPath (RootPath s) target = true ∧ (sh_IsDir s = false → target = RootPath s) ∧ fs_list target = inr objs ∧
    ∀ o, o ∈ pl_Content r → ∃ obj, obj ∈ objs ∧ po_Name o = GetName obj.
Proof.
  unfold ListPublicShare. case_bool_decide; [done|]. destruct (normalizeListPage page perPage) as [pg sz].
  intros (s&t1&H1&H2)%h_bind_Answer. apply open_share_Answer in H1 as (->&Hg&Ha&_).
  apply h_bind_Answer in H2 as ([tg rel]&t2&H2&H3). apply h_result_Answer in H2 as [Hr ->].
  apply h_bind_Answer in H3 as (obj&t3&H3&H4). apply h_result_Answer in H3 as [_ ->].
  destruct (negb (IsDir obj)); [done|].
  apply h_bind_Answer in H4 as (objs&t4&H4&H5). apply h_result_Answer in H4 as [Hl ->].
  destruct (pagination objs pg sz) as [[total l]|] eqn:Ep; [|done]. injection H5 as <- <-.
  apply found_row in Hg as [Hrow Hid]. destruct (target_confined _ _ _ _ Hr) as (Hc1&Hc2&_).
  exists s, tg, objs. split_ands; try done. cbn. intros o Ho. apply list_elem_of_omap in Ho as (x&Hx&Ho).
  exists x. split; [by eapply pagination_sub|by eapply share_item_name].
Qed.

Lemma get_authorised {SLaw : ShareLaws} c id path t t' reqToken r :
  GetPublicShare c id path reqToken t = (Answer r, t') →
  ∃ s target obj, t' = t ∧ sh_rows t !! sh_ID s = Some s ∧ ShareID s = id ∧ admitted c reqToken s ∧
    IsSubPath (RootPath s) target = true ∧ (sh_IsDir s = false → target = RootPath s) ∧
    fs_get target = inr obj ∧ po_Name r = GetName obj.
Proof.
  unfold GetPublicShare. case_bool_decide; [done|].
  intros (s&t1&H1&H2)%h_bind_Answer. apply open_share_Answer in H1 as (->&Hg&Ha&_).
  apply h_bind_Answer in H2 as ([tg rel]&t2&H2&H3). apply h_result_Answer in H2 as [Hr ->].
  apply h_bind_Answer in H3 as (obj&t3&H3&H4). apply h_result_Answer in H3 as [Ho ->]. injection H4 as <- <-.
  apply found_row in Hg as [Hrow Hid]. destruct (target_confined _ _ _ _ Hr) as (Hc1&Hc2&_).
  by exists s, tg, obj.
Qed.
End handlers.

(** C21. Content, listings and object details of a share are given only while
    its row is enabled, neither consumed nor expired, to a visitor whose token
    was signed for this row as it is now when it has a password, and for paths
    below the root of the share; content moreover only when the share allows
    the kind of access, and only for files.  The path of an answer is its root
    itself when a file is shared. *)
Theorem share_content_authorised {ST : ShareTable} {SL : ShareLaws} {SE : ShareEnv} c id path (t t' : shtable) :
  (∀ f target, share_fetch f c id path t = (Answer target, t') →
     ∃ s obj, sh_rows t !! sh_ID s = Some s ∧ ShareID s = id ∧ admitted c #"" s ∧
       match f with FetchDown => AllowDownload s | FetchProxy => AllowPreview s end = true ∧
       IsSubPath (RootPath s) target = true ∧ (sh_IsDir s = false → target = RootPath s) ∧
       fs_get target = inr obj ∧ IsDir obj = false) ∧
  (∀ reqToken page perPage r, ListPublicShare c id path reqToken page perPage t = (Answer r, t') →
     ∃ s target objs, t' = t ∧ sh_rows t !! sh_ID s = Some s ∧ ShareID s = id ∧ admitted c reqToken s ∧
       IsSubPath (RootPath s) target = true ∧ (sh_IsDir s = false → target = RootPath s) ∧ fs_list target = inr objs ∧
       ∀ o, o ∈ pl_Content r → ∃ obj, obj ∈ objs ∧ po_Name o = GetName obj) ∧
  (∀ reqToken r, GetPublicShare c id path reqToken t = (Answer r, t') →
     ∃ s target obj, t' = t ∧ sh_rows t !! sh_ID s = Some s ∧ ShareID s = id ∧ admitted c reqToken s ∧
       IsSubPath (RootPath s) target = true ∧ (sh_IsDir s = false → target = RootPath s) ∧
       fs_get target = inr obj ∧ po_Name r = GetName obj).
Proof.
  split_ands; [eauto using fetch_authorised|eauto using list_authorised|eauto using get_authorised].
Qed.

(** ** Tokens *)

(** Two texts with the same authentication code. *)
Definition hmac_collision (key m1 m2 : gostr) : Prop := m1 ≠ m2 ∧ hmac_sha256 key m1 = hmac_sha256 key m2.

Lemma hmac_Sign_inj s d1 e1 d2 e2 :
  int64_ok e1 → int64_ok e2 → hmac_Sign s d1 e1 = hmac_Sign s d2 e2 →
  e1 = e2 ∧ base64url (hmac_sha256 (SecretKey s) (signed_message d1 e1))
          = base64url (hmac_sha256 (SecretKey s) (signed_message d2 e2)).
Proof.
  intros H1 H2 E. apply (f_equal (Split ":")) in E. rewrite !Split_sign in E. injection E as Eb Ee.
  by apply FormatInt_inj in Ee.
Qed.

(** The payload determines the share id, the password hash and the second of
    the last change. *)
Definition stamp (s : Share) : Z := match UpdatedAt s with Some t => Unix t | None => 0 end.

Lemma tokenPayload_inj s1 s2 :
  ":"%char ∉ ShareID s1 → ":"%char ∉ ShareID s2 → ":"%char ∉ PasswordHash s1 → ":"%char ∉ PasswordHash s2 →
  int64_ok (stamp s1) → int64_ok (stamp s2) →
  tokenPayload s1 = tokenPayload s2 ↔
  ShareID s1 = ShareID s2 ∧ PasswordHash s1 = PasswordHash s2 ∧ stamp s1 = stamp s2.
Proof.
  intros Hi1 Hi2 Hp1 Hp2 Hu1 Hu2. unfold tokenPayload. fold (stamp s1) (stamp s2). split.
  - intros E. apply (f_equal (Split ":")) in E. simpl app in E.
    rewrite !Split_app in E by done. rewrite !Split_none in E by apply FormatInt_no_colon.
    injection E as E1 E2 E3. split_ands; [done|done|]. by apply FormatInt_inj.
  - by intros (->&->&->).
Qed.

Section tokens.
Context {ST : ShareTable} {SE : ShareEnv}.

Lemma token_ttl_bounds now s ttl : token_ttl now s = Some ttl → 0 < ttl ≤ shareAccessTokenLifetime.
Proof.
  unfold token_ttl, shareAccessTokenLifetime, Hour. destruct (ExpiresAt s); [|intros [= <-]; lia].
  case_match; [done|]. reflect_bools. case_match; intros [= <-]; reflect_bools; lia.
Qed.

Lemma AuthPublicShare_Answer c id pw t tok t1 s :
  GetShareByShareID id t = inr s → HasPassword s = true → AuthPublicShare c id pw t = (Answer tok, t1) →
  sharePasswordHash pw (PasswordSalt s) = PasswordHash s ∧
  ∃ ttl, token_ttl (c_clock c 1) s = Some ttl ∧ tok = SignAccess token_setting (c_clock c 2) s ttl.
Proof.
  intros Hg Hp. unfold AuthPublicShare. case_bool_decide; [done|].
  intros (s0&t2&H1&H2)%h_bind_Answer. apply h_query_Answer in H1 as [H1 ->].
  rewrite Hg in H1. injection H1 as <-.
  apply h_bind_Answer in H2 as (u&t3&H2&H3). apply h_check_Answer in H2 as [_ ->].
  unfold sharePasswordMatched in H3. rewrite Hp in H3. cbn [negb] in H3. case_bool_decide as Hh; [|done]. cbn [negb] in H3.
  apply h_bind_Answer in H3 as (tok'&t4&H3&H4).
  destruct (token_ttl (c_clock c 1) s) as [ttl|]; [|done]. injection H3 as <- <-.
  apply h_bind_Answer in H4 as (u'&t5&_&H4). injection H4 as <- _. eauto.
Qed.
End tokens.

(** [AuthPublicShare] gives a token of a share with a password only for
    the right password.  The token opens the share until its time is over, at
    most a day, and for as long as the share id, the password and the second
    of the row's last change stay the same; it opens no other row, and not this
    row once they change, except when the two texts have the same
    authentication code. *)
Theorem share_token_roundtrip {ST : ShareTable} {SE : ShareEnv} c id pw (t t1 : shtable) tok s :
  GetShareByShareID id t = inr s → HasPassword s = true → 1000000000 ≤ c_clock c 2 ≤ 5000000000000000000 →
  AuthPublicShare c id pw t = (Answer tok, t1) →
  sharePasswordHash pw (PasswordSalt s) = PasswordHash s ∧
  ∃ ttl, 0 < ttl ≤ shareAccessTokenLifetime ∧
    (∀ s' now, HasPassword s' = true → tokenPayload s' = tokenPayload s →
       ensureShareAccess now s' tok = None ↔ Unix now ≤ Unix (c_clock c 2 + ttl)) ∧
    (∀ s' now, HasPassword s' = true → tokenPayload s' ≠ tokenPayload s → ensureShareAccess now s' tok = None →
       ∃ e, hmac_collision (SecretKey (signer token_setting))
         (signed_message (tokenPayload s') e) (signed_message (tokenPayload s) e)).
Proof.
  intros Hg Hp Hc Ha. destruct (AuthPublicShare_Answer _ _ _ _ _ _ _ Hg Hp Ha) as (Hh&ttl&Httl&->).
  apply token_ttl_bounds in Httl as Hb. split; [done|]. exists ttl. split; [done|].
  assert (0 < Unix (c_clock c 2 + ttl) ∧ int64_ok (Unix (c_clock c 2 + ttl))) as [He0 He].
  { unfold shareAccessTokenLifetime, Hour in Hb. split.
    - unfold Unix. apply Z.div_str_pos. lia.
    - apply Unix_ok. unfold_int64. lia. }
  unfold SignAccess. split.
  - intros s' now Hp' Hpay. rewrite access_None, Hp'. split.
    + intros H. destruct (H eq_refl) as (e&Hok&Hnow&Hs). rewrite Hpay in Hs.
      apply hmac_Sign_inj in Hs as [<- _]; [|done|done]. lia.
    + intros Hnow _. exists (Unix (c_clock c 2 + ttl)). rewrite Hpay. eauto.
  - intros s' now Hp' Hpay. rewrite access_None, Hp'. intros H. destruct (H eq_refl) as (e&Hok&Hnow&Hs).
    apply hmac_Sign_inj in Hs as [<- Hb64]; [|done|done]. eexists. split.
    + intros E. apply signed_message_inj in E as [E _]; [|done|done]. congruence.
    + apply base64url_inj in Hb64; [done|]. unfold hmac_sha256. by rewrite !sha256_length.
Qed.

(** ** The access limit under overlapping requests *)

(** The table, the requests that passed the checks and have not recorded their
    access, and the rows whose content was given out, one entry an access; a
    request with method HEAD is not recorded. *)
Record share_sys {ST : ShareTable} := {
  sy_table : shtable;
  inflight : list (fetch * share_ctx * Share);
  served : list Z;
}.

Definition tracked (v : fetch * share_ctx * Share) : bool := shouldTrackShareContentAccess v.1.2.
Definition row_of (v : fetch * share_ctx * Share) : Z := sh_ID v.2.

Section limit.
Context {ST : ShareTable} {SLaw : ShareLaws} {SE : ShareEnv} {RS : RoleStore}.

(** Other requests. *)
Inductive share_other :=
  | OtherAuth (c : share_ctx) (id pw : gostr)
  | OtherInfo (c : share_ctx) (id : gostr)
  | OtherList (c : share_ctx) (id path token : gostr) (page perPage : Z)
  | OtherCreate (c : share_ctx) (u : User) (req : CreateShareReq)
  | OtherDisable (c : share_ctx) (u : User) (id : gostr)
  | OtherUpdate (c : share_ctx) (u : User) (req : UpdateShareReq)
  | OtherDelete (u : User) (id : gostr).

Definition run_other (o : share_other) (t : shtable) : shtable :=
  match o with
  | OtherAuth c id pw => (AuthPublicShare c id pw t).2
  | OtherInfo c id => (GetPublicShareInfo c id t).2
  | OtherList c id path token page perPage => (ListPublicShare c id path token page perPage t).2
  | OtherCreate c u req => (CreateShare c u req t).2
  | OtherDisable c u id => (DisableShare c u id t).2
  | OtherUpdate c u req => (UpdateShare c u req t).2
  | OtherDelete u id => (DeleteShare u id t).2
  end.

(** The share [id0] itself is neither edited nor deleted: an edit may raise its
    limit and restores a share that was used up. *)
Definition spares (id0 : gostr) (o : share_other) : Prop :=
  match o with
  | OtherUpdate _ _ req => us_ShareID req ≠ id0
  | OtherDelete _ id => id ≠ id0
  | _ => True
  end.

(** At most [k] requests are between their check and their record. *)
Inductive share_step (k : nat) (id0 : gostr) : share_sys → share_sys → Prop :=
  | visit_check f c id path s target t t' l d :
      (length l < k)%nat → fetch_check f c id path t = (Answer (s, target), t') →
      share_step k id0 {| sy_table := t; inflight := l; served := d |}
                   {| sy_table := t'; inflight := (f, c, s) :: l; served := d |}
  | visit_served f c s u t t' l1 l2 d :
      fetch_record f c s t = (Answer u, t') →
      share_step k id0 {| sy_table := t; inflight := l1 ++ (f, c, s) :: l2; served := d |}
                   {| sy_table := t'; inflight := l1 ++ l2;
                      served := if tracked (f, c, s) then sh_ID s :: d else d |}
  | visit_failed f c s code e t t' l1 l2 d :
      fetch_record f c s t = (Refuse code e, t') →
      share_step k id0 {| sy_table := t; inflight := l1 ++ (f, c, s) :: l2; served := d |}
                   {| sy_table := t'; inflight := l1 ++ l2; served := d |}
  | visit_other o t l d :
      spares id0 o →
      share_step k id0 {| sy_table := t; inflight := l; served := d |}
                   {| sy_table := run_other o t; inflight := l; served := d |}.

(** A row keeps its share id, its limit and its count. *)
Definition same_row (s s' : Share) : Prop :=
  ShareID s' = ShareID s ∧ EffectiveAccessLimit s' = EffectiveAccessLimit s ∧ AccessCount s' = AccessCount s.
Definition keeps_row (i : Z) (t t' : shtable) : Prop :=
  ∀ s, sh_rows t !! i = Some s → ∃ s', sh_rows t' !! i = Some s' ∧ same_row s s'.

Lemma same_row_refl s : same_row s s.
Proof. done. Qed.
Lemma keeps_row_refl i t : keeps_row i t t.
Proof. intros s Hs. by exists s. Qed.
Lemma keeps_row_trans i t1 t2 t3 : keeps_row i t1 t2 → keeps_row i t2 t3 → keeps_row i t1 t3.
Proof.
  intros H1 H2 s Hs. destruct (H1 s Hs) as (s2&Hs2&?&?&?). destruct (H2 s2 Hs2) as (s3&Hs3&?&?&?).
  exists s3. unfold same_row. split; [done|]. split_ands; congruence.
Qed.

Lemma Update_keeps_row p f t t' i :
  (∀ s, sh_ID (f s) = sh_ID s) → (∀ s, same_row s (f s)) → sh_Update p f t = inr t' → keeps_row i t t'.
Proof.
  intros Hid Hf Hu s Hs. apply sh_Update_spec in Hu; [|done]. exists (if p s then f s else s).
  rewrite Hu, lookup_fmap, Hs. split; [done|]. destruct (p s); [apply Hf|done].
Qed.

Lemma Create_keeps_row s t t' s' i : sh_Create s t = inr (t', s') → keeps_row i t t'.
Proof.
  intros (j&->&Hn&Hr)%sh_Create_spec r Hi. exists r. rewrite Hr. split; [|done].
  rewrite lookup_insert_ne; [done|]. intros ->. congruence.
Qed.

(** *** Handlers that keep the rows *)

Definition h_keeps {A} (m : Hd A) : Prop := ∀ i t, keeps_row i t (m t).2.

Lemma h_keeps_bind {A B} (m : Hd A) (k : A → Hd B) : h_keeps m → (∀ a, h_keeps (k a)) → h_keeps (h_bind m k).
Proof.
  intros Hm Hk i t. unfold h_bind. specialize (Hm i t). destruct (m t) as [[code e|a|] t1]; cbn in *; [done| |done].
  eapply keeps_row_trans; [done|apply Hk].
Qed.
Lemma h_keeps_pure {A} (m : Hd A) : (∀ t, (m t).2 = t) → h_keeps m.
Proof. intros H i t. rewrite H. apply keeps_row_refl. Qed.
Lemma h_keeps_ignore q : (∀ i t t', q t = inr t' → keeps_row i t t') → h_keeps (h_ignore q).
Proof. intros H i t. unfold h_ignore. destruct (q t) eqn:E; cbn; [apply keeps_row_refl|eauto]. Qed.
Lemma h_keeps_write code q : (∀ i t t', q t = inr t' → keeps_row i t t') → h_keeps (h_write code q).
Proof. intros H i t. unfold h_write. destruct (q t) eqn:E; cbn; [apply keeps_row_refl|eauto]. Qed.

Lemma query_same {A} code (q : shtable → result A) t : (h_query code q t).2 = t.
Proof. unfold h_query. by destruct (q t). Qed.
Lemma check_same r t : (h_check r t).2 = t.
Proof. by destruct r as [[]|]. Qed.
Lemma result_same {A} code (r : result A) t : (h_result code r t).2 = t.
Proof. by destruct r. Qed.
Lemma requested_same raw fb ex t : (requested_id raw fb ex t).2 = t.
Proof. unfold requested_id. by destruct (resolveRequestedShareID _ _ _ _) as [[]|]. Qed.

Lemma view_keeps now id i t t' : TouchShareView now id t = inr t' → keeps_row i t t'.
Proof. by apply Update_keeps_row. Qed.
Lemma download_keeps now id i t t' : TouchShareDownload now id t = inr t' → keeps_row i t t'.
Proof. by apply Update_keeps_row. Qed.
Lemma disable_keeps now u id i t t' : DisableShareByShareID now u id t = inr t' → keeps_row i t t'.
Proof. by apply Update_keeps_row. Qed.

Ltac keep_rows :=
  repeat first
    [ apply h_keeps_bind; [|intros ?]
    | apply h_keeps_ignore; intros ???; first [apply view_keeps|apply download_keeps]
    | apply h_keeps_write; intros ???; apply disable_keeps
    | apply h_keeps_pure; intros; first [apply query_same|apply check_same|apply result_same|apply requested_same|done]
    | case_match ].

(** A saved row is another one. *)
Lemma Save_keeps_row s t t' i r :
  sh_Save s t = inr t' → is_Some (sh_rows t !! sh_ID s) → sh_rows t !! i = Some r → i ≠ sh_ID s → sh_rows t' !! i = Some r.
Proof. intros Hs Hi Hr Hne. rewrite (sh_Save_spec _ _ _ Hs Hi), lookup_insert_ne; [done|]. by intros <-. Qed.

Lemma protect_ID pw s : sh_ID (protect pw s) = sh_ID s.
Proof. unfold protect. by repeat case_match. Qed.
Lemma close_reached_ID now n s : sh_ID (close_reached now n s) = sh_ID s.
Proof. unfold close_reached. by repeat case_match. Qed.

Lemma update_other c u req t i s :
  sh_rows t !! i = Some s → us_ShareID req ≠ ShareID s → sh_rows (UpdateShare c u req t).2 !! i = Some s.
Proof.
  intros Hs Hne. unfold UpdateShare. case_bool_decide; [done|]. unfold h_bind at 1, h_query.
  destruct (GetShareByCreatorAndShareID _ _ t) as [e|sh] eqn:Eg; [done|].
  unfold GetShareByCreatorAndShareID in Eg. apply sh_Take_some in Eg as [Hrow Hp].
  unfold is_share_of, has_share_id in Hp. apply andb_true_iff in Hp as [_ Hp]. apply bool_decide_eq_true in Hp.
  assert (Hi : i ≠ sh_ID sh) by (intros ->; congruence).
  assert (Hpure : ∀ A B (m : Hd A) (k : A → Hd B), (m t).2 = t →
    (∀ a, sh_rows (k a t).2 !! i = Some s) → sh_rows (h_bind m k t).2 !! i = Some s).
  { intros A B m k Hm Hk. unfold h_bind. destruct (m t) as [[code e|a|] t1]; simpl in *; subst t1; auto. }
  apply Hpure; [apply requested_same|]. intros newID. apply Hpure; [case_match; [apply result_same|done]|].
  intros [limit burn]. apply Hpure; [case_match; [apply result_same|done]|]. intros ex. cbv zeta.
  set (new := close_reached _ _ _). assert (En : sh_ID new = sh_ID sh).
  { unfold new. by rewrite close_reached_ID, protect_ID. }
  unfold h_bind, h_write, db_UpdateShare. destruct (sh_Save _ t) as [e|t'] eqn:Es; [done|]. simpl.
  eapply Save_keeps_row; [exact Es|simpl; rewrite En; by eexists|done|simpl; by rewrite En].
Qed.

Lemma delete_other u id t i s :
  sh_rows t !! i = Some s → id ≠ ShareID s → sh_rows (DeleteShare u id t).2 !! i = Some s.
Proof.
  intros Hs Hne. unfold DeleteShare. case_bool_decide; [done|]. unfold h_write, DeleteShareByShareID.
  destruct (sh_Delete _ t) as [e|t'] eqn:E; [done|]. simpl. rewrite (sh_Delete_spec _ _ _ E).
  apply map_lookup_filter_Some. split; [done|]. unfold is_share_of, has_share_id. simpl.
  rewrite bool_decide_false by congruence. apply andb_false_r.
Qed.

Lemma other_keeps o i t s : sh_rows t !! i = Some s → spares (ShareID s) o →
  ∃ s', sh_rows (run_other o t) !! i = Some s' ∧ same_row s s'.
Proof.
  intros Hs Hsp. assert (Hk : match o with OtherUpdate _ _ _ | OtherDelete _ _ => True | _ => keeps_row i t (run_other o t) end);
    [|destruct o; try (by apply Hk); exists s; (split; [|done]); [by apply update_other|by apply delete_other]].
  clear s Hs Hsp. destruct o; cbn [run_other]; try done; revert i t.
  - change (h_keeps (AuthPublicShare c id pw)). unfold AuthPublicShare. keep_rows.
  - change (h_keeps (GetPublicShareInfo c id)). unfold GetPublicShareInfo. keep_rows.
  - change (h_keeps (ListPublicShare c id path token page perPage)).
    unfold ListPublicShare, open_share. keep_rows.
  - change (h_keeps (CreateShare c u req)). unfold CreateShare. keep_rows.
    intros i t. unfold h_exec, db_CreateShare. destruct (sh_Create _ t) as [|[t' s']] eqn:E; [apply keeps_row_refl|].
    by eapply Create_keeps_row.
  - change (h_keeps (DisableShare c u id)). unfold DisableShare. keep_rows.
Qed.

(** *** Recording an access *)

Lemma accessed_fields now s :
  sh_ID (accessed now s) = sh_ID s ∧ AccessCount (accessed now s) = wrap64 (AccessCount s + 1) ∧
  EffectiveAccessLimit (accessed now s) = EffectiveAccessLimit s.
Proof. unfold accessed. by destruct (_ && _). Qed.

Lemma write_access_fields now u s :
  sh_ID (write_access now u s) = sh_ID s ∧ ShareID (write_access now u s) = ShareID s ∧
  AccessCount (write_access now u s) = AccessCount u ∧
  EffectiveAccessLimit (write_access now u s) = EffectiveAccessLimit s.
Proof. unfold write_access. by destruct (_ && _). Qed.

(** The row after an access of the share [id]. *)
Definition counted (id : gostr) (s s' : Share) : Prop :=
  ShareID s' = ShareID s ∧ EffectiveAccessLimit s' = EffectiveAccessLimit s ∧
  AccessCount s' = if decide (ShareID s = id) then wrap64 (AccessCount s + 1) else AccessCount s.

Lemma record_row now id t t' u i s :
  RecordShareAccess now id t = inr (t', u) → sh_rows t !! i = Some s →
  ∃ s', sh_rows t' !! i = Some s' ∧ counted id s s'.
Proof.
  unfold RecordShareAccess. intros H Hs. destruct (sh_Take _ t) as [|s1] eqn:Et; [done|].
  apply sh_Take_some in Et as [H1 Hid]. unfold has_share_id in Hid. reflect_bools.
  destruct (accessed_fields now s1) as (Ei&Ec&_).
  destruct (sh_Update _ _ t) as [|t2] eqn:Eu; [done|]. injection H as <- _.
  apply sh_Update_spec in Eu; [|intros r; apply write_access_fields].
  rewrite Eu, lookup_fmap, Hs. eexists. split; [done|]. rewrite Ei, (sh_keyed _ _ _ Hs).
  destruct (decide (ShareID s = id)) as [Hq|Hq].
  - assert (i = sh_ID s1) as -> by (eapply sh_unique; [done|done|congruence]). rewrite Z.eqb_refl.
    assert (s1 = s) as -> by congruence. destruct (write_access_fields now (accessed now s) s) as (_&E1&E2&E3).
    unfold counted. rewrite decide_True by done. split_ands; [done|done|]. by rewrite E2.
  - assert (i =? sh_ID s1 = false) as ->; [|unfold counted; by rewrite decide_False].
    apply Z.eqb_neq. intros ->. congruence.
Qed.

Lemma fetch_record_row f c sc t r t' i s :
  fetch_record f c sc t = (r, t') → sh_rows t !! i = Some s →
  ∃ s', sh_rows t' !! i = Some s' ∧
    if tracked (f, c, sc) && match r with Answer _ => true | _ => false end then counted (ShareID sc) s s' else same_row s s'.
Proof.
  unfold fetch_record, tracked. cbn. destruct (shouldTrackShareContentAccess c); cbn.
  2: { intros [= <- <-] Hs. by exists s. }
  intros H Hs.
  assert (h_keeps (match f with FetchDown => h_ignore (TouchShareDownload (c_clock c 2) (ShareID sc)) | FetchProxy => h_ret () end))
    as Hk by keep_rows.
  unfold h_bind at 1 in H. specialize (Hk i t s Hs).
  assert (∃ u t1, (match f with FetchDown => h_ignore (TouchShareDownload (c_clock c 2) (ShareID sc)) | FetchProxy => h_ret () end) t
    = (Answer u, t1)) as (u&t1&E).
  { destruct f; [|by eexists _, _]. unfold h_ignore. destruct (TouchShareDownload _ _ t); by eexists _, _. }
  rewrite E in H, Hk. destruct Hk as (s1&Hs1&Hi1&Hl1&Hc1). cbn in Hs1.
  unfold recordShareAccess, h_bind, h_exec in H.
  destruct (RecordShareAccess _ _ t1) as [e|[t2 w]] eqn:Er; injection H as <- <-.
  - exists s1. by split.
  - destruct (record_row _ _ _ _ _ _ _ Er Hs1) as (s2&Hs2&Hi2&Hl2&Hc2). exists s2. split; [done|].
    unfold counted. rewrite Hc2, Hl2, Hi2, Hc1, Hi1, Hl1. by split_ands.
Qed.

(** *** The invariant *)

Definition accesses (i : Z) (l : list (fetch * share_ctx * Share)) : nat :=
  length (filter (λ v, tracked v = true ∧ row_of v = i) l).
Definition times_served (i : Z) (d : list Z) : nat := length (filter (λ j, j = i) d).

Record limit_inv (k : nat) (i : Z) (s0 : Share) (sy : share_sys) : Prop := {
  li_row : ∃ s, sh_rows (sy_table sy) !! i = Some s ∧ ShareID s = ShareID s0 ∧
    EffectiveAccessLimit s = EffectiveAccessLimit s0 ∧
    AccessCount s = AccessCount s0 + Z.of_nat (times_served i (served sy));
  li_copies : ∀ v, v ∈ inflight sy → row_of v = i ↔ ShareID v.2 = ShareID s0;
  li_length : (length (inflight sy) ≤ k)%nat;
  li_bound : AccessCount s0 + Z.of_nat (times_served i (served sy)) + Z.of_nat (accesses i (inflight sy))
    ≤ EffectiveAccessLimit s0 - 1 + Z.of_nat k;
}.

Lemma accesses_middle i l1 v l2 :
  accesses i (l1 ++ v :: l2) = (accesses i (l1 ++ l2) + if decide (tracked v = true ∧ row_of v = i) then 1 else 0)%nat.
Proof.
  unfold accesses. rewrite !filter_app, filter_cons, !length_app. destruct (decide _); cbn; lia.
Qed.

Lemma accesses_length i l : (accesses i l ≤ length l)%nat.
Proof. unfold accesses. apply length_filter. Qed.

Lemma check_inv k i s0 f c id path s target t t' l d :
  0 < EffectiveAccessLimit s0 → (length l < k)%nat →
  fetch_check f c id path t = (Answer (s, target), t') →
  limit_inv k i s0 {| sy_table := t; inflight := l; served := d |} →
  limit_inv k i s0 {| sy_table := t'; inflight := (f, c, s) :: l; served := d |}.
Proof.
  intros Hpos Hl Hc [(r&Hr&Hi&Hlim&Hcnt) Hcp Hlen Hb]. cbn [sy_table inflight served] in *.
  apply fetch_check_Answer in Hc as (->&Hg&(_&Hcons&_)&_). apply found_row in Hg as [Hs Hid].
  assert (sh_ID s = i ↔ ShareID s = ShareID s0) as Hrow.
  { split; [intros E; congruence|]. intros E. eapply sh_unique; [done|done|congruence]. }
  split; cbn [sy_table inflight served].
  - eauto 10.
  - intros v [->|Hv]%elem_of_cons; [done|by apply Hcp].
  - cbn [length]. lia.
  - change ((f, c, s) :: l) with ([] ++ (f, c, s) :: l). rewrite accesses_middle. cbn [app].
    pose proof (accesses_length i l). destruct (decide _) as [[_ Hri]|]; [|lia].
    unfold row_of in Hri. cbn in Hri. assert (r = s) as -> by congruence. unfold IsConsumed in Hcons. reflect_bools.
    rewrite Hlim in *. destruct (andb_false_elim _ _ H1) as [?|?]; reflect_bools; lia.
Qed.

Lemma record_inv k i s0 f c s r t t' l1 l2 d :
  EffectiveAccessLimit s0 + Z.of_nat k ≤ max_int64 → 0 ≤ AccessCount s0 →
  fetch_record f c s t = (r, t') → r ≠ Crashed →
  limit_inv k i s0 {| sy_table := t; inflight := l1 ++ (f, c, s) :: l2; served := d |} →
  limit_inv k i s0 {| sy_table := t'; inflight := l1 ++ l2;
    served := if tracked (f, c, s) && match r with Answer _ => true | _ => false end then sh_ID s :: d else d |}.
Proof.
  intros Hmax H0 Hrec Hcr [(w&Hw&Hi&Hlim&Hcnt) Hcp Hlen Hb]. cbn [sy_table inflight served] in *.
  destruct (fetch_record_row _ _ _ _ _ _ _ _ Hrec Hw) as (w'&Hw'&Hch).
  rewrite accesses_middle in Hb. rewrite length_app in Hlen. cbn in Hlen.
  assert (sh_ID s = i ↔ ShareID s = ShareID s0) as Hrow by (apply (Hcp (f, c, s)); set_solver).
  assert (∀ v, v ∈ l1 ++ l2 → row_of v = i ↔ ShareID v.2 = ShareID s0) as Hcp' by (intros v Hv; apply Hcp; set_solver).
  assert (length (l1 ++ l2) ≤ k)%nat by (rewrite length_app; lia).
  set (b := tracked (f, c, s) && _) in *. destruct b eqn:Eb.
  2: { destruct Hch as (E1&E2&E3). split; cbn [sy_table inflight served]; [exists w'; split_ands; try congruence; lia|done|done|].
       destruct (decide _); lia. }
  destruct Hch as (E1&E2&E3). apply andb_true_iff in Eb as [Htr _].
  assert (times_served i (sh_ID s :: d) = (times_served i d + if decide (sh_ID s = i) then 1 else 0)%nat) as Ets.
  { unfold times_served. destruct (decide (sh_ID s = i));
      [rewrite filter_cons_True by done|rewrite filter_cons_False by done]; cbn; lia. }
  destruct (decide (sh_ID s = i)) as [Hsi|Hsi].
  - rewrite decide_True in Hb by done. rewrite decide_True in E3 by (rewrite Hi; symmetry; by apply Hrow).
    rewrite wrap64_id in E3 by (unfold_int64; lia).
    split; cbn [sy_table inflight served]; [exists w'; split_ands; try congruence; lia|done|done|lia].
  - rewrite decide_False in Hb by (intros [_ ?]; done).
    rewrite decide_False in E3 by (rewrite Hi; intros E; apply Hsi, Hrow; congruence).
    split; cbn [sy_table inflight served]; [exists w'; split_ands; try congruence; lia|done|done|lia].
Qed.

Lemma other_inv k i s0 o t l d :
  spares (ShareID s0) o → limit_inv k i s0 {| sy_table := t; inflight := l; served := d |} →
  limit_inv k i s0 {| sy_table := run_other o t; inflight := l; served := d |}.
Proof.
  intros Hsp [(w&Hw&Hi&Hlim&Hcnt) Hcp Hlen Hb]. cbn [sy_table] in Hw. rewrite <- Hi in Hsp.
  destruct (other_keeps o i t w Hw Hsp) as (w'&Hw'&E1&E2&E3).
  split; cbn in *; [|done|done|done]. exists w'. split_ands; congruence.
Qed.

Lemma share_step_inv k i s0 sy sy' :
  0 < EffectiveAccessLimit s0 → EffectiveAccessLimit s0 + Z.of_nat k ≤ max_int64 → 0 ≤ AccessCount s0 →
  limit_inv k i s0 sy → share_step k (ShareID s0) sy sy' → limit_inv k i s0 sy'.
Proof.
  intros Hpos Hmax H0 Hinv Hst. destruct Hst as [f c id path s target t t' l d Hl Hc|f c s u t t' l1 l2 d Hr|
    f c s code e t t' l1 l2 d Hr|o t l d Hsp].
  - by eapply check_inv.
  - apply (record_inv _ _ _ _ _ _ _ _ _ _ _ _ Hmax H0 Hr) in Hinv; [|done]. by rewrite andb_true_r in Hinv.
  - apply (record_inv _ _ _ _ _ _ _ _ _ _ _ _ Hmax H0 Hr) in Hinv; [|done]. by rewrite andb_false_r in Hinv.
  - by apply other_inv.
Qed.
End limit.

(** C32. A share whose content may be fetched [L] times is fetched, by requests
    other than HEAD, at most [L + k - 1] times when at most [k] requests
    overlap, so at most [L] times when they come one after the other; the row
    counts every one of them.  Visitors may fetch, list and authenticate in any
    interleaving, shares may be created and disabled, and others than this one
    edited and deleted meanwhile.  Two things are not counted: the owner's edits
    of this very share, which may raise the limit and restore a share that was
    used up, and HEAD requests, which are answered like GET requests and never
    recorded ([share_guards_bypassed]). *)
Theorem share_access_limit {ST : ShareTable} {SLaw : ShareLaws} {SE : ShareEnv} {RS : RoleStore}
    (k : nat) (i : Z) (s0 : Share) (t0 : shtable) (sy : share_sys) :
  sh_rows t0 !! i = Some s0 → 0 ≤ AccessCount s0 < EffectiveAccessLimit s0 →
  EffectiveAccessLimit s0 + Z.of_nat k ≤ max_int64 → (1 ≤ k)%nat →
  rtc (share_step k (ShareID s0)) {| sy_table := t0; inflight := []; served := [] |} sy →
  AccessCount s0 + Z.of_nat (times_served i (served sy)) ≤ EffectiveAccessLimit s0 + (Z.of_nat k - 1) ∧
  ∃ s, sh_rows (sy_table sy) !! i = Some s ∧ AccessCount s = AccessCount s0 + Z.of_nat (times_served i (served sy)).
Proof.
  intros Hs Hc Hmax Hk Hr.
  assert (limit_inv k i s0 sy) as [(s&H1&_&_&H2) _ _ Hb].
  { remember {| sy_table := t0; inflight := []; served := [] |} as st eqn:Est.
    assert (limit_inv k i s0 st) as Hst.
    { subst st. split; cbn [sy_table inflight served]; [exists s0; split_ands; [done|done|done|cbn; lia]|set_solver|cbn; lia|cbn; lia]. }
    clear Est. induction Hr as [|x y z Hxy _ IH]; [done|]. apply IH. eapply share_step_inv; eauto; lia. }
  split; [lia|]. eauto.
Qed.

(** ** Links *)

(** The path parameter of the route [/sd/:share_id/*path] for the link to [p]:
    the server decodes the path of the URL before it matches the route. *)
Definition link_param (p : gostr) : gostr :=
  if bool_decide (FixAndCleanPath p = #"/") then [] else default [] (PathUnescape (EncodePath (FixAndCleanPath p) [true])).

Lemma link_param_spec p : link_param p = if bool_decide (FixAndCleanPath p = #"/") then [] else FixAndCleanPath p.
Proof.
  unfold link_param, EncodePath. case_bool_decide; [done|]. cbn match.
  rewrite (PathUnescape_join PathEscape id); [|intros w s _; apply PathUnescape_escape].
  by rewrite map_id, Join_Split.
Qed.

Lemma resolve_same s p q : FixAndCleanPath p = FixAndCleanPath q → resolveShareTarget s p = resolveShareTarget s q.
Proof. unfold resolveShareTarget. by intros ->. Qed.

(** The link to an object of a share is resolved to that object when its
    path has no percent sign.  The handler unescapes a parameter that the
    router has unescaped already, so the link to an object with a percent
    sign in its name is refused or leads to another object. *)
Theorem share_link_roundtrip s p :
  (("%"%char ∉ p) → resolveShareWildcardTarget s (link_param p) = resolveShareTarget s p) ∧
  (∃ e, resolveShareWildcardTarget s (link_param #"/100%.txt") = inl e) ∧
  resolveShareWildcardTarget s (link_param #"/a%20b") = resolveShareTarget s #"/a b".
Proof.
  split_ands; [|by eexists|].
  - intros Hp. rewrite link_param_spec. unfold resolveShareWildcardTarget. case_bool_decide as Hr.
    + cbn [PathUnescape]. apply resolve_same. by rewrite Hr.
    + rewrite PathUnescape_plain by (apply Fix_no_elem; [done|done|done]). apply resolve_same.
      rewrite !FixAndCleanPath_segs. f_equal. rewrite <- FixAndCleanPath_segs. apply path_segs_trim.
  - rewrite link_param_spec. unfold resolveShareWildcardTarget. by apply resolve_same.
Qed.

(** ** A table in a finite map *)

Module ShareMaps.
Definition shares_ok (m : gmap Z Share) : Prop :=
  map_Forall (λ i s, sh_ID s = i) m ∧
  map_Forall (λ i s, map_Forall (λ j s', ShareID s = ShareID s' → i = j) m) m.

#[export] Instance shares_ok_dec m : Decision (shares_ok m).
Proof. unfold shares_ok. apply _. Defined.

Definition stored (m : gmap Z Share) : result { m : gmap Z Share | shares_ok m } :=
  match decide (shares_ok m) with left p => inr (m ↾ p) | right _ => inl (EMessage #"UNIQUE constraint failed") end.

Definition matching (p : Share → bool) (m : gmap Z Share) : gmap Z Share := filter (λ ks, p ks.2 = true) m.

#[export] Instance map_shares : ShareTable := {|
  shtable := { m : gmap Z Share | shares_ok m };
  sh_rows t := `t;
  sh_Take p t := find_row p (`t);
  sh_Count p t := inr (Z.of_nat (size (matching p (`t))));
  sh_Create s t :=
    let s := set_sh_ID (fresh_id (`t)) s in
    let! t := stored (<[sh_ID s := s]> (`t)) in inr (t, s);
  sh_Save s t := stored (<[sh_ID s := s]> (`t));
  sh_Update p f t := stored ((λ s, if p s then f s else s) <$> `t);
  sh_Delete p t := stored (filter (λ ks, p ks.2 = false) (`t));
|}.

Lemma share_stored_ok m t : stored m = inr t → `t = m.
Proof. unfold stored. destruct (decide _); [|done]. by intros [= <-]. Qed.

#[export] Instance map_share_laws : ShareLaws.
Proof.
  split; simpl.
  - intros [m [H1 H2]] i s. apply H1.
  - intros [m [H1 H2]] i j s1 s2 E1 E2. apply (H2 i s1 E1 j s2 E2).
  - intros p [m [H1 H2]] s E. pose proof (find_row_ok p m) as H. simpl in *. rewrite E in H.
    destruct H as (Hp&i&Hi). by rewrite (H1 i s Hi).
  - intros p [m Hm] e E _. pose proof (find_row_ok p m) as H. simpl in *. by rewrite E in H.
  - intros p t n [= <-]. done.
  - intros s t t' s'. destruct (stored _) as [|t1] eqn:E; [done|]. intros [= <- <-]. apply share_stored_ok in E.
    exists (fresh_id (`t)). split_ands; [done| |done]. apply eq_None_not_Some. intros [r H%fresh_id_ge]. lia.
  - intros s t t' E%share_stored_ok _. done.
  - intros p f t t' _ E%share_stored_ok. done.
  - intros p t t' E%share_stored_ok. done.
Qed.

Definition no_shares : shtable.
Proof. refine (∅ ↾ _). split; apply map_Forall_empty. Defined.
End ShareMaps.

(** ** Example: a server with two files *)

Module ShareExample.
Import ShareMaps.

Definition file (name : gostr) (dir : bool) : Obj :=
  Raw {| o_ID := #""; o_Path := #""; o_Name := name; o_Size := 5; o_Modified := 0; o_IsFolder := dir |}.
Definition second : Z := 1000000000.

#[export] Instance env : ShareEnv := {|
  time_Parse _ _ := None;
  time_ParseLocal _ _ := None;
  fs_get p :=
    if bool_decide (p = #"/secret/f") || bool_decide (p = #"/pub/a") then inr (file (path_Base p) false)
    else if bool_decide (p = #"/secret") || bool_decide (p = #"/pub") then inr (file (path_Base p) true)
    else inl (ESentinel ObjectNotFound);
  fs_list p := if bool_decide (p = #"/pub") then inr [file #"a" false] else inr [file #"f" false];
  can_proxy _ _ := false;
  token_setting := #"server-token";
  random_id k := #"id" ++ FormatInt (Z.of_nat k);
  random_salt := #"salt";
|}.

(** One role with the scope [/] and no permission bit. *)
#[export] Instance roles : RoleStore := λ _,
  inr {| role_ID := 1; role_Name := #"reader"; role_Description := #""; role_Default := false;
         PermissionScopes := [{| pe_Path := #"/"; pe_Permission := 0 |}] |}.

Definition alice : User :=
  {| user_ID := 7; Username := #"alice"; PwdHash := #""; PwdTS := 0; Salt := #""; Password := #""; BasePath := #"/";
     user_Role := [1]; Disabled := false; Permission := 0; OtpSecret := #""; SsoID := #""; Authn := #"" |}.

(** The directory [/secret] asks for a password. *)
Definition guarded : Meta :=
  {| meta_ID := 1; meta_Path := #"/secret"; meta_Password := #"pw"; PSub := true; meta_Write := false; WSub := false;
     Hide := #""; HSub := false; Readme := #""; RSub := false; Header := #""; HeaderSub := false |}.

Definition ctx (now : Z) (method auth : gostr) : share_ctx :=
  {| c_auth := auth; c_header := #""; c_Method := method; c_ApiUrl := #"http://h"; c_clock _ := now * second |}.

Definition share_req (path password : gostr) (limit : Z) (download : option bool) : CreateShareReq :=
  {| cs_Path := path; cs_ShareID := #"s"; cs_Name := #""; cs_Password := password; cs_ExpireAt := #"";
     cs_ExpireHours := 0; cs_AccessLimit := limit; cs_BurnAfterRead := None; cs_AllowPreview := None;
     cs_AllowDownload := download |}.

Definition created (path password : gostr) (limit : Z) (download : option bool) : shtable :=
  (CreateShare (ctx 100 #"POST" #"") alice (share_req path password limit download) no_shares).2.

(** What a visitor is given: the path, or the status. *)
Definition outcome_of {A} (r : reply A * shtable) : Z + A :=
  match r.1 with Answer a => inr a | Refuse code _ => inl code | Crashed => inl 500 end.
Definition down (now : Z) (method auth : gostr) (t : shtable) : reply gostr * shtable :=
  ShareDown (ctx now method auth) #"s" #"" t.
End ShareExample.
Import ShareMaps ShareExample.

Lemma answered {A} (r : reply A * shtable) a : r.1 = Answer a → r = (Answer a, r.2).
Proof. destruct r. by intros [= ->]. Qed.

(** Six ways around a share's guards: a share that is created without the
    right to download has it; one that is made of a file behind a password the
    owner does not have shows the file; two requests that overlap both get the
    content of a share that may be read once; a HEAD request is answered as a
    GET request is and is not counted; an edit of the owner that overlaps an
    access makes a consumed share available again; and a fetch changes the
    row, so that the visitor's token is refused for the next one. *)
Theorem share_guards_bypassed `{!RegexpLib} :
  outcome_of (down 200 #"GET" #"" (created #"/pub/a" #"" 0 (Some false))) = inr #"/pub/a" ∧
  (CanAccessWithRoles (Some alice) (Some guarded) #"/secret/f" #"" = Ret false ∧
   outcome_of (down 200 #"GET" #"" (created #"/secret/f" #"" 0 None)) = inr #"/secret/f") ∧
  (let t := created #"/pub/a" #"" 1 None in
   let check := fetch_check FetchDown (ctx 200 #"GET" #"") #"s" #"" in
   let record s := fetch_record FetchDown (ctx 201 #"GET" #"") s in
   match check t, check t with
   | (Answer (s1, p1), _), (Answer (s2, p2), _) =>
       p1 = #"/pub/a" ∧ p2 = #"/pub/a" ∧ (record s1 t).1 = Answer () ∧ (record s2 (record s1 t).2).1 = Answer ()
   | _, _ => False
   end) ∧
  (let t := created #"/pub/a" #"" 1 None in
   outcome_of (down 200 #"HEAD" #"" t) = inr #"/pub/a" ∧ AccessCount <$> sh_rows (down 200 #"HEAD" #"" t).2 !! 1 = Some 0) ∧
  (let t := created #"/pub/a" #"" 1 None in
   match GetShareByShareID #"s" t, RecordShareAccess (200 * second) #"s" t with
   | inr row, inr (t1, _) =>
       match db_UpdateShare (201 * second) row t1 with
       | inr t2 => outcome_of (down 202 #"GET" #"" t1) = inl 410 ∧ outcome_of (down 202 #"GET" #"" t2) = inr #"/pub/a"
       | inl _ => False
       end
   | _, _ => False
   end) ∧
  (let t := created #"/pub/a" #"pw" 0 None in
   match AuthPublicShare (ctx 150 #"POST" #"") #"s" #"pw" t with
   | (Answer tok, t1) =>
       outcome_of (down 200 #"GET" tok t1) = inr #"/pub/a" ∧
       outcome_of (down 201 #"GET" tok (down 200 #"GET" tok t1).2) = inl 401
   | _ => False
   end).
Proof. split_ands; vm_compute; split_ands; reflexivity. Qed.

Lemma share_content_authorised_witness :
  ∃ s, ShareID s = #"s" ∧ AllowDownload s = true ∧ IsSubPath (RootPath s) #"/pub/a" = true.
Proof.
  set (t := created #"/pub" #"" 0 None). set (c := ctx 200 #"GET" #"").
  destruct (share_content_authorised c #"s" #"/a" t (ShareDown c #"s" #"/a" t).2) as (Hf&_).
  destruct (Hf FetchDown #"/pub/a") as (s&obj&_&Hid&_&Hd&Hc&_).
  - apply answered. vm_compute. reflexivity.
  - by exists s.
Defined.

Definition demo_auth : reply gostr * shtable :=
  AuthPublicShare (ctx 150 #"POST" #"") #"s" #"pw" (created #"/pub/a" #"pw" 0 None).
Definition demo_token : gostr := match demo_auth.1 with Answer tok => tok | _ => [] end.
Definition demo_share : Share :=
  match GetShareByShareID #"s" (created #"/pub/a" #"pw" 0 None) with
  | inr s => s
  | inl _ => new_share #"" alice #"" #"" false false 0 true true None
  end.

(** Two overlapping requests to a share that may be read once. *)
Definition once : shtable := created #"/pub/a" #"" 1 None.
Definition once_share : Share :=
  match GetShareByShareID #"s" once with inr s => s | inl _ => demo_share end.
Definition get_ctx : share_ctx := ctx 200 #"GET" #"".
Definition after_one : shtable := (fetch_record FetchDown get_ctx once_share once).2.
Definition after_two : shtable := (fetch_record FetchDown get_ctx once_share after_one).2.

Lemma overlapping_visits :
  rtc (share_step 2 (ShareID once_share)) {| sy_table := once; inflight := []; served := [] |}
    {| sy_table := after_two; inflight := []; served := [1; 1] |}.
Proof.
  assert (fetch_check FetchDown get_ctx #"s" #"" once = (Answer (once_share, #"/pub/a"), once)) as Hc.
  { rewrite (answered (fetch_check FetchDown get_ctx #"s" #"" once) (once_share, #"/pub/a")); [|by vm_compute].
    reflexivity. }
  eapply rtc_l; [apply (visit_check 2 _ FetchDown get_ctx #"s" #"" once_share #"/pub/a"); [cbn; lia|exact Hc]|].
  eapply rtc_l; [apply (visit_check 2 _ FetchDown get_ctx #"s" #"" once_share #"/pub/a"); [cbn; lia|exact Hc]|].
  eapply rtc_l; [apply (visit_served 2 _ FetchDown get_ctx once_share () once after_one []);
    apply (answered (fetch_record FetchDown get_ctx once_share once)); by vm_compute|].
  eapply rtc_l; [apply (visit_served 2 _ FetchDown get_ctx once_share () after_one after_two []);
    apply (answered (fetch_record FetchDown get_ctx once_share after_one)); by vm_compute|].
  apply rtc_refl.
Qed.

Lemma share_access_limit_witness :
  AccessCount once_share + Z.of_nat (times_served 1 [1; 1]) ≤ EffectiveAccessLimit once_share + 1.
Proof.
  apply (share_access_limit 2 1 once_share once {| sy_table := after_two; inflight := []; served := [1; 1] |}).
  - vm_compute. reflexivity.
  - vm_compute. split; [discriminate|reflexivity].
  - vm_compute. discriminate.
  - lia.
  - exact overlapping_visits.
Defined.
