(* ===== verification/FsHandlers.v ===== *)
(** * The file API: [server/handles/fsread.go], [fsmanage.go], [fsbatch.go],
      [fsup.go] and [server/middlewares/fsup.go]

    The handlers that list, read and change files for a user who is logged
    in.  A handler is a program over the calls of package [fs] and of the few
    functions of other packages that answer from state ([fs_action]); it ends
    with a body or with an error and its code ([reject]).  Roles and metas are
    the interfaces of [Perm]. *)

From S2P Require Import Prelude GoStrings Errs Store Paths HttpRange Crypto Users Perm Prog Sign Shares ShareHandlers.

Local Open Scope Z_scope.

(** ** Objects and storages as the handlers see them *)

(** [f_addr] is the identity of the object, which the maps of the batch
    operations are keyed by. *)
Record FObj := {
  f_addr : nat;
  f_ID : gostr;
  f_Path : gostr;
  f_Name : gostr;
  f_Size : Z;
  f_IsDir : bool;
  f_Modified : Z;
  f_Created : Z;
  f_Hash : gostr;
  f_Thumb : gostr;
  f_StorageClass : gostr;
  f_URL : option gostr;
}.

Record StorageInfo := {
  si_Driver : gostr;
  si_Name : gostr;
  si_OnlyLocal : bool;
  si_OnlyProxy : bool;
  si_NoUpload : bool;
  si_WebProxy : bool;
  si_DownProxyUrl : gostr;
  si_DownProxySign : bool;
  si_EnableSign : bool;
}.

Definition MustProxy (s : StorageInfo) : bool := si_OnlyProxy s || si_OnlyLocal s.

Record FileStream := {
  fst_Name : gostr;
  fst_Size : Z;
  fst_Modified : Z;
  fst_Hashes : list (gostr * gostr);
  fst_Mimetype : gostr;
  fst_AsTask : bool;
}.

(** ** Calls *)

(** A listing depends on the meta the handler has put into the context. *)
Inductive fs_action :=
  | CList (path : gostr) (refresh : bool) (meta : option Meta)
  | CGet (path : gostr)
  | CLink (path : gostr)
  | CMakeDir (path : gostr)
  | CMove (src dstDir : gostr) (lazyCache : bool)
  | CCopy (src dstDir : gostr) (lazyCache skipExisting : bool)
  | CRename (src name : gostr)
  | CRemove (path : gostr)
  | CPutDirectly (dir : gostr) (file : FileStream)
  | CPutAsTask (dir : gostr) (file : FileStream)
  | COther (path method : gostr)
  | CGetStorage (path : gostr)
  | CGetBalancedStorage (path : gostr)
  | CLabels (names : list gostr)
  | CSign (path : gostr).

Definition fs_answer (c : fs_action) : Type :=
  match c with
  | CList _ _ _ => result (list FObj)
  | CGet _ => result FObj
  | CLink _ => result gostr
  | CMakeDir _ | CMove _ _ _ | CRename _ _ | CRemove _ | CPutDirectly _ _ => result unit
  | CCopy _ _ _ _ => option gostr * option error
  | CPutAsTask _ _ => result gostr
  | COther _ _ => result gostr
  | CGetStorage _ => result StorageInfo
  | CGetBalancedStorage _ => option StorageInfo
  | CLabels _ => gmap gostr (list gostr)
  | CSign _ => gostr
  end.

Abbreviation fs_prog := (prog fs_answer).
Abbreviation fs_event := (event fs_answer).

(** ** Handlers *)

Inductive cause := CauseErr (e : error) | CauseStr (s : gostr).
Record reject := { rj_code : Z; rj_cause : cause }.

Definition handler (A : Type) := fs_prog (reject + A).

Definition h_ok {A} (a : A) : handler A := PRet (inr a).
Definition ErrorResp {A} (e : error) (code : Z) : handler A := PRet (inl {| rj_code := code; rj_cause := CauseErr e |}).
Definition ErrorStrResp {A} (s : gostr) (code : Z) : handler A := PRet (inl {| rj_code := code; rj_cause := CauseStr s |}).
Definition and_then {A B} (m : handler A) (k : A → handler B) : handler B :=
  prog_bind m (λ r, match r with inl e => PRet (inl e) | inr a => k a end).

Notation "'let@' x ':=' m 'in' k" := (and_then m (λ x, k))
  (at level 10, x pattern, m at level 100, k at level 200,
   format "'[v' 'let@'  x  ':='  m  'in' '//' k ']'") : go_scope.

Definition h_result {A} (code : Z) (r : result A) : handler A :=
  match r with inl e => ErrorResp e code | inr a => h_ok a end.
Definition h_error (code : Z) (e : option error) : handler unit :=
  match e with Some e => ErrorResp e code | None => h_ok () end.
Definition h_check {A} (code : Z) (e : error) (b : bool) (k : handler A) : handler A :=
  if b then k else ErrorResp e code.
Definition h_call (c : fs_action) : handler (fs_answer c) := PCall c (λ r, PRet (inr r)).
Definition h_do {A} (code : Z) (m : handler (result A)) : handler A := let@ r := m in h_result code r.
Definition h_outcome {A} (o : outcome A) : handler A := match o with Ret a => h_ok a | Panic => PPanic end.

Fixpoint h_each {A} (f : A → handler unit) (l : list A) : handler unit :=
  match l with [] => h_ok () | x :: l' => let@ _ := f x in h_each f l' end.

(** [range] with an index: is there another one after this? *)
Fixpoint h_each_more {A} (f : A → bool → handler unit) (l : list A) : handler unit :=
  match l with
  | [] => h_ok ()
  | x :: l' => let@ _ := f x (match l' with [] => false | _ => true end) in h_each_more f l'
  end.

(** What the handlers read of settings, of the request and of the libraries. *)
Class HandlerEnv := {
  SignAll : bool;
  ApiUrl : gostr;
  Now : Z;
  GetFileType : gostr → Z;
  GetMimeType : gostr → gostr;
  regexp_Compile : gostr → option ((gostr → bool) * (gostr → gostr → gostr));
}.

Definition FOLDER : Z := 1.
Definition VIDEO : Z := 2.

Definition CANCEL : gostr := #"cancel".
Definition OVERWRITE : gostr := #"overwrite".
Definition SKIP : gostr := #"skip".

Section handlers.
Context {RS : RoleStore} {RL : RegexpLib} {MS : MetaStore} {HE : HandlerEnv}.
Context (user : User).

Abbreviation perm_at p := (MergeRolePermissions (Some user) p).
Definition denied : error := ESentinel PermissionDenied.

Definition user_JoinPath (p : gostr) : handler gostr := h_result 403 (JoinPath (Some GetRole) user p).

(** [op.GetNearestMeta], whose only error that is passed over is that there is
    none. *)
Definition nearest_meta (p : gostr) : handler (option Meta) :=
  match GetNearestMeta p with
  | inr m => h_ok (Some m)
  | inl e => if errors_Is (Cause e) MetaNotFound then h_ok None else ErrorResp e 500
  end.

Definition checked_path (p : gostr) : handler gostr :=
  let@ reqPath := user_JoinPath p in
  h_check 403 denied (CheckPathLimitWithRoles (Some user) reqPath) (h_ok reqPath).

(** *** [fsmanage.go] *)

Definition FsMkdir (path : gostr) : handler unit :=
  let@ reqPath := checked_path path in
  let@ _ := (if HasPermission (perm_at reqPath) PermWrite then h_ok ()
             else
               let@ meta := nearest_meta (path_Dir reqPath) in
               h_check 403 denied (meta_CanWrite meta reqPath) (h_ok ())) in
  h_do 500 (h_call (CMakeDir reqPath)).

Record MoveCopyReq := {
  mc_SrcDir : gostr;
  mc_DstDir : gostr;
  mc_Names : list gostr;
  mc_Overwrite : bool;
  mc_SkipExisting : bool;
}.

Definition exists_msg (name : gostr) : gostr := #"file [" ++ name ++ #"] exists".

(** The loop that refuses a request when a target is there. *)
Definition none_exists (dstDir : gostr) (names : list gostr) : handler unit :=
  h_each (λ name,
    let@ dstPath := h_result 400 (JoinUnderBase dstDir name) in
    let@ r := h_call (CGet dstPath) in
    match r with inr _ => ErrorStrResp (exists_msg name) 403 | inl _ => h_ok () end) names.

Definition FsMove (req : MoveCopyReq) : handler unit :=
  if bool_decide (mc_Names req = []) then ErrorStrResp #"Empty file names" 400
  else
    let@ srcDir := checked_path (mc_SrcDir req) in
    let@ dstDir := checked_path (mc_DstDir req) in
    h_check 403 denied (HasPermission (perm_at srcDir) PermMove) (
    let@ _ := (if mc_Overwrite req then h_ok () else none_exists dstDir (mc_Names req)) in
    h_each_more (λ name more,
      let@ srcPath := h_result 400 (JoinUnderBase srcDir name) in
      let@ _ := h_result 400 (JoinUnderBase dstDir name) in
      h_do 500 (h_call (CMove srcPath dstDir more))) (mc_Names req)).

(** The tasks a copy has started, as they were added. *)
Fixpoint copy_all (srcDir dstDir : gostr) (skip : bool) (names : list gostr) : handler (list gostr) :=
  match names with
  | [] => h_ok []
  | name :: names' =>
      let@ srcPath := h_result 400 (JoinUnderBase srcDir name) in
      let@ _ := h_result 400 (JoinUnderBase dstDir name) in
      let@ (t, e) := h_call (CCopy srcPath dstDir (match names' with [] => false | _ => true end) skip) in
      let@ _ := h_error 500 e in
      let@ ts := copy_all srcDir dstDir skip names' in
      h_ok (match t with Some t => t :: ts | None => ts end)
  end.

Definition FsCopy (req : MoveCopyReq) : handler (list gostr) :=
  if bool_decide (mc_Names req = []) then ErrorStrResp #"Empty file names" 400
  else
    let@ srcDir := checked_path (mc_SrcDir req) in
    let@ dstDir := checked_path (mc_DstDir req) in
    h_check 403 denied (HasPermission (perm_at srcDir) PermCopy) (
    let@ _ := (if mc_Overwrite req || mc_SkipExisting req then h_ok () else none_exists dstDir (mc_Names req)) in
    copy_all srcDir dstDir (mc_SkipExisting req) (mc_Names req)).

(** A refused path is a response of its own. *)
Definition canRenamePath (reqPath : gostr) : handler unit :=
  match GetNearestMeta reqPath with
  | inl e => if errors_Is (Cause e) MetaNotFound then h_ok () else ErrorResp e 500
  | inr meta =>
      if negb (bool_decide (meta_Password meta = [])) && IsApply (meta_Path meta) reqPath (PSub meta)
      then ErrorStrResp #"Path is password-protected and cannot be renamed." 403
      else h_ok ()
  end.

Definition FsRename (path name : gostr) (overwrite : bool) : handler unit :=
  let@ reqPath := checked_path path in
  let@ _ := canRenamePath reqPath in
  h_check 403 denied (HasPermission (perm_at reqPath) PermRename) (
  let@ _ := h_error 400 (ValidateNameComponent name) in
  let@ _ := (if overwrite then h_ok ()
             else
               let@ dstPath := h_result 400 (JoinUnderBase (path_Dir reqPath) name) in
               if bool_decide (dstPath = reqPath) then h_ok ()
               else
                 let@ r := h_call (CGet dstPath) in
                 match r with inr _ => ErrorStrResp (exists_msg name) 403 | inl _ => h_ok () end) in
  h_do 500 (h_call (CRename reqPath name))).

Definition FsRemove (dir : gostr) (names : list gostr) : handler unit :=
  if bool_decide (names = []) then ErrorStrResp #"Empty file names" 400
  else
    let@ reqDir := checked_path dir in
    h_check 403 denied (HasPermission (perm_at reqDir) PermRemove) (
    h_each (λ name,
      let@ removePath := h_result 400 (JoinUnderBase reqDir name) in
      h_do 500 (h_call (CRemove removePath))) names).

(** The queue of directories, the directory each object was found in, the
    object each was found below, and the paths already removed. *)
Record empty_state := {
  es_queue : list FObj;
  es_path : gmap nat gostr;
  es_parent : gmap nat FObj;
  es_removed : gset gostr;
}.

Definition sprintf_path (dir name : gostr) : gostr := dir ++ #"/" ++ name.

(** [filePathMap[removingFile]]: the empty text when there is none. *)
Definition path_of (m : gmap nat gostr) (f : FObj) : gostr := sprintf_path (default [] (m !! f_addr f)) (f_Name f).

Definition push_dir (path : gostr) (parent : option FObj) (st : empty_state) (f : FObj) : empty_state :=
  if f_IsDir f then
    {| es_queue := es_queue st ++ [f]; es_path := <[f_addr f := path]> (es_path st);
       es_parent := match parent with Some p => <[f_addr f := p]> (es_parent st) | None => es_parent st end;
       es_removed := es_removed st |}
  else st.

Fixpoint remove_empty (fuel : nat) (meta : option Meta) (st : empty_state) : handler unit :=
  match es_queue st with
  | [] => h_ok ()
  | f :: queue =>
      match fuel with
      | O => PFuel
      | S fuel' =>
          let p := path_of (es_path st) f in
          let st := {| es_queue := queue; es_path := es_path st; es_parent := es_parent st; es_removed := es_removed st |} in
          if bool_decide (p ∈ es_removed st) then remove_empty fuel' meta st
          else
            let@ subFiles := h_do 500 (h_call (CList p true meta)) in
            if bool_decide (subFiles = []) then
              let@ _ := h_do 500 (h_call (CRemove p)) in
              remove_empty fuel' meta
                {| es_queue := match es_parent st !! f_addr f with Some up => queue ++ [up] | None => queue end;
                   es_path := es_path st; es_parent := es_parent st; es_removed := {[ p ]} ∪ es_removed st |}
            else remove_empty fuel' meta (fold_left (push_dir p (Some f)) subFiles st)
      end
  end.

Definition FsRemoveEmptyDirectory (fuel : nat) (srcDir : gostr) : handler unit :=
  let@ srcDir := checked_path srcDir in
  h_check 403 denied (HasPermission (perm_at srcDir) PermRemove) (
  let@ meta := nearest_meta srcDir in
  let@ rootFiles := h_do 500 (h_call (CList srcDir false meta)) in
  remove_empty fuel meta
    (fold_left (push_dir srcDir None) rootFiles
       {| es_queue := []; es_path := ∅; es_parent := ∅; es_removed := ∅ |})).

(** The link of a full path, for administrators: the body is the address. *)
Definition fs_Link (rawPath : gostr) : handler gostr :=
  let@ storage := h_do 500 (h_call (CGetStorage rawPath)) in
  if si_OnlyLocal storage then
    let@ s := h_call (CSign rawPath) in
    h_ok (ApiUrl ++ #"/p" ++ EncodePath rawPath [true] ++ #"?d&sign=" ++ s)
  else h_do 500 (h_call (CLink rawPath)).

(** *** [fsbatch.go] *)

(** The queue of objects, the directory each was found in, the names taken at
    the target and the files to move, in order. *)
Record move_state := {
  ms_queue : list FObj;
  ms_path : gmap nat gostr;
  ms_existing : list gostr;
  ms_moving : list gostr;
}.

Definition push_obj (path : gostr) (st : move_state) (f : FObj) : move_state :=
  {| ms_queue := ms_queue st ++ [f]; ms_path := <[f_addr f := path]> (ms_path st);
     ms_existing := ms_existing st; ms_moving := ms_moving st |}.

(** One file: [None] when the request is cancelled. *)
Definition move_file (policy dstDir : gostr) (f : FObj) (st : move_state) : option move_state :=
  let dir := default [] (ms_path st !! f_addr f) in
  let take_it existing :=
    Some {| ms_queue := ms_queue st; ms_path := ms_path st; ms_existing := existing;
            ms_moving := ms_moving st ++ [sprintf_path dir (f_Name f)] |} in
  if bool_decide (dir = dstDir) then Some st
  else if bool_decide (f_Name f ∈ ms_existing st) then
    if bool_decide (policy = CANCEL) then None
    else if bool_decide (policy = SKIP) then Some st
    else take_it (ms_existing st)
  else if bool_decide (policy = OVERWRITE) then take_it (ms_existing st)
  else take_it (ms_existing st ++ [f_Name f]).

Fixpoint collect_moves (fuel : nat) (meta : option Meta) (policy dstDir : gostr) (st : move_state)
    : handler (list gostr) :=
  match ms_queue st with
  | [] => h_ok (ms_moving st)
  | f :: queue =>
      match fuel with
      | O => PFuel
      | S fuel' =>
          let p := path_of (ms_path st) f in
          let st := {| ms_queue := queue; ms_path := ms_path st; ms_existing := ms_existing st; ms_moving := ms_moving st |} in
          if f_IsDir f then
            let@ subFiles := h_do 500 (h_call (CList p true meta)) in
            collect_moves fuel' meta policy dstDir (fold_left (push_obj p) subFiles st)
          else
            match move_file policy dstDir f st with
            | None => ErrorStrResp (exists_msg (f_Name f)) 403
            | Some st => collect_moves fuel' meta policy dstDir st
            end
      end
  end.

(** The body is the number of files moved. *)
Definition FsRecursiveMove (fuel : nat) (srcDir dstDir policy : gostr) : handler nat :=
  let@ srcDir := checked_path srcDir in
  let@ dstDir := checked_path dstDir in
  h_check 403 denied (HasPermission (perm_at srcDir) PermMove) (
  let@ meta := nearest_meta srcDir in
  let@ rootFiles := h_do 500 (h_call (CList srcDir false meta)) in
  let@ existing := (if bool_decide (policy = OVERWRITE) then h_ok []
                    else
                      let@ dstFiles := h_do 500 (h_call (CList dstDir false meta)) in
                      h_ok (map f_Name dstFiles)) in
  let@ moving := collect_moves fuel meta policy dstDir
    (fold_left (push_obj srcDir) rootFiles
       {| ms_queue := []; ms_path := ∅; ms_existing := existing; ms_moving := [] |}) in
  let@ _ := h_each_more (λ fileName more, h_do 500 (h_call (CMove fileName dstDir more))) moving in
  h_ok (length moving)).

Definition FsBatchRename (srcDir : gostr) (objects : list (gostr * gostr)) : handler unit :=
  let@ reqPath := checked_path srcDir in
  h_check 403 denied (HasPermission (perm_at reqPath) PermRename) (
  let@ _ := nearest_meta reqPath in
  h_each (λ '(srcName, newName),
    if bool_decide (srcName = []) || bool_decide (newName = []) then h_ok ()
    else
      let@ _ := h_error 400 (ValidateNameComponent newName) in
      let@ filePath := h_result 400 (JoinUnderBase reqPath srcName) in
      let@ _ := canRenamePath filePath in
      h_do 500 (h_call (CRename filePath newName))) objects).

Definition FsRegexRename (srcDir srcNameRegex newNameRegex : gostr) : handler unit :=
  let@ reqPath := checked_path srcDir in
  h_check 403 denied (HasPermission (perm_at reqPath) PermRename) (
  let@ meta := nearest_meta reqPath in
  match regexp_Compile srcNameRegex with
  | None => ErrorResp (EMessage #"regexp") 500
  | Some (MatchString, ReplaceAllString) =>
      let@ files := h_do 500 (h_call (CList reqPath false meta)) in
      h_each (λ file,
        if MatchString (f_Name file) then
          let@ filePath := h_result 500 (JoinUnderBase reqPath (f_Name file)) in
          let@ _ := canRenamePath filePath in
          let newFileName := ReplaceAllString (f_Name file) newNameRegex in
          let@ _ := h_error 400 (ValidateNameComponent newFileName) in
          h_do 500 (h_call (CRename filePath newFileName))
        else h_ok ()) files
  end).

(** *** [fsread.go] *)

Definition getReadme (meta : option Meta) (path : gostr) : gostr :=
  match meta with
  | Some m => if PathEqual (meta_Path m) path || RSub m then Readme m else []
  | None => []
  end.

Definition getHeader (meta : option Meta) (path : gostr) : gostr :=
  match meta with
  | Some m => if PathEqual (meta_Path m) path || HeaderSub m then Header m else []
  | None => []
  end.

(** [common.IsStorageSignEnabled] is asked first. *)
Definition isEncrypt (meta : option Meta) (path : gostr) : handler bool :=
  let@ storage := h_call (CGetBalancedStorage path) in
  h_ok (match storage with
        | Some s => si_EnableSign s
        | None => false
        end
        || match meta with
           | None => false
           | Some m =>
               if bool_decide (meta_Password m = []) then false
               else PathEqual (meta_Path m) path || PSub m
           end).

(** [common.Sign] *)
Definition common_Sign (obj : FObj) (parent : gostr) (encrypt : bool) : handler gostr :=
  if f_IsDir obj || (negb encrypt && negb SignAll) then h_ok []
  else h_call (CSign (path_join parent (f_Name obj))).

Definition GetObjType (filename : gostr) (isDir : bool) : Z := if isDir then FOLDER else GetFileType filename.

Record ObjLabelResp := {
  or_Obj : FObj;
  or_VirtualPath : gostr;
  or_Sign : gostr;
  or_Type : Z;
  or_Labels : list gostr;
}.

Fixpoint objs_resp (labelsByName : gmap gostr (list gostr)) (parent : gostr) (encrypt : bool) (objs : list FObj)
    : handler (list ObjLabelResp) :=
  match objs with
  | [] => h_ok []
  | obj :: objs' =>
      let labels := if f_IsDir obj then [] else default [] (labelsByName !! f_Name obj) in
      let@ s := common_Sign obj parent encrypt in
      let@ rest := objs_resp labelsByName parent encrypt objs' in
      h_ok ({| or_Obj := obj; or_VirtualPath := FixAndCleanPath (path_join parent (f_Name obj)); or_Sign := s;
               or_Type := GetObjType (f_Name obj) (f_IsDir obj); or_Labels := labels |} :: rest)
  end.

Definition toObjsResp (objs : list FObj) (parent : gostr) (encrypt : bool) : handler (list ObjLabelResp) :=
  let@ labelsByName := h_call (CLabels (map f_Name (filter (λ o, f_IsDir o = false) objs))) in
  objs_resp labelsByName parent encrypt objs.

Record ListReq := { lr_Page : Z; lr_PerPage : Z; lr_Path : gostr; lr_Password : gostr; lr_Refresh : bool }.

Record FsListResp := {
  ls_Content : list ObjLabelResp;
  ls_Total : Z;
  ls_FilteredTotal : Z;
  ls_Page : Z;
  ls_PerPage : Z;
  ls_HasMore : bool;
  ls_PagesTotal : Z;
  ls_Readme : gostr;
  ls_Header : gostr;
  ls_Write : bool;
  ls_Provider : gostr;
}.

Definition no_access : gostr := #"password is incorrect or you have no permission".

Definition check_access (meta : option Meta) (reqPath password : gostr) : handler unit :=
  let@ ok := h_outcome (CanAccessWithRoles (Some user) meta reqPath password) in
  if ok then h_ok () else ErrorStrResp no_access 403.

Definition readable_in (reqPath : gostr) (objs : list FObj) : list FObj :=
  filter (λ o, CanReadPathByRole (Some user) (path_join reqPath (f_Name o)) = true) objs.

Definition FsList (req : ListReq) : handler FsListResp :=
  let '(page, perPage) := normalizeListPage (lr_Page req) (lr_PerPage req) in
  let@ reqPath := user_JoinPath (lr_Path req) in
  let@ meta := nearest_meta reqPath in
  let@ _ := check_access meta reqPath (lr_Password req) in
  let perm := perm_at reqPath in
  if negb (HasPermission perm PermWrite) && negb (meta_CanWrite meta reqPath) && lr_Refresh req
  then ErrorStrResp #"Refresh without permission" 403
  else
    let@ storage := h_call (CGetStorage reqPath) in
    let provider := match storage with inr s => si_Driver s | inl _ => #"unknown" end in
    let@ objs := h_do 500 (h_call (CList reqPath (lr_Refresh req) meta)) in
    let filtered := readable_in reqPath objs in
    let@ (total, pageObjs) := h_outcome (pagination filtered page perPage) in
    let@ encrypt := isEncrypt meta reqPath in
    let@ respContent := toObjsResp pageObjs reqPath encrypt in
    h_ok {| ls_Content := respContent; ls_Total := total; ls_FilteredTotal := total; ls_Page := page; ls_PerPage := perPage;
            ls_HasMore := negb (perPage =? AllPerPage) && (wrap64 (page * perPage) <? total);
            ls_PagesTotal := calcPagesTotal total perPage;
            ls_Readme := getReadme meta reqPath; ls_Header := getHeader meta reqPath;
            ls_Write := HasPermission perm PermWrite || meta_CanWrite meta reqPath; ls_Provider := provider |}.

Definition filterDirs (objs : list FObj) : list (gostr * Z) :=
  map (λ o, (f_Name o, f_Modified o)) (filter (λ o, f_IsDir o = true) objs).

Definition FsDirs (path password : gostr) (forceRoot : bool) : handler (list (gostr * Z)) :=
  let@ reqPath := (if forceRoot then
                     if IsAdmin user then h_ok path else ErrorStrResp #"Permission denied" 403
                   else user_JoinPath path) in
  let@ meta := nearest_meta reqPath in
  let@ _ := check_access meta reqPath password in
  let@ objs := h_do 500 (h_call (CList reqPath false meta)) in
  h_ok (filterDirs (readable_in reqPath objs)).

(** [path.Ext] *)
Fixpoint ext_rev (s : gostr) : option gostr :=
  match s with
  | [] => None
  | c :: s' =>
      if bool_decide (c = "/"%char) then None
      else if bool_decide (c = "."%char) then Some [c]
      else (λ e, e ++ [c]) <$> ext_rev s'
  end.
Definition path_Ext (s : gostr) : gostr := default [] (ext_rev (reverse s)).

Definition filterRelated (objs : list FObj) (obj : FObj) : list FObj :=
  let nameWithoutExt := TrimSuffix (f_Name obj) (path_Ext (f_Name obj)) in
  filter (λ o, f_Name o ≠ f_Name obj ∧ HasPrefix (f_Name o) nameWithoutExt = true) objs.

Definition isLarkCloudDocName (name : gostr) : bool :=
  existsb (HasSuffix name)
    [ #".lark-doc"; #".lark-docx"; #".lark-sheet"; #".lark-bitable"; #".lark-mindnote"; #".lark-slides"].

(** [common.BuildDownProxyURL] *)
Definition BuildDownProxyURL (downProxyURL path : gostr) (useSign : bool) : handler gostr :=
  let base := default [] (head (Split "010" downProxyURL)) in
  if useSign then
    let@ s := h_call (CSign path) in
    h_ok (base ++ EncodePath path [true] ++ #"?sign=" ++ s)
  else h_ok (base ++ EncodePath path [true]).

Record FsGetResp := {
  gr_Obj : FObj;
  gr_VirtualPath : gostr;
  gr_Sign : gostr;
  gr_Type : Z;
  gr_RawURL : gostr;
  gr_Readme : gostr;
  gr_Header : gostr;
  gr_Provider : gostr;
  gr_WebProxy : bool;
  gr_Related : list ObjLabelResp;
}.

(** The address of a file: that of this server, of a proxy, or the driver's. *)
Definition raw_url (meta : option Meta) (reqPath : gostr) (storage : StorageInfo) (obj : FObj) : handler gostr :=
  let@ encrypt := isEncrypt meta reqPath in
  let@ query := (if encrypt || SignAll then
                   let@ s := h_call (CSign reqPath) in h_ok (#"?sign=" ++ s)
                 else h_ok []) in
  let forceRedirect := bool_decide (si_Driver storage = #"BaiduYouth") in
  let forcePreview := bool_decide (si_Driver storage = #"Lark") && isLarkCloudDocName (f_Name obj) in
  let forceProxy := bool_decide (si_Driver storage = #"Quark") && (GetFileType (f_Name obj) =? VIDEO) in
  if forceRedirect then h_ok (ApiUrl ++ #"/d" ++ EncodePath reqPath [true] ++ query)
  else if negb forcePreview && (MustProxy storage || si_WebProxy storage || forceProxy) then
    if bool_decide (si_DownProxyUrl storage ≠ [])
    then BuildDownProxyURL (si_DownProxyUrl storage) reqPath (si_DownProxySign storage)
    else h_ok (ApiUrl ++ #"/p" ++ EncodePath reqPath [true] ++ query)
  else
    match f_URL obj with
    | Some url => h_ok url
    | None => h_do 500 (h_call (CLink reqPath))
    end.

Definition FsGet (path password : gostr) : handler FsGetResp :=
  let@ reqPath := user_JoinPath path in
  let@ meta := nearest_meta reqPath in
  let@ _ := check_access meta reqPath password in
  let@ obj := h_do 500 (h_call (CGet reqPath)) in
  let@ storage := h_call (CGetStorage reqPath) in
  let provider := match storage with inr s => si_Name s | inl _ => #"unknown" end in
  let@ rawURL := (if f_IsDir obj then h_ok []
                  else match storage with
                       | inl e => ErrorResp e 500
                       | inr s => raw_url meta reqPath s obj
                       end) in
  let parentPath := path_Dir reqPath in
  let@ sameLevelFiles := h_call (CList parentPath false meta) in
  let related := match sameLevelFiles with inr l => filterRelated l obj | inl _ => [] end in
  let parentMeta := match GetNearestMeta parentPath with inr m => Some m | inl _ => None end in
  let@ encrypt := isEncrypt meta reqPath in
  let@ s := common_Sign obj parentPath encrypt in
  let@ parentEncrypt := isEncrypt parentMeta parentPath in
  let@ relatedResp := toObjsResp related parentPath parentEncrypt in
  h_ok {| gr_Obj := obj; gr_VirtualPath := FixAndCleanPath reqPath; gr_Sign := s; gr_Type := GetFileType (f_Name obj);
          gr_RawURL := rawURL; gr_Readme := getReadme meta reqPath; gr_Header := getHeader meta reqPath;
          gr_Provider := provider; gr_WebProxy := match storage with inr s => si_WebProxy s | inl _ => false end;
          gr_Related := relatedResp |}.

Definition FsOther (path method password : gostr) : handler gostr :=
  let@ reqPath := user_JoinPath path in
  let@ meta := nearest_meta reqPath in
  let@ _ := check_access meta reqPath password in
  h_do 500 (h_call (COther reqPath method)).

(** *** [fsup.go] and its middleware *)

(** The headers of an upload. *)
Record PutReq := {
  pr_FilePath : gostr;
  pr_Password : gostr;
  pr_AsTask : gostr;
  pr_Overwrite : gostr;
  pr_ContentLength : gostr;
  pr_LastModified : gostr;
  pr_ContentType : gostr;
  pr_Md5 : gostr;
  pr_Sha1 : gostr;
  pr_Sha256 : gostr;
}.

Definition unescape (p : gostr) : handler gostr :=
  match PathUnescape p with Some p => h_ok p | None => ErrorResp (EMessage #"invalid URL escape") 400 end.

Definition FsUp (req : PutReq) : handler unit :=
  let@ path := unescape (pr_FilePath req) in
  let@ path := user_JoinPath path in
  let@ meta := nearest_meta (path_Dir path) in
  let@ ok := h_outcome (CanAccessWithRoles (Some user) meta path (pr_Password req)) in
  h_check 403 denied
    (ok && (HasPermission (perm_at path) PermWrite || meta_CanWrite meta (path_Dir path))) (h_ok ()).

Definition getLastModified (s : gostr) : Z :=
  match ParseInt s with (n, None) => n * 1000000 | _ => Now end.

Definition hash_headers (req : PutReq) : list (gostr * gostr) :=
  filter (λ h, h.2 ≠ []) [( #"md5", pr_Md5 req); ( #"sha1", pr_Sha1 req); ( #"sha256", pr_Sha256 req)].

(** Without overwriting, a file that is there ends the request. *)
Definition refuse_existing (req : PutReq) (path : gostr) : handler unit :=
  if bool_decide (pr_Overwrite req ≠ #"false") then h_ok ()
  else
    let@ r := h_call (CGet path) in
    match r with inr _ => ErrorStrResp #"file exists" 403 | inl _ => h_ok () end.

(** The body is the task, if one was started. *)
Definition put_stream (asTask : bool) (dir : gostr) (s : FileStream) : handler (option gostr) :=
  if asTask then let@ t := h_do 500 (h_call (CPutAsTask dir s)) in h_ok (Some t)
  else let@ _ := h_do 500 (h_call (CPutDirectly dir s)) in h_ok None.

Definition FsStream (req : PutReq) : handler (option gostr) :=
  let@ path := unescape (pr_FilePath req) in
  let asTask := bool_decide (pr_AsTask req = #"true") in
  let@ path := user_JoinPath path in
  let@ _ := refuse_existing req path in
  let '(dir, name) := path_Split path in
  match ParseInt (pr_ContentLength req) with
  | (size, None) =>
      let mimetype := if bool_decide (pr_ContentType req = []) then GetMimeType name else pr_ContentType req in
      put_stream asTask dir
        {| fst_Name := name; fst_Size := size; fst_Modified := getLastModified (pr_LastModified req);
           fst_Hashes := hash_headers req; fst_Mimetype := mimetype; fst_AsTask := asTask |}
  | _ => ErrorResp (EMessage #"strconv.ParseInt") 400
  end.

(** The file of the form: its size and its content type. *)
Definition FsForm (req : PutReq) (FormFile : result (Z * gostr)) : handler (option gostr) :=
  let@ path := unescape (pr_FilePath req) in
  let asTask := bool_decide (pr_AsTask req = #"true") in
  let@ path := user_JoinPath path in
  let@ _ := refuse_existing req path in
  let@ storage := h_do 400 (h_call (CGetStorage path)) in
  if si_NoUpload storage then ErrorStrResp #"Current storage doesn't support upload" 405
  else
    let@ (size, contentType) := h_result 500 FormFile in
    let '(dir, name) := path_Split path in
    let mimetype := if bool_decide (contentType = []) then GetMimeType name else contentType in
    put_stream asTask dir
      {| fst_Name := name; fst_Size := size; fst_Modified := getLastModified (pr_LastModified req);
         fst_Hashes := hash_headers req; fst_Mimetype := mimetype; fst_AsTask := asTask |}.

(** *** The routes *)

(** A request of the file API with its body, as [c.ShouldBind] decodes it. *)
Inductive fs_request :=
  | RList (req : ListReq)
  | RDirs (path password : gostr) (forceRoot : bool)
  | RGet (path password : gostr)
  | ROther (path method password : gostr)
  | RMkdir (path : gostr)
  | RMove (req : MoveCopyReq)
  | RCopy (req : MoveCopyReq)
  | RRename (path name : gostr) (overwrite : bool)
  | RBatchRename (srcDir : gostr) (objects : list (gostr * gostr))
  | RRegexRename (srcDir srcNameRegex newNameRegex : gostr)
  | RRecursiveMove (srcDir dstDir policy : gostr)
  | RRemove (dir : gostr) (names : list gostr)
  | RRemoveEmpty (srcDir : gostr)
  | RPut (req : PutReq)
  | RForm (req : PutReq) (file : result (Z * gostr)).

Definition h_void {A} (m : handler A) : handler unit := let@ _ := m in h_ok ().

Definition serve (fuel : nat) (r : fs_request) : handler unit :=
  match r with
  | RList req => h_void (FsList req)
  | RDirs p pw root => h_void (FsDirs p pw root)
  | RGet p pw => h_void (FsGet p pw)
  | ROther p m pw => h_void (FsOther p m pw)
  | RMkdir p => FsMkdir p
  | RMove req => FsMove req
  | RCopy req => h_void (FsCopy req)
  | RRename p n o => FsRename p n o
  | RBatchRename d l => FsBatchRename d l
  | RRegexRename d a b => FsRegexRename d a b
  | RRecursiveMove a b c => h_void (FsRecursiveMove fuel a b c)
  | RRemove d l => FsRemove d l
  | RRemoveEmpty d => FsRemoveEmptyDirectory fuel d
  | RPut req => let@ _ := FsUp req in h_void (FsStream req)
  | RForm req file => let@ _ := FsUp req in h_void (FsForm req file)
  end.
End handlers.
