(* ===== verification/FsHandlersSpec.v ===== *)
(** * The file API: rules and specification

    [hwp] is the rule for handlers: every call is allowed after the calls
    before it, whatever package [fs] answers.  What is allowed: [confined] to
    the user's base path, [permitted] by the user's roles, and [careful] with
    what is there. *)

From S2P Require Import Prelude GoStrings Errs Store Paths HttpRange Crypto Users Perm Prog Sign Shares ShareHandlers FsHandlers.

Local Open Scope Z_scope.

(** ** Rules for handlers *)

Section rules.
Context (good : ∀ c, fs_answer c → Prop) (ok : list fs_event → fs_action → Prop).

(** Calls are allowed; a body, if there is one, satisfies [Q]. *)
Definition hwp {A} (m : handler A) (h : list fs_event) (Q : A → list fs_event → Prop) : Prop :=
  wp good ok m h (λ x h', ∀ a, x = Returned (inr a) → Q a h').

Lemma hwp_mono {A} (m : handler A) h (P Q : A → list fs_event → Prop) :
  hwp m h P → (∀ a h', P a h' → Q a h') → hwp m h Q.
Proof. intros H HPQ. eapply wp_mono; [exact H|]. eauto. Qed.

Lemma hwp_ok {A} (a : A) h (Q : A → list fs_event → Prop) : Q a h → hwp (h_ok a) h Q.
Proof. intros H b E. by simplify_eq. Qed.

Lemma hwp_reject {A} e h (Q : A → list fs_event → Prop) : hwp (PRet (inl e)) h Q.
Proof. intros b E. by simplify_eq. Qed.

Lemma hwp_bind {A B} (m : handler A) (k : A → handler B) h Q :
  hwp m h (λ a h', hwp (k a) h' Q) → hwp (and_then m k) h Q.
Proof.
  intros H. apply wp_bind. eapply wp_mono; [exact H|]. intros [[e|a]| |] h' HP; simpl.
  - intros b E. by simplify_eq.
  - by apply HP.
  - intros b E. by simplify_eq.
  - intros b E. by simplify_eq.
Qed.

Lemma hwp_result {A} code (r : result A) h (Q : A → list fs_event → Prop) :
  (∀ a, r = inr a → Q a h) → hwp (h_result code r) h Q.
Proof. destruct r; intros H; [apply hwp_reject|apply hwp_ok; auto]. Qed.

Lemma hwp_error code (e : option error) h (Q : unit → list fs_event → Prop) :
  (e = None → Q () h) → hwp (h_error code e) h Q.
Proof. destruct e; intros H; [apply hwp_reject|apply hwp_ok; auto]. Qed.

Lemma hwp_check {A} code e b (k : handler A) h Q : (b = true → hwp k h Q) → hwp (h_check code e b k) h Q.
Proof. destruct b; intros H; [by apply H|apply hwp_reject]. Qed.

Lemma hwp_call c h (Q : fs_answer c → list fs_event → Prop) :
  ok h c → (∀ r, good c r → Q r (h ++ [ev c r])) → hwp (h_call c) h Q.
Proof. intros Hc H. split; [done|]. intros r Hr b E. simplify_eq. auto. Qed.

Lemma hwp_do {A} code (m : handler (result A)) h (Q : A → list fs_event → Prop) :
  hwp m h (λ r h', ∀ a, r = inr a → Q a h') → hwp (h_do code m) h Q.
Proof. intros H. apply hwp_bind. eapply hwp_mono; [exact H|]. intros r h' Hr. by apply hwp_result. Qed.

Lemma hwp_outcome {A} (o : outcome A) h (Q : A → list fs_event → Prop) :
  (∀ a, o = Ret a → Q a h) → hwp (h_outcome o) h Q.
Proof. destruct o; intros H; [apply hwp_ok; auto|]. intros b E. by simplify_eq. Qed.

Lemma hwp_fuel {A} h (Q : A → list fs_event → Prop) : hwp PFuel h Q.
Proof. intros b E. by simplify_eq. Qed.

Lemma hwp_if {A} (b : bool) (m n : handler A) h Q :
  (b = true → hwp m h Q) → (b = false → hwp n h Q) → hwp (if b then m else n) h Q.
Proof. destruct b; auto. Qed.

(** Loops keep an invariant of the history. *)
Lemma hwp_each {A} (I : list fs_event → Prop) (f : A → handler unit) l h :
  (∀ x h, x ∈ l → I h → hwp (f x) h (λ _ h', I h')) → I h → hwp (h_each f l) h (λ _ h', I h').
Proof.
  intros Hf. revert h. induction l as [|x l IH]; intros h Hh; simpl; [by apply hwp_ok|].
  apply hwp_bind. eapply hwp_mono; [apply Hf; [left|done]|]. intros [] h' Hh'.
  apply IH; [|done]. intros y h'' Hy. apply Hf. by right.
Qed.

Lemma hwp_each_more {A} (I : list fs_event → Prop) (f : A → bool → handler unit) l h :
  (∀ x b h, x ∈ l → I h → hwp (f x b) h (λ _ h', I h')) → I h → hwp (h_each_more f l) h (λ _ h', I h').
Proof.
  intros Hf. revert h. induction l as [|x l IH]; intros h Hh; cbn [h_each_more]; [by apply hwp_ok|].
  apply hwp_bind. eapply hwp_mono; [apply Hf; [left|done]|]. intros [] h' Hh'.
  apply IH; [|done]. intros y b h'' Hy. apply Hf. by right.
Qed.
End rules.

Lemma hwp_and {A} good ok ok' (m : handler A) h (P Q : A → list fs_event → Prop) :
  hwp good ok m h P → hwp good ok' m h Q → hwp good (λ h c, ok h c ∧ ok' h c) m h (λ a h, P a h ∧ Q a h).
Proof.
  unfold hwp. revert h. induction m as [x|c k IH| |]; intros h; simpl.
  - intros HP HQ a E. auto.
  - intros [H1 K1] [H2 K2]. split; [done|]. intros r Hr. by apply IH; [apply K1|apply K2].
  - intros HP HQ a E. auto.
  - intros HP HQ a E. auto.
Qed.

(** Histories grow. *)
Lemma hwp_grows {A} good ok (m : handler A) h (Q : A → list fs_event → Prop) :
  hwp good ok m h Q → hwp good ok m h (λ a h', Q a h' ∧ h `prefix_of` h').
Proof.
  assert (Hgen : ∀ h0, h0 `prefix_of` h → hwp good ok m h Q → hwp good ok m h (λ a h', Q a h' ∧ h0 `prefix_of` h')).
  { unfold hwp. revert h. induction m as [x|c k IH| |]; intros h h0 Hp; simpl.
    - intros H a E. auto.
    - intros [H K]. split; [done|]. intros r Hr. apply IH; [by apply prefix_app_r|auto].
    - intros H a E. auto.
    - intros H a E. auto. }
  by apply Hgen.
Qed.

(** A loop that establishes [P] of every element, where [P] lasts. *)
Lemma hwp_each_all {A} good ok (P : A → list fs_event → Prop) (f : A → handler unit) l h :
  (∀ x h h', h `prefix_of` h' → P x h → P x h') →
  (∀ x h, x ∈ l → hwp good ok (f x) h (λ _ h', P x h')) →
  hwp good ok (h_each f l) h (λ _ h', ∀ x, x ∈ l → P x h').
Proof.
  intros Hmono Hf. revert h. induction l as [|x l IH]; intros h; simpl.
  - apply hwp_ok. by intros x ?%elem_of_nil.
  - apply hwp_bind. eapply hwp_mono; [apply Hf; left|]. intros [] h' Hx. simpl in Hx.
    eapply hwp_mono; [apply hwp_grows, IH; intros; apply Hf; by right|].
    intros [] h'' [Hall Hg] y [->|Hy]%elem_of_cons; [by eapply Hmono|by apply Hall].
Qed.

(** A loop under an invariant that lasts. *)
Lemma hwp_each_lasting {A} good ok (I : list fs_event → Prop) (f : A → handler unit) l h :
  (∀ h h', h `prefix_of` h' → I h → I h') → (∀ x h, x ∈ l → I h → hwp good ok (f x) h (λ _ _, True)) →
  I h → hwp good ok (h_each f l) h (λ _ h', I h').
Proof.
  intros Hmono Hf. apply hwp_each. intros x h' Hx HI. eapply hwp_mono; [by apply hwp_grows, Hf|].
  intros [] h'' [_ Hp]. by eapply Hmono.
Qed.

Lemma hwp_each_more_lasting {A} good ok (I : list fs_event → Prop) (f : A → bool → handler unit) l h :
  (∀ h h', h `prefix_of` h' → I h → I h') → (∀ x b h, x ∈ l → I h → hwp good ok (f x b) h (λ _ _, True)) →
  I h → hwp good ok (h_each_more f l) h (λ _ h', I h').
Proof.
  intros Hmono Hf. apply hwp_each_more. intros x b h' Hx HI. eapply hwp_mono; [by apply hwp_grows, Hf|].
  intros [] h'' [_ Hp]. by eapply Hmono.
Qed.

(** ** The steps handlers share *)

Section steps.
Context {RS : RoleStore} {RL : RegexpLib} {MS : MetaStore} {HE : HandlerEnv}.
Context (good : ∀ c, fs_answer c → Prop) (ok : list fs_event → fs_action → Prop) (user : User).
Abbreviation gwp m h Q := (hwp good ok m h Q).

Lemma hwp_join p h (Q : gostr → list fs_event → Prop) :
  (∀ q, JoinPath (Some GetRole) user p = inr q → Q q h) → gwp (user_JoinPath user p) h Q.
Proof. intros H. by apply hwp_result. Qed.

Lemma hwp_checked p h (Q : gostr → list fs_event → Prop) :
  (∀ q, JoinPath (Some GetRole) user p = inr q → CheckPathLimitWithRoles (Some user) q = true → Q q h) →
  gwp (checked_path user p) h Q.
Proof.
  intros H. apply hwp_bind, hwp_join. intros q Hq. apply hwp_check. intros Hl. apply hwp_ok. auto.
Qed.

(** The meta [op.GetNearestMeta] found, or none. *)
Definition found_meta (p : gostr) (m : option Meta) : Prop :=
  match m with
  | Some m => GetNearestMeta p = inr m
  | None => ∃ e, GetNearestMeta p = inl e ∧ errors_Is (Cause e) MetaNotFound = true
  end.

Lemma hwp_meta p h (Q : option Meta → list fs_event → Prop) :
  (∀ m, found_meta p m → Q m h) → gwp (nearest_meta p) h Q.
Proof.
  intros H. unfold nearest_meta. destruct (GetNearestMeta p) as [e|m] eqn:E.
  - apply hwp_if; intros He; [|apply hwp_reject]. apply hwp_ok, H. by exists e.
  - by apply hwp_ok, H.
Qed.

(** No password of a meta applies to the path. *)
Definition unprotected (p : gostr) : Prop :=
  ∀ m, GetNearestMeta p = inr m → meta_Password m = [] ∨ IsApply (meta_Path m) p (PSub m) = false.

Lemma hwp_renamable p h (Q : unit → list fs_event → Prop) :
  (unprotected p → Q () h) → gwp (canRenamePath p) h Q.
Proof.
  intros H. unfold canRenamePath. destruct (GetNearestMeta p) as [e|m] eqn:E.
  - apply hwp_if; intros He; [|apply hwp_reject]. apply hwp_ok, H. intros m Hm. by rewrite E in Hm.
  - apply hwp_if; intros He; [apply hwp_reject|]. apply hwp_ok, H. intros m' Hm. rewrite E in Hm. simplify_eq.
    apply andb_false_iff in He as [He|He]; [left|by right]. by reflect_bools.
Qed.

Lemma hwp_access m p pw h (Q : unit → list fs_event → Prop) :
  (CanAccessWithRoles (Some user) m p pw = Ret true → Q () h) → gwp (check_access user m p pw) h Q.
Proof.
  intros H. apply hwp_bind, hwp_outcome. intros b Hb. apply hwp_if; intros ->; [apply hwp_ok; auto|apply hwp_reject].
Qed.
End steps.

(** One step of a handler. *)
Ltac hstep :=
  match goal with
  | |- hwp _ _ (and_then _ _) _ _ => apply hwp_bind
  | |- hwp _ _ (h_void _) _ _ => unfold h_void
  | |- hwp _ _ (h_ok _) _ _ => apply hwp_ok
  | |- hwp _ _ (ErrorResp _ _) _ _ => apply hwp_reject
  | |- hwp _ _ (ErrorStrResp _ _) _ _ => apply hwp_reject
  | |- hwp _ _ (PRet (inl _)) _ _ => apply hwp_reject
  | |- hwp _ _ PFuel _ _ => apply hwp_fuel
  | |- hwp _ _ (user_JoinPath _ _) _ _ => apply hwp_join; intros ? ?
  | |- hwp _ _ (checked_path _ _) _ _ => apply hwp_checked; intros ? ? ?
  | |- hwp _ _ (nearest_meta _) _ _ => apply hwp_meta; intros ? ?
  | |- hwp _ _ (canRenamePath _) _ _ => apply hwp_renamable; intros ?
  | |- hwp _ _ (check_access _ _ _ _) _ _ => apply hwp_access; intros ?
  | |- hwp _ _ (h_result _ _) _ _ => apply hwp_result; intros ? ?
  | |- hwp _ _ (h_error _ _) _ _ => apply hwp_error; intros ?
  | |- hwp _ _ (h_check _ _ _ _) _ _ => apply hwp_check; intros ?
  | |- hwp _ _ (h_do _ _) _ _ => apply hwp_do
  | |- hwp _ _ (h_outcome _) _ _ => apply hwp_outcome; intros ? ?
  | |- hwp _ _ (h_call _) _ _ => apply hwp_call; [|intros ? ?]
  | |- hwp _ _ (if ?b then _ else _) _ _ => apply hwp_if; intros ?
  | |- hwp _ _ (match ?r with inl _ => _ | inr _ => _ end) _ _ => destruct r eqn:?
  | |- ∀ _, _ = inr _ → _ => intros ? ?
  end.
Ltac hsteps := repeat (cbv zeta; hstep).

(** ** Paths *)

Lemma path_segs_sprintf d n : good_seg n → path_segs (sprintf_path d n) = path_segs d ++ [n].
Proof.
  intros [Hn Hb]. unfold path_segs, sprintf_path. rewrite !ReplaceByte_app.
  rewrite (ReplaceByte_id n), (ReplaceByte_id #"/"); [|by apply (bool_decide_unpack _)|done].
  rewrite <- (clean_segs_join _ [n]) by (by constructor).
  unfold clean_segs, render. simpl. rewrite !Split_app_sep, !fold_left_app. simpl.
  rewrite Split_none by apply Hn. done.
Qed.

(** ** What a call may do *)

Section spec.
Context {RS : RoleStore} {RL : RegexpLib} {MS : MetaStore} {HE : HandlerEnv}.
Context (user : User).

(** At or below the user's base path. *)
Definition within (p : gostr) : Prop := path_segs (BasePath user) `prefix_of` path_segs p.

(** The paths of the virtual tree a call is about. *)
Definition touches (c : fs_action) : list gostr :=
  match c with
  | CList p _ _ | CGet p | CLink p | CMakeDir p | CRemove p | COther p _
  | CGetStorage p | CGetBalancedStorage p | CSign p => [p]
  | CMove src dst _ | CCopy src dst _ _ => [src; dst]
  | CRename src name => [src; path_join (path_Dir src) name]
  | CPutDirectly dir f | CPutAsTask dir f => [path_join dir (fst_Name f)]
  | CLabels _ => []
  end.

Definition confined (c : fs_action) : Prop := Forall within (touches c).

(** The names package [fs] reports are names: not empty, not dots, without a
    separator. *)
Definition names_ok (c : fs_action) : fs_answer c → Prop :=
  match c with
  | CList _ _ _ => λ r, ∀ l, r = inr l → Forall (λ o, good_seg (f_Name o)) l
  | CGet _ => λ r, ∀ o, r = inr o → good_seg (f_Name o)
  | _ => λ _, True
  end.

Lemma joined p q : JoinPath (Some GetRole) user p = inr q →
  within q ∧ q = render (path_segs q) ∧ path_segs q = path_segs (BasePath user) ++ path_segs p.
Proof.
  intros (Hs & Hc & _)%JoinPath_ok. split; [unfold within; rewrite Hs; by apply prefix_app_r|].
  split; [|done]. by rewrite <- FixAndCleanPath_segs.
Qed.

Lemma within_app p q l : path_segs q = path_segs p ++ l → within p → within q.
Proof. unfold within. intros -> H. by apply prefix_app_r. Qed.

Lemma under_base d n p : JoinUnderBase d n = inr p → path_segs p = path_segs d ++ [n] ∧ good_seg n ∧ p = render (path_segs d ++ [n]).
Proof.
  rewrite JoinUnderBase_ok. destruct (ValidateNameComponent n) eqn:E; [done|]. intros [= <-].
  apply ValidateNameComponent_good in E. split; [|done].
  apply path_segs_render, Forall_app_2; [apply path_segs_good|by constructor].
Qed.

Lemma join_child l n : Forall good_seg l → good_seg n → path_segs (path_join (render l) n) = l ++ [n].
Proof.
  intros Hl Hn. rewrite path_join_name by (by apply good_norm || apply Hn).
  apply path_segs_render, Forall_app_2; [done|by constructor].
Qed.

Lemma split_last (l : list gostr) : l = [] ∨ ∃ k x, l = k ++ [x].
Proof. induction l as [|x k _] using rev_ind; [by left|right; eauto]. Qed.

(** The parent of a path below the base path. *)
Lemma parent_within p q : JoinPath (Some GetRole) user p = inr q → path_segs p ≠ [] →
  within (path_Dir q) ∧ ∃ l x, path_segs q = l ++ [x] ∧ path_Dir q = render l ∧ Forall good_seg l ∧ good_seg x.
Proof.
  intros (_ & Hq & Hs)%joined Hp. destruct (split_last (path_segs p)) as [|(k & x & E)]; [done|].
  rewrite E, app_assoc in Hs. pose proof (path_segs_good q) as Hg. rewrite Hs in Hg.
  apply Forall_app in Hg as [Hl Hx]. apply Forall_cons in Hx as [Hx _].
  assert (Ed : path_Dir q = render (path_segs (BasePath user) ++ k)).
  { rewrite Hq, Hs. apply path_Dir_render; [by apply good_norm|apply Hx]. }
  split; [|by eexists _, x]. unfold within. rewrite Ed, path_segs_render by done. by apply prefix_app_r.
Qed.

Lemma confined_1 p c : touches c = [p] → within p → confined c.
Proof. intros E H. unfold confined. rewrite E. by repeat constructor. Qed.
Lemma confined_2 p q c : touches c = [p; q] → within p → within q → confined c.
Proof. intros E H1 H2. unfold confined. rewrite E. by repeat constructor. Qed.


(** *** Permissions *)

(** The path in which a request names what it is to change: the directory of
    the objects, or the object that is to be renamed. *)
Definition named_in (r : fs_request) : option gostr :=
  match r with
  | RMove req | RCopy req => Some (mc_SrcDir req)
  | RRename p _ _ => Some p
  | RBatchRename d _ | RRegexRename d _ _ | RRecursiveMove d _ _ | RRemove d _ | RRemoveEmpty d => Some d
  | _ => None
  end.

Definition child (d n p : gostr) : Prop := path_segs p = path_segs d ++ [n].
Definition below (d p : gostr) : Prop := path_segs d `prefix_of` path_segs p.
Definition joins (req q : gostr) : Prop := JoinPath (Some GetRole) user req = inr q.

(** The call is one the request asks for, with [d] the path it names joined to
    the base path: an object of the list of names, to the directory of the
    request; the object itself, under the new name; a pair of the list; an
    object whose name matches, under the name replaced; or something below the
    directory. *)
Definition asked (r : fs_request) (d : gostr) (c : fs_action) : Prop :=
  match r, c with
  | RMove req, CMove src dst _ => (∃ n, n ∈ mc_Names req ∧ child d n src) ∧ joins (mc_DstDir req) dst
  | RCopy req, CCopy src dst _ skip =>
      (∃ n, n ∈ mc_Names req ∧ child d n src) ∧ joins (mc_DstDir req) dst ∧ skip = mc_SkipExisting req
  | RRename _ name _, CRename src name' => src = d ∧ name' = name
  | RBatchRename _ l, CRename src name => ∃ n, (n, name) ∈ l ∧ child d n src
  | RRegexRename _ a b, CRename src name =>
      ∃ n MatchString ReplaceAllString, regexp_Compile a = Some (MatchString, ReplaceAllString) ∧
        MatchString n = true ∧ name = ReplaceAllString n b ∧ child d n src
  | RRecursiveMove _ b _, CMove src dst _ => below d src ∧ joins b dst
  | RRemove _ names, CRemove p => ∃ n, n ∈ names ∧ child d n p
  | RRemoveEmpty _, CRemove p => below d p
  | _, _ => False
  end.

(** The user has the permission at the very path the request names, and the
    call is one the request asks for there. *)
Definition permitted_at (r : fs_request) (bit : Z) (c : fs_action) : Prop :=
  ∃ req d, named_in r = Some req ∧ joins req d ∧ CheckPathLimitWithRoles (Some user) d = true ∧
    HasPermission (MergeRolePermissions (Some user) d) bit = true ∧ asked r d c.

Definition permitted (r : fs_request) (c : fs_action) : Prop :=
  match c with
  | CMakeDir p =>
      HasPermission (MergeRolePermissions (Some user) p) PermWrite = true ∨
      ∃ m, GetNearestMeta (path_Dir p) = inr m ∧ meta_CanWrite (Some m) p = true
  | CMove _ _ _ => permitted_at r PermMove c
  | CCopy _ _ _ _ => permitted_at r PermCopy c
  | CRename src name => permitted_at r PermRename c ∧ unprotected src ∧ ValidateNameComponent name = None
  | CRemove _ => permitted_at r PermRemove c
  | CPutDirectly dir f | CPutAsTask dir f =>
      let p := path_join dir (fst_Name f) in
      CanReadPathByRole (Some user) p = true ∧
      (HasPermission (MergeRolePermissions (Some user) p) PermWrite = true ∨
       ∃ m, GetNearestMeta (path_Dir p) = inr m ∧ meta_CanWrite (Some m) (path_Dir p) = true)
  | COther p _ | CLink p => CanReadPathByRole (Some user) p = true
  | _ => True
  end.

(** *** Care *)

(** The last segment of a path. *)
Definition base_of (p : gostr) : gostr := default [] (last (path_segs p)).

(** [fs.Get] gave no object at [n] in the directory: any error counts. *)
Definition seen_free (h : list fs_event) (dir n : gostr) : Prop :=
  ∃ p e, path_segs p = path_segs dir ++ [n] ∧ ev (CGet p) (inl e) ∈ h.

(** What a call that may replace or remove something has seen before it.  A
    batch rename asks for nothing but the names: the pair is one of the
    request, both names are given, and the new one is a name.  A rename by an
    expression takes the objects of the listing it has just got.  A recursive move with a policy other than [overwrite] has listed the
    target; only with [cancel] and [skip] does it look at the names. *)
Definition careful (r : fs_request) (h : list fs_event) (c : fs_action) : Prop :=
  match c, r with
  | CMove src dst _, RMove req => mc_Overwrite req = false → seen_free h dst (base_of src)
  | CMove src dst _, RRecursiveMove _ _ policy =>
      (policy ≠ OVERWRITE → ∃ m l, ev (CList dst false m) (inr l) ∈ h ∧
         (policy = CANCEL ∨ policy = SKIP → base_of src ∉ map f_Name l)) ∧
      (policy = CANCEL ∨ policy = SKIP →
       ∀ src' lazy x, ev (CMove src' dst lazy) x ∈ h → base_of src' ≠ base_of src)
  | CCopy src dst _ _, RCopy req =>
      mc_Overwrite req = false → mc_SkipExisting req = false → seen_free h dst (base_of src)
  | CRename src name, RRename _ _ false => base_of src = name ∨ seen_free h (path_Dir src) name
  | CRename src name, RBatchRename d l =>
      (base_of src, name) ∈ l ∧ base_of src ≠ [] ∧ ValidateNameComponent name = None
  | CRename src name, RRegexRename d a b =>
      ∃ q m l o MatchString ReplaceAllString, joins d q ∧ ev (CList q false m) (inr l) ∈ h ∧ o ∈ l ∧
        regexp_Compile a = Some (MatchString, ReplaceAllString) ∧ MatchString (f_Name o) = true ∧
        child q (f_Name o) src ∧ name = ReplaceAllString (f_Name o) b
  | CRemove p, RRemoveEmpty _ => ∃ m, last h = Some (ev (CList p true m) (inr []))
  | _, _ => True
  end.

(** *** Requests about the base path itself *)

(** These reach outside: the parent of the base path is listed for [RGet], the
    base path gets another name by [RRename], and an administrator may ask for
    directories from the root. *)
Definition proper (r : fs_request) : Prop :=
  match r with
  | RGet p _ => path_segs p ≠ []
  | RRename p _ _ => path_segs p ≠ []
  | RDirs _ _ forceRoot => forceRoot = false
  | _ => True
  end.

Definition allowed (r : fs_request) (h : list fs_event) (c : fs_action) : Prop :=
  (proper r → confined c) ∧ permitted r c ∧ careful r h c.

Lemma allowed_read r h c : (proper r → confined c) →
  match c with CList _ _ _ | CGet _ | CGetStorage _ | CGetBalancedStorage _ | CLabels _ | CSign _ => True | _ => False end →
  allowed r h c.
Proof. intros Hc H. split; [done|]. by destruct c. Qed.
End spec.
