(* ===== verification/FsHandlersThms.v ===== *)
(** * The file API: what its requests may do

    Every run of a handler, whatever package [fs] answers: the paths it hands
    on lie below the user's base path, each change was permitted by a scope of
    the user's roles, nothing is overwritten or removed that the request did
    not ask for, and a listing shows exactly the page of what is readable. *)

From S2P Require Import Prelude GoStrings Errs Store Paths HttpRange Crypto Users Perm Prog Sign Shares ShareHandlers FsHandlers FsHandlersSpec.

Local Open Scope Z_scope.

Section requests.
Context {RS : RoleStore} {RL : RegexpLib} {MS : MetaStore} {HE : HandlerEnv}.
Context (user : User).

Abbreviation swp r m h Q := (hwp names_ok (allowed user r) m h Q).
Abbreviation good_list l := (Forall (λ o, good_seg (f_Name o)) l).

Lemma allowed_change r h c : confined user c → permitted user r c → careful user r h c → allowed user r h c.
Proof. by split. Qed.

(** *** Making, moving and copying *)

Lemma spec_Mkdir r p h : swp r (FsMkdir user p) h (λ _ _, True).
Proof.
  unfold FsMkdir. hsteps.
  all: try (apply allowed_change; [eapply confined_1; [done|by eapply joined]| |by destruct r]).
  all: try done.
  - by left.
  - right. match goal with H : found_meta _ ?m |- _ => destruct m as [m|]; [by exists m|done] end.
Qed.

Lemma base_of_snoc p l n : path_segs p = l ++ [n] → base_of p = n.
Proof. intros E. unfold base_of. by rewrite E, last_snoc. Qed.

Lemma seen_free_mono dir n h h' : h `prefix_of` h' → seen_free h dir n → seen_free h' dir n.
Proof. intros [k ->] (p & e & Hp & Hin). exists p, e. split; [done|]. set_solver. Qed.

Lemma spec_none_exists r dst names h : within user dst →
  swp r (none_exists dst names) h (λ _ h', ∀ n, n ∈ names → seen_free h' dst n).
Proof.
  intros Hd. apply hwp_each_all; [by intros; eapply seen_free_mono|]. intros n h1 Hn. hsteps.
  - apply allowed_read; [|done]. intros _. eapply confined_1; [done|].
    match goal with H : JoinUnderBase _ _ = _ |- _ => apply under_base in H as (Hp & _) end.
    by eapply within_app.
  - match goal with H : JoinUnderBase _ _ = _ |- _ => apply under_base in H as (Hp & _) end.
    eexists _, _. split; [exact Hp|]. apply elem_of_app. right. left.
Qed.

Lemma spec_mono {A} r (m : handler A) h (P Q : A → list fs_event → Prop) :
  swp r m h P → (∀ a h', P a h' → Q a h') → swp r m h Q.
Proof. apply hwp_mono. Qed.

(** Nothing is at the targets, unless the request may overwrite. *)
Definition all_free (over : bool) (dst : gostr) (names : list gostr) (h : list fs_event) : Prop :=
  over = false → ∀ n, n ∈ names → seen_free h dst n.

Lemma all_free_mono over dst names h h' : h `prefix_of` h' → all_free over dst names h → all_free over dst names h'.
Proof. intros Hp H E n Hn. eapply seen_free_mono; [done|by apply H]. Qed.

Lemma spec_free r (over : bool) dst names h : within user dst →
  swp r (if over then h_ok () else none_exists dst names) h (λ _ h', all_free over dst names h').
Proof.
  intros Hd. apply hwp_if; intros ->; [by apply hwp_ok|].
  eapply spec_mono; [by apply spec_none_exists|]. by intros [] h' H _.
Qed.

Lemma spec_Move req h : swp (RMove req) (FsMove user req) h (λ _ _, True).
Proof.
  unfold FsMove. do 2 hstep. apply hwp_checked. intros src Js Hls. pose proof (joined user _ _ Js) as (Hs & _).
  hstep. apply hwp_checked. intros dst Jd _. pose proof (joined user _ _ Jd) as (Hd & _). apply hwp_check. intros Hperm.
  hstep. eapply spec_mono; [by apply spec_free|]. intros [] h1 Hfree.
  eapply spec_mono; [eapply hwp_each_more_lasting; [by intros; eapply all_free_mono| |exact Hfree]|done].
  intros n more h2 Hn Hfree2. hstep. apply hwp_result. intros p Hj. hstep. apply hwp_result. intros _ _.
  pose proof (under_base _ _ _ Hj) as (Hp & _). hsteps; [|done].
  apply allowed_change.
  - eapply confined_2; [done|by eapply within_app|done].
  - exists (mc_SrcDir req), src. split_ands; try done. split; [by exists n|done].
  - intros Hover. rewrite (base_of_snoc _ _ _ Hp). by apply Hfree2.
Qed.

Lemma spec_copy_all req src dst names h :
  joins user (mc_SrcDir req) src → joins user (mc_DstDir req) dst → CheckPathLimitWithRoles (Some user) src = true →
  HasPermission (MergeRolePermissions (Some user) src) PermCopy = true → names ⊆ mc_Names req →
  all_free (mc_Overwrite req || mc_SkipExisting req) dst names h →
  swp (RCopy req) (copy_all src dst (mc_SkipExisting req) names) h (λ _ _, True).
Proof.
  intros Js Jd Hlim Hperm. pose proof (joined user _ _ Js) as (Hs & _). pose proof (joined user _ _ Jd) as (Hd & _).
  revert h. induction names as [|n names IH]; intros h Hsub Hfree; cbn [copy_all]; [by hsteps|].
  hstep. apply hwp_result. intros p Hj. hstep. apply hwp_result. intros _ _. pose proof (under_base _ _ _ Hj) as (Hp & _).
  hstep. apply hwp_call.
  - apply allowed_change.
    + eapply confined_2; [done|by eapply within_app|done].
    + exists (mc_SrcDir req), src. split_ands; try done. split; [|done]. exists n. split; [apply Hsub; left|done].
    + intros Ho Hk. rewrite (base_of_snoc _ _ _ Hp). apply Hfree; [by rewrite Ho, Hk|left].
  - intros [t e] _. hsteps. eapply spec_mono; [apply IH|].
    + intros m Hm. apply Hsub. by right.
    + intros E m Hm. eapply seen_free_mono; [|by apply Hfree; [|right]]. by apply prefix_app_r.
    + intros ts h' _. by hstep.
Qed.

Lemma spec_Copy req h : swp (RCopy req) (FsCopy user req) h (λ _ _, True).
Proof.
  unfold FsCopy. do 2 hstep. apply hwp_checked. intros src Js Hls.
  hstep. apply hwp_checked. intros dst Jd _. apply hwp_check. intros Hperm.
  hstep. eapply spec_mono; [apply spec_free; by eapply joined|]. intros [] h1 Hfree. by apply spec_copy_all.
Qed.

(** *** Renaming and removing *)

Lemma spec_Rename path name over h : swp (RRename path name over) (FsRename user path name over) h (λ _ _, True).
Proof.
  unfold FsRename. hstep. apply hwp_checked. intros q Hq Hlim. hstep. apply hwp_renamable. intros Hun.
  apply hwp_check. intros Hperm. hstep. apply hwp_error. intros Hname. hstep.
  assert (Hchild : path_segs path ≠ [] → ∀ p l, path_segs p = path_segs (path_Dir q) ++ l → within user p).
  { intros Hp p l E. destruct (parent_within user _ _ Hq Hp) as [Hw _]. by eapply within_app. }
  eapply (spec_mono _ _ _ (λ _ h', over = false → base_of q = name ∨ seen_free h' (path_Dir q) name)).
  - apply hwp_if; intros ->; [by apply hwp_ok|]. hstep. apply hwp_result. intros p Hj.
    pose proof (under_base _ _ _ Hj) as (Hp & _). apply hwp_if; intros Heq; reflect_bools.
    + apply hwp_ok. intros _. left. subst q. by eapply base_of_snoc.
    + hstep. apply hwp_call.
      * apply allowed_read; [|done]. intros Hr. eapply confined_1; [done|]. by eapply Hchild.
      * intros r _. hstep; [|by hstep]. hstep. intros _. right. eexists _, _. split; [exact Hp|]. apply elem_of_app. right. left.
  - intros [] h1 Hfree. hsteps; [|done]. split; [|split].
    + intros Hr. pose proof (joined user _ _ Hq) as (Hw & _).
      destruct (parent_within user _ _ Hq Hr) as (Hpw & l & x & _ & El & Hl & _).
      eapply confined_2; [done|done|]. apply (Hchild Hr _ [name]).
      rewrite El, join_child, path_segs_render; [done..|by apply ValidateNameComponent_good].
    + split; [|done]. by exists path, q.
    + simpl. destruct over; [done|]. by apply Hfree.
Qed.

(** A child of the directory the request names gets a new name. *)
Lemma rename_child r req d n new h p :
  named_in r = Some req → joins user req d → CheckPathLimitWithRoles (Some user) d = true → JoinUnderBase d n = inr p →
  HasPermission (MergeRolePermissions (Some user) d) PermRename = true → unprotected p → ValidateNameComponent new = None →
  asked user r d (CRename p new) → careful user r h (CRename p new) → allowed user r h (CRename p new).
Proof.
  intros Hr J Hlim Hj Hperm Hun Hnew Hask Hcare. pose proof (under_base _ _ _ Hj) as (Hp & Hg & E).
  pose proof (joined user _ _ J) as (Hw & _). apply allowed_change; [| |done].
  - eapply confined_2; [done|by eapply within_app|].
    rewrite E, path_Dir_render by (by apply good_norm, path_segs_good || apply Hg).
    eapply within_app; [|exact Hw]. apply join_child; [apply path_segs_good|by apply ValidateNameComponent_good].
  - split; [|done]. by exists req, d.
Qed.

Lemma spec_BatchRename d objs h : swp (RBatchRename d objs) (FsBatchRename user d objs) h (λ _ _, True).
Proof.
  unfold FsBatchRename. hstep. apply hwp_checked. intros q J Hlim. apply hwp_check. intros Hperm.
  hstep. apply hwp_meta. intros m _. eapply spec_mono; [apply (hwp_each _ _ (λ _, True))|done]; [|done].
  intros [src new] h1 Hin _. hstep; [by hstep|]. hstep. apply hwp_error. intros Hnew. hstep. apply hwp_result.
  intros p Hj. hstep. apply hwp_renamable. intros Hun. hsteps; [|done].
  pose proof (under_base _ _ _ Hj) as (Hp & Hg & _). eapply rename_child; try done; [by exists src|].
  simpl. rewrite (base_of_snoc _ _ _ Hp). split_ands; [done| |done]. by destruct Hg as [[? _] _].
Qed.

Lemma spec_RegexRename d a b h : swp (RRegexRename d a b) (FsRegexRename user d a b) h (λ _ _, True).
Proof.
  unfold FsRegexRename. hstep. apply hwp_checked. intros q J Hlim. apply hwp_check. intros Hperm.
  hstep. apply hwp_meta. intros m _. destruct (regexp_Compile a) as [[mt rp]|] eqn:Ec; [|hstep].
  hstep. hstep. apply hwp_call; [apply allowed_read; [|done]; intros; eapply confined_1; [done|by eapply joined]|].
  intros r _ l ->. set (h1 := h ++ _).
  eapply spec_mono; [apply (hwp_each_lasting _ _ (λ h', h1 `prefix_of` h')); [|intros o h2 Ho Hpre|done]|done].
  { intros h2 h3 H1 H2. by etrans. }
  hstep; [|by hstep]. hstep. apply hwp_result. intros p Hj. hstep. apply hwp_renamable. intros Hun.
  cbv zeta. hstep. apply hwp_error. intros Hnew. hsteps; [|done].
  pose proof (under_base _ _ _ Hj) as (Hp & Hg & _). eapply rename_child; try done; [by exists (f_Name o), mt, rp|].
  exists q, m, l, o, mt, rp. split_ands; try done. destruct Hpre as [k ->]. apply elem_of_app. left. apply elem_of_app. right. left.
Qed.

Lemma spec_Remove d names h : swp (RRemove d names) (FsRemove user d names) h (λ _ _, True).
Proof.
  unfold FsRemove. do 2 hstep. apply hwp_checked. intros q J Hlim. pose proof (joined user _ _ J) as (Hw & _).
  apply hwp_check. intros Hperm. eapply spec_mono; [apply (hwp_each _ _ (λ _, True))|done]; [|done].
  intros n h1 Hn _. hstep. apply hwp_result. intros p Hj. hsteps; [|done].
  pose proof (under_base _ _ _ Hj) as (Hp & _). apply allowed_change; [| |done].
  - eapply confined_1; [done|]. by eapply within_app.
  - exists d, q. split_ands; try done. by exists n.
Qed.

(** *** Empty directories *)

(** Queued objects have names and a directory below the one of the request. *)
Record queued_ok (src : gostr) (paths : gmap nat gostr) (f : FObj) : Prop := {
  qo_name : good_seg (f_Name f);
  qo_path : is_Some (paths !! f_addr f);
}.

Definition paths_ok (src : gostr) (paths : gmap nat gostr) : Prop :=
  ∀ a d, paths !! a = Some d → path_segs src `prefix_of` path_segs d.

Record empty_ok (src : gostr) (st : empty_state) : Prop := {
  eo_queue : Forall (queued_ok src (es_path st)) (es_queue st);
  eo_path : paths_ok src (es_path st);
  eo_parent : ∀ a f, es_parent st !! a = Some f → queued_ok src (es_path st) f;
}.

Lemma queued_insert src paths a d f : queued_ok src paths f → queued_ok src (<[a := d]> paths) f.
Proof.
  intros [Hn Hp]. split; [done|]. destruct (decide (a = f_addr f)) as [->|]; [by rewrite lookup_insert_eq|].
  by rewrite lookup_insert_ne.
Qed.

Lemma paths_insert src paths a d : paths_ok src paths → path_segs src `prefix_of` path_segs d → paths_ok src (<[a := d]> paths).
Proof. intros H Hd b e [[_ <-]|[_ ?]]%lookup_insert_Some; [done|by eapply H]. Qed.

Lemma path_of_below src paths f : paths_ok src paths → queued_ok src paths f →
  path_segs src `prefix_of` path_segs (path_of paths f).
Proof.
  intros H [Hn [d Hd]]. unfold path_of. rewrite Hd, path_segs_sprintf by done. apply prefix_app_r. by eapply H.
Qed.

Lemma push_dir_ok src d parent st f :
  path_segs src `prefix_of` path_segs d → good_seg (f_Name f) →
  (∀ up, parent = Some up → queued_ok src (es_path st) up) → empty_ok src st → empty_ok src (push_dir d parent st f).
Proof.
  intros Hd Hf Hup [Q P U]. unfold push_dir. destruct (f_IsDir f); [|done].
  split; cbn [es_queue es_path es_parent].
  - apply Forall_app_2.
    + eapply Forall_impl; [exact Q|]. intros. by apply queued_insert.
    + constructor; [|done]. split; [done|]. by rewrite lookup_insert_eq.
  - by apply paths_insert.
  - intros a g Hg. apply queued_insert. destruct parent as [up|]; [|by eapply U].
    apply lookup_insert_Some in Hg as [[_ <-]|[_ Hg]]; [by apply Hup|by eapply U].
Qed.

Lemma push_dirs_ok src d parent l st :
  path_segs src `prefix_of` path_segs d → good_list l →
  (∀ up, parent = Some up → queued_ok src (es_path st) up) → empty_ok src st →
  empty_ok src (fold_left (push_dir d parent) l st).
Proof.
  intros Hd Hl. revert st. induction Hl as [|f l Hf Hl IH]; intros st Hup Hst; [done|]. simpl.
  apply IH; [|by apply push_dir_ok]. intros up E. unfold push_dir. destruct (f_IsDir f); [|by apply Hup].
  by apply queued_insert, Hup.
Qed.

Lemma spec_remove_empty src dir fuel meta st h :
  joins user dir src → CheckPathLimitWithRoles (Some user) src = true →
  HasPermission (MergeRolePermissions (Some user) src) PermRemove = true → empty_ok src st →
  swp (RRemoveEmpty dir) (remove_empty fuel meta st) h (λ _ _, True).
Proof.
  intros J Hlim Hperm. pose proof (joined user _ _ J) as (Hw & _).
  revert st h. induction fuel as [|fuel IH]; intros st h Hst; cbn [remove_empty].
  { destruct (es_queue st); [by hstep|apply hwp_fuel]. }
  destruct (es_queue st) as [|f queue] eqn:Eq; [by hstep|]. cbv zeta.
  destruct Hst as [Q P U]. rewrite Eq in Q. apply Forall_cons in Q as [Hf Q].
  assert (Hrest : empty_ok src {| es_queue := queue; es_path := es_path st; es_parent := es_parent st; es_removed := es_removed st |})
    by (by split).
  pose proof (path_of_below src _ f P Hf) as Hp. set (p := path_of (es_path st) f) in *.
  assert (Hwp : within user p) by (unfold within in *; by etrans).
  hstep; [by apply IH|]. hstep. hstep. apply hwp_call.
  { apply allowed_read; [|done]. intros _. by eapply confined_1. }
  intros r Hr l ->. specialize (Hr l eq_refl). apply hwp_if; intros El; reflect_bools.
  - subst l. hstep. hstep. apply hwp_call.
    + apply allowed_change; [by eapply confined_1|by exists dir, src|]. exists meta. by rewrite last_snoc.
    + intros ? _ ? _. apply IH. split; cbn [es_queue es_path es_parent]; [|done|done].
      destruct (es_parent st !! f_addr f) as [up|] eqn:Eup; [|done].
      apply Forall_app_2; [done|]. constructor; [by eapply U|done].
  - apply IH. apply push_dirs_ok; [done|done| |done]. intros up [= <-]. done.
Qed.

Lemma spec_RemoveEmpty fuel dir h : swp (RRemoveEmpty dir) (FsRemoveEmptyDirectory user fuel dir) h (λ _ _, True).
Proof.
  unfold FsRemoveEmptyDirectory. hstep. apply hwp_checked. intros q J Hlim.
  pose proof (joined user _ _ J) as (Hw & _). apply hwp_check. intros Hperm.
  hstep. apply hwp_meta. intros m _. hstep. hstep.
  apply hwp_call; [apply allowed_read; [|done]; by intros; eapply confined_1|]. intros r Hr l ->.
  apply (spec_remove_empty q); [done..|]. apply push_dirs_ok; [done|by apply Hr|done|].
  split; cbn; [constructor|by intros ? ? ?%lookup_empty_Some|by intros ? ? ?%lookup_empty_Some].
Qed.

(** *** Moving a tree *)

Definition strict (policy : gostr) : Prop := policy = CANCEL ∨ policy = SKIP.

(** The files to move lie below the directory; with a policy that keeps what
    is there, their names are not taken and differ. *)
Record moving_ok (src policy : gostr) (taken : list gostr) (moving : list gostr) : Prop := {
  mo_below : Forall (λ p, path_segs src `prefix_of` path_segs p) moving;
  mo_names : strict policy → NoDup (map base_of moving);
  mo_free : strict policy → ∀ p, p ∈ moving → base_of p ∉ taken;
}.

Record move_ok (src policy : gostr) (taken : list gostr) (st : move_state) : Prop := {
  mv_queue : Forall (queued_ok src (ms_path st)) (ms_queue st);
  mv_path : paths_ok src (ms_path st);
  mv_moving : moving_ok src policy taken (ms_moving st);
  mv_existing : strict policy → ms_existing st = taken ++ map base_of (ms_moving st);
}.

Lemma push_objs_ok src policy taken d l st :
  path_segs src `prefix_of` path_segs d → good_list l → move_ok src policy taken st →
  move_ok src policy taken (fold_left (push_obj d) l st).
Proof.
  intros Hd Hl. revert st. induction Hl as [|f l Hf Hl IH]; intros st Hst; [done|]. simpl. apply IH.
  destruct Hst as [Q P M E]. split; cbn [ms_queue ms_path ms_moving ms_existing push_obj]; [| |done|done].
  - apply Forall_app_2; [eapply Forall_impl; [exact Q|]; intros; by apply queued_insert|].
    constructor; [|done]. split; [done|]. by rewrite lookup_insert_eq.
  - by apply paths_insert.
Qed.

Lemma move_file_ok src policy taken dst f st st' :
  queued_ok src (ms_path st) f → move_ok src policy taken st → move_file policy dst f st = Some st' →
  move_ok src policy taken st'.
Proof.
  intros Hf Hst. pose proof (path_of_below src _ f (mv_path _ _ _ _ Hst) Hf) as Hp.
  assert (Hb : base_of (path_of (ms_path st) f) = f_Name f).
  { unfold path_of. eapply base_of_snoc. apply path_segs_sprintf, Hf. }
  destruct Hst as [Q P [M1 M2 M3] E]. unfold move_file. cbv zeta. fold (path_of (ms_path st) f).
  case_bool_decide; [by intros [= <-]|].
  case_bool_decide as Hin.
  - case_bool_decide; [done|]. case_bool_decide; [by intros [= <-]|]. intros [= <-].
    split; cbn [ms_queue ms_path ms_moving ms_existing]; [done|done| |by intros [?|?]].
    split; [apply Forall_app_2; [done|by constructor]|by intros [?|?]|by intros [?|?]].
  - intros E'. assert (Hnew : moving_ok src policy taken (ms_moving st ++ [path_of (ms_path st) f])).
    { split; [apply Forall_app_2; [done|by constructor]| |].
      - intros Hs. rewrite map_app. apply NoDup_app. split; [by apply M2|]. split; [|by apply NoDup_singleton].
        intros n Hn ->%list_elem_of_singleton. apply Hin. rewrite (E Hs), Hb in *. apply elem_of_app. by right.
      - intros Hs p [Hin'|Hin']%elem_of_app; [by apply M3|]. apply list_elem_of_singleton in Hin' as ->.
        rewrite Hb. intros Ht. apply Hin. rewrite (E Hs). set_solver. }
    case_bool_decide as Hov; injection E' as <-;
      (split; cbn [ms_queue ms_path ms_moving ms_existing]; [done|done|done|]); intros Hs.
    + subst policy. by destruct Hs.
    + rewrite (E Hs), map_app, app_assoc. simpl. by rewrite Hb.
Qed.

Definition no_moves (h : list fs_event) : Prop := ∀ c r, ev c r ∈ h → match c with CMove _ _ _ => False | _ => True end.

Lemma no_moves_snoc h c r : match c with CMove _ _ _ => False | _ => True end → no_moves h → no_moves (h ++ [ev c r]).
Proof.
  intros Hc H c' r' [Hin|Hin]%elem_of_app; [by eapply H|]. apply list_elem_of_singleton in Hin.
  apply (f_equal (@projT1 _ _)) in Hin. simpl in Hin. by subst c'.
Qed.

Lemma spec_collect r src policy taken fuel meta dst st h :
  within user src → move_ok src policy taken st → no_moves h →
  swp r (collect_moves fuel meta policy dst st) h (λ l h', moving_ok src policy taken l ∧ no_moves h').
Proof.
  intros Hw. revert st h. induction fuel as [|fuel IH]; intros st h Hst Hh; cbn [collect_moves].
  { destruct (ms_queue st); [hstep; split; [apply Hst|done]|apply hwp_fuel]. }
  destruct (ms_queue st) as [|f queue] eqn:Eq; [hstep; split; [apply Hst|done]|]. cbv zeta.
  destruct Hst as [Q P M E]. rewrite Eq in Q. apply Forall_cons in Q as [Hf Q].
  assert (Hrest : move_ok src policy taken {| ms_queue := queue; ms_path := ms_path st; ms_existing := ms_existing st;
                                             ms_moving := ms_moving st |}) by (by split).
  pose proof (path_of_below src _ f P Hf) as Hp. set (p := path_of (ms_path st) f) in *.
  hstep.
  - hstep. hstep. apply hwp_call.
    { apply allowed_read; [|done]. intros _. eapply confined_1; [done|]. unfold within in *. by etrans. }
    intros x Hx l ->. apply IH; [|by apply no_moves_snoc]. apply push_objs_ok; [done|by apply Hx|done].
  - destruct (move_file _ _ _ _) as [st'|] eqn:Em; [|hstep]. apply IH; [|done]. refine (move_file_ok src policy taken dst f _ st' _ Hrest Em). exact Hf.
Qed.

(** The names of the files moved so far are not those of the files left. *)
Definition moved_apart (dst : gostr) (left : list gostr) (h : list fs_event) : Prop :=
  ∀ src lazy x, ev (CMove src dst lazy) x ∈ h → base_of src ∉ map base_of left.

Lemma spec_move_all a b policy src dst taken moving h :
  joins user a src → joins user b dst → CheckPathLimitWithRoles (Some user) src = true →
  HasPermission (MergeRolePermissions (Some user) src) PermMove = true →
  moving_ok src policy taken moving → (strict policy → moved_apart dst moving h) →
  (policy ≠ OVERWRITE → ∃ m l, ev (CList dst false m) (inr l) ∈ h ∧ taken = map f_Name l) →
  swp (RRecursiveMove a b policy)
    (h_each_more (λ fileName more, h_do 500 (h_call (CMove fileName dst more))) moving) h (λ _ _, True).
Proof.
  intros Ja Jb Hlim Hperm. pose proof (joined user _ _ Ja) as (Hs & _). pose proof (joined user _ _ Jb) as (Hd & _).
  revert h. induction moving as [|p moving IH]; intros h [M1 M2 M3] Hap Hl; cbn [h_each_more]; [by hstep|].
  apply Forall_cons in M1 as [Hp M1]. hstep. hstep. apply hwp_call.
  - apply allowed_change.
    + eapply confined_2; [done|unfold within in *; etrans; [exact Hs|exact Hp]|done].
    + by exists a, src.
    + split.
      * intros Hst. destruct (Hl Hst) as (m & l & Hin & ->). exists m, l. split; [done|]. intros Hst'. apply M3; [done|left].
      * intros Hst src' lazy x Hx E. apply (Hap Hst src' lazy x Hx). rewrite E. left.
  - intros r _ u _. apply IH.
    + split; [done| |]; intros Hst; [by specialize (M2 Hst); apply NoDup_cons in M2 as [_ ?]|].
      intros q Hq. apply M3; [done|by right].
    + intros Hst src' lazy x [Hx|Hx]%elem_of_app.
      * intros Hin. apply (Hap Hst src' lazy x Hx). by right.
      * apply list_elem_of_singleton in Hx. apply (f_equal (@projT1 _ _)) in Hx. simpl in Hx. simplify_eq.
        specialize (M2 Hst). by apply NoDup_cons in M2 as [? _].
    + intros Hst. destruct (Hl Hst) as (m & l & Hin & E). exists m, l. split; [|done]. apply elem_of_app. by left.
Qed.

Lemma spec_RecursiveMove fuel a b policy h : no_moves h →
  swp (RRecursiveMove a b policy) (FsRecursiveMove user fuel a b policy) h (λ _ _, True).
Proof.
  intros Hh. unfold FsRecursiveMove. hstep. apply hwp_checked. intros src Ja Hlim. pose proof (joined user _ _ Ja) as (Hs & _).
  hstep. apply hwp_checked. intros dst Jb _. pose proof (joined user _ _ Jb) as (Hd & _). apply hwp_check. intros Hperm.
  hstep. apply hwp_meta. intros m _. hstep. hstep.
  apply hwp_call; [apply allowed_read; [|done]; by intros; eapply confined_1|]. intros r Hr l ->.
  set (h1 := h ++ _). assert (Hh1 : no_moves h1) by (by apply no_moves_snoc). hstep.
  eapply (spec_mono _ _ _ (λ taken h2, no_moves h2 ∧
    (policy ≠ OVERWRITE → ∃ m l, ev (CList dst false m) (inr l) ∈ h2 ∧ taken = map f_Name l))).
  { apply hwp_if; intros Hp; reflect_bools.
    - apply hwp_ok. by split.
    - hstep. hstep. apply hwp_call; [apply allowed_read; [|done]; by intros; eapply confined_1|].
      intros x _ l' ->. apply hwp_ok. split; [by apply no_moves_snoc|]. intros _. exists m, l'. split; [|done].
      apply elem_of_app. right. left. }
  intros taken h2 [Hh2 Htaken]. hstep. eapply spec_mono.
  { apply hwp_grows, (spec_collect _ src policy taken); [done| |done]. apply push_objs_ok; [done|by apply Hr|].
    split; cbn; [constructor|by intros ? ? ?%lookup_empty_Some| |by rewrite app_nil_r].
    split; [constructor|intros; constructor|by intros _ p ?%elem_of_nil]. }
  intros moving h3 [[Hmv Hh3] Hpre]. hstep. eapply spec_mono; [|by intros [] h4 _; hstep].
  apply (spec_move_all _ _ _ src dst taken); [done..| |].
  - intros Hst s lz x Hx. by apply Hh3 in Hx.
  - intros Hst. destruct (Htaken Hst) as (m' & l' & Hin & E). exists m', l'. split; [|done].
    destruct Hpre as [k ->]. apply elem_of_app. by left.
Qed.

(** *** Reading *)

Lemma access_reads m p pw : CanAccessWithRoles (Some user) m p pw = Ret true → CanReadPathByRole (Some user) p = true.
Proof. unfold CanAccessWithRoles. by destruct (CanReadPathByRole (Some user) p). Qed.

Lemma spec_isEncrypt r m p h : (proper r → within user p) → swp r (isEncrypt m p) h (λ _ _, True).
Proof. intros Hp. unfold isEncrypt. hsteps; [|done]. apply allowed_read; [|done]. intros. eapply confined_1; auto. Qed.

(** Signatures are made for objects of the directory. *)
Lemma spec_common_Sign r o d e h : (proper r → within user d) → d = render (path_segs d) → good_seg (f_Name o) →
  swp r (common_Sign o d e) h (λ _ _, True).
Proof.
  intros Hd Ed Ho. unfold common_Sign. hsteps; [done| |done]. apply allowed_read; [|done]. intros Hr.
  eapply confined_1; [done|]. eapply within_app; [|by apply Hd]. rewrite Ed at 1. apply join_child; [apply path_segs_good|done].
Qed.

Lemma spec_toObjsResp r objs d e h : (proper r → within user d) → d = render (path_segs d) → good_list objs →
  swp r (toObjsResp objs d e) h (λ _ _, True).
Proof.
  intros Hd Ed Ho. unfold toObjsResp. hstep. apply hwp_call; [apply allowed_read; [|done]; intros _; constructor|].
  intros labels _. generalize (h ++ [ev (CLabels (map f_Name (filter (λ o, f_IsDir o = false) objs))) labels]).
  induction Ho as [|o objs Ho Hl IH]; intros h1; cbn [objs_resp]; [by hstep|]. cbv zeta.
  hstep. eapply spec_mono; [by apply spec_common_Sign|]. intros s h2 _. hstep.
  eapply spec_mono; [apply IH|]. intros rest h3 _. by hstep.
Qed.

Lemma page_elem_of {A} (l : list A) page per total sub :
  pagination l page per = Ret (total, sub) → ∀ x, x ∈ sub → x ∈ l.
Proof.
  unfold pagination. intros E x Hx. destruct (per =? AllPerPage); [by simplify_eq|].
  destruct (_ <? _); [simplify_eq; by apply elem_of_nil in Hx|]. destruct (_ || _); [done|]. simplify_eq.
  rewrite <- (take_drop (Z.to_nat (wrap64 ((page - 1) * per))) l). apply elem_of_app. right.
  match goal with H : x ∈ take ?k ?l' |- _ => rewrite <- (take_drop k l') end. apply elem_of_app. by left.
Qed.

Lemma good_filter (P : FObj → Prop) `{!∀ o, Decision (P o)} l : good_list l → good_list (filter P l).
Proof. rewrite !Forall_forall. intros Hl o [_ Ho]%list_elem_of_filter. by apply Hl. Qed.

Lemma readable_good q l : good_list l → good_list (readable_in user q l).
Proof. apply good_filter. Qed.

Lemma page_good l page per total sub : good_list l → pagination l page per = Ret (total, sub) → good_list sub.
Proof. rewrite !Forall_forall. intros Hl E x Hx. apply Hl. by eapply page_elem_of. Qed.

Lemma spec_List req h : swp (RList req) (FsList user req) h (λ _ _, True).
Proof.
  unfold FsList. destruct (normalizeListPage _ _) as [page per]. hstep. apply hwp_join.
  intros q (Hw & Eq & _)%joined. hstep. apply hwp_meta. intros m _. hstep. apply hwp_access. intros _. cbv zeta.
  hstep; [hstep|]. hstep. apply hwp_call; [apply allowed_read; [|done]; by intros; eapply confined_1|]. intros st _.
  hstep. hstep. apply hwp_call; [apply allowed_read; [|done]; by intros; eapply confined_1|]. intros r Hr l ->.
  hstep. apply hwp_outcome. intros [total sub] Hpg. hstep. eapply spec_mono; [by apply spec_isEncrypt|]. intros e h1 _.
  hstep. eapply spec_mono; [|by intros; hstep]. apply spec_toObjsResp; [done|done|].
  eapply page_good; [|exact Hpg]. by apply readable_good, Hr.
Qed.

Lemma spec_Dirs p pw root h : swp (RDirs p pw root) (FsDirs user p pw root) h (λ _ _, True).
Proof.
  unfold FsDirs. hstep. eapply (spec_mono _ _ _ (λ q _, root = false → within user q)).
  { apply hwp_if; intros ->; [hsteps; done|]. apply hwp_join. intros q (Hw & _)%joined _. done. }
  intros q h1 Hq. hsteps; [|done]. apply allowed_read; [|done]. intros Hr. eapply confined_1; [done|]. by apply Hq.
Qed.

Lemma spec_raw_url r m q s o h : (proper r → within user q) → CanReadPathByRole (Some user) q = true →
  swp r (raw_url m q s o) h (λ _ _, True).
Proof.
  intros Hq Hread. unfold raw_url. hstep. eapply spec_mono; [by apply spec_isEncrypt|]. intros e h1 _. hstep.
  assert (Hsign : ∀ h', allowed user r h' (CSign q)).
  { intros h'. apply allowed_read; [|done]. intros. eapply confined_1; auto. }
  eapply (spec_mono _ _ _ (λ _ _, True)); [hsteps; done|]. intros query h2 _. cbv zeta. hstep; [by hstep|]. hstep.
  - hstep; [|by hstep]. unfold BuildDownProxyURL. hsteps; done.
  - destruct (f_URL o); hsteps; [done| |done]. split; [intros; eapply confined_1; auto|]. split; [done|by destruct r].
Qed.

Lemma filterRelated_good l o : good_list l → good_list (filterRelated l o).
Proof. apply good_filter. Qed.

Lemma spec_Get p pw h : swp (RGet p pw) (FsGet user p pw) h (λ _ _, True).
Proof.
  unfold FsGet. hstep. apply hwp_join. intros q Hq. pose proof (joined user _ _ Hq) as (Hw & Eq & Hsegs).
  hstep. apply hwp_meta. intros m _. hstep. apply hwp_access. intros Hacc%access_reads.
  hstep. hstep. apply hwp_call; [apply allowed_read; [|done]; by intros; eapply confined_1|]. intros r Hr o ->.
  specialize (Hr o eq_refl). simpl in Hr. cbv zeta.
  hstep. apply hwp_call; [apply allowed_read; [|done]; by intros; eapply confined_1|]. intros st _.
  hstep. eapply (spec_mono _ _ _ (λ _ _, True)).
  { hstep; [by hstep|]. destruct st as [e|s]; [hstep|]. by apply spec_raw_url. }
  intros raw h1 _.
  assert (Hpar : proper (RGet p pw) → within user (path_Dir q)).
  { intros Hp. by destruct (parent_within user _ _ Hq Hp). }
  assert (Edir : path_Dir q = render (path_segs (path_Dir q))).
  { destruct (split_last (path_segs q)) as [E|(l & x & E)].
    - rewrite Eq, E. done.
    - pose proof (path_segs_good q) as Hg. rewrite E in Hg. apply Forall_app in Hg as [Hl Hx]. apply Forall_cons in Hx as [Hx _].
      rewrite Eq, E, path_Dir_render by (by apply good_norm || apply Hx). by rewrite path_segs_render. }
  hstep. apply hwp_call; [apply allowed_read; [|done]; intros; eapply confined_1; auto|]. intros sl Hsl.
  hstep. eapply spec_mono; [by apply spec_isEncrypt|]. intros e h2 _.
  hstep. eapply spec_mono; [by apply spec_common_Sign|]. intros s h3 _.
  hstep. eapply spec_mono; [by apply spec_isEncrypt|]. intros e' h4 _.
  hstep. eapply spec_mono; [|by intros; hstep]. apply spec_toObjsResp; [done|done|].
  destruct sl as [?|l]; [constructor|]. by apply filterRelated_good, Hsl.
Qed.

Lemma spec_Other p me pw h : swp (ROther p me pw) (FsOther user p me pw) h (λ _ _, True).
Proof.
  unfold FsOther. hstep. apply hwp_join. intros q (Hw & _)%joined. hstep. apply hwp_meta. intros m _.
  hstep. apply hwp_access. intros Hacc%access_reads. hsteps; [|done].
  by apply allowed_change; [eapply confined_1| |].
Qed.

(** *** Uploads *)

(** What the middleware has checked. *)
Definition upload_granted (q : gostr) : Prop :=
  CanReadPathByRole (Some user) q = true ∧
  (HasPermission (MergeRolePermissions (Some user) q) PermWrite = true ∨
   ∃ m, GetNearestMeta (path_Dir q) = inr m ∧ meta_CanWrite (Some m) (path_Dir q) = true).

Lemma spec_FsUp r req h : swp r (FsUp user req) h (λ _ h', h' = h ∧
  ∃ p q, PathUnescape (pr_FilePath req) = Some p ∧ JoinPath (Some GetRole) user p = inr q ∧ upload_granted q).
Proof.
  unfold FsUp, unescape. hstep. destruct (PathUnescape _) as [p|] eqn:Ep; [|hstep]. hstep.
  hstep. apply hwp_join. intros q Hq. hstep. apply hwp_meta. intros m Hm. hstep. apply hwp_outcome. intros b Hb.
  apply hwp_check. intros Hok. hstep. split; [done|]. exists p, q. split; [done|]. split; [done|]. reflect_bools.
  subst b. split; [by eapply access_reads|].
  match goal with H : _ || _ = true |- _ => apply orb_true_iff in H as [H|H]; [by left|right] end.
  destruct m as [m|]; [by exists m|done].
Qed.

Lemma join_split q : q = render (path_segs q) → path_join (path_Split q).1 (path_Split q).2 = q.
Proof.
  intros Eq. destruct (split_last (path_segs q)) as [E|(l & x & E)].
  - rewrite Eq, E. done.
  - pose proof (path_segs_good q) as Hg. rewrite E in Hg. apply Forall_app in Hg as [Hl Hx].
    apply Forall_cons in Hx as [Hx _]. rewrite Eq, E, path_Split_render by apply Hx. simpl. by apply path_join_dir_slash.
Qed.

Lemma spec_put_stream r asTask q s h : match r with RPut _ | RForm _ _ => True | _ => False end →
  within user q → q = render (path_segs q) → upload_granted q → fst_Name s = (path_Split q).2 →
  swp r (put_stream asTask (path_Split q).1 s) h (λ _ _, True).
Proof.
  intros Hr Hw Eq [Hread Hwrite] Hn. pose proof (join_split q Eq) as Ej. rewrite <- Hn in Ej.
  unfold put_stream. hsteps; try done; (split; [intros _; eapply confined_1; [done|]; by rewrite Ej|]; split; [|by destruct r]);
    unfold permitted; by rewrite Ej.
Qed.

Lemma spec_refuse r req q h : within user q → swp r (refuse_existing req q) h (λ _ _, True).
Proof. intros Hw. unfold refuse_existing. hsteps; try done. apply allowed_read; [|done]. by intros; eapply confined_1. Qed.

Lemma spec_Put req h : swp (RPut req) (let@ _ := FsUp user req in h_void (FsStream user req)) h (λ _ _, True).
Proof.
  hstep. eapply spec_mono; [apply spec_FsUp|]. intros [] h1 (_ & p & q & Ep & Hq & Hup).
  pose proof (joined user _ _ Hq) as (Hw & Eq & _). hstep. hstep. unfold FsStream, unescape. rewrite Ep. hstep. hstep.
  cbv zeta. hstep. apply hwp_join. intros q' Hq'. rewrite Hq in Hq'. injection Hq' as <-. hstep.
  eapply spec_mono; [by apply spec_refuse|]. intros [] h2 _. destruct (path_Split q) as [dir name] eqn:Es.
  destruct (ParseInt _) as [size [e|]]; [hstep|]. cbv zeta. eapply spec_mono; [|by intros; hstep].
  replace dir with (path_Split q).1 by (by rewrite Es). apply spec_put_stream; [done..|]. by rewrite Es.
Qed.

Lemma spec_Form req file h : swp (RForm req file) (let@ _ := FsUp user req in h_void (FsForm user req file)) h (λ _ _, True).
Proof.
  hstep. eapply spec_mono; [apply spec_FsUp|]. intros [] h1 (_ & p & q & Ep & Hq & Hup).
  pose proof (joined user _ _ Hq) as (Hw & Eq & _). hstep. hstep. unfold FsForm, unescape. rewrite Ep. hstep. hstep.
  cbv zeta. hstep. apply hwp_join. intros q' Hq'. rewrite Hq in Hq'. injection Hq' as <-. hstep.
  eapply spec_mono; [by apply spec_refuse|]. intros [] h2 _. hstep. hstep.
  apply hwp_call; [apply allowed_read; [|done]; by intros; eapply confined_1|]. intros st _ si ->.
  hstep; [hstep|]. hstep. apply hwp_result. intros [size ct] _. destruct (path_Split q) as [dir name] eqn:Es.
  cbv zeta. eapply spec_mono; [|by intros; hstep].
  replace dir with (path_Split q).1 by (by rewrite Es). apply spec_put_stream; [done..|]. by rewrite Es.
Qed.

(** *** Every request *)

Lemma spec_void {A} r (m : handler A) h : swp r m h (λ _ _, True) → swp r (h_void m) h (λ _ _, True).
Proof. intros H. unfold h_void. hstep. eapply spec_mono; [exact H|]. intros. by hstep. Qed.

Lemma spec_serve fuel r : swp r (serve user fuel r) [] (λ _ _, True).
Proof.
  destruct r; cbn [serve].
  - apply spec_void, spec_List.
  - apply spec_void, spec_Dirs.
  - apply spec_void, spec_Get.
  - apply spec_void, spec_Other.
  - apply spec_Mkdir.
  - apply spec_Move.
  - apply spec_void, spec_Copy.
  - apply spec_Rename.
  - apply spec_BatchRename.
  - apply spec_RegexRename.
  - apply spec_void, spec_RecursiveMove. intros c x Hx. by apply elem_of_nil in Hx.
  - apply spec_Remove.
  - apply spec_RemoveEmpty.
  - apply spec_Put.
  - apply spec_Form.
Qed.
End requests.

(** ** Confinement, permissions, care *)

Section theorems.
Context {RS : RoleStore} {RL : RegexpLib} {MS : MetaStore} {HE : HandlerEnv}.
Context (user : User) (fuel : nat) (r : fs_request).

Lemma serve_allowed tr x t1 e t2 :
  runs_to (serve user fuel r) tr x → Forall (λ e, names_ok (projT1 e) (projT2 e)) tr →
  tr = t1 ++ e :: t2 → allowed user r t1 (projT1 e).
Proof.
  intros Hrun Hg E. eapply wp_sound in Hrun as [_ Hok]; [|apply (spec_serve user fuel r)|done].
  specialize (Hok t1 e t2 E). done.
Qed.

(** No request of the file API leaves the user's base path: in every run,
    whatever package [fs] answers, each path that is listed, looked up, linked,
    signed, made, moved, copied, renamed, removed or written lies at or below
    the base path.  Requests to rename the base path itself or to describe it
    ([RGet] lists its parent), and the listing from the root an administrator
    may ask for, are not meant. *)
Theorem fs_requests_confined tr x :
  proper r → runs_to (serve user fuel r) tr x → Forall (λ e, names_ok (projT1 e) (projT2 e)) tr →
  ∀ e p, e ∈ tr → p ∈ touches (projT1 e) → IsSubPath (BasePath user) p = true.
Proof.
  intros Hp Hrun Hg e p He Hin. apply list_elem_of_split in He as (t1 & t2 & E).
  destruct (serve_allowed _ _ _ _ _ Hrun Hg E) as [Hc _]. specialize (Hc Hp). unfold confined in Hc.
  rewrite Forall_forall in Hc. apply IsSubPath_segs. by apply Hc.
Qed.

(** The object a call changes and the permission for it. *)
Definition change (c : fs_action) : option (Z * gostr) :=
  match c with
  | CMove src _ _ => Some (PermMove, src)
  | CCopy src _ _ _ => Some (PermCopy, src)
  | CRename src _ => Some (PermRename, src)
  | CRemove p => Some (PermRemove, p)
  | _ => None
  end.

(** A scope of one of the user's roles has the permission and contains the
    path; at the root and at the base path the scopes of all roles count. *)
Definition scope_permits (bit : Z) (d : gostr) : Prop :=
  ∃ g, granted GetRole user g ∧ Z.testbit (pe_Permission g) bit = true ∧
    (IsSubPath (pe_Path g) d = true ∨ at_root user d).

Lemma permitted_scope bit c : 0 ≤ bit → permitted_at user r bit c →
  ∃ req d, named_in r = Some req ∧ joins user req d ∧ scope_permits bit d ∧ asked user r d c.
Proof.
  intros Hb (req & d & Hr & J & _ & Hd & Hask). exists req, d. split_ands; try done.
  apply MergeRolePermissions_bit in Hd as (g & Hg & Ht & Hs); [|done].
  exists g. rewrite IsSubPath_segs. by destruct Hs; auto.
Qed.


End theorems.

(** ** Listings *)

Section listing.
Context {RS : RoleStore} {RL : RegexpLib} {MS : MetaStore} {HE : HandlerEnv}.
Context (user : User).
Abbreviation lwp m h Q := (hwp (λ _ _, True) (λ _ _, True) m h Q).

Lemma objs_resp_objs labels d e l h : lwp (objs_resp labels d e l) h (λ x _, map or_Obj x = l).
Proof.
  revert h. induction l as [|o l IH]; intros h; cbn [objs_resp]; [by hstep|]. cbv zeta. hstep.
  eapply (hwp_mono _ _ _ _ (λ _ _, True)); [unfold common_Sign; hsteps; done|]. intros s h1 _. hstep.
  eapply hwp_mono; [apply IH|]. intros x h2 Hx. hstep. simpl. by rewrite Hx.
Qed.

Lemma toObjsResp_objs l d e h : lwp (toObjsResp l d e) h (λ x _, map or_Obj x = l).
Proof. unfold toObjsResp. hstep. apply hwp_call; [done|]. intros labels _. apply objs_resp_objs. Qed.

Lemma pagination_total {A} (l : list A) page per total sub :
  pagination l page per = Ret (total, sub) → total = Z.of_nat (length l).
Proof.
  unfold pagination. destruct (per =? AllPerPage); [by intros [= <- _]|].
  destruct (_ <? _); [by intros [= <- _]|]. destruct (_ || _); [done|]. by intros [= <- _].
Qed.

(** The part of a list a page has. *)
Definition page_of {A} (page per : Z) (l : list A) : list A :=
  if per =? AllPerPage then l else take (Z.to_nat per) (drop (Z.to_nat ((page - 1) * per)) l).

Lemma pagination_page {A} (l : list A) page per total sub :
  1 ≤ page → page * MaxPerPage ≤ max_int64 - MaxPerPage → per = AllPerPage ∨ 1 ≤ per ≤ MaxPerPage →
  Z.of_nat (length l) ≤ max_int64 - MaxPerPage →
  pagination l page per = Ret (total, sub) → sub = page_of page per l.
Proof.
  unfold pagination, page_of, MaxPerPage. intros Hp Hpp Hper Hlen. destruct (per =? AllPerPage) eqn:Ea; [by intros [= _ <-]|].
  reflect_bools. destruct Hper as [?|Hper]; [done|]. cbv zeta. unfold_int64.
  rewrite (wrap64_id ((page - 1) * per)) by (unfold_int64; nia).
  destruct (Z.of_nat (length l) <? (page - 1) * per) eqn:Eb; reflect_bools.
  - intros [= _ <-]. rewrite drop_ge by lia. by rewrite take_nil.
  - rewrite (wrap64_id ((page - 1) * per + per)) by (unfold_int64; nia).
    destruct (Z.of_nat (length l) <? (page - 1) * per + per) eqn:Ec; reflect_bools;
      (destruct (_ || _) eqn:Ed; [done|]); intros [= _ <-].
    + rewrite !take_ge; [done|rewrite length_drop; lia..].
    + f_equal. lia.
Qed.

Lemma normalizeListPage_ok page per : 
  let '(p, q) := normalizeListPage page per in
  1 ≤ p ∧ (p = page ∨ p = 1) ∧ (q = AllPerPage ∨ 1 ≤ q ≤ MaxPerPage).
Proof.
  unfold normalizeListPage, MaxPerPage, AllPerPage, DefaultPerPage.
  destruct (page <=? 0) eqn:Ep; destruct (per <? 0) eqn:Eq; reflect_bools; simpl; try lia;
    destruct (per =? 0) eqn:Er; reflect_bools; simpl; try lia;
    destruct (500 <? per) eqn:Es; reflect_bools; lia.
Qed.

(** All pages together. *)
Lemma pages_concat {A} (l : list A) (per : nat) n : (0 < per)%nat →
  concat (map (λ k, take per (drop (k * per) l)) (seq 0 n)) = take (n * per) l.
Proof.
  intros Hp. induction n as [|n IH]; [done|]. rewrite seq_S, map_app, concat_app, IH. simpl. rewrite app_nil_r.
  rewrite (Nat.add_comm per). by rewrite take_take_drop.
Qed.

Lemma calcPagesTotal_ok total per : 0 ≤ total ≤ max_int64 - MaxPerPage → 1 ≤ per ≤ MaxPerPage →
  calcPagesTotal total per = (total + per - 1) / per.
Proof.
  unfold calcPagesTotal, MaxPerPage, AllPerPage. intros Ht Hp. zcmp. destruct (total <=? 0) eqn:E; reflect_bools; cbn [orb].
  - assert (total = 0) as -> by lia. symmetry. apply Z.div_small. lia.
  - zcmp. rewrite wrap64_id by (unfold_int64; lia). apply Z.quot_div_nonneg; lia.
Qed.

Lemma all_pages {A} (l : list A) per : 1 ≤ per ≤ MaxPerPage → Z.of_nat (length l) ≤ max_int64 - MaxPerPage →
  concat (map (λ k, page_of (Z.of_nat k) per l) (seq 1 (Z.to_nat (calcPagesTotal (Z.of_nat (length l)) per)))) = l.
Proof.
  intros Hp Hl. rewrite calcPagesTotal_ok by lia. set (n := Z.to_nat _).
  transitivity (take (n * Z.to_nat per) l).
  - rewrite <- pages_concat by lia. rewrite <- (fmap_S_seq 0 n). rewrite map_map. f_equal. apply map_ext. intros k.
    unfold page_of. unfold AllPerPage. zcmp. f_equal. f_equal. lia.
  - apply take_ge. unfold n. pose proof (Z.mul_succ_div_gt (Z.of_nat (length l) + per - 1) per ltac:(lia)).
    assert (0 ≤ (Z.of_nat (length l) + per - 1) / per) by (apply Z.div_pos; lia). nia.
Qed.

End listing.
