(* ===== verification/FsHandlersExamples.v ===== *)
(** * The file API: its theorems on concrete requests, and where its checks
      fall short

    A user with the base path [/home] and two scopes, one with every
    permission to change files and one that only reads. *)

From S2P Require Import Prelude GoStrings Errs Store Paths HttpRange Crypto Users Perm Prog Sign Shares ShareHandlers FsHandlers FsHandlersSpec FsHandlersThms.

Local Open Scope Z_scope.

Module FsExample.
(** [/home/a] may be changed, [/home/b] may be read. *)
#[export] Instance role : RoleStore := λ id,
  if id =? 5 then
    inr {| role_ID := 5; role_Name := #"home"; role_Description := []; role_Default := false;
           PermissionScopes := [ {| pe_Path := #"/home/a"; pe_Permission := 248 |};
                                 {| pe_Path := #"/home/b"; pe_Permission := 0 |} ] |}
  else inl (EMessage #"role not found").

#[export] Instance no_regexp : RegexpLib := λ _, None.

(** [/home/b/drop] is writable, but not what is below it. *)
#[export] Instance metas : MetaStore := λ p,
  if bool_decide (p = #"/home/b/drop") then
    inr {| meta_ID := 1; meta_Path := #"/home/b/drop"; meta_Password := []; PSub := false; meta_Write := true;
           WSub := false; Hide := []; HSub := false; Readme := []; RSub := false; Header := []; HeaderSub := false |}
  else inl (ESentinel MetaNotFound).

#[export] Instance env : HandlerEnv := {|
  SignAll := true; ApiUrl := #"http://h"; Now := 0; GetFileType := λ _, 0; GetMimeType := λ _, #"text/plain";
  regexp_Compile := λ _, None;
|}.

Definition bob : User :=
  {| user_ID := 7; Username := #"bob"; PwdHash := []; PwdTS := 0; Salt := []; Password := []; BasePath := #"/home";
     user_Role := [5]; Disabled := false; Permission := 0; OtpSecret := []; SsoID := []; Authn := [] |}.

Definition obj (addr : nat) (name : gostr) (dir : bool) : FObj :=
  {| f_addr := addr; f_ID := []; f_Path := []; f_Name := name; f_Size := 1; f_IsDir := dir; f_Modified := 0;
     f_Created := 0; f_Hash := []; f_Thumb := []; f_StorageClass := []; f_URL := None |}.

(** The objects of each directory. *)
Definition tree : gmap gostr (list FObj) :=
  {[ #"/" := [obj 1 #"home" true; obj 2 #"homework.txt" false];
     #"/home" := [obj 3 #"a" true; obj 4 #"b" true; obj 5 #"private" true];
     #"/home/a" := [obj 6 #"x" false; obj 7 #"old" true; obj 8 #"y" false];
     #"/home/a/old" := [];
     #"/home/b" := [obj 9 #"x" false; obj 10 #"drop" true];
     #"/home/b/drop" := [] ]}.

Definition storage : StorageInfo :=
  {| si_Driver := #"Local"; si_Name := #"Local"; si_OnlyLocal := true; si_OnlyProxy := false; si_NoUpload := false;
     si_WebProxy := false; si_DownProxyUrl := []; si_DownProxySign := false; si_EnableSign := false |}.

Definition not_found {A} : result A := inl (ESentinel ObjectNotFound).

(** Every change succeeds; the tree is the one above throughout. *)
Definition answer (c : fs_action) : fs_answer c :=
  match c return fs_answer c with
  | CList p _ _ => match tree !! p with Some l => inr l | None => not_found end
  | CGet p =>
      match tree !! path_Dir p with
      | Some l => match filter (λ o, f_Name o = base_of p) l with o :: _ => inr o | [] => not_found end
      | None => not_found
      end
  | CLink p => inr p
  | CMakeDir _ | CMove _ _ _ | CRename _ _ | CRemove _ | CPutDirectly _ _ => inr ()
  | CCopy _ _ _ _ => (None, None)
  | CPutAsTask _ _ => inr #"task"
  | COther _ _ => inr []
  | CGetStorage _ => inr storage
  | CGetBalancedStorage _ => Some storage
  | CLabels _ => ∅
  | CSign p => #"sign of " ++ p
  end.

Definition run {A} (m : handler A) : list fs_event * finish (reject + A) := run_with (λ _, answer) [] m.

Lemma run_runs {A} (m : handler A) : runs_to m (run m).1 (run m).2.
Proof.
  destruct (run_with_runs (λ _, answer) m []) as (tr & E & H). unfold run at 1. by rewrite E.
Qed.

(** The calls of a run, and the code it is refused with. *)
Definition calls {A} (m : handler A) : list fs_action := map projT1 (run m).1.
Definition code {A} (x : finish (reject + A)) : option Z :=
  match x with Returned (inr _) => Some 200 | Returned (inl r) => Some (rj_code r) | _ => None end.

Definition move (src dst : gostr) (name : gostr) : fs_request :=
  RMove {| mc_SrcDir := src; mc_DstDir := dst; mc_Names := [name]; mc_Overwrite := false; mc_SkipExisting := false |}.

Definition upload (p : gostr) : fs_request :=
  RPut {| pr_FilePath := p; pr_Password := []; pr_AsTask := []; pr_Overwrite := []; pr_ContentLength := #"1";
          pr_LastModified := []; pr_ContentType := []; pr_Md5 := []; pr_Sha1 := []; pr_Sha256 := [] |}.

Definition list_page (p : gostr) (page per : Z) : ListReq :=
  {| lr_Page := page; lr_PerPage := per; lr_Path := p; lr_Password := []; lr_Refresh := false |}.

(** The names of the tree are names. *)
Definition ok_name (n : gostr) : bool := bool_decide (ValidateNameComponent n = None).
Lemma ok_name_good n : ok_name n = true → good_seg n.
Proof. intros H%bool_decide_eq_true. by apply ValidateNameComponent_good. Qed.

Definition names_okb (c : fs_action) : fs_answer c → bool :=
  match c with
  | CList _ _ _ => λ r, match r with inr l => forallb (λ o, ok_name (f_Name o)) l | inl _ => true end
  | CGet _ => λ r, match r with inr o => ok_name (f_Name o) | inl _ => true end
  | _ => λ _, true
  end.
Lemma names_okb_ok tr : forallb (λ e : fs_event, names_okb (projT1 e) (projT2 e)) tr = true →
  Forall (λ e : fs_event, names_ok (projT1 e) (projT2 e)) tr.
Proof.
  intros H. rewrite forallb_forall in H. apply Forall_forall. intros [c r] Hin.
  apply list_elem_of_In, H in Hin. destruct c; try done; simpl in *.
  - intros l ->. rewrite forallb_forall in Hin. apply Forall_forall. intros o Ho.
    apply list_elem_of_In, Hin in Ho. by apply ok_name_good.
  - intros o ->. by apply ok_name_good.
Qed.
End FsExample.
Import FsExample.

Lemma fs_requests_confined_witness :
  proper (move #"/a" #"/b" #"y") ∧
  map (λ e : fs_event, touches (projT1 e)) (run (serve bob 9 (move #"/a" #"/b" #"y"))).1 =
    [ [ #"/home/b/y"]; [ #"/home/a/y"; #"/home/b"]] ∧
  ∀ (e : fs_event) p, e ∈ (run (serve bob 9 (move #"/a" #"/b" #"y"))).1 → p ∈ touches (projT1 e) →
    IsSubPath #"/home" p = true.
Proof.
  split; [done|]. split; [vm_compute; reflexivity|].
  apply (fs_requests_confined bob 9 (move #"/a" #"/b" #"y") _ (run (serve bob 9 (move #"/a" #"/b" #"y"))).2).
  - done.
  - apply run_runs.
  - apply names_okb_ok. vm_compute. reflexivity.
Defined.



Definition listing_of (x : finish (reject + FsListResp)) : option FsListResp :=
  match x with Returned (inr r) => Some r | _ => None end.


(** Where the checks of the file API fall short.  The permissions at the
    base path are those of all scopes, so a removal named from there removes
    [/home/b], whose own scope permits nothing.  No permission is asked for at
    the directory objects are moved to.  A recursive move with a policy it does
    not know overwrites like the one that says so.  Describing the base path
    lists its parent and signs a file there.  A page number whose product
    overflows panics.  And a directory a meta makes writable without its
    subdirectories takes an upload but no new directory. *)
Theorem fs_checks_bypassed :
  HasPermission (MergeRolePermissions (Some bob) #"/home/b") PermRemove = false ∧
  calls (serve bob 9 (RRemove #"/" [ #"b"])) = [CRemove #"/home/b"] ∧
  HasPermission (MergeRolePermissions (Some bob) #"/home/b") PermWrite = false ∧
  calls (serve bob 9 (move #"/a" #"/b" #"y")) = [CGet #"/home/b/y"; CMove #"/home/a/y" #"/home/b" false] ∧
  calls (serve bob 9 (RRecursiveMove #"/a" #"/b" #"keep")) =
    [CList #"/home/a" false None; CList #"/home/b" false None; CList #"/home/a/old" true None;
     CMove #"/home/a/x" #"/home/b" true; CMove #"/home/a/y" #"/home/b" false] ∧
  obj 9 #"x" false ∈ default [] (tree !! #"/home/b") ∧
  IsSubPath (BasePath bob) #"/homework.txt" = false ∧
  last (calls (FsGet bob #"/" [])) = Some (CSign #"/homework.txt") ∧
  (run (serve bob 9 (RList (list_page #"/" 4611686018427387905 2)))).2 = Panicked ∧
  code (run (serve bob 9 (upload #"/b/drop/new"))).2 = Some 200 ∧
  code (run (serve bob 9 (RMkdir #"/b/drop/new"))).2 = Some 403.
Proof. split_ands; try (vm_compute; reflexivity). apply list_elem_of_In. vm_compute. by left. Qed.
