(* ===== verification/FsPkg.v ===== *)
(** * The virtual file system: package [internal/fs] and [model.ObjMerge]

    The package turns a path of the virtual tree into a storage and a path in
    it, hands the work to package [op], and puts listings together from the
    objects of a storage and the mount points below the directory.  Copies
    between storages and uploads in the background are tasks.  A function is a
    program over the calls of package [op] and of the task managers
    ([op_action]). *)

From S2P Require Import Prelude GoStrings Errs Store Paths HttpRange Crypto Users Perm Prog Sign Shares ShareHandlers FsHandlers.

Local Open Scope Z_scope.

(** ** Storages, streams and tasks *)

(** A mounted driver.  [sr_addr] is the identity of its [*model.Storage]. *)
Record sref := {
  sr_addr : nat;
  sr_MountPath : gostr;
  sr_Info : StorageInfo;
  sr_S3 : bool;
  sr_PutURL : bool;
  sr_PutURLResult : bool;
}.

(** What [op.Put] is given: the stream of a request, or a stream that reads an
    object through its link. *)
Inductive put_source :=
  | FromRequest (f : FileStream)
  | FromObj (o : FObj) (url : gostr).

Definition source_name (f : put_source) : gostr :=
  match f with FromRequest f => fst_Name f | FromObj o _ => f_Name o end.

(** The storages are nil in a task that was restored. *)
Record CopyTask := {
  ct_SrcObjPath : gostr;
  ct_DstDirPath : gostr;
  ct_srcStorage : option sref;
  ct_dstStorage : option sref;
  ct_SrcStorageMp : gostr;
  ct_DstStorageMp : gostr;
  ct_SkipExisting : bool;
}.

Record UploadTask := { ut_storage : sref; ut_dstDirActualPath : gostr; ut_file : FileStream }.

(** ** Calls *)

Inductive op_action :=
  | OVirtualFiles (path : gostr)
  | OResolve (path : gostr)
  | OByMountPath (mountPath : gostr)
  | OBalanced (path : gostr)
  | OList (s : sref) (path reqPath : gostr) (refresh : bool)
  | OGet (s : sref) (path : gostr)
  | OLink (s : sref) (path : gostr)
  | OMakeDir (s : sref) (path : gostr) (lazyCache : bool)
  | OMove (s : sref) (src dstDir : gostr) (lazyCache : bool)
  | OCopy (s : sref) (src dstDir : gostr) (lazyCache : bool)
  | ORename (s : sref) (src name : gostr) (lazyCache : bool)
  | ORemove (s : sref) (path : gostr)
  | OPut (s : sref) (dir : gostr) (file : put_source) (lazyCache : bool)
  | OPutURL (s : sref) (dir name url : gostr)
  | OOther (s : sref) (path method : gostr)
  | ONewSeekableStream (o : FObj) (url : gostr)
  | OCacheFull (f : FileStream)
  | OCanceled
  | OAddCopy (t : CopyTask)
  | OAddUpload (t : UploadTask)
  | OAddTransition (s : sref) (path displayPath method : gostr)
  | OLabels (names : list gostr)
  | OSign (path : gostr).

(** [OLink] answers with the address of the link and the object; adding a task
    with its identifier. *)
Definition op_answer (c : op_action) : Type :=
  match c with
  | OVirtualFiles _ => list FObj
  | OResolve _ => result (sref * gostr)
  | OByMountPath _ => result sref
  | OBalanced _ => option StorageInfo
  | OList _ _ _ _ => result (list FObj)
  | OGet _ _ => result FObj
  | OLink _ _ => result (gostr * FObj)
  | OMakeDir _ _ _ | OMove _ _ _ _ | OCopy _ _ _ _ | ORename _ _ _ _ | ORemove _ _
  | OPut _ _ _ _ | OPutURL _ _ _ _ | ONewSeekableStream _ _ | OCacheFull _ => result unit
  | OOther _ _ _ => result gostr
  | OCanceled => bool
  | OAddCopy _ | OAddUpload _ | OAddTransition _ _ _ _ => gostr
  | OLabels _ => gmap gostr (list gostr)
  | OSign _ => gostr
  end.

Abbreviation op_prog := (prog op_answer).
Abbreviation op_event := (event op_answer).

(** A function that fails is a program with a result. *)
Definition fallible (A : Type) := op_prog (result A).

Definition f_ok {A} (a : A) : fallible A := PRet (inr a).
Definition f_fail {A} (e : error) : fallible A := PRet (inl e).
Definition f_then {A B} (m : fallible A) (k : A → fallible B) : fallible B :=
  prog_bind m (λ r, match r with inl e => f_fail e | inr a => k a end).

Notation "'let$' x ':=' m 'in' k" := (f_then m (λ x, k))
  (at level 10, x pattern, m at level 100, k at level 200,
   format "'[v' 'let$'  x  ':='  m  'in' '//' k ']'") : go_scope.
Notation "'bind$' x ':=' m 'in' k" := (prog_bind m (λ x, k))
  (at level 10, x pattern, m at level 100, k at level 200,
   format "'[v' 'bind$'  x  ':='  m  'in' '//' k ']'") : go_scope.

(** [errors.WithMessage] on the way out. *)
Definition f_wrap {A} (msg : gostr) (m : fallible A) : fallible A :=
  prog_bind m (λ r, PRet (match r with inl e => inl (EWithMessage e msg) | inr a => inr a end)).

Definition storage_of (path msg : gostr) : fallible (sref * gostr) := f_wrap msg (pcall (OResolve path)).

Definition no_storage : gostr := #"failed get storage".

(** ** [model.ObjMerge] *)

Record ObjMerge := { om_regs : list (gostr → bool); om_set : gset gostr }.

Definition NewObjMerge : ObjMerge := {| om_regs := []; om_set := ∅ |}.

Definition clickObj (o : FObj) (om : ObjMerge) : bool * ObjMerge :=
  if existsb (λ reg, reg (f_Name o)) (om_regs om) then (false, om)
  else (bool_decide (f_Name o ∉ om_set om), {| om_regs := om_regs om; om_set := {[ f_Name o ]} ∪ om_set om |}).

Fixpoint insertObjs (objs objs_ : list FObj) (om : ObjMerge) : list FObj * ObjMerge :=
  match objs_ with
  | [] => (objs, om)
  | o :: objs_' =>
      let '(fresh, om) := clickObj o om in
      insertObjs (if fresh then objs ++ [o] else objs) objs_' om
  end.

Definition Merge (objs objs_ : list FObj) (om : ObjMerge) : list FObj :=
  let '(newObjs, om) := insertObjs [] objs om in
  fst (insertObjs newObjs objs_ om).

Section pkg.
Context {RS : RoleStore} {RL : RegexpLib} {MS : MetaStore} {HE : HandlerEnv}.

Fixpoint compile_all (rs : list gostr) : outcome (list (gostr → bool)) :=
  match rs with
  | [] => Ret []
  | r :: rs' =>
      match MustCompile r, compile_all rs' with
      | Some reg, Ret regs => Ret (reg :: regs)
      | _, _ => Panic
      end
  end.

Definition InitHideReg (hides : gostr) (om : ObjMerge) : outcome ObjMerge :=
  match compile_all (Split "010" hides) with
  | Ret regs => Ret {| om_regs := regs; om_set := om_set om |}
  | Panic => Panic
  end.

(** ** Reading *)

Definition whetherHide (user : option User) (meta : option Meta) (path : gostr) : bool :=
  match user with
  | None => false
  | Some _ =>
      if HasPermission (MergeRolePermissions user path) PermSeeHides then false
      else
        match meta with
        | None => false
        | Some m =>
            if bool_decide (Hide m = []) then false
            else if negb (PathEqual (meta_Path m) path) && negb (HSub m) then false
            else true
        end
  end.

(** The objects of the storage, of which there are none when it cannot be
    listed but has mount points below. *)
Definition storage_objs (virtualFiles : list FObj) (msg : gostr) (r : result (list FObj)) : fallible (list FObj) :=
  match r with
  | inr l => f_ok l
  | inl e => if bool_decide (virtualFiles = []) then f_fail (EWithMessage e msg) else f_ok []
  end.

Definition merged (user : option User) (meta : option Meta) (path : gostr) (objs virtualFiles : list FObj)
    : fallible (list FObj) :=
  match whetherHide user meta path, meta with
  | true, Some m =>
      bind$ om := prog_outcome (InitHideReg (Hide m) NewObjMerge) in
      f_ok (Merge objs virtualFiles om)
  | _, _ => f_ok (Merge objs virtualFiles NewObjMerge)
  end.

Definition fs_list (user : option User) (meta : option Meta) (path : gostr) (refresh : bool) : fallible (list FObj) :=
  bind$ virtualFiles := pcall (OVirtualFiles path) in
  bind$ r := pcall (OResolve path) in
  let$ _objs := match r with
                | inl e => storage_objs virtualFiles no_storage (inl e)
                | inr (storage, actualPath) =>
                    bind$ l := pcall (OList storage actualPath path refresh) in
                    storage_objs virtualFiles #"failed get objs" l
                end in
  merged user meta path _objs virtualFiles.

(** A new object; its identity is not used. *)
Definition root_object : FObj :=
  {| f_addr := 0; f_ID := []; f_Path := []; f_Name := #"root"; f_Size := 0; f_IsDir := true; f_Modified := 0;
     f_Created := 0; f_Hash := []; f_Thumb := []; f_StorageClass := []; f_URL := None |}.

Definition get_in_storage (path : gostr) : fallible FObj :=
  bind$ r := pcall (OResolve path) in
  match r with
  | inl e => if bool_decide (path = #"/") then f_ok root_object else f_fail (EWithMessage e no_storage)
  | inr (storage, actualPath) => pcall (OGet storage actualPath)
  end.

Definition fs_get (path : gostr) : fallible FObj :=
  let path := FixAndCleanPath path in
  if bool_decide (path ≠ #"/") then
    bind$ virtualFiles := pcall (OVirtualFiles (path_Dir path)) in
    match filter (λ f, f_Name f = path_Base path) virtualFiles with
    | f :: _ => f_ok f
    | [] => get_in_storage path
    end
  else get_in_storage path.

(** The address of the server is put in front of a path, in a request. *)
Definition link_url (in_request : bool) (url : gostr) : gostr :=
  if bool_decide (url ≠ []) && negb (HasPrefix url #"http://") && negb (HasPrefix url #"https://") && in_request
  then ApiUrl ++ url else url.

Definition fs_link (in_request : bool) (path : gostr) : fallible (gostr * FObj) :=
  let$ (storage, actualPath) := storage_of path no_storage in
  let$ (url, o) := f_wrap #"failed link" (pcall (OLink storage actualPath)) in
  f_ok (link_url in_request url, o).

Definition fs_GetStorage (path : gostr) : fallible StorageInfo :=
  let$ (storage, _) := pcall (OResolve path) in
  f_ok (sr_Info storage).

(** ** Changing *)

Definition makeDir (path : gostr) (lazyCache : bool) : fallible unit :=
  let$ (storage, actualPath) := storage_of path no_storage in
  pcall (OMakeDir storage actualPath lazyCache).

Definition move (srcPath dstDirPath : gostr) (lazyCache : bool) : fallible unit :=
  let$ (srcStorage, srcActualPath) := storage_of srcPath #"failed get src storage" in
  let$ (dstStorage, dstDirActualPath) := storage_of dstDirPath #"failed get dst storage" in
  if bool_decide (sr_addr srcStorage ≠ sr_addr dstStorage) then f_fail (ESentinel MoveBetweenTwoStorages)
  else pcall (OMove srcStorage srcActualPath dstDirActualPath lazyCache).

Definition rename (srcPath dstName : gostr) (lazyCache : bool) : fallible unit :=
  let$ (storage, srcActualPath) := storage_of srcPath no_storage in
  pcall (ORename storage srcActualPath dstName lazyCache).

Definition remove (path : gostr) : fallible unit :=
  let$ (storage, actualPath) := storage_of path no_storage in
  pcall (ORemove storage actualPath).

(** [strings.ToLower] for comparisons with ASCII text: the letters of ASCII,
    and the two others whose lower case is ASCII (U+0130 and U+212A). *)
Definition lower_byte (c : ascii) : ascii :=
  let n := nat_of_ascii c in if (65 <=? n)%nat && (n <=? 90)%nat then ascii_of_nat (n + 32) else c.

Fixpoint ToLower (s : gostr) : gostr :=
  match s with
  | "196"%char :: ("176"%char :: s') => "i"%char :: ToLower s'
  | "226"%char :: ("132"%char :: ("170"%char :: s')) => "k"%char :: ToLower s'
  | c :: s' => lower_byte c :: ToLower s'
  | [] => []
  end.

Definition OtherMethodArchive : gostr := #"archive".
Definition OtherMethodThaw : gostr := #"thaw".

(** The task manager of transitions is there. *)
Definition other (path method : gostr) : fallible gostr :=
  let$ (storage, actualPath) := storage_of path no_storage in
  let m := ToLower (TrimSpace method) in
  if sr_S3 storage && (bool_decide (m = OtherMethodArchive) || bool_decide (m = OtherMethodThaw)) then
    bind$ id := pcall (OAddTransition storage actualPath path m) in
    f_ok id
  else pcall (OOther storage actualPath method).

(** *** Uploads *)

(** A storage that takes uploads, and the path in it. *)
Definition upload_target (dstDirPath : gostr) : fallible (sref * gostr) :=
  let$ (storage, dstDirActualPath) := storage_of dstDirPath no_storage in
  if si_NoUpload (sr_Info storage) then f_fail (ESentinel UploadNotSupported)
  else f_ok (storage, dstDirActualPath).

Definition putDirectly (dstDirPath : gostr) (file : FileStream) (lazyCache : bool) : fallible unit :=
  let$ (storage, dstDirActualPath) := upload_target dstDirPath in
  pcall (OPut storage dstDirActualPath (FromRequest file) lazyCache).

Definition putAsTask (dstDirPath : gostr) (file : FileStream) : fallible gostr :=
  let$ (storage, dstDirActualPath) := upload_target dstDirPath in
  let$ _ := (if fst_AsTask file then f_wrap #"failed to create temp file" (pcall (OCacheFull file)) else f_ok ()) in
  bind$ id := pcall (OAddUpload {| ut_storage := storage; ut_dstDirActualPath := dstDirActualPath; ut_file := file |}) in
  f_ok id.

Definition UploadTask_Run (t : UploadTask) : fallible unit :=
  pcall (OPut (ut_storage t) (ut_dstDirActualPath t) (FromRequest (ut_file t)) true).

Definition PutURL (path dstName urlStr : gostr) : fallible unit :=
  let$ (storage, dstDirActualPath) := upload_target path in
  if negb (sr_PutURL storage) && negb (sr_PutURLResult storage) then f_fail (ESentinel NotImplement)
  else pcall (OPutURL storage dstDirActualPath dstName urlStr).

(** *** Copies *)

(** Is the file at the destination already, with the size of the source? *)
Definition same_file (dst : sref) (dstDirPath : gostr) (srcFile : FObj) : op_prog bool :=
  bind$ r := pcall (OGet dst (path_join dstDirPath (f_Name srcFile))) in
  PRet (match r with
        | inr dstFile => negb (f_IsDir dstFile) && (f_Size dstFile =? f_Size srcFile)
        | inl _ => false
        end).

(** The file through its link, into the directory. *)
Definition copy_stream (src dst : sref) (srcPath dstDirPath : gostr) (srcFile : FObj) (lazyCache : bool) : fallible unit :=
  let$ (url, _) := f_wrap #"failed get link" (pcall (OLink src srcPath)) in
  let$ _ := f_wrap #"failed get stream" (pcall (ONewSeekableStream srcFile url)) in
  pcall (OPut dst dstDirPath (FromObj srcFile url) lazyCache).

Definition new_copy (skip : bool) (src dst : sref) (srcPath dstPath : gostr) : CopyTask :=
  {| ct_SrcObjPath := srcPath; ct_DstDirPath := dstPath; ct_srcStorage := Some src; ct_dstStorage := Some dst;
     ct_SrcStorageMp := sr_MountPath src; ct_DstStorageMp := sr_MountPath dst; ct_SkipExisting := skip |}.

(** In the same storage: [Some] when the copy is over, [None] when the driver
    cannot. *)
Definition copy_within (storage : sref) (src dstDir : gostr) (lazyCache skipExisting : bool)
    : op_prog (option (option error)) :=
  bind$ skipped := (if skipExisting then
                      bind$ r := pcall (OGet storage src) in
                      match r with
                      | inr srcObj => if f_IsDir srcObj then PRet false else same_file storage dstDir srcObj
                      | inl _ => PRet false
                      end
                    else PRet false) in
  if (skipped : bool) then PRet (Some None)
  else
    bind$ r := pcall (OCopy storage src dstDir lazyCache) in
    PRet (match r with
          | inr _ => Some None
          | inl e => if errors_Is e NotImplement || errors_Is e NotSupport then None else Some (Some e)
          end).

(** Without a task a file is copied at once: [None] for a directory. *)
Definition copy_now (src dst : sref) (srcPath dstDirPath : gostr) : op_prog (option (option error)) :=
  bind$ r := f_wrap #"failed get src file" (pcall (OGet src srcPath)) in
  match r with
  | inl e => PRet (Some (Some e))
  | inr srcObj =>
      if f_IsDir srcObj then PRet None
      else
        bind$ r := copy_stream src dst srcPath dstDirPath srcObj false in
        PRet (Some (match r with inl e => Some e | inr _ => None end))
  end.

(** The task that was started, if one was, and the error. *)
Definition _copy (noTask skipExisting : bool) (srcObjPath dstDirPath : gostr) (lazyCache : bool)
    : op_prog (option gostr * option error) :=
  bind$ r := storage_of srcObjPath #"failed get src storage" in
  match r with
  | inl e => PRet (None, Some e)
  | inr (srcStorage, srcObjActualPath) =>
      bind$ r := storage_of dstDirPath #"failed get dst storage" in
      match r with
      | inl e => PRet (None, Some e)
      | inr (dstStorage, dstDirActualPath) =>
          bind$ over := (if bool_decide (sr_addr srcStorage = sr_addr dstStorage)
                         then copy_within srcStorage srcObjActualPath dstDirActualPath lazyCache skipExisting
                         else PRet None) in
          match over with
          | Some e => PRet (None, e)
          | None =>
              bind$ over := (if noTask then copy_now srcStorage dstStorage srcObjActualPath dstDirActualPath else PRet None) in
              match over with
              | Some e => PRet (None, e)
              | None =>
                  bind$ id := pcall (OAddCopy (new_copy skipExisting srcStorage dstStorage srcObjActualPath dstDirActualPath)) in
                  PRet (Some id, None)
              end
          end
      end
  end.

Definition copyFileBetween2Storages (skip : bool) (src dst : sref) (srcFilePath dstDirPath : gostr) : fallible unit :=
  let$ srcFile := f_wrap #"failed get src file" (pcall (OGet src srcFilePath)) in
  bind$ skipped := (if skip then same_file dst dstDirPath srcFile else PRet false) in
  if (skipped : bool) then f_ok ()
  else copy_stream src dst srcFilePath dstDirPath srcFile true.

(** A task for each object, until the task is cancelled. *)
Fixpoint add_copies (skip : bool) (src dst : sref) (srcObjPath dstObjPath : gostr) (objs : list FObj) : fallible unit :=
  match objs with
  | [] => f_ok ()
  | o :: objs' =>
      bind$ canceled := pcall OCanceled in
      if (canceled : bool) then f_ok ()
      else
        bind$ _ := pcall (OAddCopy (new_copy skip src dst (path_join srcObjPath (f_Name o)) dstObjPath)) in
        add_copies skip src dst srcObjPath dstObjPath objs'
  end.

Definition copyBetween2Storages (skip : bool) (src dst : sref) (srcObjPath dstDirPath : gostr) : fallible unit :=
  let$ srcObj := f_wrap #"failed get src file" (pcall (OGet src srcObjPath)) in
  if f_IsDir srcObj then
    let$ objs := f_wrap #"failed list src objs" (pcall (OList src srcObjPath [] false)) in
    add_copies skip src dst srcObjPath (path_join dstDirPath (f_Name srcObj)) objs
  else copyFileBetween2Storages skip src dst srcObjPath dstDirPath.

(** The storage of a task: it is looked up when the task was restored.  The
    second look-up overwrites the error of the first one. *)
Definition task_storage (s : option sref) (mountPath : gostr) (err : option error) : op_prog (option sref * option error) :=
  match s with
  | Some s => PRet (Some s, err)
  | None =>
      bind$ r := pcall (OByMountPath mountPath) in
      PRet (match r with inr s => (Some s, None) | inl e => (None, Some e) end)
  end.

Definition CopyTask_Run (t : CopyTask) : fallible unit :=
  bind$ (src, err) := task_storage (ct_srcStorage t) (ct_SrcStorageMp t) None in
  bind$ (dst, err) := task_storage (ct_dstStorage t) (ct_DstStorageMp t) err in
  match err, src, dst with
  | Some e, _, _ => f_fail (EWithMessage e no_storage)
  | None, Some src, Some dst => copyBetween2Storages (ct_SkipExisting t) src dst (ct_SrcObjPath t) (ct_DstDirPath t)
  | None, _, _ => PPanic
  end.

(** ** Walking *)

(** What [walkFn] returns: [nil], [filepath.SkipDir] or another error. *)
Inductive walk_result := WalkOk | SkipDir | WalkErr (e : error).

(** [WalkFS] to a depth, without a limit when it is negative; the error of a
    listing is not reported. *)
Section walk.
Context (user : option User) (walkFn : gostr → FObj → op_prog walk_result).

Fixpoint walk_objs (walk : gostr → FObj → op_prog walk_result) (name : gostr) (objs : list FObj) : op_prog walk_result :=
  match objs with
  | [] => PRet WalkOk
  | fileInfo :: objs' =>
      bind$ r := walk (path_join name (f_Name fileInfo)) fileInfo in
      match r with
      | WalkOk => walk_objs walk name objs'
      | SkipDir => PRet WalkOk
      | WalkErr e => PRet (WalkErr e)
      end
  end.

Fixpoint WalkFS (fuel : nat) (depth : Z) (name : gostr) (info : FObj) : op_prog walk_result :=
  bind$ r := walkFn name info in
  match r with
  | SkipDir => PRet (if f_IsDir info then WalkOk else SkipDir)
  | WalkErr e => PRet (WalkErr e)
  | WalkOk =>
      if negb (f_IsDir info) || (depth =? 0) then PRet WalkOk
      else
        match fuel with
        | O => PFuel
        | S fuel' =>
            let meta := match GetNearestMeta name with inr m => Some m | inl _ => None end in
            bind$ objs := fs_list user meta name false in
            match objs with
            | inl _ => PRet WalkOk
            | inr objs => walk_objs (WalkFS fuel' (depth - 1)) name objs
            end
        end
  end.
End walk.

(** ** The calls of the handlers *)

Definition fs_impl (user : User) (c : fs_action) : op_prog (fs_answer c) :=
  match c return op_prog (fs_answer c) with
  | CList p refresh meta => fs_list (Some user) meta p refresh
  | CGet p => fs_get p
  | CLink p => let$ (url, _) := fs_link true p in f_ok url
  | CMakeDir p => makeDir p false
  | CMove src dst lazy => move src dst lazy
  | CCopy src dst lazy skip => _copy false skip src dst lazy
  | CRename src name => rename src name false
  | CRemove p => remove p
  | CPutDirectly dir f => putDirectly dir f true
  | CPutAsTask dir f => putAsTask dir f
  | COther p m => other p m
  | CGetStorage p => fs_GetStorage p
  | CGetBalancedStorage p => pcall (OBalanced p)
  | CLabels l => pcall (OLabels l)
  | CSign p => pcall (OSign p)
  end.
End pkg.
