(* ===== verification/FsPkgThms.v ===== *)
(** * The virtual file system: its theorems

    What a listing shows, where the calls of the file API end up, and that a
    copy between storages copies the files of a tree. *)

From S2P Require Import Prelude GoStrings Errs Store Paths HttpRange Crypto Users Perm Prog Sign Shares ShareHandlers FsHandlers FsHandlersSpec FsHandlersThms FsPkg.

Local Open Scope Z_scope.

(** ** Merging *)

Section merge.
Context (regs : list (gostr → bool)).

Definition hidden (n : gostr) : bool := existsb (λ reg, reg n) regs.

(** The first object of every name that is neither hidden nor seen. *)
Fixpoint firsts (seen : gset gostr) (l : list FObj) : list FObj :=
  match l with
  | [] => []
  | o :: l' =>
      if hidden (f_Name o) || bool_decide (f_Name o ∈ seen) then firsts seen l'
      else o :: firsts ({[ f_Name o ]} ∪ seen) l'
  end.

Lemma insertObjs_firsts new l seen :
  ∃ seen', insertObjs new l {| om_regs := regs; om_set := seen |} =
    (new ++ firsts seen l, {| om_regs := regs; om_set := seen' |}) ∧
    ∀ k, firsts seen (l ++ k) = firsts seen l ++ firsts seen' k.
Proof.
  revert new seen. induction l as [|o l IH]; intros new seen; simpl.
  - exists seen. by rewrite app_nil_r.
  - unfold clickObj. simpl. fold (hidden (f_Name o)). destruct (hidden (f_Name o)); simpl; [apply IH|].
    destruct (IH (if bool_decide (f_Name o ∉ seen) then new ++ [o] else new) ({[f_Name o]} ∪ seen)) as (seen' & E & Hk).
    exists seen'. rewrite E. case_bool_decide as H1; case_bool_decide as H2; try done.
    + split; [by rewrite <- app_assoc|]. intros k. by rewrite Hk.
    + assert ({[f_Name o]} ∪ seen = seen) as Es by set_solver. rewrite Es in *. split; [done|]. intros k. apply Hk.
Qed.

Lemma Merge_firsts objs vs : Merge objs vs {| om_regs := regs; om_set := ∅ |} = firsts ∅ (objs ++ vs).
Proof.
  unfold Merge. destruct (insertObjs_firsts [] objs ∅) as (s1 & -> & Hk).
  destruct (insertObjs_firsts ([] ++ firsts ∅ objs) vs s1) as (s2 & -> & _). by rewrite Hk.
Qed.

Lemma firsts_sublist seen l : firsts seen l `sublist_of` l.
Proof.
  revert seen. induction l as [|o l IH]; intros seen; simpl; [done|].
  destruct (_ || _); [by apply sublist_cons|by apply sublist_skip].
Qed.

Lemma firsts_names seen l n :
  n ∈ map f_Name (firsts seen l) ↔ n ∈ map f_Name l ∧ hidden n = false ∧ n ∉ seen.
Proof.
  revert seen. induction l as [|o l IH]; intros seen; simpl; [set_solver|].
  destruct (hidden (f_Name o)) eqn:Eh; simpl.
  - rewrite IH. set_unfold. split; [tauto|]. intros [[->|?] ?]; [naive_solver congruence|tauto].
  - case_bool_decide as Hin; simpl; set_unfold.
    + rewrite IH. split; [tauto|]. intros [[->|?] ?]; tauto.
    + rewrite IH. set_unfold. destruct (decide (n = f_Name o)) as [->|]; [|tauto]. split; [tauto|]. by left.
Qed.

Lemma firsts_nodup seen l : NoDup (map f_Name (firsts seen l)).
Proof.
  revert seen. induction l as [|o l IH]; intros seen; simpl; [constructor|].
  destruct (_ || _); [done|]. simpl. constructor; [|done]. rewrite firsts_names. set_solver.
Qed.

Lemma firsts_first seen l o : o ∈ firsts seen l →
  ∃ l1 l2, l = l1 ++ o :: l2 ∧ f_Name o ∉ map f_Name l1.
Proof.
  revert seen. induction l as [|x l IH]; intros seen; cbn [firsts]; [by intros ?%elem_of_nil|].
  destruct (_ || _) eqn:E.
  - intros Hin. destruct (IH _ Hin) as (l1 & l2 & -> & Hn). exists (x :: l1), l2. split; [done|].
    assert (Hs : f_Name o ∈ map f_Name (firsts seen (l1 ++ o :: l2))) by (apply list_elem_of_fmap; eauto).
    apply firsts_names in Hs as (_ & Hh & Hs). simpl. apply not_elem_of_cons. split; [|done]. intros Ex.
    rewrite <- Ex in E. apply orb_true_iff in E as [E|E]; [congruence|by reflect_bools].
  - intros [->|Hin]%elem_of_cons; [exists [], l; split; [done|apply not_elem_of_nil]|]. destruct (IH _ Hin) as (l1 & l2 & -> & Hn).
    exists (x :: l1), l2. split; [done|].
    assert (Hs : f_Name o ∈ map f_Name (firsts ({[f_Name x]} ∪ seen) (l1 ++ o :: l2))) by (apply list_elem_of_fmap; eauto).
    apply firsts_names in Hs as (_ & _ & Hs). set_solver.
Qed.
End merge.

(** ** Listings *)

Section listing.
Context {RS : RoleStore} {RL : RegexpLib} {MS : MetaStore} {HE : HandlerEnv}.

(** The meta hides the name in this directory from the user. *)
Definition hides (user : option User) (meta : option Meta) (path n : gostr) : Prop :=
  whetherHide user meta path = true ∧
  ∃ m r reg, meta = Some m ∧ r ∈ Split "010" (Hide m) ∧ MustCompile r = Some reg ∧ reg n = true.

Lemma compile_all_ok rs regs : compile_all rs = Ret regs →
  ∀ n, hidden regs n = true ↔ ∃ r reg, r ∈ rs ∧ MustCompile r = Some reg ∧ reg n = true.
Proof.
  revert regs. induction rs as [|r rs IH]; intros regs; simpl.
  - intros [= <-] n. split; [done|]. by intros (? & ? & ?%elem_of_nil & _).
  - destruct (MustCompile r) as [reg|] eqn:E; [|done]. destruct (compile_all rs) as [regs'|]; [|done].
    intros [= <-] n. unfold hidden in *. simpl. rewrite orb_true_iff, IH by done. split.
    + intros [H|(r' & reg' & Hin & Hc & H)]; [exists r, reg|exists r', reg']; set_solver.
    + intros (r' & reg' & [->|Hin]%elem_of_cons & Hc & H); [left; congruence|right; eauto].
Qed.

Lemma compile_all_panic rs : compile_all rs = Panic → ∃ r, r ∈ rs ∧ MustCompile r = None.
Proof.
  induction rs as [|r rs IH]; simpl; [done|]. destruct (MustCompile r) as [reg|] eqn:E; [|exists r; set_solver].
  destruct (compile_all rs); [done|]. intros _. destruct IH as (r' & ? & ?); [done|]. exists r'. set_solver.
Qed.

(** The objects of a storage and the mount points, put together. *)
Definition put_together (user : option User) (meta : option Meta) (path : gostr) (objs vs l : list FObj) : Prop :=
  NoDup (map f_Name l) ∧ l `sublist_of` objs ++ vs ∧
  (∀ n, n ∈ map f_Name l ↔ n ∈ map f_Name (objs ++ vs) ∧ ¬ hides user meta path n) ∧
  (∀ o, o ∈ l → ∃ l1 l2, objs ++ vs = l1 ++ o :: l2 ∧ f_Name o ∉ map f_Name l1).

Lemma firsts_together user meta path regs objs vs :
  (∀ n, hidden regs n = true ↔ hides user meta path n) →
  put_together user meta path objs vs (firsts regs ∅ (objs ++ vs)).
Proof.
  intros Hh. split; [apply firsts_nodup|]. split; [apply firsts_sublist|].
  split; [|by intros o; apply firsts_first]. intros n. rewrite firsts_names, <- Hh, not_true_iff_false. set_solver.
Qed.

Definition bad_pattern (user : option User) (meta : option Meta) (path : gostr) : Prop :=
  whetherHide user meta path = true ∧ ∃ m r, meta = Some m ∧ r ∈ Split "010" (Hide m) ∧ MustCompile r = None.

Lemma merged_spec good ok user meta path objs vs h (Q : finish (result (list FObj)) → list op_event → Prop) :
  (∀ l, put_together user meta path objs vs l → Q (Returned (inr l)) h) →
  (bad_pattern user meta path → Q Panicked h) →
  wp good ok (merged user meta path objs vs) h Q.
Proof.
  intros H1 H2. unfold merged. destruct (whetherHide user meta path) eqn:Ew.
  - destruct meta as [m|].
    + unfold InitHideReg. destruct (compile_all (Split "010" (Hide m))) as [regs|] eqn:Ec; simpl.
      * apply H1. rewrite Merge_firsts. apply firsts_together. intros n. rewrite (compile_all_ok _ _ Ec). split.
        { intros (r & reg & ? & ? & ?). split; [done|]. by exists m, r, reg. }
        { intros (_ & ? & r & reg & [= <-] & ? & ? & ?). by exists r, reg. }
      * apply H2. split; [done|]. apply compile_all_panic in Ec as (r & ? & ?). by exists m, r.
    + unfold whetherHide in Ew. destruct user; [|done]. by destruct (HasPermission _ _).
  - destruct meta; apply H1; unfold NewObjMerge; rewrite Merge_firsts; apply firsts_together; intros n; (split; [done|]); intros [? _]; congruence.
Qed.

(** C33. A listing of package [fs] is what its parts make it: the objects the
    storage has at the path, in their order, and after them the mount points
    below it; of each name the first one only, so that no name occurs twice;
    and none of those the meta hides from the user, who may not see hidden
    ones.  It fails only when there are no mount points and no storage could
    be listed, and panics only on a pattern that does not compile. *)
Theorem fs_list_exact user meta path refresh tr x :
  runs_to (fs_list user meta path refresh) tr x →
  ∃ vs r, tr = ev (OVirtualFiles path) vs :: ev (OResolve path) r :: drop 2 tr ∧
    match x with
    | Returned (inr l) =>
        ∃ objs, put_together user meta path objs vs l ∧
          match r with
          | inr (s, p) => ev (OList s p path refresh) (inr objs) ∈ tr ∨
                          objs = [] ∧ vs ≠ [] ∧ ∃ e, ev (OList s p path refresh) (inl e) ∈ tr
          | inl _ => objs = [] ∧ vs ≠ []
          end
    | Returned (inl _) =>
        vs = [] ∧ match r with inr (s, p) => ∃ e, ev (OList s p path refresh) (inl e) ∈ tr | inl _ => True end
    | Panicked => bad_pattern user meta path
    | OutOfFuel => False
    end.
Proof.
  intros Hrun. pattern x, tr. eapply wp_run; [|exact Hrun].
  unfold fs_list. split; [done|]. intros vs _. split; [done|]. intros r _. simpl.
  assert (Hm : ∀ h objs P, (∀ l, put_together user meta path objs vs l → P (Returned (inr l)) h) →
    (bad_pattern user meta path → P Panicked h) →
    wp (λ _ _, True) (λ _ _, True) (merged user meta path objs vs) h P) by (intros; by apply merged_spec).
  destruct r as [e|[s p]]; simpl.
  - unfold storage_objs. case_bool_decide as Hv; simpl; [by exists vs, (inl e)|].
    apply Hm; [intros l Hl|intros Hb]; exists vs, (inl e); (split; [done|]); eauto.
  - split; [done|]. intros [e|objs] _; simpl.
    + case_bool_decide as Hv; simpl.
      * exists vs, (inr (s, p)). split; [done|]. split; [done|]. exists e. right. right. left.
      * apply Hm; [intros l Hl|intros Hb]; exists vs, (inr (s, p)); (split; [done|]); [|done].
        exists []. split; [done|]. right. split_ands; [done..|]. exists e. right. right. left.
    + apply Hm; [intros l Hl|intros Hb]; exists vs, (inr (s, p)); (split; [done|]); [|done].
      exists objs. split; [done|]. left. right. right. left.
Qed.
End listing.

(** ** From the requests to the storages *)

(** The storage and the path in it that [op] gave for a path. *)
Definition resolved (h : list op_event) (q : gostr) (s : sref) (p : gostr) : Prop := ev (OResolve q) (inr (s, p)) ∈ h.

(** The call of package [op] is what the call of package [fs] asks for. *)
Definition realises (h : list op_event) (a : fs_action) (c : op_action) : Prop :=
  match a, c with
  | CList q refresh _, OVirtualFiles q' => q' = q
  | CList q refresh _, OList s p q' refresh' => q' = q ∧ refresh' = refresh ∧ resolved h q s p
  | CGet q, OVirtualFiles q' => q' = path_Dir (FixAndCleanPath q)
  | CGet q, OResolve q' => q' = FixAndCleanPath q
  | CGet q, OGet s p => resolved h (FixAndCleanPath q) s p
  | CLink q, OLink s p => resolved h q s p
  | CMakeDir q, OMakeDir s p _ => resolved h q s p
  | CRename q name, ORename s p name' _ => name' = name ∧ resolved h q s p
  | CRemove q, ORemove s p => resolved h q s p
  | CMove q d _, OMove s p p' _ => resolved h q s p ∧ ∃ s', resolved h d s' p' ∧ sr_addr s' = sr_addr s
  | CCopy q d _ _, OCopy s p p' _ => resolved h q s p ∧ ∃ s', resolved h d s' p' ∧ sr_addr s' = sr_addr s
  | CCopy q d _ skip, OGet s p =>
      skip = true ∧ (resolved h q s p ∨ ∃ s' p' o, resolved h d s' p' ∧ sr_addr s' = sr_addr s ∧
        p = path_join p' (f_Name o) ∧ ∃ p0, resolved h q s p0 ∧ ev (OGet s p0) (inr o) ∈ h)
  | CCopy q d _ skip, OAddCopy t =>
      ∃ s s' p p', t = new_copy skip s s' p p' ∧ resolved h q s p ∧ resolved h d s' p'
  | CPutDirectly d f, OPut s p src _ => src = FromRequest f ∧ si_NoUpload (sr_Info s) = false ∧ resolved h d s p
  | CPutAsTask d f, OCacheFull f' => f' = f
  | CPutAsTask d f, OAddUpload t =>
      ut_file t = f ∧ si_NoUpload (sr_Info (ut_storage t)) = false ∧ resolved h d (ut_storage t) (ut_dstDirActualPath t)
  | COther q m, OOther s p m' => m' = m ∧ resolved h q s p
  | COther q m, OAddTransition s p q' m' => q' = q ∧ m' = ToLower (TrimSpace m) ∧ sr_S3 s = true ∧ resolved h q s p
  | CMove q d _, OResolve q' | CCopy q d _ _, OResolve q' => q' = q ∨ q' = d
  | (CPutDirectly q _ | CPutAsTask q _ | CList q _ _ | CLink q | CMakeDir q | CRename q _ | CRemove q | COther q _
     | CGetStorage q), OResolve q' => q' = q
  | CGetBalancedStorage q, OBalanced q' => q' = q
  | CLabels l, OLabels l' => l' = l
  | CSign q, OSign q' => q' = q
  | _, _ => False
  end.

(** The names package [op] reports are names. *)
Definition op_names_ok (c : op_action) : op_answer c → Prop :=
  match c with
  | OVirtualFiles _ => λ r, Forall (λ o, good_seg (f_Name o)) r
  | OList _ _ _ _ => λ r, ∀ l, r = inr l → Forall (λ o, good_seg (f_Name o)) l
  | OGet _ _ => λ r, ∀ o, r = inr o → good_seg (f_Name o)
  | _ => λ _, True
  end.

Section composed.
Context {RS : RoleStore} {RL : RegexpLib} {MS : MetaStore} {HE : HandlerEnv}.
Context (user : User).

(** A call of the package below is the part of a call that is allowed. *)
Definition part_of (P : fs_action → Prop) (h : list op_event) (c : op_action) : Prop := ∃ a, P a ∧ realises h a c.

Section one.
Context (P : fs_action → Prop).
Abbreviation owp m h Q := (wp op_names_ok (part_of P) m h Q).

Lemma owp_call a c h (Q : finish (op_answer c) → list op_event → Prop) :
  P a → realises h a c → (∀ r, op_names_ok c r → Q (Returned r) (h ++ [ev c r])) → owp (pcall c) h Q.
Proof. intros Ha Hr H. split; [by exists a|]. intros r Hg. by apply H. Qed.

Lemma owp_wrap {A} msg (m : fallible A) h (Q : finish (result A) → list op_event → Prop) :
  owp m h (λ x h', match x with
                   | Returned (inl e) => Q (Returned (inl (EWithMessage e msg))) h'
                   | Returned (inr a) => Q (Returned (inr a)) h'
                   | Panicked => Q Panicked h'
                   | OutOfFuel => Q OutOfFuel h'
                   end) → owp (f_wrap msg m) h Q.
Proof. intros H. apply wp_bind. eapply wp_mono; [exact H|]. by intros [[e|a]| |] h' Hx. Qed.

Lemma owp_then {A B} (m : fallible A) (k : A → fallible B) h Q :
  owp m h (λ x h', match x with
                   | Returned (inl e) => Q (Returned (inl e)) h'
                   | Returned (inr a) => owp (k a) h' Q
                   | Panicked => Q Panicked h'
                   | OutOfFuel => Q OutOfFuel h'
                   end) → owp (f_then m k) h Q.
Proof. intros H. apply wp_bind. eapply wp_mono; [exact H|]. by intros [[e|a]| |] h' Hx. Qed.

Lemma resolved_last h q s p : resolved (h ++ [ev (OResolve q) (inr (s, p))]) q s p.
Proof. apply elem_of_app. right. left. Qed.

Lemma resolved_app h k q s p : resolved h q s p → resolved (h ++ k) q s p.
Proof. intros H. apply elem_of_app. by left. Qed.

(** Resolving a path and going on with the storage. *)
Lemma owp_storage {B} a q msg (k : sref * gostr → fallible B) h Q :
  P a → (∀ h, realises h a (OResolve q)) → (∀ e h, Q (Returned (inl e)) h) →
  (∀ s p h', h `prefix_of` h' → resolved h' q s p → owp (k (s, p)) h' Q) →
  owp (f_then (storage_of q msg) k) h Q.
Proof.
  intros Ha Hr He Hk. apply owp_then, owp_wrap. apply (owp_call a); [done..|]. intros [e|[s p]] _; [done|].
  apply Hk; [by apply prefix_app_r|apply resolved_last].
Qed.

(** *** Each call *)

Abbreviation good_objs l := (Forall (λ o, good_seg (f_Name o)) l).

Lemma together_good u meta path objs vs l : put_together u meta path objs vs l → good_objs objs → good_objs vs → good_objs l.
Proof.
  intros (_ & Hs & _) Ho Hv. rewrite Forall_forall in *. intros o Hin.
  assert (Hin' : o ∈ objs ++ vs) by (by eapply elem_of_submseteq, sublist_submseteq).
  apply elem_of_app in Hin' as [?|?]; auto.
Qed.

Lemma impl_list q refresh meta h : P (CList q refresh meta) →
  owp (fs_list (Some user) meta q refresh) h (λ x _, ∀ r, x = Returned r → ∀ l, r = inr l → good_objs l).
Proof.
  intros Ha. unfold fs_list. apply wp_bind. apply (owp_call (CList q refresh meta)); [done..|]. intros vs Hv. simpl in vs, Hv.
  apply wp_bind. apply (owp_call (CList q refresh meta)); [done..|]. intros r _.
  assert (Hm : ∀ objs h, good_objs objs →
    owp (merged (Some user) meta q objs vs) h (λ x _, ∀ r, x = Returned r → ∀ l, r = inr l → good_objs l)).
  { intros objs h' Ho. apply merged_spec; [|done]. intros l Hl r' E l' ->. simplify_eq. by eapply together_good. }
  apply owp_then. destruct r as [e|[s p]].
  - unfold storage_objs. case_bool_decide; simpl; [|apply Hm; constructor]. intros r E l ->. by simplify_eq.
  - apply wp_bind. apply (owp_call (CList q refresh meta)); [done| |].
    { simpl; split_ands; [done..|]. apply resolved_last. }
    intros [e|objs] Ho; simpl in *; [|by apply Hm, Ho]. case_bool_decide; simpl; [|apply Hm; constructor].
    intros r E l ->. by simplify_eq.
Qed.

Lemma impl_get q h : P (CGet q) → owp (fs_get q) h (λ x _, ∀ r, x = Returned r → ∀ o, r = inr o → good_seg (f_Name o)).
Proof.
  intros Ha. assert (Hin : ∀ h, owp (get_in_storage (FixAndCleanPath q)) h
    (λ x _, ∀ r, x = Returned r → ∀ o, r = inr o → good_seg (f_Name o))).
  { intros h'. apply wp_bind. apply (owp_call (CGet q)); [done..|]. intros [e|[s p]] _; cbn [bind_post].
    - case_bool_decide; intros r E o ->; simplify_eq. by apply (bool_decide_unpack _).
    - apply (owp_call (CGet q)); [done|apply resolved_last|]. intros r Hr r' E o ->. simplify_eq. by apply Hr. }
  unfold fs_get. cbv zeta. case_bool_decide; [|apply Hin]. apply wp_bind.
  apply (owp_call (CGet q)); [done..|]. intros vs Hv. simpl in *.
  destruct (filter _ vs) as [|f l] eqn:Ef; [apply Hin|]. intros r E o ->. simplify_eq.
  rewrite Forall_forall in Hv. apply Hv. assert (Hf : o ∈ filter (λ f, f_Name f = path_Base (FixAndCleanPath q)) vs).
  { rewrite Ef. left. } by apply list_elem_of_filter in Hf as [_ ?].
Qed.

Lemma resolved_prefix h h' q s p : h `prefix_of` h' → resolved h q s p → resolved h' q s p.
Proof. intros [k ->]. apply resolved_app. Qed.

(** Calls that resolve one path and hand on the work. *)
Lemma impl_one {B} a q msg (k : sref * gostr → fallible B) h :
  P a → (∀ h, realises h a (OResolve q)) →
  (∀ s p h', resolved h' q s p → owp (k (s, p)) h' (λ _ _, True)) →
  owp (f_then (storage_of q msg) k) h (λ _ _, True).
Proof. intros Ha Hr Hk. by apply (owp_storage a); auto. Qed.

Lemma impl_two {B} a q1 q2 m1 m2 (k : sref → gostr → sref → gostr → fallible B) h :
  P a → (∀ h, realises h a (OResolve q1)) → (∀ h, realises h a (OResolve q2)) →
  (∀ s p s' p' h', resolved h' q1 s p → resolved h' q2 s' p' → owp (k s p s' p') h' (λ _ _, True)) →
  owp (f_then (storage_of q1 m1) (λ '(s, p), f_then (storage_of q2 m2) (λ '(s', p'), k s p s' p'))) h (λ _ _, True).
Proof.
  intros Ha H1 H2 Hk. apply (impl_one a); [done..|]. intros s p h' Hr. apply (owp_storage a); [done..|].
  intros s' p' h'' Hp Hr'. apply Hk; [by eapply resolved_prefix|done].
Qed.

Lemma impl_upload {B} a q (k : sref * gostr → fallible B) h :
  P a → (∀ h, realises h a (OResolve q)) →
  (∀ s p h', resolved h' q s p → si_NoUpload (sr_Info s) = false → owp (k (s, p)) h' (λ _ _, True)) →
  owp (f_then (upload_target q) k) h (λ _ _, True).
Proof.
  intros Ha Hr Hk. apply owp_then. unfold upload_target. apply (owp_storage a); [done..|].
  intros s p h' _ Hs. destruct (si_NoUpload _) eqn:E; simpl; auto.
Qed.

(** A call that ends a program, whose answer does not matter. *)
Lemma impl_last a c h : P a → realises h a c → owp (pcall c) h (λ _ _, True).
Proof. intros Ha Hr. by apply (owp_call a). Qed.

Lemma impl_same_file a s d o h : P a → realises h a (OGet s (path_join d (f_Name o))) →
  owp (same_file s d o) h (λ _ h', h `prefix_of` h').
Proof. intros Ha Hr. apply wp_bind. apply (owp_call a); [done..|]. intros r _. simpl. by apply prefix_app_r. Qed.

Lemma impl_copy src dst lazy skip h : P (CCopy src dst lazy skip) →
  owp (_copy false skip src dst lazy) h (λ _ _, True).
Proof.
  intros Ha. set (a := CCopy src dst lazy skip) in *. unfold _copy.
  apply wp_bind, owp_wrap, (owp_call a); [done|by left|]. intros [e|[s p]] _; [done|]. cbn [bind_post].
  apply wp_bind, owp_wrap, (owp_call a); [done|by right|]. intros [e|[s' p']] _; [done|]. cbn [bind_post].
  set (h1 := _ ++ [ev (OResolve dst) _]).
  assert (R1 : resolved h1 src s p) by apply resolved_app, resolved_last.
  assert (R2 : resolved h1 dst s' p') by apply resolved_last. clearbody h1.
  assert (Hadd : ∀ h2, h1 `prefix_of` h2 →
    owp (prog_bind (pcall (OAddCopy (new_copy skip s s' p p'))) (λ id, PRet (Some id, @None error))) h2 (λ _ _, True)).
  { intros h2 Hp. apply wp_bind, (owp_call a); [done| |by intros r _]. exists s, s', p, p'.
    split; [done|]. split; by eapply resolved_prefix. }
  apply wp_bind. case_bool_decide as Es; [|by apply Hadd]. unfold copy_within.
  apply wp_bind, (wp_mono _ _ _ _ (λ _ h2, h1 `prefix_of` h2)).
  - destruct skip eqn:Ek; [|simpl; reflexivity]. apply wp_bind, (owp_call a); [done|split; [done|by left]|].
    intros [e|o] _; cbn [bind_post]; [by apply prefix_app_r|]. destruct (f_IsDir o); [by apply prefix_app_r|].
    eapply wp_mono; [apply (impl_same_file a); [done|]|].
    + split; [done|]. right. exists s', p', o. split; [by apply resolved_app|]. split; [done|]. split; [done|].
      exists p. split; [by apply resolved_app|]. apply elem_of_app. right. left.
    + intros x h' Hp. etrans; [by apply prefix_app_r|exact Hp].
  - intros [[]| |] h2 Hp; cbn [bind_post]; [done| |done..].
    apply wp_bind, (owp_call a); [done| |].
    + split; [by eapply resolved_prefix|]. exists s'. split; [by eapply resolved_prefix|done].
    + intros [e|[]] _; cbn [bind_post wp]; [|done]. destruct (_ || _); [|done].
      apply Hadd. by apply prefix_app_r.
Qed.

Lemma impl_ok c h : P c → owp (fs_impl user c) h (λ x _, ∀ r, x = Returned r → names_ok c r).
Proof.
  assert (Hweak : ∀ A (m : op_prog A) h (Q : finish A → list op_event → Prop),
    (∀ x h', Q x h') → owp m h (λ _ _, True) → owp m h Q) by (intros; by eapply wp_mono).
  intros Ha. destruct c as [q refresh meta|q|q|q|src dst lazy|src dst lazy skip|src name|q|d f|d f|q m|q|q|l|q];
    [by apply impl_list|by apply impl_get| | |..]; apply Hweak; try done; cbn [fs_impl].
  - apply owp_then. unfold fs_link. eapply wp_mono; [apply (impl_one (CLink q)); [done..|]|by intros [[?|[]]| |]].
    intros s p h' Hr. apply owp_then, owp_wrap, (owp_call (CLink q)); [done..|]. by intros [?|[]] _.
  - apply (impl_one (CMakeDir q)); [done..|]. intros s p h' Hr. by apply (impl_last (CMakeDir q)).
  - set (a := CMove src dst lazy) in *. apply (impl_two a); [done|by left|by right|].
    intros s p s' p' h' R1 R2. case_bool_decide as Es; [done|]. apply (impl_last a); [done|].
    split; [done|]. exists s'. split; [done|]. destruct (decide (sr_addr s = sr_addr s')); [done|by destruct Es].
  - by apply impl_copy.
  - apply (impl_one (CRename src name)); [done..|]. intros s p h' Hr. by apply (impl_last (CRename src name)).
  - apply (impl_one (CRemove q)); [done..|]. intros s p h' Hr. by apply (impl_last (CRemove q)).
  - apply (impl_upload (CPutDirectly d f)); [done..|]. intros s p h' Hr Hu. by apply (impl_last (CPutDirectly d f)).
  - set (a := CPutAsTask d f) in *. apply (impl_upload a); [done..|]. intros s p h' Hr Hu. apply owp_then.
    assert (Hadd : ∀ h2, h' `prefix_of` h2 → owp (prog_bind (pcall (OAddUpload {| ut_storage := s; ut_dstDirActualPath := p; ut_file := f |})) f_ok) h2 (λ _ _, True)).
    { intros h2 Hp. apply wp_bind, (owp_call a); [done| |by intros r _]. split; [done|]. split; [done|]. by eapply resolved_prefix. }
    destruct (fst_AsTask f); [|by apply Hadd]. apply owp_wrap, (owp_call a); [done..|]. intros [e|[]] _; [done|].
    apply Hadd. by apply prefix_app_r.
  - set (a := COther q m) in *. apply (impl_one a); [done..|]. intros s p h' Hr. cbv zeta.
    destruct (sr_S3 s && _) eqn:Es; [|by apply (impl_last a)]. apply andb_true_iff in Es as [Es _].
    apply wp_bind, (owp_call a); [done..|]. by intros r _.
  - apply owp_then, (owp_call (CGetStorage q)); [done..|]. by intros [?|[]] _.
  - by apply (impl_last (CGetBalancedStorage q)).
  - by apply (impl_last (CLabels l)).
  - by apply (impl_last (CSign q)).
Qed.
End one.

End composed.
