(* ===== verification/FsCopyThms.v ===== *)
(** * Copying between storages

    A copy of a directory is a task that adds a task for each object in it,
    and so on.  The tasks of a tree, run in any order, copy each file of the
    tree once, into the directory that corresponds to its own. *)

From S2P Require Import Prelude GoStrings Errs Store Paths HttpRange Crypto Users Perm Prog Sign Shares ShareHandlers FsHandlers FsPkg.

Local Open Scope Z_scope.

(** ** Trees *)

Inductive tree :=
  | TFile (o : FObj)
  | TDir (o : FObj) (l : list tree).

Definition obj_of (t : tree) : FObj := match t with TFile o => o | TDir o _ => o end.

Fixpoint nodes (t : tree) : nat :=
  match t with TFile _ => 1 | TDir _ l => S (sum_list (map nodes l)) end.

(** The files of a tree, each with the directory it belongs to when the tree is
    put into the directory [d]. *)
Fixpoint files (t : tree) (d : gostr) : list (gostr * FObj) :=
  match t with
  | TFile o => [(d, o)]
  | TDir o l => concat (map (λ c, files c (path_join d (f_Name o))) l)
  end.

(** ** What a run did *)

Fixpoint puts (tr : list op_event) : list (sref * (gostr * FObj)) :=
  match tr with
  | existT (OPut s d (FromObj o _) _) _ :: tr' => (s, (d, o)) :: puts tr'
  | _ :: tr' => puts tr'
  | [] => []
  end.

Fixpoint added (tr : list op_event) : list CopyTask :=
  match tr with
  | existT (OAddCopy t) _ :: tr' => t :: added tr'
  | _ :: tr' => added tr'
  | [] => []
  end.

(** Tasks run one after the other, in any order; what they add is run later. *)
Inductive tasks_run : list CopyTask → list op_event → nat → list CopyTask → Prop :=
  | tasks_none q : tasks_run q [] 0 q
  | tasks_one q1 t q2 tr1 x tr2 n q' :
      runs_to (CopyTask_Run t) tr1 x → tasks_run (q1 ++ q2 ++ added tr1) tr2 n q' →
      tasks_run (q1 ++ t :: q2) (tr1 ++ tr2) (S n) q'.

Lemma puts_app t1 t2 : puts (t1 ++ t2) = puts t1 ++ puts t2.
Proof. induction t1 as [|[[] ?] t1 IH]; simpl; try done. destruct file; simpl; [done|by rewrite IH]. Qed.

Lemma added_app t1 t2 : added (t1 ++ t2) = added t1 ++ added t2.
Proof. induction t1 as [|[[] ?] t1 IH]; simpl; try done. by rewrite IH. Qed.

Section copy.
Context (skip : bool) (src dst : sref) (at_src : gostr → option tree).

(** The source has the tree: the objects below a directory are where their
    names say, and the kind of an object is that of its node. *)
Class Source : Prop := {
  source_child p o l c : at_src p = Some (TDir o l) → c ∈ l → at_src (path_join p (f_Name (obj_of c))) = Some c;
  source_kind p t : at_src p = Some t → f_IsDir (obj_of t) = match t with TDir _ _ => true | TFile _ => false end;
}.
Context {HS : Source}.

(** Package [op] answers from the tree, and nothing fails or is cancelled. *)
Definition truthful (c : op_action) : op_answer c → Prop :=
  match c with
  | OGet s p => λ r, s = src → ∀ t, at_src p = Some t → r = inr (obj_of t)
  | OList s p _ _ => λ r, s = src → ∀ o l, at_src p = Some (TDir o l) → r = inr (map obj_of l)
  | OLink s p => λ r, ∃ url, r = inr url
  | ONewSeekableStream _ _ => λ r, r = inr ()
  | OPut _ _ _ _ => λ r, r = inr ()
  | OCanceled => λ r, r = false
  | _ => λ _, True
  end.

Abbreviation task p d := (new_copy skip src dst p d).

(** The file was found at the destination with the same size, and was to be
    skipped. *)
Definition skipped_in (tr : list op_event) (x : gostr * FObj) : Prop :=
  skip = true ∧ ∃ f, ev (OGet dst (path_join x.1 (f_Name x.2))) (inr f) ∈ tr ∧ f_IsDir f = false ∧ f_Size f = f_Size x.2.

(** ** One task *)

Abbreviation twp m h Q := (wp truthful (λ _ _, True) m h Q).

Lemma twp_call c h (Q : finish (op_answer c) → list op_event → Prop) :
  (∀ r, truthful c r → Q (Returned r) (h ++ [ev c r])) → twp (pcall c) h Q.
Proof. intros H. split; [done|]. intros r Hg. by apply H. Qed.

Lemma twp_wrap {A} msg (m : fallible A) h a (Q : finish (result A) → list op_event → Prop) :
  twp m h (λ x h', x = Returned (inr a) ∧ Q (Returned (inr a)) h') → twp (f_wrap msg m) h Q.
Proof. intros H. apply wp_bind. eapply wp_mono; [exact H|]. by intros y h' [-> HQ]. Qed.

Lemma twp_then {A B} (m : fallible A) (k : A → fallible B) h a Q :
  twp m h (λ x h', x = Returned (inr a) ∧ twp (k a) h' Q) → twp (f_then m k) h Q.
Proof. intros H. apply wp_bind. eapply wp_mono; [exact H|]. by intros y h' [-> HQ]. Qed.

Lemma copy_file p d o h : at_src p = Some (TFile o) →
  twp (copyFileBetween2Storages skip src dst p d) h (λ x h', x = Returned (inr ()) ∧ added h' = added h ∧
    ∃ sk, puts h' ++ map (pair dst) sk = puts h ++ [(dst, (d, o))] ∧ Forall (skipped_in h') sk).
Proof.
  intros Ht. unfold copyFileBetween2Storages. apply (twp_then _ _ _ o), (twp_wrap _ _ _ o), twp_call.
  intros r Hr. rewrite (Hr eq_refl _ Ht). split; [done|]. split; [done|].
  set (h1 := h ++ _). assert (E1 : puts h1 = puts h ∧ added h1 = added h).
  { unfold h1. by rewrite puts_app, added_app, !app_nil_r. }
  assert (Hput : ∀ h2, puts h2 = puts h → added h2 = added h →
    twp (copy_stream src dst p d o true) h2 (λ x h', x = Returned (inr ()) ∧ added h' = added h ∧
      ∃ sk, puts h' ++ map (pair dst) sk = puts h ++ [(dst, (d, o))] ∧ Forall (skipped_in h') sk)).
  { intros h2 Hp Ha. unfold copy_stream. apply wp_bind, wp_bind, twp_call. intros ? [[url o'] ->]. cbn -[puts added].
    split; [done|]. intros ? ->. cbn -[puts added]. split; [done|]. intros ? ->. split; [done|].
    rewrite !added_app, !puts_app. simpl. rewrite !app_nil_r. split; [done|]. exists []. by rewrite Hp, app_nil_r. }
  apply wp_bind. destruct skip eqn:Ek; [|apply Hput; apply E1]. apply wp_bind, twp_call. intros r2 _. cbn -[puts added].
  set (h2 := h1 ++ _). assert (E2 : puts h2 = puts h ∧ added h2 = added h).
  { unfold h2. rewrite puts_app, added_app, !app_nil_r. apply E1. }
  destruct r2 as [e|f]; [apply Hput; apply E2|]. destruct (negb (f_IsDir f) && _) eqn:Ef; [|apply Hput; apply E2].
  split; [done|]. split; [apply E2|]. exists [(d, o)]. rewrite (proj1 E2). split; [done|]. repeat constructor.
  - done.
  - exists f. split; [apply elem_of_app; right; left|]. apply andb_true_iff in Ef as [E3 E4].
    split; [by apply negb_true_iff|by apply Z.eqb_eq].
Qed.

Lemma copy_dir p d objs h :
  twp (add_copies skip src dst p d objs) h (λ x h', x = Returned (inr ()) ∧ puts h' = puts h ∧
    added h' = added h ++ map (λ o, task (path_join p (f_Name o)) d) objs).
Proof.
  revert h. induction objs as [|o objs IH]; intros h; cbn [add_copies]; [by simpl; rewrite app_nil_r|].
  apply wp_bind, twp_call. intros ? ->. cbn [bind_post]. apply wp_bind, twp_call. intros id _. cbn [bind_post].
  eapply wp_mono; [apply IH|]. intros x h' (Hx & Hp & Ha). split; [done|].
  rewrite Hp, Ha, !puts_app, !added_app. simpl. rewrite !app_nil_r, <- app_assoc. done.
Qed.

Lemma run_task p d t tr x : at_src p = Some t → runs_to (CopyTask_Run (task p d)) tr x →
  Forall (λ e, truthful (projT1 e) (projT2 e)) tr →
  x = Returned (inr ()) ∧
  match t with
  | TFile o => added tr = [] ∧ ∃ sk, puts tr ++ map (pair dst) sk = [(dst, (d, o))] ∧ Forall (skipped_in tr) sk
  | TDir o l => puts tr = [] ∧ added tr = map (λ c, task (path_join p (f_Name (obj_of c))) (path_join d (f_Name o))) l
  end.
Proof.
  intros Ht Hrun Hg. pattern x, tr. eapply (wp_end truthful); [|exact Hrun|exact Hg].
  unfold CopyTask_Run. cbn [ct_srcStorage ct_dstStorage new_copy task_storage prog_bind].
  cbn [ct_SkipExisting ct_SrcObjPath ct_DstDirPath]. unfold copyBetween2Storages.
  apply (twp_then _ _ _ (obj_of t)), (twp_wrap _ _ _ (obj_of t)), twp_call. intros r Hr.
  rewrite (Hr eq_refl _ Ht). split; [done|]. split; [done|]. rewrite (source_kind _ _ Ht). destruct t as [o|o l].
  - eapply wp_mono; [by apply copy_file|]. intros y h (Hy & Ha & sk & Hp & Hs). split; [done|]. split; [done|]. by exists sk.
  - apply (twp_then _ _ _ (map obj_of l)), (twp_wrap _ _ _ (map obj_of l)), twp_call. intros r2 Hr2.
    rewrite (Hr2 eq_refl _ _ Ht). split; [done|]. split; [done|].
    eapply wp_mono; [apply copy_dir|]. intros y h (Hy & Hp & Ha). split; [done|]. split; [done|].
    rewrite Ha. simpl. by rewrite map_map.
Qed.

(** ** All tasks *)

(** A task of the queue and the tree it copies. *)
Record job := { j_src : gostr; j_dst : gostr; j_tree : tree }.
Definition job_task (j : job) : CopyTask := task (j_src j) (j_dst j).
Definition job_ok (j : job) : Prop := at_src (j_src j) = Some (j_tree j).
Definition job_files (js : list job) : list (gostr * FObj) := concat (map (λ j, files (j_tree j) (j_dst j)) js).
Definition job_nodes (js : list job) : nat := sum_list (map (λ j, nodes (j_tree j)) js).

Lemma job_files_app a b : job_files (a ++ b) = job_files a ++ job_files b.
Proof. unfold job_files. by rewrite map_app, concat_app. Qed.
Lemma job_nodes_app a b : job_nodes (a ++ b) = (job_nodes a + job_nodes b)%nat.
Proof. induction a as [|j a IH]; [done|]. unfold job_nodes in *. simpl. rewrite IH. lia. Qed.

Definition children (p d : gostr) (o : FObj) (l : list tree) : list job :=
  map (λ c, {| j_src := path_join p (f_Name (obj_of c)); j_dst := path_join d (f_Name o); j_tree := c |}) l.

(** What is left after one task. *)
Lemma run_job j tr x : job_ok j → runs_to (CopyTask_Run (job_task j)) tr x →
  Forall (λ e, truthful (projT1 e) (projT2 e)) tr →
  ∃ js sk, added tr = map job_task js ∧ Forall job_ok js ∧ nodes (j_tree j) = S (job_nodes js) ∧
    Forall (skipped_in tr) sk ∧
    puts tr ++ map (pair dst) (sk ++ job_files js) = map (pair dst) (files (j_tree j) (j_dst j)).
Proof.
  intros Hj Hrun Hg. destruct j as [p d t]. destruct (run_task _ _ _ _ _ Hj Hrun Hg) as [_ H]. simpl in *. destruct t as [o|o l].
  - destruct H as (Ha & sk & Hp & Hs). exists [], sk. rewrite Ha, app_nil_r. simpl. split_ands; [done|constructor|done..].
  - destruct H as [Hp Ha]. exists (children p d o l), []. rewrite Ha, Hp. simpl. unfold children, job_files, job_nodes.
    rewrite !map_map. split_ands; [done| |done|constructor|done].
    apply Forall_forall. intros j (c & -> & Hc)%list_elem_of_fmap. by eapply source_child.
Qed.

Lemma skipped_app t1 t2 sk : Forall (skipped_in t1) sk → Forall (skipped_in (t1 ++ t2)) sk.
Proof.
  intros H. eapply Forall_impl; [exact H|]. intros y [Hk (f & Hin & Hf)]. split; [done|]. exists f. split; [apply elem_of_app; by left|done].
Qed.

Lemma skipped_app_r t1 t2 sk : Forall (skipped_in t2) sk → Forall (skipped_in (t1 ++ t2)) sk.
Proof.
  intros H. eapply Forall_impl; [exact H|]. intros y [Hk (f & Hin & Hf)]. split; [done|]. exists f. split; [apply elem_of_app; by right|done].
Qed.

(** Nothing is lost and nothing is done twice, at any time. *)
Lemma tasks_inv q tr n q' : tasks_run q tr n q' → ∀ js, q = map job_task js → Forall job_ok js →
  Forall (λ e, truthful (projT1 e) (projT2 e)) tr →
  ∃ js' sk, q' = map job_task js' ∧ Forall job_ok js' ∧ job_nodes js = (n + job_nodes js')%nat ∧
    Forall (skipped_in tr) sk ∧
    puts tr ++ map (pair dst) (sk ++ job_files js') ≡ₚ map (pair dst) (job_files js).
Proof.
  induction 1 as [q|q1 t q2 tr1 x tr2 n q' Hrun Htasks IH]; intros js E Hok Hg.
  - exists js, []. by split_ands; try constructor.
  - apply Forall_app in Hg as [Hg1 Hg2]. symmetry in E.
    apply fmap_app_inv in E as (js1 & js2' & -> & E & ->). symmetry in E. apply fmap_cons_inv in E as (j & js2 & -> & -> & ->).
    apply Forall_app in Hok as [Hok1 [Hj Hok2]%Forall_cons].
    destruct (run_job j tr1 x Hj Hrun Hg1) as (js3 & sk1 & Ha & Hok3 & Hn & Hs1 & Hf).
    destruct (IH (js1 ++ js2 ++ js3)) as (js' & sk2 & Hq & Hok' & Hn' & Hs2 & Hf'); [|by rewrite !Forall_app|done|].
    { by rewrite Ha, !map_app. }
    exists js', (sk1 ++ sk2). split_ands; [done..| | |].
    + rewrite !job_nodes_app in *. unfold job_nodes in *. simpl. lia.
    + apply Forall_app. split; [by apply skipped_app|by apply skipped_app_r].
    + rewrite puts_app. rewrite !map_app in *. rewrite !job_files_app, !map_app in *. unfold job_files at 3. simpl.
      fold (job_files js2). rewrite map_app, <- Hf.
      rewrite (Permutation_app_comm (map (pair dst) sk1)).
      transitivity (puts tr1 ++ map (pair dst) sk1 ++ (puts tr2 ++ map (pair dst) sk2 ++ map (pair dst) (job_files js'))).
      { solve_Permutation. }
      rewrite Hf'. solve_Permutation.
Qed.

Lemma nodes_pos t : (1 ≤ nodes t)%nat.
Proof. destruct t; simpl; lia. Qed.

Lemma job_nodes_nil js : job_nodes js = 0%nat ↔ js = [].
Proof.
  split; [|by intros ->]. destruct js as [|j js]; [done|]. unfold job_nodes. simpl. pose proof (nodes_pos (j_tree j)). lia.
Qed.

(** Truthful answers there always are. *)
Definition answer_from (c : op_action) : op_answer c :=
  match c return op_answer c with
  | OGet _ p => match at_src p with Some t => inr (obj_of t) | None => inl (ESentinel ObjectNotFound) end
  | OList _ p _ _ => match at_src p with Some (TDir _ l) => inr (map obj_of l) | _ => inl (ESentinel NotFolder) end
  | OLink _ p => inr (p, match at_src p with Some t => obj_of t | None => root_object end)
  | ONewSeekableStream _ _ | OPut _ _ _ _ | OMakeDir _ _ _ | OMove _ _ _ _ | OCopy _ _ _ _ | ORename _ _ _ _
  | ORemove _ _ | OPutURL _ _ _ _ | OCacheFull _ => inr ()
  | OCanceled => false
  | OVirtualFiles _ => []
  | OResolve _ => inl (ESentinel StorageNotFound)
  | OByMountPath _ => inl (ESentinel StorageNotFound)
  | OBalanced _ => None
  | OOther _ _ _ => inr []
  | OAddCopy _ | OAddUpload _ | OAddTransition _ _ _ _ | OSign _ => []
  | OLabels _ => ∅
  end.

Lemma answer_truthful c : truthful c (answer_from c).
Proof.
  destruct c; simpl; try done; try (by eexists).
  - intros _ o l ->. done.
  - intros _ t ->. done.
Qed.

Lemma truthful_run {A} (m : op_prog A) : ∃ tr x, runs_to m tr x ∧ Forall (λ e, truthful (projT1 e) (projT2 e)) tr.
Proof.
  induction m as [a|c k IH| |].
  - exists [], (Returned a). split; constructor.
  - destruct (IH (answer_from c)) as (tr & x & Hrun & Hg). exists (ev c (answer_from c) :: tr), x.
    split; [by constructor|]. constructor; [apply answer_truthful|done].
  - exists [], Panicked. split; constructor.
  - exists [], OutOfFuel. split; constructor.
Qed.

(** A queue of tasks can be run to its end. *)
Lemma tasks_finish n js : job_nodes js = n → Forall job_ok js →
  ∃ tr, tasks_run (map job_task js) tr n [] ∧ Forall (λ e, truthful (projT1 e) (projT2 e)) tr.
Proof.
  revert js. induction n as [|n IH]; intros js Hn Hok.
  - apply job_nodes_nil in Hn as ->. exists []. split; constructor.
  - destruct js as [|j js]; [done|]. apply Forall_cons in Hok as [Hj Hok].
    destruct (truthful_run (CopyTask_Run (job_task j))) as (tr1 & x & Hrun & Hg1).
    destruct (run_job j tr1 x Hj Hrun Hg1) as (js3 & sk & Ha & Hok3 & Hn3 & _).
    destruct (IH (js ++ js3)) as (tr2 & Hrun2 & Hg2); [|by apply Forall_app|].
    { rewrite job_nodes_app. unfold job_nodes in *. simpl in Hn. lia. }
    exists (tr1 ++ tr2). split; [|by apply Forall_app]. apply (tasks_one [] _ _ _ x); [done|].
    rewrite Ha. cbn [app]. rewrite map_app in Hrun2. exact Hrun2.
Qed.

(** C9. Copying a tree to another storage: the task of its root and the tasks
    that follow from it, run in any order, are as many as the tree has objects,
    so there is an end, and they never get stuck; when none is left, each file
    of the tree was written once, into the directory of the destination that
    corresponds to its own, except files that were to be skipped and are there
    with the same size. *)
Theorem copy_tree_exact p d t tr n q :
  at_src p = Some t → tasks_run [task p d] tr n q → Forall (λ e, truthful (projT1 e) (projT2 e)) tr →
  (n ≤ nodes t)%nat ∧ (q = [] ↔ n = nodes t) ∧
  (∃ tr', tasks_run q tr' (nodes t - n) [] ∧ Forall (λ e, truthful (projT1 e) (projT2 e)) tr') ∧
  (q = [] → ∃ sk, puts tr ++ map (pair dst) sk ≡ₚ map (pair dst) (files t d) ∧ Forall (skipped_in tr) sk).
Proof.
  intros Ht Hrun Hg. destruct (tasks_inv _ _ _ _ Hrun [{| j_src := p; j_dst := d; j_tree := t |}]) as
    (js & sk & -> & Hok & Hn & Hs & Hf); [done|by repeat constructor|done|].
  unfold job_nodes at 1 in Hn. simpl in Hn. split; [lia|]. split; [|split].
  - split; [intros E%fmap_nil_inv; subst js; unfold job_nodes in Hn; simpl in Hn; lia|].
    intros ->. assert (js = []) as ->; [apply job_nodes_nil; lia|done].
  - apply tasks_finish; [lia|done].
  - intros E%fmap_nil_inv. subst js. exists sk. split; [|done]. unfold job_files in Hf. simpl in Hf.
    by rewrite !app_nil_r in Hf.
Qed.
End copy.
