(* ===== verification/FsPkgExamples.v ===== *)
(** * The virtual file system: its theorems on concrete inputs, and its
      defects *)

From S2P Require Import Prelude GoStrings Errs Store Paths HttpRange Crypto Users Perm Prog Sign Shares ShareHandlers FsHandlers FsHandlersSpec FsHandlersExamples FsPkg FsPkgThms FsCopyThms.

Local Open Scope Z_scope.

Module PkgExample.
#[export] Existing Instance FsExample.role.
#[export] Existing Instance FsExample.env.

(** A pattern of letters matches the names that begin with it. *)
#[export] Instance prefixes : RegexpLib := λ pattern, Some (λ n, HasPrefix n pattern).

(** [/home/a] and what is below it hides names that begin with [secret];
    [/home/b] has a line feed after its pattern. *)
Definition hide (path pattern : gostr) : Meta :=
  {| meta_ID := 1; meta_Path := path; meta_Password := []; PSub := false; meta_Write := false; WSub := false;
     Hide := pattern; HSub := true; Readme := []; RSub := false; Header := []; HeaderSub := false |}.

#[export] Instance metas : MetaStore := λ p,
  if IsSubPath #"/home/a" p then inr (hide #"/home/a" #"secret") else inl (ESentinel MetaNotFound).

Definition obj := FsExample.obj.
Definition bob := FsExample.bob.

Definition disk (addr : nat) (mount : gostr) : sref :=
  {| sr_addr := addr; sr_MountPath := mount; sr_Info := FsExample.storage; sr_S3 := false; sr_PutURL := false;
     sr_PutURLResult := false |}.

(** [/home/a/old] has one file, which is hidden. *)
Definition tree : gmap gostr (list FObj) :=
  {[ #"/home" := [obj 3 #"a" true; obj 4 #"b" true];
     #"/home/a" := [obj 6 #"x" false; obj 7 #"old" true; obj 8 #"y" false];
     #"/home/a/old" := [obj 11 #"secret.key" false];
     #"/home/b" := [obj 9 #"x" false] ]}.

(** One storage at the root, and a mount point [c] below [/home]. *)
Definition answer (c : op_action) : op_answer c :=
  match c return op_answer c with
  | OVirtualFiles p => if bool_decide (p = #"/home") then [obj 20 #"b" true; obj 21 #"c" true] else []
  | OResolve p => inr (disk 1 #"/", p)
  | OByMountPath p => if bool_decide (p = #"/") then inr (disk 1 #"/") else inl (ESentinel StorageNotFound)
  | OBalanced _ => Some FsExample.storage
  | OList _ p _ _ => match tree !! p with Some l => inr l | None => inl (ESentinel ObjectNotFound) end
  | OGet _ p =>
      match tree !! path_Dir p with
      | Some l => match filter (λ o, f_Name o = base_of p) l with o :: _ => inr o | [] => inl (ESentinel ObjectNotFound) end
      | None => inl (ESentinel ObjectNotFound)
      end
  | OLink _ p => inr (p, root_object)
  | OMakeDir _ _ _ | OMove _ _ _ _ | OCopy _ _ _ _ | ORename _ _ _ _ | ORemove _ _ | OPut _ _ _ _ | OPutURL _ _ _ _
  | ONewSeekableStream _ _ | OCacheFull _ => inr ()
  | OOther _ _ _ => inr []
  | OCanceled => false
  | OAddCopy _ | OAddUpload _ | OAddTransition _ _ _ _ => #"id"
  | OLabels _ => ∅
  | OSign p => #"sign of " ++ p
  end.

Definition run {A} (m : op_prog A) : list op_event * finish A := run_with (λ _, answer) [] m.

Lemma op_run_runs {A} (m : op_prog A) : runs_to m (run m).1 (run m).2.
Proof. destruct (run_with_runs (λ _, answer) m []) as (tr & E & H). unfold run at 1. by rewrite E. Qed.

Definition request (r : fs_request) : op_prog (reject + unit) := interp (fs_impl bob) (serve bob 9 r).
Definition calls {A} (m : op_prog A) : list op_action := map projT1 (run m).1.

Definition names (x : finish (result (list FObj))) : option (list gostr) :=
  match x with Returned (inr l) => Some (map f_Name l) | _ => None end.

Definition op_names_okb (c : op_action) : op_answer c → bool :=
  match c with
  | OVirtualFiles _ => λ r, forallb (λ o, FsExample.ok_name (f_Name o)) r
  | OList _ _ _ _ => λ r, match r with inr l => forallb (λ o, FsExample.ok_name (f_Name o)) l | inl _ => true end
  | OGet _ _ => λ r, match r with inr o => FsExample.ok_name (f_Name o) | inl _ => true end
  | _ => λ _, true
  end.

Lemma ok_names_good l : forallb (λ o, FsExample.ok_name (f_Name o)) l = true → Forall (λ o, good_seg (f_Name o)) l.
Proof.
  intros H. rewrite forallb_forall in H. apply Forall_forall. intros o Ho.
  by apply FsExample.ok_name_good, H, list_elem_of_In.
Qed.

Lemma op_names_okb_ok tr : forallb (λ e : op_event, op_names_okb (projT1 e) (projT2 e)) tr = true →
  Forall (λ e : op_event, op_names_ok (projT1 e) (projT2 e)) tr.
Proof.
  intros H. rewrite forallb_forall in H. apply Forall_forall. intros [c r] Hin.
  apply list_elem_of_In, H in Hin. destruct c; try done; simpl in *.
  - by apply ok_names_good.
  - intros l ->. by apply ok_names_good.
  - intros o ->. by apply FsExample.ok_name_good.
Qed.

(** A directory of two files and an empty directory, in a storage of its own. *)
Definition photos : FsCopyThms.tree :=
  TDir (obj 30 #"photos" true) [TFile (obj 31 #"p" false); TDir (obj 32 #"new" true) []; TFile (obj 33 #"q" false)].
Definition at_src (p : gostr) : option FsCopyThms.tree :=
  if bool_decide (p = #"/photos") then Some photos
  else if bool_decide (p = #"/photos/p") then Some (TFile (obj 31 #"p" false))
  else if bool_decide (p = #"/photos/new") then Some (TDir (obj 32 #"new" true) [])
  else if bool_decide (p = #"/photos/q") then Some (TFile (obj 33 #"q" false))
  else None.

#[export] Instance photos_source : Source at_src.
Proof.
  constructor.
  - intros p o l c Hp. unfold at_src in Hp. repeat case_bool_decide; try discriminate Hp; injection Hp as <- <-; subst; intros Hc;
      repeat (apply elem_of_cons in Hc as [->|Hc]; [vm_compute; reflexivity|]); by apply elem_of_nil in Hc.
  - intros p t. unfold at_src. repeat case_bool_decide; by intros [= <-].
Qed.
End PkgExample.
Import PkgExample.

(** [b] is in the storage and a mount point: it is listed once. *)
Lemma fs_list_exact_witness :
  ∃ l, (run (fs_list (Some bob) (Some (hide #"/home" #"a")) #"/home" false)).2 = Returned (inr l) ∧
    map f_Name l = [ #"b"; #"c"] ∧ NoDup (map f_Name l).
Proof.
  set (m := fs_list (Some bob) (Some (hide #"/home" #"a")) #"/home" false).
  assert (Hn : names (run m).2 = Some [ #"b"; #"c"]) by (vm_compute; reflexivity).
  destruct (fs_list_exact (Some bob) (Some (hide #"/home" #"a")) #"/home" false (run m).1 (run m).2 (op_run_runs m))
    as (vs & r & _ & H).
  destruct (run m).2 as [[e|l]| |] eqn:E; try discriminate Hn.
  exists l. split; [reflexivity|]. split; [by injection Hn|]. destruct H as (objs & [Hd _] & _). exact Hd.
Defined.


(** The tasks of [photos], oldest first. *)
Definition copy_photos : CopyTask := new_copy false (disk 1 #"/x") (disk 2 #"/y") #"/photos" #"/backup".
Definition from_src {A} (m : op_prog A) : list op_event * finish A := run_with (λ _, answer_from at_src) [] m.
Fixpoint drain (fuel : nat) (q : list CopyTask) : list op_event :=
  match fuel, q with
  | S fuel', t :: q' => let tr := (from_src (CopyTask_Run t)).1 in tr ++ drain fuel' (q' ++ added tr)
  | _, _ => []
  end.

Lemma from_src_runs {A} (m : op_prog A) : runs_to m (from_src m).1 (from_src m).2.
Proof. destruct (run_with_runs (λ _, answer_from at_src) m []) as (tr & E & H). unfold from_src at 1. by rewrite E. Qed.

Lemma drain_4 t1 t2 t3 t4 :
  added (from_src (CopyTask_Run t1)).1 = [t2; t3; t4] → added (from_src (CopyTask_Run t2)).1 = [] →
  added (from_src (CopyTask_Run t3)).1 = [] → added (from_src (CopyTask_Run t4)).1 = [] →
  tasks_run [t1] (drain 4 [t1]) 4 [].
Proof.
  intros E1 E2 E3 E4.
  cbn [drain app]. rewrite E1. cbn [drain app].
  apply (tasks_one [] t1 [] _ _ _ _ _ (from_src_runs _)). rewrite E1.
  apply (tasks_one [] t2 [t3; t4] _ _ _ _ _ (from_src_runs _)). rewrite E2.
  apply (tasks_one [] t3 [t4] _ _ _ _ _ (from_src_runs _)). rewrite E3.
  apply (tasks_one [] t4 [] _ _ _ _ _ (from_src_runs _)). rewrite E4. constructor.
Qed.

(** Every answer of [answer_from] is the one asked for. *)
Lemma drain_truthful n q : Forall (λ e, truthful (disk 1 #"/x") at_src (projT1 e) (projT2 e)) (drain n q).
Proof.
  assert (Hrun : ∀ A (m : op_prog A) h, Forall (λ e : op_event, truthful (disk 1 #"/x") at_src (projT1 e) (projT2 e)) h →
    Forall (λ e : op_event, truthful (disk 1 #"/x") at_src (projT1 e) (projT2 e)) (run_with (λ _, answer_from at_src) h m).1).
  { intros A m. induction m as [a|c k IH| |]; intros h Hh; simpl; [done| |done..].
    apply IH, Forall_app. split; [done|]. constructor; [apply answer_truthful|constructor]. }
  revert q. induction n as [|n IH]; intros [|t q]; cbn [drain]; try constructor.
  apply Forall_app. split; [by apply Hrun|apply IH].
Qed.

Lemma copy_tree_exact_witness :
  tasks_run [copy_photos] (drain 4 [copy_photos]) 4 [] ∧
  ∃ sk, puts (drain 4 [copy_photos]) ++ map (pair (disk 2 #"/y")) sk ≡ₚ
    [(disk 2 #"/y", ( #"/backup/photos", obj 31 #"p" false)); (disk 2 #"/y", ( #"/backup/photos", obj 33 #"q" false))].
Proof.
  assert (H : tasks_run [copy_photos] (drain 4 [copy_photos]) 4 []).
  { eapply drain_4; vm_compute; reflexivity. }
  split; [exact H|].
  destruct (copy_tree_exact false (disk 1 #"/x") (disk 2 #"/y") at_src #"/photos" #"/backup" photos
              (drain 4 [copy_photos]) 4 []) as (_ & _ & _ & Hd).
  - reflexivity.
  - exact H.
  - apply drain_truthful.
  - destruct (Hd eq_refl) as (sk & Hp & _). exists sk. exact Hp.
Defined.

(** Where package [fs] goes wrong.  A directory whose files are hidden from
    the user lists as empty, and the removal of empty directories removes it
    with them.  An empty directory is not copied to another storage: the task
    ends well and makes nothing.  A restored copy task whose source storage is
    gone panics, since the look-up of the destination clears the error.  And a
    line feed at the end of a hide pattern adds an empty pattern, which hides
    every name. *)
Theorem fs_package_defects :
  (tree !! #"/home/a/old" = Some [obj 11 #"secret.key" false] ∧
   last (calls (request (RRemoveEmpty #"/a"))) = Some (ORemove (disk 1 #"/") #"/home/a/old")) ∧
  (let empty := CopyTask_Run (new_copy false (disk 1 #"/x") (disk 2 #"/y") #"/photos/new" #"/backup/photos") in
   map projT1 (from_src empty).1 = [OGet (disk 1 #"/x") #"/photos/new"; OList (disk 1 #"/x") #"/photos/new" [] false] ∧
   (from_src empty).2 = Returned (inr ())) ∧
  (run (CopyTask_Run {| ct_SrcObjPath := #"/f"; ct_DstDirPath := #"/"; ct_srcStorage := None; ct_dstStorage := None;
                        ct_SrcStorageMp := #"/gone"; ct_DstStorageMp := #"/"; ct_SkipExisting := false |})).2 = Panicked ∧
  names (run (fs_list (Some bob) (Some (hide #"/home" ( #"a" ++ ["010"%char]))) #"/home" false)).2 = Some [].
Proof. cbv zeta. split_ands; vm_compute; reflexivity. Qed.
