(* ===== verification/Downloads.v ===== *)
(** * Downloads: [server/middlewares/down.go], [server/handles/down.go],
      [ShouldProxy] of [server/common/check.go] and [server/common/proxy.go]

    A download link carries a path and a signature and no user.  The
    middleware asks for the signature when the settings, the storage or the
    nearest meta demand one; the handlers then redirect to the storage's own
    link, to a proxy, or serve the content. *)

From S2P Require Import Prelude GoStrings Errs Store Paths HttpRange Crypto Users Perm Prog Sign Shares ShareHandlers FsHandlers FsHandlersSpec FsHandlersThms.

Local Open Scope Z_scope.

(** ** Links and storages *)

(** [NoProxyRange] is a value that drivers put where a reader would be. *)
Inductive range_reader := NoProxyRange | RangeReader.

Record link := {
  lk_URL : gostr;
  lk_MFile : bool;
  lk_RangeReadCloser : option range_reader;
  lk_Concurrency : Z;
  lk_PartSize : Z;
}.

Definition set_URL (url : gostr) (l : link) : link :=
  {| lk_URL := url; lk_MFile := lk_MFile l; lk_RangeReadCloser := lk_RangeReadCloser l;
     lk_Concurrency := lk_Concurrency l; lk_PartSize := lk_PartSize l |}.

Definition set_reader (r : option range_reader) (l : link) : link :=
  {| lk_URL := lk_URL l; lk_MFile := lk_MFile l; lk_RangeReadCloser := r;
     lk_Concurrency := lk_Concurrency l; lk_PartSize := lk_PartSize l |}.

(** [ds_ProxyDriver] is the answer of [ShouldProxyDownloads], for drivers that
    have the method. *)
Record DownStorage := {
  ds_Info : StorageInfo;
  ds_WebdavProxy : bool;
  ds_ProxyRange : bool;
  ds_ProxyDriver : option bool;
}.

(** The four ways [common.Proxy] sends content. *)
Inductive delivery := ServeFile | ServeRanges | ServeParts | Transparent.

(** ** Calls *)

Inductive dl_action :=
  | DStorage (path : gostr)
  | DLink (path : gostr) (redirect : bool)
  | DStorageSign (path : gostr)
  | DVerify (path sign : gostr)
  | DSign (path : gostr)
  | DInjectQuery (url : gostr)
  | DRangeReader (l : link) (size : Z)
  | DSend (d : delivery) (l : link) (file : FObj) (filtered : bool).

(** [DStorageSign] is [common.IsStorageSignEnabled]; [DSend] answers with the
    error and whether something was written before it. *)
Definition dl_answer (c : dl_action) : Type :=
  match c with
  | DStorage _ => result DownStorage
  | DLink _ _ => result (link * FObj)
  | DStorageSign _ => bool
  | DVerify _ _ => option error
  | DSign _ => gostr
  | DInjectQuery _ => result gostr
  | DRangeReader _ _ => result unit
  | DSend _ _ _ _ => option (error * bool)
  end.

Abbreviation dl_prog := (prog dl_answer).
Abbreviation dl_event := (event dl_answer).

Inductive response :=
  | Redirect (url : gostr)
  | Sent (d : delivery)
  | Broken (d : delivery) (e : error)
  | Refused (code : Z) (c : cause).

Notation "'bind~' x ':=' m 'in' k" := (prog_bind m (λ x, k))
  (at level 10, x pattern, m at level 100, k at level 200,
   format "'[v' 'bind~'  x  ':='  m  'in' '//' k ']'") : go_scope.

(** The settings, and the extension of a file name in lower case. *)
Class DownEnv := {
  utils_Ext : gostr → gostr;
  ProxyTypes : list gostr;
  TextTypes : list gostr;
  ForwardDirectLinkParams : bool;
  FilterReadMeScripts : bool;
}.

(** The request: its parameter [path], as the router has decoded it, and its
    query. *)
Record DownReq := {
  dq_Path : gostr;
  dq_Sign : gostr;
  dq_Type : gostr;
  dq_HasD : bool;
}.

Section downloads.
Context {MS : MetaStore} {HE : HandlerEnv} {DE : DownEnv}.

(** ** The middleware *)

Definition needSign (meta : option Meta) (path : gostr) : dl_prog bool :=
  if SignAll then PRet true
  else
    bind~ enabled := pcall (DStorageSign path) in
    PRet (if (enabled : bool) then true
          else
            match meta with
            | None => false
            | Some m =>
                if bool_decide (meta_Password m = []) then false
                else if negb (PSub m) && bool_decide (path ≠ meta_Path m) then false
                else true
            end).

(** The handlers behind it get the path. *)
Definition Down_check (req : DownReq) (next : gostr → dl_prog response) : dl_prog response :=
  let rawPath := parsePath (dq_Path req) in
  let go meta :=
    bind~ need := needSign meta rawPath in
    if (need : bool) then
      bind~ err := pcall (DVerify rawPath (TrimSuffix (dq_Sign req) #"/")) in
      match err with
      | Some e => PRet (Refused 401 (CauseErr e))
      | None => next rawPath
      end
    else next rawPath in
  match GetNearestMeta rawPath with
  | inr m => go (Some m)
  | inl e => if errors_Is (Cause e) MetaNotFound then go None else PRet (Refused 500 (CauseErr e))
  end.

(** ** Proxying *)

Definition ShouldProxy (s : DownStorage) (filename : gostr) : bool :=
  match ds_ProxyDriver s with
  | Some downloads => downloads || si_WebProxy (ds_Info s)
  | None => MustProxy (ds_Info s) || si_WebProxy (ds_Info s)
  end
  || bool_decide (utils_Ext filename ∈ ProxyTypes).

Definition canProxy (s : DownStorage) (filename : gostr) : bool :=
  MustProxy (ds_Info s) || si_WebProxy (ds_Info s) || ds_WebdavProxy s
  || (bool_decide (si_Driver (ds_Info s) = #"Quark") && (GetFileType filename =? VIDEO))
  || bool_decide (utils_Ext filename ∈ ProxyTypes) || bool_decide (utils_Ext filename ∈ TextTypes).

Definition ProxyRange (l : link) (size : Z) : dl_prog link :=
  if lk_MFile l then PRet l
  else
    match lk_RangeReadCloser l with
    | None =>
        bind~ r := pcall (DRangeReader l size) in
        PRet (match r with inr _ => set_reader (Some RangeReader) l | inl _ => l end)
    | Some NoProxyRange => PRet (set_reader None l)
    | Some RangeReader => PRet l
    end.

(** [common.Proxy] *)
Definition Proxy_delivery (l : link) : delivery :=
  if lk_MFile l then ServeFile
  else
    match lk_RangeReadCloser l with
    | Some _ => ServeRanges
    | None => if negb (lk_Concurrency l =? 0) || negb (lk_PartSize l =? 0) then ServeParts else Transparent
    end.

(** The query of the request is put on the link's own address. *)
Definition forward_query (l : link) : dl_prog (result link) :=
  if ForwardDirectLinkParams then
    bind~ r := pcall (DInjectQuery (lk_URL l)) in
    PRet (match r with inr url => inr (set_URL url l) | inl e => inl e end)
  else PRet (inr l).

Definition down (l : link) : dl_prog response :=
  bind~ r := forward_query l in
  PRet (match r with inr l => Redirect (lk_URL l) | inl e => Refused 500 (CauseErr e) end).

Definition localProxy (l : link) (file : FObj) (proxyRange : bool) : dl_prog response :=
  bind~ r := (if bool_decide (lk_URL l ≠ []) then forward_query l else PRet (inr l)) in
  match r with
  | inl e => PRet (Refused 500 (CauseErr e))
  | inr l =>
      bind~ l := (if proxyRange then ProxyRange l (f_Size file) else PRet l) in
      let d := Proxy_delivery l in
      let filtered := bool_decide (utils_Ext (f_Name file) = #"md") && FilterReadMeScripts in
      bind~ r := pcall (DSend d l file filtered) in
      PRet (match r with
            | None => Sent d
            | Some (e, true) => Broken d e
            | Some (e, false) => Refused 500 (CauseErr e)
            end)
  end.

(** ** The handlers *)

Definition BuildDownProxyURL_at (downProxyURL path : gostr) (useSign : bool) : dl_prog gostr :=
  let base := default [] (head (Split "010" downProxyURL)) in
  if useSign then
    bind~ s := pcall (DSign path) in
    PRet (base ++ EncodePath path [true] ++ #"?sign=" ++ s)
  else PRet (base ++ EncodePath path [true]).

Definition link_and_proxy (rawPath : gostr) (s : DownStorage) : dl_prog response :=
  bind~ r := pcall (DLink rawPath false) in
  match r with
  | inl e => PRet (Refused 500 (CauseErr e))
  | inr (l, file) => localProxy l file (ds_ProxyRange s)
  end.

Definition Proxy (req : DownReq) (rawPath : gostr) : dl_prog response :=
  let filename := path_Base rawPath in
  bind~ r := pcall (DStorage rawPath) in
  match r with
  | inl e => PRet (Refused 500 (CauseErr e))
  | inr s =>
      if bool_decide (dq_Type req = #"preview") && bool_decide (si_Driver (ds_Info s) = #"DoubaoNew")
      then link_and_proxy rawPath s
      else if canProxy s filename then
        if bool_decide (si_DownProxyUrl (ds_Info s) ≠ []) && negb (dq_HasD req) then
          bind~ url := BuildDownProxyURL_at (si_DownProxyUrl (ds_Info s)) rawPath (si_DownProxySign (ds_Info s)) in
          PRet (Redirect url)
        else link_and_proxy rawPath s
      else PRet (Refused 403 (CauseStr #"proxy not allowed"))
  end.

Definition Down (req : DownReq) (rawPath : gostr) : dl_prog response :=
  bind~ r := pcall (DStorage rawPath) in
  match r with
  | inl e => PRet (Refused 500 (CauseErr e))
  | inr s =>
      if ShouldProxy s (path_Base rawPath) then Proxy req rawPath
      else
        bind~ r := pcall (DLink rawPath true) in
        match r with
        | inl e => PRet (Refused 500 (CauseErr e))
        | inr (l, _) => down l
        end
  end.

(** The routes [/d] and [/p]. *)
Inductive down_route := RouteD | RouteP.
Definition serve_down (r : down_route) (req : DownReq) : dl_prog response :=
  Down_check req (match r with RouteD => Down req | RouteP => Proxy req end).
End downloads.
