(* ===== verification/DownloadsThms.v ===== *)
(** * Downloads: their theorems

    Nothing is given without the signature that is asked for, and the links a
    listing shows work. *)

From S2P Require Import Prelude GoStrings Errs Store Paths HttpRange Crypto Users Perm Prog Sign Shares ShareHandlers FsHandlers FsHandlersSpec FsHandlersThms FsHandlersExamples Downloads.

Local Open Scope Z_scope.

Section guard.
Context {MS : MetaStore} {HE : HandlerEnv} {DE : DownEnv}.
Context (req : DownReq).

Abbreviation raw := (parsePath (dq_Path req)).

(** A password of the nearest meta applies to the path. *)
Definition protected (p : gostr) : Prop :=
  ∃ m, GetNearestMeta p = inr m ∧ meta_Password m ≠ [] ∧ (PSub m = true ∨ p = meta_Path m).

Definition guards (p : gostr) (meta : option Meta) : Prop :=
  match meta with Some m => meta_Password m ≠ [] ∧ (PSub m = true ∨ p = meta_Path m) | None => False end.

(** The nearest meta is known: there is one, or the store says that there is
    none, for any other error of it refuses the request.  And the signature was
    accepted, or neither the settings nor the storage nor that meta ask for
    one. *)
Definition cleared (h : list dl_event) : Prop :=
  ∃ meta, found_meta raw meta ∧
    (ev (DVerify raw (TrimSuffix (dq_Sign req) #"/")) None ∈ h ∨
     SignAll = false ∧ ev (DStorageSign raw) false ∈ h ∧ ¬ guards raw meta).

Lemma cleared_mono h h' : h `prefix_of` h' → cleared h → cleared h'.
Proof.
  intros [k ->] (meta & Hm & [H|(H1 & H2 & H3)]); exists meta; (split; [done|]); [left; apply elem_of_app; by left|right].
  split; [done|]. split; [apply elem_of_app; by left|done].
Qed.

Definition given (h : list dl_event) (c : dl_action) : Prop :=
  match c with
  | DStorageSign q | DVerify q _ => q = raw
  | DStorage q | DLink q _ | DSign q => q = raw ∧ cleared h
  | DInjectQuery _ | DRangeReader _ _ | DSend _ _ _ _ => cleared h
  end.

Definition answered (x : finish response) (h : list dl_event) : Prop :=
  match x with Returned (Refused _ _) => True | Returned _ => cleared h | _ => True end.

Abbreviation gwp m h Q := (wp (λ _ _, True) given m h Q).

(** After the check everything may be given. *)
Lemma gwp_call {A} c (k : dl_answer c → dl_prog A) h Q :
  cleared h → match c with DStorage q | DLink q _ | DSign q | DStorageSign q | DVerify q _ => q = raw | _ => True end →
  (∀ r h', cleared h' → gwp (k r) h' Q) → gwp (prog_bind (pcall c) k) h Q.
Proof.
  intros Hc Hq Hk. split; [by destruct c|]. intros r _. simpl. apply Hk. eapply cleared_mono; [|exact Hc].
  by apply prefix_app_r.
Qed.

Lemma gwp_then {A B} (m : dl_prog A) (k : A → dl_prog B) h Q :
  gwp m h (λ x h', cleared h') → (∀ a h', cleared h' → gwp (k a) h' Q) → (∀ h', Q Panicked h') → (∀ h', Q OutOfFuel h') →
  gwp (prog_bind m k) h Q.
Proof. intros Hm Hk H1 H2. apply wp_bind. eapply wp_mono; [exact Hm|]. intros [a| |] h' Hc; simpl; auto. Qed.

Lemma gwp_forward l h : cleared h → gwp (forward_query l) h (λ _ h', cleared h').
Proof.
  intros Hc. unfold forward_query. destruct ForwardDirectLinkParams; [|done]. by apply gwp_call.
Qed.

Lemma gwp_down l h : cleared h → gwp (down l) h answered.
Proof.
  intros Hc. apply gwp_then; [by apply gwp_forward| |done|done]. intros [e|l'] h' Hc'; simpl; done.
Qed.

Lemma gwp_localProxy l f b h : cleared h → gwp (localProxy l f b) h answered.
Proof.
  intros Hc. apply gwp_then; [|intros [e|l'] h1 H1|done|done].
  - case_bool_decide; [by apply gwp_forward|done].
  - done.
  - apply gwp_then; [|intros l2 h2 H2|done|done].
    + destruct b; [|done]. unfold ProxyRange. destruct (lk_MFile l'); [done|].
      destruct (lk_RangeReadCloser l') as [[]|]; [done..|]. by apply gwp_call.
    + apply gwp_call; [done..|]. intros [[e [|]]|] h3 H3; simpl; done.
Qed.

Lemma gwp_link s h : cleared h → gwp (link_and_proxy raw s) h answered.
Proof.
  intros Hc. apply gwp_call; [done..|]. intros [e|[l f]] h1 H1; [done|by apply gwp_localProxy].
Qed.

Lemma gwp_Proxy h : cleared h → gwp (Proxy req raw) h answered.
Proof.
  intros Hc. apply gwp_call; [done..|]. intros [e|s] h1 H1; [done|].
  destruct (_ && _); [by apply gwp_link|]. destruct (canProxy _ _); [|done].
  destruct (_ && _); [|by apply gwp_link].
  apply gwp_then; [|done..|done|done]. unfold BuildDownProxyURL_at. destruct (si_DownProxySign _); [by apply gwp_call|done].
Qed.

Lemma gwp_Down h : cleared h → gwp (Down req raw) h answered.
Proof.
  intros Hc. apply gwp_call; [done..|]. intros [e|s] h1 H1; [done|]. destruct (ShouldProxy _ _); [by apply gwp_Proxy|].
  apply gwp_call; [done..|]. intros [e|[l f]] h2 H2; [done|by apply gwp_down].
Qed.

Lemma gwp_needSign meta h : found_meta raw meta →
  gwp (needSign meta raw) h (λ x h', x = Returned false → cleared h').
Proof.
  intros Hm. unfold needSign. destruct SignAll eqn:Es; [done|]. split; [done|]. intros en _. cbn [pcall prog_bind wp].
  intros [= E]. exists meta. split; [done|]. right. destruct en; [done|]. split; [done|]. split; [apply elem_of_app; right; left|].
  destruct meta as [m|]; [|by intros []]. intros [Hp Ha]. rewrite bool_decide_false in E by done.
  destruct (PSub m) eqn:Ep; [done|]. destruct Ha as [?|Ha]; [done|]. rewrite <- Ha in E. by rewrite bool_decide_false in E by tauto.
Qed.

Lemma gwp_check next h : (∀ h', cleared h' → gwp (next raw) h' answered) → gwp (Down_check req next) h answered.
Proof.
  intros Hn. unfold Down_check. cbv zeta.
  assert (Hgo : ∀ meta, found_meta raw meta →
    gwp (prog_bind (needSign meta raw) (λ need : bool,
      if need then prog_bind (pcall (DVerify raw (TrimSuffix (dq_Sign req) #"/"))) (λ err,
        match err with Some e => PRet (Refused 401 (CauseErr e)) | None => next raw end)
      else next raw)) h answered).
  { intros meta Hm. apply wp_bind. eapply wp_mono; [by apply gwp_needSign|]. intros [[]| |] h1 H1; simpl; [| |done..].
    - split; [done|]. intros [e|] _; [done|]. apply Hn. exists meta. split; [done|]. left. apply elem_of_app. right. left.
    - apply Hn. by apply H1. }
  destruct (GetNearestMeta raw) as [e|m] eqn:E; [|by apply Hgo]. destruct (errors_Is _ _) eqn:Ee; [|done].
  apply Hgo. by exists e.
Qed.

(** C11. Downloads are guarded: the routes [/d] and [/p] look at one path only,
    the one of the link; a link of a storage is asked for, a proxy's address
    signed, or content sent only when the nearest meta of the path is known
    (there is one, or the store answered that there is none: any other error of
    the look-up refuses the request) and the signature of the link was accepted
    for that path, or the settings, the storage and that meta ask for none. *)
Theorem download_authorised route tr x :
  runs_to (serve_down route req) tr x →
  (∀ t1 e t2, tr = t1 ++ e :: t2 → given t1 (projT1 e)) ∧ answered x tr.
Proof.
  intros Hrun. eapply (wp_sound (λ _ _, True) given _ [] answered) in Hrun as [HQ Hok]; [by split| |by apply Forall_forall].
  destruct route; apply gwp_check; intros h Hc; [by apply gwp_Down|by apply gwp_Proxy].
Qed.
End guard.

(** ** The links of a listing *)

Section links.
Context {RS : RoleStore} {RL : RegexpLib} {MS : MetaStore} {HE : HandlerEnv} {DE : DownEnv}.

Definition storage_signs (s : option StorageInfo) : bool := match s with Some s => si_EnableSign s | None => false end.

(** What [isEncrypt] answers. *)
Definition encrypts (s : option StorageInfo) (meta : option Meta) (path : gostr) : bool :=
  storage_signs s
  || match meta with
     | None => false
     | Some m => if bool_decide (meta_Password m = []) then false else PathEqual (meta_Path m) path || PSub m
     end.

Abbreviation iwp m h Q := (hwp names_ok (λ _ _, True) m h Q).

Lemma isEncrypt_spec meta p h :
  iwp (isEncrypt meta p) h (λ b h', ∃ s, h' = h ++ [ev (CGetBalancedStorage p) s] ∧ b = encrypts s meta p).
Proof. unfold isEncrypt. hstep. apply hwp_call; [done|]. intros s _. hstep. by exists s. Qed.

(** An entry of a listing of [d]. *)
Definition entry_ok (d : gostr) (signed : bool) (h : list fs_event) (item : ObjLabelResp) : Prop :=
  let p := path_join d (f_Name (or_Obj item)) in
  or_VirtualPath item = FixAndCleanPath p ∧
  (f_IsDir (or_Obj item) = false → signed || SignAll = true → ev (CSign p) (or_Sign item) ∈ h).

Lemma entry_ok_mono d e h h' item : h `prefix_of` h' → entry_ok d e h item → entry_ok d e h' item.
Proof. intros [k ->] [H1 H2]. split; [done|]. intros Hf He. apply elem_of_app. left. auto. Qed.

Lemma objs_resp_entries labels d e l h :
  iwp (objs_resp labels d e l) h (λ x h', h `prefix_of` h' ∧ map or_Obj x = l ∧ Forall (entry_ok d e h') x).
Proof.
  revert h. induction l as [|o l IH]; intros h; cbn [objs_resp]; [hstep; by split_ands|]. cbv zeta. hstep.
  eapply (hwp_mono _ _ _ _ (λ (s : gostr) (h1 : list fs_event), h `prefix_of` h1 ∧
    (f_IsDir o = false → e || SignAll = true → (ev (CSign (path_join d (f_Name o))) s : fs_event) ∈ h1))).
  { unfold common_Sign. destruct (f_IsDir o) eqn:Ed; simpl; [hstep; by split|].
    destruct (negb e && negb SignAll) eqn:Es.
    - hstep. split; [done|]. intros _ He. destruct e; [done|]. simpl in *. by rewrite He in Es.
    - apply hwp_call; [done|]. intros s _. split; [by apply prefix_app_r|]. intros _ _. apply elem_of_app. right. left. }
  intros s h1 [G1 Hs]. hstep. eapply hwp_mono; [apply IH|]. intros x h2 (G2 & Hx & Hall). hstep.
  split; [by etrans|]. split; [by simpl; rewrite Hx|]. constructor; [|done]. split; [done|].
  intros Hf He. destruct G2 as [k ->]. apply elem_of_app. left. by apply Hs.
Qed.

(** What [FsList] shows, and with which signatures. *)
Lemma FsList_entries user req :
  iwp (FsList user req) [] (λ resp tr, ∃ q meta s, q = render (path_segs q) ∧ found_meta q meta ∧
    ev (CGetBalancedStorage q) s ∈ tr ∧
    Forall (λ item, good_seg (f_Name (or_Obj item)) ∧ entry_ok q (encrypts s meta q) tr item) (ls_Content resp)).
Proof.
  unfold FsList. destruct (normalizeListPage _ _) as [page per]. hstep. apply hwp_join. intros q Hq.
  hstep. apply hwp_meta. intros m Hm. hstep. apply hwp_access. intros _. cbv zeta. hstep; [hstep|].
  hstep. apply hwp_call; [done|]. intros st _. hstep. hstep. apply hwp_call; [done|]. intros x Hx objs ->.
  assert (Hn : Forall (λ o, good_seg (f_Name o)) objs) by (by apply Hx).
  hstep. apply hwp_outcome. intros [total sub] Hpg. hstep.
  eapply hwp_mono; [apply isEncrypt_spec|]. intros e h1 (s & -> & ->). hstep.
  set (h1 := _ ++ [ev (CGetBalancedStorage q) s]).
  assert (Hin : ev (CGetBalancedStorage q) s ∈ h1) by (apply elem_of_app; right; left). clearbody h1.
  unfold toObjsResp. hstep. apply hwp_call; [done|]. intros labels _.
  eapply hwp_mono; [apply objs_resp_entries|]. intros l h2 ([k ->] & Hl & Hall). hstep.
  exists q, m, s. split; [by apply joined in Hq as (_ & ? & _)|]. split; [done|].
  split; [apply elem_of_app; left; apply elem_of_app; by left|]. simpl.
  rewrite Forall_forall in Hn. rewrite Forall_forall in Hall. rewrite Forall_forall. intros item Hi. split; [|by apply Hall]. apply Hn.
  assert (Ho : or_Obj item ∈ sub) by (rewrite <- Hl; apply list_elem_of_fmap; eauto).
  eapply page_elem_of in Ho; [|exact Hpg]. by apply list_elem_of_filter in Ho as [_ ?].
Qed.

(** A signature ends in a digit. *)
Lemma TrimSuffix_sign k data e : TrimSuffix (hmac_Sign k data e) #"/" = hmac_Sign k data e.
Proof.
  unfold TrimSuffix. destruct (HasSuffix _ _) eqn:E; [|done]. exfalso. apply HasSuffix_spec in E as [l E].
  unfold hmac_Sign in E. destruct (exists_last (FormatInt_nonempty e)) as (f & c & Ef).
  rewrite Ef, !app_assoc in E. apply app_inj_tail in E as [_ ->].
  pose proof (FormatInt_chars e) as Hc. rewrite Ef, Forall_app in Hc. destruct Hc as [_ Hc].
  apply Forall_cons in Hc as [[Hc|Hc] _]; vm_compute in Hc; done.
Qed.

(** The signer as it is at [t0], and whether a link made then is good at [t1]. *)
Definition in_time (st : sign_state) (t0 t1 : Z) : Prop :=
  0 ≤ link_expiration st ≤ 1000000 ∧ 0 ≤ t0 ≤ 5000000000000000000 ∧ instance st ≠ None ∧
  (link_expiration st = 0 ∨ Unix t1 ≤ Unix (t0 + link_expiration st * Hour)).

Lemma sign_trims st t p : TrimSuffix (sign_Sign t p st).2 #"/" = (sign_Sign t p st).2.
Proof.
  unfold sign_Sign, NotExpired, WithDuration, once_Instance.
  destruct (link_expiration st =? 0), (instance st); apply TrimSuffix_sign.
Qed.

Lemma sign_accepted st t0 t1 p : in_time st t0 t1 → (sign_Verify t1 p (sign_Sign t0 p st).2 st).2 = None.
Proof.
  intros (Hr & Ht & Hi & Hl). destruct (sign_Sign t0 p st) as [st' s] eqn:E.
  assert (st' = st) as ->.
  { revert E. unfold sign_Sign, NotExpired, WithDuration, once_Instance.
    destruct (instance st); [|done]. by destruct (_ =? _); intros [= <- _]. }
  cbn [snd]. rewrite (signed_link_lifetime st st t0 t1 p s _ eq_refl Hr Ht E). by rewrite bool_decide_true.
Qed.


(** *** A request that is let through *)

Section through.
Context (st : sign_state) (t1 : Z) (sign_on : gostr → bool).

(** The signer and the storages as they are. *)
Definition honest (c : dl_action) : dl_answer c → Prop :=
  match c with
  | DVerify p s => λ r, r = (sign_Verify t1 p s st).2
  | DStorageSign p => λ b, b = sign_on p
  | _ => λ _, True
  end.

Definition reached (p : gostr) (x : finish response) (h : list dl_event) : Prop := ∃ r, ev (DStorage p) r ∈ h.

Lemma reaches {A} p (k : _ → dl_prog A) h :
  wp honest (λ _ _, True) (prog_bind (pcall (DStorage p)) k) h (λ _ h', ∃ r, ev (DStorage p) r ∈ h').
Proof.
  split; [done|]. intros r _. cbn [pcall prog_bind]. eapply wp_mono; [by apply (wp_grow _ _ _ (h ++ [ev (DStorage p) r]))|].
  intros x h' [l ->]. exists r. apply elem_of_app. left. apply elem_of_app. right. left.
Qed.

Lemma serve_reaches p r route : parsePath (dq_Path r) = p →
  (∀ e, GetNearestMeta p = inl e → errors_Is (Cause e) MetaNotFound = true) →
  (SignAll = true ∨ sign_on p = true ∨ protected p → (sign_Verify t1 p (TrimSuffix (dq_Sign r) #"/") st).2 = None) →
  wp honest (λ _ _, True) (serve_down route r) [] (reached p).
Proof.
  intros Hp Hm Hs. unfold serve_down, Down_check. cbv zeta. rewrite Hp.
  assert (Hnext : ∀ h, wp honest (λ _ _, True) (match route with RouteD => Down r | RouteP => Proxy r end p) h (reached p))
    by (intros h; destruct route; apply reaches).
  assert (Hgo : ∀ meta, found_meta p meta →
    wp honest (λ _ _, True) (prog_bind (needSign meta p) (λ need : bool,
      if need then prog_bind (pcall (DVerify p (TrimSuffix (dq_Sign r) #"/"))) (λ err,
        match err with Some e => PRet (Refused 401 (CauseErr e)) | None => (match route with RouteD => Down r | RouteP => Proxy r end) p end)
      else (match route with RouteD => Down r | RouteP => Proxy r end) p)) [] (reached p)).
  { intros meta Hf. apply wp_bind.
    eapply (wp_mono _ _ _ _ (λ x _, ∃ b, x = Returned b ∧ (b = true → SignAll = true ∨ sign_on p = true ∨ protected p))).
    - unfold needSign. destruct SignAll; [exists true; auto|]. split; [done|]. intros b ->. cbn [pcall prog_bind wp]. eexists. split; [done|]. intros E.
      right. destruct (sign_on p); [by left|right]. destruct meta as [m|]; [|done]. exists m. split; [done|].
      case_bool_decide; [done|]. split; [done|]. destruct (PSub m); [by left|right]. simpl in E. by case_bool_decide.
    - intros x h' ([] & -> & Hx); cbn [bind_post]; [|apply Hnext].
      split; [done|]. intros err ->. rewrite Hs by by apply Hx. apply Hnext. }
  destruct (GetNearestMeta p) as [e|m] eqn:E; [|by apply Hgo]. rewrite (Hm _ eq_refl). apply Hgo. exists e. auto.
Qed.
End through.

(** The parts of an entry's path. *)
Lemma entry_path q n : q = render (path_segs q) → good_seg n →
  path_join q n = FixAndCleanPath (path_join q n) ∧ path_Dir (path_join q n) = q ∧ path_join q n ≠ q ∧
  path_segs (path_join q n) = path_segs q ++ [n].
Proof.
  intros Hq Hn. pose proof (path_segs_good q) as Hg.
  assert (E : path_join q n = render (path_segs q ++ [n])).
  { rewrite Hq at 1. apply path_join_name; [by apply good_norm|apply Hn]. }
  assert (Hs : path_segs (render (path_segs q ++ [n])) = path_segs q ++ [n]).
  { apply path_segs_render, Forall_app_2; [done|by constructor]. }
  rewrite E. split; [by rewrite FixAndCleanPath_segs, Hs|].
  split; [rewrite path_Dir_render; [done|by apply good_norm|apply Hn]|]. split; [|done].
  intros Eq. apply (f_equal path_segs) in Eq. rewrite Hs in Eq. apply (f_equal length) in Eq.
  rewrite length_app in Eq. simpl in Eq. lia.
Qed.

(** The signatures of a listing are those of the signer at [t0], and the storage
    asks for one at the path as it does at its directory. *)
Definition listed_by (st : sign_state) (t0 : Z) (sign_on : gostr → bool) (p : gostr) (c : fs_action) : fs_answer c → Prop :=
  match c with
  | CSign q => λ s, s = (sign_Sign t0 q st).2
  | CGetBalancedStorage q => λ s, q = path_Dir p → sign_on p = storage_signs s
  | _ => λ _, True
  end.

(** The links of a listing work: what [FsList] answers for a file, its path
    escaped into a link together with its signature, is let through by the
    download routes while the signature lasts and the token is the same, when
    the file's name has no percent sign, no meta is for the file alone, and
    the storage asks for a signature at the file as it does at its directory. *)
Theorem listed_links_download user req tr resp item st t0 t1 sign_on r route tr' x :
  runs_to (FsList user req) tr (Returned (inr resp)) →
  Forall (λ e, names_ok (projT1 e) (projT2 e)) tr →
  in_time st t0 t1 →
  (∀ q m, GetNearestMeta q = inr m → path_segs (meta_Path m) `prefix_of` path_segs q) →
  item ∈ ls_Content resp → f_IsDir (or_Obj item) = false →
  let p := or_VirtualPath item in
  ("%"%char ∉ p) → GetNearestMeta p = GetNearestMeta (path_Dir p) →
  Forall (λ e, listed_by st t0 sign_on p (projT1 e) (projT2 e)) tr →
  PathUnescape (EncodePath p [true]) = Some (dq_Path r) → dq_Sign r = or_Sign item →
  runs_to (serve_down route r) tr' x → Forall (λ e, honest st t1 sign_on (projT1 e) (projT2 e)) tr' →
  reached p x tr'.
Proof.
  intros Hrun Hg Ht Habove Hi Hf p Hpc Hmeta Hby Hpath Hs Hdown Hh. rewrite Forall_forall in Hby.
  eapply wp_sound in Hrun as [HQ _]; [|apply FsList_entries|exact Hg]. specialize (HQ resp eq_refl).
  destruct HQ as (q & meta & s & Hq & Hm & Hin & Hall). rewrite Forall_forall in Hall.
  destruct (Hall _ Hi) as (Hn & Hv & Hsign). destruct (entry_path q _ Hq Hn) as (Ep & Ed & Hne & Hsegs).
  fold p in Hv. rewrite <- Ep in Hv. rewrite <- Hv in *.
  assert (Epath : dq_Path r = p).
  { unfold EncodePath in Hpath. cbn match in Hpath. rewrite (PathUnescape_join PathEscape id) in Hpath
      by (intros w ? _; apply PathUnescape_escape). rewrite map_id, Join_Split in Hpath. by injection Hpath. }
  eapply wp_end in Hdown; [exact Hdown| |exact Hh]. apply serve_reaches.
  - rewrite Epath. unfold parsePath. rewrite PathUnescape_plain by done. by symmetry.
  - intros e He. rewrite Hmeta, Ed in He. destruct meta as [m|]; simpl in Hm; [congruence|].
    destruct Hm as (e' & He' & ?). by replace e with e' by congruence.
  - intros Hneed. assert (Henc : encrypts s meta q || SignAll = true).
    { destruct Hneed as [->|[Hon|(m & Hmp & Hpw & Ha)]]; [apply orb_true_r|..].
      - unfold encrypts. pose proof (Hby _ Hin (eq_sym Ed)) as Hsg. simpl in Hsg. by rewrite <- Hsg, Hon.
      - rewrite Hmeta, Ed in Hmp. destruct meta as [m'|]; simpl in Hm; [|destruct Hm as (e & He & _); congruence].
        assert (m' = m) as -> by congruence. unfold encrypts. rewrite bool_decide_false by done.
        destruct Ha as [->|Ha]; [by rewrite !orb_true_r|]. exfalso.
        specialize (Habove _ _ Hmp). rewrite <- Ha, Hsegs in Habove. apply prefix_length in Habove.
        rewrite length_app in Habove. simpl in Habove. lia. }
    rewrite Hs. specialize (Hsign Hf Henc). rewrite (Hby _ Hsign). simpl. rewrite sign_trims. by apply sign_accepted.
Qed.
End links.

(** ** Downloads: their theorems on concrete links, and where links fail *)

Module DownExample.
#[export] Existing Instance FsExample.role.
#[export] Existing Instance FsExample.no_regexp.

#[export] Instance env : HandlerEnv := {|
  SignAll := false; ApiUrl := #"http://h"; Now := 0; GetFileType := λ _, 0; GetMimeType := λ _, #"text/plain";
  regexp_Compile := λ _, None;
|}.

#[export] Instance down_env : DownEnv := {|
  utils_Ext := λ _, []; ProxyTypes := []; TextTypes := []; ForwardDirectLinkParams := false; FilterReadMeScripts := false;
|}.

Definition locked (path : gostr) (sub : bool) : Meta :=
  {| meta_ID := 1; meta_Path := path; meta_Password := #"pw"; PSub := sub; meta_Write := false; WSub := false;
     Hide := []; HSub := false; Readme := []; RSub := false; Header := []; HeaderSub := false |}.

(** [/home/b] and what is below it have a password, the file [/home/a/y] has
    one of its own, and [/home/a/old] has one that is not for what is below. *)
#[export] Instance metas : MetaStore := λ p,
  if IsSubPath #"/home/b" p then inr (locked #"/home/b" true)
  else if bool_decide (p = #"/home/a/y") then inr (locked #"/home/a/y" false)
  else if IsSubPath #"/home/a/old" p then inr (locked #"/home/a/old" false)
  else inl (ESentinel MetaNotFound).

Definition signer : sign_state :=
  {| st_token := #"token"; st_link_expiration := #"2"; instance := Some {| SecretKey := #"token" |};
     instanceArchive := None |}.
Definition t0 : Z := 1700000000000000000.

Definition answer (c : fs_action) : fs_answer c :=
  match c return fs_answer c with CSign p => (sign_Sign t0 p signer).2 | c => FsExample.answer c end.

Definition list_dir (dir : gostr) : ListReq :=
  {| lr_Page := 1; lr_PerPage := 0; lr_Path := dir; lr_Password := #"pw"; lr_Refresh := false |}.

Definition run {A} (m : handler A) : list fs_event * finish (reject + A) := run_with (λ _, answer) [] m.

Lemma fs_run_runs {A} (m : handler A) : runs_to m (run m).1 (run m).2.
Proof. destruct (run_with_runs (λ _, answer) m []) as (tr & E & H). unfold run at 1. by rewrite E. Qed.

Definition content (dir : gostr) : list ObjLabelResp :=
  match (run (FsList FsExample.bob (list_dir dir))).2 with Returned (inr r) => ls_Content r | _ => [] end.

(** The signature the listing of a directory has for its [i]-th entry. *)
Definition listed_sign (dir : gostr) (i : nat) : option (gostr * gostr) :=
  (λ o, (f_Name (or_Obj o), or_Sign o)) <$> content dir !! i.

Definition storage : DownStorage :=
  {| ds_Info := FsExample.storage; ds_WebdavProxy := false; ds_ProxyRange := false; ds_ProxyDriver := None |}.

(** One hour later: the storages ask for no signature. *)
Definition t1 : Z := t0 + Hour.
Definition dl_answers (c : dl_action) : dl_answer c :=
  match c return dl_answer c with
  | DStorage _ => inr storage
  | DLink p _ => inr ({| lk_URL := p; lk_MFile := true; lk_RangeReadCloser := None; lk_Concurrency := 0; lk_PartSize := 0 |},
                      FsExample.obj 0 (path_Base p) false)
  | DStorageSign _ => false
  | DVerify p s => (sign_Verify t1 p s signer).2
  | DSign p => []
  | DInjectQuery url => inr url
  | DRangeReader _ _ => inr ()
  | DSend _ _ _ _ => None
  end.

Definition fetch (r : DownReq) : list dl_event * finish response := run_with (λ _, dl_answers) [] (serve_down RouteD r).

(** The request for a link, as the router hands it on. *)
Definition link_to (path sign : gostr) : DownReq :=
  {| dq_Path := default [] (PathUnescape (EncodePath path [true])); dq_Sign := sign; dq_Type := []; dq_HasD := false |}.

Definition fetched (r : DownReq) : option response := match (fetch r).2 with Returned x => Some x | _ => None end.
End DownExample.
Import DownExample.

Lemma fetch_runs r : runs_to (serve_down RouteD r) (fetch r).1 (fetch r).2.
Proof. destruct (run_with_runs (λ _, dl_answers) (serve_down RouteD r) []) as (tr & E & H). unfold fetch at 1. by rewrite E. Qed.

Lemma download_authorised_witness :
  fetched (link_to #"/home/b/x" []) = Some (Refused 401 (CauseErr (ESentinel ErrExpireMissing))) ∧
  fetched (link_to #"/home/b/x" (from_option snd [] (listed_sign #"/b" 0))) = Some (Sent ServeFile) ∧
  answered (link_to #"/home/b/x" (from_option snd [] (listed_sign #"/b" 0)))
    (fetch (link_to #"/home/b/x" (from_option snd [] (listed_sign #"/b" 0)))).2
    (fetch (link_to #"/home/b/x" (from_option snd [] (listed_sign #"/b" 0)))).1.
Proof.
  split; [vm_compute; reflexivity|]. split; [vm_compute; reflexivity|].
  apply (download_authorised (link_to #"/home/b/x" (from_option snd [] (listed_sign #"/b" 0))) RouteD _ _ (fetch_runs _)).
Defined.

(** The answers of the example are those of its signer. *)
Lemma run_listed {A} p (m : handler A) :
  Forall (λ e : fs_event, listed_by signer t0 (λ _, false) p (projT1 e) (projT2 e)) (run m).1.
Proof.
  unfold run. assert (Hh : Forall (λ e : fs_event, listed_by signer t0 (λ _, false) p (projT1 e) (projT2 e)) []) by constructor.
  revert Hh. generalize (@nil fs_event). induction m as [a|c k IH| |]; intros h Hh; simpl; [done| |done..].
  apply IH, Forall_app. split; [done|]. constructor; [|constructor]. by destruct c.
Qed.

Lemma fetch_honest r : Forall (λ e, honest signer t1 (λ _, false) (projT1 e) (projT2 e)) (fetch r).1.
Proof.
  unfold fetch. assert (Hh : Forall (λ e : dl_event, honest signer t1 (λ _, false) (projT1 e) (projT2 e)) []) by constructor.
  revert Hh. generalize (@nil dl_event). generalize (serve_down RouteD r) as m. induction m as [a|c k IH| |]; intros h Hh; simpl; [done| |done..].
  apply IH, Forall_app. split; [done|]. constructor; [|constructor]. by destruct c.
Qed.

(** Where links fail.  A file with a meta of its own is listed without a
    signature when its directory has no password, and its link is refused.  A
    file in a directory whose password is not for what is below it is given to
    everyone, although its listing signs it.  And the router has unescaped the
    path already when the middleware does: the link to a name with a percent
    sign leads to the root, or to another file. *)
Theorem download_link_defects :
  (listed_sign #"/a" 2 = Some ( #"y", []) ∧
   fetched (link_to #"/home/a/y" []) = Some (Refused 401 (CauseErr (ESentinel ErrExpireMissing)))) ∧
  (CanAccessWithRoles (Some FsExample.bob) (Some (locked #"/home/a/old" false)) #"/home/a/old" [] = Ret false ∧
   fetched (link_to #"/home/a/old/f" []) = Some (Sent ServeFile)) ∧
  (head (map projT1 (fetch (link_to #"/home/c/100%.txt" [])).1) = Some (DStorageSign #"/") ∧
   head (map projT1 (fetch (link_to #"/home/c/a%20b" [])).1) = Some (DStorageSign #"/home/c/a b")).
Proof. split_ands; vm_compute; reflexivity. Qed.
