(* ===== verification/Ftp.v ===== *)
(** * The FTP and SFTP servers: [server/ftp], [server/ftp.go],
      [server/sftp/sftp.go] and [server/sftp.go]

    The adapter that the protocol libraries call is a set of programs over
    the calls of package [fs], as the handlers of the file API are; its
    errors have no code, so that of a [reject] is 0 here.  An upload is a
    transfer object that gets the data in pieces: a temporary file when the
    length is not known before, else a pipe to the storage. *)

From S2P Require Import Prelude GoStrings Errs Store Paths HttpRange Crypto Users Perm Prog Sign Shares ShareHandlers FsHandlers.

Local Open Scope Z_scope.

(** ** Flags *)

Definition O_RDONLY : Z := 0.
Definition O_WRONLY : Z := 1.
Definition O_CREATE : Z := 64.
Definition O_EXCL : Z := 128.
Definition O_TRUNC : Z := 512.
Definition O_APPEND : Z := 1024.
Definition O_SYNC : Z := 1052672.

Definition has_flag (flags f : Z) : bool := negb (Z.land flags f =? 0).

Definition SSH_FXF_READ : Z := 1.
Definition SSH_FXF_WRITE : Z := 2.
Definition SSH_FXF_APPEND : Z := 4.
Definition SSH_FXF_CREAT : Z := 8.
Definition SSH_FXF_TRUNC : Z := 16.
Definition SSH_FXF_EXCL : Z := 32.

Definition sftpFlagToOpenMode (flags : Z) : Z :=
  let set f m mode := if has_flag flags f then Z.lor mode m else mode in
  set SSH_FXF_EXCL O_EXCL (set SSH_FXF_TRUNC O_TRUNC (set SSH_FXF_CREAT O_CREATE
    (set SSH_FXF_APPEND O_APPEND (set SSH_FXF_WRITE O_WRONLY (set SSH_FXF_READ O_RDONLY 0))))).

(** ** The data of an upload *)

(** [http.DetectContentType] *)
Class FtpEnv := { DetectContentType : gostr → gostr }.

(** A temporary file with its position. *)
Record tmp_file := { tf_data : gostr; tf_pos : Z }.

Definition new_tmp : tmp_file := {| tf_data := []; tf_pos := 0 |}.

(** Writing behind the end leaves a hole of zero bytes. *)
Definition tf_write (p : gostr) (f : tmp_file) : tmp_file :=
  let pos := Z.to_nat (tf_pos f) in
  let before := take pos (tf_data f) ++ replicate (pos - length (tf_data f)) "000"%char in
  {| tf_data := before ++ p ++ drop (pos + length p) (tf_data f); tf_pos := tf_pos f + Z.of_nat (length p) |}.

Inductive whence := SeekStart | SeekCurrent | SeekEnd.

Definition tf_seek (offset : Z) (w : whence) (f : tmp_file) : result tmp_file :=
  let base := match w with SeekStart => 0 | SeekCurrent => tf_pos f | SeekEnd => Z.of_nat (length (tf_data f)) end in
  if base + offset <? 0 then inl (EMessage #"invalid argument")
  else inr {| tf_data := tf_data f; tf_pos := base + offset |}.

Record FileUploadProxy := { up_buffer : tmp_file; up_path : gostr; up_trunc : bool }.

(** [lp_first] holds the [pFirst] bytes of the buffer; [lp_pipe] what was
    written to the pipe, once there is one. *)
Record FileUploadWithLengthProxy := {
  lp_path : gostr;
  lp_length : Z;
  lp_first : gostr;
  lp_pipe : option gostr;
}.

(** What the storage does at the other end of the pipe when something is
    written: it takes everything, or some bytes before it fails. *)
Inductive pipe_answer := Taken | Stopped (n : nat) (e : error).

Definition pipe_put (old p : gostr) (a : pipe_answer) : gostr * (Z * option error) :=
  match a with
  | Taken => (old ++ p, (Z.of_nat (length p), None))
  | Stopped n e => (old ++ take n p, (Z.of_nat (Nat.min n (length p)), Some e))
  end.

(** [ended] is the result of the upload, when it is there already: its error,
    if it had one.  The bytes, if a pipe is opened, are in the new state. *)
Definition lp_write (ended : option (option error)) (a1 a2 : pipe_answer) (p : gostr) (f : FileUploadWithLengthProxy) :
    (Z * option error) * FileUploadWithLengthProxy :=
  let with_pipe first pipe := {| lp_path := lp_path f; lp_length := lp_length f; lp_first := first; lp_pipe := pipe |} in
  match lp_pipe f with
  | Some sent =>
      match ended with
      | Some e => ((0, e), f)
      | None => let '(sent, r) := pipe_put sent p a1 in (r, with_pipe (lp_first f) (Some sent))
      end
  | None =>
      let room := (512 - length (lp_first f))%nat in
      if (length p <? room)%nat then ((Z.of_nat (length p), None), with_pipe (lp_first f ++ p) None)
      else
        let first := lp_first f ++ take room p in
        match pipe_put [] first a1 with
        | (sent, (n, Some e)) => ((n, Some e), with_pipe first (Some sent))
        | (sent, (_, None)) =>
            match pipe_put sent (drop room p) a2 with
            | (sent, (n1, Some e)) => ((n1 + Z.of_nat room, Some e), with_pipe first (Some sent))
            | (sent, (_, None)) => ((Z.of_nat (length p), None), with_pipe first (Some sent))
            end
        end
  end.

Inductive transfer :=
  | TDownload (url : gostr) (offset : Z)
  | TUpload (u : FileUploadProxy)
  | TUploadLength (u : FileUploadWithLengthProxy).

(** ** The adapter *)

Section adapter.
Context {RS : RoleStore} {RL : RegexpLib} {MS : MetaStore} {HE : HandlerEnv} {FE : FtpEnv}.

(** The user and the password for metas, from the context of the session. *)
Context (user : User) (meta_pass : gostr).

Abbreviation perm_at p := (MergeRolePermissions (Some user) p).

Definition ftp_fail {A} (e : error) : handler A := ErrorResp e 0.
Definition ftp_JoinPath (p : gostr) : handler gostr := h_result 0 (JoinPath (Some GetRole) user p).

Definition ftp_meta (p : gostr) : handler (option Meta) :=
  match GetNearestMeta p with
  | inr m => h_ok (Some m)
  | inl e => if errors_Is (Cause e) MetaNotFound then h_ok None else ftp_fail e
  end.

(** [CanAccessWithRoles] with the meta, or [errs.PermissionDenied]. *)
Definition ftp_access (meta : option Meta) (p : gostr) : handler unit :=
  let@ ok := h_outcome (CanAccessWithRoles (Some user) meta p meta_pass) in
  h_check 0 denied ok (h_ok ()).

(** *** [fsmanage.go] *)

Definition ftp_Mkdir (path : gostr) : handler unit :=
  let@ reqPath := ftp_JoinPath path in
  let perm := perm_at reqPath in
  let@ _ := (if negb (HasPermission perm PermWrite) || negb (HasPermission perm PermFTPManage) then
               let@ meta := ftp_meta (path_Dir reqPath) in
               h_check 0 denied (meta_CanWrite meta reqPath) (h_ok ())
             else h_ok ()) in
  h_do 0 (h_call (CMakeDir reqPath)).

Definition ftp_Remove (path : gostr) : handler unit :=
  let perm := perm_at path in
  h_check 0 denied (negb (negb (HasPermission perm PermRemove) || negb (HasPermission perm PermFTPManage))) (
  let@ reqPath := ftp_JoinPath path in
  h_do 0 (h_call (CRemove reqPath))).

(** The text of the code also holds both errors with their stack traces, which
    have no place here. *)
Definition move_failed (e1 e2 : error) : error :=
  EMessage #"failed move, and failed try copying".

Definition ftp_Rename (oldPath newPath : gostr) : handler unit :=
  let@ srcPath := ftp_JoinPath oldPath in
  let@ dstPath := ftp_JoinPath newPath in
  let '(srcDir, srcBase) := path_Split srcPath in
  let '(dstDir, dstBase) := path_Split dstPath in
  let permSrc := perm_at srcPath in
  if bool_decide (srcDir = dstDir) then
    h_check 0 denied (negb (negb (HasPermission permSrc PermRename) || negb (HasPermission permSrc PermFTPManage)))
      (h_do 0 (h_call (CRename srcPath dstBase)))
  else
    h_check 0 denied
      (negb (negb (HasPermission permSrc PermFTPManage) || negb (HasPermission permSrc PermMove)
             || (bool_decide (srcBase ≠ dstBase) && negb (HasPermission permSrc PermRename)))) (
    let@ r := h_call (CMove srcPath dstDir false) in
    match r with
    | inl err =>
        if bool_decide (srcBase ≠ dstBase) then ftp_fail err
        else
          let@ (_, err1) := h_call (CCopy srcPath dstDir false false) in
          match err1 with Some e1 => ftp_fail (move_failed err e1) | None => h_ok () end
    | inr _ =>
        if bool_decide (srcBase ≠ dstBase) then h_do 0 (h_call (CRename (path_join dstDir srcBase) dstBase))
        else h_ok ()
    end).

(** *** [fsread.go] *)

Definition OpenDownload (reqPath : gostr) (offset : Z) : handler transfer :=
  let@ meta := ftp_meta reqPath in
  let@ _ := ftp_access meta reqPath in
  let@ url := h_do 0 (h_call (CLink reqPath)) in
  h_ok (TDownload url offset).

Definition ftp_Stat (path : gostr) : handler FObj :=
  let@ reqPath := ftp_JoinPath path in
  let@ meta := ftp_meta reqPath in
  let@ _ := ftp_access meta reqPath in
  h_do 0 (h_call (CGet reqPath)).

Definition ftp_List (path : gostr) : handler (list FObj) :=
  let@ reqPath := ftp_JoinPath path in
  let@ meta := ftp_meta reqPath in
  let@ _ := ftp_access meta reqPath in
  h_do 0 (h_call (CList reqPath false meta)).

(** *** [fsup.go] *)

Definition uploadAuth (path : gostr) : handler unit :=
  let@ meta := ftp_meta (path_Dir path) in
  let perm := perm_at path in
  let@ ok := h_outcome (CanAccessWithRoles (Some user) meta path meta_pass) in
  h_check 0 denied
    (ok && ((HasPermission perm PermFTPManage && HasPermission perm PermWrite) || meta_CanWrite meta (path_Dir path)))
    (h_ok ()).

Definition OpenUpload (path : gostr) (trunc : bool) : handler transfer :=
  let@ _ := uploadAuth path in
  h_ok (TUpload {| up_buffer := new_tmp; up_path := path; up_trunc := trunc |}).

Definition OpenUploadWithLength (path : gostr) (trunc : bool) (length : Z) : handler transfer :=
  let@ _ := uploadAuth path in
  let@ _ := (if trunc then let@ _ := h_call (CRemove path) in h_ok () else h_ok ()) in
  h_ok (TUploadLength {| lp_path := path; lp_length := length; lp_first := []; lp_pipe := None |}).

Definition ftp_stream (path : gostr) (size : Z) (head : gostr) (asTask : bool) : FileStream :=
  {| fst_Name := snd (path_Split path); fst_Size := size; fst_Modified := Now; fst_Hashes := [];
     fst_Mimetype := DetectContentType head; fst_AsTask := asTask |}.

(** The first 512 bytes are read into a buffer of that length. *)
Definition head_buffer (data : gostr) : gostr := take 512 data ++ replicate (512 - length data) "000"%char.

Definition eof : error := EMessage #"EOF".

Definition up_Close (u : FileUploadProxy) : handler unit :=
  let '(dir, _) := path_Split (up_path u) in
  let data := tf_data (up_buffer u) in
  if bool_decide (data = []) then ftp_fail eof
  else
    let@ _ := (if up_trunc u then let@ _ := h_call (CRemove (up_path u)) in h_ok () else h_ok ()) in
    let@ _ := h_do 0 (h_call (CPutAsTask dir (ftp_stream (up_path u) (tf_pos (up_buffer u)) (head_buffer data) true))) in
    h_ok ().

(** The call that takes what comes through the pipe ends when the pipe is
    closed. *)
Definition lp_Close (u : FileUploadWithLengthProxy) : handler unit :=
  let '(dir, _) := path_Split (lp_path u) in
  match lp_pipe u with
  | Some _ => h_do 0 (h_call (CPutDirectly dir (ftp_stream (lp_path u) (lp_length u) (lp_first u) false)))
  | None =>
      h_do 0 (h_call (CPutDirectly dir
        (ftp_stream (lp_path u) (Z.of_nat (length (lp_first u))) (lp_first u) false)))
  end.

(** *** [afero.go] *)

(** [nextFileSize] is the state of the session; the handle is opened with it
    and it is 0 afterwards. *)
Definition GetHandle (name : gostr) (flags offset nextFileSize : Z) : handler transfer :=
  if has_flag flags O_SYNC then ftp_fail (ESentinel NotSupport)
  else if has_flag flags O_APPEND then ftp_fail (ESentinel NotSupport)
  else
    let@ path := ftp_JoinPath name in
    let@ r := h_call (CGet path) in
    let exists_ := match r with inr _ => true | inl _ => false end in
    if negb (has_flag flags O_CREATE) && negb exists_ then ftp_fail (ESentinel ObjectNotFound)
    else if has_flag flags O_EXCL && exists_ then ftp_fail (EMessage #"file already exists")
    else if has_flag flags O_WRONLY then
      if negb (offset =? 0) then ftp_fail (ESentinel NotSupport)
      else
        let trunc := has_flag flags O_TRUNC in
        if 0 <? nextFileSize then OpenUploadWithLength path trunc nextFileSize else OpenUpload path trunc
    else OpenDownload path offset.

(** [HandleSIZE] of [site.go]: the size that the session has afterwards. *)
Definition HandleSIZE (param : gostr) (nextFileSize : Z) : Z * Z :=
  match ParseInt param with
  | (size, None) => (200, size)
  | _ => (501, nextFileSize)
  end.

(** *** Requests *)

(** A transfer with the pieces the client sends: opened, written, closed. *)
Definition send_pieces (pieces : list gostr) (t : transfer) : handler unit :=
  match t with
  | TDownload _ _ => h_ok ()
  | TUpload u =>
      up_Close {| up_buffer := fold_left (λ f p, tf_write p f) pieces (up_buffer u); up_path := up_path u; up_trunc := up_trunc u |}
  | TUploadLength u => lp_Close (fold_left (λ f p, (lp_write None Taken Taken p f).2) pieces u)
  end.

Inductive ftp_request :=
  | FMkdir (path : gostr)
  | FRemove (path : gostr)
  | FRename (oldPath newPath : gostr)
  | FStat (path : gostr)
  | FList (path : gostr)
  | FTransfer (name : gostr) (flags offset nextFileSize : Z) (pieces : list gostr).

Definition ftp_serve (r : ftp_request) : handler unit :=
  match r with
  | FMkdir p => ftp_Mkdir p
  | FRemove p => ftp_Remove p
  | FRename p q => ftp_Rename p q
  | FStat p => let@ _ := ftp_Stat p in h_ok ()
  | FList p => let@ _ := ftp_List p in h_ok ()
  | FTransfer name flags offset size pieces => let@ t := GetHandle name flags offset size in send_pieces pieces t
  end.
End adapter.
