(* ===== verification/FtpThms.v ===== *)
(** * The FTP and SFTP servers: what a session may do, and what arrives

    Every call of package [fs] in every run of a request is confined to the
    base path and was permitted; an upload stores the bytes that were sent,
    however they were cut. *)

From S2P Require Import Prelude GoStrings Errs Store Paths HttpRange Crypto Users Perm Prog Sign Shares ShareHandlers FsHandlers FsHandlersSpec FsHandlersThms Ftp.

Local Open Scope Z_scope.

(** ** Paths *)

Lemma split_path_of q : q = render (path_segs q) →
  (path_segs q = [] ∧ path_Split q = (#"/", [])) ∨
  ∃ l x, path_segs q = l ++ [x] ∧ path_Split q = (dir_slash l, x) ∧ path_Dir q = render l ∧ Forall good_seg l ∧ good_seg x.
Proof.
  intros Eq. destruct (split_last (path_segs q)) as [E|(l & x & E)]; [left; split; [done|]; by rewrite Eq, E|].
  right. pose proof (path_segs_good q) as Hg. rewrite E in Hg. apply Forall_app in Hg as [Hl [Hx _]%Forall_cons].
  exists l, x. split; [done|]. rewrite Eq, E. split; [apply path_Split_render, Hx|].
  split; [apply path_Dir_render; [by apply good_norm|apply Hx]|done].
Qed.

Section spec.
Context {RS : RoleStore} {RL : RegexpLib} {MS : MetaStore} {HE : HandlerEnv} {FE : FtpEnv}.
Context (user : User) (meta_pass : gostr).

Abbreviation may p bit := (HasPermission (MergeRolePermissions (Some user) p) bit = true).

(** The nearest meta lets the user see the path. *)
Definition seen (m : option Meta) (p : gostr) : Prop :=
  CanAccessWithRoles (Some user) m p meta_pass = Ret true.

Definition access_ok (p : gostr) : Prop := ∃ m, found_meta p m ∧ seen m p.

Definition upload_ok (p : gostr) : Prop :=
  ∃ m, found_meta (path_Dir p) m ∧ seen m p ∧
    ((may p PermFTPManage ∧ may p PermWrite) ∨ meta_CanWrite m (path_Dir p) = true).

(** [Remove] asks for the permission at the path the client sent; everything
    else at the path in the tree.  A file that is overwritten is removed with
    the permission to upload it. *)
Definition ftp_permitted (r : ftp_request) (c : fs_action) : Prop :=
  match c, r with
  | CMakeDir p, FMkdir _ =>
      (may p PermWrite ∧ may p PermFTPManage) ∨
      ∃ m, GetNearestMeta (path_Dir p) = inr m ∧ meta_CanWrite (Some m) p = true
  | CRemove p, FRemove sent => may sent PermRemove ∧ may sent PermFTPManage ∧ JoinPath (Some GetRole) user sent = inr p
  | CRemove p, FTransfer _ _ _ _ _ => upload_ok p
  | CRename _ name, FRename old new =>
      ∃ p, JoinPath (Some GetRole) user old = inr p ∧ may p PermRename ∧ may p PermFTPManage
  | CMove p _ _, FRename _ _ | CCopy p _ _ _, FRename _ _ => may p PermMove ∧ may p PermFTPManage
  | CPutDirectly dir f, FTransfer _ _ _ _ _ | CPutAsTask dir f, FTransfer _ _ _ _ _ => upload_ok (path_join dir (fst_Name f))
  | CLink p, FTransfer _ _ _ _ _ => access_ok p
  | CGet _, FTransfer _ _ _ _ _ => True
  | CGet p, FStat _ => access_ok p
  | CList p _ m, FList _ => found_meta p m ∧ seen m p
  | _, _ => False
  end.

(** A new name that is the base path itself is not below it. *)
Definition ftp_proper (r : ftp_request) : Prop :=
  match r with FRename _ new => path_segs new ≠ [] | _ => True end.

Definition ftp_allowed (r : ftp_request) (h : list fs_event) (c : fs_action) : Prop :=
  (ftp_proper r → confined user c) ∧ ftp_permitted r c.

Abbreviation fwp r m h Q := (hwp (λ _ _, True) (ftp_allowed r) m h Q).

(** ** The steps *)

Lemma fwp_join r p h (Q : gostr → list fs_event → Prop) :
  (∀ q, JoinPath (Some GetRole) user p = inr q → Q q h) → fwp r (ftp_JoinPath user p) h Q.
Proof. intros H. by apply hwp_result. Qed.

Lemma fwp_meta r p h (Q : option Meta → list fs_event → Prop) :
  (∀ m, found_meta p m → Q m h) → fwp r (ftp_meta p) h Q.
Proof.
  intros H. unfold ftp_meta. destruct (GetNearestMeta p) as [e|m] eqn:E.
  - apply hwp_if; intros He; [|apply hwp_reject]. apply hwp_ok, H. by exists e.
  - by apply hwp_ok, H.
Qed.

Lemma fwp_access r m p h (Q : unit → list fs_event → Prop) :
  (seen m p → Q () h) → fwp r (ftp_access user meta_pass m p) h Q.
Proof. intros H. unfold ftp_access. hstep. apply hwp_outcome. intros b Hb. apply hwp_check. intros ->. apply hwp_ok. by apply H. Qed.

Ltac fstep :=
  lazymatch goal with
  | |- hwp _ _ (ftp_JoinPath _ _) _ _ => apply fwp_join; intros ? ?
  | |- hwp _ _ (ftp_meta _) _ _ => apply fwp_meta; intros ? ?
  | |- hwp _ _ (ftp_access _ _ _ _) _ _ => apply fwp_access; intros ?
  | |- hwp _ _ (ftp_fail _) _ _ => apply hwp_reject
  | |- _ => hstep
  end.

Lemma ftp_spec_Mkdir p h : fwp (FMkdir p) (ftp_Mkdir user p) h (λ _ _, True).
Proof.
  unfold ftp_Mkdir. fstep. fstep. pose proof (joined user _ _ H) as (Hw & _). cbv zeta. fstep.
  assert (Hmk : ∀ h', ftp_permitted (FMkdir p) (CMakeDir q) → fwp (FMkdir p) (h_do 0 (h_call (CMakeDir q))) h' (λ _ _, True)).
  { intros h' Hp. fstep. fstep; [|done]. split; [intros _; by apply (confined_1 user q)|done]. }
  destruct (negb _ || negb _) eqn:E.
  - fstep. fstep. apply hwp_check. intros Hc. apply hwp_ok. apply Hmk. right. destruct m as [m|]; [|done]. by exists m.
  - apply hwp_ok, Hmk. left. apply orb_false_iff in E as [E1 E2]. apply negb_false_iff in E1, E2. done.
Qed.

Lemma ftp_spec_Remove p h : fwp (FRemove p) (ftp_Remove user p) h (λ _ _, True).
Proof.
  unfold ftp_Remove. cbv zeta. apply hwp_check. intros E. apply negb_true_iff, orb_false_iff in E as [E1 E2].
  apply negb_false_iff in E1, E2. fstep. fstep. pose proof (joined user _ _ H) as (Hw & _). fstep. fstep; [|done].
  split; [intros _; by apply (confined_1 user q)|done].
Qed.

Lemma ftp_spec_Stat p h : fwp (FStat p) (ftp_Stat user meta_pass p) h (λ _ _, True).
Proof.
  unfold ftp_Stat. fstep. fstep. pose proof (joined user _ _ H) as (Hw & _). do 4 fstep. fstep. fstep; [|done].
  split; [intros _; by apply (confined_1 user q)|]. by exists m.
Qed.

Lemma ftp_spec_List p h : fwp (FList p) (ftp_List user meta_pass p) h (λ _ _, True).
Proof.
  unfold ftp_List. fstep. fstep. pose proof (joined user _ _ H) as (Hw & _). do 4 fstep. fstep. fstep; [|done].
  split; [intros _; by apply (confined_1 user q)|done].
Qed.

(** The new path splits into a directory and a name below the base path. *)
Lemma target_split new q : JoinPath (Some GetRole) user new = inr q → path_segs new ≠ [] →
  ∃ l x, path_Split q = (dir_slash l, x) ∧ Forall good_seg l ∧ good_seg x ∧ path_segs (BasePath user) `prefix_of` l.
Proof.
  intros Hq Hne. destruct (parent_within user _ _ Hq Hne) as (Hw & l & x & Hs & Hd & Hl & Hx).
  pose proof (joined user _ _ Hq) as (_ & Eq & _). exists l, x. split; [rewrite Eq, Hs; apply path_Split_render, Hx|].
  split; [done|]. split; [done|]. unfold within in Hw. by rewrite Hd, path_segs_render in Hw.
Qed.

Lemma below_dir l x : Forall good_seg l → good_seg x → path_segs (BasePath user) `prefix_of` l → within user (path_join (render l) x).
Proof. intros Hl Hx Hp. unfold within. rewrite join_child by done. by apply prefix_app_r. Qed.

(** A rename in the directory of the source. *)
Lemma ftp_confined_rename old q l x : JoinPath (Some GetRole) user old = inr q → (path_Split q).1 = dir_slash l →
  Forall good_seg l → good_seg x → path_segs (BasePath user) `prefix_of` l → confined user (CRename q x).
Proof.
  intros Hq Hs Hl Hx Hp. pose proof (joined user _ _ Hq) as (Hw & Eq & _). eapply confined_2; [done|done|].
  destruct (split_path_of q Eq) as [[E _]|(k & y & E & Es & Ed & Hk & Hy)].
  - assert (Hb : path_segs (BasePath user) = []) by (unfold within in Hw; rewrite E in Hw; by apply prefix_nil_inv in Hw).
    unfold within. rewrite Hb. apply prefix_nil.
  - rewrite Ed. rewrite Es in Hs. simpl in Hs. apply (f_equal path_segs) in Hs. rewrite !path_segs_dir_slash in Hs by done. subst k.
    by apply below_dir.
Qed.

(** A rename of what was moved. *)
Lemma ftp_confined_moved old q l x : JoinPath (Some GetRole) user old = inr q →
  Forall good_seg l → good_seg x → path_segs (BasePath user) `prefix_of` l →
  within user (dir_slash l) ∧ confined user (CRename (path_join (dir_slash l) (path_Split q).2) x).
Proof.
  intros Hq Hl Hx Hp. pose proof (joined user _ _ Hq) as (Hw & Eq & _).
  assert (Hd : within user (dir_slash l)) by (unfold within; by rewrite path_segs_dir_slash).
  split; [done|]. destruct (split_path_of q Eq) as [[E Es]|(k & y & E & Es & Ed & Hk & Hy)]; rewrite Es; simpl.
  - assert (Hb : path_segs (BasePath user) = []) by (unfold within in Hw; rewrite E in Hw; by apply prefix_nil_inv in Hw).
    eapply confined_2; [done|..]; unfold within; rewrite Hb; apply prefix_nil.
  - assert (Ej : path_join (dir_slash l) y = render (l ++ [y])) by (by apply path_join_dir_slash). rewrite Ej.
    assert (Hly : Forall good_seg (l ++ [y])) by (apply Forall_app_2; [done|by constructor]).
    eapply confined_2; [done|..].
    + unfold within. rewrite path_segs_render by done. by apply prefix_app_r.
    + rewrite path_Dir_render by (by apply good_norm || apply Hy). by apply below_dir.
Qed.

Lemma ftp_spec_Rename old new h : fwp (FRename old new) (ftp_Rename user old new) h (λ _ _, True).
Proof.
  unfold ftp_Rename. fstep. fstep. rename q into p, H into Hp. fstep. fstep. rename H into Hq.
  pose proof (joined user _ _ Hp) as (Hwp & _).
  destruct (path_Split p) as [srcDir srcBase] eqn:Esp. destruct (path_Split q) as [dstDir dstBase] eqn:Esq. cbv zeta.
  assert (Hconf : ftp_proper (FRename old new) → ∃ l, dstDir = dir_slash l ∧ Forall good_seg l ∧ good_seg dstBase ∧ path_segs (BasePath user) `prefix_of` l).
  { intros Hpr. destruct (target_split _ _ Hq Hpr) as (l & x & E & ? & ? & ?). rewrite Esq in E. injection E as -> ->. by exists l. }
  case_bool_decide as Ed.
  - apply hwp_check. intros E. apply negb_true_iff, orb_false_iff in E as [E1 E2]. apply negb_false_iff in E1, E2.
    fstep. fstep; [|done]. split; [|by exists p]. intros (l & -> & Hl & Hx & Hb)%Hconf.
    eapply ftp_confined_rename; [done|by rewrite Esp|done..].
  - apply hwp_check. intros E. apply negb_true_iff in E. rewrite !orb_false_iff in E. destruct E as [[E1 E2] E3].
    apply negb_false_iff in E1, E2. fstep. apply hwp_call.
    { split; [|done]. intros (l & -> & Hl & Hx & Hb)%Hconf. eapply confined_2; [done|done|]. apply (ftp_confined_moved old p l dstBase Hp Hl Hx Hb). }
    intros [err|[]] _.
    + case_bool_decide; [fstep|]. fstep. apply hwp_call; [|by intros [? [?|]] _; [apply hwp_reject|apply hwp_ok]].
      split; [|done]. intros (l & -> & Hl & Hx & Hb)%Hconf. eapply confined_2; [done|done|]. apply (ftp_confined_moved old p l dstBase Hp Hl Hx Hb).
    + case_bool_decide as Eb; [|by apply hwp_ok]. fstep. fstep; [|done]. simpl in E3. apply negb_false_iff in E3.
      split; [|by exists p]. intros (l & -> & Hl & Hx & Hb)%Hconf.
      destruct (ftp_confined_moved old p l dstBase Hp Hl Hx Hb) as [_ Hc]. by rewrite Esp in Hc.
Qed.

(** *** Transfers *)

(** A path that may be uploaded to. *)
Definition upload_path (q : gostr) : Prop := within user q ∧ q = render (path_segs q) ∧ upload_ok q.

Lemma fwp_uploadAuth name r q h : JoinPath (Some GetRole) user name = inr q →
  fwp r (uploadAuth user meta_pass q) h (λ _ _, upload_path q).
Proof.
  intros Hq. pose proof (joined user _ _ Hq) as (Hw & Eq & _). unfold uploadAuth. fstep. fstep. cbv zeta. fstep.
  apply hwp_outcome. intros ok Hok. apply hwp_check. intros E. apply andb_true_iff in E as [-> E]. apply hwp_ok.
  split; [done|]. split; [done|]. exists m. split; [done|]. split; [done|].
  apply orb_true_iff in E as [E|E]; [left|by right]. by apply andb_true_iff in E.
Qed.

(** What an open upload carries. *)
Definition transfer_ok (t : transfer) : Prop :=
  match t with
  | TDownload _ _ => True
  | TUpload u => upload_path (up_path u)
  | TUploadLength u => upload_path (lp_path u)
  end.

Abbreviation is_transfer r := (match r with FTransfer _ _ _ _ _ => True | _ => False end).

Lemma transfer_remove r q h (Q : fs_answer (CRemove q) → list fs_event → Prop) : is_transfer r → upload_path q →
  (∀ a, Q a (h ++ [ev (CRemove q) a])) → fwp r (h_call (CRemove q)) h Q.
Proof.
  intros Hr (Hw & Eq & Hu) HQ. apply hwp_call; [|auto]. destruct r; try done.
  split; [intros _; by apply (confined_1 user q)|done].
Qed.

Lemma transfer_put_ok r q h c s : is_transfer r → upload_path q → fst_Name s = (path_Split q).2 →
  c = CPutAsTask (path_Split q).1 s ∨ c = CPutDirectly (path_Split q).1 s → ftp_allowed r h c.
Proof.
  intros Hr (Hw & Eq & Hu) Hn Hc. pose proof (join_split q Eq) as Ej. rewrite <- Hn in Ej.
  destruct r; try done. destruct Hc as [->| ->]; (split; [intros _; eapply confined_1; [done|]; by rewrite Ej|]);
    unfold ftp_permitted; by rewrite Ej.
Qed.

Lemma lp_path_writes pieces u : lp_path (fold_left (λ f p, (lp_write None Taken Taken p f).2) pieces u) = lp_path u.
Proof.
  revert u. induction pieces as [|p pieces IH]; intros u; [done|]. simpl. rewrite IH. unfold lp_write.
  destruct (lp_pipe u); [done|]. cbv zeta. by destruct (_ <? _)%nat.
Qed.

Lemma ftp_spec_pieces r pieces t h : is_transfer r → transfer_ok t → fwp r (send_pieces pieces t) h (λ _ _, True).
Proof.
  intros Hr Ht. destruct t as [url off|u|u]; simpl in Ht |- *; [by apply hwp_ok| |].
  - set (buf := fold_left _ _ _). unfold up_Close. cbn [up_path up_buffer up_trunc]. destruct (path_Split (up_path u)) as [dir nm] eqn:Es.
    apply hwp_if; intros _; [apply hwp_reject|]. fstep.
    assert (Hput : ∀ h', fwp r (let@ _ := h_do 0 (h_call (CPutAsTask dir
      (ftp_stream (up_path u) (tf_pos buf) (head_buffer (tf_data buf)) true))) in h_ok ()) h' (λ _ _, True)).
    { intros h'. fstep. fstep. fstep; [|intros; by apply hwp_ok]. eapply (transfer_put_ok r (up_path u)); [exact Hr|exact Ht| |rewrite Es; by left]. done. }
    apply hwp_if; intros _; [|apply hwp_ok, Hput]. fstep. apply transfer_remove; [done..|]. intros a. apply hwp_ok, Hput.
  - set (u' := fold_left _ _ _). assert (Ep : lp_path u' = lp_path u) by apply lp_path_writes. unfold lp_Close. rewrite Ep.
    destruct (path_Split (lp_path u)) as [dir nm] eqn:Es. destruct (lp_pipe u').
    + fstep. fstep; [|done]. eapply (transfer_put_ok r (lp_path u)); [exact Hr|exact Ht| |rewrite Es; by right]. done.
    + fstep. fstep; [|done]. eapply (transfer_put_ok r (lp_path u)); [exact Hr|exact Ht| |rewrite Es; by right]. done.
Qed.

Lemma ftp_spec_GetHandle r name flags offset size h : is_transfer r →
  fwp r (GetHandle user meta_pass name flags offset size) h (λ t _, transfer_ok t).
Proof.
  intros Hr. unfold GetHandle. apply hwp_if; intros _; [apply hwp_reject|]. apply hwp_if; intros _; [apply hwp_reject|].
  fstep. fstep. pose proof (joined user _ _ H) as (Hw & Eq & _). fstep.
  apply hwp_call; [destruct r; try done; split; [intros _; by apply (confined_1 user q)|done]|]. intros ans _. cbv zeta.
  apply hwp_if; intros _; [apply hwp_reject|]. apply hwp_if; intros _; [apply hwp_reject|]. apply hwp_if; intros _.
  - apply hwp_if; intros _; [apply hwp_reject|]. apply hwp_if; intros _.
    + unfold OpenUploadWithLength. fstep. eapply hwp_mono; [by eapply fwp_uploadAuth|]. intros [] h' Hup. fstep.
      apply hwp_if; intros _; [|by do 2 apply hwp_ok]. fstep. apply transfer_remove; [done..|]. intros a. by do 2 apply hwp_ok.
    + unfold OpenUpload. fstep. eapply hwp_mono; [by eapply fwp_uploadAuth|]. intros [] h' Hup. by apply hwp_ok.
  - unfold OpenDownload. do 4 fstep. fstep. fstep. fstep; [|intros; by apply hwp_ok].
    destruct r; try done. split; [intros _; by apply (confined_1 user q)|]. by exists m.
Qed.

Lemma ftp_spec_serve r : fwp r (ftp_serve user meta_pass r) [] (λ _ _, True).
Proof.
  destruct r; cbn [ftp_serve].
  - apply ftp_spec_Mkdir.
  - apply ftp_spec_Remove.
  - apply ftp_spec_Rename.
  - fstep. eapply hwp_mono; [apply ftp_spec_Stat|]. intros. by apply hwp_ok.
  - fstep. eapply hwp_mono; [apply ftp_spec_List|]. intros. by apply hwp_ok.
  - fstep. eapply hwp_mono; [by apply ftp_spec_GetHandle|]. intros t h Ht. by apply ftp_spec_pieces.
Qed.

(** C12. A session of the FTP or the SFTP server stays in its bounds: in every
    run of a request, whatever package [fs] answers, each path that is touched
    lies at or below the base path of the user (unless a client names the base
    path itself as a new name), and each call was permitted.  Directories,
    moves, renames and uploads need the permission for it together with the one
    to manage files over FTP, or a meta that makes the directory writable; what
    is read is readable with the password of the session.  A removal was
    permitted at the path as the client sent it. *)
Theorem ftp_session_authorised r tr x : runs_to (ftp_serve user meta_pass r) tr x →
  ∀ e, e ∈ tr →
    (ftp_proper r → ∀ p, p ∈ touches (projT1 e) → IsSubPath (BasePath user) p = true) ∧
    ftp_permitted r (projT1 e).
Proof.
  intros Hrun e He. apply list_elem_of_split in He as (t1 & t2 & ->).
  eapply wp_sound in Hrun as [_ Hok]; [|apply (ftp_spec_serve r)|by apply Forall_forall].
  destruct (Hok t1 e t2 eq_refl) as [Hc Hp]. split; [|done]. intros Hpr p Hin. apply IsSubPath_segs.
  specialize (Hc Hpr). unfold confined in Hc. rewrite Forall_forall in Hc. by apply Hc.
Qed.
End spec.

(** ** The bytes of an upload *)

(** What the transfer object holds after the bytes [d]. *)
Definition carries (f : FileUploadWithLengthProxy) (d : gostr) : Prop :=
  ((length d < 512)%nat ∧ lp_pipe f = None ∧ lp_first f = d) ∨
  ((512 ≤ length d)%nat ∧ lp_pipe f = Some d ∧ lp_first f = take 512 d).

(** A piece with what the storage does about it; the client ends the transfer
    at an error or when a write is cut short. *)
Record piece := { pc_data : gostr; pc_ended : option (option error); pc_first : pipe_answer; pc_rest : pipe_answer }.

Fixpoint send_all (l : list piece) (f : FileUploadWithLengthProxy) : FileUploadWithLengthProxy * bool :=
  match l with
  | [] => (f, true)
  | p :: l' =>
      let '((n, e), f) := lp_write (pc_ended p) (pc_first p) (pc_rest p) (pc_data p) f in
      if bool_decide (e = None) && (n =? Z.of_nat (length (pc_data p))) then send_all l' f else (f, false)
  end.

(** Nothing that is not part of the data goes through the pipe. *)
Definition sends_part (f : FileUploadWithLengthProxy) (d : gostr) : Prop :=
  ∀ sent, lp_pipe f = Some sent → sent `prefix_of` d.

Lemma pipe_put_spec old p a : ∃ k, (pipe_put old p a).1 = old ++ k ∧ k `prefix_of` p ∧ ((pipe_put old p a).2.2 = None → k = p).
Proof.
  destruct a as [|n e]; simpl; [by exists p|]. exists (take n p). split; [done|]. split; [|done].
  exists (drop n p). by rewrite take_drop.
Qed.

Lemma lp_write_carries p f d : carries f d →
  let '((n, e), f') := lp_write (pc_ended p) (pc_first p) (pc_rest p) (pc_data p) f in
  sends_part f' (d ++ pc_data p) ∧
  (e = None → n = Z.of_nat (length (pc_data p)) → carries f' (d ++ pc_data p)).
Proof.
  destruct p as [p ended a1 a2]. simpl. unfold lp_write. intros [(Hd & Hp & Hf)|(Hd & Hp & Hf)]; rewrite Hp; cbv zeta.
  - destruct (Nat.ltb_spec (length p) (512 - length (lp_first f))) as [Hlt|Hge].
    + split; [done|]. intros _ _. left. rewrite length_app, Hf in *. split; [lia|done].
    + rewrite Hf in *. assert (Hfirst : d ++ take (512 - length d) p = take 512 (d ++ p)).
      { rewrite take_app, (take_ge d 512) by lia. done. }
      assert (Hall : (512 ≤ length (d ++ p))%nat) by (rewrite length_app; lia).
      destruct (pipe_put_spec [] (d ++ take (512 - length d) p) a1) as (k & E1 & Hk & Hk').
      destruct (pipe_put [] _ a1) as [sent [n [e|]]]; simpl in E1, Hk'.
      * split; [|done]. intros s [= <-]. rewrite E1. etrans; [exact Hk|]. rewrite Hfirst. exists (drop 512 (d ++ p)). by rewrite take_drop.
      * rewrite (Hk' eq_refl) in E1. destruct (pipe_put_spec sent (drop (512 - length d) p) a2) as (k2 & E2 & Hk2 & Hk2').
        assert (Hs : sent ++ drop (512 - length d) p = d ++ p) by (by rewrite E1, <- app_assoc, take_drop).
        destruct (pipe_put sent _ a2) as [sent2 [n1 [e|]]]; simpl in E2, Hk2'.
        -- split; [|done]. intros s [= <-]. rewrite E2, <- Hs. by apply prefix_app.
        -- rewrite (Hk2' eq_refl), Hs in E2. split; [intros s [= <-]; by rewrite E2|]. intros _ _. right.
           split; [done|]. simpl. by rewrite E2, Hfirst.
  - destruct ended as [e|].
    + split; [intros s Es; rewrite Hp in Es; injection Es as <-; by apply prefix_app_r|]. intros -> Hn. symmetry in Hn.
      assert (p = []) as -> by (destruct p; [done|simpl in Hn; lia]). rewrite app_nil_r. right. done.
    + destruct (pipe_put_spec d p a1) as (k & E1 & Hk & Hk'). destruct (pipe_put d p a1) as [sent [n e]]. simpl in E1, Hk'.
      split; [intros s [= <-]; rewrite E1; by apply prefix_app|]. intros -> _. right. rewrite length_app. split; [lia|].
      simpl. rewrite E1, (Hk' eq_refl). split; [done|]. by rewrite take_app_le.
Qed.

Lemma tf_write_end p f : tf_pos f = Z.of_nat (length (tf_data f)) →
  tf_data (tf_write p f) = tf_data f ++ p ∧ tf_pos (tf_write p f) = Z.of_nat (length (tf_data f ++ p)).
Proof.
  intros E. unfold tf_write. simpl. rewrite E, Nat2Z.id, firstn_all, Nat.sub_diag. simpl.
  rewrite app_nil_r, drop_ge, app_nil_r by lia. split; [done|]. rewrite length_app. lia.
Qed.

Lemma tf_writes pieces f : tf_pos f = Z.of_nat (length (tf_data f)) →
  let g := fold_left (λ f p, tf_write p f) pieces f in
  tf_data g = tf_data f ++ concat pieces ∧ tf_pos g = Z.of_nat (length (tf_data f ++ concat pieces)).
Proof.
  revert f. induction pieces as [|p pieces IH]; intros f Hf; simpl; [by rewrite app_nil_r|].
  destruct (tf_write_end p f Hf) as [E1 E2]. specialize (IH (tf_write p f)). rewrite E1, <- app_assoc in IH. by apply IH.
Qed.

Lemma send_all_carries l f d : carries f d →
  let '(f', ok) := send_all l f in
  (ok = true → carries f' (d ++ concat (map pc_data l))) ∧ sends_part f' (d ++ concat (map pc_data l)).
Proof.
  revert f d. induction l as [|p l IH]; intros f d Hf; cbn [send_all map concat].
  - rewrite app_nil_r. split; [done|]. intros s Hs. destruct Hf as [(_ & E & _)|(_ & E & _)]; rewrite E in Hs; [done|]. by injection Hs as <-.
  - pose proof (lp_write_carries p f d Hf) as Hw. destruct (lp_write _ _ _ _ f) as [[n e] f1]. destruct Hw as [Hs Hc].
    destruct (bool_decide (e = None) && _) eqn:E.
    + apply andb_true_iff in E as [E1 E2]. apply bool_decide_eq_true in E1. apply Z.eqb_eq in E2. rewrite app_assoc. by apply IH, Hc.
    + split; [done|]. intros s Es. rewrite app_assoc. apply prefix_app_r. by apply Hs.
Qed.

(** The object keeps its path and the announced length. *)
Lemma send_all_keeps l f : lp_path (send_all l f).1 = lp_path f ∧ lp_length (send_all l f).1 = lp_length f.
Proof.
  revert f. induction l as [|p l IH]; intros f; [done|]. cbn [send_all].
  assert (Hk : let f1 := (lp_write (pc_ended p) (pc_first p) (pc_rest p) (pc_data p) f).2 in lp_path f1 = lp_path f ∧ lp_length f1 = lp_length f).
  { unfold lp_write. cbv zeta. destruct (lp_pipe f); [destruct (pc_ended p); [done|by destruct (pipe_put _ _ _)]|].
    destruct (_ <? _)%nat; [done|]. destruct (pipe_put [] _ _) as [s1 [n1 [e1|]]]; [done|].
    by destruct (pipe_put s1 _ _) as [s2 [n2 [e2|]]]. }
  destruct (lp_write _ _ _ _ f) as [[n e] f1]. destruct (bool_decide _ && _); [|done].
  destruct (IH f1) as [-> ->]. done.
Qed.

(** What the reader of the upload gives: the bytes of the pipe, or those that
    were kept. *)
Definition lp_content (f : FileUploadWithLengthProxy) : gostr := default (lp_first f) (lp_pipe f).

Lemma carries_content f d : carries f d → lp_content f = d ∧ lp_first f = take 512 d.
Proof.
  unfold lp_content. intros [(Hd & -> & ->)|(Hd & -> & ->)]; [|done]. split; [done|]. by rewrite take_ge by lia.
Qed.

Section close.
Context {HE : HandlerEnv} {FE : FtpEnv}.

Definition put_in (path : gostr) : gostr := (path_Split path).1.

Lemma up_Close_runs u tr x : runs_to (up_Close u) tr x →
  let data := tf_data (up_buffer u) in
  (data = [] → tr = [] ∧ x = Returned (inl {| rj_code := 0; rj_cause := CauseErr eof |})) ∧
  (data ≠ [] → ∃ t r, tr = t ++ [ev (CPutAsTask (put_in (up_path u)) (ftp_stream (up_path u) (tf_pos (up_buffer u)) (head_buffer data) true)) r] ∧
     map (@projT1 _ _) t = (if up_trunc u then [CRemove (up_path u)] else []) ∧
     (x = Returned (inr ()) ↔ ∃ task, r = inr task)).
Proof.
  intros Hrun. revert Hrun. unfold up_Close, put_in. destruct (path_Split (up_path u)) as [dir name]. cbn [fst].
  case_bool_decide as Ed.
  - intros Hrun. apply (wp_run _ (λ x tr, tr = [] ∧ x = Returned (inl {| rj_code := 0; rj_cause := CauseErr eof |}))) in Hrun; [by split|done].
  - intros Hrun. split; [done|]. intros _. pattern x, tr. eapply wp_run; [|exact Hrun].
    destruct (up_trunc u); cbn.
    + split; [done|]. intros q _. split; [done|].
      intros r _. destruct r as [e|t]; (eexists [ev (CRemove (up_path u)) q], _); (split; [done|]); (split; [done|]); split.
      all: try (by intros [=]). all: try (by intros [? [=]]). all: by eexists.
    + split; [done|].
      intros r _. destruct r as [e|t]; (eexists [], _); (split; [done|]); (split; [done|]); split.
      all: try (by intros [=]). all: try (by intros [? [=]]). all: by eexists.
Qed.

Lemma lp_Close_runs f tr x : runs_to (lp_Close f) tr x →
  ∃ r, tr = [ev (CPutDirectly (put_in (lp_path f))
               (ftp_stream (lp_path f) (match lp_pipe f with Some _ => lp_length f | None => Z.of_nat (length (lp_first f)) end) (lp_first f) false)) r] ∧
    (x = Returned (inr ()) ↔ r = inr ()).
Proof.
  unfold lp_Close, put_in. destruct (path_Split (lp_path f)) as [dir name]. cbn [fst]. intros Hrun.
  pattern x, tr. eapply wp_run; [|exact Hrun].
  destruct (lp_pipe f); cbn; (split; [done|]); intros [e|[]] _; eexists; by (split; [done|]).
Qed.

(** C29. An upload over FTP or SFTP, from the pieces the client sends to the
    call that stores them when the transfer is closed, however the bytes are
    cut.  Without a length: the temporary file holds exactly the bytes sent; an
    empty one is refused with [EOF] and nothing is stored or removed, any other
    is stored by one call of [PutAsTask] at the path of the transfer, with the
    number of bytes as its size, after the removal of the old object when the
    file is to be truncated; [Close] succeeds exactly when that call does.
    With a length: at any time, also after an error of the storage, the storage
    has been given a first part of the bytes through the pipe; and when every
    write succeeded, [Close] is one call of [PutDirectly] at the path, whose
    content is exactly the bytes sent and whose type is detected in their first
    512 bytes; its size is the number of bytes when they are fewer than 512 and
    the length that was announced otherwise, whatever was sent. *)
Theorem ftp_upload_exact path :
  (∀ trunc pieces tr x,
     let data := concat pieces in
     let u := {| up_buffer := fold_left (λ f p, tf_write p f) pieces new_tmp; up_path := path; up_trunc := trunc |} in
     runs_to (up_Close u) tr x →
     tf_data (up_buffer u) = data ∧
     (data = [] → tr = [] ∧ x = Returned (inl {| rj_code := 0; rj_cause := CauseErr eof |})) ∧
     (data ≠ [] → ∃ t r,
        tr = t ++ [ev (CPutAsTask (put_in path) (ftp_stream path (Z.of_nat (length data)) (head_buffer data) true)) r] ∧
        map (@projT1 _ _) t = (if trunc then [CRemove path] else []) ∧ (x = Returned (inr ()) ↔ ∃ task, r = inr task))) ∧
  (∀ len l tr x,
     let '(f, ok) := send_all l {| lp_path := path; lp_length := len; lp_first := []; lp_pipe := None |} in
     let data := concat (map pc_data l) in
     sends_part f data ∧
     (ok = true → runs_to (lp_Close f) tr x →
      lp_content f = data ∧
      ∃ r, tr = [ev (CPutDirectly (put_in path)
                       (ftp_stream path (if (length data <? 512)%nat then Z.of_nat (length data) else len) (take 512 data) false)) r] ∧
           (x = Returned (inr ()) ↔ r = inr ()))).
Proof.
  split.
  - intros trunc pieces tr x data u Hrun. destruct (tf_writes pieces new_tmp eq_refl) as [Ed Ep]. simpl in Ed, Ep. fold data in Ed, Ep.
    apply up_Close_runs in Hrun. cbn [u up_buffer up_path up_trunc] in Hrun |- *. rewrite Ed, Ep in Hrun. by split.
  - intros len l tr x. pose proof (send_all_carries l {| lp_path := path; lp_length := len; lp_first := []; lp_pipe := None |} []) as Hc.
    pose proof (send_all_keeps l {| lp_path := path; lp_length := len; lp_first := []; lp_pipe := None |}) as [Hp Hl].
    destruct (send_all l _) as [f ok]. cbn [fst lp_path lp_length] in Hp, Hl.
    destruct Hc as [Hc Hs]; [left; split; [simpl; lia|done]|]. split; [done|]. intros Hok Hrun. specialize (Hc Hok).
    destruct (carries_content _ _ Hc) as [Econt Efirst]. split; [done|]. apply lp_Close_runs in Hrun.
    rewrite Hp, Hl, Efirst in Hrun. simpl in Hc. destruct Hc as [(Hd & Hpipe & _)|(Hd & Hpipe & _)]; rewrite Hpipe in Hrun; simpl in Hrun.
    + rewrite (proj2 (Nat.ltb_lt _ _)) by done. by rewrite (take_ge _ 512) in Hrun |- * by lia.
    + by rewrite (proj2 (Nat.ltb_ge _ _)) by done.
Qed.
End close.
