(* ===== verification/FtpServer.v ===== *)
(** * The FTP and SFTP servers: logging in, and the ports for passive transfers

    [AuthUser] and [newPortMapper] of [server/ftp.go], the callbacks of
    [server/sftp.go]. *)

From S2P Require Import Prelude GoStrings Errs Store Paths HttpRange Crypto Users Perm Prog Sign Shares ShareHandlers FsHandlers FsHandlersSpec FsHandlersThms FsHandlersExamples Ftp FtpThms.

Local Open Scope Z_scope.

(** ** Logging in *)

(** [op.GetGuest], [op.GetUserByName] and the keys of a user. *)
Class FtpUsers := {
  op_GetGuest : result User;
  op_GetUser : gostr → result User;
  op_Keys : Z → result (list gostr);
  ParseAuthorizedKey : gostr → option gostr;
}.

(** What the adapter of a session gets: the user and the password for metas. *)
Record session := { ss_user : User; ss_meta_pass : gostr }.

Section login.
Context {RS : RoleStore} {FU : FtpUsers}.

Definition is_guest_name (name : gostr) : bool := bool_decide (name = #"anonymous") || bool_decide (name = #"guest").

(** The accounts that may use the servers. *)
Definition ftp_denied (u : User) : bool :=
  Disabled u || negb (HasPermission (MergeRolePermissions (Some u) (BasePath u)) PermFTPAccess).

Definition AuthUser (user pass : gostr) : result session :=
  let! userObj :=
    (if is_guest_name user then op_GetGuest
     else
       let! u := op_GetUser user in
       match ValidatePwdStaticHash u (StaticHash pass) with Some e => inl e | None => inr u end) in
  if ftp_denied userObj then inl (EMessage #"user is not allowed to access via FTP")
  else inr {| ss_user := userObj; ss_meta_pass := if is_guest_name user then pass else [] |}.

Definition no_sftp : error := EMessage #"user is not allowed to access via SFTP".

Definition NoClientAuth (user : gostr) : option error :=
  if bool_decide (user ≠ #"guest") then Some (EMessage #"only guest is allowed to login without authorization")
  else
    match op_GetGuest with
    | inl e => Some e
    | inr guest => if ftp_denied guest then Some no_sftp else None
    end.

Definition PasswordAuth (user password : gostr) : option error :=
  match op_GetUser user with
  | inl e => Some e
  | inr u => if ftp_denied u then Some no_sftp else ValidatePwdStaticHash u (StaticHash password)
  end.

(** A key of the user is the one that was shown, as it is stored or parsed. *)
Definition key_matches (marshal key : gostr) : bool :=
  bool_decide (marshal = key) ||
  match ParseAuthorizedKey key with Some k => bool_decide (marshal = k) | None => false end.

Definition PublicKeyAuth (user marshal : gostr) : option error :=
  match op_GetUser user with
  | inl e => Some e
  | inr u =>
      if ftp_denied u then Some no_sftp
      else
        match op_Keys (user_ID u) with
        | inl e => Some e
        | inr keys => if existsb (key_matches marshal) keys then None else Some (EMessage #"public key refused")
        end
  end.

Definition GetFileSystem (user : gostr) : result session :=
  let! u := op_GetUser user in inr {| ss_user := u; ss_meta_pass := [] |}.

(** The ways to open an SFTP session. *)
Inductive sftp_login := LoginNone | LoginPassword (password : gostr) | LoginKey (marshal : gostr).

Definition sftp_open (user : gostr) (l : sftp_login) : result session :=
  match (match l with
         | LoginNone => NoClientAuth user
         | LoginPassword p => PasswordAuth user p
         | LoginKey k => PublicKeyAuth user k
         end) with
  | Some e => inl e
  | None => GetFileSystem user
  end.

(** Proof of being the user: the password, or a key of the account. *)
Definition proves_user (u : User) (l : sftp_login) : Prop :=
  match l with
  | LoginNone => False
  | LoginPassword p => PwdHash u = HashPwd (StaticHash p) (Salt u)
  | LoginKey k => ∃ keys, op_Keys (user_ID u) = inr keys ∧ ∃ key, key ∈ keys ∧ key_matches k key = true
  end.

Definition may_ftp (u : User) : Prop :=
  Disabled u = false ∧ HasPermission (MergeRolePermissions (Some u) (BasePath u)) PermFTPAccess = true.

Lemma ftp_denied_false u : ftp_denied u = false → may_ftp u.
Proof. unfold ftp_denied, may_ftp. rewrite orb_false_iff, negb_false_iff. done. Qed.

Lemma validated u p : ValidatePwdStaticHash u p = None → PwdHash u = HashPwd p (Salt u).
Proof.
  unfold ValidatePwdStaticHash. case_bool_decide; [done|]. destruct (negb _) eqn:E; [done|].
  apply negb_false_iff, bool_decide_eq_true in E. done.
Qed.

(** C22. A session of the FTP or the SFTP server belongs to an account that is
    not disabled and may use it, and the client has shown to be that user: by
    the password or, for SFTP, by a key of the account; without either it is
    the guest.  For SFTP this assumes that the account named guest is the guest
    account, which it is unless it was renamed: otherwise a login without a
    password opens the account of that name, also a disabled one
    ([ftp_checks_bypassed]).  A password for metas is taken from guests over
    FTP only. *)
Theorem ftp_login_authentic :
  (∀ user pass s, AuthUser user pass = inr s →
     may_ftp (ss_user s) ∧
     (if is_guest_name user then op_GetGuest = inr (ss_user s) ∧ ss_meta_pass s = pass
      else op_GetUser user = inr (ss_user s) ∧ proves_user (ss_user s) (LoginPassword pass) ∧ ss_meta_pass s = [])) ∧
  (op_GetUser #"guest" = op_GetGuest →
   ∀ user l s, sftp_open user l = inr s →
     may_ftp (ss_user s) ∧ ss_meta_pass s = [] ∧ op_GetUser user = inr (ss_user s) ∧
     (proves_user (ss_user s) l ∨ l = LoginNone ∧ op_GetGuest = inr (ss_user s))).
Proof.
  split.
  - intros user pass s. unfold AuthUser. destruct (is_guest_name user).
    + destruct op_GetGuest as [e|u]; [done|]. destruct (ftp_denied u) eqn:E; [done|]. intros [= <-]. split; [by apply ftp_denied_false|done].
    + destruct (op_GetUser user) as [e|u]; [done|]. destruct (ValidatePwdStaticHash _ _) eqn:Ev; [done|].
      destruct (ftp_denied u) eqn:E; [done|]. intros [= <-]. split; [by apply ftp_denied_false|]. split; [done|].
      split; [by apply validated|done].
  - intros Hg user l s. unfold sftp_open, GetFileSystem. destruct l as [|p|k].
    + unfold NoClientAuth. case_bool_decide as Eu; [done|]. subst user. rewrite Hg. destruct op_GetGuest as [e|u]; [done|].
      destruct (ftp_denied u) eqn:E; [done|]. intros [= <-]. split; [by apply ftp_denied_false|]. split; [done|]. split; [done|]. by right.
    + unfold PasswordAuth. destruct (op_GetUser user) as [e|u]; [done|]. destruct (ftp_denied u) eqn:E; [done|].
      destruct (ValidatePwdStaticHash _ _) eqn:Ev; [done|]. intros [= <-]. split; [by apply ftp_denied_false|]. split; [done|].
      split; [done|]. left. by apply validated.
    + unfold PublicKeyAuth. destruct (op_GetUser user) as [e|u]; [done|]. destruct (ftp_denied u) eqn:E; [done|].
      destruct (op_Keys _) as [e|keys] eqn:Ek; [done|]. destruct (existsb _ keys) eqn:Ex; [|done]. intros [= <-].
      split; [by apply ftp_denied_false|]. split; [done|]. split; [done|]. left. exists keys. split; [done|].
      apply existsb_exists in Ex as (key & Hin & Hm). exists key. by rewrite list_elem_of_In.
Qed.
End login.

(** ** Passive ports *)

Record group := { ExposedStart : Z; ListenedStart : Z; Length : Z }.

(** [strings.Cut] at one byte. *)
Fixpoint Cut (s : gostr) (sep : ascii) : gostr * gostr * bool :=
  match s with
  | [] => ([], [], false)
  | c :: s' =>
      if bool_decide (c = sep) then ([], s', true)
      else let '(a, b, found) := Cut s' sep in (c :: a, b, found)
  end.

Definition Atoi (s : gostr) : result Z :=
  match ParseInt s with (n, None) => inr n | _ => inl (EMessage #"strconv.Atoi") end.

Definition convertToPorts (str : gostr) : result (Z * Z) :=
  let '(start, end_, multi) := Cut str "-" in
  if (multi : bool) then
    let! si := Atoi start in
    let! ei := Atoi end_ in
    if (ei <? si) || (ei <? 1024) || (si <? 1024) || (65535 <? ei) || (65535 <? si)
    then inl (EMessage #"invalid port")
    else inr (si, ei - si + 1)
  else
    let! ret := Atoi str in inr (ret, 1).

Definition port_group (mapper : gostr) : result group :=
  let '(exposed, listened, mapped) := Cut mapper ":" in
  if (mapped : bool) then
    let! (es, el) := convertToPorts exposed in
    let! (ls, ll) := convertToPorts listened in
    if negb (el =? ll) then inl (EMessage #"the number of exposed ports and listened ports does not match")
    else inr {| ExposedStart := es; ListenedStart := ls; Length := el |}
  else
    let! (start, length) := convertToPorts mapper in
    inr {| ExposedStart := start; ListenedStart := start; Length := length |}.

Fixpoint port_groups (mappers : list gostr) : result (list group) :=
  match mappers with
  | [] => inr []
  | m :: mappers' => let! g := port_group m in let! gs := port_groups mappers' in inr (g :: gs)
  end.

Definition totalLength (gs : list group) : Z := fold_right (λ g n, Length g + n) 0 gs.

(** The groups; without a text there is no mapper.  After an error the
    process ends. *)
Definition newPortMapper (str : gostr) : result (option (list group)) :=
  if bool_decide (str = []) then inr None
  else let! gs := port_groups (Split "," (ReplaceByte str "010" #",")) in inr (Some gs).

(** The getter, for the random number. *)
Fixpoint get_port (gs : list group) (idxPort : Z) : Z * Z * bool :=
  match gs with
  | [] => (0, 0, false)
  | g :: gs' =>
      if Length g <=? idxPort then get_port gs' (idxPort - Length g)
      else (ExposedStart g + idxPort, ListenedStart g + idxPort, true)
  end.

(** All pairs of ports, in order. *)
Definition port_pairs (gs : list group) : list (Z * Z) :=
  concat (map (λ g, map (λ k, (ExposedStart g + Z.of_nat k, ListenedStart g + Z.of_nat k)) (seq 0 (Z.to_nat (Length g)))) gs).

Lemma convert_length s p n : convertToPorts s = inr (p, n) → 1 ≤ n.
Proof.
  unfold convertToPorts. destruct (Cut s "-") as [[a b] []].
  - destruct (Atoi a) as [|si]; [done|]. destruct (Atoi b) as [|ei]; [done|]. destruct (_ || (65535 <? si)) eqn:E; [done|].
    intros [= <- <-]. rewrite !orb_false_iff, !Z.ltb_ge in E. lia.
  - destruct (Atoi s); [done|]. intros [= <- <-]. lia.
Qed.

Lemma group_length m g : port_group m = inr g → 1 ≤ Length g.
Proof.
  unfold port_group. destruct (Cut m ":") as [[a b] []].
  - destruct (convertToPorts a) as [|[es el]] eqn:Ea; [done|]. destruct (convertToPorts b) as [|[ls ll]]; [done|].
    destruct (negb _); [done|]. intros [= <-]. by apply convert_length in Ea.
  - destruct (convertToPorts m) as [|[p n]] eqn:E; [done|]. intros [= <-]. by apply convert_length in E.
Qed.

Lemma groups_length ms gs : port_groups ms = inr gs → Forall (λ g, 1 ≤ Length g) gs ∧ length gs = length ms.
Proof.
  revert gs. induction ms as [|m ms IH]; intros gs; simpl; [by intros [= <-]|].
  destruct (port_group m) as [|g] eqn:E; [done|]. destruct (port_groups ms) as [|gs']; [done|]. intros [= <-].
  destruct (IH gs' eq_refl) as [Hl Hn]. split; [by constructor; [eapply group_length|]|by simpl; rewrite Hn].
Qed.

Lemma port_pairs_length gs : Forall (λ g, 1 ≤ Length g) gs → Z.of_nat (length (port_pairs gs)) = totalLength gs.
Proof.
  unfold port_pairs. induction 1 as [|g gs Hg Hl IH]; [done|]. cbn [map concat totalLength fold_right].
  rewrite length_app, length_map, length_seq. unfold totalLength in IH. lia.
Qed.

Lemma get_port_pairs gs i : Forall (λ g, 1 ≤ Length g) gs → 0 ≤ i < totalLength gs →
  ∃ e l, port_pairs gs !! Z.to_nat i = Some (e, l) ∧ get_port gs i = (e, l, true).
Proof.
  intros Hl. revert i. induction Hl as [|g gs Hg Hl IH]; intros i Hi; [simpl in Hi; lia|].
  change (totalLength (g :: gs)) with (Length g + totalLength gs) in Hi.
  change (port_pairs (g :: gs)) with (map (λ k, (ExposedStart g + Z.of_nat k, ListenedStart g + Z.of_nat k)) (seq 0 (Z.to_nat (Length g))) ++ port_pairs gs).
  cbn [get_port]. destruct (Z.leb_spec (Length g) i).
  - destruct (IH (i - Length g)) as (e & l & E & Eg); [lia|]. exists e, l. split; [|done].
    rewrite lookup_app_r by (rewrite length_map, length_seq; lia). rewrite length_map, length_seq.
    by replace (Z.to_nat i - Z.to_nat (Length g))%nat with (Z.to_nat (i - Length g)) by lia.
  - exists (ExposedStart g + i), (ListenedStart g + i). split; [|done].
    rewrite lookup_app_l by (rewrite length_map, length_seq; lia).
    change (map ?f ?l) with (f <$> l). rewrite list_lookup_fmap, lookup_seq_lt by lia. simpl. do 2 f_equal; f_equal; lia.
Qed.

(** The port mapper of the FTP server picks fairly: for a setting that is
    accepted the random number has a range that is not empty, and the numbers
    of the range give the pairs of ports of the setting in order, each one
    once; the getter never comes to its end without a port. *)
Theorem port_mapper_exact str gs : newPortMapper str = inr (Some gs) →
  0 < totalLength gs ∧ Z.of_nat (length (port_pairs gs)) = totalLength gs ∧
  ∀ i, 0 ≤ i < totalLength gs → ∃ e l, port_pairs gs !! Z.to_nat i = Some (e, l) ∧ get_port gs i = (e, l, true).
Proof.
  unfold newPortMapper. case_bool_decide; [done|]. destruct (port_groups _) as [|gs'] eqn:E; [done|]. intros [= <-].
  destruct (groups_length _ _ E) as [Hl Hn]. destruct (Split_cons_inv "," (ReplaceByte str "010" #",")) as (w & ws & Es).
  rewrite Es in Hn. split; [|split; [by apply port_pairs_length|intros i Hi; by apply get_port_pairs]].
  destruct Hl as [|g l Hg Hl]; [done|]. cbn [totalLength fold_right]. fold (totalLength l).
  assert (0 ≤ totalLength l); [|unfold totalLength in *; lia]. clear -Hl. unfold totalLength. induction Hl; simpl; lia.
Qed.

(** ** FTP and SFTP: sessions on which the theorems are used, and where the
      checks fall short *)

Module FtpExample.
(** Everything but copies is permitted over FTP in [/home/a] and in [/b];
    [/home/b] may be read. *)
#[export] Instance role : RoleStore := λ id,
  if id =? 5 then
    inr {| role_ID := 5; role_Name := #"home"; role_Description := []; role_Default := false;
           PermissionScopes := [ {| pe_Path := #"/home/a"; pe_Permission := 3256 |};
                                 {| pe_Path := #"/b"; pe_Permission := 3256 |};
                                 {| pe_Path := #"/home/b"; pe_Permission := 0 |} ] |}
  else inl (EMessage #"role not found").

#[export] Instance fenv : FtpEnv := {| DetectContentType := λ s, if bool_decide ("000"%char ∈ s) then #"application/octet-stream" else #"text/plain" |}.

#[export] Existing Instances FsExample.no_regexp FsExample.metas FsExample.env.

Definition bob : User := FsExample.bob.

Definition run (r : ftp_request) : list fs_event * finish (reject + unit) :=
  run_with (λ _ c, FsExample.answer c) [] (ftp_serve bob [] r).

Definition calls (r : ftp_request) : list fs_action := map (@projT1 _ _) (run r).1.

(** As before, but nothing can be moved. *)
Definition no_move (c : fs_action) : fs_answer c :=
  match c return fs_answer c with CMove _ _ _ => inl (EMessage #"failed") | c' => FsExample.answer c' end.

Definition store (name : gostr) (pieces : list gostr) : ftp_request :=
  FTransfer name (O_WRONLY + O_CREATE + O_TRUNC) 0 0 pieces.

(** The guest is named visitor; another account is named guest. *)
Definition visitor : User :=
  {| user_ID := 2; Username := #"visitor"; PwdHash := []; PwdTS := 0; Salt := []; Password := []; BasePath := #"/";
     user_Role := [6]; Disabled := false; Permission := 0; OtpSecret := []; SsoID := []; Authn := [] |}.
Definition named_guest : User :=
  {| user_ID := 9; Username := #"guest"; PwdHash := #"x"; PwdTS := 0; Salt := []; Password := []; BasePath := #"/";
     user_Role := [5]; Disabled := true; Permission := 0; OtpSecret := []; SsoID := []; Authn := [] |}.
Definition roles : RoleStore := λ id,
  inr {| role_ID := id; role_Name := []; role_Description := []; role_Default := false;
         PermissionScopes := [ {| pe_Path := #"/"; pe_Permission := 1024 |} ] |}.
Definition users (guest : User) : FtpUsers :=
  {| op_GetGuest := inr visitor;
     op_GetUser := λ n, if bool_decide (n = #"guest") then inr guest else inl (EMessage #"record not found");
     op_Keys := λ _, inr []; ParseAuthorizedKey := λ _, None |}.
End FtpExample.
Import FtpExample.

Lemma ftp_session_authorised_witness :
  let r := FRename #"/a/x" #"/a/old/z" in
  let tr := (run r).1 in
  calls r = [CMove #"/home/a/x" #"/home/a/old/" false; CRename #"/home/a/old/x" #"z"] ∧
  ∀ e, e ∈ tr → (ftp_proper r → ∀ p, p ∈ touches (projT1 e) → IsSubPath (BasePath bob) p = true) ∧ ftp_permitted bob [] r (projT1 e).
Proof.
  split; [vm_compute; reflexivity|]. intros e He.
  destruct (run_with_runs (λ _ c, FsExample.answer c) (ftp_serve bob [] (FRename #"/a/x" #"/a/old/z")) []) as (tr & E & Hrun).
  apply (ftp_session_authorised bob [] (FRename #"/a/x" #"/a/old/z") tr _ Hrun). simpl in E. by rewrite <- E.
Defined.

Lemma ftp_upload_exact_witness :
  let u := {| up_buffer := fold_left (λ f p, tf_write p f) [ #"ab"; #"c"] new_tmp; up_path := #"/home/a/t"; up_trunc := true |} in
  tf_data (up_buffer u) = #"abc" ∧
  ∃ t r, (run_with (λ _ c, FsExample.answer c) [] (up_Close u)).1 =
    t ++ [ev (CPutAsTask #"/home/a/" (ftp_stream #"/home/a/t" 3 (head_buffer #"abc") true)) r] ∧
    map (@projT1 _ _) t = [CRemove #"/home/a/t"].
Proof.
  intros u. destruct (run_with_runs (λ _ c, FsExample.answer c) (up_Close u) []) as (tr & E & Hrun).
  destruct (proj1 (ftp_upload_exact #"/home/a/t") true [ #"ab"; #"c"] tr _ Hrun) as (Hd & _ & H).
  split; [exact Hd|]. destruct H as (t & r & Et & Ht & _); [discriminate|].
  exists t, r. split; [|exact Ht]. rewrite E. exact Et.
Defined.

Lemma ftp_login_authentic_witness :
  let _ := roles in let _ := users visitor in
  ∃ s, sftp_open #"guest" LoginNone = inr s ∧ may_ftp (ss_user s) ∧ op_GetGuest = inr (ss_user s).
Proof.
  eexists. split; [vm_compute; reflexivity|].
  destruct (proj2 (@ftp_login_authentic roles (users visitor)) eq_refl #"guest" LoginNone
    {| ss_user := visitor; ss_meta_pass := [] |} ltac:(vm_compute; reflexivity)) as (H & _). split; [exact H|reflexivity].
Defined.

(** Where the servers do not keep what they promise.  [Remove] asks for the
    permission at the path as it was sent: in [/home/b], which may only be read,
    a file is removed because there is a scope [/b].  A new name that is the root
    of the session moves a file out of it.  A move that fails is done as a copy
    without the permission for that, and the source stays.  The file to be
    written is looked up before the access to it is checked.  An empty file
    cannot be uploaded, and a short text is taken for binary data.  The account
    named guest is opened without a password, even when it is disabled, if the
    guest has another name; and a single passive port is not checked. *)
Theorem ftp_checks_bypassed :
  calls (FRemove #"/b/x") = [CRemove #"/home/b/x"] ∧
  HasPermission (MergeRolePermissions (Some bob) #"/home/b/x") PermRemove = false ∧
  calls (FRename #"/a/x" #"/") = [CMove #"/home/a/x" #"/" false; CRename #"/x" #"home"] ∧
  (let fails := run_with (λ _ c, no_move c) []
     (ftp_serve bob [] (FRename #"/a/x" #"/a/old/x")) in
   map (@projT1 _ _) fails.1 = [CMove #"/home/a/x" #"/home/a/old/" false; CCopy #"/home/a/x" #"/home/a/old/" false false] ∧
   HasPermission (MergeRolePermissions (Some bob) #"/home/a/x") PermCopy = false ∧ fails.2 = Returned (inr ())) ∧
  calls (FTransfer #"/private/key" O_RDONLY 0 0 []) = [CGet #"/home/private/key"] ∧
  (run (store #"/a/empty" [[]])).2 = Returned (inl {| rj_code := 0; rj_cause := CauseErr eof |}) ∧
  (∃ f, last (calls (store #"/a/t.txt" [ #"hello"])) = Some (CPutAsTask #"/home/a/" f) ∧ fst_Mimetype f = #"application/octet-stream") ∧
  (∃ s, @sftp_open roles (users named_guest) #"guest" LoginNone = inr s ∧ Disabled (ss_user s) = true) ∧
  newPortMapper #"99999" = inr (Some [ {| ExposedStart := 99999; ListenedStart := 99999; Length := 1 |} ]).
Proof.
  split_ands; try (vm_compute; reflexivity).
  - vm_compute. by repeat split.
  - eexists. split; [vm_compute; reflexivity|]. vm_compute. reflexivity.
  - eexists. split; [vm_compute; reflexivity|]. vm_compute. reflexivity.
Qed.
