(* ===== verification/Search.v ===== *)
(** * Searching: [server/handles/search.go]

    The index answers page after page with nodes of the whole tree; the
    handler keeps those that the user may see until its own page is full. *)

From S2P Require Import Prelude GoStrings Errs Store Paths HttpRange Crypto Users Perm Prog Sign Shares ShareHandlers FsHandlers FsHandlersSpec FsHandlersThms.

Local Open Scope Z_scope.

Record SearchNode := { sn_Parent : gostr; sn_Name : gostr; sn_IsDir : bool; sn_Size : Z }.

Record SearchReq := {
  sq_Parent : gostr;
  sq_Keywords : gostr;
  sq_Scope : Z;
  sq_Page : Z;
  sq_PerPage : Z;
}.

Definition SearchReq_Validate (r : SearchReq) : option error :=
  if sq_Page r <? 1 then Some (EMessage #"page can't < 1")
  else if sq_PerPage r <? 1 then Some (EMessage #"per_page can't < 1")
  else None.

Definition set_Parent (p : gostr) (r : SearchReq) : SearchReq :=
  {| sq_Parent := p; sq_Keywords := sq_Keywords r; sq_Scope := sq_Scope r; sq_Page := sq_Page r; sq_PerPage := sq_PerPage r |}.
Definition next_page (r : SearchReq) : SearchReq :=
  {| sq_Parent := sq_Parent r; sq_Keywords := sq_Keywords r; sq_Scope := sq_Scope r; sq_Page := wrap64 (sq_Page r + 1); sq_PerPage := sq_PerPage r |}.

(** [search.Search] *)
Inductive search_action := SSearch (r : SearchReq).
Definition search_answer (c : search_action) : Type := result (list SearchNode * Z).
Abbreviation search_prog := (prog search_answer).

Section search.
Context {RS : RoleStore} {RL : RegexpLib} {MS : MetaStore}.
Context (user : User) (password : gostr).

(** A node of the index that the user is shown. *)
Definition visible (n : SearchNode) : outcome bool :=
  if negb (HasPrefix (sn_Parent n) (BasePath user)) then Ret false
  else
    let access meta := CanAccessWithRoles (Some user) meta (path_join (sn_Parent n) (sn_Name n)) password in
    match GetNearestMeta (sn_Parent n) with
    | inr m => access (Some m)
    | inl e => if errors_Is (Cause e) MetaNotFound then access None else Ret false
    end.

(** The nodes of one page, until [room] are kept. *)
Fixpoint keep_visible (room : nat) (nodes : list SearchNode) : outcome (list SearchNode) :=
  match room, nodes with
  | O, _ | _, [] => Ret []
  | S room', n :: nodes' =>
      match visible n with
      | Panic => Panic
      | Ret false => keep_visible room nodes'
      | Ret true => match keep_visible room' nodes' with Ret l => Ret (n :: l) | Panic => Panic end
      end
  end.

Fixpoint search_loop (fuel : nat) (req : SearchReq) (kept : list SearchNode) : search_prog (reject + list SearchNode) :=
  if Z.of_nat (length kept) <? sq_PerPage req then
    match fuel with
    | O => PFuel
    | S fuel' =>
        prog_bind (pcall (SSearch req)) (λ r,
          match r with
          | inl e => PRet (inl {| rj_code := 500; rj_cause := CauseErr e |})
          | inr ([], _) => PRet (inr kept)
          | inr (nodes, _) =>
              prog_bind (prog_outcome (keep_visible (Z.to_nat (sq_PerPage req) - length kept) nodes)) (λ l,
                search_loop fuel' (next_page req) (kept ++ l))
          end)
    end
  else PRet (inr kept).

Definition handle_Search (fuel : nat) (req : SearchReq) : search_prog (reject + list SearchNode) :=
  match JoinPath (Some GetRole) user (sq_Parent req) with
  | inl e => PRet (inl {| rj_code := 400; rj_cause := CauseErr e |})
  | inr p =>
      let req := set_Parent p req in
      match SearchReq_Validate req with
      | Some e => PRet (inl {| rj_code := 400; rj_cause := CauseErr e |})
      | None => search_loop fuel req []
      end
  end.

(** ** The nodes of the answer *)

(** May the user see the node? *)
Definition shown (n : SearchNode) : Prop := visible n = Ret true.

#[export] Instance shown_dec n : Decision (shown n).
Proof. unfold shown. destruct (visible n) as [[]|]; [by left|by right..]. Defined.

Lemma keep_visible_spec room nodes l : keep_visible room nodes = Ret l → l = take room (filter shown nodes).
Proof.
  revert room l. induction nodes as [|n nodes IH]; intros room l.
  - destruct room; simpl; by intros [= <-].
  - destruct room as [|room]; [by intros [= <-]|]. cbn [keep_visible]. rewrite filter_cons.
    destruct (visible n) as [[]|] eqn:E; [..|done]; cbv iota beta.
    + rewrite decide_True by done. destruct (keep_visible room nodes) as [l'|] eqn:E'; [|done]. intros [= <-]. simpl. f_equal. by apply IH.
    + rewrite decide_False by (unfold shown; congruence). apply IH.
Qed.

(** The nodes of the pages that were answered. *)
Definition page_nodes (e : event search_answer) : list SearchNode :=
  match projT1 e as c return search_answer c → list SearchNode with
  | SSearch _ => λ r, match r with inr (nodes, _) => nodes | inl _ => [] end
  end (projT2 e).

Definition answered (h : list (event search_answer)) : list SearchNode := concat (map page_nodes h).

Lemma answered_app h k : answered (h ++ k) = answered h ++ answered k.
Proof. unfold answered. by rewrite map_app, concat_app. Qed.

(** The index had nothing more. *)
Definition exhausted (h : list (event search_answer)) : Prop := ∃ r t, last h = Some (ev (SSearch r) (inr ([], t)) : event search_answer).

(** The request the index gets after [i] others: the caller's, for the joined
    path and [i] pages later. *)
Definition nth_request (p : gostr) (req : SearchReq) (i : nat) : SearchReq :=
  {| sq_Parent := p; sq_Keywords := sq_Keywords req; sq_Scope := sq_Scope req;
     sq_Page := wrap64 (sq_Page req + Z.of_nat i); sq_PerPage := sq_PerPage req |}.

Lemma nth_request_S p req i : nth_request p req (S i) = next_page (nth_request p req i).
Proof. unfold nth_request, next_page. simpl. f_equal. rewrite wrap64_add_l. f_equal. lia. Qed.

Definition asks (p : gostr) (req : SearchReq) (h : list (event search_answer)) (c : search_action) : Prop :=
  c = SSearch (nth_request p req (length h)).

Lemma search_loop_spec fuel p req kept h : 0 ≤ sq_PerPage req →
  kept = take (Z.to_nat (sq_PerPage req)) (filter shown (answered h)) →
  wp (λ _ _, True) (asks p req) (search_loop fuel (nth_request p req (length h)) kept) h
    (λ x h', ∀ l, x = Returned (inr l) → l = take (Z.to_nat (sq_PerPage req)) (filter shown (answered h')) ∧
       (Z.of_nat (length l) < sq_PerPage req → exhausted h')).
Proof.
  revert kept h. induction fuel as [|fuel IH]; intros kept h Hpos Hk; cbn [search_loop nth_request sq_PerPage];
    destruct (Z.ltb_spec (Z.of_nat (length kept)) (sq_PerPage req)) as [Hlt|Hge]; try (simpl; intros l [= <-]; split; [done|lia]); try (simpl; by intros l).
  split; [done|]. intros r _. simpl. destruct r as [e|[nodes total]]; [simpl; by intros l|].
  set (h' := h ++ [ev (SSearch _) _]).
  assert (Ha : answered h' = answered h ++ nodes) by (unfold h'; rewrite answered_app; unfold answered at 2; simpl; by rewrite app_nil_r).
  assert (Hlen : length h' = S (length h)) by (unfold h'; rewrite length_app; simpl; lia).
  destruct nodes as [|n nodes].
  - intros l [= <-]. split; [by rewrite Ha, app_nil_r|]. intros _. eexists _, total. unfold h'. by rewrite last_snoc.
  - destruct (keep_visible _ (n :: nodes)) as [l|] eqn:E; [|simpl; by intros l]. cbn [prog_outcome prog_bind].
    replace (next_page _) with (nth_request p req (length h')) by (by rewrite Hlen, nth_request_S).
    apply IH; [done|]. apply keep_visible_spec in E. subst l. rewrite Ha, filter_app, take_app, <- Hk. f_equal. f_equal.
    rewrite Hk, length_take in Hlt |- *. lia.
Qed.

(** *** An index that pages a list *)

(** The page a request asks for, of all the nodes there are for it. *)
Definition page_nodes_of (all : list SearchNode) (r : SearchReq) : list SearchNode :=
  take (Z.to_nat (sq_PerPage r)) (drop (Z.to_nat ((sq_Page r - 1) * sq_PerPage r)) all).

Definition pages_list (all : list SearchNode) (e : event search_answer) : Prop :=
  match projT1 e as c return search_answer c → Prop with
  | SSearch r => λ a, ∃ total, a = inr (page_nodes_of all r, total)
  end (projT2 e).

(** The nodes from the page asked for on. *)
Abbreviation from_page all req := (drop (Z.to_nat ((sq_Page req - 1) * sq_PerPage req)) all).

Definition asked_in_turn (p : gostr) (req : SearchReq) (tr : list (event search_answer)) : Prop :=
  ∀ t1 e t2, tr = t1 ++ e :: t2 → asks p req t1 (projT1 e).

Lemma asked_prefix p req tr e : asked_in_turn p req (tr ++ [e]) → asked_in_turn p req tr.
Proof. intros H t1 e' t2 ->. apply (H t1 e' (t2 ++ [e])). by rewrite <- app_assoc. Qed.

(** Consecutive pages are consecutive nodes. *)
Lemma answered_pages p req all tr :
  1 ≤ sq_Page req → 1 ≤ sq_PerPage req → sq_Page req + Z.of_nat (length tr) ≤ max_int64 →
  asked_in_turn p req tr → Forall (pages_list all) tr →
  answered tr = take (length tr * Z.to_nat (sq_PerPage req)) (from_page all req).
Proof.
  intros Hp Hper. induction tr as [|e tr IH] using rev_ind; intros Hlen Hask Hall; [done|].
  rewrite length_app in Hlen. simpl in Hlen. apply Forall_app in Hall as [Hall He]. apply Forall_inv in He.
  rewrite answered_app, IH; [|lia|by eapply asked_prefix|done].
  specialize (Hask tr e [] eq_refl). destruct e as [[r] a]. unfold asks in Hask. simpl in Hask. injection Hask as ->.
  destruct He as [total He]. simpl in He. subst a. unfold answered, page_nodes, page_nodes_of. simpl. rewrite app_nil_r.
  rewrite wrap64_id by (unfold_int64; lia). rewrite length_app. simpl.
  replace (Z.to_nat ((sq_Page req + Z.of_nat (length tr) - 1) * sq_PerPage req))
    with (Z.to_nat ((sq_Page req - 1) * sq_PerPage req) + length tr * Z.to_nat (sq_PerPage req))%nat by nia.
  rewrite <- drop_drop, take_take_drop. f_equal. lia.
Qed.

(** Whether the page was filled or the nodes came to an end, none were missed. *)
Lemma take_enough (per k : nat) (D : list SearchNode) :
  (per ≤ length (filter shown (take k D)) ∨ length D ≤ k)%nat →
  take per (filter shown (take k D)) = take per (filter shown D).
Proof.
  intros [H|H]; [|by rewrite (take_ge D)]. rewrite <- (take_drop k D) at 2. rewrite filter_app. by rewrite take_app_le.
Qed.

(** An empty page is behind the last node. *)
Lemma exhausted_all p req all tr r t :
  1 ≤ sq_Page req → 1 ≤ sq_PerPage req → sq_Page req + Z.of_nat (length tr) ≤ max_int64 →
  asked_in_turn p req tr → Forall (pages_list all) tr → last tr = Some (ev (SSearch r) (inr ([], t)) : event search_answer) →
  (length (from_page all req) ≤ length tr * Z.to_nat (sq_PerPage req))%nat.
Proof.
  intros Hp Hper Hlen Hask Hall [tr' ->]%last_Some. apply Forall_app in Hall as [_ He]. apply Forall_inv in He.
  destruct He as [total He]. simpl in He. injection He as He _. specialize (Hask tr' _ [] eq_refl).
  unfold asks in Hask. simpl in Hask. injection Hask as ->. rewrite length_app in Hlen |- *. simpl in *.
  unfold page_nodes_of in He. cbn [nth_request sq_Page sq_PerPage] in He. rewrite wrap64_id in He by (unfold_int64; lia).
  apply (f_equal length) in He. rewrite length_take, length_drop in He. rewrite length_drop. simpl in He. nia.
Qed.

(** What is shown lies below the base path and is readable. *)
Lemma shown_reads n : shown n → HasPrefix (sn_Parent n) (BasePath user) = true ∧
  CanReadPathByRole (Some user) (path_join (sn_Parent n) (sn_Name n)) = true.
Proof.
  unfold shown, visible. destruct (HasPrefix _ _); [|done]. simpl. intros Hs. split; [done|].
  destruct (GetNearestMeta _) as [e|m].
  - destruct (errors_Is _ _); [|done]. by apply CanAccessWithRoles_iff in Hs as [? _].
  - by apply CanAccessWithRoles_iff in Hs as [? _].
Qed.

(** C23. A search answers exactly what the user may see.  The index is asked
    for the pages from the one of the request on, one after the other, each
    with the path of the request joined to the base path, its keywords, scope
    and page size.  The body has, in the order of the index, the first nodes of
    the answers that the user can access with the password, as many as were
    asked for; when it has fewer, the last page was empty.  Each lies below the
    base path as far as the texts show it and is readable by the user's roles.
    So of an index that pages a fixed list of nodes, the body is the first
    accessible nodes from the page asked for on, however they are spread over
    the pages. *)
Theorem search_results_authorised fuel req tr l :
  sq_Page req ≤ max_int64 → runs_to (handle_Search fuel req) tr (Returned (inr l)) →
  (∃ p, JoinPath (Some GetRole) user (sq_Parent req) = inr p ∧ asked_in_turn p req tr) ∧
  l = take (Z.to_nat (sq_PerPage req)) (filter shown (answered tr)) ∧
  (Z.of_nat (length l) < sq_PerPage req → exhausted tr) ∧
  (∀ n, n ∈ l → HasPrefix (sn_Parent n) (BasePath user) = true ∧
     CanReadPathByRole (Some user) (path_join (sn_Parent n) (sn_Name n)) = true) ∧
  (∀ all, Forall (pages_list all) tr → sq_Page req + Z.of_nat (length tr) ≤ max_int64 →
     l = take (Z.to_nat (sq_PerPage req)) (filter shown (from_page all req))).
Proof.
  intros Hmax. unfold handle_Search. destruct (JoinPath _ _ _) as [e|p]; [inversion 1|]. cbv zeta.
  destruct (SearchReq_Validate _) as [e|] eqn:Ev; [inversion 1|]. intros Hrun.
  assert (1 ≤ sq_Page req ∧ 1 ≤ sq_PerPage req) as [Hpage Hper].
  { unfold SearchReq_Validate in Ev. cbn [set_Parent sq_Page sq_PerPage] in Ev.
    destruct (Z.ltb_spec (sq_Page req) 1); [done|]. destruct (Z.ltb_spec (sq_PerPage req) 1); [done|]. lia. }
  assert (E0 : set_Parent p req = nth_request p req 0).
  { unfold set_Parent, nth_request. rewrite Z.add_0_r, wrap64_id by (unfold_int64; lia). done. }
  rewrite E0 in Hrun. eapply (wp_sound (λ _ _, True) (asks p req) _ []) in Hrun as [HQ Hask];
    [|apply (search_loop_spec fuel p req [] []); [lia|symmetry; apply take_nil]|by apply Forall_forall].
  destruct (HQ l eq_refl) as [Hl He]. rewrite app_nil_l in Hl, He.
  split; [exists p; split; [done|]; exact Hask|]. split_ands; [done..| |].
  - intros n Hn. rewrite Hl in Hn. apply elem_of_take in Hn as (i & Hn & _). apply list_elem_of_lookup_2, list_elem_of_filter in Hn as [Hs _].
    by apply shown_reads.
  - intros all Hall Hlen. rewrite Hl, (answered_pages p req all) by done. apply take_enough.
    destruct (decide (Z.of_nat (length l) < sq_PerPage req)) as [Hlt|Hge].
    + right. destruct (He Hlt) as (r & t & Hlast). by eapply exhausted_all.
    + left. rewrite <- (answered_pages p req all) by done. rewrite Hl, length_take in Hge. lia.
Qed.
End search.
