(* ===== verification/Mcp.v ===== *)
(** * The MCP server: [server/mcp]

    The tools a language model calls for a user.  A tool is a program over the
    calls of package [fs], as a handler of the file API is; a refused or failed
    call is a text for the model, here a [reject] without a code. *)

From S2P Require Import Prelude GoStrings Errs Store Paths HttpRange Crypto Users Perm Prog Sign Shares ShareHandlers FsHandlers FsHandlersSpec FsHandlersThms Search.

Local Open Scope Z_scope.

(** [os.Open] and [file.Stat] of a path on the server: the size. *)
Class McpEnv := {
  SiteURL : gostr;
  local_size : gostr → result Z;
}.

(** ** Results *)

Definition is_cause (e : error) (s : sentinel) : bool :=
  match Cause e with ESentinel s' => bool_decide (s' = s) | _ => false end.

(** Texts that hold the error stay an error here. *)
Definition wrapError (e : error) : cause :=
  if IsObjectNotFound e || IsNotFoundError e then CauseErr e
  else if is_cause e PermissionDenied then CauseStr #"permission denied"
  else if is_cause e NotImplement then CauseStr #"not supported by storage driver"
  else if is_cause e NotSupport then CauseStr #"operation not supported"
  else if is_cause e UploadNotSupported then CauseStr #"upload not supported by storage"
  else if is_cause e MoveBetweenTwoStorages then CauseStr #"can't move between two storages, use copy instead"
  else CauseErr e.

Definition tool_fail {A} (c : cause) : handler A := PRet (inl {| rj_code := 0; rj_cause := c |}).
Definition toolError {A} (s : gostr) : handler A := tool_fail (CauseStr s).
Definition wrapped {A} (r : result A) : handler A := match r with inr a => h_ok a | inl e => tool_fail (wrapError e) end.

(** [objs[start:end]] *)
Definition slice {A} (l : list A) (start end_ : Z) : outcome (list A) :=
  if (0 <=? start) && (start <=? end_) && (end_ <=? Z.of_nat (length l))
  then Ret (take (Z.to_nat (end_ - start)) (drop (Z.to_nat start) l))
  else Panic.

Section tools.
Context {RS : RoleStore} {RL : RegexpLib} {MS : MetaStore} {HE : HandlerEnv} {ME : McpEnv}.
Context (user : User).

Definition mcp_JoinPath (p : gostr) : handler gostr := wrapped (JoinPath (Some GetRole) user p).

(** The checks of [auth.go], which answer with a text. *)
Definition mcp_check (o : outcome (option error)) : handler unit :=
  let@ e := h_outcome o in
  match e with Some e => tool_fail (CauseErr e) | None => h_ok () end.

(** The meta of [buildFsContext]: none when it cannot be loaded. *)
Definition context_meta (p : gostr) : option Meta :=
  match GetNearestMeta p with inr m => Some m | inl _ => None end.

(** *** [tools_read.go] *)

Definition handleFsList (path : gostr) (page perPage : Z) (refresh : bool) : handler (list FObj * Z) :=
  let perPage := if 500 <? perPage then 500 else perPage in
  let@ reqPath := mcp_JoinPath path in
  let@ _ := mcp_check (checkAccess user reqPath) in
  let@ r := h_call (CList reqPath refresh (context_meta reqPath)) in
  let@ objs := wrapped r in
  let total := Z.of_nat (length objs) in
  let start := wrap64 (wrap64 (page - 1) * perPage) in
  let start := if total <? start then total else start in
  let end_ := wrap64 (start + perPage) in
  let end_ := if total <? end_ then total else end_ in
  let@ pageObjs := h_outcome (slice objs start end_) in
  h_ok (pageObjs, total).

Definition handleFsGet (path : gostr) : handler FObj :=
  let@ reqPath := mcp_JoinPath path in
  let@ _ := mcp_check (checkAccess user reqPath) in
  let@ r := h_call (CGet reqPath) in
  wrapped r.

Definition handleFsDownloadURL (path : gostr) : handler gostr :=
  let@ reqPath := mcp_JoinPath path in
  let@ _ := mcp_check (checkAccess user reqPath) in
  let@ r := h_call (CLink reqPath) in
  wrapped r.

(** *** [tools_manage.go] *)

Definition handleFsMkdir (path : gostr) : handler unit :=
  let@ reqPath := mcp_JoinPath path in
  let@ _ := mcp_check (checkManage user reqPath PermWrite) in
  let@ r := h_call (CMakeDir reqPath) in
  wrapped r.

Definition handleFsRename (path name : gostr) : handler unit :=
  match ValidateNameComponent name with
  | Some e => tool_fail (CauseErr e)
  | None =>
      let@ reqPath := mcp_JoinPath path in
      let@ _ := mcp_check (checkManage user reqPath PermRename) in
      let@ r := h_call (CRename reqPath name) in
      wrapped r
  end.

Definition no_names {A} : handler A := toolError #"names is required and must not be empty".

(** A name that is refused ends the tool, after the names before it. *)
Definition under (dir name : gostr) : handler gostr :=
  match JoinUnderBase dir name with inr p => h_ok p | inl e => tool_fail (CauseErr e) end.

Definition handleFsMove (srcDir dstDir : gostr) (names : list gostr) : handler unit :=
  if bool_decide (names = []) then no_names
  else
    let@ srcDir := mcp_JoinPath srcDir in
    let@ dstDir := mcp_JoinPath dstDir in
    let@ _ := mcp_check (checkManage user srcDir PermMove) in
    h_each_more (λ name more,
      let@ srcPath := under srcDir name in
      let@ r := h_call (CMove srcPath dstDir more) in
      wrapped r) names.

Definition handleFsCopy (srcDir dstDir : gostr) (names : list gostr) : handler unit :=
  if bool_decide (names = []) then no_names
  else
    let@ srcDir := mcp_JoinPath srcDir in
    let@ dstDir := mcp_JoinPath dstDir in
    let@ _ := mcp_check (checkManage user srcDir PermCopy) in
    h_each_more (λ name more,
      let@ srcPath := under srcDir name in
      let@ (_, e) := h_call (CCopy srcPath dstDir more false) in
      match e with Some e => tool_fail (wrapError e) | None => h_ok () end) names.

Definition handleFsRemove (dir : gostr) (names : list gostr) : handler unit :=
  if bool_decide (names = []) then no_names
  else
    let@ reqDir := mcp_JoinPath dir in
    let@ _ := mcp_check (checkManage user reqDir PermRemove) in
    h_each (λ name,
      let@ removePath := under reqDir name in
      let@ r := h_call (CRemove removePath) in
      wrapped r) names.

(** *** [tools_upload.go] *)

(** With an address of the site the tool sends a request to the API with the
    token of the administrator; the body is that request. *)
Inductive upload := Stored | SentToAPI (path : gostr) (size : Z).

Definition opened_local (localPath : gostr) : handler Z :=
  match local_size localPath with inr size => h_ok size | inl e => tool_fail (CauseErr e) end.

Definition uploadDirectly (reqPath localPath : gostr) : handler upload :=
  let@ size := opened_local localPath in
  let@ r := h_call (CPutDirectly (path_Dir reqPath)
    {| fst_Name := path_Base reqPath; fst_Size := size; fst_Modified := Now; fst_Hashes := []; fst_Mimetype := [];
       fst_AsTask := false |}) in
  let@ _ := wrapped r in
  h_ok Stored.

Definition uploadViaHTTP (reqPath localPath : gostr) : handler upload :=
  let@ size := opened_local localPath in
  h_ok (SentToAPI reqPath size).

Definition handleFsUpload (path localPath : gostr) : handler upload :=
  let@ reqPath := mcp_JoinPath path in
  let@ _ := mcp_check (checkManage user (path_Dir reqPath) PermWrite) in
  if Contains SiteURL #"://" then uploadViaHTTP reqPath localPath else uploadDirectly reqPath localPath.

(** *** The search, over the calls of the index *)

Definition handleFsSearch (req : SearchReq) : search_prog (reject + list SearchNode * Z) :=
  match JoinPath (Some GetRole) user (sq_Parent req) with
  | inl e => PRet (inl {| rj_code := 0; rj_cause := wrapError e |})
  | inr p =>
      let req := set_Parent p req in
      match SearchReq_Validate req with
      | Some e => PRet (inl {| rj_code := 0; rj_cause := CauseErr e |})
      | None =>
          prog_bind (pcall (SSearch req)) (λ r,
            match r with
            | inl e => PRet (inl {| rj_code := 0; rj_cause := wrapError e |})
            | inr (nodes, total) =>
                prog_bind (prog_outcome (keep_visible user [] (length nodes) nodes)) (λ l, PRet (inr (l, total)))
            end)
      end
  end.

(** *** Calls of tools *)

Inductive mcp_request :=
  | MList (path : gostr) (page perPage : Z) (refresh : bool)
  | MGet (path : gostr)
  | MDownloadURL (path : gostr)
  | MMkdir (path : gostr)
  | MRename (path name : gostr)
  | MMove (srcDir dstDir : gostr) (names : list gostr)
  | MCopy (srcDir dstDir : gostr) (names : list gostr)
  | MRemove (dir : gostr) (names : list gostr)
  | MUpload (path localPath : gostr).

Definition mcp_serve (r : mcp_request) : handler (option upload) :=
  let void {A} (m : handler A) : handler (option upload) := let@ _ := m in h_ok None in
  match r with
  | MList p page perPage refresh => void (handleFsList p page perPage refresh)
  | MGet p => void (handleFsGet p)
  | MDownloadURL p => void (handleFsDownloadURL p)
  | MMkdir p => void (handleFsMkdir p)
  | MRename p n => void (handleFsRename p n)
  | MMove s d l => void (handleFsMove s d l)
  | MCopy s d l => void (handleFsCopy s d l)
  | MRemove d l => void (handleFsRemove d l)
  | MUpload p lp => let@ u := handleFsUpload p lp in h_ok (Some u)
  end.
End tools.
