(* ===== verification/McpThms.v ===== *)
(** * The MCP server: every call of a tool is confined and permitted *)

From S2P Require Import Prelude GoStrings Errs Store Paths HttpRange Crypto Users Perm Prog Sign Shares ShareHandlers FsHandlers FsHandlersSpec FsHandlersThms FsHandlersExamples Search Mcp.

Local Open Scope Z_scope.

Section spec.
Context {RS : RoleStore} {RL : RegexpLib} {MS : MetaStore} {HE : HandlerEnv} {ME : McpEnv}.
Context (user : User).

(** The user can read the path and is an administrator or has the permissions
    there. *)
Definition mcp_may (bits : list Z) (p : gostr) : Prop :=
  CanReadPathByRole (Some user) p = true ∧
  (IsAdmin user = true ∨ Forall (λ b, HasPermission (MergeRolePermissions (Some user) p) b = true) bits).

Definition mcp_manages (bit : Z) : gostr → Prop := mcp_may [PermMCPAccess; PermMCPManage; bit].

(** An object of a directory that the user manages. *)
Definition manages_parent (bit : Z) (p : gostr) : Prop := ∃ d n, mcp_manages bit d ∧ JoinUnderBase d n = inr p.

Definition mcp_permitted (c : fs_action) : Prop :=
  match c with
  | CList p _ _ | CGet p | CLink p => mcp_may [PermMCPAccess] p
  | CMakeDir p => mcp_manages PermWrite p
  | CRename p name => mcp_manages PermRename p ∧ ValidateNameComponent name = None
  | CMove src _ _ => manages_parent PermMove src
  | CCopy src _ _ _ => manages_parent PermCopy src
  | CRemove p => manages_parent PermRemove p
  | CPutDirectly dir _ => mcp_manages PermWrite dir
  | _ => False
  end.

(** The base path itself is not renamed inside it. *)
Definition mcp_proper (r : mcp_request) : Prop := match r with MRename p _ => path_segs p ≠ [] | _ => True end.

Definition mcp_allowed (r : mcp_request) (h : list fs_event) (c : fs_action) : Prop :=
  (mcp_proper r → confined user c) ∧ mcp_permitted c.

Abbreviation mwp r m h Q := (hwp (λ _ _, True) (mcp_allowed r) m h Q).

(** ** The steps *)

Lemma mwp_wrapped {A} r (x : result A) h (Q : A → list fs_event → Prop) : (∀ a, x = inr a → Q a h) → mwp r (wrapped x) h Q.
Proof. destruct x; intros H; [apply hwp_reject|apply hwp_ok; auto]. Qed.

Lemma mwp_join r p h (Q : gostr → list fs_event → Prop) :
  (∀ q, JoinPath (Some GetRole) user p = inr q → Q q h) → mwp r (mcp_JoinPath user p) h Q.
Proof. apply mwp_wrapped. Qed.

Lemma mwp_check r o h (Q : unit → list fs_event → Prop) : (o = Ret None → Q () h) → mwp r (mcp_check o) h Q.
Proof. intros H. unfold mcp_check. hstep. apply hwp_outcome. intros [e|] ->; [apply hwp_reject|by apply hwp_ok, H]. Qed.

Lemma mwp_under r d n h (Q : gostr → list fs_event → Prop) : (∀ p, JoinUnderBase d n = inr p → Q p h) → mwp r (under d n) h Q.
Proof. intros H. unfold under. destruct (JoinUnderBase d n); [apply hwp_reject|by apply hwp_ok, H]. Qed.

Ltac mstep :=
  lazymatch goal with
  | |- hwp _ _ (mcp_JoinPath _ _) _ _ => apply mwp_join; intros ? ?
  | |- hwp _ _ (mcp_check _) _ _ => apply mwp_check; intros ?
  | |- hwp _ _ (under _ _) _ _ => apply mwp_under; intros ? ?
  | |- hwp _ _ (wrapped _) _ _ => apply mwp_wrapped; intros ? ?
  | |- hwp _ _ (tool_fail _) _ _ => apply hwp_reject
  | |- hwp _ _ (no_names) _ _ => apply hwp_reject
  | |- _ => hstep
  end.

Lemma checkAccess_may p : checkAccess user p = Ret None → mcp_may [PermMCPAccess] p.
Proof. intros [H1 H2]%checkAccess_ok. split; [done|]. destruct H2; [by left|right]. by constructor. Qed.

Lemma checkManage_may p bit : checkManage user p bit = Ret None → mcp_manages bit p.
Proof.
  unfold checkManage. destruct (checkAccess user p) as [[|]|] eqn:E; [done| |done]. apply checkAccess_may in E as [H1 H2]. intros H.
  split; [done|]. destruct (IsAdmin user) eqn:Ea; [by left|]. right. destruct H2 as [?|H2]; [done|]. cbn [negb andb] in H.
  destruct (HasPermission _ PermMCPManage) eqn:Em; [|done]. destruct (HasPermission _ bit) eqn:Eb; [|done].
  apply Forall_cons in H2 as [H2 _]. by repeat constructor.
Qed.

Lemma read_ok r q p h c : JoinPath (Some GetRole) user p = inr q → checkAccess user q = Ret None →
  touches c = [q] → match c with CList _ _ _ | CGet _ | CLink _ => True | _ => False end → mcp_allowed r h c.
Proof.
  intros Hq Hc Ht Hk. pose proof (joined user _ _ Hq) as (Hw & _). split; [intros _; by apply (confined_1 user q)|].
  destruct c; try done; simpl in Ht; injection Ht as ->; by apply checkAccess_may.
Qed.

Lemma mcp_spec_List p page perPage refresh h :
  mwp (MList p page perPage refresh) (handleFsList user p page perPage refresh) h (λ _ _, True).
Proof. unfold handleFsList. cbv zeta. do 5 mstep. mstep; [by eapply read_ok|]. do 4 mstep. by apply hwp_ok. Qed.

Lemma mcp_spec_Get p h : mwp (MGet p) (handleFsGet user p) h (λ _ _, True).
Proof. unfold handleFsGet. do 5 mstep. mstep; [by eapply read_ok|]. by mstep. Qed.

Lemma mcp_spec_DownloadURL p h : mwp (MDownloadURL p) (handleFsDownloadURL user p) h (λ _ _, True).
Proof. unfold handleFsDownloadURL. do 5 mstep. mstep; [by eapply read_ok|]. by mstep. Qed.

Lemma mcp_spec_Mkdir p h : mwp (MMkdir p) (handleFsMkdir user p) h (λ _ _, True).
Proof.
  unfold handleFsMkdir. do 5 mstep. pose proof (joined user _ _ H) as (Hw & _). mstep; [|by mstep].
  split; [intros _; by apply (confined_1 user q)|]. by apply checkManage_may.
Qed.

Lemma mcp_spec_Rename p n h : mwp (MRename p n) (handleFsRename user p n) h (λ _ _, True).
Proof.
  unfold handleFsRename. destruct (ValidateNameComponent n) eqn:Ev; [apply hwp_reject|]. do 5 mstep.
  pose proof (joined user _ _ H) as (Hw & _). mstep; [|by mstep]. split; [|split; [by apply checkManage_may|done]]. intros Hp.
  destruct (parent_within user _ _ H Hp) as (Hd & l & x & _ & Ed & Hl & _). apply (confined_2 user q (path_join (path_Dir q) n)); [done..|].
  apply ValidateNameComponent_good in Ev. unfold within in Hd |- *. rewrite Ed in Hd |- *. rewrite join_child by done.
  rewrite path_segs_render in Hd by done. by apply prefix_app_r.
Qed.

(** An object of a joined directory lies below the base path. *)
Lemma within_under p d n q : JoinPath (Some GetRole) user p = inr d → JoinUnderBase d n = inr q → within user q.
Proof. intros Hd (Hs & _)%under_base. pose proof (joined user _ _ Hd) as (Hw & _). by eapply within_app. Qed.

Lemma mcp_spec_Move s d l h : mwp (MMove s d l) (handleFsMove user s d l) h (λ _ _, True).
Proof.
  unfold handleFsMove. mstep; [mstep|]. do 6 mstep. apply (hwp_each_more _ _ (λ _, True)); [|done]. intros n b h' _ _. do 3 mstep.
  pose proof (joined user _ _ H1) as (Hw & _). mstep; [|by mstep].
  split; [intros _; eapply confined_2; [done|by apply (within_under s q n)|done]|]. exists q, n. split; [by apply checkManage_may|done].
Qed.

Lemma mcp_spec_Copy s d l h : mwp (MCopy s d l) (handleFsCopy user s d l) h (λ _ _, True).
Proof.
  unfold handleFsCopy. mstep; [mstep|]. do 6 mstep. apply (hwp_each_more _ _ (λ _, True)); [|done]. intros n b h' _ _. do 3 mstep.
  pose proof (joined user _ _ H1) as (Hw & _). apply hwp_call; [|intros [? [e|]] _; [apply hwp_reject|by apply hwp_ok]].
  split; [intros _; eapply confined_2; [done|by apply (within_under s q n)|done]|]. exists q, n. split; [by apply checkManage_may|done].
Qed.

Lemma mcp_spec_Remove d l h : mwp (MRemove d l) (handleFsRemove user d l) h (λ _ _, True).
Proof.
  unfold handleFsRemove. mstep; [mstep|]. do 4 mstep. apply (hwp_each _ _ (λ _, True)); [|done]. intros n h' _ _. do 3 mstep.
  mstep; [|by mstep]. split; [intros _; eapply confined_1; [done|by apply (within_under d q n)]|]. exists q, n. split; [by apply checkManage_may|done].
Qed.

Lemma dir_base q : q = render (path_segs q) → path_join (path_Dir q) (path_Base q) = q.
Proof.
  intros Eq. destruct (split_last (path_segs q)) as [E|(l & x & E)]; [by rewrite Eq, E|].
  pose proof (path_segs_good q) as Hg. rewrite E in Hg. apply Forall_app in Hg as [Hl [Hx _]%Forall_cons].
  rewrite Eq, E, path_Dir_render by (by apply good_norm || apply Hx). rewrite path_Base_render by apply Hx.
  apply path_join_name; [by apply good_norm|apply Hx].
Qed.

Lemma mcp_spec_Upload p lp h : mwp (MUpload p lp) (handleFsUpload user p lp) h
  (λ u _, match u with SentToAPI q _ => mcp_manages PermWrite (path_Dir q) | Stored => True end).
Proof.
  unfold handleFsUpload. do 4 mstep. pose proof (joined user _ _ H) as (Hw & Eq & _). apply checkManage_may in H0.
  mstep; [unfold uploadViaHTTP|unfold uploadDirectly]; mstep; unfold opened_local;
    (destruct (local_size lp); [apply hwp_reject|apply hwp_ok]); [by apply hwp_ok|].
  mstep. mstep; [|do 2 mstep; by apply hwp_ok]. split; [|done]. intros _. eapply confined_1; [done|].
  cbn [fst_Name]. by rewrite dir_base.
Qed.

(** The end of a tool that hands the upload over to the API. *)
Definition mcp_end (u : option upload) : Prop :=
  match u with Some (SentToAPI q _) => mcp_manages PermWrite (path_Dir q) | _ => True end.

Lemma mcp_spec_serve r : mwp r (mcp_serve user r) [] (λ u _, mcp_end u).
Proof.
  assert (Hvoid : ∀ A (m : handler A), mwp r m [] (λ _ _, True) → mwp r (let@ _ := m in h_ok None) [] (λ u _, mcp_end u)).
  { intros A m H. apply hwp_bind. eapply hwp_mono; [exact H|]. intros. by apply hwp_ok. }
  destruct r; cbn [mcp_serve].
  - apply Hvoid, mcp_spec_List.
  - apply Hvoid, mcp_spec_Get.
  - apply Hvoid, mcp_spec_DownloadURL.
  - apply Hvoid, mcp_spec_Mkdir.
  - apply Hvoid, mcp_spec_Rename.
  - apply Hvoid, mcp_spec_Move.
  - apply Hvoid, mcp_spec_Copy.
  - apply Hvoid, mcp_spec_Remove.
  - apply hwp_bind. eapply hwp_mono; [apply mcp_spec_Upload|]. intros [|q s] h Hu; by apply hwp_ok.
Qed.

(** C13. A tool of the MCP server stays in the bounds of its user: in every run,
    whatever package [fs] answers, each path that is touched lies at or below
    the base path, unless the request is to rename [/], which gives the base
    path itself another name; what is listed, described or linked can be read
    by the user, who is an administrator or has the permission for MCP there,
    and what is changed is at a path, or in a directory, where the user is an
    administrator or has the permissions to read and to manage over MCP and the
    one for the change. *)
Theorem mcp_tools_authorised r tr x : runs_to (mcp_serve user r) tr x →
  (∀ u, x = Returned (inr u) → mcp_end u) ∧
  ∀ e, e ∈ tr →
    (mcp_proper r → ∀ p, p ∈ touches (projT1 e) → IsSubPath (BasePath user) p = true) ∧ mcp_permitted (projT1 e).
Proof.
  intros Hrun. eapply wp_sound in Hrun as [HQ Hok]; [|apply (mcp_spec_serve r)|by apply Forall_forall].
  split; [done|]. intros e He. apply list_elem_of_split in He as (t1 & t2 & ->).
  destruct (Hok t1 e t2 eq_refl) as [Hc Hp]. split; [|done]. intros Hpr p Hin. apply IsSubPath_segs.
  specialize (Hc Hpr). unfold confined in Hc. rewrite Forall_forall in Hc. by apply Hc.
Qed.
End spec.

(** ** MCP tools and searches: runs on which the theorems are used, and where
      the checks fall short *)

(** A page of a listing, for numbers that make sense. *)
Lemma slice_page {A} (l : list A) page perPage : 1 ≤ page → 1 ≤ perPage ≤ 500 → page * perPage ≤ max_int64 →
  Z.of_nat (length l) ≤ max_int64 - 500 →
  let total := Z.of_nat (length l) in
  let start := wrap64 (wrap64 (page - 1) * perPage) in
  let start := if total <? start then total else start in
  let end_ := wrap64 (start + perPage) in
  let end_ := if total <? end_ then total else end_ in
  slice l start end_ = Ret (take (Z.to_nat perPage) (drop (Z.to_nat ((page - 1) * perPage)) l)).
Proof.
  intros Hp Hpp Hm Hl. cbv zeta. unfold max_int64 in *. rewrite (wrap64_id (page - 1)) by (unfold_int64; nia).
  rewrite (wrap64_id ((page - 1) * perPage)) by (unfold_int64; nia).
  destruct (Z.ltb_spec (Z.of_nat (length l)) ((page - 1) * perPage)) as [H|H].
  - rewrite wrap64_id by (unfold_int64; lia). rewrite (proj2 (Z.ltb_lt _ _)) by lia. unfold slice.
    rewrite !(proj2 (Z.leb_le _ _)) by lia. cbn [andb]. rewrite Z.sub_diag, (drop_ge l (Z.to_nat ((page - 1) * perPage))) by lia. by rewrite take_nil.
  - rewrite wrap64_id by (unfold_int64; nia). unfold slice. destruct (Z.ltb_spec (Z.of_nat (length l)) ((page - 1) * perPage + perPage)).
    + rewrite !(proj2 (Z.leb_le _ _)) by nia. cbn [andb]. f_equal. rewrite !take_ge; [done|rewrite length_drop; nia..].
    + rewrite !(proj2 (Z.leb_le _ _)) by nia. cbn [andb]. do 2 f_equal. f_equal. lia.
Qed.

Module McpExample.
(** [/home/a] is managed over MCP, [/home/b] is read; the second role is for a
    user without a base path of one's own. *)
#[export] Instance role : RoleStore := λ id,
  if id =? 5 then
    inr {| role_ID := 5; role_Name := #"home"; role_Description := []; role_Default := false;
           PermissionScopes := [ {| pe_Path := #"/home/a"; pe_Permission := 98552 |};
                                 {| pe_Path := #"/home/b"; pe_Permission := 32768 |};
                                 {| pe_Path := #"/homework"; pe_Permission := 0 |} ] |}
  else inl (EMessage #"role not found").
#[export] Existing Instances FsExample.no_regexp FsExample.metas FsExample.env.

#[export] Instance menv : McpEnv := {| SiteURL := []; local_size := λ _, inr 1024 |}.

Definition bob : User := FsExample.bob.

Definition run (r : mcp_request) := run_with (λ _ c, FsExample.answer c) [] (mcp_serve bob r).
Definition calls (r : mcp_request) : list fs_action := map (@projT1 _ _) (run r).1.

Definition node (parent name : gostr) : SearchNode := {| sn_Parent := parent; sn_Name := name; sn_IsDir := false; sn_Size := 0 |}.

Definition nodes : list SearchNode :=
  [node #"/other" #"n"; node #"/home/a" #"x"; node #"/home/a" #"y"; node #"/home/b" #"z"].
Definition index (r : SearchReq) : result (list SearchNode * Z) := inr (page_nodes_of nodes r, 4).
Definition index_answer (c : search_action) : search_answer c := match c with SSearch r => index r end.

Definition request (page : Z) : SearchReq :=
  {| sq_Parent := #"/"; sq_Keywords := #"k"; sq_Scope := 0; sq_Page := page; sq_PerPage := 2 |}.

Definition search (page : Z) := run_with (λ _ c, index_answer c) [] (handle_Search bob [] 5 (request page)).

(** Metas that cannot be loaded. *)
Definition broken : MetaStore := λ _, inl (EMessage #"database is locked").
End McpExample.
Import McpExample.

Lemma mcp_tools_authorised_witness :
  let r := MMove #"/a" #"/b" [ #"x"] in
  calls r = [CMove #"/home/a/x" #"/home/b" false] ∧
  ∀ e, e ∈ (run r).1 →
    (mcp_proper r → ∀ p, p ∈ touches (projT1 e) → IsSubPath (BasePath bob) p = true) ∧ mcp_permitted bob (projT1 e).
Proof.
  split; [vm_compute; reflexivity|].
  destruct (run_with_runs (λ _ c, FsExample.answer c) (mcp_serve bob (MMove #"/a" #"/b" [ #"x"])) []) as (tr & E & Hrun).
  rewrite app_nil_l in E. unfold run. rewrite E. apply (mcp_tools_authorised bob (MMove #"/a" #"/b" [ #"x"]) tr _ Hrun).
Defined.

Lemma search_results_authorised_witness :
  let l := [node #"/home/a" #"x"; node #"/home/a" #"y"] in
  (search 1).2 = Returned (inr l) ∧ map (@projT1 _ _) (search 1).1 = [SSearch (nth_request #"/home" (request 1) 0); SSearch (nth_request #"/home" (request 1) 1)] ∧
  l = take 2 (filter (shown bob []) (drop 0 nodes)).
Proof.
  split; [vm_compute; reflexivity|]. split; [vm_compute; reflexivity|].
  destruct (run_with_runs (λ _ c, index_answer c) (handle_Search bob [] 5 (request 1)) []) as (tr & E & Hrun).
  assert (E2 : (run_with (λ _ c, index_answer c) [] (handle_Search bob [] 5 (request 1))).2 =
    Returned (inr [node #"/home/a" #"x"; node #"/home/a" #"y"])) by (vm_compute; reflexivity).
  rewrite E2 in Hrun.
  assert (Etr : tr = map (λ i, let c := SSearch (nth_request #"/home" (request 1) i) in ev c (index_answer c) : event search_answer) [0; 1]%nat).
  { rewrite app_nil_l in E. rewrite <- E. vm_compute. reflexivity. }
  destruct (search_results_authorised bob [] 5 (request 1) tr _ ltac:(by vm_compute) Hrun) as (_ & _ & _ & _ & H).
  apply (H nodes).
  - rewrite Etr. repeat constructor; by exists 4.
  - rewrite Etr. by vm_compute.
Defined.

(** Where the tools and the search do not keep what they promise.  A file is
    moved into a directory where the user may not write.  An upload reads any
    file of the server.  A page below 1 panics.  When the metas cannot be loaded,
    no password is asked for.  The base path is compared as text in a search, so
    that [/homework] is searched for the base path [/home]; and the nodes of the
    second page of an answer have been in the first. *)
Theorem mcp_search_defects :
  (calls (MMove #"/a" #"/b" [ #"x"]) = [CMove #"/home/a/x" #"/home/b" false] ∧
   HasPermission (MergeRolePermissions (Some bob) #"/home/b") PermWrite = false) ∧
  (∃ f, calls (MUpload #"/a/copy" #"/opt/alist/data/data.db") = [CPutDirectly #"/home/a" f] ∧ fst_Size f = 1024) ∧
  (run (MList #"/a" 0 10 false)).2 = Panicked ∧
  @checkAccess role FsExample.no_regexp broken bob #"/home/b/drop" = Ret None ∧
  visible bob [] (node #"/homework" #"plan.txt") = Ret true ∧
  ((search 1).2 = Returned (inr [node #"/home/a" #"x"; node #"/home/a" #"y"]) ∧
   (search 2).2 = Returned (inr [node #"/home/a" #"y"; node #"/home/b" #"z"])).
Proof.
  split; [vm_compute; by split|]. split; [eexists; split; [vm_compute; reflexivity|reflexivity]|].
  vm_compute. by repeat split.
Qed.
