(* ===== verification/S3.v ===== *)
(** * The S3 server: [server/s3]

    The backend of an S3 library: buckets are directories named in the
    settings, keys are paths below them.  It has no users.  An operation is a
    program over the calls of package [fs] and of the link it has been given;
    the state of the backend is the metadata that clients have sent with their
    objects. *)

From S2P Require Import Prelude GoStrings Errs Store FsOps Paths HttpRange Crypto Users Perm Prog Sign Shares ShareHandlers FsHandlers FsHandlersSpec FsHandlersThms Downloads Search Mcp.

Local Open Scope Z_scope.

(** ** The library *)

Record Bucket := { b_Name : gostr; b_Path : gostr }.

Record Content := { k_Key : gostr; k_LastModified : Z; k_Size : Z }.

Record Prefix := { px_Prefix : gostr; px_HasPrefix : bool; px_Delimiter : gostr; px_HasDelimiter : bool }.

Record ListBucketPage := { pg_Marker : gostr; pg_HasMarker : bool; pg_MaxKeys : Z }.

Abbreviation s3_meta := (gmap gostr (gmap gostr gostr)).

(** The errors of the library, and the others. *)
Inductive s3_error :=
  | BucketNotFound (name : gostr)
  | KeyNotFound (key : gostr)
  | ErrNoSuchKey
  | Failed (e : error).

(** [gofakes3]: a list of objects under construction with its two exported
    slices, and the range of a request for an object of some size. *)
Class Gofakes3 := {
  objectList : Type;
  CommonPrefixes : objectList → list gostr;
  Contents : objectList → list Content;
  NewObjectList : objectList;
  AddPrefix : gostr → objectList → objectList;
  Add : Content → objectList → objectList;
  ObjectRangeRequest : Type;
  request_Range : option ObjectRangeRequest → Z → s3_error + option (Z * Z);
}.

(** A new list is empty, an object is added at the end, and so is a prefix that
    is not there yet. *)
Class Gofakes3Laws `{G : Gofakes3} : Prop := {
  new_prefixes : CommonPrefixes NewObjectList = [];
  new_contents : Contents NewObjectList = [];
  AddPrefix_prefixes p r : p ∉ CommonPrefixes r → CommonPrefixes (AddPrefix p r) = CommonPrefixes r ++ [p];
  AddPrefix_contents p r : Contents (AddPrefix p r) = Contents r;
  Add_prefixes c r : CommonPrefixes (Add c r) = CommonPrefixes r;
  Add_contents c r : Contents (Add c r) = Contents r ++ [c];
}.

(** The settings, and the texts of times. *)
Class S3Env := {
  S3Buckets : gostr;
  S3AccessKeyId : gostr;
  S3SecretAccessKey : gostr;
  unmarshal_buckets : gostr → result (list Bucket);
  FloatStringToTime : gostr → Z;
  TimeToFloatString : Z → gostr;
  Format_time : Z → gostr;
}.

(** A response of [pager]: the list with its exported fields. *)
Record ObjectList `{Gofakes3} := { ol_list : objectList; ol_IsTruncated : bool; ol_NextMarker : gostr }.

(** Where the content of an object is read from. *)
Inductive reader := NoContent | OfFile (start : Z) | OfRange (start length : Z).

Record Object := {
  ob_Name : gostr;
  ob_Metadata : gmap gostr gostr;
  ob_Size : Z;
  ob_Range : option (Z * Z);
  ob_Contents : reader;
}.

(** ** Calls *)

(** Those of package [fs]; a link with its object; the reader made from a link
    ([stream.GetRangeReadCloserFromLink]); the calls on the file or the reader;
    the end of an upload. *)
Inductive s3_action :=
  | XFs (c : fs_action)
  | XLink (path : gostr)
  | XRangeReader (l : link) (size : Z)
  | XSeek (start : Z)
  | XRangeRead (start length : Z)
  | XClose.

Definition s3_answer (c : s3_action) : Type :=
  match c with
  | XFs c => fs_answer c
  | XLink _ => result (link * FObj)
  | XRangeReader _ _ => result unit
  | XSeek _ | XRangeRead _ _ | XClose => option error
  end.

Abbreviation s3_event := (event s3_answer).

Definition s3_prog (A : Type) := prog s3_answer (s3_error + A).

(** An error of the code below, as it is or replaced. *)
Definition or_failed {A} (r : result A) : s3_prog A := match r with inr a => p_ok a | inl e => p_fail (Failed e) end.
Definition or_else {A} (e : s3_error) (r : result A) : s3_prog A := match r with inr a => p_ok a | inl _ => p_fail e end.
Definition no_error (e : option error) : s3_prog unit := match e with None => p_ok () | Some e => p_fail (Failed e) end.

(** [<] on strings *)
Fixpoint str_less (a b : gostr) : bool :=
  match a, b with
  | _, [] => false
  | [], _ :: _ => true
  | c :: a', d :: b' => (byte_val c <? byte_val d) || ((byte_val c =? byte_val d) && str_less a' b')
  end.

Section backend.
Context {MS : MetaStore} {HE : HandlerEnv} {SL : SortLib} {G : Gofakes3} {SE : S3Env}.

(** ** [utils.go] *)

Definition getAndParseBuckets : result (list Bucket) := unmarshal_buckets S3Buckets.

Definition getBucketByName (name : gostr) : s3_error + Bucket :=
  match getAndParseBuckets with
  | inl e => inl (Failed e)
  | inr buckets =>
      match find (λ b, bool_decide (b_Name b = name)) buckets with
      | Some b => inr b
      | None => inl (BucketNotFound name)
      end
  end.

Definition getDirEntries (path : gostr) : s3_prog (list FObj) :=
  try^ r := p_call (XFs (CGet path)) in
  try^ fi := or_else ErrNoSuchKey r in
  if negb (f_IsDir fi) then p_fail ErrNoSuchKey
  else
    try^ r := p_call (XFs (CList path false (context_meta path))) in
    or_failed r.

Definition prefixParser (p : Prefix) : gostr * gostr :=
  let idx := LastIndex (px_Prefix p) #"/" in
  if idx <? 0 then ([], px_Prefix p)
  else (take (Z.to_nat idx) (px_Prefix p), drop (Z.to_nat (idx + 1)) (px_Prefix p)).

(** [nil] stands for no authentication. *)
Definition authlistResolver : option (gmap gostr gostr) :=
  if bool_decide (S3AccessKeyId = []) && bool_decide (S3SecretAccessKey = []) then None
  else Some {[ S3AccessKeyId := S3SecretAccessKey ]}.

(** ** [list.go] *)

(** [fuel] bounds the depth of the directories. *)
Fixpoint entryListR (fuel : nat) (bucket fdPath name : gostr) (addPrefix : bool) (response : objectList) : s3_prog objectList :=
  match fuel with
  | O => PFuel
  | S fuel' =>
      try^ dirEntries := getDirEntries (path_join bucket fdPath) in
      p_fold (λ response entry,
        let object := f_Name entry in
        let objectPath := path_join fdPath object in
        if negb (HasPrefix object name) then p_ok response
        else if f_IsDir entry then
          if addPrefix then p_ok (AddPrefix objectPath response)
          else entryListR fuel' bucket (path_join fdPath object) [] false response
        else p_ok (Add {| k_Key := objectPath; k_LastModified := f_Modified entry; k_Size := f_Size entry |} response))
        dirEntries response
  end.

(** ** [pager.go] *)

(** What follows the first element that is wanted, if there is one. *)
Fixpoint after {A} (wanted : A → bool) (l : list A) : option (list A) :=
  match l with
  | [] => None
  | x :: l' => if wanted x then Some l' else after wanted l'
  end.

Definition by_time (a b : Content) : bool := k_LastModified a <? k_LastModified b.

Definition skip_marker {A} (page : ListBucketPage) (key : A → gostr) (l : list A) : list A :=
  if pg_HasMarker page then default l (after (λ x, bool_decide (key x = pg_Marker page)) l) else l.

(** The elements for which there are tokens, and the tokens that are left. *)
Fixpoint spend {A} (tokens : Z) (l : list A) : list A * Z :=
  match l with
  | [] => ([], tokens)
  | x :: l' => if tokens <=? 0 then ([], tokens) else let '(r, t) := spend (tokens - 1) l' in (x :: r, t)
  end.

Definition pager (prefixes : list gostr) (contents : list Content) (page : ListBucketPage) : outcome ObjectList :=
  let prefixes := skip_marker page id (sort_Slice str_less prefixes) in
  let contents := skip_marker page k_Key (sort_Slice by_time contents) in
  let tokens := if pg_MaxKeys page =? 0 then 1000 else pg_MaxKeys page in
  let '(ps, tokens) := spend tokens prefixes in
  let '(cs, _) := spend tokens contents in
  let response := fold_left (λ r c, Add c r) cs (fold_left (λ r p, AddPrefix p r) ps NewObjectList) in
  if pg_MaxKeys page <? Z.of_nat (length prefixes + length contents) then
    match last (Contents response), last (CommonPrefixes response) with
    | Some c, _ => Ret {| ol_list := response; ol_IsTruncated := true; ol_NextMarker := k_Key c |}
    | None, Some p => Ret {| ol_list := response; ol_IsTruncated := true; ol_NextMarker := p |}
    | None, None => Panic
    end
  else Ret {| ol_list := response; ol_IsTruncated := false; ol_NextMarker := [] |}.

(** ** [backend.go] *)

Definition ListBuckets : s3_prog (list (gostr * Z)) :=
  try^ buckets := or_failed getAndParseBuckets in
  p_fold (λ response b,
    try^ r := p_call (XFs (CGet (b_Path b))) in
    match r with
    | inr node => p_ok (response ++ [(b_Name b, f_Modified node)])
    | inl _ => PPanic
    end) buckets [].

Definition ListBucket (fuel : nat) (bucketName : gostr) (prefix : option Prefix) (page : ListBucketPage) : s3_prog ObjectList :=
  try^ bucket := p_result (getBucketByName bucketName) in
  let prefix := default {| px_Prefix := []; px_HasPrefix := false; px_Delimiter := []; px_HasDelimiter := false |} prefix in
  let hasDelimiter := if bool_decide (TrimSpace (px_Delimiter prefix) = []) then false else px_HasDelimiter prefix in
  let '(path, remaining) := prefixParser prefix in
  prog_bind (entryListR fuel (b_Path bucket) path remaining hasDelimiter NewObjectList) (λ r,
    match r with
    | inr response => p_outcome (pager (CommonPrefixes response) (Contents response) page)
    | inl ErrNoSuchKey => p_outcome (pager (CommonPrefixes NewObjectList) (Contents NewObjectList) page)
    | inl e => p_fail e
    end).

(** The metadata of an object: what is known of the file, and over it what a
    client has sent. *)
Definition object_meta (st : s3_meta) (fp : gostr) (node : FObj) : gmap gostr gostr :=
  default ∅ (st !! fp) ∪
  <[ #"Content-Type" := GetMimeType fp ]> {[ #"Last-Modified" := Format_time (f_Modified node) ]}.

Definition HeadObject (st : s3_meta) (bucketName objectName : gostr) : s3_prog Object :=
  try^ bucket := p_result (getBucketByName bucketName) in
  let fp := path_join (b_Path bucket) objectName in
  try^ r := p_call (XFs (CGet fp)) in
  try^ node := or_else (KeyNotFound objectName) r in
  if f_IsDir node then p_fail (KeyNotFound objectName)
  else
    p_ok {| ob_Name := objectName; ob_Metadata := object_meta st fp node; ob_Size := f_Size node;
            ob_Range := None; ob_Contents := NoContent |}.

Definition not_enhanced : error := EMessage #"the remote storage driver need to be enhanced to support s3".

(** The reader of an object, from its link. *)
Definition open_link (l : link) (file : FObj) (start length : Z) : s3_prog reader :=
  if lk_MFile l then
    try^ e := p_call (XSeek start) in
    try^ _ := no_error e in
    p_ok (OfFile start)
  else
    let length := if (0 <=? length) && (f_Size file <=? wrap64 (start + length)) then -1 else length in
    try^ rrc :=
      (if bool_decide (lk_URL l = []) then p_ok (bool_decide (lk_RangeReadCloser l ≠ None))
       else
         try^ r := p_call (XRangeReader l (f_Size file)) in
         try^ _ := or_failed r in
         p_ok true) in
    if (rrc : bool) then
      try^ e := p_call (XRangeRead start length) in
      try^ _ := no_error e in
      p_ok (OfRange start length)
    else p_fail (Failed (ESentinel NotSupport)).

Definition GetObject (st : s3_meta) (bucketName objectName : gostr) (rangeRequest : option ObjectRangeRequest) : s3_prog Object :=
  try^ bucket := p_result (getBucketByName bucketName) in
  let fp := path_join (b_Path bucket) objectName in
  try^ r := p_call (XFs (CGet fp)) in
  try^ node := or_else (KeyNotFound objectName) r in
  if f_IsDir node then p_fail (KeyNotFound objectName)
  else
    try^ r := p_call (XLink fp) in
    try^ (l, file) := or_failed r in
    let size := f_Size file in
    try^ rnge := p_result (request_Range rangeRequest size) in
    if bool_decide (lk_RangeReadCloser l = None) && negb (lk_MFile l) && bool_decide (lk_URL l = [])
    then p_fail (Failed not_enhanced)
    else
      let '(start, length) := default (0, -1) rnge in
      try^ rdr := open_link l file start length in
      p_ok {| ob_Name := objectName; ob_Metadata := object_meta st fp node; ob_Size := size;
              ob_Range := rnge; ob_Contents := rdr |}.

(** The zero value of [time.Time]. *)
Definition no_time : Z := -62135596800.

(** The time a client has sent: the second key goes before the first. *)
Definition sent_time (meta : gmap gostr gostr) : Z :=
  match meta !! #"mtime" with
  | Some v => FloatStringToTime v
  | None => match meta !! #"X-Amz-Meta-Mtime" with Some v => FloatStringToTime v | None => no_time end
  end.

Definition put_path (objectName fp : gostr) : gostr := if HasSuffix objectName #"/" then fp ++ #"/" else path_Dir fp.

(** The directory of the object is there, or is made. *)
Definition put_dir (objectName reqPath : gostr) : s3_prog unit :=
  try^ r := p_call (XFs (CGet reqPath)) in
  match r with
  | inr _ => p_ok ()
  | inl e =>
      if IsObjectNotFound e && Contains objectName #"/" then
        try^ r := p_call (XFs (CMakeDir reqPath)) in
        match r with
        | inr _ => p_ok ()
        | inl e => p_fail (Failed (EWithMessage e (#"failed to makeDir, reqPath: " ++ reqPath)))
        end
      else p_fail (KeyNotFound objectName)
  end.

Definition PutObject (st : s3_meta) (bucketName objectName : gostr) (meta : gmap gostr gostr) (size : Z) : s3_prog s3_meta :=
  try^ bucket := p_result (getBucketByName bucketName) in
  let fp := path_join (b_Path bucket) objectName in
  let reqPath := put_path objectName fp in
  try^ _ := put_dir objectName reqPath in
  if HasSuffix objectName #"/" then p_ok st
  else
    try^ r := p_call (XFs (CPutDirectly reqPath
      {| fst_Name := path_Base fp; fst_Size := size; fst_Modified := sent_time meta; fst_Hashes := [];
         fst_Mimetype := default [] (meta !! #"Content-Type"); fst_AsTask := false |})) in
    try^ _ := or_failed r in
    try^ e := p_call XClose in
    match e with
    | Some e =>
        try^ _ := p_call (XFs (CRemove fp)) in
        p_fail (Failed e)
    | None => p_ok (<[ fp := meta ]> st)
    end.

Definition deleteObject (bucketName objectName : gostr) : s3_prog unit :=
  try^ bucket := p_result (getBucketByName bucketName) in
  let fp := path_join (b_Path bucket) objectName in
  try^ r := p_call (XFs (CGet fp)) in
  match r with
  | inl e => if IsObjectNotFound e then try^ _ := p_call (XFs (CRemove fp)) in p_ok () else p_fail (Failed e)
  | inr _ => try^ _ := p_call (XFs (CRemove fp)) in p_ok ()
  end.

(** The keys that were deleted and those with an error. *)
Definition DeleteMulti (bucketName : gostr) (objects : list gostr) : s3_prog (list gostr * list gostr) :=
  p_fold (λ '(deleted, errors) object,
    prog_bind (deleteObject bucketName object) (λ r,
      p_ok (match r with inr _ => (deleted ++ [object], errors) | inl _ => (deleted, errors ++ [object]) end)))
    objects ([], []).

Definition BucketExists (name : gostr) : result bool :=
  match getAndParseBuckets with
  | inl e => inl e
  | inr buckets => inr (existsb (λ b, bool_decide (b_Name b = name)) buckets)
  end.

(** The time of the source is that of the first look-up, whose error is
    dropped. *)
Definition source_time (r : result FObj) : s3_prog Z := match r with inr node => p_ok (f_Modified node) | inl _ => PPanic end.

Definition copied_meta (meta source : gmap gostr gostr) : gmap gostr gostr :=
  meta ∪ delete #"X-Amz-Acl" source.

Definition CopyObject (st : s3_meta) (srcBucket srcKey dstBucket dstKey : gostr) (meta : gmap gostr gostr) : s3_prog (s3_meta * option Z) :=
  if bool_decide (srcBucket = dstBucket) && bool_decide (srcKey = dstKey) then p_ok (st, None)
  else
    try^ srcB := p_result (getBucketByName srcBucket) in
    try^ srcNode := p_call (XFs (CGet (path_join (b_Path srcB) srcKey))) in
    try^ c := GetObject st srcBucket srcKey None in
    let meta := copied_meta meta (ob_Metadata c) in
    try^ meta :=
      match meta !! #"mtime" with
      | Some _ => p_ok meta
      | None => try^ t := source_time srcNode in p_ok (<[ #"mtime" := TimeToFloatString t ]> meta)
      end in
    try^ st := PutObject st dstBucket dstKey meta (ob_Size c) in
    try^ t := source_time srcNode in
    p_ok (st, Some t).

(** ** Requests *)

Inductive s3_request :=
  | RListBuckets
  | RListBucket (bucket : gostr) (prefix : option Prefix) (page : ListBucketPage)
  | RHead (bucket key : gostr)
  | RGet (bucket key : gostr) (range : option ObjectRangeRequest)
  | RPut (bucket key : gostr) (meta : gmap gostr gostr) (size : Z)
  | RDelete (bucket key : gostr)
  | RDeleteMulti (bucket : gostr) (keys : list gostr)
  | RCopy (srcBucket srcKey dstBucket dstKey : gostr) (meta : gmap gostr gostr).

Definition s3_serve (fuel : nat) (st : s3_meta) (r : s3_request) : s3_prog s3_meta :=
  match r with
  | RListBuckets => try^ _ := ListBuckets in p_ok st
  | RListBucket b p page => try^ _ := ListBucket fuel b p page in p_ok st
  | RHead b k => try^ _ := HeadObject st b k in p_ok st
  | RGet b k rg => try^ _ := GetObject st b k rg in p_ok st
  | RPut b k m size => PutObject st b k m size
  | RDelete b k => try^ _ := deleteObject b k in p_ok st
  | RDeleteMulti b ks => try^ _ := DeleteMulti b ks in p_ok st
  | RCopy sb sk db dk m => try^ (st, _) := CopyObject st sb sk db dk m in p_ok st
  end.
End backend.
