(* ===== verification/S3Thms.v ===== *)
(** * The S3 server: keys, confinement, listings and their pages *)

From S2P Require Import Prelude GoStrings Errs Store Paths HttpRange Crypto Users Perm Prog FsOps FsOpsTree Sign Shares ShareHandlers FsHandlers FsHandlersSpec FsHandlersThms FsHandlersExamples FsPkg FsCopyThms Downloads Search Mcp S3.

Local Open Scope Z_scope.

(** ** Rules *)

Section rules.
Context (good : ∀ c, s3_answer c → Prop) (ok : list s3_event → s3_action → Prop).
Abbreviation ewp m h Q := (ewp good ok m h Q).

Lemma ewp_or_failed {A} (r : result A) h (Q : A → list s3_event → Prop) :
  (∀ a, r = inr a → Q a h) → ewp (or_failed r) h Q.
Proof. destruct r; intros H; [apply ewp_fail|apply ewp_ok; auto]. Qed.

Lemma ewp_or_else {A} e (r : result A) h (Q : A → list s3_event → Prop) :
  (∀ a, r = inr a → Q a h) → ewp (or_else e r) h Q.
Proof. destruct r; intros H; [apply ewp_fail|apply ewp_ok; auto]. Qed.

Lemma ewp_no_error e h (Q : unit → list s3_event → Prop) : (e = None → Q () h) → ewp (no_error e) h Q.
Proof. destruct e; intros H; [apply ewp_fail|apply ewp_ok; auto]. Qed.
End rules.

(** One step of a program; a call leaves its permission and the rest. *)
Ltac sstep :=
  lazymatch goal with
  | |- ewp _ _ (p_then _ _) _ _ => apply ewp_then
  | |- ewp _ _ (p_ok _) _ _ => apply ewp_ok
  | |- ewp _ _ (p_fail _) _ _ => apply ewp_fail
  | |- ewp _ _ PPanic _ _ => apply ewp_panic
  | |- ewp _ _ (p_result _) _ _ => apply ewp_result; intros ? ?
  | |- ewp _ _ (or_failed _) _ _ => apply ewp_or_failed; intros ? ->
  | |- ewp _ _ (or_else _ _) _ _ => apply ewp_or_else; intros ? ->
  | |- ewp _ _ (no_error _) _ _ => apply ewp_no_error; intros ->
  | |- ewp _ _ (p_call _) _ _ => apply ewp_call; [|intros ? ?]
  | |- ewp _ _ (if ?b then _ else _) _ _ => destruct b eqn:?
  | |- ewp _ _ (match ?r with inl _ => _ | inr _ => _ end) _ _ => destruct r as [?|?]
  | |- ewp _ _ (match ?r with Some _ => _ | None => _ end) _ _ => destruct r as [?|]
  end.

(** ** Confinement *)

Section confined.
Context {MS : MetaStore} {HE : HandlerEnv} {SL : SortLib} {G : Gofakes3} {SE : S3Env}.
Context (bs : list Bucket) (Hbs : getAndParseBuckets = inr bs).

(** The buckets a request names; the objects it writes and deletes. *)
Definition names_bucket (r : s3_request) (n : gostr) : Prop :=
  match r with
  | RListBuckets => True
  | RListBucket b _ _ | RHead b _ | RGet b _ _ | RPut b _ _ _ | RDelete b _ | RDeleteMulti b _ => n = b
  | RCopy sb _ db _ _ => n = sb ∨ n = db
  end.

Definition written (r : s3_request) : list (gostr * gostr) :=
  match r with RPut b k _ _ => [(b, k)] | RCopy _ _ db dk _ => [(db, dk)] | _ => [] end.

Definition deleted (r : s3_request) : list (gostr * gostr) :=
  match r with RDelete b k => [(b, k)] | RDeleteMulti b ks => map (pair b) ks | _ => [] end.

(** The keys of a request are plain, and what is written is not the bucket. *)
Definition plain_request (r : s3_request) : Prop :=
  match r with
  | RListBuckets => True
  | RListBucket _ p _ => match p with Some p => plain_key (px_Prefix p) | None => True end
  | RHead _ k | RGet _ k _ | RDelete _ k => plain_key k
  | RPut _ k _ _ => plain_key k ∧ key_segs k ≠ []
  | RDeleteMulti _ ks => Forall plain_key ks
  | RCopy _ sk _ dk _ => plain_key sk ∧ plain_key dk ∧ key_segs dk ≠ []
  end.

(** A path in a bucket, at some segments below it. *)
Definition in_bucket (b : Bucket) (p : gostr) (segs : list gostr) : Prop := path_segs p = path_segs (b_Path b) ++ segs.

Definition bucket_at (n : gostr) (b : Bucket) : Prop := getBucketByName n = inr b.

Definition s3_allowed (r : s3_request) (c : s3_action) : Prop :=
  match c with
  | XFs (CGet p) | XFs (CList p _ _) | XLink p => ∃ b segs, b ∈ bs ∧ names_bucket r (b_Name b) ∧ in_bucket b p segs
  | XFs (CMakeDir p) => ∃ n k b segs, (n, k) ∈ written r ∧ bucket_at n b ∧ in_bucket b p segs ∧ segs `prefix_of` key_segs k
  | XFs (CPutDirectly d f) => ∃ n k b segs, (n, k) ∈ written r ∧ bucket_at n b ∧ in_bucket b d segs ∧ segs ++ [fst_Name f] = key_segs k
  | XFs (CRemove p) => ∃ n k b, (n, k) ∈ written r ++ deleted r ∧ bucket_at n b ∧ in_bucket b p (key_segs k)
  | XFs _ => False
  | _ => True
  end.

(** The names of a listing are names. *)
Definition good_names (c : s3_action) : s3_answer c → Prop :=
  match c with
  | XFs (CList _ _ _) => λ r, ∀ l, r = inr l → Forall (λ o, good_seg (f_Name o)) l
  | _ => λ _, True
  end.

(** The paths in the settings are clean. *)
Context (Hclean : Forall (λ b, FixAndCleanPath (b_Path b) = b_Path b) bs).

Lemma bucket_found n b : bucket_at n b → b ∈ bs ∧ b_Name b = n ∧ b_Path b = render (path_segs (b_Path b)).
Proof.
  unfold bucket_at, getBucketByName. rewrite Hbs. destruct (find _ bs) as [b'|] eqn:E; [|done]. intros [= ->].
  apply find_some in E as [Hin Hn]. apply bool_decide_eq_true in Hn. apply list_elem_of_In in Hin. split; [done|]. split; [done|].
  rewrite <- FixAndCleanPath_segs. symmetry. by apply (proj1 (Forall_forall _ _) Hclean).
Qed.

Lemma in_bucket_key n b k : bucket_at n b → plain_key k →
  path_join (b_Path b) k = render (path_segs (b_Path b) ++ key_segs k) ∧ in_bucket b (path_join (b_Path b) k) (key_segs k).
Proof.
  intros Hb Hk. destruct (bucket_found n b Hb) as (_ & _ & E).
  assert (Ej : path_join (b_Path b) k = render (path_segs (b_Path b) ++ key_segs k)).
  { rewrite E at 1. apply join_key; [apply path_segs_norm|done]. }
  split; [done|]. unfold in_bucket. rewrite Ej. apply path_segs_render. apply Forall_app. split; [apply path_segs_good|by apply key_segs_good].
Qed.

Section request.
Context (r : s3_request).
Abbreviation rwp m h Q := (ewp good_names (λ _, s3_allowed r) m h Q).

Lemma s3_read_ok n b k (c : gostr → s3_action) : bucket_at n b → names_bucket r n → plain_key k →
  (∀ p, s3_allowed r (c p) = (∃ b segs, b ∈ bs ∧ names_bucket r (b_Name b) ∧ in_bucket b p segs)) →
  s3_allowed r (c (path_join (b_Path b) k)).
Proof.
  intros Hb Hn Hk ->. destruct (bucket_found n b Hb) as (? & En & _). exists b, (key_segs k). rewrite En.
  split; [done|]. split; [done|]. by apply (in_bucket_key n).
Qed.

Lemma head_ok st n k h : names_bucket r n → plain_key k → rwp (HeadObject st n k) h (λ _ _, True).
Proof.
  intros Hn Hk. unfold HeadObject. repeat sstep; try done. by apply (s3_read_ok n _ _ (λ p, XFs (CGet p))).
Qed.

Lemma open_ok l file start len h : rwp (open_link l file start len) h (λ _ _, True).
Proof. unfold open_link. repeat sstep; done. Qed.

Lemma get_ok st n k rg h : names_bucket r n → plain_key k → rwp (GetObject st n k rg) h (λ _ _, True).
Proof.
  intros Hn Hk. unfold GetObject. repeat first [sstep | match goal with |- ewp _ _ (let '(_, _) := ?p in _) _ _ => destruct p end | eapply ewp_mono; [apply open_ok|]; intros ? ? _]; try done.
  - by apply (s3_read_ok n _ _ (λ p, XFs (CGet p))).
  - by apply (s3_read_ok n _ _ XLink).
Qed.
(** The directory of a key, and the key itself with a slash. *)
Lemma put_path_in n b k : bucket_at n b → plain_key k → key_segs k ≠ [] → ∃ segs w, key_segs k = segs ++ [w] ∧
  path_Base (path_join (b_Path b) k) = w ∧
  in_bucket b (put_path k (path_join (b_Path b) k)) (if HasSuffix k #"/" then segs ++ [w] else segs).
Proof.
  intros Hb Hk Hne. destruct (exists_last Hne) as (segs & w & E). exists segs, w. split; [done|].
  destruct (in_bucket_key n b k Hb Hk) as [Ej _]. rewrite E in Ej. pose proof (key_segs_good k Hk) as Hg. rewrite E in Hg.
  apply Forall_app in Hg as [Hs [Hw _]%Forall_cons]. pose proof (path_segs_good (b_Path b)) as Hbg.
  rewrite Ej, app_assoc, path_Base_render by apply Hw. split; [done|]. unfold put_path, in_bucket. destruct (HasSuffix k #"/").
  - replace (render ((path_segs (b_Path b) ++ segs) ++ [w]) ++ #"/") with (dir_slash ((path_segs (b_Path b) ++ segs) ++ [w])).
    + rewrite path_segs_dir_slash; [by rewrite app_assoc|]. by rewrite !Forall_app, Forall_singleton.
    + by destruct (path_segs (b_Path b) ++ segs).
  - rewrite path_Dir_render; [|apply good_norm; by apply Forall_app|apply Hw]. apply path_segs_render. by apply Forall_app.
Qed.

Lemma put_ok st n k m size h : (n, k) ∈ written r → names_bucket r n → plain_key k → key_segs k ≠ [] →
  rwp (PutObject st n k m size) h (λ _ _, True).
Proof.
  intros Hw Hn Hk Hne. unfold PutObject. sstep. sstep.
  match goal with H : getBucketByName n = inr ?x |- _ => rename x into b; rename H into Hb end.
  destruct (put_path_in n b k Hb Hk Hne) as (segs & w & Ek & Ebase & Hin). destruct (bucket_found n b Hb) as (Hbin & Enm & _).
  assert (Hput : HasSuffix k #"/" = false → ∀ f, fst_Name f = w → s3_allowed r (XFs (CPutDirectly (put_path k (path_join (b_Path b) k)) f))).
  { intros E f Ef. rewrite E in Hin. exists n, k, b, segs. by rewrite Ef. }
  assert (Hrm : s3_allowed r (XFs (CRemove (path_join (b_Path b) k)))).
  { exists n, k, b. split; [apply elem_of_app; by left|]. split; [done|]. by apply (in_bucket_key n). }
  assert (Hget : s3_allowed r (XFs (CGet (put_path k (path_join (b_Path b) k))))).
  { exists b. eexists. rewrite Enm. split; [done|]. split; [done|]. exact Hin. }
  assert (Hdir : s3_allowed r (XFs (CMakeDir (put_path k (path_join (b_Path b) k))))).
  { exists n, k, b. eexists. split; [done|]. split; [done|]. split; [exact Hin|]. rewrite Ek. destruct (HasSuffix k #"/"); [done|by apply prefix_app_r]. }
  clear Hin. cbv zeta. unfold put_dir. repeat sstep; try done; by apply Hput.
Qed.

Lemma delete_ok n k h : (n, k) ∈ deleted r → names_bucket r n → plain_key k → rwp (deleteObject n k) h (λ _ _, True).
Proof.
  intros Hd Hn Hk. unfold deleteObject. sstep. sstep.
  match goal with H : getBucketByName n = inr ?x |- _ => rename x into b; rename H into Hb end. cbv zeta.
  assert (Hr : s3_allowed r (XFs (CRemove (path_join (b_Path b) k)))).
  { exists n, k, b. split; [apply elem_of_app; by right|]. split; [done|]. by apply (in_bucket_key n). }
  repeat sstep; try done. by apply (s3_read_ok n _ _ (λ p, XFs (CGet p))).
Qed.

Lemma entries_ok fuel n b d name add resp h : bucket_at n b → names_bucket r n → plain_key d →
  rwp (entryListR fuel (b_Path b) d name add resp) h (λ _ _, True).
Proof.
  intros Hb Hn. revert d name add resp h. induction fuel as [|fuel IH]; intros d name add resp h Hd; [by intros a|]. cbn [entryListR].
  unfold getDirEntries. sstep. sstep. sstep; [by apply (s3_read_ok n _ _ (λ p, XFs (CGet p)))|]. sstep. sstep. sstep; [sstep|].
  sstep. sstep; [by apply (s3_read_ok n _ _ (λ p, XFs (CList p _ _)))|]. sstep.
  match goal with H : good_names _ _ |- _ => rename H into Hg end. specialize (Hg _ eq_refl).
  apply (ewp_fold _ _ _ _ (λ _ _ _, True)); [done|]. intros o l' resp' h' _ Ho. pose proof (proj1 (Forall_forall _ _) Hg o Ho) as Hon.
  cbv zeta. repeat sstep; try done. by apply IH, key_join.
Qed.

Lemma prefix_path_plain p : plain_key (px_Prefix p) → plain_key (prefixParser p).1.
Proof.
  unfold prefixParser. intros Hp. destruct (Z.ltb_spec (LastIndex (px_Prefix p) #"/") 0) as [_|Hi]; [split; decide_now|]. simpl.
  destruct (LastIndex_split _ _ Hi) as (a & b & E & El & _). rewrite El, Nat2Z.id, E, take_app_length. rewrite E in Hp. by eapply plain_key_front.
Qed.

Lemma list_ok fuel n p page h : names_bucket r n → (∀ q, p = Some q → plain_key (px_Prefix q)) →
  rwp (ListBucket fuel n p page) h (λ _ _, True).
Proof.
  intros Hn Hp. unfold ListBucket. sstep. sstep. cbv zeta.
  match goal with |- context [prefixParser ?q] => assert (Hd : plain_key (prefixParser q).1) end.
  { apply prefix_path_plain. destruct p as [q|]; [by apply Hp|split; decide_now]. }
  destruct (prefixParser _) as [d rem]. simpl in Hd. apply wp_bind.
  eapply wp_mono; [by eapply entries_ok|]. intros [[[]|resp]| |] h' _; simpl; try (by intros ? [=]); destruct (pager _ _ page); by intros ? [=].
Qed.
End request.

Lemma serve_ok r fuel st h : plain_request r → ewp good_names (λ _, s3_allowed r) (s3_serve fuel st r) h (λ _ _, True).
Proof.
  destruct r as [|b p page|b k|b k rg|b k m size|b k|b ks|sb sk db dk m]; intros Hpl; cbn [s3_serve].
  all: try (apply ewp_then; eapply ewp_mono; [|by intros; apply ewp_ok]).
  - unfold ListBuckets. sstep. rewrite Hbs. apply ewp_ok, (ewp_fold _ _ _ _ (λ _ _ _, True)); [done|].
    intros b l' acc h' _ Hin. repeat sstep; try done. exists b, []. split; [done|]. split; [done|]. unfold in_bucket. by rewrite app_nil_r.
  - apply list_ok; [done|]. by intros q ->.
  - by apply head_ok.
  - by apply get_ok.
  - destruct Hpl. apply put_ok; try done. by left.
  - apply delete_ok; try done. by left.
  - unfold DeleteMulti. apply (ewp_fold _ _ _ _ (λ _ _ _, True)); [done|]. intros k l' [del errs] h' _ Hin.
    apply wp_bind. eapply wp_mono; [apply delete_ok; try done; [by apply list_elem_of_fmap_2|by apply (proj1 (Forall_forall _ _) Hpl)]|].
    intros [[e|a]| |] h2 _; simpl; by intros ? [=].
  - destruct Hpl as (Hsk & Hdk & Hne). unfold CopyObject. apply ewp_then. eapply (ewp_mono _ _ _ _ (λ _ _, True)); [|intros [st' t] h' _; by apply ewp_ok].
    destruct (bool_decide _ && _); [by sstep|]. sstep. sstep. sstep. sstep; [by apply (s3_read_ok _ sb _ _ (λ p, XFs (CGet p))); try done; left|].
    sstep. eapply ewp_mono; [by apply get_ok; [left|]|]. intros c h' _. cbv zeta. sstep.
    eapply (ewp_mono _ _ _ _ (λ _ _, True)); [unfold source_time; repeat sstep; done|]. intros m' h2 _. sstep.
    eapply ewp_mono; [apply put_ok; try done; [by left|by right]|]. intros st' h3 _. unfold source_time. repeat sstep; done.
Qed.

End confined.

(** ** Listings *)

(** A tree as a bucket has it: names are names, no two objects of a directory
    have the same, and each object says what it is. *)
Fixpoint wf_bucket (t : tree) : bool :=
  match t with
  | TFile o => negb (f_IsDir o)
  | TDir o l =>
      f_IsDir o && bool_decide (NoDup (map (λ c, f_Name (obj_of c)) l))
      && bool_decide (Forall good_seg (map (λ c, f_Name (obj_of c)) l)) && forallb wf_bucket l
  end.

Abbreviation name_of c := (f_Name (obj_of c)).

Fixpoint height (t : tree) : nat :=
  match t with TFile _ => 1 | TDir _ l => S (max_list (map height l)) end.

(** The objects below a directory with their segments, and the node at some
    segments. *)
Fixpoint below (d : list gostr) (t : tree) : list (list gostr * tree) :=
  match t with
  | TFile _ => []
  | TDir _ l => concat (map (λ c, (d ++ [name_of c], c) :: below (d ++ [name_of c]) c) l)
  end.

Fixpoint node_at (t : tree) (segs : list gostr) : option tree :=
  match segs, t with
  | [], _ => Some t
  | n :: segs', TDir _ l => match find (λ c, bool_decide (name_of c = n)) l with Some c => node_at c segs' | None => None end
  | _, TFile _ => None
  end.

Definition key_of (x : list gostr * tree) : gostr := Join #"/" x.1.
Definition is_file (x : list gostr * tree) : bool := match x.2 with TFile _ => true | TDir _ _ => false end.
Definition content_of (x : list gostr * tree) : Content :=
  {| k_Key := key_of x; k_LastModified := f_Modified (obj_of x.2); k_Size := f_Size (obj_of x.2) |}.

(** What a listing is to have: the keys with the prefix; with a delimiter only
    those without one after the prefix, and the directories apart. *)
Definition matches (prefix : gostr) (delimited : bool) (x : list gostr * tree) : bool :=
  HasPrefix (key_of x) prefix && (negb delimited || bool_decide ("/"%char ∉ drop (length prefix) (key_of x))).
Definition listed_files (t : tree) (prefix : gostr) (delimited : bool) : list Content :=
  map content_of (filter (λ x, matches prefix delimited x && is_file x) (below [] t)).
Definition listed_dirs (t : tree) (prefix : gostr) (delimited : bool) : list gostr :=
  if delimited then map key_of (filter (λ x, matches prefix delimited x && negb (is_file x)) (below [] t)) else [].

Lemma wf_dir o l : wf_bucket (TDir o l) = true → f_IsDir o = true ∧ NoDup (map (λ c, name_of c) l) ∧
  Forall (λ c, good_seg (name_of c)) l ∧ Forall (λ c, wf_bucket c = true) l.
Proof.
  cbn [wf_bucket]. rewrite !andb_true_iff, !bool_decide_eq_true, Forall_map, forallb_forall. intros [[[? ?] ?] Hl].
  repeat split; try done. apply Forall_forall. intros c Hc. by apply Hl, list_elem_of_In.
Qed.

Lemma wf_kind t : wf_bucket t = true → f_IsDir (obj_of t) = match t with TDir _ _ => true | TFile _ => false end.
Proof. destruct t; [by intros ?%negb_true_iff|]. by intros [? _]%wf_dir. Qed.

Lemma find_child c l : NoDup (map (λ c, name_of c) l) → c ∈ l → find (λ d, bool_decide (name_of d = name_of c)) l = Some c.
Proof.
  induction l as [|d l IH]; [by intros _ ?%elem_of_nil|]. intros [Hd Hl]%NoDup_cons [->|Hc]%elem_of_cons; cbn [find].
  - by rewrite bool_decide_true.
  - rewrite bool_decide_false; [by apply IH|]. intros E. apply Hd. rewrite E. by apply (list_elem_of_fmap_2 (λ c, name_of c)).
Qed.

Lemma node_at_app t a b : node_at t (a ++ b) = match node_at t a with Some c => node_at c b | None => None end.
Proof. revert t. induction a as [|n a IH]; intros t; [done|]. destruct t; cbn; [done|]. destruct (find _ l); [apply IH|done]. Qed.

Lemma node_at_child t d o l c : wf_bucket t = true → node_at t d = Some (TDir o l) → wf_bucket (TDir o l) = true → c ∈ l →
  node_at t (d ++ [name_of c]) = Some c.
Proof. intros Hw Ht Hd Hc. rewrite node_at_app, Ht. cbn [node_at]. rewrite find_child; [done|apply (wf_dir _ _ Hd)|done]. Qed.

Lemma height_child c l : c ∈ l → (height c ≤ max_list (map height l))%nat.
Proof. induction l as [|x l IH]; [by intros ?%elem_of_nil|]. cbn. intros [->|Hc%IH]%elem_of_cons; lia. Qed.

Lemma node_at_wf t d c : wf_bucket t = true → node_at t d = Some c → wf_bucket c = true ∧ (height c ≤ height t)%nat.
Proof.
  revert t. induction d as [|n d IH]; intros t Hw; [by intros [= ->]|]. destruct t as [o|o l]; [done|]. cbn [node_at].
  destruct (find _ l) as [c'|] eqn:E; [|done]. intros Hc. apply find_some in E as [Hin%list_elem_of_In _].
  apply wf_dir in Hw as (_ & _ & _ & Hl). destruct (IH c' (proj1 (Forall_forall _ _) Hl _ Hin) Hc) as [? Hh]. split; [done|].
  cbn [height]. apply height_child in Hin. lia.
Qed.

(** The segments of a directory as the front of a key. *)
Definition dir_prefix (d : list gostr) : gostr := concat (map (λ n, n ++ #"/") d).

Definition shift (d : list gostr) (x : list gostr * tree) : list gostr * tree := (d ++ x.1, x.2).

Lemma below_shift d t : below d t = map (shift d) (below [] t).
Proof.
  revert d t. assert (H : ∀ n t d e, (height t ≤ n)%nat → below (d ++ e) t = map (shift d) (below e t)).
  { induction n as [|n IH]; intros [o|o l] d e Hh; cbn [height] in Hh; [lia|lia|done|]. cbn [below].
    rewrite concat_map, map_map. f_equal. assert (Hl : ∀ c, c ∈ l → (height c ≤ n)%nat).
    { intros c Hc%height_child. lia. }
    clear Hh. induction l as [|c l IHl]; [done|]. cbn [map]. f_equal; [|by apply IHl; intros; apply Hl; right].
    unfold shift at 1. simpl. rewrite <- !app_assoc. f_equal. by apply IH, Hl; left. }
  intros d t. rewrite <- (H (height t) t d []) by lia. by rewrite app_nil_r.
Qed.

Lemma below_children o l : below [] (TDir o l) = concat (map (λ c, ([name_of c], c) :: map (shift [name_of c]) (below [] c)) l).
Proof. cbn [below]. f_equal. apply map_ext. intros c. cbn [app]. by rewrite (below_shift [name_of c]). Qed.

Lemma below_ne t x : x ∈ below [] t → x.1 ≠ [].
Proof.
  destruct t as [o|o l]; [by intros ?%elem_of_nil|]. rewrite below_children, list_elem_of_In. intros (k & (c & <- & _)%in_map_iff & Hx%list_elem_of_In)%in_concat.
  apply elem_of_cons in Hx as [->|(y & -> & _)%list_elem_of_fmap]; done.
Qed.

(** Prefixes of keys. *)
Lemma HasPrefix_under n m p s : ("/"%char ∉ n) → ("/"%char ∉ m) →
  HasPrefix (m ++ "/"%char :: s) (n ++ "/"%char :: p) = bool_decide (m = n) && HasPrefix s p.
Proof.
  intros Hn Hm. revert m Hm. induction n as [|c n IH]; intros [|e m] Hm; cbn [app HasPrefix].
  - by rewrite !bool_decide_true.
  - by rewrite !bool_decide_false by set_solver.
  - by rewrite !bool_decide_false by set_solver.
  - rewrite IH by set_solver. rewrite andb_assoc. f_equal.
    apply eq_bool_prop_intro. rewrite andb_True, !bool_decide_spec. naive_solver.
Qed.

Lemma HasPrefix_no_slash n m p : ("/"%char ∉ m) → HasPrefix m (n ++ "/"%char :: p) = false.
Proof.
  intros Hm. apply not_true_is_false. intros [k ->]%HasPrefix_spec. apply Hm. rewrite !elem_of_app, elem_of_cons. naive_solver.
Qed.

Lemma HasPrefix_name m p s : ("/"%char ∉ p) → HasPrefix (m ++ "/"%char :: s) p = HasPrefix m p.
Proof.
  intros Hp. revert m. induction p as [|c p IH]; intros m; [by destruct m|]. destruct m as [|e m]; cbn [app HasPrefix].
  - rewrite bool_decide_false; [done|]. intros ->. apply Hp. by left.
  - by rewrite IH by (intros ?; apply Hp; by right).
Qed.

Lemma key_shift n x : x.1 ≠ [] → key_of (shift [n] x) = n ++ "/"%char :: key_of x.
Proof. destruct x as [[|m s] c]; done. Qed.

Lemma filter_concat {A} (P : A → Prop) `{!∀ x, Decision (P x)} (l : list (list A)) : filter P (concat l) = concat (map (filter P) l).
Proof. induction l as [|x l IH]; [done|]. cbn [concat map]. by rewrite filter_app, IH. Qed.

Lemma filter_map_comm {A B} (f : A → B) (P : B → Prop) (Q : A → Prop) `{!∀ x, Decision (P x), !∀ x, Decision (Q x)} l :
  (∀ x, x ∈ l → P (f x) ↔ Q x) → filter P (map f l) = map f (filter Q l).
Proof.
  induction l as [|x l IH]; intros Hf; [done|]. cbn [map]. rewrite !filter_cons.
  rewrite IH by (intros; apply Hf; by right). pose proof (Hf x ltac:(left)). destruct (decide (P (f x))), (decide (Q x)); try done; naive_solver.
Qed.

Lemma concat_only {A} (l : list tree) (f : tree → list A) n : NoDup (map (λ c, name_of c) l) →
  concat (map (λ c, if bool_decide (name_of c = n) then f c else []) l) =
  match find (λ c, bool_decide (name_of c = n)) l with Some c => f c | None => [] end.
Proof.
  induction l as [|c l IH]; [done|]. intros [Hc Hl]%NoDup_cons. cbn [map concat find]. case_bool_decide as E; [|by apply IH].
  rewrite (IH Hl). destruct (find _ l) as [d|] eqn:F; [|by rewrite app_nil_r]. exfalso. apply find_some in F as [Hin%list_elem_of_In Hd%bool_decide_eq_true].
  apply Hc. rewrite E, <- Hd. by apply (list_elem_of_fmap_2 (λ c, name_of c)).
Qed.

Lemma below_prefix t d rem : wf_bucket t = true → Forall norm_seg d →
  filter (λ x, HasPrefix (key_of x) (dir_prefix d ++ rem)) (below [] t) =
  match node_at t d with
  | Some (TDir o l) => map (shift d) (filter (λ x, HasPrefix (key_of x) rem) (below [] (TDir o l)))
  | _ => []
  end.
Proof.
  revert t. induction d as [|n d IH]; intros t Hw Hd.
  - destruct t as [o|o l]; [done|]. cbn [node_at dir_prefix map concat app]. symmetry. rewrite <- map_id. apply map_ext. by intros [].
  - apply Forall_cons in Hd as [Hn Hd]. destruct t as [o|o l]; [done|]. pose proof (wf_dir _ _ Hw) as (_ & Hnd & Hg & Hl).
    rewrite below_children, filter_concat, map_map. cbn [node_at].
    transitivity (concat (map (λ c, if bool_decide (name_of c = n) then map (shift [n]) (filter (λ x, HasPrefix (key_of x) (dir_prefix d ++ rem)) (below [] c)) else []) l)).
    + f_equal. apply map_ext_in. intros c Hc%list_elem_of_In. pose proof (proj1 (Forall_forall _ _) Hg c Hc) as [(_ & _ & _ & Hs) _].
      assert (E : dir_prefix (n :: d) ++ rem = n ++ "/"%char :: (dir_prefix d ++ rem)).
      { unfold dir_prefix. cbn [map concat]. by rewrite <- !app_assoc. }
      rewrite E. rewrite filter_cons_False by (cbn; unfold key_of; cbn; rewrite HasPrefix_no_slash by done; tauto).
      case_bool_decide as En.
      * rewrite En in *. apply filter_map_comm. intros x Hx. rewrite key_shift by (by eapply below_ne).
        rewrite HasPrefix_under by done. by rewrite bool_decide_true.
      * apply filter_none. intros x (y & -> & Hy)%list_elem_of_fmap. rewrite key_shift by (by eapply below_ne).
        rewrite HasPrefix_under by (done || apply Hn). rewrite bool_decide_false by done. by intros [].
    + rewrite concat_only by done. destruct (find _ l) as [c|] eqn:F; [|done]. apply find_some in F as [Hin%list_elem_of_In _].
      rewrite IH by (done || by apply (proj1 (Forall_forall _ _) Hl)). destruct (node_at c d) as [[|o' l']|]; [done| |done].
      rewrite map_map. apply map_ext. by intros [].
Qed.

(** The objects of a directory that a listing takes. *)
Definition picked (delimited : bool) (d : list gostr) (rem : gostr) (l : list tree) : list (list gostr * tree) :=
  concat (map (λ c, if HasPrefix (name_of c) rem
                    then (d ++ [name_of c], c) :: (if delimited then [] else below (d ++ [name_of c]) c) else []) l).

Lemma key_shift_dir d x : x.1 ≠ [] → key_of (shift d x) = dir_prefix d ++ key_of x.
Proof.
  intros Hx. induction d as [|n d IH]; [by destruct x|]. change (shift (n :: d) x) with (shift [n] (shift d x)).
  rewrite key_shift, IH by (destruct x; simpl in *; by destruct d). unfold dir_prefix. cbn [map concat]. by rewrite <- !app_assoc.
Qed.

Lemma filter_both {A} (f g : A → bool) (l : list A) : filter (λ x, f x && g x) l = filter (λ x, g x) (filter (λ x, f x) l).
Proof.
  induction l as [|x l IH]; [done|]. rewrite !filter_cons. destruct (f x) eqn:Ef; cbn [andb]; [|done].
  rewrite (decide_True (P := Is_true true)) by done. rewrite filter_cons. by rewrite IH.
Qed.

Lemma matches_shift d rem del x : x.1 ≠ [] → HasPrefix (key_of (shift d x)) (dir_prefix d ++ rem) = HasPrefix (key_of x) rem →
  matches (dir_prefix d ++ rem) del (shift d x) = matches rem del x.
Proof.
  intros Hx E. unfold matches. rewrite E. f_equal. f_equal. rewrite key_shift_dir by done. rewrite length_app, <- drop_drop, drop_app_length. done.
Qed.

Lemma HasPrefix_shift d rem x : x.1 ≠ [] → HasPrefix (key_of (shift d x)) (dir_prefix d ++ rem) = HasPrefix (key_of x) rem.
Proof.
  intros Hx. rewrite key_shift_dir by done. apply eq_bool_prop_intro. rewrite !Is_true_true, !HasPrefix_spec.
  split; [intros [k E]; exists k|intros [k ->]; exists k]; [|by rewrite app_assoc]. rewrite <- app_assoc in E. by simplify_list_eq.
Qed.

Lemma picked_children del rem o l : wf_bucket (TDir o l) = true → ("/"%char ∉ rem) →
  filter (λ x, matches rem del x) (below [] (TDir o l)) = picked del [] rem l.
Proof.
  intros (_ & _ & Hg & _)%wf_dir Hr. rewrite below_children, filter_concat, map_map. unfold picked. f_equal. apply map_ext_in.
  intros c Hc%list_elem_of_In. pose proof (proj1 (Forall_forall _ _) Hg c Hc) as [(_ & _ & _ & Hs) _]. cbn [app].
  assert (Hd : ("/"%char ∉ drop (length rem) (name_of c))) by (intros Hin; apply Hs; rewrite <- (take_drop (length rem)), elem_of_app; by right).
  destruct (HasPrefix (name_of c) rem) eqn:E.
  - rewrite filter_cons_True.
    2:{ unfold matches, key_of. cbn [fst Join]. rewrite E, bool_decide_true by done. by destruct del. }
    f_equal. rewrite (below_shift [name_of c]). destruct del.
    + apply filter_none. intros x (y & -> & Hy)%list_elem_of_fmap. unfold matches. rewrite key_shift by (by eapply below_ne).
      rewrite HasPrefix_name, E by done. rewrite bool_decide_false; [by intros []|]. intros Hn. apply Hn.
      apply HasPrefix_spec in E as [k E]. rewrite E, <- app_assoc, drop_app_length. apply elem_of_app. right. by left.
    + apply filter_id. apply Forall_forall. intros x (y & -> & Hy)%list_elem_of_fmap. unfold matches.
      rewrite key_shift by (by eapply below_ne). by rewrite HasPrefix_name, E by done.
  - apply filter_none. intros x [->|(y & -> & Hy)%list_elem_of_fmap]%elem_of_cons; unfold matches.
    + unfold key_of. cbn [fst Join]. rewrite E. by intros [].
    + rewrite key_shift by (by eapply below_ne). rewrite HasPrefix_name, E by done. by intros [].
Qed.

Lemma listed_picked t del d rem : wf_bucket t = true → Forall norm_seg d → ("/"%char ∉ rem) →
  filter (λ x, matches (dir_prefix d ++ rem) del x) (below [] t) =
  match node_at t d with Some (TDir o l) => picked del d rem l | _ => [] end.
Proof.
  intros Hw Hd Hr. transitivity (filter (λ x, matches (dir_prefix d ++ rem) del x) (filter (λ x, HasPrefix (key_of x) (dir_prefix d ++ rem)) (below [] t))).
  { rewrite <- filter_both. apply list_filter_iff. intros x. unfold matches. destruct (HasPrefix _ _); done. }
  rewrite below_prefix by done. destruct (node_at t d) as [[|o l]|] eqn:E; [done| |done].
  apply node_at_wf in E as [Hwl _]; [|done].
  rewrite (filter_map_comm _ _ (λ x, matches rem del x)).
  2:{ intros x [_ Hx]%list_elem_of_filter. apply below_ne in Hx. by rewrite matches_shift by (done || by apply HasPrefix_shift). }
  replace (filter (λ x, matches rem del x) (filter (λ x, HasPrefix (key_of x) rem) (below [] (TDir o l)))) with (picked del [] rem l).
  - unfold picked. rewrite concat_map, map_map. f_equal. apply map_ext. intros c. destruct (HasPrefix _ rem); [|done]. cbn [map app].
    f_equal. destruct del; [done|]. rewrite (below_shift (d ++ _)), (below_shift [name_of c]), map_map. apply map_ext. intros [s x]. unfold shift. simpl. by rewrite <- app_assoc.
  - rewrite <- (picked_children del rem o l) by done. rewrite <- filter_both. apply list_filter_iff. intros x. unfold matches. destruct (HasPrefix _ _); done.
Qed.

Lemma Join_snoc d n : Join #"/" (d ++ [n]) = dir_prefix d ++ n.
Proof.
  induction d as [|m d IH]; [done|]. unfold dir_prefix. cbn [map concat]. rewrite <- !app_assoc. change (concat _) with (dir_prefix d). rewrite <- IH.
  cbn [app Join]. destruct (d ++ [n]) as [|w l] eqn:E; [by destruct d|done].
Qed.

Lemma dir_prefix_Join d : d ≠ [] → dir_prefix d = Join #"/" d ++ #"/".
Proof.
  induction d as [|n [|m d] IH]; [done|by intros _; unfold dir_prefix; cbn; rewrite app_nil_r|]. intros _.
  change (dir_prefix (n :: m :: d)) with ((n ++ #"/") ++ dir_prefix (m :: d)). rewrite IH by done. cbn [Join]. by rewrite <- !app_assoc.
Qed.

Lemma Clean_rel l : Forall good_seg l → l ≠ [] → Clean (Join #"/" l) = Join #"/" l.
Proof.
  intros Hl Hne. unfold Clean. rewrite !clean_segs_plain by (by apply plain_Join). pose proof (good_norm _ Hl) as Hn.
  rewrite key_segs_Join by done. destruct l as [|w l]; [done|]. apply Forall_cons in Hn as [(Hw & _ & _ & Hs) Hn].
  destruct w as [|c w]; [done|]. assert (E : HasPrefix (Join #"/" ((c :: w) :: l)) #"/" = false).
  { assert (Ej : ∃ k, Join #"/" ((c :: w) :: l) = c :: k) by (destruct l; eexists; reflexivity). destruct Ej as [k ->].
    cbn. rewrite bool_decide_false; [done|]. intros <-. apply Hs. left. }
  rewrite E. destruct (Join #"/" ((c :: w) :: l)) as [|e j] eqn:Ej; [|done]. by destruct l.
Qed.

Lemma path_join_rel d n : Forall good_seg d → good_seg n → path_join (Join #"/" d) n = Join #"/" (d ++ [n]).
Proof.
  intros Hd Hn. rewrite <- (Clean_rel (d ++ [n])); [|apply Forall_app; split; [done|by constructor]|by destruct d]. unfold path_join.
  destruct (decide (d = [])) as [->|Hne]; [rewrite filter_cons_False by naive_solver; by rewrite filter_cons_True by apply Hn|].
  rewrite !filter_cons_True by (apply Hn || by apply Join_nonempty; [|apply good_norm]). rewrite filter_nil.
  rewrite Join_snoc, dir_prefix_Join by done. cbn [Join]. by rewrite <- app_assoc.
Qed.

Lemma Join_inj l k : Forall norm_seg l → Forall norm_seg k → Join #"/" l = Join #"/" k → l = k.
Proof. intros Hl Hk E. rewrite <- (key_segs_Join l), <- (key_segs_Join k) by done. by rewrite E. Qed.

Section listing.
Context {MS : MetaStore} {HE : HandlerEnv} {SL : SortLib} {G : Gofakes3} {GL : Gofakes3Laws} {SE : S3Env}.
Context (root : list gostr) (t : tree).

(** Package [fs] answers from the tree, which is mounted at [root]. *)
Definition truthful_s3 (c : s3_action) : s3_answer c → Prop :=
  match c with
  | XFs (CGet p) => λ r, ∀ segs, Forall good_seg segs → p = render (root ++ segs) →
      match node_at t segs with Some c => r = inr (obj_of c) | None => ∃ e, r = inl e end
  | XFs (CList p _ _) => λ r, ∀ segs o l, Forall good_seg segs → p = render (root ++ segs) →
      node_at t segs = Some (TDir o l) → r = inr (map obj_of l)
  | _ => λ _, True
  end.

Context (Hroot : Forall good_seg root) (Hwf : wf_bucket t = true).

(** The program returns a result, and it satisfies [Q]. *)
Definition lwp {A} (m : s3_prog A) (h : list s3_event) (Q : A → Prop) : Prop :=
  wp truthful_s3 (λ _ _, True) m h (λ x _, ∃ a, x = Returned (inr a) ∧ Q a).

Lemma lwp_ok {A} (a : A) h (Q : A → Prop) : Q a → lwp (p_ok a) h Q.
Proof. intros H. by exists a. Qed.

Lemma lwp_mono {A} (m : s3_prog A) h (P Q : A → Prop) : lwp m h P → (∀ a, P a → Q a) → lwp m h Q.
Proof. intros H HPQ. eapply wp_mono; [exact H|]. intros x _ (a & -> & Ha). eauto. Qed.

Lemma lwp_then {A B} (m : s3_prog A) (k : A → s3_prog B) h (P : A → Prop) Q :
  lwp m h P → (∀ a h, P a → lwp (k a) h Q) → lwp (p_then m k) h Q.
Proof. intros H Hk. apply wp_bind. eapply wp_mono; [exact H|]. intros x h' (a & -> & Ha). by apply Hk. Qed.

Lemma lwp_call c h (Q : s3_answer c → Prop) : (∀ r, truthful_s3 c r → Q r) → lwp (p_call c) h Q.
Proof. intros H. split; [done|]. intros r Hr. exists r. eauto. Qed.

Lemma lwp_fold {A B} (f : B → A → s3_prog B) (I : list A → B → Prop) (l : list A) b h :
  I [] b → (∀ k x l' b h, l = k ++ x :: l' → I k b → lwp (f b x) h (I (k ++ [x]))) → lwp (p_fold f l b) h (I l).
Proof.
  intros Hi Hf. assert (H : ∀ rest k b h, l = k ++ rest → I k b → lwp (p_fold f rest b) h (I l)); [|by apply (H l [])].
  clear b h Hi. induction rest as [|x rest IH]; intros k b h E Hi; cbn [p_fold].
  - apply lwp_ok. by rewrite E, app_nil_r.
  - eapply lwp_then; [by eapply Hf|]. intros b' h' Hi'. apply (IH (k ++ [x])); [by rewrite <- app_assoc|done].
Qed.

Lemma at_root d : Forall good_seg d → path_join (render root) (Join #"/" d) = render (root ++ d).
Proof.
  intros Hd. rewrite join_key by (by apply good_norm || by apply plain_Join). by rewrite key_segs_Join by (by apply good_norm).
Qed.

Lemma entries_of d o l h : Forall good_seg d → node_at t d = Some (TDir o l) →
  lwp (getDirEntries (render (root ++ d))) h (λ r, r = map obj_of l).
Proof.
  intros Hd Ht. unfold getDirEntries. eapply lwp_then; [apply lwp_call; intros r Hr; exact (Hr d Hd eq_refl)|].
  intros r h' Hr. cbv beta in Hr. rewrite Ht in Hr. subst r. cbn [or_else]. eapply lwp_then; [by apply (lwp_ok _ _ (λ f, f = o))|]. intros ? h2 ->.
  destruct (node_at_wf t d _ Hwf Ht) as [Hw _]. pose proof (wf_kind _ Hw) as Hk. cbn [obj_of] in Hk. rewrite Hk. cbn [negb].
  eapply lwp_then; [apply lwp_call; intros r Hr; exact (Hr d o l Hd eq_refl Ht)|]. intros r h3 Hr. cbv beta in Hr. subst r. by apply lwp_ok.
Qed.

(** Of a part of the picked objects, the files are in the contents and, with a
    delimiter, the directories in the prefixes. *)
Definition listed_as (del : bool) (resp : objectList) (x : list (list gostr * tree)) (resp' : objectList) : Prop :=
  Contents resp' = Contents resp ++ map content_of (filter is_file x) ∧
  CommonPrefixes resp' = CommonPrefixes resp ++ if del then map key_of (filter (λ y, negb (is_file y)) x) else [].

Lemma picked_app del d rem k l : picked del d rem (k ++ l) = picked del d rem k ++ picked del d rem l.
Proof. unfold picked. by rewrite map_app, concat_app. Qed.

Lemma picked_one del d rem c : picked del d rem [c] =
  if HasPrefix (name_of c) rem then (d ++ [name_of c], c) :: (if del then [] else below (d ++ [name_of c]) c) else [].
Proof. unfold picked. cbn [map concat]. apply app_nil_r. Qed.

Lemma listed_trans del r0 x r1 y r2 : listed_as del r0 x r1 → listed_as del r1 y r2 → listed_as del r0 (x ++ y) r2.
Proof.
  intros [E1 E2] [E3 E4]. unfold listed_as. rewrite E3, E4, E1, E2, !filter_app, !map_app, <- !app_assoc. split; [done|].
  by destruct del; rewrite ?filter_app, ?map_app.
Qed.

(** A directory is new among the prefixes of the directories before it. *)
Lemma prefix_new d rem k c l : Forall good_seg d → Forall (λ c, good_seg (name_of c)) (k ++ c :: l) →
  NoDup (map (λ c, name_of c) (k ++ c :: l)) →
  key_of (d ++ [name_of c], c) ∉ map key_of (filter (λ y, negb (is_file y)) (picked true d rem k)).
Proof.
  intros Hd Hg Hnd (y & E & [_ Hy]%list_elem_of_filter)%list_elem_of_fmap. apply list_elem_of_In in Hy.
  unfold picked in Hy. apply in_concat in Hy as (z & (c' & <- & Hc')%in_map_iff & Hy).
  destruct (HasPrefix (name_of c') rem); [|done]. destruct Hy as [<-|[]]. unfold key_of in E. cbn [fst] in E.
  apply list_elem_of_In in Hc'. apply Forall_app in Hg as [Hg [Hc _]%Forall_cons]. pose proof (proj1 (Forall_forall _ _) Hg _ Hc') as Hgc'.
  apply Join_inj in E; [|apply good_norm, Forall_app; split; [done|by constructor]..]. apply app_inj_tail in E as [_ E].
  rewrite map_app in Hnd. apply NoDup_app in Hnd as (_ & Hnd & _). apply (Hnd (name_of c')).
  - by apply (list_elem_of_fmap_2 (λ c, name_of c)).
  - rewrite <- E. cbn [map]. by left.
Qed.

Lemma entries_spec fuel d o l rem del resp h : Forall good_seg d → node_at t d = Some (TDir o l) → (height (TDir o l) ≤ fuel)%nat →
  (del = true → CommonPrefixes resp = []) →
  lwp (entryListR fuel (render root) (Join #"/" d) rem del resp) h (listed_as del resp (picked del d rem l)).
Proof.
  revert d o l rem del resp h. induction fuel as [|fuel IH]; intros d o l rem del resp h Hd Ht Hh Hp; [cbn [height] in Hh; lia|].
  cbn [entryListR]. rewrite at_root by done. destruct (node_at_wf t d _ Hwf Ht) as [Hw _]. pose proof (wf_dir _ _ Hw) as (_ & Hnd & Hg & Hl).
  eapply lwp_then; [by eapply entries_of|]. intros ? h1 ->.
  eapply lwp_mono; [apply (lwp_fold _ (λ k r, ∃ k', k = map obj_of k' ∧ k' `prefix_of` l ∧ listed_as del resp (picked del d rem k') r))|].
  - exists []. split; [done|]. split; [apply prefix_nil|]. split; [by rewrite app_nil_r|]. by destruct del; rewrite app_nil_r.
  - intros k x l' r h2 El (k' & -> & [l2 El2] & Hr). rewrite El2, map_app in El. apply app_inv_head in El.
    destruct l2 as [|c l2]; [done|]. injection El as <- _. pose proof Hg as Hg'. rewrite El2 in Hg'.
    assert (Hc : c ∈ l) by (rewrite El2; apply elem_of_app; right; left). pose proof (proj1 (Forall_forall _ _) Hg c Hc) as Hgc.
    pose proof (wf_kind _ (proj1 (Forall_forall _ _) Hl c Hc)) as Hk. cbv zeta. rewrite path_join_rel by done.
    assert (Hadd : ∀ r', listed_as del r (picked del d rem [c]) r' →
      ∃ k0, map obj_of k' ++ [obj_of c] = map obj_of k0 ∧ k0 `prefix_of` l ∧ listed_as del resp (picked del d rem k0) r').
    { intros r' Hr'. exists (k' ++ [c]). split; [by rewrite map_app|]. split; [exists l2; by rewrite <- app_assoc|].
      rewrite picked_app. by eapply listed_trans. }
    rewrite picked_one in Hadd. destruct (HasPrefix (name_of c) rem); cbn [negb].
    + rewrite Hk. destruct c as [fo|fo fl]; [|destruct del].
      * apply lwp_ok, Hadd. assert (Eb : (if del then [] else below (d ++ [name_of (TFile fo)]) (TFile fo)) = []) by (by destruct del).
        rewrite Eb. split; [by rewrite Add_contents|]. rewrite Add_prefixes. destruct del; by rewrite app_nil_r.
      * apply lwp_ok, Hadd. split; [rewrite AddPrefix_contents; cbn; by rewrite app_nil_r|]. cbn. apply AddPrefix_prefixes.
        destruct Hr as [_ ->]. rewrite Hp by done. cbn [app]. pose proof (prefix_new d rem k' (TDir fo fl) l2 Hd Hg') as Hnew. apply Hnew.
        by rewrite <- El2.
      * eapply lwp_mono; [eapply (IH (d ++ [name_of (TDir fo fl)]) fo fl [] false r); [apply Forall_app; split; [done|by constructor]|by eapply node_at_child| |done]|].
        -- apply height_child in Hc. cbn [height] in Hh, Hc |- *. lia.
        -- intros r' Hr'. apply Hadd. destruct Hr' as [E1 E2]. split; [by rewrite E1|done].
    + apply lwp_ok, Hadd. split; [by rewrite app_nil_r|]. destruct del; by rewrite app_nil_r.
  - intros r (k' & Ek & [l2 ->] & Hr). rewrite map_app in Ek. apply (f_equal length) in Ek. rewrite length_app, !length_map in Ek.
    destruct l2; [by rewrite app_nil_r|cbn in Ek; lia].
Qed.

Lemma prefixParser_dir p d rem : px_Prefix p = dir_prefix d ++ rem → ("/"%char ∉ rem) → prefixParser p = (Join #"/" d, rem).
Proof.
  intros E Hr. unfold prefixParser, LastIndex. rewrite E. destruct (decide (d = [])) as [->|Hne].
  - cbn [dir_prefix map concat app]. by rewrite last_index_none.
  - rewrite dir_prefix_Join, <- app_assoc by done. cbn [app]. rewrite last_index_byte by done. zcmp.
    replace (Z.to_nat (0 + Z.of_nat (length (Join #"/" d)))) with (length (Join #"/" d)) by lia.
    replace (Z.to_nat (0 + Z.of_nat (length (Join #"/" d)) + 1)) with (length (Join #"/" d) + 1)%nat by lia.
    by rewrite take_app_length, <- drop_drop, drop_app_length.
Qed.

Definition delimited (p : Prefix) : bool := if bool_decide (TrimSpace (px_Delimiter p) = []) then false else px_HasDelimiter p.

Definition page_result (o : outcome ObjectList) : finish (s3_error + ObjectList) :=
  match o with Ret r => Returned (inr r) | Panic => Panicked end.

Context (fuel : nat) (bucket : gostr) (b : Bucket) (Hb : getBucketByName bucket = inr b) (Hpath : b_Path b = render root).
Context (Hfuel : (height t ≤ fuel)%nat).

Lemma ListBucket_spec p d rem page h : px_Prefix p = dir_prefix d ++ rem → Forall good_seg d → ("/"%char ∉ rem) →
  wp truthful_s3 (λ _ _, True) (ListBucket fuel bucket (Some p) page) h (λ x _, x =
    page_result (pager (listed_dirs t (px_Prefix p) (delimited p)) (listed_files t (px_Prefix p) (delimited p)) page)).
Proof.
  intros Ep Hd Hr. unfold ListBucket. rewrite Hb. cbn [p_result p_then prog_bind]. cbv zeta. unfold default, id. fold (delimited p).
  rewrite (prefixParser_dir p d rem) by done. rewrite Hpath.
  assert (El : filter (λ x, matches (px_Prefix p) (delimited p) x) (below [] t) =
    match node_at t d with Some (TDir o l) => picked (delimited p) d rem l | _ => [] end).
  { rewrite Ep. apply listed_picked; [done|by apply good_norm|done]. }
  unfold listed_files, listed_dirs. rewrite (filter_both (matches (px_Prefix p) (delimited p)) is_file), (filter_both (matches (px_Prefix p) (delimited p)) (λ x, negb (is_file x))), El.
  apply wp_bind. destruct (node_at t d) as [[o|o l]|] eqn:Ed.
  - destruct fuel as [|f]; [destruct t; cbn in Hfuel; lia|]. cbn [entryListR]. rewrite at_root by done. unfold getDirEntries.
    split; [done|]. intros r Hg. specialize (Hg d Hd eq_refl). rewrite Ed in Hg. subst r. cbn.
    destruct (node_at_wf t d _ Hwf Ed) as [Hk%wf_kind _]. cbn in Hk. rewrite Hk. cbn. rewrite new_prefixes, new_contents.
    destruct (delimited p); by destruct (pager _ _ page).
  - destruct (node_at_wf t d _ Hwf Ed) as [_ Hh]. eapply wp_mono; [apply (entries_spec fuel d o l rem (delimited p)); [done|done|lia|by rewrite new_prefixes]|].
    intros x h' (r & -> & E1 & E2). cbn [bind_post]. rewrite new_contents in E1. rewrite new_prefixes in E2. rewrite E1, E2. cbn [app].
    by destruct (pager _ _ page).
  - destruct fuel as [|f]; [destruct t; cbn in Hfuel; lia|]. cbn [entryListR]. rewrite at_root by done. unfold getDirEntries.
    split; [done|]. intros r Hg. specialize (Hg d Hd eq_refl). rewrite Ed in Hg. destruct Hg as [e ->]. cbn. rewrite new_prefixes, new_contents.
    destruct (delimited p); by destruct (pager _ _ page).
Qed.

(** ** Pages *)

(** A client follows the pages of a listing: it asks for the first page, then
    with the marker of each answer for the next, until one is not truncated. *)
Inductive progress := Start | Next (marker : gostr) | Done.

Definition page_at (maxKeys : Z) (q : progress) : ListBucketPage :=
  match q with
  | Next k => {| pg_Marker := k; pg_HasMarker := true; pg_MaxKeys := maxKeys |}
  | _ => {| pg_Marker := []; pg_HasMarker := false; pg_MaxKeys := maxKeys |}
  end.

(** [walk n q l]: after [n] requests the client is at [q] and has got [l]. *)
Inductive walk (p : Prefix) (maxKeys : Z) : nat → progress → list Content → Prop :=
  | walk_start : walk p maxKeys 0 Start []
  | walk_page n q l tr resp :
      walk p maxKeys n q l → q ≠ Done →
      runs_to (ListBucket fuel bucket (Some p) (page_at maxKeys q)) tr (Returned (inr resp)) →
      Forall (λ e, truthful_s3 (projT1 e) (projT2 e)) tr →
      walk p maxKeys (S n) (if ol_IsTruncated resp then Next (ol_NextMarker resp) else Done) (l ++ Contents (ol_list resp)).
End listing.

Lemma below_segs t : wf_bucket t = true → NoDup (map fst (below [] t)) ∧ Forall (Forall norm_seg) (map fst (below [] t)).
Proof.
  remember (height t) as n eqn:Hn. assert (Hle : (height t ≤ n)%nat) by lia. clear Hn. revert t Hle.
  induction n as [|n IH]; intros [o|o l] Hh Hw; cbn [height] in Hh; [lia|lia|split; constructor|].
  rewrite below_children. apply wf_dir in Hw as (_ & Hnd & Hg & Hl).
  assert (H : NoDup (map fst (concat (map (λ c, ([name_of c], c) :: map (shift [name_of c]) (below [] c)) l))) ∧
    Forall (λ s, Forall norm_seg s ∧ ∃ m s', s = m :: s' ∧ m ∈ map (λ c, name_of c) l)
      (map fst (concat (map (λ c, ([name_of c], c) :: map (shift [name_of c]) (below [] c)) l)))).
  { assert (Hhl : ∀ c, c ∈ l → (height c ≤ n)%nat) by (intros c Hc%height_child; lia). clear Hh.
    induction l as [|c l IHl]; [split; constructor|]. apply NoDup_cons in Hnd as [Hc Hnd]. apply Forall_cons in Hg as [Hgc Hg].
    apply Forall_cons in Hl as [Hwc Hl]. destruct IHl as [Hn1 Hf1]; [done..|by intros; apply Hhl; right|].
    destruct (IH c (Hhl c ltac:(left)) Hwc) as [Hn2 Hf2]. cbn [map concat app fst]. rewrite map_app, map_map.
    assert (Em : map (λ x, (shift [name_of c] x).1) (below [] c) = map (cons (name_of c)) (map fst (below [] c))) by (by rewrite map_map).
    rewrite Em. split.
    - apply NoDup_cons. split.
      + intros [(s & [= E] & (x & -> & Hx)%list_elem_of_fmap)%list_elem_of_fmap|Hin]%elem_of_app; [by apply (below_ne c x)|].
        apply (proj1 (Forall_forall _ _) Hf1) in Hin as (_ & m & s' & [= <- <-] & Hm). done.
      + apply NoDup_app. split; [by apply NoDup_fmap_2; [intros ?? [=]|]|]. split; [|done].
        intros s (s2 & -> & _)%list_elem_of_fmap Hin. apply (proj1 (Forall_forall _ _) Hf1) in Hin as (_ & m & s' & [= <- <-] & Hm). done.
    - apply Forall_cons. split; [split; [repeat constructor; apply Hgc|eexists _, _; split; [done|left]]|]. apply Forall_app. split.
      + apply Forall_forall. intros s (s2 & -> & Hs2)%list_elem_of_fmap. split; [|eexists _, _; split; [done|left]].
        constructor; [apply Hgc|]. by apply (proj1 (Forall_forall _ _) Hf2).
      + eapply Forall_impl; [exact Hf1|]. intros s (? & m & s' & -> & Hm). split; [done|]. eexists _, _. split; [done|by right]. }
  destruct H as [? H]. split; [done|]. eapply Forall_impl; [exact H|]. by intros s [? _].
Qed.

Lemma keys_nodup t : wf_bucket t = true → NoDup (map key_of (below [] t)).
Proof.
  intros [Hnd Hn]%below_segs. unfold key_of. rewrite <- (map_map fst (Join #"/")). revert Hnd Hn.
  generalize (map fst (below [] t)). intros k Hnd Hn.
  induction k as [|s k IH]; [constructor|]. apply NoDup_cons in Hnd as [Hs Hnd]. apply Forall_cons in Hn as [Hns Hn]. cbn [map].
  apply NoDup_cons. split; [|by apply IH]. intros (s' & E & Hin)%list_elem_of_fmap.
  apply Join_inj in E; [by subst|done|by apply (proj1 (Forall_forall _ _) Hn)].
Qed.

Lemma kept_keys_nodup (q : list gostr * tree → bool) t : wf_bucket t = true → NoDup (map key_of (filter (λ x, q x) (below [] t))).
Proof.
  intros H%keys_nodup. revert H. generalize (below [] t). intros k. induction k as [|x k IH]; [constructor|].
  cbn [map]. intros [Hx Hk]%NoDup_cons.
  rewrite filter_cons. destruct (decide _); [|by apply IH]. cbn [map]. apply NoDup_cons. split; [|by apply IH].
  intros (y & E & [_ Hy]%list_elem_of_filter)%list_elem_of_fmap. apply Hx. rewrite E. by apply list_elem_of_fmap_2.
Qed.

Lemma listed_keys_nodup t prefix del : wf_bucket t = true → NoDup (map k_Key (listed_files t prefix del)).
Proof. intros H. unfold listed_files. rewrite map_map. cbn [content_of k_Key]. by apply kept_keys_nodup. Qed.

Lemma listed_dirs_nodup t prefix del : wf_bucket t = true → NoDup (listed_dirs t prefix del).
Proof. intros H. unfold listed_dirs. destruct del; [by apply kept_keys_nodup|constructor]. Qed.

Section whole.
Context {MS : MetaStore} {HE : HandlerEnv} {SL : SortLib} {SLaws : SortLaws} {G : Gofakes3} {GL : Gofakes3Laws} {SE : S3Env}.

Lemma spend_take {A} n (l : list A) : (spend (Z.of_nat n) l).1 = take n l.
Proof.
  revert n. induction l as [|x l IH]; intros n; [by rewrite take_nil|]. cbn [spend]. destruct n as [|n]; [done|].
  zcmp. replace (Z.of_nat (S n) - 1) with (Z.of_nat n) by lia. specialize (IH n). destruct (spend _ l). simpl in *. by rewrite IH.
Qed.

Lemma fold_Add cs r : Contents (fold_left (λ r c, Add c r) cs r) = Contents r ++ cs ∧
  CommonPrefixes (fold_left (λ r c, Add c r) cs r) = CommonPrefixes r.
Proof.
  revert r. induction cs as [|c cs IH]; intros r; [by rewrite app_nil_r|]. cbn [fold_left]. destruct (IH (Add c r)) as [-> ->].
  by rewrite Add_contents, Add_prefixes, <- app_assoc.
Qed.

Lemma sort_nil {A} (less : A → A → bool) : sort_Slice less [] = [].
Proof. by apply Permutation_nil_r, sort_Slice_perm. Qed.

Lemma spend_all {A} k (l : list A) : Z.of_nat (length l) ≤ k → spend k l = (l, k - Z.of_nat (length l)).
Proof.
  revert k. induction l as [|x l IH]; intros k Hk; cbn [spend length] in *; [f_equal; lia|].
  rewrite (proj2 (Z.leb_gt _ _)) by lia. rewrite IH by lia. f_equal. lia.
Qed.

Lemma fold_AddPrefix ps r : NoDup (CommonPrefixes r ++ ps) →
  CommonPrefixes (fold_left (λ r p, AddPrefix p r) ps r) = CommonPrefixes r ++ ps ∧
  Contents (fold_left (λ r p, AddPrefix p r) ps r) = Contents r.
Proof.
  revert r. induction ps as [|p ps IH]; intros r Hnd; [by rewrite app_nil_r|]. cbn [fold_left].
  assert (Hp : p ∉ CommonPrefixes r).
  { intros Hin. apply NoDup_app in Hnd as (_ & H & _). apply (H p Hin). left. }
  destruct (IH (AddPrefix p r)) as [-> ->]; rewrite AddPrefix_prefixes by done; rewrite <- app_assoc; [done|].
  by rewrite AddPrefix_contents.
Qed.

(** A first page with room for everything has everything. *)
Lemma pager_whole dirs cs page : NoDup dirs → pg_HasMarker page = false → 0 < pg_MaxKeys page →
  Z.of_nat (length dirs + length cs) ≤ pg_MaxKeys page →
  ∃ resp, pager dirs cs page = Ret resp ∧ CommonPrefixes (ol_list resp) ≡ₚ dirs ∧ Contents (ol_list resp) ≡ₚ cs ∧
    ol_IsTruncated resp = false.
Proof.
  intros Hnd Hm Hk Hlen. unfold pager, skip_marker. rewrite Hm. zcmp.
  pose proof (sort_Slice_perm _ str_less dirs) as Pd. pose proof (sort_Slice_perm _ by_time cs) as Pc.
  pose proof (Permutation_length Pd) as Ld. pose proof (Permutation_length Pc) as Lc.
  rewrite spend_all by (rewrite Ld; lia). rewrite spend_all by (rewrite Ld, Lc; lia).
  rewrite (proj2 (Z.ltb_ge _ _)) by (rewrite Ld, Lc; lia). eexists. split; [done|]. cbn [ol_list ol_IsTruncated].
  destruct (fold_AddPrefix (sort_Slice str_less dirs) NewObjectList) as [E1 E2]; [rewrite new_prefixes; by rewrite Pd|].
  destruct (fold_Add (sort_Slice by_time cs) (fold_left (λ r p, AddPrefix p r) (sort_Slice str_less dirs) NewObjectList)) as [E3 E4].
  rewrite E3, E4, E1, E2, new_prefixes, new_contents. by split_ands.
Qed.

Context (root : list gostr) (t : tree) (Hroot : Forall good_seg root) (Hwf : wf_bucket t = true).
Context (fuel : nat) (bucket : gostr) (b : Bucket) (Hb : getBucketByName bucket = inr b) (Hpath : b_Path b = render root).
Context (Hfuel : (height t ≤ fuel)%nat).

(** C24. A listing of the S3 server has exactly the objects of the bucket that
    S3 would list, for a prefix that consists of names of directories, each
    with a slash, and a rest without one (so not for one with an empty segment,
    a leading slash or dots, where the server lists keys without the prefix):
    every run of [ListBucket], on a bucket whose tree package [fs] answers
    from, ends with the page, cut by [pager], of the keys of all files below
    the bucket that have the prefix; with a delimiter it has only those
    without a slash after the prefix, and the directories with that property
    as common prefixes.  A prefix that leads to no directory gives an empty
    list and no error.  And a first page with room for all of them has each
    key and each common prefix exactly once and is not truncated. *)
Theorem s3_listing_exact p d rem page tr x :
  px_Prefix p = dir_prefix d ++ rem → Forall good_seg d → ("/"%char ∉ rem) →
  runs_to (ListBucket fuel bucket (Some p) page) tr x → Forall (λ e, truthful_s3 root t (projT1 e) (projT2 e)) tr →
  let dirs := listed_dirs t (px_Prefix p) (delimited p) in
  let files := listed_files t (px_Prefix p) (delimited p) in
  x = page_result (pager dirs files page) ∧
  (pg_HasMarker page = false → 0 < pg_MaxKeys page → Z.of_nat (length dirs + length files) ≤ pg_MaxKeys page →
   ∃ resp, x = Returned (inr resp) ∧ CommonPrefixes (ol_list resp) ≡ₚ dirs ∧ Contents (ol_list resp) ≡ₚ files ∧
     NoDup dirs ∧ NoDup (map k_Key files) ∧ ol_IsTruncated resp = false).
Proof.
  intros Ep Hd Hr Hrun Hg dirs files.
  assert (E : x = page_result (pager dirs files page)).
  { exact (wp_end _ _ _ _ _ (ListBucket_spec root t Hroot Hwf fuel bucket b Hb Hpath Hfuel p d rem page [] Ep Hd Hr) Hrun Hg). }
  split; [done|]. intros Hm Hk Hlen. destruct (pager_whole dirs files page) as (resp & Ep' & H1 & H2 & H3); [by apply listed_dirs_nodup|done..|].
  exists resp. rewrite E, Ep'. split_ands; try done; [by apply listed_dirs_nodup|by apply listed_keys_nodup].
Qed.
End whole.

Section pages.
Context {MS : MetaStore} {HE : HandlerEnv} {SL : SortLib} {SLaws : SortLaws} {G : Gofakes3} {GL : Gofakes3Laws} {SE : S3Env}.

(** A page without prefixes. *)
Lemma pager_contents cs page n : pg_MaxKeys page = Z.of_nat (S n) →
  let rest := skip_marker page k_Key (sort_Slice by_time cs) in
  ∃ resp, pager [] cs page = Ret resp ∧ Contents (ol_list resp) = take (S n) rest ∧
    ol_IsTruncated resp = (S n <? length rest)%nat ∧
    ((S n < length rest)%nat → ∃ c, rest !! n = Some c ∧ ol_NextMarker resp = k_Key c).
Proof.
  intros Hm. cbv zeta. unfold pager. rewrite Hm, sort_nil. zcmp.
  replace (skip_marker page id []) with (@nil gostr) by (unfold skip_marker; by destruct (pg_HasMarker page)). cbn [spend fold_left length Nat.add].
  set (rest := skip_marker page k_Key (sort_Slice by_time cs)). pose proof (spend_take (S n) rest) as Es.
  destruct (spend (Z.of_nat (S n)) rest) as [ps tk]. cbn [fst] in Es. subst ps.
  destruct (fold_Add (take (S n) rest) NewObjectList) as [Ec _]. rewrite new_contents in Ec. cbn [app] in Ec. rewrite Ec.
  destruct (Nat.ltb_spec (S n) (length rest)) as [Hlt|Hge].
  - rewrite (proj2 (Z.ltb_lt _ _)) by lia. destruct (lookup_lt_is_Some_2 rest n ltac:(lia)) as [c Hc].
    rewrite (take_S_r _ _ c) by done. rewrite last_snoc. eexists. split; [done|]. cbn [ol_list ol_IsTruncated ol_NextMarker].
    rewrite <- (take_S_r _ _ c) by done. split; [done|]. split; [done|]. intros _. by exists c.
  - rewrite (proj2 (Z.ltb_ge _ _)) by lia. eexists. split; [done|]. split; [done|]. split; [done|]. intros. lia.
Qed.

Lemma after_key (l : list Content) i c : NoDup (map k_Key l) → l !! i = Some c →
  after (λ x, bool_decide (k_Key x = k_Key c)) l = Some (drop (S i) l).
Proof.
  revert i. induction l as [|x l IH]; intros i; [done|]. cbn [map after]. intros [Hx Hl]%NoDup_cons. destruct i as [|i].
  - intros [= ->]. by rewrite bool_decide_true.
  - cbn. intros Hc. rewrite bool_decide_false; [by apply IH|]. intros E. apply Hx. rewrite E. apply list_elem_of_fmap_2. by eapply list_elem_of_lookup_2.
Qed.

Context (root : list gostr) (t : tree) (Hroot : Forall good_seg root) (Hwf : wf_bucket t = true).
Context (fuel : nat) (bucket : gostr) (b : Bucket) (Hb : getBucketByName bucket = inr b) (Hpath : b_Path b = render root).
Context (Hfuel : (height t ≤ fuel)%nat).
Context (p : Prefix) (d : list gostr) (rem : gostr) (Hp : px_Prefix p = dir_prefix d ++ rem) (Hd : Forall good_seg d) (Hrem : "/"%char ∉ rem).
Context (Hdel : delimited p = false) (n : nat).

Abbreviation maxKeys := (Z.of_nat (S n)).
Abbreviation all := (sort_Slice by_time (listed_files t (px_Prefix p) false)).

(** Where the client is: what it has got is a front of all, and the marker is
    the last of it. *)
Definition reached (k : nat) (q : progress) : Prop :=
  match q with
  | Start => k = 0%nat
  | Next key => (k * S n < length all)%nat ∧ ∃ i c, (k * S n)%nat = S i ∧ all !! i = Some c ∧ key = k_Key c
  | Done => (0 < k)%nat ∧ (length all ≤ k * S n)%nat
  end.

Lemma rest_at k q : reached k q → q ≠ Done → skip_marker (page_at maxKeys q) k_Key all = drop (k * S n) all.
Proof.
  destruct q as [|key|]; [intros -> _; done| |done]. intros (_ & i & c & E & Hc & ->) _. unfold skip_marker. cbn [page_at pg_HasMarker pg_Marker].
  rewrite (after_key all i c); [by rewrite E|rewrite sort_Slice_perm; by apply listed_keys_nodup|done].
Qed.

Lemma page_spec k q tr x : reached k q → q ≠ Done → runs_to (ListBucket fuel bucket (Some p) (page_at maxKeys q)) tr x →
  Forall (λ e, truthful_s3 root t (projT1 e) (projT2 e)) tr →
  ∃ resp, x = Returned (inr resp) ∧ Contents (ol_list resp) = take (S n) (drop (k * S n) all) ∧
    reached (S k) (if ol_IsTruncated resp then Next (ol_NextMarker resp) else Done).
Proof.
  intros Hq Hnd Hrun Hg. pose proof (wp_end _ _ _ _ _ (ListBucket_spec root t Hroot Hwf fuel bucket b Hb Hpath Hfuel p d rem _ [] Hp Hd Hrem) Hrun Hg) as ->.
  rewrite Hdel. unfold listed_dirs. destruct (pager_contents (listed_files t (px_Prefix p) false) (page_at maxKeys q) n) as (resp & E & Ec & Et & Em); [by destruct q|].
  rewrite (rest_at k q Hq Hnd) in Ec, Et, Em. rewrite E. exists resp. split; [done|]. split; [done|]. rewrite length_drop in Et, Em. rewrite Et.
  destruct (Nat.ltb_spec (S n) (length all - k * S n)) as [Hlt|Hge]; cbn [reached]; [|lia]. split; [lia|].
  destruct (Em Hlt) as (c & Hc & ->). exists (k * S n + n)%nat, c. rewrite lookup_drop in Hc. split; [lia|done].
Qed.

Lemma walk_reached k q l : walk root t fuel bucket p maxKeys k q l → reached k q ∧ l = take (k * S n) all.
Proof.
  induction 1 as [|k q l tr resp Hw [IH ->] Hnd Hrun Hg]; [done|]. destruct (page_spec k q tr _ IH Hnd Hrun Hg) as (r & [= <-] & Ec & Hr).
  split; [done|]. rewrite Ec. replace (S k * S n)%nat with (k * S n + S n)%nat by lia. by rewrite <- take_take_drop.
Qed.

(** C28. Following the pages of a listing without a delimiter ends and gives
    every object once: a client that asks for pages of at most [S n] keys has
    after [k] requests exactly the first [k * S n] of the keys with the prefix,
    in the order of their times; it is done precisely when these are all, so
    after as many requests as the pages need; and until then the next request
    is answered. *)
Theorem s3_pages_exact k q l : walk root t fuel bucket p maxKeys k q l →
  l = take (k * S n) all ∧
  (q = Done ↔ (0 < k)%nat ∧ (length all ≤ k * S n)%nat) ∧
  (q = Done → l ≡ₚ listed_files t (px_Prefix p) false) ∧
  (q ≠ Done → ∀ tr x, runs_to (ListBucket fuel bucket (Some p) (page_at maxKeys q)) tr x →
     Forall (λ e, truthful_s3 root t (projT1 e) (projT2 e)) tr → ∃ resp, x = Returned (inr resp)).
Proof.
  intros Hw. destruct (walk_reached k q l Hw) as [Hq ->]. split; [done|]. split; [|split].
  - destruct q; cbn [reached] in Hq; split; try done; lia.
  - intros ->. rewrite take_ge by apply Hq. apply sort_Slice_perm.
  - intros Hnd tr x Hrun Hg. destruct (page_spec k q tr x Hq Hnd Hrun Hg) as (resp & -> & _). by exists resp.
Qed.
End pages.

(** ** The S3 server: a bucket on which the theorems are used, and where the
      server does not do what S3 does *)

Module S3Example.
#[export] Existing Instances FsExample.metas FsExample.env.

(** The lists of the library: a prefix is added once. *)
#[export] Instance lists : Gofakes3 := {|
  objectList := list gostr * list Content;
  CommonPrefixes := fst;
  Contents := snd;
  NewObjectList := ([], []);
  AddPrefix p r := if bool_decide (p ∈ r.1) then r else (r.1 ++ [p], r.2);
  Add c r := (r.1, r.2 ++ [c]);
  ObjectRangeRequest := Z * Z;
  request_Range r size := inr r;
|}.
#[export] Instance lists_laws : Gofakes3Laws.
Proof. constructor; try done; intros p r; cbn; [intros H; by rewrite bool_decide_false|by case_bool_decide]. Qed.

#[export] Instance sorts : SortLib := {| sort_Slice A less l := sort_SliceStable less l; natural_Less := str_less |}.
#[export] Instance sorts_laws : SortLaws.
Proof. constructor. intros A less l. apply sort_SliceStable_perm. Qed.

Definition buckets : list Bucket := [ {| b_Name := #"b"; b_Path := #"/data" |}; {| b_Name := #"gone"; b_Path := #"/gone" |} ].

#[export] Instance senv : S3Env := {|
  S3Buckets := #"b"; S3AccessKeyId := []; S3SecretAccessKey := [];
  unmarshal_buckets s := inr buckets;
  FloatStringToTime s := Z.of_nat (length s);
  TimeToFloatString t := FormatInt t;
  Format_time t := FormatInt t;
|}.

Definition obj (name : gostr) (dir : bool) (modified : Z) : FObj :=
  {| f_addr := 0; f_ID := []; f_Path := []; f_Name := name; f_Size := 1; f_IsDir := dir; f_Modified := modified;
     f_Created := 0; f_Hash := []; f_Thumb := []; f_StorageClass := []; f_URL := None |}.

(** What is below [/data]. *)
Definition bucket : tree :=
  TDir (obj #"data" true 0)
    [ TFile (obj #"x" false 3);
      TDir (obj #"dir" true 0) [ TFile (obj #"y" false 2); TDir (obj #"sub" true 0) [ TFile (obj #"z" false 1) ] ];
      TDir (obj #"docs" true 0) [];
      TFile (obj #"download" false 4) ].

Definition found {A} (f : tree → option A) (p : gostr) : result A :=
  match clean_segs true p with
  | w :: segs =>
      if bool_decide (w = #"data") then
        match node_at bucket segs with
        | Some c => match f c with Some a => inr a | None => inl (ESentinel ObjectNotFound) end
        | None => inl (ESentinel ObjectNotFound)
        end
      else inl (ESentinel ObjectNotFound)
  | [] => inl (ESentinel ObjectNotFound)
  end.

Definition link_of (p : gostr) : link :=
  {| lk_URL := []; lk_MFile := true; lk_RangeReadCloser := None; lk_Concurrency := 0; lk_PartSize := 0 |}.

(** Nothing can be removed. *)
Definition answer (c : s3_action) : s3_answer c :=
  match c return s3_answer c with
  | XFs c =>
      match c return fs_answer c with
      | CGet p => found (λ t, Some (obj_of t)) p
      | CList p _ _ => found (λ t, match t with TDir _ l => Some (map obj_of l) | TFile _ => None end) p
      | CRemove _ => inl (EMessage #"read only")
      | c => FsExample.answer c
      end
  | XLink p => match found (λ t, Some (obj_of t)) p with inr o => inr (link_of p, o) | inl e => inl e end
  | XRangeReader _ _ => inr ()
  | XSeek _ | XRangeRead _ _ | XClose => None
  end.

Definition run {A} (m : s3_prog A) := run_with (λ _ c, answer c) [] m.
Definition calls {A} (m : s3_prog A) : list s3_action := map projT1 (run m).1.

Lemma s3_run_runs {A} (m : s3_prog A) : runs_to m (run m).1 (run m).2 ∧ Forall (λ e, ∃ c, e = ev c (answer c)) (run m).1.
Proof.
  destruct (run_with_runs (λ _ c, answer c) m []) as (tr & E & H). rewrite app_nil_l in E. unfold run. rewrite E. split; [done|].
  rewrite <- E. clear. assert (Hh : ∀ h, Forall (λ e, ∃ c, e = ev c (answer c)) h → Forall (λ e, ∃ c, e = ev c (answer c)) (run_with (λ _ c, answer c) h m).1).
  { induction m as [a|c k IH| |]; intros h Hh; try done. cbn. apply IH, Forall_app. split; [done|]. constructor; [by eexists|done]. }
  by apply Hh.
Qed.

Lemma truthful_answer c : truthful_s3 [ #"data"] bucket c (answer c).
Proof.
  destruct c as [c| | | | |]; try done. destruct c; try done; cbn [truthful_s3 answer]; unfold found.
  - intros segs o l Hs -> Hn. rewrite clean_segs_render by (apply good_norm, Forall_app; split; [constructor; [decide_now|done]|done]).
    cbn [app]. rewrite bool_decide_true by done. by rewrite Hn.
  - intros segs Hs ->. rewrite clean_segs_render by (apply good_norm, Forall_app; split; [constructor; [decide_now|done]|done]).
    cbn [app]. rewrite bool_decide_true by done. destruct (node_at bucket segs); [done|by eexists].
Qed.

Lemma run_truthful {A} (m : s3_prog A) : Forall (λ e, truthful_s3 [ #"data"] bucket (projT1 e) (projT2 e)) (run m).1.
Proof. eapply Forall_impl; [apply s3_run_runs|]. intros e [c ->]. apply truthful_answer. Qed.

Definition prefix (s : gostr) (delimiter : bool) : Prefix :=
  {| px_Prefix := s; px_HasPrefix := true; px_Delimiter := if delimiter then #"/" else []; px_HasDelimiter := delimiter |}.
Definition first_page (n : Z) : ListBucketPage := {| pg_Marker := []; pg_HasMarker := false; pg_MaxKeys := n |}.
Definition page_from (key : gostr) (n : Z) : ListBucketPage := {| pg_Marker := key; pg_HasMarker := true; pg_MaxKeys := n |}.

(** The keys of a page, whether there are more, and the marker. *)
Definition shown (o : outcome ObjectList) : option (list gostr * list gostr * option gostr) :=
  match o with
  | Ret r => Some (CommonPrefixes (ol_list r), map k_Key (Contents (ol_list r)), if ol_IsTruncated r then Some (ol_NextMarker r) else None)
  | Panic => None
  end.
Definition listed {A} (r : list s3_event * finish (A + ObjectList)) : option (list gostr * list gostr * option gostr) :=
  match r.2 with Returned (inr r) => shown (Ret r) | _ => None end.
Lemma listed_inv {A} (x : list s3_event * finish (A + ObjectList)) ps ks mk : listed x = Some (ps, ks, mk) →
  ∃ r, x.2 = Returned (inr r) ∧ map k_Key (Contents (ol_list r)) = ks ∧ (if ol_IsTruncated r then Some (ol_NextMarker r) else None) = mk.
Proof. unfold listed. destruct x.2 as [[|r]| |]; [done| |done..]. intros [= _ <- <-]. by exists r. Qed.
End S3Example.
Import S3Example.


Lemma s3_listing_exact_witness :
  listed (run (ListBucket 5 #"b" (Some (prefix #"d" true)) (first_page 10))) = Some ([ #"dir"; #"docs"], [ #"download"], None) ∧
  (run (ListBucket 5 #"b" (Some (prefix #"d" true)) (first_page 10))).2 =
    page_result (pager (listed_dirs bucket #"d" true) (listed_files bucket #"d" true) (first_page 10)) ∧
  ∃ resp, (run (ListBucket 5 #"b" (Some (prefix #"d" true)) (first_page 10))).2 = Returned (inr resp) ∧
    Contents (ol_list resp) ≡ₚ listed_files bucket #"d" true.
Proof.
  split; [vm_compute; reflexivity|].
  destruct (s3_listing_exact (SE := senv) [ #"data"] bucket ltac:(constructor; [decide_now|done]) eq_refl 5 #"b" _ eq_refl eq_refl ltac:(cbn; lia)
    (prefix #"d" true) [] #"d" (first_page 10) (run (ListBucket 5 #"b" (Some (prefix #"d" true)) (first_page 10))).1 _
    eq_refl ltac:(constructor) ltac:(decide_now) (proj1 (s3_run_runs _)) (run_truthful _)) as [H1 H2].
  split; [exact H1|]. destruct H2 as (resp & E & _ & Hc & _); [reflexivity|reflexivity|vm_compute; discriminate|].
  exists resp. split; [exact E|exact Hc].
Defined.

(** Two pages of a listing. *)
Lemma s3_pages_exact_witness :
  ∃ l, walk [ #"data"] bucket 5 #"b" (prefix #"d" false) 2 2 Done l ∧ map k_Key l = [ #"dir/sub/z"; #"dir/y"; #"download"] ∧
    l ≡ₚ listed_files bucket #"d" false.
Proof.
  set (p := prefix #"d" false). set (m1 := ListBucket 5 #"b" (Some p) (page_at 2 Start)).
  set (m2 := ListBucket 5 #"b" (Some p) (page_at 2 (Next #"dir/y"))).
  assert (E1 : listed (run m1) = Some ([], [ #"dir/sub/z"; #"dir/y"], Some #"dir/y")) by (vm_compute; reflexivity).
  assert (E2 : listed (run m2) = Some ([], [ #"download"], None)) by (vm_compute; reflexivity).
  apply listed_inv in E1 as (r1 & E1 & K1 & T1), E2 as (r2 & E2 & K2 & T2).
  destruct (ol_IsTruncated r1) eqn:B1; [|done]. destruct (ol_IsTruncated r2) eqn:B2; [done|]. injection T1 as N1.
  assert (W : walk [ #"data"] bucket 5 #"b" p 2 2 Done (([] ++ Contents (ol_list r1)) ++ Contents (ol_list r2))).
  { assert (W1 : walk [ #"data"] bucket 5 #"b" p 2 1 (Next #"dir/y") ([] ++ Contents (ol_list r1))).
    { rewrite <- N1. replace (Next (ol_NextMarker r1)) with (if ol_IsTruncated r1 then Next (ol_NextMarker r1) else Done) by (by rewrite B1).
      apply (walk_page _ _ _ _ _ _ 0 Start [] (run m1).1); [constructor|done|rewrite <- E1; apply s3_run_runs|apply run_truthful]. }
    replace Done with (if ol_IsTruncated r2 then Next (ol_NextMarker r2) else Done) at 1 by (by rewrite B2).
    apply (walk_page _ _ _ _ _ _ 1 (Next #"dir/y") _ (run m2).1); [done|done|rewrite <- E2; apply s3_run_runs|apply run_truthful]. }
  eexists. split; [exact W|]. split.
  - by rewrite app_nil_l, map_app, K1, K2.
  - apply (proj1 (proj2 (proj2 (s3_pages_exact (SE := senv) [ #"data"] bucket ltac:(constructor; [decide_now|done]) eq_refl 5 #"b" _ eq_refl eq_refl ltac:(cbn; lia)
      p [] #"d" eq_refl ltac:(constructor) ltac:(decide_now) eq_refl 1 2 Done _ W)))). reflexivity.
Defined.

(** Where the server does not do what S3 does.  With a delimiter the pages of a
    listing need not end: of three directories and two files, in pages of two,
    the client gets the first directories again and again and never the last
    file.  A negative number of keys panics, and so does the list of the buckets
    when the directory of one is missing.  A key with [..], or with a backslash
    in front of it, is a path outside of the bucket.  An object that could not
    be removed is reported as deleted.  A range of a local file is opened without
    its end.  The type a client has sent with an object is given for whatever is
    at its path later. *)
Theorem s3_defects :
  (let contents := [ {| k_Key := #"x"; k_LastModified := 1; k_Size := 1 |}; {| k_Key := #"y"; k_LastModified := 2; k_Size := 1 |} ] in
   let page pg := shown (pager [ #"a"; #"b"; #"c"] contents pg) in
   page (first_page 2) = Some ([ #"a"; #"b"], [], Some #"b") ∧
   page (page_from #"b" 2) = Some ([ #"c"], [ #"x"], Some #"x") ∧
   page (page_from #"x" 2) = Some ([ #"a"; #"b"], [], Some #"b")) ∧
  pager [] [] (first_page (-1)) = Panic ∧
  (run ListBuckets).2 = Panicked ∧
  (calls (HeadObject ∅ #"b" #"../secret") = [XFs (CGet #"/secret")] ∧
   calls (HeadObject ∅ #"b" #"..\secret") = [XFs (CGet #"/data/..\secret")] ∧ FixAndCleanPath #"/data/..\secret" = #"/secret") ∧
  ((run (DeleteMulti #"b" [ #"x"])).2 = Returned (inr ([ #"x"], [])) ∧ answer (XFs (CRemove #"/data/x")) = inl (EMessage #"read only")) ∧
  (∃ o, (run (GetObject ∅ #"b" #"x" (Some (0, 1)))).2 = Returned (inr o) ∧ ob_Contents o = OfFile 0) ∧
  (∃ o, (run (HeadObject {[ #"/data/x" := {[ #"Content-Type" := #"old/type" ]} ]} #"b" #"x")).2 = Returned (inr o) ∧
     ob_Metadata o !! #"Content-Type" = Some #"old/type").
Proof.
  split; [vm_compute; by repeat split|]. split; [reflexivity|]. split; [vm_compute; reflexivity|]. split; [vm_compute; by repeat split|].
  split; [vm_compute; by repeat split|]. split; [eexists; split; [vm_compute; reflexivity|reflexivity]|].
  eexists. split; [vm_compute; reflexivity|vm_compute; reflexivity].
Qed.
