(* ===== verification/Alias.v ===== *)
(** * The alias driver: [drivers/alias]

    An alias shows directories of other storages under names of its own;
    several directories under one name are shown as one.  The driver is a
    program over the calls of packages [fs] and [op]. *)

From S2P Require Import Prelude GoStrings Errs Store Paths HttpRange Crypto Users Perm Prog Sign Shares ShareHandlers FsHandlers FsHandlersSpec FsHandlersThms Downloads.

Local Open Scope Z_scope.

(** ** The state *)

Record Addition := {
  ad_Paths : gostr;
  ProtectSameName : bool;
  DownloadConcurrency : Z;
  DownloadPartSize : Z;
  Writable : bool;
}.

(** [al_Modified] and [al_ProxyRange] are fields of the storage. *)
Record Alias := {
  al_Addition : Addition;
  al_Modified : Z;
  al_ProxyRange : bool;
  pathMap : gmap gostr (list gostr);
  autoFlatten : bool;
  oneKey : gostr;
}.

Record LinkArgs := { la_Redirect : bool; la_HttpReq : bool }.
Record ArchiveInnerArgs := { ia_Link : LinkArgs; ia_Password : gostr; ia_InnerPath : gostr }.

(** A storage that a path resolves to: is it an alias, and does its driver read
    archives? *)
Record al_storage := { as_Down : DownStorage; as_Alias : bool; as_ArchiveReader : bool }.

(** What a driver tells about an archive. *)
Class ArchiveLib := { ArchiveMeta : Type }.

(** ** Calls *)

Inductive al_action :=
  | AFs (c : fs_action)
  | APutURL (dir name url : gostr)
  | AResolve (path : gostr)
  | ALink (s : al_storage) (path : gostr) (args : LinkArgs)
  | ASign (path : gostr)
  | ASignArchive (path : gostr)
  | AArchiveMeta (s : al_storage) (path : gostr)
  | AListArchive (s : al_storage) (path : gostr) (args : ArchiveInnerArgs)
  | AExtract (s : al_storage) (path : gostr) (args : ArchiveInnerArgs)
  | ADecompress (src dst : gostr).

Definition al_answer {AL : ArchiveLib} (c : al_action) : Type :=
  match c with
  | AFs c => fs_answer c
  | APutURL _ _ _ | ADecompress _ _ => result unit
  | AResolve _ => result (al_storage * gostr)
  | ALink _ _ _ | AExtract _ _ _ => result link
  | ASign _ | ASignArchive _ => gostr
  | AArchiveMeta _ _ => result ArchiveMeta
  | AListArchive _ _ _ => result (list FObj)
  end.

Section alias.
Context {AL : ArchiveLib} {HE : HandlerEnv} {DE : DownEnv}.
(** The meta of the request, which package [fs] finds in the context. *)
Context (meta : option Meta).

Definition al_prog (A : Type) := prog al_answer (error + A).

Definition not_found : error := ESentinel ObjectNotFound.

(** An answer that is an error, or the value. *)
Definition al_do {A} (m : al_prog (result A)) : al_prog A := try^ r := m in p_result r.

(** ** [util.go] *)

(** The zero value of [time.Time]. *)
Definition unset_time : Z := -62135596800.

(** An object that the driver makes. *)
Definition new_object (path name : gostr) (size modified : Z) (dir : bool) (hash thumb : gostr) : FObj :=
  {| f_addr := 0; f_ID := []; f_Path := path; f_Name := name; f_Size := size; f_IsDir := dir; f_Modified := modified;
     f_Created := unset_time; f_Hash := hash; f_Thumb := thumb; f_StorageClass := []; f_URL := None |}.

(** The order of the names is that of the map, which is not specified. *)
Definition listRoot (d : Alias) : list FObj :=
  map (λ '(k, _), new_object [] k 0 (al_Modified d) true [] []) (map_to_list (pathMap d)).

Definition getPair (path : gostr) : gostr * gostr :=
  let i := IndexByte path ":" in
  if (0 <=? i) && negb (Contains (take (Z.to_nat i) path) #"/")
  then (take (Z.to_nat i) path, drop (Z.to_nat (i + 1)) path)
  else (path_Base path, path).

Definition getRootAndPath (d : Alias) (path : gostr) : gostr * gostr :=
  if autoFlatten d then (oneKey d, path)
  else
    let path := TrimPrefix path #"/" in
    let i := IndexByte path "/" in
    if i <? 0 then (path, []) else (take (Z.to_nat i) path, drop (Z.to_nat (i + 1)) path).

Definition al_get (path dst sub : gostr) : al_prog FObj :=
  try^ obj := al_do (p_call (AFs (CGet (path_join dst sub)))) in
  p_ok (new_object path (f_Name obj) (f_Size obj) (f_Modified obj) (f_IsDir obj) (f_Hash obj) []).

Definition shown_obj (obj : FObj) : FObj :=
  new_object [] (f_Name obj) (f_Size obj) (f_Modified obj) (f_IsDir obj) [] (f_Thumb obj).

Definition al_list (dst sub : gostr) (refresh : bool) : al_prog (list FObj) :=
  try^ objs := al_do (p_call (AFs (CList (path_join dst sub) refresh meta))) in
  p_ok (map shown_obj objs).

Definition proxied (d : Alias) (args : LinkArgs) (url : gostr) : link :=
  {| lk_URL := url; lk_MFile := false;
     lk_RangeReadCloser := if la_HttpReq args && al_ProxyRange d then Some NoProxyRange else None;
     lk_Concurrency := 0; lk_PartSize := 0 |}.

Definition al_link (d : Alias) (args : LinkArgs) (dst sub : gostr) : al_prog link :=
  let reqPath := path_join dst sub in
  try^ (storage, reqActualPath) := al_do (p_call (AResolve reqPath)) in
  if negb (as_Alias storage) && negb (la_Redirect args) then al_do (p_call (ALink storage reqActualPath args))
  else
    try^ _ := al_do (p_call (AFs (CGet reqPath))) in
    if ShouldProxy (as_Down storage) (path_Base sub) then
      try^ sg := p_call (ASign reqPath) in
      p_ok (proxied d args (ApiUrl ++ #"/p" ++ EncodePath reqPath [true] ++ #"?sign=" ++ sg))
    else al_do (p_call (ALink storage reqActualPath args)).

(** The directory that has the object.  [first] is the one found before, when
    objects of the same name are protected. *)
Fixpoint find_target (protect : bool) (sub : gostr) (dsts : list gostr) (first : option gostr) : al_prog gostr :=
  match dsts with
  | [] => match first with Some p => p_ok p | None => p_fail not_found end
  | dst :: dsts' =>
      let path := path_join dst sub in
      try^ r := p_call (AFs (CGet path)) in
      match r with
      | inl _ => find_target protect sub dsts' first
      | inr _ =>
          if negb protect then p_ok path
          else match first with
               | None => find_target protect sub dsts' (Some path)
               | Some _ => p_fail (ESentinel NotImplement)
               end
      end
  end.

Definition getReqPath (d : Alias) (objPath : gostr) (isParent : bool) : al_prog gostr :=
  let '(root, sub) := getRootAndPath d objPath in
  if bool_decide (sub = []) && negb isParent then p_fail (ESentinel NotSupport)
  else
    match pathMap d !! root with
    | None => p_fail not_found
    | Some dsts => find_target (ProtectSameName (al_Addition d)) sub dsts None
    end.

Definition al_getArchiveMeta (dst sub : gostr) : al_prog ArchiveMeta :=
  try^ (storage, reqActualPath) := al_do (p_call (AResolve (path_join dst sub))) in
  if as_ArchiveReader storage then al_do (p_call (AArchiveMeta storage reqActualPath))
  else p_fail (ESentinel NotImplement).

Definition al_listArchive (args : ArchiveInnerArgs) (dst sub : gostr) : al_prog (list FObj) :=
  try^ (storage, reqActualPath) := al_do (p_call (AResolve (path_join dst sub))) in
  if as_ArchiveReader storage then al_do (p_call (AListArchive storage reqActualPath args))
  else p_fail (ESentinel NotImplement).

Definition al_extract (d : Alias) (args : ArchiveInnerArgs) (dst sub : gostr) : al_prog link :=
  let reqPath := path_join dst sub in
  try^ (storage, reqActualPath) := al_do (p_call (AResolve reqPath)) in
  if as_ArchiveReader storage then
    if negb (as_Alias storage) && negb (la_Redirect (ia_Link args)) then al_do (p_call (AExtract storage reqActualPath args))
    else
      try^ _ := al_do (p_call (AFs (CGet reqPath))) in
      if ShouldProxy (as_Down storage) (path_Base sub) then
        try^ sg := p_call (ASignArchive reqPath) in
        p_ok (proxied d (ia_Link args) (ApiUrl ++ #"/ap" ++ EncodePath reqPath [true] ++ #"?inner=" ++ EncodePath (ia_InnerPath args) [true]
          ++ #"&pass=" ++ QueryEscape (ia_Password args) ++ #"&sign=" ++ sg))
      else al_do (p_call (AExtract storage reqActualPath args))
  else p_fail (ESentinel NotImplement).

(** ** [driver.go] *)

Definition set_paths (m : gmap gostr (list gostr)) (flatten : bool) (key : gostr) (d : Alias) : Alias :=
  {| al_Addition := al_Addition d; al_Modified := al_Modified d; al_ProxyRange := al_ProxyRange d;
     pathMap := m; autoFlatten := flatten; oneKey := key |}.

Definition add_path (m : gmap gostr (list gostr)) (line : gostr) : gmap gostr (list gostr) :=
  let path := TrimSpace line in
  if bool_decide (path = []) then m
  else let '(k, v) := getPair path in <[ k := default [] (m !! k) ++ [v] ]> m.

Definition Init (d : Alias) : option error * Alias :=
  if bool_decide (ad_Paths (al_Addition d) = []) then (Some (EMessage #"paths is required"), d)
  else
    let m := fold_left add_path (Split "010" (ad_Paths (al_Addition d))) ∅ in
    match map_to_list m with
    | [(k, _)] => (None, set_paths m true k d)
    | _ => (None, set_paths m false [] d)
    end.

Definition Drop (d : Alias) : Alias := set_paths ∅ (autoFlatten d) (oneKey d) d.

(** The first target for which there is no error. *)
Fixpoint first_ok {A} (f : gostr → al_prog A) (e : error) (dsts : list gostr) : al_prog A :=
  match dsts with
  | [] => p_fail e
  | dst :: dsts' => prog_bind (f dst) (λ r, match r with inr a => p_ok a | inl _ => first_ok f e dsts' end)
  end.

Definition al_Get (d : Alias) (path : gostr) : al_prog FObj :=
  if PathEqual path #"/" then p_ok (new_object #"/" #"Root" 0 unset_time true [] [])
  else
    let '(root, sub) := getRootAndPath d path in
    match pathMap d !! root with
    | None => p_fail not_found
    | Some dsts => first_ok (λ dst, al_get path dst sub) not_found dsts
    end.

(** What there is of the listings of the targets. *)
Fixpoint list_all (sub : gostr) (refresh : bool) (dsts : list gostr) : al_prog (list FObj) :=
  match dsts with
  | [] => p_ok []
  | dst :: dsts' =>
      prog_bind (al_list dst sub refresh) (λ r,
        try^ rest := list_all sub refresh dsts' in
        p_ok (match r with inr tmp => tmp ++ rest | inl _ => rest end))
  end.

Definition al_List (d : Alias) (path : gostr) (refresh : bool) : al_prog (list FObj) :=
  if PathEqual path #"/" && negb (autoFlatten d) then p_ok (listRoot d)
  else
    let '(root, sub) := getRootAndPath d path in
    match pathMap d !! root with
    | None => p_fail not_found
    | Some dsts => list_all sub refresh dsts
    end.

(** The parts of a download, for links that are addresses. *)
Definition with_parts (d : Alias) (args : LinkArgs) (l : link) : link :=
  if negb (la_Redirect args) && bool_decide (lk_URL l ≠ []) then
    let a := al_Addition d in
    {| lk_URL := lk_URL l; lk_MFile := lk_MFile l; lk_RangeReadCloser := lk_RangeReadCloser l;
       lk_Concurrency := if 0 <? DownloadConcurrency a then DownloadConcurrency a else lk_Concurrency l;
       lk_PartSize := if 0 <? DownloadPartSize a then wrap64 (DownloadPartSize a * 1024) else lk_PartSize l |}
  else l.

Definition al_Link (d : Alias) (path : gostr) (args : LinkArgs) : al_prog link :=
  let '(root, sub) := getRootAndPath d path in
  match pathMap d !! root with
  | None => p_fail not_found
  | Some dsts => try^ l := first_ok (λ dst, al_link d args dst sub) not_found dsts in p_ok (with_parts d args l)
  end.

Definition al_GetArchiveMeta (d : Alias) (path : gostr) : al_prog ArchiveMeta :=
  let '(root, sub) := getRootAndPath d path in
  match pathMap d !! root with
  | None => p_fail not_found
  | Some dsts => first_ok (λ dst, al_getArchiveMeta dst sub) (ESentinel NotImplement) dsts
  end.

Definition al_ListArchive (d : Alias) (path : gostr) (args : ArchiveInnerArgs) : al_prog (list FObj) :=
  let '(root, sub) := getRootAndPath d path in
  match pathMap d !! root with
  | None => p_fail not_found
  | Some dsts => first_ok (λ dst, al_listArchive args dst sub) (ESentinel NotImplement) dsts
  end.

Definition al_Extract (d : Alias) (path : gostr) (args : ArchiveInnerArgs) : al_prog link :=
  let '(root, sub) := getRootAndPath d path in
  match pathMap d !! root with
  | None => p_fail not_found
  | Some dsts =>
      try^ l := first_ok (λ dst, al_extract d args dst sub) (ESentinel NotImplement) dsts in
      p_ok (with_parts d (ia_Link args) l)
  end.

(** *** Changes *)

(** The path of an object to change; several of a name are told by a text. *)
Definition located (d : Alias) (objPath : gostr) (isParent : bool) (same : gostr) : al_prog gostr :=
  prog_bind (getReqPath d objPath isParent) (λ r,
    match r with
    | inr p => p_ok p
    | inl e => p_fail (if IsNotImplement e then EMessage same else e)
    end).

Definition writing {A} (d : Alias) (k : al_prog A) : al_prog A :=
  if negb (Writable (al_Addition d)) then p_fail denied else k.

Inductive al_change :=
  | ChMakeDir (parent name : gostr)
  | ChMove (src dstDir : gostr)
  | ChRename (src name : gostr)
  | ChCopy (src dstDir : gostr)
  | ChRemove (obj : gostr)
  | ChPut (dstDir : gostr) (file : FileStream)
  | ChPutURL (dstDir name url : gostr)
  | ChDecompress (src dstDir : gostr).

Definition al_MakeDir (d : Alias) (parent name : gostr) : al_prog unit :=
  writing d (
  try^ reqPath := located d parent true #"same-name dirs cannot make sub-dir" in
  al_do (p_call (AFs (CMakeDir (path_join reqPath name))))).

Definition al_Move (d : Alias) (src dstDir : gostr) : al_prog unit :=
  writing d (
  try^ srcPath := located d src false #"same-name files cannot be moved" in
  try^ dstPath := located d dstDir true #"same-name dirs cannot be moved to" in
  al_do (p_call (AFs (CMove srcPath dstPath false)))).

Definition al_Rename (d : Alias) (src name : gostr) : al_prog unit :=
  writing d (
  try^ reqPath := located d src false #"same-name files cannot be Rename" in
  al_do (p_call (AFs (CRename reqPath name)))).

Definition al_Copy (d : Alias) (src dstDir : gostr) : al_prog unit :=
  writing d (
  try^ srcPath := located d src false #"same-name files cannot be copied" in
  try^ dstPath := located d dstDir true #"same-name dirs cannot be copied to" in
  try^ r := p_call (AFs (CCopy srcPath dstPath false false)) in
  match snd (r : option gostr * option error) with Some e => p_fail e | None => p_ok () end).

Definition al_Remove (d : Alias) (obj : gostr) : al_prog unit :=
  writing d (
  try^ reqPath := located d obj false #"same-name files cannot be Delete" in
  al_do (p_call (AFs (CRemove reqPath)))).

Definition al_Put (d : Alias) (dstDir : gostr) (file : FileStream) : al_prog unit :=
  writing d (
  try^ reqPath := located d dstDir true #"same-name dirs cannot be Put" in
  al_do (p_call (AFs (CPutDirectly reqPath file)))).

Definition al_PutURL (d : Alias) (dstDir name url : gostr) : al_prog unit :=
  writing d (
  try^ reqPath := located d dstDir true #"same-name files cannot offline download" in
  al_do (p_call (APutURL reqPath name url))).

Definition al_ArchiveDecompress (d : Alias) (src dstDir : gostr) : al_prog unit :=
  writing d (
  try^ srcPath := located d src false #"same-name files cannot be decompressed" in
  try^ dstPath := located d dstDir true #"same-name dirs cannot be decompressed to" in
  al_do (p_call (ADecompress srcPath dstPath))).

Definition al_apply (d : Alias) (c : al_change) : al_prog unit :=
  match c with
  | ChMakeDir p n => al_MakeDir d p n
  | ChMove s t => al_Move d s t
  | ChRename s n => al_Rename d s n
  | ChCopy s t => al_Copy d s t
  | ChRemove o => al_Remove d o
  | ChPut t f => al_Put d t f
  | ChPutURL t n u => al_PutURL d t n u
  | ChDecompress s t => al_ArchiveDecompress d s t
  end.
End alias.
