(* ===== verification/AliasThms.v ===== *)
(** * The alias driver: what it reads and what it changes *)

From S2P Require Import Prelude GoStrings Errs Store Paths HttpRange Crypto Users Perm Prog Sign Shares ShareHandlers FsHandlers FsHandlersSpec FsHandlersThms FsHandlersExamples Downloads DownloadsThms Alias.

Local Open Scope Z_scope.

Section alias.
Context {AL : ArchiveLib} {HE : HandlerEnv} {DE : DownEnv} (meta : option Meta) (d : Alias).

Abbreviation al_event := (event al_answer).

(** The directories behind a path of the alias, and the rest of the path. *)
Definition targets (p : gostr) : list gostr := default [] (pathMap d !! (getRootAndPath d p).1).
Definition rest_of (p : gostr) : gostr := (getRootAndPath d p).2.

(** Look-ups of a history. *)
Definition had (h : list al_event) (q : gostr) : Prop := ∃ o, (ev (AFs (CGet q)) (inr o) : al_event) ∈ h.
Definition missed (h : list al_event) (q : gostr) : Prop := ∃ e, (ev (AFs (CGet q)) (inl e) : al_event) ∈ h.

(** The object of the alias at [p] was found at [q]: in a target that had it,
    after the targets before it had not; where objects of the same name are
    protected the others had not either.  A name of the alias itself is no
    object to change. *)
Definition found_at (h : list al_event) (p : gostr) (isParent : bool) (q : gostr) : Prop :=
  ∃ pre dst post, targets p = pre ++ dst :: post ∧ q = path_join dst (rest_of p) ∧ had h q ∧
    Forall (λ t, missed h (path_join t (rest_of p))) pre ∧
    (ProtectSameName (al_Addition d) = true → Forall (λ t, missed h (path_join t (rest_of p))) post) ∧
    (isParent = false → rest_of p ≠ []).

Definition al_allowed (c : al_change) (h : list al_event) (a : al_action) : Prop :=
  Writable (al_Addition d) = true ∧
  match a with
  | AFs (CGet _) => True
  | AFs (CMakeDir q) => ∃ p n q0, c = ChMakeDir p n ∧ found_at h p true q0 ∧ q = path_join q0 n
  | AFs (CMove q1 q2 _) => ∃ s t, c = ChMove s t ∧ found_at h s false q1 ∧ found_at h t true q2
  | AFs (CRename q n) => ∃ s, c = ChRename s n ∧ found_at h s false q
  | AFs (CCopy q1 q2 _ _) => ∃ s t, c = ChCopy s t ∧ found_at h s false q1 ∧ found_at h t true q2
  | AFs (CRemove q) => ∃ s, c = ChRemove s ∧ found_at h s false q
  | AFs (CPutDirectly q f) => ∃ t, c = ChPut t f ∧ found_at h t true q
  | APutURL q n u => ∃ t, c = ChPutURL t n u ∧ found_at h t true q
  | ADecompress q1 q2 => ∃ s t, c = ChDecompress s t ∧ found_at h s false q1 ∧ found_at h t true q2
  | _ => False
  end.

Lemma missed_app h k q : missed h q → missed (h ++ k) q.
Proof. intros [e He]. exists e. apply elem_of_app. by left. Qed.

Lemma found_app h k p b q : found_at h p b q → found_at (h ++ k) p b q.
Proof.
  intros (pre & dst & post & E & Eq & [o Ho] & H1 & H2 & H3). exists pre, dst, post. split; [done|]. split; [done|].
  split; [exists o; apply elem_of_app; by left|]. split; [eapply Forall_impl; [exact H1|]; intros; by apply missed_app|].
  split; [|done]. intros Hp. eapply Forall_impl; [by apply H2|]. intros; by apply missed_app.
Qed.

Section change.
Context (c : al_change) (Hw : Writable (al_Addition d) = true).
Abbreviation cwp m h Q := (ewp (λ _ _, True) (al_allowed c) m h Q).

(** [before] are the targets that were asked. *)
Lemma find_target_spec p b before rest first h :
  targets p = before ++ rest → (b = false → rest_of p ≠ []) →
  match first with
  | None => Forall (λ t, missed h (path_join t (rest_of p))) before
  | Some q => ProtectSameName (al_Addition d) = true ∧ ∃ pre dst mid, before = pre ++ dst :: mid ∧ q = path_join dst (rest_of p) ∧ had h q ∧
      Forall (λ t, missed h (path_join t (rest_of p))) pre ∧ Forall (λ t, missed h (path_join t (rest_of p))) mid
  end →
  cwp (find_target (ProtectSameName (al_Addition d)) (rest_of p) rest first) h (λ q h', found_at h' p b q ∧ h `prefix_of` h').
Proof.
  revert before first h. induction rest as [|t rest IH]; intros before first h Ht Hb Hf; cbn [find_target].
  - destruct first as [q|]; [|apply ewp_fail]. destruct Hf as (Hp & pre & dst & mid & -> & Eq & Hh & H1 & H2). apply ewp_ok.
    split; [|done]. exists pre, dst, mid. rewrite app_nil_r in Ht. done.
  - apply ewp_then, ewp_call; [done|]. intros r _. set (h1 := h ++ [ev _ r]). assert (Hpre : h `prefix_of` h1) by (by apply prefix_app_r).
    assert (Hm : ∀ l, Forall (λ t, missed h (path_join t (rest_of p))) l → Forall (λ t, missed h1 (path_join t (rest_of p))) l).
    { intros l Hl. eapply Forall_impl; [exact Hl|]. intros. by apply missed_app. }
    assert (Ht2 : targets p = (before ++ [t]) ++ rest) by (by rewrite <- app_assoc).
    destruct r as [e|o].
    + assert (Hmt : missed h1 (path_join t (rest_of p))) by (exists e; apply elem_of_app; right; by left).
      eapply ewp_mono; [apply (IH (before ++ [t]) first h1 Ht2 Hb)|intros q h' [Hq Hh]; split; [done|by etrans]].
      destruct first as [q|]; [|apply Forall_app; split; [by apply Hm|by constructor]].
      destruct Hf as (Hp & pre & dst & mid & -> & Eq & [o Ho] & H1 & H2). split; [done|]. exists pre, dst, (mid ++ [t]).
      split; [by rewrite <- app_assoc|]. split; [done|]. split; [exists o; apply elem_of_app; by left|]. split; [by apply Hm|].
      apply Forall_app. split; [by apply Hm|by constructor].
    + assert (Hht : had h1 (path_join t (rest_of p))) by (exists o; apply elem_of_app; right; by left).
      destruct (ProtectSameName (al_Addition d)) eqn:Ep; cbn [negb].
      * destruct first as [q|]; [apply ewp_fail|]. eapply ewp_mono; [apply (IH (before ++ [t]) (Some _) h1 Ht2 Hb)|intros q h' [Hq Hh]; split; [done|by etrans]].
        split; [done|]. exists before, t, []. split_and!; try done. by apply Hm.
      * destruct first as [q|]; [by destruct Hf|]. apply ewp_ok. split; [|done]. exists before, t, rest. split_and!; try done; [by apply Hm|congruence].
Qed.

Lemma located_spec p b msg h : cwp (located d p b msg) h (λ q h', found_at h' p b q ∧ h `prefix_of` h').
Proof.
  unfold located. apply wp_bind. eapply (wp_mono _ _ _ _ (λ x h', ∀ q, x = Returned (inr q) → found_at h' p b q ∧ h `prefix_of` h')).
  - unfold getReqPath. destruct (getRootAndPath d p) as [root sub] eqn:E. destruct (bool_decide (sub = []) && negb b) eqn:Eb; [apply ewp_fail|].
    destruct (pathMap d !! root) as [dsts|] eqn:Em; [|apply ewp_fail].
    assert (Es : sub = rest_of p) by (unfold rest_of; by rewrite E). rewrite Es in *.
    apply (find_target_spec p b [] dsts None h); [unfold targets; rewrite E; cbn; by rewrite Em| |constructor].
    intros -> Hn. by rewrite bool_decide_true in Eb.
  - intros [[e|q]| |] h' H; cbn; [by intros a [=]| |by intros a [=]..]. intros a [= <-]. by apply H.
Qed.

Lemma one_ok {A} p b msg (k : gostr → al_prog A) h :
  (∀ q h', found_at h' p b q → cwp (k q) h' (λ _ _, True)) → cwp (p_then (located d p b msg) k) h (λ _ _, True).
Proof. intros Hk. apply ewp_then. eapply ewp_mono; [apply located_spec|]. intros q h' [Hq _]. by apply Hk. Qed.

Lemma two_ok {A} p1 msg1 p2 msg2 (k : gostr → gostr → al_prog A) h :
  (∀ q1 q2 h', found_at h' p1 false q1 → found_at h' p2 true q2 → cwp (k q1 q2) h' (λ _ _, True)) →
  cwp (p_then (located d p1 false msg1) (λ q1, p_then (located d p2 true msg2) (k q1))) h (λ _ _, True).
Proof.
  intros Hk. apply ewp_then. eapply ewp_mono; [apply located_spec|]. intros q1 h1 [Hq1 _].
  apply ewp_then. eapply ewp_mono; [apply located_spec|]. intros q2 h2 [Hq2 [l ->]]. apply Hk; [by apply found_app|done].
Qed.

Lemma do_ok {A} (m : al_prog (result A)) h : cwp m h (λ _ _, True) → cwp (al_do m) h (λ _ _, True).
Proof. intros H. apply ewp_then. eapply ewp_mono; [exact H|]. intros r h' _. by apply ewp_result. Qed.
End change.

Ltac call_step := apply do_ok; split; [|done].

Lemma apply_ok c h : ewp (λ _ _, True) (al_allowed c) (al_apply d c) h (λ _ _, True).
Proof.
  assert (Hg : ∀ m : al_prog unit, (Writable (al_Addition d) = true → ewp (λ _ _, True) (al_allowed c) m h (λ _ _, True)) →
    ewp (λ _ _, True) (al_allowed c) (writing d m) h (λ _ _, True)).
  { intros m Hm. unfold writing. destruct (Writable _); [by apply Hm|apply ewp_fail]. }
  destruct c as [p n|s t|s n|s t|s|t f|t n u|s t]; cbn [al_apply]; apply Hg; intros Hw;
    (apply (two_ok _ Hw) || apply (one_ok _ Hw)); intros.
  - call_step. split; [done|]. by exists p, n, q.
  - call_step. split; [done|]. by exists s, t.
  - call_step. split; [done|]. by exists s.
  - apply ewp_then, ewp_call; [split; [done|]; by exists s, t|]. intros [tk [e|]] _; [apply ewp_fail|by apply ewp_ok].
  - call_step. split; [done|]. by exists s.
  - call_step. split; [done|]. by exists t.
  - call_step. split; [done|]. by exists t.
  - call_step. split; [done|]. by exists s, t.
Qed.

(** ** Where the targets are *)

(** The segments of a path below its target. *)
Definition below_target (p : gostr) : list gostr := if autoFlatten d then path_segs p else tail (path_segs p).

Lemma rest_of_segs p : p = FixAndCleanPath p → plain_key (rest_of p) ∧ key_segs (rest_of p) = below_target p.
Proof.
  intros E. rewrite FixAndCleanPath_segs in E. unfold rest_of, getRootAndPath, below_target.
  pose proof (path_segs_good p) as Hg. revert E Hg. generalize (path_segs p). intros l -> Hg. destruct (autoFlatten d); cbn [snd].
  - split.
    + split; [|apply render_no_elem; [done|]; eapply Forall_impl; [exact Hg|]; by intros w [_ ?]].
      unfold render. cbn [Split]. rewrite bool_decide_true by done. intros [?|Hin]%elem_of_cons; [done|]. revert Hin.
      apply (plain_Join l Hg).
    + unfold key_segs, render. cbn [Split]. rewrite bool_decide_true by done. rewrite filter_cons_False by (unfold proper_seg; naive_solver).
      apply (key_segs_Join l (good_norm _ Hg)).
  - change (TrimPrefix (render l) #"/") with (Join #"/" l). destruct l as [|w [|v l]].
    + cbn. split; [split; decide_now|done].
    + apply Forall_cons in Hg as [[(_ & _ & _ & Hs) _] _]. cbn [Join tail]. destruct (IndexByte_spec w "/") as [[_ ->]|(a & b & -> & _)]; [|by destruct Hs; set_solver].
      cbn. split; [split; decide_now|done].
    + apply Forall_cons in Hg as [[(_ & _ & _ & Hs) _] Hg]. change (Join #"/" (w :: v :: l)) with (w ++ "/"%char :: Join #"/" (v :: l)).
      rewrite IndexByte_app by done. zcmp. cbn [snd tail].
      replace (Z.to_nat (Z.of_nat (length w) + 1)) with (length w + 1)%nat by lia. rewrite <- drop_drop, drop_app_length.
      cbn [drop skipn]. split; [by apply plain_Join|by apply key_segs_Join, good_norm].
Qed.

Lemma found_below h p b q : p = FixAndCleanPath p → found_at h p b q →
  ∃ dst, dst ∈ targets p ∧ (dst = FixAndCleanPath dst → path_segs q = path_segs dst ++ below_target p).
Proof.
  intros Hp (pre & dst & post & E & -> & _). exists dst. split; [rewrite E; apply elem_of_app; right; left|]. intros Ed.
  destruct (rest_of_segs p Hp) as [Hk Es]. rewrite FixAndCleanPath_segs in Ed. rewrite Ed at 1.
  rewrite join_key, Es by (apply path_segs_norm || done). apply path_segs_render, Forall_app. split; [apply path_segs_good|].
  rewrite <- Es. by apply key_segs_good.
Qed.

(** C16. An alias changes only what it is meant to: in every run of a change,
    whatever packages [fs] and [op] answer, the alias is writable, and each
    changing call is the one for the request, at a path where the object was
    found by a look-up before: in a target of the object's name that had it when
    the targets before it had not.  Where objects of the same name are
    protected, no other target had it.  The path lies below its target just as
    the path of the request lies below the name. *)
Theorem alias_changes_protected c tr x : runs_to (al_apply d c) tr x →
  (∀ t1 e t2, tr = t1 ++ e :: t2 → al_allowed c t1 (projT1 e)) ∧
  (∀ h p b q, p = FixAndCleanPath p → found_at h p b q →
     ∃ dst, dst ∈ targets p ∧ (dst = FixAndCleanPath dst → path_segs q = path_segs dst ++ below_target p)).
Proof.
  intros Hrun. split; [|intros h p b q; apply found_below]. intros t1 e t2 E.
  destruct (wp_sound _ _ _ _ _ _ _ (apply_ok c []) Hrun) as [_ Hok]; [by apply Forall_forall|]. apply (Hok _ _ _ E).
Qed.

(** ** Reading *)

(** What a listing of a target adds. *)
Definition listed_of (e : al_event) : list FObj :=
  match projT1 e as c return al_answer c → list FObj with
  | AFs (CList _ _ _) => λ r, match r with inr l => map shown_obj l | inl _ => [] end
  | _ => λ _, []
  end (projT2 e).

Abbreviation any := (λ (c : al_action) (_ : al_answer c), True).

Lemma list_all_spec sub refresh dsts h :
  wp any (λ _ _, True) (list_all meta sub refresh dsts) h (λ x h', ∃ es, h' = h ++ es ∧
    map projT1 es = map (λ t, AFs (CList (path_join t sub) refresh meta)) dsts ∧ x = Returned (inr (concat (map listed_of es)))).
Proof.
  revert h. induction dsts as [|t dsts IH]; intros h; cbn [list_all]; [exists []; by rewrite app_nil_r|].
  split; [done|]. intros r _. assert (Hrest : ∀ k : list FObj → list FObj, (∀ l, k l = match r with inr o => map shown_obj o | inl _ => [] end ++ l) →
    wp any (λ _ _, True) (p_then (list_all meta sub refresh dsts) (λ l, p_ok (k l))) (h ++ [ev (AFs (CList (path_join t sub) refresh meta)) r]) (λ x h',
      ∃ es, h' = h ++ es ∧ map projT1 es = map (λ t, AFs (CList (path_join t sub) refresh meta)) (t :: dsts) ∧ x = Returned (inr (concat (map listed_of es))))).
  { intros k Hk. apply wp_bind. eapply wp_mono; [apply IH|]. intros x h' (es & -> & E & ->). cbn [bind_post].
    exists (ev (AFs (CList (path_join t sub) refresh meta)) r :: es). split; [by rewrite <- app_assoc|]. split; [cbn; by rewrite E|]. cbn. by rewrite Hk. }
  destruct r as [e|l]; cbn; apply Hrest; by intros l'.
Qed.

(** The object of the alias that a look-up gives. *)
Definition shown_as (p : gostr) (o : FObj) : FObj := new_object p (f_Name o) (f_Size o) (f_Modified o) (f_IsDir o) (f_Hash o) [].

Lemma first_get_spec p sub dsts h :
  wp any (λ _ _, True) (first_ok (λ t, al_get p t sub) not_found dsts) h (λ x h',
    (x = Returned (inl not_found) ∧ Forall (λ t, missed h' (path_join t sub)) dsts) ∨
    ∃ pre t post o, dsts = pre ++ t :: post ∧ x = Returned (inr (shown_as p o)) ∧
      Forall (λ t, missed h' (path_join t sub)) pre ∧ (ev (AFs (CGet (path_join t sub))) (inr o) : al_event) ∈ h').
Proof.
  assert (H : ∀ k h, Forall (λ t, missed h (path_join t sub)) k →
    wp any (λ _ _, True) (first_ok (λ t, al_get p t sub) not_found dsts) h (λ x h',
    (x = Returned (inl not_found) ∧ Forall (λ t, missed h' (path_join t sub)) (k ++ dsts)) ∨
    ∃ pre t post o, k ++ dsts = pre ++ t :: post ∧ x = Returned (inr (shown_as p o)) ∧
      Forall (λ t, missed h' (path_join t sub)) pre ∧ (ev (AFs (CGet (path_join t sub))) (inr o) : al_event) ∈ h')); [|by apply (H [])].
  induction dsts as [|t dsts IH]; intros k h' Hk; cbn [first_ok]; [left; by rewrite app_nil_r|].
  split; [done|]. intros r _. set (h1 := h' ++ [ev (AFs (CGet (path_join t sub))) r]).
  assert (Hk1 : Forall (λ t, missed h1 (path_join t sub)) k) by (eapply Forall_impl; [exact Hk|]; intros; by apply missed_app).
  destruct r as [e|o]; cbn.
  - replace (k ++ t :: dsts) with ((k ++ [t]) ++ dsts) by (by rewrite <- app_assoc). apply (IH (k ++ [t])). apply Forall_app. split; [done|].
    constructor; [exists e; apply elem_of_app; right; by left|done].
  - right. exists k, t, dsts, o. split; [done|]. split; [done|]. split; [done|]. apply elem_of_app. right. by left.
Qed.

(** An alias shows its targets as one: a listing asks every target of the
    name, once and in order, and has the objects of all listings that were
    given, one after the other; a look-up gives the object of the first target
    that has it, under the path that was asked for, and fails when none has
    it. *)
Theorem alias_reads_union p dsts : PathEqual p #"/" = false → pathMap d !! (getRootAndPath d p).1 = Some dsts →
  (∀ refresh tr x, runs_to (al_List meta d p refresh) tr x →
     map projT1 tr = map (λ t, AFs (CList (path_join t (rest_of p)) refresh meta)) dsts ∧
     x = Returned (inr (concat (map listed_of tr)))) ∧
  (∀ tr x, runs_to (al_Get d p) tr x →
     (x = Returned (inl not_found) ∧ Forall (λ t, missed tr (path_join t (rest_of p))) dsts) ∨
     ∃ pre t post o, dsts = pre ++ t :: post ∧ x = Returned (inr (shown_as p o)) ∧
       Forall (λ t, missed tr (path_join t (rest_of p))) pre ∧ (ev (AFs (CGet (path_join t (rest_of p)))) (inr o) : al_event) ∈ tr).
Proof.
  intros Hp Hd. unfold rest_of. split; [intros refresh|]; intros tr x Hrun; unfold al_List, al_Get in Hrun; rewrite Hp in Hrun; cbn [andb] in Hrun;
    destruct (getRootAndPath d p) as [root sub]; cbn [fst snd] in *; rewrite Hd in Hrun.
  - destruct (wp_run _ _ _ _ (list_all_spec sub refresh dsts []) Hrun) as (es & E & H1 & H2). rewrite app_nil_l in E. by subst es.
  - apply (wp_run _ _ _ _ (first_get_spec p sub dsts []) Hrun).
Qed.
End alias.

(** ** Initialisation *)

(** The lines of the settings that name a directory, and their targets. *)
Definition lines_of (text : gostr) : list (gostr * gostr) :=
  map getPair (filter (λ l, l ≠ []) (map TrimSpace (Split "010" text))).

Lemma add_paths_spec ls m k :
  default [] (fold_left add_path ls m !! k) =
  default [] (m !! k) ++ map snd (filter (λ x, x.1 = k) (map getPair (filter (λ l, l ≠ []) (map TrimSpace ls)))).
Proof.
  revert m. induction ls as [|l ls IH]; intros m; cbn [fold_left map]; [by rewrite app_nil_r|]. rewrite IH. unfold add_path.
  case_bool_decide as E; [by rewrite filter_cons_False by naive_solver|]. rewrite filter_cons_True by done. cbn [map].
  destruct (getPair (TrimSpace l)) as [k' v] eqn:Ep. rewrite filter_cons. cbn [fst]. destruct (decide (k' = k)) as [->|Hne].
  - rewrite lookup_insert_eq. unfold default at 1, id at 1. cbn [from_option map snd]. by rewrite <- app_assoc.
  - by rewrite lookup_insert_ne.
Qed.

(** After [Init] each name has the targets of its lines, in the order of the
    text; with a single name the alias is flattened to it. *)
Lemma Init_targets d d' : Init d = (None, d') →
  (∀ k, default [] (pathMap d' !! k) = map snd (filter (λ x, x.1 = k) (lines_of (ad_Paths (al_Addition d))))) ∧
  (autoFlatten d' = true → ∃ v, map_to_list (pathMap d') = [(oneKey d', v)]).
Proof.
  unfold Init. case_bool_decide; [done|]. set (m := fold_left add_path _ ∅).
  assert (Hm : ∀ k, default [] (m !! k) = map snd (filter (λ x, x.1 = k) (lines_of (ad_Paths (al_Addition d))))).
  { intros k. unfold m. rewrite add_paths_spec. by rewrite lookup_empty. }
  destruct (map_to_list m) as [|[k v] [|]] eqn:E; intros [= <-]; cbn; split; try done. intros _. exists v. by rewrite E.
Qed.

(** ** The alias driver: runs on which the theorems are used, and where the
      driver falls short *)

Module AliasExample.
#[export] Existing Instances FsExample.env.
#[export] Instance no_archives : ArchiveLib := {| ArchiveMeta := unit |}.

Definition storage : al_storage :=
  {| as_Down := {| ds_Info := FsExample.storage; ds_WebdavProxy := false; ds_ProxyRange := false; ds_ProxyDriver := None |};
     as_Alias := false; as_ArchiveReader := false |}.
Definition no_link : link := {| lk_URL := []; lk_MFile := true; lk_RangeReadCloser := None; lk_Concurrency := 0; lk_PartSize := 0 |}.

(** The tree of the file API; [broken] is a path whose storage does not answer. *)
Definition answer (broken : gostr) (c : al_action) : al_answer c :=
  match c return al_answer c with
  | AFs (CGet p) => if bool_decide (p = broken) then inl (EMessage #"timeout") else FsExample.answer (CGet p)
  | AFs c => FsExample.answer c
  | APutURL _ _ _ | ADecompress _ _ => inr ()
  | AResolve p => inr (storage, p)
  | ALink _ _ _ | AExtract _ _ _ => inr no_link
  | ASign p | ASignArchive p => p
  | AArchiveMeta _ _ => inr ()
  | AListArchive _ _ _ => inr []
  end.

Definition run {A} (broken : gostr) (m : al_prog A) := run_with (λ _ c, answer broken c) [] m.
Definition calls {A} (broken : gostr) (m : al_prog A) : list al_action := map projT1 (run broken m).1.

Definition alias (paths : gostr) : Alias :=
  (Init {| al_Addition := {| ad_Paths := paths; ProtectSameName := true; DownloadConcurrency := 0; DownloadPartSize := 0; Writable := true |};
           al_Modified := 0; al_ProxyRange := false; pathMap := ∅; autoFlatten := false; oneKey := [] |}).2.

(** [h] shows two directories as one. *)
Definition two : Alias := alias (#"h:/home/a" ++ ["010"%char] ++ #" h:/home/b" ++ ["010"%char] ++ #"/home/private").
Definition flat : Alias := alias #"/home/a".

Lemma alias_run_runs {A} broken (m : al_prog A) : runs_to m (run broken m).1 (run broken m).2.
Proof. destruct (run_with_runs (λ _ c, answer broken c) m []) as (tr & E & H). rewrite app_nil_l in E. unfold run. by rewrite E. Qed.
End AliasExample.
Import AliasExample.

Lemma alias_changes_protected_witness :
  let c := ChRemove #"/h/old" in
  calls [] (al_apply two c) = [AFs (CGet #"/home/a/old"); AFs (CGet #"/home/b/old"); AFs (CRemove #"/home/a/old")] ∧
  ∀ t1 e t2, (run [] (al_apply two c)).1 = t1 ++ e :: t2 → al_allowed two c t1 (projT1 e).
Proof.
  split; [vm_compute; reflexivity|]. apply (alias_changes_protected two (ChRemove #"/h/old") _ _ (alias_run_runs [] _)).
Defined.

(** Where the driver falls short.  An object that is in two targets is protected
    only while both answer: when the second one does not, the object of the first
    is removed.  A directory that no target has is listed as an empty one.  Blank
    lines are accepted as settings without any directory.  A target that is named
    twice blocks every change.  With a single name the alias itself is taken for
    an object: renaming its root renames the target. *)
Theorem alias_defects :
  ((run [] (al_apply two (ChRemove #"/h/x"))).2 = Returned (inl (EMessage #"same-name files cannot be Delete")) ∧
   calls #"/home/b/x" (al_apply two (ChRemove #"/h/x")) = [AFs (CGet #"/home/a/x"); AFs (CGet #"/home/b/x"); AFs (CRemove #"/home/a/x")]) ∧
  (run [] (al_List None two #"/h/nowhere" false)).2 = Returned (inr []) ∧
  map_to_list (pathMap (alias ["010"%char])) = [] ∧
  (run [] (al_apply (alias (#"/home/a" ++ ["010"%char] ++ #"/home/a")) (ChMakeDir #"/" #"n"))).2 =
    Returned (inl (EMessage #"same-name dirs cannot make sub-dir")) ∧
  calls [] (al_apply flat (ChRename #"/" #"new")) = [AFs (CGet #"/home/a"); AFs (CRename #"/home/a" #"new")].
Proof. vm_compute. by repeat split. Qed.
