(* ===== verification/Settings.v ===== *)
(** * Settings: [internal/op/setting.go], the hooks of [internal/op/hook.go],
      [internal/db/settingitem.go], [internal/setting] and
      [server/handles/setting.go]

    Settings are rows of a table with a cache of items and a cache of lists.
    A cached list is a slice: the callers share its array with the cache, so a
    list is a location of a heap here. *)

From S2P Require Import Prelude GoStrings Errs Store.

Local Open Scope Z_scope.

(** ** Data *)

(** [PreDefault] is neither stored nor read by these functions. *)
Record SettingItem := {
  it_Key : gostr;
  it_Value : gostr;
  it_Help : gostr;
  it_Type : gostr;
  it_Options : gostr;
  it_Group : Z;
  it_Flag : Z;
  it_Index : Z;
}.

Definition PUBLIC : Z := 0.
Definition PRIVATE : Z := 1.
Definition READONLY : Z := 2.
Definition DEPRECATED : Z := 3.

Definition IsDeprecated (i : SettingItem) : bool := it_Flag i =? DEPRECATED.

Definition set_Value (v : gostr) (i : SettingItem) : SettingItem :=
  {| it_Key := it_Key i; it_Value := v; it_Help := it_Help i; it_Type := it_Type i; it_Options := it_Options i;
     it_Group := it_Group i; it_Flag := it_Flag i; it_Index := it_Index i |}.
Definition set_Options (o : gostr) (i : SettingItem) : SettingItem :=
  {| it_Key := it_Key i; it_Value := it_Value i; it_Help := it_Help i; it_Type := it_Type i; it_Options := o;
     it_Group := it_Group i; it_Flag := it_Flag i; it_Index := it_Index i |}.

Definition DefaultRole : gostr := #"default_role".
Definition PrivacyRegs : gostr := #"privacy_regs".
Definition FilenameCharMapping : gostr := #"filename_char_mapping".

(** The settings that are lists of words. *)
Definition slice_keys : list gostr :=
  [ #"video_types"; #"audio_types"; #"image_types"; #"text_types"; #"proxy_types"; #"proxy_ignore_headers"; #"ignore_direct_link_params"].

(** ** The table, with the key as primary key *)

Class SettingTable := {
  setting_table : Type;
  Find : setting_table → (SettingItem → bool) → result (list SettingItem);
  FindByIndex : setting_table → (SettingItem → bool) → result (list SettingItem);
  FirstKey : setting_table → gostr → result SettingItem;
  SaveItem : setting_table → SettingItem → result setting_table;
  SaveItems : setting_table → list SettingItem → result setting_table;
  DeleteKey : setting_table → gostr → result setting_table;
}.

Definition save_rows (items : list SettingItem) (m : gmap gostr SettingItem) : gmap gostr SettingItem :=
  fold_left (λ m i, <[ it_Key i := i ]> m) items m.

Class SettingLaws `{ST : SettingTable} := {
  setting_rows : setting_table → gmap gostr SettingItem;
  Find_ok : ∀ t p l, Find t p = inr l → l ≡ₚ filter (λ i, p i) (map_to_list (setting_rows t)).*2;
  FindByIndex_ok : ∀ t p l, FindByIndex t p = inr l → l ≡ₚ filter (λ i, p i) (map_to_list (setting_rows t)).*2;
  FirstKey_ok : ∀ t k i, FirstKey t k = inr i → setting_rows t !! k = Some i;
  SaveItem_ok : ∀ t i t', SaveItem t i = inr t' → setting_rows t' = <[ it_Key i := i ]> (setting_rows t);
  SaveItems_ok : ∀ t l t', SaveItems t l = inr t' → setting_rows t' = save_rows l (setting_rows t);
  DeleteKey_ok : ∀ t k t', DeleteKey t k = inr t' → setting_rows t' = delete k (setting_rows t);
  FirstKey_keyed : ∀ t k i, setting_rows t !! k = Some i → it_Key i = k;
}.

(** ** The state *)

Section settings.
Context {ST : SettingTable} `{!Cache SettingItem, !Cache nat}.

(** The arrays of the lists are [heap]; [slices] and [privacy] are the variables
    of package [conf] that hooks write; [notified] counts the rounds of callbacks. *)
Record settings := {
  items_table : setting_table;
  settingCache : cache SettingItem;
  settingGroupCache : cache nat;
  heap : list (list SettingItem);
  slices : gmap gostr (list gostr);
  privacy : list gostr;
  charmap : gmap gostr gostr;
  notified : nat;
}.

Definition upd_table (t : setting_table) (s : settings) : settings :=
  {| items_table := t; settingCache := settingCache s; settingGroupCache := settingGroupCache s; heap := heap s;
     slices := slices s; privacy := privacy s; charmap := charmap s; notified := notified s |}.
Definition upd_items (c : cache SettingItem) (s : settings) : settings :=
  {| items_table := items_table s; settingCache := c; settingGroupCache := settingGroupCache s; heap := heap s;
     slices := slices s; privacy := privacy s; charmap := charmap s; notified := notified s |}.
Definition upd_lists (c : cache nat) (h : list (list SettingItem)) (s : settings) : settings :=
  {| items_table := items_table s; settingCache := settingCache s; settingGroupCache := c; heap := h;
     slices := slices s; privacy := privacy s; charmap := charmap s; notified := notified s |}.
Definition upd_conf (sl : gmap gostr (list gostr)) (pr : list gostr) (cm : gmap gostr gostr) (s : settings) : settings :=
  {| items_table := items_table s; settingCache := settingCache s; settingGroupCache := settingGroupCache s; heap := heap s;
     slices := sl; privacy := pr; charmap := cm; notified := notified s |}.

Definition SettingCacheUpdate (s : settings) : settings :=
  {| items_table := items_table s; settingCache := cache_Clear (settingCache s);
     settingGroupCache := cache_Clear (settingGroupCache s); heap := heap s;
     slices := slices s; privacy := privacy s; charmap := charmap s; notified := S (notified s) |}.

(** ** Reading *)

Definition an_hour : Z := 3600000000000.

(** A cached list, or one that is read, put into a new array and cached. *)
Definition cached_list (key : gostr) (query : setting_table → result (list SettingItem)) : Op settings nat :=
  λ s,
  match cache_Get (settingGroupCache s) key with
  | Some loc => (inr loc, s)
  | None =>
      match query (items_table s) with
      | inl e => (inl (EWithMessage e []), s)
      | inr l =>
          let loc := length (heap s) in
          (inr loc, upd_lists (cache_Set (settingGroupCache s) key loc an_hour) (heap s ++ [l]) s)
      end
  end.

Definition ALL_ITEMS : gostr := #"ALL_SETTING_ITEMS".
Definition ALL_PUBLIC : gostr := #"ALL_PUBLIC_SETTING_ITEMS".

Definition is_public (i : SettingItem) : bool := (it_Flag i =? PUBLIC) || (it_Flag i =? READONLY).
Definition in_groups (groups : list Z) (i : SettingItem) : bool := bool_decide (it_Group i ∈ groups).

Definition GetSettingItems : Op settings nat := cached_list ALL_ITEMS (λ t, Find t (λ _, true)).
Definition GetPublicSettingItems : Op settings nat := cached_list ALL_PUBLIC (λ t, Find t is_public).
Definition GetSettingItemsByGroup (group : Z) : Op settings nat :=
  cached_list (FormatInt group) (λ t, Find t (in_groups [group])).

(** [sort.Ints] *)
Definition sort_ints (l : list Z) : list Z := merge_sort Z.le l.

Definition GetSettingItemsInGroups (groups : list Z) : Op settings nat :=
  let groups := sort_ints groups in
  cached_list (Join #"," (map FormatInt groups)) (λ t, FindByIndex t (in_groups groups)).

Definition GetSettingItemByKey (key : gostr) : Op settings SettingItem :=
  λ s,
  match cache_Get (settingCache s) key with
  | Some i => (inr i, s)
  | None =>
      match FirstKey (items_table s) key with
      | inl e => (inl (EWithMessage e []), s)
      | inr i => (inr i, upd_items (cache_Set (settingCache s) (it_Key i) i an_hour) s)
      end
  end.

Fixpoint GetSettingItemInKeys (keys : list gostr) : Op settings (list SettingItem) :=
  match keys with
  | [] => op_ret []
  | k :: keys' => let* i := GetSettingItemByKey k in let* l := GetSettingItemInKeys keys' in op_ret (i :: l)
  end.

(** The array at a location. *)
Definition items_at (loc : nat) (s : settings) : list SettingItem := default [] (heap s !! loc).

Definition settings_map (l : list SettingItem) : gmap gostr gostr := fold_left (λ m i, <[ it_Key i := it_Value i ]> m) l ∅.

(** The error is dropped: there is a map in any case. *)
Definition GetPublicSettingsMap (s : settings) : gmap gostr gostr * settings :=
  match GetPublicSettingItems s with (inr loc, s') => (settings_map (items_at loc s'), s') | (inl _, s') => (∅, s') end.
Definition GetSettingsMap (s : settings) : gmap gostr gostr * settings :=
  match GetSettingItems s with (inr loc, s') => (settings_map (items_at loc s'), s') | (inl _, s') => (∅, s') end.

(** [internal/setting] *)
Definition GetStr (key default : gostr) (s : settings) : gostr * settings :=
  match GetSettingItemByKey key s with (inr i, s') => (it_Value i, s') | (inl _, s') => (default, s') end.

Definition GetInt (key : gostr) (defaultVal : Z) (s : settings) : Z * settings :=
  let '(v, s') := GetStr key [] s in
  (match ParseInt v with (n, None) => n | _ => defaultVal end, s').

Definition GetBool (key : gostr) (s : settings) : bool * settings :=
  let '(v, s') := GetStr key [] s in
  if bool_decide (v = #"true") then (true, s')
  else let '(v, s') := GetStr key [] s' in (bool_decide (v = #"1"), s').

(** ** Hooks *)

(** The libraries behind the hooks, the roles, and the hooks that other packages
    have registered; the mapping of characters is decoded into the one in use. *)
Class SettingEnv := {
  regexp_ok : gostr → option error;
  decode_charmap : gostr → gmap gostr gostr → option error * gmap gostr gostr;
  role_by_id : Z → result gostr;
  role_by_name : gostr → result (Z * gostr);
  role_names : list gostr;
  other_hook : gostr → option (SettingItem → option error);
}.
Context {SE : SettingEnv} {ET : ErrorTexts}.

Fixpoint compile_all (l : list gostr) : option error :=
  match l with
  | [] => None
  | r :: l' => match regexp_ok r with Some e => Some (EWithMessage e []) | None => compile_all l' end
  end.

Definition default_role_hook (item : SettingItem) : option error :=
  let v := TrimSpace (it_Value item) in
  if bool_decide (v = []) then None
  else
    match ParseInt v with
    | (_, Some _) => Some (EMessage #"strconv.Atoi")
    | (id, None) => match role_by_id (wrapu64 id) with inl e => Some e | inr _ => None end
    end.

(** Is there a hook, and its error. *)
Definition HandleSettingItemHook (item : SettingItem) (s : settings) : option (option error) * settings :=
  match other_hook (it_Key item) with
  | Some f => (Some (f item), s)
  | None =>
      if bool_decide (it_Key item ∈ slice_keys) then
        (Some None, upd_conf (<[ it_Key item := Split "," (it_Value item) ]> (slices s)) (privacy s) (charmap s) s)
      else if bool_decide (it_Key item = PrivacyRegs) then
        let regs := Split "010" (it_Value item) in
        match compile_all regs with
        | Some e => (Some (Some e), s)
        | None => (Some None, upd_conf (slices s) regs (charmap s) s)
        end
      else if bool_decide (it_Key item = FilenameCharMapping) then
        let '(err, m) := decode_charmap (it_Value item) (charmap s) in
        (Some err, upd_conf (slices s) (privacy s) m s)
      else if bool_decide (it_Key item = DefaultRole) then (Some (default_role_hook item), s)
      else (None, s)
  end.

(** ** Changing *)

Definition db_SaveSettingItem (item : SettingItem) (s : settings) : option error * settings :=
  match SaveItem (items_table s) item with
  | inl e => (Some (EWithMessage e []), s)
  | inr t => (None, upd_table t s)
  end.

(** The items with a hook are saved one by one; the others are collected. *)
Fixpoint save_hooked (items : list SettingItem) (errs : list error) (noHook : list SettingItem) (s : settings) :
    list error * list SettingItem * settings :=
  match items with
  | [] => (errs, noHook, s)
  | item :: items' =>
      match HandleSettingItemHook item s with
      | (None, s1) => save_hooked items' errs (noHook ++ [item]) s1
      | (Some (Some e), s1) => save_hooked items' (errs ++ [e]) noHook s1
      | (Some None, s1) =>
          match db_SaveSettingItem item s1 with
          | (Some e, s2) => save_hooked items' (errs ++ [e]) noHook s2
          | (None, s2) => save_hooked items' errs noHook s2
          end
      end
  end.

Definition MergeErrors (errs : list error) : option error :=
  let errStr := Join ["010"%char] (map err_Error errs) in
  if bool_decide (errStr ≠ []) then Some (EMessage errStr) else None.

Definition SaveSettingItems (items : list SettingItem) : Op settings unit :=
  λ s,
  let '(errs, noHook, s1) := save_hooked items [] [] s in
  let '(errs, s2) :=
    if bool_decide (noHook = []) then (errs, s1)
    else
      match SaveItems (items_table s1) noHook with
      | inl e => (errs ++ [EWithMessage e []], s1)
      | inr t => (errs, upd_table t s1)
      end in
  let s3 := if (length errs <? length items - length noHook + 1)%nat then SettingCacheUpdate s2 else s2 in
  (match MergeErrors errs with Some e => inl e | None => inr () end, s3).

Definition SaveSettingItem (item : SettingItem) : Op settings unit :=
  λ s,
  match HandleSettingItemHook item s with
  | (Some (Some e), s1) => (inl e, s1)
  | (_, s1) =>
      match db_SaveSettingItem item s1 with
      | (Some e, s2) => (inl e, s2)
      | (None, s2) => (inr (), SettingCacheUpdate s2)
      end
  end.

(** The two parts of a deletion, between which another request may run. *)
Definition delete_check (key : gostr) : Op settings unit :=
  λ s,
  match GetSettingItemByKey key s with
  | (inl e, s1) => (inl (EWithMessage e #"failed to get settingItem"), s1)
  | (inr old, s1) =>
      if negb (IsDeprecated old) then (inl (EMessage (#"setting [" ++ key ++ #"] is not deprecated")), s1)
      else (inr (), SettingCacheUpdate s1)
  end.

Definition delete_row (key : gostr) : Op settings unit :=
  λ s,
  match DeleteKey (items_table s) key with
  | inl e => (inl (EWithMessage e []), s)
  | inr t => (inr (), upd_table t s)
  end.

Definition DeleteSettingItemByKey (key : gostr) : Op settings unit :=
  let* _ := delete_check key in delete_row key.

(** ** [server/handles/setting.go] *)

Definition getRoleOptions : gostr :=
  Join #"," (filter (λ n, n ≠ #"admin" ∧ n ≠ #"guest") role_names).

(** The item of the default role with the name of the role for its number. *)
Definition show_role (i : SettingItem) : SettingItem :=
  set_Options getRoleOptions
    (match ParseInt (it_Value i) with
     | (id, None) => match role_by_id (wrapu64 id) with inr n => set_Value n i | inl _ => i end
     | _ => i
     end).

(** The first item of the default role is changed. *)
Fixpoint show_first (l : list SettingItem) : list SettingItem :=
  match l with
  | [] => []
  | i :: l' => if bool_decide (it_Key i = DefaultRole) then show_role i :: l' else i :: show_first l'
  end.

Definition GetSetting (key keys : gostr) : Op settings (list SettingItem) :=
  if bool_decide (key ≠ []) then
    let* item := GetSettingItemByKey key in
    op_ret [if bool_decide (it_Key item = DefaultRole) then show_role item else item]
  else
    let* l := GetSettingItemInKeys (Split "," keys) in
    op_ret (show_first l).

(** The request after the role was named by its number. *)
Fixpoint role_numbers (items : list SettingItem) : result (list SettingItem) :=
  match items with
  | [] => inr []
  | i :: items' =>
      if bool_decide (it_Key i = DefaultRole) then
        match role_by_name (it_Value i) with
        | inl e => inl e
        | inr (id, name) =>
            if bool_decide (name = #"admin") || bool_decide (name = #"guest")
            then inl (EMessage #"cannot set admin or guest as default role")
            else let! l := role_numbers items' in inr (set_Value (FormatInt id) i :: l)
        end
      else let! l := role_numbers items' in inr (i :: l)
  end.

Definition SaveSettings (items : list SettingItem) : Op settings unit :=
  match role_numbers items with inl e => op_fail e | inr l => SaveSettingItems l end.

Fixpoint parse_groups (l : list gostr) : result (list Z) :=
  match l with
  | [] => inr []
  | g :: l' =>
      match ParseInt g with
      | (_, Some _) => inl (EMessage #"strconv.Atoi")
      | (n, None) => let! ns := parse_groups l' in inr (n :: ns)
      end
  end.

(** The list that the query asks for: all items, or those of some groups. *)
Definition list_asked (groupStr groupsStr : gostr) : Op settings nat :=
  if bool_decide (groupsStr = []) && bool_decide (groupStr = []) then GetSettingItems
  else
    let groupStrings := if bool_decide (groupsStr ≠ []) then Split "," groupsStr else [groupStr] in
    match parse_groups groupStrings with inl e => op_fail e | inr groups => GetSettingItemsInGroups groups end.

(** The items are changed in the array, which is the one of the cache. *)
Definition ListSettings (groupStr groupsStr : gostr) : Op settings (list SettingItem) :=
  let* loc := list_asked groupStr groupsStr in
  λ s,
  let l := show_first (items_at loc s) in
  (inr l, upd_lists (settingGroupCache s) (<[ loc := l ]> (heap s)) s).

Definition TypeString : gostr := #"string".
Definition SINGLE : Z := 0.

(** [ResetToken] saves a random token in the same way. *)
Definition SetToken (token : gostr) : Op settings unit :=
  SaveSettingItem {| it_Key := #"token"; it_Value := token; it_Help := []; it_Type := TypeString; it_Options := [];
                     it_Group := SINGLE; it_Flag := PRIVATE; it_Index := 0 |}.
End settings.
