(* ===== verification/SettingsThms.v ===== *)
(** * Settings: the caches show the database *)

From S2P Require Import Prelude GoStrings Errs Store HttpRange Settings.

Local Open Scope Z_scope.

(** An item without what the listing of the settings writes over it. *)
Definition hidden (i : SettingItem) : SettingItem :=
  if bool_decide (it_Key i = DefaultRole) then set_Value [] (set_Options [] i) else i.

Section settings.
Context `{ST : SettingTable, SLW : !SettingLaws, CI : !Cache SettingItem, CIL : !CacheLaws SettingItem, CN : !Cache nat, CNL : !CacheLaws nat}.

Abbreviation rows_of s := (setting_rows (items_table s)).

(** The items of the database that a list is to have, by its key. *)
Definition listed_under (key : gostr) (i : SettingItem) : bool :=
  if bool_decide (key = ALL_ITEMS) then true
  else if bool_decide (key = ALL_PUBLIC) then is_public i
  else bool_decide (FormatInt (it_Group i) ∈ Split "," key).

Definition stored (p : SettingItem → bool) (s : settings) : list SettingItem := filter (λ i, p i) (map_to_list (rows_of s)).*2.

Definition list_current (s : settings) (key : gostr) (loc : nat) : Prop :=
  ∃ l, heap s !! loc = Some l ∧ map hidden l ≡ₚ map hidden (stored (listed_under key) s).

(** What is cached is in the database. *)
Definition cache_current (s : settings) : Prop :=
  (∀ k i, cache_Get (settingCache s) k = Some i → rows_of s !! k = Some i) ∧
  (∀ key loc, cache_Get (settingGroupCache s) key = Some loc → list_current s key loc).

(** ** Operations keep the caches current *)

Lemma current_clear s : cache_current (SettingCacheUpdate s).
Proof. split; intros k x; cbn; by rewrite cache_Get_Clear. Qed.

Lemma current_conf s sl pr cm : cache_current s → cache_current (upd_conf sl pr cm s).
Proof. done. Qed.

Lemma list_current_more s key loc l c : list_current s key loc → list_current (upd_lists c (heap s ++ [l]) s) key loc.
Proof. intros (l' & Hl & E). exists l'. split; [cbn; by apply lookup_app_l_Some|done]. Qed.

(** The result of a list, cached or read. *)
Definition returns_list (m : Op settings nat) (p : SettingItem → bool) : Prop := ∀ s, cache_current s →
  cache_current (m s).2 ∧ rows_of (m s).2 = rows_of s ∧
  ∀ loc, (m s).1 = inr loc → ∃ l, heap (m s).2 !! loc = Some l ∧ map hidden l ≡ₚ map hidden (stored p s).

Lemma cached_list_ok key query p : (∀ i, listed_under key i = p i) →
  (∀ t l, query t = inr l → l ≡ₚ filter (λ i, p i) (map_to_list (setting_rows t)).*2) → returns_list (cached_list key query) p.
Proof.
  intros Hp Hq s [Hi Hg]. assert (Hs : stored p s = stored (listed_under key) s).
  { apply list_filter_iff. intros i. by rewrite Hp. }
  unfold cached_list. destruct (cache_Get (settingGroupCache s) key) as [loc|] eqn:E.
  - split; [done|]. split; [done|]. intros loc' [= <-]. destruct (Hg _ _ E) as (l & Hl & Ep). exists l. by rewrite Hs.
  - destruct (query (items_table s)) as [e|l] eqn:Eq; [by split_and!|]. cbn [fst snd]. apply Hq in Eq.
    assert (Hl : (heap s ++ [l]) !! length (heap s) = Some l) by (by rewrite lookup_app_r, Nat.sub_diag by lia).
    split; [split|].
    + intros k i. cbn. apply Hi.
    + intros k loc. cbn. rewrite cache_Get_Set. case_decide as Ek; [|intros H%Hg; by apply list_current_more].
      intros [= <-]. exists l. split; [done|]. subst k. change (stored (listed_under key) _) with (stored (listed_under key) s). rewrite <- Hs. by rewrite Eq.
    + split; [done|]. intros loc [= <-]. exists l. split; [done|]. by rewrite Eq.
Qed.

Lemma under_groups gs i : listed_under (Join #"," (map FormatInt gs)) i = in_groups gs i.
Proof.
  assert (Hne : ∀ w : gostr, (∃ c, c ∈ w ∧ is_digit c = false ∧ c ≠ "-"%char ∧ c ≠ ","%char) → Join #"," (map FormatInt gs) ≠ w).
  { intros w (c & Hc & Hd & Hm & Hn) <-. revert Hc. clear -Hd Hm Hn. assert (Hf : ∀ g, c ∉ FormatInt g).
    { intros g Hin. destruct (proj1 (Forall_forall _ _) (FormatInt_chars g) _ Hin) as [Hc|Hc]; congruence. }
    induction gs as [|g [|g' gs] IH]; [by intros ?%elem_of_nil|apply Hf|]. change (map FormatInt (g :: g' :: gs)) with (FormatInt g :: map FormatInt (g' :: gs)).
    rewrite Join_cons by done. intros [Hg|[Hg|Hg]%elem_of_app]%elem_of_app; [by apply (Hf g)|by apply list_elem_of_singleton in Hg|by apply IH]. }
  unfold listed_under. rewrite !bool_decide_false by (apply Hne; exists "_"%char; split; [decide_now|done]).
  unfold in_groups. apply bool_decide_ext. destruct gs as [|g gs].
  - cbn. split; [|by intros ?%elem_of_nil]. by intros ?%list_elem_of_singleton%FormatInt_nonempty.
  - change #"," with [","%char]. rewrite Split_Join; [|done|by apply Forall_map, Forall_forall; intros; apply FormatInt_no_comma].
    split; [|apply list_elem_of_fmap_2]. intros (x & E%FormatInt_inj & Hx)%list_elem_of_fmap. by rewrite E.
Qed.

Lemma GetSettingItems_ok : returns_list GetSettingItems (λ _, true).
Proof. apply cached_list_ok; [done|]. intros t l. apply Find_ok. Qed.

Lemma GetPublicSettingItems_ok : returns_list GetPublicSettingItems is_public.
Proof. apply cached_list_ok; [done|]. intros t l. apply Find_ok. Qed.

Lemma GetSettingItemsByGroup_ok g : returns_list (GetSettingItemsByGroup g) (in_groups [g]).
Proof. apply cached_list_ok; [intros i; apply (under_groups [g])|]. intros t l. apply Find_ok. Qed.

Lemma GetSettingItemsInGroups_ok gs : returns_list (GetSettingItemsInGroups gs) (in_groups gs).
Proof.
  assert (Hs : ∀ i, in_groups (sort_ints gs) i = in_groups gs i).
  { intros i. unfold in_groups, sort_ints. apply bool_decide_ext. by rewrite (merge_sort_Permutation Z.le gs). }
  apply cached_list_ok; [intros i; by rewrite under_groups|]. intros t l Hl%FindByIndex_ok. rewrite Hl.
  apply Permutation_refl', list_filter_iff. intros i. by rewrite Hs.
Qed.

Lemma GetSettingItemByKey_ok k s : cache_current s →
  cache_current (GetSettingItemByKey k s).2 ∧ rows_of (GetSettingItemByKey k s).2 = rows_of s ∧
  ∀ i, (GetSettingItemByKey k s).1 = inr i → rows_of s !! k = Some i.
Proof.
  intros [Hi Hg]. unfold GetSettingItemByKey. destruct (cache_Get (settingCache s) k) as [i|] eqn:E.
  - split; [done|]. split; [done|]. intros i' [= <-]. by apply Hi.
  - destruct (FirstKey (items_table s) k) as [e|i] eqn:Ef; [by split_and!|]. apply FirstKey_ok in Ef. cbn [fst snd].
    split; [split|split; [done|by intros i' [= <-]]].
    + intros k' i'. cbn. rewrite cache_Get_Set. case_decide as Ek; [|apply Hi]. intros [= <-]. subst k'. by rewrite (FirstKey_keyed _ _ _ Ef).
    + intros key loc H%Hg. exact H.
Qed.

Lemma InKeys_current ks : keeps cache_current (GetSettingItemInKeys ks).
Proof.
  induction ks as [|k ks IH]; cbn [GetSettingItemInKeys]; auto with alist. apply keeps_bind; [intros s Hs; by apply GetSettingItemByKey_ok|].
  intros i. apply keeps_bind; [done|]. auto with alist.
Qed.

Section env.
Context {SE : SettingEnv} {ET : ErrorTexts}.

(** A hook changes only variables of package [conf]. *)
Lemma hook_same item s : items_table (HandleSettingItemHook item s).2 = items_table s ∧
  (cache_current s → cache_current (HandleSettingItemHook item s).2).
Proof. unfold HandleSettingItemHook. repeat case_match; by split. Qed.

Lemma save_hooked_ok items errs noHook s :
  let '(errs', noHook', s') := save_hooked items errs noHook s in
  (length errs ≤ length errs')%nat ∧ (length noHook ≤ length noHook')%nat ∧
  (length errs' - length errs + (length noHook' - length noHook) ≤ length items)%nat ∧
  ((length errs' - length errs + (length noHook' - length noHook))%nat = length items → items_table s' = items_table s ∧ (cache_current s → cache_current s')).
Proof.
  revert errs noHook s. induction items as [|item items IH]; intros errs noHook s; cbn [save_hooked length]; [split_and!; (lia || done)|].
  destruct (hook_same item s) as [Ht Hc]. destruct (HandleSettingItemHook item s) as [[[e|]|] s1]; cbn [snd] in *.
  - specialize (IH (errs ++ [e]) noHook s1). destruct (save_hooked _ _ _ s1) as [[errs' noHook'] s']. rewrite length_app in IH. cbn [length] in IH.
    destruct IH as (H1 & H2 & H3 & H4). split_and!; [lia..|]. intros E. destruct H4 as [-> H4]; [lia|]. split; [done|]. auto.
  - unfold db_SaveSettingItem. destruct (SaveItem (items_table s1) item) as [e|t].
    + specialize (IH (errs ++ [EWithMessage e []]) noHook s1). destruct (save_hooked _ _ _ s1) as [[errs' noHook'] s']. rewrite length_app in IH. cbn [length] in IH.
      destruct IH as (H1 & H2 & H3 & H4). split_and!; [lia..|]. intros E. destruct H4 as [-> H4]; [lia|]. split; [done|]. auto.
    + specialize (IH errs noHook (upd_table t s1)). destruct (save_hooked _ _ _ (upd_table t s1)) as [[errs' noHook'] s'].
      destruct IH as (H1 & H2 & H3 & H4). split_and!; [lia..|]. intros E. lia.
  - specialize (IH errs (noHook ++ [item]) s1). destruct (save_hooked _ _ _ s1) as [[errs' noHook'] s']. rewrite length_app in IH. cbn [length] in IH.
    destruct IH as (H1 & H2 & H3 & H4). split_and!; [lia..|]. intros E. destruct H4 as [-> H4]; [lia|]. split; [done|]. auto.
Qed.

(** The caches are cleared unless every write has failed. *)
Lemma SaveSettingItems_current items : keeps cache_current (SaveSettingItems items).
Proof.
  intros s Hs. unfold SaveSettingItems. pose proof (save_hooked_ok items [] [] s) as H. destruct (save_hooked items [] [] s) as [[errs noHook] s1].
  cbn [length] in H. destruct H as (_ & _ & H3 & H4). rewrite !Nat.sub_0_r in H3, H4.
  case_bool_decide as En.
  - subst noHook. cbn [length] in *. destruct (Nat.ltb_spec (length errs) (length items - 0 + 1)); [apply current_clear|]. lia.
  - destruct (SaveItems (items_table s1) noHook) as [e|t]; cbn [snd].
    + rewrite length_app. cbn [length]. destruct (Nat.ltb_spec (length errs + 1) (length items - length noHook + 1)); [apply current_clear|].
      apply H4; [lia|done].
    + destruct (Nat.ltb_spec (length errs) (length items - length noHook + 1)); [apply current_clear|]. lia.
Qed.

Lemma SaveSettingItem_current item : keeps cache_current (SaveSettingItem item).
Proof.
  intros s Hs. unfold SaveSettingItem. destruct (hook_same item s) as [Ht Hc]. destruct (HandleSettingItemHook item s) as [[[e|]|] s1]; cbn [snd] in *; [by apply Hc|..];
    unfold db_SaveSettingItem; destruct (SaveItem (items_table s1) item) as [e|t]; cbn [snd]; try apply current_clear; by apply Hc.
Qed.

(** A deletion clears the caches before it deletes the row. *)
Lemma delete_check_ok key s : cache_current s →
  cache_current (delete_check key s).2 ∧ items_table (delete_check key s).2 = items_table (GetSettingItemByKey key s).2 ∧
  ((delete_check key s).1 = inr () → (∃ i, rows_of s !! key = Some i ∧ it_Flag i = DEPRECATED) ∧
    (∀ k, cache_Get (settingCache (delete_check key s).2) k = None) ∧ (∀ k, cache_Get (settingGroupCache (delete_check key s).2) k = None)).
Proof.
  intros Hs. unfold delete_check. destruct (GetSettingItemByKey_ok key s Hs) as (H1 & _ & H3).
  destruct (GetSettingItemByKey key s) as [[e|i] s1]; cbn [fst snd] in *; [by split_and!|].
  unfold IsDeprecated. destruct (Z.eqb_spec (it_Flag i) DEPRECATED); cbn [negb fst snd]; [|by split_and!].
  split; [apply current_clear|]. split; [done|]. intros _. split; [eauto|]. split; intros k; cbn; apply cache_Get_Clear.
Qed.

Lemma DeleteSettingItemByKey_ok key s : cache_current s →
  cache_current (DeleteSettingItemByKey key s).2 ∧
  ((DeleteSettingItemByKey key s).1 = inr () → (∃ i, rows_of s !! key = Some i ∧ it_Flag i = DEPRECATED) ∧
    rows_of (DeleteSettingItemByKey key s).2 = delete key (rows_of s)).
Proof.
  intros Hs. destruct (delete_check_ok key s Hs) as (H1 & Ht & H2). pose proof (proj1 (proj2 (GetSettingItemByKey_ok key s Hs))) as Hr.
  unfold DeleteSettingItemByKey, op_bind. destruct (delete_check key s) as [[e|[]] s1]; cbn [fst snd] in *; [by split|].
  destruct (H2 eq_refl) as (Hd & Hc & Hg). unfold delete_row. destruct (DeleteKey (items_table s1) key) as [e|t] eqn:E; cbn [fst snd]; [by split|].
  apply DeleteKey_ok in E. split.
  - split; intros k x; cbn; [rewrite Hc|rewrite Hg]; done.
  - intros _. split; [done|]. cbn. by rewrite E, Ht, Hr.
Qed.

(** The listing changes an array only where it is [hidden]. *)
Lemma hidden_show_first l : map hidden (show_first l) = map hidden l.
Proof.
  induction l as [|i l IH]; cbn [show_first map]; [done|]. case_bool_decide as E; cbn [map]; f_equal; [|done].
  unfold hidden, show_role. destruct (ParseInt _) as [n [e|]]; [|destruct (role_by_id _)]; cbn; by rewrite !bool_decide_true by done.
Qed.

Lemma ListSettings_current group groups : keeps cache_current (ListSettings group groups).
Proof.
  unfold ListSettings. assert (Hm : keeps cache_current (list_asked group groups)).
  { unfold list_asked. destruct (_ && _); [intros s Hs; by apply GetSettingItems_ok|]. destruct (parse_groups _); [auto with alist|].
    intros s Hs. by apply GetSettingItemsInGroups_ok. }
  apply keeps_bind; [done|]. intros loc s [Hi Hg]. split; cbn; [done|]. intros key loc' (l & Hl & E)%Hg. destruct (decide (loc = loc')) as [->|Hne].
  - eexists. split; [cbn; apply list_lookup_insert_eq; by eapply lookup_lt_Some|]. unfold items_at. rewrite Hl. cbn [default id]. unfold id. by rewrite hidden_show_first.
  - exists l. split; [cbn; by rewrite list_lookup_insert_ne|done].
Qed.

(** ** What a successful save stores *)

Lemma save_rows_other l m k : k ∉ map it_Key l → save_rows l m !! k = m !! k.
Proof.
  revert m. induction l as [|i l IH]; intros m Hk; [done|]. cbn [map save_rows fold_left] in *. apply not_elem_of_cons in Hk as [H1 H2].
  change (fold_left _ l ?x) with (save_rows l x). rewrite IH by done. by apply lookup_insert_ne.
Qed.

Lemma save_rows_lookup l m i : NoDup (map it_Key l) → i ∈ l → save_rows l m !! it_Key i = Some i.
Proof.
  revert m. induction l as [|j l IH]; intros m Hd Hi; [by apply elem_of_nil in Hi|]. cbn [map] in Hd. apply NoDup_cons in Hd as [H1 H2].
  change (save_rows (j :: l) m) with (save_rows l (<[it_Key j := j]> m)). apply elem_of_cons in Hi as [->|Hi]; [|by apply IH].
  rewrite save_rows_other by done. apply lookup_insert_eq.
Qed.

Lemma save_hooked_rows items errs noHook s :
  let '(errs', noHook', s') := save_hooked items errs noHook s in
  errs' = [] → errs = [] ∧ ∃ hooked rest, noHook' = noHook ++ rest ∧ hooked ++ rest ≡ₚ items ∧ rows_of s' = save_rows hooked (rows_of s).
Proof.
  revert errs noHook s. induction items as [|item items IH]; intros errs noHook s; cbn [save_hooked].
  { intros ->. split; [done|]. exists [], []. by rewrite app_nil_r. }
  destruct (hook_same item s) as [Ht _]. destruct (HandleSettingItemHook item s) as [[[e|]|] s1]; cbn [snd] in *.
  - specialize (IH (errs ++ [e]) noHook s1). destruct (save_hooked _ _ _ s1) as [[errs' noHook'] s']. intros E.
    destruct (IH E) as [Hn _]. by destruct errs.
  - unfold db_SaveSettingItem. destruct (SaveItem (items_table s1) item) as [e|t] eqn:Es.
    + specialize (IH (errs ++ [EWithMessage e []]) noHook s1). destruct (save_hooked _ _ _ s1) as [[errs' noHook'] s']. intros E.
      destruct (IH E) as [Hn _]. by destruct errs.
    + specialize (IH errs noHook (upd_table t s1)). destruct (save_hooked _ _ _ (upd_table t s1)) as [[errs' noHook'] s']. intros E.
      destruct (IH E) as (-> & hk & rest & -> & Hp & Hr). split; [done|]. exists (item :: hk), rest. split; [done|]. split; [cbn; by rewrite Hp|].
      rewrite Hr. cbn. by rewrite (SaveItem_ok _ _ _ Es), Ht.
  - specialize (IH errs (noHook ++ [item]) s1). destruct (save_hooked _ _ _ s1) as [[errs' noHook'] s']. intros E.
    destruct (IH E) as (-> & hk & rest & -> & Hp & Hr). split; [done|]. exists hk, (item :: rest). split; [by rewrite <- app_assoc|].
    split; [by rewrite <- Hp, Permutation_middle|]. by rewrite Hr, Ht.
Qed.

Lemma MergeErrors_none errs : (∀ e, err_Error e ≠ []) → MergeErrors errs = None → errs = [].
Proof.
  intros Ht. unfold MergeErrors. case_bool_decide as H; [done|]. intros _. destruct errs as [|e [|e' errs]]; [done|by apply Ht in H|].
  cbn [map] in H. rewrite Join_cons in H by done. by apply app_eq_nil in H as [?%Ht _].
Qed.

Lemma SaveSettingItems_rows items s : (∀ e, err_Error e ≠ []) → (SaveSettingItems items s).1 = inr () →
  ∃ order, order ≡ₚ items ∧ rows_of (SaveSettingItems items s).2 = save_rows order (rows_of s).
Proof.
  intros Htx. unfold SaveSettingItems. pose proof (save_hooked_rows items [] [] s) as H. destruct (save_hooked items [] [] s) as [[errs noHook] s1].
  assert (Hn : ∀ (b : bool) s2, rows_of (if b then SettingCacheUpdate s2 else s2) = rows_of s2) by (by intros []).
  case_bool_decide as En; [|destruct (SaveItems (items_table s1) noHook) as [e|t] eqn:Es]; cbn [fst snd]; rewrite Hn;
    (destruct (MergeErrors _) eqn:Em; [done|]); intros _; (apply MergeErrors_none in Em; [|done]).
  - destruct (H Em) as (_ & hk & rest & -> & Hp & Hr). apply app_eq_nil in En as [_ ->]. rewrite app_nil_r in Hp. eauto.
  - by apply app_eq_nil in Em as [_ ?].
  - destruct (H Em) as (_ & hk & rest & -> & Hp & Hr). exists (hk ++ rest). split; [done|]. cbn. rewrite (SaveItems_ok _ _ _ Es), Hr.
    symmetry. apply fold_left_app.
Qed.

Lemma SaveSettingItem_rows item s : (SaveSettingItem item s).1 = inr () →
  rows_of (SaveSettingItem item s).2 = <[ it_Key item := item ]> (rows_of s).
Proof.
  unfold SaveSettingItem. destruct (hook_same item s) as [Ht _]. destruct (HandleSettingItemHook item s) as [[[e|]|] s1]; cbn [snd] in *; [done|..];
    unfold db_SaveSettingItem; (destruct (SaveItem (items_table s1) item) as [e|t] eqn:Es; [done|]); intros _; cbn; by rewrite (SaveItem_ok _ _ _ Es), Ht.
Qed.
End env.

(** ** Reachable states *)

(** The operations, under any roles and registered hooks, and the expiry of entries. *)
Inductive setting_step (s : settings) : settings → Prop :=
  | StepGetItems : setting_step s (GetSettingItems s).2
  | StepGetPublic : setting_step s (GetPublicSettingItems s).2
  | StepGetGroup g : setting_step s (GetSettingItemsByGroup g s).2
  | StepGetGroups gs : setting_step s (GetSettingItemsInGroups gs s).2
  | StepGetKey k : setting_step s (GetSettingItemByKey k s).2
  | StepGetKeys ks : setting_step s (GetSettingItemInKeys ks s).2
  | StepSave `{SE : SettingEnv} i : setting_step s (SaveSettingItem i s).2
  | StepSaves `{SE : SettingEnv, ET : ErrorTexts} l : setting_step s (SaveSettings l s).2
  | StepSaveItems `{SE : SettingEnv, ET : ErrorTexts} l : setting_step s (SaveSettingItems l s).2
  | StepDelete k : setting_step s (DeleteSettingItemByKey k s).2
  | StepList `{SE : SettingEnv} g gs : setting_step s (ListSettings g gs s).2
  | StepExpire ci cn : expired (settingCache s) ci → expired (settingGroupCache s) cn →
      setting_step s (upd_lists cn (heap s) (upd_items ci s)).

Definition no_settings_cached (s : settings) : Prop :=
  (∀ k, cache_Get (settingCache s) k = None) ∧ (∀ k, cache_Get (settingGroupCache s) k = None).

Inductive settings_reachable : settings → Prop :=
  | SettingsStart s : no_settings_cached s → settings_reachable s
  | SettingsMore s s' : settings_reachable s → setting_step s s' → settings_reachable s'.

Lemma step_current s s' : setting_step s s' → cache_current s → cache_current s'.
Proof.
  intros H Hs. destruct H as [| | | | | | | | | | |ci cn Hi Hn].
  - by apply GetSettingItems_ok.
  - by apply GetPublicSettingItems_ok.
  - by apply GetSettingItemsByGroup_ok.
  - by apply GetSettingItemsInGroups_ok.
  - by apply GetSettingItemByKey_ok.
  - by apply InKeys_current.
  - by apply SaveSettingItem_current.
  - unfold SaveSettings. destruct (role_numbers l); [done|]. by apply SaveSettingItems_current.
  - by apply SaveSettingItems_current.
  - by apply DeleteSettingItemByKey_ok.
  - by apply ListSettings_current.
  - destruct Hs as [H1 H2]. split.
    + intros k i. cbn. destruct (Hi k) as [->| ->]; [done|apply H1].
    + intros k loc. cbn. destruct (Hn k) as [->| ->]; [done|apply H2].
Qed.

Lemma reachable_current s : settings_reachable s → cache_current s.
Proof.
  induction 1 as [s [H1 H2]|s s' _ IH Hs]; [|by eapply step_current].
  split; intros k x; [by rewrite H1|by rewrite H2].
Qed.

(** The items that a list operation answers, as the caller sees them. *)
Definition answers (m : Op settings nat) (p : SettingItem → bool) (s : settings) : Prop :=
  ∀ loc, (m s).1 = inr loc → map hidden (items_at loc (m s).2) ≡ₚ map hidden (stored p s).

Lemma returns_answers m p s : returns_list m p → cache_current s → answers m p s.
Proof. intros Hm Hs loc E. destruct (Hm s Hs) as (_ & _ & H). destruct (H _ E) as (l & Hl & Ep). unfold items_at. by rewrite Hl. Qed.

(** C26. In every state that the operations on settings can reach, with entries
    expiring at any time and any errors of the database: a setting read by its
    key is the row of the database; the lists of all, of the public and of the
    settings of some groups are the rows of that kind, up to the order and with
    one exception: the value and the options of the item default_role in a list
    may be others, since the handler of the settings writes over them in the
    cached array ([settings_defects]).  A save without an error stores the item,
    and a save of items with distinct keys stores each of them and changes no
    other row (the errors are joined by their texts, which are not empty); a
    deletion without an error was of a deprecated row, and removes it alone. *)
Theorem settings_current (s : settings) : settings_reachable s →
  (∀ k i, (GetSettingItemByKey k s).1 = inr i → rows_of s !! k = Some i) ∧
  (answers GetSettingItems (λ _, true) s ∧ answers GetPublicSettingItems is_public s ∧
   (∀ g, answers (GetSettingItemsByGroup g) (in_groups [g]) s) ∧ (∀ gs, answers (GetSettingItemsInGroups gs) (in_groups gs) s)) ∧
  (∀ (SE : SettingEnv) i, (SaveSettingItem i s).1 = inr () → rows_of (SaveSettingItem i s).2 = <[ it_Key i := i ]> (rows_of s)) ∧
  (∀ (SE : SettingEnv) (ET : ErrorTexts) l, (∀ e, err_Error e ≠ []) → NoDup (map it_Key l) → (SaveSettingItems l s).1 = inr () →
     (∀ i, i ∈ l → rows_of (SaveSettingItems l s).2 !! it_Key i = Some i) ∧
     (∀ k, k ∉ map it_Key l → rows_of (SaveSettingItems l s).2 !! k = rows_of s !! k)) ∧
  (∀ k, (DeleteSettingItemByKey k s).1 = inr () →
     (∃ i, rows_of s !! k = Some i ∧ it_Flag i = DEPRECATED) ∧ rows_of (DeleteSettingItemByKey k s).2 = delete k (rows_of s)).
Proof.
  intros Hs%reachable_current. split; [intros k; by apply GetSettingItemByKey_ok|]. split; [|split; [|split]].
  - split_and!; intros; apply returns_answers; auto using GetSettingItems_ok, GetPublicSettingItems_ok, GetSettingItemsByGroup_ok, GetSettingItemsInGroups_ok.
  - intros SE i. apply SaveSettingItem_rows.
  - intros SE ET l Ht Hd E. destruct (SaveSettingItems_rows l s Ht E) as (o & Hp & ->). split.
    + intros i Hi. apply save_rows_lookup; [by rewrite Hp|by rewrite Hp].
    + intros k Hk. apply save_rows_other. by rewrite Hp.
  - intros k. by apply DeleteSettingItemByKey_ok.
Qed.
End settings.

(** ** Settings: a table, and what the operations do on it *)

(** A table as the list of its writes; it refuses values of more than forty bytes. *)
Definition log_rows (t : list SettingItem) : gmap gostr SettingItem := save_rows t ∅.
Definition log_find (t : list SettingItem) (p : SettingItem → bool) : list SettingItem := filter (λ i, p i) (map_to_list (log_rows t)).*2.
Definition fits (i : SettingItem) : bool := (length (it_Value i) <=? 40)%nat.
Definition index_le (i j : SettingItem) : Prop := it_Index i ≤ it_Index j.
#[export] Instance index_le_dec : RelDecision index_le := λ i j, Z.le_dec (it_Index i) (it_Index j).

#[export] Instance log_table : SettingTable := {|
  setting_table := list SettingItem;
  Find t p := inr (log_find t p);
  FindByIndex t p := inr (merge_sort index_le (log_find t p));
  FirstKey t k := match log_rows t !! k with Some i => inr i | None => inl (EMessage #"record not found") end;
  SaveItem t i := if fits i then inr (t ++ [i]) else inl (EMessage #"data too long");
  SaveItems t l := if forallb fits l then inr (t ++ l) else inl (EMessage #"data too long");
  DeleteKey t k := inr (filter (λ i, it_Key i ≠ k) t);
|}.

Lemma save_rows_app l l' m : save_rows (l ++ l') m = save_rows l' (save_rows l m).
Proof. apply fold_left_app. Qed.

Lemma save_rows_delete l k m : save_rows (filter (λ i, it_Key i ≠ k) l) (delete k m) = delete k (save_rows l m).
Proof.
  revert m. induction l as [|i l IH]; intros m; [done|]. rewrite filter_cons.
  change (save_rows (i :: l) m) with (save_rows l (<[it_Key i := i]> m)). rewrite <- IH. case_decide as E.
  - rewrite delete_insert_ne by done. done.
  - subst k. by rewrite delete_insert_eq.
Qed.

Lemma log_keyed l m k i : (∀ k i, m !! k = Some i → it_Key i = k) → save_rows l m !! k = Some i → it_Key i = k.
Proof.
  revert m. induction l as [|j l IH]; intros m Hm; [apply Hm|]. cbn [save_rows fold_left]. apply IH. intros k' i'.
  rewrite lookup_insert. case_decide; [by intros [= <-]|apply Hm].
Qed.

#[export] Instance log_laws : SettingLaws (ST := log_table).
Proof.
  refine {| setting_rows := (log_rows : setting_table → _) |}; cbn.
  - by intros t p l [= <-].
  - intros t p l [= <-]. apply merge_sort_Permutation.
  - intros t k i. destruct (log_rows t !! k) eqn:E; [by intros [= <-]|done].
  - intros t i t'. destruct (fits i); [|done]. intros [= <-]. apply save_rows_app.
  - intros t l t'. destruct (forallb fits l); [|done]. intros [= <-]. apply save_rows_app.
  - intros t k t' [= <-]. unfold log_rows. rewrite <- save_rows_delete. by rewrite delete_empty.
  - intros t k i. apply log_keyed. by intros ?? ?%lookup_empty_Some.
Defined.

#[local] Existing Instance map_Cache.
#[local] Existing Instance map_CacheLaws.

Module SettingsExample.
Definition mk_item (key value : gostr) (group flag index : Z) : SettingItem :=
  {| it_Key := key; it_Value := value; it_Help := []; it_Type := TypeString; it_Options := [];
     it_Group := group; it_Flag := flag; it_Index := index |}.
Definition title : SettingItem := mk_item #"site_title" #"AList" 1 PUBLIC 1.
Definition notice : SettingItem := mk_item #"announcement" #"hello" 1 PUBLIC 2.
Definition role : SettingItem := mk_item DefaultRole #"2" 1 PRIVATE 0.
Definition old : SettingItem := mk_item #"old_switch" #"true" 0 DEPRECATED 3.

Definition start : settings := {|
  items_table := ([title; notice; role; old] : setting_table (SettingTable := log_table));
  settingCache := (∅ : gmap gostr SettingItem); settingGroupCache := (∅ : gmap gostr nat); heap := [];
  slices := ∅; privacy := []; charmap := ∅; notified := 0 |}.

(** Role 2 has the name [name]. *)
Definition roles (name : gostr) : SettingEnv := {|
  regexp_ok _ := None; decode_charmap _ m := (None, m);
  role_by_id n := if n =? 2 then inr name else inl (EMessage #"role not found");
  role_by_name n := if bool_decide (n = name) then inr (2, name) else inl (EMessage #"role not found");
  role_names := [ #"admin"; name; #"guest"];
  other_hook _ := None |}.

#[local] Instance texts : ErrorTexts := λ _, #"error".

Definition s1 : settings := (ListSettings (SE := roles #"editor") [] [] start).2.
Definition s2 : settings := (GetSettingItemByKey #"site_title" s1).2.
Definition s3 : settings := (SaveSettingItems (SE := roles #"editor") [mk_item #"site_title" #"Files" 1 PUBLIC 1; mk_item #"video_types" #"mp4,mkv" 1 PUBLIC 5] s2).2.

Lemma start_reachable : settings_reachable start.
Proof. apply SettingsStart. split; intros k; apply lookup_empty. Qed.

Lemma s2_reachable : settings_reachable s2.
Proof. eapply SettingsMore; [eapply SettingsMore; [apply start_reachable|apply (StepList (SE := roles #"editor") start [] [])]|apply StepGetKey]. Qed.

(** The hypotheses of [settings_current] hold after a listing and a read. *)
Lemma settings_current_witness :
  setting_rows (items_table s2) !! #"site_title" = Some title ∧
  setting_rows (items_table s3) !! #"site_title" = Some (mk_item #"site_title" #"Files" 1 PUBLIC 1) ∧
  setting_rows (items_table (DeleteSettingItemByKey #"old_switch" s2).2) !! #"old_switch" = None.
Proof.
  destruct (settings_current s2 s2_reachable) as (Hk & _ & _ & Hs & Hd). split; [|split].
  - apply Hk. vm_compute. reflexivity.
  - assert (Hn : NoDup (map it_Key [mk_item #"site_title" #"Files" 1 PUBLIC 1; mk_item #"video_types" #"mp4,mkv" 1 PUBLIC 5])) by decide_now.
    destruct (Hs (roles #"editor") texts _ ltac:(done) Hn) as [H _]; [vm_compute; reflexivity|]. apply (H (mk_item #"site_title" #"Files" 1 PUBLIC 1)). left.
  - destruct (Hd #"old_switch") as [_ ->]; [vm_compute; reflexivity|]. apply lookup_delete_eq.
Defined.

(** The value of a setting in the map of all settings. *)
Definition shown (k : gostr) (s : settings) : option gostr := (GetSettingsMap s).1 !! k.
Definition shown_value (k : gostr) (l : list SettingItem) : list gostr := map it_Value (filter (λ i, it_Key i = k) l).
Definition keys_of (m : Op settings nat) (s : settings) : list gostr :=
  match (m s).1 with inr loc => map it_Key (items_at loc (m s).2) | inl _ => [] end.

(** Before and after a listing, the map of the settings has the number and then
    the name of the default role; the name outlives a renaming of the role. A read
    between the two parts of a deletion keeps the deleted item. A list of one
    group has the order of the request that came first. A value that the
    database refuses is in force all the same. *)
Lemma settings_defects :
  (shown DefaultRole start = Some #"2" ∧ shown DefaultRole s1 = Some #"editor" ∧
   sum_map (λ _, tt) (shown_value DefaultRole) (ListSettings (SE := roles #"writer") [] [] s1).1 = inr [ #"editor"]) ∧
  (let s := (delete_row #"old_switch" (GetSettingItemByKey #"old_switch" (delete_check #"old_switch" start).2).2).2 in
   setting_rows (items_table s) !! #"old_switch" = None ∧ (GetSettingItemByKey #"old_switch" s).1 = inr old) ∧
  (keys_of (GetSettingItemsInGroups [1]) start = [DefaultRole; #"site_title"; #"announcement"] ∧
   keys_of (GetSettingItemsInGroups [1]) (GetSettingItemsByGroup 1 start).2 ≠ [DefaultRole; #"site_title"; #"announcement"]) ∧
  (let i := mk_item #"video_types" #"mp4,mkv,avi,mov,rmvb,webm,flv,m4v,wmv,mpg,ts" 1 PUBLIC 5 in
   let '(r, s) := SaveSettingItem (SE := roles #"editor") i start in
   (if r then true else false) = true ∧ setting_rows (items_table s) !! #"video_types" = None ∧ (length <$> slices s !! #"video_types") = Some 11%nat).
Proof. vm_compute. repeat split; intros [=]. Qed.
End SettingsExample.
