(* ===== verification/Archive.v ===== *)
(** * Archives: [internal/archive]

    The safe path of an entry ([tool/securepath.go]), the limit on the size of
    what is extracted ([tool/limiter.go]) and the extraction of the five tools:
    [zip] and [sevenzip] through [tool/helper.go], [rardecode], [iso9660] and
    [archives].  The readers of the formats are libraries: an archive is what
    they give, entries with their names, kinds and contents, or errors.
    Extraction is a program over the calls of package [os]. *)

From S2P Require Import Prelude GoStrings Errs Prog.

Local Open Scope Z_scope.

(** ** [tool/securepath.go], on a system with slashes *)

Definition ErrArchiveIllegalPath : error := EMessage #"archive entry has illegal path".
Definition illegal (name : gostr) : error := EFmtWrap ErrArchiveIllegalPath name.

(** [os.Getwd] *)
Class WorkDir := Getwd : result gostr.

Definition filepath_IsAbs (p : gostr) : bool := HasPrefix p #"/".
(** There are no volumes. *)
Definition filepath_VolumeName (p : gostr) : gostr := [].

Definition filepath_Abs `{WorkDir} (p : gostr) : result gostr :=
  if filepath_IsAbs p then inr (Clean p) else let! wd := Getwd in inr (path_join wd p).

(** [filepath.Rel] of two rooted paths, the only ones it is called with: the
    elements that both begin with are left out, and each other element of the
    base is a step up. *)
Fixpoint rel_segs (base targ : list gostr) : gostr :=
  match base, targ with
  | b :: base', t :: targ' => if bool_decide (b = t) then rel_segs base' targ' else Join #"/" (map (λ _, #"..") base ++ targ)
  | _, _ => Join #"/" (map (λ _, #"..") base ++ targ)
  end.

Definition filepath_Rel (basepath targpath : gostr) : result gostr :=
  let base := Clean basepath in
  let targ := Clean targpath in
  if bool_decide (base = targ) then inr #"."
  else if filepath_IsAbs base && filepath_IsAbs targ then inr (rel_segs (clean_segs true base) (clean_segs true targ))
  else inl (EMessage #"Rel: can't make relative").

Definition SecureJoin `{WorkDir} (baseDir entryName : gostr) : result gostr :=
  if Contains entryName ["000"%char] then inl (illegal entryName)
  else
    let normalized := ReplaceByte entryName "\" #"/" in
    if HasPrefix normalized #"//" then inl (illegal entryName)
    else
      let cleaned := Clean normalized in
      if bool_decide (cleaned = #".") || bool_decide (cleaned = #"..") || HasPrefix cleaned #"../" then inl (illegal entryName)
      else if HasPrefix cleaned #"/" then inl (illegal entryName)
      else
        let rel := cleaned in
        if filepath_IsAbs rel || bool_decide (filepath_VolumeName rel ≠ []) then inl (illegal entryName)
        else if HasPrefix rel #"\\" then inl (illegal entryName)
        else
          let base := Clean baseDir in
          let dst := path_join base rel in
          match filepath_Abs base with
          | inl _ => inl (illegal entryName)
          | inr baseAbs =>
              match filepath_Abs dst with
              | inl _ => inl (illegal entryName)
              | inr dstAbs =>
                  match filepath_Rel baseAbs dstAbs with
                  | inl _ => inl (illegal entryName)
                  | inr relCheck =>
                      if bool_decide (relCheck = #"..") || HasPrefix relCheck #"../" then inl (illegal entryName) else inr dst
                  end
              end
          end.

(** ** [tool/limiter.go] *)

Record SizeLimiter := { remain : Z; limited : bool }.

Definition NewSizeLimiter (max : Z) : SizeLimiter :=
  if max <=? 0 then {| remain := 0; limited := false |} else {| remain := max; limited := true |}.

Definition ErrExtractSizeExceeded : error := EMessage #"total size of decompressed files exceeds the limit".

(** ** The calls of package [os] *)

Inductive os_call :=
  | OMkdir (p : gostr)
  | OMkdirAll (p : gostr)
  | OCreate (p : gostr) (* [O_WRONLY|O_CREATE|O_EXCL] *)
  | OWrite (p : gostr) (data : gostr).

Definition os_answer (_ : os_call) : Type := option error.

Abbreviation os_prog A := (prog os_answer (result A)).

Definition os_do (c : os_call) : os_prog () :=
  try^ r := p_call c in match r with None => p_ok () | Some e => p_fail e end.

(** [limitedWriter.Write], or the writer itself when there is no limit *)
Definition lw_Write (l : SizeLimiter) (dst data : gostr) : os_prog SizeLimiter :=
  if negb (limited l) then try^ _ := os_do (OWrite dst data) in p_ok l
  else
    let r := wrap64 (remain l - Z.of_nat (length data)) in
    if r <? 0 then p_fail ErrExtractSizeExceeded
    else try^ _ := os_do (OWrite dst data) in p_ok {| remain := r; limited := true |}.

(** What a reader gives: pieces, and at the end an error or [io.EOF]. *)
Record stream := { pieces : list gostr; ends : option error }.

(** A piece of data, read into a buffer of [buf] bytes as often as it takes;
    [room] is what is left of the buffer, which has [acc] in reverse. *)
Fixpoint reads (buf room : nat) (acc data : gostr) : list gostr :=
  match data with
  | [] => if bool_decide (acc = []) then [] else [reverse acc]
  | c :: data' =>
      match room with
      | O => reverse acc :: reads buf (pred buf) [c] data'
      | S room' => reads buf room' (c :: acc) data'
      end
  end.

(** The buffers of [io.Copy] and of [utils.CopyWithBuffer] *)
Definition io_buf : nat := Z.to_nat 32768.
Definition pool_buf : nat := Z.to_nat 65536.

(** [io.CopyBuffer] *)
Definition io_Copy (buf : nat) (l : SizeLimiter) (dst : gostr) (s : stream) : os_prog SizeLimiter :=
  try^ l := p_fold (λ l p, lw_Write l dst p) (concat (map (reads buf buf []) (pieces s))) l in
  match ends s with Some e => p_fail e | None => p_ok l end.

(** A new file with the contents of a stream. *)
Definition write_new (buf : nat) (l : SizeLimiter) (dst : gostr) (s : stream) : os_prog SizeLimiter :=
  try^ _ := os_do (OCreate dst) in io_Copy buf l dst s.

(** ** [tool/helper.go] *)

(** [sf_Open] has the password that was set, if any. *)
Record SubFile := {
  sf_Name : gostr;
  sf_IsDir : bool;
  sf_IsRegular : bool;
  sf_BaseName : gostr; (* [FileInfo().Name()] *)
  sf_Size : Z;
  sf_ModTime : Z;
  sf_IsEncrypted : bool;
  sf_Open : option gostr → result stream;
}.

Record ArchiveInnerArgs := { arg_Password : gostr; arg_InnerPath : gostr }.

Section extract.
Context {WD : WorkDir}.

Definition _decompress (l : SizeLimiter) (file : SubFile) (dstPath password : gostr) : os_prog SizeLimiter :=
  try^ rc := p_result (sf_Open file (if sf_IsEncrypted file then Some password else None)) in
  write_new io_buf l dstPath rc.

(** One entry, under the name [name] below [dir]. *)
Definition extract_entry (password dir name : gostr) (l : SizeLimiter) (file : SubFile) : os_prog SizeLimiter :=
  if sf_IsDir file then
    try^ dirPath := p_result (SecureJoin dir name) in
    try^ _ := os_do (OMkdirAll dirPath) in
    p_ok l
  else if negb (sf_IsRegular file) then p_fail (illegal (sf_Name file))
  else
    try^ dstPath := p_result (SecureJoin dir name) in
    try^ _ := os_do (OMkdirAll (path_Dir dstPath)) in
    _decompress l file dstPath password.

(** The directory for the entries below the inner path, made once. *)
Definition make_base (outputPath innerBase : gostr) (base : option gostr) : os_prog gostr :=
  match base with
  | Some b => p_ok b
  | None =>
      try^ b := p_result (SecureJoin outputPath innerBase) in
      try^ _ := os_do (OMkdirAll b) in
      p_ok b
  end.

Fixpoint extract_inner (password outputPath innerPath : gostr) (files : list SubFile) (base : option gostr) (l : SizeLimiter) :
    os_prog SizeLimiter :=
  match files with
  | [] => p_ok l
  | file :: files' =>
      if bool_decide (sf_Name file = innerPath) then
        if sf_IsDir file then
          try^ b := make_base outputPath (path_Base innerPath) base in
          extract_inner password outputPath innerPath files' (Some b) l
        else extract_entry password outputPath (path_Base innerPath) l file
      else if HasPrefix (sf_Name file) (innerPath ++ #"/") then
        try^ b := make_base outputPath (path_Base innerPath) base in
        let restPath := TrimPrefix (sf_Name file) (innerPath ++ #"/") in
        if bool_decide (restPath = []) || bool_decide (restPath = #".")
        then extract_inner password outputPath innerPath files' (Some b) l
        else
          try^ l := extract_entry password b restPath l file in
          extract_inner password outputPath innerPath files' (Some b) l
      else extract_inner password outputPath innerPath files' base l
  end.

Definition DecompressFromFolderTraversal (files : list SubFile) (outputPath : gostr) (args : ArchiveInnerArgs) (l : SizeLimiter) :
    os_prog SizeLimiter :=
  if bool_decide (arg_InnerPath args = #"/")
  then p_fold (λ l file, extract_entry (arg_Password args) outputPath (sf_Name file) l file) files l
  else extract_inner (arg_Password args) outputPath (TrimPrefix (arg_InnerPath args) #"/") files None l.

(** ** [rardecode] *)

Record FileHeader := { hd_Name : gostr; hd_IsDir : bool; hd_IsRegular : bool; hd_data : stream }.

Definition rar_name (h : FileHeader) : gostr := if hd_IsDir h then hd_Name h ++ #"/" else hd_Name h.

Definition rar_decompress (l : SizeLimiter) (h : FileHeader) (dstPath : gostr) : os_prog SizeLimiter :=
  if hd_IsDir h then try^ _ := os_do (OMkdirAll dstPath) in p_ok l
  else if negb (hd_IsRegular h) then p_fail (illegal (hd_Name h))
  else
    try^ _ := os_do (OMkdirAll (path_Dir dstPath)) in
    write_new io_buf l dstPath (hd_data h).

(** What [reader.Next] answers until [io.EOF]. *)
Definition rar_entry (outputPath : gostr) (l : SizeLimiter) (next : result FileHeader) : os_prog SizeLimiter :=
  try^ h := p_result next in
  try^ dstPath := p_result (SecureJoin outputPath (rar_name h)) in
  rar_decompress l h dstPath.

Fixpoint rar_inner (outputPath innerPath : gostr) (nexts : list (result FileHeader)) (base : option gostr) (l : SizeLimiter) :
    os_prog SizeLimiter :=
  match nexts with
  | [] => p_ok l
  | inl e :: _ => p_fail e
  | inr h :: nexts' =>
      if bool_decide (rar_name h = innerPath) then
        if hd_IsDir h then
          try^ b := make_base outputPath (path_Base innerPath) base in
          rar_inner outputPath innerPath nexts' (Some b) l
        else if negb (hd_IsRegular h) then p_fail (illegal (hd_Name h))
        else
          try^ dstPath := p_result (SecureJoin outputPath (path_Base innerPath)) in
          try^ _ := os_do (OMkdirAll (path_Dir dstPath)) in
          write_new io_buf l dstPath (hd_data h)
      else if HasPrefix (rar_name h) (innerPath ++ #"/") then
        try^ b := make_base outputPath (path_Base innerPath) base in
        let restPath := TrimPrefix (rar_name h) (innerPath ++ #"/") in
        if bool_decide (restPath = []) || bool_decide (restPath = #".")
        then rar_inner outputPath innerPath nexts' (Some b) l
        else
          try^ dstPath := p_result (SecureJoin b restPath) in
          try^ l := rar_decompress l h dstPath in
          rar_inner outputPath innerPath nexts' (Some b) l
      else rar_inner outputPath innerPath nexts' base l
  end.

Definition rar_Decompress (nexts : list (result FileHeader)) (outputPath : gostr) (args : ArchiveInnerArgs) (l : SizeLimiter) :
    os_prog SizeLimiter :=
  if bool_decide (arg_InnerPath args = #"/") then p_fold (rar_entry outputPath) nexts l
  else rar_inner outputPath (TrimPrefix (arg_InnerPath args) #"/") nexts None l.

(** ** [iso9660] *)

Inductive iso_file := IsoFile (name : gostr) (isdir : bool) (size : Z) (modtime : Z) (data : stream) (children : result (list iso_file)).

Definition iso_Name (f : iso_file) : gostr := let '(IsoFile n _ _ _ _ _) := f in n.
Definition iso_IsDir (f : iso_file) : bool := let '(IsoFile _ d _ _ _ _) := f in d.
Definition iso_Size (f : iso_file) : Z := let '(IsoFile _ _ z _ _ _) := f in z.
Definition iso_ModTime (f : iso_file) : Z := let '(IsoFile _ _ _ t _ _) := f in t.
Definition iso_Reader (f : iso_file) : stream := let '(IsoFile _ _ _ _ s _) := f in s.
Definition iso_GetChildren (f : iso_file) : result (list iso_file) := let '(IsoFile _ _ _ _ _ c) := f in c.

Fixpoint find_child (p : gostr) (l : list iso_file) : option iso_file :=
  match l with [] => None | c :: l' => if bool_decide (iso_Name c = p) then Some c else find_child p l' end.

Fixpoint descend (obj : iso_file) (paths : list gostr) : result iso_file :=
  match paths with
  | [] => inr obj
  | p :: paths' =>
      if negb (iso_IsDir obj) then inl (ESentinel ObjectNotFound)
      else
        let! children := iso_GetChildren obj in
        match find_child p children with Some c => descend c paths' | None => inl (ESentinel ObjectNotFound) end
  end.

(** The root directory of the image, or the error of the library. *)
Definition getObj (root : result iso_file) (path : gostr) : result iso_file :=
  let! obj := root in
  if bool_decide (path = #"/") then inr obj else descend obj (Split "/" (TrimPrefix path #"/")).

Definition decompressEntry (l : SizeLimiter) (reader : stream) (path entryName : gostr) : os_prog SizeLimiter :=
  try^ dstPath := p_result (SecureJoin path entryName) in
  try^ _ := os_do (OMkdirAll (path_Dir dstPath)) in
  write_new pool_buf l dstPath reader.

Definition iso_decompress (l : SizeLimiter) (f : iso_file) (path : gostr) : os_prog SizeLimiter :=
  decompressEntry l (iso_Reader f) path (iso_Name f).

(** One child of [decompressAll], which is a loop over the children. *)
Fixpoint iso_child (path : gostr) (l : SizeLimiter) (child : iso_file) {struct child} : os_prog SizeLimiter :=
  match child with
  | IsoFile name isdir _ _ data children =>
      if isdir then
        try^ nextChildren := p_result children in
        try^ nextPath := p_result (SecureJoin path name) in
        try^ _ := os_do (OMkdirAll nextPath) in
        p_fold (iso_child nextPath) nextChildren l
      else decompressEntry l data path name
  end.

Definition decompressAll (children : list iso_file) (path : gostr) (l : SizeLimiter) : os_prog SizeLimiter :=
  p_fold (iso_child path) children l.

Definition iso_Decompress (root : result iso_file) (outputPath : gostr) (args : ArchiveInnerArgs) (l : SizeLimiter) :
    os_prog SizeLimiter :=
  try^ obj := p_result (getObj root (arg_InnerPath args)) in
  if iso_IsDir obj then
    try^ outputPath :=
      if bool_decide (arg_InnerPath args ≠ #"/") then
        try^ p := p_result (SecureJoin outputPath (iso_Name obj)) in
        try^ _ := os_do (OMkdirAll p) in
        p_ok p
      else p_ok outputPath in
    try^ children := p_result (iso_GetChildren obj) in
    decompressAll children outputPath l
  else iso_decompress l obj outputPath.

(** ** [archives] *)

Record FileInfo := { fi_Name : gostr; fi_IsDir : bool; fi_IsRegular : bool }.
Record DirEntry := { de_Name : gostr; de_IsDir : bool; de_Info : result FileInfo }.

(** The file system that the library makes of an archive. *)
Record ArchiveFS := {
  fs_Stat : gostr → result FileInfo;
  fs_ReadDir : gostr → result (list DirEntry);
  fs_Open : gostr → result (result FileInfo * stream);
}.

Section archive_fs.
Context {ET : ErrorTexts} (fsys : ArchiveFS).

Definition filterPassword (e : error) : error :=
  if Contains (err_Error e) #"password" then ESentinel WrongArchivePassword else e.
Definition filtered {A} (m : os_prog A) : os_prog A :=
  prog_bind m (λ r, match r with inl e => p_fail (filterPassword e) | inr a => p_ok a end).

Definition fs_decompress (l : SizeLimiter) (filePath dstPath : gostr) : os_prog SizeLimiter :=
  try^ opened := p_result (fs_Open fsys filePath) in
  let '(stat, rc) := opened in
  try^ stat := p_result stat in
  if negb (fi_IsRegular stat) then p_fail (illegal filePath) else write_new pool_buf l dstPath rc.

(** The function that is called for each entry. *)
Definition visit (outputPath path p : gostr) (d : DirEntry) (l : SizeLimiter) : os_prog SizeLimiter :=
  if bool_decide (p = path) && de_IsDir d then p_ok l
  else
    let relPath := TrimPrefix p (path ++ #"/") in
    if (bool_decide (relPath = []) || bool_decide (relPath = #".")) && de_IsDir d then p_ok l
    else
      try^ dstPath := p_result (SecureJoin outputPath relPath) in
      if de_IsDir d then try^ _ := os_do (OMkdirAll dstPath) in p_ok l
      else
        try^ info := p_result (de_Info d) in
        if negb (fi_IsRegular info) then p_fail (illegal p)
        else
          try^ _ := os_do (OMkdirAll (path_Dir dstPath)) in
          fs_decompress l p dstPath.

(** [fs.WalkDir]: an error of [ReadDir] is given to the function, which returns it. *)
Fixpoint walkDir (fuel : nat) (outputPath path name : gostr) (d : DirEntry) (l : SizeLimiter) : os_prog SizeLimiter :=
  match fuel with
  | O => PFuel
  | S fuel' =>
      try^ l := visit outputPath path name d l in
      if negb (de_IsDir d) then p_ok l
      else
        try^ dirs := p_result (fs_ReadDir fsys name) in
        p_fold (λ l d1, walkDir fuel' outputPath path (path_join name (de_Name d1)) d1 l) dirs l
  end.

Definition WalkDir (fuel : nat) (outputPath path : gostr) (l : SizeLimiter) : os_prog SizeLimiter :=
  try^ info := p_result (fs_Stat fsys path) in
  walkDir fuel outputPath path path {| de_Name := fi_Name info; de_IsDir := fi_IsDir info; de_Info := inr info |} l.

Definition fs_Decompress (fuel : nat) (outputPath : gostr) (args : ArchiveInnerArgs) (l : SizeLimiter) : os_prog SizeLimiter :=
  let path := TrimPrefix (arg_InnerPath args) #"/" in
  if bool_decide (path = []) then filtered (WalkDir fuel outputPath #"." l)
  else
    try^ stat := filtered (p_result (fs_Stat fsys path)) in
    if fi_IsDir stat then
      let outputPath := path_join outputPath (fi_Name stat) in
      try^ _ := filtered (os_do (OMkdir outputPath)) in
      filtered (WalkDir fuel outputPath path l)
    else
      try^ dstPath := p_result (SecureJoin outputPath (path_Base path)) in
      try^ _ := os_do (OMkdirAll (path_Dir dstPath)) in
      filtered (fs_decompress l path dstPath).
End archive_fs.

(** ** The tools *)

(** What the libraries make of the streams, or their errors. *)
Inductive archive :=
  | AZip (files : result (list SubFile))
  | ASevenZip (files : result (list SubFile))
  | ARar (nexts : result (list (result FileHeader)))
  | AIso (root : result iso_file)
  | AFs (fsys : result ArchiveFS).

(** [int64(setting.GetInt(conf.MaxExtractSize, 0)) << 30] *)
Definition max_extract (setting : Z) : Z := wrap64 (Z.shiftl setting 30).

Definition Decompress {ET : ErrorTexts} (fuel : nat) (a : archive) (outputPath : gostr) (args : ArchiveInnerArgs) (setting : Z) : os_prog SizeLimiter :=
  let limiter := NewSizeLimiter (max_extract setting) in
  match a with
  | AZip r | ASevenZip r => try^ files := p_result r in DecompressFromFolderTraversal files outputPath args limiter
  | ARar r => try^ nexts := p_result r in rar_Decompress nexts outputPath args limiter
  | AIso r => iso_Decompress r outputPath args limiter
  | AFs r => try^ fsys := p_result r in fs_Decompress fsys fuel outputPath args limiter
  end.
End extract.
