(* ===== verification/ArchiveThms.v ===== *)
(** * Archives: where and how much an extraction writes *)

From S2P Require Import Prelude GoStrings Errs Paths Prog Archive.

Local Open Scope Z_scope.

(** ** Relative paths that are cleaned *)

(** Steps up, then names. *)
Definition up_down (l : list gostr) : Prop := ∃ n m, l = replicate n #".." ++ m ∧ Forall norm_seg m.

Lemma clean_step_rel l w : up_down l → ("/"%char ∉ w) → ∃ l', clean_step false (reverse l) w = reverse l' ∧ up_down l'.
Proof.
  intros (n & m & -> & Hm) Hw. unfold clean_step.
  destruct (decide (w = [])) as [->|H1]; [by eexists; split; [done|exists n, m]|]. rewrite (bool_decide_false (w = [])) by done.
  destruct (decide (w = #".")) as [->|H2]; [by eexists; split; [done|exists n, m]|]. rewrite (bool_decide_false (w = #".")) by done. cbn [orb].
  destruct (decide (w = #"..")) as [->|H3].
  - rewrite bool_decide_true by done. destruct m as [|x m] using rev_ind.
    + rewrite app_nil_r. exists (replicate (S n) #".."). split; [|exists (S n), []; by rewrite app_nil_r].
      rewrite !reverse_replicate. by destruct n.
    + rewrite app_assoc, reverse_app. cbn. apply Forall_app in Hm as [Hm Hx]. apply Forall_singleton in Hx as (? & ? & ? & ?).
      rewrite bool_decide_false by done. exists (replicate n #".." ++ m). split; [done|]. by exists n, m.
  - rewrite bool_decide_false by done. exists ((replicate n #".." ++ m) ++ [w]). split; [by rewrite (reverse_app _ [w])|].
    exists n, (m ++ [w]). split; [by rewrite app_assoc|]. apply Forall_app. split; [done|]. by apply Forall_singleton.
Qed.

Lemma clean_segs_rel s : up_down (clean_segs false s).
Proof.
  unfold clean_segs. assert (H : ∀ ws l, up_down l → Forall (λ w, "/"%char ∉ w) ws →
    ∃ l', fold_left (clean_step false) ws (reverse l) = reverse l' ∧ up_down l').
  { induction ws as [|w ws IH]; intros l Hl Hws; [by exists l|]. apply Forall_cons in Hws as [Hw Hws]. cbn [fold_left].
    destruct (clean_step_rel l w Hl Hw) as (l' & -> & Hl'). by apply IH. }
  destruct (H (Split "/" s) []) as (l' & E & Hl'); [by exists 0%nat, []|by apply Forall_forall, Forall_forall, Split_no_sep|].
  change (reverse []) with ([] : list gostr) in E. rewrite E. by rewrite reverse_involutive.
Qed.

(** The names an entry may have, as the elements of its path below the directory. *)
Definition entry_segs (name : gostr) : list gostr := clean_segs false (ReplaceByte name "\" #"/").
Definition safe_name (name : gostr) : Prop :=
  ("000"%char ∉ name) ∧ HasPrefix (ReplaceByte name "\" #"/") #"/" = false ∧ entry_segs name ≠ [] ∧ head (entry_segs name) ≠ Some #"..".

#[export] Instance safe_name_dec name : Decision (safe_name name).
Proof. unfold safe_name. apply _. Defined.

Lemma up_down_norm l : up_down l → head l ≠ Some #".." → Forall norm_seg l.
Proof. intros (n & m & -> & Hm) Hh. by destruct n. Qed.

Lemma safe_good name : safe_name name → Forall good_seg (entry_segs name).
Proof.
  intros (_ & _ & _ & Hh). pose proof (up_down_norm _ (clean_segs_rel _) Hh) as Hn.
  apply Forall_forall. intros w Hw. pose proof (proj1 (Forall_forall _ _) Hn w Hw) as Hws. split; [done|]. intros Hc.
  apply clean_segs_subset in Hw as [Hw| ->]; [|by destruct Hws as (_ & _ & ? & _)].
  eapply Split_elem in Hw; [|exact Hc]. revert Hw. apply ReplaceByte_no_old. decide_now.
Qed.

Lemma rel_segs_below b l : rel_segs b (b ++ l) = Join #"/" l.
Proof. induction b as [|x b IH]; cbn; [by destruct l|]. by rewrite bool_decide_true. Qed.

Lemma head_Join (w : gostr) l : HasPrefix (Join #"/" (w :: l)) #"../" = true → ("/"%char ∉ w) → w = #"..".
Proof.
  intros H Hw. apply HasPrefix_spec in H as [k E]. destruct l as [|x l].
  - cbn in E. subst w. exfalso. apply Hw. set_solver.
  - rewrite Join_cons in E by done. change #"../" with (#".." ++ ["/"%char]) in E. rewrite <- app_assoc in E.
    assert (Hh : Split "/" (w ++ #"/" ++ Join #"/" (x :: l)) = Split "/" (#".." ++ ["/"%char] ++ k)) by (by rewrite E).
    cbn [app] in Hh. change (#"/" ++ ?y) with ("/"%char :: y) in Hh. rewrite Split_app_sep, (Split_none _ w) in Hh by done.
    by injection Hh.
Qed.

(** A path of names is not a path up. *)
Lemma names_not_up l : Forall norm_seg l → l ≠ [] →
  Join #"/" l ≠ [] ∧ Join #"/" l ≠ #"." ∧ Join #"/" l ≠ #".." ∧ HasPrefix (Join #"/" l) #"../" = false ∧ HasPrefix (Join #"/" l) #"/" = false.
Proof.
  intros Hl Hne. pose proof (key_segs_Join l Hl) as Hk. destruct l as [|w l]; [done|].
  pose proof (Forall_inv Hl) as (Hw1 & Hw2 & Hw3 & Hw4). split_and!.
  - by apply Join_nonempty.
  - intros E. by rewrite E in Hk.
  - intros E. rewrite E in Hk. by injection Hk as <- _.
  - apply not_true_iff_false. intros H%head_Join; done.
  - apply not_true_iff_false. intros [k E]%HasPrefix_spec. destruct w as [|c w]; [done|].
    assert (Hc : c = "/"%char) by (destruct l; [by injection E|rewrite Join_cons in E by done; by injection E]).
    apply Hw4. subst c. left.
Qed.

Lemma has_nul name : Contains name ["000"%char] = bool_decide ("000"%char ∈ name).
Proof.
  apply eq_bool_prop_intro. rewrite bool_decide_spec, Is_true_true, Contains_spec. split.
  - intros (a & b & ->). set_solver.
  - intros (a & b & ->)%list_elem_of_split. by exists a, b.
Qed.

Lemma Clean_names n l : HasPrefix n #"/" = false → clean_segs false n = l → Forall norm_seg l → l ≠ [] → Clean n = Join #"/" l.
Proof. intros Hn <- Hl Hne. unfold Clean. rewrite Hn. pose proof (Join_nonempty _ Hne Hl). by destruct (Join _ _). Qed.

(** Which entries are accepted, and where they go. *)
Lemma SecureJoin_spec `{WorkDir} base name : HasPrefix base #"/" = true →
  SecureJoin base name = if decide (safe_name name) then inr (render (clean_segs true base ++ entry_segs name)) else inl (illegal name).
Proof.
  intros Hb. assert (Hcb : Clean base = render (clean_segs true base)) by (unfold Clean; by rewrite Hb).
  unfold SecureJoin. rewrite has_nul. set (n := ReplaceByte name "\" #"/"). destruct (decide (safe_name name)) as [Hs|Hs].
  - pose proof (safe_good _ Hs) as Hg. pose proof (good_norm _ Hg) as Hm. destruct Hs as (Hz & Hr & Hne & Hh). fold n in Hr.
    rewrite bool_decide_false by done. destruct (names_not_up _ Hm Hne) as (H1 & H2 & H3 & H4 & H5).
    assert (Hrr : HasPrefix n #"//" = false).
    { apply not_true_iff_false. intros [k E]%HasPrefix_spec. rewrite E in Hr. done. }
    rewrite Hrr, (Clean_names n (entry_segs name)) by done. rewrite !bool_decide_false by done. rewrite H4, H5. unfold filepath_IsAbs at 1.
    rewrite H5. rewrite bool_decide_false by (by intros H'; apply H'). cbn [orb].
    assert (Hbs : HasPrefix (Join #"/" (entry_segs name)) #"\\" = false).
    { apply not_true_iff_false. intros [k E]%HasPrefix_spec. destruct (plain_Join _ Hg) as [_ Hp]. apply Hp. rewrite E. set_solver. }
    rewrite Hbs, Hcb. rewrite join_key by (apply clean_segs_norm || by apply plain_Join). rewrite key_segs_Join by done.
    assert (Ha : Forall norm_seg (clean_segs true base ++ entry_segs name)) by (apply Forall_app; split; [apply clean_segs_norm|done]).
    unfold filepath_Abs. cbn [filepath_IsAbs render]. unfold filepath_IsAbs. change (HasPrefix (render _) #"/") with true. cbv iota.
    unfold filepath_Rel. rewrite !Clean_render by (done || apply clean_segs_norm).
    rewrite bool_decide_false; [|intros E%render_inj; [|apply clean_segs_norm|done]; apply Hne, (app_inv_head (clean_segs true base)); by rewrite app_nil_r].
    unfold filepath_IsAbs. change (HasPrefix (render _) #"/") with true. cbn [andb]. rewrite !clean_segs_render by (done || apply clean_segs_norm).
    rewrite rel_segs_below. rewrite bool_decide_false by done. by rewrite H4.
  - case_bool_decide as Hz; [done|]. destruct (HasPrefix n #"/") eqn:Hr.
    + destruct (HasPrefix n #"//"); [done|]. unfold Clean. rewrite Hr. by rewrite !bool_decide_false by done.
    + assert (Hrr : HasPrefix n #"//" = false).
      { apply not_true_iff_false. intros [k E]%HasPrefix_spec. rewrite E in Hr. done. }
      rewrite Hrr. destruct (entry_segs name) as [|w l] eqn:El.
      { unfold Clean. rewrite Hr. fold n in El. unfold entry_segs in El. fold n in El. rewrite El. done. }
      assert (Hw : w = #"..").
      { destruct (decide (w = #"..")) as [|Hw]; [done|]. exfalso. apply Hs. repeat split; [done|done|by rewrite El|]. rewrite El. cbn. congruence. }
      unfold Clean. rewrite Hr. unfold entry_segs in El. fold n in El. rewrite El, Hw. destruct l as [|x l]; [done|].
      rewrite Join_cons by done. cbn. rewrite !bool_decide_false by done. done.
Qed.

(** ** The calls that an extraction may make *)

Abbreviation history := (list (event os_answer)).

Definition call_size (c : os_call) : Z := match c with OWrite _ d => Z.of_nat (length d) | _ => 0 end.
Fixpoint written (h : history) : Z := match h with [] => 0 | e :: h' => call_size (projT1 e) + written h' end.

Lemma written_app h1 h2 : written (h1 ++ h2) = written h1 + written h2.
Proof. induction h1; cbn; lia. Qed.
Lemma written_snoc h c r : written (h ++ [ev c r]) = written h + call_size c.
Proof. rewrite written_app. cbn. lia. Qed.

Section confined.
Context {WD : WorkDir} (out : list gostr) (max : Z).
Hypothesis (Hout : Forall norm_seg out) (Hmax : max < 2 ^ 63).

Definition inside (p : gostr) : Prop := ∃ k, Forall norm_seg k ∧ p = render (out ++ k).
Definition strictly_inside (p : gostr) : Prop := ∃ k, k ≠ [] ∧ Forall norm_seg k ∧ p = render (out ++ k).

(** Directories are made at or below the output directory, files below it;
    only files that this extraction has created are written, and not more in
    all than the limit, if there is one. *)
Definition allowed (h : history) (c : os_call) : Prop :=
  match c with
  | OMkdir p | OMkdirAll p => inside p
  | OCreate p => strictly_inside p
  | OWrite p d => strictly_inside p ∧ ev (OCreate p) None ∈ h ∧ (0 < max → written h + Z.of_nat (length d) ≤ max)
  end.

(** What is left of the limit. *)
Definition limit_left (l : SizeLimiter) (h : history) : Prop :=
  if limited l then 0 < max ∧ written h + remain l = max ∧ 0 ≤ remain l ∧ 0 ≤ written h else max ≤ 0.

Abbreviation safe m h Q := (ewp (E := error) (λ _ _, True) allowed m h Q).

Lemma limit_other l h c r : call_size c = 0 → limit_left l h → limit_left l (h ++ [ev c r]).
Proof. intros Hc. unfold limit_left. rewrite written_snoc, Hc. by rewrite Z.add_0_r. Qed.

Lemma os_do_safe c h (Q : () → history → Prop) : allowed h c → Q () (h ++ [ev c None]) → safe (os_do c) h Q.
Proof.
  intros Hc HQ. apply ewp_then, ewp_call; [done|]. intros [e|] _; [apply ewp_fail|by apply ewp_ok].
Qed.

Lemma lw_Write_safe l dst data h : strictly_inside dst → Z.of_nat (length data) < 2 ^ 63 → ev (OCreate dst) None ∈ h → limit_left l h →
  safe (lw_Write l dst data) h (λ l' h', ev (OCreate dst) None ∈ h' ∧ limit_left l' h').
Proof.
  intros Hd Hs Hc Hl. unfold lw_Write, limit_left in *. destruct (limited l) eqn:El; cbn [negb].
  - destruct Hl as (Hm & Hw & Hr & H0). rewrite wrap64_id by (unfold_int64; lia). destruct (Z.ltb_spec (remain l - Z.of_nat (length data)) 0) as [|Hge]; [apply ewp_fail|].
    apply ewp_then, os_do_safe; [split_and!; [done|done|lia]|]. apply ewp_ok. split; [apply elem_of_app; by left|]. cbn. rewrite written_snoc. cbn. lia.
  - apply ewp_then, os_do_safe; [split_and!; [done|done|lia]|]. apply ewp_ok. rewrite El. split; [apply elem_of_app; by left|done].
Qed.

Lemma reads_size buf room acc data : (length acc + room ≤ buf)%nat → (0 < buf)%nat → Forall (λ p, (length p ≤ buf)%nat) (reads buf room acc data).
Proof.
  revert room acc. induction data as [|c data IH]; intros room acc Hr Hb; cbn [reads].
  - case_bool_decide; [constructor|]. apply Forall_singleton. rewrite length_reverse. lia.
  - destruct room as [|room]; [constructor; [rewrite length_reverse; lia|]|]; apply IH; cbn [length]; lia.
Qed.

Definition buf_ok (buf : nat) : Prop := (0 < buf)%nat ∧ Z.of_nat buf < 2 ^ 63.
Lemma io_buf_ok : buf_ok io_buf.
Proof. unfold buf_ok, io_buf. lia. Qed.
Lemma pool_buf_ok : buf_ok pool_buf.
Proof. unfold buf_ok, pool_buf. lia. Qed.

Lemma io_Copy_safe buf l dst s h : buf_ok buf → strictly_inside dst → ev (OCreate dst) None ∈ h → limit_left l h →
  safe (io_Copy buf l dst s) h limit_left.
Proof.
  intros [Hb0 Hb] Hd Hc Hl. apply ewp_then. eapply ewp_mono.
  - apply (ewp_fold _ _ _ _ (λ _ l h, ev (OCreate dst) None ∈ h ∧ limit_left l h)); [done|].
    intros p _ l' h' [Hc' Hl'] Hp. apply lw_Write_safe; [done| |done|done].
    apply list_elem_of_In, in_concat in Hp as (ps & (x & <- & _)%in_map_iff & Hp%list_elem_of_In).
    pose proof (proj1 (Forall_forall _ _) (reads_size buf buf [] x ltac:(cbn; lia) Hb0) _ Hp). cbn beta in *. lia.
  - intros l' h' [_ Hl']. cbn beta. destruct (ends s); [apply ewp_fail|by apply ewp_ok].
Qed.

Lemma write_new_safe buf l dst s h : buf_ok buf → strictly_inside dst → limit_left l h → safe (write_new buf l dst s) h limit_left.
Proof.
  intros Hb Hd Hl. apply ewp_then, os_do_safe; [done|]. apply io_Copy_safe; [done|done|apply elem_of_app; right; left|by apply limit_other].
Qed.

(** ** The path of an entry is inside *)

Lemma inside_rooted p : inside p → HasPrefix p #"/" = true ∧ ∃ k, Forall norm_seg k ∧ clean_segs true p = out ++ k.
Proof. intros (k & Hk & ->). split; [done|]. exists k. split; [done|]. apply clean_segs_render. by apply Forall_app. Qed.

Lemma SecureJoin_inside dir name dst : inside dir → SecureJoin dir name = inr dst → strictly_inside dst ∧ inside dst ∧ inside (path_Dir dst).
Proof.
  intros (Hr & k & Hk & Ek)%inside_rooted. rewrite SecureJoin_spec, Ek by done. case_decide as Hs; [|done]. intros [= <-].
  pose proof (good_norm _ (safe_good _ Hs)) as Hm. destruct Hs as (_ & _ & Hne & _). destruct (exists_last Hne) as (m & w & E). rewrite E in *.
  rewrite <- app_assoc. split_and!; [exists (k ++ m ++ [w])|exists (k ++ m ++ [w])|exists (k ++ m)].
  - split; [by destruct k, m|]. split; [by apply Forall_app|done].
  - split; [by apply Forall_app|done].
  - apply Forall_app in Hm as [Hm Hw]. split; [by apply Forall_app|]. rewrite !app_assoc. apply path_Dir_render; [|exact (Forall_inv Hw)].
    rewrite <- app_assoc. by repeat (apply Forall_app; split).
Qed.

(** ** The tools *)

Lemma joined_safe dir name h (Q : gostr → history → Prop) : inside dir →
  (∀ dst, strictly_inside dst → inside dst → inside (path_Dir dst) → Q dst h) → safe (p_result (SecureJoin dir name)) h Q.
Proof. intros Hd HQ. apply ewp_result. intros dst E. by destruct (SecureJoin_inside _ _ _ Hd E) as (? & ? & ?); apply HQ. Qed.

Lemma mkdir_safe p l h (Q : () → history → Prop) : inside p → limit_left l h → (∀ h', limit_left l h' → Q () h') →
  safe (os_do (OMkdirAll p)) h Q.
Proof. intros Hp Hl HQ. apply os_do_safe; [done|]. by apply HQ, limit_other. Qed.

(** The directory of a file, and the file. *)
Lemma new_file_safe buf dst l s h : buf_ok buf → strictly_inside dst → inside (path_Dir dst) → limit_left l h →
  safe (p_then (os_do (OMkdirAll (path_Dir dst))) (λ _, write_new buf l dst s)) h limit_left.
Proof. intros Hb Hd Hp Hl. apply ewp_then. eapply mkdir_safe; [done..|]. intros h' Hl'. by apply write_new_safe. Qed.

Lemma extract_entry_safe password dir name l file h : inside dir → limit_left l h →
  safe (extract_entry password dir name l file) h limit_left.
Proof.
  intros Hd Hl. unfold extract_entry. destruct (sf_IsDir file).
  - apply ewp_then, joined_safe; [done|]. intros dst _ Hi _. apply ewp_then. eapply mkdir_safe; [done..|]. intros h' Hl'. by apply ewp_ok.
  - destruct (sf_IsRegular file); cbn [negb]; [|apply ewp_fail]. apply ewp_then, joined_safe; [done|]. intros dst Hs _ Hp.
    apply ewp_then. eapply mkdir_safe; [done..|]. intros h' Hl'. apply ewp_then, ewp_result. intros rc _. apply write_new_safe; [apply io_buf_ok|done..].
Qed.

Lemma make_base_safe dir name base l h (Q : gostr → history → Prop) : inside dir → (∀ b, base = Some b → inside b) → limit_left l h →
  (∀ b h', inside b → limit_left l h' → Q b h') → safe (make_base dir name base) h Q.
Proof.
  intros Hd Hb Hl HQ. destruct base as [b|]; cbn [make_base]; [apply ewp_ok; eauto|].
  apply ewp_then, joined_safe; [done|]. intros b _ Hi _. apply ewp_then. eapply mkdir_safe; [done..|]. intros h' Hl'. apply ewp_ok. eauto.
Qed.

Lemma extract_inner_safe password dir inner files base l h : inside dir → (∀ b, base = Some b → inside b) → limit_left l h →
  safe (extract_inner password dir inner files base l) h limit_left.
Proof.
  intros Hd. revert base l h. induction files as [|file files IH]; intros base l h Hb Hl; cbn [extract_inner]; [by apply ewp_ok|].
  destruct (bool_decide (sf_Name file = inner)); [destruct (sf_IsDir file)|destruct (HasPrefix _ _)].
  - apply ewp_then. eapply make_base_safe; [done..|]. intros b h' Hi Hl'. apply IH; [by intros ? [= <-]|done].
  - by apply extract_entry_safe.
  - apply ewp_then. eapply make_base_safe; [done..|]. intros b h' Hi Hl'. destruct (_ || _); [apply IH; [by intros ? [= <-]|done]|].
    apply ewp_then. eapply ewp_mono; [by apply extract_entry_safe|]. intros l' h'' Hl''. apply IH; [by intros ? [= <-]|done].
  - by apply IH.
Qed.

Lemma rar_decompress_safe l hd dst h : strictly_inside dst → inside dst → inside (path_Dir dst) → limit_left l h →
  safe (rar_decompress l hd dst) h limit_left.
Proof.
  intros Hs Hi Hp Hl. unfold rar_decompress. destruct (hd_IsDir hd).
  - apply ewp_then. eapply mkdir_safe; [done..|]. intros h' Hl'. by apply ewp_ok.
  - destruct (hd_IsRegular hd); cbn [negb]; [|apply ewp_fail]. apply new_file_safe; [apply io_buf_ok|done..].
Qed.

Lemma rar_inner_safe dir inner nexts base l h : inside dir → (∀ b, base = Some b → inside b) → limit_left l h →
  safe (rar_inner dir inner nexts base l) h limit_left.
Proof.
  intros Hd. revert base l h. induction nexts as [|[e|hd] nexts IH]; intros base l h Hb Hl; cbn [rar_inner]; [by apply ewp_ok|apply ewp_fail|].
  destruct (bool_decide (rar_name hd = inner)); [destruct (hd_IsDir hd)|destruct (HasPrefix _ _)].
  - apply ewp_then. eapply make_base_safe; [done..|]. intros b h' Hi Hl'. apply IH; [by intros ? [= <-]|done].
  - destruct (hd_IsRegular hd); cbn [negb]; [|apply ewp_fail]. apply ewp_then, joined_safe; [done|]. intros dst Hs _ Hp.
    apply new_file_safe; [apply io_buf_ok|done..].
  - apply ewp_then. eapply make_base_safe; [done..|]. intros b h' Hi Hl'. destruct (_ || _); [apply IH; [by intros ? [= <-]|done]|].
    apply ewp_then, joined_safe; [done|]. intros dst Hs Hin Hp. apply ewp_then. eapply ewp_mono; [by apply rar_decompress_safe|].
    intros l' h'' Hl''. apply IH; [by intros ? [= <-]|done].
  - by apply IH.
Qed.

Lemma rar_Decompress_safe nexts dir args l h : inside dir → limit_left l h → safe (rar_Decompress nexts dir args l) h limit_left.
Proof.
  intros Hd Hl. unfold rar_Decompress. destruct (bool_decide _); [|by apply rar_inner_safe].
  apply (ewp_fold _ _ _ _ (λ _, limit_left)); [done|]. intros nx _ l' h' Hl' _. apply ewp_then, ewp_result. intros hd _.
  apply ewp_then, joined_safe; [done|]. intros dst Hs Hi Hp. by apply rar_decompress_safe.
Qed.

Lemma folder_safe files dir args l h : inside dir → limit_left l h → safe (DecompressFromFolderTraversal files dir args l) h limit_left.
Proof.
  intros Hd Hl. unfold DecompressFromFolderTraversal. destruct (bool_decide _); [|by apply extract_inner_safe].
  apply (ewp_fold _ _ _ _ (λ _, limit_left)); [done|]. intros file _ l' h' Hl' _. by apply extract_entry_safe.
Qed.

Lemma decompressEntry_safe l data dir name h : inside dir → limit_left l h → safe (decompressEntry l data dir name) h limit_left.
Proof. intros Hd Hl. apply ewp_then, joined_safe; [done|]. intros dst Hs _ Hp. apply new_file_safe; [apply pool_buf_ok|done..]. Qed.

(** Induction over the files of an image. *)
Lemma iso_rect_list (P : iso_file → Prop) :
  (∀ n d z t s e, P (IsoFile n d z t s (inl e))) → (∀ n d z t s l, Forall P l → P (IsoFile n d z t s (inr l))) → ∀ f, P f.
Proof.
  intros H1 H2. fix IH 1. intros [n d z t s [e|l]]; [apply H1|]. apply H2. induction l as [|f l IHl]; constructor; [apply IH|exact IHl].
Qed.

Lemma iso_child_safe f : ∀ dir l h, inside dir → limit_left l h → safe (iso_child dir l f) h limit_left.
Proof.
  induction f as [n d z t s e|n d z t s ch IH] using iso_rect_list; intros dir l h Hd Hl; cbn [iso_child].
  - destruct d; [apply ewp_fail|by apply decompressEntry_safe].
  - destruct d; [|by apply decompressEntry_safe]. apply ewp_then, ewp_result. intros ch' [= <-].
    apply ewp_then, joined_safe; [done|]. intros p _ Hi _. apply ewp_then. eapply mkdir_safe; [done..|]. intros h' Hl'.
    apply (ewp_fold _ _ _ _ (λ _, limit_left)); [done|]. intros f _ l' h'' Hl'' Hf. by apply (proj1 (Forall_forall _ _) IH f Hf).
Qed.

Lemma iso_Decompress_safe root dir args l h : inside dir → limit_left l h → safe (iso_Decompress root dir args l) h limit_left.
Proof.
  intros Hd Hl. apply ewp_then, ewp_result. intros obj _. destruct (iso_IsDir obj); [|by apply decompressEntry_safe].
  apply ewp_then. eapply (ewp_mono _ _ _ _ (λ p h', inside p ∧ limit_left l h')).
  - destruct (bool_decide _); [|by apply ewp_ok]. apply ewp_then, joined_safe; [done|]. intros p _ Hi _. apply ewp_then.
    eapply mkdir_safe; [done..|]. intros h' Hl'. by apply ewp_ok.
  - intros p h' [Hp Hl']. apply ewp_then, ewp_result. intros ch _. apply (ewp_fold _ _ _ _ (λ _, limit_left)); [done|].
    intros f _ l' h'' Hl'' _. by apply iso_child_safe.
Qed.

Section archive_fs.
Context {ET : ErrorTexts} (fsys : ArchiveFS).

Lemma filtered_safe {A} (m : os_prog A) h Q : safe m h Q → safe (filtered m) h Q.
Proof.
  intros Hm. apply wp_bind. eapply wp_mono; [exact Hm|]. intros [[e|a]| |] h' Hx; cbn [bind_post].
  - apply ewp_fail.
  - apply ewp_ok. by apply Hx.
  - by intros b Eb.
  - by intros b Eb.
Qed.

Lemma fs_decompress_safe l p dst h : strictly_inside dst → limit_left l h → safe (fs_decompress fsys l p dst) h limit_left.
Proof.
  intros Hd Hl. apply ewp_then, ewp_result. intros [st rc] _. apply ewp_then, ewp_result. intros i _.
  destruct (fi_IsRegular i); cbn [negb]; [|apply ewp_fail]. apply write_new_safe; [apply pool_buf_ok|done..].
Qed.

Lemma visit_safe dir path p d l h : inside dir → limit_left l h → safe (visit fsys dir path p d l) h limit_left.
Proof.
  intros Hd Hl. unfold visit. destruct (_ && _); [by apply ewp_ok|]. destruct (_ && _); [by apply ewp_ok|].
  apply ewp_then, joined_safe; [done|]. intros dst Hs Hi Hp. destruct (de_IsDir d).
  - apply ewp_then. eapply mkdir_safe; [done..|]. intros h' Hl'. by apply ewp_ok.
  - apply ewp_then, ewp_result. intros i _. destruct (fi_IsRegular i); cbn [negb]; [|apply ewp_fail].
    apply ewp_then. eapply mkdir_safe; [done..|]. intros h' Hl'. by apply fs_decompress_safe.
Qed.

Lemma walkDir_safe fuel dir path : inside dir → ∀ name d l h, limit_left l h → safe (walkDir fsys fuel dir path name d l) h limit_left.
Proof.
  intros Hd. induction fuel as [|fuel IH]; intros name d l h Hl; cbn [walkDir]; [by intros b Eb|].
  apply ewp_then. eapply ewp_mono; [by apply visit_safe|]. intros l' h' Hl'. destruct (de_IsDir d); cbn [negb]; [|by apply ewp_ok].
  apply ewp_then, ewp_result. intros ds _. apply (ewp_fold _ _ _ _ (λ _, limit_left)); [done|]. intros d1 _ l'' h'' Hl'' _. by apply IH.
Qed.

Lemma WalkDir_safe fuel dir path l h : inside dir → limit_left l h → safe (WalkDir fsys fuel dir path l) h limit_left.
Proof. intros Hd Hl. apply ewp_then, ewp_result. intros i _. by apply walkDir_safe. Qed.

(** [fs.FileInfo.Name] is the base name of the file. *)
Definition base_names : Prop := ∀ p i, fs_Stat fsys p = inr i → ("/"%char ∉ fi_Name i) ∧ fi_Name i ≠ #"..".

Lemma fs_Decompress_safe fuel dir args l h : base_names → inside dir → limit_left l h →
  safe (fs_Decompress fsys fuel dir args l) h limit_left.
Proof.
  intros Hn Hd Hl. unfold fs_Decompress. destruct (bool_decide _); [by apply filtered_safe, WalkDir_safe|].
  apply ewp_then, filtered_safe, ewp_result. intros st Hst. destruct (fi_IsDir st).
  - assert (Hj : inside (path_join dir (fi_Name st))).
    { destruct (Hn _ _ Hst) as [H1 H2]. destruct Hd as (k & Hk & ->). assert (Hdd : #".." ∉ Split "/" (fi_Name st)).
      { rewrite Split_none by done. intros E%list_elem_of_singleton. congruence. }
      exists (k ++ key_segs (fi_Name st)). split; [apply Forall_app; split; [done|by apply key_segs_norm]|].
      rewrite join_segs by (done || by apply Forall_app). by rewrite app_assoc. }
    apply ewp_then, filtered_safe, os_do_safe; [done|]. apply filtered_safe, WalkDir_safe; [done|by apply limit_other].
  - apply ewp_then, joined_safe; [done|]. intros dst Hs _ Hp. apply ewp_then. eapply mkdir_safe; [done..|]. intros h' Hl'.
    by apply filtered_safe, fs_decompress_safe.
Qed.
End archive_fs.

(** The names that the library of the file system tool gives are base names. *)
Definition well_named (a : archive) : Prop := match a with AFs (inr fsys) => base_names fsys | _ => True end.

Lemma Decompress_safe `{ErrorTexts} fuel a dir args setting : well_named a → inside dir → max = max_extract setting →
  safe (Decompress fuel a dir args setting) [] limit_left.
Proof.
  intros Ha Hd Hm. assert (Hl : limit_left (NewSizeLimiter (max_extract setting)) []).
  { unfold limit_left, NewSizeLimiter. rewrite <- Hm. destruct (Z.leb_spec max 0); cbn; lia. }
  destruct a as [r|r|r|r|r]; cbn [Decompress].
  - apply ewp_then, ewp_result. intros files _. by apply folder_safe.
  - apply ewp_then, ewp_result. intros files _. by apply folder_safe.
  - apply ewp_then, ewp_result. intros nexts _. by apply rar_Decompress_safe.
  - by apply iso_Decompress_safe.
  - apply ewp_then, ewp_result. intros fsys ->. by apply fs_Decompress_safe.
Qed.
End confined.

Lemma allowed_written out max tr : 0 ≤ max → (∀ t1 e t2, tr = t1 ++ e :: t2 → allowed out max t1 (projT1 e)) → 0 < max → written tr ≤ max.
Proof.
  intros H0 Hok Hp. induction tr as [|[c r] tr IH] using rev_ind; [cbn; lia|]. change (existT c r) with (ev c r) in *. rewrite written_snoc.
  assert (IH' : written tr ≤ max).
  { apply IH. intros t1 e t2 ->. apply (Hok t1 e (t2 ++ [ev c r])). by rewrite <- app_assoc. }
  pose proof (Hok tr (ev c r) [] eq_refl) as Hc. destruct c as [p|p|p|p d]; cbn in *; [lia..|]. destruct Hc as (_ & _ & Hc). lia.
Qed.

(** The limit in bytes of a setting in gigabytes. *)
Lemma max_extract_exact setting : 0 ≤ setting < 2 ^ 33 → max_extract setting = setting * 2 ^ 30.
Proof. intros Hs. unfold max_extract. rewrite Z.shiftl_mul_pow2 by done. apply wrap64_id. unfold_int64. lia. Qed.

(** C15. Whatever an archive contains and whatever the file system answers, an
    extraction by any of the five tools into a rooted directory makes
    directories only at or below it and files only below it; it writes only to
    files that it has created, which did not exist before; and when the
    settings limit the size to [g] gigabytes, the writes together, those of the
    last failed one included, are never more than that. *)
Theorem extraction_confined `{WorkDir, ErrorTexts} (fuel : nat) (a : archive) (out : list gostr) (args : ArchiveInnerArgs) (g : Z)
    (tr : history) (x : finish (result SizeLimiter)) :
  Forall norm_seg out → well_named a → 0 ≤ g < 2 ^ 33 →
  runs_to (Decompress fuel a (render out) args g) tr x →
  (∀ t1 e t2, tr = t1 ++ e :: t2 →
    match projT1 e with
    | OMkdir p | OMkdirAll p => ∃ k, Forall norm_seg k ∧ p = render (out ++ k)
    | OCreate p => ∃ k, k ≠ [] ∧ Forall norm_seg k ∧ p = render (out ++ k)
    | OWrite p d => ev (OCreate p) None ∈ t1
    end) ∧
  (0 < g → written tr ≤ g * 2 ^ 30).
Proof.
  intros Ho Ha Hg Hrun. set (max := max_extract g). assert (Em : max = g * 2 ^ 30) by (by apply max_extract_exact).
  assert (Hin : inside out (render out)) by (exists []; by rewrite app_nil_r).
  assert (Hmax : max < 2 ^ 63) by lia.
  pose proof (Decompress_safe out max Ho Hmax fuel a (render out) args g Ha Hin eq_refl) as Hs.
  eapply wp_sound in Hs as [_ Hok]; [|exact Hrun|by apply Forall_forall].
  split.
  - intros t1 e t2 E. specialize (Hok t1 e t2 E). cbn [app] in Hok. destruct (projT1 e) as [p|p|p|p d]; cbn [allowed] in Hok; [done..|]. apply Hok.
  - intros Hgp. rewrite <- Em. apply (allowed_written out); [lia|exact Hok|lia].
Qed.
