(* ===== verification/ArchiveExact.v ===== *)
(** * Archives: what an extraction writes *)

From S2P Require Import Prelude GoStrings Errs Paths Prog Archive ArchiveThms.

Local Open Scope Z_scope.

(** ** The specification *)

(** The contents of a stream that ends without an error. *)
Definition contents (s : stream) : result gostr := match ends s with Some e => inl e | None => inr (concat (pieces s)) end.

Section spec.
Context {WD : WorkDir}.

(** An entry: a file at its path with its contents, or nothing for a directory. *)
Definition entry_file (password dir name : gostr) (f : SubFile) : result (list (gostr * gostr)) :=
  let! dst := SecureJoin dir name in
  if sf_IsDir f then inr []
  else if negb (sf_IsRegular f) then inl (illegal (sf_Name f))
  else
    let! s := sf_Open f (if sf_IsEncrypted f then Some password else None) in
    let! data := contents s in
    inr [(dst, data)].

(** A directory that is needed, and what goes there. *)
Definition placed : Type := result gostr * option (gostr * SubFile).

Fixpoint entries_files (password : gostr) (l : list placed) : result (list (gostr * gostr)) :=
  match l with
  | [] => inr []
  | (dir, o) :: l' =>
      let! d := dir in
      let! a := match o with Some (name, f) => entry_file password d name f | None => inr [] end in
      let! b := entries_files password l' in
      inr (a ++ b)
  end.

(** The entries below the inner path up to the one that has the path itself,
    each with its directory and its name there. *)
Fixpoint chosen_inner (out : gostr) (base : result gostr) (inner : gostr) (files : list SubFile) : list placed :=
  match files with
  | [] => []
  | f :: files' =>
      if bool_decide (sf_Name f = inner) then
        if sf_IsDir f then (base, None) :: chosen_inner out base inner files' else [(inr out, Some (path_Base inner, f))]
      else if HasPrefix (sf_Name f) (inner ++ #"/") then
        let rest := TrimPrefix (sf_Name f) (inner ++ #"/") in
        (base, if bool_decide (rest = []) || bool_decide (rest = #".") then None else Some (rest, f)) :: chosen_inner out base inner files'
      else chosen_inner out base inner files'
  end.

Definition chosen (out : gostr) (args : ArchiveInnerArgs) (files : list SubFile) : list placed :=
  if bool_decide (arg_InnerPath args = #"/") then map (λ f, (inr out, Some (sf_Name f, f))) files
  else
    let inner := TrimPrefix (arg_InnerPath args) #"/" in
    chosen_inner out (SecureJoin out (path_Base inner)) inner files.

(** The files that an extraction is to make, in their order. *)
Definition archive_files (out : gostr) (args : ArchiveInnerArgs) (files : list SubFile) : result (list (gostr * gostr)) :=
  entries_files (arg_Password args) (chosen out args files).
End spec.

(** ** The files in a history, the last one first *)

Definition output_step (acc : list (gostr * gostr)) (e : event os_answer) : list (gostr * gostr) :=
  match e with
  | existT (OCreate p) None => (p, []) :: acc
  | existT (OWrite p d) None =>
      match acc with
      | (q, data) :: acc' => if bool_decide (q = p) then (q, data ++ d) :: acc' else acc
      | [] => []
      end
  | _ => acc
  end.
Definition outputs (h : history) : list (gostr * gostr) := fold_left output_step h [].

Lemma outputs_snoc h c r : outputs (h ++ [ev c r]) = output_step (outputs h) (ev c r).
Proof. unfold outputs. by rewrite fold_left_app. Qed.

Lemma concat_reads buf room acc data : concat (reads buf room acc data) = reverse acc ++ data.
Proof.
  revert room acc. induction data as [|c data IH]; intros room acc; cbn [reads].
  - case_bool_decide as E; [by rewrite E|]. cbn. by rewrite !app_nil_r.
  - destruct room as [|room]; cbn [concat]; rewrite IH; [by rewrite (reverse_cons [])|]. by rewrite reverse_cons, <- app_assoc.
Qed.

Lemma concat_read buf l : concat (concat (map (reads buf buf []) l)) = concat l.
Proof. induction l as [|p l IH]; cbn [map concat]; [done|]. by rewrite concat_app, concat_reads, IH. Qed.

(** ** A run that succeeds has written the files *)

Section wrote.
Context {WD : WorkDir}.

Abbreviation runs m h Q := (ewp (E := error) (λ (c : os_call) (_ : os_answer c), True) (λ _ _, True) m h Q).

Lemma os_do_runs c h (Q : () → history → Prop) : Q () (h ++ [ev c None]) → runs (os_do c) h Q.
Proof. intros HQ. apply ewp_then, ewp_call; [done|]. intros [e|] _; [by intros b Eb|by apply ewp_ok]. Qed.

Lemma mkdir_runs p h (Q : () → history → Prop) : (∀ h', outputs h' = outputs h → Q () h') → runs (os_do (OMkdirAll p)) h Q.
Proof. intros HQ. apply os_do_runs, HQ. by rewrite outputs_snoc. Qed.

Lemma lw_Write_runs l dst d data acc h : outputs h = (dst, data) :: acc →
  runs (lw_Write l dst d) h (λ _ h', outputs h' = (dst, data ++ d) :: acc).
Proof.
  intros Ho. assert (Hw : outputs (h ++ [ev (OWrite dst d) None]) = (dst, data ++ d) :: acc).
  { rewrite outputs_snoc, Ho. cbn. by rewrite bool_decide_true. }
  unfold lw_Write. destruct (limited l); cbn [negb]; [destruct (_ <? 0); [by intros b Eb|]|]; apply ewp_then, os_do_runs; by apply ewp_ok.
Qed.

Lemma write_new_runs buf l dst s h :
  runs (write_new buf l dst s) h (λ _ h', ∃ data, contents s = inr data ∧ outputs h' = (dst, data) :: outputs h).
Proof.
  apply ewp_then, os_do_runs, ewp_then. eapply ewp_mono.
  - apply (ewp_fold _ _ _ _ (λ rest _ h', ∃ data, data ++ concat rest = concat (pieces s) ∧ outputs h' = (dst, data) :: outputs h)).
    + exists []. split; [apply concat_read|]. by rewrite outputs_snoc.
    + intros p rest l' h' (data & Ed & Ho) _. eapply ewp_mono; [by apply lw_Write_runs|]. intros l'' h'' Ho'. exists (data ++ p). by rewrite <- app_assoc.
  - intros l' h' (data & Ed & Ho). cbn beta. unfold contents. destruct (ends s); [by intros b Eb|]. apply ewp_ok. rewrite app_nil_r in Ed. by subst; eauto.
Qed.

Lemma extract_entry_runs password dir name l f h :
  runs (extract_entry password dir name l f) h (λ _ h', ∃ fs, entry_file password dir name f = inr fs ∧ outputs h' = reverse fs ++ outputs h).
Proof.
  unfold extract_entry, entry_file. destruct (sf_IsDir f).
  - apply ewp_then, ewp_result. intros dst ->. apply ewp_then, mkdir_runs. intros h' Ho. apply ewp_ok. by exists [].
  - destruct (sf_IsRegular f); cbn [negb]; [|by intros b Eb]. apply ewp_then, ewp_result. intros dst ->. apply ewp_then, mkdir_runs. intros h' Ho.
    apply ewp_then, ewp_result. intros rc ->. eapply ewp_mono; [apply write_new_runs|]. intros l'' h'' (data & -> & Ho'). exists [(dst, data)].
    split; [done|]. by rewrite Ho', Ho.
Qed.

Lemma entries_cons password d o l a b : match o with Some (name, f) => entry_file password d name f | None => inr [] end = inr a →
  entries_files password l = inr b → entries_files password ((inr d, o) :: l) = inr (a ++ b).
Proof. intros Ha Hb. cbn [entries_files]. by rewrite Ha, Hb. Qed.

Lemma entry_only password d name f a : entry_file password d name f = inr a → entries_files password [(inr d, Some (name, f))] = inr a.
Proof. intros Ha. cbn. by rewrite Ha, app_nil_r. Qed.

Lemma make_base_runs out name base h (Q : gostr → history → Prop) : (∀ b, base = Some b → SecureJoin out name = inr b) →
  (∀ b h', SecureJoin out name = inr b → outputs h' = outputs h → Q b h') → runs (make_base out name base) h Q.
Proof.
  intros Hb HQ. destruct base as [b|]; cbn [make_base]; [apply ewp_ok; eauto|].
  apply ewp_then, ewp_result. intros b E. apply ewp_then, mkdir_runs. intros h' Ho. apply ewp_ok. eauto.
Qed.

Lemma extract_inner_runs password out inner files : ∀ base l h, (∀ b, base = Some b → SecureJoin out (path_Base inner) = inr b) →
  runs (extract_inner password out inner files base l) h
    (λ _ h', ∃ fs, entries_files password (chosen_inner out (SecureJoin out (path_Base inner)) inner files) = inr fs ∧ outputs h' = reverse fs ++ outputs h).
Proof.
  induction files as [|f files IH]; intros base l h Hb; cbn [extract_inner chosen_inner]; [apply ewp_ok; by exists []|].
  destruct (bool_decide (sf_Name f = inner)); [destruct (sf_IsDir f)|destruct (HasPrefix _ _)].
  - apply ewp_then, make_base_runs; [done|]. intros b h' Eb Ho. rewrite Eb in *. eapply ewp_mono; [apply IH; by intros ? [= <-]|].
    intros l'' h'' (fs & Ef & Ho'). exists fs. split; [by apply (entries_cons _ _ None _ [])|]. by rewrite Ho', Ho.
  - eapply ewp_mono; [apply extract_entry_runs|]. intros l1 h' (fs & Ef & Ho). exists fs. split; [by apply entry_only|done].
  - apply ewp_then, make_base_runs; [done|]. intros b h' Eb Ho. rewrite Eb in *. destruct (_ || _).
    + eapply ewp_mono; [apply IH; by intros ? [= <-]|]. intros l'' h'' (fs & Ef & Ho'). exists fs. split; [by apply (entries_cons _ _ None _ [])|]. by rewrite Ho', Ho.
    + apply ewp_then. eapply ewp_mono; [apply extract_entry_runs|]. intros l' h'' (fs & Ef & Ho').
      eapply ewp_mono; [apply IH; by intros ? [= <-]|]. intros l3 h3 (fs' & Ef' & Ho3). exists (fs ++ fs'). split; [by apply entries_cons|].
      by rewrite Ho3, Ho', Ho, reverse_app, app_assoc.
  - by apply IH.
Qed.

Lemma folder_runs files out args l h :
  runs (DecompressFromFolderTraversal files out args l) h (λ _ h', ∃ fs, archive_files out args files = inr fs ∧ outputs h' = reverse fs ++ outputs h).
Proof.
  unfold DecompressFromFolderTraversal, archive_files, chosen. destruct (bool_decide _); [|by apply extract_inner_runs].
  revert l h. induction files as [|f files IH]; intros l h; cbn [p_fold map]; [apply ewp_ok; by exists []|].
  apply ewp_then. eapply ewp_mono; [apply extract_entry_runs|]. intros l' h' (fs & Ef & Ho). eapply ewp_mono; [apply IH|].
  intros l'' h'' (fs' & Ef' & Ho'). exists (fs ++ fs'). split; [by apply entries_cons|]. by rewrite Ho', Ho, reverse_app, app_assoc.
Qed.
End wrote.

(** ** With a file system that never fails, a run succeeds *)

Definition total (fs : list (gostr * gostr)) : Z := foldr (λ f n, Z.of_nat (length f.2) + n) 0 fs.

Lemma total_app a b : total (a ++ b) = total a + total b.
Proof. unfold total. induction a as [|f a IH]; cbn [app foldr]; lia. Qed.
Lemma total_pos a : 0 ≤ total a.
Proof. unfold total. induction a as [|f a IH]; cbn [foldr]; lia. Qed.

Section succeeds.
Context {WD : WorkDir}.

Abbreviation works m h Q := (swp (E := error) (λ (c : os_call) (r : os_answer c), r = None) (λ _ _, True) m h Q).

(** There is room for [n] bytes. *)
Definition room (l : SizeLimiter) (n : Z) : Prop := limited l = true → n ≤ remain l < 2 ^ 63.

Lemma os_do_works c h (Q : () → history → Prop) : (∀ h', Q () h') → works (os_do c) h Q.
Proof. intros HQ. apply swp_then, swp_call; [done|]. intros r ->. by apply swp_ok. Qed.

Lemma lw_Write_works l dst d n h : 0 ≤ n → room l (Z.of_nat (length d) + n) → works (lw_Write l dst d) h (λ l' _, room l' n).
Proof.
  intros Hn Hr. unfold lw_Write, room in *. destruct (limited l) eqn:El; cbn [negb].
  - destruct (Hr eq_refl) as [H1 H2]. rewrite wrap64_id by (unfold_int64; lia). destruct (Z.ltb_spec (remain l - Z.of_nat (length d)) 0); [lia|].
    apply swp_then, os_do_works. intros h'. apply swp_ok. cbn. lia.
  - apply swp_then, os_do_works. intros h'. apply swp_ok. by rewrite El.
Qed.

Lemma write_new_works buf l dst s data n h : contents s = inr data → 0 ≤ n → room l (Z.of_nat (length data) + n) →
  works (write_new buf l dst s) h (λ l' _, room l' n).
Proof.
  unfold contents. destruct (ends s) as [e|] eqn:Ee; [done|]. intros [= <-] Hn Hr. apply swp_then, os_do_works. intros h'. apply swp_then. eapply swp_mono.
  - apply (swp_fold _ _ _ _ (λ rest l _, room l (Z.of_nat (length (concat rest)) + n))); [by rewrite concat_read|].
    intros p rest l' h'' Hr' _. apply lw_Write_works; [lia|]. cbn [concat] in Hr'. rewrite length_app in Hr'. by rewrite Z.add_assoc, <- Nat2Z.inj_add.
  - intros l' h'' Hr'. cbn beta. rewrite Ee. by apply swp_ok.
Qed.

Lemma extract_entry_works password dir name l f fs n h : entry_file password dir name f = inr fs → 0 ≤ n → room l (total fs + n) →
  works (extract_entry password dir name l f) h (λ l' _, room l' n).
Proof.
  unfold entry_file, extract_entry. destruct (SecureJoin dir name) as [e|dst]; [done|]. destruct (sf_IsDir f).
  - intros [= <-] Hn Hr. apply swp_then, swp_ok, swp_then, os_do_works. intros h'. by apply swp_ok.
  - destruct (sf_IsRegular f); cbn [negb]; [|done]. destruct (sf_Open f _) as [e|s] eqn:Eo; [done|]. destruct (contents s) as [e|data] eqn:Ec; [done|].
    intros [= <-] Hn Hr. apply swp_then, swp_ok, swp_then, os_do_works. intros h'. unfold _decompress. rewrite Eo. apply swp_then, swp_ok. eapply write_new_works; [done..|].
    cbn in Hr. by rewrite Z.add_0_r in Hr.
Qed.

Lemma entries_inv password p l fs : entries_files password (p :: l) = inr fs → ∃ d a b, p.1 = inr d ∧
  match p.2 with Some (name, f) => entry_file password d name f | None => inr [] end = inr a ∧ entries_files password l = inr b ∧ fs = a ++ b.
Proof.
  destruct p as [[e|d] o]; cbn [entries_files fst snd]; [done|]. destruct (match o with Some _ => _ | None => _ end) as [e|a] eqn:Ea; [done|].
  destruct (entries_files password l) as [e|b]; [done|]. intros [= <-]. by exists d, a, b.
Qed.

Lemma make_base_works out name base d h (Q : gostr → history → Prop) : SecureJoin out name = inr d → (∀ b, base = Some b → b = d) →
  (∀ h', Q d h') → works (make_base out name base) h Q.
Proof.
  intros E Hb HQ. destruct base as [b|]; cbn [make_base]; [rewrite (Hb b eq_refl); by apply swp_ok|].
  rewrite E. apply swp_then, swp_ok, swp_then, os_do_works. intros h'. by apply swp_ok.
Qed.

Lemma extract_inner_works password out inner files : ∀ base l fs n h, (∀ b, base = Some b → SecureJoin out (path_Base inner) = inr b) →
  entries_files password (chosen_inner out (SecureJoin out (path_Base inner)) inner files) = inr fs → 0 ≤ n → room l (total fs + n) →
  works (extract_inner password out inner files base l) h (λ l' _, room l' n).
Proof.
  induction files as [|f files IH]; intros base l fs n h Hb; cbn [extract_inner chosen_inner].
  { intros [= <-] Hn Hr. by apply swp_ok. }
  assert (Hbd : ∀ d, SecureJoin out (path_Base inner) = inr d → ∀ b, base = Some b → b = d) by (intros d E b Eb; apply Hb in Eb; congruence).
  destruct (bool_decide (sf_Name f = inner)); [destruct (sf_IsDir f) eqn:Ed|destruct (HasPrefix _ _)].
  - intros (d & a & b & Hd & [= <-] & Hf & ->)%entries_inv Hn Hr. cbn [fst] in Hd. apply swp_then. eapply make_base_works; [exact Hd|exact (Hbd _ Hd)|].
    intros h'. eapply IH; [|exact Hf|done|done]. by intros ? [= <-].
  - intros (d & a & b & [= <-] & Ha & [= <-] & ->)%entries_inv Hn Hr. cbn [snd] in Ha. rewrite app_nil_r in Hr. by eapply extract_entry_works.
  - intros (d & a & b & Hd & Ha & Hf & ->)%entries_inv Hn Hr. cbn [fst snd] in Hd, Ha. rewrite total_app, <- Z.add_assoc in Hr. apply swp_then.
    eapply make_base_works; [exact Hd|exact (Hbd _ Hd)|]. intros h'. destruct (_ || _).
    + injection Ha as <-. eapply IH; [|exact Hf|done|done]. by intros ? [= <-].
    + apply swp_then. pose proof (total_pos b). eapply swp_mono; [eapply (extract_entry_works _ _ _ _ _ _ (total b + n)); [exact Ha|lia|done]|].
      intros l' h'' Hr'. eapply IH; [|exact Hf|done|done]. by intros ? [= <-].
  - intros Hf Hn Hr. by eapply IH.
Qed.

Lemma folder_works files out args l fs n h : archive_files out args files = inr fs → 0 ≤ n → room l (total fs + n) →
  works (DecompressFromFolderTraversal files out args l) h (λ l' _, room l' n).
Proof.
  unfold DecompressFromFolderTraversal, archive_files, chosen. destruct (bool_decide _); [|by apply extract_inner_works].
  revert l fs h. induction files as [|f files IH]; intros l fs h; cbn [p_fold map].
  { intros [= <-] Hn Hr. by apply swp_ok. }
  intros (d & a & b & [= <-] & Ha & Hf & ->)%entries_inv Hn Hr. cbn [snd] in Ha. rewrite total_app, <- Z.add_assoc in Hr.
  apply swp_then. pose proof (total_pos b). eapply swp_mono; [eapply (extract_entry_works _ _ _ _ _ _ (total b + n)); [exact Ha|lia|done]|].
  intros l' h'' Hr'. by eapply IH.
Qed.
End succeeds.

(** C25. The extraction of a zip or 7z archive.  When it succeeds, the files that
    it has created, with what was written to them, are the regular entries of
    the archive below the inner path, each at its path below the output
    directory with its whole contents, in their order, and no entry had an
    illegal path or kind or a read error.  And it does succeed, if the archive
    is such and its contents are within the limit, when no call of the file
    system fails. *)
Theorem extraction_exact `{WorkDir, ErrorTexts} (fuel : nat) (files : list SubFile) (out : gostr) (args : ArchiveInnerArgs) (g : Z)
    (tr : history) (x : finish (result SizeLimiter)) (a : archive) :
  a = AZip (inr files) ∨ a = ASevenZip (inr files) → 0 ≤ g < 2 ^ 33 → runs_to (Decompress fuel a out args g) tr x →
  (∀ l, x = Returned (inr l) → archive_files out args files = inr (reverse (outputs tr))) ∧
  (∀ fs, archive_files out args files = inr fs → (g = 0 ∨ total fs ≤ g * 2 ^ 30) → Forall (λ e, projT2 e = None) tr →
     ∃ l, x = Returned (inr l)).
Proof.
  intros Ha Hg Hrun. set (l0 := NewSizeLimiter (max_extract g)).
  assert (E : Decompress fuel a out args g = DecompressFromFolderTraversal files out args l0) by (by destruct Ha as [-> | ->]).
  rewrite E in Hrun. split.
  - intros l El. pose proof (folder_runs files out args l0 []) as Hw. eapply wp_run in Hw; [|exact Hrun]. destruct (Hw l El) as (fs & Hf & Ho).
    rewrite Hf, Ho. by rewrite app_nil_r, reverse_involutive.
  - intros fs Hf Ht Hq. assert (Hr : room l0 (total fs + 0)).
    { unfold room, l0, NewSizeLimiter. rewrite max_extract_exact by done. destruct (Z.leb_spec (g * 2 ^ 30) 0); [done|]. intros _. cbn [remain]. lia. }
    pose proof (folder_works files out args l0 fs 0 [] Hf ltac:(done) Hr) as Hw. eapply wp_end in Hw; [|exact Hrun|exact Hq].
    destruct Hw as (l & -> & _). by exists l.
Qed.

(** ** Archives: extractions of some archives *)

Module ArchiveExample.
#[local] Instance wd : WorkDir := inr #"/opt/alist".
#[local] Instance texts : ErrorTexts := λ e, match e with EMessage m => m | _ => [] end.

Definition entry (name : gostr) (isdir : bool) (data : gostr) : SubFile :=
  {| sf_Name := name; sf_IsDir := isdir; sf_IsRegular := negb isdir; sf_BaseName := path_Base name;
     sf_Size := Z.of_nat (length data) * 2; sf_ModTime := 0; sf_IsEncrypted := false;
     sf_Open := λ _, inr {| pieces := [data; data]; ends := None |} |}.
Definition files : list SubFile := [entry #"docs/" true []; entry #"docs/a.txt" false #"alpha"; entry #"docs/sub\b.txt" false #"beta"; entry #"c" false #"gamma"].
Definition zip : archive := AZip (inr files).
Definition evil : archive := AZip (inr (files ++ [entry #"docs/../../etc/passwd" false #"root"])).
Definition tmp : list gostr := [ #"tmp"; #"dir-1"].
Definition everything : ArchiveInnerArgs := {| arg_Password := []; arg_InnerPath := #"/" |}.
Definition below (p : gostr) : ArchiveInnerArgs := {| arg_Password := []; arg_InnerPath := p |}.

(** The run in which every call succeeds. *)
Definition quiet (_ : history) (c : os_call) : os_answer c := None.
Definition run (a : archive) (args : ArchiveInnerArgs) (g : Z) : history * finish (result SizeLimiter) :=
  run_with quiet [] (Decompress 10 a (render tmp) args g).

Lemma quiet_runs a args g : runs_to (Decompress 10 a (render tmp) args g) (run a args g).1 (run a args g).2.
Proof. destruct (run_with_runs quiet (Decompress 10 a (render tmp) args g) []) as (tr & E & H). unfold run. rewrite E. exact H. Qed.

Definition succeeded (x : finish (result SizeLimiter)) : bool := match x with Returned (inr _) => true | _ => false end.

(** [extraction_confined] on an archive with a path that leads outside: the
    extraction stops there with the entries before it, inside of the directory. *)
Lemma extraction_confined_witness :
  written (run evil everything 1).1 ≤ 1 * 2 ^ 30 ∧ succeeded (run evil everything 1).2 = false ∧
  (reverse (outputs (run evil everything 1).1)).*1 = [ #"/tmp/dir-1/docs/a.txt"; #"/tmp/dir-1/docs/sub/b.txt"; #"/tmp/dir-1/c"].
Proof.
  destruct (extraction_confined 10 evil tmp everything 1 (run evil everything 1).1 (run evil everything 1).2) as [_ H];
    [decide_now|exact I|lia|apply quiet_runs|]. split; [apply H; lia|]. split; vm_compute; reflexivity.
Defined.

(** [extraction_exact] on the directory [docs] of an archive. *)
Lemma extraction_exact_witness :
  archive_files (render tmp) (below #"/docs") files = inr (reverse (outputs (run zip (below #"/docs") 1).1)) ∧
  reverse (outputs (run zip (below #"/docs") 1).1) = [( #"/tmp/dir-1/docs/a.txt", #"alphaalpha"); ( #"/tmp/dir-1/docs/sub/b.txt", #"betabeta")] ∧
  succeeded (run zip (below #"/docs") 1).2 = true.
Proof.
  destruct (extraction_exact 10 files (render tmp) (below #"/docs") 1 (run zip (below #"/docs") 1).1 (run zip (below #"/docs") 1).2 zip) as [H _];
    [by left|lia|apply quiet_runs|]. split; [|split; vm_compute; reflexivity].
  destruct (run zip (below #"/docs") 1).2 as [[e|l]| |] eqn:E; [by vm_compute in E|apply (H l); reflexivity|by vm_compute in E..].
Defined.

(** A drive letter is a name here. An entry for the directory itself stops the
    extraction, and an inner path that is not in the archive extracts nothing
    without an error. A limit of [2^33] gigabytes is none. *)
Lemma archive_defects :
  SecureJoin #"/tmp" #"C:\evil.txt" = inr #"/tmp/C:/evil.txt" ∧
  (succeeded (run (AZip (inr (entry #"./" true [] :: files))) everything 0).2 = false ∧ outputs (run (AZip (inr (entry #"./" true [] :: files))) everything 0).1 = []) ∧
  (succeeded (run zip (below #"/nothing") 0).2 = true ∧ (run zip (below #"/nothing") 0).1 = []) ∧
  limited (NewSizeLimiter (max_extract (2 ^ 33))) = false.
Proof. vm_compute. repeat split. Qed.
End ArchiveExample.
