(* ===== verification/ArchiveTree.v ===== *)
(** * Archives: the tree of the entries and its listings

    [GenerateMetaTreeFromFolderTraversal] of [internal/archive/tool/helper.go],
    which the tools without a listing of their own use, and the look-up in its
    result of [internal/op/archive.go].  The tree is made of pointers: a node is
    a location of a heap, which the map of directories and the parent share. *)

From S2P Require Import Prelude GoStrings Errs Paths Archive.

Local Open Scope Z_scope.

(** ** [internal/model/archive.go] *)

(** A list of children that is empty is nil: it only grows. *)
Record ObjectTree := { ot_Name : gostr; ot_Size : Z; ot_Modified : Z; ot_IsFolder : bool; ot_Children : list nat }.

Record meta_state := { tree_heap : list ObjectTree; dirMap : gmap gostr nat }.

(** ** [tool/helper.go] *)

Definition MakeModelObj (f : SubFile) : ObjectTree :=
  {| ot_Name := sf_BaseName f; ot_Size := sf_Size f; ot_Modified := sf_ModTime f; ot_IsFolder := sf_IsDir f; ot_Children := [] |}.

(** A new node and, for a directory, its place in the map. *)
Definition new_node (o : ObjectTree) (t : meta_state) : nat * meta_state :=
  (length (tree_heap t), {| tree_heap := tree_heap t ++ [o]; dirMap := dirMap t |}).
Definition new_dir (dir : gostr) (o : ObjectTree) (t : meta_state) : nat * meta_state :=
  let '(loc, t) := new_node o t in (loc, {| tree_heap := tree_heap t; dirMap := <[dir := loc]> (dirMap t) |}).

Definition upd_node (f : ObjectTree → ObjectTree) (loc : nat) (t : meta_state) : meta_state :=
  {| tree_heap := alter f loc (tree_heap t); dirMap := dirMap t |}.
Definition with_child (c : nat) (o : ObjectTree) : ObjectTree :=
  {| ot_Name := ot_Name o; ot_Size := ot_Size o; ot_Modified := ot_Modified o; ot_IsFolder := ot_IsFolder o; ot_Children := ot_Children o ++ [c] |}.
Definition as_folder (name : gostr) (modified : Z) (o : ObjectTree) : ObjectTree :=
  {| ot_Name := name; ot_Size := ot_Size o; ot_Modified := modified; ot_IsFolder := true; ot_Children := ot_Children o |}.

(** [&model.ObjectTree{}] *)
Definition zero_time : Z := -62135596800.
Definition empty_tree : ObjectTree := {| ot_Name := []; ot_Size := 0; ot_Modified := zero_time; ot_IsFolder := false; ot_Children := [] |}.

(** The loop over the parents of a new directory. *)
Fixpoint add_parents (fuel : nat) (modified : Z) (dirObj : nat) (parentDir : gostr) (t : meta_state) : option meta_state :=
  match fuel with
  | O => None
  | S fuel' =>
      let '(parentDirObj, t) :=
        match dirMap t !! parentDir with
        | Some loc => (loc, t)
        | None =>
            new_dir parentDir
              (if bool_decide (parentDir ≠ #".") then as_folder (path_Base parentDir) modified empty_tree else empty_tree) t
        end in
      let t := upd_node (with_child dirObj) parentDirObj t in
      let parentDir := path_Dir parentDir in
      match dirMap t !! parentDir with
      | Some _ => Some t
      | None => add_parents fuel' modified parentDirObj parentDir t
      end
  end.

(** One entry of the archive. *)
Definition add_entry (t : meta_state) (file : SubFile) : option meta_state :=
  let name := TrimPrefix (sf_Name file) #"/" in
  let dir := if sf_IsDir file then TrimSuffix name #"/" else path_Dir name in
  let '(dirObj, isNewFolder, t) :=
    match dirMap t !! dir with
    | Some loc => (loc, false, t)
    | None =>
        let o := if sf_IsDir file then empty_tree else as_folder (path_Base dir) (sf_ModTime file) empty_tree in
        let '(loc, t) := new_dir dir o t in (loc, bool_decide (dir ≠ #"."), t)
    end in
  let t :=
    if sf_IsDir file then upd_node (as_folder (path_Base dir) (sf_ModTime file)) dirObj t
    else let '(c, t) := new_node (MakeModelObj file) t in upd_node (with_child c) dirObj t in
  if isNewFolder then add_parents (S (S (length dir))) (sf_ModTime file) dirObj (path_Dir dir) t else Some t.

Fixpoint add_entries (t : meta_state) (files : list SubFile) : option meta_state :=
  match files with
  | [] => Some t
  | f :: files' => match add_entry t f with Some t' => add_entries t' files' | None => None end
  end.

Definition children_of (h : list ObjectTree) (loc : nat) : list nat := match h !! loc with Some o => ot_Children o | None => [] end.

(** Whether an entry is encrypted, the heap and the children of the root, which
    is a nil pointer when there are entries and none of them is below it.
    [None] is a lack of fuel. *)
Definition GenerateMetaTree (files : list SubFile) : option (outcome (bool * list ObjectTree * list nat)) :=
  let encrypted := existsb sf_IsEncrypted files in
  match add_entries {| tree_heap := []; dirMap := ∅ |} files with
  | None => None
  | Some t =>
      if bool_decide (dirMap t = ∅) then Some (Ret (encrypted, tree_heap t, []))
      else
        match dirMap t !! #"." with
        | Some root => Some (Ret (encrypted, tree_heap t, children_of (tree_heap t) root))
        | None => Some Panic
        end
  end.

(** ** [internal/op/archive.go] *)

Fixpoint split_parts (fuel : nat) (path : gostr) (parts : list gostr) : list gostr :=
  match fuel with
  | O => parts
  | S fuel' =>
      let '(dir, file) := path_Split path in
      if bool_decide (file = []) then parts else split_parts fuel' (TrimSuffix dir #"/") (file :: parts)
  end.
(** Each turn takes at least a byte off the path. *)
Definition op_splitPath (path : gostr) : list gostr := split_parts (S (length path)) path [].

Fixpoint find_named (h : list ObjectTree) (name : gostr) (objs : list nat) : option ObjectTree :=
  match objs with
  | [] => None
  | c :: objs' =>
      match h !! c with
      | Some o => if bool_decide (ot_Name o = name) then Some o else find_named h name objs'
      | None => find_named h name objs'
      end
  end.

Fixpoint descend_tree (h : list ObjectTree) (obj : list nat) (dirs : list gostr) : result (list nat) :=
  match dirs with
  | [] => inr obj
  | dir :: dirs' =>
      match find_named h dir obj with
      | None => inl (EWithMessage (ESentinel ObjectNotFound) [])
      | Some next =>
          if negb (ot_IsFolder next) || bool_decide (ot_Children next = []) then inl (EWithMessage (ESentinel NotFolder) [])
          else descend_tree h (ot_Children next) dirs'
      end
  end.

Definition getChildrenFromArchiveMeta (h : list ObjectTree) (tree : list nat) (innerPath : gostr) : result (list nat) :=
  if bool_decide (tree = []) then inl (EWithMessage (ESentinel NotImplement) []) else descend_tree h tree (op_splitPath innerPath).

(** ** Directories by the elements of their paths *)

(** The key of a directory in the map. *)
Definition rkey (l : list gostr) : gostr := match l with [] => #"." | _ => Join #"/" l end.

Lemma norm_no_up l : Forall norm_seg l → #".." ∉ l.
Proof. intros Hl Hin. by destruct (proj1 (Forall_forall _ _) Hl _ Hin) as (_ & _ & ? & _). Qed.

Lemma Split_names l : Forall norm_seg l → l ≠ [] → Split "/" (Join #"/" l) = l.
Proof. intros Hl Hne. change #"/" with ["/"%char]. apply Split_Join; [done|by apply norm_no_slash]. Qed.

Lemma rkey_root l : Forall norm_seg l → rkey l = #"." → l = [].
Proof.
  intros Hl E. destruct l as [|w l]; [done|]. exfalso. pose proof (Split_names _ Hl ltac:(done)) as Hs. cbn [rkey] in E. rewrite E in Hs.
  injection Hs as <- _. by destruct (Forall_inv Hl) as (_ & ? & _).
Qed.

Lemma rkey_inj l k : Forall norm_seg l → Forall norm_seg k → rkey l = rkey k → l = k.
Proof.
  intros Hl Hk E. destruct l as [|w l]; [symmetry; by apply rkey_root|]. destruct k as [|v k]; [by apply rkey_root|].
  rewrite <- (Split_names (w :: l)), <- (Split_names (v :: k)) by done. by f_equal.
Qed.

Lemma path_Split_name w : ("/"%char ∉ w) → path_Split w = ([], w).
Proof. intros Hw. apply (path_Split_dir [] w); [by left|done]. Qed.

Lemma Join_last l w : l ≠ [] → Join #"/" (l ++ [w]) = Join #"/" l ++ "/"%char :: w.
Proof. intros Hl. by rewrite Join_app by done. Qed.

Lemma Clean_slash l : Forall norm_seg l → l ≠ [] → Clean (Join #"/" l ++ #"/") = Join #"/" l.
Proof.
  intros Hl Hne. assert (Hs : Split "/" (Join #"/" l ++ #"/") = l ++ [[]]).
  { change (Join #"/" l ++ #"/") with (Join #"/" l ++ "/"%char :: []). rewrite Split_app_sep, Split_names by done. done. }
  unfold Clean. assert (Hr : HasPrefix (Join #"/" l ++ #"/") #"/" = false).
  { apply not_true_iff_false. intros [k E]%HasPrefix_spec. rewrite E in Hs. destruct l as [|w l]; [done|].
    cbn in Hs. injection Hs as <- _. by destruct (Forall_inv Hl) as (? & _). }
  rewrite Hr. unfold clean_segs. rewrite Hs, fold_clean_plain.
  - rewrite app_nil_r, reverse_involutive, filter_app, (filter_id _ l) by (eapply Forall_impl; [exact Hl|]; by intros v (? & ? & _)). rewrite filter_cons_False by (unfold proper_seg; naive_solver).
    rewrite filter_nil, app_nil_r. pose proof (Join_nonempty l Hne Hl). by destruct (Join #"/" l).
  - intros [H|H%list_elem_of_singleton]%elem_of_app; [by eapply norm_no_up|done].
Qed.

Lemma rkey_Dir l w : Forall norm_seg l → norm_seg w → path_Dir (rkey (l ++ [w])) = rkey l.
Proof.
  intros Hl (_ & _ & _ & Hw). destruct l as [|v l].
  - unfold path_Dir. cbn [app rkey Join]. by rewrite path_Split_name.
  - change (rkey ((v :: l) ++ [w])) with (Join #"/" ((v :: l) ++ [w])). rewrite Join_last, path_Dir_app by done. by apply Clean_slash.
Qed.

Lemma trim_noslash w : ("/"%char ∉ w) → w ≠ [] → trim_left (λ c, bool_decide (c = "/"%char)) (reverse w) = reverse w.
Proof.
  intros Hw Hne. destruct (reverse w) as [|c r] eqn:E; [done|]. cbn [trim_left]. rewrite bool_decide_false; [done|]. intros ->. apply Hw.
  apply elem_of_reverse. rewrite E. left.
Qed.

Lemma rkey_Base l w : Forall norm_seg l → norm_seg w → path_Base (rkey (l ++ [w])) = w.
Proof.
  intros Hl Hn. destruct l as [|v l].
  - destruct Hn as (Hne & _ & _ & Hw). cbn [app rkey Join]. unfold path_Base.
    rewrite trim_noslash, reverse_involutive, after_last_slash_none by done. by destruct w.
  - pose proof (path_Base_render (v :: l) w Hn) as Hb. change (rkey ((v :: l) ++ [w])) with (Join #"/" ((v :: l) ++ [w])).
    unfold render in Hb. rewrite Join_last in * by done. destruct Hn as (Hne & _ & _ & Hw).
    unfold path_Base. destruct (Join #"/" (v :: l) ++ "/"%char :: w) as [|c s] eqn:E; [by destruct (Join _ _)|]. rewrite <- E.
    assert (Ht : trim_left (λ c, bool_decide (c = "/"%char)) (reverse (Join #"/" (v :: l) ++ "/"%char :: w)) = reverse (Join #"/" (v :: l) ++ "/"%char :: w)).
    { rewrite reverse_app, reverse_cons. destruct (reverse w) as [|d w'] eqn:Er; [by apply (f_equal reverse) in Er; rewrite reverse_involutive in Er|].
      cbn. rewrite bool_decide_false; [done|]. intros ->. apply Hw, elem_of_reverse. rewrite Er. left. }
    rewrite Ht, reverse_involutive, after_last_slash_app by done. by destruct w.
Qed.

(** ** What the heap and the map represent *)

(** Directories in the map, those that are children of their parent, and files
    with their directories. *)
Definition child_name (d q : list gostr) : option gostr :=
  match last q with Some w => if bool_decide (q = d ++ [w]) then Some w else None | None => None end.
Definition file_in (d : list gostr) (p : SubFile * list gostr) : option SubFile := if bool_decide (p.2 = d) then Some p.1 else None.
Definition kids (linked : list (list gostr)) (placed : list (SubFile * list gostr)) (d : list gostr) : list (gostr + SubFile) :=
  map inl (omap (child_name d) linked) ++ map inr (omap (file_in d) placed).

Lemma child_name_spec d q w : child_name d q = Some w ↔ q = d ++ [w].
Proof.
  unfold child_name. split.
  - destruct (last q) as [v|]; [|done]. case_bool_decide as E; [|done]. intros [= <-]. done.
  - intros ->. by rewrite last_snoc, bool_decide_true.
Qed.

Lemma file_in_spec d p f : file_in d p = Some f ↔ p = (f, d).
Proof. destruct p as [g e]. unfold file_in. cbn. case_bool_decide; naive_solver. Qed.

Definition child_ok (t : meta_state) (d : list gostr) (c : nat) (k : gostr + SubFile) : Prop :=
  match k with
  | inl w => dirMap t !! rkey (d ++ [w]) = Some c
  | inr f => tree_heap t !! c = Some (MakeModelObj f) ∧ ∀ key, dirMap t !! key ≠ Some c
  end.

Record tree_inv (reg linked : list (list gostr)) (placed : list (SubFile * list gostr)) (t : meta_state) : Prop := {
  ti_norm : Forall (Forall norm_seg) reg;
  ti_map : ∀ d, Forall norm_seg d → is_Some (dirMap t !! rkey d) ↔ d ∈ reg;
  ti_keys : ∀ key loc, dirMap t !! key = Some loc → (∃ d, d ∈ reg ∧ key = rkey d) ∧ (loc < length (tree_heap t))%nat;
  ti_inj : ∀ key key' loc, dirMap t !! key = Some loc → dirMap t !! key' = Some loc → key = key';
  ti_linked : ∀ d w, d ++ [w] ∈ linked → d ∈ reg ∧ d ++ [w] ∈ reg;
  ti_placed : ∀ f d, (f, d) ∈ placed → d ∈ reg;
  ti_node : ∀ d loc, Forall norm_seg d → dirMap t !! rkey d = Some loc → ∃ o, tree_heap t !! loc = Some o ∧
    (d ≠ [] → ot_IsFolder o = true ∧ last d = Some (ot_Name o)) ∧
    ∃ ks, Forall2 (child_ok t d) (ot_Children o) ks ∧ ks ≡ₚ kids linked placed d;
}.

(** What was there stays: directories in the map, and nodes of files. *)
Definition extends (t t' : meta_state) : Prop :=
  (∀ key loc, dirMap t !! key = Some loc → dirMap t' !! key = Some loc) ∧
  (∀ c o, tree_heap t !! c = Some o → (∀ key, dirMap t !! key ≠ Some c) → tree_heap t' !! c = Some o ∧ ∀ key, dirMap t' !! key ≠ Some c).

Lemma child_ok_extends t t' d c k : extends t t' → child_ok t d c k → child_ok t' d c k.
Proof. intros [H1 H2]. destruct k as [w|f]; cbn; [apply H1|]. intros [Hc Hk]. by apply H2. Qed.

Lemma children_extend t t' d cs ks : extends t t' → Forall2 (child_ok t d) cs ks → Forall2 (child_ok t' d) cs ks.
Proof. intros He H. eapply Forall2_impl; [exact H|]. intros c k. by apply child_ok_extends. Qed.

Lemma extends_upd t f loc key : dirMap t !! key = Some loc → extends t (upd_node f loc t).
Proof.
  intros Hk. split; [done|]. intros c o Hc Hn. cbn. split; [|done]. rewrite list_lookup_alter_ne; [done|]. intros ->. by eapply Hn.
Qed.

Lemma extends_node t o : (∀ key loc, dirMap t !! key = Some loc → (loc < length (tree_heap t))%nat) → extends t (new_node o t).2.
Proof. intros Hk. split; [done|]. intros c o' Hc Hn. cbn. split; [by apply lookup_app_l_Some|done]. Qed.

Lemma heap_new t o : (tree_heap t ++ [o]) !! length (tree_heap t) = Some o.
Proof. by rewrite lookup_app_r, Nat.sub_diag by lia. Qed.

(** A new directory without children. *)
Lemma inv_new_dir reg linked placed t d o : tree_inv reg linked placed t → Forall norm_seg d → d ∉ reg → ot_Children o = [] →
  (d ≠ [] → ot_IsFolder o = true ∧ last d = Some (ot_Name o)) → tree_inv (d :: reg) linked placed (new_dir (rkey d) o t).2.
Proof.
  intros Hi Hd Hr Hc Ho. set (t' := (new_dir (rkey d) o t).2). assert (Hnone : dirMap t !! rkey d = None).
  { apply eq_None_not_Some. by rewrite (ti_map _ _ _ _ Hi). }
  assert (He : extends t t').
  { split.
    - intros key loc H. cbn. rewrite lookup_insert_ne; [done|]. intros <-. by rewrite Hnone in H.
    - intros c o' H1 H2. cbn. split; [by apply lookup_app_l_Some|]. intros key. rewrite lookup_insert. case_decide; [|apply H2].
      intros [= <-]. apply lookup_lt_Some in H1. lia. }
  split.
  - constructor; [done|apply Hi].
  - intros e Hne. cbn. rewrite lookup_insert. case_decide as E.
    + apply rkey_inj in E as ->; [|done..]. split; [left|by eexists].
    + rewrite (ti_map _ _ _ _ Hi) by done. split; [by right|]. intros [->|H]%elem_of_cons; [by destruct E|done].
  - intros key loc. cbn. rewrite lookup_insert, length_app. cbn. case_decide as E.
    + intros [= <-]. split; [exists d; split; [left|done]|lia].
    + intros H. destruct (ti_keys _ _ _ _ Hi _ _ H) as [(e & He' & ->) Hlt]. split; [exists e; split; [by right|done]|lia].
  - intros key key' loc. cbn. rewrite !lookup_insert. case_decide as E1; case_decide as E2.
    + congruence.
    + intros [= <-] H. apply (ti_keys _ _ _ _ Hi) in H as [_ H]. lia.
    + intros H [= <-]. apply (ti_keys _ _ _ _ Hi) in H as [_ H]. lia.
    + apply (ti_inj _ _ _ _ Hi).
  - intros e w H. apply (ti_linked _ _ _ _ Hi) in H as [H1 H2]. split; by right.
  - intros f e H. apply (ti_placed _ _ _ _ Hi) in H. by right.
  - intros e loc Hne. cbn. rewrite lookup_insert. case_decide as E.
    + apply rkey_inj in E as ->; [|done..]. intros [= <-]. exists o. split; [apply heap_new|]. split; [done|]. exists []. rewrite Hc. split; [constructor|].
      assert (Hk : kids linked placed e = []); [|by rewrite Hk]. unfold kids. assert (H1 : omap (child_name e) linked = []).
      { destruct (omap _ linked) as [|w ws] eqn:Ew; [done|]. exfalso. assert (Hw : w ∈ omap (child_name e) linked) by (rewrite Ew; left).
        apply list_elem_of_omap in Hw as (q & Hq & Hc'). apply child_name_spec in Hc' as ->. by apply (ti_linked _ _ _ _ Hi) in Hq as [? _]. }
      assert (H2 : omap (file_in e) placed = []).
      { destruct (omap _ placed) as [|w ws] eqn:Ew; [done|]. exfalso. assert (Hw : w ∈ omap (file_in e) placed) by (rewrite Ew; left).
        apply list_elem_of_omap in Hw as (q & Hq & Hc'). apply file_in_spec in Hc' as ->. by apply (ti_placed _ _ _ _ Hi) in Hq. }
      by rewrite H1, H2.
    + intros H. destruct (ti_node _ _ _ _ Hi _ _ Hne H) as (o' & Ho' & Hf & ks & Hks & Hp). exists o'. split; [by apply lookup_app_l_Some|]. split; [done|].
      exists ks. split; [by eapply children_extend|done].
Qed.

(** A node that is not linked yet. *)
Lemma inv_new_node reg linked placed t o : tree_inv reg linked placed t → tree_inv reg linked placed (new_node o t).2.
Proof.
  intros Hi. assert (He : extends t (new_node o t).2).
  { apply extends_node. intros key loc H. by apply (ti_keys _ _ _ _ Hi) in H as [_ H]. }
  split; try apply Hi.
  - intros key loc H. apply (ti_keys _ _ _ _ Hi) in H as [H1 H2]. split; [done|]. cbn. rewrite length_app. lia.
  - intros d loc Hd H. destruct (ti_node _ _ _ _ Hi _ _ Hd H) as (o' & Ho' & Hf & ks & Hks & Hp). exists o'. split; [by apply lookup_app_l_Some|].
    split; [done|]. exists ks. split; [by eapply children_extend|done].
Qed.

(** The node of a directory gets more children. *)
Lemma inv_upd reg linked placed linked' placed' t d loc f more : tree_inv reg linked placed t → Forall norm_seg d → dirMap t !! rkey d = Some loc →
  (∀ o, (d ≠ [] → ot_IsFolder o = true ∧ last d = Some (ot_Name o)) → d ≠ [] → ot_IsFolder (f o) = true ∧ last d = Some (ot_Name (f o))) →
  (∀ o, ot_Children (f o) = ot_Children o ++ map fst more) →
  Forall (λ m, child_ok t d m.1 m.2) more →
  kids linked' placed' d ≡ₚ kids linked placed d ++ map snd more →
  (∀ e, e ≠ d → kids linked' placed' e ≡ₚ kids linked placed e) →
  (∀ e w, e ++ [w] ∈ linked' → e ∈ reg ∧ e ++ [w] ∈ reg) → (∀ g e, (g, e) ∈ placed' → e ∈ reg) →
  tree_inv reg linked' placed' (upd_node f loc t).
Proof.
  intros Hi Hd Hloc Hf Hc Hmore Hkd Hke Hl' Hp'. pose proof (extends_upd t f loc (rkey d) Hloc) as He. split; try apply Hi; [| |done|].
  - intros key l H. cbn. rewrite length_alter. by apply (ti_keys _ _ _ _ Hi).
  - done.
  - intros e l Hne H. cbn in H. destruct (ti_node _ _ _ _ Hi _ _ Hne H) as (o & Ho & Hfo & ks & Hks & Hp). destruct (decide (e = d)) as [->|Hn].
    + rewrite Hloc in H. injection H as <-. exists (f o). split; [cbn; by rewrite list_lookup_alter_eq, Ho|]. split; [by apply Hf|].
      exists (ks ++ map snd more). split; [|by rewrite Hkd, Hp]. rewrite Hc. apply Forall2_app; [by eapply children_extend|].
      clear -Hmore He. induction Hmore as [|m more Hm _ IH]; constructor; [by eapply child_ok_extends|done].
    + exists o. split; [|split; [done|]].
      * cbn. rewrite list_lookup_alter_ne; [done|]. intros ->. apply Hn, rkey_inj; [done..|]. by eapply (ti_inj _ _ _ _ Hi).
      * exists ks. split; [by eapply children_extend|by rewrite Hke].
Qed.

(** A directory becomes a child of its parent. *)
Lemma inv_link reg linked placed t d w loc c : tree_inv reg linked placed t → Forall norm_seg d →
  dirMap t !! rkey d = Some loc → norm_seg w → dirMap t !! rkey (d ++ [w]) = Some c →
  tree_inv reg ((d ++ [w]) :: linked) placed (upd_node (with_child c) loc t).
Proof.
  intros Hi Hd Hloc Hw Hc. assert (Hdw : Forall norm_seg (d ++ [w])) by (apply Forall_app; split; [done|by apply Forall_singleton]).
  eapply (inv_upd _ linked placed _ _ _ d _ _ [(c, inl w)]); try done.
  - by apply Forall_singleton.
  - unfold kids. cbn [omap list_omap]. rewrite (proj2 (child_name_spec d (d ++ [w]) w) eq_refl). cbn [map snd]. rewrite <- !app_comm_cons.
    by rewrite Permutation_cons_append.
  - intros e Hne. unfold kids. cbn [omap list_omap]. destruct (child_name e (d ++ [w])) as [v|] eqn:E; [|done].
    apply child_name_spec in E. by apply app_inj_tail in E as [-> _].
  - intros e v [H|H]%elem_of_cons; [|by apply (ti_linked _ _ _ _ Hi)]. apply app_inj_tail in H as [-> ->].
    split; [apply (ti_map _ _ _ _ Hi); [done|by eexists]|apply (ti_map _ _ _ _ Hi); [done|by eexists]].
  - apply (ti_placed _ _ _ _ Hi).
Qed.

(** A file in a directory. *)
Lemma inv_place reg linked placed t d loc f : tree_inv reg linked placed t → Forall norm_seg d → dirMap t !! rkey d = Some loc →
  let '(c, t') := new_node (MakeModelObj f) t in
  tree_inv reg linked ((f, d) :: placed) (upd_node (with_child c) loc t').
Proof.
  intros Hi Hd Hloc. cbn [new_node]. pose proof (inv_new_node _ _ _ _ (MakeModelObj f) Hi) as Hi'. cbn [new_node snd] in Hi'.
  eapply (inv_upd _ linked placed _ _ _ d _ _ [(length (tree_heap t), inr f)]); try done.
  - apply Forall_singleton. cbn. split; [apply heap_new|]. intros key H. apply (ti_keys _ _ _ _ Hi) in H as [_ H]. lia.
  - unfold kids. cbn [omap list_omap]. rewrite (proj2 (file_in_spec d (f, d) f) eq_refl). cbn [map snd].
    by rewrite Permutation_cons_append, app_assoc.
  - intros e Hne. unfold kids. cbn [omap list_omap]. destruct (file_in e (f, d)) as [v|] eqn:E; [|done]. apply file_in_spec in E. by injection E as _ ->.
  - apply (ti_linked _ _ _ _ Hi).
  - intros g e [H|H]%elem_of_cons; [|by apply (ti_placed _ _ _ _ Hi) in H]. injection H as -> ->. apply (ti_map _ _ _ _ Hi); [done|by eexists].
Qed.

(** The entry of a directory that is known already. *)
Lemma inv_meta reg linked placed t d w loc m : tree_inv reg linked placed t → Forall norm_seg d → norm_seg w → dirMap t !! rkey (d ++ [w]) = Some loc →
  tree_inv reg linked placed (upd_node (as_folder w m) loc t).
Proof.
  intros Hi Hd Hw Hloc. eapply (inv_upd _ linked placed _ _ _ (d ++ [w]) _ _ []); try done.
  - apply Forall_app; split; [done|by apply Forall_singleton].
  - intros o _ _. cbn. by rewrite last_snoc.
  - intros o. cbn. by rewrite app_nil_r.
  - by rewrite app_nil_r.
  - apply (ti_linked _ _ _ _ Hi).
  - apply (ti_placed _ _ _ _ Hi).
Qed.

(** ** New directories *)

(** Every directory but one is a child of its parent. *)
Definition linked_but (q : list gostr) (reg linked : list (list gostr)) : Prop :=
  (∀ d w, d ++ [w] ∈ reg → d ++ [w] ≠ q → d ++ [w] ∈ linked) ∧ NoDup linked ∧ q ∉ linked ∧ [] ∉ linked.
Definition all_linked (reg linked : list (list gostr)) : Prop :=
  (∀ d w, d ++ [w] ∈ reg → d ++ [w] ∈ linked) ∧ NoDup linked ∧ [] ∉ linked.

Lemma link_last q reg linked : q ≠ [] → linked_but q reg linked → all_linked reg (q :: linked).
Proof.
  intros Hq (H1 & H2 & H3 & H4). split; [|split].
  - intros d w H. destruct (decide (d ++ [w] = q)) as [->|]; [left|]. right. by apply H1.
  - by constructor.
  - intros [H|H]%elem_of_cons; congruence.
Qed.

Lemma link_more q d reg linked : q ≠ [] → linked_but q reg linked → d ∉ linked → d ≠ q → linked_but d (d :: reg) (q :: linked).
Proof.
  intros Hq (H1 & H2 & H3 & H4) Hd Hdq. split; [|split; [|split]].
  - intros e w H Hne. apply elem_of_cons in H as [H|H]; [done|]. destruct (decide (e ++ [w] = q)) as [->|]; [left|]. right. by apply H1.
  - by constructor.
  - intros [H|H]%elem_of_cons; congruence.
  - intros [H|H]%elem_of_cons; congruence.
Qed.

Lemma prefix_snoc {A} (e l : list A) x : e `prefix_of` l ++ [x] ↔ e `prefix_of` l ∨ e = l ++ [x].
Proof.
  split; [|intros [H| ->]; [by apply prefix_app_r|done]]. intros [k E]. destruct k as [|y k _] using rev_ind; [right; by rewrite app_nil_r in E|].
  left. rewrite app_assoc in E. apply app_inj_tail in E as [-> _]. by eexists.
Qed.

(** The parent is known: one turn. *)
Lemma add_parents_known placed fuel m c p w t reg linked : tree_inv reg linked placed t → Forall norm_seg p → norm_seg w →
  dirMap t !! rkey (p ++ [w]) = Some c → p ∈ reg → linked_but (p ++ [w]) reg linked →
  ∃ t', add_parents (S fuel) m c (rkey p) t = Some t' ∧ tree_inv reg ((p ++ [w]) :: linked) placed t' ∧ all_linked reg ((p ++ [w]) :: linked).
Proof.
  intros Hi Hp Hw Hc Hr Hl. destruct (proj2 (ti_map _ _ _ _ Hi p Hp) Hr) as [loc Hloc]. cbn [add_parents]. rewrite Hloc.
  assert (Hk : is_Some (dirMap t !! path_Dir (rkey p))).
  { destruct p as [|v p _] using rev_ind; [by eexists|]. apply Forall_app in Hp as [Hp Hv]. rewrite rkey_Dir by (done || exact (Forall_inv Hv)).
    apply (ti_map _ _ _ _ Hi); [done|]. destruct Hl as [Hl _]. apply (ti_linked _ _ _ _ Hi p v), Hl; [done|]. intros E.
    apply (f_equal length) in E. rewrite !length_app in E. cbn in E. lia. }
  exists (upd_node (with_child c) loc t). change (dirMap (upd_node (with_child c) loc t)) with (dirMap t). destruct Hk as [x ->].
  split; [done|]. split; [by apply inv_link|]. apply link_last; [by destruct p|done].
Qed.

(** No directory above is known: all of them are made. *)
Lemma add_parents_new placed m p : Forall norm_seg p → ∀ fuel c w t reg linked, tree_inv reg linked placed t → norm_seg w →
  dirMap t !! rkey (p ++ [w]) = Some c → (∀ e, e `prefix_of` p → e ∉ reg) → linked_but (p ++ [w]) reg linked → (length p < fuel)%nat →
  ∃ t' reg' linked', add_parents fuel m c (rkey p) t = Some t' ∧ tree_inv reg' linked' placed t' ∧ all_linked reg' linked' ∧
    ∀ e, e ∈ reg' ↔ e ∈ reg ∨ e `prefix_of` p.
Proof.
  induction p as [|v p IH] using rev_ind; intros Hp fuel c w t reg linked Hi Hw Hc Hn Hl Hfuel; (destruct fuel as [|fuel]; [lia|]); cbn [add_parents].
  - assert (Hnone : dirMap t !! rkey [] = None) by (apply eq_None_not_Some; rewrite (ti_map _ _ _ _ Hi) by done; by apply Hn).
    rewrite Hnone. pose proof (inv_new_dir _ _ _ _ [] empty_tree Hi Hp (Hn [] ltac:(done)) eq_refl ltac:(done)) as Hi'.
    change (bool_decide (rkey [] ≠ #".")) with false. cbv iota. cbn [new_dir new_node] in *. cbn [snd] in Hi'.
    change (path_Dir (rkey [])) with (rkey []). cbn [upd_node dirMap]. rewrite lookup_insert_eq.
    eexists _, _, _. split; [done|]. split; [eapply (inv_link _ linked placed _ [] w); [exact Hi'|done|cbn; apply lookup_insert_eq|done|]|].
    + cbn [dirMap]. rewrite lookup_insert_ne; [done|]. intros E. apply rkey_inj in E; [done|done|by constructor].
    + split.
      * apply link_last; [done|]. destruct Hl as (H1 & H2 & H3 & H4). split; [|done]. intros d x H. apply elem_of_cons in H as [H|H]; [by destruct d|]. by apply H1.
      * intros e. rewrite elem_of_cons. split; [intros [->|?]; [by right|by left]|]. intros [?|[k E]]; [by right|]. left. by destruct e.
  - apply Forall_app in Hp as [Hp Hv]. pose proof (Forall_inv Hv) as Hv'. set (q := p ++ [v]) in *. assert (Hq : Forall norm_seg q) by (by apply Forall_app).
    assert (Hnone : dirMap t !! rkey q = None) by (apply eq_None_not_Some; rewrite (ti_map _ _ _ _ Hi) by done; by apply Hn).
    rewrite Hnone, bool_decide_true by (intros E%rkey_root; [by destruct p|done]). 
    assert (Eb : path_Base (rkey q) = v) by (by apply rkey_Base). assert (Ed : path_Dir (rkey q) = rkey p) by (by apply rkey_Dir). rewrite Eb, Ed.
    set (o := as_folder v m empty_tree). pose proof (inv_new_dir _ _ _ _ q o Hi Hq (Hn q ltac:(done)) eq_refl) as Hi'.
    cbn [new_dir new_node] in *. cbn [snd] in Hi'. specialize (Hi' ltac:(intros _; split; [done|by unfold q; rewrite last_snoc])).
    assert (Hqw : rkey q ≠ rkey (q ++ [w])).
    { intros E%rkey_inj; [|done|apply Forall_app; split; [done|by apply Forall_singleton]]. apply (f_equal length) in E. rewrite length_app in E. cbn in E. lia. }
    assert (Hnp : dirMap t !! rkey p = None) by (apply eq_None_not_Some; rewrite (ti_map _ _ _ _ Hi) by done; apply Hn; by apply prefix_app_r).
    assert (Hpq : rkey q ≠ rkey p).
    { intros E%rkey_inj; [|done..]. apply (f_equal length) in E. unfold q in E. rewrite length_app in E. cbn in E. lia. }
    cbn [upd_node dirMap]. rewrite lookup_insert_ne, Hnp by done.
    edestruct (IH Hp fuel (length (tree_heap t)) v) as (t' & reg' & linked' & E1 & E2 & E3 & E4);
      [eapply (inv_link _ linked placed _ q w); [exact Hi'|done|cbn; apply lookup_insert_eq|done|cbn [dirMap]; by rewrite lookup_insert_ne]|done|..].
    + cbn [upd_node dirMap]. apply lookup_insert_eq.
    + intros e He [->|Hin]%elem_of_cons; [|revert Hin; apply Hn; by apply prefix_app_r].
      apply prefix_length in He. unfold q in He. rewrite length_app in He. cbn in He. lia.
    + apply link_more; [by destruct q|done| |].
      * intros Hin. apply (ti_linked _ _ _ _ Hi) in Hin as [_ Hin]. by apply (Hn q ltac:(done)).
      * intros E. apply (f_equal length) in E. rewrite !length_app in E. cbn in E. unfold q in E. rewrite length_app in E. cbn in E. lia.
    + unfold q in Hfuel. rewrite length_app in Hfuel. cbn in Hfuel. lia.
    + exists t', reg', linked'. split; [exact E1|]. split; [done|]. split; [done|]. intros e. rewrite E4, elem_of_cons. unfold q. rewrite prefix_snoc. tauto.
Qed.

(** ** Entries *)

(** The elements of the path of an entry, and of its directory. *)
Definition entry_text (f : SubFile) : gostr :=
  let name := TrimPrefix (sf_Name f) #"/" in if sf_IsDir f then TrimSuffix name #"/" else name.
Definition entry_path (f : SubFile) : list gostr := Split "/" (entry_text f).
Definition dir_of (f : SubFile) : list gostr := if sf_IsDir f then entry_path f else removelast (entry_path f).

(** An entry whose path is clean; the base name of a file is the last element. *)
Definition clean_entry (f : SubFile) : Prop := Forall norm_seg (entry_path f) ∧ (sf_IsDir f = false → last (entry_path f) = Some (sf_BaseName f)).

#[export] Instance clean_entry_dec f : Decision (clean_entry f).
Proof. unfold clean_entry. apply _. Defined.

Definition known (fs : list SubFile) (d : list gostr) : Prop := ∃ f, f ∈ fs ∧ d `prefix_of` dir_of f.
Definition file_entries (fs : list SubFile) : list (SubFile * list gostr) := omap (λ f, if sf_IsDir f then None else Some (f, dir_of f)) fs.

Definition represents (fs : list SubFile) (t : meta_state) : Prop := ∃ reg linked placed,
  tree_inv reg linked placed t ∧ all_linked reg linked ∧ (∀ d, d ∈ reg ↔ known fs d) ∧ placed ≡ₚ file_entries fs.

Lemma Split_some sep s : Split sep s ≠ [].
Proof. destruct s as [|c s]; [done|]. cbn. case_bool_decide; [done|]. by destruct (Split sep s). Qed.

Lemma entry_path_snoc f : ∃ l w, entry_path f = l ++ [w].
Proof. destruct (exists_last (Split_some "/" (entry_text f))) as (l & w & E). by exists l, w. Qed.

Lemma dir_of_norm f : clean_entry f → Forall norm_seg (dir_of f).
Proof.
  intros [Hn _]. unfold dir_of. destruct (sf_IsDir f); [done|]. destruct (entry_path_snoc f) as (l & w & E). rewrite E in *. rewrite removelast_last.
  by apply Forall_app in Hn as [? _].
Qed.

(** The directory of an entry as the code computes it. *)
Lemma dir_key f : clean_entry f →
  (if sf_IsDir f then TrimSuffix (TrimPrefix (sf_Name f) #"/") #"/" else path_Dir (TrimPrefix (sf_Name f) #"/")) = rkey (dir_of f).
Proof.
  intros [Hn _]. unfold dir_of. destruct (entry_path_snoc f) as (l & w & E). assert (Ej : Join #"/" (entry_path f) = entry_text f) by apply Join_Split.
  rewrite E in *. unfold entry_text in Ej. assert (Er : rkey (l ++ [w]) = Join #"/" (l ++ [w])) by (by destruct l).
  destruct (sf_IsDir f); [by rewrite Er|]. rewrite <- Ej, removelast_last, <- Er. apply Forall_app in Hn as [Hl Hw]. apply rkey_Dir; [done|exact (Forall_inv Hw)].
Qed.

Lemma known_snoc fs f d : known (fs ++ [f]) d ↔ known fs d ∨ d `prefix_of` dir_of f.
Proof.
  unfold known. split.
  - intros (g & [Hg|Hg%list_elem_of_singleton]%elem_of_app & Hd); [left; eauto|right; by subst].
  - intros [(g & Hg & Hd)|Hd]; [exists g|exists f]; (split; [apply elem_of_app|done]); [by left|right; by left].
Qed.

Lemma known_prefix fs d e : known fs d → e `prefix_of` d → known fs e.
Proof. intros (f & Hf & Hd) He. exists f. split; [done|]. by etrans. Qed.

Lemma file_entries_snoc fs f : file_entries (fs ++ [f]) ≡ₚ (if sf_IsDir f then [] else [(f, dir_of f)]) ++ file_entries fs.
Proof. unfold file_entries. rewrite omap_app. cbn. destruct (sf_IsDir f); [by rewrite app_nil_r|]. by rewrite Permutation_app_comm. Qed.

Lemma new_dir_folder dir n m t : let '(loc, t') := new_dir dir empty_tree t in upd_node (as_folder n m) loc t' = (new_dir dir (as_folder n m empty_tree) t).2.
Proof.
  cbn. unfold upd_node. cbn. f_equal. rewrite alter_app_r_alt by done. by rewrite Nat.sub_diag.
Qed.

(** The first part of [add_entry]: the directory is there, with the file in it. *)
Definition enter (t : meta_state) (file : SubFile) (dir : gostr) : nat * bool * meta_state :=
  let '(dirObj, isNewFolder, t) :=
    match dirMap t !! dir with
    | Some loc => (loc, false, t)
    | None =>
        let o := if sf_IsDir file then empty_tree else as_folder (path_Base dir) (sf_ModTime file) empty_tree in
        let '(loc, t) := new_dir dir o t in (loc, bool_decide (dir ≠ #"."), t)
    end in
  (dirObj, isNewFolder,
    if sf_IsDir file then upd_node (as_folder (path_Base dir) (sf_ModTime file)) dirObj t
    else let '(c, t) := new_node (MakeModelObj file) t in upd_node (with_child c) dirObj t).

Lemma enter_known reg linked placed t f loc : tree_inv reg linked placed t → clean_entry f → dirMap t !! rkey (dir_of f) = Some loc →
  ∃ t', enter t f (rkey (dir_of f)) = (loc, false, t') ∧ tree_inv reg linked ((if sf_IsDir f then [] else [(f, dir_of f)]) ++ placed) t'.
Proof.
  intros Hi Hf Hloc. pose proof (dir_of_norm f Hf) as Hd. unfold enter. rewrite Hloc. destruct (sf_IsDir f) eqn:Ed.
  - eexists. split; [done|]. unfold dir_of in *. rewrite Ed in *. destruct (entry_path_snoc f) as (l & w & E). rewrite E in *. apply Forall_app in Hd as [Hl Hw].
    rewrite rkey_Base by (done || exact (Forall_inv Hw)). exact (inv_meta _ _ _ _ l w loc _ Hi Hl (Forall_inv Hw) Hloc).
  - eexists. split; [done|]. by apply (inv_place _ _ _ _ (dir_of f) loc f Hi).
Qed.

Lemma enter_new reg linked placed t f : tree_inv reg linked placed t → clean_entry f → dir_of f ∉ reg →
  ∃ t', enter t f (rkey (dir_of f)) = (length (tree_heap t), bool_decide (rkey (dir_of f) ≠ #"."), t') ∧
    dirMap t' !! rkey (dir_of f) = Some (length (tree_heap t)) ∧
    tree_inv (dir_of f :: reg) linked ((if sf_IsDir f then [] else [(f, dir_of f)]) ++ placed) t'.
Proof.
  intros Hi Hf Hr. pose proof (dir_of_norm f Hf) as Hd.
  assert (Hnone : dirMap t !! rkey (dir_of f) = None) by (apply eq_None_not_Some; by rewrite (ti_map _ _ _ _ Hi)).
  set (o := as_folder (path_Base (rkey (dir_of f))) (sf_ModTime f) empty_tree).
  assert (Hi' : tree_inv (dir_of f :: reg) linked placed (new_dir (rkey (dir_of f)) o t).2).
  { apply inv_new_dir; [done..|]. intros Hne. split; [done|]. change (ot_Name o) with (path_Base (rkey (dir_of f))). clear o Hnone Hr. destruct (exists_last Hne) as (l & w & E).
    rewrite E in *. apply Forall_app in Hd as [Hl Hw]. rewrite rkey_Base by (done || exact (Forall_inv Hw)). apply last_snoc. }
  assert (Hk : dirMap (new_dir (rkey (dir_of f)) o t).2 !! rkey (dir_of f) = Some (length (tree_heap t))) by (cbn; apply lookup_insert_eq).
  unfold enter. rewrite Hnone. destruct (sf_IsDir f).
  - eexists. split; [done|]. pose proof (new_dir_folder (rkey (dir_of f)) (path_Base (rkey (dir_of f))) (sf_ModTime f) t) as Hn. cbn [new_dir new_node] in Hn |- *.
    rewrite Hn. by split.
  - eexists. split; [done|]. split; [cbn; apply lookup_insert_eq|]. exact (inv_place _ _ _ _ (dir_of f) _ f Hi' Hd Hk).
Qed.

Lemma rkey_length l : Forall norm_seg l → (length l ≤ length (rkey l))%nat.
Proof.
  intros Hl. destruct l as [|w l]; [cbn; lia|]. change (rkey (w :: l)) with (Join #"/" (w :: l)). revert w Hl. induction l as [|v l IH]; intros w Hl.
  - destruct (Forall_inv Hl) as (Hne & _). destruct w; [done|]. cbn. lia.
  - apply Forall_cons in Hl as [_ Hl]. rewrite Join_cons by done. rewrite !length_app. specialize (IH v Hl). cbn [length] in *. change (length #"/") with 1%nat. lia.
Qed.

Lemma all_linked_but q reg linked placed t : tree_inv reg linked placed t → all_linked reg linked → q ∉ reg → q ≠ [] → linked_but q (q :: reg) linked.
Proof.
  intros Hi (H1 & H2 & H3) Hq Hne. split; [|split; [done|split; [|done]]].
  - intros d w [H|H]%elem_of_cons Hd; [done|by apply H1].
  - intros H. destruct (exists_last Hne) as (l & w & ->). by apply (ti_linked _ _ _ _ Hi) in H as [_ ?].
Qed.

(** An entry is added when it is the first, or when its directory or the one
    above is known. *)
Definition expected_next (fs : list SubFile) (f : SubFile) : Prop := fs = [] ∨ known fs (removelast (dir_of f)).

Lemma known_nil d : ¬ known [] d.
Proof. intros (f & Hf & _). by apply elem_of_nil in Hf. Qed.

Lemma known_root fs : fs ≠ [] → known fs [].
Proof. intros Hne. destruct fs as [|f fs]; [done|]. exists f. split; [left|]. by eexists. Qed.

Lemma add_entry_ok fs t f : represents fs t → clean_entry f → expected_next fs f → ∃ t', add_entry t f = Some t' ∧ represents (fs ++ [f]) t'.
Proof.
  intros (reg & linked & placed & Hi & Hl & Hr & Hp) Hf Hx. pose proof (dir_of_norm f Hf) as Hd.
  assert (Hent : add_entry t f = let '(dirObj, isNew, t) := enter t f (rkey (dir_of f)) in
    if isNew then add_parents (S (S (length (rkey (dir_of f))))) (sf_ModTime f) dirObj (path_Dir (rkey (dir_of f))) t else Some t).
  { unfold add_entry, enter. rewrite dir_key by done. destruct (dirMap t !! rkey (dir_of f)); [done|]. by destruct (new_dir _ _ t). }
  assert (Hp' : (if sf_IsDir f then [] else [(f, dir_of f)]) ++ placed ≡ₚ file_entries (fs ++ [f])) by (rewrite file_entries_snoc; by f_equiv).
  destruct (decide (dir_of f ∈ reg)) as [Hin|Hin].
  - destruct (proj2 (ti_map _ _ _ _ Hi _ Hd) Hin) as [loc Hloc]. destruct (enter_known _ _ _ _ f loc Hi Hf Hloc) as (t' & E & Hi').
    rewrite Hent, E. exists t'. split; [done|]. eexists reg, linked, _. split; [exact Hi'|]. split; [done|]. split; [|done].
    intros d. rewrite Hr, known_snoc. split; [by left|]. intros [?|Hpre]; [done|]. eapply known_prefix; [by apply Hr|done].
  - destruct (enter_new _ _ _ _ f Hi Hf Hin) as (t1 & E & Hk & Hi'). rewrite Hent, E. destruct (dir_of f) as [|w p _] eqn:Ed using rev_ind.
    + rewrite bool_decide_false by (by intros H; apply H). exists t1. split; [done|]. eexists _, linked, _. split; [exact Hi'|]. split; [|split; [|done]].
      * destruct Hl as (H1 & H2 & H3). split; [|done]. intros d w [H|H]%elem_of_cons; [by destruct d|by apply H1].
      * intros d. rewrite elem_of_cons, Hr, known_snoc, Ed. split; [intros [->|?]; [by right|by left]|].
        intros [?|[k Ek]]; [by right|]. left. by destruct d.
    + apply Forall_app in Hd as [Hdp Hw]. pose proof (Forall_inv Hw) as Hw'. rewrite rkey_Dir by done.
      rewrite bool_decide_true by (intros H%rkey_root; [by destruct p|by apply Forall_app]).
      pose proof (all_linked_but (p ++ [w]) _ _ _ _ Hi Hl Hin ltac:(by destruct p)) as Hb.
      assert (Hreg : ∀ d, d ∈ (p ++ [w]) :: reg ↔ known fs d ∨ d = p ++ [w]) by (intros d; rewrite elem_of_cons, Hr; tauto).
      assert (Hpx : p ∈ (p ++ [w]) :: reg ∨ fs = []).
      { destruct Hx as [->|Hx]; [by right|left]. right. apply Hr. rewrite Ed, removelast_last in Hx. done. }
      destruct (decide (p ∈ (p ++ [w]) :: reg)) as [Hpr|Hpr].
      * destruct (add_parents_known _ (S (length (rkey (p ++ [w])))) (sf_ModTime f) _ p w t1 _ _ Hi' Hdp Hw' Hk Hpr Hb) as (t' & E' & Hi2 & Hl2).
        exists t'. split; [exact E'|]. eexists _, _, _. split; [exact Hi2|]. split; [done|]. split; [|done]. intros d. rewrite Hreg, known_snoc, Ed, prefix_snoc.
        split; [tauto|]. intros [?|[Hpre| ->]]; [by left| |by right]. left. apply Hreg in Hpr as [Hpr|Hpr]; [by eapply known_prefix|].
        exfalso. apply (f_equal length) in Hpr. rewrite length_app in Hpr. cbn in Hpr. lia.
      * destruct Hpx as [?|Hfs]; [done|]. 
        destruct (add_parents_new _ (sf_ModTime f) p Hdp (S (S (length (rkey (p ++ [w]))))) _ w t1 _ _ Hi' Hw' Hk) as (t' & reg' & linked' & E' & Hi2 & Hl2 & Hr2);
          [|exact Hb| |].
        -- intros e He [H|H]%Hreg; [subst fs; by apply known_nil in H|]. subst e. apply prefix_length in He. rewrite length_app in He. cbn in He. lia.
        -- pose proof (rkey_length (p ++ [w]) ltac:(by apply Forall_app)) as Hlen. rewrite length_app in Hlen. cbn in Hlen. lia.
        -- exists t'. split; [exact E'|]. eexists _, _, _. split; [exact Hi2|]. split; [done|]. split; [|done]. intros d. rewrite Hr2, Hreg, known_snoc, Ed, prefix_snoc. tauto.
Qed.

(** ** The listing of a directory *)

Definition parents_first (files : list SubFile) : Prop := ∀ a f b, files = a ++ f :: b → expected_next a f.

Lemma represents_empty : represents [] {| tree_heap := []; dirMap := ∅ |}.
Proof.
  exists [], [], []. split; [|split; [|split; [|done]]].
  - split; cbn; [constructor|..]; try done; [|by intros ? ? ?%elem_of_nil..]. intros d _. split; [by intros [x Hx]|by intros ?%elem_of_nil].
  - split; [by intros d w ?%elem_of_nil|]. split; [constructor|by intros ?%elem_of_nil].
  - intros d. split; [by intros ?%elem_of_nil|by intros ?%known_nil].
Qed.

Lemma add_entries_ok files : ∀ fs t, represents fs t → Forall clean_entry files → parents_first (fs ++ files) →
  ∃ t', add_entries t files = Some t' ∧ represents (fs ++ files) t'.
Proof.
  induction files as [|f files IH]; intros fs t Ht Hc Hp; cbn [add_entries]; [rewrite app_nil_r; eauto|].
  apply Forall_cons in Hc as [Hf Hc]. destruct (add_entry_ok fs t f Ht Hf (Hp _ _ _ eq_refl)) as (t1 & -> & Ht1).
  destruct (IH (fs ++ [f]) t1 Ht1 Hc) as (t' & E & H); rewrite <- app_assoc in *; [done|]. by exists t'.
Qed.

(** Folders by their names, files with what is known of them. *)
Definition shown (o : ObjectTree) : gostr * bool * Z * Z :=
  if ot_IsFolder o then (ot_Name o, true, 0, 0) else (ot_Name o, false, ot_Size o, ot_Modified o).
Definition shown_kid (k : gostr + SubFile) : gostr * bool * Z * Z :=
  match k with inl w => (w, true, 0, 0) | inr f => (sf_BaseName f, false, sf_Size f, sf_ModTime f) end.

(** The name after [d] in [l]. *)
Definition next_name (d l : list gostr) : option gostr := if bool_decide (d `prefix_of` l) then head (drop (length d) l) else None.
Definition sub_dirs (fs : list SubFile) (d : list gostr) : list gostr := remove_dups (omap (λ f, next_name d (dir_of f)) fs).
Definition files_in (fs : list SubFile) (d : list gostr) : list SubFile := filter (λ f, sf_IsDir f = false ∧ dir_of f = d) fs.

(** What the listing of a directory of an archive is to show. *)
Definition listing (fs : list SubFile) (d : list gostr) : list (gostr * bool * Z * Z) :=
  map shown_kid (map inl (sub_dirs fs d) ++ map inr (files_in fs d)).

Lemma next_name_spec d l w : next_name d l = Some w ↔ d ++ [w] `prefix_of` l.
Proof.
  unfold next_name. split.
  - case_bool_decide as H; [|done]. destruct H as [k ->]. rewrite drop_app_length. destruct k as [|v k]; [done|]. intros [= <-]. exists k. by rewrite <- app_assoc.
  - intros [k ->]. rewrite <- app_assoc. rewrite bool_decide_true by (by apply prefix_app_r). by rewrite drop_app_length.
Qed.

Lemma sub_dirs_spec fs d w : w ∈ sub_dirs fs d ↔ known fs (d ++ [w]).
Proof. unfold sub_dirs. rewrite elem_of_remove_dups, list_elem_of_omap. unfold known. by setoid_rewrite next_name_spec. Qed.

Lemma NoDup_omap {A B} (f : A → option B) l : (∀ x y b, f x = Some b → f y = Some b → x = y) → NoDup l → NoDup (omap f l).
Proof.
  intros Hf. induction 1 as [|x l Hx _ IH]; cbn [omap list_omap]; [constructor|]. destruct (f x) as [b|] eqn:E; [|done]. constructor; [|done].
  intros (y & Hy & Ey)%list_elem_of_omap. by rewrite (Hf x y b) in Hx.
Qed.

Lemma files_placed fs d : omap (file_in d) (file_entries fs) = files_in fs d.
Proof.
  induction fs as [|f fs IH]; [done|]. assert (E : file_entries (f :: fs) = if sf_IsDir f then file_entries fs else (f, dir_of f) :: file_entries fs).
  { unfold file_entries. cbn. by destruct (sf_IsDir f). }
  rewrite E. unfold files_in. rewrite filter_cons. fold (files_in fs d). destruct (sf_IsDir f); [by rewrite decide_False by (by intros [? _])|].
  change (omap (file_in d) ((f, dir_of f) :: file_entries fs)) with
    (match file_in d (f, dir_of f) with Some y => y :: omap (file_in d) (file_entries fs) | None => omap (file_in d) (file_entries fs) end).
  rewrite IH. unfold file_in. cbn. case_bool_decide; [by rewrite decide_True|by rewrite decide_False by (by intros [_ ?])].
Qed.

Section listing.
Context (fs : list SubFile) (t : meta_state) (reg linked : list (list gostr)) (placed : list (SubFile * list gostr)).
Hypothesis (Hi : tree_inv reg linked placed t) (Hl : all_linked reg linked) (Hr : ∀ d, d ∈ reg ↔ known fs d) (Hp : placed ≡ₚ file_entries fs).
Hypothesis (Hclean : Forall clean_entry fs).

Lemma kids_spec d : kids linked placed d ≡ₚ map inl (sub_dirs fs d) ++ map inr (files_in fs d).
Proof.
  unfold kids. f_equiv.
  - f_equiv. destruct Hl as (H1 & H2 & H3). apply NoDup_Permutation.
    + apply NoDup_omap; [|done]. intros q q' w. rewrite !child_name_spec. congruence.
    + apply NoDup_remove_dups.
    + intros w. rewrite sub_dirs_spec, <- Hr, list_elem_of_omap. split.
      * intros (q & Hq & ->%child_name_spec). by apply (ti_linked _ _ _ _ Hi) in Hq as [_ ?].
      * intros H. exists (d ++ [w]). split; [by apply H1|by apply child_name_spec].
  - f_equiv. rewrite Hp. by rewrite files_placed.
Qed.

(** The children of a known directory. *)
Definition lists (d : list gostr) (cs : list nat) : Prop := ∃ ks, Forall2 (child_ok t d) cs ks ∧ ks ≡ₚ map inl (sub_dirs fs d) ++ map inr (files_in fs d).

Lemma dir_node d : Forall norm_seg d → known fs d → ∃ loc o, dirMap t !! rkey d = Some loc ∧ tree_heap t !! loc = Some o ∧
  (d ≠ [] → ot_IsFolder o = true ∧ last d = Some (ot_Name o)) ∧ lists d (ot_Children o).
Proof.
  intros Hd Hk. apply Hr in Hk. destruct (proj2 (ti_map _ _ _ _ Hi d Hd) Hk) as [loc Hloc].
  destruct (ti_node _ _ _ _ Hi d loc Hd Hloc) as (o & Ho & Hf & ks & Hks & Hp'). exists loc, o. split_and!; [done..|]. exists ks. split; [done|]. by rewrite Hp', kids_spec.
Qed.

Lemma known_norm d : known fs d → Forall norm_seg d.
Proof.
  intros (f & Hf & [k E]). pose proof (dir_of_norm f (proj1 (Forall_forall _ _) Hclean _ Hf)) as Hn. rewrite E in Hn. by apply Forall_app in Hn as [? _].
Qed.

(** The node of a child. *)
Lemma child_node d c w : dirMap t !! rkey (d ++ [w]) = Some c → known fs (d ++ [w]) → ∃ o, tree_heap t !! c = Some o ∧
  ot_IsFolder o = true ∧ ot_Name o = w ∧ lists (d ++ [w]) (ot_Children o).
Proof.
  intros Hc Hk. destruct (dir_node _ (known_norm _ Hk) Hk) as (loc & o & Hloc & Ho & Hf & Hls). rewrite Hc in Hloc. injection Hloc as <-.
  destruct Hf as [H1 H2]; [by destruct d|]. rewrite last_snoc in H2. injection H2 as H2. by exists o.
Qed.

Lemma lists_in d cs ks k : Forall2 (child_ok t d) cs ks → ks ≡ₚ map inl (sub_dirs fs d) ++ map inr (files_in fs d) → k ∈ ks →
  match k with inl w => known fs (d ++ [w]) | inr f => f ∈ fs ∧ sf_IsDir f = false ∧ dir_of f = d end.
Proof.
  intros _ Hk Hin. rewrite Hk in Hin. apply elem_of_app in Hin as [(w & -> & Hw)%list_elem_of_fmap|(f & -> & Hf)%list_elem_of_fmap]; [by apply sub_dirs_spec|].
  apply list_elem_of_filter in Hf. tauto.
Qed.

(** A listing shows what it is to show. *)
Lemma lists_shown d cs : lists d cs → map shown (omap (λ c, tree_heap t !! c) cs) ≡ₚ listing fs d.
Proof.
  intros (ks & Hks & Hk). unfold listing. rewrite <- Hk. assert (Hin : ∀ k, k ∈ ks → match k with inl w => known fs (d ++ [w]) | inr f => sf_IsDir f = false end).
  { intros k H. pose proof (lists_in _ _ _ k Hks Hk H). destruct k; tauto. }
  clear Hk. apply Permutation_refl'. induction Hks as [|c k cs ks Hc _ IH]; [done|]. cbn [omap list_omap map].
  pose proof (Hin k ltac:(left)) as Hk. assert (Ho : ∃ o, tree_heap t !! c = Some o ∧ shown o = shown_kid k).
  { destruct k as [w|f]; cbn in Hc, Hk.
    - destruct (child_node _ _ _ Hc Hk) as (o & Ho & H1 & H2 & _). exists o. split; [done|]. unfold shown. rewrite H1. cbn. by rewrite H2.
    - destruct Hc as [Hc _]. eexists. split; [exact Hc|]. unfold shown. cbn. by rewrite Hk. }
  destruct Ho as (o & -> & Eo). cbn [map]. rewrite Eo. f_equal. apply IH. intros k' H. apply Hin. by right.
Qed.

(** Looking for a name among the children. *)
Lemma find_dir d cs w : lists d cs → known fs (d ++ [w]) → (∀ f, f ∈ files_in fs d → sf_BaseName f ≠ w) →
  ∃ o, find_named (tree_heap t) w cs = Some o ∧ ot_IsFolder o = true ∧ lists (d ++ [w]) (ot_Children o).
Proof.
  intros (ks & Hks & Hk) Hkn Hno. assert (Hw : inl w ∈ ks) by (rewrite Hk; apply elem_of_app; left; by apply list_elem_of_fmap_2, sub_dirs_spec).
  assert (Hin : ∀ k, k ∈ ks → match k with inl w => known fs (d ++ [w]) | inr f => f ∈ files_in fs d end).
  { intros k H. destruct k as [v|f]; [exact (lists_in _ _ _ _ Hks Hk H)|]. rewrite Hk in H. apply elem_of_app in H as [(? & ? & _)%list_elem_of_fmap|(g & [= <-] & Hg)%list_elem_of_fmap]; [done|exact Hg]. }
  clear Hk. induction Hks as [|c k cs ks Hc _ IH]; [by apply elem_of_nil in Hw|]. cbn [find_named]. pose proof (Hin k ltac:(left)) as Hkk. destruct k as [v|f]; cbn in Hc, Hkk.
  - destruct (child_node _ _ _ Hc Hkk) as (o & Ho & H1 & H2 & H3). rewrite Ho. case_bool_decide as E.
    + exists o. rewrite <- E, H2. rewrite H2 in *. done.
    + apply IH; [|intros k H; apply Hin; by right]. apply elem_of_cons in Hw as [[= <-]|Hw]; [done|done].
  - destruct Hc as [Hc _]. rewrite Hc, bool_decide_false by (by apply Hno). apply IH; [|intros k H; apply Hin; by right].
    by apply elem_of_cons in Hw as [?|?].
Qed.

Lemma find_none d cs w : lists d cs → ¬ known fs (d ++ [w]) → find_named (tree_heap t) w cs = None ∨ ∃ o, find_named (tree_heap t) w cs = Some o ∧ ot_IsFolder o = false.
Proof.
  intros (ks & Hks & Hk) Hkn.
  assert (Hin : ∀ k, k ∈ ks → match k with inl w => known fs (d ++ [w]) | inr f => sf_IsDir f = false end).
  { intros k H. pose proof (lists_in _ _ _ k Hks Hk H). destruct k; tauto. }
  clear Hk. induction Hks as [|c k cs ks Hc _ IH]; [by left|]. cbn [find_named]. pose proof (Hin k ltac:(left)) as Hkk. destruct k as [v|f]; cbn in Hc, Hkk.
  - destruct (child_node _ _ _ Hc Hkk) as (o & Ho & H1 & H2 & H3). rewrite Ho. rewrite bool_decide_false by congruence. apply IH. intros k H. apply Hin. by right.
  - destruct Hc as [Hc _]. rewrite Hc. case_bool_decide as E; [right; eexists; split; [done|]; cbn; by rewrite Hkk|].
    apply IH. intros k H. apply Hin. by right.
Qed.

(** No file has the path of a directory. *)
Hypothesis (Hcons : ∀ f, f ∈ fs → sf_IsDir f = false → ¬ known fs (entry_path f)).

Lemma no_file_named d w f : known fs (d ++ [w]) → f ∈ files_in fs d → sf_BaseName f ≠ w.
Proof.
  intros Hk ((Hf & Hd) & Hin)%list_elem_of_filter Ew. apply (Hcons f Hin Hf). destruct (proj1 (Forall_forall _ _) Hclean f Hin) as [_ Hlast]. specialize (Hlast Hf).
  unfold dir_of in Hd. rewrite Hf in Hd. destruct (entry_path_snoc f) as (l & v & E). rewrite E in *. rewrite last_snoc in Hlast. rewrite removelast_last in Hd. by simplify_eq.
Qed.

Lemma listing_some d w : known fs (d ++ [w]) → listing fs d ≠ [].
Proof. intros Hk%sub_dirs_spec. unfold listing. by destruct (sub_dirs fs d); [apply elem_of_nil in Hk|]. Qed.

Lemma lists_nil d cs : lists d cs → cs = [] ↔ listing fs d = [].
Proof.
  intros (ks & Hks & Hk). unfold listing. split.
  - intros ->. apply Forall2_nil_inv_l in Hks as ->. apply Permutation_nil_l in Hk. by rewrite <- Hk.
  - intros E%map_eq_nil. rewrite E in Hk. apply Permutation_nil_r in Hk as ->. by apply Forall2_nil_inv_r in Hks.
Qed.

Lemma descend_known rest : ∀ p cs, lists p cs → known fs (p ++ rest) → rest ≠ [] →
  if decide (listing fs (p ++ rest) = []) then descend_tree (tree_heap t) cs rest = inl (EWithMessage (ESentinel NotFolder) [])
  else ∃ cs', descend_tree (tree_heap t) cs rest = inr cs' ∧ lists (p ++ rest) cs'.
Proof.
  induction rest as [|w rest IH]; intros p cs Hls Hk Hne; [done|]. cbn [descend_tree]. rewrite cons_middle, app_assoc in *.
  assert (Hkw : known fs (p ++ [w])) by (eapply known_prefix; [exact Hk|by apply prefix_app_r]).
  destruct (find_dir p cs w Hls Hkw) as (o & -> & -> & Ho); [intros f Hf; by apply (no_file_named p)|]. cbn [negb orb]. destruct rest as [|v rest].
  - rewrite app_nil_r in *. case_decide as E.
    + by rewrite bool_decide_true by (by apply (lists_nil (p ++ [w]))).
    + rewrite bool_decide_false by (by rewrite (lists_nil (p ++ [w]))). cbn [descend_tree]. eauto.
  - rewrite bool_decide_false; [by apply IH|]. rewrite (lists_nil (p ++ [w])) by done. apply (listing_some _ v).
    eapply known_prefix; [exact Hk|]. exists rest. by rewrite <- !app_assoc.
Qed.

Lemma descend_unknown rest : ∀ p cs, lists p cs → known fs p → ¬ known fs (p ++ rest) → ∃ e, descend_tree (tree_heap t) cs rest = inl e.
Proof.
  induction rest as [|w rest IH]; intros p cs Hls Hp' Hk; [by rewrite app_nil_r in Hk|]. cbn [descend_tree]. rewrite cons_middle, app_assoc in Hk.
  destruct (decide (w ∈ sub_dirs fs p)) as [Hw|Hw]; rewrite sub_dirs_spec in Hw.
  - destruct (find_dir p cs w Hls Hw) as (o & -> & -> & Ho); [intros f Hf; by apply (no_file_named p)|]. cbn [negb orb]. case_bool_decide; [eauto|]. by eapply IH.
  - destruct (find_none p cs w Hls Hw) as [-> |(o & -> & ->)]; eauto.
Qed.
End listing.

Lemma TrimSuffix_dir_slash l : TrimSuffix (dir_slash l) #"/" = match l with [] => [] | _ => render l end.
Proof.
  assert (H : ∀ s, TrimSuffix (s ++ #"/") #"/" = s).
  { intros s. unfold TrimSuffix, HasSuffix. rewrite reverse_app, HasPrefix_app. rewrite length_app. cbn [length]. by rewrite take_app_length' by lia. }
  destruct l as [|w l]; [done|]. apply H.
Qed.

Lemma split_parts_render d : Forall norm_seg d → ∀ fuel parts, (length d ≤ fuel)%nat →
  split_parts (S fuel) (match d with [] => [] | _ => render d end) parts = d ++ parts.
Proof.
  induction d as [|w d IH] using rev_ind; intros Hd fuel parts Hf; [done|]. apply Forall_app in Hd as [Hd Hw]. destruct (Forall_inv Hw) as (Hne & _ & _ & Hns).
  assert (E : match d ++ [w] with [] => [] | _ => render (d ++ [w]) end = render (d ++ [w])) by (by destruct d). rewrite E. cbn [split_parts].
  rewrite path_Split_render, bool_decide_false, TrimSuffix_dir_slash by done. rewrite length_app in Hf. cbn in Hf. destruct fuel as [|fuel]; [lia|].
  rewrite IH by (done || lia). by rewrite <- app_assoc.
Qed.

Lemma splitPath_names d : Forall norm_seg d → op_splitPath (render d) = d.
Proof.
  intros Hd. destruct d as [|w d]; [done|]. unfold op_splitPath. pose proof (split_parts_render (w :: d) Hd (length (render (w :: d))) []) as H. cbn beta iota in H.
  rewrite H; [by rewrite app_nil_r|]. pose proof (rkey_length (w :: d) Hd) as Hl. unfold render. cbn [rkey length] in *. lia.
Qed.

(** C27. The tree of an archive, for an archive that has entries, whose paths are
    clean, in which no file has the path of a directory and each entry after
    the first lies in a known directory or one directly below: it is built
    without a panic or an endless loop, and looking up any directory in it
    lists exactly its subdirectories, each once, and its files with their sizes
    and times.  A path that is no directory of the archive is an error, and so
    is a directory without entries.  When an entry skips a level the directories
    in between are lost, and names that begin with two slashes make it panic
    (see [archive_tree_defects]). *)
Theorem archive_tree_exact (files : list SubFile) :
  files ≠ [] → Forall clean_entry files → parents_first files → (∀ f, f ∈ files → sf_IsDir f = false → ¬ known files (entry_path f)) →
  ∃ h tree, GenerateMetaTree files = Some (Ret (existsb sf_IsEncrypted files, h, tree)) ∧
    ∀ d, Forall norm_seg d →
      (known files d → listing files d ≠ [] → ∃ cs, getChildrenFromArchiveMeta h tree (render d) = inr cs ∧ map shown (omap (λ c, h !! c) cs) ≡ₚ listing files d) ∧
      (known files d → listing files d = [] → getChildrenFromArchiveMeta h tree (render d) = inl (EWithMessage (ESentinel NotFolder) [])) ∧
      (¬ known files d → ∃ e, getChildrenFromArchiveMeta h tree (render d) = inl e).
Proof.
  intros Hne Hc Hpf Hcons. destruct (add_entries_ok files [] _ represents_empty Hc Hpf) as (t & Et & reg & linked & placed & Hi & Hl & Hr & Hp). cbn [app] in Hr, Hp.
  pose proof (known_root files Hne) as Hroot. destruct (dir_node files t reg linked placed Hi Hl Hr Hp [] ltac:(done) Hroot) as (root & o & Hk & Ho & _ & Hls).
  exists (tree_heap t), (ot_Children o). split.
  { unfold GenerateMetaTree. rewrite Et, bool_decide_false; [|intros E; by rewrite E in Hk]. change #"." with (rkey []). rewrite Hk. unfold children_of. by rewrite Ho. }
  assert (Hnil : ot_Children o ≠ []).
  { rewrite (lists_nil files t [] _ Hls). destruct files as [|f fs]; [done|]. destruct (dir_of f) as [|w l] eqn:Ed.
    - unfold listing. assert (Hin : f ∈ files_in (f :: fs) []).
      { apply list_elem_of_filter. split; [|left]. split; [|done]. unfold dir_of in Ed. destruct (sf_IsDir f); [|done]. by apply Split_some in Ed. }
      destruct (files_in (f :: fs) []); [by apply elem_of_nil in Hin|]. by destruct (sub_dirs _ _).
    - apply (listing_some (f :: fs) [] w). exists f. split; [left|]. rewrite Ed. by exists l. }
  intros d Hd. unfold getChildrenFromArchiveMeta. rewrite bool_decide_false, splitPath_names by done. destruct (decide (d = [])) as [->|Hdn].
  - cbn [descend_tree]. split; [|split].
    + intros _ _. eexists. split; [done|]. by eapply lists_shown.
    + intros _ E. by apply (lists_nil files t [] _ Hls) in E.
    + done.
  - split; [|split].
    + intros Hkd Hlt. pose proof (descend_known files t reg linked placed Hi Hl Hr Hp Hc Hcons d [] _ Hls Hkd Hdn) as H. rewrite decide_False in H by done.
      destruct H as (cs & E & Hcs). exists cs. split; [done|]. by eapply lists_shown.
    + intros Hkd Hlt. pose proof (descend_known files t reg linked placed Hi Hl Hr Hp Hc Hcons d [] _ Hls Hkd Hdn) as H. by rewrite decide_True in H.
    + intros Hkd. by apply (descend_unknown files t reg linked placed Hi Hl Hr Hp Hc Hcons d []).
Qed.

(** ** Some archives *)

Module TreeExample.
Definition entry (name : gostr) (isdir : bool) (size : Z) : SubFile :=
  {| sf_Name := name; sf_IsDir := isdir; sf_IsRegular := negb isdir; sf_BaseName := path_Base name; sf_Size := size; sf_ModTime := 7;
     sf_IsEncrypted := false; sf_Open := λ _, inr {| pieces := []; ends := None |} |}.
Definition files : list SubFile := [entry #"docs/" true 0; entry #"docs/a.txt" false 5; entry #"c" false 1; entry #"docs/sub/b.txt" false 4].

#[local] Instance known_dec fs d : Decision (known fs d).
Proof.
  refine (cast_if (decide (Exists (λ f, d `prefix_of` dir_of f) fs))); unfold known; rewrite <- Exists_exists; done.
Defined.

Lemma files_parents_first : parents_first files.
Proof.
  intros a f b E. destruct a as [|f1 a]; [by left|right]. unfold files in E. injection E as <- E. exists (entry #"docs/" true 0). split; [left|].
  destruct a as [|f2 [|f3 [|f4 a]]]; [injection E as <- _; by exists [ #"docs"]|injection E as _ <- _; by exists [ #"docs"]|injection E as _ _ <- _; by exists []|].
  by destruct a.
Qed.

(** The listing of a directory, if there is a tree. *)
Definition list_dir (fs : list SubFile) (path : gostr) : option (outcome (result (list (gostr * bool * Z * Z)))) :=
  match GenerateMetaTree fs with
  | Some (Ret (_, h, tree)) =>
      Some (Ret (match getChildrenFromArchiveMeta h tree path with inr cs => inr (map shown (omap (λ c, h !! c) cs)) | inl e => inl e end))
  | Some Panic => Some Panic
  | None => None
  end.

(** [archive_tree_exact] on an archive, of which the directories [docs] and [docs/sub] are listed. *)
Lemma archive_tree_exact_witness :
  ∃ h tree, GenerateMetaTree files = Some (Ret (false, h, tree)) ∧
    (∃ cs, getChildrenFromArchiveMeta h tree #"/docs" = inr cs ∧ map shown (omap (λ c, h !! c) cs) ≡ₚ listing files [ #"docs"]) ∧
    (∃ e, getChildrenFromArchiveMeta h tree #"/docs/a.txt" = inl e) ∧
    listing files [ #"docs"] = [( #"sub", true, 0, 0); ( #"a.txt", false, 5, 7)].
Proof.
  destruct (archive_tree_exact files) as (h & tree & E & H).
  - done.
  - decide_now.
  - exact files_parents_first.
  - intros f Hf Hd. assert (Hall : Forall (λ f, sf_IsDir f = false → ¬ known files (entry_path f)) files) by decide_now.
    exact (proj1 (Forall_forall _ _) Hall f Hf Hd).
  - exists h, tree. split; [exact E|]. split; [|split].
    + apply (H [ #"docs"]); [decide_now|decide_now|by vm_compute].
    + apply (H [ #"docs"; #"a.txt"]); decide_now.
    + vm_compute. reflexivity.
Defined.

(** The directory of a file is lost when the root is known and the directory
    above is new: the loop over the parents stops before it is added. A name
    that begins with two slashes is below no root, and a nil pointer is used. *)
Lemma archive_tree_defects :
  list_dir [entry #"r.txt" false 1; entry #"a/b/y.txt" false 2] #"/" = Some (Ret (inr [( #"r.txt", false, 1, 7)])) ∧
  listing [entry #"r.txt" false 1; entry #"a/b/y.txt" false 2] [] = [( #"a", true, 0, 0); ( #"r.txt", false, 1, 7)] ∧
  list_dir [entry #"//x" false 1] #"/" = Some Panic ∧
  list_dir [entry #"empty/" true 0] #"/empty" = Some (Ret (inl (EWithMessage (ESentinel NotFolder) []))).
Proof. vm_compute. repeat split. Qed.
End TreeExample.
