(* ===== verification/Sessions.v ===== *)
(** * Device sessions: [internal/device/session.go], [internal/db/session.go],
      [pkg/utils/mask.go] and the handlers of [server/handles/session.go]

    Every device a user works from has a session; an administrator may limit
    the number of active ones.  The table is the interface [SessionTable]:
    GORM queries with a condition on the rows. *)

From S2P Require Import Prelude GoStrings Errs Store.

Local Open Scope Z_scope.

(** ** Data *)

Definition Session_Active : Z := 0.
Definition Session_Inactive : Z := 1.

Record Session := {
  s_UserID : Z;
  s_DeviceKey : gostr;
  s_UserAgent : gostr;
  s_IP : gostr;
  s_LastActive : Z;
  s_Status : Z;
}.

Definition set_s_Status (v : Z) (s : Session) : Session :=
  {| s_UserID := s_UserID s; s_DeviceKey := s_DeviceKey s; s_UserAgent := s_UserAgent s;
     s_IP := s_IP s; s_LastActive := s_LastActive s; s_Status := v |}.
Definition set_s_LastActive (v : Z) (s : Session) : Session :=
  {| s_UserID := s_UserID s; s_DeviceKey := s_DeviceKey s; s_UserAgent := s_UserAgent s;
     s_IP := s_IP s; s_LastActive := v; s_Status := s_Status s |}.

(** [sess.Status = ...; sess.LastActive = ...; sess.UserAgent = ...; sess.IP = ...] *)
Definition refresh_session (now : Z) (ua ip : gostr) (s : Session) : Session :=
  {| s_UserID := s_UserID s; s_DeviceKey := s_DeviceKey s; s_UserAgent := ua;
     s_IP := ip; s_LastActive := now; s_Status := Session_Active |}.

Definition new_session (userID : Z) (deviceKey ua ip : gostr) (now : Z) : Session :=
  {| s_UserID := userID; s_DeviceKey := deviceKey; s_UserAgent := ua; s_IP := ip;
     s_LastActive := now; s_Status := Session_Active |}.

(** ** The table *)

(** [q_First] takes the condition and, for an ordered query, the column. *)
Class SessionTable := {
  stable : Type;
  s_rows : stable → gmap gostr Session;
  q_First : (Session → bool) → option (Session → Z) → stable → result Session;
  q_Count : (Session → bool) → stable → result Z;
  q_Find : (Session → bool) → stable → result (list Session);
  q_Create : Session → stable → result stable;
  q_Upsert : Session → stable → result stable;
  q_Update : (Session → bool) → (Session → Session) → stable → result stable;
  q_Delete : (Session → bool) → stable → result stable;
}.

(** Queries answer what the rows say, and a write that succeeds does what it
    says; any write may fail, which leaves the table as it was. *)
Class SessionLaws `{ST : SessionTable} : Prop := {
  s_keyed t : map_Forall (λ k s, s_DeviceKey s = k) (s_rows t);
  q_First_some p o t s : q_First p o t = inr s →
    s_rows t !! s_DeviceKey s = Some s ∧ p s = true ∧
    (∀ col k s', o = Some col → s_rows t !! k = Some s' → p s' = true → col s ≤ col s');
  q_First_none p o t e : q_First p o t = inl e → errors_Is e ErrRecordNotFound = true →
    ∀ k s, s_rows t !! k = Some s → p s = false;
  q_Count_spec p t n : q_Count p t = inr n →
    n = Z.of_nat (size (filter (λ ks, p ks.2 = true) (s_rows t)));
  q_Find_spec p t l : q_Find p t = inr l →
    l ≡ₚ (map_to_list (filter (λ ks, p ks.2 = true) (s_rows t))).*2;
  q_Create_spec s t t' : q_Create s t = inr t' →
    s_rows t !! s_DeviceKey s = None ∧ s_rows t' = <[s_DeviceKey s := s]> (s_rows t);
  q_Upsert_spec s t t' : q_Upsert s t = inr t' → s_rows t' = <[s_DeviceKey s := s]> (s_rows t);
  q_Update_spec p f t t' : q_Update p f t = inr t' →
    s_rows t' = (λ s, if p s then f s else s) <$> s_rows t;
  q_Delete_spec p t t' : q_Delete p t = inr t' →
    s_rows t' = filter (λ ks, p ks.2 = false) (s_rows t);
}.

Section sessions.
Context {ST : SessionTable}.

(** *** Package [db] *)

(** [Where(&s)] leaves zero fields out of the condition. *)
Definition where_session (userID : Z) (deviceKey : gostr) (s : Session) : bool :=
  ((userID =? 0) || (s_UserID s =? userID)) &&
  (bool_decide (deviceKey = #"") || bool_decide (s_DeviceKey s = deviceKey)).

Definition is_row (userID : Z) (deviceKey : gostr) (s : Session) : bool :=
  (s_UserID s =? userID) && bool_decide (s_DeviceKey s = deviceKey).

Definition is_active (userID : Z) (s : Session) : bool :=
  (s_UserID s =? userID) && (s_Status s =? Session_Active).

Definition GetSession (userID : Z) (deviceKey : gostr) (t : stable) : result Session :=
  match q_First (where_session userID deviceKey) None t with
  | inl e => inl (EWithMessage e #"failed find session")
  | inr s => inr s
  end.

Definition stacked {A} (r : result A) : result A :=
  match r with inl e => inl (EWithMessage e []) | inr a => inr a end.

Definition CreateSession (s : Session) : Op stable unit := op_exec (λ t, stacked (q_Create s t)).
Definition UpsertSession (s : Session) : Op stable unit := op_exec (λ t, stacked (q_Upsert s t)).
Definition DeleteSession (userID : Z) (deviceKey : gostr) : Op stable unit :=
  op_exec (λ t, stacked (q_Delete (is_row userID deviceKey) t)).
Definition CountActiveSessionsByUser (userID : Z) (t : stable) : result Z :=
  stacked (q_Count (is_active userID) t).
Definition DeleteSessionsBefore (ts : Z) : Op stable unit :=
  op_exec (λ t, stacked (q_Delete (λ s, s_LastActive s <? ts) t)).
Definition GetOldestActiveSession (userID : Z) (t : stable) : result Session :=
  match q_First (is_active userID) (Some s_LastActive) t with
  | inl e => inl (EWithMessage e #"failed get oldest active session")
  | inr s => inr s
  end.
Definition UpdateSessionLastActive (userID : Z) (deviceKey : gostr) (lastActive : Z) : Op stable unit :=
  op_exec (λ t, stacked (q_Update (is_row userID deviceKey) (set_s_LastActive lastActive) t)).
Definition ListSessionsByUser (userID : Z) (t : stable) : result (list Session) :=
  stacked (q_Find (is_active userID) t).
Definition db_ListSessions (t : stable) : result (list Session) :=
  stacked (q_Find (λ s, s_Status s =? Session_Active) t).
Definition MarkInactive (sessionID : gostr) : Op stable unit :=
  op_exec (λ t, stacked (q_Update (λ s, bool_decide (s_DeviceKey s = sessionID)) (set_s_Status Session_Inactive) t)).

(** *** [pkg/utils/mask.go] *)

(** The segments between the first and the last one. *)
Fixpoint mask_middle (keep_empty : bool) (parts : list gostr) : list gostr :=
  match parts with
  | [] | [_] => parts
  | p :: ps => (if keep_empty && bool_decide (p = #"") then p else #"*") :: mask_middle keep_empty ps
  end.

Definition mask_parts (keep_empty : bool) (parts : list gostr) : list gostr :=
  match parts with [] => [] | p :: ps => p :: mask_middle keep_empty ps end.

Definition MaskIP (ip : gostr) : gostr :=
  if bool_decide (ip = #"") then #""
  else if Contains ip #":" then
    let parts := Split ":" ip in
    if (2 <? length parts)%nat then Join #":" (mask_parts true parts) else ip
  else
    let parts := Split "." ip in
    if (length parts =? 4)%nat then Join #"." (mask_parts false parts) else ip.

(** *** Package [device] *)

(** The settings [DeviceSessionTTL], [MaxDevices] and [DeviceEvictPolicy]. *)
Context (ttl max : Z) (policy : gostr).

(** Make room for one more active session, or refuse. *)
Definition limit_devices (userID : Z) : Op stable unit :=
  if 0 <? max then
    let* count := op_query (CountActiveSessionsByUser userID) in
    if max <=? count then
      if bool_decide (policy = #"evict_oldest") then
        let* oldest := op_gets (GetOldestActiveSession userID) in
        match oldest with
        | inr s => MarkInactive (s_DeviceKey s)
        | inl _ => op_ret ()
        end
      else op_fail (EWithMessage (ESentinel TooManyDevices) [])
    else op_ret ()
  else op_ret ().

(** The error of the clean-up is ignored. *)
Definition purge (now : Z) : Op stable unit :=
  λ t, if 0 <? ttl then (inr (), (DeleteSessionsBefore (wrap64 (now - ttl)) t).2) else (inr (), t).

(** [now0] and [now] are the two readings of the clock. *)
Definition Handle (now0 now userID : Z) (deviceKey ua ip : gostr) : Op stable unit :=
  let* _ := purge now0 in
  let ip := MaskIP ip in
  let* found := op_gets (GetSession userID deviceKey) in
  match found with
  | inr sess =>
      if s_Status sess =? Session_Inactive then op_fail (EWithMessage (ESentinel SessionInactive) [])
      else UpsertSession (refresh_session now ua ip sess)
  | inl e =>
      if negb (errors_Is e ErrRecordNotFound) then op_fail e
      else
        let* _ := limit_devices userID in
        CreateSession (new_session userID deviceKey ua ip now)
  end.

(** Used by the login only: an inactive session is activated again. *)
Definition EnsureActiveOnLogin (now userID : Z) (deviceKey ua ip : gostr) : Op stable unit :=
  let ip := MaskIP ip in
  let* found := op_gets (GetSession userID deviceKey) in
  match found with
  | inr sess =>
      let* _ := (if s_Status sess =? Session_Inactive then limit_devices userID else op_ret ()) in
      UpsertSession (refresh_session now ua ip sess)
  | inl e =>
      if negb (errors_Is e ErrRecordNotFound) then op_fail e
      else
        let* _ := limit_devices userID in
        CreateSession (new_session userID deviceKey ua ip now)
  end.

Definition device_Refresh (now userID : Z) (deviceKey : gostr) : Op stable unit :=
  λ t, (inr (), (UpdateSessionLastActive userID deviceKey now t).2).

(** *** [server/handles/session.go]: the status of the response *)

Definition EvictMySession (userID : Z) (sessionID : gostr) : Op stable Z :=
  λ t, match GetSession userID sessionID t with
       | inl _ => (inr 400, t)
       | inr _ =>
           match MarkInactive sessionID t with
           | (inl _, t) => (inr 500, t)
           | (inr _, t) => (inr 200, t)
           end
       end.

Definition EvictSession (sessionID : gostr) : Op stable Z :=
  λ t, match MarkInactive sessionID t with
       | (inl _, t) => (inr 500, t)
       | (inr _, t) => (inr 200, t)
       end.
End sessions.

(** ** The number of active sessions *)

Section limit.
Context {ST : SessionTable} {SL : SessionLaws}.

(** The query for the oldest session fails only where there is none: on any
    other failure [limit_devices] makes no room and lets the device in. *)
Definition oldest_found : Prop :=
  ∀ p col t e, q_First p (Some col) t = inl e → errors_Is e ErrRecordNotFound = true.
Context (Holdest : oldest_found).

Definition active_rows (u : Z) (m : gmap gostr Session) : gmap gostr Session :=
  filter (λ ks, is_active u ks.2 = true) m.

Definition active_count (u : Z) (t : stable) : Z := Z.of_nat (size (active_rows u (s_rows t))).

(** Writes of one row. *)
Lemma active_insert_same u k s m :
  m !! k = None → is_active u s = true → size (active_rows u (<[k := s]> m)) = S (size (active_rows u m)).
Proof.
  intros Hk Hs. unfold active_rows. rewrite map_filter_insert_True by done.
  apply map_size_insert_None. apply map_lookup_filter_None. by left.
Qed.

Lemma active_insert_none u k s m :
  is_active u s = false → (size (active_rows u (<[k := s]> m)) ≤ size (active_rows u m))%nat.
Proof.
  intros Hs. unfold active_rows. rewrite map_filter_insert_False by (simpl; congruence).
  apply map_subseteq_size, map_filter_subseteq_mono, delete_subseteq.
Qed.

Lemma active_insert_le u k s m :
  (size (active_rows u (<[k := s]> m)) ≤ S (size (active_rows u m)))%nat.
Proof.
  destruct (is_active u s) eqn:E.
  - unfold active_rows. rewrite map_filter_insert_True by done. rewrite map_size_insert. case_match; simpl; lia.
  - pose proof (active_insert_none u k s m E). lia.
Qed.

(** Replacing an active row of the user keeps the number. *)
Lemma active_replace u k s s0 m :
  m !! k = Some s0 → (is_active u s = true → is_active u s0 = true) →
  (size (active_rows u (<[k := s]> m)) ≤ size (active_rows u m))%nat.
Proof.
  intros Hk Hs. destruct (is_active u s) eqn:E; [|by apply active_insert_none].
  unfold active_rows. rewrite map_filter_insert_True by done.
  rewrite map_size_insert_Some; [done|]. exists s0. apply map_lookup_filter_Some. auto.
Qed.

Lemma active_filter u (P : gostr * Session → Prop) `{!∀ x, Decision (P x)} m :
  (size (active_rows u (filter P m)) ≤ size (active_rows u m))%nat.
Proof. apply map_subseteq_size, map_filter_subseteq_mono, map_filter_subseteq. Qed.

(** An update that never makes a row active. *)
Lemma active_fmap u (f : Session → Session) m :
  (∀ s, is_active u (f s) = true → is_active u s = true) →
  (size (active_rows u (f <$> m)) ≤ size (active_rows u m))%nat.
Proof.
  intros Hf. rewrite <- (map_size_fmap f (active_rows u m)). apply map_subseteq_size. unfold active_rows.
  apply map_subseteq_spec. intros k s [Hk Hs]%map_lookup_filter_Some.
  rewrite lookup_fmap in Hk. apply fmap_Some in Hk as (s0&Hk&->).
  rewrite lookup_fmap. apply fmap_Some. exists s0. split; [|done]. apply map_lookup_filter_Some. auto.
Qed.

(** Marking an active session of the user lowers the number by one. *)
Lemma active_mark u k s m :
  map_Forall (λ k s, s_DeviceKey s = k) m → m !! k = Some s → is_active u s = true →
  S (size (active_rows u ((λ s, if bool_decide (s_DeviceKey s = k) then set_s_Status Session_Inactive s else s) <$> m)))
  = size (active_rows u m).
Proof.
  intros Hm Hk Hs.
  assert (active_rows u ((λ s, if bool_decide (s_DeviceKey s = k) then set_s_Status Session_Inactive s else s) <$> m)
          = delete k (active_rows u m)) as ->.
  { apply map_eq. intros j. destruct (decide (j = k)) as [->|Hj].
    - rewrite lookup_delete_eq. apply map_lookup_filter_None. right. intros s' Hs'.
      rewrite lookup_fmap, Hk in Hs'. simpl in Hs'. rewrite bool_decide_true in Hs' by by apply Hm in Hk.
      injection Hs' as <-. simpl. unfold is_active. simpl. by rewrite andb_false_r.
    - rewrite lookup_delete_ne by done. unfold active_rows. rewrite !map_lookup_filter, lookup_fmap.
      destruct (m !! j) as [s'|] eqn:E; [|done]. simpl.
      rewrite bool_decide_false; [done|]. apply Hm in E. congruence. }
  rewrite map_size_delete_Some by (exists s; by apply map_lookup_filter_Some).
  assert (size (active_rows u m) ≠ 0%nat); [|lia]. apply map_size_ne_0_lookup. exists k, s.
  by apply map_lookup_filter_Some.
Qed.

(** *** The operations *)

Definition status_ok (t : stable) : Prop :=
  map_Forall (λ _ s, s_Status s = Session_Active ∨ s_Status s = Session_Inactive) (s_rows t).

Lemma stacked_inr {A} (r : result A) a : stacked r = inr a → r = inr a.
Proof. destruct r; simpl; [done|]. by intros [= ->]. Qed.

(** A write either fails and changes nothing, or did what it says. *)
Lemma exec_cases (f : stable → result stable) t :
  (∃ e, op_exec (λ t, stacked (f t)) t = (inl e, t)) ∨
  (∃ t', f t = inr t' ∧ op_exec (λ t, stacked (f t)) t = (inr (), t')).
Proof. unfold op_exec. destruct (f t) eqn:E; simpl; eauto. Qed.

Lemma is_active_set u v s : is_active u (set_s_Status v s) = true → v = Session_Active.
Proof. unfold is_active. intros [_ H]%andb_prop. simpl in H. by apply Z.eqb_eq in H. Qed.

(** Operations that never make a session active. *)
Definition lowers {A} (m : Op stable A) : Prop :=
  ∀ t, (∀ u, active_count u (m t).2 ≤ active_count u t) ∧ (status_ok t → status_ok (m t).2).

Lemma lowers_update p f :
  (∀ s, f s = set_s_Status Session_Inactive s ∨ s_Status (f s) = s_Status s ∧ s_UserID (f s) = s_UserID s) →
  lowers (op_exec (λ t, stacked (q_Update p f t))).
Proof.
  intros Hf t. destruct (exec_cases (q_Update p f) t) as [[e ->]|(t'&E&->)]; [split; [done|done]|].
  apply q_Update_spec in E. simpl. split.
  - intros u. unfold active_count. rewrite E. apply Nat2Z.inj_le, active_fmap. intros s.
    destruct (p s); [|done]. destruct (Hf s) as [->|[H1 H2]]; [by intros ?%is_active_set|].
    unfold is_active. by rewrite H1, H2.
  - intros Hs. unfold status_ok. rewrite E. apply map_Forall_fmap. intros k s Hk. simpl.
    specialize (Hs k s Hk). destruct (p s); [|done]. destruct (Hf s) as [->|[-> _]]; [by right|done].
Qed.

Lemma lowers_delete p : lowers (op_exec (λ t, stacked (q_Delete p t))).
Proof.
  intros t. destruct (exec_cases (q_Delete p) t) as [[e ->]|(t'&E&->)]; [split; [done|done]|].
  apply q_Delete_spec in E. simpl. unfold active_count, status_ok. rewrite E. split.
  - intros u. apply Nat2Z.inj_le, active_filter.
  - intros Hs k s [Hk _]%map_lookup_filter_Some. by apply (Hs k).
Qed.

Lemma lowers_MarkInactive k : lowers (MarkInactive k).
Proof. apply lowers_update. auto. Qed.

Lemma lowers_Refresh now u k : lowers (device_Refresh now u k).
Proof.
  intros t. unfold device_Refresh. apply (lowers_update (is_row u k) (set_s_LastActive now)). auto.
Qed.

Lemma lowers_purge ttl now : lowers (purge ttl now).
Proof. intros t. unfold purge. destruct (0 <? ttl); [|done]. apply (lowers_delete _ t). Qed.

(** After [limit_devices] there is room for one more session of the user, or
    one fewer than before. *)
Lemma limit_devices_ok max policy u t :
  let '(r, t') := limit_devices max policy u t in
  (∀ v, active_count v t' ≤ active_count v t) ∧ (status_ok t → status_ok t') ∧
  (0 < max → r = inr () → active_count u t' < Z.max (active_count u t) max) ∧
  (∀ k, s_rows t !! k = None → s_rows t' !! k = None) ∧
  (∀ k s, s_rows t !! k = Some s → s_Status s = Session_Inactive → s_rows t' !! k = Some s).
Proof.
  unfold limit_devices. destruct (Z.ltb_spec 0 max) as [Hm|Hm]; [|simpl; split_ands; done || (intros; lia)].
  unfold op_bind, op_query, op_gets, CountActiveSessionsByUser.
  destruct (q_Count (is_active u) t) as [e|n] eqn:En; [by split_ands|]. simpl.
  apply q_Count_spec in En. fold (active_rows u (s_rows t)) in En. change (n = active_count u t) in En.
  destruct (Z.leb_spec max n) as [Hn|Hn]; [|simpl; split_ands; done || (intros; lia)].
  case_bool_decide; [|by split_ands].
  unfold GetOldestActiveSession. destruct (q_First (is_active u) _ t) as [e|s] eqn:Ef.
  { exfalso. pose proof (q_First_none _ _ _ _ Ef (Holdest _ _ _ _ Ef)) as Hno.
    assert (active_rows u (s_rows t) = ∅) as Hem.
    { apply map_empty. intros k. apply map_lookup_filter_None. right. intros s' Hs'. simpl.
      by rewrite (Hno k s' Hs'). }
    unfold active_count in En. rewrite Hem, map_size_empty in En. lia. }
  apply q_First_some in Ef as (Hs&Ha&_).
  destruct (lowers_MarkInactive (s_DeviceKey s) t) as [Hl1 Hl2].
  unfold MarkInactive in *.
  destruct (exec_cases (q_Update (λ s', bool_decide (s_DeviceKey s' = s_DeviceKey s)) (set_s_Status Session_Inactive)) t)
    as [[e E]|(t'&E1&E)]; rewrite E in *; simpl in *; split_ands; try done.
  - intros _ _. apply q_Update_spec in E1. unfold active_count in *. rewrite E1.
    pose proof (active_mark u _ s _ (s_keyed t) Hs Ha). lia.
  - intros k Hk. apply q_Update_spec in E1. by rewrite E1, lookup_fmap, Hk.
  - intros k s' Hk Hi. apply q_Update_spec in E1. rewrite E1, lookup_fmap, Hk. simpl. f_equal.
    case_bool_decide; [|done]. destruct s'; simpl in *. by rewrite Hi.
Qed.

(** The bound an operation on behalf of [u] keeps. *)
Definition within (max : Z) (t t' : stable) : Prop :=
  status_ok t' ∧ ∀ v, active_count v t' ≤ Z.max (active_count v t) max.

Definition limits (max : Z) {A} (m : Op stable A) : Prop :=
  ∀ t, status_ok t → within max t (m t).2.

Lemma within_trans max t1 t2 t3 : within max t1 t2 → within max t2 t3 → within max t1 t3.
Proof. intros [_ H1] [Hs H2]. split; [done|]. intros v. specialize (H1 v). specialize (H2 v). lia. Qed.

Lemma within_refl max t : status_ok t → within max t t.
Proof. intros Ht. split; [done|]. intros v. lia. Qed.

Lemma lowers_limits max {A} (m : Op stable A) : lowers m → limits max m.
Proof. intros Hm t Hs. destruct (Hm t) as [H1 H2]. split; [auto|]. intros v. specialize (H1 v). lia. Qed.

Lemma status_ok_insert s t t' :
  s_rows t' = <[s_DeviceKey s := s]> (s_rows t) → s_Status s = Session_Active → status_ok t → status_ok t'.
Proof. intros E Hs Ht. unfold status_ok. rewrite E. apply map_Forall_insert_2; [by left|done]. Qed.

(** Creating a session where there is room. *)
Lemma create_limits max policy u k ua ip now t :
  0 < max → status_ok t →
  within max t ((let* _ := limit_devices max policy u in CreateSession (new_session u k ua ip now)) t).2.
Proof.
  intros Hm Hs. unfold within, op_bind. pose proof (limit_devices_ok max policy u t) as H.
  destruct (limit_devices max policy u t) as [[e|[]] t1]; destruct H as (H1&H2&H3&H4&_); simpl.
  { split; [auto|]. intros v. specialize (H1 v). lia. }
  unfold CreateSession. set (s := new_session u k ua ip now).
  destruct (exec_cases (q_Create s) t1) as [[e ->]|(t2&E&->)]; simpl.
  { split; [auto|]. intros v. specialize (H1 v). lia. }
  apply q_Create_spec in E as [_ E]. split; [by eapply status_ok_insert; [..|auto]|].
  intros v. specialize (H1 v). unfold active_count in *. rewrite E.
  destruct (decide (v = u)) as [->|Hv].
  - specialize (H3 Hm eq_refl). pose proof (active_insert_le u (s_DeviceKey s) s (s_rows t1)). lia.
  - assert (is_active v s = false) as Hi.
    { unfold is_active, s. simpl. rewrite (proj2 (Z.eqb_neq u v)) by done. done. }
    pose proof (active_insert_none v (s_DeviceKey s) s (s_rows t1) Hi). lia.
Qed.

(** Refreshing the session of the request, which is active or has room. *)
Lemma upsert_limits max now ua ip s t0 t :
  within max t0 t → s_rows t !! s_DeviceKey s = Some s →
  (s_Status s = Session_Inactive → active_count (s_UserID s) t < Z.max (active_count (s_UserID s) t0) max) →
  within max t0 (UpsertSession (refresh_session now ua ip s) t).2.
Proof.
  intros [Hs HB] Hk Hroom. unfold UpsertSession. set (s' := refresh_session now ua ip s).
  destruct (exec_cases (q_Upsert s') t) as [[e ->]|(t2&E&->)]; simpl; [done|].
  apply q_Upsert_spec in E. split; [by eapply status_ok_insert|].
  intros v. specialize (HB v). unfold active_count in *. rewrite E.
  destruct (decide (s_Status s = Session_Inactive ∧ v = s_UserID s)) as [[Hi ->]|Hn].
  - specialize (Hroom Hi). pose proof (active_insert_le (s_UserID s) (s_DeviceKey s') s' (s_rows t)). lia.
  - assert (is_active v s' = true → is_active v s = true) as Ha.
    { unfold is_active, s'. simpl. rewrite andb_true_r. intros Hv. rewrite Hv.
      apply Z.eqb_eq in Hv. destruct (Hs _ _ Hk) as [->|Hi]; [done|]. by destruct Hn. }
    pose proof (active_replace v (s_DeviceKey s') s' s (s_rows t) Hk Ha). simpl in *. lia.
Qed.

Lemma GetSession_cases u k t :
  u ≠ 0 →
  match GetSession u k t with
  | inr s => s_rows t !! s_DeviceKey s = Some s ∧ s_UserID s = u ∧ (k = #"" ∨ s_DeviceKey s = k)
  | inl e => errors_Is e ErrRecordNotFound = true → k ≠ #"" → ∀ s, s_rows t !! k = Some s → s_UserID s ≠ u
  end.
Proof.
  intros Hu. unfold GetSession. destruct (q_First _ _ t) as [e|s] eqn:E.
  - intros He Hk s Hs Hus. pose proof (q_First_none _ _ _ _ E He k s Hs) as Hno.
    unfold where_session in Hno. rewrite (proj2 (Z.eqb_eq _ _) Hus), orb_true_r in Hno.
    rewrite (bool_decide_true (s_DeviceKey s = k)), orb_true_r in Hno; [done|]. by apply (s_keyed t).
  - apply q_First_some in E as (Hs&Hw&_). unfold where_session in Hw. apply andb_prop in Hw as [H1 H2].
    split_ands; [done| |].
    + apply orb_prop in H1 as [H1|H1]; by apply Z.eqb_eq in H1.
    + apply orb_prop in H2 as [H2|H2]; apply bool_decide_eq_true in H2; auto.
Qed.

Section steps.
Context (ttl max : Z) (policy : gostr) (Hmax : 0 < max).

Lemma Handle_limits now0 now u k ua ip :
  u ≠ 0 → limits max (Handle ttl max policy now0 now u k ua ip).
Proof.
  intros Hu t Ht. unfold Handle, op_bind at 1.
  pose proof (lowers_limits max _ (lowers_purge ttl now0) t Ht) as Hp. destruct (purge ttl now0 t) as [r t1] eqn:Ep.
  assert (r = inr ()) as -> by (unfold purge in Ep; destruct (0 <? ttl); by injection Ep as <- <-).
  simpl in Hp. cbv zeta. unfold op_bind at 1, op_gets.
  pose proof (GetSession_cases u k t1 Hu) as Hg. destruct (GetSession u k t1) as [e|s].
  - destruct (errors_Is e ErrRecordNotFound); cbn [negb]; [|exact Hp].
    eapply within_trans; [exact Hp|]. apply create_limits; [done|apply Hp].
  - destruct Hg as (Hs&Hus&_). destruct (Z.eqb_spec (s_Status s) Session_Inactive) as [Hi|Hi]; [exact Hp|].
    by apply upsert_limits.
Qed.

Lemma Login_limits now u k ua ip :
  u ≠ 0 → limits max (EnsureActiveOnLogin max policy now u k ua ip).
Proof.
  intros Hu t Ht. unfold EnsureActiveOnLogin. cbv zeta. unfold op_bind at 1, op_gets.
  pose proof (GetSession_cases u k t Hu) as Hg. destruct (GetSession u k t) as [e|s].
  - destruct (errors_Is e ErrRecordNotFound); cbn [negb]; [by apply create_limits|by apply within_refl].
  - destruct Hg as (Hs&Hus&_). unfold op_bind.
    destruct (Z.eqb_spec (s_Status s) Session_Inactive) as [Hi|Hi].
    + pose proof (limit_devices_ok max policy u t) as H.
      destruct (limit_devices max policy u t) as [[e|[]] t1]; destruct H as (H1&H2&H3&_&H5);
        (assert (within max t t1) as Hw by (split; [auto|]; intros v; specialize (H1 v); lia)); [exact Hw|].
      apply upsert_limits; [done|by apply H5|]. intros _. rewrite Hus. by apply H3.
    + apply upsert_limits; [by apply within_refl|done|done].
Qed.

(** What happens to the table while the limit is [max]: requests, logins,
    refreshes, evictions by a user or the administrator
    (a logout marks its session the same way), and deletions. *)
Inductive session_step : stable → stable → Prop :=
  | step_handle now0 now u k ua ip t : u ≠ 0 →
      session_step t (Handle ttl max policy now0 now u k ua ip t).2
  | step_login now u k ua ip t : u ≠ 0 → session_step t (EnsureActiveOnLogin max policy now u k ua ip t).2
  | step_refresh now u k t : session_step t (device_Refresh now u k t).2
  | step_evict_mine u k t : session_step t (EvictMySession u k t).2
  | step_evict k t : session_step t (EvictSession k t).2
  | step_delete u k t : session_step t (DeleteSession u k t).2.

Lemma lowers_EvictSession k : lowers (EvictSession k).
Proof.
  intros t. unfold EvictSession. pose proof (lowers_MarkInactive k t) as H.
  destruct (MarkInactive k t) as [[e|[]] t']; exact H.
Qed.

Lemma lowers_EvictMySession u k : lowers (EvictMySession u k).
Proof.
  intros t. unfold EvictMySession. destruct (GetSession u k t); [done|].
  pose proof (lowers_MarkInactive k t) as H. destruct (MarkInactive k t) as [[e'|[]] t']; exact H.
Qed.

Lemma session_step_limits t t' : session_step t t' → status_ok t → within max t t'.
Proof.
  intros [????????|???????|????|???|??|???] Ht.
  - by apply Handle_limits.
  - by apply Login_limits.
  - by apply (lowers_limits max _ (lowers_Refresh _ _ _)).
  - by apply (lowers_limits max _ (lowers_EvictMySession _ _)).
  - by apply (lowers_limits max _ (lowers_EvictSession _)).
  - by apply (lowers_limits max _ (lowers_delete _)).
Qed.

Lemma session_steps_limits t t' : rtc session_step t t' → status_ok t → within max t t'.
Proof.
  induction 1 as [t|t t1 t2 H1 _ IH]; intros Ht; [by apply within_refl|].
  pose proof (session_step_limits _ _ H1 Ht) as Hw. eapply within_trans; [exact Hw|]. apply IH, Hw.
Qed.
End steps.
End limit.

(** ** An evicted device *)

Section evicted.
Context {ST : SessionTable} {SL : SessionLaws} (Holdest : oldest_found).

(** The row is inactive and recent enough to survive the clean-up. *)
Definition evicted (ttl now0 : Z) (k : gostr) (s : Session) (t : stable) : Prop :=
  s_rows t !! k = Some s ∧ s_Status s = Session_Inactive ∧ (0 < ttl → wrap64 (now0 - ttl) ≤ s_LastActive s).

Lemma purge_evicted ttl now0 k s t : evicted ttl now0 k s t → s_rows (purge ttl now0 t).2 !! k = Some s.
Proof using SL.
  intros (Hk&_&Ht). unfold purge. destruct (Z.ltb_spec 0 ttl) as [Hl|]; [|done]. specialize (Ht Hl).
  unfold DeleteSessionsBefore. simpl.
  destruct (exec_cases (q_Delete (λ s, s_LastActive s <? wrap64 (now0 - ttl))) t) as [[e ->]|(t'&E&->)]; [done|].
  apply q_Delete_spec in E. simpl. rewrite E. apply map_lookup_filter_Some. split; [done|]. simpl.
  apply Z.ltb_ge. lia.
Qed.

Lemma upsert_other now ua ip s0 k s t :
  s_rows t !! k = Some s → s_DeviceKey s0 ≠ k →
  s_rows (UpsertSession (refresh_session now ua ip s0) t).2 !! k = Some s.
Proof using SL.
  intros Hk Hne. unfold UpsertSession.
  destruct (exec_cases (q_Upsert (refresh_session now ua ip s0)) t) as [[e ->]|(t'&E&->)]; [done|].
  apply q_Upsert_spec in E. simpl. by rewrite E, lookup_insert_ne.
Qed.

Lemma create_other max policy u k' ua ip now k s t :
  s_rows t !! k = Some s → s_Status s = Session_Inactive →
  let m := let* _ := limit_devices max policy u in CreateSession (new_session u k' ua ip now) in
  s_rows (m t).2 !! k = Some s ∧ (k' = k → ∃ e, (m t).1 = inl e).
Proof using SL Holdest.
  intros Hk Hi m. subst m. unfold op_bind. pose proof (limit_devices_ok Holdest max policy u t) as H.
  destruct (limit_devices max policy u t) as [[e|[]] t1]; destruct H as (_&_&_&_&H); specialize (H k s Hk Hi).
  - simpl. eauto.
  - unfold CreateSession. set (s' := new_session u k' ua ip now).
    destruct (exec_cases (q_Create s') t1) as [[e ->]|(t'&E&->)]; [simpl; eauto|].
    apply q_Create_spec in E as [Hn E]. simpl in *. split.
    + rewrite E. rewrite lookup_insert_ne; [done|]. intros <-. congruence.
    + intros ->. congruence.
Qed.

Lemma Handle_evicted ttl max policy now0 now u' k' ua ip k s t :
  u' ≠ 0 → k ≠ #"" → evicted ttl now0 k s t →
  let m := Handle ttl max policy now0 now u' k' ua ip in
  s_rows (m t).2 !! k = Some s ∧ (k' = k → ∃ e, (m t).1 = inl e).
Proof using SL Holdest.
  intros Hu Hk He m. subst m. pose proof (purge_evicted _ _ _ _ _ He) as Hp. destruct He as (_&Hi&_).
  unfold Handle. assert (∀ A (f : unit → Op stable A), op_bind (purge ttl now0) f t = f () (purge ttl now0 t).2) as ->.
  { intros A f. unfold op_bind, purge. by destruct (0 <? ttl). }
  cbv zeta. unfold op_bind at 1 3, op_gets. set (t1 := (purge ttl now0 t).2) in *.
  pose proof (GetSession_cases u' k' t1 Hu) as Hg. destruct (GetSession u' k' t1) as [e|s0].
  - destruct (errors_Is e ErrRecordNotFound); cbn [negb]; [by apply create_other|]. simpl. eauto.
  - destruct Hg as (Hs&Hus&Hk'). destruct (Z.eqb_spec (s_Status s0) Session_Inactive) as [|Hn]; [simpl; eauto|].
    assert (s_DeviceKey s0 ≠ k) as Hne by (intros E; rewrite E in Hs; congruence).
    split; [by apply upsert_other|]. intros ->. by destruct Hk'.
Qed.
End evicted.

(** ** A table in a finite map *)

Module SessionMaps.
Definition keyed (m : gmap gostr Session) : Prop := map_Forall (λ k s, s_DeviceKey s = k) m.

#[export] Instance keyed_dec m : Decision (keyed m).
Proof. unfold keyed. apply _. Defined.

Definition stored (m : gmap gostr Session) : result { m : gmap gostr Session | keyed m } :=
  match decide (keyed m) with left p => inr (m ↾ p) | right _ => inl (EMessage #"primary key") end.

Definition least (col : Session → Z) : Session → list Session → Session :=
  foldl (λ b s, if col s <? col b then s else b).

Definition matching (p : Session → bool) (m : gmap gostr Session) : gmap gostr Session :=
  filter (λ ks, p ks.2 = true) m.

Definition first_of (p : Session → bool) (o : option (Session → Z)) (m : gmap gostr Session) : result Session :=
  match (map_to_list (matching p m)).*2 with
  | [] => inl (ESentinel ErrRecordNotFound)
  | s :: l => inr (match o with None => s | Some col => least col s l end)
  end.

#[export] Instance map_sessions : SessionTable := {|
  stable := { m : gmap gostr Session | keyed m };
  s_rows t := `t;
  q_First p o t := first_of p o (`t);
  q_Count p t := inr (Z.of_nat (size (matching p (`t))));
  q_Find p t := inr (map_to_list (matching p (`t))).*2;
  q_Create s t := if decide (`t !! s_DeviceKey s = None) then stored (<[s_DeviceKey s := s]> (`t))
                  else inl (EMessage #"UNIQUE constraint failed");
  q_Upsert s t := stored (<[s_DeviceKey s := s]> (`t));
  q_Update p f t := stored ((λ s, if p s then f s else s) <$> `t);
  q_Delete p t := stored (filter (λ ks, p ks.2 = false) (`t));
|}.

Lemma stored_ok m t : stored m = inr t → `t = m.
Proof. unfold stored. destruct (decide _); [|done]. by intros [= <-]. Qed.

Lemma least_spec col l s :
  least col s l ∈ s :: l ∧ Forall (λ s', col (least col s l) ≤ col s') (s :: l).
Proof.
  revert s. induction l as [|a l IH]; intros s; simpl.
  - split; [set_solver|repeat constructor; lia].
  - destruct (IH (if col a <? col s then a else s)) as [H1 H2]. apply Forall_cons in H2 as [H2 H3].
    destruct (Z.ltb_spec (col a) (col s)); (split; [set_solver|]); repeat (constructor; [lia|]); done.
Qed.

Lemma matching_elem p m s :
  keyed m → s ∈ (map_to_list (matching p m)).*2 ↔ m !! s_DeviceKey s = Some s ∧ p s = true.
Proof.
  intros Hm. rewrite list_elem_of_fmap. split.
  - intros ([k s']&->&Hin). apply elem_of_map_to_list in Hin.
    apply map_lookup_filter_Some in Hin as [Hk Hp]. simpl in *. by rewrite (Hm k s' Hk).
  - intros [Hk Hp]. exists (s_DeviceKey s, s). split; [done|].
    by apply elem_of_map_to_list, map_lookup_filter_Some.
Qed.

#[export] Instance map_session_laws : SessionLaws.
Proof.
  split; simpl.
  - intros [m Hm]. exact Hm.
  - intros p o [m Hm] s. simpl. unfold first_of. pose proof (λ s, matching_elem p m s Hm) as Hel.
    destruct (map_to_list (matching p m)).*2 as [|s0 l]; [done|].
    intros [= <-]. destruct o as [col|].
    + destruct (least_spec col l s0) as [Hin Hle]. apply Hel in Hin as [H1 H2]. split_ands; [done|done|].
      intros col' k s' [= <-] Hk Hp. rewrite Forall_forall in Hle. apply Hle, Hel. by rewrite (Hm k s' Hk).
    + destruct (proj1 (Hel s0)) as [H1 H2]; [left|]. split_ands; done.
  - intros p o [m Hm] e. simpl. unfold first_of. pose proof (λ s, matching_elem p m s Hm) as Hel.
    destruct (map_to_list (matching p m)).*2 as [|s0 l]; [|done].
    intros _ _ k s Hk. destruct (p s) eqn:E; [|done]. exfalso.
    apply (not_elem_of_nil s), Hel. by rewrite (Hm k s Hk).
  - intros p t n [= <-]. done.
  - intros p t l [= <-]. done.
  - intros s t t'. destruct (decide _); [|done]. intros E%stored_ok. done.
  - intros s t t' E%stored_ok. done.
  - intros p f t t' E%stored_ok. done.
  - intros p t t' E%stored_ok. done.
Qed.

Lemma map_oldest_found : oldest_found.
Proof.
  intros p col [m Hm] e. simpl. unfold first_of.
  destruct (map_to_list (matching p m)).*2; [|done]. by intros [= <-].
Qed.

Definition no_sessions : stable.
Proof. refine (∅ ↾ _). apply map_Forall_empty. Defined.
End SessionMaps.
Import SessionMaps.

(** ** The properties *)

(** While the limit on devices is [max], no sequence of requests, logins,
    refreshes, evictions and deletions gives a user more than [max] active
    sessions, whether the policy refuses the new device or evicts the least
    recently active one; nothing is said of two calls that overlap. *)
Theorem device_limit {ST : SessionTable} {SL : SessionLaws} ttl max policy (t t' : stable) u :
  oldest_found → 0 < max → status_ok t → rtc (session_step ttl max policy) t t' →
  active_count u t ≤ max → active_count u t' ≤ max.
Proof.
  intros Ho Hm Hs Hr Hc. destruct (session_steps_limits Ho ttl max policy Hm t t' Hr Hs) as [_ H].
  specialize (H u). lia.
Qed.

(** Two devices of one user, with one allowed. *)
Definition two_logins : stable :=
  (Handle 0 1 #"evict_oldest" 20 20 7 #"b" [] []
     (EnsureActiveOnLogin 1 #"evict_oldest" 10 7 #"a" [] #"10.1.2.3" no_sessions).2).2.

(** A device whose session was evicted stays out: until its session is so
    old that the clean-up deletes it, no request, whether its own or another
    one's, changes its session, and its own requests are refused. *)
Theorem evicted_device_stays_out {ST : SessionTable} {SL : SessionLaws}
    ttl max policy now0 now u' k' ua ip k s (t : stable) :
  oldest_found → u' ≠ 0 → k ≠ #"" → evicted ttl now0 k s t →
  s_rows (Handle ttl max policy now0 now u' k' ua ip t).2 !! k = Some s ∧
  (k' = k → ∃ e, (Handle ttl max policy now0 now u' k' ua ip t).1 = inl e).
Proof. intros Ho. by apply Handle_evicted. Qed.

(** Once the clean-up deletes the row, the device is let in again as a new one,
    without a login. *)
Example evicted_device_returns :
  (Handle 60 2 #"deny" 80 80 7 #"a" [] [] two_logins).1 = inr () ∧
  s_Status <$> s_rows (Handle 60 2 #"deny" 80 80 7 #"a" [] [] two_logins).2 !! #"a" = Some Session_Active.
Proof. split; vm_compute; reflexivity. Qed.
