(* ===== verification/Auth.v ===== *)
(** * Logging in and authenticating requests

    [server/common/auth.go] (the tokens), [server/middlewares/auth.go] and
    [session_refresh.go] (who a request comes from), the login, logout and
    account handlers of [server/handles/auth.go] and [user.go], over the
    accounts of [Accounts], the device sessions of [Sessions] and the two
    caches of the web server.  The JWT and TOTP libraries are interfaces. *)

From S2P Require Import Prelude GoStrings Errs Store Paths Crypto Users Accounts Sessions.

Local Open Scope Z_scope.

(** ** Interfaces *)

Record UserClaims := {
  c_Username : gostr;
  c_PwdTS : Z;
  c_ExpiresAt : Z;
  c_IssuedAt : Z;
  c_NotBefore : Z;
}.

Definition ValidationErrorMalformed : Z := 1.
Definition ValidationErrorExpired : Z := 16.
Definition ValidationErrorNotValidYet : Z := 128.

(** A parsed token is valid, or has the bits of a [ValidationError]. *)
Inductive jwt_result := JwtValid (c : UserClaims) | JwtError (bits : Z).

(** [golang-jwt] with the server's secret key; the time is in seconds. *)
Class Jwt := {
  SignedString : UserClaims → result gostr;
  ParseWithClaims : Z → gostr → jwt_result;
}.

(** A token made by [SignedString] parses to the claims it was made of, and a
    valid one has not expired. *)
Class JwtLaws `{JW : Jwt} : Prop := {
  jwt_claims now c c' tok : SignedString c = inr tok → ParseWithClaims now tok = JwtValid c' → c' = c;
  jwt_live now c tok : ParseWithClaims now tok = JwtValid c → now < c_ExpiresAt c;
}.

(** [Expire] of a cache gives an entry a time to live. *)
Class CacheExpire V `{!Cache V} := cache_Expire : cache V → gostr → Z → cache V.
Class CacheExpireLaws V `{CE : CacheExpire V} : Prop :=
  cache_Get_Expire c k d k' : cache_Get (cache_Expire c k d) k' = cache_Get c k'.

(** The settings, the flags and the TOTP library (code, secret). *)
Class WebEnv := {
  conf_Token : gostr;
  DeviceSessionTTL : Z;
  MaxDevices : Z;
  DeviceEvictPolicy : gostr;
  AllowRegister : bool;
  TokenExpiresIn : Z;
  flags_FixedAdmin : bool;
  random_salt : gostr;
  totp_Validate : Z → gostr → gostr → bool;
}.

(** ** Requests *)

(** What the authentication reads of a request. *)
Record request := {
  r_Authorization : gostr;
  r_ClientId : gostr;
  r_client_id : gostr;
  r_UserAgent : gostr;
  r_ClientIP : gostr;
}.

Definition clientID (r : request) : gostr :=
  if bool_decide (r_ClientId r = #"") then r_client_id r else r_ClientId r.

Definition GetMD5EncodeStr (data : gostr) : gostr := hex_encode (md5 data).

Definition session_key (u : User) (r : request) : gostr :=
  GetMD5EncodeStr (FormatUint (user_ID u) ++ #"-" ++ clientID r).

Record LoginReq := { l_Username : gostr; l_Password : gostr; l_OtpCode : gostr }.

Definition second : Z := 1000000000.
Definition unix (t : Z) : Z := t / second.

(** ** The state of the web server *)

Section web.
Context `{HTR : !Table Role, HTU : !Table User, HCR : !Cache Role, HCU : !Cache User}
        {ST : SessionTable} `{HCT : !Cache bool, HCL : !Cache Z, HCE : !CacheExpire Z}
        {JW : Jwt} {WE : WebEnv}.

Record web := {
  w_acc : acc;
  w_sessions : stable;
  validTokenCache : cache bool;
  loginCache : cache Z;
}.

Definition set_w_acc a (w : web) : web :=
  {| w_acc := a; w_sessions := w_sessions w; validTokenCache := validTokenCache w; loginCache := loginCache w |}.
Definition set_w_sessions t (w : web) : web :=
  {| w_acc := w_acc w; w_sessions := t; validTokenCache := validTokenCache w; loginCache := loginCache w |}.
Definition set_validTokenCache c (w : web) : web :=
  {| w_acc := w_acc w; w_sessions := w_sessions w; validTokenCache := c; loginCache := loginCache w |}.
Definition set_loginCache c (w : web) : web :=
  {| w_acc := w_acc w; w_sessions := w_sessions w; validTokenCache := validTokenCache w; loginCache := c |}.

(** A handler answers with the code of an error, which ends it, or goes on. *)
Definition Http (A : Type) := web → (Z + A) * web.

Definition http_ret {A} (a : A) : Http A := λ w, (inr a, w).
Definition http_err {A} (code : Z) : Http A := λ w, (inl code, w).
Definition http_bind {A B} (m : Http A) (k : A → Http B) : Http B :=
  λ w, match m w with (inl c, w') => (inl c, w') | (inr a, w') => k a w' end.
Definition http_do (f : web → web) : Http unit := λ w, (inr (), f w).
Definition http_refuse (b : bool) (code : Z) : Http unit := if b then http_err code else http_ret ().

(** A call of package [op] or of the session packages; its error is answered
    with the given code. *)
Definition on_acc {A} (m : Op acc A) (code : error → Z) : Http A :=
  λ w, match m (w_acc w) with
       | (inl e, a) => (inl (code e), set_w_acc a w)
       | (inr x, a) => (inr x, set_w_acc a w)
       end.
Definition on_sessions {A} (m : Op stable A) (code : error → Z) : Http A :=
  λ w, match m (w_sessions w) with
       | (inl e, t) => (inl (code e), set_w_sessions t w)
       | (inr x, t) => (inr x, set_w_sessions t w)
       end.
End web.

Notation "'let^' x ':=' m 'in' k" := (http_bind m (λ x, k))
  (at level 10, x pattern, m at level 100, k at level 200,
   format "'[v' 'let^'  x  ':='  m  'in' '//' k ']'") : go_scope.

Section handlers.
Context `{HTR : !Table Role, HTU : !Table User, HCR : !Cache Role, HCU : !Cache User}
        {ST : SessionTable} `{HCT : !Cache bool, HCL : !Cache Z, HCE : !CacheExpire Z}
        {JW : Jwt} {WE : WebEnv}.

(** Every reading of the clock, in nanoseconds, in the order of the calls. *)
Abbreviation clock := (nat → Z) (only parsing).

(** *** [server/common/auth.go] *)

Definition token_claims (t : clock) (user : User) : UserClaims :=
  {| c_Username := Username user; c_PwdTS := PwdTS user;
     c_ExpiresAt := unix (t 0%nat + wrap64 (TokenExpiresIn * hour));
     c_IssuedAt := unix (t 1%nat); c_NotBefore := unix (t 2%nat) |}.

Definition GenerateToken (t : clock) (user : User) : Http gostr :=
  match SignedString (token_claims t user) with
  | inl _ => http_err 400
  | inr tok =>
      let^ _ := http_do (λ w, set_validTokenCache (cache_Set (validTokenCache w) tok true 0) w) in
      http_ret tok
  end.

Definition IsTokenInvalidated (w : web) (tokenString : gostr) : bool :=
  bool_decide (cache_Get (validTokenCache w) tokenString = None).

Definition ParseToken (now : Z) (tokenString : gostr) (w : web) : result UserClaims :=
  let token := ParseWithClaims now tokenString in
  if IsTokenInvalidated w tokenString then inl (EMessage #"token is invalidated")
  else
    match token with
    | JwtError bits =>
        if negb (Z.land bits ValidationErrorMalformed =? 0) then inl (EMessage #"that's not even a token")
        else if negb (Z.land bits ValidationErrorExpired =? 0) then inl (EMessage #"token is expired")
        else if negb (Z.land bits ValidationErrorNotValidYet =? 0) then inl (EMessage #"token not active yet")
        else inl (EMessage #"couldn't handle this token")
    | JwtValid c => inr c
    end.

Definition InvalidateToken (tokenString : gostr) (w : web) : web :=
  if bool_decide (tokenString = #"") then w
  else set_validTokenCache (cache_Del (validTokenCache w) tokenString) w.

(** *** [server/middlewares/auth.go] *)

(** The session of the device the request comes from. *)
Definition HandleSession (t : clock) (r : request) (user : User) : Http User :=
  λ w,
  match Handle DeviceSessionTTL MaxDevices DeviceEvictPolicy (unix (t 0%nat)) (unix (t 1%nat))
          (user_ID user) (session_key user r) (r_UserAgent r) (r_ClientIP r) (w_sessions w) with
  | (inr _, s) => (inr user, set_w_sessions s w)
  | (inl e, s) =>
      let w := set_w_sessions s w in
      if errors_Is e SessionInactive then (inl 401, InvalidateToken (r_Authorization r) w)
      else (inl 403, w)
  end.

Definition op_GetAdmin (t : Z) : Op acc User := GetAdmin flags_FixedAdmin random_salt (unix t).
Definition op_GetUserByName (t : Z) (name : gostr) : Op acc User :=
  GetUserByName flags_FixedAdmin random_salt (unix t) name.

(** The roles of the user are loaded; only a failure shows. *)
Definition load_roles (user : User) : Http unit :=
  match user_Role user with
  | [] => http_ret ()
  | _ => let^ _ := on_acc (GetRolesByUserID (user_ID user)) (λ _, 500) in http_ret ()
  end.

(** The user a token names, if its password has not changed since. *)
Definition token_user (t : clock) (token : gostr) : Http User :=
  λ w,
  match ParseToken (unix (t 0%nat)) token w with
  | inl _ => (inl 401, w)
  | inr claims =>
      (let^ user := on_acc (op_GetUserByName (t 1%nat) (c_Username claims)) (λ _, 401) in
       let^ _ := http_refuse (negb (c_PwdTS claims =? PwdTS user)) 401 in
       let^ _ := http_refuse (Disabled user) 401 in
       http_ret user) w
  end.

Definition Auth (t : clock) (r : request) : Http User :=
  let token := r_Authorization r in
  if bool_decide (token = conf_Token) then
    let^ admin := on_acc (op_GetAdmin (t 0%nat)) (λ _, 500) in
    HandleSession (λ i, t (1 + i)%nat) r admin
  else if bool_decide (token = #"") then
    let^ guest := on_acc GetGuest (λ _, 500) in
    let^ _ := http_refuse (Disabled guest) 401 in
    let^ _ := load_roles guest in
    HandleSession t r guest
  else
    let^ user := token_user t token in
    let^ _ := load_roles user in
    HandleSession (λ i, t (2 + i)%nat) r user.

(** Without a session: the WebAuthn routes. *)
Fixpoint each_role (ids : Roles) : Http unit :=
  match ids with
  | [] => http_ret ()
  | roleID :: ids' =>
      let^ _ := on_acc (op_GetRole (wrapu64 roleID)) (λ _, 500) in
      each_role ids'
  end.

Definition mw_Authn (t : clock) (r : request) : Http User :=
  let token := r_Authorization r in
  if bool_decide (token = conf_Token) then on_acc (op_GetAdmin (t 0%nat)) (λ _, 500)
  else if bool_decide (token = #"") then on_acc GetGuest (λ _, 500)
  else
    let^ user := token_user t token in
    let^ _ := each_role (user_Role user) in
    http_ret user.

Definition AuthNotGuest (user : User) : Http User :=
  let^ _ := http_refuse (IsGuest user) 403 in http_ret user.
Definition AuthAdmin (user : User) : Http User :=
  let^ _ := http_refuse (negb (IsAdmin user)) 403 in http_ret user.

(** [status] is the HTTP status of the response, [inactive] what the logout
    stored in the context. *)
Definition SessionRefresh (t : Z) (status : Z) (inactive : bool) (user : option (User * gostr)) (w : web) : web :=
  if 400 <=? status then w
  else if inactive then w
  else
    match user with
    | Some (u, key) => set_w_sessions (device_Refresh (unix t) (user_ID u) key (w_sessions w)).2 w
    | None => w
    end.

(** *** [server/handles/auth.go] *)

Definition defaultDuration : Z := 300000000000.
Definition defaultTimes : Z := 5.

(** [loginCache.Set(ip, count+1)] and the answer. *)
Definition login_failed {A} (ip : gostr) (count code : Z) : Http A :=
  λ w, (inl code, set_loginCache (cache_Set (loginCache w) ip (wrap64 (count + 1)) 0) w).

(** The credentials: the name, the password and the second factor. *)
Definition check_login (t : clock) (ip : gostr) (count : Z) (req : LoginReq) : Http User :=
  λ w,
  match op_GetUserByName (t 0%nat) (l_Username req) (w_acc w) with
  | (inl _, a) => login_failed ip count 400 (set_w_acc a w)
  | (inr user, a) =>
      let w := set_w_acc a w in
      if flags_FixedAdmin && IsAdmin user && negb (bool_decide (l_Username req = #"admin")) then (inl 400, w)
      else
        match ValidatePwdStaticHash user (l_Password req) with
        | Some _ => login_failed ip count 400 w
        | None =>
            if negb (bool_decide (OtpSecret user = #""))
               && negb (totp_Validate (t 1%nat) (l_OtpCode req) (OtpSecret user))
            then login_failed ip count 402 w
            else (inr user, w)
        end
  end.

(** The token and the key of the device. *)
Definition loginHash (t : clock) (r : request) (req : LoginReq) : Http (gostr * gostr) :=
  λ w,
  let ip := r_ClientIP r in
  let cached := cache_Get (loginCache w) ip in
  let count := default 0 cached in
  if negb (bool_decide (cached = None)) && (defaultTimes <=? count) then
    (inl 429, set_loginCache (cache_Expire (loginCache w) ip defaultDuration) w)
  else
    (let^ user := check_login t ip count req in
     let key := session_key user r in
     let^ _ := on_sessions
       (EnsureActiveOnLogin MaxDevices DeviceEvictPolicy (unix (t 2%nat)) (user_ID user) key
          (r_UserAgent r) (r_ClientIP r))
       (λ e, if errors_Is e TooManyDevices then 403 else 400) in
     let^ token := GenerateToken (λ i, t (3 + i)%nat) user in
     let^ _ := http_do (λ w, set_loginCache (cache_Del (loginCache w) ip) w) in
     http_ret (token, key)) w.

Definition Login (t : clock) (r : request) (req : LoginReq) : Http (gostr * gostr) :=
  loginHash t r {| l_Username := l_Username req; l_Password := StaticHash (l_Password req);
                   l_OtpCode := l_OtpCode req |}.

(** The key in the context is the one [HandleSession] stored. *)
Definition LogOut (r : request) (device_key : option gostr) : Http unit :=
  let^ _ := match device_key with
            | Some key => on_sessions (MarkInactive key) (λ _, 500)
            | None => http_ret ()
            end in
  http_do (InvalidateToken (r_Authorization r)).

Definition Register (t : Z) (username password : gostr) : Http unit :=
  let^ _ := http_refuse (negb AllowRegister) 403 in
  λ w,
  let user := {| user_ID := 0; Username := username; PwdHash := []; PwdTS := 0; Salt := []; Password := [];
                 BasePath := []; user_Role := [GetDefaultRoleID (w_acc w)]; Disabled := false; Permission := 0;
                 OtpSecret := []; SsoID := []; Authn := #"[]" |} in
  on_acc (CreateUser (SetPassword user password random_salt (unix t))) (λ _, 500) w.

Definition with_SsoID (sso : gostr) (u : User) : User :=
  {| user_ID := user_ID u; Username := Username u; PwdHash := PwdHash u; PwdTS := PwdTS u; Salt := Salt u;
     Password := Password u; BasePath := BasePath u; user_Role := user_Role u; Disabled := Disabled u;
     Permission := Permission u; OtpSecret := OtpSecret u; SsoID := sso; Authn := Authn u |}.

Definition with_Authn (password authn : gostr) (u : User) : User :=
  {| user_ID := user_ID u; Username := Username u; PwdHash := PwdHash u; PwdTS := PwdTS u; Salt := Salt u;
     Password := password; BasePath := BasePath u; user_Role := user_Role u; Disabled := Disabled u;
     Permission := Permission u; OtpSecret := OtpSecret u; SsoID := SsoID u; Authn := authn |}.

Definition op_UpdateUser (t : Z) (u : User) : Op acc unit := UpdateUser flags_FixedAdmin random_salt (unix t) u.

Definition UpdateCurrent (t : clock) (user : User) (username password sso : gostr) : Http unit :=
  let^ _ := http_refuse (IsGuest user) 403 in
  let^ _ := http_refuse (flags_FixedAdmin && IsAdmin user &&
              ((negb (bool_decide (username = #"")) && negb (bool_decide (username = #"admin"))) ||
               (negb (bool_decide (password = #"")) && negb (bool_decide (password = #"admin"))))) 403 in
  let user := user_set username (BasePath user) (Permission user) (OtpSecret user) (Disabled user) user in
  let user := if bool_decide (password = #"") then user
              else SetPassword user password random_salt (unix (t 0%nat)) in
  on_acc (op_UpdateUser (t 1%nat) (with_SsoID sso user)) (λ _, 500).

Definition Verify2FA (t : clock) (user : User) (code secret : gostr) : Http unit :=
  let^ _ := http_refuse (IsGuest user) 403 in
  let^ _ := http_refuse (negb (totp_Validate (t 0%nat) code secret)) 400 in
  on_acc (op_UpdateUser (t 1%nat) (user_set_otp secret user)) (λ _, 500).

(** *** [server/handles/user.go]; [req] is the body, in which the fields JSON
    leaves out ([PwdHash], [PwdTS], [Salt], [OtpSecret], [Authn]) are zero. *)

Definition bound_user (req : User) : Prop :=
  PwdHash req = [] ∧ PwdTS req = 0 ∧ Salt req = [] ∧ OtpSecret req = [] ∧ Authn req = [].

Definition user_set_role (ids : Roles) (u : User) : User :=
  {| user_ID := user_ID u; Username := Username u; PwdHash := PwdHash u; PwdTS := PwdTS u; Salt := Salt u;
     Password := Password u; BasePath := BasePath u; user_Role := ids; Disabled := Disabled u;
     Permission := Permission u; OtpSecret := OtpSecret u; SsoID := SsoID u; Authn := Authn u |}.

Definition user_set_pwd (hash salt password otp : gostr) (u : User) : User :=
  {| user_ID := user_ID u; Username := Username u; PwdHash := hash; PwdTS := PwdTS u; Salt := salt;
     Password := password; BasePath := BasePath u; user_Role := user_Role u; Disabled := Disabled u;
     Permission := Permission u; OtpSecret := otp; SsoID := SsoID u; Authn := Authn u |}.

Definition handle_CreateUser (t : Z) (req : User) : Http unit :=
  λ w,
  let req := match user_Role req with
             | [] => user_set_role [GetDefaultRoleID (w_acc w)] req
             | _ => req
             end in
  if IsAdmin req || IsGuest req then (inl 400, w)
  else
    let req := SetPassword req (Password req) random_salt (unix t) in
    on_acc (CreateUser (with_Authn [] #"[]" req)) (λ _, 500) w.

(** The enabled administrators other than the user: [JSON_CONTAINS(role, "[id]")]. *)
Definition CountEnabledAdminsExcluding (userID : Z) : Op acc Z :=
  let* adminRole := GetRoleByName #"admin" in
  op_query (λ s,
    let! us := FindAll (users s) in
    inr (Z.of_nat (length (List.filter (λ u,
      negb (Disabled u) && negb (user_ID u =? userID) && bool_decide (role_ID adminRole ∈ user_Role u)) us)))).

Definition handle_UpdateUser (t : clock) (req : User) : Http unit :=
  let^ user := on_acc (GetUserById (user_ID req)) (λ _, 500) in
  let is_admin := bool_decide (Username user = #"admin") in
  let^ _ := http_refuse (is_admin && flags_FixedAdmin &&
              (negb (bool_decide (Username req = #"admin")) ||
               (negb (bool_decide (Password req = #"")) && negb (bool_decide (Password req = #"admin"))))) 403 in
  let^ _ := http_refuse (is_admin && negb (bool_decide (user_Role user = user_Role req))) 403 in
  let req :=
    if bool_decide (Password req = #"") then user_set_pwd (PwdHash user) (Salt user) [] (OtpSecret req) req
    else let req := SetPassword req (Password req) random_salt (unix (t 0%nat)) in
         user_set_pwd (PwdHash req) (Salt req) [] (OtpSecret req) req in
  let req := if bool_decide (OtpSecret req = #"") then user_set_otp (OtpSecret user) req else req in
  let^ _ := (if Disabled req && IsAdmin user then
               let^ count := on_acc (CountEnabledAdminsExcluding (user_ID user)) (λ _, 500) in
               http_refuse (count =? 0) 400
             else http_ret ()) in
  let^ _ := http_refuse (negb (bool_decide (user_Role user = user_Role req)) && (IsAdmin req || IsGuest req)) 400 in
  on_acc (op_UpdateUser (t 1%nat) req) (λ _, 500).

Definition handle_DeleteUser (id : option Z) : Http unit :=
  match id with
  | None => http_err 400
  | Some id => on_acc (DeleteUserById (wrapu64 id)) (λ _, 500)
  end.

Definition handle_Cancel2FAById (t : Z) (id : option Z) : Http unit :=
  match id with
  | None => http_err 400
  | Some id => on_acc (Cancel2FAById flags_FixedAdmin random_salt (unix t) (wrapu64 id)) (λ _, 500)
  end.

Definition handle_DelUserCache (t : Z) (username : gostr) : Http unit :=
  on_acc (DelUserCache flags_FixedAdmin random_salt (unix t) username) (λ _, 500).
End handlers.
