(* ===== verification/AuthThms.v ===== *)
(** * Who a request is authenticated as

    Tokens are accepted only while they stand in the cache of valid tokens,
    which the login fills and the logout empties.  A run of the server is
    recorded as the list of tokens issued and revoked; its invariant says where
    the tokens in the cache come from. *)

From S2P Require Import Prelude GoStrings Errs Store Paths Crypto Users Accounts AccountsThms Sessions Auth.

Local Open Scope Z_scope.

(** A token is issued by the login or by one of the other ways to sign in (for
    a user it determined), and revoked. *)
Inductive event :=
  | Login_event (tok : gostr) (t : nat → Z) (r : request) (req : LoginReq)
  | Other_login (tok : gostr) (t : nat → Z) (u : User)
  | Revoked (tok : gostr).

Section auth.
Context `{HTR : !Table Role, !TableLaws Role, HTU : !Table User, !TableLaws User,
          HCR : !Cache Role, !CacheLaws Role, HCU : !Cache User, !CacheLaws User}
        {ST : SessionTable} `{HCT : !Cache bool, !CacheLaws bool, HCL : !Cache Z, !CacheLaws Z,
          HCE : !CacheExpire Z, !CacheExpireLaws Z}
        {JW : Jwt} {JL : JwtLaws} {WE : WebEnv}.
Context (save : gostr → option error).

Abbreviation astep := (acc_step [] 0 save).
Abbreviation ainv := (acc_inv [] 0).

(** ** Handlers that only work on the accounts *)

(** The accounts go from one state to the other by steps of package [op], when
    the administrator's account is not reset by look-ups. *)
Definition asteps (s s' : acc) : Prop := flags_FixedAdmin = false → rtc astep s s'.

#[local] Instance asteps_pre : PreOrder asteps.
Proof. split; [by intros s _|]. intros s1 s2 s3 H1 H2 Hf. etrans; auto. Qed.

Definition acc_run {A} (m : Op acc A) : Prop := ∀ s, asteps s (m s).2.

Lemma acc_run_bind {A B} (m : Op acc A) (k : A → Op acc B) :
  acc_run m → (∀ a, acc_run (k a)) → acc_run (op_bind m k).
Proof.
  intros Hm Hk s. unfold op_bind. specialize (Hm s). destruct (m s) as [[e|a] s1]; [done|].
  simpl in *. etrans; [done|apply Hk].
Qed.

Lemma acc_run_query {A} (f : acc → result A) : acc_run (op_query f).
Proof. by intros s. Qed.

Lemma acc_run_step {A} (m : Op acc A) : (flags_FixedAdmin = false → ∀ s, astep s (m s).2) → acc_run m.
Proof. intros H s Hf. by apply rtc_once, H. Qed.

Lemma run_GetUserByName t name : acc_run (op_GetUserByName t name).
Proof.
  apply acc_run_step. intros Hfix s. unfold op_GetUserByName. rewrite Hfix.
  exact (as_GetUserByName [] 0 save s name).
Qed.
Lemma run_GetAdmin t : acc_run (op_GetAdmin t).
Proof. apply acc_run_step. intros Hfix s. unfold op_GetAdmin. rewrite Hfix. exact (as_GetAdmin [] 0 save s). Qed.
Lemma run_UpdateUser t u : acc_run (op_UpdateUser t u).
Proof. apply acc_run_step. intros Hfix s. unfold op_UpdateUser. rewrite Hfix. exact (as_UpdateUser [] 0 save s u). Qed.
Lemma run_GetRole id : 0 ≤ id ≤ max_uint64 → acc_run (op_GetRole id).
Proof. intros. apply acc_run_step. intros _ s. by constructor. Qed.
Lemma run_CountAdmins id : acc_run (CountEnabledAdminsExcluding id).
Proof. apply acc_run_bind; [apply acc_run_step; intros _ s; constructor|]. intros a. apply acc_run_query. Qed.

(** The accounts change by steps of package [op], nothing else changes. *)
Definition acc_only {A} (m : Http A) : Prop :=
  ∀ w, ∃ a, asteps (w_acc w) a ∧ (m w).2 = set_w_acc a w.

Lemma set_w_acc_id w : set_w_acc (w_acc w) w = w.
Proof. by destruct w. Qed.

Lemma acc_only_ret {A} (a : A) : acc_only (http_ret a).
Proof. intros w. exists (w_acc w). by rewrite set_w_acc_id. Qed.
Lemma acc_only_err {A} c : acc_only (A := A) (http_err c).
Proof. intros w. exists (w_acc w). by rewrite set_w_acc_id. Qed.
Lemma acc_only_refuse b c : acc_only (http_refuse b c).
Proof. destruct b; [apply acc_only_err|apply acc_only_ret]. Qed.
Lemma acc_only_on_acc {A} (m : Op acc A) c : acc_run m → acc_only (on_acc m c).
Proof.
  intros Hm w. exists (m (w_acc w)).2. split; [apply Hm|]. unfold on_acc. by destruct (m (w_acc w)) as [[]?].
Qed.
Lemma acc_only_bind {A B} (m : Http A) (k : A → Http B) :
  acc_only m → (∀ a, acc_only (k a)) → acc_only (http_bind m k).
Proof.
  intros Hm Hk w. unfold http_bind. destruct (Hm w) as (a&Ha&E). destruct (m w) as [[c|x] w1]; simpl in *; subst.
  - by exists a.
  - destruct (Hk x (set_w_acc a w)) as (a'&Ha'&->). exists a'. split; [by etrans|by destruct w].
Qed.

#[local] Hint Resolve acc_only_ret acc_only_err acc_only_refuse acc_only_on_acc acc_only_bind acc_run_query
  run_GetUserByName run_GetAdmin run_UpdateUser run_CountAdmins : web.

Ltac acc_only_solve := repeat (first [apply acc_only_bind; [|intros ?] | case_match]); eauto with web.

Lemma acc_only_load_roles u : acc_only (load_roles u).
Proof.
  unfold load_roles. acc_only_solve. apply acc_only_on_acc, acc_run_step. intros _ s. constructor.
Qed.

Lemma acc_only_each_role ids : acc_only (each_role ids).
Proof.
  induction ids as [|i ids IH]; [apply acc_only_ret|]. simpl. apply acc_only_bind; [|done].
  apply acc_only_on_acc, run_GetRole, wrapu64_ok.
Qed.

Lemma acc_only_token_user t tok : acc_only (token_user t tok).
Proof.
  intros w. unfold token_user. destruct (ParseToken _ _ w) as [e|c].
  - exists (w_acc w). by rewrite set_w_acc_id.
  - match goal with |- context [http_bind ?m ?k w] => assert (acc_only (http_bind m k)) as H; [|apply H] end.
    acc_only_solve.
Qed.

(** The account handlers are such. *)
Lemma account_handlers t t1 u user pw sso code secret id name :
  acc_only (Register t1 name pw) ∧ acc_only (UpdateCurrent t user name pw sso) ∧
  acc_only (Verify2FA t user code secret) ∧ acc_only (handle_CreateUser t1 u) ∧
  acc_only (handle_UpdateUser t u) ∧ acc_only (handle_DeleteUser id) ∧
  acc_only (handle_Cancel2FAById t1 id) ∧ acc_only (handle_DelUserCache t1 name).
Proof.
  split_ands.
  - apply acc_only_bind; [auto with web|]. intros _ w. apply acc_only_on_acc, acc_run_step. intros _ s. constructor.
  - unfold UpdateCurrent. acc_only_solve.
  - unfold Verify2FA. acc_only_solve.
  - intros w. unfold handle_CreateUser. destruct (_ || _); [apply acc_only_err|].
    apply acc_only_on_acc, acc_run_step. intros _ s. constructor.
  - unfold handle_UpdateUser. acc_only_solve; apply acc_only_on_acc, acc_run_query.
  - unfold handle_DeleteUser. case_match; [|auto with web]. apply acc_only_on_acc, acc_run_step. intros _ s. constructor.
  - unfold handle_Cancel2FAById. case_match; [|auto with web].
    apply acc_only_on_acc, acc_run_step. intros Hfix s. rewrite Hfix. exact (as_Cancel2FAById [] 0 save s _).
  - unfold handle_DelUserCache. apply acc_only_on_acc, acc_run_step. intros Hfix s. rewrite Hfix. exact (as_DelUserCache [] 0 save s _).
Qed.

(** ** Runs *)

Definition auth_events (t : nat → Z) (r : request) (w : web) : list event :=
  let tok := r_Authorization r in
  if IsTokenInvalidated (Auth t r w).2 tok && negb (IsTokenInvalidated w tok) then [Revoked tok] else [].

(** Requests, logins, logouts, account handlers, anything done to the sessions,
    and attempts that are forgotten. *)
Inductive web_run (w0 : web) : list event → web → Prop :=
  | run_start : web_run w0 [] w0
  | run_auth evs w t r : web_run w0 evs w → web_run w0 (auth_events t r w ++ evs) (Auth t r w).2
  | run_login evs w t r req tok key w' : web_run w0 evs w → loginHash t r req w = (inr (tok, key), w') →
      web_run w0 (Login_event tok t r req :: evs) w'
  | run_no_login evs w t r req c w' : web_run w0 evs w → loginHash t r req w = (inl c, w') → web_run w0 evs w'
  | run_other evs w t u tok w' : web_run w0 evs w → GenerateToken t u w = (inr tok, w') →
      web_run w0 (Other_login tok t u :: evs) w'
  | run_logout evs w r k w' : web_run w0 evs w → LogOut r k w = (inr (), w') →
      web_run w0 (if bool_decide (r_Authorization r = #"") then evs else Revoked (r_Authorization r) :: evs) w'
  | run_no_logout evs w r k c w' : web_run w0 evs w → LogOut r k w = (inl c, w') → web_run w0 evs w'
  | run_accounts {A} (m : Http A) evs w : web_run w0 evs w → acc_only m → web_run w0 evs (m w).2
  | run_sessions evs w s : web_run w0 evs w → web_run w0 evs (set_w_sessions s w)
  | run_forget evs w c : web_run w0 evs w → expired (loginCache w) c → web_run w0 evs (set_loginCache c w).

Definition web_start (w : web) : Prop :=
  acc_start (w_acc w) ∧ ∀ tok, cache_Get (validTokenCache w) tok = None.

(** *** Steps that leave the tokens alone *)

Definition quiet (w w' : web) : Prop :=
  asteps (w_acc w) (w_acc w') ∧ validTokenCache w' = validTokenCache w.

Lemma quiet_trans w1 w2 w3 : quiet w1 w2 → quiet w2 w3 → quiet w1 w3.
Proof. intros [H1 E1] [H2 E2]. split; [by etrans|congruence]. Qed.

Lemma quiet_acc_only {A} (m : Http A) w : acc_only m → quiet w (m w).2.
Proof. intros Hm. destruct (Hm w) as (a&Ha&->). split; [done|by destruct w]. Qed.

Lemma quiet_on_sessions {A} (m : Op stable A) c w : quiet w (on_sessions m c w).2.
Proof. unfold on_sessions. destruct (m (w_sessions w)) as [[]?]; by destruct w. Qed.

Lemma InvalidateToken_spec tok w :
  w_acc (InvalidateToken tok w) = w_acc w ∧
  (validTokenCache (InvalidateToken tok w) = validTokenCache w ∧ tok = #"" ∨
   validTokenCache (InvalidateToken tok w) = cache_Del (validTokenCache w) tok ∧ tok ≠ #"").
Proof. unfold InvalidateToken. case_bool_decide; [by auto|]. by destruct w; auto. Qed.

(** The session only matters for the token when it was evicted. *)
Lemma HandleSession_spec t r u w :
  quiet w (HandleSession t r u w).2 ∨
  (∃ c, (HandleSession t r u w).1 = inl c) ∧
  w_acc (HandleSession t r u w).2 = w_acc w ∧
  validTokenCache (HandleSession t r u w).2 = cache_Del (validTokenCache w) (r_Authorization r).
Proof.
  unfold HandleSession. destruct (Handle _ _ _ _ _ _ _ _ _ _) as [[e|[]] s1]; [|by left; destruct w].
  destruct (errors_Is e SessionInactive); [|by left; destruct w].
  destruct (InvalidateToken_spec (r_Authorization r) (set_w_sessions s1 w)) as [E1 [[E2 _]|[E2 _]]].
  - left. split; simpl; [by rewrite E1; destruct w|by rewrite E2; destruct w].
  - right. simpl. split_ands; [eauto|rewrite E1; by destruct w|rewrite E2; by destruct w].
Qed.

(** *** The login *)

(** The credentials of a login, checked against the row of the user. *)
Definition credentials (t : nat → Z) (req : LoginReq) (u : User) : Prop :=
  (flags_FixedAdmin = false → Username u = l_Username req) ∧ ValidatePwdStaticHash u (l_Password req) = None ∧
  (OtpSecret u = [] ∨ totp_Validate (t 1%nat) (l_OtpCode req) (OtpSecret u) = true).

Lemma check_login_spec t ip n req w :
  (flags_FixedAdmin = false → ainv (w_acc w)) →
  quiet w (check_login t ip n req w).2 ∧
  match (check_login t ip n req w).1 with
  | inl _ => True
  | inr u => credentials t req u
  end.
Proof.
  intros Hi. unfold check_login, credentials. pose proof (run_GetUserByName (t 0%nat) (l_Username req) (w_acc w)) as Hr.
  assert (∀ u, (op_GetUserByName (t 0%nat) (l_Username req) (w_acc w)).1 = inr u → flags_FixedAdmin = false → Username u = l_Username req) as Hn.
  { intros u E Hfix. revert E. unfold op_GetUserByName. rewrite Hfix. destruct (Hi Hfix) as (_&Hu&_).
    apply (GetUserByName_spec [] 0 (l_Username req) (w_acc w) Hu). }
  destruct (op_GetUserByName _ _ (w_acc w)) as [[e|u] a]; simpl in Hr; [by destruct w|].
  destruct (_ && negb _); [by destruct w|]. destruct (ValidatePwdStaticHash u (l_Password req)) eqn:Ev; [by destruct w|].
  destruct (decide (OtpSecret u = [])) as [Eo|Eo].
  - rewrite bool_decide_true by done. simpl. split; [by destruct w|]. split_ands; [by apply Hn|done|by left].
  - rewrite bool_decide_false by done. simpl. destruct (totp_Validate _ _ _) eqn:Et; simpl; [|by destruct w].
    split; [by destruct w|]. split_ands; [by apply Hn|done|by right].
Qed.

Lemma GenerateToken_spec t u w :
  match GenerateToken t u w with
  | (inl _, w') => w' = w
  | (inr tok, w') => SignedString (token_claims t u) = inr tok ∧ w_acc w' = w_acc w ∧
      validTokenCache w' = cache_Set (validTokenCache w) tok true 0
  end.
Proof. unfold GenerateToken. destruct (SignedString _); [done|]. by destruct w. Qed.

Lemma loginHash_spec t r req w :
  (flags_FixedAdmin = false → ainv (w_acc w)) →
  match loginHash t r req w with
  | (inl _, w') => quiet w w'
  | (inr (tok, _), w') => asteps (w_acc w) (w_acc w') ∧
      validTokenCache w' = cache_Set (validTokenCache w) tok true 0 ∧
      ∃ u, credentials t req u ∧ SignedString (token_claims (λ i, t (3 + i)%nat) u) = inr tok
  end.
Proof.
  intros Hi. unfold loginHash. destruct (_ && _); [by destruct w|].
  unfold http_bind at 1. set (n := default 0 _).
  destruct (check_login_spec t (r_ClientIP r) n req w Hi) as [Hq Hc].
  destruct (check_login t (r_ClientIP r) n req w) as [[c|u] w1]; simpl in Hq, Hc; [done|].
  cbv zeta. unfold http_bind at 1.
  match goal with |- context [on_sessions ?m ?c w1] => pose proof (quiet_on_sessions m c w1) as Hs;
    destruct (on_sessions m c w1) as [[c'|[]] w2] end; simpl in Hs; [by eapply quiet_trans|].
  unfold http_bind at 1. pose proof (GenerateToken_spec (λ i, t (3 + i)%nat) u w2) as Hg.
  destruct (GenerateToken _ u w2) as [[c'|tok] w3].
  - subst w3. by eapply quiet_trans.
  - destruct Hg as (Hsig&Ea&Ev). destruct (quiet_trans _ _ _ Hq Hs) as [H1 H2]. simpl.
    split_ands; [by rewrite Ea|by rewrite Ev, H2|by exists u].
Qed.

(** *** The tokens in the cache *)

(** The event issued the token, for the user. *)
Definition issues (tok : gostr) (u : User) (e : event) : Prop :=
  match e with
  | Login_event k t r req => k = tok ∧ credentials t req u ∧
      SignedString (token_claims (λ i, t (3 + i)%nat) u) = inr tok
  | Other_login k t u' => k = tok ∧ u' = u ∧ SignedString (token_claims t u) = inr tok
  | Revoked _ => False
  end.

(** The time the token expires at. *)
Definition expires (e : event) : Z :=
  match e with
  | Login_event _ t _ _ => unix (t 3%nat + wrap64 (TokenExpiresIn * hour))
  | Other_login _ t _ => unix (t 0%nat + wrap64 (TokenExpiresIn * hour))
  | Revoked _ => 0
  end.

(** Issued and not revoked since. *)
Definition standing (tok : gostr) (u : User) (e : event) (evs : list event) : Prop :=
  issues tok u e ∧ ∃ evs2 evs1, evs = evs2 ++ e :: evs1 ∧ Revoked tok ∉ evs2.

Lemma standing_cons tok u e evs e' : standing tok u e evs → e' ≠ Revoked tok → standing tok u e (e' :: evs).
Proof.
  intros [Hi (l2&l1&->&Hn)] He. split; [done|]. exists (e' :: l2), l1. split; [done|].
  intros [E|?]%elem_of_cons; [by rewrite E in He|done].
Qed.

Lemma standing_new tok u e evs : issues tok u e → standing tok u e (e :: evs).
Proof. intros Hi. split; [done|]. exists [], evs. split; [done|]. apply not_elem_of_nil. Qed.

Lemma issues_sign tok u e :
  issues tok u e → ∃ c, SignedString c = inr tok ∧ c_Username c = Username u ∧ c_PwdTS c = PwdTS u ∧
                        c_ExpiresAt c = expires e.
Proof. destruct e as [k t r req|k t u'|k]; [intros (_&_&E)|intros (_&->&E)|done]; eexists; by split_ands. Qed.

Definition web_inv (evs : list event) (w : web) : Prop :=
  (flags_FixedAdmin = false → ainv (w_acc w)) ∧ ∀ tok b, cache_Get (validTokenCache w) tok = Some b → ∃ u e, standing tok u e evs.

Lemma ainv_run s s' : asteps s s' → (flags_FixedAdmin = false → ainv s) → flags_FixedAdmin = false → ainv s'.
Proof. intros Hr Hs Hfix. specialize (Hr Hfix). specialize (Hs Hfix). revert Hs. induction Hr as [|s s1 s2 H1 _ IH]; [done|]. intros Hs. apply IH. by eapply acc_step_inv. Qed.

Lemma web_inv_quiet evs w w' : quiet w w' → web_inv evs w → web_inv evs w'.
Proof. intros [Hr E] [Ha Ht]. split; [by eapply ainv_run|]. by rewrite E. Qed.

Lemma web_inv_del evs w w' tok :
  web_inv evs w → w_acc w' = w_acc w → validTokenCache w' = cache_Del (validTokenCache w) tok →
  web_inv (Revoked tok :: evs) w'.
Proof.
  intros [Ha Ht] Ea Ev. split; [by rewrite Ea|]. rewrite Ev. intros k b. rewrite cache_Get_Del.
  destruct (decide (k = tok)) as [|Hne]; [done|]. intros (u&e&H)%Ht. exists u, e. apply standing_cons; [done|].
  by intros [= ->].
Qed.

Lemma web_inv_set evs w w' tok u e :
  web_inv evs w → asteps (w_acc w) (w_acc w') →
  validTokenCache w' = cache_Set (validTokenCache w) tok true 0 → issues tok u e →
  (∀ k, e ≠ Revoked k) → web_inv (e :: evs) w'.
Proof.
  intros [Ha Ht] Hr Ev Hi Hne. split; [by eapply ainv_run|]. rewrite Ev. intros k b. rewrite cache_Get_Set.
  destruct (decide (k = tok)) as [->|_].
  - intros _. exists u, e. by apply standing_new.
  - intros (u'&e'&H)%Ht. exists u', e'. by apply standing_cons.
Qed.

(** A request may only take its own token out of the cache. *)
Lemma Auth_tokens t r w :
  asteps (w_acc w) (w_acc (Auth t r w).2) ∧
  (validTokenCache (Auth t r w).2 = validTokenCache w ∨
   validTokenCache (Auth t r w).2 = cache_Del (validTokenCache w) (r_Authorization r)).
Proof.
  assert (∀ (m : Http User) t', acc_only m → (λ w', asteps (w_acc w) (w_acc w') ∧
     (validTokenCache w' = validTokenCache w ∨
      validTokenCache w' = cache_Del (validTokenCache w) (r_Authorization r)))
     ((let^ u := m in HandleSession t' r u) w).2) as H.
  { intros m t' Hm. unfold http_bind. destruct (quiet_acc_only m w Hm) as [Ha Ev].
    destruct (m w) as [[c|u] w1]; simpl in *; [auto|].
    destruct (HandleSession_spec t' r u w1) as [[Hs Es]|(_&Es&Ed)].
    - split; [by etrans|]. left. congruence.
    - split; [by rewrite Es|]. right. congruence. }
  unfold Auth. cbv zeta. case_bool_decide; [|case_bool_decide].
  - apply (H (on_acc (op_GetAdmin (t 0%nat)) (λ _, 500))). auto with web.
  - replace ((let^ guest := on_acc GetGuest (λ _, 500) in _) w)
      with ((let^ u := (let^ guest := on_acc GetGuest (λ _, 500) in
             let^ _ := http_refuse (Disabled guest) 401 in let^ _ := load_roles guest in http_ret guest) in
             HandleSession t r u) w).
    + apply H. apply acc_only_bind; [apply acc_only_on_acc, acc_run_step; intros _ s; constructor|]. intros g.
      apply acc_only_bind; [auto with web|]. intros _. apply acc_only_bind; [apply acc_only_load_roles|auto with web].
    + unfold http_bind, http_ret. destruct (on_acc _ _ w) as [[c|g] w1]; [done|].
      destruct (http_refuse _ _ w1) as [[c|[]] w2]; [done|]. by destruct (load_roles g w2) as [[c|[]] w3].
  - replace ((let^ user := token_user t (r_Authorization r) in _) w)
      with ((let^ u := (let^ user := token_user t (r_Authorization r) in
             let^ _ := load_roles user in http_ret user) in HandleSession (λ i, t (2 + i)%nat) r u) w).
    + apply H. apply acc_only_bind; [apply acc_only_token_user|]. intros u.
      apply acc_only_bind; [apply acc_only_load_roles|auto with web].
    + unfold http_bind, http_ret. destruct (token_user _ _ w) as [[c|u] w1]; [done|].
      by destruct (load_roles u w1) as [[c|[]] w2].
Qed.

Lemma web_inv_auth evs w t r : web_inv evs w → web_inv (auth_events t r w ++ evs) (Auth t r w).2.
Proof.
  intros Hw. destruct (Auth_tokens t r w) as [Hr Hv]. set (w' := (Auth t r w).2) in *.
  unfold auth_events. fold w'. set (tok := r_Authorization r) in *. unfold IsTokenInvalidated.
  destruct (cache_Get (validTokenCache w) tok) as [b|] eqn:Eb.
  - destruct Hv as [Ev|Ev].
    + rewrite Ev, Eb. rewrite bool_decide_false by done. by apply (web_inv_quiet evs w).
    + rewrite Ev, cache_Get_Del, decide_True by done. rewrite bool_decide_true by done.
      rewrite bool_decide_false by done. simpl.
      apply (web_inv_del evs (set_w_acc (w_acc w') w) w' tok); [|done|by destruct w].
      apply (web_inv_quiet evs w); [split; [done|by destruct w]|done].
  - rewrite (bool_decide_true (None = None)) by done. rewrite andb_false_r. simpl.
    destruct Hw as [Ha Ht]. split; [by eapply ainv_run|]. intros k b Hk. apply (Ht k b).
    destruct Hv as [Ev|Ev]; rewrite Ev in Hk; [done|]. rewrite cache_Get_Del in Hk. by case_decide.
Qed.

Lemma LogOut_spec r k w :
  match LogOut r k w with
  | (inl _, w') => quiet w w'
  | (inr _, w') => w_acc w' = w_acc w ∧
      (validTokenCache w' = validTokenCache w ∧ r_Authorization r = [] ∨
       validTokenCache w' = cache_Del (validTokenCache w) (r_Authorization r) ∧ r_Authorization r ≠ [])
  end.
Proof.
  unfold LogOut, http_bind, http_do.
  assert (∀ w1 w2 : web, w_acc w2 = w_acc w1 → validTokenCache w2 = validTokenCache w1 →
    w_acc (InvalidateToken (r_Authorization r) w2) = w_acc w1 ∧
    (validTokenCache (InvalidateToken (r_Authorization r) w2) = validTokenCache w1 ∧ r_Authorization r = [] ∨
     validTokenCache (InvalidateToken (r_Authorization r) w2) = cache_Del (validTokenCache w1) (r_Authorization r) ∧
     r_Authorization r ≠ [])) as H.
  { intros w1 w2 E1 E2. destruct (InvalidateToken_spec (r_Authorization r) w2) as [E3 E4].
    rewrite E3, <- E1, <- E2. done. }
  destruct k as [k|]; [|by apply H]. unfold on_sessions. destruct (MarkInactive k (w_sessions w)) as [[e|[]] s1].
  - by destruct w.
  - apply H; by destruct w.
Qed.

Lemma run_inv w0 evs w : web_start w0 → web_run w0 evs w → web_inv evs w.
Proof.
  intros [H0 Hn]. induction 1 as [|evs w t r _ IH|evs w t r req tok key w' _ IH E|evs w t r req c w' _ IH E
    |evs w t u tok w' _ IH E|evs w r k w' _ IH E|evs w r k c w' _ IH E|A m evs w _ IH Hm|evs w s _ IH|evs w c _ IH _].
  - split; [by intros _; apply (reach_inv [] 0 save (w_acc w0))|]. intros tok b. by rewrite Hn.
  - by apply web_inv_auth.
  - pose proof (loginHash_spec t r req w (proj1 IH)) as H. rewrite E in H. destruct H as (Hr&Ev&u&Hc&Hs).
    by apply (web_inv_set evs w w' tok u).
  - pose proof (loginHash_spec t r req w (proj1 IH)) as H. rewrite E in H. by eapply web_inv_quiet.
  - pose proof (GenerateToken_spec t u w) as H. rewrite E in H. destruct H as (Hs&Ea&Ev).
    apply (web_inv_set evs w w' tok u); [done|by rewrite Ea|done|done|done].
  - pose proof (LogOut_spec r k w) as H. rewrite E in H. destruct H as [Ea [[Ev Et]|[Ev Et]]].
    + rewrite bool_decide_true by done. apply (web_inv_quiet evs w); [split; [by rewrite Ea|done]|done].
    + rewrite bool_decide_false by done. by eapply web_inv_del.
  - pose proof (LogOut_spec r k w) as H. rewrite E in H. by eapply web_inv_quiet.
  - apply (web_inv_quiet evs w); [by apply quiet_acc_only|done].
  - apply (web_inv_quiet evs w); [by destruct w|done].
  - apply (web_inv_quiet evs w); [by destruct w|done].
Qed.

(** ** Authenticated requests *)

Lemma ParseToken_ok now tok w c :
  ParseToken now tok w = inr c →
  (∃ b, cache_Get (validTokenCache w) tok = Some b) ∧ ParseWithClaims now tok = JwtValid c.
Proof.
  unfold ParseToken, IsTokenInvalidated. destruct (cache_Get (validTokenCache w) tok) as [b|].
  - rewrite bool_decide_false by done. destruct (ParseWithClaims now tok); [|by repeat case_match].
    intros [= ->]. eauto.
  - by rewrite bool_decide_true.
Qed.

(** The user a token is looked up as: its name is the one of the claims and
    its row the one of the database, when look-ups do not reset the
    administrator's account. *)
Lemma token_user_spec t tok w u w' :
  (flags_FixedAdmin = false → ainv (w_acc w)) → token_user t tok w = (inr u, w') →
  Disabled u = false ∧
  ∃ c, ParseToken (unix (t 0%nat)) tok w = inr c ∧ c_PwdTS c = PwdTS u ∧
       op_GetUserByName (t 1%nat) (c_Username c) (w_acc w) = (inr u, w_acc w') ∧
       (flags_FixedAdmin = false → c_Username c = Username u ∧ rows (users (w_acc w')) !! user_ID u = Some u).
Proof.
  intros Hi. unfold token_user. destruct (ParseToken _ tok w) as [e|c]; [done|].
  unfold http_bind, on_acc. destruct (op_GetUserByName _ _ (w_acc w)) as [[e|v] a] eqn:E; [done|].
  unfold http_refuse, http_err, http_ret. destruct (Z.eqb_spec (c_PwdTS c) (PwdTS v)) as [Ep|]; [|done]. simpl.
  destruct (Disabled v) eqn:Ed; [done|]. intros [= <- <-]. split; [done|]. exists c. split; [done|]. split; [done|].
  assert (w_acc (set_w_acc a w) = a) as -> by (by destruct w). split; [done|]. intros Hfix.
  destruct (Hi Hfix) as (_&Hu&_). destruct (GetUserByName_spec [] 0 (c_Username c) (w_acc w) Hu) as (_&_&_&_&H).
  change (GetUserByName false [] 0 (c_Username c) (w_acc w))
    with (GetUserByName false random_salt (unix (t 1%nat)) (c_Username c) (w_acc w)) in H.
  unfold op_GetUserByName in E. rewrite Hfix in E. rewrite E in H. destruct (H v eq_refl) as [Hn [Hrow _]]. by split.
Qed.

Lemma load_roles_users u w : users (w_acc (load_roles u w).2) = users (w_acc w).
Proof.
  unfold load_roles. destruct (user_Role u); [done|]. unfold http_bind, on_acc.
  destruct (leaves_GetRolesByUserID (user_ID u) (w_acc w)) as (E&_).
  destruct (GetRolesByUserID (user_ID u) (w_acc w)) as [[e|l] a]; exact E.
Qed.

Lemma HandleSession_ok t r u w v w' :
  HandleSession t r u w = (inr v, w') → v = u ∧ w_acc w' = w_acc w.
Proof.
  unfold HandleSession. destruct (Handle _ _ _ _ _ _ _ _ _ _) as [[e|[]] s1].
  - by destruct (errors_Is e SessionInactive).
  - intros [= <- <-]. by destruct w.
Qed.

Lemma Auth_token t r w u w' :
  (flags_FixedAdmin = false → ainv (w_acc w)) → r_Authorization r ≠ conf_Token → r_Authorization r ≠ [] →
  Auth t r w = (inr u, w') →
  Disabled u = false ∧
  ∃ c, ParseToken (unix (t 0%nat)) (r_Authorization r) w = inr c ∧ c_PwdTS c = PwdTS u ∧
       (op_GetUserByName (t 1%nat) (c_Username c) (w_acc w)).1 = inr u ∧
       (flags_FixedAdmin = false → c_Username c = Username u ∧ rows (users (w_acc w')) !! user_ID u = Some u).
Proof.
  intros Hi Hc Hne. unfold Auth. cbv zeta. rewrite !bool_decide_false by done. unfold http_bind.
  destruct (token_user t (r_Authorization r) w) as [[c|v] w1] eqn:Et; [done|].
  destruct (token_user_spec _ _ _ _ _ Hi Et) as (Hd&c&Hp&Hts&Hg&Hr).
  pose proof (load_roles_users v w1) as Hl. destruct (load_roles v w1) as [[c'|[]] w2]; [done|]. simpl in Hl.
  intros [-> Ea]%HandleSession_ok. split; [done|]. exists c. split_ands; [done..|by rewrite Hg|].
  by rewrite Ea, Hl.
Qed.
End auth.


(** ** Guessing passwords *)

Section throttle.
Context `{HTR : !Table Role, HTU : !Table User, HCR : !Cache Role, HCU : !Cache User}
        {ST : SessionTable} `{HCT : !Cache bool, HCL : !Cache Z, !CacheLaws Z,
          HCE : !CacheExpire Z, !CacheExpireLaws Z}
        {JW : Jwt} {WE : WebEnv}.
Context (Hfix : flags_FixedAdmin = false).

(** The failed attempts of an address, and whether it is locked out. *)
Definition attempts (ip : gostr) (w : web) : Z := default 0 (cache_Get (loginCache w) ip).
Definition locked (ip : gostr) (w : web) : bool :=
  negb (bool_decide (cache_Get (loginCache w) ip = None)) && (defaultTimes <=? attempts ip w).

(** The credentials were compared and found wrong. *)
Definition wrong_guess (t : nat → Z) (r : request) (q : LoginReq) (w : web) : bool :=
  negb (locked (r_ClientIP r) w) &&
  match (check_login t (r_ClientIP r) (attempts (r_ClientIP r) w) q w).1 with inl _ => true | inr _ => false end.

(** Wrong guesses in a sequence of logins, up to the first one that succeeds. *)
Fixpoint guesses (l : list ((nat → Z) * request * LoginReq)) (w : web) : Z :=
  match l with
  | [] => 0
  | (t, r, q) :: l =>
      match loginHash t r q w with
      | (inr _, _) => 0
      | (inl _, w') => (if wrong_guess t r q w then 1 else 0) + guesses l w'
      end
  end.

Lemma check_login_attempts t ip q w :
  match check_login t ip (attempts ip w) q w with
  | (inl _, w') => attempts ip w' = wrap64 (attempts ip w + 1)
  | (inr _, w') => loginCache w' = loginCache w
  end.
Proof.
  assert (∀ (w1 : web) c, (@login_failed _ _ _ _ _ _ _ User ip (attempts ip w) c w1).1 = inl c ∧
    attempts ip (@login_failed _ _ _ _ _ _ _ User ip (attempts ip w) c w1).2 = wrap64 (attempts ip w + 1)) as Hf.
  { intros w1 c. split; [done|]. unfold attempts at 1. simpl. by rewrite cache_Get_Set, decide_True. }
  unfold check_login. destruct (op_GetUserByName _ _ (w_acc w)) as [[e|u] a]; [apply (Hf _ 400)|].
  rewrite Hfix. cbn [andb]. cbv zeta. destruct (ValidatePwdStaticHash _ _); [apply (Hf _ 400)|].
  destruct (_ && _); [apply (Hf _ 402)|by destruct w].
Qed.

Lemma loginHash_attempts t r q w c w' :
  loginHash t r q w = (inl c, w') →
  attempts (r_ClientIP r) w' =
    if wrong_guess t r q w then wrap64 (attempts (r_ClientIP r) w + 1) else attempts (r_ClientIP r) w.
Proof.
  unfold loginHash, wrong_guess. cbv zeta. fold (attempts (r_ClientIP r) w). fold (locked (r_ClientIP r) w).
  destruct (locked (r_ClientIP r) w); simpl.
  { intros [= _ <-]. unfold attempts. simpl. by rewrite cache_Get_Expire. }
  unfold http_bind. pose proof (check_login_attempts t (r_ClientIP r) q w) as H.
  destruct (check_login _ _ _ q w) as [[c1|u] w1]; [by intros [= _ <-]|].
  unfold on_sessions. destruct (EnsureActiveOnLogin _ _ _ _ _ _ _ (w_sessions w1)) as [[e|[]] s1].
  - intros [= _ <-]. unfold attempts. simpl. by rewrite H.
  - unfold GenerateToken. destruct (SignedString _); [|done]. intros [= _ <-]. unfold attempts. simpl. by rewrite H.
Qed.

Lemma guesses_bound ip l w :
  Forall (λ x, r_ClientIP x.1.2 = ip) l → 0 ≤ attempts ip w ≤ defaultTimes →
  guesses l w ≤ defaultTimes - attempts ip w.
Proof.
  revert w. induction l as [|[[t r] q] l IH]; intros w Hl Hn; simpl; [lia|].
  apply Forall_cons in Hl as [Hr Hl]. simpl in Hr.
  destruct (loginHash t r q w) as [[c|x] w'] eqn:E; [|lia].
  pose proof (loginHash_attempts _ _ _ _ _ _ E) as Ha. rewrite Hr in Ha.
  destruct (wrong_guess t r q w) eqn:Ew.
  - assert (attempts ip w < defaultTimes) as Hlt.
    { unfold wrong_guess in Ew. apply andb_prop in Ew as [Ew _]. rewrite Hr in Ew. unfold locked in Ew.
      unfold attempts in *. destruct (cache_Get (loginCache w) ip) as [n|]; simpl in *; [|unfold defaultTimes; lia].
      destruct (Z.leb_spec defaultTimes n); [done|lia]. }
    rewrite wrap64_id in Ha by (unfold_int64; unfold defaultTimes in *; lia).
    specialize (IH w' Hl). lia.
  - specialize (IH w' Hl). lia.
Qed.
End throttle.

(** However many logins come from one address, with whatever names and
    passwords and on whatever accounts, at most five wrong credentials are
    compared before one of them succeeds; the others are refused unseen. *)
Theorem login_guesses_bounded
    `{HTR : !Table Role, HTU : !Table User, HCR : !Cache Role, HCU : !Cache User}
    {ST : SessionTable} `{HCT : !Cache bool, HCL : !Cache Z, !CacheLaws Z,
      HCE : !CacheExpire Z, !CacheExpireLaws Z}
    {JW : Jwt} {WE : WebEnv} ip l (w : web) :
  flags_FixedAdmin = false → Forall (λ x, r_ClientIP x.1.2 = ip) l →
  cache_Get (loginCache w) ip = None → guesses l w ≤ 5.
Proof.
  intros Hfix Hl Hn. pose proof (guesses_bound Hfix ip l w Hl) as H.
  unfold attempts, defaultTimes in H. rewrite Hn in H. simpl in H. lia.
Qed.

(** ** A server over finite maps *)

(** Tokens spell out their claims in unary digits of a code; a time after the
    expiry or before [NotBefore] is refused. *)
Module AuthMaps.
Export AccMaps SessionMaps.

Fixpoint bits_of (p : positive) : gostr :=
  match p with
  | xH => []
  | xO p => "0"%char :: bits_of p
  | xI p => "1"%char :: bits_of p
  end.

Fixpoint of_bits (s : gostr) : positive :=
  match s with
  | [] => xH
  | c :: s => if bool_decide (c = "0"%char) then xO (of_bits s) else xI (of_bits s)
  end.

Lemma of_bits_bits p : of_bits (bits_of p) = p.
Proof. induction p as [p IH|p IH|]; simpl; [by rewrite IH..|done]. Qed.

Definition claims_code (c : UserClaims) : gostr * (Z * (Z * (Z * Z))) :=
  (c_Username c, (c_PwdTS c, (c_ExpiresAt c, (c_IssuedAt c, c_NotBefore c)))).

Definition bits_Sign (c : UserClaims) : result gostr := inr (#"t" ++ bits_of (encode (claims_code c))).

Definition bits_Parse (now : Z) (s : gostr) : jwt_result :=
  match decode (of_bits (drop 1 s)) with
  | Some (n, (p, (x, (i, b)))) =>
      let c := {| c_Username := n; c_PwdTS := p; c_ExpiresAt := x; c_IssuedAt := i; c_NotBefore := b |} in
      if x <=? now then JwtError ValidationErrorExpired
      else if now <? b then JwtError ValidationErrorNotValidYet
      else JwtValid c
  | None => JwtError ValidationErrorMalformed
  end.

#[export] Instance bits_jwt : Jwt := {| SignedString := bits_Sign; ParseWithClaims := bits_Parse |}.

#[export] Instance bits_jwt_laws : JwtLaws.
Proof.
  split.
  - intros now c c' tok [= <-]. simpl. unfold bits_Parse. cbn [app drop]. rewrite drop_0, of_bits_bits, decode_encode.
    unfold claims_code. repeat case_match; try done. intros [= <-]. by destruct c.
  - intros now c tok. simpl. unfold bits_Parse. destruct (decode _) as [[n [p [x [i b]]]]|]; [|done].
    destruct (Z.leb_spec x now); [done|]. destruct (now <? b); [done|]. by intros [= <-].
Qed.

#[export] Instance map_CacheExpire V : @CacheExpire V (map_Cache V) := λ c _ _, c.
#[export] Instance map_CacheExpireLaws V : @CacheExpireLaws V (map_Cache V) (map_CacheExpire V).
Proof. by intros c k d k'. Qed.

(** Sessions without limits, tokens for 48 hours, one TOTP code. *)
Definition env (token : gostr) : WebEnv := {|
  conf_Token := token; DeviceSessionTTL := 86400; MaxDevices := 0; DeviceEvictPolicy := #"deny";
  AllowRegister := false; TokenExpiresIn := 48; flags_FixedAdmin := false; random_salt := #"salt";
  totp_Validate := λ _ code _, bool_decide (code = #"123456") |}.

Definition bob : User := SetPassword (mk_user 2 #"bob" [3]) #"pw" #"s" 0.

Definition web_users : table User.
Proof.
  refine (list_to_map [(1, mk_user 1 #"alice" [2]); (2, bob); (3, mk_user 3 #"guest" [1])] ↾ _). decide_now.
Defined.

Definition web0 : web := {|
  w_acc := set_users web_users state0;
  w_sessions := no_sessions;
  validTokenCache := (∅ : gmap gostr bool);
  loginCache := (∅ : gmap gostr Z);
|}.

Lemma web0_start : web_start web0.
Proof.
  split; [|intros tok; apply lookup_empty]. destruct state0_start as (H1&H2&H3&H4).
  unfold acc_start. split_ands; [exact H1|exact H2|done|exact H4].
Qed.

Definition req (tok : gostr) : request :=
  {| r_Authorization := tok; r_ClientId := #"c1"; r_client_id := []; r_UserAgent := #"ua"; r_ClientIP := #"10.0.0.1" |}.
Definition bob_login : LoginReq := {| l_Username := #"bob"; l_Password := StaticHash #"pw"; l_OtpCode := [] |}.

(** The clock at second [s]. *)
Definition at_second (s : Z) : nat → Z := λ _, s * second.
End AuthMaps.
Import AuthMaps.

(** The outcome of a request, and the token of a login. *)
Definition code_of {A} (r : (Z + A) * web) : Z := match r.1 with inl c => c | inr _ => 200 end.
Definition token_of (r : (Z + gostr * gostr) * web) : gostr := match r.1 with inl _ => [] | inr (tok, _) => tok end.


(** Seven wrong passwords, then the right one. *)
(** ** Where the checks can be undone *)

(** The body of an edit of a user that changes the base path only. *)
Definition edit_body (u : User) (base : gostr) : User :=
  {| user_ID := user_ID u; Username := Username u; PwdHash := []; PwdTS := 0; Salt := []; Password := [];
     BasePath := base; user_Role := user_Role u; Disabled := Disabled u; Permission := Permission u;
     OtpSecret := []; SsoID := SsoID u; Authn := [] |}.

(** A changed password revokes the tokens issued before, but editing the
    user afterwards can bring them back: the handler keeps the hash and the
    salt of a user whose password is not edited, and resets the time it was
    set to zero.  Here a token issued to a user edited before is refused after
    the change and accepted again after one more edit; the edit also forgets
    the user's WebAuthn credentials. *)
Theorem password_change_undone :
  let WE := env #"alist-token" in
  let l := loginHash (at_second 1000) (req []) bob_login web0 in
  let r := req (token_of l) in
  let changed := (UpdateCurrent (at_second 1500) bob #"bob" #"new password" [] l.2).2 in
  let edited := (handle_UpdateUser (at_second 1600) (edit_body bob #"/pub") changed).2 in
  bound_user (edit_body bob #"/pub") ∧
  code_of (Auth (at_second 1400) r l.2) = 200 ∧
  code_of (Auth (at_second 1550) r changed) = 401 ∧
  code_of (Auth (at_second 1700) r edited) = 200 ∧
  ((λ u, ValidateRawPassword u #"new password") <$> rows (users (w_acc edited)) !! 2) = Some None.
Proof. cbv zeta. split_ands; vm_compute; split_ands; reflexivity. Qed.

(** When the token of the settings is empty or cannot be read, a request
    without a token is authenticated as the administrator; the WebDAV server
    guards against it, this middleware does not. *)
Example empty_token_is_admin :
  (Auth (WE := env #"") (at_second 1000) (req []) web0).1 = inr (mk_user 1 #"alice" [2]) ∧
  (Auth (WE := env #"alist-token") (at_second 1000) (req []) web0).1 = inr (mk_user 3 #"guest" [1]).
Proof. split; vm_compute; reflexivity. Qed.
