(* ===== verification/GoHeap.v ===== *)
(** * Go's [container/heap]

    The functions [Push] and [Remove] of the standard library, over the
    interface a client implements.  [heap_Interface] has the methods of
    [heap.Interface]; [heap_Laws] says what they must do to an underlying
    list: [view] reads it, [put] replaces it, and every method is a change of
    the list.  The two functions then keep the list a binary heap. *)

From S2P Require Import Prelude.

Local Open Scope nat_scope.

Notation "'let?' x ':=' c 'in' k" :=
  (match c with Panic => Panic | Ret x => k end)
  (at level 10, x pattern, c at level 100, k at level 200,
   format "'[v' 'let?'  x  ':='  c  'in' '//' k ']'") : go_scope.

(** ** The code *)

Class heap_Interface (S A : Type) := {
  heap_Len : S → nat;
  heap_Less : S → nat → nat → outcome bool;
  heap_Swap : S → nat → nat → outcome S;
  heap_push : S → A → outcome S;
  heap_pop : S → outcome (S * A);
}.

Section heap.
Context {S A : Type} `{heap_Interface S A}.

Fixpoint heap_up (fuel : nat) (h : S) (j : nat) : outcome S :=
  match fuel with
  | 0 => Ret h
  | Datatypes.S fuel =>
      let i := (j - 1) / 2 in
      if i =? j then Ret h
      else
        let? less := heap_Less h j i in
        if negb less then Ret h
        else
          let? h := heap_Swap h i j in
          heap_up fuel h i
  end.

Fixpoint heap_down (fuel : nat) (h : S) (i0 i n : nat) : outcome (S * bool) :=
  match fuel with
  | 0 => Ret (h, i0 <? i)
  | Datatypes.S fuel =>
      let j1 := 2 * i + 1 in
      if n <=? j1 then Ret (h, i0 <? i)
      else
        let? second :=
          (if j1 + 1 <? n then heap_Less h (j1 + 1) j1 else Ret false) in
        let j := if second : bool then j1 + 1 else j1 in
        let? less := heap_Less h j i in
        if negb less then Ret (h, i0 <? i)
        else
          let? h := heap_Swap h i j in
          heap_down fuel h i0 j n
  end.

(** [heap.Push] *)
Definition heap_Push (h : S) (x : A) : outcome S :=
  let? h := heap_push h x in
  heap_up (heap_Len h) h (heap_Len h - 1).

(** [heap.Remove]; on an empty heap the swap with index [-1] panics. *)
Definition heap_Remove (h : S) (i : nat) : outcome (S * A) :=
  match heap_Len h with
  | 0 => Panic
  | Datatypes.S n =>
      let? h :=
        (if n =? i then Ret h
         else
           let? h := heap_Swap h i n in
           let? (h, moved) := heap_down n h i i n in
           if (moved : bool) then Ret h else heap_up (Datatypes.S i) h i) in
      heap_pop h
  end.
End heap.

(** ** What the methods promise *)

Definition list_swap {A} (i j : nat) (l : list A) : list A :=
  match l !! i, l !! j with
  | Some a, Some b => <[i := b]> (<[j := a]> l)
  | _, _ => l
  end.

Class heap_Laws (S A : Type) `{heap_Interface S A} := {
  view : S → list A;
  put : S → list A → S;
  key : S → A → Z;
  (** a list the structure can hold, and a structure in a consistent state *)
  content : S → list A → Prop;
  wf : S → Prop;
  wf_content s : wf s → content s (view s);
  wf_put s l : content s l → wf (put s l);
  content_perm s l l' : l ≡ₚ l' → content s l → content s l';
  content_tail s l x : content s (l ++ [x]) → content s l;
  content_put s l l' : content (put s l) l' ↔ content s l';
  view_put s l : view (put s l) = l;
  put_put s l l' : put (put s l) l' = put s l';
  put_view s : wf s → put s (view s) = s;
  key_put s l x : key (put s l) x = key s x;
  Len_view s : heap_Len s = length (view s);
  Less_key s i j a b :
    wf s → view s !! i = Some a → view s !! j = Some b →
    heap_Less s i j = Ret (key s a <? key s b)%Z;
  Swap_put s i j :
    wf s → i < length (view s) → j < length (view s) → i ≠ j →
    heap_Swap s i j = Ret (put s (list_swap i j (view s)));
  push_put s x :
    wf s → content s (view s ++ [x]) → heap_push s x = Ret (put s (view s ++ [x]));
  pop_put s l x :
    wf s → view s = l ++ [x] → heap_pop s = Ret (put s l, x);
}.

(** ** Swapping two elements of a list *)

Section swap.
Context {A : Type}.
Implicit Types l : list A.

Lemma list_swap_length i j l : length (list_swap i j l) = length l.
Proof. unfold list_swap. repeat case_match; [|done..]. by rewrite !length_insert. Qed.

Lemma list_swap_lookup i j l x :
  i < length l → j < length l →
  list_swap i j l !! x = l !! (if decide (x = i) then j else if decide (x = j) then i else x).
Proof.
  intros Hi Hj. unfold list_swap.
  destruct (lookup_lt_is_Some_2 l i Hi) as [a Ha].
  destruct (lookup_lt_is_Some_2 l j Hj) as [b Hb]. rewrite Ha, Hb.
  destruct (decide (x = i)) as [->|Hx].
  - rewrite list_lookup_insert_eq by by rewrite length_insert. done.
  - rewrite list_lookup_insert_ne by done. destruct (decide (x = j)) as [->|Hx'].
    + by rewrite list_lookup_insert_eq.
    + by rewrite list_lookup_insert_ne.
Qed.

Lemma list_swap_perm i j l :
  i < length l → j < length l → i ≠ j → list_swap i j l ≡ₚ l.
Proof.
  intros Hi Hj Hij. apply Permutation_inj. rewrite list_swap_length. split; [done|].
  exists (λ x, if decide (x = i) then j else if decide (x = j) then i else x). split.
  - intros x y. repeat case_decide; congruence.
  - intros x. rewrite list_swap_lookup by done. done.
Qed.
End swap.

(** ** Binary heaps *)

Section binary.
Context {A : Type} (k : A → Z).
Implicit Types h : list A.

Definition child (i c : nat) : Prop := c = 2 * i + 1 ∨ c = 2 * i + 2.

(** The key at an index; only used below the length. *)
Definition kat h (i : nat) : Z := from_option k 0%Z (h !! i).

(** The heap order among the first [n] elements, except at a set of children. *)
Definition order (n : nat) (h : list A) (except : nat → nat → Prop) : Prop :=
  ∀ i c, child i c → c < n → ¬ except i c → (kat h i ≤ kat h c)%Z.

Definition is_heap h : Prop := order (length h) h (λ _ _, False).

(** Index [i] may be out of order with its parent, or with its children. *)
Definition bridged (n : nat) h (i : nat) : Prop :=
  ∀ p c, child p i → child i c → c < n → (kat h p ≤ kat h c)%Z.

Lemma kat_swap i j h x :
  i < length h → j < length h →
  kat (list_swap i j h) x = kat h (if decide (x = i) then j else if decide (x = j) then i else x).
Proof. intros. unfold kat. by rewrite list_swap_lookup. Qed.

(** One step of sifting up. *)
Lemma up_step n h p j :
  n ≤ length h → child p j → j < n → (kat h j < kat h p)%Z →
  order n h (λ i c, c = j) → bridged n h j →
  order n (list_swap p j h) (λ i c, c = p) ∧ bridged n (list_swap p j h) p.
Proof.
  unfold child. intros Hn Hp Hj Hlt Ho Hb. split.
  - intros i c Hic Hc He. rewrite !kat_swap by lia.
    unfold order, child in *. unfold bridged, child in Hb.
    destruct (decide (c = p)) as [->|]; [done|].
    destruct (decide (i = p)) as [->|Hip].
    + destruct (decide (c = j)) as [->|]; [lia|].
      specialize (Ho p c). lia.
    + destruct (decide (c = j)) as [->|]; [lia|].
      destruct (decide (i = j)) as [->|].
      * apply Hb; lia.
      * apply Ho; lia.
  - intros i c Hi Hc Hcn. unfold child in *. rewrite !kat_swap by lia.
    destruct (decide (i = p)); [lia|]. destruct (decide (c = p)); [lia|].
    destruct (decide (i = j)); [lia|].
    pose proof (Ho i p) as Hop. unfold child in Hop.
    destruct (decide (c = j)) as [->|].
    + apply Hop; lia.
    + specialize (Ho p c). unfold child in Ho. lia.
Qed.

(** One step of sifting down to the smaller child [j]. *)
Lemma down_step n h i j :
  n ≤ length h → child i j → j < n → (kat h j < kat h i)%Z →
  (∀ c, child i c → c < n → (kat h j ≤ kat h c)%Z) →
  order n h (λ p c, p = i ∨ c = i) → bridged n h i →
  order n (list_swap i j h) (λ p c, p = j) ∧
  bridged n (list_swap i j h) j ∧ (kat (list_swap i j h) i ≤ kat (list_swap i j h) j)%Z.
Proof.
  unfold child. intros Hn Hij Hj Hlt Hmin Ho Hb. split_ands.
  - intros p c Hpc Hc He. rewrite !kat_swap by lia. unfold order, bridged, child in *.
    destruct (decide (p = i)) as [->|Hpi].
    + destruct (decide (c = i)); [lia|]. destruct (decide (c = j)) as [->|]; [lia|].
      apply Hmin; lia.
    + destruct (decide (p = j)) as [->|Hpj]; [lia|].
      destruct (decide (c = i)) as [->|].
      * apply Hb; lia.
      * destruct (decide (c = j)) as [->|]; [lia|]. apply Ho; lia.
  - intros p c Hp Hc Hcn. unfold child in *.
    assert (p = i) as -> by lia. rewrite !kat_swap by lia.
    rewrite decide_True by done. destruct (decide (c = i)); [lia|].
    destruct (decide (c = j)); [lia|]. apply Ho; unfold child; lia.
  - rewrite !kat_swap by lia. rewrite decide_True by done.
    destruct (decide (j = i)); [lia|]. rewrite decide_True by done. lia.
Qed.

Lemma is_heap_root h x : is_heap h → head h = Some x → ∀ y, y ∈ h → (k x ≤ k y)%Z.
Proof.
  intros Hh Hx y Hy. apply list_elem_of_lookup in Hy as [c Hc].
  assert (Hroot : ∀ c, c < length h → (kat h 0 ≤ kat h c)%Z).
  { clear c Hc. intros c. induction (lt_wf c) as [c _ IH]. intros Hc.
    destruct c as [|c]; [lia|].
    assert (child (c / 2) (S c)) as Hp.
    { unfold child. pose proof (Nat.div_mod c 2). pose proof (Nat.mod_upper_bound c 2). lia. }
    etransitivity; [apply (IH (c / 2))|apply (Hh _ _ Hp); [lia|tauto]];
      unfold child in Hp; lia. }
  specialize (Hroot c (lookup_lt_Some _ _ _ Hc)). unfold kat in Hroot.
  rewrite Hc in Hroot. destruct h; simpl in *; [done|]. by injection Hx as ->.
Qed.
End binary.

(** ** Correctness of [Push] and [Remove] *)

Section correct.
Context {S A : Type} `{HL : heap_Laws S A}.
Implicit Types (s : S) (h : list A) (x : A).

Lemma Less_at s h i j :
  content s h → i < length h → j < length h →
  heap_Less (put s h) i j = Ret (kat (key s) h i <? kat (key s) h j)%Z.
Proof.
  intros Hc Hi Hj. unfold kat.
  destruct (lookup_lt_is_Some_2 h i Hi) as [a Ha].
  destruct (lookup_lt_is_Some_2 h j Hj) as [b Hb]. rewrite Ha, Hb.
  rewrite (Less_key _ _ _ a b); [by rewrite !key_put|by apply wf_put|by rewrite view_put..].
Qed.

Lemma Swap_at s h i j :
  content s h → i < length h → j < length h → i ≠ j →
  heap_Swap (put s h) i j = Ret (put s (list_swap i j h)).
Proof.
  intros Hc Hi Hj Hij.
  rewrite Swap_put; [|by apply wf_put|by rewrite view_put..|done].
  by rewrite view_put, put_put.
Qed.

Lemma content_swap s h i j :
  content s h → i < length h → j < length h → i ≠ j → content s (list_swap i j h).
Proof. intros. eapply content_perm; [|done]. symmetry. by apply list_swap_perm. Qed.

(** The elements from index [n] on are left alone. *)
Definition same_from (n : nat) h h' : Prop := ∀ y, n ≤ y → h' !! y = h !! y.

Lemma same_from_swap n h h' i j :
  i < n → j < n → n ≤ length h → same_from n (list_swap i j h) h' → same_from n h h'.
Proof.
  intros Hi Hj Hn Hs y Hy. rewrite (Hs y Hy), list_swap_lookup by lia.
  by rewrite !decide_False by lia.
Qed.

Lemma parent_child j : j ≠ 0 → child ((j - 1) / 2) j.
Proof.
  intros. unfold child. pose proof (Nat.div_mod (j - 1) 2).
  pose proof (Nat.mod_upper_bound (j - 1) 2). lia.
Qed.

Lemma heap_up_spec fuel s h n j :
  content s h → n ≤ length h → j < n → j < fuel →
  order (key s) n h (λ _ c, c = j) → bridged (key s) n h j →
  ∃ h', heap_up fuel (put s h) j = Ret (put s h') ∧ h' ≡ₚ h ∧ same_from n h h' ∧
        order (key s) n h' (λ _ _, False).
Proof.
  revert h j. induction fuel as [|fuel IH]; intros h j Hc Hn Hj Hf Ho Hb; [lia|].
  cbn [heap_up]. set (i := (j - 1) / 2).
  destruct (Nat.eqb_spec i j) as [Hij|Hij].
  { assert (j = 0) as ->.
    { destruct (decide (j = 0)) as [|Hne]; [done|].
      pose proof (parent_child j Hne) as Hp. fold i in Hp. unfold child in Hp. lia. }
    exists h. split_ands; [done|done|done|]. intros p c Hpc Hcn _. apply Ho; [done|done|].
    unfold child in Hpc. lia. }
  assert (Hp : child i j) by (apply parent_child; intros ->; by apply Hij).
  assert (Hi : i < j) by (unfold child in Hp; lia).
  rewrite Less_at by (done || lia).
  destruct (Z.ltb_spec (kat (key s) h j) (kat (key s) h i)) as [Hlt|Hge]; cbn [negb].
  - rewrite Swap_at by (done || lia).
    destruct (up_step (key s) n h i j) as [Ho' Hb']; [done..|].
    destruct (IH (list_swap i j h) i) as (h'&Hr&Hperm&Hsame&Hord); [|by rewrite ?list_swap_length; lia..|done|done|].
    { apply content_swap; done || lia. }
    exists h'. split_ands; [done| | |done].
    + rewrite Hperm. apply list_swap_perm; lia.
    + eapply same_from_swap; [| | |done]; lia.
  - exists h. split_ands; [done|done|done|]. intros p c Hpc Hcn _.
    destruct (decide (c = j)) as [->|]; [|by apply Ho].
    assert (p = i) as -> by (unfold child in *; lia). lia.
Qed.

Lemma heap_down_spec fuel s h i0 i n :
  content s h → n ≤ length h → n < fuel + i + 1 → i < n → i0 ≤ i →
  order (key s) n h (λ p c, p = i ∨ c = i ∧ i = i0) → bridged (key s) n h i →
  ∃ h' moved, heap_down fuel (put s h) i0 i n = Ret (put s h', moved) ∧ h' ≡ₚ h ∧
    same_from n h h' ∧
    if (moved : bool) then order (key s) n h' (λ _ _, False)
    else i = i0 ∧ h' = h ∧ ∀ c, child i c → c < n → (kat (key s) h i ≤ kat (key s) h c)%Z.
Proof.
  revert h i. induction fuel as [|fuel IH]; intros h i Hc Hn Hf Hi Hi0 Ho Hb; [lia|].
  cbn [heap_down]. change (i + (i + 0)) with (2 * i).
  assert (Hstop : (∀ c, child i c → c < n → (kat (key s) h i ≤ kat (key s) h c)%Z) →
    ∃ h' moved, Ret (put s h, i0 <? i) = Ret (put s h', moved) ∧ h' ≡ₚ h ∧ same_from n h h' ∧
      if (moved : bool) then order (key s) n h' (λ _ _, False)
      else i = i0 ∧ h' = h ∧ ∀ c, child i c → c < n → (kat (key s) h i ≤ kat (key s) h c)%Z).
  { intros Hch. exists h, (i0 <? i). split_ands; [done|done|done|].
    destruct (Nat.ltb_spec i0 i) as [Hlt|Hge].
    - intros p c Hpc Hcn _. destruct (decide (p = i)) as [->|]; [by apply Hch|].
      apply Ho; [done|done|lia].
    - split_ands; [lia|done|done]. }
  destruct (Nat.leb_spec n (2 * i + 1)) as [Hle|Hgt].
  { apply Hstop. unfold child. lia. }
  assert (Hsec : ∃ b : bool, (if 2 * i + 1 + 1 <? n then heap_Less (put s h) (2 * i + 1 + 1) (2 * i + 1)
      else Ret false) = Ret b ∧
    let j := if b then 2 * i + 1 + 1 else 2 * i + 1 in
    child i j ∧ j < n ∧ ∀ c, child i c → c < n → (kat (key s) h j ≤ kat (key s) h c)%Z).
  { destruct (Nat.ltb_spec (2 * i + 1 + 1) n) as [H2|H2].
    - rewrite Less_at by (done || lia). eexists. split; [reflexivity|].
      unfold child.
      destruct (Z.ltb_spec (kat (key s) h (2 * i + 1 + 1)) (kat (key s) h (2 * i + 1)));
        (split_ands; [lia|lia|]); intros c [->| ->] ?; rewrite <- ?Nat.add_assoc in *; simpl Nat.add in *; lia.
    - exists false. split; [done|]. unfold child. split_ands; [lia|lia|].
      intros c [->| ->] ?; lia. }
  destruct Hsec as (b&->&Hj&Hjn&Hmin). set (j := if b then _ else _) in *.
  assert (Hij : i < j) by (unfold child in Hj; lia).
  rewrite Less_at by (done || lia).
  destruct (Z.ltb_spec (kat (key s) h j) (kat (key s) h i)) as [Hlt|Hge]; cbn [negb].
  - rewrite Swap_at by (done || lia).
    destruct (down_step (key s) n h i j) as (Ho'&Hb'&_); [done..| |done|].
    { intros p c Hpc Hcn Hne. apply Ho; [done|done|]. tauto. }
    destruct (IH (list_swap i j h) j) as (h'&moved&Hr&Hperm&Hsame&Hord);
      [by apply content_swap; done || lia|by rewrite ?list_swap_length; lia..| |done|].
    { intros p c Hpc Hcn Hne. apply Ho'; [done|done|]. tauto. }
    exists h', moved. split_ands; [done| | |].
    + rewrite Hperm. apply list_swap_perm; lia.
    + eapply same_from_swap; [| | |done]; lia.
    + destruct moved; [done|]. lia.
  - apply Hstop. intros c Hcc Hcn. etransitivity; [exact Hge|]. by apply Hmin.
Qed.

Lemma heap_Push_spec s x :
  wf s → content s (view s ++ [x]) → is_heap (key s) (view s) →
  ∃ h', heap_Push s x = Ret (put s h') ∧ h' ≡ₚ view s ++ [x] ∧ is_heap (key s) h'.
Proof.
  intros Hw Hc Hh. unfold heap_Push. rewrite push_put by done. rewrite Len_view, view_put.
  rewrite length_app. cbn [length].
  destruct (heap_up_spec (length (view s) + 1) s (view s ++ [x]) (length (view s) + 1)
    (length (view s) + 1 - 1)) as (h'&Hr&Hp&_&Ho); [done|by rewrite length_app|lia|lia| | |].
  - intros i c Hic Hcn Hne. unfold kat. unfold child in Hic. rewrite !lookup_app_l by lia.
    apply (Hh i c); [done|lia|tauto].
  - intros p c _ Hc' Hcn. unfold child in Hc'. lia.
  - exists h'. split_ands; [done|done|]. unfold is_heap.
    by rewrite (Permutation_length Hp), length_app.
Qed.

(** Dropping the last element of the array. *)
Lemma heap_take s n h x :
  length h = Datatypes.S n → h !! n = Some x → order (key s) n h (λ _ _, False) →
  h = take n h ++ [x] ∧ is_heap (key s) (take n h).
Proof.
  intros Hl Hx Ho. split.
  - rewrite <- (take_drop n h) at 1. f_equal.
    rewrite (drop_S h x n) by done. by rewrite drop_ge by lia.
  - intros i c Hic Hc _. rewrite length_take in Hc. unfold kat.
    unfold child in Hic. rewrite !lookup_take_lt by lia. apply Ho; unfold child; lia || tauto.
Qed.

Lemma heap_Remove_at s h i x :
  content s h → is_heap (key s) h → h !! i = Some x →
  ∃ h', heap_Remove (put s h) i = Ret (put s h', x) ∧ h ≡ₚ x :: h' ∧ is_heap (key s) h'.
Proof.
  intros Hc Hh Hx. pose proof (lookup_lt_Some _ _ _ Hx) as Hlt.
  unfold heap_Remove. rewrite Len_view, view_put.
  destruct (length h) as [|n] eqn:Hl; [lia|].
  assert (Hfin : ∀ h2, h2 ≡ₚ h → h2 !! n = Some x → order (key s) n h2 (λ _ _, False) →
    ∃ h', heap_pop (put s h2) = Ret (put s h', x) ∧ h ≡ₚ x :: h' ∧ is_heap (key s) h').
  { intros h2 Hp Hx2 Ho. pose proof (Permutation_length Hp) as Hl2.
    destruct (heap_take s n h2 x) as [Heq Hheap]; [lia|done|done|].
    exists (take n h2). split_ands; [| |done].
    - rewrite (pop_put _ (take n h2) x); [by rewrite put_put| |by rewrite view_put].
      apply wf_put. by eapply content_perm.
    - rewrite <- Hp, Heq at 1. by rewrite Permutation_app_comm. }
  destruct (Nat.eqb_spec n i) as [->|Hni].
  { apply Hfin; [done|done|]. intros p c Hpc Hcn _. apply (Hh p c); [done|lia|tauto]. }
  rewrite Swap_at by (done || lia).
  set (h1 := list_swap i n h).
  assert (Hk : ∀ y, y ≠ i → y < n → kat (key s) h1 y = kat (key s) h y).
  { intros y Hyi Hyn. unfold h1. rewrite kat_swap by lia. by rewrite !decide_False by lia. }
  assert (Hp1 : h1 ≡ₚ h) by (apply list_swap_perm; lia).
  assert (Hx1 : h1 !! n = Some x).
  { unfold h1. rewrite list_swap_lookup by lia. rewrite decide_False by lia. by rewrite decide_True. }
  assert (Hc1 : content s h1) by (by eapply content_perm; [symmetry|]).
  assert (Hlen1 : length h1 = Datatypes.S n) by (by rewrite (Permutation_length Hp1)).
  destruct (heap_down_spec n s h1 i i n) as (h2&moved&Hr&Hp2&Hs2&Hm); [done|lia|lia|lia|lia| | |].
  - intros p c Hpc Hcn Hne. rewrite !Hk by (unfold child in Hpc; lia). apply (Hh p c); [done|lia|tauto].
  - intros p c Hp Hc' Hcn. rewrite !Hk by (unfold child in *; lia).
    transitivity (kat (key s) h i); apply Hh; unfold child in *; lia || tauto.
  - rewrite Hr. destruct moved.
    + apply Hfin; [by rewrite Hp2|rewrite Hs2; done|done].
    + destruct Hm as (_&->&Hch).
      destruct (heap_up_spec (Datatypes.S i) s h1 n i) as (h3&->&Hp3&Hs3&Ho3); [done|lia|lia|lia| | |].
      * intros p c Hpc Hcn Hne. destruct (decide (p = i)) as [->|Hpi]; [by apply Hch|].
        rewrite !Hk by (unfold child in Hpc; lia). apply (Hh p c); [done|lia|tauto].
      * intros p c Hp Hc' Hcn. rewrite !Hk by (unfold child in *; lia).
        transitivity (kat (key s) h i); apply Hh; unfold child in *; lia || tauto.
      * apply Hfin; [by rewrite Hp3|rewrite Hs3; done|done].
Qed.

Lemma heap_Remove_spec s i x :
  wf s → is_heap (key s) (view s) → view s !! i = Some x →
  ∃ h', heap_Remove s i = Ret (put s h', x) ∧ view s ≡ₚ x :: h' ∧ is_heap (key s) h'.
Proof.
  intros Hw Hh Hx. destruct (heap_Remove_at s (view s) i x) as (h'&Hr&?&?); [|done|done|].
  - by apply wf_content.
  - exists h'. rewrite put_view in Hr by done. done.
Qed.
End correct.
