(* ===== verification/WebdavLock.v ===== *)
(** * The WebDAV lock system: [server/webdav/lock.go]

    [memLS] is an in-memory table of locks.  Nodes are shared between three
    indices (by name, by token, and a binary heap by expiry time), carry a
    reference count of the locks at or below their name, and are changed in
    place: a node is a location of [nodes] here, and the indices hold
    locations.  The code is translated first; the second half relates it to
    an abstract table of locks. *)

From S2P Require Import Prelude GoStrings GoHeap.

Local Open Scope Z_scope.

(** ** Data *)

Inductive lock_error := ErrConfirmationFailed | ErrForbidden | ErrLocked | ErrNoSuchLock.

#[export] Instance lock_error_eq_dec : EqDecision lock_error.
Proof. solve_decision. Defined.

Record Condition := { cond_Not : bool; cond_Token : gostr; cond_ETag : gostr }.

Record LockDetails := {
  Root : gostr;
  Duration : Z;
  OwnerXML : gostr;
  ZeroDepth : bool;
}.

Record memLSNode := {
  details : LockDetails;
  token : gostr;
  refCount : Z;
  expiry : Z;
  byExpiryIndex : Z;
  held : bool;
}.

Record memLS := {
  nodes : list memLSNode;
  byName : gmap gostr nat;
  byToken : gmap gostr nat;
  gen : Z;
  byExpiry : list nat;
}.

#[export] Instance LockDetails_eq_dec : EqDecision LockDetails.
Proof. solve_decision. Defined.

(** Assignments to the fields of a node and of the table. *)
Definition set_details (d : LockDetails) (n : memLSNode) : memLSNode :=
  {| details := d; token := token n; refCount := refCount n; expiry := expiry n;
     byExpiryIndex := byExpiryIndex n; held := held n |}.
Definition set_token (t : gostr) (n : memLSNode) : memLSNode :=
  {| details := details n; token := t; refCount := refCount n; expiry := expiry n;
     byExpiryIndex := byExpiryIndex n; held := held n |}.
Definition add_refCount (d : Z) (n : memLSNode) : memLSNode :=
  {| details := details n; token := token n; refCount := refCount n + d; expiry := expiry n;
     byExpiryIndex := byExpiryIndex n; held := held n |}.
Definition set_expiry (e : Z) (n : memLSNode) : memLSNode :=
  {| details := details n; token := token n; refCount := refCount n; expiry := e;
     byExpiryIndex := byExpiryIndex n; held := held n |}.
Definition set_byExpiryIndex (i : Z) (n : memLSNode) : memLSNode :=
  {| details := details n; token := token n; refCount := refCount n; expiry := expiry n;
     byExpiryIndex := i; held := held n |}.
Definition set_held (b : bool) (n : memLSNode) : memLSNode :=
  {| details := details n; token := token n; refCount := refCount n; expiry := expiry n;
     byExpiryIndex := byExpiryIndex n; held := b |}.

Definition set_nodes (ns : list memLSNode) (m : memLS) : memLS :=
  {| nodes := ns; byName := byName m; byToken := byToken m; gen := gen m; byExpiry := byExpiry m |}.
Definition set_byName (b : gmap gostr nat) (m : memLS) : memLS :=
  {| nodes := nodes m; byName := b; byToken := byToken m; gen := gen m; byExpiry := byExpiry m |}.
Definition set_byToken (b : gmap gostr nat) (m : memLS) : memLS :=
  {| nodes := nodes m; byName := byName m; byToken := b; gen := gen m; byExpiry := byExpiry m |}.
Definition set_gen (g : Z) (m : memLS) : memLS :=
  {| nodes := nodes m; byName := byName m; byToken := byToken m; gen := g; byExpiry := byExpiry m |}.
Definition set_byExpiry (h : list nat) (m : memLS) : memLS :=
  {| nodes := nodes m; byName := byName m; byToken := byToken m; gen := gen m; byExpiry := h |}.

(** A write through a pointer. *)
Definition upd (l : nat) (f : memLSNode → memLSNode) (m : memLS) : memLS :=
  set_nodes (alter f l (nodes m)) m.

(** ** The code *)

(** [server/webdav/file.go] *)
Definition slashClean (name : gostr) : gostr :=
  let name :=
    match name with
    | [] => #"/" ++ name
    | c :: _ => if negb (bool_decide (c = "/"%char)) then #"/" ++ name else name
    end in
  Clean name.

Definition NewMemLS (now : Z) : memLS :=
  {| nodes := []; byName := ∅; byToken := ∅; gen := wrapu64 now; byExpiry := [] |}.

Definition nextToken (m : memLS) : memLS * gostr :=
  let m := set_gen (wrapu64 (gen m + 1)) m in (m, FormatUint (gen m)).

(** The heap methods of type [byExpiry]. *)
Definition byExpiry_Len (m : memLS) : nat := length (byExpiry m).

Definition byExpiry_Less (m : memLS) (i j : nat) : outcome bool :=
  match byExpiry m !! i, byExpiry m !! j with
  | Some a, Some b =>
      match nodes m !! a, nodes m !! b with
      | Some na, Some nb => Ret (expiry na <? expiry nb)
      | _, _ => Panic
      end
  | _, _ => Panic
  end.

Definition byExpiry_Swap (m : memLS) (i j : nat) : outcome memLS :=
  match byExpiry m !! i, byExpiry m !! j with
  | Some a, Some b =>
      let m := set_byExpiry (<[i := b]> (<[j := a]> (byExpiry m))) m in
      let m := upd b (set_byExpiryIndex (Z.of_nat i)) m in
      Ret (upd a (set_byExpiryIndex (Z.of_nat j)) m)
  | _, _ => Panic
  end.

Definition byExpiry_Push (m : memLS) (n : nat) : outcome memLS :=
  let m := upd n (set_byExpiryIndex (Z.of_nat (length (byExpiry m)))) m in
  Ret (set_byExpiry (byExpiry m ++ [n]) m).

Definition byExpiry_Pop (m : memLS) : outcome (memLS * nat) :=
  match last (byExpiry m) with
  | None => Panic
  | Some n =>
      let m := upd n (set_byExpiryIndex (-1)) m in
      Ret (set_byExpiry (take (length (byExpiry m) - 1) (byExpiry m)) m, n)
  end.

#[export] Instance byExpiry_heap : heap_Interface memLS nat := {
  heap_Len := byExpiry_Len;
  heap_Less := byExpiry_Less;
  heap_Swap := byExpiry_Swap;
  heap_push := byExpiry_Push;
  heap_pop := byExpiry_Pop;
}.

(** [walkToRoot]: [f] may change the state; it stops when [f] is false.  A
    name without a slash makes the slice expression panic. *)
Fixpoint walk {S} (fuel : nat) (f : S → gostr → bool → outcome (S * bool))
    (s : S) (name : gostr) (first : bool) : outcome (S * bool) :=
  match fuel with
  | 0%nat => Panic
  | Datatypes.S fuel =>
      let? (s, ok) := f s name first in
      if negb ok then Ret (s, false)
      else if bool_decide (name = #"/") then Ret (s, true)
      else
        let i := LastIndex name #"/" in
        if i <? 0 then Panic
        else
          let name := slice_to name i in
          let name := if bool_decide (name = #"") then #"/" else name in
          walk fuel f s name false
  end.

Definition walkToRoot {S} (f : S → gostr → bool → outcome (S * bool))
    (s : S) (name : gostr) : outcome (S * bool) :=
  walk (Datatypes.S (length name)) f s name true.

Definition canCreate_visit (m : memLS) (zeroDepth : bool)
    (u : unit) (name0 : gostr) (first : bool) : outcome (unit * bool) :=
  match byName m !! name0 with
  | None => Ret (u, true)
  | Some l =>
      match nodes m !! l with
      | None => Panic
      | Some n =>
          if first then
            if negb (bool_decide (token n = #"")) then Ret (u, false)
            else if negb zeroDepth then Ret (u, false)
            else Ret (u, true)
          else if negb (bool_decide (token n = #"")) && negb (ZeroDepth (details n))
          then Ret (u, false)
          else Ret (u, true)
      end
  end.

Definition canCreate (m : memLS) (name : gostr) (zeroDepth : bool) : outcome bool :=
  let? (_, ok) := walkToRoot (canCreate_visit m zeroDepth) tt name in Ret ok.

Definition new_node (name0 : gostr) : memLSNode :=
  {| details := {| Root := name0; Duration := 0; OwnerXML := []; ZeroDepth := false |};
     token := []; refCount := 0; expiry := 0; byExpiryIndex := -1; held := false |}.

(** The state of the walk is the table and the variable [ret]. *)
Definition create_visit (s : memLS * option nat) (name0 : gostr) (first : bool)
    : outcome ((memLS * option nat) * bool) :=
  let '(m, ret) := s in
  let '(m, n) :=
    match byName m !! name0 with
    | Some n => (m, n)
    | None =>
        let n := length (nodes m) in
        let m := set_nodes (nodes m ++ [new_node name0]) m in
        (set_byName (<[name0 := n]> (byName m)) m, n)
    end in
  let m := upd n (add_refCount 1) m in
  Ret ((m, if first then Some n else ret), true).

Definition create (m : memLS) (name : gostr) : outcome (memLS * option nat) :=
  let? (s, _) := walkToRoot create_visit (m, None) name in Ret s.

Definition remove_visit (m : memLS) (name0 : gostr) (first : bool) : outcome (memLS * bool) :=
  match byName m !! name0 with
  | None => Panic
  | Some x =>
      let m := upd x (add_refCount (-1)) m in
      match nodes m !! x with
      | None => Panic
      | Some nx =>
          if refCount nx =? 0 then Ret (set_byName (delete name0 (byName m)) m, true)
          else Ret (m, true)
      end
  end.

Definition remove (m : memLS) (n : nat) : outcome memLS :=
  match nodes m !! n with
  | None => Panic
  | Some nn =>
      let m := set_byToken (delete (token nn) (byToken m)) m in
      let m := upd n (set_token #"") m in
      let? (m, _) := walkToRoot remove_visit m (Root (details nn)) in
      match nodes m !! n with
      | None => Panic
      | Some nn =>
          if 0 <=? byExpiryIndex nn then
            let? (m, _) := heap_Remove m (Z.to_nat (byExpiryIndex nn)) in Ret m
          else Ret m
      end
  end.

(** One iteration removes one element of the heap, so its length is enough. *)
Fixpoint collect (fuel : nat) (m : memLS) (now : Z) : outcome memLS :=
  match fuel with
  | 0%nat => Ret m
  | Datatypes.S fuel =>
      match byExpiry m with
      | [] => Ret m
      | n :: _ =>
          match nodes m !! n with
          | None => Panic
          | Some nn =>
              if now <? expiry nn then Ret m
              else let? m := remove m n in collect fuel m now
          end
      end
  end.

Definition collectExpiredNodes (m : memLS) (now : Z) : outcome memLS :=
  collect (length (byExpiry m)) m now.

Fixpoint lookup_lock (m : memLS) (name : gostr) (conditions : list Condition) : option nat :=
  match conditions with
  | [] => None
  | c :: conditions' =>
      match byToken m !! cond_Token c with
      | None => lookup_lock m name conditions'
      | Some l =>
          match nodes m !! l with
          | None => None
          | Some n =>
              if held n then lookup_lock m name conditions'
              else if bool_decide (name = Root (details n)) then Some l
              else if ZeroDepth (details n) then lookup_lock m name conditions'
              else if bool_decide (Root (details n) = #"/")
                      || HasPrefix name (Root (details n) ++ #"/")
              then Some l
              else lookup_lock m name conditions'
          end
      end
  end.

Definition hold (m : memLS) (n : nat) : outcome memLS :=
  match nodes m !! n with
  | None => Panic
  | Some nn =>
      if held nn then Panic
      else
        let m := upd n (set_held true) m in
        if (0 <=? Duration (details nn)) && (0 <=? byExpiryIndex nn)
        then let? (m, _) := heap_Remove m (Z.to_nat (byExpiryIndex nn)) in Ret m
        else Ret m
  end.

Definition unhold (m : memLS) (n : nat) : outcome memLS :=
  match nodes m !! n with
  | None => Panic
  | Some nn =>
      if negb (held nn) then Panic
      else
        let m := upd n (set_held false) m in
        if 0 <=? Duration (details nn) then heap_Push m n else Ret m
  end.

Definition hold_opt (m : memLS) (n : option nat) : outcome memLS :=
  match n with None => Ret m | Some n => hold m n end.

Definition unhold_opt (m : memLS) (n : option nat) : outcome memLS :=
  match n with None => Ret m | Some n => unhold m n end.

(** The node for a name of [Confirm]; an empty name is ignored. *)
Definition confirm_name (m : memLS) (name : gostr) (conditions : list Condition)
    : option (option nat) :=
  if bool_decide (name = #"") then Some None
  else match lookup_lock m (slashClean name) conditions with
       | None => None
       | Some n => Some (Some n)
       end.

(** [Confirm] returns the two variables its release function closes over. *)
Definition Confirm (now : Z) (name0 name1 : gostr) (conditions : list Condition) (m : memLS)
    : outcome (memLS * (lock_error + option nat * option nat)) :=
  let? m := collectExpiredNodes m now in
  match confirm_name m name0 conditions with
  | None => Ret (m, inl ErrConfirmationFailed)
  | Some n0 =>
      match confirm_name m name1 conditions with
      | None => Ret (m, inl ErrConfirmationFailed)
      | Some n1 =>
          let n1 := if bool_decide (n1 = n0) then None else n1 in
          let? m := hold_opt m n0 in
          let? m := hold_opt m n1 in
          Ret (m, inr (n0, n1))
      end
  end.

(** The function [Confirm] returns. *)
Definition release (ns : option nat * option nat) (m : memLS) : outcome memLS :=
  let '(n0, n1) := ns in
  let? m := unhold_opt m n1 in
  unhold_opt m n0.

Definition set_Root (r : gostr) (d : LockDetails) : LockDetails :=
  {| Root := r; Duration := Duration d; OwnerXML := OwnerXML d; ZeroDepth := ZeroDepth d |}.
Definition set_Duration (u : Z) (d : LockDetails) : LockDetails :=
  {| Root := Root d; Duration := u; OwnerXML := OwnerXML d; ZeroDepth := ZeroDepth d |}.

Definition Create (now : Z) (det : LockDetails) (m : memLS)
    : outcome (memLS * (lock_error + gostr)) :=
  let? m := collectExpiredNodes m now in
  let det := set_Root (slashClean (Root det)) det in
  let? ok := canCreate m (Root det) (ZeroDepth det) in
  if negb ok then Ret (m, inl ErrLocked)
  else
    let? (m, ret) := create m (Root det) in
    match ret with
    | None => Panic
    | Some n =>
        let '(m, tok) := nextToken m in
        let m := upd n (set_token tok) m in
        let m := set_byToken (<[tok := n]> (byToken m)) m in
        let m := upd n (set_details det) m in
        if 0 <=? Duration det then
          let m := upd n (set_expiry (now + Duration det)) m in
          let? m := heap_Push m n in
          Ret (m, inr tok)
        else Ret (m, inr tok)
    end.

Definition Refresh (now : Z) (tok : gostr) (duration : Z) (m : memLS)
    : outcome (memLS * (lock_error + LockDetails)) :=
  let? m := collectExpiredNodes m now in
  match byToken m !! tok with
  | None => Ret (m, inl ErrNoSuchLock)
  | Some n =>
      match nodes m !! n with
      | None => Panic
      | Some nn =>
          if held nn then Ret (m, inl ErrLocked)
          else
            let? m :=
              (if 0 <=? byExpiryIndex nn
               then let? (m, _) := heap_Remove m (Z.to_nat (byExpiryIndex nn)) in Ret m
               else Ret m) in
            let det := set_Duration duration (details nn) in
            let m := upd n (set_details det) m in
            if 0 <=? duration then
              let m := upd n (set_expiry (now + duration)) m in
              let? m := heap_Push m n in
              Ret (m, inr det)
            else Ret (m, inr det)
      end
  end.

Definition Unlock (now : Z) (tok : gostr) (m : memLS) : outcome (memLS * option lock_error) :=
  let? m := collectExpiredNodes m now in
  match byToken m !! tok with
  | None => Ret (m, Some ErrNoSuchLock)
  | Some n =>
      match nodes m !! n with
      | None => Panic
      | Some nn =>
          if held nn then Ret (m, Some ErrLocked)
          else let? m := remove m n in Ret (m, None)
      end
  end.

Definition infiniteTimeout : Z := -1.
Definition Second : Z := 1000000000.

(** [None] is [errInvalidTimeout]. *)
Definition parseTimeout (s : gostr) : option Z :=
  if bool_decide (s = #"") then Some infiniteTimeout
  else
    let i := IndexByte s "," in
    let s := if 0 <=? i then slice_to s i else s in
    let s := TrimSpace s in
    if bool_decide (s = #"Infinite") then Some infiniteTimeout
    else
      let pre := #"Second-" in
      if negb (HasPrefix s pre) then None
      else
        let s := slice_from s (Z.of_nat (length pre)) in
        match s with
        | [] => None
        | c :: _ =>
            if negb (is_digit c) then None
            else
              let '(n, err) := ParseInt s in
              match err with
              | Some _ => None
              | None => if 4294967295 <? n then None else Some (wrap64 (n * Second))
              end
        end.
