(* ===== verification/WebdavLockRep.v ===== *)
(** * The lock table as a binary heap and as an index by name

    The heap methods of [byExpiry] satisfy the laws of [heap_Laws], with
    [byExpiryIndex] the position of each node; [walkToRoot] visits the
    ancestors of a clean name; the visits of [create] and [remove] count the
    locks below each name. *)

From S2P Require Import Prelude GoStrings GoHeap WebdavLock.

Local Open Scope Z_scope.

(** ** The heap methods *)

(** The index stored in a node: its position in the heap, or [-1]. *)
Definition idx_of (h : list nat) (l : nat) : Z :=
  match list_find (eq l) h with
  | Some (i, _) => Z.of_nat i
  | None => -1
  end.

Lemma idx_of_lookup h l i : NoDup h → h !! i = Some l → idx_of h l = Z.of_nat i.
Proof.
  intros Hn Hi. unfold idx_of.
  destruct (list_find (eq l) h) as [[j y]|] eqn:E.
  - apply list_find_Some in E as (Hj&<-&_). f_equal. by eapply NoDup_lookup.
  - apply list_find_None in E. rewrite Forall_forall in E.
    exfalso. apply (E l); [|done]. by eapply list_elem_of_lookup_2.
Qed.

Lemma idx_of_notin h l : l ∉ h → idx_of h l = -1.
Proof.
  intros Hl. unfold idx_of. destruct (list_find (eq l) h) as [[j y]|] eqn:E; [|done].
  apply list_find_Some in E as (Hj&<-&_). exfalso. by apply Hl, (list_elem_of_lookup_2 _ j).
Qed.

Lemma idx_of_nonneg h l : 0 ≤ idx_of h l → ∃ i, idx_of h l = Z.of_nat i ∧ h !! i = Some l.
Proof.
  unfold idx_of. destruct (list_find (eq l) h) as [[j y]|] eqn:E; [|lia].
  intros _. exists j. split; [done|]. by apply list_find_Some in E as (?&<-&_).
Qed.

Definition put_heap (m : memLS) (h : list nat) : memLS :=
  set_byExpiry h (set_nodes (imap (λ l, set_byExpiryIndex (idx_of h l)) (nodes m)) m).

Definition expiry_of (m : memLS) (l : nat) : Z := from_option expiry 0 (nodes m !! l).

Definition heap_content (m : memLS) (h : list nat) : Prop :=
  NoDup h ∧ ∀ l, l ∈ h → (l < length (nodes m))%nat.

Definition heap_wf (m : memLS) : Prop :=
  heap_content m (byExpiry m) ∧
  ∀ l n, nodes m !! l = Some n → byExpiryIndex n = idx_of (byExpiry m) l.

Lemma nodes_put m h l :
  nodes (put_heap m h) !! l = set_byExpiryIndex (idx_of h l) <$> nodes m !! l.
Proof. simpl. by rewrite list_lookup_imap. Qed.

Lemma nodes_upd m l f l' :
  nodes (upd l f m) !! l' = (if decide (l' = l) then f else id) <$> nodes m !! l'.
Proof.
  simpl. case_decide as E.
  - subst. by rewrite list_lookup_alter_eq.
  - rewrite list_lookup_alter_ne by done. by destruct (nodes m !! l').
Qed.

Lemma memLS_eq m m' :
  byName m = byName m' → byToken m = byToken m' → gen m = gen m' → byExpiry m = byExpiry m' →
  (∀ l, nodes m !! l = nodes m' !! l) → m = m'.
Proof. destruct m, m'; simpl. intros -> -> -> -> Hn. f_equal. by apply list_eq. Qed.

Lemma node_idx_eq n i : byExpiryIndex n = i → n = set_byExpiryIndex i n.
Proof. by destruct n; simpl; intros ->. Qed.

Lemma set_idx_idx i j n : set_byExpiryIndex i (set_byExpiryIndex j n) = set_byExpiryIndex i n.
Proof. done. Qed.

Lemma idx_of_swap h i j a b l :
  NoDup h → h !! i = Some a → h !! j = Some b → i ≠ j →
  idx_of (list_swap i j h) l
  = if decide (l = a) then Z.of_nat j else if decide (l = b) then Z.of_nat i else idx_of h l.
Proof.
  intros Hn Ha Hb Hij.
  pose proof (lookup_lt_Some _ _ _ Ha) as Hi. pose proof (lookup_lt_Some _ _ _ Hb) as Hj.
  assert (Hn' : NoDup (list_swap i j h)) by (by rewrite list_swap_perm).
  case_decide as Hla; [subst l|case_decide as Hlb; [subst l|]].
  - apply idx_of_lookup; [done|]. rewrite list_swap_lookup by done.
    rewrite decide_False by done. by rewrite decide_True.
  - apply idx_of_lookup; [done|]. rewrite list_swap_lookup by done. by rewrite decide_True.
  - destruct (decide (l ∈ h)) as [Hin|Hout].
    + apply list_elem_of_lookup in Hin as [x Hx].
      rewrite (idx_of_lookup h l x) by done. apply idx_of_lookup; [done|].
      rewrite list_swap_lookup by done. rewrite !decide_False by congruence. done.
    + rewrite !idx_of_notin; [done|done|]. by rewrite list_swap_perm.
Qed.

Lemma idx_of_app h x l :
  x ∉ h → NoDup h →
  idx_of (h ++ [x]) l = if decide (l = x) then Z.of_nat (length h) else idx_of h l.
Proof.
  intros Hx Hn.
  assert (Hn' : NoDup (h ++ [x])).
  { apply NoDup_app. split_ands; [done| |apply NoDup_singleton].
    intros y Hy. rewrite list_elem_of_singleton. by intros ->. }
  case_decide as Hl; [subst l|].
  - apply idx_of_lookup; [done|]. by rewrite lookup_app_r, Nat.sub_diag by lia.
  - destruct (decide (l ∈ h)) as [Hin|Hout].
    + apply list_elem_of_lookup in Hin as [y Hy]. rewrite (idx_of_lookup h l y) by done.
      apply idx_of_lookup; [done|]. by apply lookup_app_l_Some.
    + rewrite !idx_of_notin; [done|done|]. rewrite elem_of_app, list_elem_of_singleton. tauto.
Qed.

Lemma put_view_heap m : heap_wf m → put_heap m (byExpiry m) = m.
Proof.
  intros [_ Hi]. apply memLS_eq; try done. intros l. rewrite nodes_put.
  destruct (nodes m !! l) as [n|] eqn:E; [|done]. simpl. f_equal. symmetry.
  by apply node_idx_eq, Hi.
Qed.

Lemma heap_wf_put m h : heap_content m h → heap_wf (put_heap m h).
Proof.
  intros [Hn Hl]. split.
  - split; [done|]. simpl. by rewrite length_imap.
  - intros l n. rewrite nodes_put. by destruct (nodes m !! l); simpl; intros [= <-].
Qed.

Lemma Swap_heap m i j :
  heap_wf m → (i < length (byExpiry m))%nat → (j < length (byExpiry m))%nat → i ≠ j →
  byExpiry_Swap m i j = Ret (put_heap m (list_swap i j (byExpiry m))).
Proof.
  intros [[Hn Hl] Hx] Hi Hj Hij. unfold byExpiry_Swap.
  destruct (lookup_lt_is_Some_2 _ _ Hi) as [a Ha]. destruct (lookup_lt_is_Some_2 _ _ Hj) as [b Hb].
  rewrite Ha, Hb. f_equal. apply memLS_eq; try done.
  - simpl. unfold list_swap. by rewrite Ha, Hb.
  - intros l. rewrite nodes_put, !nodes_upd. cbn [nodes set_byExpiry].
    rewrite (idx_of_swap _ _ _ a b) by done.
    assert (a ≠ b) by (intros ->; apply Hij; by eapply NoDup_lookup).
    destruct (nodes m !! l) as [n|] eqn:E; [|done]. cbn [fmap option_fmap option_map]. f_equal.
    repeat case_decide; subst; try done; simpl. by apply node_idx_eq, Hx.
Qed.

Lemma Push_heap m x :
  heap_wf m → heap_content m (byExpiry m ++ [x]) →
  byExpiry_Push m x = Ret (put_heap m (byExpiry m ++ [x])).
Proof.
  intros [[Hn _] Hx] [Hn' _]. apply NoDup_app in Hn' as (_&Hnx&_).
  assert (Hout : x ∉ byExpiry m).
  { intros H. apply (Hnx x H). by apply list_elem_of_singleton. }
  unfold byExpiry_Push. f_equal. apply memLS_eq; try done. intros l.
  rewrite nodes_put. cbn [nodes set_byExpiry]. rewrite nodes_upd, idx_of_app by done.
  destruct (nodes m !! l) as [n|] eqn:E; [|done]. simpl. f_equal.
  case_decide; [done|]. by apply node_idx_eq, Hx.
Qed.

Lemma Pop_heap m h x :
  heap_wf m → byExpiry m = h ++ [x] → byExpiry_Pop m = Ret (put_heap m h, x).
Proof.
  intros [[Hn _] Hx] Hv. unfold byExpiry_Pop. rewrite Hv, last_snoc. f_equal. f_equal.
  rewrite Hv in Hn. apply NoDup_app in Hn as (Hn&Hnx&_).
  assert (Hout : x ∉ h).
  { intros H. apply (Hnx x H). by apply list_elem_of_singleton. }
  apply memLS_eq; try done.
  - simpl. rewrite Hv, length_app. simpl. rewrite Nat.add_sub. by rewrite take_app_length.
  - intros l. rewrite nodes_put. cbn [nodes set_byExpiry]. rewrite nodes_upd.
    destruct (nodes m !! l) as [n|] eqn:E; [|done]. simpl. f_equal.
    case_decide as Hl; [subst; by rewrite idx_of_notin|].
    apply node_idx_eq. rewrite (Hx _ _ E), Hv, idx_of_app by done. by rewrite decide_False.
Qed.

#[export] Program Instance byExpiry_laws : heap_Laws memLS nat := {|
  view := byExpiry;
  put := put_heap;
  key := expiry_of;
  content := heap_content;
  wf := heap_wf;
|}.
Next Obligation. by intros s [? _]. Qed.
Next Obligation. apply heap_wf_put. Qed.
Next Obligation.
  intros s l l' Hp [Hn Hl]. split; [by rewrite <- Hp|]. intros x. rewrite <- Hp. apply Hl.
Qed.
Next Obligation.
  intros s l x [Hn Hl]. apply NoDup_app in Hn as (?&_&_). split; [done|].
  intros y Hy. apply Hl. apply elem_of_app. by left.
Qed.
Next Obligation. intros s l l'. unfold heap_content. simpl. by rewrite length_imap. Qed.
Next Obligation. done. Qed.
Next Obligation.
  intros s l l'. apply memLS_eq; try done. intros x. rewrite !nodes_put.
  by destruct (nodes s !! x).
Qed.
Next Obligation. apply put_view_heap. Qed.
Next Obligation.
  intros s l x. unfold expiry_of. rewrite nodes_put. by destruct (nodes s !! x).
Qed.
Next Obligation. done. Qed.
Next Obligation.
  intros s i j a b [[_ Hl] _] Ha Hb. simpl in *. unfold byExpiry_Less, expiry_of. rewrite Ha, Hb.
  destruct (lookup_lt_is_Some_2 (nodes s) a) as [na Hna];
    [by apply Hl, (list_elem_of_lookup_2 _ i)|].
  destruct (lookup_lt_is_Some_2 (nodes s) b) as [nb Hnb];
    [by apply Hl, (list_elem_of_lookup_2 _ j)|].
  by rewrite Hna, Hnb.
Qed.
Next Obligation. apply Swap_heap. Qed.
Next Obligation. apply Push_heap. Qed.
Next Obligation. apply Pop_heap. Qed.

(** ** The walk to the root *)

Definition segs (name : gostr) : list gostr := clean_segs true name.

Definition clean_name (name : gostr) : Prop := ∃ s, Forall norm_seg s ∧ name = render s.

Lemma clean_name_segs name : clean_name name → name = render (segs name) ∧ Forall norm_seg (segs name).
Proof. intros (s&Hs&->). unfold segs. by rewrite clean_segs_render. Qed.

Lemma segs_inj a b : clean_name a → clean_name b → segs a = segs b → a = b.
Proof.
  intros [Ha _]%clean_name_segs [Hb _]%clean_name_segs E. rewrite Ha, E. by rewrite <- Hb.
Qed.

Lemma slashClean_render name : slashClean name = render (clean_segs true name).
Proof.
  unfold slashClean. destruct name as [|c name]; [done|].
  case_bool_decide as E; cbn [negb]; [subst c; by rewrite clean_segs_slash, Clean_rooted|].
  exact (Clean_rooted (c :: name)).
Qed.

Lemma slashClean_clean name : clean_name (slashClean name).
Proof. rewrite slashClean_render. eexists. split; [apply clean_segs_norm|done]. Qed.

Lemma render_snoc_eq s w : render (s ++ [w]) = (if decide (s = []) then [] else render s) ++ "/"%char :: w.
Proof.
  unfold render. case_decide as E; [by subst|].
  rewrite Join_app by done. done.
Qed.

(** A name's ancestors, itself first: [rl] is the reversed list of segments. *)
Fixpoint chain (rl : list gostr) : list (list gostr) :=
  match rl with
  | [] => [ [] ]
  | _ :: rl' => reverse rl :: chain rl'
  end.

Definition ancestors (name : gostr) : list gostr := map render (chain (reverse (segs name))).

Fixpoint walk_list {S} (f : S → gostr → bool → outcome (S * bool))
    (s : S) (names : list gostr) (first : bool) : outcome (S * bool) :=
  match names with
  | [] => Ret (s, true)
  | name :: names' =>
      let? (s, ok) := f s name first in
      if negb ok then Ret (s, false) else walk_list f s names' false
  end.

Lemma walk_chain {S} (f : S → gostr → bool → outcome (S * bool)) fuel rl s first :
  Forall norm_seg rl → (length (render (reverse rl)) < fuel)%nat →
  walk fuel f s (render (reverse rl)) first = walk_list f s (map render (chain rl)) first.
Proof.
  revert rl s first. induction fuel as [|fuel IH]; intros rl s first Hrl Hf; [lia|].
  destruct rl as [|w rl].
  - simpl. destruct (f s #"/" first) as [[s' []]|]; done.
  - apply Forall_cons in Hrl as [Hw Hrl]. cbn [walk chain map walk_list].
    destruct (f s (render (reverse (w :: rl))) first) as [[s' ok]|]; [|done].
    destruct ok; [|done]. cbn [negb].
    assert (Hne : render (reverse (w :: rl)) ≠ #"/").
    { intros E. apply (render_inj _ []) in E; [|by apply Forall_reverse; constructor|done].
      apply (f_equal length) in E. by rewrite length_reverse in E. }
    rewrite bool_decide_false by done.
    rewrite reverse_cons in *. rewrite render_snoc_eq in *.
    destruct Hw as (Hw0&_&_&Hw). unfold LastIndex.
    rewrite last_index_byte by (done || lia). rewrite Z.add_0_l.
    rewrite (proj2 (Z.ltb_ge _ _)) by lia. rewrite slice_to_app.
    rewrite length_app in Hf. cbn [length] in Hf.
    case_decide as E.
    + assert (rl = []) as -> by (by destruct rl; [|rewrite reverse_cons in E; destruct (reverse rl)]).
      rewrite bool_decide_true by done. apply (IH []); [done|].
      destruct w; [done|]. simpl in *. lia.
    + rewrite bool_decide_false by done. apply IH; [done|]. lia.
Qed.

Lemma walkToRoot_ancestors {S} (f : S → gostr → bool → outcome (S * bool)) s name :
  clean_name name → walkToRoot f s name = walk_list f s (ancestors name) true.
Proof.
  intros [Hr Hs]%clean_name_segs. unfold walkToRoot, ancestors.
  rewrite <- walk_chain with (fuel := Datatypes.S (length name)).
  - by rewrite reverse_involutive, <- Hr.
  - by apply Forall_reverse.
  - rewrite reverse_involutive, <- Hr. lia.
Qed.

Lemma elem_of_chain rl p : p ∈ chain rl ↔ p `prefix_of` reverse rl.
Proof.
  induction rl as [|w rl IH]; cbn [chain].
  - rewrite list_elem_of_singleton. split; [by intros ->|]. apply prefix_nil_inv.
  - rewrite elem_of_cons, IH, reverse_cons. split.
    + intros [->|?]; [done|by apply prefix_app_r].
    + intros [k Hk]. destruct k as [|x k _] using rev_ind; [left; by rewrite app_nil_r in Hk|].
      right. rewrite app_assoc in Hk. apply app_inj_tail in Hk as [-> _]. by exists k.
Qed.

(** The ancestors of a clean name are the clean names whose segments are a
    prefix of its segments. *)
Lemma elem_of_ancestors name a :
  clean_name name → a ∈ ancestors name ↔ clean_name a ∧ segs a `prefix_of` segs name.
Proof.
  intros [Hr Hs]%clean_name_segs. unfold ancestors.
  rewrite list_elem_of_fmap. setoid_rewrite elem_of_chain. rewrite reverse_involutive. split.
  - intros (p&->&Hp).
    assert (Hn : Forall norm_seg p).
    { destruct Hp as [k Hk]. rewrite Hk in Hs. by apply Forall_app in Hs as [? _]. }
    split; [by exists p|]. unfold segs at 1. by rewrite clean_segs_render.
  - intros [Ha Hp]. exists (segs a). split; [|done]. by apply clean_name_segs in Ha as [? _].
Qed.

Lemma chain_longer rl p : p ∈ chain rl → (length p ≤ length rl)%nat.
Proof. intros Hp%elem_of_chain. apply prefix_length in Hp. by rewrite length_reverse in Hp. Qed.

Lemma NoDup_chain rl : NoDup (chain rl).
Proof.
  induction rl as [|w rl IH]; cbn [chain]; constructor; try done.
  - apply not_elem_of_nil.
  - constructor.
  - intros Hin%chain_longer. rewrite length_reverse in Hin. simpl in Hin. lia.
Qed.

Lemma NoDup_ancestors name : NoDup (ancestors name).
Proof.
  unfold ancestors.
  assert (Hn : Forall (Forall norm_seg) (chain (reverse (segs name)))).
  { apply Forall_forall. intros p Hp%elem_of_chain. rewrite reverse_involutive in Hp.
    destruct Hp as [k Hk]. pose proof (clean_segs_norm name) as Hs.
    unfold segs in Hk. rewrite Hk in Hs. by apply Forall_app in Hs as [? _]. }
  pose proof (NoDup_chain (reverse (segs name))) as Hd.
  induction Hd as [|p ps Hp Hd IH]; cbn [map]; [constructor|].
  apply Forall_cons in Hn as [Hnp Hn]. constructor; [|by apply IH].
  rewrite list_elem_of_fmap. intros (q&Hq&Hin). apply Hp.
  apply render_inj in Hq; [by subst|done|]. by eapply Forall_forall in Hn.
Qed.

Lemma ancestors_head name : clean_name name → ∃ rest, ancestors name = name :: rest ∧ name ∉ rest.
Proof.
  intros Hc. pose proof (NoDup_ancestors name) as Hd. apply clean_name_segs in Hc as [Hr _].
  revert Hd. unfold ancestors. destruct (reverse (segs name)) as [|w rl] eqn:E.
  - apply (f_equal reverse) in E. rewrite reverse_involutive in E. cbn [chain map].
    rewrite E in Hr. exists []. split; [by rewrite Hr|]. apply not_elem_of_nil.
  - cbn [chain map]. rewrite <- E, reverse_involutive, <- Hr. intros Hd.
    inversion Hd; subst. by eexists.
Qed.
