(* ===== verification/WebdavLockSpec.v ===== *)
(** * What the WebDAV lock system promises

    The abstract state of [memLS] is a table of locks by token.  [rep] says
    that the node graph of the implementation represents such a table; every
    operation keeps it and changes the table as [spec_*] says. *)

From S2P Require Import Prelude GoStrings GoHeap WebdavLock WebdavLockRep.

Local Open Scope Z_scope.

(** ** The abstract table *)

(** [lk_expiry] is [None] for a lock without a time limit. *)
Record lock := { lk_details : LockDetails; lk_expiry : option Z; lk_held : bool }.

Abbreviation locks := (gmap gostr lock).

Definition lk_root (k : lock) : gostr := Root (lk_details k).

(** A lock covers its root, and what is below it unless its depth is zero. *)
Definition covers (d : LockDetails) (name : gostr) : Prop :=
  name = Root d ∨ (ZeroDepth d = false ∧ segs (Root d) `prefix_of` segs name).

#[export] Instance covers_dec d name : Decision (covers d name).
Proof. unfold covers. apply _. Defined.

(** Two locks conflict when the root of one is covered by the other. *)
Definition conflict (d1 d2 : LockDetails) : Prop :=
  covers d1 (Root d2) ∨ covers d2 (Root d1).

#[export] Instance conflict_dec d1 d2 : Decision (conflict d1 d2).
Proof. unfold conflict. apply _. Defined.

Definition exclusive (A : locks) : Prop :=
  ∀ t1 t2 k1 k2, A !! t1 = Some k1 → A !! t2 = Some k2 → t1 ≠ t2 →
    ¬ conflict (lk_details k1) (lk_details k2).

(** A lock that [collectExpiredNodes] keeps. *)
Definition live (now : Z) (k : lock) : Prop :=
  lk_held k = true ∨ match lk_expiry k with None => True | Some e => now < e end.

#[export] Instance live_dec now k : Decision (live now k).
Proof. unfold live. destruct (lk_expiry k); apply _. Defined.

Definition expire (now : Z) (A : locks) : locks := filter (λ tk, live now tk.2) A.

Definition timeout (now duration : Z) : option Z :=
  if 0 <=? duration then Some (now + duration) else None.

(** ** Counting the locks at or below a name *)

Definition below (name : gostr) (tk : gostr * lock) : Prop :=
  segs name `prefix_of` segs (lk_root tk.2).

#[export] Instance below_dec name tk : Decision (below name tk).
Proof. unfold below. apply _. Defined.

Definition ref (A : locks) (name : gostr) : Z := Z.of_nat (size (filter (below name) A)).

Definition count_one (name : gostr) (k : lock) : Z :=
  if decide (segs name `prefix_of` segs (lk_root k)) then 1 else 0.

Lemma ref_insert A t k name :
  A !! t = None → ref (<[t := k]> A) name = ref A name + count_one name k.
Proof.
  intros Ht. unfold ref, count_one. case_decide as Hd.
  - rewrite map_filter_insert_True by done.
    rewrite map_size_insert_None; [lia|]. apply map_lookup_filter_None. by left.
  - rewrite map_filter_insert_False by done. rewrite delete_id by done. lia.
Qed.

Lemma ref_delete A t k name :
  A !! t = Some k → ref (delete t A) name = ref A name - count_one name k.
Proof.
  intros Ht. rewrite <- (insert_delete_id A t k Ht) at 2.
  rewrite ref_insert by apply lookup_delete_eq. lia.
Qed.

Lemma ref_replace A t k k' name :
  A !! t = Some k → lk_root k' = lk_root k → ref (<[t := k']> A) name = ref A name.
Proof.
  intros Ht Hr. rewrite <- insert_delete_eq, ref_insert by apply lookup_delete_eq.
  rewrite (ref_delete _ _ k) by done. unfold count_one. rewrite Hr. lia.
Qed.

Lemma ref_nonneg A name : 0 ≤ ref A name.
Proof. unfold ref. lia. Qed.

Lemma ref_pos A t k name :
  A !! t = Some k → segs name `prefix_of` segs (lk_root k) → 0 < ref A name.
Proof.
  intros Ht Hp. unfold ref.
  assert (size (filter (below name) A) ≠ 0%nat); [|lia].
  apply map_size_non_empty_iff. intros He.
  assert (Hl : filter (below name) A !! t = Some k) by by apply map_lookup_filter_Some.
  by rewrite He, lookup_empty in Hl.
Qed.

Lemma ref_pos_inv A name :
  0 < ref A name → ∃ t k, A !! t = Some k ∧ segs name `prefix_of` segs (lk_root k).
Proof.
  unfold ref. intros Hp. destruct (decide (filter (below name) A = ∅)) as [He|He].
  - rewrite He, map_size_empty in Hp. lia.
  - apply map_choose in He as (t&k&Ht). apply map_lookup_filter_Some in Ht as [? ?]. by exists t, k.
Qed.

(** ** The representation *)

(** What a node says about the lock it carries. *)
Definition node_lock (A : locks) (n : memLSNode) : Prop :=
  (token n = [] ∧ held n = false ∧ ∀ t k, A !! t = Some k → lk_root k ≠ Root (details n)) ∨
  (∃ k, A !! token n = Some k ∧ lk_details k = details n ∧ lk_held k = held n ∧
        lk_expiry k = if 0 <=? Duration (details n) then Some (expiry n) else None).

Record names_inv (m : memLS) (A : locks) : Prop := {
  ni_clean name l : byName m !! name = Some l → clean_name name;
  ni_node name l : byName m !! name = Some l →
    ∃ n, nodes m !! l = Some n ∧ Root (details n) = name ∧ refCount n = ref A name ∧
         0 < ref A name ∧ node_lock A n;
  ni_none name : clean_name name → byName m !! name = None → ref A name = 0;
  ni_token t k : A !! t = Some k →
    ∃ l n, byToken m !! t = Some l ∧ byName m !! lk_root k = Some l ∧
           nodes m !! l = Some n ∧ token n = t;
  ni_notoken t : A !! t = None → byToken m !! t = None;
  ni_root t k : A !! t = Some k → clean_name (lk_root k) ∧ t ≠ [];
}.

(** The nodes of the heap: limited locks that are not held. *)
Definition in_heap (m : memLS) (A : locks) (l : nat) : Prop :=
  ∃ t k, A !! t = Some k ∧ byToken m !! t = Some l ∧ is_Some (lk_expiry k) ∧ lk_held k = false.

Definition heap_inv (m : memLS) (H : nat → Prop) : Prop :=
  heap_wf m ∧ is_heap (expiry_of m) (byExpiry m) ∧ ∀ l, l ∈ byExpiry m ↔ H l.

(** Tokens are numbers the counter has passed. *)
Definition gen_inv (m : memLS) (A : locks) : Prop :=
  0 ≤ gen m ≤ max_uint64 ∧
  ∀ t k, A !! t = Some k → ∃ g, t = FormatUint g ∧ 0 ≤ g ≤ gen m.

Record rep (m : memLS) (A : locks) : Prop := {
  rep_names : names_inv m A;
  rep_heap : heap_inv m (in_heap m A);
  rep_gen : gen_inv m A;
  rep_excl : exclusive A;
}.

Lemma names_inj m A name name' l :
  names_inv m A → byName m !! name = Some l → byName m !! name' = Some l → name = name'.
Proof.
  intros Hi H1 H2. destruct (ni_node _ _ Hi _ _ H1) as (n&Hn&<-&_).
  destruct (ni_node _ _ Hi _ _ H2) as (n'&Hn'&<-&_). congruence.
Qed.

(** The node of a lock carries exactly its data. *)
Lemma token_node m A t k :
  names_inv m A → A !! t = Some k →
  ∃ l n, byToken m !! t = Some l ∧ byName m !! lk_root k = Some l ∧ nodes m !! l = Some n ∧
    token n = t ∧ details n = lk_details k ∧ held n = lk_held k ∧
    lk_expiry k = (if 0 <=? Duration (lk_details k) then Some (expiry n) else None).
Proof.
  intros Hi Ht. destruct (ni_token _ _ Hi _ _ Ht) as (l&n&Hl&Hb&Hn&Htok).
  exists l, n. destruct (ni_node _ _ Hi _ _ Hb) as (n'&Hn'&Hr&_&_&Hlock).
  assert (n' = n) as -> by congruence. destruct Hlock as [[Hnil _]|(k'&Hk'&Hd&Hh&He)].
  { destruct (ni_root _ _ Hi _ _ Ht). congruence. }
  assert (k' = k) as -> by congruence. rewrite <- Hd in He. by split_ands.
Qed.

Lemma token_loc_inj m A t t' k k' l :
  names_inv m A → A !! t = Some k → A !! t' = Some k' →
  byToken m !! t = Some l → byToken m !! t' = Some l → t = t'.
Proof.
  intros Hi Hk Hk' Hl Hl'.
  destruct (ni_token _ _ Hi _ _ Hk) as (l1&n1&?&_&?&<-).
  destruct (ni_token _ _ Hi _ _ Hk') as (l2&n2&?&_&?&<-). congruence.
Qed.

Lemma root_token_inj m A t t' k k' :
  names_inv m A → A !! t = Some k → A !! t' = Some k' → lk_root k = lk_root k' → t = t'.
Proof.
  intros Hi Hk Hk' Hr. destruct (ni_token _ _ Hi _ _ Hk) as (l&n&?&Hb&?&<-).
  destruct (ni_token _ _ Hi _ _ Hk') as (l'&n'&?&Hb'&?&<-). rewrite Hr in Hb. congruence.
Qed.

Lemma byToken_lock m A t l :
  names_inv m A → byToken m !! t = Some l → ∃ k, A !! t = Some k.
Proof.
  intros Hi Hl. destruct (A !! t) as [k|] eqn:E; [by exists k|].
  by rewrite (ni_notoken _ _ Hi _ E) in Hl.
Qed.

(** ** Heap steps *)

Lemma names_inv_put m A h : names_inv (put_heap m h) A ↔ names_inv m A.
Proof.
  assert (Hlk : ∀ n i, node_lock A (set_byExpiryIndex i n) ↔ node_lock A n) by done.
  split; intros [Hc Hn Hz Ht Hnt Hr]; split; try done.
  - intros name l Hb. destruct (Hn name l Hb) as (n&Hl&?&?&?&?). rewrite nodes_put in Hl.
    destruct (nodes m !! l) as [n'|]; [|done]. simpl in Hl. injection Hl as <-. by exists n'.
  - intros t k Hk. destruct (Ht t k Hk) as (l&n&?&?&Hl&?). rewrite nodes_put in Hl.
    destruct (nodes m !! l) as [n'|] eqn:E; [|done]. simpl in Hl. injection Hl as <-. by exists l, n'.
  - intros name l Hb. destruct (Hn name l Hb) as (n&Hl&?&?&?&?).
    exists (set_byExpiryIndex (idx_of h l) n). rewrite nodes_put, Hl. done.
  - intros t k Hk. destruct (Ht t k Hk) as (l&n&?&?&Hl&?).
    exists l, (set_byExpiryIndex (idx_of h l) n). rewrite nodes_put, Hl. done.
Qed.

Lemma heap_inv_ext m H H' : (∀ l, H l ↔ H' l) → heap_inv m H → heap_inv m H'.
Proof. intros HH (?&?&Hl). unfold heap_inv. split_ands; [done|done|]. intros l. by rewrite Hl, HH. Qed.

(** The heap only depends on the heap list, the indices and the expiry times. *)
Lemma heap_inv_frame m m' H :
  byExpiry m' = byExpiry m →
  (∀ l n, nodes m' !! l = Some n → byExpiryIndex n = idx_of (byExpiry m) l) →
  (∀ l, l ∈ byExpiry m → is_Some (nodes m' !! l) ∧ expiry_of m' l = expiry_of m l) →
  heap_inv m H → heap_inv m' H.
Proof.
  intros Hb Hi He ([[Hnd _] _]&Hh&Hl). unfold heap_inv. split_ands.
  - split; [split|]; rewrite Hb; [done| |done].
    intros l Hin. apply lookup_lt_is_Some. by apply He.
  - rewrite Hb. intros i c Hic Hc Hne. specialize (Hh i c Hic Hc Hne). unfold kat in *.
    destruct (lookup_lt_is_Some_2 _ _ Hc) as [y Hy].
    assert (Hi' : (i < length (byExpiry m))%nat) by (unfold child in Hic; lia).
    destruct (lookup_lt_is_Some_2 _ _ Hi') as [x Hx].
    rewrite Hx, Hy in *. simpl in *.
    rewrite (proj2 (He x (list_elem_of_lookup_2 _ _ _ Hx))).
    by rewrite (proj2 (He y (list_elem_of_lookup_2 _ _ _ Hy))).
  - by rewrite Hb.
Qed.

Lemma expiry_of_put m h l : expiry_of (put_heap m h) l = expiry_of m l.
Proof. exact (key_put m h l). Qed.

Lemma is_heap_put m h : is_heap (expiry_of m) h → is_heap (expiry_of (put_heap m h)) h.
Proof.
  intros Hh i c Hic Hc Hne. specialize (Hh i c Hic Hc Hne). unfold kat in *.
  destruct (h !! i), (h !! c); simpl in *; rewrite ?expiry_of_put; done.
Qed.

Lemma heap_inv_put m h (H : nat → Prop) :
  heap_content m h → is_heap (expiry_of m) h → (∀ l, l ∈ h ↔ H l) → heap_inv (put_heap m h) H.
Proof.
  intros Hc Hh Hl. unfold heap_inv. split_ands; [by apply heap_wf_put|by apply is_heap_put|done].
Qed.

Lemma push_step m A H l :
  names_inv m A → heap_inv m H → is_Some (nodes m !! l) → ¬ H l →
  ∃ h, heap_Push m l = Ret (put_heap m h) ∧ names_inv (put_heap m h) A ∧
       heap_inv (put_heap m h) (λ l', H l' ∨ l' = l).
Proof.
  intros Hn (Hw&Hh&Hl) Hs HH.
  assert (Hc : heap_content m (byExpiry m ++ [l])).
  { destruct Hw as [[Hnd Hlt] _]. split.
    - apply NoDup_app. split_ands; [done| |apply NoDup_singleton].
      intros x Hx ->%list_elem_of_singleton. by apply HH, Hl.
    - intros x [?| ->%list_elem_of_singleton]%elem_of_app; [by apply Hlt|].
      by apply lookup_lt_is_Some. }
  destruct (heap_Push_spec (HL := byExpiry_laws) m l Hw Hc Hh) as (h&Hr&Hp&Hh').
  exists h. split_ands; [done|by apply names_inv_put|]. apply heap_inv_put.
  - by eapply (content_perm (heap_Laws := byExpiry_laws) m (byExpiry m ++ [l])).
  - done.
  - intros x. rewrite Hp. change (view (heap_Laws := byExpiry_laws) m) with (byExpiry m).
    by rewrite elem_of_app, Hl, list_elem_of_singleton.
Qed.

Lemma pop_step m A H l n :
  names_inv m A → heap_inv m H → nodes m !! l = Some n → 0 ≤ byExpiryIndex n →
  H l ∧ ∃ h, heap_Remove m (Z.to_nat (byExpiryIndex n)) = Ret (put_heap m h, l) ∧
    names_inv (put_heap m h) A ∧ heap_inv (put_heap m h) (λ l', H l' ∧ l' ≠ l).
Proof.
  intros Hn (Hw&Hh&Hl) Hs Hi. pose proof Hw as [[Hnd Hlt] Hidx].
  rewrite (Hidx _ _ Hs) in Hi |- *. apply idx_of_nonneg in Hi as (i&->&Hx).
  split; [apply Hl; by eapply list_elem_of_lookup_2|].
  rewrite Nat2Z.id.
  destruct (heap_Remove_spec (HL := byExpiry_laws) m i l Hw Hh Hx) as (h&Hr&Hp&Hh').
  change (view (heap_Laws := byExpiry_laws) m) with (byExpiry m) in Hp.
  assert (Hnd' : NoDup (l :: h)) by (by rewrite <- Hp).
  inversion Hnd' as [|?? Hout Hndh]; subst.
  exists h. split_ands; [done|by apply names_inv_put|]. apply heap_inv_put; [|done|].
  - split; [done|]. intros x Hin. apply Hlt. rewrite Hp. apply elem_of_cons. by right.
  - intros x. rewrite <- Hl. rewrite Hp, elem_of_cons. split.
    + intros Hin. split; [by right|]. by intros ->.
    + intros [[->|?] ?]; done.
Qed.

(** Not in the heap means a negative index. *)
Lemma idx_neg m H l n :
  heap_inv m H → nodes m !! l = Some n → ¬ H l → byExpiryIndex n = -1.
Proof.
  intros (Hw&_&Hl) Hs HH. destruct Hw as [_ Hidx]. rewrite (Hidx _ _ Hs).
  apply idx_of_notin. by rewrite Hl.
Qed.

Lemma idx_pos m H l n :
  heap_inv m H → nodes m !! l = Some n → H l → 0 ≤ byExpiryIndex n.
Proof.
  intros (Hw&_&Hl) Hs HH. destruct Hw as [[Hnd _] Hidx]. rewrite (Hidx _ _ Hs).
  apply Hl in HH. apply list_elem_of_lookup in HH as [i Hi]. rewrite (idx_of_lookup _ _ i) by done. lia.
Qed.

(** A node in place: the lock of a node changes, its root does not. *)
Lemma names_inv_upd m A t k k' l n f :
  names_inv m A → A !! t = Some k → byToken m !! t = Some l → nodes m !! l = Some n →
  token (f n) = token n → refCount (f n) = refCount n →
  lk_root k' = lk_root k → lk_details k' = details (f n) → lk_held k' = held (f n) →
  lk_expiry k' = (if 0 <=? Duration (details (f n)) then Some (expiry (f n)) else None) →
  names_inv (upd l f m) (<[t := k']> A).
Proof.
  intros Hi Hk Hl Hn Htok Href Hroot Hd Hh He.
  destruct (token_node _ _ _ _ Hi Hk) as (l0&n0&Hl0&Hb0&Hn0&Ht0&Hd0&_).
  assert (l0 = l) as -> by congruence. assert (n0 = n) as -> by congruence.
  assert (Hroot' : Root (details (f n)) = lk_root k) by (by rewrite <- Hd, <- Hroot).
  destruct Hi as [Hc Hnode Hz Ht Hnt Hr].
  split; try done.
  - intros name x Hb. destruct (Hnode _ _ Hb) as (nx&Hx&Hrx&Hcx&Hpx&Hlx).
    rewrite (ref_replace _ _ k) by done. rewrite nodes_upd, Hx. case_decide as E.
    + subst x. assert (nx = n) as -> by congruence. exists (f n). split_ands; try done.
      * by rewrite Hroot', <- Hrx, Hd0.
      * by rewrite Href.
      * right. exists k'. rewrite Htok, Ht0. by rewrite lookup_insert_eq.
    + exists nx. split_ands; try done.
      destruct Hlx as [(?&?&Hno)|(kx&Hkx&Hdx&?&?)].
      * left. split_ands; [done|done|]. intros t' k''. rewrite lookup_insert_Some.
        intros [[<- <-]|[_ ?]]; [|by eapply Hno]. rewrite Hroot. by eapply Hno.
      * right. exists kx. split_ands; try done. rewrite lookup_insert_ne; [done|].
        intros Heq. apply E. rewrite <- Heq in Hkx. assert (kx = k) as -> by congruence.
        assert (Hbk : byName m !! lk_root k = Some x) by (unfold lk_root; by rewrite Hdx, Hrx). congruence.
  - intros name. rewrite (ref_replace _ _ k) by done. apply Hz.
  - intros t' k''. rewrite lookup_insert_Some. intros [[<- <-]|[Hne Hk']].
    + exists l, (f n). rewrite Hroot, nodes_upd, Hn, decide_True by done.
      split_ands; try done. by rewrite Htok.
    + destruct (Ht _ _ Hk') as (x&nx&?&?&Hx&?). exists x, (if decide (x = l) then f nx else nx).
      rewrite nodes_upd, Hx. split_ands; try done; case_decide; try done.
      subst x. assert (nx = n) as -> by congruence. by rewrite Htok.
  - intros t'. rewrite lookup_insert_None. intros [? _]. by apply Hnt.
  - intros t' k''. rewrite lookup_insert_Some. intros [[<- <-]|[? ?]]; [|by eapply Hr].
    rewrite Hroot. by apply Hr.
Qed.
