(* ===== verification/WebdavLockOps.v ===== *)
(** * The operations of the lock system keep its representation

    For each operation of [memLS]: from a represented table it returns (no
    panic, no exhausted walk) and represents the table the specification
    gives. *)

From S2P Require Import Prelude GoStrings GoHeap WebdavLock WebdavLockRep WebdavLockSpec.

Local Open Scope Z_scope.

(** ** The visits of [remove] *)

(** How much the walk over [names] adds to the reference count of a node. *)
Definition touched (m : memLS) (names : list gostr) (l : nat) : Prop :=
  ∃ name, name ∈ names ∧ byName m !! name = Some l.

#[export] Instance touched_dec m names l : Decision (touched m names l).
Proof.
  destruct (decide (Exists (λ name, byName m !! name = Some l) names)) as [H|H];
    rewrite Exists_exists in H; [by left|by right].
Qed.

Definition bump (m : memLS) (names : list gostr) (d : Z) (l : nat) (n : memLSNode) : memLSNode :=
  if decide (touched m names l) then add_refCount d n else n.

Lemma bump_fields m names d l n :
  details (bump m names d l n) = details n ∧ token (bump m names d l n) = token n ∧
  expiry (bump m names d l n) = expiry n ∧ held (bump m names d l n) = held n ∧
  byExpiryIndex (bump m names d l n) = byExpiryIndex n ∧
  refCount (bump m names d l n) = refCount n + if decide (touched m names l) then d else 0.
Proof. unfold bump. case_decide; simpl; split_ands; try done. lia. Qed.

Definition names_inj_in (m : memLS) : Prop :=
  ∀ name name' l, byName m !! name = Some l → byName m !! name' = Some l → name = name'.

Definition same_rest (m m' : memLS) : Prop :=
  byToken m' = byToken m ∧ gen m' = gen m ∧ byExpiry m' = byExpiry m.

Lemma remove_walk_spec names m first :
  NoDup names → names_inj_in m →
  (∀ name, name ∈ names → ∃ l n, byName m !! name = Some l ∧ nodes m !! l = Some n) →
  ∃ m', walk_list remove_visit m names first = Ret (m', true) ∧ same_rest m m' ∧
    (∀ l, nodes m' !! l = bump m names (-1) l <$> nodes m !! l) ∧
    (∀ name l n, byName m !! name = Some l → nodes m !! l = Some n →
       byName m' !! name = if decide (name ∈ names ∧ refCount n = 1) then None else Some l) ∧
    (∀ name, byName m !! name = None → byName m' !! name = None).
Proof.
  revert m first. induction names as [|x names IH]; intros m first Hnd Hinj Hall.
  { exists m. split_ands; try done.
    intros l. unfold bump. destruct (nodes m !! l); simpl; [|done].
    rewrite decide_False; [done|]. intros (?&H&_). by apply elem_of_nil in H. }
  apply NoDup_cons in Hnd as [Hx Hnd].
  destruct (Hall x) as (lx&nx&Hbx&Hnx); [apply elem_of_cons; by left|].
  cbn [walk_list]. unfold remove_visit at 1. rewrite Hbx, nodes_upd, Hnx, decide_True by done.
  cbn [fmap option_fmap option_map].
  set (m1 := if refCount (add_refCount (-1) nx) =? 0
             then set_byName (delete x (byName m)) (upd lx (add_refCount (-1)) m)
             else upd lx (add_refCount (-1)) m).
  assert (Hgoal : ∃ m', walk_list remove_visit m1 names false = Ret (m', true) ∧ same_rest m m' ∧
    (∀ l, nodes m' !! l = bump m (x :: names) (-1) l <$> nodes m !! l) ∧
    (∀ name l n, byName m !! name = Some l → nodes m !! l = Some n →
       byName m' !! name = if decide (name ∈ x :: names ∧ refCount n = 1) then None else Some l) ∧
    (∀ name, byName m !! name = None → byName m' !! name = None)).
  2:{ unfold m1 in Hgoal. cbn [byName upd set_nodes nodes]. by destruct (_ =? 0). }
  assert (Hnodes1 : ∀ l, nodes m1 !! l = (if decide (l = lx) then add_refCount (-1) else id) <$> nodes m !! l).
  { intros l. rewrite <- nodes_upd. unfold m1. by destruct (_ =? 0). }
  assert (Hname1 : ∀ name, name ≠ x → byName m1 !! name = byName m !! name).
  { intros name Hne. unfold m1. destruct (_ =? 0); simpl; [|done]. by rewrite lookup_delete_ne. }
  assert (Hsub1 : ∀ name l, byName m1 !! name = Some l → byName m !! name = Some l).
  { intros name l. unfold m1. destruct (_ =? 0); simpl; [|done]. by intros [_ ?]%lookup_delete_Some. }
  destruct (IH m1 false Hnd) as (m'&Hw&(Ht&Hg&He)&Hn'&Hb'&Hb0').
  { intros a b l Ha Hb. eapply Hinj; by apply Hsub1. }
  { intros name Hin. assert (name ≠ x) by (intros ->; done).
    destruct (Hall name) as (l&n&Hb&Hn); [apply elem_of_cons; by right|].
    exists l. rewrite Hname1 by done. rewrite Hnodes1, Hn. by eexists. }
  assert (Hrest : same_rest m m1) by (unfold m1; by destruct (_ =? 0)).
  destruct Hrest as (Ht1&Hg1&He1).
  exists m'. unfold same_rest. split_ands; try congruence.
  - intros l. rewrite Hn', Hnodes1. destruct (nodes m !! l) as [n|] eqn:E; [|done].
    cbn [fmap option_fmap option_map]. f_equal. unfold bump.
    case_decide as E1; (case_decide as E2; [case_decide as E3|case_decide as E3]); try done; exfalso.
    all: try (apply E3; by exists x; rewrite elem_of_cons; auto).
    + destruct E1 as (y&Hy&Hby). subst l. apply Hsub1 in Hby.
      assert (y = x) as -> by (by eapply Hinj). done.
    + destruct E1 as (y&Hy&Hby). subst l. apply Hsub1 in Hby.
      assert (y = x) as -> by (by eapply Hinj). done.
    + apply E3. destruct E1 as (y&Hy&Hby). exists y. rewrite elem_of_cons. by apply Hsub1 in Hby; auto.
    + subst l. apply E3. exists x. rewrite elem_of_cons. auto.
    + destruct E3 as (y&[->|Hy]%elem_of_cons&Hby); [congruence|].
      apply E1. exists y. rewrite Hname1 by (intros ->; done). done.
  - intros name l n Hb Hn. destruct (decide (name = x)) as [->|Hne].
    + assert (l = lx) as -> by congruence. assert (n = nx) as -> by congruence.
      destruct (decide (refCount nx = 1)) as [H1|H1].
      * rewrite decide_True by (split; [apply elem_of_cons; by left|done]).
        apply Hb0'. unfold m1. simpl. rewrite H1. simpl. apply lookup_delete_eq.
      * rewrite decide_False by (intros [_ ?]; done).
        assert (Hb1 : byName m1 !! x = Some lx).
        { unfold m1. simpl. rewrite (proj2 (Z.eqb_neq _ _)) by lia. done. }
        rewrite (Hb' x lx (add_refCount (-1) nx) Hb1).
        -- rewrite decide_False; [done|]. by intros [? _].
        -- by rewrite Hnodes1, Hn, decide_True.
    + rewrite (Hb' name l (if decide (l = lx) then add_refCount (-1) n else n)).
      * rewrite (decide_False (P := l = lx)) by (intros ->; by apply Hne, (Hinj _ _ lx)).
        apply decide_ext. rewrite elem_of_cons. tauto.
      * by rewrite Hname1.
      * rewrite Hnodes1, Hn. by case_decide.
  - intros name Hb. apply Hb0'. unfold m1. destruct (_ =? 0); simpl; [|done].
    apply lookup_delete_None. by right.
Qed.

(** A change of the nodes that the heap does not see. *)
Definition heap_same (m m' : memLS) : Prop :=
  byExpiry m' = byExpiry m ∧
  ∀ l, (λ n, (byExpiryIndex n, expiry n)) <$> nodes m' !! l
     = (λ n, (byExpiryIndex n, expiry n)) <$> nodes m !! l.

Lemma heap_inv_same m m' H : heap_same m m' → heap_inv m H → heap_inv m' H.
Proof.
  intros [Hb Hs] Hh. pose proof Hh as ([[_ Hlt] Hidx]&_&_).
  eapply heap_inv_frame; [done| | |done].
  - intros l n Hn. specialize (Hs l). rewrite Hn in Hs.
    destruct (nodes m !! l) as [n'|] eqn:E; [|done]. simpl in Hs. injection Hs as Hi _.
    rewrite Hi. by apply Hidx.
  - intros l Hin. specialize (Hs l). apply Hlt in Hin. apply lookup_lt_is_Some in Hin as [n Hn].
    unfold expiry_of. rewrite Hn in *. destruct (nodes m' !! l) as [n'|]; [|done].
    simpl in *. injection Hs as _ He. split; [by eexists|done].
Qed.

(** The table after the walk of [remove]: [m] is the table before, [m'] the
    table after the token of the lock was deleted and the walk was done. *)
Section removal.
Context (m m' : memLS) (A : locks) (t : gostr) (k : lock) (l : nat).
Hypothesis (Hi : names_inv m A) (Hk : A !! t = Some k) (Hl : byToken m !! t = Some l).
Hypothesis (Hu : lk_held k = false).

Definition untoken (x : nat) (n : memLSNode) : memLSNode :=
  if decide (x = l) then set_token [] n else n.

Definition pre_walk : memLS := upd l (set_token []) (set_byToken (delete t (byToken m)) m).

Lemma pre_walk_nodes x : nodes pre_walk !! x = untoken x <$> nodes m !! x.
Proof.
  unfold pre_walk. rewrite nodes_upd. simpl. unfold untoken.
  destruct (nodes m !! x); [|done]. by case_decide.
Qed.

Lemma untoken_fields x n :
  details (untoken x n) = details n ∧ refCount (untoken x n) = refCount n ∧
  expiry (untoken x n) = expiry n ∧ held (untoken x n) = held n ∧
  byExpiryIndex (untoken x n) = byExpiryIndex n.
Proof. unfold untoken. by case_decide. Qed.

Lemma elem_of_walk name :
  name ∈ ancestors (lk_root k) ↔ clean_name name ∧ segs name `prefix_of` segs (lk_root k).
Proof. apply elem_of_ancestors. by apply (ni_root m A Hi t). Qed.

Lemma walk_nodes_exist name :
  name ∈ ancestors (lk_root k) →
  ∃ x n, byName pre_walk !! name = Some x ∧ nodes pre_walk !! x = Some n.
Proof.
  intros [Hc Hp]%elem_of_walk. destruct (byName m !! name) as [x|] eqn:E.
  - destruct (ni_node _ _ Hi _ _ E) as (n&Hn&_). exists x, (untoken x n).
    split; [done|]. by rewrite pre_walk_nodes, Hn.
  - pose proof (ref_pos _ _ _ _ Hk Hp). rewrite (ni_none _ _ Hi _ Hc E) in *. lia.
Qed.

Lemma touched_count name x :
  byName m !! name = Some x →
  (if decide (touched pre_walk (ancestors (lk_root k)) x) then -1 else 0) = - count_one name k.
Proof.
  intros Hb. unfold count_one. destruct (decide (segs name `prefix_of` _)) as [Hp|Hp].
  - rewrite decide_True; [done|]. exists name. split; [|done]. apply elem_of_walk. split; [|done].
    by eapply (ni_clean m A).
  - rewrite decide_False; [done|]. intros (y&Hy&Hby).
    assert (y = name) as -> by (by eapply (names_inj m A)). apply elem_of_walk in Hy. tauto.
Qed.

(** What the walk gives ([remove_walk_spec]). *)
Hypothesis (Hnodes : ∀ x, nodes m' !! x
  = bump pre_walk (ancestors (lk_root k)) (-1) x <$> nodes pre_walk !! x).
Hypothesis (Hname : ∀ name x n, byName m !! name = Some x → nodes pre_walk !! x = Some n →
  byName m' !! name = if decide (name ∈ ancestors (lk_root k) ∧ refCount n = 1) then None else Some x).
Hypothesis (Hnone : ∀ name, byName m !! name = None → byName m' !! name = None).
Hypothesis (Hbt : byToken m' = delete t (byToken m)).

Lemma removed_kept name x n :
  byName m !! name = Some x → nodes m !! x = Some n →
  byName m' !! name = if decide (name ∈ ancestors (lk_root k) ∧ refCount n = 1) then None else Some x.
Proof.
  intros Hb Hn. rewrite (Hname name x (untoken x n)); [|done|by rewrite pre_walk_nodes, Hn].
  by destruct (untoken_fields x n) as (_&->&_).
Qed.

Lemma removed_sub name x : byName m' !! name = Some x → byName m !! name = Some x.
Proof.
  intros Hb. destruct (byName m !! name) as [y|] eqn:E; [|by rewrite Hnone in Hb].
  destruct (ni_node _ _ Hi _ _ E) as (n&Hn&_). rewrite (removed_kept _ _ _ E Hn) in Hb. by case_decide.
Qed.

Lemma removed_lock name x n :
  byName m !! name = Some x → nodes m !! x = Some n → Root (details n) = name → node_lock A n →
  node_lock (delete t A) (untoken x n).
Proof.
  intros Hb Hn Hr Hlk. destruct (token_node _ _ _ _ Hi Hk) as (l0&n0&Hl0&Hb0&Hn0&_&_&Hheld&_).
  assert (l0 = l) as -> by congruence.
  unfold node_lock. destruct (untoken_fields x n) as (->&_&->&->&_).
  unfold untoken. destruct (decide (x = l)) as [->|Hxl].
  - left. split_ands; [done|congruence|]. intros t' k' [Hne Hk']%lookup_delete_Some Hrt.
    apply Hne. symmetry. eapply (root_token_inj m A); [done|done|done|].
    rewrite Hrt, Hr. by eapply (names_inj m A).
  - destruct Hlk as [(?&?&Hno)|(kx&Hkx&Hdx&?&?)].
    + left. split_ands; [done|done|]. intros t' k' [_ Hk']%lookup_delete_Some. by eapply Hno.
    + right. exists kx. split_ands; try done. apply lookup_delete_Some. split; [|done].
      intros Heq. apply Hxl. rewrite <- Heq in Hkx. assert (kx = k) as -> by congruence.
      assert (byName m !! lk_root k = Some x) by (unfold lk_root; by rewrite Hdx, Hr). congruence.
Qed.

Lemma removed_node name x :
  byName m' !! name = Some x →
  ∃ n, nodes m' !! x = Some n ∧ Root (details n) = name ∧ refCount n = ref (delete t A) name ∧
       0 < ref (delete t A) name ∧ node_lock (delete t A) n.
Proof.
  intros Hb. pose proof (removed_sub _ _ Hb) as Hbm.
  destruct (ni_node _ _ Hi _ _ Hbm) as (n&Hn&Hr&Hc&Hpos&Hlk).
  rewrite (removed_kept _ _ _ Hbm Hn) in Hb. case_decide as Hd; [done|].
  exists (bump pre_walk (ancestors (lk_root k)) (-1) x (untoken x n)).
  rewrite Hnodes, pre_walk_nodes, Hn.
  pose proof (removed_lock _ _ _ Hbm Hn Hr Hlk) as Hlk'.
  pose proof (bump_fields pre_walk (ancestors (lk_root k)) (-1) x (untoken x n))
    as (Hf1&Hf2&Hf3&Hf4&_&Hf6).
  destruct (untoken_fields x n) as (Hg1&Hg2&_). rewrite (ref_delete _ _ k) by done.
  rewrite (touched_count _ _ Hbm) in Hf6. split_ands.
  - done.
  - by rewrite Hf1, Hg1.
  - rewrite Hf6, Hg2. lia.
  - unfold count_one in *. destruct (decide (segs name `prefix_of` _)) as [Hp|Hp]; [|lia].
    assert (name ∈ ancestors (lk_root k)) by (apply elem_of_walk; split; [by eapply (ni_clean m A)|done]).
    assert (refCount n ≠ 1) by tauto. lia.
  - revert Hlk'. unfold node_lock. by rewrite Hf1, Hf2, Hf3, Hf4.
Qed.

Lemma removed_none name :
  clean_name name → byName m' !! name = None → ref (delete t A) name = 0.
Proof.
  intros Hc Hb. rewrite (ref_delete _ _ k) by done. destruct (byName m !! name) as [x|] eqn:E.
  - destruct (ni_node _ _ Hi _ _ E) as (n&Hn&_&Hcnt&_). rewrite (removed_kept _ _ _ E Hn) in Hb.
    case_decide as Hd; [|done]. destruct Hd as [Hd H1]. apply elem_of_walk in Hd as [_ Hd].
    unfold count_one. rewrite decide_True by done. lia.
  - pose proof (ni_none _ _ Hi _ Hc E) as Hz. pose proof (ref_nonneg (delete t A) name).
    rewrite (ref_delete _ _ k) in * by done. unfold count_one in *. case_decide; lia.
Qed.

Lemma removed_token t' k' :
  delete t A !! t' = Some k' →
  ∃ x n, byToken m' !! t' = Some x ∧ byName m' !! lk_root k' = Some x ∧
         nodes m' !! x = Some n ∧ token n = t'.
Proof.
  intros Hd'. pose proof Hd' as [Hne Hk']%lookup_delete_Some.
  destruct (ni_token _ _ Hi _ _ Hk') as (x&n&Hx&Hbx&Hnx&Htx).
  assert (x ≠ l) by (intros ->; by apply Hne, (token_loc_inj m A _ _ k k' l)).
  exists x, (bump pre_walk (ancestors (lk_root k)) (-1) x n).
  rewrite Hbt, lookup_delete_ne by done.
  rewrite Hnodes, pre_walk_nodes, Hnx. cbn. unfold untoken. rewrite decide_False by done.
  split_ands; try done.
  - rewrite (removed_kept _ _ _ Hbx Hnx). rewrite decide_False; [done|]. intros [Hd H1].
    apply elem_of_walk in Hd as [_ Hd].
    destruct (ni_node _ _ Hi _ _ Hbx) as (n'&Hn'&_&Hcnt&_). assert (n' = n) as -> by congruence.
    assert (0 < ref (delete t A) (lk_root k')) by (by eapply (ref_pos _ t' k')).
    rewrite (ref_delete _ _ k) in * by done. unfold count_one in *. rewrite decide_True in * by done. lia.
  - by destruct (bump_fields pre_walk (ancestors (lk_root k)) (-1) x n) as (_&->&_).
Qed.

Lemma removed_names_inv : names_inv m' (delete t A).
Proof.
  split.
  - intros name x Hb. by eapply (ni_clean m A), removed_sub.
  - apply removed_node.
  - apply removed_none.
  - apply removed_token.
  - intros t'. rewrite Hbt. rewrite !lookup_delete_None. intros [->|Hno]; [by left|].
    right. by apply (ni_notoken m A).
  - intros t' k' [_ Hk']%lookup_delete_Some. by apply (ni_root m A).
Qed.

Lemma removed_heap_same : byExpiry m' = byExpiry m → heap_same m m'.
Proof.
  intros He. split; [done|]. intros x. rewrite Hnodes, pre_walk_nodes.
  destruct (nodes m !! x) as [n|]; [|done]. simpl. f_equal.
  destruct (bump_fields pre_walk (ancestors (lk_root k)) (-1) x (untoken x n)) as (_&_&->&_&->&_).
  by destruct (untoken_fields x n) as (_&_&->&_&->).
Qed.
End removal.

Lemma remove_names m A t k l :
  names_inv m A → A !! t = Some k → byToken m !! t = Some l → lk_held k = false →
  ∃ m', walkToRoot remove_visit (pre_walk m t l) (lk_root k) = Ret (m', true) ∧
    names_inv m' (delete t A) ∧ byToken m' = delete t (byToken m) ∧ gen m' = gen m ∧
    heap_same m m'.
Proof.
  intros Hi Hk Hl Hu. rewrite walkToRoot_ancestors by by apply (ni_root m A Hi t).
  destruct (remove_walk_spec (ancestors (lk_root k)) (pre_walk m t l) true)
    as (m'&Hw&(Hbt&Hg&He)&Hnodes&Hname&Hnone).
  - apply NoDup_ancestors.
  - intros a b x Ha Hb. by eapply (names_inj m A).
  - intros name. by eapply walk_nodes_exist.
  - exists m'. split_ands; [done| |done|done|].
    + by eapply removed_names_inv.
    + by eapply removed_heap_same.
Qed.

(** ** [remove] and [collectExpiredNodes] *)

Lemma in_heap_delete m m' A t k l :
  names_inv m A → A !! t = Some k → byToken m !! t = Some l → byToken m' = delete t (byToken m) →
  ∀ x, in_heap m' (delete t A) x ↔ in_heap m A x ∧ x ≠ l.
Proof.
  intros Hi Hk Hl Hbt x. unfold in_heap. rewrite Hbt. split.
  - intros (t'&k'&[Hne Hk']%lookup_delete_Some&[_ Hx]%lookup_delete_Some&?&?).
    split; [by exists t', k'|]. intros ->. by apply Hne, (token_loc_inj m A _ _ k k' l).
  - intros [(t'&k'&Hk'&Hx&?&?) Hxl]. assert (t ≠ t') by congruence.
    exists t', k'. by rewrite !lookup_delete_ne.
Qed.

Lemma remove_ok m A t k l :
  rep m A → A !! t = Some k → byToken m !! t = Some l → lk_held k = false →
  ∃ m', remove m l = Ret m' ∧ rep m' (delete t A) ∧ byToken m' = delete t (byToken m) ∧
    gen m' = gen m.
Proof.
  intros [Hi Hh [Hg1 Hg2] Hx] Hk Hl Hu.
  destruct (token_node _ _ _ _ Hi Hk) as (l0&n0&Hl0&Hb0&Hn0&Ht0&Hd0&_).
  assert (l0 = l) as -> by congruence.
  unfold remove. rewrite Hn0, Ht0, Hd0. fold (pre_walk m t l). fold (lk_root k).
  destruct (remove_names m A t k l) as (m1&->&Hi1&Hbt&Hg&Hsame); [done..|].
  apply (heap_inv_same m m1) in Hh; [|done].
  destruct (nodes m1 !! l) as [n1|] eqn:En.
  2:{ destruct Hsame as [_ Hs]. specialize (Hs l). by rewrite Hn0, En in Hs. }
  assert (Hrest : gen_inv m1 (delete t A) ∧ exclusive (delete t A)).
  { split; [split; [by rewrite Hg|]|].
    - intros t' k' [_ Hk']%lookup_delete_Some. rewrite Hg. by eapply Hg2.
    - intros t1 t2 k1 k2 [_ H1]%lookup_delete_Some [_ H2]%lookup_delete_Some. by apply Hx. }
  destruct Hrest as [Hgen Hex].
  destruct (Z.leb_spec 0 (byExpiryIndex n1)) as [Hp|Hp].
  - destruct (pop_step m1 _ _ l n1 Hi1 Hh En Hp) as (Hin&h&->&Hi2&Hh2).
    eexists. split; [done|]. split; [|done]. split; [done| |done|done].
    eapply heap_inv_ext; [|exact Hh2]. intros x. symmetry. by apply (in_heap_delete m _ A t k).
  - exists m1. split; [done|]. split; [|done]. split; [done| |done|done].
    eapply heap_inv_ext; [|exact Hh]. intros x. rewrite (in_heap_delete m m1 A t k l) by done.
    split; [|by intros [? _]]. intros Hin. split; [done|]. intros ->.
    pose proof (idx_pos _ _ _ _ Hh En Hin). lia.
Qed.

Lemma expire_id now A : (∀ t k, A !! t = Some k → live now k) → expire now A = A.
Proof. intros H. apply map_filter_id. intros t k Hk. by eapply H. Qed.

Lemma expire_delete now A t k : A !! t = Some k → ¬ live now k → expire now (delete t A) = expire now A.
Proof. intros Hk Hd. apply map_filter_delete_not. intros k' Hk'. assert (k' = k) as -> by congruence. done. Qed.

(** A lock outside the heap never expires; one in it expires with its node. *)
Lemma heap_lock m A t k l n :
  names_inv m A → A !! t = Some k → byToken m !! t = Some l → nodes m !! l = Some n →
  lk_expiry k = None ∨ lk_held k = true ∨ (in_heap m A l ∧ lk_expiry k = Some (expiry n) ∧ lk_held k = false).
Proof.
  intros Hi Hk Hl Hn. destruct (token_node _ _ _ _ Hi Hk) as (l0&n0&?&_&?&_&_&_&He).
  assert (l0 = l) as -> by congruence. assert (n0 = n) as -> by congruence.
  destruct (lk_held k) eqn:Eh; [by right; left|]. destruct (0 <=? _) eqn:Ed; [|by left].
  right; right. split_ands; [|done|done]. exists t, k. split_ands; [done|done|by rewrite He; eexists|done].
Qed.

Lemma heap_shrinks m m' A t k l :
  rep m A → A !! t = Some k → byToken m !! t = Some l → in_heap m A l →
  rep m' (delete t A) → byToken m' = delete t (byToken m) →
  length (byExpiry m) = S (length (byExpiry m')).
Proof.
  intros [Hi ([[Hnd _] _]&_&Hl) _ _] Hk Htl Hin [_ ([[Hnd' _] _]&_&Hl') _ _] Hbt.
  change (S (length (byExpiry m'))) with (length (l :: byExpiry m')).
  apply Permutation_length, NoDup_Permutation; [done| |].
  - constructor; [|done]. rewrite Hl', (in_heap_delete m m' A t k l) by done. by intros [_ ?].
  - intros x. rewrite elem_of_cons, Hl, Hl', (in_heap_delete m m' A t k l) by done.
    destruct (decide (x = l)) as [->|]; tauto.
Qed.

(** The tokens of the table [A] stay attached to their nodes. *)
Definition keeps (A : locks) (m m' : memLS) : Prop :=
  ∀ t, is_Some (A !! t) → byToken m' !! t = byToken m !! t.

Lemma collect_ok fuel m A now :
  rep m A → (length (byExpiry m) ≤ fuel)%nat →
  ∃ m', collect fuel m now = Ret m' ∧ rep m' (expire now A) ∧ gen m' = gen m ∧
    keeps (expire now A) m m'.
Proof.
  revert m A. induction fuel as [|fuel IH]; intros m A Hr Hf.
  all: pose proof Hr as [Hi Hh _ _]; pose proof Hh as (Hw&Hheap&Hl).
  all: assert (Hempty : byExpiry m = [] → expire now A = A).
  1,3: intros E; apply expire_id; intros t k Hk;
    destruct (token_node _ _ _ _ Hi Hk) as (l&n&Hbl&_&Hn&_);
    destruct (heap_lock _ _ _ _ _ _ Hi Hk Hbl Hn) as [He|[He|(Hin&_)]];
    [by right; rewrite He|by left|apply Hl in Hin; rewrite E in Hin; by apply elem_of_nil in Hin].
  - destruct (byExpiry m) eqn:E; [|simpl in Hf; lia]. exists m. by rewrite Hempty.
  - cbn [collect]. destruct (byExpiry m) as [|l h] eqn:E; [exists m; by rewrite Hempty|].
    assert (Hin : in_heap m A l) by (apply Hl; apply elem_of_cons; by left).
    pose proof Hin as (t&k&Hk&Hbl&_&Hu).
    destruct (token_node _ _ _ _ Hi Hk) as (l0&n&Hbl0&_&Hn&_).
    assert (l0 = l) as -> by congruence. rewrite Hn.
    destruct (Z.ltb_spec now (expiry n)) as [Hlt|Hge].
    + exists m. rewrite expire_id; [done|]. intros t' k' Hk'.
      destruct (token_node _ _ _ _ Hi Hk') as (l'&n'&Hbl'&_&Hn'&_).
      destruct (heap_lock _ _ _ _ _ _ Hi Hk' Hbl' Hn') as [He|[He|(Hin'&He&_)]];
        [by right; rewrite He|by left|]. right. rewrite He.
      apply Hl in Hin'. pose proof (is_heap_root _ _ l Hheap) as Hmin.
      specialize (Hmin eq_refl l' Hin'). unfold expiry_of in Hmin. rewrite Hn, Hn' in Hmin.
      simpl in Hmin. lia.
    + destruct (remove_ok m A t k l Hr Hk Hbl Hu) as (m1&->&Hr1&Hbt&Hgen).
      pose proof (heap_shrinks m m1 A t k l Hr Hk Hbl Hin Hr1 Hbt) as Hlen. rewrite E in Hlen.
      assert (Hdead : ¬ live now k).
      { destruct (heap_lock _ _ _ _ _ _ Hi Hk Hbl Hn) as [He|[He|(_&He&Hh')]].
        - destruct Hin as (t2&k2&Hk2&Hbl2&[e Hs]&_).
          assert (t2 = t) as -> by (by eapply (token_loc_inj m A)). congruence.
        - congruence.
        - unfold live. rewrite He, Hh'. intros [?|?]; [done|lia]. }
      destruct (IH m1 (delete t A) Hr1) as (m'&->&Hr'&Hg'&Hkeep); [simpl in *; lia|].
      rewrite (expire_delete now A t k Hk Hdead) in Hr', Hkeep.
      exists m'. split_ands; [done|done|congruence|]. intros t' Hs. rewrite Hkeep by done.
      rewrite Hbt, lookup_delete_ne; [done|]. intros <-.
      destruct Hs as [k' [Hk' Hlive]%map_lookup_filter_Some].
      assert (k' = k) as -> by congruence. revert Hlive. apply Hdead.
Qed.

Lemma collectExpired_ok m A now :
  rep m A → ∃ m', collectExpiredNodes m now = Ret m' ∧ rep m' (expire now A) ∧ gen m' = gen m ∧
    keeps (expire now A) m m'.
Proof. intros Hr. by apply collect_ok. Qed.

(** ** Changing a lock in place *)

Lemma in_heap_replace m m' A t k k' l :
  names_inv m A → A !! t = Some k → byToken m !! t = Some l → byToken m' = byToken m →
  ∀ x, in_heap m' (<[t := k']> A) x ↔
    (in_heap m A x ∧ x ≠ l) ∨ (x = l ∧ is_Some (lk_expiry k') ∧ lk_held k' = false).
Proof.
  intros Hi Hk Hl Hbt x. unfold in_heap. rewrite Hbt. split.
  - intros (t'&k''&[[<- <-]|[Hne Hk']]%lookup_insert_Some&Hx&?&?); [right; split_ands; [congruence|done|done]|].
    left. split; [by exists t', k''|]. intros ->. by apply Hne, (token_loc_inj m A _ _ k k'' l).
  - intros [[(t'&k''&Hk'&Hx&?&?) Hxl]|(->&?&?)].
    + assert (t ≠ t') by congruence. exists t', k''. by rewrite lookup_insert_ne.
    + exists t, k'. by rewrite lookup_insert_eq.
Qed.

(** The parts of [rep] that do not look at the nodes. *)
Lemma rest_replace m m' A t k k' :
  gen m' = gen m → A !! t = Some k →
  lk_root k' = lk_root k → ZeroDepth (lk_details k') = ZeroDepth (lk_details k) →
  gen_inv m A → exclusive A → gen_inv m' (<[t := k']> A) ∧ exclusive (<[t := k']> A).
Proof.
  intros Hg Hk Hr Hz [Hg1 Hg2] Hx. split; [split; [by rewrite Hg|]|].
  - intros t' k''. rewrite Hg, lookup_insert_Some. intros [[<- _]|[_ ?]]; by eapply Hg2.
  - assert (Hsame : ∀ d, conflict (lk_details k') d ↔ conflict (lk_details k) d).
    { intros d. unfold conflict, covers. unfold lk_root in Hr. by rewrite Hr, Hz. }
    assert (Hsame' : ∀ d, conflict d (lk_details k') ↔ conflict d (lk_details k)).
    { intros d. unfold conflict, covers. unfold lk_root in Hr. by rewrite Hr, Hz. }
    intros t1 t2 k1 k2. rewrite !lookup_insert_Some.
    intros [[<- <-]|[? H1]] [[<- <-]|[? H2]] Hne; try done.
    + rewrite Hsame. by eapply Hx.
    + rewrite Hsame'. by eapply Hx.
    + by eapply Hx.
Qed.

Lemma heap_inv_upd m H l f :
  (∀ n, byExpiryIndex (f n) = byExpiryIndex n) → ¬ H l → heap_inv m H → heap_inv (upd l f m) H.
Proof.
  intros Hf HH Hh. pose proof Hh as ([[_ Hlt] Hidx]&_&Hl). eapply (heap_inv_frame m); [done| | |done].
  - intros x n. rewrite nodes_upd. destruct (nodes m !! x) as [n'|] eqn:E; [|done].
    cbn. intros [= <-]. case_decide; rewrite ?Hf; by apply Hidx.
  - intros x Hx. assert (x ≠ l) by (intros ->; by apply HH, Hl).
    unfold expiry_of. rewrite nodes_upd, decide_False by done.
    apply Hlt, lookup_lt_is_Some in Hx as [n Hn]. rewrite Hn. by split; [eexists|].
Qed.

Lemma heap_same_upd m l f :
  (∀ n, byExpiryIndex (f n) = byExpiryIndex n ∧ expiry (f n) = expiry n) → heap_same m (upd l f m).
Proof.
  intros Hf. split; [done|]. intros x. rewrite nodes_upd. destruct (nodes m !! x) as [n|]; [|done].
  simpl. f_equal. case_decide; [|done]. by destruct (Hf n) as [-> ->].
Qed.

Definition with_held (b : bool) (k : lock) : lock :=
  {| lk_details := lk_details k; lk_expiry := lk_expiry k; lk_held := b |}.

Lemma held_names m A t k l n b :
  names_inv m A → A !! t = Some k → byToken m !! t = Some l → nodes m !! l = Some n →
  names_inv (upd l (set_held b) m) (<[t := with_held b k]> A).
Proof.
  intros Hi Hk Hl Hn. destruct (token_node _ _ _ _ Hi Hk) as (l0&n0&?&_&?&_&Hd&_&He).
  assert (l0 = l) as -> by congruence. assert (n0 = n) as -> by congruence.
  eapply names_inv_upd; try done. simpl. by rewrite Hd.
Qed.

Lemma hold_ok m A t k l :
  rep m A → A !! t = Some k → byToken m !! t = Some l → lk_held k = false →
  ∃ m', hold m l = Ret m' ∧ rep m' (<[t := with_held true k]> A) ∧ byToken m' = byToken m.
Proof.
  intros [Hi Hh Hg Hx] Hk Hl Hf.
  destruct (token_node _ _ _ _ Hi Hk) as (l0&n&?&_&Hn&_&Hd&Hheld&He).
  assert (l0 = l) as -> by congruence. unfold hold. rewrite Hn, Hheld, Hf, Hd.
  set (m1 := upd l (set_held true) m).
  pose proof (held_names m A t k l n true Hi Hk Hl Hn) as Hi1.
  assert (Hh1 : heap_inv m1 (in_heap m A)) by (eapply heap_inv_same; [by apply heap_same_upd|done]).
  assert (Hn1 : nodes m1 !! l = Some (set_held true n)) by (unfold m1; by rewrite nodes_upd, Hn, decide_True).
  assert (Hrest := rest_replace m m1 A t k (with_held true k) eq_refl Hk eq_refl eq_refl Hg Hx).
  destruct Hrest as [Hg1 Hx1].
  destruct (_ && _) eqn:E; reflect_bools.
  - destruct (pop_step m1 _ _ l _ Hi1 Hh1 Hn1) as (Hin&h&Hpop&Hi2&Hh2); [done|].
    change (byExpiryIndex (set_held true n)) with (byExpiryIndex n) in Hpop. rewrite Hpop.
    eexists. split; [done|]. split; [|done]. split; [done| |done|done].
    eapply heap_inv_ext; [|exact Hh2]. intros x.
    rewrite (in_heap_replace m _ A t k (with_held true k) l) by done. simpl. naive_solver.
  - exists m1. split; [done|]. split; [|done]. split; [done| |done|done].
    eapply heap_inv_ext; [|exact Hh1]. intros x.
    rewrite (in_heap_replace m _ A t k (with_held true k) l) by done.
    split; [|by intros [[? _]|(_&_&?)]]. intros Hin. left. split; [done|]. intros ->.
    pose proof (idx_pos _ _ _ _ Hh1 Hn1 Hin) as Hpos. simpl in Hpos.
    destruct Hin as (t2&k2&Hk2&Hb2&[e He2]&_).
    assert (t2 = t) as -> by (by eapply (token_loc_inj m A)). assert (k2 = k) as -> by congruence.
    rewrite He2 in He. destruct (0 <=? Duration _) eqn:Ed; [|done].
    apply andb_false_iff in E as [?|?]; reflect_bools; [congruence|lia].
Qed.

Lemma unhold_ok m A t k l :
  rep m A → A !! t = Some k → byToken m !! t = Some l → lk_held k = true →
  ∃ m', unhold m l = Ret m' ∧ rep m' (<[t := with_held false k]> A) ∧ byToken m' = byToken m.
Proof.
  intros [Hi Hh Hg Hx] Hk Hl Hf.
  destruct (token_node _ _ _ _ Hi Hk) as (l0&n&?&_&Hn&_&Hd&Hheld&He).
  assert (l0 = l) as -> by congruence. unfold unhold. rewrite Hn, Hheld, Hf, Hd. cbn [negb].
  set (m1 := upd l (set_held false) m).
  pose proof (held_names m A t k l n false Hi Hk Hl Hn) as Hi1.
  assert (Hh1 : heap_inv m1 (in_heap m A)) by (eapply heap_inv_same; [by apply heap_same_upd|done]).
  assert (Hn1 : nodes m1 !! l = Some (set_held false n)) by (unfold m1; by rewrite nodes_upd, Hn, decide_True).
  assert (Hrest := rest_replace m m1 A t k (with_held false k) eq_refl Hk eq_refl eq_refl Hg Hx).
  destruct Hrest as [Hg1 Hx1].
  assert (Hout : ¬ in_heap m A l).
  { intros (t2&k2&Hk2&Hb2&_&Hu). assert (t2 = t) as -> by (by eapply (token_loc_inj m A)). congruence. }
  destruct (0 <=? Duration (lk_details k)) eqn:Ed.
  - destruct (push_step m1 _ _ l Hi1 Hh1) as (h&->&Hi2&Hh2); [by rewrite Hn1; eexists|done|].
    eexists. split; [done|]. split; [|done]. split; [done| |done|done].
    eapply heap_inv_ext; [|exact Hh2]. intros x.
    rewrite (in_heap_replace m _ A t k (with_held false k) l) by done. simpl. rewrite He.
    split; [|naive_solver]. intros [?|?]; [left; split; [done|]; by intros ->|right].
    split_ands; [done|by eexists|done].
  - exists m1. split; [done|]. split; [|done]. split; [done| |done|done].
    eapply heap_inv_ext; [|exact Hh1]. intros x.
    rewrite (in_heap_replace m _ A t k (with_held false k) l) by done. simpl. rewrite He.
    split; [|intros [[? _]|(_&[? ?]&_)]; done]. intros Hin. left. split; [done|]. by intros ->.
Qed.

(** ** Refreshing a lock *)

Definition refreshed (now dur : Z) (k : lock) : lock :=
  {| lk_details := set_Duration dur (lk_details k); lk_expiry := timeout now dur;
     lk_held := lk_held k |}.

(** Taking a node out of the heap if it is there. *)
Lemma detach_ok m A H l n :
  names_inv m A → heap_inv m H → nodes m !! l = Some n →
  ∃ m1, (if 0 <=? byExpiryIndex n
         then let? (m, _) := heap_Remove m (Z.to_nat (byExpiryIndex n)) in Ret m
         else Ret m) = Ret m1 ∧
    names_inv m1 A ∧ heap_inv m1 (λ x, H x ∧ x ≠ l) ∧ byToken m1 = byToken m ∧ gen m1 = gen m ∧
    ∃ i, nodes m1 !! l = Some (set_byExpiryIndex i n).
Proof.
  intros Hi Hh Hn. destruct (Z.leb_spec 0 (byExpiryIndex n)) as [Hp|Hp].
  - destruct (pop_step m A H l n Hi Hh Hn Hp) as (_&h&->&Hi2&Hh2).
    eexists. split_ands; [done|done|done|done|done|]. eexists. by rewrite nodes_put, Hn.
  - exists m. split_ands; try done.
    + eapply heap_inv_ext; [|exact Hh]. intros x. split; [|by intros [? _]]. intros Hx.
      split; [done|]. intros ->. pose proof (idx_pos _ _ _ _ Hh Hn Hx). lia.
    + exists (byExpiryIndex n). rewrite Hn. f_equal. by apply node_idx_eq.
Qed.

(** The end of [Create] and [Refresh]: a limited lock goes into the heap. *)
Lemma attach_ok m A t k l n now :
  names_inv m A → heap_inv m (λ x, in_heap m A x ∧ x ≠ l) →
  A !! t = Some k → byToken m !! t = Some l → nodes m !! l = Some n → lk_held k = false →
  gen_inv m A → exclusive A → details n = lk_details k →
  ∃ m', (if 0 <=? Duration (lk_details k)
         then let? m := heap_Push (upd l (set_expiry (now + Duration (lk_details k))) m) l in
              Ret m
         else Ret m) = Ret m' ∧
    rep m' (<[t := {| lk_details := lk_details k; lk_expiry := timeout now (Duration (lk_details k));
                      lk_held := false |}]> A) ∧ byToken m' = byToken m ∧ gen m' = gen m.
Proof.
  intros Hi Hh Hk Hl Hn Hu Hg Hx Hd. set (k' := Build_lock _ _ _).
  destruct (token_node _ _ _ _ Hi Hk) as (l0&n0&?&_&?&_&_&Hheld&He).
  assert (l0 = l) as -> by congruence. assert (n0 = n) as -> by congruence.
  destruct (rest_replace m m A t k k' eq_refl Hk eq_refl eq_refl Hg Hx) as [Hg1 Hx1].
  assert (Hiff : ∀ m' x, byToken m' = byToken m → in_heap m' (<[t := k']> A) x ↔
    (in_heap m A x ∧ x ≠ l) ∨ (x = l ∧ is_Some (timeout now (Duration (lk_details k))) ∧ false = false)).
  { intros m' x Hbt. by rewrite (in_heap_replace m m' A t k k' l). }
  destruct (0 <=? Duration (lk_details k)) eqn:Ed.
  - set (m1 := upd l _ m).
    assert (Hi1 : names_inv m1 (<[t := k']> A)).
    { unfold m1. eapply names_inv_upd; try done; simpl; [by rewrite Hheld|].
      unfold timeout. by rewrite Hd, Ed. }
    assert (Hh1 : heap_inv m1 (λ x, in_heap m A x ∧ x ≠ l)).
    { apply heap_inv_upd; [done| |done]. by intros [_ ?]. }
    destruct (push_step m1 _ _ l Hi1 Hh1) as (h&->&Hi2&Hh2).
    + unfold m1. rewrite nodes_upd, Hn. by eexists.
    + by intros [_ ?].
    + eexists. split; [done|]. split; [|done]. split; [done| |done|done].
      eapply heap_inv_ext; [|exact Hh2]. intros x. rewrite Hiff by done.
      unfold timeout. rewrite Ed. split; [|naive_solver]. intros [?|?]; [by left|right].
      split_ands; [done|by eexists|done].
  - exists m. split; [done|].
    assert (Hsame : <[t := k']> A = A).
    { apply insert_id. rewrite Hk. f_equal. destruct k as [d e h]; unfold k'; simpl in *.
      rewrite He, Hu. unfold timeout. by rewrite Ed. }
    rewrite Hsame in *. split; [|done]. split; [done| |done|done].
    eapply heap_inv_ext; [|exact Hh]. intros x. specialize (Hiff m x eq_refl).
    unfold timeout in Hiff. rewrite Ed in Hiff. split; [by intros [? _]|].
    intros [?|(_&[? ?]&_)]%Hiff; done.
Qed.

Lemma Refresh_live m A t k l n now dur :
  rep m A → A !! t = Some k → byToken m !! t = Some l → nodes m !! l = Some n →
  lk_held k = false →
  ∃ m', (let? m :=
           (if 0 <=? byExpiryIndex n
            then let? (m, _) := heap_Remove m (Z.to_nat (byExpiryIndex n)) in Ret m
            else Ret m) in
         let det := set_Duration dur (details n) in
         let m := upd l (set_details det) m in
         if 0 <=? dur then
           let m := upd l (set_expiry (now + dur)) m in
           let? m := heap_Push m l in Ret (m, inr (A := lock_error) det)
         else Ret (m, inr det)) = Ret (m', inr (set_Duration dur (lk_details k))) ∧
    rep m' (<[t := refreshed now dur k]> A) ∧ byToken m' = byToken m.
Proof.
  intros [Hi Hh Hg Hx] Hk Hl Hn Hu.
  destruct (token_node _ _ _ _ Hi Hk) as (l0&n0&?&_&?&_&Hd&Hheld&He).
  assert (l0 = l) as -> by congruence. assert (n0 = n) as -> by congruence.
  destruct (detach_ok m A _ l n Hi Hh Hn) as (m1&->&Hi1&Hh1&Hbt&Hgen&i&Hn1).
  cbv zeta. rewrite Hd. set (det := set_Duration dur (lk_details k)).
  set (m2 := upd l (set_details det) m1).
  set (k1 := {| lk_details := det; lk_held := false;
    lk_expiry := if 0 <=? Duration det then Some (expiry n) else None |}).
  assert (Hi2 : names_inv m2 (<[t := k1]> A)).
  { unfold m2. eapply names_inv_upd; try done; [by rewrite Hbt|]. simpl. by rewrite Hheld, Hu. }
  assert (Hh2 : heap_inv m2 (λ x, in_heap m2 (<[t := k1]> A) x ∧ x ≠ l)).
  { eapply heap_inv_ext; [|apply heap_inv_upd; [done| |exact Hh1]; by intros [_ ?]].
    intros x. rewrite (in_heap_replace m m2 A t k k1 l) by done. simpl. naive_solver. }
  destruct (rest_replace m m2 A t k k1 Hgen Hk eq_refl eq_refl Hg Hx) as [Hg2 Hx2].
  destruct (attach_ok m2 (<[t := k1]> A) t k1 l (set_details det (set_byExpiryIndex i n)) now)
    as (m3&Hm3&Hr3&Hb3&_); try done.
  { apply lookup_insert_eq. }
  { unfold m2. simpl. by rewrite Hbt. }
  { unfold m2. rewrite nodes_upd, Hn1, decide_True by done. done. }
  change (lk_details k1) with det in Hm3. change (Duration det) with dur in Hm3.
  exists m3. split_ands; [| |by rewrite Hb3, <- Hbt].
  - revert Hm3. destruct (0 <=? dur); [|by intros [= ->]].
    destruct (heap_Push _ _); [|done]. by intros [= ->].
  - rewrite insert_insert_eq in Hr3. unfold refreshed. by rewrite Hu.
Qed.

(** ** Looking up a lock by its token *)

Fixpoint find_lock (A : locks) (name : gostr) (conditions : list Condition) : option gostr :=
  match conditions with
  | [] => None
  | c :: conditions' =>
      match A !! cond_Token c with
      | Some k =>
          if decide (lk_held k = false ∧ covers (lk_details k) name) then Some (cond_Token c)
          else find_lock A name conditions'
      | None => find_lock A name conditions'
      end
  end.

(** The string test of the code for a clean name and a clean root. *)
Lemma covers_string d name :
  clean_name (Root d) → clean_name name →
  covers d name ↔ name = Root d ∨
    (ZeroDepth d = false ∧
     bool_decide (Root d = #"/") || HasPrefix name (Root d ++ #"/") = true).
Proof.
  intros Hr Hn. pose proof (clean_name_segs _ Hr) as [Hr1 Hr2].
  pose proof (clean_name_segs _ Hn) as [Hn1 Hn2].
  unfold covers. rewrite orb_true_iff, bool_decide_eq_true, HasPrefix_spec.
  destruct (decide (segs (Root d) = [])) as [Hs|Hs].
  { assert (Root d = #"/") as -> by (rewrite Hr1, Hs; done).
    split; [|intros [?|[? _]]]; [intros [?|[? _]]|by left|right]; try tauto.
    split; [done|]. apply prefix_nil. }
  assert (Hne : Root d ≠ #"/").
  { intros E. apply Hs. rewrite E. done. }
  assert (Hpre : (Root d ++ #"/") `prefix_of` name ↔ ∃ l, l ≠ [] ∧ segs name = segs (Root d) ++ l).
  { rewrite <- (render_prefix (segs (Root d)) (segs name)) by done. by rewrite <- Hr1, <- Hn1. }
  rewrite Hpre. split.
  - intros [?|[? [l Hl]]]; [by left|]. destruct l as [|w l].
    + left. apply segs_inj; [done|done|]. by rewrite Hl, app_nil_r.
    + right. split; [done|]. right. by exists (w :: l).
  - intros [?|[? [?|(l&_&Hl)]]]; [by left|done|]. right. split; [done|]. by exists l.
Qed.

Lemma lookup_lock_find m A name conditions :
  names_inv m A → clean_name name →
  lookup_lock m name conditions = find_lock A name conditions ≫= (byToken m !!.).
Proof.
  intros Hi Hc. induction conditions as [|c conditions IH]; [done|]. cbn [lookup_lock find_lock].
  destruct (A !! cond_Token c) as [k|] eqn:Ek.
  2:{ by rewrite (ni_notoken _ _ Hi _ Ek). }
  destruct (token_node _ _ _ _ Hi Ek) as (l&n&Hl&_&Hn&_&Hd&Hh&_). rewrite Hl, Hn, Hd, Hh.
  destruct (ni_root _ _ Hi _ _ Ek) as [Hroot _].
  pose proof (covers_string (lk_details k) name Hroot Hc) as Hcov.
  destruct (lk_held k) eqn:Eh; [rewrite decide_False by (by intros [? _]); done|].
  destruct (bool_decide (name = _)) eqn:E1; reflect_bools.
  { rewrite decide_True by (split; [done|]; apply Hcov; by left). by simpl. }
  destruct (ZeroDepth (lk_details k)) eqn:Ez.
  { rewrite decide_False; [done|]. intros [_ [?|[? _]]%Hcov]; done. }
  destruct (_ || _) eqn:E2.
  - rewrite decide_True by (split; [done|]; apply Hcov; by right). by simpl.
  - rewrite decide_False; [done|]. intros [_ [?|[_ ?]]%Hcov]; done.
Qed.

Lemma find_lock_some A name conditions t :
  find_lock A name conditions = Some t →
  ∃ k, A !! t = Some k ∧ lk_held k = false ∧ covers (lk_details k) name ∧
       t ∈ map cond_Token conditions.
Proof.
  induction conditions as [|c conditions IH]; [done|]. cbn [find_lock map].
  intros H. destruct (A !! cond_Token c) as [k|] eqn:Ek.
  - case_decide as Hd.
    + injection H as <-. exists k. rewrite elem_of_cons. tauto.
    + apply IH in H as (k'&?&?&?&?). exists k'. rewrite elem_of_cons. tauto.
  - apply IH in H as (k'&?&?&?&?). exists k'. rewrite elem_of_cons. tauto.
Qed.

Lemma find_lock_none A name conditions :
  find_lock A name conditions = None →
  ∀ t k, t ∈ map cond_Token conditions → A !! t = Some k → lk_held k = true ∨ ¬ covers (lk_details k) name.
Proof.
  induction conditions as [|c conditions IH]; cbn [find_lock map].
  { intros _ t k Ht. by apply elem_of_nil in Ht. }
  intros H t k [->|Ht]%elem_of_cons Hk.
  - rewrite Hk in H. case_decide as Hd; [done|]. destruct (lk_held k); tauto.
  - destruct (A !! cond_Token c) as [k'|]; [case_decide; [done|]|]; by eapply IH.
Qed.

(** ** [canCreate] *)

Lemma canCreate_visit_ok m A z name first :
  names_inv m A →
  ∃ ok, canCreate_visit m z tt name first = Ret (tt, ok) ∧
    (ok = false ↔
      ∃ l n, byName m !! name = Some l ∧ nodes m !! l = Some n ∧
        if first then token n ≠ [] ∨ z = false else token n ≠ [] ∧ ZeroDepth (details n) = false).
Proof.
  intros Hi. unfold canCreate_visit. destruct (byName m !! name) as [l|] eqn:E.
  2:{ exists true. split; [done|]. split; [done|]. by intros (l&n&?&_). }
  destruct (ni_node _ _ Hi _ _ E) as (n&Hn&_). rewrite Hn.
  assert (Hex : ∀ P : memLSNode → Prop,
    (∃ l0 n0, Some l = Some l0 ∧ nodes m !! l0 = Some n0 ∧ P n0) ↔ P n).
  { intros P. split; [|by intros ?; exists l, n]. intros (?&?&[= <-]&?&?). congruence. }
  specialize (Hex (λ n, if first then token n ≠ [] ∨ z = false
                        else token n ≠ [] ∧ ZeroDepth (details n) = false)).
  cbv beta in Hex. setoid_rewrite Hex. clear Hex.
  destruct first; case_bool_decide; simpl.
  - destruct z; simpl; eexists; (split; [done|]); naive_solver.
  - eexists; (split; [done|]); naive_solver.
  - eexists; (split; [done|]); naive_solver.
  - destruct (ZeroDepth (details n)); simpl; eexists; (split; [done|]); naive_solver.
Qed.

Lemma canCreate_walk m A z names first :
  names_inv m A →
  ∃ ok, walk_list (canCreate_visit m z) tt names first = Ret (tt, ok) ∧
    (ok = false ↔
      ∃ i name, names !! i = Some name ∧
        canCreate_visit m z tt name (first && (i =? 0)%nat) = Ret (tt, false)).
Proof.
  intros Hi. revert first. induction names as [|x names IH]; intros first.
  { exists true. split; [done|]. split; [done|]. by intros (?&?&?&_). }
  cbn [walk_list]. destruct (canCreate_visit_ok m A z x first Hi) as (ok&Hv&_). rewrite Hv.
  destruct ok; cbn [negb].
  - destruct (IH false) as (ok&->&Hok). exists ok. split; [done|]. rewrite Hok. split.
    + intros (i&name&Hi'&Hf). exists (S i), name. simpl. by rewrite andb_false_r.
    + intros ([|i]&name&Hi'&Hf).
      * simpl in *. injection Hi' as <-. rewrite andb_true_r in Hf. congruence.
      * exists i, name. simpl in *. by rewrite andb_false_r in Hf.
  - exists false. split; [done|]. split; [|done]. intros _. exists 0%nat, x.
    simpl. by rewrite andb_true_r.
Qed.

(** The request conflicts with a lock of the table. *)
Definition blocked (A : locks) (d : LockDetails) : Prop :=
  ∃ t k, A !! t = Some k ∧ conflict (lk_details k) d.

Lemma node_locked m A name l n :
  names_inv m A → byName m !! name = Some l → nodes m !! l = Some n →
  token n ≠ [] → ∃ k, A !! token n = Some k ∧ lk_details k = details n ∧ lk_root k = name.
Proof.
  intros Hi Hb Hn Ht. destruct (ni_node _ _ Hi _ _ Hb) as (n'&Hn'&Hr&_&_&Hlk).
  assert (n' = n) as -> by congruence. destruct Hlk as [(?&_)|(k&Hk&Hd&_)]; [done|].
  exists k. split_ands; [done|done|]. unfold lk_root. by rewrite Hd.
Qed.

Lemma canCreate_blocks m A d i name :
  names_inv m A → clean_name (Root d) → ancestors (Root d) !! i = Some name →
  canCreate_visit m (ZeroDepth d) tt name (true && (i =? 0)%nat) = Ret (tt, false) → blocked A d.
Proof.
  intros Hi Hc Hx Hv.
  destruct (canCreate_visit_ok m A (ZeroDepth d) name (true && (i =? 0)%nat) Hi) as (ok&Hv'&Hok).
  rewrite Hv in Hv'. injection Hv' as <-. destruct (proj1 Hok eq_refl) as (l&n&Hb&Hn&Hcase).
  destruct (ancestors_head (Root d) Hc) as (rest&Hhead&_).
  destruct i as [|i]; simpl in Hcase.
  - rewrite Hhead in Hx. injection Hx as <-.
    destruct (decide (token n = [])) as [E|E].
    + destruct Hcase as [?|Hz]; [done|]. destruct (ni_node _ _ Hi _ _ Hb) as (_&_&_&_&Hpos&_).
      apply ref_pos_inv in Hpos as (t&k&Hk&Hp). exists t, k. split; [done|]. right. by right.
    + destruct (node_locked m A _ l n Hi Hb Hn E) as (k&Hk&_&Hr).
      exists (token n), k. split; [done|]. left. left. by rewrite <- Hr.
  - destruct Hcase as [E Hz]. destruct (node_locked m A _ l n Hi Hb Hn E) as (k&Hk&Hd&Hr).
    exists (token n), k. split; [done|]. left. right. rewrite Hd. split; [done|].
    apply list_elem_of_lookup_2 in Hx. apply elem_of_ancestors in Hx as [_ Hx]; [|done].
    rewrite <- Hd. unfold lk_root in Hr. by rewrite Hr.
Qed.

Lemma blocked_stops m A d :
  names_inv m A → clean_name (Root d) → blocked A d →
  ∃ i name, ancestors (Root d) !! i = Some name ∧
    canCreate_visit m (ZeroDepth d) tt name (true && (i =? 0)%nat) = Ret (tt, false).
Proof.
  intros Hi Hc (t&k&Hk&Hcf).
  assert (Hstop : ∀ i name l n, ancestors (Root d) !! i = Some name → byName m !! name = Some l →
    nodes m !! l = Some n →
    (if (i =? 0)%nat then token n ≠ [] ∨ ZeroDepth d = false
     else token n ≠ [] ∧ ZeroDepth (details n) = false) →
    ∃ i name, ancestors (Root d) !! i = Some name ∧
      canCreate_visit m (ZeroDepth d) tt name (true && (i =? 0)%nat) = Ret (tt, false)).
  { intros i name l n Ha Hb Hn Hcase. exists i, name. split; [done|].
    destruct (canCreate_visit_ok m A (ZeroDepth d) name (true && (i =? 0)%nat) Hi) as (ok&Hv&Hok).
    rewrite Hv. assert (ok = false) as ->; [|done]. apply Hok. by exists l, n. }
  destruct (token_node _ _ _ _ Hi Hk) as (l&n&Hl&Hb&Hn&Ht&Hd&_).
  destruct (ni_root _ _ Hi _ _ Hk) as [Hroot Htne].
  destruct (ancestors_head (Root d) Hc) as (rest&Hhead&_).
  assert (Hhere : lk_root k = Root d → ∃ i name, ancestors (Root d) !! i = Some name ∧
      canCreate_visit m (ZeroDepth d) tt name (true && (i =? 0)%nat) = Ret (tt, false)).
  { intros E. apply (Hstop 0%nat (Root d) l n); [by rewrite Hhead|by rewrite <- E|done|].
    left. congruence. }
  destruct Hcf as [[E|[Hz Hp]]|[E|[Hz Hp]]].
  - by apply Hhere.
  - assert (Hin : lk_root k ∈ ancestors (Root d)) by (by apply elem_of_ancestors).
    apply list_elem_of_lookup in Hin as [[|i] Hx].
    + apply Hhere. rewrite Hhead in Hx. by injection Hx as <-.
    + apply (Hstop (S i) (lk_root k) l n); [done|done|done|]. simpl. rewrite Hd. split; [congruence|done].
  - by apply Hhere.
  - pose proof (ref_pos _ _ _ _ Hk Hp) as Hpos. destruct (byName m !! Root d) as [l'|] eqn:E.
    + destruct (ni_node _ _ Hi _ _ E) as (n'&Hn'&_).
      apply (Hstop 0%nat (Root d) l' n'); [by rewrite Hhead|done|done|]. by right.
    + rewrite (ni_none _ _ Hi _ Hc E) in Hpos. lia.
Qed.

Lemma canCreate_ok m A d :
  names_inv m A → clean_name (Root d) →
  ∃ ok, canCreate m (Root d) (ZeroDepth d) = Ret ok ∧ (ok = false ↔ blocked A d).
Proof.
  intros Hi Hc. unfold canCreate. rewrite walkToRoot_ancestors by done.
  destruct (canCreate_walk m A (ZeroDepth d) (ancestors (Root d)) true Hi) as (ok&->&Hok).
  exists ok. split; [done|]. rewrite Hok. split.
  - intros (i&name&Hx&Hv). by eapply canCreate_blocks.
  - by apply blocked_stops.
Qed.
