(* ===== verification/WebdavLockThms.v ===== *)
(** * The lock system refines its specification

    [Create], [Refresh], [Unlock], [Confirm] and the release function it
    returns, against the abstract table of locks; mutual exclusion in every
    reachable state. *)

From S2P Require Import Prelude GoStrings GoHeap WebdavLock WebdavLockRep WebdavLockSpec.
From S2P Require Import WebdavLockOps.

Local Open Scope Z_scope.

(** ** The visits of [create] *)

(** The locations in the name index are allocated. *)
Definition names_alloc (m : memLS) : Prop :=
  ∀ name l, byName m !! name = Some l → (l < length (nodes m))%nat.

(** The table after one visit. *)
Definition visit_one (m : memLS) (x : gostr) : memLS * nat :=
  match byName m !! x with
  | Some l => (upd l (add_refCount 1) m, l)
  | None =>
      (upd (length (nodes m)) (add_refCount 1)
         (set_byName (<[x := length (nodes m)]> (byName m))
            (set_nodes (nodes m ++ [new_node x]) m)), length (nodes m))
  end.

Lemma create_visit_one m r x first :
  create_visit (m, r) x first
  = Ret ((visit_one m x).1, if first then Some (visit_one m x).2 else r, true).
Proof. unfold create_visit, visit_one. by destruct (byName m !! x). Qed.

Lemma visit_one_name m x name :
  byName (visit_one m x).1 !! name
  = if decide (name = x) then Some (visit_one m x).2 else byName m !! name.
Proof.
  unfold visit_one. destruct (byName m !! x) as [l|] eqn:E; simpl.
  - case_decide; [by subst|done].
  - case_decide as Hd; [subst; apply lookup_insert_eq|by rewrite lookup_insert_ne].
Qed.

Lemma visit_one_old m x l :
  names_alloc m → (l < length (nodes m))%nat →
  nodes (visit_one m x).1 !! l
  = (if decide (byName m !! x = Some l) then add_refCount 1 else id) <$> nodes m !! l.
Proof.
  intros Ha Hl. unfold visit_one. destruct (byName m !! x) as [y|] eqn:E; cbn [fst].
  - rewrite nodes_upd. f_equal. apply decide_ext. naive_solver.
  - rewrite nodes_upd. rewrite !decide_False by (done || lia). cbn [nodes set_byName set_nodes].
    by rewrite lookup_app_l.
Qed.

Lemma visit_one_new m x :
  byName m !! x = None →
  (visit_one m x).2 = length (nodes m) ∧
  length (nodes (visit_one m x).1) = S (length (nodes m)) ∧
  nodes (visit_one m x).1 !! length (nodes m) = Some (add_refCount 1 (new_node x)).
Proof.
  intros E. unfold visit_one. rewrite E. cbn [fst snd]. split_ands; [done| |].
  - simpl. rewrite length_alter, length_app. simpl. lia.
  - rewrite nodes_upd, decide_True by done. cbn [nodes set_byName set_nodes].
    by rewrite lookup_app_r, Nat.sub_diag by lia.
Qed.

Lemma visit_one_length m x :
  length (nodes (visit_one m x).1)
  = (length (nodes m) + if decide (byName m !! x = None) then 1 else 0)%nat.
Proof.
  destruct (byName m !! x) as [l|] eqn:E.
  - rewrite decide_False by done. unfold visit_one. rewrite E. simpl. rewrite length_alter. lia.
  - rewrite decide_True by done. destruct (visit_one_new m x E) as (_&->&_). lia.
Qed.

Lemma visit_one_rest m x : same_rest m (visit_one m x).1.
Proof. unfold visit_one. by destruct (byName m !! x). Qed.

Lemma visit_one_alloc m x :
  names_alloc m → names_inj_in m → names_alloc (visit_one m x).1 ∧ names_inj_in (visit_one m x).1.
Proof.
  intros Ha Hj. pose proof (visit_one_length m x) as Hlen.
  assert (H2 : ((visit_one m x).2 < length (nodes (visit_one m x).1))%nat ∧
    ∀ name, name ≠ x → byName m !! name ≠ Some (visit_one m x).2).
  { destruct (byName m !! x) as [l|] eqn:E.
    - assert ((visit_one m x).2 = l) as -> by (unfold visit_one; by rewrite E).
      pose proof (Ha _ _ E). split; [case_decide; lia|].
      intros name Hne Hb. by apply Hne, (Hj _ _ l).
    - destruct (visit_one_new m x E) as (->&->&_). split; [lia|].
      intros name _ Hb. apply Ha in Hb. lia. }
  destruct H2 as [H2 H3]. split.
  - intros name l. rewrite visit_one_name. destruct (decide (name = x)); [intros [= <-]; done|].
    intros Hb. apply Ha in Hb. rewrite Hlen. lia.
  - intros a b l. rewrite !visit_one_name.
    destruct (decide (a = x)), (decide (b = x)); [congruence| | |by apply Hj].
    + intros [= <-] Hb. by apply H3 in Hb.
    + intros Ha' [= <-]. by apply H3 in Ha'.
Qed.

(** What a walk of [create] over [names] does to the table. *)
Record grown (names : list gostr) (m m' : memLS) : Prop := {
  gr_rest : same_rest m m';
  gr_len : (length (nodes m) ≤ length (nodes m'))%nat;
  gr_old l : (l < length (nodes m))%nat → nodes m' !! l = bump m names 1 l <$> nodes m !! l;
  gr_keep name l : byName m !! name = Some l → byName m' !! name = Some l;
  gr_other name : name ∉ names → byName m' !! name = byName m !! name;
  gr_new name : name ∈ names → byName m !! name = None →
    ∃ l, byName m' !! name = Some l ∧ nodes m' !! l = Some (add_refCount 1 (new_node name));
  gr_fresh l n : (length (nodes m) ≤ l)%nat → nodes m' !! l = Some n →
    ∃ name, n = add_refCount 1 (new_node name);
}.

Lemma grown_cons x names m m' :
  x ∉ names → names_alloc m → names_inj_in m →
  grown names (visit_one m x).1 m' → grown (x :: names) m m'.
Proof.
  intros Hx Ha Hj [Hrest Hlen Hold Hkeep Hother Hnew Hfresh]. set (m1 := (visit_one m x).1) in *.
  pose proof (visit_one_length m x) as Hl1. fold m1 in Hl1.
  assert (Htouch : ∀ l, touched m1 names l ↔ touched m names l).
  { intros l. unfold touched. split; intros (y&Hy&Hb); exists y; (split; [done|]);
      assert (y ≠ x) by (intros ->; done); revert Hb; unfold m1;
      rewrite visit_one_name, decide_False by done; done. }
  split.
  - destruct Hrest as (?&?&?), (visit_one_rest m x) as (?&?&?). unfold same_rest, m1 in *.
    split_ands; congruence.
  - lia.
  - intros l Hl. rewrite Hold by (rewrite Hl1; lia). unfold m1. rewrite visit_one_old by done.
    destruct (nodes m !! l) as [n|]; [|done]. cbn. f_equal. unfold bump. fold m1.
    assert (Hiff : touched m (x :: names) l ↔ byName m !! x = Some l ∨ touched m names l).
    { unfold touched. setoid_rewrite elem_of_cons. naive_solver. }
    assert (Hexc : byName m !! x = Some l → ¬ touched m names l).
    { intros Hb (y&Hy&Hby). assert (y = x) as -> by (by eapply Hj). done. }
    destruct (decide (byName m !! x = Some l)) as [Hb|Hb].
    + rewrite decide_False by (rewrite Htouch; by apply Hexc). rewrite decide_True by tauto. done.
    + destruct (decide (touched m1 names l)) as [Ht|Ht]; rewrite Htouch in Ht.
      * by rewrite decide_True by tauto.
      * by rewrite decide_False by tauto.
  - intros name l Hb. apply Hkeep. unfold m1. rewrite visit_one_name.
    destruct (decide (name = x)); [|done]. subst name. f_equal. unfold visit_one. by rewrite Hb.
  - intros name [Hne Hn]%not_elem_of_cons. rewrite Hother by done. unfold m1.
    rewrite visit_one_name. by rewrite decide_False.
  - intros name [->|Hin]%elem_of_cons Hb.
    + destruct (visit_one_new m x Hb) as (H2&H3&H4). exists (length (nodes m)). split.
      * apply Hkeep. unfold m1. rewrite visit_one_name, decide_True by done. by rewrite H2.
      * rewrite Hold by (unfold m1; rewrite H3; lia). unfold m1. rewrite H4. cbn. f_equal.
        unfold bump. fold m1. rewrite decide_False; [done|]. rewrite Htouch.
        intros (y&_&Hby). apply Ha in Hby. lia.
    + apply Hnew; [done|]. unfold m1. rewrite visit_one_name. rewrite decide_False; [done|].
      by intros ->.
  - intros l n Hl Hn. destruct (decide (length (nodes m1) ≤ l)%nat) as [?|Hlt]; [by eapply Hfresh|].
    destruct (byName m !! x) as [y|] eqn:E.
    { rewrite decide_False in Hl1 by done. lia. }
    destruct (visit_one_new m x E) as (_&H3&H4). rewrite decide_True in Hl1 by done.
    assert (l = length (nodes m)) as -> by lia.
    rewrite Hold in Hn by lia. unfold m1 in Hn. rewrite H4 in Hn. cbn in Hn. injection Hn as <-.
    exists x. unfold bump. fold m1. rewrite decide_False; [done|]. rewrite Htouch.
    intros (z&_&Hby). apply Ha in Hby. lia.
Qed.

Lemma create_walk_spec names m r first :
  NoDup names → names_alloc m → names_inj_in m →
  ∃ m' r', walk_list create_visit (m, r) names first = Ret ((m', r'), true) ∧ grown names m m' ∧
    (∀ x rest, names = x :: rest → first = true → r' = byName m' !! x) ∧
    (names = [] ∨ first = false → r' = r).
Proof.
  revert m r first. induction names as [|x names IH]; intros m r first Hnd Ha Hj.
  { exists m, r. split_ands; try done. split; try done.
    - intros l _. destruct (nodes m !! l) as [n|]; [|done]. simpl. f_equal. unfold bump.
      rewrite decide_False; [done|]. intros (?&H&_). by apply elem_of_nil in H.
    - intros name H. by apply elem_of_nil in H.
    - intros l n Hl Hn. apply lookup_lt_Some in Hn. lia. }
  apply NoDup_cons in Hnd as [Hx Hnd]. cbn [walk_list]. rewrite create_visit_one. cbn [negb].
  destruct (visit_one_alloc m x Ha Hj) as [Ha1 Hj1].
  destruct (IH (visit_one m x).1 (if first then Some (visit_one m x).2 else r) false Hnd Ha1 Hj1)
    as (m'&r'&->&Hg&_&Hr'). exists m', r'. split; [done|]. split; [by apply grown_cons|].
  specialize (Hr' (or_intror eq_refl)). split.
  - intros ? ? [= <- <-] ->. rewrite Hr'. symmetry. apply (gr_keep _ _ _ Hg).
    by rewrite visit_one_name, decide_True.
  - intros [?| ->]; done.
Qed.

(** ** A new lock in the table *)

Section insertion.
Context (m m1 : memLS) (A : locks) (d : LockDetails) (t : gostr) (l : nat) (g : Z).
Hypothesis (Hi : names_inv m A) (Hc : clean_name (Root d)) (Hnb : ¬ blocked A d).
Hypothesis (Hg : grown (ancestors (Root d)) m m1) (Hl : byName m1 !! Root d = Some l).
Hypothesis (Hfree : A !! t = None) (Hne : t ≠ []).

Lemma alloc_names : names_alloc m.
Proof.
  intros name x Hb. destruct (ni_node _ _ Hi _ _ Hb) as (n&Hn&_). by apply lookup_lt_Some in Hn.
Qed.

(** The table of [Create] before the lock goes into the heap. *)
Definition inserted : memLS :=
  upd l (set_details d)
    (set_byToken (<[t := l]> (byToken (upd l (set_token t) (set_gen g m1))))
       (upd l (set_token t) (set_gen g m1))).

Definition relabel (x : nat) (n : memLSNode) : memLSNode :=
  if decide (x = l) then set_details d (set_token t n) else n.

Lemma inserted_nodes x : nodes inserted !! x = relabel x <$> nodes m1 !! x.
Proof.
  unfold inserted, relabel. rewrite nodes_upd. cbn [nodes set_byToken]. rewrite nodes_upd.
  cbn [nodes set_gen]. destruct (nodes m1 !! x) as [n|]; [|done]. simpl. by case_decide.
Qed.

Lemma elem_of_up name :
  name ∈ ancestors (Root d) ↔ clean_name name ∧ segs name `prefix_of` segs (Root d).
Proof. by apply elem_of_ancestors. Qed.

(** The nodes of the index before relabelling. *)
Lemma grown_node name x :
  byName m1 !! name = Some x →
  clean_name name ∧
  ∃ n, nodes m1 !! x = Some n ∧ Root (details n) = name ∧
    refCount n = ref A name + (if decide (segs name `prefix_of` segs (Root d)) then 1 else 0) ∧
    0 < refCount n ∧ node_lock A n.
Proof.
  intros Hb. destruct (byName m !! name) as [y|] eqn:E.
  - assert (y = x) as -> by (apply (gr_keep _ _ _ Hg) in E; congruence).
    pose proof (ni_clean _ _ Hi _ _ E) as Hcn. split; [done|].
    destruct (ni_node _ _ Hi _ _ E) as (n&Hn&Hr&Hcnt&Hpos&Hlk).
    exists (bump m (ancestors (Root d)) 1 x n).
    rewrite (gr_old _ _ _ Hg) by by apply lookup_lt_Some in Hn. rewrite Hn.
    pose proof (bump_fields m (ancestors (Root d)) 1 x n) as (Hf1&Hf2&Hf3&Hf4&_&Hf6).
    assert (Ht : touched m (ancestors (Root d)) x ↔ segs name `prefix_of` segs (Root d)).
    { split.
      - intros (z&Hz&Hbz). assert (z = name) as -> by (by eapply (names_inj m A)).
        by apply elem_of_up in Hz as [_ ?].
      - intros Hp. exists name. split; [by apply elem_of_up|done]. }
    rewrite (decide_ext _ _ 1 0 Ht) in Hf6. split_ands.
    + done.
    + by rewrite Hf1.
    + lia.
    + case_decide; lia.
    + unfold node_lock in *. by rewrite Hf1, Hf2, Hf3, Hf4.
  - destruct (decide (name ∈ ancestors (Root d))) as [Hin|Hout].
    2:{ rewrite (gr_other _ _ _ Hg) in Hb by done. congruence. }
    destruct (gr_new _ _ _ Hg _ Hin E) as (y&Hy&Hn). assert (y = x) as -> by congruence.
    apply elem_of_up in Hin as [Hcn Hp]. split; [done|].
    exists (add_refCount 1 (new_node name)). rewrite (ni_none _ _ Hi _ Hcn E), decide_True by done.
    split_ands; try done. left. split_ands; try done. intros t' k' Hk' Hr. simpl in Hr.
    destruct (ni_token _ _ Hi _ _ Hk') as (?&?&_&Hb'&_). congruence.
Qed.

Lemma grown_inj name name' x : byName m1 !! name = Some x → byName m1 !! name' = Some x → name = name'.
Proof.
  intros [_ (n&Hn&<-&_)]%grown_node [_ (n'&Hn'&<-&_)]%grown_node. congruence.
Qed.

(** The node that gets the lock carried none. *)
Lemma target_free n :
  nodes m1 !! l = Some n → token n = [] ∧ held n = false.
Proof.
  intros Hn. destruct (grown_node _ _ Hl) as (_&n'&Hn'&Hr&_&_&Hlk).
  assert (n' = n) as -> by congruence. destruct Hlk as [(?&?&_)|(k&Hk&Hd&_)]; [done|].
  exfalso. apply Hnb. exists (token n), k. split; [done|]. left. left. by rewrite Hd.
Qed.

Definition fresh_lock (n : memLSNode) : lock :=
  {| lk_details := d; lk_held := false;
     lk_expiry := if 0 <=? Duration d then Some (expiry n) else None |}.

Lemma inserted_names n :
  nodes m1 !! l = Some n → names_inv inserted (<[t := fresh_lock n]> A).
Proof.
  intros Hnl. destruct (target_free n Hnl) as [Htok Hheld].
  split.
  - intros name x Hb. by apply grown_node in Hb as [? _].
  - intros name x Hb. destruct (grown_node name x Hb) as (_&n1&Hn1&Hr&Hcnt&Hpos&Hlk).
    rewrite ref_insert by done. unfold count_one. change (lk_root (fresh_lock n)) with (Root d).
    exists (relabel x n1). rewrite inserted_nodes, Hn1. unfold relabel.
    destruct (decide (x = l)) as [Hx|Hx].
    + subst x. assert (n1 = n) as -> by congruence.
      assert (name = Root d) as -> by (by eapply grown_inj).
      split_ands; try done; [lia|]. right. exists (fresh_lock n). simpl.
      by rewrite lookup_insert_eq.
    + split_ands; try done; [lia|]. destruct Hlk as [(?&?&Hno)|(k&Hk&?&?&?)].
      * left. split_ands; [done|done|]. intros t' k'. rewrite lookup_insert_Some.
        intros [[<- <-]|[_ ?]]; [|by eapply Hno]. intros E. change (Root d = Root (details n1)) in E.
        rewrite Hr in E. rewrite <- E in Hb. change (byName m1 !! Root d = Some x) in Hb. congruence.
      * right. exists k. split_ands; try done. rewrite lookup_insert_ne; [done|]. congruence.
  - intros name Hcn Hb. change (byName m1 !! name = None) in Hb. rewrite ref_insert by done.
    assert (Hout : name ∉ ancestors (Root d)).
    { intros Hin. destruct (byName m !! name) as [y|] eqn:E.
      - apply (gr_keep _ _ _ Hg) in E. congruence.
      - destruct (gr_new _ _ _ Hg _ Hin E) as (y&Hy&_). congruence. }
    rewrite (gr_other _ _ _ Hg) in Hb by done. rewrite (ni_none _ _ Hi _ Hcn Hb).
    unfold count_one. rewrite decide_False; [done|]. intros Hp. by apply Hout, elem_of_up.
  - intros t' k'. rewrite lookup_insert_Some. intros [[<- <-]|[Hnt Hk']].
    + exists l, (relabel l n). rewrite inserted_nodes, Hnl. split_ands; try done.
      * simpl. apply lookup_insert_eq.
      * unfold relabel. by rewrite decide_True.
    + destruct (ni_token _ _ Hi _ _ Hk') as (x&nx&Hx&Hbx&Hnx&Htx).
      pose proof (gr_keep _ _ _ Hg _ _ Hbx) as Hb1.
      assert (Hx1 : nodes m1 !! x = Some (bump m (ancestors (Root d)) 1 x nx)).
      { rewrite (gr_old _ _ _ Hg) by by apply lookup_lt_Some in Hnx. by rewrite Hnx. }
      destruct (bump_fields m (ancestors (Root d)) 1 x nx) as (_&Hf2&_).
      assert (x ≠ l).
      { intros ->. destruct (ni_root _ _ Hi _ _ Hk'). rewrite Hnl in Hx1. congruence. }
      exists x, (bump m (ancestors (Root d)) 1 x nx). rewrite inserted_nodes, Hx1.
      cbn. unfold relabel. rewrite decide_False by done. split_ands; try done; [|congruence].
      simpl. rewrite lookup_insert_ne by done. destruct (gr_rest _ _ _ Hg) as (->&_). done.
  - intros t'. rewrite lookup_insert_None. intros [Hk' Hnt]. simpl.
    rewrite lookup_insert_ne by done. destruct (gr_rest _ _ _ Hg) as (->&_).
    by apply (ni_notoken m A).
  - intros t' k'. rewrite lookup_insert_Some. intros [[<- <-]|[_ ?]]; [done|].
    by apply (ni_root m A).
Qed.

Lemma inserted_heap H :
  heap_inv m H → heap_inv inserted H.
Proof.
  intros Hh. pose proof Hh as ([[_ Hlt] Hidx]&_&_).
  destruct (gr_rest _ _ _ Hg) as (_&_&He).
  apply (heap_inv_frame m); [exact He| | |exact Hh].
  - intros x n. rewrite inserted_nodes. destruct (nodes m1 !! x) as [n1|] eqn:E; [|done].
    cbn. intros [= <-]. assert (Hrel : byExpiryIndex (relabel x n1) = byExpiryIndex n1).
    { unfold relabel. by case_decide. }
    rewrite Hrel. destruct (decide (x < length (nodes m))%nat) as [Hx|Hx].
    + rewrite (gr_old _ _ _ Hg) in E by done. destruct (nodes m !! x) as [n0|] eqn:E0; [|done].
      cbn in E. injection E as <-.
      destruct (bump_fields m (ancestors (Root d)) 1 x n0) as (_&_&_&_&->&_). by apply Hidx.
    + destruct (gr_fresh _ _ _ Hg x n1) as (name&->); [lia|done|].
      rewrite idx_of_notin; [done|]. intros Hin. by apply Hx, Hlt.
  - intros x Hx. pose proof (Hlt _ Hx) as Hlx. unfold expiry_of.
    rewrite inserted_nodes, (gr_old _ _ _ Hg) by done.
    apply lookup_lt_is_Some in Hlx as [n Hn]. rewrite Hn. simpl. split; [by eexists|].
    destruct (bump_fields m (ancestors (Root d)) 1 x n) as (_&_&He'&_). rewrite <- He'.
    unfold relabel. by case_decide.
Qed.

Lemma in_heap_inserted n x :
  nodes m1 !! l = Some n →
  (in_heap m A x ↔ in_heap inserted (<[t := fresh_lock n]> A) x ∧ x ≠ l).
Proof.
  intros Hnl. destruct (target_free n Hnl) as [Htok _]. destruct (gr_rest _ _ _ Hg) as (Hbt&_).
  unfold in_heap. simpl. rewrite Hbt. split.
  - intros (t'&k'&Hk'&Hx&?&?). assert (t ≠ t') by congruence. split.
    + exists t', k'. by rewrite !lookup_insert_ne.
    + intros ->. destruct (ni_token _ _ Hi _ _ Hk') as (y&ny&Hy&Hby&Hny&Hty).
      assert (y = l) as -> by congruence.
      rewrite (gr_old _ _ _ Hg), Hny in Hnl by (by apply lookup_lt_Some in Hny).
      cbn in Hnl. injection Hnl as <-. destruct (ni_root _ _ Hi _ _ Hk').
      destruct (bump_fields m (ancestors (Root d)) 1 l ny) as (_&Hf2&_). congruence.
  - intros [(t'&k'&Hk'&Hx&?&?) Hxl]. rewrite lookup_insert_Some in Hk'.
    rewrite lookup_insert_Some in Hx.
    destruct Hk' as [[<- <-]|[Hnt Hk']]; destruct Hx as [[? ?]|[? Hx]]; try done.
    by exists t', k'.
Qed.
End insertion.

(** ** The operations *)

Definition new_lock (now : Z) (d : LockDetails) : lock :=
  {| lk_details := d; lk_expiry := timeout now (Duration d); lk_held := false |}.

Lemma FormatUint_nonempty a : 0 ≤ a → FormatUint a ≠ [].
Proof. intros Ha. destruct (FormatUint_head a Ha) as (c&s&->&_). done. Qed.

Lemma gen_fresh m A : gen_inv m A → gen m < max_uint64 → A !! FormatUint (gen m + 1) = None.
Proof.
  intros [Hg Ht] Hlt. destruct (A !! _) as [k|] eqn:E; [|done].
  destruct (Ht _ _ E) as (g&Hf&Hb). apply FormatUint_inj in Hf; lia.
Qed.

Lemma conflict_sym d1 d2 : conflict d1 d2 ↔ conflict d2 d1.
Proof. unfold conflict. tauto. Qed.

Lemma exclusive_insert A t k :
  exclusive A → ¬ blocked A (lk_details k) → exclusive (<[t := k]> A).
Proof.
  intros Hx Hb t1 t2 k1 k2. rewrite !lookup_insert_Some.
  intros [[<- <-]|[? H1]] [[<- <-]|[? H2]] Hne Hcf; try done.
  - apply Hb. exists t2, k2. split; [done|]. by apply conflict_sym.
  - apply Hb. by exists t1, k1.
  - exact (Hx _ _ _ _ H1 H2 Hne Hcf).
Qed.

Lemma gen_inv_insert m m' A t k :
  gen_inv m A → gen m < max_uint64 → gen m' = gen m + 1 → t = FormatUint (gen m + 1) →
  gen_inv m' (<[t := k]> A).
Proof.
  intros [Hg Ht] Hlt Hg' ->. unfold gen_inv. rewrite Hg'. split; [lia|].
  intros t' k'. rewrite lookup_insert_Some. intros [[<- _]|[_ Hk]].
  - exists (gen m + 1). split; [done|lia].
  - destruct (Ht _ _ Hk) as (g&->&?). exists g. split; [done|lia].
Qed.

(** The part of [Create] after the check, for a request that is not blocked. *)
Lemma create_live m A d now :
  rep m A → clean_name (Root d) → ¬ blocked A d → gen m < max_uint64 →
  ∃ m' t,
    (let? (m, ret) := create m (Root d) in
     match ret with
     | None => Panic
     | Some n =>
         let '(m, tok) := nextToken m in
         let m := upd n (set_token tok) m in
         let m := set_byToken (<[tok := n]> (byToken m)) m in
         let m := upd n (set_details d) m in
         if 0 <=? Duration d then
           let m := upd n (set_expiry (now + Duration d)) m in
           let? m := heap_Push m n in
           Ret (m, inr (A := lock_error) tok)
         else Ret (m, inr tok)
     end) = Ret (m', inr t) ∧
    t = FormatUint (gen m + 1) ∧ A !! t = None ∧ rep m' (<[t := new_lock now d]> A) ∧
    keeps A m m' ∧ gen m' = gen m + 1.
Proof.
  intros [Hi Hh Hgen Hx] Hc Hnb Hlt.
  unfold create. rewrite walkToRoot_ancestors by done.
  destruct (create_walk_spec (ancestors (Root d)) m None true) as (m1&r&->&Hg&Hr&_).
  { apply NoDup_ancestors. }
  { by eapply alloc_names. }
  { intros a b x. by apply (names_inj m A). }
  destruct (ancestors_head (Root d) Hc) as (rest&Hhead&_).
  specialize (Hr _ _ Hhead eq_refl). subst r.
  assert (Hb1 : is_Some (byName m1 !! Root d)).
  { destruct (byName m !! Root d) as [y|] eqn:E; [exists y; by apply (gr_keep _ _ _ Hg)|].
    destruct (gr_new _ _ _ Hg (Root d)) as (y&Hy&_); [|done|by exists y].
    rewrite Hhead. apply elem_of_cons. by left. }
  destruct Hb1 as [l Hl]. rewrite Hl. unfold nextToken. cbv zeta.
  destruct (gr_rest _ _ _ Hg) as (_&Hg1&_).
  set (t := FormatUint _). set (m2 := upd l (set_details d) _).
  assert (Hgw : wrapu64 (gen m1 + 1) = gen m + 1).
  { rewrite Hg1. apply wrapu64_id. destruct Hgen as [? _]. lia. }
  assert (Ht : t = FormatUint (gen m + 1)) by (unfold t; simpl; by rewrite Hgw).
  assert (Hfree : A !! t = None) by (rewrite Ht; by apply gen_fresh).
  assert (Hne : t ≠ []) by (rewrite Ht; apply FormatUint_nonempty; destruct Hgen; lia).
  destruct (grown_node m m1 A d Hi Hc Hg (Root d) l Hl) as (_&n&Hn&_).
  pose proof (inserted_names m m1 A d t l (wrapu64 (gen m1 + 1)) Hi Hc Hnb Hg Hl Hfree Hne n Hn) as Hi2.
  pose proof (inserted_heap m m1 d t l (wrapu64 (gen m1 + 1)) Hg _ Hh) as Hh2.
  set (k := fresh_lock d n) in *.
  destruct (attach_ok m2 (<[t := k]> A) t k l (relabel d t l l n) now) as (m3&Hm3&Hr3&Hb3&Hg3).
  - exact Hi2.
  - eapply heap_inv_ext; [|exact Hh2]. intros x.
    by apply (in_heap_inserted m m1 A d t l (wrapu64 (gen m1 + 1)) Hi Hc Hnb Hg Hl Hfree).
  - apply lookup_insert_eq.
  - unfold m2. simpl. apply lookup_insert_eq.
  - change m2 with (inserted m1 d t l (wrapu64 (gen m1 + 1))).
    by rewrite inserted_nodes, Hn.
  - done.
  - by apply (gen_inv_insert m).
  - by apply exclusive_insert.
  - unfold relabel. by rewrite decide_True.
  - exists m3, t. change (lk_details k) with d in Hm3, Hr3. split_ands; [|done|done| | |].
    + revert Hm3. destruct (0 <=? Duration d); [|by intros [= ->]].
      destruct (heap_Push _ _); [|done]. by intros [= ->].
    + by rewrite insert_insert_eq in Hr3.
    + intros t' [k' Hk']. rewrite Hb3. unfold m2. simpl. rewrite lookup_insert_ne by congruence.
      by destruct (gr_rest _ _ _ Hg) as (->&_).
    + rewrite Hg3. exact Hgw.
Qed.

Lemma Create_ok m A now det :
  rep m A → gen m < max_uint64 →
  let d := set_Root (slashClean (Root det)) det in
  ∃ m' r, Create now det m = Ret (m', r) ∧
    match r with
    | inl e => e = ErrLocked ∧ blocked (expire now A) d ∧ rep m' (expire now A) ∧
               keeps (expire now A) m m'
    | inr t => ¬ blocked (expire now A) d ∧ t = FormatUint (gen m + 1) ∧ expire now A !! t = None ∧
               rep m' (<[t := new_lock now d]> (expire now A)) ∧ keeps (expire now A) m m' ∧
               gen m' = gen m + 1
    end.
Proof.
  intros Hr Hlt d. unfold Create.
  destruct (collectExpired_ok m A now Hr) as (m1&->&Hr1&Hg1&Hk1). fold d.
  assert (Hc : clean_name (Root d)) by apply slashClean_clean.
  destruct (canCreate_ok m1 (expire now A) d (rep_names _ _ Hr1) Hc) as (ok&->&Hok).
  destruct ok; cbn [negb].
  - assert (Hnb : ¬ blocked (expire now A) d) by (intros Hb; by apply Hok in Hb).
    destruct (create_live m1 (expire now A) d now Hr1 Hc Hnb) as (m'&t&Hm&Ht&Hf&Hr'&Hk'&Hg'); [lia|].
    exists m', (inr t). rewrite Hg1 in Ht. split; [exact Hm|]. split_ands; try done; [|lia].
    intros x Hx. by rewrite Hk', Hk1.
  - exists m1, (inl ErrLocked). split; [done|]. split_ands; try done. by apply Hok.
Qed.

Lemma Refresh_ok m A now tok dur :
  rep m A →
  ∃ m' r, Refresh now tok dur m = Ret (m', r) ∧
    match expire now A !! tok with
    | None => r = inl ErrNoSuchLock ∧ rep m' (expire now A)
    | Some k =>
        if lk_held k then r = inl ErrLocked ∧ rep m' (expire now A)
        else r = inr (set_Duration dur (lk_details k)) ∧
             rep m' (<[tok := refreshed now dur k]> (expire now A))
    end ∧ keeps (expire now A) m m'.
Proof.
  intros Hr. unfold Refresh. destruct (collectExpired_ok m A now Hr) as (m1&->&Hr1&_&Hk1).
  pose proof Hr1 as [Hi1 _ _ _]. destruct (expire now A !! tok) as [k|] eqn:E.
  - destruct (token_node _ _ _ _ Hi1 E) as (l&n&Hl&_&Hn&_&_&Hh&_). rewrite Hl, Hn, Hh.
    destruct (lk_held k) eqn:Eh; [by exists m1, (inl ErrLocked)|].
    destruct (Refresh_live m1 (expire now A) tok k l n now dur Hr1 E Hl Hn Eh) as (m'&Hm&Hr'&Hb').
    exists m'. eexists. split; [exact Hm|]. split; [done|]. intros x Hx. by rewrite Hb', Hk1.
  - rewrite (ni_notoken _ _ Hi1 _ E). by exists m1, (inl ErrNoSuchLock).
Qed.

Lemma Unlock_ok m A now tok :
  rep m A →
  ∃ m' r, Unlock now tok m = Ret (m', r) ∧
    match expire now A !! tok with
    | None => r = Some ErrNoSuchLock ∧ rep m' (expire now A)
    | Some k =>
        if lk_held k then r = Some ErrLocked ∧ rep m' (expire now A)
        else r = None ∧ rep m' (delete tok (expire now A))
    end ∧ keeps (match r with None => delete tok (expire now A) | Some _ => expire now A end) m m'.
Proof.
  intros Hr. unfold Unlock. destruct (collectExpired_ok m A now Hr) as (m1&->&Hr1&_&Hk1).
  pose proof Hr1 as [Hi1 _ _ _]. destruct (expire now A !! tok) as [k|] eqn:E.
  - destruct (token_node _ _ _ _ Hi1 E) as (l&n&Hl&_&Hn&_&_&Hh&_). rewrite Hl, Hn, Hh.
    destruct (lk_held k) eqn:Eh; [by exists m1, (Some ErrLocked)|].
    destruct (remove_ok m1 (expire now A) tok k l Hr1 E Hl Eh) as (m'&->&Hr'&Hb'&_).
    exists m', None. split_ands; try done. intros x [kx [Hne Hx]%lookup_delete_Some].
    rewrite Hb', lookup_delete_ne, Hk1 by (done || by eexists). done.
  - rewrite (ni_notoken _ _ Hi1 _ E). by exists m1, (Some ErrNoSuchLock).
Qed.

(** ** [Confirm] and its release function *)

Lemma alter_locks (f : lock → lock) (A : locks) t k :
  A !! t = Some k → alter f t A = <[t := f k]> A.
Proof.
  intros Hk. apply map_eq. intros x. destruct (decide (x = t)) as [->|Hne].
  - by rewrite lookup_alter_eq, lookup_insert_eq, Hk.
  - by rewrite lookup_alter_ne, lookup_insert_ne.
Qed.

Definition confirm_token (A : locks) (name : gostr) (conditions : list Condition)
    : option (option gostr) :=
  if bool_decide (name = #"") then Some None
  else match find_lock A (slashClean name) conditions with
       | None => None
       | Some t => Some (Some t)
       end.

Definition hold_token (A : locks) (t : option gostr) : locks :=
  match t with None => A | Some t => alter (with_held true) t A end.

Definition loc_of (m : memLS) (t : option gostr) : option nat := t ≫= (byToken m !!.).

(** An absent token, or a lock of the table that is not held. *)
Definition free_token (A : locks) (t : option gostr) : Prop :=
  ∀ x, t = Some x → ∃ k, A !! x = Some k ∧ lk_held k = false.

Lemma confirm_name_token m A name conditions :
  names_inv m A →
  confirm_name m name conditions = loc_of m <$> confirm_token A name conditions ∧
  ∀ t, confirm_token A name conditions = Some t → free_token A t.
Proof.
  intros Hi. unfold confirm_name, confirm_token. case_bool_decide.
  { split; [done|]. by intros ? [= <-] ?. }
  rewrite (lookup_lock_find m A) by (done || apply slashClean_clean).
  destruct (find_lock A (slashClean name) conditions) as [t|] eqn:E; [|done].
  apply find_lock_some in E as (k&Hk&Hu&_).
  destruct (ni_token _ _ Hi _ _ Hk) as (l&n&Hl&_). simpl. rewrite Hl. split; [done|].
  intros ? [= <-] x [= <-]. by exists k.
Qed.

Lemma hold_opt_ok m A t :
  rep m A → free_token A t →
  ∃ m', hold_opt m (loc_of m t) = Ret m' ∧ rep m' (hold_token A t) ∧ byToken m' = byToken m.
Proof.
  intros Hr Hf. destruct t as [t|]; [|by exists m].
  destruct (Hf t eq_refl) as (k&Hk&Hu).
  destruct (ni_token _ _ (rep_names _ _ Hr) _ _ Hk) as (l&n&Hl&_).
  destruct (hold_ok m A t k l Hr Hk Hl Hu) as (m'&Hm&Hr'&Hb).
  exists m'. simpl. rewrite Hl. split_ands; [done| |done].
  by rewrite (alter_locks _ _ _ k) by done.
Qed.

(** A token argument names a lock of the table, if any. *)
Definition known_token (A : locks) (t : option gostr) : Prop := ∀ x, t = Some x → is_Some (A !! x).

Lemma loc_of_inj m A t t' :
  names_inv m A → known_token A t → known_token A t' → loc_of m t = loc_of m t' ↔ t = t'.
Proof.
  intros Hi Ht Ht'. split; [|by intros ->].
  destruct t as [t|], t' as [t'|]; simpl; [|..|done].
  - destruct (Ht t eq_refl) as (k&Hk), (Ht' t' eq_refl) as (k'&Hk').
    destruct (ni_token _ _ Hi _ _ Hk) as (l&n&Hl&_). intros E. f_equal.
    by eapply (token_loc_inj m A); [..|rewrite <- E].
  - destruct (Ht t eq_refl) as (k&Hk). by destruct (ni_token _ _ Hi _ _ Hk) as (l&n&->&_).
  - destruct (Ht' t' eq_refl) as (k&Hk). by destruct (ni_token _ _ Hi _ _ Hk) as (l&n&->&_).
Qed.

Lemma free_known A t : free_token A t → known_token A t.
Proof. intros Hf x Hx. destruct (Hf x Hx) as (k&?&_). by exists k. Qed.

Lemma Confirm_ok m A now name0 name1 conditions :
  rep m A →
  let A1 := expire now A in
  ∃ m' r, Confirm now name0 name1 conditions m = Ret (m', r) ∧
    keeps A1 m m' ∧
    match confirm_token A1 name0 conditions, confirm_token A1 name1 conditions with
    | Some t0, Some t1 =>
        let t1 := if bool_decide (t1 = t0) then None else t1 in
        r = inr (loc_of m' t0, loc_of m' t1) ∧ free_token A1 t0 ∧ free_token A1 t1 ∧
        rep m' (hold_token (hold_token A1 t0) t1)
    | _, _ => r = inl ErrConfirmationFailed ∧ rep m' A1
    end.
Proof.
  intros Hr A1. unfold Confirm. destruct (collectExpired_ok m A now Hr) as (m1&->&Hr1&_&Hk1).
  fold A1 in Hr1, Hk1. pose proof (rep_names _ _ Hr1) as Hi1.
  destruct (confirm_name_token m1 A1 name0 conditions Hi1) as [-> Hf0].
  destruct (confirm_name_token m1 A1 name1 conditions Hi1) as [-> Hf1].
  destruct (confirm_token A1 name0 conditions) as [t0|]; [|by exists m1, (inl ErrConfirmationFailed)].
  destruct (confirm_token A1 name1 conditions) as [t1|]; [|by exists m1, (inl ErrConfirmationFailed)].
  specialize (Hf0 _ eq_refl). specialize (Hf1 _ eq_refl). cbn [fmap option_fmap option_map].
  set (t1' := if bool_decide (t1 = t0) then None else t1).
  assert (Hl1 : (if bool_decide (loc_of m1 t1 = loc_of m1 t0) then None else loc_of m1 t1)
    = loc_of m1 t1').
  { unfold t1'. rewrite (bool_decide_ext (loc_of m1 t1 = loc_of m1 t0) (t1 = t0));
      [by case_bool_decide|]. apply (loc_of_inj m1 A1); [done|by apply free_known..]. }
  rewrite Hl1. destruct (hold_opt_ok m1 A1 t0 Hr1 Hf0) as (m2&->&Hr2&Hb2).
  assert (Hf1' : free_token A1 t1').
  { unfold t1'. destruct (bool_decide (t1 = t0)); [by intros x [=]|done]. }
  assert (Hf2 : free_token (hold_token A1 t0) t1').
  { intros x Hx. destruct (Hf1' x Hx) as (k&Hk&Hu). destruct t0 as [y|]; [|by exists k].
    simpl. exists k. rewrite lookup_alter_ne; [done|]. intros <-.
    revert Hx. unfold t1'. destruct (bool_decide (t1 = _)) eqn:E; [done|]. reflect_bools. congruence. }
  assert (Hl2 : loc_of m1 t1' = loc_of m2 t1') by (unfold loc_of; by rewrite Hb2).
  rewrite Hl2. destruct (hold_opt_ok m2 (hold_token A1 t0) t1' Hr2 Hf2) as (m3&->&Hr3&Hb3).
  exists m3. eexists. split; [done|]. split; [intros x Hx; by rewrite Hb3, Hb2, Hk1|].
  split_ands; [|done|done|done]. unfold loc_of. by rewrite Hb3, Hb2.
Qed.

Definition release_token (A : locks) (t : option gostr) : locks :=
  match t with None => A | Some t => alter (with_held false) t A end.

Definition held_token (A : locks) (t : option gostr) : Prop :=
  ∀ x, t = Some x → ∃ k, A !! x = Some k ∧ lk_held k = true.

Lemma held_known A t : held_token A t → known_token A t.
Proof. intros Hf x Hx. destruct (Hf x Hx) as (k&?&_). by exists k. Qed.

Lemma unhold_opt_ok m A t :
  rep m A → held_token A t →
  ∃ m', unhold_opt m (loc_of m t) = Ret m' ∧ rep m' (release_token A t) ∧ byToken m' = byToken m.
Proof.
  intros Hr Hf. destruct t as [t|]; [|by exists m].
  destruct (Hf t eq_refl) as (k&Hk&Hu).
  destruct (ni_token _ _ (rep_names _ _ Hr) _ _ Hk) as (l&n&Hl&_).
  destruct (unhold_ok m A t k l Hr Hk Hl Hu) as (m'&Hm&Hr'&Hb).
  exists m'. simpl. rewrite Hl. split_ands; [done| |done].
  by rewrite (alter_locks _ _ _ k) by done.
Qed.

Lemma release_ok m A t0 t1 :
  rep m A → held_token A t0 → held_token A t1 → (t1 = t0 → t0 = None) →
  ∃ m', release (loc_of m t0, loc_of m t1) m = Ret m' ∧
    rep m' (release_token (release_token A t1) t0) ∧ byToken m' = byToken m.
Proof.
  intros Hr H0 H1 Hne. unfold release.
  destruct (unhold_opt_ok m A t1 Hr H1) as (m1&->&Hr1&Hb1).
  assert (Hl : loc_of m t0 = loc_of m1 t0) by (unfold loc_of; by rewrite Hb1). rewrite Hl.
  destruct (unhold_opt_ok m1 (release_token A t1) t0 Hr1) as (m2&->&Hr2&Hb2).
  - intros x Hx. destruct (H0 x Hx) as (k&Hk&Hh). exists k. split; [|done].
    destruct t1 as [y|]; [|done]. simpl. rewrite lookup_alter_ne; [done|].
    intros ->. rewrite Hx in Hne. by specialize (Hne eq_refl).
  - exists m2. split_ands; [done|done|congruence].
Qed.

(** ** The lock system in use

    A run interleaves calls of the five operations; a successful [Confirm]
    leaves a release function that is called once, later.  [sys_pending]
    holds the release functions not yet called.  The token counter is a
    64-bit number that starts at the current time in seconds: a step that
    creates a lock needs it not to be exhausted. *)

Record system := {
  sys_ls : memLS;
  sys_pending : list (option nat * option nat);
}.

Inductive sys_step : system → system → Prop :=
  | step_Create now det m p m' r :
      gen m < max_uint64 → Create now det m = Ret (m', r) →
      sys_step {| sys_ls := m; sys_pending := p |} {| sys_ls := m'; sys_pending := p |}
  | step_Refresh now tok dur m p m' r :
      Refresh now tok dur m = Ret (m', r) →
      sys_step {| sys_ls := m; sys_pending := p |} {| sys_ls := m'; sys_pending := p |}
  | step_Unlock now tok m p m' r :
      Unlock now tok m = Ret (m', r) →
      sys_step {| sys_ls := m; sys_pending := p |} {| sys_ls := m'; sys_pending := p |}
  | step_Confirm_fails now name0 name1 conds m p m' e :
      Confirm now name0 name1 conds m = Ret (m', inl e) →
      sys_step {| sys_ls := m; sys_pending := p |} {| sys_ls := m'; sys_pending := p |}
  | step_Confirm now name0 name1 conds m p m' ns :
      Confirm now name0 name1 conds m = Ret (m', inr ns) →
      sys_step {| sys_ls := m; sys_pending := p |} {| sys_ls := m'; sys_pending := ns :: p |}
  | step_release m p1 ns p2 m' :
      release ns m = Ret m' →
      sys_step {| sys_ls := m; sys_pending := p1 ++ ns :: p2 |}
               {| sys_ls := m'; sys_pending := p1 ++ p2 |}.

Definition held_part (A : locks) : locks := filter (λ tk, lk_held tk.2 = true) A.

Definition flat_tokens (toks : list (option gostr * option gostr)) : list gostr :=
  toks ≫= λ p, option_list p.1 ++ option_list p.2.

(** The held locks are exactly those of the pending release functions, each once. *)
Definition pending_inv (m : memLS) (A : locks) (p : list (option nat * option nat)) : Prop :=
  ∃ toks, p = map (λ q, (loc_of m q.1, loc_of m q.2)) toks ∧ NoDup (flat_tokens toks) ∧
    ∀ t, is_Some (held_part A !! t) ↔ t ∈ flat_tokens toks.

Definition sys_inv (s : system) : Prop :=
  ∃ A, rep (sys_ls s) A ∧ pending_inv (sys_ls s) A (sys_pending s).

Lemma held_part_lookup A t : is_Some (held_part A !! t) ↔ ∃ k, A !! t = Some k ∧ lk_held k = true.
Proof.
  split.
  - intros [k [Hk Hh]%map_lookup_filter_Some]. by exists k.
  - intros (k&Hk&Hh). exists k. by apply map_lookup_filter_Some.
Qed.

Lemma flat_cons a b toks :
  flat_tokens ((a, b) :: toks) = (option_list a ++ option_list b) ++ flat_tokens toks.
Proof. done. Qed.

Lemma flat_app toks toks' : flat_tokens (toks ++ toks') = flat_tokens toks ++ flat_tokens toks'.
Proof. apply bind_app. Qed.

Lemma loc_of_same m m' toks :
  (∀ t, t ∈ flat_tokens toks → byToken m' !! t = byToken m !! t) →
  map (λ q, (loc_of m' q.1, loc_of m' q.2)) toks = map (λ q, (loc_of m q.1, loc_of m q.2)) toks.
Proof.
  induction toks as [|[a b] toks IH]; intros H; [done|]. cbn [map].
  assert (H' : ∀ t, t ∈ option_list a ∨ t ∈ option_list b ∨ t ∈ flat_tokens toks →
    byToken m' !! t = byToken m !! t).
  { intros t Ht. apply H. rewrite flat_cons, !elem_of_app. tauto. }
  rewrite IH by auto. f_equal. cbn. f_equal.
  - destruct a as [t|]; [|done]. apply H'. left. by apply list_elem_of_singleton.
  - destruct b as [t|]; [|done]. apply H'. right. left. by apply list_elem_of_singleton.
Qed.

(** Steps that do not change which locks are held. *)
Lemma pending_same m m' A A' p :
  (∀ t, is_Some (held_part A' !! t) ↔ is_Some (held_part A !! t)) → keeps (held_part A) m m' →
  pending_inv m A p → pending_inv m' A' p.
Proof.
  intros Hh Hk (toks&->&Hnd&Ht). exists toks. split_ands; [|done|].
  - symmetry. apply loc_of_same. intros t Hin. by apply Hk, Ht.
  - intros t. by rewrite Hh.
Qed.

Lemma held_expire now A t : is_Some (held_part (expire now A) !! t) ↔ is_Some (held_part A !! t).
Proof.
  rewrite !held_part_lookup. split; intros (k&Hk&Hh); exists k; (split; [|done]).
  - by apply map_lookup_filter_Some in Hk as [? _].
  - apply map_lookup_filter_Some. split; [done|]. by left.
Qed.

Lemma keeps_held now A m m' : keeps (expire now A) m m' → keeps (held_part A) m m'.
Proof.
  intros Hk t Ht. apply Hk. apply (held_expire now), held_part_lookup in Ht as (k&?&_). by exists k.
Qed.

Lemma held_insert A t k t' :
  lk_held k = false → (∀ k0, A !! t = Some k0 → lk_held k0 = false) →
  is_Some (held_part (<[t := k]> A) !! t') ↔ is_Some (held_part A !! t').
Proof.
  intros Hk Hold. rewrite !held_part_lookup. setoid_rewrite lookup_insert_Some. split.
  - intros (k'&[[<- <-]|[_ ?]]&?); [congruence|by exists k'].
  - intros (k'&Hk'&Hh). exists k'. split; [|done]. right. split; [|done]. intros <-.
    rewrite (Hold k') in Hh; done.
Qed.

Lemma held_delete A t k t' :
  A !! t = Some k → lk_held k = false →
  is_Some (held_part (delete t A) !! t') ↔ is_Some (held_part A !! t').
Proof.
  intros Hk Hu. rewrite !held_part_lookup. setoid_rewrite lookup_delete_Some. split.
  - intros (k'&[_ ?]&?). by exists k'.
  - intros (k'&Hk'&Hh). exists k'. split; [|done]. split; [|done]. intros <-. congruence.
Qed.

Lemma held_alter A t k b t' :
  A !! t = Some k →
  is_Some (held_part (alter (with_held b) t A) !! t') ↔
    (t' ≠ t ∧ is_Some (held_part A !! t')) ∨ (t' = t ∧ b = true).
Proof.
  intros Hk. rewrite !held_part_lookup, (alter_locks _ _ _ k) by done.
  setoid_rewrite lookup_insert_Some. split.
  - intros (k'&[[<- <-]|[Hne ?]]&Hh); [by right|]. left. split; [done|]. by exists k'.
  - intros [[Hne (k'&?&?)]|[-> ->]]; [exists k'; split; [|done]; right; by split|].
    exists (with_held true k). split; [by left|done].
Qed.

Lemma held_hold A t x :
  free_token A t →
  is_Some (held_part (hold_token A t) !! x) ↔ is_Some (held_part A !! x) ∨ x ∈ option_list t.
Proof.
  intros Hf. destruct t as [t|]; simpl; [|rewrite elem_of_nil; tauto].
  destruct (Hf t eq_refl) as (k&Hk&Hu). rewrite (held_alter A t k) by done.
  rewrite list_elem_of_singleton. split; [tauto|]. intros [Hs|?]; [|by right].
  destruct (decide (x = t)) as [->|]; [by right|by left].
Qed.

Lemma held_release A t x :
  held_token A t →
  is_Some (held_part (release_token A t) !! x) ↔ is_Some (held_part A !! x) ∧ x ∉ option_list t.
Proof.
  intros Hf. destruct t as [t|]; simpl; [|split; [intros ?; split; [done|apply not_elem_of_nil]|tauto]].
  destruct (Hf t eq_refl) as (k&Hk&Hu). rewrite (held_alter A t k) by done.
  rewrite list_elem_of_singleton. split; [|tauto]. intros [[? ?]|[_ ?]]; done.
Qed.

Lemma pending_confirm m m' A t0 t1 p :
  free_token A t0 → free_token A t1 → (t1 = t0 → t1 = None) → keeps (held_part A) m m' →
  pending_inv m A p →
  pending_inv m' (hold_token (hold_token A t0) t1) ((loc_of m' t0, loc_of m' t1) :: p).
Proof.
  intros Hf0 Hf1 Hne Hk (toks&->&Hnd&Ht). exists ((t0, t1) :: toks).
  assert (Hout : ∀ t x, free_token A t → x ∈ option_list t → x ∉ flat_tokens toks).
  { intros t x Hf Hx Hin. apply Ht, held_part_lookup in Hin as (k&Hk1&Hh).
    destruct t as [t|]; simpl in Hx; [|by apply elem_of_nil in Hx].
    apply list_elem_of_singleton in Hx as ->. destruct (Hf t eq_refl) as (k'&?&?). congruence. }
  split_ands.
  - cbn [map]. f_equal. symmetry. apply loc_of_same. intros t Hin. by apply Hk, Ht.
  - rewrite flat_cons. apply NoDup_app. split_ands; [|intros x [?|?]%elem_of_app; [by apply (Hout t0)|by apply (Hout t1)]|done].
    destruct t0 as [x|], t1 as [y|]; simpl; repeat constructor; try apply not_elem_of_nil.
    intros ->%list_elem_of_singleton. by specialize (Hne eq_refl).
  - intros t. rewrite flat_cons, !elem_of_app. rewrite held_hold; [rewrite held_hold by done|].
    + rewrite Ht. tauto.
    + intros x Hx. destruct (Hf1 x Hx) as (k&?&?). destruct t0 as [y|]; [|by exists k].
      simpl. exists k. rewrite lookup_alter_ne; [done|]. intros ->. rewrite Hx in Hne.
      by specialize (Hne eq_refl).
Qed.

Lemma pending_release m m' A p1 ns p2 :
  pending_inv m A (p1 ++ ns :: p2) → byToken m' = byToken m →
  ∃ t0 t1, ns = (loc_of m t0, loc_of m t1) ∧ held_token A t0 ∧ held_token A t1 ∧
    (t1 = t0 → t0 = None) ∧
    pending_inv m' (release_token (release_token A t1) t0) (p1 ++ p2).
Proof.
  intros (toks&Hp&Hnd&Ht) Hb.
  symmetry in Hp. apply map_eq_app in Hp as (tk1&tk2'&->&<-&Hp2).
  destruct tk2' as [|[t0 t1] tk2]; [done|]. simpl in Hp2. injection Hp2 as <- <-.
  rewrite flat_app, flat_cons in Hnd. setoid_rewrite flat_app in Ht. setoid_rewrite flat_cons in Ht.
  apply NoDup_app in Hnd as (Hnd1&Hd1&Hnd2). apply NoDup_app in Hnd2 as (Hnd2&Hd2&Hnd3).
  assert (Hheld : ∀ t, t = t0 ∨ t = t1 → held_token A t).
  { intros t Hcase x ->. apply held_part_lookup, Ht. rewrite !elem_of_app.
    right. left. destruct Hcase as [<-|<-]; [left|right]; by apply list_elem_of_singleton. }
  assert (Hne : t1 = t0 → t0 = None).
  { intros ->. destruct t0 as [x|]; [|done]. simpl in Hnd2.
    inversion Hnd2 as [|?? Hx _]; subst. exfalso. apply Hx. by apply list_elem_of_singleton. }
  exists t0, t1. split_ands; [done|by apply Hheld; left|by apply Hheld; right|done|].
  exists (tk1 ++ tk2). split_ands.
  - rewrite map_app. unfold loc_of. by rewrite Hb.
  - rewrite flat_app. apply NoDup_app. split_ands; [done| |done].
    intros x Hx Hx2. apply (Hd1 x Hx). apply elem_of_app. by right.
  - assert (H0 : held_token (release_token A t1) t0).
    { intros x Hx. destruct (Hheld t0 (or_introl eq_refl) x Hx) as (k&?&?). exists k. split; [|done].
      destruct t1 as [y|]; [|done]. simpl. rewrite lookup_alter_ne; [done|]. intros ->.
      rewrite Hx in Hne. by specialize (Hne eq_refl). }
    intros x. rewrite held_release by done. rewrite held_release by (by apply Hheld; right).
    rewrite Ht, flat_app, !elem_of_app. split; [tauto|]. intros [Hx|Hx]; split_ands; try tauto.
    + intros Hx1. apply (Hd1 x Hx). rewrite !elem_of_app. tauto.
    + intros Hx1. apply (Hd1 x Hx). rewrite !elem_of_app. tauto.
    + intros Hx1. apply (Hd2 x); [|done]. rewrite !elem_of_app. tauto.
    + intros Hx1. apply (Hd2 x); [|done]. rewrite !elem_of_app. tauto.
Qed.

Lemma confirm_second_ne (t0 t1 : option gostr) :
  (if bool_decide (t1 = t0) then None else t1) = t0 → (if bool_decide (t1 = t0) then None else t1) = None.
Proof. by case_bool_decide. Qed.

Lemma sys_step_inv s s' : sys_inv s → sys_step s s' → sys_inv s'.
Proof.
  intros (A&Hr&Hp) Hstep. destruct Hstep; cbn [sys_ls sys_pending] in *.
  - destruct (Create_ok m A now det Hr H) as (m1&r1&Hc&Hm). rewrite H0 in Hc. injection Hc as <- <-.
    destruct r as [e|t].
    + destruct Hm as (_&_&Hr'&Hk). exists (expire now A). split; [done|].
      eapply pending_same; [apply held_expire|by eapply keeps_held|done].
    + destruct Hm as (_&_&Hf&Hr'&Hk&_). eexists. split; [exact Hr'|].
      eapply pending_same; [|by eapply keeps_held|done].
      intros t'. rewrite held_insert by (done || congruence). apply held_expire.
  - destruct (Refresh_ok m A now tok dur Hr) as (m1&r1&Hc&Hm&Hk). rewrite H in Hc. injection Hc as <- <-.
    assert (Hkh := keeps_held _ _ _ _ Hk).
    destruct (expire now A !! tok) as [k|] eqn:E; [destruct (lk_held k) eqn:Eh|];
      destruct Hm as [_ Hr']; (eexists; split; [exact Hr'|]);
      (eapply pending_same; [|exact Hkh|done]); intros t'; try apply held_expire.
    rewrite held_insert by (done || congruence). apply held_expire.
  - destruct (Unlock_ok m A now tok Hr) as (m1&r1&Hc&Hm&Hk). rewrite H in Hc. injection Hc as <- <-.
    destruct (expire now A !! tok) as [k|] eqn:E; [destruct (lk_held k) eqn:Eh|];
      destruct Hm as [-> Hr']; (eexists; split; [exact Hr'|]).
    + eapply pending_same; [apply held_expire|by eapply keeps_held|done].
    + eapply pending_same; [|intros t Ht; apply Hk|done].
      * intros t'. rewrite (held_delete _ _ k) by done. apply held_expire.
      * apply (held_expire now), (held_delete _ tok k) in Ht; [|done|done].
        apply held_part_lookup in Ht as (k'&?&_). by exists k'.
    + eapply pending_same; [apply held_expire|by eapply keeps_held|done].
  - destruct (Confirm_ok m A now name0 name1 conds Hr) as (m1&r1&Hc&Hk&Hm).
    rewrite H in Hc. injection Hc as <- <-.
    assert (Hr' : rep m' (expire now A)).
    { destruct (confirm_token (expire now A) name0 conds), (confirm_token (expire now A) name1 conds); by destruct Hm as [? ?]. }
    eexists. split; [exact Hr'|]. eapply pending_same; [apply held_expire|by eapply keeps_held|done].
  - destruct (Confirm_ok m A now name0 name1 conds Hr) as (m1&r1&Hc&Hk&Hm).
    rewrite H in Hc. injection Hc as <- <-.
    destruct (confirm_token (expire now A) name0 conds) as [t0|]; [|by destruct Hm].
    destruct (confirm_token (expire now A) name1 conds) as [t1|]; [|by destruct Hm].
    destruct Hm as (Hns&Hf0&Hf1&Hr'). injection Hns as ->. eexists. split; [exact Hr'|].
    assert (Hp1 : pending_inv m' (expire now A) p).
    { eapply pending_same; [apply held_expire|by eapply keeps_held|done]. }
    eapply (pending_confirm m'); [done|done|apply confirm_second_ne|done|done].
  - destruct (pending_release m m A p1 ns p2 Hp eq_refl) as (t0&t1&->&H0&H1&Hne&_).
    destruct (release_ok m A t0 t1 Hr H0 H1 Hne) as (m1&Hrel&Hr'&Hb). rewrite H in Hrel.
    injection Hrel as <-.
    destruct (pending_release m m' A p1 _ p2 Hp Hb) as (t0'&t1'&Hns&H0'&H1'&Hne'&Hp').
    pose proof (rep_names _ _ Hr) as Hi. injection Hns as E0 E1.
    apply (loc_of_inj m A) in E0, E1; try done; try by apply held_known.
    subst t0' t1'. eexists. split; [exact Hr'|exact Hp'].
Qed.

Lemma sys_inv_init now : sys_inv {| sys_ls := NewMemLS now; sys_pending := [] |}.
Proof.
  exists ∅. split.
  - split.
    + by split.
    + split; [split; [split|]|split]; simpl.
      * constructor.
      * intros l Hl. by apply elem_of_nil in Hl.
      * done.
      * intros i c _ Hc. simpl in Hc. lia.
      * intros l. rewrite elem_of_nil. split; [done|]. by intros (?&?&?&_).
    + split; [apply wrapu64_ok|done].
    + done.
  - exists []. split_ands; [done|constructor|]. intros t. rewrite held_part_lookup. split.
    + by intros (?&?&_).
    + intros H. by apply elem_of_nil in H.
Qed.

Definition sys_init (now : Z) : system := {| sys_ls := NewMemLS now; sys_pending := [] |}.

Lemma sys_reachable now s : rtc sys_step (sys_init now) s → sys_inv s.
Proof.
  intros Hs. assert (H0 : sys_inv (sys_init now)) by apply sys_inv_init.
  induction Hs as [|s1 s2 s3 Hstep _ IH]; [done|]. apply IH. by eapply sys_step_inv.
Qed.

(** ** Properties

    [locks_of] reads the abstract table back from the nodes. *)

Definition lock_of (m : memLS) (l : nat) : option lock :=
  n ← nodes m !! l;
  Some {| lk_details := details n; lk_held := held n;
          lk_expiry := if 0 <=? Duration (details n) then Some (expiry n) else None |}.

Definition locks_of (m : memLS) : locks := omap (lock_of m) (byToken m).

Lemma locks_of_rep m A : rep m A → locks_of m = A.
Proof.
  intros [Hi _ _ _]. apply map_eq. intros t. unfold locks_of. rewrite lookup_omap.
  destruct (A !! t) as [k|] eqn:E.
  - destruct (token_node _ _ _ _ Hi E) as (l&n&->&_&Hn&_&Hd&Hh&He). simpl. unfold lock_of.
    rewrite Hn. simpl. f_equal. rewrite Hd, Hh. destruct k; simpl in *. by rewrite He.
  - by rewrite (ni_notoken _ _ Hi _ E).
Qed.

Lemma reachable_rep now s : rtc sys_step (sys_init now) s → rep (sys_ls s) (locks_of (sys_ls s)).
Proof. intros Hs. apply sys_reachable in Hs as (A&Hr&_). by rewrite (locks_of_rep _ _ Hr). Qed.

Lemma covers_unique A t1 t2 k1 k2 name :
  exclusive A → A !! t1 = Some k1 → A !! t2 = Some k2 →
  covers (lk_details k1) name → covers (lk_details k2) name → t1 = t2.
Proof.
  intros Hx H1 H2 Hc1 Hc2. destruct (decide (t1 = t2)) as [|Hne]; [done|]. exfalso.
  apply (Hx t1 t2 k1 k2 H1 H2 Hne). unfold conflict.
  destruct Hc1 as [->|[Hz1 Hp1]]; [by right|].
  destruct Hc2 as [->|[Hz2 Hp2]]; [by left; right|].
  destruct (prefix_weak_total _ _ _ Hp1 Hp2) as [Hp|Hp]; [left|right]; by right.
Qed.

(** A lock request at a name, for examples. *)
Definition example_lock (root : gostr) (zero : bool) : LockDetails :=
  {| Root := root; Duration := 60; OwnerXML := []; ZeroDepth := zero |}.

Definition run_create (now : Z) (d : LockDetails) (s : system) : system :=
  match Create now d (sys_ls s) with
  | Ret (m, _) => {| sys_ls := m; sys_pending := sys_pending s |}
  | Panic => s
  end.

Lemma run_create_reachable now0 now d s :
  rtc sys_step (sys_init now0) s → gen (sys_ls s) < max_uint64 →
  rtc sys_step (sys_init now0) (run_create now d s).
Proof.
  intros Hs Hg. eapply rtc_r; [exact Hs|]. apply reachable_rep in Hs.
  destruct (Create_ok _ _ now d Hs Hg) as (m'&r&Hc&_). unfold run_create. rewrite Hc.
  destruct s as [m p]. by eapply step_Create.
Qed.

Definition example_sys : system :=
  run_create 5 (example_lock #"/b" false) (run_create 0 (example_lock #"/a/x" true) (sys_init 1)).

Lemma example_sys_reachable : rtc sys_step (sys_init 1) example_sys.
Proof.
  apply run_create_reachable; [apply run_create_reachable; [apply rtc_refl|]|];
    apply Z.ltb_lt; vm_compute; reflexivity.
Qed.

(** C1. In every state the lock system reaches by any interleaving of
    operations, two different locks never cover the same resource, and each
    held lock belongs to exactly one Confirm call not yet released. *)
Theorem locks_mutually_exclusive now s (Hs : rtc sys_step (sys_init now) s) :
  (∀ t1 t2 k1 k2 name,
     locks_of (sys_ls s) !! t1 = Some k1 → locks_of (sys_ls s) !! t2 = Some k2 →
     covers (lk_details k1) name → covers (lk_details k2) name → t1 = t2) ∧
  pending_inv (sys_ls s) (locks_of (sys_ls s)) (sys_pending s).
Proof.
  apply sys_reachable in Hs as (A&Hr&Hp). rewrite (locks_of_rep _ _ Hr). split; [|done].
  intros t1 t2 k1 k2 name. apply covers_unique, (rep_excl _ _ Hr).
Qed.

Lemma locks_mutually_exclusive_witness :
  map_to_list (lk_root <$> locks_of (sys_ls example_sys)) ≡ₚ [(#"2", #"/a/x"); (#"3", #"/b")] ∧
  ∀ t1 t2 k1 k2 name,
     locks_of (sys_ls example_sys) !! t1 = Some k1 → locks_of (sys_ls example_sys) !! t2 = Some k2 →
     covers (lk_details k1) name → covers (lk_details k2) name → t1 = t2.
Proof.
  split; [vm_compute; by apply perm_swap || reflexivity|].
  apply (locks_mutually_exclusive 1 example_sys example_sys_reachable).
Defined.

(** [Create] always returns. It refuses with ErrLocked exactly when a live
    lock conflicts with the request (one covers the root of the other);
    otherwise the table gains one lock under a fresh token, with the cleaned
    root and its expiry time, and loses exactly the expired locks. *)
Theorem Create_refines now0 s now det (Hs : rtc sys_step (sys_init now0) s)
    (Hg : gen (sys_ls s) < max_uint64) :
  let d := set_Root (slashClean (Root det)) det in
  let A := expire now (locks_of (sys_ls s)) in
  ∃ m' r, Create now det (sys_ls s) = Ret (m', r) ∧
    match r with
    | inl e => e = ErrLocked ∧ (∃ t k, A !! t = Some k ∧ conflict (lk_details k) d) ∧ locks_of m' = A
    | inr t => (∀ t k, A !! t = Some k → ¬ conflict (lk_details k) d) ∧ A !! t = None ∧
               locks_of m' = <[t := new_lock now d]> A
    end.
Proof.
  intros d A. apply reachable_rep in Hs.
  destruct (Create_ok _ _ now det Hs Hg) as (m'&r&Hc&Hm). exists m', r. split; [done|].
  destruct r as [e|t].
  - destruct Hm as (->&Hb&Hr&_). split_ands; [done|done|]. by apply locks_of_rep.
  - destruct Hm as (Hb&_&Hf&Hr&_). split_ands; [|done|by apply locks_of_rep].
    intros t' k' Hk' Hcf. apply Hb. by exists t', k'.
Qed.

(** [Refresh] and [Unlock] return; they report ErrNoSuchLock for a token
    that is unknown or expired and ErrLocked for a lock held by a Confirm,
    and otherwise change exactly that lock: its duration and expiry time, or
    its presence. *)
Theorem Refresh_Unlock_refine now0 s now tok dur (Hs : rtc sys_step (sys_init now0) s) :
  let A := expire now (locks_of (sys_ls s)) in
  ∃ m1 r1 m2 r2,
    Refresh now tok dur (sys_ls s) = Ret (m1, r1) ∧ Unlock now tok (sys_ls s) = Ret (m2, r2) ∧
    match A !! tok with
    | None => r1 = inl ErrNoSuchLock ∧ r2 = Some ErrNoSuchLock ∧ locks_of m1 = A ∧ locks_of m2 = A
    | Some k =>
        if lk_held k
        then r1 = inl ErrLocked ∧ r2 = Some ErrLocked ∧ locks_of m1 = A ∧ locks_of m2 = A
        else r1 = inr (set_Duration dur (lk_details k)) ∧ r2 = None ∧
             locks_of m1 = <[tok := refreshed now dur k]> A ∧ locks_of m2 = delete tok A
    end.
Proof.
  intros A. apply reachable_rep in Hs.
  destruct (Refresh_ok _ _ now tok dur Hs) as (m1&r1&H1&Hm1&_).
  destruct (Unlock_ok _ _ now tok Hs) as (m2&r2&H2&Hm2&_).
  exists m1, r1, m2, r2. split_ands; [done|done|]. fold A in Hm1, Hm2.
  destruct (A !! tok) as [k|]; [destruct (lk_held k)|]; destruct Hm1 as [-> Hr1], Hm2 as [-> Hr2];
    split_ands; try done; by apply locks_of_rep.
Qed.

(** [t] is a lock that lets the caller use the resource [name]: live, not held,
    covering it, with its token among the conditions; an empty name needs none. *)
Definition claims (A : locks) (conds : list Condition) (name : gostr) (t : option gostr) : Prop :=
  match t with
  | None => name = #""
  | Some x => name ≠ #"" ∧ x ∈ map cond_Token conds ∧
      ∃ k, A !! x = Some k ∧ lk_held k = false ∧ covers (lk_details k) (slashClean name)
  end.

Lemma confirm_token_claims A conds name :
  (∀ t, confirm_token A name conds = Some t → claims A conds name t) ∧
  (confirm_token A name conds = None → ∀ t, ¬ claims A conds name t).
Proof.
  unfold confirm_token. case_bool_decide as Hn.
  { split; [|done]. by intros ? [= <-]. }
  destruct (find_lock A (slashClean name) conds) as [t|] eqn:E.
  - split; [|done]. intros ? [= <-]. apply find_lock_some in E as (k&?&?&?&?).
    unfold claims. split_ands; [done|done|]. by exists k.
  - split; [done|]. intros _ [x|]; [|done]. intros (_&Hx&k&Hk&Hu&Hc).
    destruct (find_lock_none _ _ _ E x k Hx Hk); [congruence|done].
Qed.

Lemma release_hold A t : free_token A t → release_token (hold_token A t) t = A.
Proof.
  destruct t as [t|]; [|done]. intros Hf. destruct (Hf t eq_refl) as (k&Hk&Hu). simpl.
  apply map_eq. intros x. destruct (decide (x = t)) as [->|Hx].
  - rewrite !lookup_alter_eq, Hk. simpl. f_equal. destruct k; simpl in *. by rewrite Hu.
  - by rewrite !lookup_alter_ne.
Qed.

Lemma hold_held A t : free_token A t → held_token (hold_token A t) t.
Proof.
  intros Hf x ->. destruct (Hf x eq_refl) as (k&Hk&_). exists (with_held true k). simpl.
  by rewrite lookup_alter_eq, Hk.
Qed.

Lemma hold_other A t0 t1 x k :
  (t1 = t0 → t1 = None) → t1 = Some x → A !! x = Some k → hold_token A t0 !! x = Some k.
Proof.
  intros Hne -> Hk. destruct t0 as [y|]; [|done]. simpl. rewrite lookup_alter_ne; [done|].
  intros ->. by specialize (Hne eq_refl).
Qed.

(** The function [Confirm] returns undoes it. *)
Lemma Confirm_undone m' A t0 t1 :
  let t1' := if bool_decide (t1 = t0) then None else t1 in
  free_token A t0 → free_token A t1' → rep m' (hold_token (hold_token A t0) t1') →
  ∃ m'', release (loc_of m' t0, loc_of m' t1') m' = Ret m'' ∧ rep m'' A.
Proof.
  intros t1' Hf0 Hf1 Hr. assert (Hne := confirm_second_ne t0 t1). fold t1' in Hne.
  assert (Hf1h : free_token (hold_token A t0) t1').
  { intros x Hx. destruct (Hf1 x Hx) as (k&?&?). exists k. split; [|done]. by eapply hold_other. }
  destruct (release_ok m' _ t0 t1' Hr) as (m''&Hrel&Hr''&_).
  - intros x Hx. destruct (hold_held A t0 Hf0 x Hx) as (k&?&?). exists k. split; [|done].
    eapply (hold_other _ t1' t0); [|done|done]. intros E. rewrite E. by apply Hne.
  - by apply hold_held.
  - intros E. rewrite <- E. by apply Hne.
  - exists m''. split; [done|]. rewrite release_hold in Hr'' by done. by rewrite release_hold in Hr'' by done.
Qed.

(** [Confirm] returns, and succeeds exactly when each non-empty name is
    covered by a live lock that is not held and whose token is among the
    conditions; it then holds exactly those locks, and calling the release
    function restores the table. *)
Theorem Confirm_release_refine now0 s now name0 name1 conds (Hs : rtc sys_step (sys_init now0) s) :
  let A := expire now (locks_of (sys_ls s)) in
  ∃ m' r, Confirm now name0 name1 conds (sys_ls s) = Ret (m', r) ∧
    match r with
    | inl e =>
        e = ErrConfirmationFailed ∧ locks_of m' = A ∧
        ¬ ∃ t0 t1, claims A conds name0 t0 ∧ claims A conds name1 t1
    | inr ns =>
        ∃ t0 t1, claims A conds name0 t0 ∧ claims A conds name1 t1 ∧
          locks_of m' = hold_token (hold_token A t0) (if bool_decide (t1 = t0) then None else t1) ∧
          ∃ m'', release ns m' = Ret m'' ∧ locks_of m'' = A
    end.
Proof.
  intros A. apply reachable_rep in Hs.
  destruct (confirm_token_claims A conds name0) as [Hy0 Hn0].
  destruct (confirm_token_claims A conds name1) as [Hy1 Hn1].
  destruct (Confirm_ok _ _ now name0 name1 conds Hs) as (m'&r&Hc&_&Hm). fold A in Hm.
  exists m', r. split; [done|].
  destruct (confirm_token A name0 conds) as [t0|].
  2:{ destruct Hm as [-> Hr]. split_ands; [done|by apply locks_of_rep|].
      intros (t&_&Ht&_). by apply (Hn0 eq_refl t). }
  destruct (confirm_token A name1 conds) as [t1|].
  2:{ destruct Hm as [-> Hr]. split_ands; [done|by apply locks_of_rep|].
      intros (_&t&_&Ht). by apply (Hn1 eq_refl t). }
  destruct Hm as (->&Hf0&Hf1&Hr). exists t0, t1. split_ands; [by apply Hy0|by apply Hy1|by apply locks_of_rep|].
  destruct (Confirm_undone m' A t0 t1 Hf0 Hf1 Hr) as (m''&Hrel&Hr'').
  exists m''. split; [done|]. by apply locks_of_rep.
Qed.

(** An accepted Timeout header is either infinite (-1) or a whole number of
    seconds from 0 to 2^32-1, so the duration in nanoseconds never overflows. *)
Theorem parseTimeout_bounds s d (Hd : parseTimeout s = Some d) :
  d = infiniteTimeout ∨ ∃ n, 0 ≤ n ≤ 4294967295 ∧ d = n * Second ∧ int64_ok d.
Proof.
  revert Hd. unfold parseTimeout. repeat (case_bool_decide; [intros [= <-]; by left|]).
  cbv zeta.
  destruct (HasPrefix _ _); [|done]. cbn [negb].
  destruct (slice_from _ _) as [|c s'] eqn:Es; [done|].
  destruct (is_digit c) eqn:Ec; [|done]. cbn [negb].
  destruct (ParseInt (c :: s')) as [n err] eqn:Ep. destruct err; [done|].
  destruct (Z.ltb_spec 4294967295 n); [done|]. intros [= <-]. right. exists n.
  assert (0 ≤ n) by (by eapply ParseInt_digit_nonneg).
  assert (Hok : int64_ok (n * Second)) by (unfold Second; unfold_int64; lia).
  rewrite wrap64_id by done. done.
Qed.

