(* ===== verification/WebdavIf.v ===== *)
(** * The If header of WebDAV: [server/webdav/if.go]

    A hand-written lexer and a recursive-descent parser give the conditions
    under which a client claims to hold a lock.  The parser accepts exactly
    the headers of the grammar of RFC 4918, section 10.4, as the code reads
    it, and reads back what a client prints. *)

From S2P Require Import Prelude GoStrings GoHeap WebdavLock.

Local Open Scope Z_scope.

(** ** The code *)

(** A conjunction of conditions with an optional resource tag. *)
Record ifList := { resourceTag : gostr; conditions : list Condition }.

(** A disjunction of lists. *)
Record ifHeader := { lists : list ifList }.

(** Token types: a rune, or one of the negative constants. *)
Definition errTokenType : Z := -1.
Definition eofTokenType : Z := -2.
Definition strTokenType : Z := -3.
Definition notTokenType : Z := -4.
Definition angleTokenType : Z := -5.
Definition squareTokenType : Z := -6.

Definition lparen : Z := 40.
Definition rparen : Z := 41.

Definition is_blank (c : ascii) : bool :=
  bool_decide (c = "009"%char) || bool_decide (c = " "%char).

Definition is_delim (c : ascii) : bool :=
  is_blank c || bool_decide (c ∈ ["("; ")"; "<"; ">"; "["; "]"]%char).

(** The loop over [i]. *)
Fixpoint word_len (s : gostr) : nat :=
  match s with
  | [] => 0
  | c :: s' => if is_delim c then 0 else S (word_len s')
  end.

(** The text up to the closing bracket. *)
Definition lex_bracket (tokenType : Z) (close : ascii) (s : gostr) : Z * gostr * gostr :=
  let j := IndexByte s close in
  if j <? 0 then (errTokenType, [], []) else (tokenType, slice s 1 j, slice_from s (j + 1)).

Definition lex (s : gostr) : Z * gostr * gostr :=
  match trim_left is_blank s with
  | [] => (eofTokenType, [], [])
  | c :: s' =>
      let s := c :: s' in
      let i := word_len s in
      if negb (bool_decide (i = 0%nat)) then
        let tokenStr := take i s in
        let remaining := drop i s in
        if bool_decide (tokenStr = #"Not") then (notTokenType, [], remaining)
        else (strTokenType, tokenStr, remaining)
      else if bool_decide (c = "<"%char) then lex_bracket angleTokenType ">" s
      else if bool_decide (c = "["%char) then lex_bracket squareTokenType "]" s
      else (byte_val c, [], s')
  end.

Definition parseCondition (s : gostr) : option (Condition * gostr) :=
  let '(tokenType, tokenStr, s) := lex s in
  let '(not, tokenType, tokenStr, s) :=
    if tokenType =? notTokenType
    then let '(tokenType, tokenStr, s) := lex s in (true, tokenType, tokenStr, s)
    else (false, tokenType, tokenStr, s) in
  if (tokenType =? strTokenType) || (tokenType =? angleTokenType) then
    Some ({| cond_Not := not; cond_Token := tokenStr; cond_ETag := [] |}, s)
  else if tokenType =? squareTokenType then
    Some ({| cond_Not := not; cond_Token := []; cond_ETag := tokenStr |}, s)
  else None.

(** The loop of [parseList]; every turn consumes a token. *)
Fixpoint list_conditions (fuel : nat) (s : gostr) (conds : list Condition) : option (ifList * gostr) :=
  match fuel with
  | O => None
  | S fuel =>
      let '(tokenType, _, remaining) := lex s in
      if tokenType =? rparen then
        if bool_decide (conds = []) then None
        else Some ({| resourceTag := []; conditions := conds |}, remaining)
      else
        match parseCondition s with
        | None => None
        | Some (c, remaining) => list_conditions fuel remaining (conds ++ [c])
        end
  end.

Definition parseList (s : gostr) : option (ifList * gostr) :=
  let '(tokenType, _, s) := lex s in
  if negb (tokenType =? lparen) then None else list_conditions (S (length s)) s [].

Fixpoint no_tag_lists (fuel : nat) (s : gostr) (ls : list ifList) : option ifHeader :=
  match fuel with
  | O => None
  | S fuel =>
      match parseList s with
      | None => None
      | Some (l, remaining) =>
          let ls := ls ++ [l] in
          if bool_decide (remaining = []) then Some {| lists := ls |}
          else no_tag_lists fuel remaining ls
      end
  end.

Definition parseNoTagLists (s : gostr) : option ifHeader := no_tag_lists (S (length s)) s [].

Definition set_tag (tag : gostr) (l : ifList) : ifList :=
  {| resourceTag := tag; conditions := conditions l |}.

Fixpoint tagged_lists (fuel : nat) (first : bool) (tag : gostr) (n : Z) (s : gostr) (ls : list ifList)
    : option ifHeader :=
  match fuel with
  | O => None
  | S fuel =>
      let '(tokenType, tokenStr, remaining) := lex s in
      if tokenType =? angleTokenType then
        if negb first && (n =? 0) then None
        else tagged_lists fuel false tokenStr 0 remaining ls
      else if tokenType =? lparen then
        match parseList s with
        | None => None
        | Some (l, remaining) =>
            let ls := ls ++ [set_tag tag l] in
            if bool_decide (remaining = []) then Some {| lists := ls |}
            else tagged_lists fuel false tag (n + 1) remaining ls
        end
      else None
  end.

Definition parseTaggedLists (s : gostr) : option ifHeader :=
  tagged_lists (S (length s)) true [] 0 s [].

Definition parseIfHeader (httpHeader : gostr) : option ifHeader :=
  let s := TrimSpace httpHeader in
  let '(tokenType, _, _) := lex s in
  if tokenType =? lparen then parseNoTagLists s
  else if tokenType =? angleTokenType then parseTaggedLists s
  else None.

Definition stdlib_example : gostr :=
  #"<http://www.foo.bar/resource1> (<urn:uuid:181d4fae> [W/A]) (Not Not1 [B])".
Example parse_example :
  parseIfHeader stdlib_example = Some {| lists := [
    {| resourceTag := #"http://www.foo.bar/resource1";
       conditions := [{| cond_Not := false; cond_Token := #"urn:uuid:181d4fae"; cond_ETag := [] |};
                      {| cond_Not := false; cond_Token := []; cond_ETag := #"W/A" |}] |};
    {| resourceTag := #"http://www.foo.bar/resource1";
       conditions := [{| cond_Not := true; cond_Token := #"Not1"; cond_ETag := [] |};
                      {| cond_Not := false; cond_Token := []; cond_ETag := #"B" |}] |}] |}.
Proof. vm_compute. reflexivity. Qed.

(** ** The grammar

    A token is its type and its text; [lexto s ts r] says that reading [s]
    token by token gives [ts] and leaves [r]. *)

Abbreviation tok := (Z * gostr)%type.

Inductive lexto : gostr → list tok → gostr → Prop :=
  | lexto_nil s : lexto s [] s
  | lexto_cons s t w r ts r' :
      lex s = (t, w, r) → t ≠ eofTokenType → t ≠ errTokenType → lexto r ts r' →
      lexto s ((t, w) :: ts) r'.

Definition not_toks (b : bool) : list tok := if b then [(notTokenType, [])] else [].

(** [Condition = \["Not"\] (State-token | "\[" entity-tag "\]")] *)
Inductive cond_toks : Condition → list tok → Prop :=
  | cond_token b t w : t = strTokenType ∨ t = angleTokenType →
      cond_toks {| cond_Not := b; cond_Token := w; cond_ETag := [] |} (not_toks b ++ [(t, w)])
  | cond_etag b w :
      cond_toks {| cond_Not := b; cond_Token := []; cond_ETag := w |} (not_toks b ++ [(squareTokenType, w)]).

(** [List = "(" 1*Condition ")"] *)
Definition list_toks (tag : gostr) (l : ifList) (ts : list tok) : Prop :=
  resourceTag l = tag ∧ conditions l ≠ [] ∧
  ∃ tss, Forall2 cond_toks (conditions l) tss ∧ ts = (lparen, []) :: concat tss ++ [(rparen, [])].

(** [1*List] *)
Inductive tag_lists (tag : gostr) : list ifList → list tok → Prop :=
  | tag_lists_one l ts : list_toks tag l ts → tag_lists tag [l] ts
  | tag_lists_more l ts ls ts' :
      list_toks tag l ts → tag_lists tag ls ts' → tag_lists tag (l :: ls) (ts ++ ts').

(** [1*(Resource-Tag 1*List)] *)
Inductive tagged : list ifList → list tok → Prop :=
  | tagged_one tag ls ts : tag_lists tag ls ts → tagged ls ((angleTokenType, tag) :: ts)
  | tagged_more tag ls ts ls' ts' :
      tag_lists tag ls ts → tagged ls' ts' → tagged (ls ++ ls') ((angleTokenType, tag) :: ts ++ ts').

(** [If = No-tag-list | Tagged-list] *)
Definition header_toks (h : ifHeader) (ts : list tok) : Prop :=
  tag_lists [] (lists h) ts ∨ tagged (lists h) ts.

(** ** The lexer consumes its input *)

Lemma trim_left_length P s : (length (trim_left P s) ≤ length s)%nat.
Proof. induction s as [|c s IH]; simpl; [done|]. destruct (P c); simpl; lia. Qed.

Lemma word_len_le s : (word_len s ≤ length s)%nat.
Proof. induction s as [|c s IH]; simpl; [done|]. destruct (is_delim c); simpl; lia. Qed.

Lemma lex_shorter s t w r :
  lex s = (t, w, r) → t ≠ eofTokenType → t ≠ errTokenType → (length r < length s)%nat.
Proof.
  unfold lex. pose proof (trim_left_length is_blank s) as Hl.
  destruct (trim_left is_blank s) as [|c s'] eqn:E; [by intros [= <- <- <-]|].
  cbv zeta. pose proof (word_len_le (c :: s')).
  assert (∀ tt cl, lex_bracket tt cl (c :: s') = (t, w, r) → t ≠ errTokenType → (length r < length s)%nat) as Hb.
  { intros tt cl. unfold lex_bracket. destruct (Z.ltb_spec (IndexByte (c :: s') cl) 0); [by intros [= <- <- <-]|].
    intros [= <- <- <-] _. unfold slice_from. rewrite length_drop. simpl in *. lia. }
  case_bool_decide as E0; simpl.
  - repeat case_bool_decide; intros Hx ? ?; [by eapply Hb..|]. injection Hx as <- <- <-. simpl in Hl. lia.
  - case_bool_decide; intros [= <- <- <-] _ _; rewrite length_drop; simpl in *; lia.
Qed.

Lemma lexto_length s ts r : lexto s ts r → (length r + length ts ≤ length s)%nat.
Proof.
  induction 1 as [|s t w r ts r' E H1 H2 _ IH]; simpl; [lia|].
  pose proof (lex_shorter _ _ _ _ E H1 H2). lia.
Qed.

Lemma lexto_app s ts1 ts2 r : lexto s (ts1 ++ ts2) r ↔ ∃ m, lexto s ts1 m ∧ lexto m ts2 r.
Proof.
  revert s. induction ts1 as [|[t w] ts1 IH]; intros s; simpl; split.
  - intros H. exists s. split; [constructor|done].
  - intros (m&H1&H2). by inversion H1; subst.
  - inversion 1 as [|? ? ? m1 ? ? E H1 H2 H3]; subst. apply IH in H3 as (m&H3&H4).
    exists m. split; [by econstructor|done].
  - intros (m&H1&H2). inversion H1 as [|? ? ? m1 ? ? E H3 H4 H5]; subst.
    econstructor; [done..|]. apply IH. eauto.
Qed.

Lemma lexto_step s t w ts r :
  lexto s ((t, w) :: ts) r → ∃ m, lex s = (t, w, m) ∧ lexto m ts r ∧ t ≠ eofTokenType ∧ t ≠ errTokenType.
Proof. inversion 1; subst; eauto 10. Qed.

(** ** Conditions and lists *)

Lemma parseCondition_complete c ts s r : cond_toks c ts → lexto s ts r → parseCondition s = Some (c, r).
Proof.
  intros Hc Hl. unfold parseCondition.
  destruct Hc as [b t w Ht|b w]; destruct b; simpl in Hl.
  all: apply lexto_step in Hl as (m&E&Hl&_); rewrite E.
  all: try (apply lexto_step in Hl as (m'&E'&Hl&_); simpl; rewrite E').
  all: inversion Hl; subst; try reflexivity; destruct Ht as [->| ->]; reflexivity.
Qed.

(** Keywords and punctuation have no text. *)
Lemma lex_no_text s t w r : lex s = (t, w, r) → t = notTokenType ∨ 0 ≤ t → w = [].
Proof.
  unfold lex. destruct (trim_left is_blank s) as [|c s']; [by intros [= <- <- <-]|].
  cbv zeta. unfold lex_bracket.
  repeat case_bool_decide; simpl; try destruct (_ <? 0); intros [= <- <- <-]; try done;
    intros [H'|H']; try discriminate H'; try done; by compute in H'.
Qed.

Lemma lexto_one s t w r ts r' :
  lex s = (t, w, r) → bool_decide (t ≠ eofTokenType) && bool_decide (t ≠ errTokenType) = true →
  lexto r ts r' → lexto s ((t, w) :: ts) r'.
Proof. intros E H. apply andb_prop in H as [H1%bool_decide_eq_true H2%bool_decide_eq_true]. by econstructor. Qed.

(** What follows an optional [Not]. *)
Lemma parse_state_sound b t w (m r : gostr) c :
  (if (t =? strTokenType) || (t =? angleTokenType)
   then Some ({| cond_Not := b; cond_Token := w; cond_ETag := [] |}, m)
   else if t =? squareTokenType
   then Some ({| cond_Not := b; cond_Token := []; cond_ETag := w |}, m) else None) = Some (c, r) →
  m = r ∧ cond_toks c (not_toks b ++ [(t, w)]) ∧
  bool_decide (t ≠ eofTokenType) && bool_decide (t ≠ errTokenType) = true.
Proof.
  destruct (Z.eqb_spec t strTokenType) as [->|]; simpl;
    [|destruct (Z.eqb_spec t angleTokenType) as [->|];
      [|destruct (Z.eqb_spec t squareTokenType) as [->|]; [|done]]];
    intros [= <- <-]; (split; [done|split; [|done]]); constructor; auto.
Qed.

Lemma parseCondition_sound s c r :
  parseCondition s = Some (c, r) → ∃ ts, cond_toks c ts ∧ lexto s ts r.
Proof.
  unfold parseCondition. destruct (lex s) as [[t w] m] eqn:E.
  destruct (Z.eqb_spec t notTokenType) as [->|Hn].
  - destruct (lex m) as [[t' w'] m'] eqn:E'. intros (->&Hc&Ht)%parse_state_sound.
    eexists. split; [exact Hc|]. apply lex_no_text in E as Hw; [subst w|by left].
    eapply lexto_one; [done..|]. eapply lexto_one; [done..|]. constructor.
  - intros (->&Hc&Ht)%parse_state_sound. eexists. split; [exact Hc|].
    eapply lexto_one; [done..|]. constructor.
Qed.

Lemma cond_toks_first c ts : cond_toks c ts → ∃ t w ts', ts = (t, w) :: ts' ∧ t < 0.
Proof. by destruct 1 as [[] t w [->| ->]|[] w]; do 3 eexists. Qed.

Lemma list_conditions_complete cs tss s r fuel acc :
  Forall2 cond_toks cs tss → lexto s (concat tss ++ [(rparen, [])]) r → acc ++ cs ≠ [] →
  (length s < fuel)%nat →
  list_conditions fuel s acc = Some ({| resourceTag := []; conditions := acc ++ cs |}, r).
Proof.
  intros Hc. revert s fuel acc. induction Hc as [|c ts cs tss Hc Hcs IH]; intros s fuel acc Hl Hne Hf;
    (destruct fuel as [|fuel]; [lia|]); simpl in *.
  - apply lexto_step in Hl as (m&E&Hl&_). inversion Hl; subst. rewrite E. simpl.
    by rewrite bool_decide_false, app_nil_r by by rewrite app_nil_r in Hne.
  - rewrite <- app_assoc in Hl. apply lexto_app in Hl as (m&Hl&Hl').
    rewrite (parseCondition_complete _ _ _ _ Hc Hl).
    destruct (cond_toks_first _ _ Hc) as (t&w&ts'&->&Ht). apply lexto_length in Hl as Hlen.
    apply lexto_step in Hl as (m'&E&_). rewrite E. rewrite (proj2 (Z.eqb_neq t rparen)) by (unfold rparen; lia).
    rewrite (IH m fuel (acc ++ [c])); [by rewrite <- app_assoc|done|by rewrite <- app_assoc|simpl in Hlen; lia].
Qed.

Lemma list_conditions_sound fuel s acc l r :
  list_conditions fuel s acc = Some (l, r) →
  resourceTag l = [] ∧ conditions l ≠ [] ∧
  ∃ cs tss, conditions l = acc ++ cs ∧ Forall2 cond_toks cs tss ∧ lexto s (concat tss ++ [(rparen, [])]) r.
Proof.
  revert s acc. induction fuel as [|fuel IH]; intros s acc; simpl; [done|].
  destruct (lex s) as [[t w] m] eqn:E. destruct (Z.eqb_spec t rparen) as [->|].
  - case_bool_decide; [done|]. intros [= <- <-]. split_ands; [done|done|]. exists [], [].
    rewrite app_nil_r. split_ands; [done|constructor|]. simpl.
    rewrite (lex_no_text _ _ _ _ E) in E by (right; done). eapply lexto_one; [done..|constructor].
  - destruct (parseCondition s) as [[c m']|] eqn:Ec; [|done].
    intros (H1&H2&cs&tss&H3&H4&H5)%IH. split_ands; [done|done|].
    apply parseCondition_sound in Ec as (ts&Hc&Hl). exists (c :: cs), (ts :: tss).
    rewrite H3, <- app_assoc. split_ands; [done|by constructor|]. simpl. rewrite <- app_assoc.
    apply lexto_app. eauto.
Qed.

Lemma set_tag_id tag l : resourceTag l = tag → set_tag tag l = l.
Proof. by destruct l; simpl; intros ->. Qed.

Lemma parseList_complete tag l ts s r :
  list_toks tag l ts → lexto s ts r → parseList s = Some (set_tag [] l, r).
Proof.
  intros (_&Hne&tss&Hc&->) Hl. unfold parseList. apply lexto_step in Hl as (m&E&Hl&_). rewrite E.
  change (negb (lparen =? lparen)) with false. cbv iota.
  apply (list_conditions_complete _ _ _ _ _ [] Hc Hl); [done|lia].
Qed.

Lemma parseList_sound s l r tag :
  parseList s = Some (l, r) → resourceTag l = [] ∧ ∃ ts, list_toks tag (set_tag tag l) ts ∧ lexto s ts r.
Proof.
  unfold parseList. destruct (lex s) as [[t w] m] eqn:E. destruct (Z.eqb_spec t lparen) as [->|]; [|done].
  cbn [negb]. intros (H1&H2&cs&tss&H3&H4&H5)%list_conditions_sound. split; [done|].
  rewrite (lex_no_text _ _ _ _ E) in E by (right; done).
  eexists. split; [|eapply lexto_one; [done..|exact H5]].
  split; [done|split; [done|]]. exists tss. simpl. by rewrite H3.
Qed.

Lemma list_toks_first tag l ts : list_toks tag l ts → ∃ ts', ts = (lparen, []) :: ts'.
Proof. intros (_&_&tss&_&->). eauto. Qed.

(** ** The two forms of the header *)

Lemma tag_lists_first tag ls ts : tag_lists tag ls ts → ∃ ts', ts = (lparen, []) :: ts'.
Proof.
  destruct 1 as [l ts Hl|l ts ls ts' Hl _]; apply list_toks_first in Hl as [ts'' ->]; eauto.
Qed.

Lemma tagged_first ls ts : tagged ls ts → ∃ tag ts', ts = (angleTokenType, tag) :: ts'.
Proof. destruct 1; eauto. Qed.

(** More tokens to read means more text. *)
Lemma lexto_more s t w ts r : lexto s ((t, w) :: ts) r → s ≠ [].
Proof. intros H%lexto_length ->. simpl in H. lia. Qed.

Lemma parseList_shorter tag l ts s r : list_toks tag l ts → lexto s ts r → (length r < length s)%nat.
Proof. intros (_&_&tss&_&->) H%lexto_length. simpl in H. lia. Qed.

Lemma no_tag_lists_complete ls ts s fuel acc :
  tag_lists [] ls ts → lexto s ts [] → (length s < fuel)%nat →
  no_tag_lists fuel s acc = Some {| lists := acc ++ ls |}.
Proof.
  intros Ht. revert s fuel acc. induction Ht as [l ts Hl|l ts ls ts' Hl Hls IH]; intros s fuel acc Hs Hf;
    (destruct fuel as [|fuel]; [lia|]); simpl.
  - rewrite (parseList_complete _ _ _ _ _ Hl Hs), set_tag_id by apply Hl. by rewrite bool_decide_true.
  - apply lexto_app in Hs as (m&Hs&Hm). rewrite (parseList_complete _ _ _ _ _ Hl Hs), set_tag_id by apply Hl.
    pose proof (parseList_shorter _ _ _ _ _ Hl Hs). destruct (tag_lists_first _ _ _ Hls) as [ts'' ->].
    rewrite bool_decide_false by by eapply lexto_more.
    rewrite IH by (done || lia). by rewrite <- app_assoc.
Qed.

Lemma no_tag_lists_sound fuel s acc h :
  no_tag_lists fuel s acc = Some h →
  ∃ ls ts, lists h = acc ++ ls ∧ tag_lists [] ls ts ∧ lexto s ts [].
Proof.
  revert s acc. induction fuel as [|fuel IH]; intros s acc; simpl; [done|].
  destruct (parseList s) as [[l m]|] eqn:E; [|done].
  apply (parseList_sound _ _ _ []) in E as (Ht&ts&Hl&Hs). rewrite set_tag_id in Hl by done.
  case_bool_decide as Hm.
  - intros [= <-]. subst m. exists [l], ts. split_ands; [done|by constructor|done].
  - intros (ls&ts'&->&Hls&Hm')%IH. exists (l :: ls), (ts ++ ts').
    rewrite <- app_assoc. split_ands; [done|by constructor|]. apply lexto_app. eauto.
Qed.

(** What may follow a tag of which [n] lists were read. *)
Definition rest_toks (new_tag : bool) (tag : gostr) (ls : list ifList) (ts : list tok) : Prop :=
  (new_tag = true ∧ tagged ls ts) ∨ tag_lists tag ls ts ∨
  ∃ ls1 ts1 ls2 ts2, ls = ls1 ++ ls2 ∧ ts = ts1 ++ ts2 ∧ tag_lists tag ls1 ts1 ∧ tagged ls2 ts2.

Lemma rest_toks_tag tag ls ts : rest_toks false tag ls ts → tagged ls ((angleTokenType, tag) :: ts).
Proof. intros [[? _]|[H|(ls1&ts1&ls2&ts2&->&->&H1&H2)]]; [done|by constructor|by constructor]. Qed.

Lemma rest_toks_list b tag l ts ls ts' :
  list_toks tag l ts → rest_toks true tag ls ts' → rest_toks b tag (l :: ls) (ts ++ ts').
Proof.
  intros Hl [[_ H]|[H|(ls1&ts1&ls2&ts2&->&->&H1&H2)]]; right.
  - right. exists [l], ts, ls, ts'. split_ands; [done|done|by constructor|done].
  - left. by constructor.
  - right. exists (l :: ls1), (ts ++ ts1), ls2, ts2. rewrite <- app_assoc.
    split_ands; [done|done|by constructor|done].
Qed.

Lemma tagged_lists_sound fuel first tag n s acc h :
  0 ≤ n → tagged_lists fuel first tag n s acc = Some h →
  ∃ ls ts, lists h = acc ++ ls ∧ rest_toks (first || (0 <? n)) tag ls ts ∧ lexto s ts [].
Proof.
  revert first tag n s acc. induction fuel as [|fuel IH]; intros first tag n s acc Hn; simpl; [done|].
  destruct (lex s) as [[t w] m] eqn:E. destruct (Z.eqb_spec t angleTokenType) as [->|].
  - destruct (negb first && (n =? 0)) eqn:Ef; [done|].
    intros (ls&ts&Hh&Hr&Hm)%IH; [|lia]. exists ls, ((angleTokenType, w) :: ts). split_ands; [done| |].
    + left. split; [|by apply rest_toks_tag]. destruct first; [done|]. simpl in *.
      apply Z.ltb_lt. apply Z.eqb_neq in Ef. lia.
    + by eapply lexto_one.
  - destruct (Z.eqb_spec t lparen) as [->|]; [|done].
    destruct (parseList s) as [[l m']|] eqn:El; [|done].
    apply (parseList_sound _ _ _ tag) in El as (_&ts&Hl&Hs). case_bool_decide as Hm.
    + intros [= <-]. subst m'. exists [set_tag tag l], ts. split_ands; [done| |done]. right. left. by constructor.
    + intros (ls&ts'&Hh&Hr&Hm')%IH; [|lia]. exists (set_tag tag l :: ls), (ts ++ ts').
      rewrite Hh, <- app_assoc. split_ands; [done| |apply lexto_app; eauto].
      apply rest_toks_list; [done|]. by rewrite (proj2 (Z.ltb_lt 0 (n + 1))) in Hr by lia.
Qed.

(** Reading the lists of one tag. *)
Lemma tagged_lists_run tag ls ts ts' s fuel first n acc :
  tag_lists tag ls ts → lexto s (ts ++ ts') [] → (length s < fuel)%nat → 0 ≤ n →
  ∃ m fuel' n', lexto m ts' [] ∧ (length m < fuel')%nat ∧ 0 < n' ∧
    tagged_lists fuel first tag n s acc
    = if bool_decide (m = []) then Some {| lists := acc ++ ls |}
      else tagged_lists fuel' false tag n' m (acc ++ ls).
Proof.
  intros Ht. revert s fuel first n acc.
  induction Ht as [l ts Hl|l ts ls ts1 Hl Hls IH]; intros s fuel first n acc Hs Hf Hn;
    (destruct fuel as [|fuel]; [lia|]); cbn [tagged_lists].
  all: try rewrite <- app_assoc in Hs; apply lexto_app in Hs as (m&Hs&Hm);
    pose proof (parseList_shorter _ _ _ _ _ Hl Hs);
    rewrite (parseList_complete _ _ _ _ _ Hl Hs);
    destruct (list_toks_first _ _ _ Hl) as [ts'' ->];
    apply lexto_step in Hs as (m'&E&_); rewrite E; simpl;
    replace (set_tag tag (set_tag [] l)) with l by (symmetry; apply (set_tag_id tag l); apply Hl).
  - exists m, fuel, (n + 1). split_ands; [done|lia|lia|done].
  - destruct (IH m fuel false (n + 1) (acc ++ [l]) Hm) as (k&f'&n'&H1&H2&H3&H4); [lia|lia|].
    exists k, f', n'. split_ands; [done..|]. rewrite bool_decide_false.
    + rewrite H4, <- app_assoc. done.
    + destruct (tag_lists_first _ _ _ Hls) as [t3 ->]. by eapply lexto_more.
Qed.

Lemma tagged_lists_complete ls ts s fuel first tag n acc :
  tagged ls ts → lexto s ts [] → (length s < fuel)%nat → 0 ≤ n → first || (0 <? n) = true →
  tagged_lists fuel first tag n s acc = Some {| lists := acc ++ ls |}.
Proof.
  intros Ht. revert s fuel first tag n acc.
  induction Ht as [tag' ls ts Hls|tag' ls ts ls' ts' Hls Ht IH]; intros s fuel first tag n acc Hs Hf Hn Hb;
    (destruct fuel as [|fuel]; [lia|]); cbn [tagged_lists].
  all: apply lexto_step in Hs as (m&E&Hs&Ht1&Ht2); pose proof (lex_shorter _ _ _ _ E Ht1 Ht2); rewrite E.
  all: change (angleTokenType =? angleTokenType) with true; cbv iota.
  all: replace (negb first && (n =? 0)) with false
    by (destruct first; [done|]; simpl in *; apply Z.ltb_lt in Hb; symmetry; apply Z.eqb_neq; lia).
  - rewrite <- (app_nil_r ts) in Hs.
    destruct (tagged_lists_run _ _ _ _ _ fuel false 0 acc Hls Hs) as (k&f'&n'&H1&H2&H3&H4); [lia..|].
    inversion H1; subst. by rewrite H4.
  - destruct (tagged_lists_run _ _ _ _ _ fuel false 0 acc Hls Hs) as (k&f'&n'&H1&H2&H3&H4); [lia..|].
    rewrite H4, bool_decide_false.
    + rewrite IH; [by rewrite <- app_assoc|done|done|lia|]. by apply Z.ltb_lt.
    + destruct (tagged_first _ _ Ht) as (tag''&t3&->). by eapply lexto_more.
Qed.

Lemma parseIfHeader_toks s h :
  parseIfHeader s = Some h ↔ ∃ ts, header_toks h ts ∧ lexto (TrimSpace s) ts [].
Proof.
  unfold parseIfHeader. set (s' := TrimSpace s). destruct (lex s') as [[t w] m] eqn:E. split.
  - destruct (Z.eqb_spec t lparen) as [->|].
    + intros (ls&ts&Hh&Ht&Hs)%no_tag_lists_sound. simpl in Hh. exists ts. split; [left; by rewrite Hh|done].
    + destruct (Z.eqb_spec t angleTokenType) as [->|]; [|done].
      intros (ls&ts&Hh&Hr&Hs)%tagged_lists_sound; [|done]. simpl in Hh. exists ts. split; [right; rewrite Hh|done].
      destruct Hr as [[_ H]|[H|(ls1&ts1&ls2&ts2&_&->&H&_)]]; [done|exfalso..];
        apply tag_lists_first in H as [t3 ->]; simpl in Hs; apply lexto_step in Hs as (m'&E'&_); congruence.
  - destruct h as [ls]. intros (ts&[H|H]&Hs); simpl in H.
    + destruct (tag_lists_first _ _ _ H) as [t3 ->]. apply lexto_step in Hs as Hs'. destruct Hs' as (m'&E'&_).
      rewrite E in E'. injection E' as -> -> ->. change (lparen =? lparen) with true. cbv iota.
      unfold parseNoTagLists. rewrite (no_tag_lists_complete _ _ _ _ [] H Hs); [done|lia].
    + destruct (tagged_first _ _ H) as (tag&t3&->). apply lexto_step in Hs as Hs'. destruct Hs' as (m'&E'&_).
      rewrite E in E'. injection E' as -> -> ->. simpl.
      unfold parseTaggedLists. rewrite (tagged_lists_complete _ _ _ _ _ _ _ [] H Hs); [done|lia|done|done].
Qed.

(** ** What a client prints *)

Definition print_cond (c : Condition) : gostr :=
  (if cond_Not c then #"Not " else []) ++
  (if bool_decide (cond_ETag c = []) then #"<" ++ cond_Token c ++ #">" else #"[" ++ cond_ETag c ++ #"]").

Definition print_conds (cs : list Condition) : gostr := Join #" " (print_cond <$> cs).

Definition print_list (l : ifList) : gostr := #"(" ++ print_conds (conditions l) ++ #")".

Definition print_tagged (l : ifList) : gostr := #"<" ++ resourceTag l ++ #"> " ++ print_list l.

(** With resource tags, or without when every tag is empty. *)
Definition print_header (tags : bool) (h : ifHeader) : gostr :=
  Join #" " ((if tags then print_tagged else print_list) <$> lists h).

(** No text contains the bracket that closes it, and a condition is a token
    or an entity tag. *)
Definition printable_cond (c : Condition) : Prop :=
  ">"%char ∉ cond_Token c ∧ "]"%char ∉ cond_ETag c ∧ (cond_Token c = [] ∨ cond_ETag c = []).

Definition printable_list (l : ifList) : Prop :=
  ">"%char ∉ resourceTag l ∧ conditions l ≠ [] ∧ Forall printable_cond (conditions l).

Lemma index_byte_from_first i w c r :
  c ∉ w → index_byte_from i (w ++ c :: r) c = i + Z.of_nat (length w).
Proof.
  revert i. induction w as [|d w IH]; intros i Hc; simpl.
  - rewrite bool_decide_true by done. lia.
  - apply not_elem_of_cons in Hc as [Hd Hc]. rewrite bool_decide_false by done. rewrite IH by done. lia.
Qed.

Lemma lex_bracket_text tt o c w r :
  o ≠ c → c ∉ w → lex_bracket tt c (o :: w ++ c :: r) = (tt, w, r).
Proof.
  intros Ho Hc. unfold lex_bracket, IndexByte. simpl. rewrite bool_decide_false by done.
  rewrite index_byte_from_first by done. change (0 + 1) with 1.
  rewrite (proj2 (Z.ltb_ge _ 0)) by lia. unfold slice, slice_to, slice_from.
  replace (Z.to_nat (1 + Z.of_nat (length w))) with (S (length w)) by lia.
  replace (Z.to_nat (1 + Z.of_nat (length w) + 1)) with (S (S (length w))) by lia.
  change (Z.to_nat 1) with 1%nat. simpl. rewrite take_app_length, drop_0.
  replace (S (length w)) with (length w + 1)%nat by lia. by rewrite drop_app_add.
Qed.

Lemma lex_angle w r : ">"%char ∉ w → lex (#"<" ++ w ++ #">" ++ r) = (angleTokenType, w, r).
Proof. apply (lex_bracket_text angleTokenType "<"%char ">"%char). done. Qed.

Lemma lex_square w r : "]"%char ∉ w → lex (#"[" ++ w ++ #"]" ++ r) = (squareTokenType, w, r).
Proof. apply (lex_bracket_text squareTokenType "["%char "]"%char). done. Qed.

Lemma lexto_blank s ts r : ts ≠ [] → lexto s ts r → lexto (#" " ++ s) ts r.
Proof. intros Hne. destruct 1; [done|]. by econstructor. Qed.

Lemma lexto_cond c r : printable_cond c → ∃ ts, cond_toks c ts ∧ lexto (print_cond c ++ r) ts r.
Proof.
  destruct c as [b tok etag]. intros (Ht&He&Hor). unfold print_cond. cbn [cond_Not cond_Token cond_ETag] in *.
  assert (∃ t w s, (if bool_decide (etag = []) then #"<" ++ tok ++ #">" else #"[" ++ etag ++ #"]") ++ r = s ∧
    lex s = (t, w, r) ∧ bool_decide (t ≠ eofTokenType) && bool_decide (t ≠ errTokenType) = true ∧
    cond_toks {| cond_Not := b; cond_Token := tok; cond_ETag := etag |} (not_toks b ++ [(t, w)]))
    as (t&w&s&Es&El&Ht'&Hc).
  { case_bool_decide; do 3 eexists.
    - rewrite <- !app_assoc. split_ands; [done|by apply lex_angle|done|]. subst. constructor. by right.
    - rewrite <- !app_assoc. split_ands; [done|by apply lex_square|done|]. destruct Hor as [->|]; [constructor|done]. }
  exists (not_toks b ++ [(t, w)]). split; [done|]. rewrite <- app_assoc, Es. clear Es.
  assert (lexto s [(t, w)] r) by (eapply lexto_one; [done..|constructor]).
  destruct b; [|done]. simpl. eapply (lexto_one _ _ _ (#" " ++ s)); [reflexivity..|].
  by apply lexto_blank.
Qed.

Lemma lexto_conds cs r :
  cs ≠ [] → Forall printable_cond cs → ∃ tss, Forall2 cond_toks cs tss ∧ lexto (print_conds cs ++ r) (concat tss) r.
Proof.
  intros Hne Hp. unfold print_conds. induction Hp as [|c cs Hc Hcs IH]; [done|]. clear Hne.
  destruct cs as [|c' cs].
  - destruct (lexto_cond c r Hc) as (ts&H1&H2). exists [ts]. simpl. rewrite app_nil_r.
    split; [by repeat constructor|done].
  - destruct IH as (tss&H1&H2); [done|]. cbn [fmap list_fmap Join] in *.
    destruct (lexto_cond c (#" " ++ Join #" " (print_cond c' :: (print_cond <$> cs)) ++ r) Hc) as (ts&H3&H4).
    exists (ts :: tss). split; [by constructor|]. simpl concat. apply lexto_app.
    rewrite <- !app_assoc in *. eexists. split; [exact H4|]. apply lexto_blank; [|done].
    inversion H1 as [|? t1 ? tss1 Hc' ? ]; subst. by destruct (cond_toks_first _ _ Hc') as (?&?&?&->&_).
Qed.

Lemma lexto_list tag l r :
  printable_list l → resourceTag l = tag → ∃ ts, list_toks tag l ts ∧ lexto (print_list l ++ r) ts r.
Proof.
  intros (_&Hne&Hp) Ht. unfold print_list.
  destruct (lexto_conds (conditions l) (#")" ++ r) Hne Hp) as (tss&H1&H2).
  eexists. split; [split; [done|split; [done|by exists tss]]|].
  eapply (lexto_one _ _ _ (print_conds (conditions l) ++ #")" ++ r)); [rewrite <- !app_assoc; reflexivity|reflexivity|].
  apply lexto_app. eexists. split; [exact H2|]. eapply lexto_one; [reflexivity..|constructor].
Qed.

Lemma list_toks_ne tag l ts : list_toks tag l ts → ts ≠ [].
Proof. by intros (?&->)%list_toks_first. Qed.

Lemma lexto_untagged ls :
  ls ≠ [] → Forall printable_list ls → Forall (λ l, resourceTag l = []) ls →
  ∃ ts, tag_lists [] ls ts ∧ lexto (Join #" " (print_list <$> ls)) ts [].
Proof.
  intros Hne Hp Ht. induction Hp as [|l ls Hl Hls IH]; [done|]. clear Hne.
  apply Forall_cons in Ht as [Hl' Ht]. destruct ls as [|l2 ls].
  - destruct (lexto_list [] l [] Hl Hl') as (ts&H1&H2). rewrite app_nil_r in H2.
    exists ts. split; [by constructor|done].
  - destruct IH as (ts&H1&H2); [done|done|]. cbn [fmap list_fmap Join] in *.
    destruct (lexto_list [] l (#" " ++ Join #" " (print_list l2 :: (print_list <$> ls))) Hl Hl') as (ts'&H3&H4).
    exists (ts' ++ ts). split; [by constructor|]. apply lexto_app. eexists. split; [exact H4|].
    apply lexto_blank; [|done]. by destruct (tag_lists_first _ _ _ H1) as [? ->].
Qed.

Lemma lexto_tagged ls :
  ls ≠ [] → Forall printable_list ls →
  ∃ ts, tagged ls ts ∧ lexto (Join #" " (print_tagged <$> ls)) ts [].
Proof.
  intros Hne Hp. induction Hp as [|l ls Hl Hls IH]; [done|]. clear Hne.
  assert (∀ r, ∃ ts, list_toks (resourceTag l) l ts ∧
    lexto (print_tagged l ++ r) ((angleTokenType, resourceTag l) :: ts) r) as Hone.
  { intros r. destruct (lexto_list _ l r Hl eq_refl) as (ts&H1&H2). exists ts. split; [done|].
    unfold print_tagged. rewrite <- !app_assoc. eapply lexto_one; [apply (lex_angle _ (#" " ++ _)), Hl|done|].
    apply lexto_blank; [by eapply list_toks_ne|]. exact H2. }
  destruct ls as [|l2 ls].
  - destruct (Hone []) as (ts&H1&H2). rewrite app_nil_r in H2.
    eexists. split; [by do 2 constructor|exact H2].
  - destruct IH as (ts&H1&H2); [done|]. cbn [fmap list_fmap Join] in *.
    destruct (Hone (#" " ++ Join #" " (print_tagged l2 :: (print_tagged <$> ls)))) as (ts'&H3&H4).
    exists ((angleTokenType, resourceTag l) :: ts' ++ ts). split.
    + apply (tagged_more _ [l]); [by constructor|done].
    + apply (lexto_app _ ((angleTokenType, resourceTag l) :: ts')). eexists. split; [exact H4|].
      apply lexto_blank; [|done]. by destruct (tagged_first _ _ H1) as (?&?&->).
Qed.

(** A header starts and ends with a bracket, so there is nothing to trim. *)
Lemma TrimSpace_bracketed s c : (c = "("%char ∨ c = "<"%char) → TrimSpace (c :: s ++ #")") = c :: s ++ #")".
Proof.
  intros Hc. unfold TrimSpace.
  assert (∀ n rs s', first_rune rs s' = None → strip_runes n rs s' = s') as Hs by (by intros [] rs s' E; simpl; rewrite ?E).
  rewrite (Hs _ space_runes) by (by destruct Hc; subst).
  rewrite Hs; [by rewrite reverse_involutive|]. rewrite app_comm_cons, reverse_app. reflexivity.
Qed.

Lemma print_list_ends l : ∃ s, print_list l = "("%char :: s ++ #")".
Proof. eexists. reflexivity. Qed.

Lemma print_tagged_ends l : ∃ s, print_tagged l = "<"%char :: s ++ #")".
Proof.
  destruct (print_list_ends l) as [s Hs]. unfold print_tagged. rewrite Hs.
  exists (resourceTag l ++ #"> (" ++ s). simpl. f_equal. by rewrite <- !app_assoc.
Qed.

Lemma Join_bracketed c (ws : list gostr) :
  ws ≠ [] → Forall (λ w, ∃ s, w = c :: s ++ #")") ws → ∃ s, Join #" " ws = c :: s ++ #")".
Proof.
  intros Hne Hw. destruct Hw as [|w ws [s ->] Hws]; [done|]. clear Hne. revert s.
  induction Hws as [|w ws [s' ->] Hws IH]; intros s; [eauto|].
  destruct (IH s') as [s2 E]. exists (s ++ #") " ++ c :: s2).
  change (Join #" " ((c :: s ++ #")") :: (c :: s' ++ #")") :: ws))
    with ((c :: s ++ #")") ++ #" " ++ Join #" " ((c :: s' ++ #")") :: ws)).
  rewrite E. simpl. f_equal. by rewrite <- !app_assoc.
Qed.

Lemma TrimSpace_header tags h :
  lists h ≠ [] → TrimSpace (print_header tags h) = print_header tags h.
Proof.
  intros Hne. unfold print_header.
  destruct (Join_bracketed (if tags then "<"%char else "("%char)
    ((if tags then print_tagged else print_list) <$> lists h)) as [s ->].
  - by destruct (lists h).
  - apply Forall_fmap, Forall_true. intros l. destruct tags; [apply print_tagged_ends|apply print_list_ends].
  - apply TrimSpace_bracketed. destruct tags; auto.
Qed.

(** ** Theorems *)

(** [parseIfHeader] accepts exactly the headers of the grammar of
    RFC 4918: after the outer white space is trimmed, the tokens of the whole
    text are one or more lists, or one or more resource tags each followed by
    one or more lists, a list being one or more conditions in parentheses;
    and the header returned is the one the tokens spell. *)
Theorem parseIfHeader_exact s h :
  parseIfHeader s = Some h ↔ ∃ ts, header_toks h ts ∧ lexto (TrimSpace s) ts [].
Proof. apply parseIfHeader_toks. Qed.

(** What a client prints is read back: every header with at least one
    list, whose lists have conditions and whose texts do not contain their own
    closing bracket, is parsed to itself, with its resource tags written or,
    when all are empty, left out. *)
Theorem parseIfHeader_print tags h :
  lists h ≠ [] → Forall printable_list (lists h) →
  (tags = false → Forall (λ l, resourceTag l = []) (lists h)) →
  parseIfHeader (print_header tags h) = Some h.
Proof.
  intros Hne Hp Ht. apply parseIfHeader_toks. rewrite TrimSpace_header by done.
  unfold print_header, header_toks. destruct tags.
  - destruct (lexto_tagged _ Hne Hp) as (ts&H1&H2). exists ts. auto.
  - destruct (lexto_untagged _ Hne Hp) as (ts&H1&H2); [auto|]. exists ts. auto.
Qed.

#[export] Instance printable_cond_dec c : Decision (printable_cond c).
Proof. unfold printable_cond. apply _. Defined.
#[export] Instance printable_list_dec l : Decision (printable_list l).
Proof. unfold printable_list. apply _. Defined.

Definition example_header : ifHeader :=
  {| lists := [{| resourceTag := #"/a b"; conditions :=
       [{| cond_Not := true; cond_Token := #"urn:(1)"; cond_ETag := [] |};
        {| cond_Not := false; cond_Token := []; cond_ETag := #"W/1" |}] |};
     {| resourceTag := #"/c"; conditions := [{| cond_Not := false; cond_Token := #"2"; cond_ETag := [] |}] |}] |}.

