(* ===== verification/WebdavHandler.v ===== *)
(** * The WebDAV server: [server/webdav.go], [server/webdav/webdav.go],
      [server/webdav/file.go] and [server/webdav/util.go]

    [WebDAVAuth] decides whether a request may pass; a handler then confirms
    the locks of the paths it changes, resolves them below the user's base
    path and calls package [fs].  The lock table is that of [WebdavLock]; the
    answers of package [fs] are an oracle that may depend on every call made
    before, so that the log of the calls is the trace of what was done. *)

From S2P Require Import Prelude GoStrings Errs Paths HttpRange Users Perm GoHeap WebdavLock WebdavIf.

Local Open Scope Z_scope.

(** ** Status codes and errors *)

Module Http.
Definition StatusCreated : Z := 201.
Definition StatusNoContent : Z := 204.
Definition StatusBadRequest : Z := 400.
Definition StatusUnauthorized : Z := 401.
Definition StatusForbidden : Z := 403.
Definition StatusNotFound : Z := 404.
Definition StatusMethodNotAllowed : Z := 405.
Definition StatusConflict : Z := 409.
Definition StatusPreconditionFailed : Z := 412.
Definition StatusUnsupportedMediaType : Z := 415.
Definition StatusLocked : Z := 423.
Definition StatusInternalServerError : Z := 500.
Definition StatusOK : Z := 200.
Definition StatusBadGateway : Z := 502.
End Http.
Import Http.

Inductive dav_sentinel :=
  | errDestinationEqualsSource | errInvalidDepth | errInvalidDestination | errInvalidIfHeader
  | errInvalidLockInfo | errInvalidLockToken | errInvalidTimeout | errPrefixMismatch
  | errUnsupportedLockInfo | errUnsupportedMethod.

Inductive dav_error :=
  | DavErr (e : dav_sentinel)
  | LockErr (e : lock_error)
  | FsErr (e : error).

(** ** Requests *)

(** The request, with what [readLockInfo] makes of its body: an error and its
    status, nothing for an empty body, or the owner of the lock asked for. *)
Record dav_request := {
  r_Method : gostr;
  r_URL_Path : gostr;
  r_Host : gostr;
  r_Header : header;
  r_ContentLength : Z;
  r_LockInfo : (Z * dav_error) + option gostr;
}.

(** [net/url]: host and path of a URL. *)
Class UrlLib := url_Parse : gostr → option (gostr * gostr).

(** ** Package [fs] *)

Record Object := { obj_Name : gostr; obj_Size : Z; obj_Modified : Z; obj_Ctime : Z }.

Inductive fs_call :=
  | FsGet (path : gostr)
  | FsRemove (path : gostr)
  | FsMakeDir (path : gostr)
  | FsPut (dir : gostr) (file : Object) (mimetype : gostr)
  | FsMove (src dstDir : gostr)
  | FsCopy (src dstDir : gostr)
  | FsRename (path name : gostr).

(** [fs_answer] is the error of a call, given the calls before it.
    [findETag] is the entity tag of the object [fs.Get] found, or of the one
    just written.  [GetMimeType] and [os_IsNotExist] ask the operating system. *)
Class Fs := {
  fs_answer : list fs_call → fs_call → option error;
  findETag : list fs_call → gostr → Object → result gostr;
  GetMimeType : gostr → gostr;
  os_IsNotExist : error → bool;
}.

(** ** Handlers: the lock table, the calls made and the response header *)

Record world := { w_locks : memLS; w_calls : list fs_call; w_header : header }.

Definition dav (A : Type) : Type := world → outcome (A * world).

Definition dav_ret {A} (a : A) : dav A := λ w, Ret (a, w).
Definition dav_bind {A B} (m : dav A) (k : A → dav B) : dav B :=
  λ w, match m w with Ret (a, w') => k a w' | Panic => Panic end.

Notation "'let$' x ':=' m 'in' k" := (dav_bind m (λ x, k))
  (at level 10, x pattern, m at level 100, k at level 200,
   format "'[v' 'let$'  x  ':='  m  'in' '//' k ']'") : go_scope.

Definition on_locks {A} (f : memLS → outcome (memLS * A)) : dav A :=
  λ w, match f (w_locks w) with
       | Ret (m, a) => Ret (a, {| w_locks := m; w_calls := w_calls w; w_header := w_header w |})
       | Panic => Panic
       end.

Definition set_out (k v : gostr) : dav unit :=
  λ w, Ret ((), {| w_locks := w_locks w; w_calls := w_calls w; w_header := <[k := [v]]> (w_header w) |}).

Section handlers.
Context {FS : Fs} {UL : UrlLib} {RS : RoleStore}.

Definition fs_do (c : fs_call) : dav (option error) :=
  λ w, Ret (fs_answer (w_calls w) c,
            {| w_locks := w_locks w; w_calls := w_calls w ++ [c]; w_header := w_header w |}).

(** The handler's [Prefix], the user of the request, and the readings of
    [time.Now] during it, in order. *)
Context (Prefix : gostr) (user : User) (clock : nat → Z).

(** A status and an error. *)
Definition reply : Type := Z * option dav_error.

Definition stripPrefix (p : gostr) : (Z * dav_error) + gostr :=
  if bool_decide (Prefix = #"") then inr p
  else
    let r := TrimPrefix p Prefix in
    if (length r <? length p)%nat then inr r else inl (StatusNotFound, DavErr errPrefixMismatch).

Definition resolve (p : gostr) : result gostr := ResolvePath (Some GetRole) user p.

(** *** Locks *)

Definition lock (now : Z) (root : gostr) : dav ((Z * dav_error) + gostr) :=
  let$ r := on_locks (Create now {| Root := root; Duration := infiniteTimeout; OwnerXML := []; ZeroDepth := true |}) in
  dav_ret (match r with
           | inr token => inr token
           | inl e =>
               if bool_decide (e = ErrLocked) then inl (StatusLocked, LockErr e)
               else inl (StatusInternalServerError, LockErr e)
           end).

(** The function [confirmLocks] returns, as the variables it closes over. *)
Inductive release_fn :=
  | ReleaseTemp (now : Z) (dstToken srcToken : gostr)
  | ReleaseHeld (ns : option nat * option nat).

Definition unlock_token (now : Z) (token : gostr) : dav unit :=
  if bool_decide (token = #"") then dav_ret ()
  else let$ _ := on_locks (Unlock now token) in dav_ret ().

Definition run_release (f : release_fn) : dav unit :=
  match f with
  | ReleaseTemp now dstToken srcToken =>
      let$ _ := unlock_token now dstToken in unlock_token now srcToken
  | ReleaseHeld ns => on_locks (λ m, let? m := release ns m in Ret (m, ()))
  end.

(** Temporary locks for a request without an If header. *)
Definition lock_temp (src dst : gostr) : dav ((Z * dav_error) + release_fn) :=
  let now := clock 0 in
  let$ s := (if bool_decide (src = #"") then dav_ret (inr #"") else lock now src) in
  match s with
  | inl e => dav_ret (inl e)
  | inr srcToken =>
      let$ d := (if bool_decide (dst = #"") then dav_ret (inr #"") else lock now dst) in
      match d with
      | inl e => let$ _ := unlock_token now srcToken in dav_ret (inl e)
      | inr dstToken => dav_ret (inr (ReleaseTemp now dstToken srcToken))
      end
  end.

(** The resource a list is about: [None] to skip the list. *)
Definition list_source (r : dav_request) (src : gostr) (l : ifList) : (Z * dav_error) + option gostr :=
  if bool_decide (resourceTag l = #"") then inr (Some src)
  else
    match url_Parse (resourceTag l) with
    | None => inr None
    | Some (host, path) =>
        if negb (bool_decide (host = r_Host r)) then inr None
        else match stripPrefix path with inl e => inl e | inr lsrc => inr (Some lsrc) end
    end.

(** The loop over the lists; [i] counts the readings of the clock. *)
Fixpoint confirm_lists (r : dav_request) (src dst : gostr) (i : nat) (ls : list ifList)
    : dav ((Z * dav_error) + release_fn) :=
  match ls with
  | [] => dav_ret (inl (StatusPreconditionFailed, LockErr ErrLocked))
  | l :: ls' =>
      match list_source r src l with
      | inl e => dav_ret (inl e)
      | inr None => confirm_lists r src dst i ls'
      | inr (Some lsrc) =>
          let$ c := on_locks (Confirm (clock i) lsrc dst (conditions l)) in
          match c with
          | inr ns => dav_ret (inr (ReleaseHeld ns))
          | inl e =>
              if bool_decide (e = ErrConfirmationFailed) then confirm_lists r src dst (S i) ls'
              else dav_ret (inl (StatusInternalServerError, LockErr e))
          end
      end
  end.

Definition confirmLocks (r : dav_request) (src dst : gostr) : dav ((Z * dav_error) + release_fn) :=
  let hdr := header_Get (r_Header r) #"If" in
  if bool_decide (hdr = #"") then lock_temp src dst
  else
    match parseIfHeader hdr with
    | None => dav_ret (inl (StatusBadRequest, DavErr errInvalidIfHeader))
    | Some ih => confirm_lists r src dst 0 (lists ih)
    end.

(** [confirmLocks] with the deferred release around the rest of a handler. *)
Definition with_locks (r : dav_request) (src dst : gostr) (body : dav reply) : dav reply :=
  let$ c := confirmLocks r src dst in
  match c with
  | inl (status, e) => dav_ret (status, Some e)
  | inr release =>
      let$ res := body in
      let$ _ := run_release release in
      dav_ret res
  end.

(** *** DELETE, PUT, MKCOL *)

Definition with_path (p : gostr) (body : gostr → dav reply) : dav reply :=
  match resolve p with
  | inl e => dav_ret (StatusForbidden, Some (FsErr e))
  | inr p => body p
  end.

Definition with_stripped (p : gostr) (body : gostr → dav reply) : dav reply :=
  match stripPrefix p with
  | inl (status, e) => dav_ret (status, Some e)
  | inr p => body p
  end.

Definition handleDelete (r : dav_request) : dav reply :=
  with_stripped (r_URL_Path r) (λ reqPath,
  with_locks r reqPath #"" (
  with_path reqPath (λ reqPath,
    let$ e := fs_do (FsGet reqPath) in
    match e with
    | Some e => dav_ret (if IsObjectNotFound e then StatusNotFound else StatusMethodNotAllowed, Some (FsErr e))
    | None =>
        let$ e := fs_do (FsRemove reqPath) in
        match e with
        | Some e => dav_ret (StatusMethodNotAllowed, Some (FsErr e))
        | None => dav_ret (StatusNoContent, None)
        end
    end))).

(** [server/webdav/util.go]: seconds since the epoch, or the time of the call. *)
Definition getHeaderTime (r : dav_request) (hdr alternative : gostr) (now : Z) : Z :=
  let hVal := header_Get (r_Header r) hdr in
  let hVal :=
    if bool_decide (hVal = #"") && negb (bool_decide (alternative = #""))
    then header_Get (r_Header r) alternative else hVal in
  if negb (bool_decide (hVal = #"")) then
    match ParseInt hVal with
    | (modTimeUnix, None) => modTimeUnix * Second
    | (_, Some _) => now
    end
  else now.
Definition getModTime (r : dav_request) (now : Z) : Z := getHeaderTime r #"X-OC-Mtime" #"" now.
Definition getCreateTime (r : dav_request) (now : Z) : Z := getHeaderTime r #"X-OC-Ctime" #"X-OC-Mtime" now.

(** [t1] and [t2] are the clock when the two times of the object are read. *)
Definition put_object (r : dav_request) (t1 t2 : Z) (reqPath : gostr) : Object :=
  {| obj_Name := path_Base reqPath; obj_Size := r_ContentLength r;
     obj_Modified := getModTime r t1; obj_Ctime := getCreateTime r t2 |}.

Definition put_mimetype (r : dav_request) (reqPath : gostr) : gostr :=
  let m := header_Get (r_Header r) #"Content-Type" in
  if bool_decide (m = #"") then GetMimeType reqPath else m.

Definition set_etag (reqPath : gostr) (obj : Object) : dav reply :=
  let$ _ := fs_do (FsGet reqPath) in
  λ w, match findETag (w_calls w) reqPath obj with
       | inl e => Ret ((StatusInternalServerError, Some (FsErr e)), w)
       | inr etag => (let$ _ := set_out #"Etag" etag in dav_ret (StatusCreated, None)) w
       end.

Definition handlePut (t1 t2 : Z) (r : dav_request) : dav reply :=
  with_stripped (r_URL_Path r) (λ reqPath,
  if bool_decide (reqPath = #"") then dav_ret (StatusMethodNotAllowed, None) else
  with_locks r reqPath #"" (
  with_path reqPath (λ reqPath,
    let obj := put_object r t1 t2 reqPath in
    let$ e := fs_do (FsPut (path_Dir reqPath) obj (put_mimetype r reqPath)) in
    match e with
    | Some e => dav_ret (if IsNotFoundError e then StatusNotFound else StatusMethodNotAllowed, Some (FsErr e))
    | None => set_etag reqPath obj
    end))).

Definition handleMkcol (r : dav_request) : dav reply :=
  with_stripped (r_URL_Path r) (λ reqPath,
  with_locks r reqPath #"" (
  with_path reqPath (λ reqPath,
    if 0 <? r_ContentLength r then dav_ret (StatusUnsupportedMediaType, None)
    else
      let$ e := fs_do (FsGet reqPath) in
      match e with
      | None => dav_ret (StatusMethodNotAllowed, None)
      | Some _ =>
          let$ e := fs_do (FsGet (path_Dir reqPath)) in
          match e with
          | Some e => dav_ret (if IsObjectNotFound e then StatusConflict else StatusMethodNotAllowed, Some (FsErr e))
          | None =>
              let$ e := fs_do (FsMakeDir reqPath) in
              match e with
              | Some e => dav_ret (if os_IsNotExist e then StatusConflict else StatusMethodNotAllowed, Some (FsErr e))
              | None => dav_ret (StatusCreated, None)
              end
          end
      end))).

(** *** COPY and MOVE *)

Definition infiniteDepth : Z := -1.
Definition invalidDepth : Z := -2.

Definition parseDepth (s : gostr) : Z :=
  if bool_decide (s = #"0") then 0
  else if bool_decide (s = #"1") then 1
  else if bool_decide (s = #"infinity") then infiniteDepth
  else invalidDepth.

Definition rename_reply (e : option error) : reply :=
  match e with
  | Some e => (StatusInternalServerError, Some (FsErr e))
  | None => (StatusCreated, None)
  end.

(** The parameter [overwrite] is not used. *)
Definition moveFiles (src dst : gostr) : dav reply :=
  let srcDir := path_Dir src in
  let dstDir := path_Dir dst in
  let srcName := path_Base src in
  let dstName := path_Base dst in
  let perm := MergeRolePermissions (Some user) src in
  if negb (bool_decide (srcDir = dstDir)) && negb (HasPermission perm PermMove)
  then dav_ret (StatusForbidden, None)
  else if negb (bool_decide (srcName = dstName)) && negb (HasPermission perm PermRename)
  then dav_ret (StatusForbidden, None)
  else if bool_decide (srcDir = dstDir)
  then let$ e := fs_do (FsRename src dstName) in dav_ret (rename_reply e)
  else
    let$ e := fs_do (FsMove src dstDir) in
    match e with
    | Some e => dav_ret (StatusInternalServerError, Some (FsErr e))
    | None =>
        if negb (bool_decide (srcName = dstName))
        then let$ e := fs_do (FsRename (path_join dstDir srcName) dstName) in dav_ret (rename_reply e)
        else dav_ret (StatusCreated, None)
    end.

Definition copyFiles (src dst : gostr) : dav reply :=
  let$ e := fs_do (FsCopy src (path_Dir dst)) in
  dav_ret (rename_reply e).

Definition copy_or_move (r : dav_request) (src dst : gostr) : dav reply :=
  let depth := header_Get (r_Header r) #"Depth" in
  if bool_decide (r_Method r = #"COPY") then
    with_locks r #"" dst (
      if negb (bool_decide (depth = #"")) && negb (parseDepth depth =? 0)
         && negb (parseDepth depth =? infiniteDepth)
      then dav_ret (StatusBadRequest, Some (DavErr errInvalidDepth))
      else copyFiles src dst)
  else
    with_locks r src dst (
      if negb (bool_decide (depth = #"")) && negb (parseDepth depth =? infiniteDepth)
      then dav_ret (StatusBadRequest, Some (DavErr errInvalidDepth))
      else moveFiles src dst).

Definition handleCopyMove (r : dav_request) : dav reply :=
  let hdr := header_Get (r_Header r) #"Destination" in
  if bool_decide (hdr = #"") then dav_ret (StatusBadRequest, Some (DavErr errInvalidDestination))
  else
    match url_Parse hdr with
    | None => dav_ret (StatusBadRequest, Some (DavErr errInvalidDestination))
    | Some (host, path) =>
        if negb (bool_decide (host = #"")) && negb (bool_decide (host = r_Host r))
        then dav_ret (StatusBadGateway, Some (DavErr errInvalidDestination))
        else
          with_stripped (r_URL_Path r) (λ src,
          with_stripped path (λ dst,
          if bool_decide (dst = #"") then dav_ret (StatusBadGateway, Some (DavErr errInvalidDestination))
          else if bool_decide (dst = src) then dav_ret (StatusForbidden, Some (DavErr errDestinationEqualsSource))
          else with_path src (λ src, with_path dst (λ dst, copy_or_move r src dst))))
    end.

(** *** LOCK and UNLOCK *)

(** The token of a header with one list of one condition, else nothing. *)
Definition refresh_token (ih : ifHeader) : gostr :=
  match lists ih with
  | [l] => match conditions l with [c] => cond_Token c | _ => [] end
  | _ => []
  end.

Definition lock_refresh (r : dav_request) (duration : Z) : dav reply :=
  match parseIfHeader (header_Get (r_Header r) #"If") with
  | None => dav_ret (StatusBadRequest, Some (DavErr errInvalidIfHeader))
  | Some ih =>
      let token := refresh_token ih in
      if bool_decide (token = #"") then dav_ret (StatusBadRequest, Some (DavErr errInvalidLockToken))
      else
        let$ ld := on_locks (Refresh (clock 0) token duration) in
        match ld with
        | inl e => dav_ret (if bool_decide (e = ErrNoSuchLock) then StatusPreconditionFailed
                            else StatusInternalServerError, Some (LockErr e))
        | inr _ => let$ _ := set_out #"Content-Type" #"application/xml; charset=utf-8" in dav_ret (0, None)
        end
  end.

Definition lock_create (r : dav_request) (duration : Z) (owner : gostr) : dav reply :=
  let hdr := header_Get (r_Header r) #"Depth" in
  let depth := if bool_decide (hdr = #"") then infiniteDepth else parseDepth hdr in
  if negb (depth =? 0) && negb (depth =? infiniteDepth)
  then dav_ret (StatusBadRequest, Some (DavErr errInvalidDepth))
  else
    with_stripped (r_URL_Path r) (λ reqPath,
    with_path reqPath (λ reqPath,
      let$ token := on_locks (Create (clock 0) {| Root := reqPath; Duration := duration;
                                                  OwnerXML := owner; ZeroDepth := (depth =? 0) |}) in
      match token with
      | inl e => dav_ret (if bool_decide (e = ErrLocked) then StatusLocked
                          else StatusInternalServerError, Some (LockErr e))
      | inr token =>
          let$ _ := set_out #"Lock-Token" (#"<" ++ token ++ #">") in
          let$ _ := set_out #"Content-Type" #"application/xml; charset=utf-8" in
          dav_ret (0, None)
      end)).

Definition handleLock (r : dav_request) : dav reply :=
  match parseTimeout (header_Get (r_Header r) #"Timeout") with
  | None => dav_ret (StatusBadRequest, Some (DavErr errInvalidTimeout))
  | Some duration =>
      match r_LockInfo r with
      | inl (status, e) => dav_ret (status, Some e)
      | inr None => lock_refresh r duration
      | inr (Some owner) => lock_create r duration owner
      end
  end.

Definition unlock_status (e : option lock_error) : Z :=
  match e with
  | None => StatusNoContent
  | Some ErrForbidden => StatusForbidden
  | Some ErrLocked => StatusLocked
  | Some ErrNoSuchLock => StatusConflict
  | Some ErrConfirmationFailed => StatusInternalServerError
  end.

Definition handleUnlock (r : dav_request) : dav reply :=
  let t := header_Get (r_Header r) #"Lock-Token" in
  if (length t <? 2)%nat || negb (bool_decide (t !! 0%nat = Some "<"%char))
     || negb (bool_decide (last t = Some ">"%char))
  then dav_ret (StatusBadRequest, Some (DavErr errInvalidLockToken))
  else
    let t := slice t 1 (Z.of_nat (length t) - 1) in
    let$ e := on_locks (Unlock (clock 0) t) in
    dav_ret (unlock_status e, LockErr <$> e).

(** The methods that change a file or a lock, as [ServeHTTP] dispatches them;
    [None] for the others. *)
Definition serve_write (t1 t2 : Z) (r : dav_request) : option (dav reply) :=
  let m := r_Method r in
  if bool_decide (m = #"DELETE") then Some (handleDelete r)
  else if bool_decide (m = #"PUT") then Some (handlePut t1 t2 r)
  else if bool_decide (m = #"MKCOL") then Some (handleMkcol r)
  else if bool_decide (m = #"COPY") || bool_decide (m = #"MOVE") then Some (handleCopyMove r)
  else if bool_decide (m = #"LOCK") then Some (handleLock r)
  else if bool_decide (m = #"UNLOCK") then Some (handleUnlock r)
  else None.
End handlers.

(** ** Authentication: [server/webdav.go] *)

(** What the authentication asks of the other packages: the token setting,
    the users of package [op], and the session check of package [device]. *)
Class AuthEnv := {
  conf_Token : gostr;
  GetGuest : option User;
  GetAdmin : result User;
  GetUserByName : gostr → result User;
  device_Handle : Z → gostr → gostr → option error;
}.

(** [a_Path] is [c.Param("path")], which the router took from the decoded URL. *)
Record auth_request := {
  a_Method : gostr;
  a_BasicAuth : option (gostr * gostr);
  a_Authorization : gostr;
  a_Path : gostr;
  a_UserAgent : gostr;
  a_ClientIP : gostr;
}.

(** The request is refused with a status, or goes on as a user ([None] is the
    nil guest). *)
Inductive auth_result := Abort (status : Z) | Next (u : option User).

Section auth.
Context {AE : AuthEnv} {RS : RoleStore}.

Definition check_device (c : auth_request) (u : User) : auth_result :=
  match device_Handle (user_ID u) (a_UserAgent c) (a_ClientIP c) with
  | Some _ => Abort StatusForbidden
  | None => Next (Some u)
  end.

(** The methods a permission of the user is missing for. *)
Definition method_denied (method : gostr) (perm : Z) : bool :=
  let has := HasPermission perm in
  let is_ m := bool_decide (method = m) in
  ((is_ #"PUT" || is_ #"MKCOL") && (negb (has PermWebdavManage) || negb (has PermWrite)))
  || (is_ #"MOVE" && (negb (has PermWebdavManage) || (negb (has PermMove) && negb (has PermRename))))
  || (is_ #"COPY" && (negb (has PermWebdavManage) || negb (has PermCopy)))
  || (is_ #"DELETE" && (negb (has PermWebdavManage) || negb (has PermRemove)))
  || (is_ #"PROPPATCH" && negb (has PermWebdavManage)).

(** Without the user name and password of basic authentication. *)
Definition auth_token (c : auth_request) : auth_result :=
  let bt := a_Authorization c in
  let no_token :=
    if bool_decide (a_Method c = #"OPTIONS") then Next GetGuest else Abort StatusUnauthorized in
  if HasPrefix bt #"Bearer" then
    if negb (bool_decide (conf_Token = #"")) && bool_decide (TrimPrefix bt #"Bearer " = conf_Token) then
      match GetAdmin with
      | inl _ => Abort StatusInternalServerError
      | inr admin => check_device c admin
      end
    else no_token
  else no_token.

Definition auth_user (c : auth_request) (user : User) : auth_result :=
  let reqPath := if bool_decide (a_Path c = #"") then #"/" else a_Path c in
  let reqPath := default [] (PathUnescape reqPath) in
  match ResolvePath (Some GetRole) user reqPath with
  | inl _ => Abort StatusForbidden
  | inr reqPath =>
      let perm := MergeRolePermissions (Some user) reqPath in
      let webdavRead := HasPermission perm PermWebdavRead in
      if Disabled user
         || (negb webdavRead
             && (negb (bool_decide (a_Method c = #"PROPFIND"))
                 || negb (HasChildPermission (Some user) reqPath PermWebdavRead)))
      then if bool_decide (a_Method c = #"OPTIONS") then Next GetGuest else Abort StatusForbidden
      else if method_denied (a_Method c) perm then Abort StatusForbidden
      else check_device c user
  end.

Definition WebDAVAuth (c : auth_request) : auth_result :=
  match a_BasicAuth c with
  | None => auth_token c
  | Some (username, password) =>
      let refused := if bool_decide (a_Method c = #"OPTIONS") then Next GetGuest else Abort StatusUnauthorized in
      match GetUserByName username with
      | inl _ => refused
      | inr user =>
          match ValidateRawPassword user password with
          | Some _ => refused
          | None => auth_user c user
          end
      end
  end.
End auth.
