(* ===== verification/WebdavHandlerThms.v ===== *)
(** * What a WebDAV request may do

    Every request that writes first holds the locks of what it names and
    gives them back; its calls of package [fs] stay below the user's base
    path; the permissions its method needs were checked.  The last part has
    the cases where these promises fail. *)

From S2P Require Import Prelude GoStrings Errs Paths HttpRange Users Perm GoHeap.
From S2P Require Import WebdavLock WebdavLockRep WebdavLockSpec WebdavLockOps WebdavLockThms.
From S2P Require Import WebdavIf WebdavHandler.
Import Http.

Local Open Scope Z_scope.

(** ** Ageing of the lock table *)

Lemma live_mono t1 t2 k : t1 ≤ t2 → live t2 k → live t1 k.
Proof. intros Ht [H|H]; [by left|right]. destruct (lk_expiry k); [lia|done]. Qed.

Lemma expire_expire t1 t2 A : t1 ≤ t2 → expire t2 (expire t1 A) = expire t2 A.
Proof.
  intros Ht. unfold expire. rewrite map_filter_filter. apply map_filter_ext.
  intros t k _. simpl. split; [by intros [? _]|]. intros Hl. split; [done|]. by eapply live_mono.
Qed.

Lemma expire_insert_live now t k A : live now k → expire now (<[t := k]> A) = <[t := k]> (expire now A).
Proof. intros Hl. unfold expire. by rewrite map_filter_insert_True. Qed.

Section guards.
Context {FS : Fs} {UL : UrlLib} {RS : RoleStore}.
Context (Prefix : gostr) (user : User) (clock : nat → Z).

(** The table after some readings of the clock of a request. *)
Definition aged (A A' : locks) : Prop := A' = A ∨ ∃ i, A' = expire (clock i) A.

(** ** Temporary locks *)

Definition temp_details (name : gostr) : LockDetails :=
  {| Root := slashClean name; Duration := infiniteTimeout; OwnerXML := []; ZeroDepth := true |}.

Definition temp_lock (name : gostr) : WebdavLockSpec.lock :=
  {| lk_details := temp_details name; lk_expiry := None; lk_held := false |}.

Definition add_temp (name tok : gostr) (A : locks) : locks :=
  if bool_decide (name = #"") then A else <[tok := temp_lock name]> A.

(** No lock of the table is in the way of a temporary lock on the name. *)
Definition unlocked (A : locks) (name : gostr) : Prop :=
  name ≠ #"" → ¬ blocked A (temp_details name).

Lemma temp_live now name : live now (temp_lock name).
Proof. by right. Qed.

Lemma expire_add_temp now name tok A :
  expire now (add_temp name tok A) = add_temp name tok (expire now A).
Proof. unfold add_temp. case_bool_decide; [done|]. apply expire_insert_live, temp_live. Qed.

(** Taking the temporary lock of a name, if there is one. *)
Lemma lock_opt_ok now name w A :
  rep (w_locks w) A → gen (w_locks w) < max_uint64 →
  ∃ res w', (if bool_decide (name = #"") then dav_ret (inr #"") else lock now name) w = Ret (res, w') ∧
    w_calls w' = w_calls w ∧ w_header w' = w_header w ∧
    match res with
    | inl e => name ≠ #"" ∧ e = (StatusLocked, LockErr ErrLocked) ∧ blocked (expire now A) (temp_details name) ∧
               rep (w_locks w') (expire now A)
    | inr tok => (name = #"" ∧ tok = #"" ∧ w' = w) ∨
        (name ≠ #"" ∧ tok ≠ #"" ∧ unlocked (expire now A) name ∧ expire now A !! tok = None ∧
         rep (w_locks w') (add_temp name tok (expire now A)) ∧ gen (w_locks w') = gen (w_locks w) + 1)
    end.
Proof.
  intros Hr Hg. case_bool_decide as Hn.
  { exists (inr []), w. split_ands; try done. by left. }
  unfold lock, dav_bind, on_locks, dav_ret.
  set (det := {| Root := name; Duration := _; OwnerXML := _; ZeroDepth := _ |}).
  destruct (Create_ok (w_locks w) A now det Hr Hg) as (m'&r&->&Hm).
  change (set_Root (slashClean (Root det)) det) with (temp_details name) in Hm.
  destruct r as [e|tok]; do 2 eexists; (split; [reflexivity|]); split_ands; try done.
  - destruct Hm as (->&Hb&Hr'&_). split_ands; done.
  - destruct Hm as (Hb&->&Hf&Hr'&_&Hg'). right. split_ands; try done.
    + apply FormatUint_nonempty. pose proof (rep_gen _ _ Hr) as [? _]. lia.
    + by intros _.
    + unfold add_temp. rewrite bool_decide_false by done. exact Hr'.
Qed.

(** Giving it back. *)
Lemma unlock_token_ok now name tok w A :
  rep (w_locks w) (add_temp name tok A) → (name = #"" ↔ tok = #"") → (name ≠ #"" → A !! tok = None) →
  expire now A = A →
  ∃ w', unlock_token now tok w = Ret ((), w') ∧ w_calls w' = w_calls w ∧ w_header w' = w_header w ∧
        rep (w_locks w') A.
Proof.
  intros Hr Hnt Hf He. unfold unlock_token, add_temp in *. destruct (decide (tok = #"")) as [Ht|Ht].
  { rewrite bool_decide_true in Hr by tauto. rewrite bool_decide_true by done. by exists w. }
  rewrite bool_decide_false in Hr by tauto. rewrite bool_decide_false by done.
  unfold dav_bind, on_locks, dav_ret.
  destruct (Unlock_ok _ _ now tok Hr) as (m'&r&->&Hm&_).
  rewrite expire_insert_live, lookup_insert_eq in Hm by apply temp_live. simpl in Hm.
  destruct Hm as [-> Hr']. eexists. split; [reflexivity|]. split_ands; [done|done|].
  simpl. rewrite delete_insert_id in Hr'; [by rewrite He in Hr'|]. rewrite He. tauto.
Qed.

Lemma expire_idemp now A : expire now (expire now A) = expire now A.
Proof. by apply expire_expire. Qed.

(** [f] gives the locks of [m] back, which leaves the table [A]. *)
Definition releases (f : release_fn) (m : memLS) (A : locks) : Prop :=
  ∀ w, w_locks w = m →
  ∃ w', run_release f w = Ret ((), w') ∧ w_calls w' = w_calls w ∧ w_header w' = w_header w ∧
        rep (w_locks w') A.

Lemma lock_temp_ok src dst w A :
  rep (w_locks w) A → gen (w_locks w) + 1 < max_uint64 →
  ∃ res w', lock_temp clock src dst w = Ret (res, w') ∧
    w_calls w' = w_calls w ∧ w_header w' = w_header w ∧
    match res with
    | inl _ => ∃ A', aged A A' ∧ rep (w_locks w') A'
    | inr f =>
        unlocked (expire (clock 0) A) src ∧ unlocked (expire (clock 0) A) dst ∧
        ∃ A', aged A A' ∧ releases f (w_locks w') A'
    end.
Proof.
  intros Hr Hg. unfold lock_temp. cbv zeta. unfold dav_bind at 1.
  set (now := clock 0). assert (Hag : aged A (expire now A)) by (right; by exists 0%nat).
  destruct (lock_opt_ok now src w A Hr) as (s&w1&->&Hc1&Hh1&Hs); [lia|].
  destruct s as [e|ts].
  { destruct Hs as (_&_&_&Hr'). exists (inl e), w1. split_ands; try done. eauto. }
  assert (∃ B, rep (w_locks w1) (add_temp src ts B) ∧ aged A B ∧ expire now B = expire now A ∧
    (src ≠ #"" → B = expire now A) ∧ (src = #"" ↔ ts = #"") ∧ (src ≠ #"" → B !! ts = None) ∧
    unlocked (expire now A) src ∧ gen (w_locks w1) < max_uint64)
    as (B&Hr1&HB&HeB&HBs&Hts&Hf1&Hu1&Hg1).
  { destruct Hs as [(->&->&->)|(Hn&Ht&Hu&Hf&Hr1&Hg1)].
    - exists A. split_ands; try done; [by left|by intros []|lia].
    - exists (expire now A). rewrite expire_idemp. split_ands; try done; try tauto; lia. }
  unfold dav_bind at 1.
  destruct (lock_opt_ok now dst w1 _ Hr1 Hg1) as (d&w2&->&Hc2&Hh2&Hd).
  rewrite expire_add_temp, HeB in Hd.
  destruct d as [e|td].
  - destruct Hd as (_&_&_&Hr2). unfold dav_bind, dav_ret.
    destruct (unlock_token_ok now src ts w2 (expire now A)) as (w3&->&Hc3&Hh3&Hr3);
      [done|done|intros Hn; by rewrite <- HBs, Hf1|apply expire_idemp|].
    exists (inl e), w3. split_ands; [done|congruence|congruence|]. eauto.
  - exists (inr (ReleaseTemp now td ts)), w2. do 3 (split; [done || congruence|]).
    split; [done|]. destruct Hd as [(->&->&->)|(Hn&Ht&Hu&Hf&Hr2&_)].
    + split; [by intros []|]. destruct (decide (src = #"")) as [->|Hne].
      * exists B. split; [done|]. rewrite (proj1 Hts eq_refl). intros w0 Hw0. rewrite <- Hw0 in Hr1.
        exists w0. split_ands; try done.
      * exists (expire now A). split; [done|]. rewrite HBs in Hr1, Hf1 by done.
        intros w0 Hw0. rewrite <- Hw0 in Hr1.
        destruct (unlock_token_ok now src ts w0 (expire now A)) as (w3&E&Hc3&Hh3&Hr3);
          [done|done|auto|apply expire_idemp|].
        by exists w3.
    + split.
      { intros _ (t&k&Hk&Hcf). apply Hu; [done|]. exists t, k. split; [|done].
        unfold add_temp. case_bool_decide; [done|]. rewrite lookup_insert_ne; [done|].
        intros <-. rewrite <- HBs, Hf1 in Hk; done. }
      exists (expire now A). split; [done|]. intros w0 Hw0. rewrite <- Hw0 in Hr2.
      destruct (unlock_token_ok now dst td w0 (add_temp src ts (expire now A))) as (w3&E3&Hc3&Hh3&Hr3);
        [done|tauto|done|rewrite expire_add_temp; by rewrite expire_idemp|].
      destruct (unlock_token_ok now src ts w3 (expire now A)) as (w4&E4&Hc4&Hh4&Hr4);
        [done|done|intros Hns; by rewrite <- HBs, Hf1|apply expire_idemp|].
      exists w4. split_ands; [|congruence|congruence|done].
      unfold run_release, dav_bind. by rewrite E3.
Qed.

(** ** Locks the client claims *)

(** The request names, in a list of its If header, live free locks that cover
    the list's resource and the destination. *)
Definition claimed (r : dav_request) (src dst : gostr) (ls : list ifList) (A : locks) : Prop :=
  ∃ l i lsrc t0 t1, l ∈ ls ∧ list_source Prefix r src l = inr (Some lsrc) ∧
    claims (expire (clock i) A) (conditions l) lsrc t0 ∧
    claims (expire (clock i) A) (conditions l) dst t1.

Context (Hclock : ∀ i j, (i ≤ j)%nat → clock i ≤ clock j).

(** The table seen at the [i]-th reading is [A] aged to it. *)
Definition seen_at (A A' : locks) (i : nat) : Prop :=
  A' = A ∨ ∃ j, (j < i)%nat ∧ A' = expire (clock j) A.

Lemma seen_at_expire A A' i : seen_at A A' i → expire (clock i) A' = expire (clock i) A.
Proof. intros [->|(j&Hj&->)]; [done|]. apply expire_expire, Hclock. lia. Qed.

Lemma seen_at_aged A A' i : seen_at A A' i → aged A A'.
Proof. intros [->|(j&_&->)]; [by left|right; eauto]. Qed.

Lemma confirm_lists_ok r src dst ls i w A A' :
  rep (w_locks w) A' → seen_at A A' i →
  ∃ res w', confirm_lists Prefix clock r src dst i ls w = Ret (res, w') ∧
    w_calls w' = w_calls w ∧ w_header w' = w_header w ∧
    match res with
    | inl _ => ∃ A', aged A A' ∧ rep (w_locks w') A'
    | inr f => claimed r src dst ls A ∧ ∃ A', aged A A' ∧ releases f (w_locks w') A'
    end.
Proof.
  revert i w A'. induction ls as [|l ls IH]; intros i w A' Hr Hs; cbn [confirm_lists].
  { eexists (inl _), w. split_ands; try done. exists A'. split; [by eapply seen_at_aged|done]. }
  assert (Hskip : ∀ w' A'' i', rep (w_locks w') A'' → seen_at A A'' i' → w_calls w' = w_calls w →
    w_header w' = w_header w → ∃ res w2,
    confirm_lists Prefix clock r src dst i' ls w' = Ret (res, w2) ∧ w_calls w2 = w_calls w ∧
    w_header w2 = w_header w ∧
    match res with
    | inl _ => ∃ A', aged A A' ∧ rep (w_locks w2) A'
    | inr f => claimed r src dst (l :: ls) A ∧ ∃ A', aged A A' ∧ releases f (w_locks w2) A'
    end).
  { intros w' A'' i' Hr' Hs' Hc Hh. destruct (IH i' w' A'' Hr' Hs') as (res&w2&H1&H2&H3&H4).
    exists res, w2. do 3 (split; [done || congruence|]). destruct res as [|f]; [done|].
    destruct H4 as [(l'&j&lsrc&t0&t1&Hl&Hx) H4]. split; [|done].
    exists l', j, lsrc, t0, t1. split; [by constructor|done]. }
  destruct (list_source Prefix r src l) as [e|[lsrc|]] eqn:El.
  - eexists (inl _), w. split_ands; try done. exists A'. split; [by eapply seen_at_aged|done].
  - unfold dav_bind, on_locks. pose proof (seen_at_expire _ _ _ Hs) as He.
    destruct (Confirm_ok (w_locks w) A' (clock i) lsrc dst (conditions l) Hr) as (m'&c&Hc&_&Hm).
    rewrite Hc. rewrite He in Hm. set (A1 := expire (clock i) A) in *.
    assert (HsS : seen_at A A1 (S i)) by (right; exists i; split; [lia|done]).
    pose proof (confirm_token_claims A1 (conditions l) lsrc) as [Hy0 _].
    pose proof (confirm_token_claims A1 (conditions l) dst) as [Hy1 _].
    destruct (confirm_token A1 lsrc (conditions l)) as [t0|]; [destruct (confirm_token A1 dst (conditions l)) as [t1|]|].
    + destruct Hm as (->&Hf0&Hf1&Hr'). unfold dav_ret.
      eexists (inr _), _. split; [reflexivity|]. split; [done|]. split; [done|]. split.
      * exists l, i, lsrc, t0, t1. split_ands; [by constructor|done|by apply Hy0|by apply Hy1].
      * exists A1. split; [right; by exists i|]. intros w0 Hw0. cbn [w_locks] in Hw0.
        unfold run_release, on_locks. rewrite Hw0.
        destruct (Confirm_undone m' A1 t0 t1 Hf0 Hf1 Hr') as (m''&->&Hr''). eexists. split; [reflexivity|]. done.
    + destruct Hm as [-> Hr']. simpl. by apply (Hskip _ A1 (S i)).
    + destruct Hm as [-> Hr']. simpl. by apply (Hskip _ A1 (S i)).
  - by apply (Hskip w A' i).
Qed.

(** What the locks say about a request before it may write. *)
Definition guarded (r : dav_request) (src dst : gostr) (A : locks) : Prop :=
  let hdr := header_Get (r_Header r) #"If" in
  (hdr = #"" ∧ unlocked (expire (clock 0) A) src ∧ unlocked (expire (clock 0) A) dst) ∨
  (∃ h, parseIfHeader hdr = Some h ∧ claimed r src dst (lists h) A).

Lemma confirmLocks_ok r src dst w A :
  rep (w_locks w) A → gen (w_locks w) + 1 < max_uint64 →
  ∃ res w', confirmLocks Prefix clock r src dst w = Ret (res, w') ∧
    w_calls w' = w_calls w ∧ w_header w' = w_header w ∧
    match res with
    | inl _ => ∃ A', aged A A' ∧ rep (w_locks w') A'
    | inr f => guarded r src dst A ∧ ∃ A', aged A A' ∧ releases f (w_locks w') A'
    end.
Proof.
  intros Hr Hg. unfold confirmLocks, guarded. cbv zeta. case_bool_decide as Hh.
  - destruct (lock_temp_ok src dst w A Hr Hg) as (res&w'&->&Hc&Hh'&Hm). exists res, w'.
    do 3 (split; [done|]). destruct res; [done|]. destruct Hm as (H1&H2&H3). auto.
  - destruct (parseIfHeader _) as [h|].
    + destruct (confirm_lists_ok r src dst (lists h) 0 w A A Hr) as (res&w'&->&Hc&Hh'&Hm); [by left|].
      exists res, w'. do 3 (split; [done|]). destruct res; [done|]. destruct Hm as [H1 H2]. eauto 10.
    + eexists (inl _), w. do 3 (split; [done|]). exists A. split; [by left|done].
Qed.

(** The part of a handler that does not touch the lock table. *)
Definition no_locks {A} (m : dav A) : Prop :=
  ∀ w, ∃ a w', m w = Ret (a, w') ∧ w_locks w' = w_locks w.

Lemma no_locks_ret {A} (a : A) : no_locks (dav_ret a).
Proof. intros w. by exists a, w. Qed.

Lemma no_locks_bind {A B} (m : dav A) (k : A → dav B) :
  no_locks m → (∀ a, no_locks (k a)) → no_locks (dav_bind m k).
Proof.
  intros Hm Hk w. unfold dav_bind. destruct (Hm w) as (a&w1&->&H1). destruct (Hk a w1) as (b&w2&->&H2).
  exists b, w2. split; [done|congruence].
Qed.

Lemma no_locks_fs c : no_locks (fs_do c).
Proof. intros w. by eexists _, _. Qed.

Lemma no_locks_out k v : no_locks (set_out k v).
Proof. intros w. by eexists _, _. Qed.

Lemma no_locks_etag p o : no_locks (set_etag p o).
Proof.
  apply no_locks_bind; [apply no_locks_fs|]. intros e w. destruct (findETag _ _ _); by eexists _, _.
Qed.

Lemma no_locks_path p k : (∀ p, no_locks (k p)) → no_locks (with_path user p k).
Proof. intros Hk. unfold with_path. destruct (resolve user p); [apply no_locks_ret|apply Hk]. Qed.

Create HintDb dav.
#[local] Hint Resolve no_locks_ret no_locks_fs no_locks_out no_locks_etag no_locks_path : dav.

(** Walk through the code of a handler. *)
Ltac no_locks :=
  repeat first
    [ progress eauto with dav
    | apply no_locks_path; intros ?
    | apply no_locks_bind; [|intros ?]
    | match goal with |- no_locks (match ?x with _ => _ end) => destruct x end ].

Lemma no_locks_move src dst : no_locks (moveFiles user src dst).
Proof. unfold moveFiles. cbv zeta. no_locks. Qed.

Lemma no_locks_copy src dst : no_locks (copyFiles src dst).
Proof. unfold copyFiles. no_locks. Qed.

(** A handler gives back the locks it takes, and calls nothing without them. *)
Definition disciplined (r : dav_request) (scope : gostr → gostr → Prop) (m : dav reply) : Prop :=
  ∀ w A, rep (w_locks w) A → gen (w_locks w) + 1 < max_uint64 →
  ∃ res w' A', m w = Ret (res, w') ∧ aged A A' ∧ rep (w_locks w') A' ∧
    (w_calls w' = w_calls w ∨ ∃ src dst, scope src dst ∧ guarded r src dst A).

Lemma disciplined_ret r P a : disciplined r P (dav_ret a).
Proof. intros w A Hr Hg. exists a, w, A. split_ands; [done|by left|done|by left]. Qed.

Lemma disciplined_locks r src dst (P : gostr → gostr → Prop) body :
  P src dst → no_locks body → disciplined r P (with_locks Prefix clock r src dst body).
Proof.
  intros HP Hb w A Hr Hg. unfold with_locks, dav_bind at 1.
  destruct (confirmLocks_ok r src dst w A Hr Hg) as (c&w1&->&Hc&_&Hm).
  destruct c as [[st e]|f].
  - destruct Hm as (A'&Ha&Hr'). exists (st, Some e), w1, A'. split_ands; [done..|by left].
  - destruct Hm as (Hgd&A'&Ha&Hrel). unfold dav_bind.
    destruct (Hb w1) as (res&w2&->&Hl). destruct (Hrel w2 Hl) as (w3&->&Hc3&_&Hr3).
    exists res, w3, A'. split_ands; [done..|]. right. by exists src, dst.
Qed.

Lemma disciplined_stripped r P p k :
  (∀ q, stripPrefix Prefix p = inr q → disciplined r P (k q)) → disciplined r P (with_stripped Prefix p k).
Proof. intros Hk. unfold with_stripped. destruct (stripPrefix Prefix p) as [[st e]|q]; [apply disciplined_ret|auto]. Qed.

Lemma disciplined_path r P p k :
  (∀ q, resolve user p = inr q → disciplined r P (k q)) → disciplined r P (with_path user p k).
Proof. intros Hk. unfold with_path. destruct (resolve user p); [apply disciplined_ret|auto]. Qed.
End guards.

(** ** Paths a request touches *)

(** The objects a call reads, makes or removes. *)
Definition touched (c : fs_call) : list gostr :=
  match c with
  | FsGet p | FsRemove p | FsMakeDir p => [p]
  | FsPut dir file _ => [path_join dir (obj_Name file)]
  | FsMove src dstDir | FsCopy src dstDir => [src; path_join dstDir (path_Base src)]
  | FsRename p name => [p; path_join (path_Dir p) name]
  end.

(** A computation adds only calls with a property to the log. *)
Definition logs (P : fs_call → Prop) {A} (m : dav A) : Prop :=
  ∀ w a w', m w = Ret (a, w') → ∃ new, w_calls w' = w_calls w ++ new ∧ Forall P new.

Lemma logs_ret P {A} (a : A) : logs P (dav_ret a).
Proof. intros w b w' [= <- <-]. exists []. by rewrite app_nil_r. Qed.

Lemma logs_bind P {A B} (m : dav A) (k : A → dav B) :
  logs P m → (∀ a, logs P (k a)) → logs P (dav_bind m k).
Proof.
  intros Hm Hk w b w'. unfold dav_bind. destruct (m w) as [[a w1]|] eqn:E; [|done].
  intros E2. destruct (Hm _ _ _ E) as (n1&H1&F1), (Hk _ _ _ _ E2) as (n2&H2&F2).
  exists (n1 ++ n2). rewrite H2, H1, <- app_assoc. split; [done|]. by apply Forall_app.
Qed.

Lemma logs_fs {FS : Fs} (P : fs_call → Prop) c : P c → logs P (fs_do c).
Proof. intros Hc w a w' [= <- <-]. exists [c]. by split; [|constructor]. Qed.

Lemma logs_silent P {A} (m : dav A) :
  (∀ w a w', m w = Ret (a, w') → w_calls w' = w_calls w) → logs P m.
Proof. intros Hm w a w' E. exists []. rewrite app_nil_r. split; [by eapply Hm|done]. Qed.

Lemma logs_locks P {A} (f : memLS → outcome (memLS * A)) : logs P (on_locks f).
Proof.
  apply logs_silent. intros w a w'. unfold on_locks. destruct (f _) as [[m b]|]; [|done]. by intros [= <- <-].
Qed.

Lemma logs_out P k v : logs P (set_out k v).
Proof. apply logs_silent. by intros w a w' [= <- <-]. Qed.

Lemma logs_etag {FS : Fs} (P : fs_call → Prop) p o : P (FsGet p) → logs P (set_etag p o).
Proof.
  intros Hp. apply logs_bind; [by apply logs_fs|]. intros e w a w' E.
  destruct (findETag _ _ _); injection E as <- <-; exists []; by rewrite app_nil_r.
Qed.

Create HintDb dav_logs.
#[export] Hint Resolve logs_ret logs_locks logs_out logs_etag logs_fs : dav_logs.

(** Walk through the code down to its calls. *)
Ltac logs :=
  repeat first
    [ progress eauto with dav_logs
    | apply logs_bind; [|intros ?]
    | match goal with |- logs _ (match ?x with _ => _ end) => destruct x eqn:? end ].

Section log.
Context {FS : Fs} {UL : UrlLib} {RS : RoleStore}.
Context (Prefix : gostr) (user : User) (clock : nat → Z).

Lemma logs_release P f : logs P (run_release f).
Proof. unfold run_release, unlock_token. logs. Qed.

Lemma logs_confirm_lists P r src dst ls i : logs P (confirm_lists Prefix clock r src dst i ls).
Proof. revert i. induction ls as [|l ls IH]; intros i; simpl; logs. Qed.

Lemma logs_confirm P r src dst : logs P (confirmLocks Prefix clock r src dst).
Proof.
  pose proof (logs_confirm_lists P). unfold confirmLocks, lock_temp, lock, unlock_token. cbv zeta. logs.
Qed.

Lemma logs_with_locks P r src dst m : logs P m → logs P (with_locks Prefix clock r src dst m).
Proof.
  intros Hm. pose proof (logs_confirm P). pose proof (logs_release P).
  unfold with_locks. logs.
Qed.

Lemma logs_stripped P p k :
  (∀ q, stripPrefix Prefix p = inr q → logs P (k q)) → logs P (with_stripped Prefix p k).
Proof. intros Hk. unfold with_stripped. destruct (stripPrefix Prefix p) as [[]|]; eauto with dav_logs. Qed.

Lemma logs_path P p k :
  (∀ q, resolve user p = inr q → logs P (k q)) → logs P (with_path user p k).
Proof. intros Hk. unfold with_path. destruct (resolve user p); eauto with dav_logs. Qed.

(** The methods that only change locks. *)
Lemma logs_lock_methods P r : logs P (handleLock Prefix user clock r) ∧ logs P (handleUnlock clock r).
Proof.
  split.
  - unfold handleLock. destruct (parseTimeout _); [|apply logs_ret].
    destruct (r_LockInfo r) as [[]|[owner|]]; [apply logs_ret| |].
    + unfold lock_create. cbv zeta. destruct (negb _ && _); [apply logs_ret|].
      apply logs_stripped. intros p _. apply logs_path. intros q _. logs.
    + unfold lock_refresh. cbv zeta. logs.
  - unfold handleUnlock. cbv zeta. logs.
Qed.
End log.

(** *** Resolved paths *)

Section confined.
Context {FS : Fs} {UL : UrlLib} {RS : RoleStore}.
Context (Prefix : gostr) (user : User) (clock : nat → Z).

Abbreviation base := (path_segs (BasePath user)).

Definition below_base (p : gostr) : Prop := IsSubPath (BasePath user) p = true.
Definition confined (c : fs_call) : Prop := Forall below_base (touched c).

Lemma resolve_segs p q : resolve user p = inr q → q = render (path_segs q) ∧ base `prefix_of` path_segs q.
Proof.
  unfold resolve. rewrite ResolvePath_rel. intros (Hs&Hc&_)%JoinPath_ok.
  split; [by rewrite <- FixAndCleanPath_segs|]. rewrite Hs. by eexists.
Qed.

Lemma below_render l : Forall good_seg l → base `prefix_of` l → below_base (render l).
Proof. intros Hg Hp. apply IsSubPath_segs. by rewrite path_segs_render. Qed.

Lemma below_resolved p q : resolve user p = inr q → below_base q.
Proof. intros (E&Hp)%resolve_segs. by apply IsSubPath_segs. Qed.

(** A resolved path that is not the base path is a child of a path below it. *)
Lemma resolve_child p q :
  resolve user p = inr q → path_segs q ≠ base →
  ∃ l w, q = render (l ++ [w]) ∧ base `prefix_of` l ∧ Forall good_seg l ∧ good_seg w.
Proof.
  intros (E&m&Hm)%resolve_segs Hne. pose proof (path_segs_good q) as Hg. rewrite Hm in E, Hg.
  destruct m as [|w m _] using rev_ind; [by rewrite app_nil_r in Hm|].
  rewrite app_assoc in E, Hg. apply Forall_app in Hg as [Hg Hw].
  exists (base ++ m), w. split_ands; [done|by eexists|done|by apply Forall_singleton].
Qed.

Lemma child_parts l w :
  Forall good_seg l → good_seg w →
  path_Dir (render (l ++ [w])) = render l ∧ path_Base (render (l ++ [w])) = w ∧
  path_join (render l) w = render (l ++ [w]).
Proof.
  intros Hl Hw. apply good_norm in Hl. destruct Hw as [Hw _].
  split_ands; [by apply path_Dir_render|by apply path_Base_render|by apply path_join_name].
Qed.

(** With the root as base path everything is below it. *)
Lemma below_root p : base = [] → below_base p.
Proof. intros Hb. apply IsSubPath_segs. rewrite Hb. apply prefix_nil. Qed.

(** The name of the source put in a directory below the base. *)
Lemma below_join_base p src l :
  resolve user p = inr src → base `prefix_of` l → Forall good_seg l →
  below_base (path_join (render l) (path_Base src)).
Proof.
  intros Hs Hl Hg. destruct (decide (base = [])) as [Hb|Hb]; [by apply below_root|].
  apply resolve_segs in Hs as (E&Hp). pose proof (path_segs_good src) as Hgs.
  destruct (path_segs src) as [|w m _] using rev_ind.
  { apply prefix_nil_inv in Hp. done. }
  apply Forall_app in Hgs as [Hgm Hw%Forall_inv]. rewrite E.
  destruct (child_parts m w Hgm Hw) as (_&->&_). destruct (child_parts l w Hg Hw) as (_&_&->).
  apply below_render; [by apply Forall_app; auto|]. by apply prefix_app_r.
Qed.

Lemma confined_put p q mime r t1 t2 :
  resolve user p = inr q → base = [] ∨ path_segs q ≠ base →
  confined (FsPut (path_Dir q) (put_object r t1 t2 q) mime).
Proof.
  intros Hq Hb. apply Forall_singleton. destruct Hb as [Hb|Hb]; [by apply below_root|].
  pose proof (below_resolved _ _ Hq). destruct (resolve_child _ _ Hq Hb) as (l&w&->&Hl&Hg&Hw).
  cbn [put_object obj_Name]. destruct (child_parts l w Hg Hw) as (->&->&->). done.
Qed.

Lemma confined_parent p q :
  resolve user p = inr q → base = [] ∨ path_segs q ≠ base → confined (FsGet (path_Dir q)).
Proof.
  intros Hq Hb. apply Forall_singleton. destruct Hb as [Hb|Hb]; [by apply below_root|].
  destruct (resolve_child _ _ Hq Hb) as (l&w&->&Hl&Hg&Hw).
  destruct (child_parts l w Hg Hw) as (->&_). by apply below_render.
Qed.

Lemma confined_into p src q dst :
  resolve user p = inr src → resolve user q = inr dst → base = [] ∨ path_segs dst ≠ base →
  confined (FsCopy src (path_Dir dst)) ∧ confined (FsMove src (path_Dir dst)).
Proof.
  intros Hs Hd Hb. assert (Forall below_base [src; path_join (path_Dir dst) (path_Base src)]); [|done].
  constructor; [by eapply below_resolved|]. apply Forall_singleton.
  destruct Hb as [Hb|Hb]; [by apply below_root|].
  destruct (resolve_child _ _ Hd Hb) as (l&w&->&Hl&Hg&Hw). destruct (child_parts l w Hg Hw) as (->&_).
  by eapply below_join_base.
Qed.

(** Renaming in the directory of the destination gives the destination. *)
Lemma confined_rename p src q dst :
  resolve user p = inr src → resolve user q = inr dst → base = [] ∨ path_segs dst ≠ base →
  (path_Dir src = path_Dir dst → confined (FsRename src (path_Base dst))) ∧
  confined (FsRename (path_join (path_Dir dst) (path_Base src)) (path_Base dst)).
Proof.
  intros Hs Hd Hb. unfold confined. simpl. destruct Hb as [Hb|Hb].
  { split; [intros _|]; repeat constructor; by apply below_root. }
  pose proof (below_resolved _ _ Hs) as Hbs. pose proof (below_resolved _ _ Hd) as Hbd.
  destruct (resolve_child _ _ Hd Hb) as (l&w&->&Hl&Hg&Hw).
  pose proof (below_join_base _ _ _ Hs Hl Hg) as Hj.
  destruct (child_parts l w Hg Hw) as (ED&EB&EJ). rewrite ED, EB. split.
  - intros ->. rewrite EJ. by repeat constructor.
  - constructor; [done|]. apply Forall_singleton.
    destruct (decide (base = [])) as [Hb0|Hb0]; [by apply below_root|].
    apply resolve_segs in Hs as (E&Hp). pose proof (path_segs_good src) as Hgs.
    destruct (path_segs src) as [|v m _] using rev_ind; [by apply prefix_nil_inv in Hp|].
    apply Forall_app in Hgs as [Hgm Hv%Forall_inv]. rewrite E.
    destruct (child_parts m v Hgm Hv) as (_&->&_). destruct (child_parts l v Hg Hv) as (_&_&->).
    destruct (child_parts l v Hg Hv) as (->&_). by rewrite EJ.
Qed.

(** *** Handlers *)

(** A path that resolves to the user's base path itself. *)
Definition names_base (p : gostr) : Prop :=
  ∃ q x, stripPrefix Prefix p = inr q ∧ resolve user q = inr x ∧ path_segs x = base.

(** The request makes or replaces the base path itself. *)
Definition targets_base (r : dav_request) : Prop :=
  (r_Method r ∈ [ #"PUT"; #"MKCOL"] ∧ names_base (r_URL_Path r)) ∨
  (r_Method r ∈ [ #"COPY"; #"MOVE"] ∧
   ∃ host p, url_Parse (header_Get (r_Header r) #"Destination") = Some (host, p) ∧ names_base p).

Lemma not_base p q x :
  base = [] ∨ ¬ names_base p → stripPrefix Prefix p = inr q → resolve user q = inr x →
  base = [] ∨ path_segs x ≠ base.
Proof. intros [?|H] Hq Hx; [by left|right]. intros E. apply H. by exists q, x. Qed.

Lemma logs_delete r : logs confined (handleDelete Prefix user clock r).
Proof.
  unfold handleDelete. apply logs_stripped. intros p Hp. apply logs_with_locks, logs_path. intros q Hq.
  assert (confined (FsGet q) ∧ confined (FsRemove q)) as [H1 H2]
    by (split; apply Forall_singleton; by eapply below_resolved). logs.
Qed.

Lemma logs_put r t1 t2 :
  base = [] ∨ ¬ names_base (r_URL_Path r) → logs confined (handlePut Prefix user clock t1 t2 r).
Proof.
  intros Hb. unfold handlePut. apply logs_stripped. intros p Hp. case_bool_decide; [apply logs_ret|].
  apply logs_with_locks, logs_path. intros q Hq. cbv zeta.
  assert (confined (FsGet q)) by (apply Forall_singleton; by eapply below_resolved).
  pose proof (confined_put p q (put_mimetype r q) r t1 t2 Hq (not_base _ _ _ Hb Hp Hq)). logs.
Qed.

Lemma logs_mkcol r :
  base = [] ∨ ¬ names_base (r_URL_Path r) → logs confined (handleMkcol Prefix user clock r).
Proof.
  intros Hb. unfold handleMkcol. apply logs_stripped. intros p Hp.
  apply logs_with_locks, logs_path. intros q Hq.
  assert (confined (FsGet q) ∧ confined (FsMakeDir q)) as [H1 H2]
    by (split; apply Forall_singleton; by eapply below_resolved).
  pose proof (confined_parent p q Hq (not_base _ _ _ Hb Hp Hq)). logs.
Qed.

Lemma logs_copy_or_move r p src q dst :
  resolve user p = inr src → resolve user q = inr dst → base = [] ∨ path_segs dst ≠ base →
  logs confined (copy_or_move Prefix user clock r src dst).
Proof.
  intros Hs Hd Hb. destruct (confined_into _ _ _ _ Hs Hd Hb) as [H1 H2].
  destruct (confined_rename _ _ _ _ Hs Hd Hb) as [H3 H4].
  assert (logs confined (moveFiles user src dst)).
  { unfold moveFiles. cbv zeta. repeat (case_bool_decide; simpl); logs. }
  unfold copy_or_move. cbv zeta. case_bool_decide; apply logs_with_locks; unfold copyFiles; logs.
Qed.

Lemma logs_copymove r :
  base = [] ∨ (∀ host p, url_Parse (header_Get (r_Header r) #"Destination") = Some (host, p) → ¬ names_base p) →
  logs confined (handleCopyMove Prefix user clock r).
Proof.
  intros Hb. unfold handleCopyMove. cbv zeta. case_bool_decide; [apply logs_ret|].
  destruct (url_Parse _) as [[host p]|] eqn:Eu; [|apply logs_ret].
  destruct (negb _ && _); [apply logs_ret|]. apply logs_stripped. intros s Hs. apply logs_stripped. intros d Hd.
  do 2 (case_bool_decide; [apply logs_ret|]).
  apply logs_path. intros src Hsrc. apply logs_path. intros dst Hdst.
  apply (logs_copy_or_move r s src d dst); [done|done|].
  apply (not_base p d dst); [|done|done]. destruct Hb as [?|Hb]; [by left|right; by eapply Hb].
Qed.

Lemma serve_write_confined t1 t2 r h :
  serve_write Prefix user clock t1 t2 r = Some h → base = [] ∨ ¬ targets_base r → logs confined h.
Proof.
  intros Hh Hb. revert Hh. unfold serve_write. cbv zeta.
  destruct (logs_lock_methods Prefix user clock confined r) as [HL HU].
  repeat case_bool_decide; simpl; intros [= <-];
    first [apply logs_delete | apply logs_put | apply logs_mkcol | apply logs_copymove | exact HL | exact HU];
    destruct Hb as [?|Hb]; try (by left); right; try (intros host p Hp); intros Hn; apply Hb.
  all: first [left; split; [|done] | right; split; [|by eauto]].
  all: match goal with H : r_Method _ = _ |- _ => rewrite H; decide_now end.
Qed.
End confined.

(** ** Permissions *)

(** One bit of each list must be set for the method. *)
Definition required (method : gostr) : list (list Z) :=
  if bool_decide (method = #"PUT" ∨ method = #"MKCOL") then [[PermWebdavManage]; [PermWrite]]
  else if bool_decide (method = #"MOVE") then [[PermWebdavManage]; [PermMove; PermRename]]
  else if bool_decide (method = #"COPY") then [[PermWebdavManage]; [PermCopy]]
  else if bool_decide (method = #"DELETE") then [[PermWebdavManage]; [PermRemove]]
  else if bool_decide (method = #"PROPPATCH") then [[PermWebdavManage]]
  else [].

Definition permits (perm : Z) (method : gostr) : bool :=
  forallb (existsb (HasPermission perm)) (required method).

Lemma method_denied_permits method perm : method_denied method perm = negb (permits perm method).
Proof.
  unfold method_denied, permits, required. cbv zeta. generalize (HasPermission perm) as has. intros has.
  repeat (case_bool_decide; subst; simpl; try (by destruct_or!));
    repeat match goal with |- context [has ?b] => destruct (has b); simpl end; try done; tauto.
Qed.

Section authorised.
Context {AE : AuthEnv} {FS : Fs} {UL : UrlLib} {RS : RoleStore}.

(** The user proved its identity by name and password, or as the
    administrator by the token. *)
Definition authenticated (c : auth_request) (u : User) : Prop :=
  (∃ name password, a_BasicAuth c = Some (name, password) ∧ GetUserByName name = inr u ∧
     ValidateRawPassword u password = None ∧ Disabled u = false) ∨
  (a_BasicAuth c = None ∧ conf_Token ≠ #"" ∧
   TrimPrefix (a_Authorization c) #"Bearer " = conf_Token ∧ GetAdmin = inr u).

Lemma check_device_Next c u v : check_device c u = Next (Some v) → u = v.
Proof. unfold check_device. destruct (device_Handle _ _ _); [done|]. by intros [= ->]. Qed.

Lemma auth_user_Next c u v :
  a_Method c ≠ #"OPTIONS" → a_Method c ≠ #"PROPFIND" → auth_user c u = Next (Some v) →
  u = v ∧ Disabled u = false ∧
  ∃ p, ResolvePath (Some GetRole) u (default [] (PathUnescape (if bool_decide (a_Path c = #"") then #"/" else a_Path c))) = inr p ∧
    HasPermission (MergeRolePermissions (Some u) p) PermWebdavRead = true ∧
    permits (MergeRolePermissions (Some u) p) (a_Method c) = true.
Proof.
  intros Ho Hp. unfold auth_user. cbv zeta. destruct (ResolvePath _ _ _) as [|p]; [done|].
  rewrite (bool_decide_false (_ = #"OPTIONS")), (bool_decide_false (_ = #"PROPFIND")) by done.
  simpl. rewrite andb_true_r. destruct (Disabled u); [done|]. simpl.
  destruct (HasPermission _ PermWebdavRead) eqn:Er; [|done]. simpl.
  rewrite method_denied_permits. destruct (permits _ _) eqn:Em; [|done]. simpl.
  intros ->%check_device_Next. split_ands; [done|done|]. by exists p.
Qed.

Lemma WebDAVAuth_Next c u :
  a_Method c ≠ #"OPTIONS" → a_Method c ≠ #"PROPFIND" → WebDAVAuth c = Next (Some u) →
  authenticated c u ∧
  (a_BasicAuth c ≠ None →
   ∃ p, ResolvePath (Some GetRole) u (default [] (PathUnescape (if bool_decide (a_Path c = #"") then #"/" else a_Path c))) = inr p ∧
    HasPermission (MergeRolePermissions (Some u) p) PermWebdavRead = true ∧
    permits (MergeRolePermissions (Some u) p) (a_Method c) = true).
Proof.
  intros Ho Hp. unfold WebDAVAuth, authenticated. destruct (a_BasicAuth c) as [[name password]|].
  - rewrite (bool_decide_false (_ = #"OPTIONS")) by done.
    destruct (GetUserByName name) as [|v] eqn:En; [done|]. destruct (ValidateRawPassword v password) eqn:Ev; [done|].
    intros (->&Hd&Hx)%auth_user_Next; [|done|done]. split; [left; by exists name, password|done].
  - unfold auth_token. rewrite (bool_decide_false (_ = #"OPTIONS")) by done. cbv zeta.
    destruct (HasPrefix _ _); [|done]. destruct (negb _ && _) eqn:Et; [|done]. reflect_bools.
    destruct GetAdmin as [|v]; [done|]. intros ->%check_device_Next. split; [right|done]. by split_ands.
Qed.

(** *** The object a request works on *)

(** The call starts from [p]; a rename may also be that of the object a MOVE
    has just put in another directory. *)
Definition works_on (p : gostr) (c : fs_call) : Prop :=
  match c with
  | FsGet _ => True
  | FsRemove q | FsMakeDir q | FsMove q _ | FsCopy q _ => q = p
  | FsPut dir file _ => dir = path_Dir p ∧ obj_Name file = path_Base p
  | FsRename q _ => q = p ∨ ∃ dir, q = path_join dir (path_Base p)
  end.

Context (Prefix : gostr) (clock : nat → Z).

(** The steps every handler starts with. *)
Lemma works_start u r q p (k : gostr → dav reply) :
  stripPrefix Prefix (r_URL_Path r) = inr q → resolve u q = inr p →
  logs (works_on p) (k p) →
  logs (works_on p) (with_stripped Prefix (r_URL_Path r) (λ q, with_locks Prefix clock r q #"" (with_path u q k))).
Proof.
  intros Hq Hp Hk. unfold with_stripped. rewrite Hq. apply logs_with_locks. unfold with_path. by rewrite Hp.
Qed.

Lemma works_copymove u r q p :
  stripPrefix Prefix (r_URL_Path r) = inr q → resolve u q = inr p →
  logs (works_on p) (handleCopyMove Prefix u clock r).
Proof.
  intros Hq Hp. unfold handleCopyMove, with_stripped at 1. cbv zeta. rewrite Hq.
  case_bool_decide; [apply logs_ret|]. destruct (url_Parse _) as [[host d]|]; [|apply logs_ret].
  destruct (negb _ && _); [apply logs_ret|]. apply logs_stripped. intros d' _.
  do 2 (case_bool_decide; [apply logs_ret|]). unfold with_path at 1. rewrite Hp.
  apply logs_path. intros dst _. unfold copy_or_move, copyFiles, moveFiles. cbv zeta.
  assert (∀ dir, works_on p (FsMove p dir)) as Hm by done.
  assert (∀ dir, works_on p (FsCopy p dir)) as Hc by done.
  assert (∀ n, works_on p (FsRename p n)) as Hr1 by (intros; by left).
  assert (∀ dir n, works_on p (FsRename (path_join dir (path_Base p)) n)) as Hr2 by (intros; right; by eexists).
  case_bool_decide; apply logs_with_locks; logs.
Qed.

Lemma serve_write_works_on u t1 t2 r h q p :
  serve_write Prefix u clock t1 t2 r = Some h → stripPrefix Prefix (r_URL_Path r) = inr q →
  resolve u q = inr p → logs (works_on p) h.
Proof.
  intros Hh Hq Hp. revert Hh. unfold serve_write. cbv zeta.
  destruct (logs_lock_methods Prefix u clock (works_on p) r) as [HL HU].
  assert (works_on p (FsRemove p) ∧ works_on p (FsMakeDir p)) as [H1 H2] by done.
  assert (∀ x, works_on p (FsGet x)) as H3 by done.
  assert (∀ o m, obj_Name o = path_Base p → works_on p (FsPut (path_Dir p) o m)) as H4 by done.
  repeat case_bool_decide; simpl; intros [= <-]; try exact HL; try exact HU;
    try (by apply (works_copymove u r q p)).
  - apply (works_start u r q p); [done|done|]. logs.
  - unfold handlePut, with_stripped. rewrite Hq. case_bool_decide; [apply logs_ret|].
    apply logs_with_locks. unfold with_path. rewrite Hp. cbv zeta. logs.
  - apply (works_start u r q p); [done|done|]. logs.
Qed.
End authorised.

(** ** Which locks a request needs *)

Section scope.
Context {FS : Fs} {UL : UrlLib} {RS : RoleStore}.
Context (Prefix : gostr) (user : User) (clock : nat → Z).
Context (Hclock : ∀ i j, (i ≤ j)%nat → clock i ≤ clock j).

(** The names whose locks are confirmed: the path as the client wrote it for
    DELETE, PUT and MKCOL, the resolved paths for COPY and MOVE. *)
Inductive lock_scope (r : dav_request) : gostr → gostr → Prop :=
  | scope_target q :
      r_Method r = #"DELETE" ∨ r_Method r = #"PUT" ∨ r_Method r = #"MKCOL" →
      stripPrefix Prefix (r_URL_Path r) = inr q → lock_scope r q #""
  | scope_copy host d q dst :
      r_Method r = #"COPY" → url_Parse (header_Get (r_Header r) #"Destination") = Some (host, d) →
      stripPrefix Prefix d = inr q → resolve user q = inr dst → lock_scope r #"" dst
  | scope_move host d s src q dst :
      r_Method r = #"MOVE" → url_Parse (header_Get (r_Header r) #"Destination") = Some (host, d) →
      stripPrefix Prefix (r_URL_Path r) = inr s → resolve user s = inr src →
      stripPrefix Prefix d = inr q → resolve user q = inr dst → lock_scope r src dst.

Definition file_method (m : gostr) : bool :=
  bool_decide (m ∈ [ #"DELETE"; #"PUT"; #"MKCOL"; #"COPY"; #"MOVE"]).

Ltac walk :=
  repeat first
    [ apply no_locks_ret | apply no_locks_fs | apply no_locks_etag | apply no_locks_move | apply no_locks_copy
    | apply no_locks_path; intros ?
    | apply no_locks_bind; [|intros ?]
    | match goal with |- no_locks (match ?x with _ => _ end) => destruct x end ].

Lemma disciplined_copymove r :
  r_Method r = #"COPY" ∨ r_Method r = #"MOVE" →
  disciplined Prefix clock r (lock_scope r) (handleCopyMove Prefix user clock r).
Proof.
  intros Hm. unfold handleCopyMove. cbv zeta. case_bool_decide; [apply disciplined_ret|].
  destruct (url_Parse _) as [[host d]|] eqn:Eu; [|apply disciplined_ret].
  destruct (negb _ && _); [apply disciplined_ret|].
  apply disciplined_stripped. intros s Hs. apply disciplined_stripped. intros q Hq.
  do 2 (case_bool_decide; [apply disciplined_ret|]).
  apply disciplined_path. intros src Hsrc. apply disciplined_path. intros dst Hdst.
  unfold copy_or_move. cbv zeta. case_bool_decide as Hc.
  - apply disciplined_locks; [done|by eapply scope_copy|walk].
  - apply disciplined_locks; [done|eapply scope_move; try done; tauto|walk].
Qed.

Lemma serve_write_disciplined t1 t2 r h :
  file_method (r_Method r) = true → serve_write Prefix user clock t1 t2 r = Some h →
  disciplined Prefix clock r (lock_scope r) h.
Proof.
  intros Hm%bool_decide_eq_true. unfold serve_write. cbv zeta.
  repeat case_bool_decide; simpl; intros [= <-];
    try (apply disciplined_copymove; by auto); try (exfalso; set_solver).
  - apply disciplined_stripped. intros q Hq. apply disciplined_locks; [done|by apply scope_target; auto|walk].
  - apply disciplined_stripped. intros q Hq. case_bool_decide; [apply disciplined_ret|].
    apply disciplined_locks; [done|by apply scope_target; auto|walk].
  - apply disciplined_stripped. intros q Hq. apply disciplined_locks; [done|by apply scope_target; auto|walk].
Qed.
End scope.

(** ** Theorems *)

(** C6. A DELETE, PUT, MKCOL, COPY or MOVE always returns and leaves the lock
    table as it was, apart from locks that expired; and it calls package [fs]
    only after the check of locks that the code makes.  The names that are
    checked ([lock_scope]) are the path as it stands in the URL for DELETE, PUT
    and MKCOL, and the resolved paths for COPY (its destination) and MOVE.
    Without an If header no live lock is in the way of these names; with one,
    some list of it claims live free locks that cover the resource the list is
    tagged with (the name, when it has no tag) and the destination
    ([guarded]).  This is not protection of every locked object: a list that is
    tagged with another resource is checked against that resource only, and
    for a base path other than the root LOCK locks the resolved path while PUT,
    DELETE and MKCOL look for the one in the URL ([dav_locks_bypassed]). *)
Theorem dav_write_guarded {FS : Fs} {UL : UrlLib} {RS : RoleStore} Prefix user clock t1 t2 r h w s now0 :
  (∀ i j, (i ≤ j)%nat → clock i ≤ clock j) →
  rtc sys_step (sys_init now0) s → w_locks w = sys_ls s → gen (sys_ls s) + 1 < max_uint64 →
  file_method (r_Method r) = true → serve_write Prefix user clock t1 t2 r = Some h →
  ∃ reply w', h w = Ret (reply, w') ∧
    aged clock (locks_of (w_locks w)) (locks_of (w_locks w')) ∧
    (w_calls w' = w_calls w ∨
     ∃ src dst, lock_scope Prefix user r src dst ∧ guarded Prefix clock r src dst (locks_of (w_locks w))).
Proof.
  intros Hc Hs Hw Hg Hm Hh. apply reachable_rep in Hs. rewrite <- Hw in Hs, Hg.
  destruct (serve_write_disciplined Prefix user clock Hc t1 t2 r h Hm Hh w _ Hs Hg)
    as (res&w'&A'&E&Ha&Hr'&Hx).
  exists res, w'. split; [done|]. split; [by rewrite (locks_of_rep _ _ Hr')|done].
Qed.

(** Every object a WebDAV request reads, makes, moves or removes lies at
    or below the user's base path, unless the base path itself is what it
    would make or replace. *)
Theorem dav_calls_confined {FS : Fs} {UL : UrlLib} {RS : RoleStore} Prefix user clock t1 t2 r h w reply w' :
  serve_write Prefix user clock t1 t2 r = Some h →
  path_segs (BasePath user) = [] ∨ ¬ targets_base Prefix user r →
  h w = Ret (reply, w') →
  ∃ new, w_calls w' = w_calls w ++ new ∧
    ∀ c p, c ∈ new → p ∈ touched c → IsSubPath (BasePath user) p = true.
Proof.
  intros Hh Hb E. destruct (serve_write_confined Prefix user clock t1 t2 r h Hh Hb _ _ _ E) as (new&Hn&Hf).
  exists new. split; [done|]. intros c p Hc Hp. rewrite Forall_forall in Hf. specialize (Hf c Hc).
  unfold confined in Hf. rewrite Forall_forall in Hf. by apply Hf.
Qed.

Lemma stripPrefix_app Prefix p : stripPrefix Prefix (Prefix ++ p) = inr p.
Proof.
  unfold stripPrefix. case_bool_decide as Hp; [by rewrite Hp|]. cbv zeta.
  unfold TrimPrefix. rewrite HasPrefix_app, drop_app_length, length_app.
  destruct (Nat.ltb_spec (length p) (length Prefix + length p)); [done|]. destruct Prefix; [done|]. simpl in *. lia.
Qed.

(** C18. A request that passed [WebDAVAuth] by user name and password, and whose
    path has no percent sign, works on an object at which a user with that
    password, who is not disabled, has the permission to read over WebDAV and
    those its method needs.  With a percent sign in the path the middleware
    unescapes what was unescaped already and asks for the permissions at
    another path than the one the handler works on ([dav_checks_bypassed]). *)
Theorem dav_write_authorised {AE : AuthEnv} {FS : Fs} {UL : UrlLib} {RS : RoleStore}
    Prefix u clock t1 t2 r c h w reply w' :
  ("%"%char ∉ a_Path c) → r_URL_Path r = Prefix ++ a_Path c → a_Method c = r_Method r →
  a_BasicAuth c ≠ None → WebDAVAuth c = Next (Some u) →
  serve_write Prefix u clock t1 t2 r = Some h → h w = Ret (reply, w') →
  authenticated c u ∧
  ∃ p new, resolve u (a_Path c) = inr p ∧ w_calls w' = w_calls w ++ new ∧ Forall (works_on p) new ∧
    HasPermission (MergeRolePermissions (Some u) p) PermWebdavRead = true ∧
    permits (MergeRolePermissions (Some u) p) (r_Method r) = true.
Proof.
  intros Hpc Hpath Hm Hba Hn Hh E.
  assert (a_Method c ≠ #"OPTIONS" ∧ a_Method c ≠ #"PROPFIND") as [H1 H2]
    by (rewrite Hm; split; intros H; unfold serve_write in Hh; rewrite H in Hh; discriminate Hh).
  destruct (WebDAVAuth_Next c u H1 H2 Hn) as [Ha Hp]. split; [done|].
  destruct (Hp Hba) as (p&Hr&Hread&Hperm).
  assert (resolve u (a_Path c) = inr p) as Hres.
  { revert Hr. case_bool_decide as He.
    - rewrite He. done.
    - by rewrite PathUnescape_plain by done. }
  assert (stripPrefix Prefix (r_URL_Path r) = inr (a_Path c)) as Hst by (rewrite Hpath; apply stripPrefix_app).
  destruct (serve_write_works_on Prefix clock u t1 t2 r h _ p Hh Hst Hres _ _ _ E) as (new&Hc&Hf).
  exists p, new. rewrite <- Hm. by split_ands.
Qed.

(** ** Example: a server whose file operations all succeed *)

Module DavExample.
#[export] Instance ok_fs : Fs := {|
  fs_answer := λ _ _, None;
  findETag := λ _ _ _, inr #"etag";
  GetMimeType := λ _, #"application/octet-stream";
  os_IsNotExist := λ _, false;
|}.

(** URLs of the server [h], and URLs without a scheme and a host. *)
#[export] Instance path_url : UrlLib := λ s,
  if HasPrefix s #"http://h/" then Some ( #"h", drop 8 s) else Some ([], s).

(** A role for [/pub] with the bits for WebDAV (read and manage), write, copy. *)
#[export] Instance pub_role : RoleStore := λ id,
  if id =? 5 then
    inr {| role_ID := 5; role_Name := #"pub"; role_Description := []; role_Default := false;
           PermissionScopes := [ {| pe_Path := #"/pub"; pe_Permission := 840 |} ] |}
  else inl (EMessage #"role not found").

Definition user_at (base : gostr) : User :=
  {| user_ID := 7; Username := #"bob"; PwdHash := HashPwd (StaticHash #"pw") []; PwdTS := 0; Salt := [];
     Password := []; BasePath := base; user_Role := [5]; Disabled := false;
     Permission := 0; OtpSecret := []; SsoID := []; Authn := [] |}.

#[export] Instance bob_env (base : gostr) : AuthEnv := {|
  conf_Token := #"secret";
  GetGuest := None;
  GetAdmin := inl (EMessage #"no admin");
  GetUserByName := λ name, if bool_decide (name = #"bob") then inr (user_at base) else inl (EMessage #"no user");
  device_Handle := λ _ _ _, None;
|}.

Definition req (method path : gostr) (hdr : header) : dav_request :=
  {| r_Method := method; r_URL_Path := #"/dav" ++ path; r_Host := #"h"; r_Header := hdr;
     r_ContentLength := 0; r_LockInfo := inr (Some #"owner") |}.

Definition auth (method path : gostr) : auth_request :=
  {| a_Method := method; a_BasicAuth := Some ( #"bob", #"pw"); a_Authorization := []; a_Path := path;
     a_UserAgent := []; a_ClientIP := [] |}.

Definition world0 : world := {| w_locks := NewMemLS 0; w_calls := []; w_header := ∅ |}.

Definition clock0 (i : nat) : Z := 10.

(** The reply to a request and the calls it makes. *)
Definition run (base : gostr) (r : dav_request) (w : world) : option (reply * world) :=
  h ← serve_write #"/dav" (user_at base) clock0 0 0 r;
  match h w with Ret x => Some x | Panic => None end.

Definition outcome_of (x : option (reply * world)) : option (reply * list fs_call) :=
  prod_map id w_calls <$> x.

Definition world_of (x : option (reply * world)) : world := from_option snd world0 x.
End DavExample.
Import DavExample.

(** Three ways around a lock.  With a base path other than the root, LOCK
    takes the lock under the resolved path while PUT, DELETE and MKCOL look for
    it under the path as the client wrote it: another client's PUT succeeds on
    the locked file, and the owner's PUT with the lock token fails.  And with a
    resource tag in the If header only the tagged resource is checked: the
    holder of a lock on one file deletes another client's locked file. *)
Theorem dav_locks_bypassed :
  let w1 := world_of (run #"/home/bob" (req #"LOCK" #"/f" ∅) world0) in
  let put hdr := outcome_of (run #"/home/bob" (req #"PUT" #"/f" hdr) w1) in
  let w2 := world_of (run #"/" (req #"LOCK" #"/g" ∅) (world_of (run #"/" (req #"LOCK" #"/f" ∅) world0))) in
  w_header w1 !! #"Lock-Token" = Some [ #"<1>"] ∧
  (∃ o m, put ∅ = Some ((StatusCreated, None), [FsPut #"/home/bob" o m; FsGet #"/home/bob/f"])) ∧
  put {[ #"If" := [ #"(<1>)"] ]} = Some ((StatusPreconditionFailed, Some (LockErr ErrLocked)), []) ∧
  lk_root <$> (locks_of (w_locks w2) !! #"1") = Some #"/f" ∧
  outcome_of (run #"/" (req #"DELETE" #"/f" {[ #"If" := [ #"<http://h/dav/g> (<2>)"] ]}) w2)
    = Some ((StatusNoContent, None), [FsGet #"/f"; FsRemove #"/f"]).
Proof.
  cbv zeta. split; [vm_compute; reflexivity|]. split; [do 2 eexists; vm_compute; reflexivity|].
  split; [vm_compute; reflexivity|]. split; vm_compute; reflexivity.
Qed.

(** Three ways around the confinement and the permissions.  A COPY whose
    destination is the user's root writes beside the base path; the
    permissions at the destination of a COPY are not checked; and since
    [WebDAVAuth] unescapes the path once more than the handler, a PUT passes
    with the permissions of another path than the one it writes to. *)
Theorem dav_checks_bypassed :
  (∃ w, run #"/home/bob" (req #"COPY" #"/f" {[ #"Destination" := [ #"/dav/"] ]}) world0
        = Some ((StatusCreated, None), w) ∧ w_calls w = [FsCopy #"/home/bob/f" #"/home"]) ∧
  IsSubPath #"/home/bob" #"/home/f" = false ∧
  (∃ w, run #"/" (req #"COPY" #"/pub/f" {[ #"Destination" := [ #"/dav/secret/f"] ]}) world0
        = Some ((StatusCreated, None), w) ∧ w_calls w = [FsCopy #"/pub/f" #"/secret"]) ∧
  MergeRolePermissions (Some (user_at #"/")) #"/secret/f" = 0 ∧
  WebDAVAuth (AE := bob_env #"/") (auth #"COPY" #"/pub/f") = Next (Some (user_at #"/")) ∧
  let p := #"/secret/x%2f..%2f..%2fpub" in
  MergeRolePermissions (Some (user_at #"/")) p = 0 ∧
  WebDAVAuth (AE := bob_env #"/") (auth #"PUT" p) = Next (Some (user_at #"/")) ∧
  ∃ o m w, run #"/" (req #"PUT" p ∅) world0 = Some ((StatusCreated, None), w) ∧
    w_calls w = [FsPut #"/secret" o m; FsGet p].
Proof.
  split; [eexists; split; vm_compute; reflexivity|]. split; [vm_compute; reflexivity|].
  split; [eexists; split; vm_compute; reflexivity|]. split; [vm_compute; reflexivity|].
  split; [vm_compute; reflexivity|]. cbv zeta. split; [vm_compute; reflexivity|].
  split; [vm_compute; reflexivity|]. do 3 eexists. split; vm_compute; reflexivity.
Qed.

Lemma dav_write_guarded_witness :
  ∃ reply w', run #"/home" (req #"PUT" #"/f" ∅) world0 = Some (reply, w') ∧
    aged clock0 (locks_of (w_locks world0)) (locks_of (w_locks w')).
Proof.
  destruct (dav_write_guarded #"/dav" (user_at #"/home") clock0 0 0 (req #"PUT" #"/f" ∅)
    (handlePut #"/dav" (user_at #"/home") clock0 0 0 (req #"PUT" #"/f" ∅)) world0 (sys_init 0) 0)
    as (reply&w'&E&Ha&_); [done|apply rtc_refl|reflexivity|vm_compute; reflexivity|reflexivity|reflexivity|].
  exists reply, w'. split; [|exact Ha]. unfold run. simpl. by rewrite E.
Defined.

Lemma dav_write_authorised_witness :
  ∃ p, resolve (user_at #"/") #"/pub/f" = inr p ∧
    HasPermission (MergeRolePermissions (Some (user_at #"/")) p) PermWebdavRead = true.
Proof.
  assert (∃ reply w', handlePut #"/dav" (user_at #"/") clock0 0 0 (req #"PUT" #"/pub/f" ∅) world0 = Ret (reply, w'))
    as (reply&w'&E) by (do 2 eexists; vm_compute; reflexivity).
  destruct (dav_write_authorised (AE := bob_env #"/") #"/dav" (user_at #"/") clock0 0 0 (req #"PUT" #"/pub/f" ∅)
    (auth #"PUT" #"/pub/f") (handlePut #"/dav" (user_at #"/") clock0 0 0 (req #"PUT" #"/pub/f" ∅)) world0 reply w') as (_&p&new&Hp&_&_&Hr&_).
  - decide_now.
  - reflexivity.
  - reflexivity.
  - discriminate.
  - vm_compute. reflexivity.
  - reflexivity.
  - exact E.
  - exists p. split; [exact Hp|exact Hr].
Defined.
