(* ===== verification/Serve.v ===== *)
(** * Serving a file over HTTP: [internal/net/util.go] and [internal/net/serve.go]

    The conditional-request checks of RFC 7232 and [ServeHTTP], which answers
    a request with a whole file, one range or a multipart body.  The content
    is behind [RangeRead], the driver's range reader: a parameter.  HTTP dates
    and the table of MIME types belong to the standard library and the
    operating system and are parameters too. *)

From S2P Require Import Prelude GoStrings HttpRange.

Local Open Scope Z_scope.

(** ** Requests and responses *)

Record request := { req_Method : gostr; req_Header : header }.

(** The status code is the first one written. *)
Record response := { rw_Header : header; rw_code : option Z; rw_body : gostr }.

Definition req_del (k : gostr) (r : request) : request :=
  {| req_Method := req_Method r; req_Header := delete k (req_Header r) |}.

Definition set_header (k v : gostr) (w : response) : response :=
  {| rw_Header := <[k := [v]]> (rw_Header w); rw_code := rw_code w; rw_body := rw_body w |}.
Definition del_header (k : gostr) (w : response) : response :=
  {| rw_Header := delete k (rw_Header w); rw_code := rw_code w; rw_body := rw_body w |}.
Definition WriteHeader (code : Z) (w : response) : response :=
  {| rw_Header := rw_Header w;
     rw_code := match rw_code w with Some c => Some c | None => Some code end;
     rw_body := rw_body w |}.
Definition write_body (b : gostr) (w : response) : response :=
  {| rw_Header := rw_Header w; rw_code := rw_code w; rw_body := rw_body w ++ b |}.

Definition lf : gostr := ["010"%char].
Definition crlf : gostr := ["013"%char; "010"%char].

(** [http.Error] *)
Definition http_Error (msg : gostr) (code : Z) (w : response) : response :=
  let w := del_header #"Content-Length" w in
  let w := set_header #"Content-Type" #"text/plain; charset=utf-8" w in
  let w := set_header #"X-Content-Type-Options" #"nosniff" w in
  write_body (msg ++ lf) (WriteHeader code w).

Definition StatusOK : Z := 200.
Definition StatusPartialContent : Z := 206.
Definition StatusNotModified : Z := 304.
Definition StatusPreconditionFailed : Z := 412.
Definition StatusRequestedRangeNotSatisfiable : Z := 416.
Definition StatusTooManyRequests : Z := 429.
Definition StatusInternalServerError : Z := 500.

(** ** ETags *)

Definition quote : ascii := "034"%char.

(** The characters allowed inside an ETag. *)
Definition etag_char (c : ascii) : bool :=
  let v := byte_val c in (v =? 33) || ((35 <=? v) && (v <=? 126)) || (128 <=? v).

(** The loop of [scanETag], from index [i] on. *)
Fixpoint scan_etag (s : gostr) (i : Z) (rest : gostr) : gostr * gostr :=
  match rest with
  | [] => ([], [])
  | c :: rest' =>
      if etag_char c then scan_etag s (i + 1) rest'
      else if bool_decide (c = quote) then (slice_to s (i + 1), slice_from s (i + 1))
      else ([], [])
  end.

Definition scanETag (s : gostr) : gostr * gostr :=
  let s := TrimString s in
  let start := if HasPrefix s #"W/" then 2 else 0 in
  let tail := slice_from s start in
  if Z.of_nat (length tail) <? 2 then ([], [])
  else
    match tail with
    | c :: rest => if negb (bool_decide (c = quote)) then ([], []) else scan_etag s (start + 1) rest
    | [] => ([], [])
    end.

Definition etagStrongMatch (a b : gostr) : bool :=
  bool_decide (a = b) && negb (bool_decide (a = [])) && bool_decide (head a = Some quote).

Definition etagWeakMatch (a b : gostr) : bool :=
  bool_decide (TrimPrefix a #"W/" = TrimPrefix b #"W/").

(** ** Conditions *)

Inductive condResult := condNone | condTrue | condFalse.

#[export] Instance condResult_eq_dec : EqDecision condResult.
Proof. solve_decision. Defined.

(** The list loop of [If-Match] and [If-None-Match]: is there a [*] or an ETag
    that satisfies [test]?  Each iteration consumes a byte. *)
Fixpoint etag_list (fuel : nat) (test : gostr → bool) (buf : gostr) : bool :=
  match fuel with
  | 0%nat => false
  | S fuel =>
      let buf := TrimString buf in
      match buf with
      | [] => false
      | c :: buf' =>
          if bool_decide (c = ","%char) then etag_list fuel test buf'
          else if bool_decide (c = "*"%char) then true
          else
            let '(etag, remain) := scanETag buf in
            if bool_decide (etag = []) then false
            else if test etag then true
            else etag_list fuel test remain
      end
  end.

Definition checkIfMatch (w : response) (r : request) : condResult * request :=
  let im := header_Get (req_Header r) #"If-Match" in
  if bool_decide (im = #"") then (condNone, r)
  else
    let r := req_del #"If-Match" r in
    (if etag_list (S (length im)) (λ etag, etagStrongMatch etag (header_Get (rw_Header w) #"Etag")) im
     then condTrue else condFalse, r).

Definition checkIfNoneMatch (w : response) (r : request) : condResult * request :=
  let inm := header_Get (req_Header r) #"If-None-Match" in
  if bool_decide (inm = #"") then (condNone, r)
  else
    let r := req_del #"If-None-Match" r in
    (if etag_list (S (length inm)) (λ etag, etagWeakMatch etag (header_Get (rw_Header w) #"Etag")) inm
     then condFalse else condTrue, r).

(** Times are nanoseconds since the Unix epoch; Go's zero time is in year 1. *)
Definition zeroTime : Z := -62135596800000000000.

Definition isZeroTime (t : Z) : bool := (t =? zeroTime) || (t =? 0).

Definition Truncate_second (t : Z) : Z := t - t mod 1000000000.

(** HTTP dates, as [http.ParseTime] reads and [http.TimeFormat] writes them. *)
Class HttpDate := {
  ParseTime : gostr → option Z;
  FormatTime : Z → gostr;
}.

(** What the driver's range reader can answer. *)
Inductive read_error := ErrExceedMaxConcurrency | ReadError (msg : gostr).

#[export] Instance read_error_eq_dec : EqDecision read_error.
Proof. solve_decision. Defined.

Definition read_error_msg (e : read_error) : gostr :=
  match e with
  | ErrExceedMaxConcurrency => #"ExceedMaxConcurrency"
  | ReadError msg => msg
  end.

Section serve.
Context {HD : HttpDate}.

Definition is_get_or_head (r : request) : bool :=
  bool_decide (req_Method r = #"GET") || bool_decide (req_Method r = #"HEAD").

Definition checkIfUnmodifiedSince (r : request) (modtime : Z) : condResult * request :=
  let ius := header_Get (req_Header r) #"If-Unmodified-Since" in
  if bool_decide (ius = #"") then (condNone, r)
  else
    let r := req_del #"If-Unmodified-Since" r in
    if isZeroTime modtime then (condNone, r)
    else
      match ParseTime ius with
      | None => (condNone, r)
      | Some t => (if Truncate_second modtime <=? t then condTrue else condFalse, r)
      end.

Definition checkIfModifiedSince (r : request) (modtime : Z) : condResult * request :=
  if negb (is_get_or_head r) then (condNone, r)
  else
    let ims := header_Get (req_Header r) #"If-Modified-Since" in
    if bool_decide (ims = #"") then (condNone, r)
    else
      let r := req_del #"If-Modified-Since" r in
      if isZeroTime modtime then (condNone, r)
      else
        match ParseTime ims with
        | None => (condNone, r)
        | Some t => (if Truncate_second modtime <=? t then condFalse else condTrue, r)
        end.

Definition checkIfRange (w : response) (r : request) (modtime : Z) : condResult * request :=
  if negb (is_get_or_head r) then (condNone, r)
  else
    let ir := header_Get (req_Header r) #"If-Range" in
    if bool_decide (ir = #"") then (condNone, r)
    else
      let r := req_del #"If-Range" r in
      let '(etag, _) := scanETag ir in
      if negb (bool_decide (etag = #"")) then
        (if etagStrongMatch etag (header_Get (rw_Header w) #"Etag") then condTrue else condFalse, r)
      else if modtime =? zeroTime then (condFalse, r)
      else
        match ParseTime ir with
        | None => (condFalse, r)
        | Some t => (if t / 1000000000 =? modtime / 1000000000 then condTrue else condFalse, r)
        end.

Definition setLastModified (modtime : Z) (w : response) : response :=
  if negb (isZeroTime modtime) then set_header #"Last-Modified" (FormatTime modtime) w else w.

Definition writeNotModified (w : response) : response :=
  let w := del_header #"Content-Type" w in
  let w := del_header #"Content-Length" w in
  let w := del_header #"Content-Encoding" w in
  let w := if negb (bool_decide (header_Get (rw_Header w) #"Etag" = #""))
           then del_header #"Last-Modified" w else w in
  WriteHeader StatusNotModified w.

(** [inl]: the precondition settled the response.  [inr]: the range header. *)
Definition checkPreconditions (w : response) (r : request) (modtime : Z)
    : response * request * option gostr :=
  let '(ch, r) := checkIfMatch w r in
  let '(ch, r) := if bool_decide (ch = condNone) then checkIfUnmodifiedSince r modtime else (ch, r) in
  if bool_decide (ch = condFalse) then (WriteHeader StatusPreconditionFailed w, r, None)
  else
    let '(cn, r) := checkIfNoneMatch w r in
    match cn with
    | condFalse =>
        if is_get_or_head r then (writeNotModified w, r, None)
        else (WriteHeader StatusPreconditionFailed w, r, None)
    | condNone =>
        let '(cm, r) := checkIfModifiedSince r modtime in
        if bool_decide (cm = condFalse) then (writeNotModified w, r, None)
        else
          let rangeHeader := header_Get (req_Header r) #"Range" in
          if bool_decide (rangeHeader = #"") then (w, r, Some #"")
          else
            let '(cr, r) := checkIfRange w r modtime in
            (w, r, Some (if bool_decide (cr = condFalse) then #"" else rangeHeader))
    | condTrue =>
        let rangeHeader := header_Get (req_Header r) #"Range" in
        if bool_decide (rangeHeader = #"") then (w, r, Some #"")
        else
          let '(cr, r) := checkIfRange w r modtime in
          (w, r, Some (if bool_decide (cr = condFalse) then #"" else rangeHeader))
    end.

(** ** Multipart bodies *)

Definition sumRangesSize (ranges : list Range) : Z :=
  fold_left (λ size ra, wrap64 (size + Length ra)) ranges 0.

(** [multipart.Writer]: the text before a part (headers in key order), and
    the closing line. *)
Definition part_header (boundary : gostr) (first : bool) (ra : Range) (contentType : gostr) (size : Z)
    : gostr :=
  (if first then [] else crlf) ++ #"--" ++ boundary ++ crlf
    ++ #"Content-Range: " ++ ContentRange ra size ++ crlf
    ++ #"Content-Type: " ++ contentType ++ crlf ++ crlf.

Definition closing_line (boundary : gostr) : gostr := crlf ++ #"--" ++ boundary ++ #"--" ++ crlf.

(** The bytes counted by [countingWriter] and the sum of the ranges: writing
    to the counter never fails. *)
Fixpoint mime_size (boundary : gostr) (first : bool) (ranges : list Range) (contentType : gostr)
    (size w encSize : Z) : Z * Z :=
  match ranges with
  | [] => (w, encSize)
  | ra :: ranges' =>
      mime_size boundary false ranges' contentType size
        (wrap64 (w + Z.of_nat (length (part_header boundary first ra contentType size))))
        (wrap64 (encSize + Length ra))
  end.

Definition rangesMIMESize (boundary : gostr) (ranges : list Range) (contentType : gostr) (size : Z) : Z :=
  let '(w, encSize) := mime_size boundary true ranges contentType size 0 0 in
  let w := wrap64 (w + Z.of_nat (length (closing_line boundary))) in
  wrap64 (encSize + w).

(** ** [ServeHTTP] *)

(** [RangeRead] with the remaining request headers: the bytes the reader
    yields before its end.  [mime_type] is [mime.TypeByExtension] of the
    name's extension; [boundary1] and [boundary2] are the random boundaries
    of the two multipart writers. *)
Context (RangeRead : header → Range → read_error + gostr).
Context (mime_type : gostr → gostr) (boundary1 boundary2 : gostr).

(** The writing goroutine: what reaches the pipe, until the first error. *)
Fixpoint multipart_body (hdr : header) (first : bool) (ranges : list Range) (contentType : gostr)
    (size : Z) : gostr :=
  match ranges with
  | [] => closing_line boundary2
  | ra :: ranges' =>
      part_header boundary2 first ra contentType size ++
      match RangeRead hdr ra with
      | inl _ => []
      | inr content =>
          take (Z.to_nat (Length ra)) content ++
          if Z.of_nat (length content) <? Length ra then []
          else multipart_body hdr false ranges' contentType size
      end
  end.

Definition range_error_msg (e : range_error) : gostr :=
  match e with
  | ErrNoOverlap => #"invalid range: failed to overlap"
  | ErrInvalid => #"invalid range"
  end.

(** The code an unreadable range is answered with. *)
Definition read_error_code (e : read_error) : Z :=
  if bool_decide (e = ErrExceedMaxConcurrency) then StatusTooManyRequests
  else StatusRequestedRangeNotSatisfiable.

(** [w.Write] of the first [sendSize] bytes; [true] when all were there. *)
Definition send (r : request) (code sendSize : Z) (content : gostr) (w : response)
    : response * bool :=
  let w := set_header #"Accept-Ranges" #"bytes" w in
  let w := if bool_decide (header_Get (rw_Header w) #"Content-Encoding" = #"")
           then set_header #"Content-Length" (FormatInt sendSize) w else w in
  let w := WriteHeader code w in
  if negb (bool_decide (req_Method r = #"HEAD")) then
    let w := write_body (take (Z.to_nat sendSize) content) w in
    if Z.of_nat (length content) <? sendSize
    then (WriteHeader StatusInternalServerError w, false)
    else (w, true)
  else (w, true).

(** The ranges to serve, or the answer to an unusable header. *)
Definition usable_ranges (rangeReq : gostr) (size : Z) (w : response) : response + list Range :=
  match ParseRange rangeReq size with
  | inr ranges => inr (if size <? sumRangesSize ranges then [] else ranges)
  | inl ErrNoOverlap =>
      if size =? 0 then inr []
      else
        let w := set_header #"Content-Range" (#"bytes */" ++ FormatInt size) w in
        inl (http_Error (range_error_msg ErrNoOverlap) StatusRequestedRangeNotSatisfiable w)
  | inl ErrInvalid =>
      inl (http_Error (range_error_msg ErrInvalid) StatusRequestedRangeNotSatisfiable w)
  end.

(** The content type and the response with its header set. *)
Definition content_type (name : gostr) (w : response) : gostr * response :=
  match rw_Header w !! #"Content-Type" with
  | None =>
      let contentType := mime_type name in
      let contentType :=
        if bool_decide (contentType = #"") then #"application/octet-stream" else contentType in
      (contentType, set_header #"Content-Type" contentType w)
  | Some (t :: _) => (t, w)
  | Some [] => (#"", w)
  end.

(** The boolean is false when [ServeHTTP] returns the copy error. *)
Definition ServeHTTP (w : response) (r : request) (name : gostr) (modTime size : Z)
    : response * bool :=
  let w := setLastModified modTime w in
  match checkPreconditions w r modTime with
  | (w, _, None) => (w, true)
  | (w, r, Some rangeReq) =>
      if size <? 0 then
        (http_Error #"negative content size not supported" StatusInternalServerError w, true)
      else
        let '(contentType, w) := content_type name w in
        match usable_ranges rangeReq size w with
        | inl w => (w, true)
        | inr [] =>
            match RangeRead (req_Header r) (mkRange 0 (-1)) with
            | inl e => (http_Error (read_error_msg e) (read_error_code e) w, true)
            | inr content => send r StatusOK size content w
            end
        | inr [ra] =>
            match RangeRead (req_Header r) ra with
            | inl e => (http_Error (read_error_msg e) (read_error_code e) w, true)
            | inr content =>
                let w := set_header #"Content-Range" (ContentRange ra size) w in
                send r StatusPartialContent (Length ra) content w
            end
        | inr ranges =>
            let sendSize := rangesMIMESize boundary1 ranges contentType size in
            let w := set_header #"Content-Type" (#"multipart/byteranges; boundary=" ++ boundary2) w in
            send r StatusPartialContent sendSize
              (multipart_body (req_Header r) true ranges contentType size) w
        end
  end.

End serve.

(** ** Facts: lists of ETags *)

Lemma trim_left_head P c s : P c = false → trim_left P (c :: s) = c :: s.
Proof. intros Hc. simpl. by rewrite Hc. Qed.

Lemma trim_both_ends P c s d t :
  c :: s = t ++ [d] → P c = false → P d = false → trim_both P (c :: s) = c :: s.
Proof.
  intros E Hc Hd. unfold trim_both. rewrite trim_left_head by done. rewrite E.
  rewrite reverse_app. simpl. rewrite Hd. rewrite reverse_cons. by rewrite reverse_involutive.
Qed.

Definition plain_etag (w : gostr) : Prop := Forall (λ c, etag_char c = true) w.

(** A syntactically valid ETag: strong or weak. *)
Definition valid_etag (e : gostr) : Prop :=
  ∃ weak w, plain_etag w ∧ e = (if (weak : bool) then #"W/" else []) ++ [quote] ++ w ++ [quote].

Lemma scan_etag_app s i w rest :
  plain_etag w →
  scan_etag s i (w ++ quote :: rest)
  = (slice_to s (i + Z.of_nat (length w) + 1), slice_from s (i + Z.of_nat (length w) + 1)).
Proof.
  revert i. induction w as [|c w IH]; intros i Hw.
  - cbn [app scan_etag length]. change (etag_char quote) with false. cbv iota.
    rewrite bool_decide_true by done. by replace (i + Z.of_nat 0 + 1) with (i + 1) by lia.
  - apply Forall_cons in Hw as [Hc Hw]. cbn [app scan_etag length]. rewrite Hc, IH by done.
    by replace (i + 1 + Z.of_nat (length w) + 1) with (i + Z.of_nat (S (length w)) + 1) by lia.
Qed.

Lemma scanETag_valid e rest :
  valid_etag e → TrimString (e ++ rest) = e ++ rest → scanETag (e ++ rest) = (e, rest).
Proof.
  intros (weak&w&Hw&->) Ht. unfold scanETag. rewrite Ht.
  set (pre := if weak then #"W/" else []). set (s := (pre ++ [quote] ++ w ++ [quote]) ++ rest).
  assert (Hs : s = pre ++ quote :: w ++ quote :: rest).
  { unfold s. by rewrite <- !app_assoc. }
  assert (Hstart : (if HasPrefix s #"W/" then 2 else 0) = Z.of_nat (length pre)).
  { rewrite Hs. unfold pre. by destruct weak. }
  rewrite Hstart. replace (slice_from s (Z.of_nat (length pre))) with (quote :: w ++ quote :: rest)
    by (rewrite Hs; by rewrite slice_from_app).
  rewrite (proj2 (Z.ltb_ge _ _)) by (simpl; rewrite length_app; simpl; lia).
  rewrite bool_decide_true by done. cbn [negb]. rewrite scan_etag_app by done.
  set (n := Z.of_nat (length pre) + 1 + Z.of_nat (length w) + 1).
  assert (Hn : n = Z.of_nat (length (pre ++ [quote] ++ w ++ [quote]))).
  { unfold n. rewrite !length_app. simpl. lia. }
  unfold s. rewrite Hn, slice_to_app. by rewrite slice_from_app.
Qed.

Lemma valid_etag_ends e :
  valid_etag e → ∃ c s t, e = c :: s ∧ e = t ++ [quote] ∧ is_http_space c = false ∧
    c ≠ ","%char ∧ c ≠ "*"%char.
Proof.
  intros (weak&w&_&->). destruct weak; simpl.
  - exists "W"%char, ("/"%char :: quote :: w ++ [quote]), ("W"%char :: "/"%char :: quote :: w).
    split_ands; done.
  - exists quote, (w ++ [quote]), (quote :: w). split_ands; done.
Qed.

Definition etag_sep : gostr := #", ".

Lemma join_etags_ends e es :
  Forall valid_etag (e :: es) →
  ∃ t, Join etag_sep (e :: es) = t ++ [quote].
Proof.
  revert e. induction es as [|e' es IH]; intros e He.
  - apply Forall_cons in He as [He _]. destruct (valid_etag_ends e He) as (_&_&t&_&->&_). by exists t.
  - apply Forall_cons in He as [_ He]. destruct (IH e' He) as [t Ht].
    rewrite Join_cons by done. rewrite Ht. exists (e ++ etag_sep ++ t). by rewrite <- !app_assoc.
Qed.

Lemma Trim_ends c s t :
  c :: s = t ++ [quote] → is_http_space c = false → TrimString (c :: s) = c :: s.
Proof. intros E Hc. by eapply trim_both_ends. Qed.

Lemma etag_list_join fuel test e es :
  Forall valid_etag (e :: es) → (length (Join etag_sep (e :: es)) < fuel)%nat →
  etag_list fuel test (Join etag_sep (e :: es)) = existsb test (e :: es).
Proof.
  revert fuel e. induction es as [|e' es IH]; intros fuel e He Hf.
  all: destruct fuel as [|fuel]; [lia|].
  all: destruct (join_etags_ends e _ He) as [t Ht].
  all: pose proof He as [Hv Hvs]%Forall_cons.
  all: destruct (valid_etag_ends e Hv) as (c&s&_&Hes&_&Hsp&Hco&Hst).
  - cbn [Join] in *. cbn [etag_list]. rewrite Hes in *. rewrite (Trim_ends c s t) by done.
    rewrite !bool_decide_false by done. rewrite <- Hes in *.
    rewrite <- (app_nil_r e) at 1. rewrite scanETag_valid; [|done|].
    + rewrite bool_decide_false by (by rewrite Hes). cbn [existsb]. rewrite orb_false_r.
      destruct (test e); [done|]. by destruct fuel.
    + rewrite app_nil_r, Hes. by eapply Trim_ends; [rewrite <- Hes|].
  - rewrite Join_cons in * by done. set (rest := Join etag_sep (e' :: es)) in *.
    assert (Htrim : TrimString (e ++ etag_sep ++ rest) = e ++ etag_sep ++ rest).
    { rewrite Hes. rewrite Hes in Ht. by eapply Trim_ends; [exact Ht|]. }
    cbn [etag_list]. rewrite Htrim. replace (e ++ etag_sep ++ rest) with (c :: s ++ etag_sep ++ rest) by by rewrite Hes.
    rewrite !bool_decide_false by done.
    replace (c :: s ++ etag_sep ++ rest) with (e ++ etag_sep ++ rest) by by rewrite Hes.
    rewrite scanETag_valid by done. rewrite bool_decide_false by by rewrite Hes.
    cbn [existsb]. destruct (test e); [done|]. cbn [orb].
    destruct (join_etags_ends e' es Hvs) as [t' Ht'].
    destruct (valid_etag_ends e') as (c'&s'&_&Hes'&_&Hsp'&_); [by apply Forall_cons in Hvs as [? _]|].
    destruct fuel as [|fuel]; [simpl in Hf; rewrite !length_app in Hf; simpl in Hf; lia|].
    assert (Hcomma : TrimString (etag_sep ++ rest) = etag_sep ++ rest).
    { eapply (Trim_ends _ _ (etag_sep ++ t')); [|done]. unfold rest. by rewrite Ht'. }
    cbn [etag_list]. rewrite Hcomma. cbn [etag_sep app]. rewrite bool_decide_true by done.
    assert (Hspace : ∀ f, etag_list f test (" "%char :: rest) = etag_list f test rest).
    { intros f. destruct f as [|f]; [done|]. cbn [etag_list].
      assert (E : TrimString (" "%char :: rest) = TrimString rest) by done. by rewrite E. }
    rewrite Hspace. apply IH; [done|].
    fold rest. simpl in Hf. rewrite !length_app in Hf. simpl in Hf. rewrite Hes in Hf. simpl in Hf. lia.
Qed.

(** ** Facts: sending *)

Definition slice_of (content : gostr) (ra : Range) : gostr :=
  take (Z.to_nat (Length ra)) (drop (Z.to_nat (Start ra)) content).

Lemma slice_of_length content ra :
  in_bounds (Z.of_nat (length content)) ra → Z.of_nat (length (slice_of content ra)) = Length ra.
Proof.
  intros (?&?&?). unfold slice_of. rewrite length_take, length_drop. lia.
Qed.

(** The body of a multipart answer. *)
Fixpoint multipart_of (boundary : gostr) (first : bool) (content : gostr) (ranges : list Range)
    (contentType : gostr) : gostr :=
  match ranges with
  | [] => closing_line boundary
  | ra :: ranges' =>
      part_header boundary first ra contentType (Z.of_nat (length content))
        ++ slice_of content ra ++ multipart_of boundary false content ranges' contentType
  end.

(** A range reader that gives the bytes of [content]. *)
Definition reads (RangeRead : header → Range → read_error + gostr) (content : gostr) : Prop :=
  (∀ hdr, RangeRead hdr (mkRange 0 (-1)) = inr content) ∧
  (∀ hdr ra, in_bounds (Z.of_nat (length content)) ra → RangeRead hdr ra = inr (slice_of content ra)).

Section sending.
Context {HD : HttpDate}.
Context (RangeRead : header → Range → read_error + gostr) (content : gostr).
Context (mime_type : gostr → gostr) (boundary1 boundary2 : gostr).
Hypothesis (Hread : reads RangeRead content).

Local Abbreviation size := (Z.of_nat (length content)).

Lemma multipart_body_of hdr first ranges contentType :
  Forall (in_bounds size) ranges →
  multipart_body RangeRead boundary2 hdr first ranges contentType size
  = multipart_of boundary2 first content ranges contentType.
Proof.
  revert first. induction ranges as [|ra ranges IH]; intros first Hr; [done|].
  apply Forall_cons in Hr as [Hra Hr]. cbn [multipart_body multipart_of]. f_equal.
  rewrite (proj2 Hread) by done. pose proof (slice_of_length content ra Hra) as Hlen.
  rewrite take_ge by lia. f_equal. rewrite (proj2 (Z.ltb_ge _ _)) by lia. by apply IH.
Qed.

Hypothesis (Hb : length boundary1 = length boundary2).

Lemma part_header_length first ra contentType :
  length (part_header boundary1 first ra contentType size)
  = length (part_header boundary2 first ra contentType size).
Proof. unfold part_header. rewrite !length_app. by rewrite Hb. Qed.

(** The computed size of the multipart body is its length. *)
Lemma mime_size_of first ranges contentType w enc :
  Forall (in_bounds size) ranges → 0 ≤ w → 0 ≤ enc →
  w + enc + Z.of_nat (length (multipart_of boundary2 first content ranges contentType)) ≤ max_int64 →
  let '(w', enc') := mime_size boundary1 first ranges contentType size w enc in
  wrap64 (enc' + wrap64 (w' + Z.of_nat (length (closing_line boundary1))))
  = w + enc + Z.of_nat (length (multipart_of boundary2 first content ranges contentType)).
Proof.
  revert first w enc. induction ranges as [|ra ranges IH]; intros first w enc Hr Hw He Hmax.
  - cbn [mime_size multipart_of] in *.
    assert (Hc : length (closing_line boundary1) = length (closing_line boundary2)).
    { unfold closing_line. rewrite !length_app. by rewrite Hb. }
    rewrite Hc, (wrap64_id (w + _)) by (unfold_int64; lia).
    rewrite wrap64_id by (unfold_int64; lia). lia.
  - apply Forall_cons in Hr as [Hra Hr]. cbn [mime_size multipart_of] in *.
    rewrite !length_app in Hmax. pose proof (slice_of_length content ra Hra) as Hlen.
    rewrite part_header_length.
    specialize (IH false (w + Z.of_nat (length (part_header boundary2 first ra contentType size)))
      (enc + Length ra) Hr).
    rewrite !wrap64_id by (destruct Hra as (?&?&?); unfold_int64; lia).
    destruct (mime_size _ _ _ _ _ _ _) as [w' enc'] eqn:E.
    rewrite IH by (destruct Hra as (?&?&?); lia). rewrite !length_app. lia.
Qed.

End sending.

Lemma send_exact r code body w :
  req_Method r = #"GET" → rw_code w = None → rw_body w = [] →
  header_Get (rw_Header w) #"Content-Encoding" = [] →
  let '(w', ok) := send r code (Z.of_nat (length body)) body w in
  ok = true ∧ rw_code w' = Some code ∧ rw_body w' = body ∧
  header_Get (rw_Header w') #"Content-Length" = FormatInt (Z.of_nat (length body)) ∧
  ∀ k, k ≠ #"Content-Length" → k ≠ #"Accept-Ranges" → rw_Header w' !! k = rw_Header w !! k.
Proof.
  intros Hm Hc Hbd He. unfold send. rewrite Hm.
  assert (He' : header_Get (rw_Header (set_header #"Accept-Ranges" #"bytes" w)) #"Content-Encoding" = []).
  { unfold header_Get in *. simpl. by rewrite lookup_insert_ne. }
  rewrite (bool_decide_true (_ = #"")) by done. rewrite bool_decide_false by done. cbn [negb].
  rewrite (proj2 (Z.ltb_ge _ _)) by lia. cbn [rw_code rw_body rw_Header write_body WriteHeader set_header].
  rewrite Hc, Hbd, Nat2Z.id, take_ge by lia. split_ands; try done.
  - unfold header_Get. by rewrite lookup_insert_eq.
  - intros k H1 H2. by rewrite !lookup_insert_ne.
Qed.

(** ** Properties *)

(** For a list of valid ETags in the header, If-None-Match stops a GET with
    304 exactly when one of them weakly matches the resource's ETag, and
    If-Match fails with 412 exactly when none of them strongly matches; the
    loops over the header always end. *)
Theorem etag_conditions {HD : HttpDate} w r e es modtime (Hv : Forall valid_etag (e :: es))
    (Hget : req_Method r = #"GET") :
  (header_Get (req_Header r) #"If-Match" = [] →
   header_Get (req_Header r) #"If-Unmodified-Since" = [] →
   header_Get (req_Header r) #"If-None-Match" = Join etag_sep (e :: es) →
   existsb (λ x, etagWeakMatch x (header_Get (rw_Header w) #"Etag")) (e :: es) = true →
   checkPreconditions w r modtime = (writeNotModified w, req_del #"If-None-Match" r, None)) ∧
  (header_Get (req_Header r) #"If-Match" = Join etag_sep (e :: es) →
   existsb (λ x, etagStrongMatch x (header_Get (rw_Header w) #"Etag")) (e :: es) = false →
   checkPreconditions w r modtime
     = (WriteHeader StatusPreconditionFailed w, req_del #"If-Match" r, None)).
Proof.
  assert (Hne : Join etag_sep (e :: es) ≠ []).
  { destruct (join_etags_ends e es Hv) as [t ->]. by destruct t. }
  split.
  - intros H1 H2 H3 H4. unfold checkPreconditions, checkIfMatch, checkIfUnmodifiedSince.
    rewrite H1, (bool_decide_true ([] = _)) by done. cbn [fst snd]. rewrite (bool_decide_true (condNone = _)) by done.
    rewrite H2, (bool_decide_true ([] = _)) by done. rewrite bool_decide_false by done.
    unfold checkIfNoneMatch. rewrite H3, bool_decide_false by done.
    rewrite etag_list_join by (done || lia). rewrite H4. cbv iota.
    unfold is_get_or_head. simpl req_Method. rewrite Hget. by rewrite (bool_decide_true (_ = #"GET")).
  - intros H1 H2. unfold checkPreconditions, checkIfMatch.
    rewrite H1, bool_decide_false by done. rewrite etag_list_join by (done || lia). rewrite H2.
    rewrite bool_decide_false by done. by rewrite bool_decide_true.
Qed.

#[export] Instance example_dates : HttpDate := {| ParseTime := λ _, None; FormatTime := λ _, [] |}.

Definition quoted (s : gostr) : gostr := [quote] ++ s ++ [quote].

(** C38. A GET that no precondition settles is answered with exactly the
    requested bytes: the whole file with 200 when there is no usable range,
    the slice with 206 and its Content-Range for one range, the multipart
    body of all slices for several; the Content-Length header is the length of
    the body, multipart bodies included. *)
Theorem ServeHTTP_exact {HD : HttpDate} RangeRead mime_type boundary1 boundary2
    w r name modTime content rangeReq w1 r1 ranges
    (Hread : reads RangeRead content) (Hb : length boundary1 = length boundary2)
    (Hget : req_Method r1 = #"GET")
    (Hfresh : rw_code w1 = None ∧ rw_body w1 = [] ∧ header_Get (rw_Header w1) #"Content-Encoding" = [])
    (Hpre : checkPreconditions (setLastModified modTime w) r modTime = (w1, r1, Some rangeReq))
    (Hparse : ParseRange rangeReq (Z.of_nat (length content)) = inr ranges)
    (Hmax : Z.of_nat (length content) ≤ max_int64 ∧
            Z.of_nat (length (multipart_of boundary2 true content ranges (content_type mime_type name w1).1))
              ≤ max_int64) :
  let size := Z.of_nat (length content) in
  let '(w', ok) := ServeHTTP RangeRead mime_type boundary1 boundary2 w r name modTime size in
  let served := if size <? sumRangesSize ranges then [] else ranges in
  ok = true ∧
  rw_code w' = Some (if bool_decide (served = []) then StatusOK else StatusPartialContent) ∧
  rw_body w' = match served with
               | [] => content
               | [ra] => slice_of content ra
               | _ => multipart_of boundary2 true content served (content_type mime_type name w1).1
               end ∧
  header_Get (rw_Header w') #"Content-Length" = FormatInt (Z.of_nat (length (rw_body w'))) ∧
  (∀ ra, served = [ra] → header_Get (rw_Header w') #"Content-Range" = ContentRange ra size).
Proof.
  intros size. unfold ServeHTTP. rewrite Hpre. rewrite (proj2 (Z.ltb_ge _ _)) by lia.
  destruct Hfresh as (Hc&Hbd&He). destruct Hmax as [Hmax Hmulti].
  pose proof (ParseRange_bounds _ _ _ (conj (Nat2Z.is_nonneg _) Hmax) Hparse) as Hin.
  assert (Hct : ∃ t w2, content_type mime_type name w1 = (t, w2) ∧ rw_code w2 = None ∧ rw_body w2 = [] ∧
    header_Get (rw_Header w2) #"Content-Encoding" = []).
  { unfold content_type. destruct (rw_Header w1 !! #"Content-Type") as [[|t ?]|];
      do 2 eexists; (split; [reflexivity|]); split_ands; try done.
    unfold header_Get in *. simpl. by rewrite lookup_insert_ne. }
  destruct Hct as (t&w2&Ect&Hc2&Hbd2&He2). rewrite Ect in *. cbn [fst] in Hmulti |- *.
  unfold usable_ranges. fold size in Hparse. rewrite Hparse. set (served := if _ <? _ then [] else ranges).
  assert (Hs : Forall (in_bounds size) served) by (unfold served; by destruct (_ <? _)).
  assert (Hms : Z.of_nat (length (multipart_of boundary2 true content served t)) ≤ max_int64 ∨ served = []).
  { unfold served. destruct (_ <? _); [by right|by left]. }
  destruct served as [|ra [|rb rest]] eqn:Es.
  - rewrite (proj1 Hread). pose proof (send_exact r1 StatusOK content w2 Hget Hc2 Hbd2 He2) as H.
    destruct (send _ _ _ _ _) as [w' ok]. destruct H as (->&Hcode&Hbody&Hlen&_).
    rewrite Hbody. split_ands; try done.
  - rewrite (proj2 Hread) by by apply Forall_cons in Hs as [? _].
    pose proof (slice_of_length content ra) as Hl. apply Forall_cons in Hs as [Hra _].
    rewrite <- (Hl Hra).
    set (w3 := set_header _ _ w2).
    pose proof (send_exact r1 StatusPartialContent (slice_of content ra) w3 Hget Hc2 Hbd2) as H.
    destruct (send _ _ _ _ _) as [w' ok].
    destruct H as (->&Hcode&Hbody&Hlen&Hk).
    { unfold header_Get in *. simpl. by rewrite lookup_insert_ne. }
    rewrite Hbody. split_ands; try done.
    intros ra' [= <-]. unfold header_Get. rewrite Hk by done. simpl. by rewrite lookup_insert_eq.
  - destruct Hms as [Hms|?]; [|done].
    rewrite (multipart_body_of RangeRead content boundary2 Hread) by done.
    pose proof (mime_size_of content boundary1 boundary2 Hb true (ra :: rb :: rest) t 0 0 Hs) as Hsz.
    unfold rangesMIMESize. destruct (mime_size _ _ _ _ _ _ _) as [wsz enc].
    rewrite Hsz by lia. rewrite !Z.add_0_l.
    set (body := multipart_of _ _ _ _ _). set (w3 := set_header _ _ w2).
    pose proof (send_exact r1 StatusPartialContent body w3 Hget Hc2 Hbd2) as H.
    destruct (send _ _ _ _ _) as [w' ok].
    destruct H as (->&Hcode&Hbody&Hlen&_).
    { unfold header_Get in *. simpl. by rewrite lookup_insert_ne. }
    rewrite Hbody. split_ands; try done.
Qed.

Definition example_file : gostr := #"0123456789".

Definition example_read (_ : header) (ra : Range) : read_error + gostr :=
  if bool_decide (ra = mkRange 0 (-1)) then inr example_file else inr (slice_of example_file ra).

Lemma ServeHTTP_exact_witness :
  let r := {| req_Method := #"GET"; req_Header := {[ #"Range" := [ #"bytes=2-4" ] ]} |} in
  let w := {| rw_Header := ∅; rw_code := None; rw_body := [] |} in
  rw_body (ServeHTTP example_read (λ _, #"text/plain") #"b1" #"b2" w r #"a.txt" 0
    (Z.of_nat (length example_file))).1 = #"234".
Proof.
  intros r w.
  pose proof (ServeHTTP_exact example_read (λ _, #"text/plain") #"b1" #"b2" w r #"a.txt" 0
    example_file #"bytes=2-4" w r [mkRange 2 3]) as H.
  cbv zeta in H. destruct (ServeHTTP _ _ _ _ _ _ _ _ _) as [w' ok] eqn:E.
  destruct H as (_&_&Hbody&_).
  - split; [done|]. intros hdr ra (?&?&?). unfold example_read. rewrite bool_decide_false; [done|].
    intros ->. simpl in *. lia.
  - done.
  - done.
  - by vm_compute.
  - by vm_compute.
  - by vm_compute.
  - split; vm_compute; discriminate.
  - cbn [fst]. rewrite Hbody. by vm_compute.
Defined.
