(* ===== verification/Downloader.v ===== *)
(** * The multi-connection downloader: [internal/net/request.go]

    A range of a remote file is cut into chunks; workers take them from a
    channel, and the reader consumes a ring of buffers in chunk order.  The
    shared structure [downloader] is the state; each critical section of the
    code (the mutex [m] is held) is one function, and a run is an
    interleaving of them. *)

From S2P Require Import Prelude GoStrings HttpRange GoHeap.

Local Open Scope Z_scope.

(** ** Data *)

(** A buffer: the unread bytes ([None] once closed), the expected size and how
    much was read. *)
Record Buf := { buf_data : option gostr; buf_size : Z; buf_off : Z }.

Record chunk := {
  ch_start : Z;
  ch_size : Z;
  ch_id : Z;
  ch_buf : nat;
  ch_newConcurrency : bool;
}.

Inductive dl_error :=
  | DlExceedMaxConcurrency
  | DlInterrupted
  | DlCanceled
  | DlCancelConcurrency
  | DlOverloadRetry
  | DlNeedRetry (e : dl_error)
  | DlOverloaded
  | DlSizeUnmatched
  | DlSizeUnknown
  | DlShort
  | DlOther (msg : gostr).

#[export] Instance dl_error_eq_dec : EqDecision dl_error.
Proof. solve_decision. Defined.

(** Configuration, the request's range, and the mutable fields; [limit] is the
    shared [ConcurrencyLimit], [workers] counts the goroutines started. *)
Record downloader := {
  cfg_PartSize : Z;
  cfg_PartBodyMaxRetries : Z;
  cfg_Concurrency : Z;
  limit : option Z;
  p_Range : Range;
  p_Size : Z;
  chunkChannel : list chunk;
  nextChunk : Z;
  bufs : list Buf;
  written : Z;
  err : option dl_error;
  concurrency : Z;
  maxPart : Z;
  pos : Z;
  maxPos : Z;
  readingID : Z;
  workers : nat;
}.

(** Updates of the fields the operations assign. *)
Definition upd_limit (v : option Z) (d : downloader) : downloader :=
  {| cfg_PartSize := cfg_PartSize d; cfg_PartBodyMaxRetries := cfg_PartBodyMaxRetries d;
     cfg_Concurrency := cfg_Concurrency d; limit := v; p_Range := p_Range d; p_Size := p_Size d;
     chunkChannel := chunkChannel d; nextChunk := nextChunk d; bufs := bufs d; written := written d;
     err := err d; concurrency := concurrency d; maxPart := maxPart d; pos := pos d;
     maxPos := maxPos d; readingID := readingID d; workers := workers d |}.
Definition upd_conc (v : Z) (w : nat) (d : downloader) : downloader :=
  {| cfg_PartSize := cfg_PartSize d; cfg_PartBodyMaxRetries := cfg_PartBodyMaxRetries d;
     cfg_Concurrency := cfg_Concurrency d; limit := limit d; p_Range := p_Range d; p_Size := p_Size d;
     chunkChannel := chunkChannel d; nextChunk := nextChunk d; bufs := bufs d; written := written d;
     err := err d; concurrency := v; maxPart := maxPart d; pos := pos d;
     maxPos := maxPos d; readingID := readingID d; workers := w |}.
Definition upd_chan (v : list chunk) (d : downloader) : downloader :=
  {| cfg_PartSize := cfg_PartSize d; cfg_PartBodyMaxRetries := cfg_PartBodyMaxRetries d;
     cfg_Concurrency := cfg_Concurrency d; limit := limit d; p_Range := p_Range d; p_Size := p_Size d;
     chunkChannel := v; nextChunk := nextChunk d; bufs := bufs d; written := written d;
     err := err d; concurrency := concurrency d; maxPart := maxPart d; pos := pos d;
     maxPos := maxPos d; readingID := readingID d; workers := workers d |}.
Definition upd_bufs (v : list Buf) (d : downloader) : downloader :=
  {| cfg_PartSize := cfg_PartSize d; cfg_PartBodyMaxRetries := cfg_PartBodyMaxRetries d;
     cfg_Concurrency := cfg_Concurrency d; limit := limit d; p_Range := p_Range d; p_Size := p_Size d;
     chunkChannel := chunkChannel d; nextChunk := nextChunk d; bufs := v; written := written d;
     err := err d; concurrency := concurrency d; maxPart := maxPart d; pos := pos d;
     maxPos := maxPos d; readingID := readingID d; workers := workers d |}.
Definition upd_pos (p n : Z) (d : downloader) : downloader :=
  {| cfg_PartSize := cfg_PartSize d; cfg_PartBodyMaxRetries := cfg_PartBodyMaxRetries d;
     cfg_Concurrency := cfg_Concurrency d; limit := limit d; p_Range := p_Range d; p_Size := p_Size d;
     chunkChannel := chunkChannel d; nextChunk := n; bufs := bufs d; written := written d;
     err := err d; concurrency := concurrency d; maxPart := maxPart d; pos := p;
     maxPos := maxPos d; readingID := readingID d; workers := workers d |}.
Definition upd_err (v : option dl_error) (d : downloader) : downloader :=
  {| cfg_PartSize := cfg_PartSize d; cfg_PartBodyMaxRetries := cfg_PartBodyMaxRetries d;
     cfg_Concurrency := cfg_Concurrency d; limit := limit d; p_Range := p_Range d; p_Size := p_Size d;
     chunkChannel := chunkChannel d; nextChunk := nextChunk d; bufs := bufs d; written := written d;
     err := v; concurrency := concurrency d; maxPart := maxPart d; pos := pos d;
     maxPos := maxPos d; readingID := readingID d; workers := workers d |}.
Definition upd_reading (v : Z) (d : downloader) : downloader :=
  {| cfg_PartSize := cfg_PartSize d; cfg_PartBodyMaxRetries := cfg_PartBodyMaxRetries d;
     cfg_Concurrency := cfg_Concurrency d; limit := limit d; p_Range := p_Range d; p_Size := p_Size d;
     chunkChannel := chunkChannel d; nextChunk := nextChunk d; bufs := bufs d; written := written d;
     err := err d; concurrency := concurrency d; maxPart := maxPart d; pos := pos d;
     maxPos := maxPos d; readingID := v; workers := workers d |}.

(** ** The concurrency limit *)

Definition limit_sub (l : Z) : option Z := if l - 1 <? 0 then None else Some (l - 1).
Definition limit_add (l : Z) : Z := l + 1.

Definition concurrencyCheck (d : downloader) : dl_error + downloader :=
  match limit d with
  | None => inr d
  | Some l =>
      match limit_sub l with
      | None => inl DlExceedMaxConcurrency
      | Some l' => inr (upd_limit (Some l') d)
      end
  end.

Definition concurrencyFinish (d : downloader) : downloader :=
  match limit d with
  | None => d
  | Some l => upd_limit (Some (limit_add l)) d
  end.

(** ** Buffers *)

Definition NewBuf (maxSize : Z) : Buf := {| buf_data := Some []; buf_size := maxSize; buf_off := 0 |}.

(** [buffer.Reset] of a closed buffer would be a nil dereference. *)
Definition buf_Reset (size : Z) (b : Buf) : outcome Buf :=
  match buf_data b with
  | None => Panic
  | Some _ => Ret {| buf_data := Some []; buf_size := size; buf_off := 0 |}
  end.

Inductive read_result := ReadBytes (p : gostr) | ReadEOF | ReadCanceled | ReadClosedPipe.

#[export] Instance read_result_eq_dec : EqDecision read_result.
Proof. solve_decision. Defined.

(** [Read] into a slice of [n] bytes; [canceled] is the state of the context.
    An empty read is the 200 ms wait for more data. *)
Definition buf_Read (canceled : bool) (n : nat) (b : Buf) : Buf * read_result :=
  if canceled then (b, ReadCanceled)
  else if (n =? 0)%nat then (b, ReadBytes [])
  else if buf_size b <=? buf_off b then (b, ReadEOF)
  else
    match buf_data b with
    | None => (b, ReadClosedPipe)
    | Some data =>
        let p := take n data in
        ({| buf_data := Some (drop n data); buf_size := buf_size b;
            buf_off := buf_off b + Z.of_nat (length p) |}, ReadBytes p)
    end.

Definition buf_Write (canceled : bool) (p : gostr) (b : Buf) : Buf * (dl_error + Z) :=
  if canceled then (b, inl DlCanceled)
  else
    match buf_data b with
    | None => (b, inl (DlOther #"io: read/write on closed pipe"))
    | Some data =>
        ({| buf_data := Some (data ++ p); buf_size := buf_size b; buf_off := buf_off b |},
         inr (Z.of_nat (length p)))
    end.

Definition buf_Close (b : Buf) : Buf :=
  {| buf_data := None; buf_size := buf_size b; buf_off := buf_off b |}.

(** ** Scheduling chunks *)

(** The ring index of a chunk; [None] is the division by zero. *)
Definition getBuf (d : downloader) (id : Z) : option nat :=
  if (length (bufs d) =? 0)%nat then None
  else Some (Z.to_nat (Z.rem id (Z.of_nat (length (bufs d))))).

(** The size of the next chunk: a short chunk first, and a second one that
    makes up for the first when that one was enlarged to half a part. *)
Definition chunk_size (partSize length_ next : Z) : Z :=
  let finalSize := partSize in
  if next =? 0 then
    let firstSize := Z.rem length_ finalSize in
    if 0 <? firstSize then
      let minSize := Z.quot finalSize 2 in
      if firstSize <? minSize then minSize else firstSize
    else finalSize
  else if next =? 1 then
    let firstSize := Z.rem length_ finalSize in
    let minSize := Z.quot finalSize 2 in
    if (0 <? firstSize) && (firstSize <? minSize)
    then wrap64 (finalSize + wrap64 (firstSize - minSize)) else finalSize
  else finalSize.

(** The second half of [sendChunkTask]: the buffer, and the chunk if any is
    left.  Sending on the channel appends to it. *)
Definition emit_chunk (newConcurrency isNewBuf : bool) (d : downloader) : outcome downloader :=
  let? (d, buf) :=
    (if isNewBuf
     then Ret (upd_bufs (bufs d ++ [NewBuf (cfg_PartSize d)]) d, length (bufs d))
     else match getBuf d (nextChunk d) with None => Panic | Some b => Ret (d, b) end) in
  if pos d <? maxPos d then
    let finalSize := chunk_size (cfg_PartSize d) (Length (p_Range d)) (nextChunk d) in
    match bufs d !! buf with
    | None => Panic
    | Some b =>
        let? b := buf_Reset finalSize b in
        let d := upd_bufs (<[buf := b]> (bufs d)) d in
        let ch := {| ch_start := pos d; ch_size := finalSize; ch_id := nextChunk d;
                     ch_buf := buf; ch_newConcurrency := newConcurrency |} in
        let d := upd_pos (wrap64 (pos d + finalSize)) (wrap64 (nextChunk d + 1)) d in
        Ret (upd_chan (chunkChannel d ++ [ch]) d)
    end
  else Ret d.

Definition sendChunkTask (newConcurrency : bool) (d : downloader) : outcome (downloader * option dl_error) :=
  let isNewBuf := 0 <? concurrency d in
  if newConcurrency then
    if concurrency d <=? 0 then Ret (d, None)
    else
      match (if 0 <? nextChunk d then concurrencyCheck d else inr d) with
      | inl e => Ret (d, Some e)
      | inr d =>
          let d := upd_conc (concurrency d - 1) (S (workers d)) d in
          let? d := emit_chunk newConcurrency isNewBuf d in Ret (d, None)
      end
  else
    let? d := emit_chunk newConcurrency isNewBuf d in Ret (d, None).

(** The reader is done with chunk [id]: the last one, or the next buffer. *)
Definition finishBuf (id : Z) (d : downloader) : outcome (downloader * option nat) :=
  let id := id + 1 in
  if maxPart d <=? id then Ret (d, None)
  else
    let? (d, _) := sendChunkTask false d in
    let d := upd_reading id d in
    match getBuf d id with
    | None => Panic
    | Some b => Ret (d, Some b)
    end.

(** [MultiReadCloser.Read]: read the current buffer, and at its end ask for the
    next one.  The reader is its position and the buffer it points to. *)
Definition mr_Read (canceled : bool) (n : nat) (rPos : Z) (curBuf : option nat) (d : downloader)
    : outcome (downloader * Z * option nat * read_result) :=
  match curBuf with
  | None => Ret (d, rPos, curBuf, ReadEOF)
  | Some i =>
      match bufs d !! i with
      | None => Panic
      | Some b =>
          let '(b, r) := buf_Read canceled n b in
          let d := upd_bufs (<[i := b]> (bufs d)) d in
          match r with
          | ReadEOF =>
              let? (d, next) := finishBuf rPos d in
              match next with
              | None => Ret (d, rPos, curBuf, ReadEOF)
              | Some nb => Ret (d, rPos + 1, Some nb, ReadBytes [])
              end
          | r => Ret (d, rPos, curBuf, r)
          end
      end
  end.

(** [download]: the part count, the concurrency actually used, and either one
    plain request (the boolean) or the first chunk. *)
Definition part_count (length_ partSize : Z) : Z :=
  let maxPart := Z.quot length_ partSize in
  if 0 <? Z.rem length_ partSize then maxPart + 1 else maxPart.

Definition download (d : downloader) : outcome (downloader * (dl_error + bool)) :=
  match concurrencyCheck d with
  | inl e => Ret (d, inl e)
  | inr d =>
      let mp := part_count (Length (p_Range d)) (cfg_PartSize d) in
      let conc := if mp <? cfg_Concurrency d then mp else cfg_Concurrency d in
      let d :=
        {| cfg_PartSize := cfg_PartSize d; cfg_PartBodyMaxRetries := cfg_PartBodyMaxRetries d;
           cfg_Concurrency := conc; limit := limit d; p_Range := p_Range d; p_Size := p_Size d;
           chunkChannel := chunkChannel d; nextChunk := nextChunk d; bufs := bufs d;
           written := written d; err := err d; concurrency := concurrency d; maxPart := maxPart d;
           pos := pos d; maxPos := maxPos d; readingID := readingID d; workers := workers d |} in
      if conc =? 1 then Ret (d, inr true)
      else
        let d :=
          {| cfg_PartSize := cfg_PartSize d; cfg_PartBodyMaxRetries := cfg_PartBodyMaxRetries d;
             cfg_Concurrency := conc; limit := limit d; p_Range := p_Range d; p_Size := p_Size d;
             chunkChannel := []; nextChunk := nextChunk d; bufs := bufs d;
             written := written d; err := err d; concurrency := conc; maxPart := mp;
             pos := Start (p_Range d);
             maxPos := wrap64 (Start (p_Range d) + Length (p_Range d));
             readingID := readingID d; workers := workers d |} in
        let? (d, _) := sendChunkTask true d in
        match bufs d with
        | [] => Panic
        | _ :: _ =>
            match err d with
            | Some e => Ret (d, inl e)
            | None => Ret (d, inr false)
            end
        end
  end.

Definition DefaultDownloadPartSize : Z := 10485760.
Definition DefaultDownloadConcurrency : Z := 2.
Definition DefaultPartBodyMaxRetries : Z := 3.

(** [Download]: a request of length [-1] is for the rest of the file. *)
Definition Download (partSize retries conc : Z) (lim : option Z) (ra : Range) (size : Z)
    : outcome (downloader * (dl_error + bool)) :=
  let len := if Length ra =? -1 then wrap64 (size - Start ra) else Length ra in
  download
    {| cfg_PartSize := if partSize =? 0 then DefaultDownloadPartSize else partSize;
       cfg_PartBodyMaxRetries := retries;
       cfg_Concurrency := if conc =? 0 then DefaultDownloadConcurrency else conc;
       limit := lim; p_Range := mkRange (Start ra) len; p_Size := size;
       chunkChannel := []; nextChunk := 0; bufs := []; written := 0; err := None;
       concurrency := 0; maxPart := 0; pos := 0; maxPos := 0; readingID := 0; workers := 0%nat |}.

(** [interrupt], when the reader is closed: the workers are cancelled, the
    channel is closed and the buffers are released. *)
Definition interrupt (d : downloader) : downloader * option dl_error :=
  let d := if negb (written d =? Length (p_Range d)) && bool_decide (err d = None)
           then upd_err (Some DlInterrupted) d else d in
  let e := err d in
  let d := upd_bufs (map buf_Close (bufs d)) d in
  let d := if 0 <? concurrency d then upd_conc (- concurrency d) (workers d) d else d in
  (d, e).

(** ** Downloading one chunk *)

Record http_response := {
  resp_ContentRange : gostr;
  resp_ContentLength : Z;
  resp_data : gostr;
  resp_broken : bool;
}.

(** What the HTTP client returns: an error, with the status of the response if
    there is one, or a response whose body yields [resp_data], and then the
    end or, when [resp_broken], a read error. *)
Inductive answer :=
  | AnsError (status : option Z) (msg : gostr)
  | AnsOk (resp : http_response).

Definition StatusTooManyRequests : Z := 429.
Definition StatusBadGateway : Z := 502.
Definition StatusServiceUnavailable : Z := 503.
Definition StatusGatewayTimeout : Z := 504.
Definition StatusRangeNotSatisfiable : Z := 416.

Definition is_overload (status : Z) : bool :=
  bool_decide (status ∈ [StatusTooManyRequests; StatusBadGateway; StatusServiceUnavailable;
                         StatusGatewayTimeout]).

(** The size the server reports against the expected one. *)
Definition checkTotalBytes (d : downloader) (resp : http_response) : option dl_error :=
  let '(totalBytes, e) :=
    if (length (resp_ContentRange resp) =? 0)%nat then
      ((if 0 <? resp_ContentLength resp then resp_ContentLength resp else -1), None)
    else
      let totalStr := List.last (Split "/" (resp_ContentRange resp)) [] in
      if negb (bool_decide (totalStr = #"*")) then
        match ParseInt totalStr with
        | (total, None) => (total, None)
        | (total, Some _) => (total, Some (DlOther #"failed extracting file size"))
        end
      else (-1, Some DlSizeUnknown) in
  if negb (totalBytes =? p_Size d) && bool_decide (e = None) then Some DlSizeUnmatched else e.

Definition incrWritten (n : Z) (d : downloader) : downloader :=
  {| cfg_PartSize := cfg_PartSize d; cfg_PartBodyMaxRetries := cfg_PartBodyMaxRetries d;
     cfg_Concurrency := cfg_Concurrency d; limit := limit d; p_Range := p_Range d; p_Size := p_Size d;
     chunkChannel := chunkChannel d; nextChunk := nextChunk d; bufs := bufs d;
     written := wrap64 (written d + n);
     err := err d; concurrency := concurrency d; maxPart := maxPart d; pos := pos d;
     maxPos := maxPos d; readingID := readingID d; workers := workers d |}.

(** The branch of [tryDownloadChunk] for an overloaded server after the first
    chunk: give the remaining concurrency up, or retry. *)
Definition overload_step (ch : chunk) (d : downloader) : downloader * dl_error :=
  let isCancel := ch_newConcurrency ch in
  let '(d, isCancel) :=
    if 0 <? concurrency d then (upd_conc (- concurrency d) (workers d) d, true) else (d, isCancel) in
  if (isCancel : bool) then
    (upd_chan (chunkChannel d ++ [ch]) (upd_conc (concurrency d - 1) (workers d) d), DlCancelConcurrency)
  else (d, DlOverloadRetry).

(** The result is the number of bytes copied to the chunk's buffer and the
    error; the last component is the bytes. *)
Definition tryDownloadChunk (ans : answer) (ch : chunk) (d : downloader)
    : outcome (downloader * Z * option dl_error * gostr) :=
  match ans with
  | AnsError None msg => Ret (d, 0, Some (DlOther msg), [])
  | AnsError (Some status) msg =>
      if status =? StatusRangeNotSatisfiable then Ret (d, 0, Some (DlOther msg), [])
      else if ch_id ch =? 0 then
        if is_overload status then Ret (d, 0, Some (DlNeedRetry (DlOther msg)), [])
        else Ret (d, 0, Some (DlOther msg), [])
      else if negb (is_overload status) then Ret (d, 0, Some (DlOther msg), [])
      else let '(d, e) := overload_step ch d in Ret (d, 0, Some e, [])
  | AnsOk resp =>
      match (if ch_id ch =? 0 then checkTotalBytes d resp else None) with
      | Some e => Ret (upd_err (Some e) d, 0, Some e, [])
      | None =>
          let? (d, _) := sendChunkTask true d in
          match bufs d !! ch_buf ch with
          | None => Panic
          | Some b =>
              match buf_Write false (resp_data resp) b with
              | (_, inl e) => Ret (d, 0, Some (DlNeedRetry e), [])
              | (b, inr n) =>
                  let d := upd_bufs (<[ch_buf ch := b]> (bufs d)) d in
                  if resp_broken resp
                  then Ret (d, n, Some (DlNeedRetry (DlOther #"unexpected EOF")), resp_data resp)
                  else if negb (n =? ch_size ch)
                  then Ret (d, n, Some (DlNeedRetry DlShort), resp_data resp)
                  else Ret (d, n, None, resp_data resp)
              end
          end
      end
  end.

(** One attempt of the retry loop: which answer the client gives, and whether
    another worker failed or the caller cancelled meanwhile. *)
Record attempt := {
  at_number : nat;
  at_err_before : bool;
  at_err_after : bool;
  at_canceled : bool;
  at_backoff_canceled : bool;
}.

(** How the loop ends: the error, and the bytes copied in all. *)
Record chunk_result := { cr_state : downloader; cr_chunk : chunk; cr_err : option dl_error; cr_out : gostr }.

Definition advance (n : Z) (ch : chunk) : chunk :=
  {| ch_start := wrap64 (ch_start ch + n); ch_size := wrap64 (ch_size ch - n); ch_id := ch_id ch;
     ch_buf := ch_buf ch; ch_newConcurrency := ch_newConcurrency ch |}.

Section retry.
Context (HttpClient : nat → Range → answer).

(** The retry loop over the attempts the environment allows: [None] when the
    list ends first. *)
Fixpoint chunk_loop (script : list attempt) (retry overloadRetry : Z) (last_err : option dl_error)
    (ch : chunk) (d : downloader) (out : gostr) : outcome (option chunk_result) :=
  let finish d ch e out := Ret (Some {| cr_state := d; cr_chunk := ch; cr_err := e; cr_out := out |}) in
  if cfg_PartBodyMaxRetries d <? retry then finish d ch last_err out
  else
    match script with
    | [] => Ret None
    | a :: script' =>
        if at_err_before a || bool_decide (err d ≠ None) then finish d ch None out
        else
          let? (d, n, e, data) :=
            tryDownloadChunk (HttpClient (at_number a) (mkRange (ch_start ch) (ch_size ch))) ch d in
          let out := out ++ data in
          match e with
          | None => finish (incrWritten n d) ch None out
          | Some e =>
              if at_err_after a || bool_decide (err d ≠ None) then finish d ch None out
              else if at_canceled a then finish d ch (Some DlCanceled) out
              else
                match e with
                | DlNeedRetry e =>
                    if 0 <? n
                    then chunk_loop script' (retry + 1) overloadRetry (Some e) (advance n ch)
                           (incrWritten n d) out
                    else chunk_loop script' (retry + 1) overloadRetry (Some e) ch d out
                | DlOverloadRetry =>
                    let overloadRetry := overloadRetry + 1 in
                    if cfg_PartBodyMaxRetries d * 10 <? overloadRetry
                    then finish d ch (Some DlOverloaded) out
                    else if at_backoff_canceled a then finish d ch (Some DlCanceled) out
                    else chunk_loop script' retry overloadRetry (Some DlOverloadRetry) ch d out
                | e => finish d ch (Some e) out
                end
          end
    end.

Definition downloadChunk (script : list attempt) (ch : chunk) (d : downloader)
    : outcome (option chunk_result) :=
  chunk_loop script 0 0 None ch d [].
End retry.
