(* ===== verification/DownloaderThms.v ===== *)
(** * The downloader delivers the requested bytes

    The chunks partition the requested range, the ring of buffers is never
    shared by two live chunks, and whatever the interleaving of the workers
    and the reader, what is read is the file's content in order. *)

From S2P Require Import Prelude GoStrings HttpRange GoHeap Downloader.

Local Open Scope Z_scope.

(** ** The partition of the range *)

(** Where chunk [k] of a range of length [L] starts, relative to its start. *)
Definition chunk_offset (P L k : Z) : Z :=
  if k =? 0 then 0
  else if k =? 1 then chunk_size P L 0
  else L - (part_count L P - k) * P.

Section partition.
Context (P L : Z).
Hypothesis HP : 0 < P ≤ max_int64.
Hypothesis HL : 0 < L ≤ max_int64.
Hypothesis Hparts : 2 ≤ part_count L P.

Lemma chunk_step k :
  0 ≤ k < part_count L P →
  chunk_offset P L (k + 1) = chunk_offset P L k + chunk_size P L k ∧ 0 < chunk_size P L k ≤ P.
Proof using HP HL Hparts.
  intros Hk. revert Hparts Hk. unfold chunk_offset, chunk_size, part_count.
  rewrite Z.rem_mod_nonneg, !Z.quot_div_nonneg by lia.
  pose proof (Z_div_mod_eq_full L P) as Hd. pose proof (Z.mod_pos_bound L P ltac:(lia)) as Hm.
  pose proof (Z_div_mod_eq_full P 2) as Hd2. pose proof (Z.mod_pos_bound P 2 ltac:(lia)) as Hm2.
  set (q := L / P) in *. set (g := L mod P) in *. set (h := P / 2) in *.
  assert (g < h → wrap64 (P + wrap64 (g - h)) = P + g - h) as Hw.
  { intros. rewrite (wrap64_id (g - h)) by (unfold_int64; lia).
    rewrite wrap64_id by (unfold_int64; lia). lia. }
  intros Hp Hk. destruct (0 <? g) eqn:Eg; reflect_bools.
  - destruct (g <? h) eqn:Eh; reflect_bools; [rewrite Hw by lia|]; clear Hw; cbn [andb];
      repeat (case_goal; reflect_bools; try lia).
  - assert (g = 0) by lia. cbn [andb]. repeat (case_goal; reflect_bools; try lia).
Qed.

Lemma chunk_offset_last : chunk_offset P L (part_count L P) = L.
Proof using Hparts. unfold chunk_offset. zcmp. lia. Qed.

Lemma chunk_offset_mono i j :
  0 ≤ i ≤ j → j ≤ part_count L P → chunk_offset P L i ≤ chunk_offset P L j.
Proof using HP HL Hparts.
  intros [Hi Hij]. revert j Hij. apply (Zlt_lower_bound_ind (λ j, j ≤ part_count L P → _ i ≤ _ j)).
  intros j IH Hij Hj. destruct (decide (i = j)) as [->|]; [done|].
  pose proof (IH (j - 1) ltac:(lia) ltac:(lia)).
  destruct (chunk_step (j - 1)) as [E ?]; [lia|].
  replace (j - 1 + 1) with j in E by lia. lia.
Qed.

Lemma chunk_offset_bounds k :
  0 ≤ k ≤ part_count L P → 0 ≤ chunk_offset P L k ≤ L.
Proof using HP HL Hparts.
  intros Hk.
  pose proof (chunk_offset_mono 0 k ltac:(lia) ltac:(lia)).
  pose proof (chunk_offset_mono k (part_count L P) ltac:(lia) ltac:(lia)).
  rewrite chunk_offset_last in *. change (chunk_offset P L 0) with 0 in *. lia.
Qed.

Lemma chunk_offset_lt k :
  0 ≤ k ≤ part_count L P → chunk_offset P L k < L ↔ k < part_count L P.
Proof using HP HL Hparts.
  intros Hk. split; intros H.
  - destruct (decide (k = part_count L P)) as [->|]; [|lia]. rewrite chunk_offset_last in H. lia.
  - destruct (chunk_step k) as [E ?]; [lia|].
    pose proof (chunk_offset_bounds (k + 1) ltac:(lia)). lia.
Qed.
End partition.

(** Slices of the file. *)
Lemma slice_eq (f : gostr) i j : slice f i j = take (Z.to_nat j - Z.to_nat i) (drop (Z.to_nat i) f).
Proof. unfold slice, slice_from, slice_to. apply skipn_firstn_comm. Qed.

Lemma slice_cat (f : gostr) i j k :
  0 ≤ i ≤ j → j ≤ k → slice f i j ++ slice f j k = slice f i k.
Proof.
  intros Hi Hj. rewrite !slice_eq.
  assert (Z.to_nat j = Z.to_nat i + (Z.to_nat j - Z.to_nat i))%nat as Ej by lia.
  rewrite Ej at 3. rewrite <- drop_drop, take_take_drop. f_equal. lia.
Qed.

Lemma slice_nil (f : gostr) i : slice f i i = [].
Proof. rewrite slice_eq, Nat.sub_diag. done. Qed.

Lemma slice_len (f : gostr) i j :
  0 ≤ i ≤ j → j ≤ Z.of_nat (length f) → Z.of_nat (length (slice f i j)) = j - i.
Proof. intros. rewrite slice_eq, length_take, length_drop. lia. Qed.

Lemma slice_take (f : gostr) i j n :
  0 ≤ i ≤ j → Z.of_nat n ≤ j - i → take n (slice f i j) = slice f i (i + Z.of_nat n).
Proof. intros. rewrite !slice_eq, take_take. f_equal. lia. Qed.

Lemma slice_drop (f : gostr) i j n :
  0 ≤ i → drop n (slice f i j) = slice f (i + Z.of_nat n) j.
Proof.
  intros. rewrite !slice_eq, skipn_firstn_comm, drop_drop. f_equal; [lia|].
  f_equal. lia.
Qed.

(** ** The system: workers, channel, reader *)

(** The chunks the workers hold, each with the number of bytes copied in the
    current attempt, the reader, and what it has read so far. *)
Record sys := {
  sd : downloader;
  inflight : list (chunk * Z);
  rPos : Z;
  curBuf : option nat;
  out : gostr;
  eof : bool;
}.

Definition with_sd (d : downloader) (fl : list (chunk * Z)) (y : sys) : sys :=
  {| sd := d; inflight := fl; rPos := rPos y; curBuf := curBuf y; out := out y; eof := eof y |}.

(** One critical section of a worker or of the reader.  A connected worker
    copies what the server sends, a piece of the requested range of [f]; a
    failed attempt leaves the rest of the chunk to the next one; a worker that
    stops drops its chunk.  The concurrency limit is shared with other
    downloads. *)
Inductive sys_step (f : gostr) : sys → sys → Prop :=
  | st_take y c rest :
      chunkChannel (sd y) = c :: rest →
      sys_step f y (with_sd (upd_chan rest (sd y)) ((c, 0) :: inflight y) y)
  | st_connect y d e :
      sendChunkTask true (sd y) = Ret (d, e) →
      sys_step f y (with_sd d (inflight y) y)
  | st_copy y l1 c n l2 p b b' m :
      inflight y = l1 ++ (c, n) :: l2 →
      p = slice f (ch_start c + n) (ch_start c + n + Z.of_nat (length p)) →
      n + Z.of_nat (length p) ≤ ch_size c →
      bufs (sd y) !! ch_buf c = Some b →
      buf_Write false p b = (b', inr m) →
      sys_step f y (with_sd (upd_bufs (<[ch_buf c := b']> (bufs (sd y))) (sd y))
                      (l1 ++ (c, n + m) :: l2) y)
  | st_retry y l1 c n l2 :
      inflight y = l1 ++ (c, n) :: l2 →
      sys_step f y (with_sd (incrWritten n (sd y)) (l1 ++ (advance n c, 0) :: l2) y)
  | st_overload y l1 c l2 d e :
      inflight y = l1 ++ (c, 0) :: l2 →
      ch_id c ≠ 0 →
      overload_step c (sd y) = (d, e) →
      sys_step f y (with_sd d (if bool_decide (e = DlCancelConcurrency) then l1 ++ l2 else inflight y) y)
  | st_stop y l1 c n l2 :
      inflight y = l1 ++ (c, n) :: l2 →
      sys_step f y (with_sd (incrWritten n (sd y)) (l1 ++ l2) y)
  | st_limit y v :
      sys_step f y (with_sd (upd_limit v (sd y)) (inflight y) y)
  | st_read y cap d r b res :
      mr_Read false cap (rPos y) (curBuf y) (sd y) = Ret (d, r, b, res) →
      sys_step f y
        {| sd := d; inflight := inflight y; rPos := r; curBuf := b;
           out := out y ++ (if res is ReadBytes p then p else []);
           eof := eof y || bool_decide (res = ReadEOF) |}.

(** ** The invariant *)

Definition nbufs (d : downloader) : Z := Z.of_nat (length (bufs d)).
Definition ring_index (d : downloader) (k : Z) : nat := Z.to_nat (k mod nbufs d).
Definition bufof (d : downloader) (k : Z) : option Buf := bufs d !! ring_index d k.

(** Chunks in the channel have nothing copied. *)
Definition alive (d : downloader) (fl : list (chunk * Z)) : list (chunk * Z) :=
  ((λ c, (c, 0)) <$> chunkChannel d) ++ fl.

Section invariant.
Context (f : gostr) (P S L : Z).

Abbreviation off k := (S + chunk_offset P L k).

(** The range lies in the file and takes several parts. *)
Record params_ok (d : downloader) : Prop := {
  po_part : 0 < P ≤ max_int64;
  po_len : 0 < L;
  po_start : 0 ≤ S;
  po_end : S + L ≤ max_int64;
  po_file : S + L ≤ Z.of_nat (length f);
  po_parts : 2 ≤ part_count L P;
  po_cfg : cfg_PartSize d = P;
  po_range : p_Range d = mkRange S L;
  po_max : maxPart d = part_count L P;
  po_maxPos : maxPos d = S + L;
}.

(** A buffer of chunk [k] holds the bytes from the [buf_off]-th on. *)
Definition holds (k : Z) (b : Buf) : Prop :=
  ∃ data, buf_data b = Some data ∧ buf_size b = chunk_size P L k ∧ 0 ≤ buf_off b ∧
    buf_off b + Z.of_nat (length data) ≤ chunk_size P L k ∧
    data = slice f (off k + buf_off b) (off k + buf_off b + Z.of_nat (length data)).

Definition fill (b : Buf) : Z :=
  buf_off b + Z.of_nat (length (default [] (buf_data b))).

(** A live chunk: what remains of it, and that its buffer is filled up to
    there; a chunk the reader is past has nothing left. *)
Definition chunk_ok (d : downloader) (r : Z) (e : chunk * Z) : Prop :=
  let '(c, n) := e in
  0 ≤ ch_id c < nextChunk d ∧ 0 ≤ n ≤ ch_size c ∧
  off (ch_id c) ≤ ch_start c ∧ ch_start c + ch_size c = off (ch_id c + 1) ∧
  (ch_id c < r → n = ch_size c) ∧
  (r ≤ ch_id c → ch_buf c = ring_index d (ch_id c) ∧
     ∀ b, bufof d (ch_id c) = Some b → ch_start c + n = off (ch_id c) + fill b).

Record core (d : downloader) (r : Z) (fl : list (chunk * Z)) : Prop := {
  co_params : params_ok d;
  co_next : 0 < nextChunk d ≤ part_count L P;
  co_pos : pos d = off (nextChunk d);
  co_r : 0 ≤ r ≤ nextChunk d;
  co_conc : 0 < concurrency d → nextChunk d + concurrency d ≤ cfg_Concurrency d + r;
  co_cap : nextChunk d - r ≤ cfg_Concurrency d;
  co_bufs : 0 < nbufs d;
  co_ring : nextChunk d - r ≤ nbufs d;
  co_grow : 0 < concurrency d →
    nextChunk d ≤ nbufs d ∧ (nextChunk d < part_count L P → nbufs d = nextChunk d);
  co_open : Forall (λ b, buf_data b ≠ None) (bufs d);
  co_holds : ∀ k, r ≤ k < nextChunk d → ∃ b, bufof d k = Some b ∧ holds k b;
  co_chunks : Forall (chunk_ok d r) (alive d fl);
  co_ids : NoDup ((λ e, ch_id e.1) <$> alive d fl);
}.

Record sys_inv (y : sys) : Prop := {
  si_core : core (sd y) (rPos y) (inflight y);
  si_read : readingID (sd y) = rPos y;
  si_r : rPos y < nextChunk (sd y);
  si_cur : curBuf y = Some (ring_index (sd y) (rPos y));
  si_unread : ∀ k b, rPos y < k < nextChunk (sd y) → bufof (sd y) k = Some b → buf_off b = 0;
  si_out : ∀ b, bufof (sd y) (rPos y) = Some b → out y = slice f S (off (rPos y) + buf_off b);
  si_eof : eof y = true → out y = slice f S (S + L);
}.

(** *** The ring *)

Lemma ring_index_lt d k : 0 < nbufs d → (ring_index d k < length (bufs d))%nat.
Proof using. unfold ring_index, nbufs. intros. pose proof (Z.mod_pos_bound k (Z.of_nat (length (bufs d)))). lia. Qed.

Lemma ring_index_inj d r n j k :
  0 < nbufs d → n - r ≤ nbufs d → r ≤ j < n → r ≤ k < n →
  ring_index d j = ring_index d k → j = k.
Proof using.
  unfold ring_index. intros Hb Hn Hj Hk E.
  pose proof (Z.mod_pos_bound j (nbufs d) Hb). pose proof (Z.mod_pos_bound k (nbufs d) Hb).
  assert (j mod nbufs d = k mod nbufs d) as E' by lia.
  pose proof (Z_div_mod_eq_full j (nbufs d)). pose proof (Z_div_mod_eq_full k (nbufs d)).
  assert (j - k = nbufs d * (j / nbufs d - k / nbufs d)) by lia.
  assert (j / nbufs d = k / nbufs d) by nia. nia.
Qed.

Lemma ring_index_small d k : 0 ≤ k < nbufs d → ring_index d k = Z.to_nat k.
Proof using. intros. unfold ring_index. rewrite Z.mod_small; lia. Qed.

Lemma getBuf_ring d k : 0 < nbufs d → 0 ≤ k → getBuf d k = Some (ring_index d k).
Proof using.
  intros Hb Hk. unfold getBuf, ring_index, nbufs in *.
  destruct (length (bufs d) =? 0)%nat eqn:E; [apply Nat.eqb_eq in E; lia|].
  rewrite Z.rem_mod_nonneg by lia. done.
Qed.

(** *** Scheduling a chunk *)

(** The buffers of the live chunks are untouched. *)
Definition same_live (d d' : downloader) (r : Z) : Prop :=
  ∀ k, r ≤ k < nextChunk d → bufof d' k = bufof d k ∧ ring_index d' k = ring_index d k.

Lemma chunk_ok_live d d' r e :
  nextChunk d ≤ nextChunk d' → same_live d d' r → chunk_ok d r e → chunk_ok d' r e.
Proof using.
  intros Hn Hs. destruct e as [c n]. unfold chunk_ok. intros (?&?&?&?&?&Hb). split_ands; try lia.
  intros Hr. destruct (Hb Hr) as [E Hf]. destruct (Hs (ch_id c)) as [E1 E2]; [lia|].
  rewrite E1, E2. done.
Qed.

Lemma NewBuf_append d b :
  nextChunk d ≤ nbufs d → ∀ r, 0 ≤ r → same_live d (upd_bufs (bufs d ++ [b]) d) r.
Proof using.
  intros Hn r Hr k Hk. unfold bufof.
  assert (nbufs (upd_bufs (bufs d ++ [b]) d) = nbufs d + 1) as En.
  { unfold nbufs. simpl. rewrite length_app. simpl. lia. }
  rewrite (ring_index_small d), (ring_index_small (upd_bufs _ _)) by lia. split; [|done]. cbn [bufs upd_bufs].
  apply lookup_app_l. unfold nbufs in *. lia.
Qed.

Lemma insert_live d b r :
  0 < nbufs d → nextChunk d + 1 - r ≤ nbufs d →
  same_live d (upd_bufs (<[ring_index d (nextChunk d) := b]> (bufs d)) d) r.
Proof using.
  intros Hb Hn k Hk. set (i := ring_index d (nextChunk d)). unfold bufof, ring_index, nbufs.
  cbn [bufs upd_bufs]. rewrite length_insert. split; [|done].
  apply list_lookup_insert_ne. subst i. intros E.
  apply (ring_index_inj d r (nextChunk d + 1)) in E; lia.
Qed.

(** Adding chunk [nextChunk d] to the channel. *)
Lemma core_add d d' r fl nc b :
  core d r fl → nextChunk d < part_count L P → params_ok d' →
  nextChunk d' = nextChunk d + 1 → pos d' = off (nextChunk d + 1) →
  (0 < concurrency d' → nextChunk d' + concurrency d' ≤ cfg_Concurrency d' + r) →
  nextChunk d' - r ≤ cfg_Concurrency d' → nextChunk d' - r ≤ nbufs d' → 0 < nbufs d' →
  (0 < concurrency d' → nbufs d' = nextChunk d') →
  Forall (λ b, buf_data b ≠ None) (bufs d') → same_live d d' r →
  bufof d' (nextChunk d) = Some b →
  b = {| buf_data := Some []; buf_size := chunk_size P L (nextChunk d); buf_off := 0 |} →
  chunkChannel d' = chunkChannel d ++
    [{| ch_start := off (nextChunk d); ch_size := chunk_size P L (nextChunk d); ch_id := nextChunk d;
        ch_buf := ring_index d' (nextChunk d); ch_newConcurrency := nc |}] →
  core d' r fl.
Proof using.
  intros H Hlt Hpar En Ep Hc1 Hc2 Hring Hb Hgrow Hopen Hlive Eb -> Ech.
  pose proof (co_next _ _ _ H). pose proof (co_r _ _ _ H). pose proof (co_params _ _ _ H) as [].
  destruct (chunk_step P L ltac:(lia) ltac:(lia) ltac:(lia) (nextChunk d)) as [Eo Hsz]; [lia|].
  split; try lia; try done.
  - rewrite Ep. do 2 f_equal. lia.
  - intros k Hk. destruct (decide (k = nextChunk d)) as [->|].
    + eexists. split; [done|]. exists []. simpl. split_ands; try done; try lia.
      rewrite !Z.add_0_r, slice_nil. done.
    + destruct (Hlive k) as [-> _]; [lia|]. apply (co_holds _ _ _ H). lia.
  - unfold alive. rewrite Ech, fmap_app, <- app_assoc. simpl.
    pose proof (co_chunks _ _ _ H) as Hall. unfold alive in Hall.
    apply Forall_app in Hall as [Hch1 Hch2].
    apply Forall_app; split; [|constructor].
    + eapply Forall_impl; [done|]. intros. eapply chunk_ok_live; [|done..]. lia.
    + unfold chunk_ok. simpl. split_ands; try lia.
      intros _. split; [done|]. intros b. rewrite Eb. intros [= <-]. unfold fill. simpl. lia.
    + eapply Forall_impl; [done|]. intros. eapply chunk_ok_live; [|done..]. lia.
  - unfold alive. rewrite Ech, !fmap_app, <- app_assoc. simpl.
    pose proof (co_ids _ _ _ H) as Hnd. pose proof (co_chunks _ _ _ H) as Hall. unfold alive in *.
    rewrite fmap_app in Hnd. rewrite <- Permutation_middle.
    constructor; [|done]. rewrite <- fmap_app. intros ([c n]&E&Hin)%list_elem_of_fmap.
    rewrite Forall_forall in Hall. destruct (Hall _ Hin) as (?&_). simpl in *. lia.
Qed.

(** A step that only appends a buffer while no chunk is left. *)
Lemma core_append d r fl b :
  core d r fl → nextChunk d = part_count L P → nextChunk d ≤ nbufs d → buf_data b ≠ None →
  core (upd_bufs (bufs d ++ [b]) d) r fl.
Proof using.
  intros H En Hle Hb. destruct H as [Hp Hn Hpos Hr Hc1 Hc2 Hbs Hring Hgrow Hopen Hh Hch Hids].
  assert (nbufs (upd_bufs (bufs d ++ [b]) d) = nbufs d + 1) as E.
  { unfold nbufs. simpl. rewrite length_app. simpl. lia. }
  pose proof (NewBuf_append d b Hle r ltac:(lia)) as Hlive.
  split; try done; try (simpl; lia).
  - destruct Hp. split; done.
  - simpl. apply Forall_app. split; [done|]. constructor; done.
  - intros k Hk. destruct (Hlive k) as [-> _]; [done|]. apply Hh. done.
  - eapply Forall_impl; [exact Hch|]. intros. eapply (chunk_ok_live d); [simpl; lia|exact Hlive|done].
Qed.

Lemma pos_max d r fl : core d r fl → (pos d <? maxPos d) = (nextChunk d <? part_count L P).
Proof using.
  intros [[] Hn Hpos]. rewrite Hpos, po_maxPos0.
  pose proof (chunk_offset_lt P L ltac:(lia) ltac:(lia) ltac:(lia) (nextChunk d) ltac:(lia)) as Hlt.
  destruct (nextChunk d <? part_count L P) eqn:E; reflect_bools.
  - apply Z.ltb_lt. apply Hlt in E. lia.
  - apply Z.ltb_ge. assert (¬ chunk_offset P L (nextChunk d) < L) by (rewrite Hlt; lia). lia.
Qed.

(** The next position does not overflow. *)
Lemma pos_next d r fl :
  core d r fl → nextChunk d < part_count L P →
  wrap64 (pos d + chunk_size P L (nextChunk d)) = off (nextChunk d + 1) ∧
  wrap64 (nextChunk d + 1) = nextChunk d + 1.
Proof using.
  intros [[] Hn Hpos] Hlt. rewrite Hpos.
  destruct (chunk_step P L ltac:(lia) ltac:(lia) ltac:(lia) (nextChunk d)) as [Eo Hsz]; [lia|].
  pose proof (chunk_offset_bounds P L ltac:(lia) ltac:(lia) ltac:(lia) (nextChunk d + 1) ltac:(lia)).
  assert (part_count L P ≤ L).
  { unfold part_count. rewrite Z.rem_mod_nonneg, Z.quot_div_nonneg by lia.
    pose proof (Z_div_mod_eq_full L P). pose proof (Z.mod_pos_bound L P ltac:(lia)).
    pose proof (Z.div_pos L P ltac:(lia) ltac:(lia)). case_goal; reflect_bools; nia. }
  rewrite !wrap64_id by (unfold_int64; lia). lia.
Qed.

(** The buffers of newly scheduled chunks are unread. *)
Definition new_unread (d d' : downloader) : Prop :=
  ∀ k b, nextChunk d ≤ k < nextChunk d' → bufof d' k = Some b → buf_off b = 0.

(** What scheduling leaves alone, and that it schedules a chunk if any is left. *)
Definition frame0 (d d' : downloader) (r : Z) : Prop :=
  readingID d' = readingID d ∧ same_live d d' r ∧ nextChunk d ≤ nextChunk d' ∧ new_unread d d'.

Definition frame (d d' : downloader) (r : Z) : Prop :=
  frame0 d d' r ∧ (nextChunk d' = part_count L P ∨ nextChunk d' = nextChunk d + 1).

Lemma frame0_refl d r : frame0 d d r.
Proof using. split; [done|]. split; [intros k ?; done|]. split; [lia|]. intros k b ?. lia. Qed.

Lemma frame_add d d' r b :
  same_live d d' r → readingID d' = readingID d → nextChunk d' = nextChunk d + 1 →
  bufof d' (nextChunk d) = Some b → buf_off b = 0 → frame d d' r.
Proof using.
  intros Hs Er En Eb Hb. split; [|lia]. unfold frame0. split_ands; [done|done|lia|].
  intros k b' Hk. assert (k = nextChunk d) as -> by lia. congruence.
Qed.

Lemma emit_new nc d r fl :
  core d r fl →
  nextChunk d ≤ nbufs d ∧ (nextChunk d < part_count L P → nbufs d = nextChunk d) →
  (0 < concurrency d → nextChunk d + 1 + concurrency d ≤ cfg_Concurrency d + r) →
  nextChunk d + 1 - r ≤ cfg_Concurrency d →
  ∃ d', emit_chunk nc true d = Ret d' ∧ core d' r fl ∧ frame d d' r.
Proof using.
  intros H [Hle Heq] Hconc Hcap. unfold emit_chunk.
  pose proof (co_params _ _ _ H) as Hp. pose proof (co_next _ _ _ H) as Hn.
  pose proof (co_r _ _ _ H) as Hr. pose proof (co_ring _ _ _ H) as Hring.
  pose proof (co_open _ _ _ H) as Ho.
  cbn [pos maxPos upd_bufs p_Range nextChunk cfg_PartSize bufs chunkChannel].
  rewrite (pos_max d r fl H). destruct (nextChunk d <? part_count L P) eqn:E; reflect_bools.
  - rewrite (po_cfg _ Hp), (po_range _ Hp), list_lookup_middle by done. cbn [Length buf_Reset NewBuf buf_data].
    destruct (pos_next d r fl H E) as [E1 E2]. rewrite E1, E2, (co_pos _ _ _ H).
    rewrite insert_app_r_alt, Nat.sub_diag by done. cbn [insert list_insert].
    eexists. split; [done|]. set (d' := upd_chan _ _).
    assert (nbufs d' = nextChunk d + 1) as En.
    { unfold nbufs, d'. simpl. rewrite length_app. unfold nbufs in Heq. simpl. lia. }
    assert (same_live d d' r) as Hs.
    { intros k Hk. destruct (NewBuf_append d {| buf_data := Some []; buf_size := chunk_size P L (nextChunk d); buf_off := 0 |} Hle r ltac:(lia) k Hk) as [? ?].
      split; done. }
    assert (ring_index d' (nextChunk d) = length (bufs d)) as Ei.
    { rewrite ring_index_small by lia. unfold nbufs in *. lia. }
    assert (bufof d' (nextChunk d) = Some {| buf_data := Some []; buf_size := chunk_size P L (nextChunk d); buf_off := 0 |}) as Enb.
    { unfold bufof. rewrite Ei. simpl. apply list_lookup_middle. done. }
    split; [|by apply (frame_add d d' r _ Hs eq_refl eq_refl Enb eq_refl)].
    eapply (core_add d d' r fl nc); try done; try (simpl; lia).
    + destruct Hp. split; done.
    + simpl. apply Forall_app. split; [done|]. constructor; done.
    + simpl. rewrite Ei. done.
  - eexists. split; [done|]. split; [apply core_append; [done|lia|done|done]|].
    split; [|simpl; lia]. unfold frame0. split_ands; [done|apply NewBuf_append; lia|simpl; lia|]. intros k b. simpl. lia.
Qed.

Lemma emit_old nc d r fl :
  core d r fl → concurrency d ≤ 0 →
  nextChunk d + 1 - r ≤ nbufs d → nextChunk d + 1 - r ≤ cfg_Concurrency d →
  ∃ d', emit_chunk nc false d = Ret d' ∧ core d' r fl ∧ frame d d' r.
Proof using.
  intros H Hconc Hring Hcap. unfold emit_chunk.
  pose proof (co_params _ _ _ H) as Hp. pose proof (co_next _ _ _ H) as Hn.
  pose proof (co_r _ _ _ H) as Hr. pose proof (co_bufs _ _ _ H) as Hb. pose proof (co_open _ _ _ H) as Ho.
  rewrite getBuf_ring by lia. rewrite (pos_max d r fl H).
  destruct (nextChunk d <? part_count L P) eqn:E; reflect_bools.
  2: { eexists. split; [done|]. split; [done|]. split; [apply frame0_refl|lia]. }
  destruct (bufs d !! ring_index d (nextChunk d)) as [b|] eqn:Eb.
  2: { apply lookup_ge_None in Eb. pose proof (ring_index_lt d (nextChunk d) Hb). lia. }
  rewrite Forall_forall in Ho. pose proof (Ho b (list_elem_of_lookup_2 _ _ _ Eb)) as Hbd.
  unfold buf_Reset. destruct (buf_data b) as [data|] eqn:Ed; [|done].
  cbn [pos upd_bufs p_Range nextChunk cfg_PartSize bufs chunkChannel].
  rewrite (po_cfg _ Hp), (po_range _ Hp). cbn [Length].
  destruct (pos_next d r fl H E) as [E1 E2]. rewrite E1, E2, (co_pos _ _ _ H).
  eexists. split; [done|]. set (d' := upd_chan _ _).
  set (nb := {| buf_data := Some []; buf_size := chunk_size P L (nextChunk d); buf_off := 0 |}).
  assert (nbufs d' = nbufs d) as En by (unfold nbufs, d'; simpl; rewrite length_insert; done).
  assert (same_live d d' r) as Hs.
  { intros k Hk. destruct (insert_live d nb r Hb Hring k Hk) as [? ?]. split; done. }
  assert (ring_index d' (nextChunk d) = ring_index d (nextChunk d)) as Ei by (unfold ring_index; by rewrite En).
  assert (bufof d' (nextChunk d) = Some nb) as Enb.
  { unfold bufof. rewrite Ei. simpl. apply list_lookup_insert_eq. by apply ring_index_lt. }
  split; [|by apply (frame_add d d' r _ Hs eq_refl eq_refl Enb eq_refl)].
  eapply (core_add d d' r fl nc nb); try done; try (simpl; lia).
  - destruct Hp. split; done.
  - simpl. apply Forall_insert; [by apply Forall_forall|done].
  - simpl. rewrite Ei. done.
Qed.

Lemma params_limit v d : params_ok d → params_ok (upd_limit v d).
Proof using. intros []. split; done. Qed.

Lemma core_limit v d r fl : core d r fl → core (upd_limit v d) r fl.
Proof using. intros []. split; try done. by apply params_limit. Qed.

(** Giving concurrency up. *)
Lemma core_conc v w d r fl :
  core d r fl → (0 < v → 0 < concurrency d ∧ v ≤ concurrency d) → core (upd_conc v w d) r fl.
Proof using.
  intros [] Hv. split; try done; simpl.
  - destruct co_params0. split; done.
  - intros Hc. apply Hv in Hc as [??]. specialize (co_conc0 ltac:(lia)). lia.
  - intros Hc. apply Hv in Hc as [??]. by apply co_grow0.
Qed.

(** A worker connects: another one may be started, with a new buffer. *)
Lemma send_new d r fl :
  core d r fl → ∃ d' e, sendChunkTask true d = Ret (d', e) ∧ core d' r fl ∧ frame0 d d' r.
Proof using.
  intros H. unfold sendChunkTask.
  destruct (concurrency d <=? 0) eqn:Ec; [do 2 eexists; split_ands; [done|done|apply frame0_refl]|].
  reflect_bools. zcmp.
  assert (∀ d1, core d1 r fl → concurrency d1 = concurrency d → nextChunk d1 = nextChunk d →
    frame0 d d1 r →
    ∃ d', emit_chunk true true (upd_conc (concurrency d1 - 1) (workers d1 + 1)%nat d1) = Ret d' ∧
      core d' r fl ∧ frame0 d d' r) as Hemit.
  { intros d1 H1 E1 E2 (F1&F2&F3&F4).
    destruct (emit_new true (upd_conc (concurrency d1 - 1) (workers d1 + 1)%nat d1) r fl)
      as (d'&E&Hc&(G1&G2&G3&G4)&_).
    - apply core_conc; [done|]. lia.
    - apply (co_grow _ _ _ H1). lia.
    - simpl. pose proof (co_conc _ _ _ H1). lia.
    - simpl. pose proof (co_conc _ _ _ H1). lia.
    - exists d'. split_ands; [done|done|]. simpl in *. split; [by rewrite G1|]. split_ands; [|lia|].
      + intros k Hk. destruct (G2 k) as [-> ->]; [simpl; lia|]. apply F2. done.
      + intros k b Hk. apply G4. simpl. lia. }
  pose proof (co_next _ _ _ H). destruct (0 <? nextChunk d) eqn:En; reflect_bools; [|lia].
  unfold concurrencyCheck. destruct (limit d) as [l|].
  - destruct (limit_sub l) as [l'|]; [|do 2 eexists; split_ands; [done|done|apply frame0_refl]].
    destruct (Hemit (upd_limit (Some l') d)) as (d'&E&?&?); [by apply core_limit|done|done|exact (frame0_refl d r)|].
    rewrite Nat.add_1_r in E. rewrite E. eauto.
  - destruct (Hemit d) as (d'&E&?&?); [done|done|done|apply frame0_refl|].
    rewrite Nat.add_1_r in E. rewrite E. eauto.
Qed.

(** The reader has read all of chunk [r]. *)
Lemma core_advance d r fl b :
  core d r fl → r < nextChunk d → bufof d r = Some b → buf_size b ≤ buf_off b →
  core d (r + 1) fl ∧ buf_off b = chunk_size P L r.
Proof using.
  intros H Hr Eb Hsz. pose proof (co_next _ _ _ H). pose proof (co_params _ _ _ H) as Hp.
  pose proof (co_r _ _ _ H). destruct Hp.
  destruct (chunk_step P L ltac:(lia) ltac:(lia) ltac:(lia) r) as [Eo Hs]; [lia|].
  destruct (co_holds _ _ _ H r) as (b'&Eb'&data&Ed&Es&?&?&Edata); [lia|].
  assert (b' = b) as -> by congruence. split; [|lia].
  destruct H; split; try done; try lia.
  - intros k Hk. apply co_holds0. lia.
  - eapply Forall_impl; [exact co_chunks0|]. intros [c n] (?&?&?&?&Hpast&Hlive). unfold chunk_ok. split_ands; try lia.
    + intros Hlt. destruct (decide (ch_id c < r)) as [|Hge]; [auto|].
      assert (ch_id c = r) as Ec by lia. destruct (Hlive ltac:(lia)) as [_ Hf].
      rewrite Ec in *. specialize (Hf b Eb). unfold fill in Hf. rewrite Ed in Hf. simpl in Hf. lia.
    + intros. apply Hlive. lia.
Qed.

Lemma send_next d r fl :
  core d (r + 1) fl → nextChunk d - r ≤ cfg_Concurrency d → nextChunk d - r ≤ nbufs d →
  (0 < concurrency d → nextChunk d + concurrency d ≤ cfg_Concurrency d + r) →
  ∃ d', sendChunkTask false d = Ret (d', None) ∧ core d' (r + 1) fl ∧ frame d d' (r + 1).
Proof using.
  intros H Hcap Hring Hconc. unfold sendChunkTask.
  destruct (0 <? concurrency d) eqn:Ec; reflect_bools.
  - destruct (emit_new false d (r + 1) fl) as (d'&E&?&?); [done|by apply (co_grow _ _ _ H)|lia|lia|].
    rewrite E. eauto.
  - destruct (emit_old false d (r + 1) fl) as (d'&E&?&?); [done|lia|lia|lia|].
    rewrite E. eauto.
Qed.

(** *** Every step keeps the invariant *)

Lemma core_written n d r fl : core d r fl → core (incrWritten n d) r fl.
Proof using. intros []. split; try done. destruct co_params0. split; done. Qed.

(** Moving chunks between the channel and the workers. *)
Lemma core_move ch d r fl fl' :
  core d r fl → Forall (chunk_ok d r) (alive (upd_chan ch d) fl') →
  NoDup ((λ e, ch_id e.1) <$> alive (upd_chan ch d) fl') → core (upd_chan ch d) r fl'.
Proof using. intros [] Hall Hnd. split; try done. destruct co_params0. split; done. Qed.

Lemma core_perm ch d r fl fl' :
  core d r fl → alive d fl ≡ₚ alive (upd_chan ch d) fl' → core (upd_chan ch d) r fl'.
Proof using.
  intros H HP. apply (core_move ch d r fl); [done| |].
  - rewrite <- HP. apply (co_chunks _ _ _ H).
  - rewrite <- HP. apply (co_ids _ _ _ H).
Qed.

Lemma core_drop d r l1 e l2 : core d r (l1 ++ e :: l2) → core d r (l1 ++ l2).
Proof using.
  intros []. split; try done; unfold alive in *.
  - rewrite <- Permutation_middle, (Permutation_app_comm _ (e :: _)) in co_chunks0.
    simpl in co_chunks0. inversion co_chunks0. by rewrite Permutation_app_comm.
  - rewrite <- Permutation_middle, (Permutation_app_comm _ (e :: _)) in co_ids0.
    simpl in co_ids0. inversion co_ids0. by rewrite Permutation_app_comm.
Qed.

(** The entry of one worker changes. *)
Lemma core_entry d d' r l1 c n c' n' l2 :
  core d r (l1 ++ (c, n) :: l2) → params_ok d' →
  nextChunk d' = nextChunk d → pos d' = pos d → concurrency d' = concurrency d →
  cfg_Concurrency d' = cfg_Concurrency d → chunkChannel d' = chunkChannel d →
  length (bufs d') = length (bufs d) → Forall (λ b, buf_data b ≠ None) (bufs d') →
  ch_id c' = ch_id c → chunk_ok d' r (c', n') →
  (∀ k, r ≤ k < nextChunk d → k ≠ ch_id c → bufof d' k = bufof d k) →
  (r ≤ ch_id c < nextChunk d → ∃ b, bufof d' (ch_id c) = Some b ∧ holds (ch_id c) b) →
  core d' r (l1 ++ (c', n') :: l2).
Proof using.
  intros H Hp En Ep Ec Ecc Ech El Ho Ei Hok Hsame Hh.
  assert (nbufs d' = nbufs d) as Eb by (unfold nbufs; lia).
  assert (∀ k, ring_index d' k = ring_index d k) as Er by (intros; unfold ring_index; by rewrite Eb).
  destruct H; split; rewrite ?En, ?Ec, ?Ecc, ?Eb; try done.
  - lia.
  - intros k Hk. destruct (decide (k = ch_id c)) as [->|]; [by apply Hh|].
    rewrite Hsame by done. by apply co_holds0.
  - unfold alive in *. rewrite Ech. rewrite !Forall_app, !Forall_cons in *.
    rewrite !fmap_app in co_ids0. simpl in co_ids0.
    assert (∀ l, ch_id c ∉ ((λ e, ch_id e.1) <$> l) → Forall (chunk_ok d r) l → Forall (chunk_ok d' r) l) as Hl.
    { intros l Hni Hall. apply Forall_forall. intros [c1 n1] Hin. rewrite Forall_forall in Hall.
      destruct (Hall _ Hin) as (?&?&?&?&?&Hlive). unfold chunk_ok. rewrite En, Er. split_ands; try lia.
      intros Hr. destruct (Hlive Hr) as [? Hf]. split; [done|].
      rewrite Hsame; [done|lia|]. intros E. apply Hni. rewrite <- E. apply list_elem_of_fmap. by exists (c1, n1). }
    rewrite <- Permutation_middle in co_ids0. apply NoDup_app in co_ids0 as (N1&N2&N3).
    apply NoDup_cons in N3 as [N3 N4]. rewrite elem_of_app in N3.
    destruct co_chunks0 as (A1&A2&A3&A4). split_ands; [|apply Hl; tauto|done|apply Hl; tauto].
    apply Hl; [|done]. intros Hin. apply (N2 _ Hin). left.
  - unfold alive in *. rewrite Ech. rewrite !fmap_app in *. simpl in *. by rewrite Ei.
Qed.

Lemma entry_ok d r l1 c n l2 : core d r (l1 ++ (c, n) :: l2) → chunk_ok d r (c, n).
Proof using.
  intros H. pose proof (co_chunks _ _ _ H) as Hall. rewrite Forall_forall in Hall. apply Hall.
  unfold alive. rewrite !elem_of_app, elem_of_cons. auto.
Qed.

Lemma chunk_end_bounds d r l1 c n l2 :
  core d r (l1 ++ (c, n) :: l2) → 0 ≤ ch_start c ∧ ch_start c + ch_size c ≤ S + L.
Proof using.
  intros H. destruct (entry_ok _ _ _ _ _ _ H) as (?&?&?&E&_).
  destruct (co_params _ _ _ H). pose proof (co_next _ _ _ H).
  pose proof (chunk_offset_bounds P L ltac:(lia) ltac:(lia) ltac:(lia) (ch_id c + 1) ltac:(lia)).
  pose proof (chunk_offset_bounds P L ltac:(lia) ltac:(lia) ltac:(lia) (ch_id c) ltac:(lia)). lia.
Qed.

Lemma copy_core d r l1 c n l2 p b b' m :
  core d r (l1 ++ (c, n) :: l2) →
  p = slice f (ch_start c + n) (ch_start c + n + Z.of_nat (length p)) →
  n + Z.of_nat (length p) ≤ ch_size c →
  bufs d !! ch_buf c = Some b → buf_Write false p b = (b', inr m) →
  core (upd_bufs (<[ch_buf c := b']> (bufs d)) d) r (l1 ++ (c, n + m) :: l2) ∧
  (∀ k b0, r ≤ k < nextChunk d → bufof d k = Some b0 →
     ∃ b1, bufof (upd_bufs (<[ch_buf c := b']> (bufs d)) d) k = Some b1 ∧ buf_off b1 = buf_off b0).
Proof using.
  intros H Ep Hp Eb Ew. pose proof (entry_ok _ _ _ _ _ _ H) as Hok.
  pose proof (co_bufs _ _ _ H) as Hbs. pose proof (co_ring _ _ _ H) as Hring.
  unfold buf_Write in Ew. destruct (buf_data b) as [data|] eqn:Ed; [|done].
  injection Ew as Eb' Em. set (d' := upd_bufs _ _).
  assert (nbufs d' = nbufs d) as En by (unfold nbufs, d'; simpl; by rewrite length_insert).
  assert (∀ k, ring_index d' k = ring_index d k) as Er by (intros; unfold ring_index; by rewrite En).
  assert (∀ k b0, bufof d k = Some b0 → ∃ b1, bufof d' k = Some b1 ∧ buf_off b1 = buf_off b0) as Hoff.
  { intros k b0 Ek. unfold bufof in *. rewrite Er. subst d'. simpl.
    destruct (decide (ring_index d k = ch_buf c)) as [E|].
    - rewrite E in *. rewrite list_lookup_insert_eq by (by eapply lookup_lt_Some).
      eexists. split; [done|]. subst b'. simpl. congruence.
    - rewrite list_lookup_insert_ne by done. eauto. }
  split; [|intros k b0 _; apply Hoff].
  destruct Hok as (Hid&Hn&Hst&Hend&Hpast&Hlive).
  destruct (chunk_end_bounds _ _ _ _ _ _ H) as [Hs0 Hs1].
  pose proof (co_params _ _ _ H) as Hpar.
  assert (params_ok d') as Hpar' by (destruct Hpar; split; done).
  assert (Forall (λ b, buf_data b ≠ None) (bufs d')) as Ho.
  { subst d'. simpl. apply Forall_insert; [apply (co_open _ _ _ H)|]. subst b'. done. }
  assert (length (bufs d') = length (bufs d)) as El by (subst d'; simpl; apply length_insert).
  assert (ch_id c < r → b' = b ∧ m = 0) as Hold.
  { intros Hr. specialize (Hpast Hr). destruct p as [|]; simpl in *; [|lia].
    subst b' m. split; [|done]. rewrite app_nil_r, <- Ed. by destruct b. }
  assert (ch_id c < r → ∀ k, bufof d' k = bufof d k) as Hsame.
  { intros Hr k. unfold bufof. rewrite Er. subst d'. simpl. f_equal.
    apply list_insert_id. by rewrite (proj1 (Hold Hr)). }
  assert (r ≤ ch_id c → bufof d (ch_id c) = Some b ∧ bufof d' (ch_id c) = Some b') as Hnew.
  { intros Hr. destruct (Hlive Hr) as [Ei _]. unfold bufof. rewrite Er, <- Ei. split; [done|].
    subst d'. simpl. apply list_lookup_insert_eq. by eapply lookup_lt_Some. }
  assert (nextChunk d' = nextChunk d) as Enx by done.
  eapply (core_entry d d'); try done.
  - unfold chunk_ok. rewrite Er. split_ands; try done; try lia.
    intros Hr. destruct (Hlive Hr) as [Ei Hf]. split; [done|]. destruct (Hnew Hr) as [E1 E2].
    rewrite E2. intros ? [= <-]. specialize (Hf b E1). unfold fill in *. rewrite Ed in Hf. simpl in Hf.
    subst b'. simpl. rewrite length_app. lia.
  - intros k Hk Hne. destruct (decide (ch_id c < r)) as [|Hge]; [by apply Hsame|].
    unfold bufof. rewrite Er. subst d'. simpl. apply list_lookup_insert_ne.
    destruct (Hlive ltac:(lia)) as [-> _]. intros E.
    apply (ring_index_inj d r (nextChunk d)) in E; lia.
  - intros Hr. destruct (Hnew ltac:(lia)) as [E1 E2]. exists b'. split; [done|].
    destruct (Hlive ltac:(lia)) as [_ Hf]. specialize (Hf b E1). unfold fill in Hf. rewrite Ed in Hf. simpl in Hf.
    destruct (co_holds _ _ _ H (ch_id c)) as (b2&E3&data2&Ed2&Es&Ho2&Hl&Edata); [lia|].
    assert (b2 = b) as -> by congruence. assert (data2 = data) as -> by congruence.
    destruct Hpar.
    destruct (chunk_step P L ltac:(lia) ltac:(lia) ltac:(lia) (ch_id c)) as [Eo Hsz].
    { pose proof (co_next _ _ _ H). lia. }
    pose proof (chunk_offset_bounds P L ltac:(lia) ltac:(lia) ltac:(lia) (ch_id c)
      ltac:(pose proof (co_next _ _ _ H); lia)).
    exists (data ++ p). subst b'. simpl. rewrite length_app. split_ands; try done; try lia.
    rewrite Edata at 1. rewrite Ep at 1.
    replace (ch_start c + n) with (off (ch_id c) + buf_off b + Z.of_nat (length data)) by lia.
    rewrite slice_cat by lia. f_equal. lia.
Qed.

(** The reader takes bytes out of the current buffer. *)
Lemma core_refill d r fl b b' :
  core d r fl → r < nextChunk d → bufof d r = Some b → holds r b' → fill b' = fill b →
  core (upd_bufs (<[ring_index d r := b']> (bufs d)) d) r fl ∧
  (∀ k, r < k < nextChunk d → bufof (upd_bufs (<[ring_index d r := b']> (bufs d)) d) k = bufof d k) ∧
  bufof (upd_bufs (<[ring_index d r := b']> (bufs d)) d) r = Some b'.
Proof using.
  intros H Hr Eb Hh Hf. set (d' := upd_bufs _ _).
  assert (nbufs d' = nbufs d) as En by (unfold nbufs, d'; simpl; by rewrite length_insert).
  assert (∀ k, ring_index d' k = ring_index d k) as Er by (intros; unfold ring_index; by rewrite En).
  assert (∀ k, r < k < nextChunk d → bufof d' k = bufof d k) as Hne.
  { intros k Hk. unfold bufof. rewrite Er. subst d'. simpl. apply list_lookup_insert_ne. intros E.
    apply (ring_index_inj d r (nextChunk d)) in E; try lia; destruct H; done. }
  assert (bufof d' r = Some b') as Eb'.
  { unfold bufof. rewrite Er. subst d'. simpl. apply list_lookup_insert_eq.
    apply ring_index_lt. by destruct H. }
  split; [|done].
  assert (nextChunk d' = nextChunk d) as Enx by done.
  destruct H; split; try done; try lia.
  - destruct co_params0. split; done.
  - rewrite En. exact co_grow0.
  - subst d'. simpl. apply Forall_insert; [done|]. destruct Hh as (data&E&_). congruence.
  - intros k Hk. destruct (decide (k = r)) as [->|]; [eauto|].
    rewrite Hne by lia. apply co_holds0. lia.
  - eapply Forall_impl; [exact co_chunks0|]. intros [c n] (?&?&?&?&Hpast&Hlive). unfold chunk_ok.
    split_ands; try lia. rewrite Er. intros Hc. destruct (Hlive Hc) as [? Hfc]. split; [done|].
    destruct (decide (ch_id c = r)) as [Ec|].
    + rewrite Ec in *. rewrite Eb'. intros ? [= <-]. rewrite Hf. by apply Hfc.
    + rewrite Hne by lia. done.
Qed.

(** Reading inside a buffer. *)
Lemma read_bytes d r fl b data cap :
  core d r fl → r < nextChunk d → bufof d r = Some b → buf_data b = Some data →
  let p := take cap data in
  let b' := {| buf_data := Some (drop cap data); buf_size := buf_size b;
               buf_off := buf_off b + Z.of_nat (length p) |} in
  holds r b' ∧ fill b' = fill b ∧
  slice f S (off r + buf_off b) ++ p = slice f S (off r + buf_off b').
Proof using.
  intros H Hr Eb Ed p b'. pose proof (co_next _ _ _ H). pose proof (co_r _ _ _ H).
  destruct (co_holds _ _ _ H r) as (b2&E2&data2&Ed2&Es&Ho&Hl&Edata); [lia|].
  assert (b2 = b) as -> by congruence. assert (data2 = data) as -> by congruence.
  destruct (co_params _ _ _ H).
  pose proof (chunk_offset_bounds P L ltac:(lia) ltac:(lia) ltac:(lia) r ltac:(lia)).
  assert (length p + length (drop cap data) = length data)%nat as Elen.
  { subst p. rewrite <- length_app, take_drop. done. }
  split_ands.
  - exists (drop cap data). simpl. split_ands; try done; try lia.
    rewrite Edata at 1. subst p. rewrite length_take in *.
    destruct (decide (cap ≤ length data)%nat) as [Hc|Hc].
    + rewrite slice_drop by lia. f_equal; lia.
    + rewrite <- Edata. rewrite drop_ge in * by lia. simpl in *.
      replace (Z.of_nat 0) with 0 by lia. by rewrite Z.add_0_r, slice_nil.
  - unfold fill. simpl. rewrite Ed. simpl. lia.
  - assert (p = slice f (off r + buf_off b) (off r + buf_off b + Z.of_nat (length p))) as Ep.
    { subst p. destruct (decide (cap ≤ length data)%nat) as [Hc|Hc].
      - rewrite length_take, Nat.min_l by lia. rewrite Edata at 1. apply slice_take; lia.
      - rewrite take_ge by lia. done. }
    rewrite Ep at 1. subst b'. simpl. rewrite slice_cat by lia. f_equal. lia.
Qed.

Lemma with_sd_inv y d fl :
  sys_inv y → core d (rPos y) fl → frame0 (sd y) d (rPos y) → sys_inv (with_sd d fl y).
Proof using.
  intros [] Hc (F1&F2&F3&F4). pose proof (co_r _ _ _ si_core0). split; try done; simpl in *.
  - congruence.
  - lia.
  - destruct (F2 (rPos y)) as [_ ->]; [lia|done].
  - intros k b Hk Eb. destruct (decide (k < nextChunk (sd y))) as [Hlt|Hge].
    + apply (si_unread0 k); [lia|]. destruct (F2 k) as [<- _]; [lia|done].
    + apply (F4 k); [lia|done].
  - destruct (F2 (rPos y)) as [-> _]; [lia|done].
Qed.

Lemma overload_inv y l1 c l2 d e :
  sys_inv y → inflight y = l1 ++ (c, 0) :: l2 → overload_step c (sd y) = (d, e) →
  sys_inv (with_sd d (if bool_decide (e = DlCancelConcurrency) then l1 ++ l2 else inflight y) y).
Proof using.
  intros H Ei Eo. pose proof (si_core _ H) as Hc. unfold overload_step in Eo.
  assert (∀ v w, (0 < v → 0 < concurrency (sd y) ∧ v ≤ concurrency (sd y)) →
    sys_inv (with_sd (upd_chan (chunkChannel (sd y) ++ [c]) (upd_conc v w (sd y))) (l1 ++ l2) y)) as Hq.
  { intros v w Hv. apply with_sd_inv; [done| |exact (frame0_refl (sd y) _)].
    apply (core_perm _ _ _ (inflight y)); [by apply core_conc|].
    unfold alive. simpl. rewrite Ei, fmap_app. simpl.
    rewrite <- app_assoc. simpl. apply Permutation_app_head. symmetry. apply Permutation_middle. }
  destruct (0 <? concurrency (sd y)) eqn:E; reflect_bools.
  - injection Eo as <- <-. cbn [bool_decide]. rewrite bool_decide_eq_true_2 by done.
    apply (Hq (- concurrency (sd y) - 1) (workers (sd y))). lia.
  - destruct (ch_newConcurrency c); injection Eo as <- <-.
    + rewrite bool_decide_eq_true_2 by done. apply (Hq (concurrency (sd y) - 1) (workers (sd y))). lia.
    + rewrite bool_decide_eq_false_2 by done. apply with_sd_inv; [done|done|apply frame0_refl].
Qed.

Lemma upd_bufs_same i b d : bufs d !! i = Some b → upd_bufs (<[i := b]> (bufs d)) d = d.
Proof using. intros E. rewrite list_insert_id by done. by destruct d. Qed.

(** The reader at the end of a buffer. *)
Lemma finish_inv y b :
  sys_inv y → bufof (sd y) (rPos y) = Some b → buf_size b ≤ buf_off b →
  (finishBuf (rPos y) (sd y) = Ret (sd y, None) ∧ out y = slice f S (S + L)) ∨
  ∃ d' i, finishBuf (rPos y) (sd y) = Ret (d', Some i) ∧
    sys_inv {| sd := d'; inflight := inflight y; rPos := rPos y + 1; curBuf := Some i;
               out := out y; eof := eof y |}.
Proof using.
  intros H Eb Hsz. pose proof (si_core _ H) as Hc. pose proof (si_r _ H) as Hr.
  pose proof (co_next _ _ _ Hc). pose proof (co_params _ _ _ Hc) as Hp. pose proof (co_r _ _ _ Hc).
  destruct (core_advance _ _ _ _ Hc Hr Eb Hsz) as [Hc' Eoff].
  pose proof (si_out _ H b Eb) as Eout. rewrite Eoff in Eout.
  destruct (chunk_step P L (po_part _ Hp) ltac:(destruct Hp; lia) (po_parts _ Hp) (rPos y)) as [Eo Hs]; [lia|].
  unfold finishBuf. rewrite (po_max _ Hp).
  destruct (part_count L P <=? rPos y + 1) eqn:E; reflect_bools.
  - left. split; [done|]. rewrite Eout. f_equal.
    assert (rPos y + 1 = part_count L P) as E1 by lia. rewrite E1, chunk_offset_last in Eo by (by destruct Hp). lia.
  - right. destruct (send_next (sd y) (rPos y) (inflight y)) as (d'&Es&Hd'&(F1&F2&F3&F4)&F5); [done|by destruct Hc..|].
    rewrite Es. rewrite getBuf_ring by (destruct Hd'; simpl; lia || done).
    do 2 eexists. split; [done|].
    assert (∀ k b0, rPos y < k < nextChunk d' → bufof d' k = Some b0 → buf_off b0 = 0) as Hun.
    { intros k b0 Hk Ek. destruct (decide (k < nextChunk (sd y))) as [Hlt|Hge].
      - apply (si_unread _ H k); [lia|]. destruct (F2 k) as [<- _]; [lia|done].
      - apply (F4 k); [lia|done]. }
    split; simpl; try done.
    + destruct Hd'; split; try done. destruct co_params0; split; done.
    + lia.
    + intros k b0 Hk. apply Hun. lia.
    + intros b0 Eb0. rewrite (Hun (rPos y + 1) b0); [|lia|done]. rewrite Eout. f_equal. lia.
    + by destruct H.
Qed.

Lemma read_inv y cap d r i res :
  sys_inv y → mr_Read false cap (rPos y) (curBuf y) (sd y) = Ret (d, r, i, res) →
  sys_inv {| sd := d; inflight := inflight y; rPos := r; curBuf := i;
             out := out y ++ (if res is ReadBytes p then p else []);
             eof := eof y || bool_decide (res = ReadEOF) |}.
Proof using.
  intros H E. pose proof (si_core _ H) as Hc. pose proof (si_r _ H) as Hr.
  unfold mr_Read in E. rewrite (si_cur _ H) in E.
  pose proof (co_r _ _ _ Hc).
  destruct (co_holds _ _ _ Hc (rPos y)) as (b&Eb&Hh); [lia|].
  unfold bufof in Eb. rewrite Eb in E. fold (bufof (sd y) (rPos y)) in Eb. pose proof Eb as Eb0. unfold bufof in Eb0.
  destruct Hh as (data&Ed&Es&Ho&Hl&Edata). unfold buf_Read in E.
  destruct (cap =? 0)%nat.
  { rewrite upd_bufs_same in E by done. injection E as <- <- <- <-. rewrite app_nil_r, orb_false_r.
    destruct H; split; done. }
  destruct (buf_size b <=? buf_off b) eqn:Esz; reflect_bools.
  - rewrite upd_bufs_same in E by done. destruct (finish_inv y b H Eb Esz) as [[Ef Eout]|(d'&j&Ef&Hi)]; rewrite Ef in E.
    + injection E as <- <- <- <-. rewrite app_nil_r, orb_true_r.
      destruct H; split; try done.
    + injection E as <- <- <- <-. by rewrite app_nil_r, orb_false_r.
  - rewrite Ed in E. injection E as <- <- <- <-. rewrite orb_false_r.
    destruct (read_bytes _ _ _ b data cap Hc Hr Eb Ed) as (Hh'&Hf&Ecat).
    destruct (core_refill _ _ _ b _ Hc Hr Eb Hh' Hf) as (Hc'&Hne&Eb').
    pose proof (si_out _ H b Eb) as Eout. pose proof (si_eof _ H) as Hee.
    split; simpl.
    + exact Hc'.
    + by destruct H.
    + done.
    + unfold ring_index, nbufs. simpl. by rewrite length_insert.
    + intros k b0 Hk. rewrite Hne by done. by apply (si_unread _ H).
    + rewrite Eb'. intros ? [= <-]. rewrite Eout, Ecat. done.
    + intros He. exfalso. specialize (Hee He). rewrite Eout in Hee.
      apply (f_equal (λ l, Z.of_nat (length l))) in Hee. destruct (co_params _ _ _ Hc).
      pose proof (co_next _ _ _ Hc).
      destruct (chunk_step P L ltac:(lia) ltac:(lia) ltac:(lia) (rPos y)) as [Eo Hs]; [lia|].
      pose proof (chunk_offset_bounds P L ltac:(lia) ltac:(lia) ltac:(lia) (rPos y + 1) ltac:(lia)).
      pose proof (chunk_offset_bounds P L ltac:(lia) ltac:(lia) ltac:(lia) (rPos y) ltac:(lia)).
      rewrite !slice_len in Hee by lia. lia.
Qed.

Lemma step_inv y y' : sys_inv y → sys_step f y y' → sys_inv y'.
Proof using.
  intros H Hstep. pose proof (si_core _ H) as Hc. pose proof (co_r _ _ _ Hc).
  destruct Hstep as [y c rest Ech|y d e Es|y l1 c n l2 p b b' m Ei Ep Hp Eb Ew|y l1 c n l2 Ei
    |y l1 c l2 d e Ei Hid Eo|y l1 c n l2 Ei|y v|y cap d r b res Er].
  - apply with_sd_inv; [done| |exact (frame0_refl (sd y) _)].
    apply (core_perm _ _ _ (inflight y)); [done|]. unfold alive. simpl. rewrite Ech. simpl.
    apply Permutation_middle.
  - destruct (send_new _ _ _ Hc) as (d'&e'&E&?&?). rewrite E in Es. injection Es as <- <-.
    by apply with_sd_inv.
  - rewrite Ei in Hc. destruct (copy_core _ _ _ _ _ _ _ _ _ _ Hc Ep Hp Eb Ew) as [Hc' Hoff].
    set (d' := upd_bufs _ _) in *.
    assert (∀ k, ring_index d' k = ring_index (sd y) k) as Hri.
    { intros. unfold ring_index, nbufs, d'. simpl. by rewrite length_insert. }
    assert (∀ k b1, rPos y ≤ k < nextChunk (sd y) → bufof d' k = Some b1 →
      ∃ b0, bufof (sd y) k = Some b0 ∧ buf_off b1 = buf_off b0) as Hback.
    { intros k b1 Hk E1. destruct (co_holds _ _ _ Hc k Hk) as (b0&E0&_).
      destruct (Hoff k b0 Hk E0) as (b2&E2&?). exists b0. split; [done|]. congruence. }
    destruct H; split; simpl; try done; try lia.
    + rewrite Hri. done.
    + intros k b1 Hk E1. destruct (Hback k b1) as (b0&E0&->); [lia|done|]. by apply (si_unread0 k).
    + intros b1 E1. destruct (Hback (rPos y) b1) as (b0&E0&->); [lia|done|]. by apply si_out0.
  - rewrite Ei in Hc. apply with_sd_inv; [done| |exact (frame0_refl (sd y) _)].
    destruct (entry_ok _ _ _ _ _ _ Hc) as (?&?&?&?&?&Hlive).
    destruct (chunk_end_bounds _ _ _ _ _ _ Hc). pose proof (co_params _ _ _ Hc) as Hpar. destruct (co_params _ _ _ Hc).
    eapply (core_entry (sd y) (incrWritten n (sd y))); try done.
    + apply (co_open _ _ _ Hc).
    + unfold chunk_ok, advance. simpl. rewrite !wrap64_id by (unfold_int64; lia). split_ands; try lia.
      intros Hr. destruct (Hlive Hr) as [? Hf]. split; [done|]. intros b Eb. specialize (Hf b Eb). lia.
    + apply (co_holds _ _ _ Hc).
  - by eapply overload_inv.
  - rewrite Ei in Hc. apply with_sd_inv; [done| |exact (frame0_refl (sd y) _)].
    apply core_written. by eapply core_drop.
  - apply with_sd_inv; [done|by apply core_limit|exact (frame0_refl (sd y) _)].
  - by apply (read_inv y cap).
Qed.

(** No step can panic. *)
Lemma no_panic y :
  sys_inv y → (∃ d e, sendChunkTask true (sd y) = Ret (d, e)) ∧
  ∀ canceled cap, ∃ x, mr_Read canceled cap (rPos y) (curBuf y) (sd y) = Ret x.
Proof using.
  intros H. pose proof (si_core _ H) as Hc. pose proof (co_r _ _ _ Hc). pose proof (si_r _ H).
  split; [destruct (send_new _ _ _ Hc) as (d'&e'&E&_); eauto|].
  intros canceled cap. unfold mr_Read. rewrite (si_cur _ H).
  destruct (co_holds _ _ _ Hc (rPos y)) as (b&Eb&(data&Ed&_)); [lia|].
  pose proof Eb as Eb0. unfold bufof in Eb0. rewrite Eb0. unfold buf_Read.
  destruct canceled; [eauto|]. destruct (cap =? 0)%nat; [eauto|].
  destruct (buf_size b <=? buf_off b) eqn:E; reflect_bools; [|rewrite Ed; eauto].
  rewrite upd_bufs_same by done.
  destruct (finish_inv y b H Eb E) as [[-> _]|(d'&j&->&_)]; eauto.
Qed.
End invariant.

(** ** Starting a download *)

(** The length of the requested range, the part size and the concurrency after
    the defaults. *)
Definition eff_length (ra : Range) (size : Z) : Z :=
  if Length ra =? -1 then wrap64 (size - Start ra) else Length ra.
Definition eff_part (partSize : Z) : Z := if partSize =? 0 then DefaultDownloadPartSize else partSize.
Definition eff_conc (conc : Z) : Z := if conc =? 0 then DefaultDownloadConcurrency else conc.

(** The system when [Download] returns its reader. *)
Definition start (d : downloader) : sys :=
  {| sd := d; inflight := []; rPos := 0; curBuf := Some 0%nat; out := []; eof := false |}.

(** A request for a range of [f] that a multi-part download was started for. *)
Record started (f : gostr) (partSize retries conc : Z) (lim : option Z) (ra : Range) (size : Z)
    (d : downloader) : Prop := {
  sta_part : 0 ≤ partSize ≤ max_int64;
  sta_conc : 0 ≤ conc;
  sta_start : 0 ≤ Start ra;
  sta_len : 0 < eff_length ra size;
  sta_end : Start ra + eff_length ra size ≤ Z.of_nat (length f);
  sta_file : Z.of_nat (length f) ≤ max_int64;
  sta_run : Download partSize retries conc lim ra size = Ret (d, inr false);
}.

Lemma part_count_pos L P : 0 < L → 0 < P → 0 < part_count L P.
Proof.
  intros. unfold part_count. rewrite Z.rem_mod_nonneg, Z.quot_div_nonneg by lia.
  pose proof (Z_div_mod_eq_full L P). pose proof (Z.mod_pos_bound L P ltac:(lia)).
  case_goal; reflect_bools; pose proof (Z.div_pos L P ltac:(lia) ltac:(lia)); nia.
Qed.

Lemma limit_start d :
  concurrencyCheck d = inl DlExceedMaxConcurrency ∨ ∃ l, concurrencyCheck d = inr (upd_limit l d).
Proof.
  unfold concurrencyCheck. destruct (limit d) as [l|] eqn:E.
  - destruct (limit_sub l); eauto.
  - right. exists None. rewrite <- E. by destruct d.
Qed.

(** The first chunk. *)
Lemma first_chunk f P S L d :
  params_ok f P S L d → nextChunk d = 0 → bufs d = [] → chunkChannel d = [] → pos d = S →
  concurrency d = cfg_Concurrency d → 2 ≤ cfg_Concurrency d → readingID d = 0 →
  ∃ d', sendChunkTask true d = Ret (d', None) ∧ sys_inv f P S L (start d') ∧ bufs d' ≠ [] ∧ err d' = err d.
Proof.
  intros Hp En Eb Ech Epos Ec HC Erd. unfold sendChunkTask, emit_chunk.
  destruct (chunk_step P L ltac:(destruct Hp; lia) ltac:(destruct Hp; lia) ltac:(by destruct Hp) 0) as [Eo Hsz].
  { destruct Hp. lia. }
  change (chunk_offset P L 0) with 0 in Eo. replace (0 + 1) with 1 in Eo by lia.
  pose proof (chunk_offset_bounds P L ltac:(destruct Hp; lia) ltac:(destruct Hp; lia) ltac:(by destruct Hp) 1
    ltac:(destruct Hp; lia)) as Hb1.
  rewrite En, (proj2 (Z.leb_gt (concurrency d) 0)), (proj2 (Z.ltb_lt 0 (concurrency d))) by lia.
  rewrite (Z.ltb_irrefl 0).
  cbn [pos maxPos upd_bufs upd_conc p_Range nextChunk cfg_PartSize bufs chunkChannel].
  rewrite Epos, ?Eb, ?Ech, ?En, (po_maxPos _ _ _ _ _ Hp), (po_cfg _ _ _ _ _ Hp), (po_range _ _ _ _ _ Hp).
  rewrite (proj2 (Z.ltb_lt S (S + L))) by (destruct Hp; lia).
  cbn [app length Length lookup list_lookup NewBuf buf_Reset buf_data insert list_insert
       upd_bufs upd_conc upd_pos upd_chan pos nextChunk chunkChannel bufs cfg_PartSize p_Range].
  rewrite ?Epos, ?Eb, ?Ech, ?En, (wrap64_id (S + chunk_size P L 0)) by (destruct Hp; unfold_int64; lia).
  eexists. split; [done|]. split; [|done]. set (d' := upd_chan _ _).
  assert (nextChunk d' = 1) as En' by done.
  assert (bufs d' = [{| buf_data := Some []; buf_size := chunk_size P L 0; buf_off := 0 |}]) as Eb' by done.
  assert (nbufs d' = 1) as Enb by (unfold nbufs; by rewrite Eb').
  assert (bufof d' 0 = Some {| buf_data := Some []; buf_size := chunk_size P L 0; buf_off := 0 |}) as E0.
  { unfold bufof. rewrite ring_index_small by lia. by rewrite Eb'. }
  assert (core f P S L d' 0 []) as Hc.
  { split; try lia.
    - destruct Hp; split; done.
    - rewrite En'. destruct Hp. lia.
    - rewrite En', Eo. subst d'. simpl. lia.
    - intros _. rewrite En'. subst d'. simpl. lia.
    - rewrite En'. subst d'. simpl. lia.
    - rewrite Eb'. constructor; done.
    - intros k Hk. assert (k = 0) as -> by lia. eexists. split; [done|]. exists [].
      simpl. rewrite !Z.add_0_r, slice_nil. split_ands; done || lia.
    - unfold alive. subst d'. simpl. constructor; [|done]. unfold chunk_ok. simpl.
      change (chunk_offset P L 0) with 0. split_ands; try done; try lia.
      intros _. split; [done|]. intros b [= <-]. unfold fill. simpl. lia.
    - unfold alive. subst d'. simpl. apply NoDup_singleton. }
  split; cbn [sd rPos curBuf out eof start]; try done; try lia.
  intros b. rewrite E0. intros [= <-]. simpl. change (chunk_offset P L 0) with 0.
  by rewrite !Z.add_0_r, slice_nil.
Qed.

Lemma start_inv f partSize retries conc lim ra size d :
  started f partSize retries conc lim ra size d →
  sys_inv f (eff_part partSize) (Start ra) (eff_length ra size) (start d).
Proof.
  intros [Hp Hc Hs Hl He Hf Hrun]. unfold Download in Hrun.
  fold (eff_length ra size) (eff_part partSize) (eff_conc conc) in Hrun.
  set (L := eff_length ra size) in *. set (P := eff_part partSize) in *. set (S := Start ra) in *.
  assert (0 < P ≤ max_int64) as HP.
  { subst P. unfold eff_part, DefaultDownloadPartSize. unfold_int64. case_goal; reflect_bools; lia. }
  assert (0 < eff_conc conc) as HC.
  { unfold eff_conc, DefaultDownloadConcurrency. case_goal; reflect_bools; lia. }
  pose proof (part_count_pos L P Hl ltac:(lia)) as Hmp.
  unfold download in Hrun.
  match type of Hrun with context [concurrencyCheck ?x] => destruct (limit_start x) as [E|[l E]] end;
    rewrite E in Hrun; [done|].
  cbn [upd_limit p_Range Length Start cfg_PartSize cfg_Concurrency] in Hrun.
  destruct (_ =? 1) eqn:EC in Hrun; [done|]. reflect_bools.
  match type of Hrun with context [sendChunkTask true ?x] => destruct (first_chunk f P S L x) as (d'&Es&Hi&Hb&Ee) end;
    try done.
  - split; try done; try lia; simpl.
    + destruct (part_count L P <? eff_conc conc) eqn:E2; reflect_bools; lia.
    + rewrite wrap64_id; unfold_int64; lia.
  - simpl. destruct (part_count L P <? eff_conc conc) eqn:E2; reflect_bools; lia.
  - rewrite Es in Hrun. destruct (bufs d'); [done|]. rewrite Ee in Hrun. simpl in Hrun.
    injection Hrun as <-. done.
Qed.

Lemma reachable_inv f partSize retries conc lim ra size d y :
  started f partSize retries conc lim ra size d → rtc (sys_step f) (start d) y →
  sys_inv f (eff_part partSize) (Start ra) (eff_length ra size) y.
Proof.
  intros Hst. apply (rtc_ind_r (λ y, sys_inv f (eff_part partSize) (Start ra) (eff_length ra size) y)).
  - by eapply start_inv.
  - intros x z _ Hstep Hx. by eapply step_inv.
Qed.

(** C2. Whatever the interleaving of the workers (connecting, copying, failing
    and retrying, being throttled, stopping) and of the reader, what has been
    read from the reader [Download] returns is a prefix of the requested range
    of the file, and when the reader reports the end it is the whole range. *)
Theorem Download_delivers f partSize retries conc lim ra size d y :
  started f partSize retries conc lim ra size d →
  rtc (sys_step f) (start d) y →
  let range := slice f (Start ra) (Start ra + eff_length ra size) in
  out y `prefix_of` range ∧ (eof y = true → out y = range).
Proof.
  intros Hst Hr. pose proof (reachable_inv _ _ _ _ _ _ _ _ _ Hst Hr) as H. cbn zeta.
  split; [|by apply (si_eof _ _ _ _ _ H)].
  pose proof (si_core _ _ _ _ _ H) as Hc. pose proof (si_r _ _ _ _ _ H). pose proof (co_r _ _ _ _ _ _ _ Hc).
  destruct (co_holds _ _ _ _ _ _ _ Hc (rPos y)) as (b&Eb&(data&Ed&Es&Ho&Hl&_)); [lia|].
  rewrite (si_out _ _ _ _ _ H b Eb). pose proof (co_next _ _ _ _ _ _ _ Hc).
  destruct (co_params _ _ _ _ _ _ _ Hc).
  set (P := eff_part partSize) in *. set (L := eff_length ra size) in *.
  destruct (chunk_step P L ltac:(lia) ltac:(lia) ltac:(lia) (rPos y)) as [Eo Hs]; [lia|].
  pose proof (chunk_offset_bounds P L ltac:(lia) ltac:(lia) ltac:(lia) (rPos y + 1) ltac:(lia)).
  pose proof (chunk_offset_bounds P L ltac:(lia) ltac:(lia) ltac:(lia) (rPos y) ltac:(lia)).
  eexists. symmetry. apply slice_cat; lia.
Qed.

Lemma live_count (ids : list Z) r n :
  Forall (λ k, 0 ≤ k < n) ids → NoDup ids → 0 ≤ r ≤ n →
  Z.of_nat (length (filter (λ k, r ≤ k) ids)) ≤ n - r.
Proof.
  intros Hall Hnd Hr. pose proof (NoDup_filter (λ k, r ≤ k) _ Hnd) as Hnd'.
  pose proof (length_seqZ r (n - r)).
  assert ((length (filter (λ k, r ≤ k)%Z ids) ≤ length (seqZ r (n - r)%Z))%nat); [|lia].
  apply NoDup_incl_length; [by apply NoDup_ListNoDup|].
  intros k Hk%list_elem_of_In%list_elem_of_filter. apply list_elem_of_In, elem_of_seqZ.
  rewrite Forall_forall in Hall. destruct Hk as [Hge Hk]. specialize (Hall k Hk). lia.
Qed.

(** The ids of the chunks in the channel and with the workers that the reader
    still needs. *)
Definition live_ids (y : sys) : list Z :=
  filter (λ k, rPos y ≤ k) ((λ e, ch_id e.1) <$> alive (sd y) (inflight y)).

(** In every reachable state: at most [Concurrency] chunks the reader still
    needs are queued or being downloaded, so that sending on the channel never
    blocks under the mutex; no two of them share a buffer, and each writes to
    the buffer the reader will look for it in; the chunk the reader waits for has been
    scheduled; and neither connecting nor reading panics. *)
Theorem schedule_safe f partSize retries conc lim ra size d y :
  started f partSize retries conc lim ra size d →
  rtc (sys_step f) (start d) y →
  Z.of_nat (length (live_ids y)) ≤ cfg_Concurrency (sd y) ∧
  (∀ e1 e2, e1 ∈ alive (sd y) (inflight y) → e2 ∈ alive (sd y) (inflight y) →
     rPos y ≤ ch_id e1.1 → rPos y ≤ ch_id e2.1 → ch_buf e1.1 = ch_buf e2.1 → ch_id e1.1 = ch_id e2.1) ∧
  (∀ e, e ∈ alive (sd y) (inflight y) → rPos y ≤ ch_id e.1 →
     getBuf (sd y) (ch_id e.1) = Some (ch_buf e.1)) ∧
  readingID (sd y) < nextChunk (sd y) ≤ maxPart (sd y) ∧
  (∃ d' e, sendChunkTask true (sd y) = Ret (d', e)) ∧
  (∀ canceled cap, ∃ x, mr_Read canceled cap (rPos y) (curBuf y) (sd y) = Ret x).
Proof.
  intros Hst Hr. pose proof (reachable_inv _ _ _ _ _ _ _ _ _ Hst Hr) as H.
  pose proof (si_core _ _ _ _ _ H) as Hc. pose proof (no_panic _ _ _ _ _ H) as [Hp1 Hp2].
  pose proof (co_r _ _ _ _ _ _ _ Hc). pose proof (co_chunks _ _ _ _ _ _ _ Hc) as Hall.
  assert (∀ e, e ∈ alive (sd y) (inflight y) → 0 ≤ ch_id e.1 < nextChunk (sd y) ∧
    (rPos y ≤ ch_id e.1 → ch_buf e.1 = ring_index (sd y) (ch_id e.1))) as Hin.
  { intros [c n] Hin. rewrite Forall_forall in Hall. destruct (Hall _ Hin) as (?&?&?&?&?&Hl).
    split; [done|]. intros Hge. by apply Hl. }
  split; [|split; [|split; [|split; [|done]]]].
  - pose proof (co_cap _ _ _ _ _ _ _ Hc). unfold live_ids.
    assert (Forall (λ k, 0 ≤ k < nextChunk (sd y)) ((λ e, ch_id e.1) <$> alive (sd y) (inflight y))) as Hids.
    { apply Forall_fmap, Forall_forall. intros e He. by apply Hin. }
    pose proof (live_count _ (rPos y) _ Hids (co_ids _ _ _ _ _ _ _ Hc) ltac:(done)). lia.
  - intros e1 e2 H1 H2 G1 G2. rewrite (proj2 (Hin _ H1) G1), (proj2 (Hin _ H2) G2).
    pose proof (proj1 (Hin _ H1)). pose proof (proj1 (Hin _ H2)).
    apply (ring_index_inj (sd y) (rPos y) (nextChunk (sd y))); try lia; by destruct Hc.
  - intros e H1 G1. rewrite (proj2 (Hin _ H1) G1). apply getBuf_ring; [by destruct Hc|].
    pose proof (proj1 (Hin _ H1)). lia.
  - rewrite (si_read _ _ _ _ _ H), (po_max _ _ _ _ _ (co_params _ _ _ _ _ _ _ Hc)).
    pose proof (si_r _ _ _ _ _ H). pose proof (co_next _ _ _ _ _ _ _ Hc). lia.
Qed.

(** A multi-part download of an empty range panics: no part is
    scheduled and [download] takes the first of no buffers. *)
Theorem Download_empty_panics partSize retries conc lim ra size :
  eff_length ra size = 0 → 0 ≤ conc →
  limit_sub (default 1 lim) ≠ None →
  Download partSize retries conc lim ra size = Panic.
Proof.
  intros HL Hc Hl. unfold Download. fold (eff_length ra size) (eff_conc conc).
  rewrite HL. unfold download.
  match goal with |- context [concurrencyCheck ?x] =>
    assert (∃ l, concurrencyCheck x = inr (upd_limit l x)) as [l ->] end.
  { unfold concurrencyCheck. simpl. destruct lim as [l|]; simpl in *; [|by exists None].
    destruct (limit_sub l) as [l'|]; [|done]. by exists (Some l'). }
  cbn [upd_limit p_Range Length Start cfg_PartSize cfg_Concurrency].
  assert (part_count 0 (if partSize =? 0 then DefaultDownloadPartSize else partSize) = 0) as ->.
  { unfold part_count. destruct (partSize =? 0) eqn:E; [done|]. reflect_bools. rewrite Z.quot_0_l, Z.rem_0_l by done. done. }
  assert ((if 0 <? eff_conc conc then 0 else eff_conc conc) = 0) as ->.
  { case_goal; [done|]. reflect_bools. revert Heqb. unfold eff_conc, DefaultDownloadConcurrency.
    case_goal; reflect_bools; lia. }
  reflexivity.
Qed.

(** ** A complete run *)

(** Six bytes in parts of four: a first chunk of two bytes and one of four. *)
Definition run_file : gostr := #"abcdef".
Definition run_range : Range := mkRange 0 (-1).

Definition run_start : downloader :=
  {| cfg_PartSize := 4; cfg_PartBodyMaxRetries := 3; cfg_Concurrency := 2; limit := None;
     p_Range := mkRange 0 6; p_Size := 6;
     chunkChannel := [{| ch_start := 0; ch_size := 2; ch_id := 0; ch_buf := 0; ch_newConcurrency := true |}];
     nextChunk := 1; bufs := [{| buf_data := Some []; buf_size := 2; buf_off := 0 |}];
     written := 0; err := None; concurrency := 1; maxPart := 2; pos := 2; maxPos := 6;
     readingID := 0; workers := 1 |}.

Lemma run_started : started run_file 4 3 2 None run_range 6 run_start.
Proof. split; [unfold_int64; lia|lia|simpl; lia|vm_compute; done|vm_compute; done|vm_compute; done|vm_compute; done]. Qed.

(** The end of a run in which the second worker starts as soon as the first
    connects. *)
Definition run_end : sys :=
  {| sd := {| cfg_PartSize := 4; cfg_PartBodyMaxRetries := 3; cfg_Concurrency := 2; limit := None;
              p_Range := mkRange 0 6; p_Size := 6; chunkChannel := []; nextChunk := 2;
              bufs := [{| buf_data := Some []; buf_size := 2; buf_off := 2 |};
                       {| buf_data := Some []; buf_size := 4; buf_off := 4 |}];
              written := 6; err := None; concurrency := 0; maxPart := 2; pos := 6; maxPos := 6;
              readingID := 1; workers := 2 |};
     inflight := []; rPos := 1; curBuf := Some 1%nat; out := #"abcdef"; eof := true |}.

Lemma rtc_eq {A} (R : relation A) x y : x = y → rtc R x y.
Proof. intros ->. apply rtc_refl. Qed.

Lemma run_trace : rtc (sys_step run_file) (start run_start) run_end.
Proof.
  eapply rtc_l; [eapply st_take; vm_compute; reflexivity|].
  eapply rtc_l; [eapply st_connect; vm_compute; reflexivity|].
  eapply rtc_l.
  { eapply (st_copy _ _ [] _ _ [] #"ab"); [vm_compute; reflexivity|vm_compute; reflexivity|vm_compute; discriminate
      |vm_compute; reflexivity|vm_compute; reflexivity]. }
  eapply rtc_l; [eapply (st_stop _ _ []); vm_compute; reflexivity|].
  eapply rtc_l; [eapply (st_read _ _ 8); vm_compute; reflexivity|].
  eapply rtc_l; [eapply (st_read _ _ 8); vm_compute; reflexivity|].
  eapply rtc_l; [eapply st_take; vm_compute; reflexivity|].
  eapply rtc_l.
  { eapply (st_copy _ _ [] _ _ [] #"cdef"); [vm_compute; reflexivity|vm_compute; reflexivity|vm_compute; discriminate
      |vm_compute; reflexivity|vm_compute; reflexivity]. }
  eapply rtc_l; [eapply (st_stop _ _ []); vm_compute; reflexivity|].
  eapply rtc_l; [eapply (st_read _ _ 8); vm_compute; reflexivity|].
  eapply rtc_l; [eapply (st_read _ _ 8); vm_compute; reflexivity|].
  apply rtc_eq. vm_compute. reflexivity.
Qed.

Lemma Download_delivers_witness :
  rtc (sys_step run_file) (start run_start) run_end ∧ eof run_end = true ∧
  out run_end = slice run_file 0 6.
Proof.
  split; [exact run_trace|]. split; [reflexivity|].
  exact (proj2 (Download_delivers _ _ _ _ _ _ _ _ _ run_started run_trace) eq_refl).
Defined.

(** ** Downloading one chunk with retries *)

Lemma emit_fields nc nb d d' :
  emit_chunk nc nb d = Ret d' →
  cfg_PartBodyMaxRetries d' = cfg_PartBodyMaxRetries d ∧ written d' = written d ∧ err d' = err d.
Proof.
  unfold emit_chunk. destruct nb.
  - cbn [pos maxPos upd_bufs p_Range nextChunk cfg_PartSize bufs chunkChannel].
    case_goal; [|intros [= <-]; done]. case_goal; [|done]. case_goal; [|done]. intros [= <-]. done.
  - destruct (getBuf d (nextChunk d)); [|done].
    case_goal; [|intros [= <-]; done]. case_goal; [|done]. case_goal; [|done]. intros [= <-]. done.
Qed.

Lemma send_fields nc d d' e :
  sendChunkTask nc d = Ret (d', e) →
  cfg_PartBodyMaxRetries d' = cfg_PartBodyMaxRetries d ∧ written d' = written d ∧ err d' = err d.
Proof.
  unfold sendChunkTask. destruct nc.
  - destruct (concurrency d <=? 0); [intros [= <- <-]; done|].
    assert (∀ d1, (if 0 <? nextChunk d then concurrencyCheck d else inr d) = inr d1 →
      cfg_PartBodyMaxRetries d1 = cfg_PartBodyMaxRetries d ∧ written d1 = written d ∧ err d1 = err d) as Hc.
    { intros d1. case_goal; [|intros [= <-]; done]. destruct (limit_start d) as [->|[l ->]]; [done|].
      intros [= <-]. done. }
    destruct (if 0 <? nextChunk d then _ else _) as [e'|d1]; [intros [= <- <-]; done|].
    destruct (Hc d1 eq_refl) as (E1&E2&E3).
    destruct (emit_chunk _ _ _) as [d2|] eqn:E; [|done]. intros [= <- <-].
    apply emit_fields in E. simpl in E. rewrite E1, E2, E3 in E. done.
  - destruct (emit_chunk _ _ _) as [d2|] eqn:E; [|done]. intros [= <- <-]. by apply emit_fields in E.
Qed.

(** One attempt: what it leaves of the state, and what it copied. *)
Lemma try_fields ans ch d d' n e data :
  tryDownloadChunk ans ch d = Ret (d', n, e, data) →
  cfg_PartBodyMaxRetries d' = cfg_PartBodyMaxRetries d ∧ written d' = written d ∧
  n = Z.of_nat (length data) ∧ (e = None → n = ch_size ch) ∧ (e = None → err d' = err d) ∧
  (data = [] ∨ ∃ resp, ans = AnsOk resp ∧ data = resp_data resp) ∧
  (e = Some DlOverloadRetry → n = 0).
Proof.
  unfold tryDownloadChunk. destruct ans as [[st|] msg|resp].
  - destruct (st =? _); [intros [= <- <- <- <-]; split_ands; auto; done|].
    destruct (ch_id ch =? 0); [destruct (is_overload st); intros [= <- <- <- <-]; split_ands; auto; done|].
    destruct (negb _); [intros [= <- <- <- <-]; split_ands; auto; done|].
    unfold overload_step. destruct (0 <? concurrency d); [|destruct (ch_newConcurrency ch)];
      intros [= <- <- <- <-]; split_ands; auto; done.
  - intros [= <- <- <- <-]; split_ands; auto; done.
  - case_goal; [intros [= <- <- <- <-]; split_ands; auto; done|].
    destruct (sendChunkTask true d) as [[d1 e1]|] eqn:Es; [|done]. apply send_fields in Es as (E1&E2&E3).
    destruct (bufs d1 !! ch_buf ch) as [b|]; [|done]. unfold buf_Write.
    destruct (buf_data b); [|intros [= <- <- <- <-]; split_ands; auto; done].
    destruct (resp_broken resp); [intros [= <- <- <- <-]; simpl; split_ands; eauto; done|].
    destruct (negb _) eqn:En; intros [= <- <- <- <-]; simpl; reflect_bools; split_ands; eauto; done.
Qed.

Section retry_loop.
Context (f : gostr) (HttpClient : nat → Range → answer).

(** A server that honours range requests: the body it sends, all of it or the
    part before the connection broke, is a prefix of the requested range. *)
Hypothesis honours_range : ∀ i r resp,
  0 ≤ Start r → 0 ≤ Length r → Start r + Length r ≤ Z.of_nat (length f) →
  HttpClient i r = AnsOk resp →
  resp_data resp = slice f (Start r) (Start r + Z.of_nat (length (resp_data resp))) ∧
  Z.of_nat (length (resp_data resp)) ≤ Length r.

Lemma try_slice i ch d d' n e data :
  0 ≤ ch_size ch → 0 ≤ ch_start ch → ch_start ch + ch_size ch ≤ Z.of_nat (length f) →
  tryDownloadChunk (HttpClient i (mkRange (ch_start ch) (ch_size ch))) ch d = Ret (d', n, e, data) →
  data = slice f (ch_start ch) (ch_start ch + n) ∧ 0 ≤ n ≤ ch_size ch.
Proof using honours_range.
  intros Hs Hst Hend E. apply try_fields in E as (_&_&->&_&_&Hd&_).
  destruct Hd as [->|(resp&Ea&->)].
  - simpl. rewrite Z.add_0_r, slice_nil. split; [done|lia].
  - apply honours_range in Ea; [|done..]. simpl in Ea. destruct Ea as [Ea Hl]. split; [done|lia].
Qed.

Lemma chunk_loop_exact script retry ov last_err ch d acc res a :
  Z.of_nat (length f) ≤ max_int64 → 0 ≤ a ≤ ch_start ch → 0 ≤ ch_size ch →
  ch_start ch + ch_size ch ≤ Z.of_nat (length f) →
  (cfg_PartBodyMaxRetries d < retry → last_err ≠ None) →
  Forall (λ t, at_err_before t = false ∧ at_err_after t = false) script →
  acc = slice f a (ch_start ch) →
  chunk_loop HttpClient script retry ov last_err ch d acc = Ret (Some res) →
  cr_err res = None → err (cr_state res) = None →
  cr_out res = slice f a (ch_start ch + ch_size ch) ∧
  written (cr_state res) = wrap64 (written d + ch_size ch).
Proof using honours_range.
  intros Hf. revert retry ov last_err ch d acc.
  induction script as [|t script IH]; intros retry ov last_err ch d acc Ha Hsz Hend Hlast Hall -> Hrun He Herr;
    simpl in Hrun.
  { destruct (_ <? retry) eqn:Er; [|done]. reflect_bools. injection Hrun as <-. by apply Hlast in Er. }
  destruct (_ <? retry) eqn:Er; reflect_bools.
  { injection Hrun as <-. by apply Hlast in Er. }
  inversion Hall as [|? ? [Hb Haft] Hall']; subst. rewrite Hb in Hrun. cbn [orb] in Hrun.
  destruct (bool_decide (err d ≠ None)) eqn:Ed; [injection Hrun as <-; reflect_bools; done|].
  destruct (tryDownloadChunk _ ch d) as [[[[d' n] e] data]|] eqn:Et; [|done].
  destruct (try_slice _ _ _ _ _ _ _ Hsz ltac:(lia) Hend Et) as [Edata Hn].
  apply try_fields in Et as (E1&E2&_&Hfull&_&_&Hover).
  assert (slice f a (ch_start ch) ++ data = slice f a (ch_start ch + n)) as Ecat.
  { rewrite Edata. apply slice_cat; lia. }
  rewrite Ecat in Hrun.
  destruct e as [e|].
  2: { injection Hrun as <-. simpl. rewrite Hfull by done. rewrite E2. done. }
  rewrite Haft in Hrun. cbn [orb] in Hrun.
  destruct (bool_decide (err d' ≠ None)) eqn:Ed'; [injection Hrun as <-; reflect_bools; done|].
  destruct (at_canceled t); [injection Hrun as <-; done|].
  destruct e; try (injection Hrun as <-; done).
  - destruct (_ * 10 <? _); [injection Hrun as <-; done|].
    destruct (at_backoff_canceled t); [injection Hrun as <-; done|].
    rewrite (Hover eq_refl) in *. rewrite Z.add_0_r in Hrun.
    eapply IH in Hrun; try done. rewrite E2 in Hrun. done.
  - destruct (0 <? n) eqn:En; reflect_bools.
    + assert (advance n ch = {| ch_start := ch_start ch + n; ch_size := ch_size ch - n; ch_id := ch_id ch;
        ch_buf := ch_buf ch; ch_newConcurrency := ch_newConcurrency ch |}) as Eadv.
      { unfold advance. rewrite !wrap64_id by (unfold_int64; lia). done. }
      rewrite Eadv in Hrun. eapply IH in Hrun; simpl; try done; try lia.
      simpl in Hrun. rewrite E2, wrap64_add_l in Hrun.
      replace (written d + n + (ch_size ch - n)) with (written d + ch_size ch) in Hrun by lia.
      replace (ch_start ch + n + (ch_size ch - n)) with (ch_start ch + ch_size ch) in Hrun by lia. done.
    + assert (n = 0) as -> by lia. rewrite Z.add_0_r in Hrun.
      eapply IH in Hrun; try done. rewrite E2 in Hrun. done.
Qed.
End retry_loop.

(** The loop ends: at most [R + 1] failed attempts and [10 R] overloaded ones. *)
Lemma chunk_loop_ends client script retry ov last_err ch d acc :
  let R := cfg_PartBodyMaxRetries d in
  0 ≤ ov ≤ R * 10 → retry ≤ R + 1 →
  (R + 1 - retry) + (R * 10 - ov) ≤ Z.of_nat (length script) →
  chunk_loop client script retry ov last_err ch d acc ≠ Ret None.
Proof.
  revert retry ov last_err ch d acc.
  induction script as [|t script IH]; intros retry ov last_err ch d acc R Hov Hre Hlen; subst R;
    simpl in *; (destruct (_ <? retry) eqn:E; [done|]); reflect_bools.
  { lia. }
  destruct (_ || _); [done|].
  destruct (tryDownloadChunk _ ch d) as [[[[d' n] e] data]|] eqn:Et; [|done].
  apply try_fields in Et as (E1&_). destruct e as [e|]; [|done].
  destruct (_ || _); [done|]. destruct (at_canceled t); [done|].
  destruct e; try done.
  - destruct (_ <? _) eqn:Eo; [done|]. reflect_bools. destruct (at_backoff_canceled t); [done|].
    apply IH; rewrite ?E1 in *; lia.
  - destruct (0 <? n); apply IH; cbn [cfg_PartBodyMaxRetries incrWritten]; rewrite ?E1 in *; lia.
Qed.

(** Downloading a chunk from a server that honours range requests: when
    [downloadChunk] returns nil and no error was recorded, the bytes copied
    over all its attempts are exactly the chunk's part of the file, however
    often the connection broke in the middle, and [written] has grown by the
    chunk's size. *)
Theorem downloadChunk_exact f HttpClient script ch d res :
  (∀ i r resp, 0 ≤ Start r → 0 ≤ Length r → Start r + Length r ≤ Z.of_nat (length f) →
     HttpClient i r = AnsOk resp →
     resp_data resp = slice f (Start r) (Start r + Z.of_nat (length (resp_data resp))) ∧
     Z.of_nat (length (resp_data resp)) ≤ Length r) →
  Z.of_nat (length f) ≤ max_int64 → 0 ≤ ch_start ch → 0 ≤ ch_size ch →
  ch_start ch + ch_size ch ≤ Z.of_nat (length f) → 0 ≤ cfg_PartBodyMaxRetries d →
  Forall (λ t, at_err_before t = false ∧ at_err_after t = false) script →
  downloadChunk HttpClient script ch d = Ret (Some res) →
  cr_err res = None → err (cr_state res) = None →
  cr_out res = slice f (ch_start ch) (ch_start ch + ch_size ch) ∧
  written (cr_state res) = wrap64 (written d + ch_size ch).
Proof.
  intros Hh Hf Hst Hsz Hend HR Hall Hrun He Herr.
  eapply (chunk_loop_exact f HttpClient Hh script 0 0 None ch d []); try done; try lia.
  by rewrite slice_nil.
Qed.

(** The retry loop of a chunk ends: with [PartBodyMaxRetries = R] it never
    makes more than [11 R + 1] attempts, whatever the server answers. *)
Theorem downloadChunk_terminates HttpClient script ch d :
  0 ≤ cfg_PartBodyMaxRetries d →
  11 * cfg_PartBodyMaxRetries d + 1 ≤ Z.of_nat (length script) →
  downloadChunk HttpClient script ch d ≠ Ret None.
Proof. intros HR Hlen. apply chunk_loop_ends; lia. Qed.

(** A server that breaks the first connection after one byte and is then
    overloaded once. *)
Definition flaky (i : nat) (r : Range) : answer :=
  let body := slice run_file (Start r) (Start r + Length r) in
  match i with
  | O => AnsOk {| resp_ContentRange := #"bytes 0-1/6"; resp_ContentLength := 2; resp_data := take 1 body; resp_broken := true |}
  | S O => AnsError (Some 503) #"overloaded"
  | _ => AnsOk {| resp_ContentRange := []; resp_ContentLength := 6; resp_data := body; resp_broken := false |}
  end.

Definition attempts (n : nat) : list attempt :=
  (λ i, {| at_number := i; at_err_before := false; at_err_after := false; at_canceled := false;
           at_backoff_canceled := false |}) <$> seq 0 n.

Definition flaky_chunk : chunk :=
  {| ch_start := 0; ch_size := 2; ch_id := 0; ch_buf := 0; ch_newConcurrency := true |}.

Lemma flaky_honours i r resp :
  0 ≤ Start r → 0 ≤ Length r → Start r + Length r ≤ Z.of_nat (length run_file) →
  flaky i r = AnsOk resp →
  resp_data resp = slice run_file (Start r) (Start r + Z.of_nat (length (resp_data resp))) ∧
  Z.of_nat (length (resp_data resp)) ≤ Length r.
Proof.
  intros Hs Hl He E. unfold flaky in E.
  assert (Z.of_nat (length (slice run_file (Start r) (Start r + Length r))) = Length r) as Elen.
  { rewrite slice_len by lia. lia. }
  destruct i as [|[|i]]; [|done|]; injection E as <-; cbn [resp_data].
  - assert (Z.of_nat (length (take 1 (slice run_file (Start r) (Start r + Length r)))) ≤ Length r).
    { rewrite length_take. lia. }
    split; [|done]. destruct (decide (Length r = 0)) as [E0|].
    + rewrite E0, Z.add_0_r, slice_nil. simpl. by rewrite Z.add_0_r, slice_nil.
    + rewrite slice_take by lia. rewrite slice_len by lia. f_equal. lia.
  - rewrite Elen. done.
Qed.

Definition flaky_result : chunk_result :=
  {| cr_state := incrWritten 1 (incrWritten 1
       (upd_bufs [{| buf_data := Some #"ab"; buf_size := 2; buf_off := 0 |};
                  {| buf_data := Some []; buf_size := 4; buf_off := 0 |}]
       (upd_chan (chunkChannel run_start ++
          [{| ch_start := 2; ch_size := 4; ch_id := 1; ch_buf := 1; ch_newConcurrency := true |}])
       (upd_pos 6 2 (upd_conc 0 2 run_start)))));
     cr_chunk := {| ch_start := 1; ch_size := 1; ch_id := 0; ch_buf := 0; ch_newConcurrency := true |};
     cr_err := None; cr_out := #"ab" |}.

