(* ===== verification/Runtime.v ===== *)
(** * The embedded server: [iosbridge/runtime.go]

    The iOS host starts and stops the server and moves its listener between
    the loopback and all interfaces, from any of its threads.  A call is a
    thread with a program counter; its atomic steps are the code between two
    points where another thread can come in (a mutex, or the calls that close
    listeners outside of it), and the system calls succeed or fail as the
    schedule says. *)

From S2P Require Import Prelude GoStrings Errs.

Local Open Scope Z_scope.

(** ** Options *)

Record Options := {
  DataDir : gostr;
  TempDir : gostr;
  BindAddress : gostr;
  Port : Z;
  LANEnabled : bool;
  opt_WebDAV : bool;
  opt_S3 : bool;
  opt_FTP : bool;
  opt_SFTP : bool;
  MemoryLimit : Z;
}.

Definition bind_options (address : gostr) (lan : bool) (o : Options) : Options :=
  {| DataDir := DataDir o; TempDir := TempDir o; BindAddress := address; Port := Port o; LANEnabled := lan;
     opt_WebDAV := opt_WebDAV o; opt_S3 := opt_S3 o; opt_FTP := opt_FTP o; opt_SFTP := opt_SFTP o;
     MemoryLimit := MemoryLimit o |}.

Definition loopback : gostr := #"127.0.0.1".
Definition all_interfaces : gostr := #"0.0.0.0".

Definition withDefaults (o : Options) : Options :=
  {| DataDir := DataDir o; TempDir := TempDir o;
     BindAddress := if bool_decide (BindAddress o = #"")
                    then if LANEnabled o then all_interfaces else loopback else BindAddress o;
     Port := if Port o =? 0 then 5244 else Port o;
     LANEnabled := LANEnabled o; opt_WebDAV := opt_WebDAV o; opt_S3 := opt_S3 o; opt_FTP := opt_FTP o;
     opt_SFTP := opt_SFTP o;
     MemoryLimit := if MemoryLimit o =? 0 then 100663296 else MemoryLimit o |}.

(** What [Start] checks before it takes the lock; [None] is a decoding error. *)
Definition start_options (json : option Options) : option Options :=
  match json with
  | None => None
  | Some o =>
      let o := withDefaults o in
      if bool_decide (DataDir o = #"") then None
      else if (Port o <? 1) || (65535 <? Port o) then None
      else Some o
  end.

(** ** The state *)

Record Runtime := {
  r_options : Options;
  r_listener : positive;
  r_ftp : bool;
  r_sftp : bool;
  r_stopped : bool;
}.

Definition set_listener (l : positive) (o : Options) (r : Runtime) : Runtime :=
  {| r_options := o; r_listener := l; r_ftp := r_ftp r; r_sftp := r_sftp r; r_stopped := r_stopped r |}.
Definition set_protocols (ftp sftp : bool) (r : Runtime) : Runtime :=
  {| r_options := r_options r; r_listener := r_listener r; r_ftp := ftp; r_sftp := sftp; r_stopped := r_stopped r |}.
Definition set_stopped (r : Runtime) : Runtime :=
  {| r_options := r_options r; r_listener := r_listener r; r_ftp := r_ftp r; r_sftp := r_sftp r; r_stopped := true |}.

(** Where a call of the host is. *)
Inductive pc :=
  | StartWait (o : Options)
  | StartInit (o : Options)
  | StartTemp (o : Options)
  | StartListen (o : Options)
  | StartFTP (rid : positive)
  | StartSFTP (rid : positive)
  | StartPublish (rid : positive)
  | StartCleanup (rid : positive)
  | StopBegin (rid : positive)
  | StopClose (rid l : positive)
  | StopRelease (rid : positive)
  | StopForget (rid : positive)
  | SetLAN (rid : positive) (enabled : bool)
  | Finished.

(** The process: the runtimes, [active.r] and the thread that holds its lock,
    the open listeners with their addresses, the open database handles with
    the current one, and the calls.  [published] are the runtimes [Start]
    returned and [leaked] the handles of initialisations that panicked; the
    program has neither variable. *)
Record sys := {
  runtimes : gmap positive Runtime;
  active_r : option positive;
  active_mu : option nat;
  sockets : gmap positive (gostr * Z);
  handles : gset positive;
  db_current : option positive;
  threads : list pc;
  published : gset positive;
  leaked : gset positive;
}.

Definition with_thread (i : nat) (c : pc) (s : sys) : sys :=
  {| runtimes := runtimes s; active_r := active_r s; active_mu := active_mu s; sockets := sockets s;
     handles := handles s; db_current := db_current s; threads := <[i := c]> (threads s);
     published := published s; leaked := leaked s |}.
Definition with_lock (o : option nat) (s : sys) : sys :=
  {| runtimes := runtimes s; active_r := active_r s; active_mu := o; sockets := sockets s;
     handles := handles s; db_current := db_current s; threads := threads s;
     published := published s; leaked := leaked s |}.
Definition with_active (o : option positive) (s : sys) : sys :=
  {| runtimes := runtimes s; active_r := o; active_mu := active_mu s; sockets := sockets s;
     handles := handles s; db_current := db_current s; threads := threads s;
     published := published s; leaked := leaked s |}.
Definition with_runtime (rid : positive) (r : Runtime) (s : sys) : sys :=
  {| runtimes := <[rid := r]> (runtimes s); active_r := active_r s; active_mu := active_mu s; sockets := sockets s;
     handles := handles s; db_current := db_current s; threads := threads s;
     published := published s; leaked := leaked s |}.
Definition with_sockets (m : gmap positive (gostr * Z)) (s : sys) : sys :=
  {| runtimes := runtimes s; active_r := active_r s; active_mu := active_mu s; sockets := m;
     handles := handles s; db_current := db_current s; threads := threads s;
     published := published s; leaked := leaked s |}.
Definition with_db (h : gset positive) (c : option positive) (lk : gset positive) (s : sys) : sys :=
  {| runtimes := runtimes s; active_r := active_r s; active_mu := active_mu s; sockets := sockets s;
     handles := h; db_current := c; threads := threads s; published := published s; leaked := lk |}.
Definition with_published (p : gset positive) (s : sys) : sys :=
  {| runtimes := runtimes s; active_r := active_r s; active_mu := active_mu s; sockets := sockets s;
     handles := handles s; db_current := db_current s; threads := threads s;
     published := p; leaked := leaked s |}.

(** *** The calls the steps make *)

Definition listen_on (address : gostr) (port : Z) (s : sys) : positive * sys :=
  let l := fresh (dom (sockets s)) in (l, with_sockets (<[l := (address, port)]> (sockets s)) s).
Definition close_listener (l : positive) (s : sys) : sys := with_sockets (delete l (sockets s)) s.

(** [cmd.Init] opens a database and makes it the current one; [cmd.Release]
    closes the current one. *)
Definition open_db (keep : bool) (s : sys) : sys :=
  let h := fresh (handles s ∪ leaked s) in
  with_db (handles s ∪ {[h]}) (Some h) (if keep then leaked s ∪ {[h]} else leaked s) s.
Definition Release (s : sys) : sys :=
  match db_current s with
  | Some h => with_db (handles s ∖ {[h]}) (db_current s) (leaked s) s
  | None => s
  end.

(** What the system answers to a step; [FailLate] is a panic of the
    initialisation after the database was opened, and a second failure where a
    step makes two calls. *)
Inductive answer := Success | Failure | FailLate.

Definition failed (a : answer) : bool := match a with Success => false | _ => true end.

(** The end of [Start]: the lock is released by the deferred call. *)
Definition leave (i : nat) (s : sys) : sys := with_thread i Finished (with_lock None s).

(** [cleanupStartFailure], on a runtime no other thread knows. *)
Definition cleanupStartFailure (rid : positive) (r : Runtime) (s : sys) : sys :=
  Release (close_listener (r_listener r) (with_runtime rid (set_protocols false false (set_stopped r)) s)).

(** The locked part of [SetLANEnabled]: the old listener is closed first; when
    the new one cannot be opened the old address is tried again. *)
Definition rebind (rid : positive) (r : Runtime) (enabled : bool) (a : answer) (s : sys) : sys :=
  let address := if enabled then all_interfaces else loopback in
  let s := close_listener (r_listener r) s in
  match a with
  | Success =>
      let '(l, s) := listen_on address (Port (r_options r)) s in
      with_runtime rid (set_listener l (bind_options address enabled (r_options r)) r) s
  | Failure =>
      let '(l, s) := listen_on (BindAddress (r_options r)) (Port (r_options r)) s in
      with_runtime rid (set_listener l (r_options r) r) s
  | FailLate => s
  end.

(** The thread goes on at [c]. *)
Definition next (i : nat) (c : pc) (s : sys) : option sys := Some (with_thread i c s).

(** One step of a call of [Start]: [None] when it waits for the lock. *)
Definition Start_step (i : nat) (a : answer) (c : pc) (s : sys) : option sys :=
  match c with
  | StartWait o =>
      match active_mu s with
      | Some _ => None
      | None => match active_r s with
                | Some _ => next i Finished s
                | None => next i (StartInit o) (with_lock (Some i) s)
                end
      end
  | StartInit o =>
      match a with
      | Success => next i (StartTemp o) (open_db false s)
      | Failure => Some (leave i s)
      | FailLate => Some (leave i (open_db true s))
      end
  | StartTemp o =>
      if negb (bool_decide (TempDir o = #"")) && failed a then Some (leave i (Release s))
      else next i (StartListen o) s
  | StartListen o =>
      if failed a then Some (leave i (Release s))
      else
        let '(l, s) := listen_on (BindAddress o) (Port o) s in
        let rid := fresh (dom (runtimes s)) in
        next i (StartFTP rid)
          (with_runtime rid {| r_options := o; r_listener := l; r_ftp := false; r_sftp := false; r_stopped := false |} s)
  | StartFTP rid =>
      match runtimes s !! rid with
      | None => None
      | Some r =>
          if negb (opt_FTP (r_options r)) then next i (StartSFTP rid) s
          else if failed a then next i (StartCleanup rid) s
          else next i (StartSFTP rid) (with_runtime rid (set_protocols true (r_sftp r) r) s)
      end
  | StartSFTP rid =>
      match runtimes s !! rid with
      | None => None
      | Some r =>
          if negb (opt_SFTP (r_options r)) then next i (StartPublish rid) s
          else if failed a then next i (StartCleanup rid) s
          else next i (StartPublish rid) (with_runtime rid (set_protocols (r_ftp r) true r) s)
      end
  | StartPublish rid =>
      Some (leave i (with_published (published s ∪ {[rid]}) (with_active (Some rid) s)))
  | StartCleanup rid =>
      match runtimes s !! rid with
      | None => None
      | Some r => Some (leave i (cleanupStartFailure rid r s))
      end
  | _ => None
  end.

(** One step of a call of [Stop]. *)
Definition Stop_step (i : nat) (c : pc) (s : sys) : option sys :=
  match c with
  | StopBegin rid =>
      match runtimes s !! rid with
      | None => None
      | Some r =>
          if r_stopped r then next i Finished s
          else next i (StopClose rid (r_listener r)) (with_runtime rid (set_stopped r) s)
      end
  | StopClose rid l =>
      match runtimes s !! rid with
      | None => None
      | Some r => next i (StopRelease rid) (close_listener l (with_runtime rid (set_protocols false false r) s))
      end
  | StopRelease rid => next i (StopForget rid) (Release s)
  | StopForget rid =>
      match active_mu s with
      | Some _ => None
      | None => next i Finished (if bool_decide (active_r s = Some rid) then with_active None s else s)
      end
  | _ => None
  end.

(** A call of [SetLANEnabled] is one critical section. *)
Definition SetLANEnabled_step (i : nat) (a : answer) (c : pc) (s : sys) : option sys :=
  match c with
  | SetLAN rid enabled =>
      match runtimes s !! rid with
      | None => None
      | Some r => if r_stopped r then next i Finished s else next i Finished (rebind rid r enabled a s)
      end
  | _ => None
  end.

(** One step of call [i]: [None] when it waits for the lock or has ended. *)
Definition thread_step (i : nat) (a : answer) (s : sys) : option sys :=
  match threads s !! i with
  | None => None
  | Some c =>
      match c with
      | Finished => None
      | StopBegin _ | StopClose _ _ | StopRelease _ | StopForget _ => Stop_step i c s
      | SetLAN _ _ => SetLANEnabled_step i a c s
      | _ => Start_step i a c s
      end
  end.

(** Calls of the host: a runtime can be used once [Start] returned it. *)
Inductive call := CallStart (o : Options) | CallStop (rid : positive) | CallLAN (rid : positive) (enabled : bool).

Definition call_ok (c : call) (s : sys) : Prop :=
  match c with
  | CallStart o => ∃ json, start_options json = Some o
  | CallStop rid | CallLAN rid _ => rid ∈ published s
  end.

Definition call_pc (c : call) : pc :=
  match c with CallStart o => StartWait o | CallStop rid => StopBegin rid | CallLAN rid b => SetLAN rid b end.

Definition add_call (c : call) (s : sys) : sys :=
  {| runtimes := runtimes s; active_r := active_r s; active_mu := active_mu s; sockets := sockets s;
     handles := handles s; db_current := db_current s; threads := threads s ++ [call_pc c];
     published := published s; leaked := leaked s |}.

Definition sys0 : sys :=
  {| runtimes := ∅; active_r := None; active_mu := None; sockets := ∅; handles := ∅; db_current := None;
     threads := []; published := ∅; leaked := ∅ |}.

(** [Status]. *)
Definition Status (r : option Runtime) : gostr :=
  match r with
  | None => #"stopped"
  | Some r => if r_stopped r then #"stopped" else #"running"
  end.
Definition LocalURL (r : option Runtime) : gostr :=
  match r with None => #"" | Some r => #"http://127.0.0.1:" ++ FormatInt (Port (r_options r)) end.

(** [applyMemoryPolicy]: the limit given to the garbage collector. *)
Definition memory_limit (limit : Z) : Z := if limit <? 16777216 then 16777216 else limit.
