(* ===== verification/RuntimeThms.v ===== *)
(** * Theorems of the embedded server

    The threads of [Runtime] share one process: the invariant [inv] says in
    which phase the process is (nobody owns it, a call to [Start] does, a
    published runtime does, or a call to [Stop] does) and which listeners and
    database handles are open in that phase.  Every step keeps it, so a
    published runtime is never without its database and never shares it; a
    measure on the program counters gives that the calls finish. *)

From S2P Require Import Prelude GoStrings Errs Runtime.

Local Open Scope Z_scope.

(** ** Steps and reachable states *)

Definition step (s s' : sys) : Prop := ∃ i a, thread_step i a s = Some s'.

Inductive reach : sys → Prop :=
  | reach_init : reach sys0
  | reach_call c s : reach s → call_ok c s → reach (add_call c s)
  | reach_step s s' : reach s → step s s' → reach s'.

(** A schedule: which thread moves and what the system answers it. *)
Fixpoint run (sch : list (nat * answer)) (s : sys) : option sys :=
  match sch with
  | [] => Some s
  | (i, a) :: sch => match thread_step i a s with Some s' => run sch s' | None => None end
  end.

(** ** The phases *)

Inductive phase :=
  | Idle
  | Starting (i : nat) (c : pc)
  | Running (rid : positive)
  | Stopping (i : nat) (rid : positive) (c : pc).

(** What a thread in each program counter may assume of the phase. *)
Definition pc_ok (ph : phase) (s : sys) (j : nat) (c : pc) : Prop :=
  match c with
  | StartWait _ | Finished => True
  | StopBegin rid | SetLAN rid _ => rid ∈ published s
  | StopClose rid _ | StopRelease rid | StopForget rid => ph = Stopping j rid c
  | _ => ph = Starting j c
  end.

Definition db_closed (s : sys) : Prop := handles s = leaked s.
Definition db_open (s : sys) : Prop :=
  ∃ h, db_current s = Some h ∧ h ∉ leaked s ∧ handles s = leaked s ∪ {[h]}.

(** The sockets are at most the listener [l]. *)
Definition only (l : positive) (s : sys) : Prop := ∀ l', is_Some (sockets s !! l') → l' = l.
Definition quiet (s : sys) : Prop := sockets s = ∅.

(** A runtime no other thread knows yet. *)
Definition private (rid : positive) (s : sys) : Prop :=
  rid ∉ published s ∧ db_open s ∧
  ∃ r, runtimes s !! rid = Some r ∧ r_stopped r = false ∧ only (r_listener r) s.

Definition starting_inv (c : pc) (s : sys) : Prop :=
  match c with
  | StartInit _ => quiet s ∧ db_closed s
  | StartTemp _ | StartListen _ => quiet s ∧ db_open s
  | StartFTP rid | StartSFTP rid | StartPublish rid | StartCleanup rid => private rid s
  | _ => False
  end.

Definition stopping_inv (rid : positive) (c : pc) (s : sys) : Prop :=
  match c with
  | StopClose rid' l => rid' = rid ∧ only l s ∧ db_open s
  | StopRelease rid' => rid' = rid ∧ quiet s ∧ db_open s
  | StopForget rid' => rid' = rid ∧ quiet s ∧ db_closed s
  | _ => False
  end.

Definition owned (rid : positive) (b : bool) (s : sys) : Prop :=
  active_mu s = None ∧ active_r s = Some rid ∧ rid ∈ published s ∧ ∃ r, runtimes s !! rid = Some r ∧ r_stopped r = b.

Definition phase_inv (ph : phase) (s : sys) : Prop :=
  match ph with
  | Idle => active_mu s = None ∧ active_r s = None ∧ quiet s ∧ db_closed s
  | Starting i c => active_mu s = Some i ∧ active_r s = None ∧ threads s !! i = Some c ∧ starting_inv c s
  | Running rid =>
      owned rid false s ∧ db_open s ∧ ∀ r, runtimes s !! rid = Some r → only (r_listener r) s
  | Stopping i rid c => owned rid true s ∧ threads s !! i = Some c ∧ stopping_inv rid c s
  end.

Record inv (ph : phase) (s : sys) : Prop := {
  inv_threads : ∀ j c, threads s !! j = Some c → pc_ok ph s j c;
  inv_known : ∀ rid, rid ∈ published s → is_Some (runtimes s !! rid);
  inv_unstopped : ∀ rid r, rid ∈ published s → runtimes s !! rid = Some r → r_stopped r = false → ph = Running rid;
  inv_phase : phase_inv ph s;
}.

(** ** Lemmas on the state *)

Lemma fresh_not_in (X : gset positive) : fresh X ∉ X.
Proof. apply is_fresh. Qed.

Lemma only_quiet l s : quiet s → only l s.
Proof. intros Hq l'. rewrite Hq, lookup_empty. intros [? [=]]. Qed.

Lemma quiet_close l s : only l s → quiet (close_listener l s).
Proof.
  intros Ho. unfold quiet, close_listener. cbn. apply map_eq. intros l'. rewrite lookup_empty.
  destruct (decide (l' = l)) as [->|Hn]; [apply lookup_delete_eq|].
  rewrite lookup_delete_ne by congruence. destruct (sockets s !! l') eqn:E; [|done].
  destruct Hn. apply Ho. eauto.
Qed.

Lemma listen_only a p s l s' : quiet s → listen_on a p s = (l, s') → only l s' ∧ sockets s' !! l = Some (a, p).
Proof.
  intros Hq [= <- <-]. unfold only, quiet in *. cbn. rewrite Hq, lookup_insert_eq. split; [|done].
  intros l' [x Hx]. apply lookup_insert_Some in Hx as [[<- _]|[_ Hx]]; [done|]. by rewrite lookup_empty in Hx.
Qed.

Lemma open_db_open s : db_closed s → db_open (open_db false s).
Proof.
  unfold db_closed, db_open, open_db. cbn. intros ->. eexists. split; [done|].
  pose proof (fresh_not_in (leaked s ∪ leaked s)) as Hf. set_solver.
Qed.

Lemma open_db_leak s : db_closed s → db_closed (open_db true s).
Proof. unfold db_closed, open_db. cbn. by intros ->. Qed.

Lemma Release_closed s : db_open s → db_closed (Release s).
Proof.
  intros (h & Hc & Hl & Hh). unfold db_closed, Release. rewrite Hc. cbn. rewrite Hh. set_solver.
Qed.

(** [Release] touches the database only. *)
Lemma Release_same s :
  runtimes (Release s) = runtimes s ∧ active_r (Release s) = active_r s ∧ active_mu (Release s) = active_mu s ∧
  sockets (Release s) = sockets s ∧ threads (Release s) = threads s ∧ published (Release s) = published s.
Proof. unfold Release. by destruct (db_current s). Qed.

(** The step of a thread whose program counter is known. *)
Ltac at_pc H :=
  unfold thread_step in H;
  match goal with E : threads _ !! _ = _ |- _ => rewrite E in H end;
  unfold Start_step, Stop_step, SetLANEnabled_step, next in H; cbn beta iota in H.

(** ** Every step keeps the invariant *)

(** Thread [i] may move the process from phase [ph] to [ph']. *)
Definition frees (i : nat) (ph ph' : phase) : Prop :=
  match ph with
  | Idle | Running _ => True
  | Starting j _ | Stopping j _ _ => j = i ∨ ph' = ph
  end.

Lemma pc_ok_others ph ph' s s' i j c :
  frees i ph ph' → published s ⊆ published s' → j ≠ i → pc_ok ph s j c → pc_ok ph' s' j c.
Proof.
  intros Hf Hp Hji. destruct c; cbn; try done; try (by intros ?%Hp);
    intros ->; cbn in Hf; destruct Hf as [?| ->]; congruence.
Qed.

Lemma inv_move ph ph' s s' i c c' :
  inv ph s → threads s !! i = Some c → threads s' = <[i := c']> (threads s) →
  published s ⊆ published s' → frees i ph ph' → pc_ok ph' s' i c' →
  (∀ rid, rid ∈ published s' → is_Some (runtimes s' !! rid)) →
  (∀ rid r, rid ∈ published s' → runtimes s' !! rid = Some r → r_stopped r = false → ph' = Running rid) →
  phase_inv ph' s' → inv ph' s'.
Proof.
  intros Hi Hc Ht Hp Hf Hok Hk Hu Hph. split; [|done|done|done].
  intros j d. rewrite Ht. intros Hj. apply list_lookup_insert_Some in Hj as [(-> & <- & _)|[Hn Hj]]; [done|].
  eapply pc_ok_others; eauto using inv_threads.
Qed.

Lemma lookup_thread i c c' s : threads s !! i = Some c → <[i := c']> (threads s) !! i = Some c'.
Proof. intros H%lookup_lt_Some. by apply list_lookup_insert_eq. Qed.

(** A thread whose program counter is not the owner's ends without a change. *)
Lemma bystander_ends ph s i c :
  inv ph s → threads s !! i = Some c →
  (match c with StartWait _ | StopBegin _ | SetLAN _ _ => True | _ => False end) →
  inv ph (with_thread i Finished s).
Proof.
  intros Hi Hc Hb. eapply (inv_move ph ph s); eauto; try done.
  - destruct ph; cbn; auto.
  - apply Hi.
  - apply Hi.
  - pose proof (inv_phase _ _ Hi) as Hp. destruct ph as [|j d|rid|j rid d]; cbn in *; [done| |done|].
    + destruct Hp as (? & ? & Hd & Hs). split_and!; [done|done| |by destruct d].
      rewrite list_lookup_insert_ne; [done|]. intros <-. simplify_eq. by destruct c.
    + destruct Hp as (? & Hd & Hs). split_and!; [done| |by destruct d].
      rewrite list_lookup_insert_ne; [done|]. intros <-. simplify_eq. by destruct c.
Qed.

Lemma unlocked_phase ph s : phase_inv ph s → active_mu s = None → ∀ i c, ph ≠ Starting i c.
Proof. intros Hp Hn i c ->. destruct Hp as [? _]. congruence. Qed.

(** The lock is free and nobody is active: the process is idle. *)
Lemma free_is_idle ph s : phase_inv ph s → active_mu s = None → active_r s = None → ph = Idle.
Proof.
  destruct ph; cbn; [done|intros (? & _) ?; congruence|intros [(? & ? & _) _] ? ?; congruence
    |intros [(? & ? & _) _] ? ?; congruence].
Qed.

Lemma step_StartWait ph s i o a s' :
  inv ph s → threads s !! i = Some (StartWait o) → thread_step i a s = Some s' → ∃ ph', inv ph' s'.
Proof.
  intros Hi Hc Hs. at_pc Hs. destruct (active_mu s) eqn:Em; [done|].
  destruct (active_r s) eqn:Er; injection Hs as <-.
  - exists ph. by eapply bystander_ends.
  - pose proof (inv_phase _ _ Hi) as Hp. assert (ph = Idle) as -> by eauto using free_is_idle.
    exists (Starting i (StartInit o)). eapply (inv_move Idle _ s); eauto; try done.
    + apply Hi.
    + intros rid r H1 H2 H3. by pose proof (inv_unstopped _ _ Hi rid r H1 H2 H3).
    + destruct Hp as (_ & _ & Hq & Hd). cbn. split_and!; try done. by eapply lookup_thread.
Qed.

(** The owner [i] of a start goes on to [c']. *)
Lemma start_continues s s' i c c' :
  inv (Starting i c) s → threads s' = <[i := c']> (threads s) → published s' = published s →
  active_mu s' = active_mu s → active_r s' = active_r s →
  (∀ rid, rid ∈ published s → runtimes s' !! rid = runtimes s !! rid) →
  pc_ok (Starting i c') s' i c' → starting_inv c' s' → inv (Starting i c') s'.
Proof.
  intros Hi Ht Hp Hm Ha Hr Hok Hs. destruct (inv_phase _ _ Hi) as (Hmu & Hact & Hc & _).
  eapply (inv_move (Starting i c) _ s s'); eauto.
  - by rewrite Hp.
  - by left.
  - rewrite Hp. intros rid Hrid. rewrite Hr by done. by apply Hi.
  - rewrite Hp. intros rid r Hrid. rewrite Hr by done. intros H1 H2.
    by pose proof (inv_unstopped _ _ Hi rid r Hrid H1 H2).
  - cbn. rewrite Hm, Ha, Ht. split_and!; try done. by eapply lookup_thread.
Qed.

(** The owner [i] of a start gives up: the process is idle again. *)
Lemma start_leaves s s1 i c :
  inv (Starting i c) s → threads s1 = threads s → published s1 = published s → active_r s1 = active_r s →
  (∀ rid, rid ∈ published s → runtimes s1 !! rid = runtimes s !! rid) →
  quiet s1 → db_closed s1 → inv Idle (leave i s1).
Proof.
  intros Hi Ht Hp Ha Hr Hq Hd. destruct (inv_phase _ _ Hi) as (Hmu & Hact & Hc & _).
  eapply (inv_move (Starting i c) _ s); eauto; unfold leave; cbn.
  - by rewrite Ht.
  - by rewrite Hp.
  - by left.
  - done.
  - rewrite Hp. intros rid Hrid. rewrite Hr by done. by apply Hi.
  - rewrite Hp. intros rid r Hrid. rewrite Hr by done. intros H1 H2.
    by pose proof (inv_unstopped _ _ Hi rid r Hrid H1 H2).
  - split_and!; try done. congruence.
Qed.

Lemma step_StartInit ph s i o a s' :
  inv ph s → threads s !! i = Some (StartInit o) → thread_step i a s = Some s' → ∃ ph', inv ph' s'.
Proof.
  intros Hi Hc Hs. pose proof (inv_threads _ _ Hi _ _ Hc) as Hph. cbn in Hph. subst ph.
  destruct (inv_phase _ _ Hi) as (_ & _ & _ & Hq & Hd). at_pc Hs.
  destruct a; injection Hs as <-.
  - exists (Starting i (StartTemp o)). eapply start_continues; eauto; try done.
    split; [done|]. by apply open_db_open in Hd.
  - exists Idle. by eapply start_leaves.
  - exists Idle. eapply start_leaves; eauto; try done. by apply open_db_leak.
Qed.

Lemma start_releases s i c :
  inv (Starting i c) s → quiet s → db_open s → inv Idle (leave i (Release s)).
Proof.
  intros Hi Hq Hd. destruct (Release_same s) as (Er & Ea & Em & Es & Et & Ep).
  eapply start_leaves; eauto; [by rewrite Er|unfold quiet; by rewrite Es|by apply Release_closed].
Qed.

Lemma step_StartTemp ph s i o a s' :
  inv ph s → threads s !! i = Some (StartTemp o) → thread_step i a s = Some s' → ∃ ph', inv ph' s'.
Proof.
  intros Hi Hc Hs. pose proof (inv_threads _ _ Hi _ _ Hc) as Hph. cbn in Hph. subst ph.
  destruct (inv_phase _ _ Hi) as (_ & _ & _ & Hq & Hd). at_pc Hs.
  destruct (_ && _); injection Hs as <-.
  - eauto using start_releases.
  - exists (Starting i (StartListen o)). eapply start_continues; eauto; done.
Qed.

Lemma step_StartListen ph s i o a s' :
  inv ph s → threads s !! i = Some (StartListen o) → thread_step i a s = Some s' → ∃ ph', inv ph' s'.
Proof.
  intros Hi Hc Hs. pose proof (inv_threads _ _ Hi _ _ Hc) as Hph. cbn in Hph. subst ph.
  destruct (inv_phase _ _ Hi) as (_ & _ & _ & Hq & Hd). at_pc Hs.
  destruct (failed a); [injection Hs as <-; eauto using start_releases|].
  destruct (listen_on _ _ s) as [l s1] eqn:El. pose proof (listen_only _ _ _ _ _ Hq El) as [Ho _].
  injection El as _ <-. injection Hs as <-.
  set (rid := fresh (dom (runtimes s))) in *. exists (Starting i (StartFTP rid)).
  assert (rid ∉ published s) as Hn.
  { intros Hrid%(inv_known _ _ Hi)%elem_of_dom. by apply (fresh_not_in (dom (runtimes s))). }
  eapply start_continues; eauto; try done; cbn.
  - intros rid' Hrid'. apply lookup_insert_ne. intros <-. done.
  - split_and!; [done|done|]. eexists. cbn. rewrite lookup_insert_eq. eauto.
Qed.

(** A private runtime changes its protocol servers. *)
Lemma private_protocols rid r f g s :
  private rid s → runtimes s !! rid = Some r → private rid (with_runtime rid (set_protocols f g r) s).
Proof.
  intros (Hn & Hd & r' & Hr & Hst & Ho) Hr'. simplify_eq. split_and!; [done|done|].
  eexists. cbn. rewrite lookup_insert_eq. eauto.
Qed.

Lemma private_others rid r s rid' :
  rid ∉ published s → rid' ∈ published s → <[rid := r]> (runtimes s) !! rid' = runtimes s !! rid'.
Proof. intros Hn Hin. apply lookup_insert_ne. intros <-. done. Qed.

Lemma step_StartFTP ph s i rid a s' :
  inv ph s → threads s !! i = Some (StartFTP rid) → thread_step i a s = Some s' → ∃ ph', inv ph' s'.
Proof.
  intros Hi Hc Hs. pose proof (inv_threads _ _ Hi _ _ Hc) as Hph. cbn in Hph. subst ph.
  destruct (inv_phase _ _ Hi) as (_ & _ & _ & Hp). at_pc Hs.
  pose proof Hp as (Hn & _ & r & Hr & _). rewrite Hr in Hs. repeat case_match; injection Hs as <-;
    eexists (Starting i _); eapply start_continues; eauto; try done; cbn; intros;
    [by apply private_others|by apply private_protocols].
Qed.

Lemma step_StartSFTP ph s i rid a s' :
  inv ph s → threads s !! i = Some (StartSFTP rid) → thread_step i a s = Some s' → ∃ ph', inv ph' s'.
Proof.
  intros Hi Hc Hs. pose proof (inv_threads _ _ Hi _ _ Hc) as Hph. cbn in Hph. subst ph.
  destruct (inv_phase _ _ Hi) as (_ & _ & _ & Hp). at_pc Hs.
  pose proof Hp as (Hn & _ & r & Hr & _). rewrite Hr in Hs. repeat case_match; injection Hs as <-;
    eexists (Starting i _); eapply start_continues; eauto; try done; cbn; intros;
    [by apply private_others|by apply private_protocols].
Qed.

Lemma step_StartCleanup ph s i rid a s' :
  inv ph s → threads s !! i = Some (StartCleanup rid) → thread_step i a s = Some s' → ∃ ph', inv ph' s'.
Proof.
  intros Hi Hc Hs. pose proof (inv_threads _ _ Hi _ _ Hc) as Hph. cbn in Hph. subst ph.
  destruct (inv_phase _ _ Hi) as (_ & _ & _ & Hn & Hd & r & Hr & _ & Ho). at_pc Hs. rewrite Hr in Hs. injection Hs as <-. exists Idle. unfold cleanupStartFailure.
  set (s1 := close_listener _ _). destruct (Release_same s1) as (Er & Ea & Em & Es & Et & Ep).
  eapply start_leaves; eauto.
  - rewrite Er. intros rid' Hrid'. by apply private_others.
  - unfold quiet. rewrite Es. by apply (quiet_close (r_listener r)).
  - by apply Release_closed.
Qed.

Lemma step_StartPublish ph s i rid a s' :
  inv ph s → threads s !! i = Some (StartPublish rid) → thread_step i a s = Some s' → ∃ ph', inv ph' s'.
Proof.
  intros Hi Hc Hs. pose proof (inv_threads _ _ Hi _ _ Hc) as Hph. cbn in Hph. subst ph.
  destruct (inv_phase _ _ Hi) as (_ & _ & _ & Hn & Hd & r & Hr & Hst & Ho). at_pc Hs. injection Hs as <-. exists (Running rid).
  eapply (inv_move (Starting i (StartPublish rid)) _ s); eauto; try done; cbn.
  - set_solver.
  - by left.
  - intros rid' [Hin|Heq]%elem_of_union; [by apply Hi|]. apply elem_of_singleton in Heq as ->. eauto.
  - intros rid' r' [Hin|Heq]%elem_of_union H1 H2.
    + by pose proof (inv_unstopped _ _ Hi rid' r' Hin H1 H2).
    + by apply elem_of_singleton in Heq as ->.
  - split_and!; [split_and!; [done|done|set_solver|eauto]|done|]. intros r'. cbn. rewrite Hr. by intros [= <-].
Qed.

(** ** Stopping and rebinding *)

(** A published runtime that is not stopped is the running one. *)
Lemma unstopped_running ph s rid r :
  inv ph s → rid ∈ published s → runtimes s !! rid = Some r → r_stopped r = false →
  ph = Running rid ∧ db_open s ∧ only (r_listener r) s ∧ active_mu s = None ∧ active_r s = Some rid.
Proof.
  intros Hi Hp Hr Hst. pose proof (inv_unstopped _ _ Hi rid r Hp Hr Hst) as ->.
  destruct (inv_phase _ _ Hi) as ((? & ? & _) & ? & Ho). eauto 10.
Qed.

(** A runtime that replaces another one at [rid] leaves the others unstopped
    as they were. *)
Lemma known_insert ph s rid r' :
  inv ph s → ∀ rid', rid' ∈ published s → is_Some (<[rid := r']> (runtimes s) !! rid').
Proof.
  intros Hi rid' Hp. destruct (decide (rid' = rid)) as [->|]; [rewrite lookup_insert_eq; eauto|].
  rewrite lookup_insert_ne by congruence. by apply Hi.
Qed.

Lemma step_StopBegin ph s i rid a s' :
  inv ph s → threads s !! i = Some (StopBegin rid) → thread_step i a s = Some s' → ∃ ph', inv ph' s'.
Proof.
  intros Hi Hc Hs. pose proof (inv_threads _ _ Hi _ _ Hc) as Hp. cbn in Hp. at_pc Hs. destruct (runtimes s !! rid) as [r|] eqn:Hr; [|done].
  destruct (r_stopped r) eqn:Hst; injection Hs as <-; [exists ph; by eapply bystander_ends|].
  destruct (unstopped_running _ _ _ _ Hi Hp Hr Hst) as (-> & Hd & Ho & Hm & Ha).
  exists (Stopping i rid (StopClose rid (r_listener r))).
  eapply (inv_move (Running rid) _ s); eauto; try done; cbn.
  - eapply known_insert; eauto.
  - intros rid' r' Hp' [[<- <-]|[Hn Hr']]%lookup_insert_Some Hst'; [done|].
    pose proof (inv_unstopped _ _ Hi rid' r' Hp' Hr' Hst'). congruence.
  - split_and!; [|by eapply lookup_thread|done|done|done].
    split_and!; [done|done|done|]. eexists. cbn. rewrite lookup_insert_eq. eauto.
Qed.

(** The owner [i] of a stop goes on to [c']. *)
Lemma stop_continues s s' i rid c c' :
  inv (Stopping i rid c) s → threads s' = <[i := c']> (threads s) → published s' = published s →
  active_mu s' = active_mu s → active_r s' = active_r s →
  (∀ rid', rid' ≠ rid → runtimes s' !! rid' = runtimes s !! rid') →
  (∀ r, runtimes s !! rid = Some r → ∃ r', runtimes s' !! rid = Some r' ∧ r_stopped r' = r_stopped r) →
  pc_ok (Stopping i rid c') s' i c' → stopping_inv rid c' s' → inv (Stopping i rid c') s'.
Proof.
  intros Hi Ht Hp Hm Ha Hr Hk Hok Hs. destruct (inv_phase _ _ Hi) as ((Hmu & Hact & Hpub & r & Hrr & Hst) & Hc & _).
  destruct (Hk r Hrr) as (r' & Hr' & Hst').
  eapply (inv_move (Stopping i rid c) _ s s'); eauto.
  - by rewrite Hp.
  - by left.
  - rewrite Hp. intros rid' Hrid. destruct (decide (rid' = rid)) as [->|]; [eauto|]. rewrite Hr by done. by apply Hi.
  - rewrite Hp. intros rid' r1 Hrid H1 H2. destruct (decide (rid' = rid)) as [->|]; [congruence|].
    rewrite Hr in H1 by done. by pose proof (inv_unstopped _ _ Hi rid' r1 Hrid H1 H2).
  - cbn. unfold owned. rewrite Hm, Ha, Ht, Hp. split_and!; try done.
    + exists r'. split; [done|congruence].
    + by eapply lookup_thread.
Qed.

Lemma step_StopClose ph s i rid l a s' :
  inv ph s → threads s !! i = Some (StopClose rid l) → thread_step i a s = Some s' → ∃ ph', inv ph' s'.
Proof.
  intros Hi Hc Hs. pose proof (inv_threads _ _ Hi _ _ Hc) as Hph. cbn in Hph. subst ph.
  destruct (inv_phase _ _ Hi) as ((_ & _ & _ & r & Hr & _) & _ & _ & Ho & Hd). at_pc Hs. rewrite Hr in Hs. injection Hs as <-. exists (Stopping i rid (StopRelease rid)).
  eapply stop_continues; eauto; try done; cbn.
  - intros rid' Hn. by apply lookup_insert_ne.
  - intros r' Hr'. simplify_eq. eexists. rewrite lookup_insert_eq. eauto.
  - split_and!; [done| |done]. by apply (quiet_close l).
Qed.

Lemma step_StopRelease ph s i rid a s' :
  inv ph s → threads s !! i = Some (StopRelease rid) → thread_step i a s = Some s' → ∃ ph', inv ph' s'.
Proof.
  intros Hi Hc Hs. pose proof (inv_threads _ _ Hi _ _ Hc) as Hph. cbn in Hph. subst ph.
  destruct (inv_phase _ _ Hi) as (_ & _ & _ & Hq & Hd). at_pc Hs.
  injection Hs as <-. exists (Stopping i rid (StopForget rid)).
  destruct (Release_same s) as (Er & Ea & Em & Es & Et & Ep).
  eapply stop_continues; eauto; cbn; try done.
  - by rewrite Et.
  - by rewrite Er.
  - rewrite Er. eauto.
  - split_and!; [done|unfold quiet; cbn; by rewrite Es|by apply Release_closed in Hd].
Qed.

Lemma step_StopForget ph s i rid a s' :
  inv ph s → threads s !! i = Some (StopForget rid) → thread_step i a s = Some s' → ∃ ph', inv ph' s'.
Proof.
  intros Hi Hc Hs. pose proof (inv_threads _ _ Hi _ _ Hc) as Hph. cbn in Hph. subst ph.
  destruct (inv_phase _ _ Hi) as ((Hm & Ha & Hp & r & Hr & Hst) & _ & _ & Hq & Hd). at_pc Hs. rewrite Hm, Ha, bool_decide_true in Hs by done. injection Hs as <-. exists Idle.
  eapply (inv_move (Stopping i rid (StopForget rid)) _ s); eauto; try done; cbn.
  - by left.
  - apply Hi.
  - intros rid' r' H1 H2 H3. by pose proof (inv_unstopped _ _ Hi rid' r' H1 H2 H3).
Qed.

(** What [rebind] leaves: the same owner, one listener at most. *)
Lemma rebind_spec rid r enabled a s :
  only (r_listener r) s → runtimes s !! rid = Some r →
  let s' := rebind rid r enabled a s in
  threads s' = threads s ∧ published s' = published s ∧ active_mu s' = active_mu s ∧ active_r s' = active_r s ∧
  handles s' = handles s ∧ db_current s' = db_current s ∧ leaked s' = leaked s ∧
  (∀ rid', rid' ≠ rid → runtimes s' !! rid' = runtimes s !! rid') ∧
  ∃ r', runtimes s' !! rid = Some r' ∧ r_stopped r' = r_stopped r ∧ only (r_listener r') s'.
Proof.
  intros Ho Hr. cbv zeta. unfold rebind. pose proof (quiet_close _ _ Ho) as Hq. destruct a.
  - destruct (listen_on _ _ _) as [l s1] eqn:El. pose proof (listen_only _ _ _ _ _ Hq El) as [Hl _].
    injection El as _ <-. cbn. split_and!; try done; [intros rid' Hn; by apply lookup_insert_ne|].
    eexists. rewrite lookup_insert_eq. eauto.
  - destruct (listen_on _ _ _) as [l s1] eqn:El. pose proof (listen_only _ _ _ _ _ Hq El) as [Hl _].
    injection El as _ <-. cbn. split_and!; try done; [intros rid' Hn; by apply lookup_insert_ne|].
    eexists. rewrite lookup_insert_eq. eauto.
  - cbn. split_and!; try done. exists r. split_and!; try done. by apply only_quiet.
Qed.

Lemma step_SetLAN ph s i rid enabled a s' :
  inv ph s → threads s !! i = Some (SetLAN rid enabled) → thread_step i a s = Some s' → ∃ ph', inv ph' s'.
Proof.
  intros Hi Hc Hs. pose proof (inv_threads _ _ Hi _ _ Hc) as Hp. cbn in Hp. at_pc Hs. destruct (runtimes s !! rid) as [r|] eqn:Hr; [|done].
  destruct (r_stopped r) eqn:Hst; injection Hs as <-; [exists ph; by eapply bystander_ends|].
  destruct (unstopped_running _ _ _ _ Hi Hp Hr Hst) as (-> & Hd & Ho & Hm & Ha).
  destruct (rebind_spec rid r enabled a s Ho Hr) as (Et & Ep & Em & Ea & Eh & Ec & El & Hrest & r' & Hr' & Hst' & Ho').
  exists (Running rid). set (s1 := rebind _ _ _ _ _) in *.
  eapply (inv_move (Running rid) _ s); eauto; try done; cbn.
  - by rewrite Et.
  - by rewrite Ep.
  - done.
  - rewrite Ep. intros rid' Hp'. destruct (decide (rid' = rid)) as [->|]; [eauto|]. rewrite Hrest by done. by apply Hi.
  - rewrite Ep. intros rid' r1 Hp' H1 H2. destruct (decide (rid' = rid)) as [->|]; [done|].
    rewrite Hrest in H1 by done. by apply (inv_unstopped _ _ Hi rid' r1).
  - split_and!.
    + split_and!; cbn; [congruence|congruence|by rewrite Ep|]. exists r'. split; [done|congruence].
    + unfold db_open. cbn. by rewrite Eh, Ec, El.
    + rewrite Hr'. by intros r1 [= <-].
Qed.

#[local] Hint Resolve step_StartWait step_StartInit step_StartTemp step_StartListen step_StartFTP step_StartSFTP
  step_StartPublish step_StartCleanup step_StopBegin step_StopClose step_StopRelease step_StopForget step_SetLAN : core.

Lemma inv_step ph s s' : inv ph s → step s s' → ∃ ph', inv ph' s'.
Proof.
  intros Hi (i & a & Hs). destruct (threads s !! i) as [c|] eqn:Hc.
  - destruct c; eauto. unfold thread_step in Hs. by rewrite Hc in Hs.
  - unfold thread_step in Hs. by rewrite Hc in Hs.
Qed.

Lemma inv_call ph s c : inv ph s → call_ok c s → inv ph (add_call c s).
Proof.
  intros [Ht Hk Hu Hp] Hc. split; cbn; [|done|done|].
  - intros j d [Hj|[_ Hj]]%lookup_app_Some; [by specialize (Ht _ _ Hj); destruct d|].
    apply list_lookup_singleton_Some in Hj as [_ <-]. by destruct c.
  - destruct ph as [|j d|rid|j rid d]; cbn in *; try done.
    + destruct Hp as (? & ? & Hd & ?). split_and!; [done|done|by apply lookup_app_l_Some|by destruct d].
    + destruct Hp as (? & Hd & ?). split_and!; [done|by apply lookup_app_l_Some|by destruct d].
Qed.

Lemma runtime_reach_inv s : reach s → ∃ ph, inv ph s.
Proof.
  induction 1 as [|c s _ [ph IH] Hc|s s' _ [ph IH] Hs].
  - exists Idle. split; cbn; try done; set_solver.
  - exists ph. by apply inv_call.
  - eauto using inv_step.
Qed.

(** ** Calls finish *)

Definition weight (c : pc) : nat :=
  match c with
  | StartWait _ => 8 | StartInit _ => 7 | StartTemp _ => 6 | StartListen _ => 5
  | StartFTP _ => 4 | StartSFTP _ => 3 | StartPublish _ | StartCleanup _ => 1
  | StopBegin _ => 4 | StopClose _ _ => 3 | StopRelease _ => 2 | StopForget _ => 1
  | SetLAN _ _ => 1 | Finished => 0
  end.

Definition work (s : sys) : nat := sum_list_with weight (threads s).

(** A step replaces the program counter of its thread by a lighter one. *)
Lemma step_lighter i a s s' :
  thread_step i a s = Some s' →
  ∃ c c', threads s !! i = Some c ∧ threads s' = <[i := c']> (threads s) ∧ (weight c' < weight c)%nat.
Proof.
  unfold thread_step, Start_step, Stop_step, SetLANEnabled_step, next.
  destruct (threads s !! i) as [c|] eqn:Hc; [|done]. intros Hs. exists c.
  unfold rebind, listen_on in Hs.
  assert (∀ s1, threads (Release s1) = threads s1) as Et by (intros s1; apply Release_same).
  destruct c; repeat case_match; simplify_eq; eexists; (split; [done|]);
    (split; [unfold cleanupStartFailure; cbn; rewrite ?Et; reflexivity|cbn; lia]).
Qed.

Lemma sum_list_with_insert {A} (f : A → nat) (l : list A) i x y :
  l !! i = Some x → (sum_list_with f (<[i := y]> l) + f x = sum_list_with f l + f y)%nat.
Proof.
  revert i. induction l as [|z l IH]; intros [|i] Hi; simpl in *; [done|done|simplify_eq; lia|].
  specialize (IH _ Hi). lia.
Qed.

Lemma step_work i a s s' : thread_step i a s = Some s' → (work s' < work s)%nat.
Proof.
  intros (c & c' & Hc & Ht & Hw)%step_lighter. unfold work. rewrite Ht.
  pose proof (sum_list_with_insert weight _ _ _ c' Hc). lia.
Qed.

Lemma work_bound s : (work s ≤ 8 * length (threads s))%nat.
Proof.
  unfold work. induction (threads s) as [|c l IH]; cbn; [lia|]. assert (weight c ≤ 8)%nat by (destruct c; cbn; lia). lia.
Qed.

Lemma run_work sch s s' : run sch s = Some s' → (length sch + work s' ≤ work s)%nat.
Proof.
  revert s. induction sch as [|[i a] sch IH]; intros s; cbn; [intros [= <-]; lia|].
  destruct (thread_step i a s) as [s1|] eqn:E; [|done]. intros H%IH. pose proof (step_work _ _ _ _ E). lia.
Qed.

Lemma run_reach sch s s' : reach s → run sch s = Some s' → reach s'.
Proof.
  revert s. induction sch as [|[i a] sch IH]; intros s Hs; cbn; [by intros [= <-]|].
  destruct (thread_step i a s) as [s1|] eqn:E; [|done]. apply IH. eapply reach_step; [done|]. by exists i, a.
Qed.

(** The holder of the lock can always move. *)
Lemma holder_moves i c s a : inv (Starting i c) s → is_Some (thread_step i a s).
Proof.
  intros Hi. destruct (inv_phase _ _ Hi) as (_ & _ & Hc & Hs). 
  unfold thread_step, Start_step, Stop_step, SetLANEnabled_step, next. rewrite Hc.
  destruct c; cbn in Hs; try done; try (destruct Hs as (_ & _ & r & Hr & _); rewrite Hr);
    repeat case_match; eauto.
Qed.

(** When the lock is free every call can move. *)
Lemma free_moves ph s i c a :
  inv ph s → active_mu s = None → threads s !! i = Some c → c ≠ Finished → is_Some (thread_step i a s).
Proof.
  intros Hi Hm Hc Hn. pose proof (inv_threads _ _ Hi _ _ Hc) as Hok. pose proof (inv_phase _ _ Hi) as Hp.
  assert (∀ rid, rid ∈ published s → is_Some (runtimes s !! rid)) as Hk by apply Hi.
  unfold thread_step, Start_step, Stop_step, SetLANEnabled_step, next. rewrite Hc, Hm.
  destruct c; cbn in Hok; try done; try (subst ph; cbn in Hp; destruct Hp as (? & _); congruence).
  - destruct (active_r s); eauto.
  - destruct (Hk _ Hok) as [r ->]. destruct (r_stopped r); eauto.
  - subst ph. destruct Hp as ((_ & _ & Hp & _) & _). destruct (Hk _ Hp) as [r ->]. eauto.
  - destruct (Hk _ Hok) as [r ->]. destruct (r_stopped r); eauto.
Qed.

Lemma stuck_finished s :
  reach s → (∀ i a, thread_step i a s = None) → ∀ c, c ∈ threads s → c = Finished.
Proof.
  intros [ph Hi]%runtime_reach_inv Hstuck c [i Hc]%list_elem_of_lookup_1. destruct (active_mu s) as [j|] eqn:Hm.
  - destruct ph as [|k d|rid|k rid d]; pose proof (inv_phase _ _ Hi) as Hp.
    + destruct Hp as (? & _). congruence.
    + destruct (holder_moves k d s Success Hi) as [s' Hs']. by rewrite Hstuck in Hs'.
    + destruct Hp as ((? & _) & _). congruence.
    + destruct Hp as ((? & _) & _). congruence.
  - destruct (decide (weight c = 0%nat)) as [Hw|Hw]; [by destruct c|].
    destruct (free_moves ph s i c Success Hi Hm Hc) as [s' Hs']; [by intros ->|]. by rewrite Hstuck in Hs'.
Qed.

(** When no call is under way the process is idle or has a running runtime. *)
Lemma settled ph s :
  inv ph s → (∀ c, c ∈ threads s → c = Finished) →
  (ph = Idle ∧ active_r s = None) ∨ (∃ rid, ph = Running rid ∧ active_r s = Some rid).
Proof.
  intros Hi Hall. pose proof (inv_phase _ _ Hi) as Hp.
  destruct ph as [|k d|rid|k rid d]; cbn in Hp; [by left; destruct Hp as (_ & ? & _)| | |].
  - destruct Hp as (_ & _ & Hd & Hs). apply list_elem_of_lookup_2, Hall in Hd as ->. done.
  - right. exists rid. by destruct Hp as ((_ & ? & _) & _).
  - destruct Hp as (_ & Hd & Hs). apply list_elem_of_lookup_2, Hall in Hd as ->. done.
Qed.

(** Evaluates the next step of a run whose thread just moved. *)
Ltac reduce_state :=
  cbn [Start_step Stop_step next threads with_thread with_lock with_active with_runtime with_sockets
    with_published with_db open_db active_mu active_r runtimes listen_on close_listener failed].

Ltac next_pc :=
  unfold thread_step at 1; reduce_state; rewrite ?list_lookup_insert_eq by (rewrite ?length_insert; lia); reduce_state.

(** A call to [Start] alone in an idle process, all its calls successful. *)
Lemma start_alone s i o :
  inv Idle s → threads s !! i = Some (StartWait o) →
  ∃ s' rid r, run (replicate 7 (i, Success)) s = Some s' ∧ active_r s' = Some rid ∧ rid ∈ published s' ∧
    runtimes s' !! rid = Some r ∧ r_stopped r = false ∧ sockets s' !! r_listener r = Some (BindAddress o, Port o).
Proof.
  intros Hi Hc. destruct (inv_phase _ _ Hi) as (Hm & Ha & _ & _). pose proof (lookup_lt_Some _ _ _ Hc) as Hlt.
  cbn [replicate run]. unfold thread_step at 1. rewrite Hc. cbn [Start_step]. rewrite Hm, Ha. cbn [next].
  next_pc. next_pc. cbn [failed]. rewrite andb_false_r. next_pc. cbn [failed]. next_pc.
  rewrite lookup_insert_eq. cbn [r_options r_sftp]. destruct (negb (opt_FTP o)); cbn [failed];
    next_pc; rewrite lookup_insert_eq; cbn [r_options set_protocols]; destruct (negb (opt_SFTP o)); cbn [failed]; next_pc;
    eexists _, _, _; (split; [reflexivity|split; [reflexivity|split; [cbn; set_solver|]]]);
    cbn; rewrite lookup_insert_eq; cbn; (split; [reflexivity|split; [reflexivity|]]); cbn; by rewrite lookup_insert_eq.
Qed.

(** A call to [Stop] alone in a process with a running runtime. *)
Lemma stop_alone s i rid a :
  inv (Running rid) s → threads s !! i = Some (StopBegin rid) →
  ∃ s', run (replicate 4 (i, a)) s = Some s' ∧ active_r s' = None ∧ threads s' !! i = Some Finished.
Proof.
  intros Hi Hc. destruct (inv_phase _ _ Hi) as ((Hm & Ha & _ & r & Hr & Hst) & (h & Hh & _) & _).
  pose proof (lookup_lt_Some _ _ _ Hc) as Hlt.
  cbn [replicate run]. unfold thread_step at 1. rewrite Hc. cbn [Stop_step]. rewrite Hr, Hst. cbn [next].
  next_pc. rewrite lookup_insert_eq. next_pc.
  unfold Release. cbn [db_current close_listener with_sockets with_thread with_runtime]. rewrite Hh.
  next_pc. rewrite Hm, Ha, bool_decide_true by done.
  eexists. split; [done|]. cbn. split; [done|]. apply list_lookup_insert_eq. rewrite !length_insert. lia.
Qed.

(** C36.  The embedded server has one owner: in every state the host's calls
    can reach, a runtime that [Start] returned and nobody stopped is the
    active one, its database is open and the only open listener is its own, so
    two runtimes never run at a time; and when no call is under way, a process
    without an active runtime has no listener and no database open but those
    of initialisations that panicked. *)
Theorem runtime_exclusive (s : sys) :
  reach s →
  (∀ rid r, rid ∈ published s → runtimes s !! rid = Some r → r_stopped r = false →
     active_r s = Some rid ∧ (∃ h, db_current s = Some h ∧ h ∈ handles s) ∧
     ∀ l, is_Some (sockets s !! l) → l = r_listener r) ∧
  (∀ rid1 rid2 r1 r2, rid1 ∈ published s → rid2 ∈ published s → runtimes s !! rid1 = Some r1 →
     runtimes s !! rid2 = Some r2 → r_stopped r1 = false → r_stopped r2 = false → rid1 = rid2) ∧
  ((∀ c, c ∈ threads s → c = Finished) → active_r s = None → sockets s = ∅ ∧ handles s = leaked s).
Proof.
  intros [ph Hi]%runtime_reach_inv. split_and!.
  - intros rid r Hp Hr Hst. destruct (unstopped_running _ _ _ _ Hi Hp Hr Hst) as (-> & (h & Hh & _ & Hhs) & Ho & _ & Ha).
    split_and!; [done| |done]. exists h. split; [done|]. set_solver.
  - intros rid1 rid2 r1 r2 Hp1 Hp2 Hr1 Hr2 H1 H2.
    pose proof (inv_unstopped _ _ Hi rid1 r1 Hp1 Hr1 H1). pose proof (inv_unstopped _ _ Hi rid2 r2 Hp2 Hr2 H2). congruence.
  - intros Hall Ha. destruct (settled _ _ Hi Hall) as [[-> _]|(rid & _ & Ha')]; [|congruence].
    by destruct (inv_phase _ _ Hi) as (_ & _ & ? & ?).
Qed.

(** C39.  The host is never left waiting: from every reachable state, whatever
    order the calls are scheduled in and whatever the system answers, at most
    eight steps a call can be made, and when none can be made every call has
    ended.  Once they have, a call to [Stop] of the active runtime ends in
    four steps with no active runtime, and in a process without one a call to
    [Start] with valid options whose system calls succeed returns, in seven
    steps, a running runtime that listens where it was asked to. *)
Theorem runtime_calls_finish (s : sys) :
  reach s →
  (∀ sch s', run sch s = Some s' →
     (length sch ≤ 8 * length (threads s))%nat ∧
     ((∀ i a, thread_step i a s' = None) → ∀ c, c ∈ threads s' → c = Finished)) ∧
  ((∀ c, c ∈ threads s → c = Finished) →
     (∀ rid a, active_r s = Some rid → ∃ s',
        run (replicate 4 (length (threads s), a)) (add_call (CallStop rid) s) = Some s' ∧ active_r s' = None) ∧
     (∀ o, call_ok (CallStart o) s → active_r s = None → ∃ s' rid r,
        run (replicate 7 (length (threads s), Success)) (add_call (CallStart o) s) = Some s' ∧
        active_r s' = Some rid ∧ rid ∈ published s' ∧ runtimes s' !! rid = Some r ∧ r_stopped r = false ∧
        sockets s' !! r_listener r = Some (BindAddress o, Port o))).
Proof.
  intros Hs. split.
  - intros sch s' Hrun. pose proof (run_work _ _ _ Hrun). pose proof (work_bound s). split; [lia|].
    intros Hstuck. apply stuck_finished; [|done]. by eapply run_reach.
  - intros Hall. apply runtime_reach_inv in Hs as [ph Hi]. split.
    + intros rid a Ha. destruct (settled _ _ Hi Hall) as [[_ ?]|(rid' & -> & ?)]; [congruence|]. simplify_eq.
      destruct (inv_phase _ _ Hi) as ((_ & _ & Hp & _) & _).
      destruct (stop_alone (add_call (CallStop rid) s) (length (threads s)) rid a) as (s' & Hr & Ha' & _); [| |eauto].
      * by apply inv_call.
      * by apply list_lookup_middle.
    + intros o Ho Ha. destruct (settled _ _ Hi Hall) as [[-> _]|(rid & _ & ?)]; [|congruence].
      apply start_alone; [by apply inv_call|]. by apply list_lookup_middle.
Qed.

(** ** Instances *)

Definition demo_options : Options :=
  withDefaults {| DataDir := #"/data"; TempDir := #"/tmp"; BindAddress := #""; Port := 0; LANEnabled := true;
    opt_WebDAV := true; opt_S3 := false; opt_FTP := true; opt_SFTP := false; MemoryLimit := 0 |}.

Definition demo_start : sys := add_call (CallStart demo_options) sys0.
Definition demo : sys := default sys0 (run (replicate 7 (0%nat, Success)) demo_start).

Lemma demo_start_reach : reach demo_start.
Proof. apply reach_call; [constructor|]. exists (Some demo_options). reflexivity. Qed.

Lemma demo_reach : reach demo.
Proof. apply (run_reach (replicate 7 (0%nat, Success)) demo_start); [apply demo_start_reach|]. by vm_compute. Qed.

Lemma runtime_exclusive_witness :
  published demo = {[1%positive]} ∧ active_r demo = Some 1%positive ∧ ∃ h, db_current demo = Some h ∧ h ∈ handles demo.
Proof.
  split; [reflexivity|]. destruct (runtime_exclusive demo demo_reach) as (Hrun & _).
  edestruct (Hrun 1%positive) as (Ha & Hd & _); [apply elem_of_union_r, elem_of_singleton; reflexivity|reflexivity|reflexivity|].
  exact (conj Ha Hd).
Defined.

Lemma runtime_calls_finish_witness :
  (length (replicate 7 (0%nat, Success)) ≤ 8)%nat ∧
  ∃ s', run (replicate 4 (1%nat, FailLate)) (add_call (CallStop 1%positive) demo) = Some s' ∧ active_r s' = None.
Proof.
  split.
  - destruct (runtime_calls_finish demo_start demo_start_reach) as [Hb _].
    apply (Hb (replicate 7 (0%nat, Success)) demo). by vm_compute.
  - destruct (runtime_calls_finish demo demo_reach) as [_ [Hstop _]].
    + intros c [i Hc]%list_elem_of_lookup_1. destruct i as [|i]; [by injection Hc as <-|by destruct i].
    + apply (Hstop 1%positive FailLate). by vm_compute.
Defined.
