(* ===== verification/ChunkerNames.v ===== *)
(** * Names and metadata of chunks: [drivers/chunker]

    The chunker driver splits a file into chunks it stores under names made
    from a format such as [{name}.rclone_chunk.{chunk:3}], next to a small
    metadata object under the file's own name.  This file has the format and
    the regular expression made from it ([setChunkNameFormat]), the names
    ([makeChunkName], [parseChunkName]) and the metadata ([marshalMetadata],
    [unmarshalMetadata]) of [util.go]. *)

From S2P Require Import Prelude GoStrings Errs Paths Json Crypto.

Local Open Scope Z_scope.

(** ** Constants and data: [types.go] *)

Definition maxMetadataSizeRead : Z := 1023.
Definition maxMetadataSizeWrite : Z := 255.
Definition maxSafeChunkNumber : Z := 10000000.
Definition chunkerMetadataVerion : Z := 2.

Record metadataJSON := {
  j_Version : option Z;
  j_Size : option Z;
  j_ChunkNum : option Z;
  j_MD5 : gostr;
  j_SHA1 : gostr;
  j_XactID : gostr;
}.

Record chunkMetadata := {
  m_Version : Z;
  m_Size : Z;
  m_NChunks : Z;
  m_MD5 : gostr;
  m_SHA1 : gostr;
  m_XactID : gostr;
}.

#[export] Instance chunkMetadata_eq_dec : EqDecision chunkMetadata.
Proof. solve_decision. Defined.

(** ** Regular expressions

    An expression is the list of its matches at the start of a text, in the
    order the library prefers them: the value of its groups and the text that
    follows.  The first match of an anchored expression is then the one
    [FindStringSubmatch] returns. *)

Definition re (A : Type) := gostr → list (A * gostr).

Definition re_ret {A} (a : A) : re A := λ s, [(a, s)].
Definition re_bind {A B} (m : re A) (k : A → re B) : re B := λ s, m s ≫= λ '(a, s'), k a s'.
Definition re_alt {A} (m n : re A) : re A := λ s, m s ++ n s.
Definition re_end : re unit := λ s, match s with [] => [((), [])] | _ => [] end.
Definition re_lit (p : gostr) : re unit := λ s, if HasPrefix s p then [((), drop (length p) s)] else [].

Notation "'let~' x ':=' m 'in' k" := (re_bind m (λ x, k))
  (at level 10, x pattern, m at level 100, k at level 200,
   format "'[v' 'let~'  x  ':='  m  'in' '//' k ']'") : go_scope.

(** How many bytes of a class the text starts with, at most [hi] of them. *)
Fixpoint run (P : ascii → bool) (hi : option nat) (s : gostr) : nat :=
  match s, hi with
  | _, Some O => 0
  | c :: s', _ => if P c then S (run P (Nat.pred <$> hi) s') else 0
  | [], _ => 0
  end.

(** [P{lo,hi}], as many as possible first, and [P{lo,}?], as few. *)
Definition re_rep (P : ascii → bool) (lo : nat) (hi : option nat) : re gostr :=
  λ s, map (λ k, (take k s, drop k s)) (reverse (seq lo (S (run P hi s) - lo))).
Definition re_lazy (P : ascii → bool) (lo : nat) : re gostr :=
  λ s, map (λ k, (take k s, drop k s)) (seq lo (S (run P None s) - lo)).

Definition is_lower (c : ascii) : bool := in_range 97 122 c.
Definition is_lower_digit (c : ascii) : bool := is_lower c || is_digit c.
Definition not_newline (c : ascii) : bool := negb (bool_decide (c = "010"%char)).

(** [`[a-z][a-z0-9]{2,6}`] *)
Definition ctrlTypeReg : re gostr :=
  let~ a := re_rep is_lower 1 (Some 1%nat) in
  let~ b := re_rep is_lower_digit 2 (Some 6%nat) in
  re_ret (a ++ b).

(** [`_([0-9a-z]{4,9})`] and [`\.\.tmp_([0-9]{10,13})`] *)
Definition tempSuffixReg : re gostr :=
  let~ _ := re_lit #"_" in re_rep is_lower_digit 4 (Some 9%nat).
Definition tempSuffixRegOld : re gostr :=
  let~ _ := re_lit #"..tmp_" in re_rep is_digit 10 (Some 13%nat).

(** The expression made from a format: its texts, quoted, and the least number
    of digits. *)
Record nameRegexp := {
  re_beforeName : gostr;
  re_between : gostr;
  re_width : nat;
  re_afterChunk : gostr;
}.

(** [(?:([0-9]{w,})|_(ctrl))]: groups 2 and 3 *)
Definition reDataOrCtrl (w : nat) : re (gostr * gostr) :=
  re_alt (let~ d := re_rep is_digit w None in re_ret (d, []))
         (let~ _ := re_lit #"_" in let~ c := ctrlTypeReg in re_ret ([], c)).

(** [(?:_(T)|..tmp_(O))?]: groups 4 and 5 *)
Definition reTemp : re (gostr * gostr) :=
  re_alt (let~ t := tempSuffixReg in re_ret (t, []))
 (re_alt (let~ o := tempSuffixRegOld in re_ret ([], o))
         (re_ret ([], []))).

Record submatch := { g1 : gostr; g2 : gostr; g3 : gostr; g4 : gostr; g5 : gostr }.

Definition name_re (r : nameRegexp) : re submatch :=
  let~ _ := re_lit (re_beforeName r) in
  let~ name := re_lazy not_newline 1 in
  let~ _ := re_lit (re_between r) in
  let~ (d, c) := reDataOrCtrl (re_width r) in
  let~ _ := re_lit (re_afterChunk r) in
  let~ (t, o) := reTemp in
  let~ _ := re_end in
  re_ret {| g1 := name; g2 := d; g3 := c; g4 := t; g5 := o |}.

Definition FindStringSubmatch (r : nameRegexp) (name : gostr) : option submatch :=
  fst <$> head (name_re r name).

(** ** Formats *)

(** [strings.Count] of a text that is not empty; [skip] bytes of a match are
    left. *)
Fixpoint count_from (sub : gostr) (skip : nat) (s : gostr) : nat :=
  match s with
  | [] => 0
  | _ :: s' =>
      match skip with
      | S k => count_from sub k s'
      | O => if HasPrefix s sub then S (count_from sub (length sub - 1) s') else count_from sub 0 s'
      end
  end.

(** [`\{chunk(?::([0-9]+))?\}`] at the start of a text: the digits and the
    length of the match. *)
Definition chunk_token (s : gostr) : option (option gostr * nat) :=
  if HasPrefix s #"{chunk" then
    match drop 6 s with
    | c :: s' =>
        if bool_decide (c = "}"%char) then Some (None, 7%nat)
        else if bool_decide (c = ":"%char) then
          match span is_digit s' with
          | (d :: ds, e :: _) =>
              if bool_decide (e = "}"%char) then Some (Some (d :: ds), (9 + length ds)%nat) else None
          | _ => None
          end
        else None
    | [] => None
    end
  else None.

(** [chunkTokenRegexp.FindAllStringSubmatchIndex]: the start, the length and
    the digits of every match. *)
Fixpoint chunk_tokens (i : nat) (skip : nat) (s : gostr) : list (nat * nat * option gostr) :=
  match s with
  | [] => []
  | _ :: s' =>
      match skip with
      | S k => chunk_tokens (S i) k s'
      | O => match chunk_token s with
             | Some (ds, n) => (i, n, ds) :: chunk_tokens (S i) (n - 1) s'
             | None => chunk_tokens (S i) 0 s'
             end
      end
  end.

Definition parseNameToken (pattern : gostr) : result (nat * nat) :=
  match count_from #"{name}" 0 pattern with
  | 0%nat => inl (EMessage #"pattern must contain one name token: {name}")
  | 1%nat =>
      let start := Z.to_nat (Index pattern #"{name}") in
      inr (start, start + 6)%nat
  | _ => inl (EMessage #"pattern must contain exactly one name token: {name}")
  end.

Definition parseChunkToken (pattern : gostr) : result (nat * nat * Z) :=
  match chunk_tokens 0 0 pattern with
  | [] => inl (EMessage #"pattern must contain one chunk token: {chunk} or {chunk:N}")
  | [(start, n, ds)] =>
      match ds with
      | None => inr ((start, start + n)%nat, 0)
      | Some ds =>
          let '(width, err) := ParseInt ds in
          if bool_decide (err ≠ None) || (width <=? 0)
          then inl (EMessage #"chunk width in {chunk:N} must be a positive integer")
          else inr ((start, start + n)%nat, width)
      end
  | _ => inl (EMessage #"pattern must contain exactly one chunk token: {chunk} or {chunk:N}")
  end.

(** [regexp.MustCompile] panics on a repetition count above 1000 and on a text
    that is not UTF-8. *)
Definition setChunkNameFormat (pattern : gostr) : outcome (result (nameRegexp * gostr)) :=
  if bool_decide ((path_Split pattern).1 ≠ []) then Ret (inl (EMessage #"directory separator prohibited"))
  else match parseNameToken pattern with
  | inl e => Ret (inl e)
  | inr (nameStart, nameEnd) =>
      match parseChunkToken pattern with
      | inl e => Ret (inl e)
      | inr (chunkStart, chunkEnd, chunkWidth) =>
          if (chunkStart <? nameStart)%nat
          then Ret (inl (EMessage #"name token must come before chunk token"))
          else
            let beforeName := take nameStart pattern in
            let between := drop nameEnd (take chunkStart pattern) in
            let afterChunk := drop chunkEnd pattern in
            if (1000 <? chunkWidth) || negb (utf8_Valid pattern) then Panic
            else
              let r := {| re_beforeName := beforeName; re_between := between;
                          re_width := if 0 <? chunkWidth then Z.to_nat chunkWidth else 1%nat;
                          re_afterChunk := afterChunk |} in
              let fmtDigits := if 0 <? chunkWidth then #"%0" ++ FormatInt chunkWidth ++ #"d" else #"%d" in
              Ret (inr (r, ReplaceByte beforeName "%" #"%%" ++ #"%s" ++
                           ReplaceByte between "%" #"%%" ++ fmtDigits ++
                           ReplaceByte afterChunk "%" #"%%"))
      end
  end.

(** ** [fmt.Sprintf] with the verbs the driver uses *)

Inductive fmt_arg := AString (s : gostr) | AInt (n : Z).

Definition zero_pad (w : nat) (s : gostr) : gostr := replicate (w - length s) "0"%char ++ s.
Definition space_pad (w : nat) (s : gostr) : gostr := replicate (w - length s) " "%char ++ s.

(** [%d] with a width: zeros come after the sign. *)
Definition fmt_int (zero : bool) (w : nat) (n : Z) : gostr :=
  if zero then
    if n <? 0 then "-"%char :: zero_pad (w - 1) (FormatUint (- n)) else zero_pad w (FormatUint n)
  else space_pad w (FormatInt n).

(** [st] has the flag and the width read since a percent sign. *)
Fixpoint sprintf_from (st : option (bool * Z)) (fmt : gostr) (args : list fmt_arg) : gostr :=
  match fmt with
  | [] => if st then #"%!(NOVERB)" else []
  | c :: fmt' =>
      match st with
      | None =>
          if bool_decide (c = "%"%char) then sprintf_from (Some (false, 0)) fmt' args
          else c :: sprintf_from None fmt' args
      | Some (zero, w) =>
          if bool_decide (c = "%"%char) then c :: sprintf_from None fmt' args
          else if bool_decide (c = "0"%char) && (w =? 0) then sprintf_from (Some (true, 0)) fmt' args
          else if is_digit c then sprintf_from (Some (zero, w * 10 + (byte_val c - 48))) fmt' args
          else match args with
          | AString s :: args' =>
              if bool_decide (c = "s"%char)
              then (if zero then zero_pad else space_pad) (Z.to_nat w) s ++ sprintf_from None fmt' args'
              else #"%!" ++ [c] ++ #"(string=" ++ s ++ #")" ++ sprintf_from None fmt' args'
          | AInt n :: args' =>
              if bool_decide (c = "d"%char)
              then fmt_int zero (Z.to_nat w) n ++ sprintf_from None fmt' args'
              else #"%!" ++ [c] ++ #"(int=" ++ FormatInt n ++ #")" ++ sprintf_from None fmt' args'
          | [] => #"%!" ++ [c] ++ #"(MISSING)" ++ sprintf_from None fmt' args
          end
      end
  end.
Definition Sprintf (fmt : gostr) (args : list fmt_arg) : gostr := sprintf_from None fmt args.

Definition tempSuffixFormat : gostr := #"_%04s".

(** [strconv.FormatInt(i, 36)] of a number that is not negative *)
Fixpoint digits36 (fuel : nat) (n : Z) : gostr :=
  match fuel with
  | O => []
  | S f => if n <? 36 then [lowerhex n] else digits36 f (n / 36) ++ [lowerhex (n mod 36)]
  end.
Definition FormatInt36 (n : Z) : gostr := digits36 (S (Z.to_nat (Z.log2 n))) n.

(** ** Names *)

(** The fields of [Chunker] the names depend on. *)
Record name_format := {
  nameRegexp_of : nameRegexp;
  dataNameFmt : gostr;
  StartFrom : Z;
}.

Definition makeChunkName (d : name_format) (filePath : gostr) (chunkNo : Z) (xactID : gostr) : gostr :=
  let '(dir, baseName) := path_Split filePath in
  let name := Sprintf (dataNameFmt d) [AString baseName; AInt (wrap64 (chunkNo + StartFrom d))] in
  let name := if bool_decide (xactID ≠ []) then name ++ Sprintf tempSuffixFormat [AString xactID] else name in
  dir ++ name.

(** The path of the file, the number of the chunk, the kind of a control chunk
    and the transaction; an empty path when the name is no chunk's. *)
Definition not_chunk : gostr * Z * gostr * gostr := ([], -1, [], []).

Definition parseChunkName (d : name_format) (filePath : gostr) : gostr * Z * gostr * gostr :=
  let '(dir, name) := path_Split filePath in
  match FindStringSubmatch (nameRegexp_of d) name with
  | None => not_chunk
  | Some m =>
      if bool_decide (g1 m = []) then not_chunk
      else
        let chunkNo :=
          if bool_decide (g2 m ≠ []) then
            match ParseInt (g2 m) with
            | (n, None) =>
                let chunkNo := wrap64 (n - StartFrom d) in
                if chunkNo <? 0 then None else Some chunkNo
            | _ => None
            end
          else Some (-1) in
        match chunkNo with
        | None => not_chunk
        | Some chunkNo =>
            if bool_decide (g5 m ≠ []) then
              match ParseInt (g5 m) with
              | (oldNum, None) =>
                  if oldNum <? 0 then not_chunk
                  else (dir ++ g1 m, chunkNo, g3 m,
                        drop 1 (Sprintf tempSuffixFormat [AString (FormatInt36 oldNum)]))
              | _ => not_chunk
              end
            else (dir ++ g1 m, chunkNo, g3 m, g4 m)
        end
  end.

(** ** Metadata *)

(** [json.Marshal] of [metadataJSON]; the hashes and the transaction are left
    out when they are empty. *)
Definition json_Marshal (m : metadataJSON) : gostr :=
  let num (v : option Z) := match v with Some n => FormatInt n | None => #"null" end in
  let opt (k s : gostr) := if bool_decide (s = []) then [] else [(k, json_string s)] in
  print_object ([(#"ver", num (j_Version m)); (#"size", num (j_Size m)); (#"nchunks", num (j_ChunkNum m))]
    ++ opt #"md5" (j_MD5 m) ++ opt #"sha1" (j_SHA1 m) ++ opt #"txn" (j_XactID m)).

Definition marshalMetadata (size nChunks : Z) (md5Value sha1Value xactID : gostr) : result gostr :=
  let version := chunkerMetadataVerion in
  let version := if bool_decide (xactID = []) && (version =? 2) then 1 else version in
  let data := json_Marshal {| j_Version := Some version; j_Size := Some size; j_ChunkNum := Some nChunks;
                              j_MD5 := md5Value; j_SHA1 := sha1Value; j_XactID := xactID |} in
  if maxMetadataSizeWrite <=? Z.of_nat (length data)
  then inl (EMessage #"metadata can't be this big")
  else inr data.

(** One member of the document into the struct; the last of several wins. *)
Definition set_field (m : metadataJSON) (kv : gostr * json) : option metadataJSON :=
  let '(k, v) := kv in
  if key_matches #"ver" k then
    n ← json_int v; Some {| j_Version := n; j_Size := j_Size m; j_ChunkNum := j_ChunkNum m;
                            j_MD5 := j_MD5 m; j_SHA1 := j_SHA1 m; j_XactID := j_XactID m |}
  else if key_matches #"size" k then
    n ← json_int v; Some {| j_Version := j_Version m; j_Size := n; j_ChunkNum := j_ChunkNum m;
                            j_MD5 := j_MD5 m; j_SHA1 := j_SHA1 m; j_XactID := j_XactID m |}
  else if key_matches #"nchunks" k then
    n ← json_int v; Some {| j_Version := j_Version m; j_Size := j_Size m; j_ChunkNum := n;
                            j_MD5 := j_MD5 m; j_SHA1 := j_SHA1 m; j_XactID := j_XactID m |}
  else if key_matches #"md5" k then
    s ← json_str (j_MD5 m) v;
    Some {| j_Version := j_Version m; j_Size := j_Size m; j_ChunkNum := j_ChunkNum m;
            j_MD5 := s; j_SHA1 := j_SHA1 m; j_XactID := j_XactID m |}
  else if key_matches #"sha1" k then
    s ← json_str (j_SHA1 m) v;
    Some {| j_Version := j_Version m; j_Size := j_Size m; j_ChunkNum := j_ChunkNum m;
            j_MD5 := j_MD5 m; j_SHA1 := s; j_XactID := j_XactID m |}
  else if key_matches #"txn" k then
    s ← json_str (j_XactID m) v;
    Some {| j_Version := j_Version m; j_Size := j_Size m; j_ChunkNum := j_ChunkNum m;
            j_MD5 := j_MD5 m; j_SHA1 := j_SHA1 m; j_XactID := s |}
  else Some m.

Definition zero_metadata : metadataJSON :=
  {| j_Version := None; j_Size := None; j_ChunkNum := None; j_MD5 := []; j_SHA1 := []; j_XactID := [] |}.

(** [json.Unmarshal] of a document that starts with a brace *)
Definition json_Unmarshal (data : gostr) : option metadataJSON :=
  match read_json data with
  | Some (JObject l) => foldl (λ m kv, m ≫= λ m, set_field m kv) (Some zero_metadata) l
  | _ => None
  end.

(** [hex.DecodeString] succeeds and the text has [n] digits. *)
Definition is_hex (n : nat) (s : gostr) : bool :=
  (length s =? n)%nat && forallb (λ c, bool_decide (is_Some (unhex c))) s.

Definition unmarshalMetadata (data : gostr) : result chunkMetadata :=
  if maxMetadataSizeWrite <? Z.of_nat (length data) then inl (EMessage #"metadata is too large")
  else if (length data <? 2)%nat || negb (HasPrefix data #"{") || negb (HasSuffix data #"}")
  then inl (EMessage #"invalid json")
  else match json_Unmarshal data with
  | None => inl (EMessage #"json")
  | Some meta =>
      match j_Version meta, j_Size meta, j_ChunkNum meta with
      | Some version, Some size, Some chunkNum =>
          if version <? 1 then inl (EMessage #"wrong version")
          else if size <? 0 then inl (EMessage #"negative file size")
          else if (chunkNum <? 1) || (maxSafeChunkNumber <? chunkNum)
          then inl (EMessage #"wrong number of chunks")
          else if bool_decide (j_MD5 meta ≠ []) && negb (is_hex 32 (j_MD5 meta))
          then inl (EMessage #"wrong md5 hash")
          else if bool_decide (j_SHA1 meta ≠ []) && negb (is_hex 40 (j_SHA1 meta))
          then inl (EMessage #"wrong sha1 hash")
          else if chunkerMetadataVerion <? version then inl (EMessage #"unknown metadata version")
          else inr {| m_Version := version; m_Size := size; m_NChunks := chunkNum;
                      m_MD5 := j_MD5 meta; m_SHA1 := j_SHA1 meta; m_XactID := j_XactID meta |}
      | _, _, _ => inl (EMessage #"missing required field")
      end
  end.

(** ** Examples *)

Definition default_format : gostr := #"{name}.rclone_chunk.{chunk:3}".

Definition names_of (pattern : gostr) (start : Z) : option name_format :=
  match setChunkNameFormat pattern with
  | Ret (inr (r, f)) => Some {| nameRegexp_of := r; dataNameFmt := f; StartFrom := start |}
  | _ => None
  end.

Example default_names :
  (λ d, (makeChunkName d #"/a/b.bin" 7 #"k3x9q2", parseChunkName d #"/a/b.bin.rclone_chunk.008_k3x9q2",
         parseChunkName d #"/a/b.bin.rclone_chunk._meta", parseChunkName d #"b.rclone_chunk.001..tmp_1234567890"))
    <$> names_of default_format 1
  = Some (#"/a/b.bin.rclone_chunk.008_k3x9q2", (#"/a/b.bin", 7, [], #"k3x9q2"),
          (#"/a/b.bin", -1, #"meta", []), (#"b", 0, [], #"kf12oi")).
Proof. vm_compute. reflexivity. Qed.

Example metadata_example :
  (let! data := marshalMetadata 5000 3 #"9e107d9d372bb6826bd81d3542a419d6" [] #"k3x9q2" in unmarshalMetadata data)
  = inr {| m_Version := 2; m_Size := 5000; m_NChunks := 3; m_MD5 := #"9e107d9d372bb6826bd81d3542a419d6";
           m_SHA1 := []; m_XactID := #"k3x9q2" |}.
Proof. vm_compute. reflexivity. Qed.
