(* ===== verification/ChunkerNamesThms.v ===== *)
(** * Names and metadata of chunks are read back

    For a format whose separator cannot be read as a part of what follows it
    ([separated]), the name of a chunk gives back the file, the number and the
    transaction, whatever the name of the file; the metadata object gives back
    what was stored. *)

From S2P Require Import Prelude GoStrings Errs Paths Json Crypto ChunkerNames.

Local Open Scope Z_scope.

(** ** Matches of the parts of an expression *)

Lemma elem_of_re_bind {A B} (m : re A) (k : A → re B) s b r :
  (b, r) ∈ re_bind m k s ↔ ∃ a s', (a, s') ∈ m s ∧ (b, r) ∈ k a s'.
Proof.
  unfold re_bind. rewrite list_elem_of_bind. split.
  - intros ([a s'] & ? & ?). eauto.
  - intros (a & s' & ? & ?). by exists (a, s').
Qed.

Lemma elem_of_re_ret {A} (a b : A) s r : (b, r) ∈ re_ret a s ↔ b = a ∧ r = s.
Proof. unfold re_ret. rewrite list_elem_of_singleton. naive_solver. Qed.

Lemma elem_of_re_alt {A} (m n : re A) s b r : (b, r) ∈ re_alt m n s ↔ (b, r) ∈ m s ∨ (b, r) ∈ n s.
Proof. apply elem_of_app. Qed.

Lemma elem_of_re_lit p s u r : (u, r) ∈ re_lit p s ↔ s = p ++ r.
Proof.
  unfold re_lit. destruct (HasPrefix s p) eqn:E.
  - apply HasPrefix_spec in E as [k ->]. rewrite drop_app_length, list_elem_of_singleton.
    destruct u. naive_solver.
  - rewrite elem_of_nil. split; [done|]. intros ->. by rewrite HasPrefix_app in E.
Qed.

Lemma elem_of_re_end s u r : (u, r) ∈ re_end s ↔ s = [] ∧ r = [].
Proof.
  unfold re_end. destruct s; [rewrite list_elem_of_singleton; destruct u; naive_solver|].
  rewrite elem_of_nil. naive_solver.
Qed.

Definition all_of (P : ascii → bool) (s : gostr) : Prop := Forall (λ c, P c = true) s.

Lemma run_le P hi s : (run P hi s ≤ length s)%nat.
Proof.
  revert hi. induction s as [|c s IH]; intros [[|h]|]; simpl; try lia; destruct (P c); try lia.
  - specialize (IH (Some h)). lia.
  - specialize (IH None). lia.
Qed.

Lemma run_all P hi s k : (k ≤ run P hi s)%nat → all_of P (take k s).
Proof.
  revert hi k. induction s as [|c s IH]; intros [[|h]|] [|k] H; simpl in *; try lia; try constructor;
    destruct (P c) eqn:Ec; try lia; try done.
  - by apply (IH (Some h)); simpl; lia.
  - apply (IH None). lia.
Qed.

Lemma run_hi P hi s : (run P (Some hi) s ≤ hi)%nat.
Proof.
  revert hi. induction s as [|c s IH]; intros [|h]; simpl; try lia. destruct (P c); [|lia].
  specialize (IH h). lia.
Qed.

Lemma run_app_stop P hi a s :
  all_of P a → match hi with Some h => (length a ≤ h)%nat | None => True end →
  match s with c :: _ => P c = false | [] => True end ∨ hi = Some (length a) →
  run P hi (a ++ s) = length a.
Proof.
  revert hi. induction a as [|c a IH]; intros hi Ha Hh Hs.
  - destruct s as [|d s], hi as [[|h]|]; simpl; try done; destruct Hs as [Hs|?]; simplify_eq; by rewrite Hs.
  - apply Forall_cons in Ha as [Hc Ha]. destruct hi as [[|h]|]; simpl in *; try lia; rewrite Hc; f_equal; apply IH;
      try done; try (simpl; lia).
    + destruct Hs as [Hs|Hs]; [by left|right]. simplify_eq. done.
    + destruct Hs; [by left|done].
Qed.

Lemma elem_of_re_rep P lo hi s a r :
  (a, r) ∈ re_rep P lo hi s →
  s = a ++ r ∧ all_of P a ∧ (lo ≤ length a)%nat ∧ match hi with Some h => (length a ≤ h)%nat | None => True end.
Proof.
  unfold re_rep. rewrite list_elem_of_fmap. intros (k & E & Hk). simplify_eq.
  rewrite elem_of_reverse, elem_of_seq in Hk. pose proof (run_le P hi s).
  rewrite take_drop, length_take. split; [done|]. split; [by apply (run_all _ hi); lia|].
  split; [lia|]. destruct hi as [h|]; [|done]. pose proof (run_hi P h s). lia.
Qed.

(** ** The first match *)

(** The first match of a sequence, when the matches preferred to [a] lead
    nowhere. *)
Lemma re_bind_first {A B} (m : re A) (k : A → re B) s l1 a s' l2 b :
  m s = l1 ++ (a, s') :: l2 → (∀ a1 s1, (a1, s1) ∈ l1 → k a1 s1 = []) →
  head (k a s') = Some b → head (re_bind m k s) = Some b.
Proof.
  intros Hm Hl Hk. unfold re_bind. rewrite Hm, bind_app, bind_cons.
  replace (l1 ≫= λ '(a, s'), k a s') with (@nil (B * gostr)).
  - simpl. destruct (k a s'); [done|]. by simplify_eq.
  - clear Hm. symmetry. induction l1 as [|[a1 s1] l1 IH]; [done|].
    rewrite bind_cons, (Hl a1 s1) by set_solver. apply IH. set_solver.
Qed.

Lemma re_lit_app p s : re_lit p (p ++ s) = [((), s)].
Proof. unfold re_lit. by rewrite HasPrefix_app, drop_app_length. Qed.

Lemma re_bind_lit {B} p s (k : unit → re B) : re_bind (re_lit p) k (p ++ s) = k () s.
Proof. unfold re_bind. rewrite re_lit_app, bind_cons. simpl. by rewrite app_nil_r. Qed.

(** The longest run comes first. *)
Lemma re_rep_first P lo hi a s :
  all_of P a → (lo ≤ length a)%nat → match hi with Some h => (length a ≤ h)%nat | None => True end →
  match s with c :: _ => P c = false | [] => True end ∨ hi = Some (length a) →
  ∃ l, re_rep P lo hi (a ++ s) = (a, s) :: l.
Proof.
  intros Ha Hlo Hhi Hs. unfold re_rep. rewrite run_app_stop by done.
  replace (S (length a) - lo)%nat with (S (length a - lo)) by lia.
  rewrite seq_S, reverse_snoc. cbn [map].
  replace (lo + (length a - lo))%nat with (length a) by lia.
  rewrite take_app_length, drop_app_length. eauto.
Qed.

Lemma not_newline_spec c : not_newline c = true ↔ c ≠ "010"%char.
Proof. unfold not_newline. rewrite negb_true_iff, bool_decide_eq_false. done. Qed.

(** The lazy run tries every shorter piece of a text first. *)
Lemma re_lazy_app P a s :
  all_of P a → a ≠ [] →
  ∃ l1 l2, re_lazy P 1 (a ++ s) = l1 ++ (a, s) :: l2 ∧
    ∀ a1 s1, (a1, s1) ∈ l1 → ∃ r, r ≠ [] ∧ a = a1 ++ r ∧ s1 = r ++ s.
Proof.
  intros Ha Hne. unfold re_lazy.
  assert (Hrun : (length a ≤ run P None (a ++ s))%nat).
  { clear Hne. induction Ha as [|c a Hc Ha IH]; simpl; [lia|]. rewrite Hc. lia. }
  assert (Hl : (0 < length a)%nat) by (destruct a; [done|simpl; lia]).
  set (n := run P None (a ++ s)) in *.
  exists (map (λ k, (take k (a ++ s), drop k (a ++ s))) (seq 1 (length a - 1))).
  exists (map (λ k, (take k (a ++ s), drop k (a ++ s))) (seq (S (length a)) (n - length a))).
  split.
  - replace (S n - 1)%nat with ((length a - 1) + (1 + (n - length a)))%nat by lia.
    rewrite seq_app, map_app. f_equal.
    replace (1 + (length a - 1))%nat with (length a) by lia.
    cbn [seq Nat.add map]. by rewrite take_app_length, drop_app_length.
  - intros a1 s1. rewrite list_elem_of_fmap. intros (k & E & Hk). simplify_eq.
    rewrite elem_of_seq in Hk. exists (drop k a).
    rewrite take_app_le, drop_app_le by lia. split; [|by rewrite take_drop].
    intros E. apply (f_equal length) in E. rewrite length_drop in E. simpl in E. lia.
Qed.

(** ** Separated formats *)

(** The last byte before the number is none of a number, of a control type or
    of a transaction, and does not come again after the number; what follows
    the number does not start with a digit. *)
Definition separated (r : nameRegexp) : bool :=
  match last (re_between r) with
  | Some l => negb (is_lower_digit l) && negb (bool_decide (l = "_"%char)) &&
              negb (bool_decide (l ∈ re_afterChunk r)) &&
              match re_afterChunk r with c :: _ => negb (is_digit c) | [] => true end
  | None => false
  end.

(** The expression after the name of the file. *)
Definition rest_re (r : nameRegexp) (name : gostr) : re submatch :=
  let~ _ := re_lit (re_between r) in
  let~ (d, c) := reDataOrCtrl (re_width r) in
  let~ _ := re_lit (re_afterChunk r) in
  let~ (t, o) := reTemp in
  let~ _ := re_end in
  re_ret {| g1 := name; g2 := d; g3 := c; g4 := t; g5 := o |}.

Definition number_or_type (x : gostr) : Prop :=
  all_of is_digit x ∨ ∃ c, x = "_"%char :: c ∧ all_of is_lower_digit c.
Definition temp_suffix (x : gostr) : Prop :=
  x = [] ∨ (∃ t, x = "_"%char :: t ∧ all_of is_lower_digit t) ∨ (∃ o, x = #"..tmp_" ++ o ∧ all_of is_digit o).

Lemma lower_all c : all_of is_lower c → all_of is_lower_digit c.
Proof. intros H. eapply Forall_impl; [exact H|]. intros x Hx. unfold is_lower_digit. by rewrite Hx. Qed.

Lemma reDataOrCtrl_text w s d c r :
  ((d, c), r) ∈ reDataOrCtrl w s → ∃ x, s = x ++ r ∧ number_or_type x.
Proof.
  unfold reDataOrCtrl. rewrite elem_of_re_alt, !elem_of_re_bind. intros [(a & s' & H1 & H2)|(u & s' & H1 & H2)].
  - apply elem_of_re_ret in H2 as [_ ->]. apply elem_of_re_rep in H1 as (-> & ? & _).
    exists a. split; [done|by left].
  - apply elem_of_re_lit in H1 as ->. apply elem_of_re_bind in H2 as (e & s'' & H1 & H2).
    apply elem_of_re_ret in H2 as [_ ->]. unfold ctrlTypeReg in H1.
    apply elem_of_re_bind in H1 as (a & s1 & H1 & H2). apply elem_of_re_bind in H2 as (b & s2 & H2 & H3).
    apply elem_of_re_ret in H3 as [-> ->].
    apply elem_of_re_rep in H1 as (-> & ? & _). apply elem_of_re_rep in H2 as (-> & ? & _).
    exists ("_"%char :: a ++ b). split; [simpl; by rewrite <- app_assoc|]. right. exists (a ++ b).
    split; [done|]. apply Forall_app. split; [by apply lower_all|done].
Qed.

Lemma reTemp_text s t o r : ((t, o), r) ∈ reTemp s → ∃ x, s = x ++ r ∧ temp_suffix x.
Proof.
  unfold reTemp. rewrite !elem_of_re_alt, !elem_of_re_bind, elem_of_re_ret.
  intros [(a & s' & H1 & H2)|[(a & s' & H1 & H2)|[_ ->]]]; [| |by exists []; split; [|left]].
  - apply elem_of_re_ret in H2 as [_ ->]. unfold tempSuffixReg in H1.
    apply elem_of_re_bind in H1 as (u & s1 & H1%elem_of_re_lit & H2%elem_of_re_rep). destruct H2 as (-> & ? & _).
    exists ("_"%char :: a). subst s. split; [done|]. right. left. eauto.
  - apply elem_of_re_ret in H2 as [_ ->]. unfold tempSuffixRegOld in H1.
    apply elem_of_re_bind in H1 as (u & s1 & H1%elem_of_re_lit & H2%elem_of_re_rep). destruct H2 as (-> & ? & _).
    exists (#"..tmp_" ++ a). subst s. split; [done|]. right. right. eauto.
Qed.

Lemma rest_re_text r name s m e :
  (m, e) ∈ rest_re r name s →
  ∃ x y, s = re_between r ++ x ++ re_afterChunk r ++ y ∧ number_or_type x ∧ temp_suffix y.
Proof.
  unfold rest_re. rewrite elem_of_re_bind. intros (u & s1 & H1%elem_of_re_lit & H).
  apply elem_of_re_bind in H as ([d c] & s2 & (x & -> & Hx)%reDataOrCtrl_text & H).
  apply elem_of_re_bind in H as (u2 & s3 & ->%elem_of_re_lit & H).
  apply elem_of_re_bind in H as ([t o] & s4 & (y & -> & Hy)%reTemp_text & H).
  apply elem_of_re_bind in H as (u3 & s5 & [-> ->]%elem_of_re_end & H).
  exists x, y. subst s. by rewrite app_nil_r.
Qed.

(** *** A shorter name never matches *)

Lemma app_suffix {A} (a b x z : list A) : a ++ x = b ++ z → (length z ≤ length x)%nat → ∃ y, x = y ++ z.
Proof.
  intros E Hl. destruct (app_eq_inv _ _ _ _ E) as [(k & -> & ->)|(k & -> & ->)]; [|eauto].
  rewrite length_app in Hl. destruct k; [by exists []|simpl in Hl; lia].
Qed.

Lemma digit_lower_digit c : is_digit c = true → is_lower_digit c = true.
Proof. intros H. unfold is_lower_digit. rewrite H. by destruct (is_lower c). Qed.

Lemma number_or_type_not l x :
  number_or_type x → is_lower_digit l = false → l ≠ "_"%char → l ∉ x.
Proof.
  intros [H|(c & -> & H)] Hl Hu Hin.
  - rewrite list_elem_of_lookup in Hin. destruct Hin as [i Hi]. apply (Forall_lookup_1 _ _ _ _ H) in Hi.
    apply digit_lower_digit in Hi. congruence.
  - apply elem_of_cons in Hin as [?|Hin]; [done|].
    rewrite list_elem_of_lookup in Hin. destruct Hin as [i Hi]. apply (Forall_lookup_1 _ _ _ _ H) in Hi.
    congruence.
Qed.

Lemma all_of_elem P x c : all_of P x → c ∈ x → P c = true.
Proof. intros H Hc. by apply (proj1 (Forall_forall _ _) H). Qed.

(** After the separator's last byte, the suffix of a chunk cannot go on with a
    digit. *)
Lemma temp_suffix_split y y1 l c z :
  temp_suffix y → y = y1 ++ l :: c :: z → is_lower_digit l = false → l ≠ "_"%char → is_digit c = true → False.
Proof.
  intros [->|[(t & -> & Ht)|(o & -> & Ho)]] E Hl Hu Hc; [by destruct y1| |].
  - assert (Hin : l ∈ "_"%char :: t) by (rewrite E; set_solver).
    apply elem_of_cons in Hin as [?|Hin]; [done|]. apply (all_of_elem _ _ _ Ht) in Hin. congruence.
  - do 3 (destruct y1 as [|? y1]; simplify_eq/=; try done).
    match goal with H : _ = y1 ++ l :: c :: z |- _ => rename H into E end.
    assert (Hin : l ∈ #"mp_" ++ o) by (simpl; rewrite E; set_solver).
    apply elem_of_app in Hin as [Hin|Hin].
    + do 2 (apply elem_of_cons in Hin as [->|Hin]; [done|]). by apply list_elem_of_singleton in Hin as ->.
    + apply (all_of_elem _ _ _ Ho) in Hin. apply digit_lower_digit in Hin. congruence.
Qed.

Lemma shorter_name_fails r name b c z :
  separated r = true → b ≠ [] → is_digit c = true →
  rest_re r name (b ++ re_between r ++ c :: z) = [].
Proof.
  intros Hsep Hb Hc.
  destruct (rest_re r name _) as [|[m e] l] eqn:Hre; [done|]. exfalso.
  assert (Hin : (m, e) ∈ rest_re r name (b ++ re_between r ++ c :: z)) by (rewrite Hre; left).
  apply rest_re_text in Hin as (x & y & E & Hx & Hy).
  unfold separated in Hsep. destruct (last (re_between r)) as [l0|] eqn:Hlast; [|done].
  apply last_Some in Hlast as [q Hq]. reflect_bools.
  rewrite Hq in E. rewrite <- app_assoc in E. simpl app in E.
  assert (Hsuf : ∃ u, x ++ re_afterChunk r ++ y = u ++ l0 :: c :: z).
  { apply (app_suffix (q ++ [l0]) (b ++ q)).
    - rewrite <- !app_assoc in *. simpl in *. done.
    - apply (f_equal length) in E. rewrite !length_app in *. cbn [length] in *. rewrite ?length_app in *.
      cbn [length] in *. destruct b; [done|]. cbn [length] in *. lia. }
  destruct Hsuf as [u Hu]. rewrite app_assoc in Hu.
  destruct (app_eq_inv _ _ _ _ Hu) as [(k & Hk & E1)|(k & Hk & E1)].
  - destruct k as [|k0 k]; simplify_eq/=.
    + by eapply (temp_suffix_split _ [] l0 c z).
    + assert (Hin : k0 ∈ x ++ re_afterChunk r) by (rewrite Hk; set_solver).
      apply elem_of_app in Hin as [Hin|Hin]; [|done]. by apply (number_or_type_not k0 x).
  - by eapply (temp_suffix_split y k l0 c z).
Qed.

(** *** The name of the file matches *)

(** A transaction the expression reads: empty, or four to nine digits and
    small letters. *)
Definition xact_ok (x : gostr) : bool :=
  bool_decide (x = []) ||
  ((4 <=? length x)%nat && (length x <=? 9)%nat && forallb is_lower_digit x).

Definition xact_suffix (x : gostr) : gostr := if bool_decide (x = []) then [] else "_"%char :: x.

Lemma re_bind_cons {A B} (m : re A) (k : A → re B) s a s' l :
  m s = (a, s') :: l → re_bind m k s = k a s' ++ (l ≫= λ '(a, s'), k a s').
Proof. intros H. unfold re_bind. by rewrite H, bind_cons. Qed.

Lemma re_bind_head {A B} (m : re A) (k : A → re B) s a s' l b :
  m s = (a, s') :: l → head (k a s') = Some b → head (re_bind m k s) = Some b.
Proof. intros Hm Hk. eapply (re_bind_first m k s [] a s' l); [done| |done]. by intros ???%elem_of_nil. Qed.

Lemma forallb_all P x : forallb P x = true → all_of P x.
Proof. induction x as [|c x IH]; simpl; intros H; [constructor|]. reflect_bools. constructor; [done|by apply IH]. Qed.

Lemma reDataOrCtrl_first w ds s :
  all_of is_digit ds → (w ≤ length ds)%nat → match s with c :: _ => is_digit c = false | [] => True end →
  ∃ l, reDataOrCtrl w (ds ++ s) = ((ds, []), s) :: l.
Proof.
  intros Hd Hw Hs. unfold reDataOrCtrl, re_alt.
  destruct (re_rep_first is_digit w None ds s) as [l E]; [done..|by left|].
  rewrite (re_bind_cons _ _ _ _ _ _ E). simpl. eauto.
Qed.

Lemma reTemp_first x : xact_ok x = true → ∃ l, reTemp (xact_suffix x) = ((x, []), []) :: l.
Proof.
  unfold xact_ok, xact_suffix. case_bool_decide as Hx; [subst; eexists; vm_compute; reflexivity|].
  cbn [orb]. intros. reflect_bools.
  assert (Hall : all_of is_lower_digit x) by (by apply forallb_all).
  destruct (re_rep_first is_lower_digit 4 (Some 9%nat) x []) as [l E].
  { done. } { by apply Nat.leb_le. } { by apply Nat.leb_le. } { by left. }
  rewrite app_nil_r in E.
  unfold reTemp, re_alt, tempSuffixReg. exists ((l ≫= λ '(a, s'), re_ret (a, []) s') ++
    (re_bind tempSuffixRegOld (λ o, re_ret ([], o)) ("_"%char :: x) ++ re_ret ([], []) ("_"%char :: x))).
  rewrite app_comm_cons. f_equal.
  erewrite re_bind_cons; [reflexivity|].
  change ("_"%char :: x) with (#"_" ++ x). rewrite re_bind_lit. exact E.
Qed.

Lemma FindStringSubmatch_name r base ds x :
  separated r = true → base ≠ [] → "010"%char ∉ base →
  all_of is_digit ds → ds ≠ [] → (re_width r ≤ length ds)%nat → xact_ok x = true →
  FindStringSubmatch r (re_beforeName r ++ base ++ re_between r ++ ds ++ re_afterChunk r ++ xact_suffix x)
  = Some {| g1 := base; g2 := ds; g3 := []; g4 := x; g5 := [] |}.
Proof.
  intros Hsep Hb Hnl Hds Hne Hw Hx. unfold FindStringSubmatch.
  change (name_re r) with (re_bind (re_lit (re_beforeName r)) (λ _, re_bind (re_lazy not_newline 1) (rest_re r))).
  rewrite re_bind_lit.
  destruct (re_lazy_app not_newline base (re_between r ++ ds ++ re_afterChunk r ++ xact_suffix x))
    as (l1 & l2 & E & Hl1); [|done|].
  { apply Forall_forall. intros c Hc. apply not_newline_spec. by intros ->. }
  rewrite (re_bind_first _ (rest_re r) _ _ _ _ _ ({| g1 := base; g2 := ds; g3 := []; g4 := x; g5 := [] |}, []) E);
    [done| |].
  - intros a1 s1 (b & Hbne & Ha & ->)%Hl1. destruct ds as [|d ds]; [done|].
    apply Forall_cons in Hds as [??]. by apply shorter_name_fails.
  - unfold rest_re. rewrite re_bind_lit.
    destruct (reDataOrCtrl_first (re_width r) ds (re_afterChunk r ++ xact_suffix x)) as [l El]; [done..| |].
    { unfold separated in Hsep. case_hyp Hsep; [|done]. reflect_bools.
      destruct (re_afterChunk r); simpl; [|by apply negb_true_iff].
      unfold xact_suffix. by case_bool_decide. }
    eapply re_bind_head; [exact El|]. cbv beta iota. rewrite re_bind_lit.
    destruct (reTemp_first x Hx) as [l' El']. eapply re_bind_head; [exact El'|]. done.
Qed.

(** ** [Sprintf] of the format *)

Lemma sprintf_text s f args :
  sprintf_from None (ReplaceByte s "%" #"%%" ++ f) args = s ++ sprintf_from None f args.
Proof.
  induction s as [|c s IH]; [done|]. unfold ReplaceByte in *. rewrite bind_cons, <- app_assoc.
  case_bool_decide; subst; simpl.
  - by rewrite IH.
  - rewrite bool_decide_eq_false_2 by done. by rewrite IH.
Qed.

Lemma sprintf_width zero w ds f args :
  all_of is_digit ds → 0 < w ∨ w = 0 ∧ head ds ≠ Some "0"%char →
  sprintf_from (Some (zero, w)) (ds ++ f) args
  = sprintf_from (Some (zero, fold_left (λ a c, a * 10 + (byte_val c - 48)) ds w)) f args.
Proof.
  intros Hds. revert w. induction Hds as [|c ds Hc Hds IH]; intros w Hw; [done|].
  cbn [app sprintf_from fold_left]. rewrite bool_decide_eq_false_2 by (intros ->; done).
  assert (Hz : bool_decide (c = "0"%char) && (w =? 0) = false).
  { apply andb_false_iff. destruct Hw as [Hw|[_ Hw]]; [right; apply Z.eqb_neq; lia|left].
    apply bool_decide_eq_false_2. by intros ->. }
  rewrite Hz, Hc. apply IH. left.
  pose proof Hc as Hr. unfold is_digit in Hr. reflect_bools.
  destruct Hw as [Hw|[-> Hw]]; [lia|].
  assert (byte_val c ≠ 48); [|lia]. intros E. apply Hw. simpl. f_equal.
  apply byte_val_inj. by rewrite E.
Qed.

Lemma zero_pad_one n : 0 ≤ n → zero_pad 1 (FormatUint n) = FormatUint n.
Proof. intros Hn. destruct (FormatUint_head n Hn) as (c & s & E & _). by rewrite E. Qed.

(** The number of a chunk in a name. *)
Definition chunk_digits (r : nameRegexp) (n : Z) : gostr := zero_pad (re_width r) (FormatUint n).

Lemma FormatInt_pos_head w : 0 < w → head (FormatInt w) ≠ Some "0"%char.
Proof.
  intros Hw. unfold FormatInt. zcmp. destruct (digits_lead (S (Z.to_nat (Z.log2 w))) w) as (c & s & E & _ & Hc).
  { split; [done|]. apply log2_pow10. lia. }
  unfold FormatUint. rewrite E. simpl. congruence.
Qed.

Lemma Sprintf_name pattern r f b n :
  setChunkNameFormat pattern = Ret (inr (r, f)) → 0 ≤ n →
  Sprintf f [AString b; AInt n]
  = re_beforeName r ++ b ++ re_between r ++ chunk_digits r n ++ re_afterChunk r.
Proof.
  intros H Hn. unfold setChunkNameFormat in H. case_bool_decide; [done|].
  destruct (parseNameToken pattern) as [?|[i j]]; [done|].
  destruct (parseChunkToken pattern) as [?|[[k l] w]]; [done|].
  do 2 (case_hyp H; [done|]). unfold Sprintf, chunk_digits. simplify_eq/=.
  rewrite sprintf_text. f_equal. cbn [app sprintf_from].
  rewrite bool_decide_eq_true_2 by done. cbn [sprintf_from].
  change (is_digit "s") with false. rewrite !bool_decide_eq_false_2 by done.
  rewrite bool_decide_eq_true_2 by done. cbn [andb]. cbv iota. unfold space_pad. cbn [Z.to_nat Nat.sub replicate app].
  f_equal. rewrite sprintf_text. f_equal.
  destruct (0 <? w) eqn:Ew; reflect_bools; cbn [app sprintf_from].
  - rewrite bool_decide_eq_true_2 by done. cbn [sprintf_from].
    rewrite bool_decide_eq_false_2, bool_decide_eq_true_2 by done. cbn [andb Z.eqb].
    rewrite <- app_assoc, sprintf_width.
    2: { apply FormatInt_digits. lia. }
    2: { right. split; [done|by apply FormatInt_pos_head]. }
    fold (decimal (FormatInt w)). unfold FormatInt at 1. zcmp. unfold FormatUint at 1.
    rewrite decimal_digits by (split; [lia|apply log2_pow10; lia]).
    cbn [app sprintf_from]. change (is_digit "d") with false. rewrite !bool_decide_eq_false_2 by done.
    rewrite bool_decide_eq_true_2 by done. cbn [andb]. unfold fmt_int. zcmp.
    f_equal. rewrite <- (app_nil_r (ReplaceByte _ _ _)), sprintf_text. by rewrite app_nil_r.
  - rewrite bool_decide_eq_true_2 by done. cbn [sprintf_from].
    change (is_digit "d") with false. rewrite !bool_decide_eq_false_2 by done.
    rewrite bool_decide_eq_true_2 by done. cbn [andb]. unfold fmt_int, space_pad.
    rewrite zero_pad_one by done. unfold FormatInt. zcmp. cbn [Z.to_nat Nat.sub replicate app].
    f_equal. rewrite <- (app_nil_r (ReplaceByte _ _ _)), sprintf_text. by rewrite app_nil_r.
Qed.

(** ** Numbers with leading zeros *)

Lemma parse_digits_zeros k s : parse_digits 0 (replicate k "0"%char ++ s) = parse_digits 0 s.
Proof. induction k as [|k IH]; [done|]. exact IH. Qed.

Lemma zero_pad_digits w n : 0 ≤ n → all_of is_digit (zero_pad w (FormatUint n)).
Proof.
  intros Hn. apply Forall_app. split; [|by apply digits_all].
  apply Forall_forall. intros c [-> _]%elem_of_replicate. done.
Qed.

Lemma zero_pad_length w s : (w ≤ length (zero_pad w s))%nat.
Proof. unfold zero_pad. rewrite length_app, length_replicate. lia. Qed.

Lemma zero_pad_nonempty w n : 0 ≤ n → zero_pad w (FormatUint n) ≠ [].
Proof.
  intros Hn. destruct (FormatUint_head n Hn) as (c & s & E & _). unfold zero_pad. rewrite E.
  by destruct (replicate _ _).
Qed.

Lemma ParseInt_zero_pad w n : 0 ≤ n ≤ max_int64 → ParseInt (zero_pad w (FormatUint n)) = (n, None).
Proof.
  intros Hn. pose proof (zero_pad_digits w n ltac:(lia)) as Hall.
  pose proof (zero_pad_nonempty w n ltac:(lia)) as Hne.
  assert (Hp : ParseUint (zero_pad w (FormatUint n)) = (n, None)).
  { rewrite <- (ParseUint_FormatUint n) by (unfold_int64; lia). unfold ParseUint.
    destruct (zero_pad w (FormatUint n)) eqn:E; [done|]. rewrite <- E. unfold zero_pad.
    rewrite parse_digits_zeros. destruct (FormatUint_head n) as (c & s & E' & _); [lia|]. by rewrite E'. }
  unfold ParseInt. destruct (zero_pad w (FormatUint n)) as [|c s]; [done|].
  apply Forall_cons in Hall as [Hc _]. destruct (digit_not_sign c Hc).
  rewrite !bool_decide_eq_false_2 by done. unfold parse_signed. rewrite Hp.
  cbn [negb andb]. destruct (max_int64 <? n) eqn:E; [|done]. reflect_bools. lia.
Qed.

(** ** [path.Split] *)

Lemma path_Split_no_slash s : (path_Split s).1 = [] → "/"%char ∉ s.
Proof.
  unfold path_Split. simpl. intros H Hin.
  assert (Hl : (length (after_last_slash s) < length s)%nat).
  { clear H. induction s as [|c s IH]; [by apply elem_of_nil in Hin|]. simpl.
    case_bool_decide as Hs; [specialize (IH Hs); lia|].
    apply elem_of_cons in Hin as [<-|]; [|done]. rewrite bool_decide_eq_true_2 by done. lia. }
  apply (f_equal length) in H. rewrite length_take in H. simpl in H. lia.
Qed.

Lemma take_sub {A} (x : A) n l : x ∈ take n l → x ∈ l.
Proof. intros H. rewrite <- (take_drop n l). set_solver. Qed.
Lemma drop_sub {A} (x : A) n l : x ∈ drop n l → x ∈ l.
Proof. intros H. rewrite <- (take_drop n l). set_solver. Qed.

Lemma format_no_slash pattern r f :
  setChunkNameFormat pattern = Ret (inr (r, f)) →
  ("/"%char ∉ re_beforeName r) ∧ ("/"%char ∉ re_between r) ∧ ("/"%char ∉ re_afterChunk r).
Proof.
  intros H. unfold setChunkNameFormat in H. case_bool_decide as Hs; [done|].
  apply path_Split_no_slash in Hs.
  destruct (parseNameToken pattern) as [?|[i j]]; [done|].
  destruct (parseChunkToken pattern) as [?|[[k l] w]]; [done|].
  do 2 (case_hyp H; [done|]). simplify_eq/=.
  split_ands; intros Hin; apply Hs.
  - by eapply take_sub.
  - by eapply take_sub, drop_sub.
  - by eapply drop_sub.
Qed.

Lemma Sprintf_temp x : xact_ok x = true → x ≠ [] → Sprintf tempSuffixFormat [AString x] = "_"%char :: x.
Proof.
  unfold xact_ok. intros H Hx. rewrite bool_decide_eq_false_2 in H by done. cbn [orb] in H. reflect_bools.
  change (Sprintf tempSuffixFormat [AString x]) with ("_"%char :: zero_pad 4 x ++ []).
  rewrite app_nil_r. f_equal. unfold zero_pad. apply Nat.leb_le in H.
  by replace (4 - length x)%nat with 0%nat by lia.
Qed.

(** A file name the expression can read. *)
Definition file_name (base : gostr) : Prop := base ≠ [] ∧ ("/"%char ∉ base) ∧ "010"%char ∉ base.

Lemma makeChunkName_text pattern d dir base no x :
  setChunkNameFormat pattern = Ret (inr (nameRegexp_of d, dataNameFmt d)) →
  dir_part dir → file_name base → 0 ≤ no + StartFrom d ≤ max_int64 → xact_ok x = true →
  makeChunkName d (dir ++ base) no x
  = dir ++ re_beforeName (nameRegexp_of d) ++ base ++ re_between (nameRegexp_of d) ++
    chunk_digits (nameRegexp_of d) (no + StartFrom d) ++ re_afterChunk (nameRegexp_of d) ++ xact_suffix x.
Proof.
  intros Hf Hd (Hb & Hs & _) Hno Hx. unfold makeChunkName. rewrite path_Split_dir by done.
  rewrite wrap64_id by (unfold_int64; lia). rewrite (Sprintf_name pattern _ _ _ _ Hf) by lia.
  unfold xact_suffix. f_equal. case_bool_decide as Hx0.
  - rewrite bool_decide_eq_false_2, Sprintf_temp by done. by rewrite <- !app_assoc.
  - subst x. rewrite bool_decide_eq_true_2 by done. by rewrite app_nil_r.
Qed.

Lemma parseChunkName_make pattern d dir base no x :
  setChunkNameFormat pattern = Ret (inr (nameRegexp_of d, dataNameFmt d)) →
  separated (nameRegexp_of d) = true →
  dir_part dir → file_name base → int64_ok (StartFrom d) → 0 ≤ no ≤ max_int64 →
  0 ≤ no + StartFrom d ≤ max_int64 → xact_ok x = true →
  parseChunkName d (makeChunkName d (dir ++ base) no x) = (dir ++ base, no, [], x).
Proof.
  intros Hf Hsep Hd Hb Hst Hno Hn Hx. rewrite (makeChunkName_text pattern) by done.
  destruct (format_no_slash _ _ _ Hf) as (H1 & H2 & H3). destruct Hb as (Hb & Hs & Hnl).
  pose proof (zero_pad_digits (re_width (nameRegexp_of d)) (no + StartFrom d) ltac:(lia)) as Hds.
  assert (Hdig : "/"%char ∉ chunk_digits (nameRegexp_of d) (no + StartFrom d)).
  { intros Hin%(all_of_elem _ _ _ Hds). done. }
  assert (Hxs : "/"%char ∉ xact_suffix x).
  { unfold xact_suffix, xact_ok in *. case_bool_decide; [set_solver|]. cbn [orb] in Hx. reflect_bools.
    intros [?|Hin]%elem_of_cons; [done|]. match goal with H : forallb _ _ = true |- _ => apply forallb_all in H end.
    by apply (all_of_elem is_lower_digit x) in Hin. }
  unfold parseChunkName. rewrite path_Split_dir by (try done; set_solver).
  rewrite FindStringSubmatch_name; [|done|done|done|done|apply zero_pad_nonempty; lia|apply zero_pad_length|done].
  cbn [g1 g2 g3 g4 g5]. rewrite !bool_decide_eq_false_2 by (try done; apply zero_pad_nonempty; lia).
  rewrite bool_decide_eq_true_2 by (apply zero_pad_nonempty; lia).
  unfold chunk_digits. rewrite ParseInt_zero_pad by lia.
  replace (no + StartFrom d - StartFrom d) with no by lia. rewrite wrap64_id by (unfold_int64; lia).
  zcmp. rewrite bool_decide_eq_false_2 by naive_solver. done.
Qed.

(** ** Metadata *)

Lemma unhex_safe c : is_Some (unhex c) → json_safe c = true.
Proof. intros [v Hv]. destruct c as [[] [] [] [] [] [] [] []]; vm_compute in Hv; try discriminate Hv; done. Qed.

Lemma is_hex_plain n s : is_hex n s = true → plain s.
Proof.
  unfold is_hex. intros. reflect_bools.
  match goal with H : forallb _ _ = true |- _ => apply forallb_all in H; eapply Forall_impl; [exact H|] end.
  intros c Hc. simpl in Hc. apply bool_decide_eq_true in Hc. by apply unhex_safe.
Qed.

Lemma lower_digit_safe c : is_lower_digit c = true → json_safe c = true.
Proof. destruct c as [[] [] [] [] [] [] [] []]; vm_compute; done. Qed.

Lemma xact_plain x : xact_ok x = true → plain x.
Proof.
  unfold xact_ok. intros [->%bool_decide_eq_true|H]%orb_true_iff; [constructor|]. reflect_bools.
  match goal with H : forallb _ _ = true |- _ => apply forallb_all in H; eapply Forall_impl; [exact H|] end.
  apply lower_digit_safe.
Qed.

Lemma json_int_num n : int64_ok n → json_int (JNumber (FormatInt n)) = Some (Some n).
Proof. intros H. unfold json_int. by rewrite ParseInt_FormatInt. Qed.

(** What a printed metadata document is read as. *)
Definition opt_member (k s : gostr) : list (gostr * json) :=
  if bool_decide (s = []) then [] else [(k, JString s)].

Lemma opt_member_print k s :
  plain s →
  Forall2 (λ kt kv, kt.1 = kv.1 ∧ reads_as kt.2 kv.2)
    (if bool_decide (s = []) then [] else [(k, json_string s)]) (opt_member k s).
Proof.
  intros H. unfold opt_member. case_bool_decide; [constructor|].
  constructor; [|constructor]. split; [done|]. by apply reads_string.
Qed.

Lemma read_metadata v size n md5v sha1v x :
  plain md5v → plain sha1v → plain x →
  read_json (json_Marshal {| j_Version := Some v; j_Size := Some size; j_ChunkNum := Some n;
                             j_MD5 := md5v; j_SHA1 := sha1v; j_XactID := x |})
  = Some (JObject ([(#"ver", JNumber (FormatInt v)); (#"size", JNumber (FormatInt size));
                    (#"nchunks", JNumber (FormatInt n))]
      ++ opt_member #"md5" md5v ++ opt_member #"sha1" sha1v ++ opt_member #"txn" x)).
Proof.
  intros Hm Hs Hx. unfold json_Marshal. cbn [j_Version j_Size j_ChunkNum j_MD5 j_SHA1 j_XactID].
  apply read_print_object; [done| |].
  - repeat (apply Forall_cons; split; [repeat constructor|]).
    repeat apply Forall_app_2; case_bool_decide; repeat constructor.
  - do 3 (apply Forall2_cons; split; [split; [done|apply reads_int]|]).
    repeat apply Forall2_app; by apply opt_member_print.
Qed.

Lemma json_Unmarshal_Marshal v size n md5v sha1v x :
  plain md5v → plain sha1v → plain x → int64_ok v → int64_ok size → int64_ok n →
  let m := {| j_Version := Some v; j_Size := Some size; j_ChunkNum := Some n;
              j_MD5 := md5v; j_SHA1 := sha1v; j_XactID := x |} in
  json_Unmarshal (json_Marshal m) = Some m.
Proof.
  intros Hm Hs Hx Hv Hsz Hn. unfold json_Unmarshal. cbv zeta. rewrite read_metadata by done.
  cbn [app foldl mbind option_bind].
  change (set_field zero_metadata (#"ver", ?v)) with
    (n ← json_int v; Some {| j_Version := n; j_Size := None; j_ChunkNum := None; j_MD5 := []; j_SHA1 := []; j_XactID := [] |}).
  rewrite json_int_num by done. cbn [mbind option_bind].
  change (set_field ?m (#"size", ?v)) with
    (n ← json_int v; Some {| j_Version := j_Version m; j_Size := n; j_ChunkNum := None; j_MD5 := []; j_SHA1 := []; j_XactID := [] |}).
  rewrite json_int_num by done. cbn [mbind option_bind].
  change (set_field ?m (#"nchunks", ?v)) with
    (n ← json_int v; Some {| j_Version := j_Version m; j_Size := j_Size m; j_ChunkNum := n; j_MD5 := []; j_SHA1 := []; j_XactID := [] |}).
  rewrite json_int_num by done. cbn [mbind option_bind j_Version j_Size].
  unfold opt_member.
  destruct (decide (md5v = [])) as [->|?], (decide (sha1v = [])) as [->|?], (decide (x = [])) as [->|?];
    rewrite ?(bool_decide_eq_true_2 ([] = [])) by done; rewrite ?bool_decide_eq_false_2 by done; reflexivity.
Qed.

Lemma digits_length fuel n k : 0 ≤ n < 10 ^ Z.of_nat k → (0 < k)%nat → (length (digits fuel n) ≤ k)%nat.
Proof.
  revert n k. induction fuel as [|f IH]; intros n k Hn Hk; [simpl; lia|]. cbn [digits].
  destruct (n <? 10) eqn:E; reflect_bools; [simpl; lia|].
  rewrite length_app. cbn [length]. destruct k as [|[|k]]; [lia|simpl in Hn; lia|].
  specialize (IH (n / 10) (S k)). rewrite (Nat2Z.inj_succ (S k)), Z.pow_succ_r in Hn by lia.
  assert (length (digits f (n / 10)) ≤ S k)%nat; [|lia]. apply IH; [|lia].
  split; [apply Z.div_pos; lia|apply Z.div_lt_upper_bound; lia].
Qed.

Lemma FormatInt_length n : int64_ok n → (length (FormatInt n) ≤ 20)%nat.
Proof.
  unfold_int64. intros Hn. unfold FormatInt. destruct (n <? 0) eqn:E; reflect_bools; cbn [length].
  - pose proof (digits_length (S (Z.to_nat (Z.log2 (- n)))) (- n) 19). unfold FormatUint.
    assert (length (digits (S (Z.to_nat (Z.log2 (- n)))) (- n)) ≤ 19)%nat by (apply H; lia). lia.
  - pose proof (digits_length (S (Z.to_nat (Z.log2 n))) n 19). unfold FormatUint.
    assert (length (digits (S (Z.to_nat (Z.log2 n))) n) ≤ 19)%nat by (apply H; lia). lia.
Qed.

Definition hash_ok (n : nat) (s : gostr) : Prop := s = [] ∨ is_hex n s = true.

Lemma hash_plain n s : hash_ok n s → plain s.
Proof. intros [->|H]; [constructor|by eapply is_hex_plain]. Qed.

Lemma hash_length n s : hash_ok n s → (length s ≤ n)%nat.
Proof. intros [->|H]; simpl; [lia|]. unfold is_hex in H. reflect_bools. by apply Nat.eqb_eq in H as ->. Qed.

Lemma xact_length x : xact_ok x = true → (length x ≤ 9)%nat.
Proof.
  unfold xact_ok. intros [->%bool_decide_eq_true|H]%orb_true_iff; simpl; [lia|]. reflect_bools.
  by apply Nat.leb_le.
Qed.

Lemma json_string_length s : plain s → length (json_string s) = (length s + 2)%nat.
Proof. intros H. rewrite json_string_plain by done. simpl. rewrite length_app. simpl. lia. Qed.

Lemma print_object_length l :
  (length (print_object l) ≤ 2 + sum_list_with (λ '(k, text), length (json_string k) + length text + 2) l)%nat.
Proof.
  unfold print_object. rewrite !length_app. cbn [length].
  assert (H : (length (Join #"," (map (λ '(k, text), json_string k ++ #":" ++ text) l))
    ≤ sum_list_with (λ '(k, text), length (json_string k) + length text + 2) l)%nat); [|lia].
  induction l as [|[k t] l IH]; [done|]. cbn [map sum_list_with].
  destruct (decide (l = [])) as [->|Hl].
  - cbn [map Join]. rewrite !length_app. cbn [length]. lia.
  - rewrite Join_cons by (by destruct l). rewrite !length_app. cbn [length]. lia.
Qed.

(** The metadata [Put] makes is short enough to be written. *)
Lemma marshal_fits size n md5v sha1v x :
  int64_ok size → int64_ok n → hash_ok 32 md5v → hash_ok 40 sha1v → xact_ok x = true →
  ∃ data, marshalMetadata size n md5v sha1v x = inr data ∧ (length data < 255)%nat ∧
    data = json_Marshal {| j_Version := Some (if bool_decide (x = []) then 1 else 2); j_Size := Some size;
                           j_ChunkNum := Some n; j_MD5 := md5v; j_SHA1 := sha1v; j_XactID := x |}.
Proof.
  intros Hs Hn Hm Hh Hx. unfold marshalMetadata. change (chunkerMetadataVerion =? 2) with true.
  rewrite andb_true_r.
  set (data := json_Marshal _). assert (Hl : (length data < 255)%nat).
  { unfold data, json_Marshal. cbn [j_Version j_Size j_ChunkNum j_MD5 j_SHA1 j_XactID].
    pose proof (FormatInt_length size Hs). pose proof (FormatInt_length n Hn).
    pose proof (hash_length _ _ Hm). pose proof (hash_length _ _ Hh). pose proof (xact_length _ Hx).
    apply hash_plain in Hm, Hh. apply xact_plain in Hx.
    eapply Nat.le_lt_trans; [apply print_object_length|].
    rewrite !sum_list_with_app. cbn [sum_list_with].
    rewrite !json_string_length by (repeat constructor).
    assert (Hopt : ∀ k s b, plain k → plain s → (length k ≤ 4)%nat → (length s ≤ b)%nat →
      (sum_list_with (λ '(k, text), length (json_string k) + length text + 2)
         (if bool_decide (s = []) then [] else [(k, json_string s)]) ≤ 10 + b)%nat).
    { intros k s b Hk Hp ??. case_bool_decide; cbn [sum_list_with]; [lia|].
      rewrite !json_string_length by done. lia. }
    pose proof (Hopt #"md5" md5v 32%nat ltac:(repeat constructor) Hm ltac:(simpl; lia) ltac:(lia)).
    pose proof (Hopt #"sha1" sha1v 40%nat ltac:(repeat constructor) Hh ltac:(simpl; lia) ltac:(lia)).
    pose proof (Hopt #"txn" x 9%nat ltac:(repeat constructor) Hx ltac:(simpl; lia) ltac:(lia)).
    assert (Hv : length (FormatInt (if bool_decide (x = []) then 1 else chunkerMetadataVerion)) = 1%nat)
      by (by case_bool_decide).
    rewrite Hv. cbn [length]. lia. }
  exists data. assert (maxMetadataSizeWrite <=? Z.of_nat (length data) = false) as ->.
  { apply Z.leb_gt. unfold maxMetadataSizeWrite. lia. }
  done.
Qed.

Lemma print_object_ends l : HasPrefix (print_object l) #"{" = true ∧ HasSuffix (print_object l) #"}" = true
  ∧ (2 ≤ length (print_object l))%nat.
Proof.
  unfold print_object. rewrite HasPrefix_app, HasSuffix_spec, !length_app. simpl. split_ands; [done| |lia].
  by eexists (_ :: _).
Qed.

Lemma unmarshal_marshal size n md5v sha1v x :
  0 ≤ size ≤ max_int64 → 1 ≤ n ≤ maxSafeChunkNumber →
  hash_ok 32 md5v → hash_ok 40 sha1v → xact_ok x = true →
  ∃ data, marshalMetadata size n md5v sha1v x = inr data ∧ (length data < 255)%nat ∧
    unmarshalMetadata data
    = inr {| m_Version := if bool_decide (x = []) then 1 else 2; m_Size := size; m_NChunks := n;
             m_MD5 := md5v; m_SHA1 := sha1v; m_XactID := x |}.
Proof.
  intros Hs Hn Hm Hh Hx.
  destruct (marshal_fits size n md5v sha1v x) as (data & Hd & Hl & E);
    [unfold_int64; lia|unfold maxSafeChunkNumber in *; unfold_int64; lia|done..|].
  exists data. split_ands; [done|done|]. unfold unmarshalMetadata.
  assert (maxMetadataSizeWrite <? Z.of_nat (length data) = false) as ->.
  { apply Z.ltb_ge. unfold maxMetadataSizeWrite. lia. }
  destruct (print_object_ends ([(#"ver", FormatInt (if bool_decide (x = []) then 1 else 2)); (#"size", FormatInt size);
    (#"nchunks", FormatInt n)] ++ (if bool_decide (md5v = []) then [] else [(#"md5", json_string md5v)])
    ++ (if bool_decide (sha1v = []) then [] else [(#"sha1", json_string sha1v)])
    ++ (if bool_decide (x = []) then [] else [(#"txn", json_string x)]))) as (Hp & Hq & H2).
  assert (Hbad : ((length data <? 2)%nat || negb (HasPrefix data #"{") || negb (HasSuffix data #"}")) = false).
  { rewrite E. unfold json_Marshal. cbn [j_Version j_Size j_ChunkNum j_MD5 j_SHA1 j_XactID].
    rewrite Hp, Hq. cbn [negb]. rewrite !orb_false_r. by apply Nat.ltb_ge. }
  rewrite Hbad, E, json_Unmarshal_Marshal.
  2-6: (by eapply hash_plain) || (by apply xact_plain) || (unfold maxSafeChunkNumber in *; unfold_int64; try case_bool_decide; lia).
  2: unfold maxSafeChunkNumber in *; unfold_int64; lia.
  cbn [j_Version j_Size j_ChunkNum j_MD5 j_SHA1 j_XactID].
  unfold maxSafeChunkNumber, chunkerMetadataVerion in *.
  assert (Hh1 : bool_decide (md5v ≠ []) && negb (is_hex 32 md5v) = false).
  { destruct Hm as [->|Hm]; [done|]. rewrite Hm. apply andb_false_r. }
  assert (Hh2 : bool_decide (sha1v ≠ []) && negb (is_hex 40 sha1v) = false).
  { destruct Hh as [->|Hh]; [done|]. rewrite Hh. apply andb_false_r. }
  rewrite Hh1, Hh2. destruct (bool_decide (x = [])); zcmp; done.
Qed.

(** ** Hashes and transactions [Put] makes *)

Lemma lowerhex_hex v : 0 ≤ v < 16 → is_Some (unhex (lowerhex v)).
Proof.
  intros H. assert (Hv : v = 0 ∨ v = 1 ∨ v = 2 ∨ v = 3 ∨ v = 4 ∨ v = 5 ∨ v = 6 ∨ v = 7 ∨ v = 8 ∨ v = 9 ∨ v = 10 ∨
    v = 11 ∨ v = 12 ∨ v = 13 ∨ v = 14 ∨ v = 15) by lia.
  repeat destruct Hv as [->|Hv]; subst; vm_compute; eauto.
Qed.

Lemma hex_encode_hex s m : (m = 2 * length s)%nat → is_hex m (hex_encode s) = true.
Proof.
  intros ->. unfold is_hex. rewrite hex_encode_length, Nat.eqb_refl. cbn [andb].
  unfold hex_encode. induction s as [|c s IH]; [done|]. rewrite bind_cons. cbn [app forallb].
  pose proof (byte_val_bound c).
  rewrite !bool_decide_eq_true_2 by (apply lowerhex_hex; Z.div_mod_to_equations; lia). exact IH.
Qed.

Lemma md5_length s : length (md5 s) = 16%nat.
Proof. unfold md5. by destruct (md5_blocks _ _ _) as [[[a b] c] e]. Qed.

Lemma sha1_blocks_length f l st : length st = 5%nat → length (sha1_blocks f l st) = 5%nat.
Proof.
  revert l st. induction f as [|f IH]; intros l st H; [done|]. cbn [sha1_blocks]. destruct l; [done|]. apply IH.
  unfold sha1_block. rewrite length_zip_with.
  assert (Hr : ∀ ws st', length st' = 5%nat → length (fold_left sha1_round ws st') = 5%nat).
  { induction ws as [|[i w] ws IHw]; intros st' H'; [done|]. apply IHw.
    do 6 (destruct st' as [|? st']; try done). simpl. by destruct (sha1_mix _ _ _ _). }
  rewrite Hr by done. lia.
Qed.

Lemma sha1_length s : length (sha1 s) = 20%nat.
Proof.
  unfold sha1. rewrite length_map.
  pose proof (sha1_blocks_length (length (words (map byte_val s ++ sha_pad (length s))))
    (words (map byte_val s ++ sha_pad (length s))) sha1_h0 eq_refl) as H.
  destruct (sha1_blocks _ _ _) as [|a [|b [|c [|e [|g [|]]]]]]; done.
Qed.

Lemma lowerhex_lower_digit v : 0 ≤ v < 36 → is_lower_digit (lowerhex v) = true.
Proof.
  intros H. unfold is_lower_digit, is_lower, is_digit, in_range, lowerhex.
  destruct (v <? 10) eqn:E; reflect_bools; rewrite !byte_val_byte by lia; zcmp; done.
Qed.

Lemma digits36_chars f v : 0 ≤ v → all_of is_lower_digit (digits36 f v).
Proof.
  revert v. induction f as [|f IH]; intros v Hv; [constructor|]. cbn [digits36].
  destruct (v <? 36) eqn:E; reflect_bools.
  - constructor; [apply lowerhex_lower_digit; lia|constructor].
  - apply Forall_app_2; [apply IH, Z.div_pos; lia|]. constructor; [|constructor].
    apply lowerhex_lower_digit. apply Z.mod_pos_bound. lia.
Qed.
