(* ===== verification/Chunker.v ===== *)
(** * The chunker driver: [drivers/chunker/driver.go] and [util.go]

    The driver stores a large file as chunks spread over directories of other
    mounted storages, its remote targets, and lists, reads, moves and removes
    the whole as one file.  What it calls of packages [fs] and [op] is the
    class [Remotes]: a world of storages with the calls that read and change
    it.  A [range] over a Go map visits it in the order of [map_to_list]; the
    theorems only look at which objects a listing has. *)

From S2P Require Import Prelude GoStrings Errs Store Paths HttpRange Json Crypto ChunkerNames.

Local Open Scope Z_scope.

(** ** Data: [types.go], [meta.go] *)

(** [utils.HashInfo]: hashes by the name of their type *)
Abbreviation HashInfo := (gmap gostr gostr).

(** An object a remote lists. *)
Record Entry := {
  e_Name : gostr;
  e_Size : Z;
  e_ModTime : Z;
  e_CreateTime : Z;
  e_IsDir : bool;
  e_Hash : HashInfo;
}.

(** [model.Object] *)
Record Object := {
  o_Name : gostr;
  o_Path : gostr;
  o_Size : Z;
  o_Modified : Z;
  o_Ctime : Z;
  o_IsFolder : bool;
  o_HashInfo : HashInfo;
}.

Record chunkPart := {
  p_No : Z;
  p_Size : Z;
  p_XactID : gostr;
  p_RemoteIndex : nat;
}.

#[export] Instance chunkPart_eq_dec : EqDecision chunkPart.
Proof. solve_decision. Defined.

Record groupInfo := {
  g_base : option (Entry * nat);
  g_partsByXact : gmap gostr (gmap Z chunkPart);
}.

Abbreviation groups := (gmap gostr groupInfo).

(** [Object] of the driver, which embeds [model.Object] *)
Record ChunkObject := {
  c_Object : Object;
  c_Main : option Entry;
  c_MainRemoteIndex : nat;
  c_Parts : list chunkPart;
  c_Meta : option chunkMetadata;
  c_Chunked : bool;
  c_UsesMeta : bool;
}.

(** The objects the driver returns and is given back. *)
Inductive Obj :=
  | Plain (o : Object)
  | Listed (o : ChunkObject).

Definition object_of (o : Obj) : Object := match o with Plain o => o | Listed c => c_Object c end.
Definition GetName (o : Obj) : gostr := o_Name (object_of o).
Definition GetPath (o : Obj) : gostr := o_Path (object_of o).
Definition GetSize (o : Obj) : Z := o_Size (object_of o).
Definition IsDir (o : Obj) : bool := o_IsFolder (object_of o).

Definition linkedObject (o : Obj) : option ChunkObject :=
  match o with Listed c => Some c | Plain _ => None end.

(** [time.Time{}], in seconds *)
Definition zero_time : Z := -62135596800.

Record Addition := {
  RemotePath : gostr;
  RemotePaths : gostr;
  StoreChunksInPrimary : bool;
  ChunkSize : Z;
  NameFormat : gostr;
  a_StartFrom : Z;
  MetaFormat : gostr;
  HashType : gostr;
}.

Definition defaultChunkSize : Z := 2147483648.
Definition defaultMetaFormat : gostr := #"simplejson".
Definition defaultHashType : gostr := #"md5".
Definition defaultStartFrom : Z := 1.

Record objectLocation := { LogicalPath : gostr; RemoteIndex : nat }.

(** A file to upload to a remote, with the bytes its reader can give. *)
Record upload := { u_Name : gostr; u_Size : Z; u_Modified : Z; u_Ctime : Z; u_Reader : gostr }.

(** [model.FileStreamer] as [Put] gets it: its declared size, its content and
    the object it replaces. *)
Record streamer := {
  s_Name : gostr;
  s_Size : Z;
  s_ModTime : Z;
  s_CreateTime : Z;
  s_Content : gostr;
  s_Exist : option Obj;
}.

(** ** Remotes *)

(** A link: an open file, a reader of ranges, or an address. *)
Record RLink (W : Type) := {
  l_MFile : option gostr;
  l_RangeReadCloser : option (Range → W → result gostr);
  l_URL : gostr;
}.
Arguments l_MFile {W} _.
Arguments l_RangeReadCloser {W} _.
Arguments l_URL {W} _.

(** The calls of packages [fs], [op] and [stream] the driver makes.  [op_Put]
    also says how many bytes it took from the reader. *)
Class Remotes := {
  World : Type;
  Driver : Type;
  fs_GetStorage : gostr → Op World Driver;
  op_GetStorageAndActualPath : gostr → Op World (Driver * gostr);
  fs_List : gostr → bool → Op World (list Entry);
  fs_Get : gostr → Op World Entry;
  fs_MakeDir : gostr → Op World unit;
  op_Link : Driver → gostr → Op World (RLink World * Entry);
  op_Put : Driver → gostr → upload → World → result unit * nat * World;
  op_Move : Driver → gostr → gostr → Op World unit;
  op_Copy : Driver → gostr → gostr → Op World unit;
  op_Rename : Driver → gostr → gostr → Op World unit;
  op_Remove : Driver → gostr → Op World unit;
  url_read : Z → gostr → Range → World → result gostr;
}.

Section driver.
Context {RM : Remotes}.

(** A call of the driver ends with a value or an error, panics on an index out
    of range, or has no fuel left. *)
Inductive ran (A : Type) := Done (r : result A) (w : World) | Crash | NoFuel.
Arguments Done {A} r w.
Arguments Crash {A}.
Arguments NoFuel {A}.

Definition Ck (A : Type) := World → ran A.
Definition ck_ret {A} (a : A) : Ck A := λ w, Done (inr a) w.
Definition ck_fail {A} (e : error) : Ck A := λ w, Done (inl e) w.
Definition ck_crash {A} : Ck A := λ _, Crash.
Definition ck_bind {A B} (m : Ck A) (k : A → Ck B) : Ck B :=
  λ w, match m w with
       | Done (inr a) w' => k a w'
       | Done (inl e) w' => Done (inl e) w'
       | Crash => Crash
       | NoFuel => NoFuel
       end.
Definition ck_try {A} (m : Ck A) : Ck (result A) :=
  λ w, match m w with
       | Done r w' => Done (inr r) w'
       | Crash => Crash
       | NoFuel => NoFuel
       end.
Definition ck_wrap {A} (msg : gostr) (m : Ck A) : Ck A :=
  λ w, match m w with Done (inl e) w' => Done (inl (EFmtWrap e msg)) w' | r => r end.
Definition call {A} (m : Op World A) : Ck A := λ w, let '(r, w') := m w in Done r w'.
Definition query {A} (f : World → result A) : Ck A := λ w, Done (f w) w.
End driver.
Arguments Done {RM A} r w.
Arguments Crash {RM A}.
Arguments NoFuel {RM A}.

Notation "'let&' x ':=' m 'in' k" := (ck_bind m (λ x, k))
  (at level 10, x pattern, m at level 100, k at level 200,
   format "'[v' 'let&'  x  ':='  m  'in' '//' k ']'") : go_scope.

Record remoteTarget `{Remotes} := { MountPath : gostr; Storage : Driver }.

Record Chunker `{Remotes} := {
  d_Addition : Addition;
  d_nameRegexp : nameRegexp;
  d_dataNameFmt : gostr;
  remoteTargets : list remoteTarget;
}.

Section ops.
Context {RM : Remotes}.

Fixpoint for_each {A} (f : A → Ck unit) (l : list A) : Ck unit :=
  match l with
  | [] => ck_ret ()
  | x :: l' => let& _ := f x in for_each f l'
  end.

(** A loop that goes on after an error and joins the errors at the end. *)
Fixpoint collect_errors {A} (f : A → Ck unit) (l : list A) : Ck (list error) :=
  match l with
  | [] => ck_ret []
  | x :: l' =>
      let& r := ck_try (f x) in
      let& es := collect_errors f l' in
      ck_ret (match r with inl e => e :: es | inr _ => es end)
  end.
Definition join_errors {A} (f : A → Ck unit) (l : list A) : Ck unit :=
  let& es := collect_errors f l in
  match errors_Join es with Some e => ck_fail e | None => ck_ret () end.

(** ** Initialization *)

Definition GetNoneEmpty (a b : gostr) : gostr := if bool_decide (a = []) then b else a.

Definition validateOptions (a : Addition) : result unit :=
  if bool_decide (TrimSpace (RemotePath a) = []) then inl (EMessage #"remote_path is required")
  else if ChunkSize a <=? 0 then inl (EMessage #"chunk_size must be positive")
  else if negb (bool_decide (MetaFormat a ∈ [ #"simplejson"; #"none"]))
  then inl (EMessage (#"unsupported meta_format: " ++ MetaFormat a))
  else if negb (bool_decide (HashType a ∈ [ #"none"; #"md5"; #"sha1"]))
  then inl (EMessage (#"unsupported hash_type: " ++ HashType a))
  else if bool_decide (MetaFormat a = #"none") && bool_decide (HashType a ≠ #"none")
  then inl (EMessage (#"hash_type requires meta_format=simplejson: " ++ HashType a))
  else inr ().

Definition addPath (paths : list gostr) (p : gostr) : list gostr :=
  let p := TrimSpace p in
  if bool_decide (p = []) then paths
  else
    let p := FixAndCleanPath p in
    if bool_decide (p ∈ paths) then paths else paths ++ [p].

Definition configuredRemotePaths (a : Addition) : list gostr :=
  fold_left addPath (RemotePath a :: Split "010" (RemotePaths a)) [].

Fixpoint init_targets (paths : list gostr) : Ck (list remoteTarget) :=
  match paths with
  | [] => ck_ret []
  | p :: paths' =>
      let& storage := ck_wrap (#"can't find remote storage: " ++ p) (call (fs_GetStorage p)) in
      let& l := init_targets paths' in
      ck_ret ({| MountPath := p; Storage := storage |} :: l)
  end.

Definition with_defaults (a : Addition) : Addition :=
  {| RemotePath := RemotePath a; RemotePaths := RemotePaths a;
     StoreChunksInPrimary := StoreChunksInPrimary a;
     ChunkSize := if ChunkSize a =? 0 then defaultChunkSize else ChunkSize a;
     NameFormat := GetNoneEmpty (NameFormat a) default_format;
     a_StartFrom := if a_StartFrom a =? 0 then defaultStartFrom else a_StartFrom a;
     MetaFormat := GetNoneEmpty (MetaFormat a) defaultMetaFormat;
     HashType := GetNoneEmpty (HashType a) defaultHashType |}.

Definition Init (a : Addition) : Ck Chunker :=
  let a := with_defaults a in
  let& (r, f) := match setChunkNameFormat (NameFormat a) with
                 | Panic => ck_crash
                 | Ret (inl e) => ck_fail (EFmtWrap e #"invalid name_format")
                 | Ret (inr rf) => ck_ret rf
                 end in
  let& _ := query (λ _, validateOptions a) in
  let& targets := init_targets (configuredRemotePaths a) in
  match targets with
  | [] => ck_fail (EFmtWrap (ESentinel ObjectNotFound) #"can't find remote storage")
  | _ => ck_ret {| d_Addition := a; d_nameRegexp := r; d_dataNameFmt := f; remoteTargets := targets |}
  end.

Definition Drop (d : Chunker) : Chunker :=
  {| d_Addition := d_Addition d; d_nameRegexp := d_nameRegexp d; d_dataNameFmt := d_dataNameFmt d;
     remoteTargets := [] |}.

(** ** Paths and targets *)

Section on_driver.
Context (d : Chunker).

Definition nf : name_format :=
  {| nameRegexp_of := d_nameRegexp d; dataNameFmt := d_dataNameFmt d; StartFrom := a_StartFrom (d_Addition d) |}.

Definition joinRemotePathWithBase (baseMountPath logicalPath : gostr) : gostr :=
  let logicalPath := FixAndCleanPath logicalPath in
  if PathEqual logicalPath #"/" then FixAndCleanPath baseMountPath
  else path_join (FixAndCleanPath baseMountPath) logicalPath.

Definition target (i : nat) : Ck remoteTarget :=
  match remoteTargets d !! i with Some t => ck_ret t | None => ck_crash end.

Definition storage_of (i : nat) : Ck Driver := let& t := target i in ck_ret (Storage t).

Definition joinRemotePathForTarget (logicalPath : gostr) (remoteIndex : nat) : Ck gostr :=
  let& t := target remoteIndex in
  ck_ret (joinRemotePathWithBase (MountPath t) logicalPath).

Definition getActualPathForRemoteOnTarget (logicalPath : gostr) (remoteIndex : nat) : Ck gostr :=
  let& p := joinRemotePathForTarget logicalPath remoteIndex in
  let& (_, actualPath) := call (op_GetStorageAndActualPath p) in
  ck_ret actualPath.

Definition getActualChunkPath (filePath : gostr) (chunkNo : Z) (xactID : gostr) (remoteIndex : nat) : Ck gostr :=
  getActualPathForRemoteOnTarget (makeChunkName nf filePath chunkNo xactID) remoteIndex.

Definition target_indexes : list nat := seq 0 (length (remoteTargets d)).

Definition chunkTargetIndexes : list nat :=
  if (length (remoteTargets d) <=? 1)%nat then [0%nat]
  else if StoreChunksInPrimary (d_Addition d) then target_indexes
  else match drop 1 target_indexes with
       | [] => [0%nat]
       | targets => targets
       end.

Definition chunkTargetIndex (chunkNo : Z) : nat :=
  match chunkTargetIndexes with
  | [] => 0%nat
  | t :: _ =>
      if chunkNo <? 0 then t
      else default 0%nat (chunkTargetIndexes !! Z.to_nat (chunkNo mod Z.of_nat (length chunkTargetIndexes)))
  end.

Definition targetLocation (logicalPath : gostr) (remoteIndex : nat) : objectLocation :=
  {| LogicalPath := FixAndCleanPath logicalPath; RemoteIndex := remoteIndex |}.

Definition chunkLocation (filePath : gostr) (part : chunkPart) : objectLocation :=
  targetLocation (makeChunkName nf filePath (p_No part) (p_XactID part)) (p_RemoteIndex part).

Definition chunkPartBaseName (filePath : gostr) (chunkNo : Z) (xactID : gostr) : gostr :=
  path_Base (makeChunkName nf filePath chunkNo xactID).

(** ** Links *)

(** [io.NewSectionReader] *)
Definition section (content : gostr) (off n : Z) : gostr := take (Z.to_nat n) (drop (Z.to_nat off) content).

Definition openPartRange (link : RLink World) (size offset length : Z) : World → result gostr :=
  λ w,
    let httpRange := mkRange offset length in
    match l_MFile link with
    | Some content => inr (section content offset length)
    | None =>
        match l_RangeReadCloser link with
        | Some rrc => rrc httpRange w
        | None =>
            if bool_decide (l_URL link ≠ []) then url_read size (l_URL link) httpRange w
            else inl (EMessage #"chunk part has no readable link")
        end
    end.

(** [stream.NewSeekableStream] without a reader of its own, and its
    [RangeRead] *)
Definition seekable_read (link : RLink World) (obj : Entry) (r : Range) : World → result gostr :=
  λ w,
    let r := if Length r =? -1 then mkRange (Start r) (wrap64 (e_Size obj - Start r)) else r in
    match l_MFile link with
    | Some content => inr (section content (Start r) (Length r))
    | None =>
        match l_RangeReadCloser link with
        | Some rrc => rrc r w
        | None =>
            if bool_decide (l_URL link ≠ []) then url_read (e_Size obj) (l_URL link) r w
            else inl (EMessage #"illegal seekableStream")
        end
    end.

Definition readMetadata (logicalPath : gostr) (size : Z) (remoteIndex : nat) : Ck chunkMetadata :=
  let& actualPath := getActualPathForRemoteOnTarget logicalPath remoteIndex in
  let& st := storage_of remoteIndex in
  let& (link, obj) := call (op_Link st actualPath) in
  let& data := query (seekable_read link obj (mkRange 0 size)) in
  query (λ _, unmarshalMetadata data).

(** ** Listing *)

Definition part_less (a b : chunkPart) : Prop := p_No a ≤ p_No b.
#[local] Instance part_less_dec a b : Decision (part_less a b) := decide_rel (≤) (p_No a) (p_No b).

(** The numbers of the parts of a map differ, so the order is determined. *)
Definition sortChunkParts (parts : gmap Z chunkPart) : list chunkPart :=
  merge_sort part_less (map_to_list parts).*2.

Definition buildHashInfo (meta : option chunkMetadata) : HashInfo :=
  match meta with
  | None => ∅
  | Some m =>
      let h := if bool_decide (m_MD5 m ≠ []) then <[ #"md5" := m_MD5 m ]> ∅ else ∅ in
      if bool_decide (m_SHA1 m ≠ []) then <[ #"sha1" := m_SHA1 m ]> h else h
  end.

Definition sum_sizes (parts : list chunkPart) : Z := fold_left (λ size p, wrap64 (size + p_Size p)) parts 0.

(** A file that is its base object. *)
Definition base_object (dirPath name : gostr) (e : Entry) (i : nat) : ChunkObject :=
  {| c_Object := {| o_Name := name; o_Path := path_join dirPath name; o_Size := e_Size e;
                    o_Modified := e_ModTime e; o_Ctime := e_CreateTime e; o_IsFolder := false;
                    o_HashInfo := e_Hash e |};
     c_Main := Some e; c_MainRemoteIndex := i; c_Parts := []; c_Meta := None;
     c_Chunked := false; c_UsesMeta := false |}.

Definition buildListedObject (dirPath name : gostr) (group : groupInfo) : Ck (option ChunkObject) :=
  let& meta :=
    match g_base group with
    | Some (e, i) =>
        if (e_Size e <=? maxMetadataSizeRead) && bool_decide (g_partsByXact group ≠ ∅) then
          let& r := ck_try (readMetadata (path_join dirPath name) (e_Size e) i) in
          ck_ret (match r with inr m => Some m | inl _ => None end)
        else ck_ret None
    | None => ck_ret None
    end in
  let chunked (parts : list chunkPart) (size : Z) :=
    Some {| c_Object := {| o_Name := name; o_Path := path_join dirPath name; o_Size := size;
              o_Modified := match g_base group with Some (e, _) => e_ModTime e | None => zero_time end;
              o_Ctime := match g_base group with Some (e, _) => e_CreateTime e | None => zero_time end;
              o_IsFolder := false; o_HashInfo := buildHashInfo meta |};
            c_Main := fst <$> g_base group;
            c_MainRemoteIndex := match g_base group with Some (_, i) => i | None => 0%nat end;
            c_Parts := parts; c_Meta := meta; c_Chunked := true;
            c_UsesMeta := bool_decide (is_Some meta) |} in
  match meta, g_base group with
  | None, Some (e, i) => ck_ret (Some (base_object dirPath name e i))
  | _, _ =>
      let xact := match meta with Some m => m_XactID m | None => [] end in
      let parts := sortChunkParts (default ∅ (g_partsByXact group !! xact)) in
      match parts, meta with
      | [], None => ck_ret None
      | _, Some m => ck_ret (chunked parts (m_Size m))
      | _, None => ck_ret (chunked parts (sum_sizes parts))
      end
  end.

Definition no_group : groupInfo := {| g_base := None; g_partsByXact := ∅ |}.

Definition add_base (e : Entry) (i : nat) (g : groupInfo) : groupInfo :=
  let base := match g_base g with
              | None => Some (e, i)
              | Some (e', j) => if (i <? j)%nat then Some (e, i) else Some (e', j)
              end in
  {| g_base := base; g_partsByXact := g_partsByXact g |}.

Definition add_part (part : chunkPart) (g : groupInfo) : groupInfo :=
  let byNo := default ∅ (g_partsByXact g !! p_XactID part) in
  let byNo := match byNo !! p_No part with
              | Some existing => if (p_RemoteIndex part <? p_RemoteIndex existing)%nat
                                 then <[p_No part := part]> byNo else byNo
              | None => <[p_No part := part]> byNo
              end in
  {| g_base := g_base g; g_partsByXact := <[p_XactID part := byNo]> (g_partsByXact g) |}.

Definition update_group (name : gostr) (f : groupInfo → groupInfo) (gs : groups) : groups :=
  <[name := f (default no_group (gs !! name))]> gs.

(** The body of the loop over the entries of a remote directory. *)
Definition add_entry (dirPath : gostr) (i : nat) (acc : groups * gmap gostr Object) (entry : Entry)
    : groups * gmap gostr Object :=
  let '(gs, dirs) := acc in
  if e_IsDir entry then
    match dirs !! e_Name entry with
    | Some _ => (gs, dirs)
    | None => (gs, <[e_Name entry :=
        {| o_Name := e_Name entry; o_Path := path_join dirPath (e_Name entry); o_Size := 0;
           o_Modified := e_ModTime entry; o_Ctime := e_CreateTime entry; o_IsFolder := true;
           o_HashInfo := e_Hash entry |}]> dirs)
    end
  else
    let '(mainName, chunkNo, ctrlType, xactID) := parseChunkName nf (e_Name entry) in
    if bool_decide (mainName = []) then (update_group (e_Name entry) (add_base entry i) gs, dirs)
    else if (chunkNo <? 0) || bool_decide (ctrlType ≠ []) then (gs, dirs)
    else
      let part := {| p_No := chunkNo; p_Size := e_Size entry; p_XactID := xactID; p_RemoteIndex := i |} in
      (update_group mainName (add_part part) gs, dirs).

Fixpoint scan_targets (dirPath : gostr) (refresh : bool) (l : list nat) (acc : groups * gmap gostr Object)
    (found : bool) : Ck (groups * gmap gostr Object * bool) :=
  match l with
  | [] => ck_ret (acc, found)
  | i :: l' =>
      let& remotePath := joinRemotePathForTarget dirPath i in
      let& r := ck_try (call (fs_List remotePath refresh)) in
      match r with
      | inl e => if IsObjectNotFound e then scan_targets dirPath refresh l' acc found else ck_fail e
      | inr entries => scan_targets dirPath refresh l' (fold_left (add_entry dirPath i) entries acc) true
      end
  end.

Fixpoint build_all (dirPath : gostr) (l : list (gostr * groupInfo)) : Ck (list Obj) :=
  match l with
  | [] => ck_ret []
  | (name, group) :: l' =>
      let& obj := buildListedObject dirPath name group in
      let& rest := build_all dirPath l' in
      ck_ret (match obj with Some o => Listed o :: rest | None => rest end)
  end.

Definition listDirObjects (dirPath : gostr) (refresh : bool) : Ck (list Obj) :=
  let& (acc, found) := scan_targets dirPath refresh target_indexes (∅, ∅) false in
  let '(gs, dirs) := acc in
  if negb found && negb (PathEqual dirPath #"/") then ck_fail (ESentinel ObjectNotFound)
  else
    let& objs := build_all dirPath (map_to_list gs) in
    ck_ret (map Plain (map_to_list dirs).*2 ++ objs).

Definition List (dir : Obj) (refresh : bool) : Ck (list Obj) := listDirObjects (GetPath dir) refresh.

Definition root_object : Object :=
  {| o_Name := #"Root"; o_Path := #"/"; o_Size := 0; o_Modified := zero_time; o_Ctime := zero_time;
     o_IsFolder := true; o_HashInfo := ∅ |}.

Definition Get (pathStr : gostr) : Ck Obj :=
  if PathEqual pathStr #"/" then ck_ret (Plain root_object)
  else
    let '(parent, name) := path_Split (FixAndCleanPath pathStr) in
    let parent := if bool_decide (parent = []) then #"/" else parent in
    let& objs := listDirObjects parent false in
    match filter (λ o, GetName o = name) objs with
    | o :: _ => ck_ret o
    | [] => ck_fail (ESentinel ObjectNotFound)
    end.

(** ** Reading *)

Record linkedPart := { lp_part : chunkPart; lp_link : RLink World }.

Record reader_state := { rd_offset : Z; rd_remaining : Z; rd_bytes : gostr }.

(** One part of the loop of [openChunkReader]. *)
Definition read_part (start : Z) (w : World) (st : reader_state) (p : linkedPart) : result reader_state :=
  let size := p_Size (lp_part p) in
  let partStart := rd_offset st in
  let partEnd := wrap64 (rd_offset st + size) in
  if (partEnd <=? start) || (rd_remaining st <=? 0)
  then inr {| rd_offset := partEnd; rd_remaining := rd_remaining st; rd_bytes := rd_bytes st |}
  else
    let localStart := if partStart <? start then wrap64 (start - partStart) else 0 in
    let localLength := Z.min (wrap64 (size - localStart)) (rd_remaining st) in
    let! bytes := openPartRange (lp_link p) size localStart localLength w in
    inr {| rd_offset := partEnd; rd_remaining := wrap64 (rd_remaining st - localLength);
           rd_bytes := rd_bytes st ++ bytes |}.

Fixpoint read_parts (start : Z) (w : World) (st : reader_state) (l : list linkedPart) : result reader_state :=
  match l with
  | [] => inr st
  | p :: l' => let! st' := read_part start w st p in read_parts start w st' l'
  end.

(** What the reader of the parts gives, all parts opened. *)
Definition openChunkReader (parts : list linkedPart) (totalSize : Z) (req : Range) : World → result gostr :=
  λ w,
    if (Start req <? 0) || (totalSize <? Start req) then inl (EMessage #"range start out of bound")
    else
      let length := if (Length req <? 0) || (totalSize <? wrap64 (Start req + Length req))
                    then wrap64 (totalSize - Start req) else Length req in
      if length =? 0 then inr []
      else
        let! st := read_parts (Start req) w {| rd_offset := 0; rd_remaining := length; rd_bytes := [] |} parts in
        if 0 <? rd_remaining st then inl (EMessage #"missing chunk data") else inr (rd_bytes st).

(** The target a file that is not chunked is on. *)
Definition main_index (obj : option ChunkObject) : nat :=
  match obj with Some o => c_MainRemoteIndex o | None => 0%nat end.
Definition chunked_object (o : Obj) : option ChunkObject :=
  match linkedObject o with
  | Some c => if c_Chunked c then Some c else None
  | None => None
  end.

Fixpoint link_parts (path : gostr) (parts : list chunkPart) : Ck (list linkedPart) :=
  match parts with
  | [] => ck_ret []
  | part :: parts' =>
      let& actualPath := ck_wrap #"failed to convert chunk path"
        (getActualChunkPath path (p_No part) (p_XactID part) (p_RemoteIndex part)) in
      let& st := storage_of (p_RemoteIndex part) in
      let& (link, _) := call (op_Link st actualPath) in
      let& rest := link_parts path parts' in
      ck_ret ({| lp_part := part; lp_link := link |} :: rest)
  end.

Definition Link (file : Obj) : Ck (RLink World) :=
  match chunked_object file with
  | None =>
      let remoteIndex := main_index (linkedObject file) in
      let& actualPath := ck_wrap #"failed to convert path to remote path"
        (getActualPathForRemoteOnTarget (GetPath file) remoteIndex) in
      let& st := storage_of remoteIndex in
      let& (link, _) := call (op_Link st actualPath) in
      ck_ret link
  | Some obj =>
      let& parts := link_parts (o_Path (c_Object obj)) (c_Parts obj) in
      ck_ret {| l_MFile := None; l_URL := [];
                l_RangeReadCloser := Some (openChunkReader parts (o_Size (c_Object obj))) |}
  end.

(** ** Directories *)

Definition targetPathExists (remoteIndex : nat) (logicalPath : gostr) : Ck bool :=
  let& p := joinRemotePathForTarget logicalPath remoteIndex in
  let& r := ck_try (call (fs_Get p)) in
  match r with
  | inr _ => ck_ret true
  | inl e => if IsObjectNotFound e then ck_ret false else ck_fail e
  end.

Definition ensureDirOnTarget (remoteIndex : nat) (logicalDirPath : gostr) : Ck unit :=
  let logicalDirPath := FixAndCleanPath logicalDirPath in
  if PathEqual logicalDirPath #"/" then ck_ret ()
  else
    let& p := joinRemotePathForTarget logicalDirPath remoteIndex in
    call (fs_MakeDir p).

Definition ensureDirOnAllTargets (logicalDirPath : gostr) : Ck unit :=
  join_errors (λ i, ensureDirOnTarget i logicalDirPath) target_indexes.

Fixpoint existing_from (logicalDirPath : gostr) (l : list nat) : Ck (list nat) :=
  match l with
  | [] => ck_ret []
  | i :: l' =>
      let& exists_ := targetPathExists i logicalDirPath in
      let& rest := existing_from logicalDirPath l' in
      ck_ret (if exists_ then i :: rest else rest)
  end.
Definition existingLocationsForDir (logicalDirPath : gostr) : Ck (list nat) :=
  existing_from logicalDirPath target_indexes.

Definition dirLocationsOrAll (logicalDirPath : gostr) : Ck (list nat) :=
  let& locations := existingLocationsForDir logicalDirPath in
  ck_ret (match locations with [] => target_indexes | _ => locations end).

Definition moveDirAcrossTargets (srcPath dstDirPath : gostr) : Ck unit :=
  let& locations := existingLocationsForDir srcPath in
  match locations with
  | [] => ck_fail (ESentinel ObjectNotFound)
  | _ =>
      join_errors (λ i,
        let& _ := ensureDirOnTarget i dstDirPath in
        let& srcActualPath := getActualPathForRemoteOnTarget srcPath i in
        let& dstActualPath := getActualPathForRemoteOnTarget dstDirPath i in
        let& st := storage_of i in
        call (op_Move st srcActualPath dstActualPath)) locations
  end.

Definition copyDirAcrossTargets (srcPath dstDirPath : gostr) : Ck unit :=
  let& locations := dirLocationsOrAll srcPath in
  join_errors (λ i,
    let& exists_ := targetPathExists i srcPath in
    if negb exists_ then ck_ret ()
    else
      let& _ := ensureDirOnTarget i dstDirPath in
      let& srcActualPath := getActualPathForRemoteOnTarget srcPath i in
      let& dstActualPath := getActualPathForRemoteOnTarget dstDirPath i in
      let& st := storage_of i in
      call (op_Copy st srcActualPath dstActualPath)) locations.

Definition renameDirAcrossTargets (srcPath newName : gostr) : Ck unit :=
  let& locations := existingLocationsForDir srcPath in
  match locations with
  | [] => ck_fail (ESentinel ObjectNotFound)
  | _ =>
      join_errors (λ i,
        let& srcActualPath := getActualPathForRemoteOnTarget srcPath i in
        let& st := storage_of i in
        call (op_Rename st srcActualPath newName)) locations
  end.

Definition removeDirAcrossTargets (logicalPath : gostr) : Ck unit :=
  let& locations := existingLocationsForDir logicalPath in
  match locations with
  | [] => ck_fail (ESentinel ObjectNotFound)
  | _ =>
      join_errors (λ i,
        let& actualPath := getActualPathForRemoteOnTarget logicalPath i in
        let& st := storage_of i in
        call (op_Remove st actualPath)) locations
  end.

Definition MakeDir (parentDir : Obj) (dirName : gostr) : Ck unit :=
  ensureDirOnAllTargets (path_join (GetPath parentDir) dirName).

(** ** Files *)

Definition objectLocationsForObject (obj : ChunkObject) : list objectLocation :=
  let path := o_Path (c_Object obj) in
  if negb (c_Chunked obj) then [targetLocation path (c_MainRemoteIndex obj)]
  else (if c_UsesMeta obj then [targetLocation path (c_MainRemoteIndex obj)] else [])
       ++ map (chunkLocation path) (c_Parts obj).

(** The loops of [Move] and [Copy]: a target is made ready once. *)
Fixpoint transfer_all (transfer : Driver → gostr → gostr → Op World unit) (dstDirPath : gostr)
    (ensured : gset nat) (l : list objectLocation) : Ck unit :=
  match l with
  | [] => ck_ret ()
  | loc :: l' =>
      let i := RemoteIndex loc in
      let& _ := if bool_decide (i ∈ ensured) then ck_ret () else ensureDirOnTarget i dstDirPath in
      let& actualPath := getActualPathForRemoteOnTarget (LogicalPath loc) i in
      let& dstRemoteActualPath := getActualPathForRemoteOnTarget dstDirPath i in
      let& st := storage_of i in
      let& _ := call (transfer st actualPath dstRemoteActualPath) in
      transfer_all transfer dstDirPath ({[ i ]} ∪ ensured) l'
  end.

Definition transfer_file (transfer : Driver → gostr → gostr → Op World unit) (srcObj dstDir : Obj) : Ck unit :=
  match chunked_object srcObj with
  | None =>
      let remoteIndex := main_index (linkedObject srcObj) in
      let& _ := ensureDirOnTarget remoteIndex (GetPath dstDir) in
      let& srcRemoteActualPath := ck_wrap #"failed to convert path to remote path"
        (getActualPathForRemoteOnTarget (GetPath srcObj) remoteIndex) in
      let& dstRemoteActualPath := ck_wrap #"failed to convert path to remote path"
        (getActualPathForRemoteOnTarget (GetPath dstDir) remoteIndex) in
      let& st := storage_of remoteIndex in
      call (transfer st srcRemoteActualPath dstRemoteActualPath)
  | Some obj => transfer_all transfer (GetPath dstDir) ∅ (objectLocationsForObject obj)
  end.

Definition Move (srcObj dstDir : Obj) : Ck unit :=
  if IsDir srcObj then moveDirAcrossTargets (GetPath srcObj) (GetPath dstDir)
  else transfer_file op_Move srcObj dstDir.

Definition Copy (srcObj dstDir : Obj) : Ck unit :=
  if IsDir srcObj then copyDirAcrossTargets (GetPath srcObj) (GetPath dstDir)
  else transfer_file op_Copy srcObj dstDir.

Definition Rename (srcObj : Obj) (newName : gostr) : Ck unit :=
  if IsDir srcObj then renameDirAcrossTargets (GetPath srcObj) newName
  else match chunked_object srcObj with
  | None =>
      let remoteIndex := main_index (linkedObject srcObj) in
      let& remoteActualPath := ck_wrap #"failed to convert path to remote path"
        (getActualPathForRemoteOnTarget (GetPath srcObj) remoteIndex) in
      let& st := storage_of remoteIndex in
      call (op_Rename st remoteActualPath newName)
  | Some obj =>
      let path := o_Path (c_Object obj) in
      let& _ := for_each (λ part,
        let& actualPath := getActualChunkPath path (p_No part) (p_XactID part) (p_RemoteIndex part) in
        let newChunkName := chunkPartBaseName (path_join (path_Dir path) newName) (p_No part) (p_XactID part) in
        let& st := storage_of (p_RemoteIndex part) in
        call (op_Rename st actualPath newChunkName)) (c_Parts obj) in
      if c_UsesMeta obj then
        let& actualPath := getActualPathForRemoteOnTarget path (c_MainRemoteIndex obj) in
        let& st := storage_of (c_MainRemoteIndex obj) in
        call (op_Rename st actualPath newName)
      else ck_ret ()
  end.

(** Remove an object from its target. *)
Definition remove_location (loc : objectLocation) : Ck unit :=
  let& actualPath := getActualPathForRemoteOnTarget (LogicalPath loc) (RemoteIndex loc) in
  let& st := storage_of (RemoteIndex loc) in
  call (op_Remove st actualPath).

Definition Remove (obj : Obj) : Ck unit :=
  if IsDir obj then removeDirAcrossTargets (GetPath obj)
  else match chunked_object obj with
  | None =>
      let remoteIndex := main_index (linkedObject obj) in
      let& remoteActualPath := ck_wrap #"failed to convert path to remote path"
        (getActualPathForRemoteOnTarget (GetPath obj) remoteIndex) in
      let& st := storage_of remoteIndex in
      call (op_Remove st remoteActualPath)
  | Some chunkedObj => for_each remove_location (objectLocationsForObject chunkedObj)
  end.

(** ** Uploading *)

Definition keepKey (location : objectLocation) : gostr :=
  FormatInt (Z.of_nat (RemoteIndex location)) ++ #":" ++ FixAndCleanPath (LogicalPath location).

Definition buildKeepSet (locations : list objectLocation) : list gostr :=
  map keepKey (filter (λ l, LogicalPath l ≠ []) locations).

Definition cleanupReplacedObject (obj : option ChunkObject) (keep : list gostr) : Ck unit :=
  match obj with
  | None => ck_ret ()
  | Some obj =>
      join_errors (λ location,
        if bool_decide (keepKey location ∈ keep) then ck_ret () else remove_location location)
        (objectLocationsForObject obj)
  end.

Definition xactIDIfNeeded (metaFormat xactID : gostr) : gostr :=
  if bool_decide (metaFormat = #"simplejson") then xactID else [].

(** The transaction of an upload at a time in nanoseconds. *)
Definition new_xactID (now : Z) : gostr :=
  let xactID := FormatInt36 now in
  let xactID := if (9 <? length xactID)%nat then drop (length xactID - 9) xactID else xactID in
  if (length xactID <? 4)%nat then zero_pad 4 xactID else xactID.

(** [op.Put] as the driver calls it: the number of bytes taken is returned also
    with an error, when it no longer matters. *)
Definition put_remote (i : nat) (dstDirActualPath : gostr) (u : upload) : Ck nat :=
  let& st := storage_of i in
  λ w, let '(r, n, w') := op_Put st dstDirActualPath u w in
       match r with inr _ => Done (inr n) w' | inl e => Done (inl e) w' end.

Record put_state := {
  ps_remaining : Z;
  ps_count : Z;
  ps_input : gostr;
  ps_hashed : gostr;
  ps_keep : list objectLocation;
  ps_ensured : gset nat;
}.

(** One turn of the loop that uploads the chunks. *)
Definition put_chunk (dstDirPath logicalPath xactID : gostr) (s : streamer) (st : put_state) : Ck put_state :=
  let chunkLen := Z.min (ps_remaining st) (ChunkSize (d_Addition d)) in
  let targetIndex := chunkTargetIndex (ps_count st) in
  let& _ := if bool_decide (targetIndex ∈ ps_ensured st) then ck_ret ()
            else ensureDirOnTarget targetIndex dstDirPath in
  let& dstDirActualPath := getActualPathForRemoteOnTarget dstDirPath targetIndex in
  let x := xactIDIfNeeded (MetaFormat (d_Addition d)) xactID in
  let chunkName := chunkPartBaseName logicalPath (ps_count st) x in
  let chunkPath := makeChunkName nf logicalPath (ps_count st) x in
  let available := take (Z.to_nat chunkLen) (ps_input st) in
  let& n := put_remote targetIndex dstDirActualPath
    {| u_Name := chunkName; u_Size := chunkLen; u_Modified := s_ModTime s; u_Ctime := s_CreateTime s;
       u_Reader := available |} in
  ck_ret {| ps_remaining := ps_remaining st - chunkLen; ps_count := wrap64 (ps_count st + 1);
            ps_input := drop (length (take n available)) (ps_input st);
            ps_hashed := ps_hashed st ++ take n available;
            ps_keep := ps_keep st ++ [targetLocation chunkPath targetIndex];
            ps_ensured := {[ targetIndex ]} ∪ ps_ensured st |}.

Fixpoint put_chunks (fuel : nat) (dstDirPath logicalPath xactID : gostr) (s : streamer) (st : put_state)
    : Ck put_state :=
  if ps_remaining st <=? 0 then ck_ret st
  else match fuel with
  | O => λ _, NoFuel
  | S f => let& st' := put_chunk dstDirPath logicalPath xactID s st in
           put_chunks f dstDirPath logicalPath xactID s st'
  end.

(** As many turns as there are chunks. *)
Definition put_fuel (s : streamer) : nat := S (Z.to_nat (s_Size s / ChunkSize (d_Addition d))).

(** The metadata object, or the removal of one there may be. *)
Definition put_metadata (primaryDirActualPath logicalPath xactID : gostr) (s : streamer) (st : put_state)
    : Ck (list objectLocation) :=
  let a := d_Addition d in
  if bool_decide (MetaFormat a = #"simplejson") then
    let md5Value := if bool_decide (HashType a = #"md5") then hex_encode (md5 (ps_hashed st)) else [] in
    let sha1Value := if bool_decide (HashType a = #"sha1") then hex_encode (sha1 (ps_hashed st)) else [] in
    let& metaData := query (λ _, marshalMetadata (s_Size s) (ps_count st) md5Value sha1Value xactID) in
    let& _ := put_remote 0 primaryDirActualPath
      {| u_Name := s_Name s; u_Size := Z.of_nat (length metaData); u_Modified := s_ModTime s;
         u_Ctime := s_CreateTime s; u_Reader := metaData |} in
    ck_ret (ps_keep st ++ [targetLocation logicalPath 0])
  else
    let& _ := for_each (λ i,
      let& r := ck_try (getActualPathForRemoteOnTarget logicalPath i) in
      match r with
      | inl _ => ck_ret ()
      | inr actualPath =>
          let& st := storage_of i in
          let& _ := ck_try (call (op_Remove st actualPath)) in
          ck_ret ()
      end) target_indexes in
    ck_ret (ps_keep st).

Definition Put (now : Z) (dstDir : Obj) (s : streamer) : Ck unit :=
  let& primaryDirActualPath := ck_wrap #"failed to convert path to remote path"
    (getActualPathForRemoteOnTarget (GetPath dstDir) 0) in
  let& _ := ensureDirOnTarget 0 (GetPath dstDir) in
  let existing := s_Exist s ≫= linkedObject in
  let logicalPath := path_join (GetPath dstDir) (s_Name s) in
  if s_Size s <=? ChunkSize (d_Addition d) then
    let& _ := put_remote 0 primaryDirActualPath
      {| u_Name := s_Name s; u_Size := s_Size s; u_Modified := s_ModTime s; u_Ctime := s_CreateTime s;
         u_Reader := s_Content s |} in
    cleanupReplacedObject existing (buildKeepSet [targetLocation logicalPath 0])
  else
    let xactID := new_xactID now in
    let& st := put_chunks (put_fuel s) (GetPath dstDir) logicalPath xactID s
      {| ps_remaining := s_Size s; ps_count := 0; ps_input := s_Content s; ps_hashed := [];
         ps_keep := []; ps_ensured := {[ 0%nat ]} |} in
    let& keep := put_metadata primaryDirActualPath logicalPath xactID s st in
    cleanupReplacedObject existing (buildKeepSet keep).
End on_driver.
End ops.
