(* ===== verification/ChunkerRead.v ===== *)
(** * Reading a chunked file

    What a remote promises to the chunker driver ([RemoteView],
    [RemoteLaws]), and the reading side of the driver against it: the reader
    that joins the parts, the listing that groups chunks and metadata, and the
    link of an object. *)

From S2P Require Import Prelude GoStrings Errs Store Paths HttpRange Json Crypto ChunkerNames ChunkerNamesThms Chunker.

Local Open Scope Z_scope.

(** ** Joining the parts *)

Abbreviation zlen s := (Z.of_nat (length s)).

Section reader.
Context {RM : Remotes}.

(** A link that gives every range of [c]. *)
Definition link_gives (l : RLink World) (c : gostr) (w : World) : Prop :=
  ∀ off len, 0 ≤ off → 0 ≤ len → off + len ≤ zlen c →
    openPartRange l (zlen c) off len w = inr (section c off len).

Definition part_gives (w : World) (p : linkedPart) (c : gostr) : Prop :=
  p_Size (lp_part p) = zlen c ∧ link_gives (lp_link p) c w.

Lemma take_section (rem s0 : Z) c rest :
  0 ≤ s0 ≤ zlen c → 0 ≤ rem →
  take (Z.to_nat rem) (drop (Z.to_nat s0) (c ++ rest))
  = section c s0 (Z.min (zlen c - s0) rem) ++ take (Z.to_nat (rem - Z.min (zlen c - s0) rem)) rest.
Proof.
  intros Hs Hr. unfold section. rewrite drop_app_le by lia. rewrite take_app, length_drop. f_equal.
  - destruct (Z.min_spec (zlen c - s0) rem) as [[? ->]|[? ->]]; [|done].
    rewrite !take_ge by (rewrite length_drop; lia). done.
  - f_equal. lia.
Qed.

Lemma read_parts_exact w parts cs start st :
  Forall2 (part_gives w) parts cs →
  0 ≤ start ≤ max_int64 → 0 ≤ rd_offset st → 0 ≤ rd_remaining st ≤ max_int64 →
  rd_offset st + zlen (concat cs) ≤ max_int64 →
  let s0 := Z.max 0 (start - rd_offset st) in
  read_parts start w st parts
  = inr {| rd_offset := rd_offset st + zlen (concat cs);
           rd_remaining := rd_remaining st - Z.min (rd_remaining st) (Z.max 0 (zlen (concat cs) - s0));
           rd_bytes := rd_bytes st ++ take (Z.to_nat (rd_remaining st)) (drop (Z.to_nat s0) (concat cs)) |}.
Proof.
  intros H. revert st. induction H as [|p c parts cs [Hsz Hl] H IH]; intros [o rem b] Hst Ho Hr Hsum s0;
    cbn [rd_offset rd_remaining rd_bytes] in *.
  - simpl concat. rewrite drop_nil, take_nil, app_nil_r. simpl. f_equal. f_equal; lia.
  - cbn [concat] in *. rewrite length_app in *. simpl read_parts. unfold read_part. cbn [rd_offset rd_remaining rd_bytes].
    rewrite Hsz. rewrite (wrap64_id (o + zlen c)) by (unfold_int64; lia).
    destruct ((o + zlen c <=? start) || (rem <=? 0)) eqn:E.
    + rewrite IH; cbn [rd_offset rd_remaining rd_bytes]; try lia.
      f_equal. apply orb_true_iff in E as [E|E]; reflect_bools.
      * f_equal; [lia|lia|]. f_equal. f_equal. rewrite drop_app_ge by lia. f_equal. lia.
      * assert (rem = 0) as -> by lia. f_equal; lia.
    + apply orb_false_iff in E as [E1 E2]. reflect_bools.
      assert (Hls : (if o <? start then wrap64 (start - o) else 0) = s0).
      { destruct (o <? start) eqn:E; reflect_bools; [rewrite wrap64_id by (unfold_int64; lia)|]; lia. }
      rewrite Hls. rewrite (wrap64_id (zlen c - s0)) by (unfold_int64; lia).
      rewrite Hl by lia. rewrite (wrap64_id (rem - _)) by (unfold_int64; lia).
      rewrite IH; cbn [rd_offset rd_remaining rd_bytes]; try lia.
      rewrite take_section by lia. f_equal. f_equal; [lia|lia|].
      rewrite <- app_assoc. f_equal. f_equal.
      replace (Z.max 0 (start - (o + zlen c))) with 0 by lia. done.
Qed.

(** The reader of the parts: a range inside the file is read exactly, one that
    reaches over its end or has no end is cut there, and one whose end is not
    a 64-bit number is refused, as is a start outside the file. *)
Lemma openChunkReader_reads w parts cs r :
  Forall2 (part_gives w) parts cs → zlen (concat cs) ≤ max_int64 →
  int64_ok (Start r) → int64_ok (Length r) →
  let c := concat cs in
  openChunkReader parts (zlen c) r w
  = if (Start r <? 0) || (zlen c <? Start r) then inl (EMessage #"range start out of bound")
    else if (Length r <? 0) || ((zlen c <? Start r + Length r) && (Start r + Length r <=? max_int64))
    then inr (drop (Z.to_nat (Start r)) c)
    else if max_int64 <? Start r + Length r then inl (EMessage #"missing chunk data")
    else inr (section c (Start r) (Length r)).
Proof.
  intros Hp Hmax Hs Hl c. unfold openChunkReader. fold c in Hmax.
  destruct ((Start r <? 0) || (zlen c <? Start r)) eqn:E; [done|]. apply orb_false_iff in E as [E1 E2]. reflect_bools.
  assert (Hread : ∀ len, 0 ≤ len ≤ max_int64 →
    read_parts (Start r) w {| rd_offset := 0; rd_remaining := len; rd_bytes := [] |} parts
    = inr {| rd_offset := zlen c; rd_remaining := len - Z.min len (zlen c - Start r);
             rd_bytes := take (Z.to_nat len) (drop (Z.to_nat (Start r)) c) |}).
  { intros len Hlen. rewrite (read_parts_exact w parts cs _ _ Hp); cbn [rd_offset rd_remaining]; fold c; unfold_int64; try lia.
    cbn [rd_offset rd_remaining rd_bytes]. fold c. rewrite Z.sub_0_r, !(Z.max_r 0) by lia. done. }
  assert (Hwrap : wrap64 (zlen c - Start r) = zlen c - Start r) by (apply wrap64_id; unfold_int64; lia).
  assert (Hend : ∀ len, 0 ≤ len → len = zlen c - Start r →
    (if len =? 0 then inr [] else
       let! st := read_parts (Start r) w {| rd_offset := 0; rd_remaining := len; rd_bytes := [] |} parts in
       if 0 <? rd_remaining st then inl (EMessage #"missing chunk data") else inr (rd_bytes st))
    = @inr error gostr (drop (Z.to_nat (Start r)) c)).
  { intros len H0 ->. destruct (zlen c - Start r =? 0) eqn:Ez; reflect_bools.
    - f_equal. symmetry. apply drop_ge. lia.
    - rewrite Hread by (unfold_int64; lia). cbn [rd_remaining rd_bytes]. zcmp.
      f_equal. apply take_ge. rewrite length_drop. lia. }
  destruct (Length r <? 0) eqn:El; reflect_bools; cbn [orb].
  { rewrite Hwrap. apply Hend; lia. }
  destruct (max_int64 <? Start r + Length r) eqn:Eo; reflect_bools.
  - assert (Hov : wrap64 (Start r + Length r) = Start r + Length r - 18446744073709551616).
    { unfold wrap64. unfold_int64. replace (Start r + Length r + 9223372036854775808)
        with (Start r + Length r - 9223372036854775808 + 1 * 18446744073709551616) by lia.
      rewrite Z.mod_add, Z.mod_small by lia. lia. }
    rewrite Hov. unfold_int64. zcmp. rewrite andb_false_r.
    destruct (Length r =? 0) eqn:Ez; reflect_bools; [lia|].
    rewrite Hread by (unfold_int64; lia). cbn [rd_remaining]. zcmp. done.
  - rewrite wrap64_id by (unfold_int64; lia). zcmp. rewrite andb_true_r.
    destruct (zlen c <? Start r + Length r) eqn:Eb; reflect_bools.
    + rewrite Hwrap. apply Hend; lia.
    + destruct (Length r =? 0) eqn:Ez; reflect_bools.
      * unfold section. rewrite Ez. done.
      * rewrite Hread by (unfold_int64; lia). cbn [rd_remaining rd_bytes]. zcmp. done.
Qed.
End reader.

(** ** What a remote promises *)

(** The files of a world by directory and name, its directories and their
    sub-directories; directories are named by their cleaned virtual path.
    [locate st a] is the virtual path of the actual path [a] of a storage. *)
Class RemoteView {RM : Remotes} := {
  look : World → gostr → gostr → option gostr;
  is_dir : World → gostr → bool;
  has_sub : World → gostr → gostr → bool;
  locate : Driver → gostr → gostr;
}.

Definition file_at `{RemoteView} (w : World) (p : gostr) : option gostr := look w (path_Dir p) (path_Base p).

Definition same_view `{RemoteView} (w w' : World) : Prop :=
  (∀ u f, look w' u f = look w u f) ∧ (∀ u, is_dir w' u = is_dir w u) ∧ (∀ u f, has_sub w' u f = has_sub w u f).

#[export] Instance same_view_equiv `{RemoteView} : Equivalence same_view.
Proof.
  split.
  - intros w. by repeat split.
  - intros w w' (H1 & H2 & H3). repeat split; intros; symmetry; auto.
  - intros w w' w'' (H1 & H2 & H3) (K1 & K2 & K3). repeat split; intros; etrans; eauto.
Qed.

(** The entries of a listing: names differ, files have their size, and every
    file is there. *)
Record lists_dir `{RemoteView} (w : World) (v : gostr) (es : list Entry) : Prop := {
  ls_nodup : NoDup (map e_Name es);
  ls_dir : ∀ e, e ∈ es → e_IsDir e = true → has_sub w v (e_Name e) = true;
  ls_file : ∀ e, e ∈ es → e_IsDir e = false → ∃ c, look w v (e_Name e) = Some c ∧ e_Size e = zlen c;
  ls_all : ∀ f c, look w v f = Some c → ∃ e, e ∈ es ∧ e_Name e = f ∧ e_IsDir e = false;
}.

(** Reading calls leave the files as they are; a directory is listed, or not
    found when there is none; a link gives the content the file had, as long
    as it still has it. *)
Class ReadLaws {RM : Remotes} {RV : RemoteView} : Prop := {
  actual_path_reads : ∀ v w, same_view w (op_GetStorageAndActualPath v w).2;
  list_reads : ∀ v r w, same_view w (fs_List v r w).2;
  list_dir : ∀ v r w, is_dir w v = true → ∃ es, (fs_List v r w).1 = inr es ∧ lists_dir w v es;
  list_none : ∀ v r w, is_dir w v = false →
    (∃ e, (fs_List v r w).1 = inl e ∧ IsObjectNotFound e = true) ∧ ∀ f, look w v f = None;
  link_reads : ∀ st a w, same_view w (op_Link st a w).2;
  link_file : ∀ st a w c, file_at w (locate st a) = Some c → ∃ l e,
    (op_Link st a w).1 = inr (l, e) ∧ e_Size e = zlen c ∧
    ∀ w', file_at w' (locate st a) = Some c → link_gives l c w';
}.

(** ** Paths of the targets *)

Section paths.
Context {RM : Remotes}.

Lemma joinRemotePathWithBase_segs base p :
  joinRemotePathWithBase base p = render (path_segs base ++ path_segs p).
Proof.
  unfold joinRemotePathWithBase. destruct (PathEqual (FixAndCleanPath p) #"/") eqn:E.
  - apply PathEqual_segs in E. rewrite path_segs_Fix in E. rewrite E. change (path_segs #"/") with (@nil gostr).
    by rewrite app_nil_r, FixAndCleanPath_segs.
  - apply path_join_Fix.
Qed.

(** The virtual path of a logical one on a target. *)
Definition vpath (t : remoteTarget) (p : gostr) : gostr := joinRemotePathWithBase (MountPath t) p.

Lemma vpath_file t segs n :
  Forall good_seg (segs ++ [n]) →
  path_Dir (vpath t (render (segs ++ [n]))) = vpath t (render segs) ∧
  path_Base (vpath t (render (segs ++ [n]))) = n.
Proof.
  intros H. pose proof H as [Hs Hn]%Forall_app. unfold vpath. rewrite !joinRemotePathWithBase_segs.
  rewrite !path_segs_render by done. rewrite app_assoc.
  assert (Hn' : norm_seg n) by (by apply good_norm in Hn; apply Forall_cons in Hn as [? _]).
  split; [|by apply path_Base_render].
  apply path_Dir_render; [|done]. apply Forall_app. split; [apply path_segs_norm|by apply good_norm].
Qed.
End paths.

(** ** How a call ends *)

Section ends.
Context {RM : Remotes}.

(** A call returns, without a panic and within its fuel, so that [Q] holds;
    [runs] when it also returns no error. *)
Definition ends {A} (m : Ck A) (w : World) (Q : result A → World → Prop) : Prop :=
  ∃ r w', m w = Done r w' ∧ Q r w'.
Definition runs {A} (m : Ck A) (w : World) (Q : A → World → Prop) : Prop :=
  ends m w (λ r w', match r with inr a => Q a w' | inl _ => False end).

Lemma ends_mono {A} (m : Ck A) w (P Q : result A → World → Prop) :
  ends m w P → (∀ r w', P r w' → Q r w') → ends m w Q.
Proof. intros (r & w' & E & H) HPQ. exists r, w'. auto. Qed.

Lemma runs_mono {A} (m : Ck A) w (P Q : A → World → Prop) :
  runs m w P → (∀ a w', P a w' → Q a w') → runs m w Q.
Proof. intros H HPQ. eapply ends_mono; [exact H|]. intros [e|a] w' HP; [done|]. by apply HPQ. Qed.

Lemma ends_bind {A B} (m : Ck A) (k : A → Ck B) w Q :
  ends m w (λ r w', match r with inl e => Q (inl e) w' | inr a => ends (k a) w' Q end) →
  ends (ck_bind m k) w Q.
Proof.
  intros ([e|a] & w' & E & H); unfold ends, ck_bind; rewrite E; [eauto|].
  destruct H as (r & w'' & E' & H). eauto.
Qed.

Lemma runs_bind {A B} (m : Ck A) (k : A → Ck B) w Q :
  runs m w (λ a w', runs (k a) w' Q) → runs (ck_bind m k) w Q.
Proof. intros H. apply ends_bind. eapply ends_mono; [exact H|]. by intros [e|a] w'. Qed.

Lemma ends_run_bind {A B} (m : Ck A) (k : A → Ck B) w Q :
  runs m w (λ a w', ends (k a) w' Q) → ends (ck_bind m k) w Q.
Proof. intros H. apply ends_bind. eapply ends_mono; [exact H|]. by intros [e|a] w'. Qed.

Lemma ends_ret {A} (a : A) w (Q : result A → World → Prop) : Q (inr a) w → ends (ck_ret a) w Q.
Proof. intros H. by exists (inr a), w. Qed.
Lemma runs_ret {A} (a : A) w (Q : A → World → Prop) : Q a w → runs (ck_ret a) w Q.
Proof. intros H. by apply ends_ret. Qed.
Lemma ends_fail {A} e w (Q : result A → World → Prop) : Q (inl e) w → ends (ck_fail e) w Q.
Proof. intros H. by exists (inl e), w. Qed.
Lemma ends_query {A} (f : World → result A) w (Q : result A → World → Prop) : Q (f w) w → ends (query f) w Q.
Proof. intros H. by exists (f w), w. Qed.
Lemma runs_query {A} (f : World → result A) w a (Q : A → World → Prop) :
  f w = inr a → Q a w → runs (query f) w Q.
Proof. intros E H. apply ends_query. by rewrite E. Qed.

Lemma ends_call {A} (m : Op World A) w (Q : result A → World → Prop) : Q (m w).1 (m w).2 → ends (call m) w Q.
Proof. intros H. unfold ends, call. destruct (m w) as [r w'] eqn:E. eauto. Qed.
Lemma runs_call {A} (m : Op World A) w a (Q : A → World → Prop) :
  (m w).1 = inr a → Q a (m w).2 → runs (call m) w Q.
Proof. intros E H. apply ends_call. by rewrite E. Qed.

Lemma runs_try {A} (m : Ck A) w (Q : result A → World → Prop) : ends m w Q → runs (ck_try m) w Q.
Proof. intros (r & w' & E & H). exists (inr r), w'. unfold ck_try. rewrite E. split; [done|exact H]. Qed.

Lemma runs_wrap {A} msg (m : Ck A) w Q : runs m w Q → runs (ck_wrap msg m) w Q.
Proof. intros ([e|a] & w' & E & H); [done|]. exists (inr a), w'. unfold ck_wrap. rewrite E. split; [done|exact H]. Qed.
Lemma ends_wrap {A} msg (m : Ck A) w (Q : result A → World → Prop) :
  ends m w (λ r w', Q (match r with inl e => inl (EFmtWrap e msg) | inr a => inr a end) w') → ends (ck_wrap msg m) w Q.
Proof. intros ([e|a] & w' & E & H); unfold ends, ck_wrap; rewrite E; eauto. Qed.
End ends.

(** ** The reading calls of the driver *)

Record driver_ok {RM : Remotes} {RV : RemoteView} (pattern : gostr) (d : Chunker) : Prop := {
  dk_format : setChunkNameFormat pattern = Ret (inr (d_nameRegexp d, d_dataNameFmt d));
  dk_separated : separated (d_nameRegexp d) = true;
  dk_backslash : "\"%char ∉ pattern;
  dk_start : 0 ≤ a_StartFrom (d_Addition d) ≤ max_int64 - maxSafeChunkNumber;
  dk_size : 0 < ChunkSize (d_Addition d) ≤ max_int64;
  dk_targets : remoteTargets d ≠ [];
  dk_resolves : ∀ i t p w, remoteTargets d !! i = Some t →
    ∃ st a, (op_GetStorageAndActualPath (vpath t p) w).1 = inr (st, a) ∧ locate (Storage t) a = vpath t p;
  dk_apart : ∀ i j t u, remoteTargets d !! i = Some t → remoteTargets d !! j = Some u → i ≠ j →
    ¬ path_segs (MountPath t) `prefix_of` path_segs (MountPath u);
}.

Section reads.
Context {RM : Remotes} {RV : RemoteView} {RL : ReadLaws}.
Context (pattern : gostr) (d : Chunker) (DK : driver_ok pattern d).

Lemma runs_target i t w (Q : remoteTarget → World → Prop) :
  remoteTargets d !! i = Some t → Q t w → runs (target d i) w Q.
Proof. intros E H. unfold target. rewrite E. by apply runs_ret. Qed.

Lemma runs_join p i t w (Q : gostr → World → Prop) :
  remoteTargets d !! i = Some t → Q (vpath t p) w → runs (joinRemotePathForTarget d p i) w Q.
Proof. intros E H. apply runs_bind. eapply runs_target; [done|]. by apply runs_ret. Qed.

Lemma runs_storage i t w (Q : Driver → World → Prop) :
  remoteTargets d !! i = Some t → Q (Storage t) w → runs (storage_of d i) w Q.
Proof. intros E H. apply runs_bind. eapply runs_target; [done|]. by apply runs_ret. Qed.

Lemma runs_actual p i t w (Q : gostr → World → Prop) :
  remoteTargets d !! i = Some t →
  (∀ a w', same_view w w' → locate (Storage t) a = vpath t p → Q a w') →
  runs (getActualPathForRemoteOnTarget d p i) w Q.
Proof.
  intros E H. apply runs_bind. eapply runs_join; [done|].
  destruct (dk_resolves _ _ DK i t p w E) as (st & a & Ha & Hl).
  apply runs_bind. eapply runs_call; [exact Ha|]. apply runs_ret. apply H; [apply actual_path_reads|done].
Qed.

Lemma target_lt i : (i < length (remoteTargets d))%nat → ∃ t, remoteTargets d !! i = Some t.
Proof. intros H. by apply lookup_lt_is_Some_2. Qed.
End reads.

(** ** Grouping *)

Section grouping.
Context {RM : Remotes} (d : Chunker).

Definition base_of (gs : groups) (n : gostr) : option (Entry * nat) := g_base (default no_group (gs !! n)).
Definition parts_of (gs : groups) (n x : gostr) : gmap Z chunkPart :=
  default ∅ (g_partsByXact (default no_group (gs !! n)) !! x).

(** The entry is the base object of [n]; it is the part [no] of [n] in the
    transaction [x]. *)
Definition is_base (e : Entry) (n : gostr) : Prop :=
  e_IsDir e = false ∧ e_Name e = n ∧ (parseChunkName (nf d) n).1.1.1 = [].
Definition is_part (e : Entry) (n : gostr) (no : Z) (x : gostr) : Prop :=
  e_IsDir e = false ∧ parseChunkName (nf d) (e_Name e) = (n, no, [], x) ∧ n ≠ [] ∧ 0 ≤ no.

Definition part_for (i : nat) (e : Entry) (no : Z) (x : gostr) : chunkPart :=
  {| p_No := no; p_Size := e_Size e; p_XactID := x; p_RemoteIndex := i |}.

(** What the entries of the targets seen so far have made of the maps. *)
Record grouped (seen : list (nat * Entry)) (acc : groups * gmap gostr Object) : Prop := {
  gr_base : ∀ n e i, base_of acc.1 n = Some (e, i) → (i, e) ∈ seen ∧ is_base e n;
  gr_base_min : ∀ n e i, (i, e) ∈ seen → is_base e n →
    ∃ e' j, base_of acc.1 n = Some (e', j) ∧ (j ≤ i)%nat;
  gr_part : ∀ n x no p, parts_of acc.1 n x !! no = Some p →
    ∃ e, (p_RemoteIndex p, e) ∈ seen ∧ is_part e n no x ∧ p = part_for (p_RemoteIndex p) e no x;
  gr_part_min : ∀ n e i no x, (i, e) ∈ seen → is_part e n no x →
    ∃ p, parts_of acc.1 n x !! no = Some p ∧ (p_RemoteIndex p ≤ i)%nat;
  gr_full : ∀ n g x M, acc.1 !! n = Some g → g_partsByXact g !! x = Some M → ∃ no q, M !! no = Some q;
  gr_dirs : ∀ n o, acc.2 !! n = Some o → o_Name o = n ∧ ∃ i e, (i, e) ∈ seen ∧ e_IsDir e = true ∧ e_Name e = n;
}.

Lemma base_of_empty n : base_of ∅ n = None.
Proof. unfold base_of. by rewrite lookup_empty. Qed.
Lemma parts_of_empty n x : parts_of ∅ n x = ∅.
Proof. unfold parts_of. rewrite lookup_empty. cbn. by rewrite lookup_empty. Qed.

Lemma grouped_empty : grouped [] (∅, ∅).
Proof.
  split; cbn [fst snd]; intros *; rewrite ?base_of_empty, ?parts_of_empty, ?lookup_empty; try done;
    by intros ?%elem_of_nil.
Qed.

Lemma base_of_update n m f gs :
  base_of (update_group m f gs) n
  = if bool_decide (n = m) then g_base (f (default no_group (gs !! m))) else base_of gs n.
Proof.
  unfold base_of, update_group. case_bool_decide; subst; [by rewrite lookup_insert_eq|].
  by rewrite lookup_insert_ne.
Qed.

Lemma parts_of_update n x m f gs :
  parts_of (update_group m f gs) n x
  = if bool_decide (n = m) then default ∅ (g_partsByXact (f (default no_group (gs !! m))) !! x)
    else parts_of gs n x.
Proof.
  unfold parts_of, update_group. case_bool_decide; subst; [by rewrite lookup_insert_eq|].
  by rewrite lookup_insert_ne.
Qed.

Lemma add_part_lookup pt g x no :
  default ∅ (g_partsByXact (add_part pt g) !! x) !! no
  = let old := default ∅ (g_partsByXact g !! x) !! no in
    if bool_decide (x = p_XactID pt ∧ no = p_No pt) then
      match old with
      | Some ex => Some (if (p_RemoteIndex pt <? p_RemoteIndex ex)%nat then pt else ex)
      | None => Some pt
      end
    else old.
Proof.
  unfold add_part. cbn [g_partsByXact]. cbv zeta.
  set (M := default ∅ (g_partsByXact g !! p_XactID pt)).
  assert (Hins : (match M !! p_No pt with
      | Some ex => if (p_RemoteIndex pt <? p_RemoteIndex ex)%nat then <[p_No pt := pt]> M else M
      | None => <[p_No pt := pt]> M
      end) !! no
    = if bool_decide (no = p_No pt) then
        match M !! p_No pt with
        | Some ex => Some (if (p_RemoteIndex pt <? p_RemoteIndex ex)%nat then pt else ex)
        | None => Some pt
        end
      else M !! no).
  { case_bool_decide; subst.
    - destruct (M !! p_No pt) eqn:E; [destruct (_ <? _)%nat|]; rewrite ?lookup_insert_eq; done.
    - destruct (M !! p_No pt); [destruct (_ <? _)%nat|]; rewrite ?lookup_insert_ne by done; done. }
  destruct (decide (x = p_XactID pt)) as [->|Hx].
  - rewrite lookup_insert_eq. cbn [default from_option id]. rewrite Hins. fold M.
    destruct (decide (no = p_No pt)) as [->|]; [by rewrite !bool_decide_eq_true_2|].
    by rewrite !bool_decide_eq_false_2 by naive_solver.
  - rewrite lookup_insert_ne by done. by rewrite bool_decide_eq_false_2 by naive_solver.
Qed.

Lemma is_base_fun e n m : is_base e n → is_base e m → n = m.
Proof. intros (_ & <- & _) (_ & <- & _). done. Qed.

Lemma is_part_not_base e n no x m : is_part e n no x → ¬ is_base e m.
Proof. intros (_ & E & Hn & _) (_ & <- & H). rewrite E in H. done. Qed.

(** Growing [seen] keeps what is said of the entries before. *)
Lemma grouped_skip seen acc ie :
  grouped seen acc → (∀ n, ¬ is_base ie.2 n) → (∀ n no x, ¬ is_part ie.2 n no x) → grouped (seen ++ [ie]) acc.
Proof.
  intros [G1 G2 G3 G4 G6 G5] Hb Hp. destruct ie as [i e]. cbn [snd] in *. split.
  - intros n e' j [? ?]%G1. split; [set_solver|done].
  - intros n e' j [Hin|Hin]%elem_of_app Hbase; [by eapply G2|].
    apply list_elem_of_singleton in Hin. simplify_eq. by destruct (Hb n).
  - intros n x no p (e' & ? & ?)%G3. exists e'. split; [set_solver|done].
  - intros n e' j no x [Hin|Hin]%elem_of_app Hpart; [by eapply G4|].
    apply list_elem_of_singleton in Hin. simplify_eq. by destruct (Hp n no x).
  - done.
  - intros n o (? & j & e' & ? & ?)%G5. split; [done|]. exists j, e'. split; [set_solver|done].
Qed.

Lemma grouped_dir seen gs dirs i e o :
  grouped (seen ++ [(i, e)]) (gs, dirs) → e_IsDir e = true → o_Name o = e_Name e →
  grouped (seen ++ [(i, e)]) (gs, <[e_Name e := o]> dirs).
Proof.
  intros [G1 G2 G3 G4 G6 G5] Hd Ho. split; [done..|]. cbn [snd] in *.
  intros n o' H. destruct (decide (n = e_Name e)) as [->|].
  - rewrite lookup_insert_eq in H. simplify_eq. split; [done|]. exists i, e. split; [set_solver|done].
  - rewrite lookup_insert_ne in H by done. by apply G5.
Qed.

Lemma grouped_base seen gs dirs i e n :
  grouped seen (gs, dirs) → is_base e n → grouped (seen ++ [(i, e)]) (update_group n (add_base e i) gs, dirs).
Proof.
  intros [G1 G2 G3 G4 G6 G5] Hb. cbn [fst snd] in *.
  assert (Hbase : ∀ m, base_of (update_group n (add_base e i) gs) m
    = if bool_decide (m = n) then match base_of gs n with
                                  | None => Some (e, i)
                                  | Some (e', j) => if (i <? j)%nat then Some (e, i) else Some (e', j)
                                  end else base_of gs m).
  { intros m. rewrite base_of_update. done. }
  assert (Hparts : ∀ m x, parts_of (update_group n (add_base e i) gs) m x = parts_of gs m x).
  { intros m x. rewrite parts_of_update. by case_bool_decide; subst. }
  split; cbn [fst snd].
  - intros m e' j. rewrite Hbase. case_bool_decide; subst.
    + destruct (base_of gs n) as [[e0 j0]|] eqn:E0; [destruct (i <? j0)%nat|]; intros; simplify_eq;
        [split; [set_solver|done]| |split; [set_solver|done]].
      apply G1 in E0 as [? ?]. split; [set_solver|done].
    + intros [? ?]%G1. split; [set_solver|done].
  - intros m e' j [Hin|Hin]%elem_of_app Hb'; rewrite Hbase.
    + destruct (G2 m e' j Hin Hb') as (e0 & j0 & E0 & Hle). case_bool_decide; subst; [|eauto].
      rewrite E0. destruct (i <? j0)%nat eqn:El; [|eauto]. apply Nat.ltb_lt in El. exists e, i. split; [done|lia].
    + apply list_elem_of_singleton in Hin. simplify_eq. rewrite (is_base_fun _ _ _ Hb' Hb) in *.
      rewrite bool_decide_eq_true_2 by done.
      destruct (base_of gs n) as [[e0 j0]|]; [destruct (i <? j0)%nat eqn:El|]; eauto.
      apply Nat.ltb_ge in El. exists e0, j0. split; [done|lia].
  - intros m x no p. rewrite Hparts. intros (e' & ? & ?)%G3. exists e'. split; [set_solver|done].
  - intros m e' j no x [Hin|Hin]%elem_of_app Hp; rewrite Hparts; [by eapply G4|].
    apply list_elem_of_singleton in Hin. simplify_eq. by destruct (is_part_not_base _ _ _ _ _ Hp Hb).
  - intros m g x M. unfold update_group. destruct (decide (m = n)) as [->|].
    + rewrite lookup_insert_eq. intros. simplify_eq/=. destruct (gs !! n) as [g0|] eqn:E0; [by eapply G6|done].
    + rewrite lookup_insert_ne by done. apply G6.
  - intros m o (? & j & e' & ? & ?)%G5. split; [done|]. exists j, e'. split; [set_solver|done].
Qed.

Lemma grouped_part seen gs dirs i e n no x :
  grouped seen (gs, dirs) → is_part e n no x →
  grouped (seen ++ [(i, e)]) (update_group n (add_part (part_for i e no x)) gs, dirs).
Proof.
  intros [G1 G2 G3 G4 G6 G5] Hp. cbn [fst snd] in *.
  assert (Hbase : ∀ m, base_of (update_group n (add_part (part_for i e no x)) gs) m = base_of gs m).
  { intros m. rewrite base_of_update. by case_bool_decide; subst. }
  assert (Hparts : ∀ m y k, parts_of (update_group n (add_part (part_for i e no x)) gs) m y !! k
    = if bool_decide (m = n ∧ y = x ∧ k = no) then
        match parts_of gs n x !! no with
        | Some ex => Some (if (i <? p_RemoteIndex ex)%nat then part_for i e no x else ex)
        | None => Some (part_for i e no x)
        end
      else parts_of gs m y !! k).
  { intros m y k. rewrite parts_of_update. destruct (decide (m = n)) as [->|].
    - rewrite (bool_decide_eq_true_2 (n = n)) by done. rewrite add_part_lookup. cbv zeta.
      cbn [p_XactID p_No p_RemoteIndex part_for].
      destruct (decide (y = x ∧ k = no)) as [[-> ->]|Hne].
      + rewrite !bool_decide_eq_true_2 by done. done.
      + rewrite !bool_decide_eq_false_2 by naive_solver. done.
    - rewrite !bool_decide_eq_false_2 by naive_solver. done. }
  split; cbn [fst snd].
  - intros m e' j. rewrite Hbase. intros [? ?]%G1. split; [set_solver|done].
  - intros m e' j [Hin|Hin]%elem_of_app Hb; rewrite Hbase; [by eapply G2|].
    apply list_elem_of_singleton in Hin. simplify_eq. by destruct (is_part_not_base _ _ _ _ _ Hp Hb).
  - intros m y k p. rewrite Hparts. case_bool_decide as Hk.
    + destruct Hk as (-> & -> & ->). destruct (parts_of gs n x !! no) as [ex|] eqn:E0.
      * destruct (i <? p_RemoteIndex ex)%nat; intros; simplify_eq.
        -- exists e. split; [set_solver|done].
        -- destruct (G3 _ _ _ _ E0) as (e' & ? & ?). exists e'. split; [set_solver|done].
      * intros. simplify_eq. exists e. split; [set_solver|done].
    + intros (e' & ? & ?)%G3. exists e'. split; [set_solver|done].
  - intros m e' j k y [Hin|Hin]%elem_of_app Hp'; rewrite Hparts.
    + destruct (G4 m e' j k y Hin Hp') as (p & E0 & Hle). case_bool_decide as Hk; [|eauto].
      destruct Hk as (-> & -> & ->). rewrite E0. destruct (i <? p_RemoteIndex p)%nat eqn:El; [|eauto].
      apply Nat.ltb_lt in El. eexists. split; [done|]. simpl. lia.
    + apply list_elem_of_singleton in Hin. simplify_eq.
      destruct Hp as (Hd & Hpa & _), Hp' as (_ & Hpa' & _). rewrite Hpa in Hpa'. simplify_eq.
      rewrite bool_decide_eq_true_2 by done.
      destruct (parts_of gs m y !! k) as [ex|]; [|eexists; split; [done|]; simpl; lia].
      destruct (i <? p_RemoteIndex ex)%nat eqn:El; eexists; (split; [done|]); simpl; [lia|].
      by apply Nat.ltb_ge in El.
  - intros m g y M. unfold update_group. destruct (decide (m = n)) as [->|].
    + rewrite lookup_insert_eq. intros Eg HM. injection Eg as <-. destruct (decide (y = x)) as [->|Hy].
      * exists no. pose proof (add_part_lookup (part_for i e no x) (default no_group (gs !! n)) x no) as Ha.
        rewrite HM in Ha. cbn [default from_option id p_XactID p_No part_for] in Ha. cbv zeta in Ha.
        rewrite bool_decide_eq_true_2 in Ha by done. rewrite Ha. destruct (_ !! no); eauto.
      * unfold add_part in HM. cbn [g_partsByXact p_XactID part_for] in HM.
        rewrite lookup_insert_ne in HM by done. destruct (gs !! n) as [g0|] eqn:E0; [by eapply G6|done].
    + rewrite lookup_insert_ne by done. apply G6.
  - intros m o (? & j & e' & ? & ?)%G5. split; [done|]. exists j, e'. split; [set_solver|done].
Qed.

Lemma grouped_add dirPath seen acc i e :
  grouped seen acc → grouped (seen ++ [(i, e)]) (add_entry d dirPath i acc e).
Proof.
  intros G. destruct acc as [gs dirs]. unfold add_entry.
  destruct (e_IsDir e) eqn:Hd.
  - assert (Hs : grouped (seen ++ [(i, e)]) (gs, dirs)).
    { apply grouped_skip; [done| |]; cbn [snd].
      - intros n (? & _). congruence.
      - intros n no x (? & _). congruence. }
    destruct (dirs !! e_Name e); [done|]. by apply grouped_dir.
  - destruct (parseChunkName (nf d) (e_Name e)) as [[[m no] ct] x] eqn:Hp.
    case_bool_decide as Hm; [apply grouped_base; [done|]; unfold is_base; by rewrite Hp|].
    destruct ((no <? 0) || bool_decide (ct ≠ [])) eqn:Hc.
    + apply grouped_skip; [done| |]; cbn [snd].
      * intros n (_ & <- & H). rewrite Hp in H. done.
      * intros n no' x' (_ & H & _ & ?). rewrite Hp in H. simplify_eq.
        rewrite bool_decide_eq_false_2 in Hc by naive_solver. rewrite orb_false_r in Hc. reflect_bools. lia.
    + apply orb_false_iff in Hc as [Hc Hct]. reflect_bools. assert (ct = []) as -> by (by destruct (decide (ct = []))).
      by apply (grouped_part seen gs dirs i e m no x).
Qed.

Lemma grouped_fold dirPath seen acc i es :
  grouped seen acc → grouped (seen ++ map (pair i) es) (fold_left (add_entry d dirPath i) es acc).
Proof.
  revert seen acc. induction es as [|e es IH]; intros seen acc G; cbn [map fold_left]; [by rewrite app_nil_r|].
  rewrite (cons_middle (i, e)), app_assoc. apply IH. by apply grouped_add.
Qed.
End grouping.

(** ** Listing the targets *)

(** The virtual path of a logical one on the target of an index. *)
Definition vdir {RM : Remotes} (d : Chunker) (i : nat) (p : gostr) : gostr :=
  match remoteTargets d !! i with Some t => vpath t p | None => [] end.

Lemma vdir_target {RM : Remotes} d i t p : remoteTargets d !! i = Some t → vdir d i p = vpath t p.
Proof. intros E. unfold vdir. by rewrite E. Qed.

(** The entries of the targets [l] in a directory. *)
Record scanned {RM : Remotes} {RV : RemoteView} (d : Chunker) (w : World) (p : gostr) (l : list nat)
    (new : list (nat * Entry)) : Prop := {
  sc_index : ∀ i e, (i, e) ∈ new → i ∈ l;
  sc_dir : ∀ i e, (i, e) ∈ new → e_IsDir e = true → has_sub w (vdir d i p) (e_Name e) = true;
  sc_file : ∀ i e, (i, e) ∈ new → e_IsDir e = false →
    ∃ c, look w (vdir d i p) (e_Name e) = Some c ∧ e_Size e = zlen c;
  sc_all : ∀ i f c, i ∈ l → look w (vdir d i p) f = Some c →
    ∃ e, (i, e) ∈ new ∧ e_Name e = f ∧ e_IsDir e = false;
}.

Section listing.
Context {RM : Remotes} {RV : RemoteView} {RL : ReadLaws}.
Context (pattern : gostr) (d : Chunker) (DK : driver_ok pattern d).

Lemma scanned_view w w' p l new : same_view w w' → scanned d w p l new → scanned d w' p l new.
Proof.
  intros (V1 & V2 & V3) [S1 S2 S3 S4]. split; [done| | |].
  - intros. rewrite V3. eauto.
  - intros. rewrite V1. eauto.
  - intros i f c Hi. rewrite V1. eauto.
Qed.

Lemma existsb_ext {A} (f g : A → bool) l : (∀ x, f x = g x) → existsb f l = existsb g l.
Proof. intros H. induction l as [|x l IH]; [done|]. simpl. by rewrite H, IH. Qed.

Lemma scan_targets_ok p refresh l w seen acc found :
  (∀ i, i ∈ l → (i < length (remoteTargets d))%nat) → grouped d seen acc →
  runs (scan_targets d p refresh l acc found) w (λ r w',
    same_view w w' ∧ ∃ new, grouped d (seen ++ new) r.1 ∧ scanned d w p l new ∧
      (r.2 = found || existsb (λ i, is_dir w (vdir d i p)) l)).
Proof.
  revert w seen acc found. induction l as [|i l IH]; intros w seen acc found Hl G; cbn [scan_targets].
  - apply runs_ret. split; [reflexivity|]. exists []. rewrite app_nil_r. split; [done|]. split.
    + split; intros; by match goal with H : _ ∈ [] |- _ => apply elem_of_nil in H end.
    + simpl. by rewrite orb_false_r.
  - destruct (target_lt d i) as [t Ht]; [apply Hl; set_solver|].
    apply runs_bind. eapply runs_join; [done|]. rewrite <- (vdir_target d i t p Ht).
    apply runs_bind. apply runs_try, ends_call.
    pose proof (list_reads (vdir d i p) refresh w) as Hv.
    set (w1 := (fs_List (vdir d i p) refresh w).2) in *.
    assert (Hl' : ∀ j, j ∈ l → (j < length (remoteTargets d))%nat) by (intros; apply Hl; set_solver).
    destruct (is_dir w (vdir d i p)) eqn:Hdir.
    + destruct (list_dir (vdir d i p) refresh w Hdir) as (es & -> & [L1 L2 L3 L4]).
      eapply runs_mono; [apply (IH w1 (seen ++ map (pair i) es)); [done|by apply grouped_fold]|].
      intros [acc' found'] w' (Hsv & new & Hg & Hs & Hf). cbn [fst snd] in *.
      split; [by etrans|]. exists (map (pair i) es ++ new). rewrite app_assoc. split; [done|].
      apply (scanned_view w1 w) in Hs as [S1 S2 S3 S4]; [|by symmetry].
      assert (Hmap : ∀ j e, (j, e) ∈ map (pair i) es → j = i ∧ e ∈ es).
      { intros j e (e' & E & He)%list_elem_of_fmap. by simplify_eq. }
      split; [split|].
      * intros j e [[-> _]%Hmap|Hj%S1]%elem_of_app; set_solver.
      * intros j e [[-> ?]%Hmap|Hj]%elem_of_app; [by apply (L2 e)|by apply (S2 j e)].
      * intros j e [[-> ?]%Hmap|Hj]%elem_of_app; [by apply (L3 e)|by apply (S3 j e)].
      * intros j f c [->|Hj]%elem_of_cons Hc.
        -- destruct (L4 f c Hc) as (e & He & ? & ?). exists e. split; [|done]. apply elem_of_app. left.
           apply list_elem_of_fmap. eauto.
        -- destruct (S4 j f c Hj Hc) as (e & He & ? & ?). exists e. split; [set_solver|done].
      * rewrite Hf. simpl. rewrite Hdir. by rewrite !orb_true_r.
    + destruct (list_none (vdir d i p) refresh w Hdir) as [(e & -> & He) Hnone]. rewrite He.
      eapply runs_mono; [apply (IH w1 seen); done|].
      intros [acc' found'] w' (Hsv & new & Hg & Hs & Hf). cbn [fst snd] in *.
      split; [by etrans|]. exists new. split; [done|].
      apply (scanned_view w1 w) in Hs as [S1 S2 S3 S4]; [|by symmetry]. split; [split|].
      * intros j e' Hj%S1. set_solver.
      * done.
      * done.
      * intros j f c [->|Hj]%elem_of_cons Hc; [by rewrite Hnone in Hc|by apply (S4 j f c)].
      * rewrite Hf. cbn [existsb]. rewrite Hdir. cbn [orb]. f_equal. apply existsb_ext. intros k. apply Hv.
Qed.
End listing.

(** ** Where the files of a directory are *)

