(* ===== verification/ChunkerServe.v ===== *)
(** * What a chunked file reads as

    A file is laid out over the targets as a metadata object and chunks of one
    transaction ([chunked_at]), or as one object ([plain_at]).  A file laid
    out so is found by [Get], and its link gives every range of its content
    ([serves]), whatever else lies in the directory. *)

From S2P Require Import Prelude GoStrings Errs Store Paths HttpRange Json Crypto ChunkerNames ChunkerNamesThms Chunker ChunkerRead.

Local Open Scope Z_scope.

(** ** Names of the chunks of one file *)

Record file_ok {RM : Remotes} (d : Chunker) (n : gostr) : Prop := {
  fo_name : file_name n;
  fo_seg : good_seg n;
  fo_plain : (parseChunkName (nf d) n).1.1.1 = [];
}.

Section names.
Context {RM : Remotes} {RV : RemoteView}.
Context (pattern : gostr) (d : Chunker) (DK : driver_ok pattern d) (n : gostr) (FO : file_ok d n).

Definition chunk_name (k : nat) (x : gostr) : gostr := makeChunkName (nf d) n (Z.of_nat k) x.

(** A chunk number the driver uses. *)
Definition chunk_no (k : nat) : Prop := Z.of_nat k < maxSafeChunkNumber.

Lemma chunk_no_start k : chunk_no k → 0 ≤ Z.of_nat k + a_StartFrom (d_Addition d) ≤ max_int64.
Proof. pose proof (dk_start _ _ DK). unfold chunk_no, maxSafeChunkNumber in *. unfold_int64. lia. Qed.

Lemma chunk_name_text k x : chunk_no k → xact_ok x = true →
  chunk_name k x = re_beforeName (d_nameRegexp d) ++ n ++ re_between (d_nameRegexp d) ++
    chunk_digits (d_nameRegexp d) (Z.of_nat k + a_StartFrom (d_Addition d)) ++
    re_afterChunk (d_nameRegexp d) ++ xact_suffix x.
Proof.
  intros Hk Hx. unfold chunk_name. rewrite <- (app_nil_l n) at 1.
  rewrite (makeChunkName_text pattern); [done|apply (dk_format _ _ DK)|by left|apply FO|by apply chunk_no_start|done].
Qed.

Lemma chunk_name_in_dir segs k x : chunk_no k → xact_ok x = true →
  makeChunkName (nf d) (render (segs ++ [n])) (Z.of_nat k) x = render (segs ++ [chunk_name k x]).
Proof.
  intros Hk Hx. rewrite !render_snoc_slash, chunk_name_text by done.
  apply (makeChunkName_text pattern); [apply (dk_format _ _ DK)|apply dir_slash_part|apply FO|by apply chunk_no_start|done].
Qed.

Lemma parse_chunk_name k x : chunk_no k → xact_ok x = true →
  parseChunkName (nf d) (chunk_name k x) = (n, Z.of_nat k, [], x).
Proof.
  intros Hk Hx. unfold chunk_name. pose proof (dk_start _ _ DK). pose proof (chunk_no_start k Hk).
  unfold chunk_no, maxSafeChunkNumber in *.
  apply (parseChunkName_make pattern (nf d) [] n); [apply (dk_format _ _ DK)|apply (dk_separated _ _ DK)|by left|apply FO|..|done];
    cbn [StartFrom nf]; unfold_int64; lia.
Qed.

Lemma format_no_backslash :
  ("\"%char ∉ re_beforeName (d_nameRegexp d)) ∧ ("\"%char ∉ re_between (d_nameRegexp d)) ∧
  ("\"%char ∉ re_afterChunk (d_nameRegexp d)).
Proof.
  pose proof (dk_format _ _ DK) as H. pose proof (dk_backslash _ _ DK) as Hb. unfold setChunkNameFormat in H.
  case_hyp H; [done|]. destruct (parseNameToken pattern) as [?|[i j]]; [done|].
  destruct (parseChunkToken pattern) as [?|[[k l] w]]; [done|]. do 2 (case_hyp H; [done|]).
  injection H as <- _. cbn [re_beforeName re_between re_afterChunk].
  split_ands; intros Hin; apply Hb; [by eapply take_sub|by eapply take_sub, drop_sub|by eapply drop_sub].
Qed.

Lemma chunk_name_good k x : chunk_no k → xact_ok x = true → good_seg (chunk_name k x).
Proof.
  intros Hk Hx. rewrite chunk_name_text by done. pose proof (chunk_no_start k Hk).
  set (m := Z.of_nat k + a_StartFrom (d_Addition d)) in *.
  destruct (format_no_slash _ _ _ (dk_format _ _ DK)) as (S1 & S2 & S3).
  destruct format_no_backslash as (B1 & B2 & B3).
  destruct FO as [(Hne & Hsl & _) [_ Hbs] _].
  assert (Hd : all_of is_digit (chunk_digits (d_nameRegexp d) m)) by (apply zero_pad_digits; lia).
  assert (Hdn : chunk_digits (d_nameRegexp d) m ≠ []) by (apply zero_pad_nonempty; lia).
  assert (Hxs : ∀ c, is_lower_digit c = false → c ≠ "_"%char → c ∉ xact_suffix x).
  { intros c Hc Hu. unfold xact_suffix, xact_ok in *. case_bool_decide; [set_solver|]. cbn [orb] in Hx. reflect_bools.
    intros [?|Hin]%elem_of_cons; [done|]. match goal with H : forallb _ _ = true |- _ => apply forallb_all in H end.
    apply (all_of_elem is_lower_digit x) in Hin; [congruence|done]. }
  assert (Hdc : ∀ c, is_digit c = false → c ∉ chunk_digits (d_nameRegexp d) m).
  { intros c Hc Hin%(all_of_elem _ _ _ Hd). congruence. }
  assert (Hdig : ∃ c, is_digit c = true ∧ c ∈ re_beforeName (d_nameRegexp d) ++ n ++ re_between (d_nameRegexp d) ++
    chunk_digits (d_nameRegexp d) m ++ re_afterChunk (d_nameRegexp d) ++ xact_suffix x).
  { destruct (chunk_digits (d_nameRegexp d) m) as [|c s]; [done|]. apply Forall_cons in Hd as [Hd _].
    exists c. split; [done|]. rewrite !elem_of_app, elem_of_cons. tauto. }
  set (s := re_beforeName _ ++ _) in *.
  assert (Hs : "/"%char ∉ s).
  { unfold s. rewrite !elem_of_app. specialize (Hdc "/"%char eq_refl). specialize (Hxs "/"%char eq_refl). naive_solver. }
  assert (Hb : "\"%char ∉ s).
  { unfold s. rewrite !elem_of_app. specialize (Hdc "\"%char eq_refl). specialize (Hxs "\"%char eq_refl). naive_solver. }
  split; [|done]. destruct Hdig as (c & Hc & Hin).
  unfold norm_seg. split_ands; [intros E|intros E|intros E|done]; rewrite E in Hin;
    repeat (apply elem_of_cons in Hin as [->|Hin]; [done|]); by apply elem_of_nil in Hin.
Qed.
End names.

(** ** Layouts *)

Section layout.
Context {RM : Remotes} {RV : RemoteView} {RL : ReadLaws}.
Context (pattern : gostr) (d : Chunker) (DK : driver_ok pattern d) (n : gostr) (FO : file_ok d n).
Context (segs : list gostr) (Hsegs : Forall good_seg segs).

Abbreviation targets := (remoteTargets d).
Abbreviation dir := (render segs).
Abbreviation path := (render (segs ++ [n])).
Abbreviation chunk := (chunk_name d n).

(** A file on a target, in the directory. *)
Definition stored (w : World) (i : nat) (f : gostr) : option gostr := look w (vdir d i dir) f.

Definition no_subdir (w : World) : Prop :=
  ∀ i, (i < length targets)%nat → has_sub w (vdir d i dir) n = false.

(** The chunks [cs] of the transaction [x] and no other part of it. *)
Record chunks_at (w : World) (x : gostr) (cs : list gostr) : Prop := {
  ch_count : Z.of_nat (length cs) ≤ maxSafeChunkNumber;
  ch_parts : ∀ k c, cs !! k = Some c → stored w (chunkTargetIndex d (Z.of_nat k)) (chunk k x) = Some c;
  ch_only : ∀ i f no, (i < length targets)%nat → is_Some (stored w i f) →
    parseChunkName (nf d) f = (n, no, [], x) → 0 ≤ no →
    ∃ k, no = Z.of_nat k ∧ (k < length cs)%nat ∧ i = chunkTargetIndex d no ∧ f = chunk k x;
}.

(** A metadata object on the first target and the chunks it speaks of. *)
Record chunked_at (w : World) (x c : gostr) : Prop := {
  ca_xact : xact_ok x = true;
  ca_size : zlen c ≤ max_int64;
  ca_meta : ∃ md meta, stored w 0 n = Some md ∧ zlen md ≤ maxMetadataSizeRead ∧
    unmarshalMetadata md = inr meta ∧ m_Size meta = zlen c ∧ m_XactID meta = x;
  ca_chunks : ∃ cs, concat cs = c ∧ cs ≠ [] ∧ chunks_at w x cs;
  ca_sub : no_subdir w;
}.

(** One object on the first target, which is no metadata of chunks there are. *)
Record plain_at (w : World) (c : gostr) : Prop := {
  pa_file : stored w 0 n = Some c;
  pa_size : zlen c ≤ max_int64;
  pa_meta : (∀ meta, unmarshalMetadata c ≠ inr meta) ∨
    ∀ i f, (i < length targets)%nat → is_Some (stored w i f) → (parseChunkName (nf d) f).1.1.1 ≠ n;
  pa_sub : no_subdir w;
}.

Lemma targets_pos : (0 < length targets)%nat.
Proof. pose proof (dk_targets _ _ DK). destruct targets; [done|simpl; lia]. Qed.

Lemma chunkTargetIndex_lt k : (chunkTargetIndex d k < length targets)%nat.
Proof.
  pose proof targets_pos as Hpos.
  assert (Hall : ∀ i, i ∈ chunkTargetIndexes d → (i < length targets)%nat).
  { intros i. unfold chunkTargetIndexes, target_indexes.
    destruct (length targets <=? 1)%nat; [intros ->%list_elem_of_singleton; done|].
    destruct (StoreChunksInPrimary _); [rewrite elem_of_seq; lia|].
    destruct (drop 1 (seq 0 (length targets))) as [|j l] eqn:E; [intros ->%list_elem_of_singleton; done|].
    rewrite <- E. intros Hin%drop_sub. apply elem_of_seq in Hin. lia. }
  unfold chunkTargetIndex. destruct (chunkTargetIndexes d) as [|t l] eqn:E; [done|].
  destruct (k <? 0); [apply Hall; set_solver|].
  destruct (_ !! _) as [i|] eqn:Ei; [|done]. simpl. apply Hall. by eapply list_elem_of_lookup_2.
Qed.

Lemma stored_view w w' i f : same_view w w' → stored w' i f = stored w i f.
Proof. intros (V & _). apply V. Qed.

Lemma stored_file_at w i t f :
  targets !! i = Some t → good_seg f → file_at w (vpath t (render (segs ++ [f]))) = stored w i f.
Proof.
  intros Ht Hf. unfold file_at, stored. rewrite (vdir_target d i t) by done.
  destruct (vpath_file t segs f) as [-> ->]; [|done]. by apply Forall_app_2; [|constructor].
Qed.

(** ** Reading one object of a target *)

Lemma openPartRange_seekable link e off len w r :
  openPartRange link (e_Size e) off len w = inr r → len ≠ -1 →
  seekable_read link e (mkRange off len) w = inr r.
Proof.
  unfold openPartRange, seekable_read. cbn [Start Length]. intros H Hl.
  rewrite (proj2 (Z.eqb_neq len (-1)) Hl). cbn [Start Length].
  destruct (l_MFile link); [done|]. destruct (l_RangeReadCloser link); [done|].
  by destruct (bool_decide (l_URL link ≠ [])).
Qed.

Lemma section_all c : section c 0 (zlen c) = c.
Proof. unfold section. rewrite drop_0, Nat2Z.id. by apply take_ge. Qed.

(** A link to a stored file. *)
Lemma runs_link p i t f c w (Q : RLink World * Entry → World → Prop) a :
  targets !! i = Some t → good_seg f → stored w i f = Some c → p = render (segs ++ [f]) →
  locate (Storage t) a = vpath t p →
  (∀ l e w', same_view w w' → e_Size e = zlen c →
     (∀ w'', stored w'' i f = Some c → link_gives l c w'') → Q (l, e) w') →
  runs (call (op_Link (Storage t) a)) w Q.
Proof.
  intros Ht Hf Hc -> Ha HQ.
  assert (Hat : file_at w (locate (Storage t) a) = Some c) by (by rewrite Ha, (stored_file_at w i)).
  destruct (link_file (Storage t) a w c Hat) as (l & e & El & He & Hg).
  eapply runs_call; [exact El|]. apply HQ; [apply link_reads|done|].
  intros w'' Hw''. apply Hg. by rewrite Ha, (stored_file_at w'' i).
Qed.

Lemma runs_readMetadata p i t c meta w :
  targets !! i = Some t → stored w i n = Some c → p = path → unmarshalMetadata c = inr meta →
  runs (readMetadata d p (zlen c) i) w (λ m w', m = meta ∧ same_view w w').
Proof.
  intros Ht Hc -> Hm. unfold readMetadata.
  apply runs_bind. eapply (runs_actual pattern d DK); [done|]. intros a w1 V1 Ha.
  apply runs_bind. eapply runs_storage; [done|].
  apply runs_bind. eapply (runs_link path); [done|apply FO|by rewrite (stored_view w)|done|done|].
  intros l e w2 V2 He Hg.
  apply runs_bind. eapply runs_query.
  { apply openPartRange_seekable; [|lia]. rewrite He. apply Hg; [|lia..].
    by rewrite (stored_view w1), (stored_view w). }
  rewrite section_all. eapply runs_query; [done|]. split; [done|]. by etrans.
Qed.

(** Whatever the object is, reading it as metadata returns and leaves the
    files as they are. *)
Lemma ends_readMetadata p size i w :
  (i < length targets)%nat → ends (readMetadata d p size i) w (λ _ w', same_view w w').
Proof.
  intros Hi. destruct (target_lt d i Hi) as [t Ht]. unfold readMetadata.
  apply ends_run_bind. eapply (runs_actual pattern d DK); [done|]. intros a w1 V1 Ha.
  apply ends_run_bind. eapply runs_storage; [done|].
  apply ends_bind, ends_call. pose proof (link_reads (Storage t) a w1).
  destruct (op_Link (Storage t) a w1).1 as [?|[l e]]; [by etrans|].
  apply ends_bind, ends_query. destruct (seekable_read _ _ _ _); [by etrans|].
  apply ends_query. by etrans.
Qed.

(** ** Listing a group *)

Definition base_index_ok (g : groupInfo) : Prop :=
  ∀ e i, g_base g = Some (e, i) → (i < length targets)%nat.

Lemma runs_build p name g w :
  base_index_ok g →
  runs (buildListedObject d p name g) w (λ r w', same_view w w' ∧ ∀ o, r = Some o → o_Name (c_Object o) = name).
Proof.
  intros Hg. unfold buildListedObject. apply runs_bind.
  eapply (runs_mono _ _ (λ _ w', same_view w w')).
  { destruct (g_base g) as [[e i]|] eqn:Eb; [|by apply runs_ret].
    destruct (_ && _); [|by apply runs_ret]. apply runs_bind, runs_try.
    eapply ends_mono; [apply ends_readMetadata; by eapply Hg|]. intros r w' V. by apply runs_ret. }
  intros meta w' V.
  destruct meta as [m|], (g_base g) as [[e i]|]; [| |apply runs_ret|];
    try (destruct (sortChunkParts _)); try apply runs_ret; (split; [done|]); intros o E; by simplify_eq.
Qed.

(** The parts of a map in the order of their numbers. *)
Definition numbered (M : gmap Z chunkPart) (ps : list chunkPart) : Prop :=
  ∀ no p, M !! no = Some p ↔ ∃ k, no = Z.of_nat k ∧ ps !! k = Some p.

Lemma strongly_numbered b ps :
  (∀ k p, ps !! k = Some p → p_No p = b + Z.of_nat k) → StronglySorted part_less ps.
Proof.
  revert b. induction ps as [|p ps IH]; intros b H; constructor.
  - apply (IH (b + 1)). intros k q Hk. rewrite (H (S k) q Hk). lia.
  - apply Forall_forall. intros q (k & Hk)%list_elem_of_lookup_1. unfold part_less.
    rewrite (H 0%nat p eq_refl), (H (S k) q Hk). lia.
Qed.

Lemma sort_numbered M ps :
  numbered M ps → (∀ k p, ps !! k = Some p → p_No p = Z.of_nat k) → sortChunkParts M = ps.
Proof.
  intros HM Hno. unfold sortChunkParts.
  assert (Hperm : (map_to_list M).*2 ≡ₚ ps).
  { apply NoDup_Permutation.
    - apply (NoDup_fmap_2_strong snd).
      + intros [k p] [k' p'] H1 H2 E. simpl in E. subst p'. apply elem_of_map_to_list in H1, H2.
        apply HM in H1 as (j & -> & H1), H2 as (j' & -> & H2). apply Hno in H1, H2. congruence.
      + apply NoDup_map_to_list.
    - apply NoDup_alt. intros i j p Hi Hj. apply Hno in Hi, Hj. lia.
    - intros p. rewrite list_elem_of_fmap. split.
      + intros ([no q] & -> & H%elem_of_map_to_list). apply HM in H as (k & -> & H). by eapply list_elem_of_lookup_2.
      + intros (k & H)%list_elem_of_lookup_1. exists (Z.of_nat k, p). split; [done|].
        apply elem_of_map_to_list. apply HM. eauto. }
  apply (StronglySorted_unique_strong part_less).
  - intros p q Hp Hq H1 H2. rewrite merge_sort_Permutation, Hperm in Hp.
    apply list_elem_of_lookup_1 in Hp as [k Hk], Hq as [j Hj]. unfold part_less in *.
    pose proof (Hno _ _ Hk). pose proof (Hno _ _ Hj). assert (k = j) as -> by lia. congruence.
  - apply StronglySorted_merge_sort; [intros ???; unfold part_less; lia|intros ??; unfold part_less; lia].
  - apply (strongly_numbered 0). intros k p Hk. by rewrite (Hno _ _ Hk).
  - by rewrite merge_sort_Permutation.
Qed.

(** ** The group of the file *)

(** A path whose segments are the directory's, such as the one [path.Split]
    gives. *)
Context (p : gostr) (Hp : path_segs p = segs).

Lemma vdir_dir i : vdir d i p = vdir d i dir.
Proof.
  unfold vdir. destruct (targets !! i) as [t|]; [|done]. unfold vpath.
  by rewrite !joinRemotePathWithBase_segs, path_segs_render, Hp by done.
Qed.

Section group.
Context (w : World) (seen : list (nat * Entry)) (gs : groups) (dirs : gmap gostr Object).
Context (G : grouped d seen (gs, dirs)) (S : scanned d w p (target_indexes d) seen).

Lemma in_indexes i : i ∈ target_indexes d ↔ (i < length targets)%nat.
Proof. unfold target_indexes. rewrite elem_of_seq. lia. Qed.

Lemma seen_file i e : (i, e) ∈ seen → e_IsDir e = false →
  (i < length targets)%nat ∧ ∃ c, stored w i (e_Name e) = Some c ∧ e_Size e = zlen c.
Proof.
  intros Hin Hd. split; [apply in_indexes, (sc_index _ _ _ _ _ S i e Hin)|].
  destruct (sc_file _ _ _ _ _ S i e Hin Hd) as (c & Hc & He). rewrite vdir_dir in Hc. eauto.
Qed.

Lemma file_seen i f c : (i < length targets)%nat → stored w i f = Some c →
  ∃ e, (i, e) ∈ seen ∧ e_Name e = f ∧ e_IsDir e = false.
Proof.
  intros Hi Hc. unfold stored in Hc. rewrite <- vdir_dir in Hc.
  apply (sc_all _ _ _ _ _ S i f c); [by apply in_indexes|done].
Qed.

Lemma base_found c : stored w 0 n = Some c → ∃ e, base_of gs n = Some (e, 0%nat) ∧ e_Size e = zlen c.
Proof.
  intros Hc. destruct (file_seen 0 n c) as (e0 & Hin & En & Hd); [apply targets_pos|done|].
  assert (Hb : is_base d e0 n) by (split; [done|]; split; [done|apply FO]).
  destruct (gr_base_min _ _ _ G n e0 0%nat Hin Hb) as (e & j & E & Hj). cbn [fst] in E.
  assert (j = 0%nat) as -> by lia.
  destruct (gr_base _ _ _ G n e 0%nat E) as [Hin' (Hd' & En' & _)].
  destruct (seen_file 0 e Hin' Hd') as (_ & c' & Hc' & He). rewrite En', Hc in Hc'. simplify_eq. eauto.
Qed.

Definition chunk_part (x : gostr) (k : nat) (c : gostr) : chunkPart :=
  {| p_No := Z.of_nat k; p_Size := zlen c; p_XactID := x; p_RemoteIndex := chunkTargetIndex d (Z.of_nat k) |}.

Lemma parts_found x cs :
  xact_ok x = true → chunks_at w x cs → numbered (parts_of gs n x) (imap (chunk_part x) cs).
Proof.
  intros Hx [Hcount Hparts Honly].
  assert (Hfw : ∀ no q, parts_of gs n x !! no = Some q →
    ∃ k, no = Z.of_nat k ∧ imap (chunk_part x) cs !! k = Some q).
  { intros no q Hq. destruct (gr_part _ _ _ G n x no q Hq) as (e & Hin & (Hd & Hpe & Hn & H0) & Eq).
    destruct (seen_file _ e Hin Hd) as (Hi & c & Hc & He).
    destruct (Honly _ _ _ Hi (mk_is_Some _ _ Hc) Hpe H0) as (k & -> & Hk & Ei & Ef).
    exists k. split; [done|]. destruct (lookup_lt_is_Some_2 cs k Hk) as [ck Hck].
    rewrite list_lookup_imap, Hck. simpl. f_equal.
    pose proof (Hparts k ck Hck) as Hst. rewrite <- Ei, <- Ef, Hc in Hst. injection Hst as ->.
    rewrite Eq. unfold part_for, chunk_part. by rewrite He, <- Ei. }
  intros no q. split; [apply Hfw|]. intros (k & -> & Hk).
  rewrite list_lookup_imap in Hk. destruct (cs !! k) as [c|] eqn:Hck; [|done].
  assert (Hlt : chunk_no k) by (apply lookup_lt_Some in Hck; unfold chunk_no; lia).
  destruct (file_seen _ _ _ (chunkTargetIndex_lt _) (Hparts k c Hck)) as (e & Hin & En & Hd).
  assert (Hpart : is_part d e n (Z.of_nat k) x).
  { unfold is_part. rewrite En, (parse_chunk_name pattern) by done.
    destruct FO as [(? & _) _ _]. split_ands; [done..|lia]. }
  destruct (gr_part_min _ _ _ G _ _ _ _ _ Hin Hpart) as (q' & Hq' & _). cbn [fst] in Hq'. rewrite Hq'.
  destruct (Hfw _ _ Hq') as (k' & Ek & Hk'). assert (k' = k) as -> by lia.
  rewrite list_lookup_imap, Hck in Hk'. congruence.
Qed.

Lemma group_found e : base_of gs n = Some e → ∃ g, gs !! n = Some g ∧ g_base g = Some e ∧
  ∀ x, default ∅ (g_partsByXact g !! x) = parts_of gs n x.
Proof.
  unfold base_of, parts_of. destruct (gs !! n) as [g|]; [|done]. simpl. eauto.
Qed.

Lemma index_ok m g : gs !! m = Some g → base_index_ok g.
Proof.
  intros Hg e i Hb. destruct (gr_base _ _ _ G m e i) as [Hin _].
  { unfold base_of. cbn [fst]. by rewrite Hg. }
  by apply in_indexes, (sc_index _ _ _ _ _ S i e).
Qed.

(** The objects the layouts are listed as. *)
Definition chunked_obj (x : gostr) (cs : list gostr) (o : ChunkObject) : Prop :=
  o_Name (c_Object o) = n ∧ o_Path (c_Object o) = path ∧ o_Size (c_Object o) = zlen (concat cs) ∧
  o_IsFolder (c_Object o) = false ∧ c_Chunked o = true ∧ c_Parts o = imap (chunk_part x) cs.
Definition plain_obj (c : gostr) (o : ChunkObject) : Prop :=
  o_Name (c_Object o) = n ∧ o_Path (c_Object o) = path ∧ o_Size (c_Object o) = zlen c ∧
  o_IsFolder (c_Object o) = false ∧ c_Chunked o = false ∧ c_MainRemoteIndex o = 0%nat.

Context (Hpn : path_join p n = path).

Lemma runs_build_chunked x cs md meta g w1 :
  same_view w w1 → gs !! n = Some g → xact_ok x = true → cs ≠ [] → chunks_at w x cs →
  stored w 0 n = Some md → zlen md ≤ maxMetadataSizeRead → unmarshalMetadata md = inr meta →
  m_Size meta = zlen (concat cs) → m_XactID meta = x →
  runs (buildListedObject d p n g) w1 (λ r w', same_view w w' ∧ ∃ o, r = Some o ∧ chunked_obj x cs o).
Proof.
  intros V Hg Hx Hne Hcs Hmd Hlen Hun Hsz Hmx.
  destruct (base_found md Hmd) as (e & Hb & He).
  destruct (group_found (e, 0%nat) Hb) as (g' & Hg' & Hgb & Hparts). rewrite Hg in Hg'. injection Hg' as <-.
  pose proof (parts_found x cs Hx Hcs) as Hnum.
  assert (Hsort : sortChunkParts (parts_of gs n x) = imap (chunk_part x) cs).
  { apply sort_numbered; [done|]. intros k q. rewrite list_lookup_imap. destruct (cs !! k); [|done].
    simpl. intros. by simplify_eq. }
  assert (Hfull : g_partsByXact g ≠ ∅).
  { destruct cs as [|c0 cs']; [done|]. intros E.
    assert (Hq : parts_of gs n x !! 0 = Some (chunk_part x 0 c0)) by (apply Hnum; by exists 0%nat).
    rewrite <- Hparts, E, lookup_empty in Hq. simpl in Hq. by rewrite lookup_empty in Hq. }
  destruct (target_lt d 0 targets_pos) as [t0 Ht0].
  unfold buildListedObject. rewrite Hgb. apply runs_bind.
  rewrite He. zcmp. rewrite bool_decide_eq_true_2 by done. cbn [andb].
  eapply (runs_mono _ _ (λ m w', m = Some meta ∧ same_view w1 w')).
  { apply runs_bind, runs_try. rewrite Hpn.
    eapply ends_mono; [by eapply (runs_readMetadata path 0 t0 md meta); [done|rewrite (stored_view w)|..]|].
    intros [?|m] w2 H; [done|]. destruct H as [-> V2]. by apply runs_ret. }
  intros m w2 [-> V2]. rewrite Hmx, Hparts, Hsort.
  destruct cs as [|c0 cs']; [done|]. cbn [imap].
  apply runs_ret. split; [by repeat (etrans; [eassumption|])|].
  eexists. split; [done|]. unfold chunked_obj. by rewrite Hpn, Hsz.
Qed.

Lemma runs_build_plain c g w1 :
  same_view w w1 → gs !! n = Some g → plain_at w c →
  runs (buildListedObject d p n g) w1 (λ r w', same_view w w' ∧ ∃ o, r = Some o ∧ plain_obj c o).
Proof.
  intros V Hg [Hc Hsz Hmeta Hsub].
  destruct (base_found c Hc) as (e & Hb & He).
  destruct (group_found (e, 0%nat) Hb) as (g' & Hg' & Hgb & Hparts). rewrite Hg in Hg'. injection Hg' as <-.
  destruct (target_lt d 0 targets_pos) as [t0 Ht0].
  unfold buildListedObject. rewrite Hgb. apply runs_bind.
  eapply (runs_mono _ _ (λ m w', m = None ∧ same_view w1 w')).
  - destruct ((e_Size e <=? maxMetadataSizeRead) && bool_decide (g_partsByXact g ≠ ∅)) eqn:Hread;
      [|by apply runs_ret]. reflect_bools.
    destruct Hmeta as [Hmeta|Hmeta].
    + apply runs_bind, runs_try. rewrite Hpn, He. unfold readMetadata.
      apply ends_run_bind. eapply (runs_actual pattern d DK); [done|]. intros a w2 V2 Ha.
      apply ends_run_bind. eapply runs_storage; [done|].
      apply ends_run_bind. eapply (runs_link path); [done|apply FO| |done|done|].
      { by rewrite (stored_view w1), (stored_view w). }
      intros l e' w3 V3 He' Hl.
      apply ends_run_bind. eapply runs_query.
      { apply openPartRange_seekable; [|lia]. rewrite He'. apply Hl; [|lia..].
        by rewrite (stored_view w2), (stored_view w1), (stored_view w). }
      rewrite section_all. apply ends_query. apply runs_ret.
      destruct (unmarshalMetadata c) as [?|m] eqn:Hm; [|by destruct (Hmeta m)].
      split; [done|]. by etrans.
    + exfalso. match goal with H : _ ≠ ∅ |- _ => apply H end. apply map_empty. intros x.
      destruct (g_partsByXact g !! x) as [M|] eqn:HM; [|done].
      destruct (gr_full _ _ _ G n g x M Hg HM) as (no & q & Hq).
      assert (Hq' : parts_of gs n x !! no = Some q) by (by rewrite <- Hparts, HM).
      destruct (gr_part _ _ _ G n x no q Hq') as (e' & Hin & (Hd & Hpe & _) & _).
      destruct (seen_file _ e' Hin Hd) as (Hi & c' & Hc' & _).
      destruct (Hmeta _ _ Hi (mk_is_Some _ _ Hc')). by rewrite Hpe.
  - intros m w2 [-> V2]. apply runs_ret. split; [by etrans|]. eexists. split; [done|].
    unfold plain_obj. cbn. by rewrite Hpn, He.
Qed.
End group.

(** ** The listing *)

Definition named (m : gostr) (o : Obj) : Prop := GetName o = m.
#[local] Instance named_dec m o : Decision (named m o) := decide (GetName o = m).

(** The listing has one object of the name, with the property [P]. *)
Definition only_one (P : ChunkObject → Prop) (objs : list Obj) : Prop :=
  ∃ o, filter (named n) objs = [Listed o] ∧ P o.

Lemma runs_build_all w (P : ChunkObject → Prop) l :
  (∀ o, P o → o_Name (c_Object o) = n) → NoDup l.*1 → (∀ m g, (m, g) ∈ l → base_index_ok g) →
  (∀ g w1, (n, g) ∈ l → same_view w w1 →
     runs (buildListedObject d p n g) w1 (λ r w', same_view w w' ∧ ∃ o, r = Some o ∧ P o)) →
  ∀ w1, same_view w w1 →
  runs (build_all d p l) w1 (λ objs w', same_view w w' ∧
    (n ∈ l.*1 → only_one P objs) ∧ (n ∉ l.*1 → filter (named n) objs = [])).
Proof.
  intros HP. induction l as [|[m g] l IH]; intros Hnd Hix Hn w1 V; cbn [build_all].
  - apply runs_ret. split; [done|]. split; [by intros ?%elem_of_nil|done].
  - rewrite fmap_cons in Hnd. apply NoDup_cons in Hnd as [Hm Hnd]. cbn [fst] in *.
    apply runs_bind. eapply (runs_mono _ _ (λ r w2, same_view w w2 ∧
      (m ≠ n → ∀ o, r = Some o → o_Name (c_Object o) ≠ n) ∧ (m = n → ∃ o, r = Some o ∧ P o))).
    { destruct (decide (m = n)) as [->|Hne].
      - eapply runs_mono; [apply Hn; [set_solver|done]|]. intros r w2 (V2 & Ho). done.
      - eapply runs_mono; [apply runs_build, (Hix m g); set_solver|]. intros r w2 (V2 & Ho).
        split; [by etrans|]. split; [|done]. intros _ o Eo. by rewrite (Ho o Eo). }
    intros r w2 (V2 & Hne & Heq). apply runs_bind.
    eapply runs_mono; [apply (IH Hnd); [by intros; eapply Hix; right|by intros; apply Hn; [right|]|done]|].
    intros objs w3 (V3 & Hin & Hout). apply runs_ret. split; [done|]. rewrite fmap_cons. cbn [fst].
    destruct (decide (m = n)) as [->|Hmn].
    + split; [|set_solver]. intros _. destruct (Heq eq_refl) as (o & -> & Ho). exists o. split; [|done].
      rewrite filter_cons_True by (unfold named; by apply HP). by rewrite Hout.
    + assert (Ef : filter (named n) (match r with Some o => Listed o :: objs | None => objs end)
        = filter (named n) objs).
      { destruct r as [o|]; [|done]. rewrite filter_cons_False; [done|]. by apply Hne. }
      unfold only_one. rewrite Ef. split; [intros Hin'|intros Hout']; [apply Hin|apply Hout]; set_solver.
Qed.

Lemma runs_list w (P : ChunkObject → Prop) :
  (∀ o, P o → o_Name (c_Object o) = n) → is_Some (stored w 0 n) → no_subdir w →
  (∀ seen gs dirs g w1, grouped d seen (gs, dirs) → scanned d w p (target_indexes d) seen →
     gs !! n = Some g → same_view w w1 →
     runs (buildListedObject d p n g) w1 (λ r w', same_view w w' ∧ ∃ o, r = Some o ∧ P o)) →
  runs (listDirObjects d p false) w (λ objs w', same_view w w' ∧ only_one P objs).
Proof.
  intros HP [c Hc] Hsub Hbuild. unfold listDirObjects. apply runs_bind.
  eapply runs_mono; [apply (scan_targets_ok pattern d DK p false (target_indexes d) w [] (∅, ∅) false);
    [intros i; by rewrite in_indexes|apply grouped_empty]|].
  intros [[gs dirs] found] w1 (V & seen & G & S & Hf). cbn [fst snd app orb] in *.
  assert (Hfound : found = true).
  { rewrite Hf. apply existsb_exists. exists 0%nat. split; [apply list_elem_of_In, in_indexes, targets_pos|].
    destruct (is_dir w (vdir d 0 p)) eqn:E; [done|].
    destruct (list_none (vdir d 0 p) false w E) as [_ Hnone]. rewrite vdir_dir in Hnone.
    unfold stored in Hc. by rewrite Hnone in Hc. }
  rewrite Hfound. cbn [negb andb].
  apply runs_bind. eapply runs_mono.
  { apply (runs_build_all w P (map_to_list gs) HP); [apply NoDup_fst_map_to_list| | |done].
    - intros m g Hm%elem_of_map_to_list. by eapply index_ok.
    - intros g w2 Hg%elem_of_map_to_list V2. by eapply (Hbuild seen gs dirs). }
  intros objs w2 (V2 & Hin & _). apply runs_ret. split; [done|].
  destruct (base_found w seen gs dirs G S c Hc) as (e & Hb & _).
  destruct (group_found gs (e, 0%nat) Hb) as (g & Hg & _).
  destruct Hin as (o & Ho & HPo).
  { apply list_elem_of_fmap. exists (n, g). split; [done|]. by apply elem_of_map_to_list. }
  exists o. split; [|done]. rewrite filter_app, Ho.
  assert (Hd : filter (named n) (map Plain (map_to_list dirs).*2) = []); [|by rewrite Hd].
  apply filter_none. intros o' Ho'. apply list_elem_of_fmap in Ho' as (o0 & -> & Ho0).
  apply list_elem_of_fmap in Ho0 as ([m o1] & -> & Hm%elem_of_map_to_list). cbn [snd].
  destruct (gr_dirs _ _ _ G m o1 Hm) as (Hname & i & e' & Hin' & Hdir & En). unfold named, GetName. cbn [object_of].
  rewrite Hname. intros ->. pose proof (sc_dir _ _ _ _ _ S i e' Hin' Hdir) as Hs.
  rewrite vdir_dir, En, Hsub in Hs; [done|]. by eapply in_indexes, sc_index.
Qed.
End layout.

(** ** Getting and linking the file *)

Section serves.
Context {RM : Remotes} {RV : RemoteView} {RL : ReadLaws}.

(** [Get] finds a file of that size, and its link gives every range. *)
Definition serves (d : Chunker) (w : World) (pathStr c : gostr) : Prop :=
  runs (Get d pathStr) w (λ o w1, GetSize o = zlen c ∧ IsDir o = false ∧
    runs (Link d o) w1 (λ l w2, link_gives l c w2)).

Context (pattern : gostr) (d : Chunker) (DK : driver_ok pattern d) (n : gostr) (FO : file_ok d n).
Context (segs : list gostr) (Hsegs : Forall good_seg segs).

Lemma Forall_path : Forall good_seg (segs ++ [n]).
Proof. apply Forall_app_2; [done|]. constructor; [apply FO|constructor]. Qed.

Lemma runs_Get w (P : ChunkObject → Prop) (Q : Obj → World → Prop) :
  runs (listDirObjects d (dir_slash segs) false) w (λ objs w', same_view w w' ∧ only_one n P objs) →
  (∀ o w', P o → same_view w w' → Q (Listed o) w') →
  runs (Get d (render (segs ++ [n]))) w Q.
Proof.
  intros Hl HQ. unfold Get.
  assert (Hroot : PathEqual (render (segs ++ [n])) #"/" = false).
  { apply not_true_is_false. rewrite PathEqual_segs, path_segs_render by apply Forall_path.
    change (path_segs #"/") with (@nil gostr). by destruct segs. }
  rewrite Hroot, FixAndCleanPath_render by apply Forall_path.
  rewrite path_Split_render by apply FO.
  rewrite bool_decide_eq_false_2 by (by destruct segs). apply runs_bind.
  eapply runs_mono; [exact Hl|]. intros objs w' (V & o & Ho & HP).
  assert (E : filter (λ o0 : Obj, GetName o0 = n) objs = [Listed o]) by exact Ho.
  rewrite E. apply runs_ret. by apply HQ.
Qed.

Lemma runs_link_parts w x cs :
  xact_ok x = true → chunks_at d n segs w x cs →
  ∀ w1, same_view w w1 →
  runs (link_parts d (render (segs ++ [n])) (imap (chunk_part d x) cs)) w1 (λ parts w',
    same_view w w' ∧ Forall2 (λ lp c, p_Size (lp_part lp) = zlen c ∧
      ∀ w'', same_view w w'' → link_gives (lp_link lp) c w'') parts cs).
Proof.
  intros Hx Hcs.
  assert (Hgen : ∀ l b, (∀ j c, l !! j = Some c → cs !! (b + j)%nat = Some c) → ∀ w1, same_view w w1 →
    runs (link_parts d (render (segs ++ [n])) (imap (λ k, chunk_part d x (b + k)) l)) w1 (λ parts w',
      same_view w w' ∧ Forall2 (λ lp c, p_Size (lp_part lp) = zlen c ∧
        ∀ w'', same_view w w'' → link_gives (lp_link lp) c w'') parts l)).
  { induction l as [|c l IH]; intros b Hl w1 V; cbn [imap link_parts].
    - apply runs_ret. split; [done|constructor].
    - assert (Hb : cs !! b = Some c) by (rewrite <- (Nat.add_0_r b); by apply Hl).
      assert (Hk : chunk_no b).
      { apply lookup_lt_Some in Hb. pose proof (ch_count _ _ _ _ _ _ Hcs). unfold chunk_no. lia. }
      destruct (target_lt d (chunkTargetIndex d (Z.of_nat b))) as [t Ht]; [by eapply chunkTargetIndex_lt|].
      cbv beta. rewrite Nat.add_0_r.
      cbn [p_No p_XactID p_RemoteIndex chunk_part].
      apply runs_bind, runs_wrap. unfold getActualChunkPath.
      rewrite (chunk_name_in_dir pattern) by done.
      eapply (runs_actual pattern d DK); [done|]. intros a w2 V2 Ha.
      apply runs_bind. eapply runs_storage; [done|].
      apply runs_bind. eapply (runs_link d segs Hsegs); [done|by eapply chunk_name_good| |done|done|].
      { rewrite (stored_view _ _ w1), (stored_view _ _ w) by done. by eapply ch_parts. }
      intros lk e w3 V3 He Hlk.
      rewrite (imap_ext _ (λ k, chunk_part d x (S b + k))) by (intros j c' _; unfold compose; by replace (b + S j)%nat with (S b + j)%nat by lia).
      apply runs_bind. eapply runs_mono.
      { apply (IH (S b)); [|by repeat (etrans; [eassumption|])].
        intros j c' Hj. replace (S b + j)%nat with (b + S j)%nat by lia. by apply Hl. }
      intros parts w4 (V4 & Hf). apply runs_ret. split; [done|]. constructor; [|done].
      split; [done|]. intros w'' V''. apply Hlk. rewrite (stored_view _ _ w) by done. by eapply ch_parts. }
  intros w1 V. apply (Hgen cs 0%nat); [done|done].
Qed.

Lemma chunked_serves w x c : chunked_at d n segs w x c → serves d w (render (segs ++ [n])) c.
Proof.
  intros [Hx Hsz (md & meta & Hmd & Hlen & Hun & Hms & Hmx) (cs & <- & Hne & Hcs) Hsub].
  pose proof (path_segs_dir_slash segs Hsegs) as Hp.
  pose proof (path_join_dir_slash segs n Hsegs (fo_seg _ _ FO)) as Hj.
  eapply runs_Get.
  { eapply (runs_list pattern d DK n FO segs Hsegs _ Hp w (chunked_obj d n segs x cs)); [by intros o (? & _)|eauto|done|].
    intros seen gs dirs g w1 G S Hg V. by eapply runs_build_chunked. }
  intros o w1 (_ & Hpath & Hsize & Hdir & Hch & Hparts) V. split; [done|]. split; [done|].
  unfold Link, chunked_object. cbn [linkedObject]. rewrite Hch, Hpath, Hparts.
  apply runs_bind. eapply runs_mono; [by eapply runs_link_parts|].
  intros parts w2 (V2 & Hf). apply runs_ret. intros off len Ho Hl Hsum.
  unfold openPartRange. cbn [l_MFile l_RangeReadCloser]. rewrite Hsize.
  rewrite (openChunkReader_reads w2 parts cs); cbn [Start Length]; [|..|done|unfold_int64; lia|unfold_int64; lia].
  - zcmp. cbn [orb andb]. done.
  - eapply Forall2_impl; [exact Hf|]. intros lp c [Hs Hg]. split; [done|]. by apply Hg.
Qed.

Lemma plain_serves w c : plain_at d n segs w c → serves d w (render (segs ++ [n])) c.
Proof.
  intros Hpl. pose proof Hpl as [Hc Hsz _ Hsub].
  pose proof (path_segs_dir_slash segs Hsegs) as Hp.
  pose proof (path_join_dir_slash segs n Hsegs (fo_seg _ _ FO)) as Hj.
  eapply runs_Get.
  { eapply (runs_list pattern d DK n FO segs Hsegs _ Hp w (plain_obj n segs c)); [by intros o (? & _)|eauto|done|].
    intros seen gs dirs g w1 G S Hg V. by eapply runs_build_plain. }
  intros o w1 (_ & Hpath & Hsize & Hdir & Hch & Hix) V. split; [done|]. split; [done|].
  destruct (target_lt d 0) as [t Ht]; [by eapply targets_pos|].
  unfold Link, chunked_object. cbn [linkedObject]. rewrite Hch. cbn [main_index]. rewrite Hix.
  unfold GetPath. cbn [object_of]. rewrite Hpath.
  apply runs_bind, runs_wrap. eapply (runs_actual pattern d DK); [done|]. intros a w2 V2 Ha.
  apply runs_bind. eapply runs_storage; [done|].
  apply runs_bind. eapply (runs_link d segs Hsegs (render (segs ++ [n])) 0 t n c); [done|apply FO| |done|done|].
  { by rewrite (stored_view _ _ w1), (stored_view _ _ w). }
  intros l e w3 V3 He Hl. apply runs_ret. apply Hl.
  by rewrite (stored_view _ _ w2), (stored_view _ _ w1), (stored_view _ _ w).
Qed.
End serves.
