(* ===== verification/ChunkerPut.v ===== *)
(** * Uploading through the chunker

    What a remote promises about its writes ([WriteLaws]; they may fail), and
    what [Put] makes of it: after an upload that succeeds the file reads as
    the new content, after one that fails before the metadata object is
    replaced it reads as before, and no other file is touched. *)

From S2P Require Import Prelude GoStrings Errs Store Paths HttpRange Json Crypto ChunkerNames ChunkerNamesThms Chunker ChunkerRead ChunkerServe.

Local Open Scope Z_scope.

(** ** What a remote promises about writes *)

(** A write of a directory touches at most the named file: an upload leaves
    there what it was given when it succeeds, and may leave anything when it
    fails; a removal leaves the file or nothing.  Making a directory makes it
    and those above it. *)
Class WriteLaws {RM : Remotes} {RV : RemoteView} : Prop := {
  put_file : ∀ st a u w r k w', op_Put st a u w = (r, k, w') →
    is_dir w (locate st a) = true → has_sub w (locate st a) (u_Name u) = false →
    good_seg (u_Name u) → u_Size u = zlen (u_Reader u) →
    (∀ v f, (v, f) ≠ (locate st a, u_Name u) → look w' v f = look w v f) ∧
    (∀ v, is_dir w' v = is_dir w v) ∧ (∀ v f, has_sub w' v f = has_sub w v f) ∧
    (r = inr () → look w' (locate st a) (u_Name u) = Some (u_Reader u) ∧ (length (u_Reader u) ≤ k)%nat);
  remove_file : ∀ st a w r w', op_Remove st a w = (r, w') →
    has_sub w (path_Dir (locate st a)) (path_Base (locate st a)) = false →
    (∀ v f, look w' v f = look w v f ∨ v = path_Dir (locate st a) ∧ f = path_Base (locate st a) ∧ look w' v f = None) ∧
    (∀ v, is_dir w' v = is_dir w v) ∧ (∀ v f, has_sub w' v f = has_sub w v f);
  make_dir : ∀ p w r w', fs_MakeDir p w = (r, w') →
    (∀ v f, look w' v f = look w v f) ∧ (∀ v, is_dir w v = true → is_dir w' v = true) ∧
    (∀ v f, has_sub w' v f = has_sub w v f ∨ (path_segs v ++ [f]) `prefix_of` path_segs p) ∧
    (r = inr () → is_dir w' (FixAndCleanPath p) = true);
}.

(** A remote whose writes do not fail: uploads into a directory that is there,
    removals, and directories made below one that is there. *)
Record reliable {RM : Remotes} {RV : RemoteView} : Prop := {
  rel_put : ∀ st a u w, is_dir w (locate st a) = true → has_sub w (locate st a) (u_Name u) = false →
    good_seg (u_Name u) → u_Size u = zlen (u_Reader u) → (op_Put st a u w).1.1 = inr ();
  rel_remove : ∀ st a w, (op_Remove st a w).1 = inr ();
  rel_mkdir : ∀ l k w, Forall good_seg (l ++ k) → is_dir w (render l) = true →
    (fs_MakeDir (render (l ++ k)) w).1 = inr ();
}.

(** A transaction made from the time is one the names can carry. *)
Lemma new_xactID_ok now : 0 ≤ now → xact_ok (new_xactID now) = true ∧ new_xactID now ≠ [].
Proof.
  intros Hn. unfold new_xactID. pose proof (digits36_chars (S (Z.to_nat (Z.log2 now))) now Hn) as Hall.
  fold (FormatInt36 now) in Hall.
  set (y := if (9 <? length (FormatInt36 now))%nat then drop (length (FormatInt36 now) - 9) (FormatInt36 now)
            else FormatInt36 now).
  assert (Hy : all_of is_lower_digit y ∧ (length y ≤ 9)%nat).
  { unfold y. destruct (9 <? length (FormatInt36 now))%nat eqn:E.
    - split; [by apply Forall_drop|]. rewrite length_drop. apply Nat.ltb_lt in E. lia.
    - apply Nat.ltb_ge in E. done. }
  destruct Hy as [Hya Hyl].
  assert (Hz : ∀ z, all_of is_lower_digit z → (4 ≤ length z ≤ 9)%nat → xact_ok z = true ∧ z ≠ []).
  { intros z Hz Hl. split; [|by intros ->; simpl in Hl; lia]. unfold xact_ok. apply orb_true_iff. right.
    rewrite !andb_true_iff. split_ands; [by apply Nat.leb_le; lia|by apply Nat.leb_le; lia|].
    clear Hl. induction Hz as [|c z Hc Hz IH]; [done|]. simpl. by rewrite Hc. }
  destruct (length y <? 4)%nat eqn:E; [apply Nat.ltb_lt in E|apply Nat.ltb_ge in E].
  - apply Hz.
    + unfold zero_pad. apply Forall_app_2; [|done]. apply Forall_forall. by intros c [-> _]%elem_of_replicate.
    + unfold zero_pad. rewrite length_app, length_replicate. lia.
  - apply Hz; [done|lia].
Qed.

Section put.
Context {RM : Remotes} {RV : RemoteView} {RL : ReadLaws} {WL : WriteLaws}.
Context (pattern : gostr) (d : Chunker) (DK : driver_ok pattern d) (n : gostr) (FO : file_ok d n).
Context (segs : list gostr) (Hsegs : Forall good_seg segs).
Context (p : gostr) (Hp : path_segs p = segs).

Abbreviation targets := (remoteTargets d).
Abbreviation dir := (render segs).
Abbreviation path := (render (segs ++ [n])).
Abbreviation chunk := (chunk_name d n).
Abbreviation vd i := (vdir d i dir).

Lemma vd_segs i t : targets !! i = Some t → vd i = render (path_segs (MountPath t) ++ segs).
Proof.
  intros Ht. rewrite (vdir_target d i t) by done. unfold vpath.
  by rewrite joinRemotePathWithBase_segs, path_segs_render.
Qed.

Lemma vd_path_segs i t : targets !! i = Some t → path_segs (vd i) = path_segs (MountPath t) ++ segs.
Proof.
  intros Ht. rewrite (vd_segs i t Ht). apply path_segs_render.
  apply Forall_app_2; [apply path_segs_good|done].
Qed.

(** Directories of different targets are not above one another. *)
Lemma vd_apart i j t u l : targets !! i = Some t → targets !! j = Some u →
  (path_segs (vd i) ++ l) `prefix_of` path_segs (vd j) → i = j ∧ l = [].
Proof.
  intros Ht Hu Hpre. rewrite (vd_path_segs i t Ht), (vd_path_segs j u Hu) in Hpre.
  assert (i = j) as ->.
  { destruct (decide (i = j)) as [|Hne]; [done|]. exfalso.
    assert (H1 : path_segs (MountPath t) `prefix_of` path_segs (MountPath u) ++ segs).
    { etrans; [|exact Hpre]. rewrite <- app_assoc. by apply prefix_app_r. }
    destruct (prefix_weak_total (path_segs (MountPath t)) (path_segs (MountPath u)) (path_segs (MountPath u) ++ segs))
      as [H|H]; [done|by apply prefix_app_r| |].
    - by apply (dk_apart _ _ DK i j t u).
    - by apply (dk_apart _ _ DK j i u t). }
  split; [done|]. rewrite Ht in Hu. simplify_eq. apply prefix_length in Hpre.
  rewrite !length_app in Hpre. destruct l; [done|simpl in Hpre; lia].
Qed.

Lemma vd_inj i j : (i < length targets)%nat → (j < length targets)%nat → vd i = vd j → i = j.
Proof.
  intros Hi Hj E. destruct (target_lt d i Hi) as [t Ht], (target_lt d j Hj) as [u Hu].
  apply (vd_apart i j t u []); [done|done|]. by rewrite app_nil_r, E.
Qed.

Lemma vdir_p i : vdir d i p = vd i.
Proof. by apply (vdir_dir d segs Hsegs p Hp). Qed.

(** ** Changes between two worlds *)

(** Only files in [S] differ, directories stay, and no sub-directory appears
    in the directory on a target. *)
Record changes (S : gostr → gostr → Prop) (w w' : World) : Prop := {
  cg_look : ∀ v f, ¬ S v f → look w' v f = look w v f;
  cg_dir : ∀ v, is_dir w v = true → is_dir w' v = true;
  cg_sub : ∀ i f, (i < length targets)%nat → has_sub w' (vd i) f = has_sub w (vd i) f;
}.

Definition nothing (v f : gostr) : Prop := False.

Lemma changes_trans S w w' w'' : changes S w w' → changes S w' w'' → changes S w w''.
Proof.
  intros [L1 D1 B1] [L2 D2 B2]. split.
  - intros v f H. by rewrite L2, L1.
  - auto.
  - intros i f H. by rewrite B2, B1.
Qed.

Lemma changes_mono (S T : gostr → gostr → Prop) w w' : (∀ v f, S v f → T v f) → changes S w w' → changes T w w'.
Proof. intros HST [L D B]. split; [|done..]. intros v f H. apply L. auto. Qed.

Lemma changes_view S w w' : same_view w w' → changes S w w'.
Proof. intros (L & D & B). split; [done| |done]. intros v. by rewrite D. Qed.

Lemma changes_refl S w : changes S w w.
Proof. by split. Qed.

(** *** The steps of [Put] *)

Lemma ends_ensure i w :
  (i < length targets)%nat → is_dir w (vdir d i #"/") = true →
  ends (ensureDirOnTarget d i p) w (λ r w', changes nothing w w' ∧
    (∀ u, r = inr u → is_dir w' (vd i) = true) ∧ (reliable → r = inr ())).
Proof.
  intros Hi Hroot. destruct (target_lt d i Hi) as [t Ht]. unfold ensureDirOnTarget.
  destruct (PathEqual (FixAndCleanPath p) #"/") eqn:E.
  - apply ends_ret. split; [apply changes_refl|]. split; [|done]. intros _ _.
    apply PathEqual_segs in E. rewrite path_segs_Fix, Hp in E. change (path_segs #"/") with (@nil gostr) in E.
    rewrite <- Hroot. f_equal. by rewrite E.
  - apply ends_run_bind. eapply runs_join; [done|]. apply ends_call.
    assert (Ev : vpath t (FixAndCleanPath p) = vd i).
    { rewrite (vd_segs i t Ht). unfold vpath. by rewrite joinRemotePathWithBase_segs, path_segs_Fix, Hp. }
    rewrite Ev. destruct (fs_MakeDir (vd i) w) as [r w'] eqn:Em. cbn [fst snd].
    destruct (make_dir _ _ _ _ Em) as (L & D & B & R). split; [split; [done..|]|split].
    + intros j f Hj. destruct (target_lt d j Hj) as [u Hu]. destruct (B (vd j) f) as [|Hpre]; [done|].
      by apply (vd_apart j i u t [f] Hu Ht) in Hpre as [_ ?].
    + intros u ->. destruct u. rewrite <- R by done. f_equal.
      rewrite (vd_segs i t Ht). symmetry. apply FixAndCleanPath_render. apply Forall_app_2; [apply path_segs_good|done].
    + intros HR. rewrite (vd_segs i t Ht) in Em.
      assert (H : (fs_MakeDir (render (path_segs (MountPath t) ++ segs)) w).1 = inr ()); [|by rewrite Em in H].
      apply (rel_mkdir HR); [apply Forall_app_2; [apply path_segs_good|done]|].
      rewrite <- Hroot. f_equal. rewrite (vdir_target d i t) by done. unfold vpath.
      rewrite joinRemotePathWithBase_segs. change (path_segs #"/") with (@nil gostr). by rewrite app_nil_r.
Qed.

Lemma ends_put_remote i t a u w :
  targets !! i = Some t → locate (Storage t) a = vd i → is_dir w (vd i) = true →
  has_sub w (vd i) (u_Name u) = false → good_seg (u_Name u) → u_Size u = zlen (u_Reader u) →
  ends (put_remote d i a u) w (λ r w', changes (λ v f, v = vd i ∧ f = u_Name u) w w' ∧
    (∀ k, r = inr k → look w' (vd i) (u_Name u) = Some (u_Reader u) ∧ (length (u_Reader u) ≤ k)%nat) ∧
    (reliable → ∃ k, r = inr k)).
Proof.
  intros Ht Ha Hd Hs Hn Hsz. unfold put_remote. apply ends_run_bind. eapply runs_storage; [done|].
  destruct (op_Put (Storage t) a u w) as [[r k] w'] eqn:Ep.
  rewrite <- Ha in Hd, Hs. destruct (put_file _ _ _ _ _ _ _ Ep Hd Hs Hn Hsz) as (L & D & B & R).
  rewrite Ha in L, R.
  assert (C : changes (λ v f, v = vd i ∧ f = u_Name u) w w').
  { split.
    - intros v f H. apply L. intros E. apply H. by injection E.
    - intros v. by rewrite D.
    - intros. apply B. }
  assert (HR : reliable → r = inr ()).
  { intros HR. pose proof (rel_put HR _ _ _ _ Hd Hs Hn Hsz) as H. by rewrite Ep in H. }
  unfold ends. rewrite Ep. destruct r as [e|[]].
  - exists (inl e), w'. split; [done|]. split; [done|]. split; [done|]. intros H%HR. done.
  - exists (inr k), w'. split; [done|]. split; [done|]. split; [|eauto]. intros k' E. simplify_eq. by apply R.
Qed.

(** ** The loop *)

Context (x : gostr) (Hx : xact_ok x = true).
Context (s : streamer) (Hsize : s_Size s = zlen (s_Content s)).
Context (Hbound : s_Size s ≤ ChunkSize (d_Addition d) * maxSafeChunkNumber).
Context (Hmeta : MetaFormat (d_Addition d) = #"simplejson").

(** The chunks of this upload. *)
Definition new_chunk (k : nat) (v f : gostr) : Prop :=
  ∃ j, (j < k)%nat ∧ chunk_no j ∧ v = vd (chunkTargetIndex d (Z.of_nat j)) ∧ f = chunk j x.

Definition chunk_loc (j : nat) : objectLocation :=
  targetLocation (render (segs ++ [chunk j x])) (chunkTargetIndex d (Z.of_nat j)).

Definition roots (w : World) : Prop := ∀ i, (i < length targets)%nat → is_dir w (vdir d i #"/") = true.

(** No sub-directory has the name of the file or of a chunk of it. *)
Definition files_only (w : World) : Prop := ∀ i f, (i < length targets)%nat →
  f = n ∨ (parseChunkName (nf d) f).1.1.1 = n → has_sub w (vd i) f = false.

Record put_inv (w0 w : World) (st : put_state) (cs : list gostr) : Prop := {
  pi_count : ps_count st = Z.of_nat (length cs);
  pi_remaining : ps_remaining st = zlen (ps_input st);
  pi_split : concat cs ++ ps_input st = s_Content s;
  pi_hashed : ps_hashed st = concat cs;
  pi_full : 0 < ps_remaining st → zlen (concat cs) = ChunkSize (d_Addition d) * Z.of_nat (length cs);
  pi_small : Z.of_nat (length cs) ≤ maxSafeChunkNumber;
  pi_stored : ∀ k c, cs !! k = Some c → stored d segs w (chunkTargetIndex d (Z.of_nat k)) (chunk k x) = Some c;
  pi_keep : ps_keep st = imap (λ j _, chunk_loc j) cs;
  pi_ensured : ∀ i, i ∈ ps_ensured st → is_dir w (vd i) = true;
  pi_changes : changes (new_chunk (length cs)) w0 w;
}.

Lemma chunk_part_name k : chunk_no k → chunkPartBaseName d path (Z.of_nat k) x = chunk k x.
Proof.
  intros Hk. unfold chunkPartBaseName. rewrite (chunk_name_in_dir pattern) by done.
  apply path_Base_render. apply (chunk_name_good pattern d DK n FO k x Hk Hx).
Qed.

Lemma chunk_inj j k : chunk_no j → chunk_no k → chunk j x = chunk k x → j = k.
Proof.
  intros Hj Hk E. apply (f_equal (parseChunkName (nf d))) in E.
  rewrite !(parse_chunk_name pattern) in E by done. simplify_eq. lia.
Qed.

Lemma files_only_chunk w k i : files_only w → chunk_no k → (i < length targets)%nat → has_sub w (vd i) (chunk k x) = false.
Proof.
  intros Hf Hk Hi. apply Hf; [done|]. right. by rewrite (parse_chunk_name pattern).
Qed.

Lemma files_only_changes S w w' : changes S w w' → files_only w → files_only w'.
Proof. intros C Hf i f Hi H. rewrite (cg_sub _ _ _ C) by done. by apply Hf. Qed.

Lemma roots_changes S w w' : changes S w w' → roots w → roots w'.
Proof. intros C Hr i Hi. by apply (cg_dir _ _ _ C), Hr. Qed.

Lemma chunk_good_size (st : put_state) (w0 w : World) cs :
  put_inv w0 w st cs → 0 < ps_remaining st → chunk_no (length cs).
Proof.
  intros I Hr. pose proof (pi_full _ _ _ _ I Hr) as Hf. pose proof (dk_size _ _ DK).
  pose proof (pi_remaining _ _ _ _ I) as Hrem. pose proof (pi_split _ _ _ _ I) as Hs.
  apply (f_equal length) in Hs. rewrite length_app in Hs. unfold chunk_no. nia.
Qed.

Lemma new_chunk_mono j k v f : (j ≤ k)%nat → new_chunk j v f → new_chunk k v f.
Proof. intros H (i & Hi & ?). exists i. split; [lia|done]. Qed.

(** The state after one chunk. *)
Lemma put_inv_next w0 w w' st cs c len :
  put_inv w0 w st cs → 0 < ps_remaining st → len = Z.min (ps_remaining st) (ChunkSize (d_Addition d)) →
  c = take (Z.to_nat len) (ps_input st) →
  changes (λ v f, v = vd (chunkTargetIndex d (Z.of_nat (length cs))) ∧ f = chunk (length cs) x) w w' →
  stored d segs w' (chunkTargetIndex d (Z.of_nat (length cs))) (chunk (length cs) x) = Some c →
  is_dir w' (vd (chunkTargetIndex d (Z.of_nat (length cs)))) = true →
  put_inv w0 w' {| ps_remaining := ps_remaining st - len; ps_count := wrap64 (ps_count st + 1);
                   ps_input := drop (length c) (ps_input st); ps_hashed := ps_hashed st ++ c;
                   ps_keep := ps_keep st ++ [chunk_loc (length cs)];
                   ps_ensured := {[ chunkTargetIndex d (Z.of_nat (length cs)) ]} ∪ ps_ensured st |} (cs ++ [c]).
Proof.
  intros I Hr Hlen Hc C Hst Hdir. pose proof (chunk_good_size st w0 w cs I Hr) as Hk.
  pose proof (dk_size _ _ DK) as Hcs. destruct I as [I1 I2 I3 I4 I5 I6 I7 I8 I9 I10].
  assert (Hlc : zlen c = len) by (rewrite Hc, length_take; lia).
  unfold chunk_no, maxSafeChunkNumber in *.
  split; cbn [ps_count ps_remaining ps_input ps_hashed ps_keep ps_ensured]; rewrite ?concat_app, ?length_app; cbn [concat length].
  - rewrite wrap64_id by (unfold_int64; lia). lia.
  - rewrite length_drop. lia.
  - rewrite app_nil_r, <- app_assoc, <- I3. f_equal. assert (length c = Z.to_nat len) as -> by lia.
    rewrite Hc. apply take_drop.
  - rewrite app_nil_r. by rewrite I4.
  - intros H. rewrite app_nil_r. rewrite !Nat2Z.inj_add, I5 by lia. lia.
  - unfold maxSafeChunkNumber. lia.
  - intros k e Hke. apply lookup_app_Some in Hke as [Hke|[Hge Hke]].
    + rewrite <- (I7 k e Hke). unfold stored. apply (cg_look _ _ _ C). intros [_ E].
      assert (Hlt : (k < length cs)%nat) by (by eapply lookup_lt_Some).
      apply chunk_inj in E; unfold chunk_no, maxSafeChunkNumber; lia.
    + destruct (k - length cs)%nat as [|?] eqn:E; [|done]. simpl in Hke. injection Hke as <-.
      by replace k with (length cs) by lia.
  - rewrite imap_app, I8. cbn [imap]. by rewrite Nat.add_0_r.
  - intros i [->%elem_of_singleton|Hi]%elem_of_union; [done|]. by apply (cg_dir _ _ _ C), I9.
  - eapply changes_trans.
    + eapply changes_mono; [|exact I10]. intros v f. apply new_chunk_mono. lia.
    + eapply changes_mono; [|exact C]. intros v f [-> ->]. exists (length cs).
      unfold chunk_no, maxSafeChunkNumber. split; [lia|]. done.
Qed.

Lemma ends_put_chunk w0 w st cs :
  roots w0 → files_only w0 → put_inv w0 w st cs → 0 < ps_remaining st →
  ends (put_chunk d p path x s st) w (λ r w', changes (new_chunk (S (length cs))) w0 w' ∧
    (∀ st', r = inr st' → ∃ c, put_inv w0 w' st' (cs ++ [c]) ∧
       ps_remaining st' = ps_remaining st - Z.min (ps_remaining st) (ChunkSize (d_Addition d))) ∧
    (reliable → ∃ st', r = inr st')).
Proof.
  intros Hroots Hfo I Hr. pose proof (chunk_good_size st w0 w cs I Hr) as Hk.
  assert (Hbad : changes (new_chunk (S (length cs))) w0 w).
  { eapply changes_mono; [|exact (pi_changes _ _ _ _ I)]. intros v f. apply new_chunk_mono. lia. }
  unfold put_chunk. rewrite (pi_count _ _ _ _ I). set (k := length cs) in *. set (idx := chunkTargetIndex d (Z.of_nat k)).
  assert (Hidx : (idx < length targets)%nat) by (by eapply chunkTargetIndex_lt).
  destruct (target_lt d idx Hidx) as [t Ht].
  apply ends_bind. eapply (ends_mono _ _ (λ r w1, changes nothing w w1 ∧ (∀ u, r = inr u → is_dir w1 (vd idx) = true) ∧
    (reliable → r = inr ()))).
  { case_bool_decide as He.
    - apply ends_ret. split; [apply changes_refl|]. split; [|done]. intros _ _. by apply (pi_ensured _ _ _ _ I).
    - apply ends_ensure; [done|]. by eapply roots_changes, Hidx. }
  intros r1 w1 (C1 & D1 & R1).
  assert (C1' : changes (new_chunk (S k)) w0 w1).
  { eapply changes_trans; [exact Hbad|]. eapply changes_mono; [|exact C1]. done. }
  destruct r1 as [e|u1]; [split; [done|]; split; [done|]; intros H%R1; done|]. specialize (D1 u1 eq_refl).
  apply ends_run_bind. eapply (runs_actual pattern d DK); [done|]. intros a w2 V2 Ha.
  rewrite Hmeta. unfold xactIDIfNeeded. rewrite bool_decide_eq_true_2 by done.
  rewrite chunk_part_name, (chunk_name_in_dir pattern) by done.
  pose proof (pi_remaining _ _ _ _ I) as Hrem. pose proof (dk_size _ _ DK) as Hcs.
  set (len := Z.min (ps_remaining st) (ChunkSize (d_Addition d))). set (c := take (Z.to_nat len) (ps_input st)).
  apply ends_bind. eapply ends_mono.
  { eapply (ends_put_remote idx t a); cbn [u_Name u_Size u_Reader]; [done| | | | |].
    - rewrite Ha, <- (vdir_target d idx t p) by done. apply vdir_p.
    - destruct V2 as (_ & V2 & _). by rewrite V2.
    - destruct V2 as (_ & _ & V2). rewrite V2, (cg_sub _ _ _ C1') by done. by apply files_only_chunk.
    - by eapply chunk_name_good.
    - unfold c. rewrite length_take. lia. }
  cbn [u_Name u_Size u_Reader]. fold c. intros r w3 (C3 & D3 & R3).
  assert (C3' : changes (new_chunk (S k)) w0 w3).
  { eapply changes_trans; [exact C1'|]. eapply changes_trans; [by apply changes_view|].
    eapply changes_mono; [|exact C3]. intros v f [-> ->]. exists k. split; [lia|done]. }
  destruct r as [e|m]; [split; [done|]; split; [done|]; by intros (? & ?)%R3|].
  apply ends_ret. split; [done|]. split; [|eauto]. intros st' E. injection E as <-.
  destruct (D3 m eq_refl) as [Hst Hm]. exists c. rewrite (take_ge c) by done.
  split; [|done].
  replace (wrap64 (Z.of_nat k + 1)) with (wrap64 (ps_count st + 1)) by (by rewrite (pi_count _ _ _ _ I)).
  eapply (put_inv_next w0 w); try done.
  - eapply changes_trans; [eapply changes_mono; [|exact C1]; done|].
    eapply changes_trans; [by apply changes_view|]. done.
  - apply (cg_dir _ _ _ C3). destruct V2 as (_ & V2 & _). by rewrite V2.
Qed.

Lemma ends_put_chunks fuel w0 w st cs :
  roots w0 → files_only w0 → put_inv w0 w st cs →
  ps_remaining st ≤ ChunkSize (d_Addition d) * Z.of_nat fuel →
  ends (put_chunks d fuel p path x s st) w (λ r w',
    (∃ k, changes (new_chunk k) w0 w') ∧
    (∀ st', r = inr st' → ∃ cs', put_inv w0 w' st' cs' ∧ ps_remaining st' = 0 ∧ (length cs ≤ length cs')%nat ∧
       (0 < ps_remaining st → cs' ≠ [])) ∧
    (reliable → ∃ st', r = inr st')).
Proof.
  intros Hroots Hfo. revert w st cs. induction fuel as [|fuel IH]; intros w st cs I Hfuel; cbn [put_chunks].
  - pose proof (pi_remaining _ _ _ _ I). zcmp. apply ends_ret. split; [eexists; apply (pi_changes _ _ _ _ I)|].
    split; [|eauto]. intros st' E. injection E as <-. exists cs. split; [done|]. split; [lia|]. split; [done|lia].
  - destruct (ps_remaining st <=? 0) eqn:E; reflect_bools.
    + pose proof (pi_remaining _ _ _ _ I). apply ends_ret. split; [eexists; apply (pi_changes _ _ _ _ I)|].
      split; [|eauto]. intros st' E'. injection E' as <-. exists cs. split; [done|]. split; [lia|]. split; [done|lia].
    + apply ends_bind. eapply ends_mono; [by apply (ends_put_chunk w0 w st cs)|].
      intros [e|st1] w1 (C1 & D1 & R1); [split; [eauto|]; split; [done|]; by intros (? & ?)%R1|].
      destruct (D1 st1 eq_refl) as (c & I1 & Hrem). pose proof (dk_size _ _ DK).
      eapply ends_mono; [apply (IH w1 st1 (cs ++ [c])); [done|lia]|].
      intros r w2 (C2 & D2 & R2). split; [done|]. split; [|done]. intros st' ->.
      destruct (D2 st' eq_refl) as (cs' & I2 & H0 & Hlen & _). rewrite length_app in Hlen. simpl in Hlen.
      exists cs'. split; [done|]. split; [done|]. split; [lia|]. intros _ ->. simpl in Hlen. lia.
Qed.

(** ** The metadata object *)

Definition new_metadata (md : gostr) : Prop :=
  zlen md ≤ maxMetadataSizeRead ∧ ∃ meta, unmarshalMetadata md = inr meta ∧ m_Size meta = s_Size s ∧ m_XactID meta = x.

Lemma ends_put_metadata w0 w st cs a t :
  targets !! 0%nat = Some t → locate (Storage t) a = vd 0 → is_dir w (vd 0) = true → files_only w →
  s_Name s = n → s_Size s ≤ max_int64 → put_inv w0 w st cs → cs ≠ [] →
  ends (put_metadata d a path x s st) w (λ r w', changes (λ v f, v = vd 0 ∧ f = n) w w' ∧
    (∀ keep, r = inr keep → keep = ps_keep st ++ [targetLocation path 0] ∧
       ∃ md, look w' (vd 0) n = Some md ∧ new_metadata md) ∧
    (reliable → ∃ keep, r = inr keep)).
Proof.
  intros Ht Ha Hd Hfo Hn Hmax I Hne. unfold put_metadata. rewrite Hmeta.
  rewrite (bool_decide_eq_true_2 (#"simplejson" = #"simplejson")) by done.
  rewrite (pi_count _ _ _ _ I).
  set (m5 := if bool_decide (HashType (d_Addition d) = #"md5") then _ else _).
  set (s1 := if bool_decide (HashType (d_Addition d) = #"sha1") then _ else _).
  assert (H5 : hash_ok 32 m5).
  { unfold m5. case_bool_decide; [right|by left]. apply hex_encode_hex. by rewrite md5_length. }
  assert (H1 : hash_ok 40 s1).
  { unfold s1. case_bool_decide; [right|by left]. apply hex_encode_hex. by rewrite sha1_length. }
  pose proof (pi_small _ _ _ _ I) as Hsmall.
  destruct (unmarshal_marshal (s_Size s) (Z.of_nat (length cs)) m5 s1 x) as (md & Hmd & Hlen & Hun);
    [lia|destruct cs; [done|cbn [length] in *; lia]|done..|].
  apply ends_run_bind. eapply runs_query; [exact Hmd|].
  apply ends_bind. eapply ends_mono.
  { apply (ends_put_remote 0 t a); cbn [u_Name u_Size u_Reader]; [done..| | |done].
    - rewrite Hn. apply Hfo; [by eapply targets_pos|by left].
    - rewrite Hn. apply FO. }
  cbn [u_Name u_Size u_Reader]. rewrite Hn. intros r w' (C & D & R).
  destruct r as [e|k]; [split; [done|]; split; [done|]; by intros (? & ?)%R|].
  apply ends_ret. split; [done|]. split; [|eauto]. intros keep E. injection E as <-. split; [done|].
  destruct (D k eq_refl) as [Hl _]. exists md. split; [done|]. split; [unfold maxMetadataSizeRead; lia|].
  eexists. split; [exact Hun|]. done.
Qed.

(** ** Cleaning up *)

Definition part_ok (q : chunkPart) : Prop :=
  (p_RemoteIndex q < length targets)%nat ∧ ∃ k, p_No q = Z.of_nat k ∧ chunk_no k ∧
    xact_ok (p_XactID q) = true ∧ p_XactID q ≠ x.

(** The object an upload replaces, as [Get] returned it before. *)
Definition existing_ok (o : ChunkObject) : Prop :=
  o_Path (c_Object o) = path ∧ (c_MainRemoteIndex o < length targets)%nat ∧ Forall part_ok (c_Parts o).

(** A file of the replaced object: its own name, or a chunk of another
    transaction. *)
Definition old_file (f : gostr) : Prop :=
  f = n ∨ ∃ k y, chunk_no k ∧ xact_ok y = true ∧ y ≠ x ∧ f = chunk k y.

Lemma old_file_good f : old_file f → good_seg f.
Proof. intros [->|(k & y & ? & ? & _ & ->)]; [apply FO|by eapply chunk_name_good]. Qed.

Lemma old_file_named f : old_file f → f = n ∨ (parseChunkName (nf d) f).1.1.1 = n.
Proof. intros [->|(k & y & ? & ? & _ & ->)]; [by left|right]. by rewrite (parse_chunk_name pattern). Qed.

Lemma file_location f i : good_seg f →
  targetLocation (render (segs ++ [f])) i = {| LogicalPath := render (segs ++ [f]); RemoteIndex := i |}.
Proof.
  intros Hf. unfold targetLocation. rewrite FixAndCleanPath_render; [done|].
  apply Forall_app_2; [done|]. by constructor.
Qed.

Lemma existing_locations o loc :
  existing_ok o → loc ∈ objectLocationsForObject d o →
  ∃ i f, (i < length targets)%nat ∧ old_file f ∧ loc = targetLocation (render (segs ++ [f])) i.
Proof.
  intros (Hpath & Hix & Hparts) Hin. unfold objectLocationsForObject in Hin. rewrite Hpath in Hin.
  assert (Hmain : loc = targetLocation path (c_MainRemoteIndex o) →
    ∃ i f, (i < length targets)%nat ∧ old_file f ∧ loc = targetLocation (render (segs ++ [f])) i).
  { intros ->. exists (c_MainRemoteIndex o), n. split; [done|]. split; [by left|done]. }
  destruct (negb (c_Chunked o)); [apply Hmain; set_solver|].
  apply elem_of_app in Hin as [Hin|Hin]; [apply Hmain; destruct (c_UsesMeta o); set_solver|].
  apply list_elem_of_fmap in Hin as (q & -> & Hq).
  destruct (proj1 (Forall_forall _ _) Hparts q Hq) as (Hi & k & Hk & Hno & Hy & Hne).
  exists (p_RemoteIndex q), (chunk k (p_XactID q)). split; [done|]. split; [right; by exists k, (p_XactID q)|].
  unfold chunkLocation. by rewrite Hk, (chunk_name_in_dir pattern).
Qed.

(** What the clean-up may change: files of the old object it does not keep. *)
Definition cleaned (keep : list gostr) (v f : gostr) : Prop :=
  ∃ i, (i < length targets)%nat ∧ v = vd i ∧ old_file f ∧ keepKey (targetLocation (render (segs ++ [f])) i) ∉ keep.

Definition shrinks (w w' : World) : Prop := ∀ v f, look w' v f = look w v f ∨ look w' v f = None.

Lemma shrinks_trans w w' w'' : shrinks w w' → shrinks w' w'' → shrinks w w''.
Proof. intros H1 H2 v f. destruct (H2 v f) as [->|]; [apply H1|by right]. Qed.

Lemma shrinks_view w w' : same_view w w' → shrinks w w'.
Proof. intros (V & _) v f. left. apply V. Qed.

Lemma ends_remove i f w :
  (i < length targets)%nat → old_file f → files_only w →
  ends (remove_location d (targetLocation (render (segs ++ [f])) i)) w (λ r w',
    changes (λ v g, v = vd i ∧ g = f) w w' ∧ shrinks w w' ∧ (reliable → r = inr ())).
Proof.
  intros Hi Hf Hfo. destruct (target_lt d i Hi) as [t Ht]. pose proof (old_file_good f Hf) as Hg.
  rewrite file_location by done. unfold remove_location. cbn [LogicalPath RemoteIndex].
  apply ends_run_bind. eapply (runs_actual pattern d DK); [done|]. intros a w1 V Ha.
  apply ends_run_bind. eapply runs_storage; [done|]. apply ends_call.
  destruct (op_Remove (Storage t) a w1) as [r w'] eqn:Er. cbn [fst snd].
  destruct (vpath_file t segs f) as [Edir Ebase]; [apply Forall_app_2; [done|by constructor]|].
  rewrite <- (vdir_target d i t dir) in Edir by done.
  destruct (remove_file _ _ _ _ _ Er) as (L & D & B).
  { rewrite Ha, Edir, Ebase. destruct V as (_ & _ & ->). apply Hfo; [done|by apply old_file_named]. }
  rewrite Ha, Edir, Ebase in L. destruct V as (V1 & V2 & V3).
  split; [split|split].
  - intros v g Hvg. rewrite <- V1. destruct (L v g) as [|(-> & -> & _)]; [done|]. by destruct Hvg.
  - intros v. by rewrite D, V2.
  - intros. by rewrite B, V3.
  - intros v g. destruct (L v g) as [->|(_ & _ & ?)]; [left; apply V1|by right].
  - intros HR. pose proof (rel_remove HR (Storage t) a w1) as H. by rewrite Er in H.
Qed.

Lemma ends_join {A} (f : A → Ck unit) l w (R : World → World → Prop) (ok : Prop) :
  (∀ w, R w w) → (∀ w1 w2 w3, R w1 w2 → R w2 w3 → R w1 w3) →
  (∀ a w1, a ∈ l → R w w1 → ends (f a) w1 (λ r w', R w1 w' ∧ (ok → r = inr ()))) →
  ends (join_errors f l) w (λ r w', R w w' ∧ (ok → r = inr ())).
Proof.
  intros Hrefl Htrans Hf. unfold join_errors. apply ends_bind.
  assert (Hgen : ∀ l' w1, (∀ a, a ∈ l' → a ∈ l) → R w w1 →
    ends (collect_errors f l') w1 (λ r w', R w w' ∧ ∃ es, r = inr es ∧ (ok → es = []))).
  { induction l' as [|a l' IH]; intros w1 Hsub Hw; cbn [collect_errors].
    - apply ends_ret. eauto.
    - apply ends_run_bind, runs_try. eapply ends_mono; [apply (Hf a w1); [apply Hsub; left|done]|].
      intros r w2 (H2 & Hr). apply ends_bind.
      eapply ends_mono; [apply (IH w2); [by intros; apply Hsub; right|by eapply Htrans]|].
      intros r' w3 (H3 & es & -> & Hes). apply ends_ret. split; [done|]. eexists. split; [done|].
      intros Hok. rewrite (Hr Hok). auto. }
  eapply ends_mono; [apply (Hgen l w); [done|apply Hrefl]|].
  intros r w1 (H1 & es & -> & Hes). destruct (errors_Join es) as [e|] eqn:E.
  - apply ends_fail. split; [done|]. intros Hok. by rewrite (Hes Hok) in E.
  - apply ends_ret. done.
Qed.

Lemma ends_cleanup ex keep w :
  (∀ o, ex = Some o → existing_ok o) → files_only w →
  ends (cleanupReplacedObject d ex keep) w (λ r w', changes (cleaned keep) w w' ∧ shrinks w w' ∧ (reliable → r = inr ())).
Proof.
  intros Hex Hfo. unfold cleanupReplacedObject. destruct ex as [o|].
  2: { apply ends_ret. split; [apply changes_refl|]. split; [by left|done]. }
  eapply ends_mono.
  - apply (ends_join _ _ w (λ w1 w2, changes (cleaned keep) w1 w2 ∧ shrinks w1 w2) reliable).
    + intros w1. split; [apply changes_refl|by left].
    + intros w1 w2 w3 [] []. split; [by eapply changes_trans|by eapply shrinks_trans].
    + intros loc w1 Hin [C _]. destruct (existing_locations o loc) as (i & f & Hi & Hf & ->); [by apply Hex|done|].
      case_bool_decide as Hk; [apply ends_ret; split; [|done]; split; [apply changes_refl|by left]|].
      eapply ends_mono; [apply (ends_remove i f w1 Hi Hf); by eapply files_only_changes|].
      intros r w2 (C2 & S2 & R2). split; [split; [|done]|done].
      eapply changes_mono; [|exact C2]. intros v g [-> ->]. by exists i.
  - intros r w' ([C Sh] & R). done.
Qed.

(** ** Large files *)

(** The files an upload of [n] may touch. *)
Definition own_file (v f : gostr) : Prop :=
  ∃ i, (i < length targets)%nat ∧ v = vd i ∧ (f = n ∨ (parseChunkName (nf d) f).1.1.1 = n).

(** No chunk of this transaction is there yet. *)
Definition fresh_xact (w : World) : Prop := ∀ i f no, (i < length targets)%nat →
  is_Some (stored d segs w i f) → parseChunkName (nf d) f ≠ (n, no, [], x).

(** Only chunks of this upload were written, and perhaps the file's own
    object. *)
Definition unfinished (w w' : World) : Prop :=
  changes (λ v f, (∃ k, new_chunk k v f) ∨ v = vd 0 ∧ f = n) w w'.

Lemma n_not_chunk k y : chunk_no k → xact_ok y = true → n ≠ chunk k y.
Proof.
  intros Hk Hy E. pose proof (fo_plain _ _ FO) as Hpl. rewrite E in Hpl at 1.
  rewrite (parse_chunk_name pattern) in Hpl by done. by destruct (fo_name _ _ FO).
Qed.

Lemma new_chunk_own k v f : new_chunk k v f → own_file v f.
Proof.
  intros (j & _ & Hj & -> & ->). exists (chunkTargetIndex d (Z.of_nat j)).
  split; [by eapply chunkTargetIndex_lt|]. split; [done|]. right. by rewrite (parse_chunk_name pattern).
Qed.

Lemma unfinished_own w w' : unfinished w w' → changes own_file w w'.
Proof.
  apply changes_mono. intros v f [[k H]|[-> ->]]; [by eapply new_chunk_own|].
  exists 0%nat. split; [by eapply targets_pos|]. split; [done|by left].
Qed.

Lemma cleaned_own keep v f : cleaned keep v f → own_file v f.
Proof. intros (i & Hi & -> & Hf & _). exists i. split; [done|]. split; [done|by apply old_file_named]. Qed.

Lemma kept_base locs : targetLocation path 0 ∈ locs → ¬ cleaned (buildKeepSet locs) (vd 0) n.
Proof.
  intros Hin (i & Hi & E & _ & Hk). apply vd_inj in E; [|by eapply targets_pos|done]. subst i. apply Hk.
  unfold buildKeepSet. apply list_elem_of_fmap. eexists. split; [done|].
  apply list_elem_of_filter. split; [|done]. rewrite file_location by apply FO. done.
Qed.

Lemma cleaned_other keep v f no : cleaned keep v f → parseChunkName (nf d) f ≠ (n, no, [], x).
Proof.
  intros (i & _ & _ & Hf & _) Hpe. destruct Hf as [->|(j & y & Hj & Hy & Hne & ->)].
  - pose proof (fo_plain _ _ FO) as Hpl. rewrite Hpe in Hpl. by destruct (fo_name _ _ FO).
  - rewrite (parse_chunk_name pattern) in Hpe by done. by simplify_eq.
Qed.

(** The layout after the metadata object and the clean-up. *)
Lemma new_layout w0 w1 w2 w3 st cs keep md :
  put_inv w0 w1 st cs → ps_remaining st = 0 → cs ≠ [] → fresh_xact w0 → files_only w3 → s_Size s ≤ max_int64 →
  changes (λ v f, v = vd 0 ∧ f = n) w1 w2 → look w2 (vd 0) n = Some md → new_metadata md →
  targetLocation path 0 ∈ keep → changes (cleaned (buildKeepSet keep)) w2 w3 →
  chunked_at d n segs w3 x (s_Content s).
Proof.
  intros I Hr Hne Hfresh Hfo Hmax C2 Hmd (Hlen & meta & Hun & Hms & Hmx) Hkeep C3.
  pose proof (pi_remaining _ _ _ _ I) as Hrem. pose proof (pi_split _ _ _ _ I) as Hsplit.
  assert (ps_input st = []) as Hin by (destruct (ps_input st); [done|simpl in Hrem; lia]).
  rewrite Hin, app_nil_r in Hsplit.
  assert (Hsub : no_subdir d n segs w3) by (intros i Hi; apply Hfo; [done|by left]).
  split; [done|by rewrite <- Hsize| | |done].
  - exists md, meta. split; [|by rewrite <- Hsize].
    unfold stored. rewrite (cg_look _ _ _ C3) by (by apply kept_base). done.
  - exists cs. split; [done|]. split; [done|]. pose proof (pi_small _ _ _ _ I) as Hsmall. split; [done| |].
    + intros k c Hk. assert (Hck : chunk_no k) by (apply lookup_lt_Some in Hk; unfold chunk_no; lia).
      unfold stored. rewrite (cg_look _ _ _ C3), (cg_look _ _ _ C2).
      * by apply (pi_stored _ _ _ _ I).
      * intros [_ E]. by apply (n_not_chunk k x).
      * intros Hc. by apply (cleaned_other _ _ _ (Z.of_nat k) Hc), (parse_chunk_name pattern).
    + intros i f no Hi Hst Hpe H0. unfold stored in Hst.
      rewrite (cg_look _ _ _ C3) in Hst.
      2: { intros Hc. by apply (cleaned_other _ _ _ no Hc). }
      rewrite (cg_look _ _ _ C2) in Hst.
      2: { intros [_ ->]. pose proof (fo_plain _ _ FO) as Hpl. rewrite Hpe in Hpl. by destruct (fo_name _ _ FO). }
      destruct (decide ((Z.to_nat no < length cs)%nat ∧ i = chunkTargetIndex d no ∧ f = chunk (Z.to_nat no) x)) as [Hj|Hj].
      * destruct Hj as (Hj & Ei & Ef). exists (Z.to_nat no). split; [lia|done].
      * exfalso. rewrite (cg_look _ _ _ (pi_changes _ _ _ _ I)) in Hst; [by apply (Hfresh i f no)|].
        intros (j & Hjl & Hjc & Ev & Ef). apply Hj. rewrite Ef, (parse_chunk_name pattern) in Hpe by done.
        injection Hpe as <-. rewrite Nat2Z.id. split; [done|]. split; [|done].
        apply vd_inj; [done|by eapply chunkTargetIndex_lt|done].
Qed.

(** The file as it was: chunks of another transaction, or an object that is no
    metadata. *)
Definition old_layout (w : World) (old : gostr) : Prop :=
  (∃ y, y ≠ x ∧ chunked_at d n segs w y old) ∨
  (plain_at d n segs w old ∧ ∀ meta, unmarshalMetadata old ≠ inr meta).

Lemma old_layout_serves w old : old_layout w old → serves d w path old.
Proof. intros [(y & _ & H)|[H _]]; [by eapply chunked_serves|by eapply plain_serves]. Qed.

Lemma old_survives w w' old :
  unfinished w w' → stored d segs w' 0 n = stored d segs w 0 n → old_layout w old → old_layout w' old.
Proof.
  intros C Hbase Hold.
  assert (Hsub : no_subdir d n segs w → no_subdir d n segs w').
  { intros H i Hi. rewrite (cg_sub _ _ _ C) by done. by apply H. }
  assert (Hsame : ∀ i f, ¬ (∃ k, new_chunk k (vd i) f) → f ≠ n → stored d segs w' i f = stored d segs w i f).
  { intros i f H1 H2. apply (cg_look _ _ _ C). intros [?|[_ ?]]; [by apply H1|by apply H2]. }
  destruct Hold as [(y & Hy & [X1 X2 X3 (cs & E & Hne & [K1 K2 K3]) X5])|[[P1 P2 P3 P4] Hm]]; [left|right].
  - exists y. split; [done|]. split; [done|done|by rewrite Hbase| |by apply Hsub].
    exists cs. split; [done|]. split; [done|]. split; [done| |].
    + intros k c Hk. assert (Hck : chunk_no k) by (apply lookup_lt_Some in Hk; unfold chunk_no; lia).
      rewrite Hsame; [by apply K2| |].
      * intros (k' & j & _ & Hj & _ & Ef). apply (f_equal (parseChunkName (nf d))) in Ef.
        rewrite !(parse_chunk_name pattern) in Ef by done. by simplify_eq.
      * intros Ef. by apply (n_not_chunk k y).
    + intros i f no Hi Hst Hpe H0. rewrite Hsame in Hst; [by apply K3| |].
      * intros (k' & j & _ & Hj & _ & ->). rewrite (parse_chunk_name pattern) in Hpe by done. by simplify_eq.
      * intros ->. pose proof (fo_plain _ _ FO) as Hpl. rewrite Hpe in Hpl. by destruct (fo_name _ _ FO).
  - split; [|done]. split; [by rewrite Hbase|done|by left|by apply Hsub].
Qed.

Context (Hpn : path_join p n = path).
Context (now : Z) (Hnow : x = new_xactID now) (dstDir : Obj) (Hdst : GetPath dstDir = p) (Hname : s_Name s = n).
Context (Hmax : s_Size s ≤ max_int64).

Lemma unfinished_refl w : unfinished w w.
Proof. apply changes_refl. Qed.

Lemma ends_Put_large w :
  ChunkSize (d_Addition d) < s_Size s → roots w → files_only w → fresh_xact w →
  (∀ o, s_Exist s ≫= linkedObject = Some o → existing_ok o) →
  ends (Put d now dstDir s) w (λ r w', changes own_file w w' ∧
    (∀ u, r = inr u → chunked_at d n segs w' x (s_Content s)) ∧
    (∀ e, r = inl e → unfinished w w' ∨ chunked_at d n segs w' x (s_Content s)) ∧
    (reliable → r = inr ())).
Proof.
  intros Hbig Hroots Hfo Hfresh Hex. pose proof (targets_pos pattern d DK) as H0.
  destruct (target_lt d 0 H0) as [t Ht]. pose proof (dk_size _ _ DK) as Hcs.
  unfold Put. rewrite Hdst, Hname, Hpn, <- Hnow.
  apply ends_run_bind, runs_wrap. eapply (runs_actual pattern d DK); [done|]. intros a w1 V1 Ha.
  rewrite <- (vdir_target d 0 t p), vdir_p in Ha by done.
  assert (C1 : changes nothing w w1) by (by apply changes_view).
  apply ends_bind. eapply ends_mono; [apply (ends_ensure 0 w1); [done|by eapply roots_changes]|].
  intros r2 w2 (C2 & D2 & R2). assert (C02 : changes nothing w w2) by (by eapply changes_trans).
  assert (U2 : unfinished w w2) by (by eapply changes_mono; [|exact C02]).
  destruct r2 as [e|u2].
  { split; [by apply unfinished_own|]. split; [done|]. split; [by left|]. intros H%R2. done. }
  specialize (D2 u2 eq_refl). zcmp.
  assert (Hfo2 : files_only w2) by (by eapply files_only_changes).
  assert (Hfresh2 : fresh_xact w2).
  { intros i f no Hi. unfold stored. rewrite (cg_look _ _ _ C02) by (by intros []). by apply Hfresh. }
  apply ends_bind. eapply ends_mono.
  { apply (ends_put_chunks _ w2 w2 _ []); [by eapply roots_changes|done| |].
    - split; cbn [ps_count ps_remaining ps_input ps_hashed ps_keep ps_ensured length concat]; try done.
      + lia.
      + intros i ->%elem_of_singleton. done.
    - cbn [ps_remaining]. unfold put_fuel. pose proof (Z.mul_succ_div_gt (s_Size s) (ChunkSize (d_Addition d))).
      rewrite Nat2Z.inj_succ, Z2Nat.id by (apply Z.div_pos; lia). lia. }
  intros r3 w3 ((k3 & C3) & D3 & R3).
  assert (U3 : unfinished w w3).
  { eapply changes_trans; [exact U2|]. eapply changes_mono; [|exact C3]. intros v f H. left. eauto. }
  destruct r3 as [e|st].
  { split; [by apply unfinished_own|]. split; [done|]. split; [by left|]. by intros (? & ?)%R3. }
  destruct (D3 st eq_refl) as (cs & I & Hrem & _ & Hne).
  assert (Hcsne : cs ≠ []) by (apply Hne; cbn [ps_remaining]; lia).
  assert (Hfo3 : files_only w3) by (by eapply files_only_changes).
  apply ends_bind. eapply ends_mono.
  { apply (ends_put_metadata w2 w3 st cs a t); try done. by apply (cg_dir _ _ _ C3). }
  intros r4 w4 (C4 & D4 & R4).
  assert (U4 : unfinished w w4).
  { eapply changes_trans; [exact U3|]. eapply changes_mono; [|exact C4]. intros v f H. by right. }
  destruct r4 as [e|keep].
  { split; [by apply unfinished_own|]. split; [done|]. split; [by left|]. by intros (? & ?)%R4. }
  destruct (D4 keep eq_refl) as (Hkeep & md & Hmd & Hnew).
  assert (Hfo4 : files_only w4) by (by eapply files_only_changes).
  assert (Hin : targetLocation path 0 ∈ keep) by (rewrite Hkeep; set_solver).
  eapply ends_mono; [by apply (ends_cleanup _ (buildKeepSet keep) w4)|].
  intros r5 w5 (C5 & S5 & R5).
  assert (Hnew5 : chunked_at d n segs w5 x (s_Content s)).
  { eapply (new_layout w2 w3 w4); try done. by eapply files_only_changes. }
  split; [|split; [done|split; [by right|by intros HR; apply R5]]].
  eapply changes_trans; [by apply unfinished_own|]. eapply changes_mono; [|exact C5]. intros v f. apply cleaned_own.
Qed.

(** ** Small files *)

(** The content cannot be taken for metadata of chunks that are there. *)
Definition not_metadata (w : World) : Prop :=
  (∀ meta, unmarshalMetadata (s_Content s) ≠ inr meta) ∨
  ∀ i f, (i < length targets)%nat → is_Some (stored d segs w i f) → (parseChunkName (nf d) f).1.1.1 ≠ n.

Lemma ends_Put_small w :
  s_Size s ≤ ChunkSize (d_Addition d) → roots w → files_only w → not_metadata w →
  (∀ o, s_Exist s ≫= linkedObject = Some o → existing_ok o) →
  ends (Put d now dstDir s) w (λ r w', changes own_file w w' ∧
    (∀ u, r = inr u → plain_at d n segs w' (s_Content s)) ∧ (reliable → r = inr ())).
Proof.
  intros Hsmall Hroots Hfo Hnm Hex. pose proof (targets_pos pattern d DK) as H0.
  destruct (target_lt d 0 H0) as [t Ht].
  unfold Put. rewrite Hdst, Hname, Hpn.
  apply ends_run_bind, runs_wrap. eapply (runs_actual pattern d DK); [done|]. intros a w1 V1 Ha.
  rewrite <- (vdir_target d 0 t p), vdir_p in Ha by done.
  assert (C1 : changes nothing w w1) by (by apply changes_view).
  apply ends_bind. eapply ends_mono; [apply (ends_ensure 0 w1); [done|by eapply roots_changes]|].
  intros r2 w2 (C2 & D2 & R2). assert (C02 : changes nothing w w2) by (by eapply changes_trans).
  assert (O2 : changes own_file w w2) by (by eapply changes_mono; [|exact C02]).
  destruct r2 as [e|u2]; [split; [done|]; split; [done|]; intros H%R2; done|].
  specialize (D2 u2 eq_refl). zcmp.
  assert (Hfo2 : files_only w2) by (by eapply files_only_changes).
  apply ends_bind. eapply ends_mono.
  { apply (ends_put_remote 0 t a); cbn [u_Name u_Size u_Reader]; [done..| |apply FO|done].
    apply Hfo2; [done|by left]. }
  cbn [u_Name u_Size u_Reader]. intros r3 w3 (C3 & D3 & R3).
  assert (O3 : changes own_file w w3).
  { eapply changes_trans; [exact O2|]. eapply changes_mono; [|exact C3].
    intros v f [-> ->]. exists 0%nat. split; [done|]. split; [done|by left]. }
  destruct r3 as [e|k]; [split; [done|]; split; [done|]; by intros (? & ?)%R3|].
  destruct (D3 k eq_refl) as [Hst _].
  assert (Hfo3 : files_only w3) by (by eapply files_only_changes).
  eapply ends_mono; [by apply (ends_cleanup _ (buildKeepSet [targetLocation path 0]) w3)|].
  intros r4 w4 (C4 & S4 & R4).
  assert (O4 : changes own_file w w4).
  { eapply changes_trans; [exact O3|]. eapply changes_mono; [|exact C4]. intros v f. apply cleaned_own. }
  split; [done|]. split; [|done]. intros u ->. split.
  - unfold stored. rewrite (cg_look _ _ _ C4); [done|]. apply kept_base. set_solver.
  - by rewrite <- Hsize.
  - destruct Hnm as [Hnm|Hnm]; [by left|right]. intros i f Hi [c Hc].
    destruct (decide (f = n)) as [->|Hf].
    { pose proof (fo_plain _ _ FO) as ->. pose proof (fo_name _ _ FO) as (? & _). done. }
    apply (Hnm i f Hi). unfold stored in *. destruct (S4 (vd i) f) as [E|E]; rewrite E in Hc; [|done].
    rewrite (cg_look _ _ _ C3), (cg_look _ _ _ C02) in Hc; [eauto|by intros []|by intros [_ ?]].
  - intros i Hi. rewrite (cg_sub _ _ _ O4) by done. apply Hfo; [done|by left].
Qed.
End put.
