(* ===== verification/ChunkerMem.v ===== *)
(** * Remotes in memory

    Two storages that keep their files in a map, as an instance of the
    interface of the chunker driver, with the laws its theorems ask for.  The
    storage a virtual path leads to is given by [resolve]; an upload fails for
    the names in [bad]. *)

From S2P Require Import Prelude GoStrings Errs Store Paths HttpRange Json Crypto ChunkerNames ChunkerNamesThms Chunker ChunkerRead ChunkerServe ChunkerPut.

Local Open Scope Z_scope.

(** A storage and a directory of it. *)
Abbreviation place := (bool * gostr)%type.
Definition mem_world := gmap place (gmap gostr gostr).

Definition mem_mount (b : bool) : gostr := if b then #"/y" else #"/x".
Definition mem_locate (b : bool) (a : gostr) : gostr := render (path_segs (mem_mount b) ++ path_segs a).

(** The storages [/x] and [/y]. *)
Definition resolve_xy (v : gostr) : option place :=
  match path_segs v with
  | s :: r => if bool_decide (s = #"x") then Some (false, render r)
              else if bool_decide (s = #"y") then Some (true, render r) else None
  | [] => None
  end.

(** The second storage is mounted at [/x/sub], inside the first. *)
Definition resolve_nested (v : gostr) : option place :=
  match path_segs v with
  | s :: r =>
      if bool_decide (s = #"x") then
        match r with
        | s' :: r' => if bool_decide (s' = #"sub") then Some (true, render r') else Some (false, render r)
        | [] => Some (false, render r)
        end
      else None
  | [] => None
  end.

Definition mem_entry (fc : gostr * gostr) : Entry :=
  {| e_Name := fc.1; e_Size := zlen fc.2; e_ModTime := 0; e_CreateTime := 0; e_IsDir := false; e_Hash := ∅ |}.

Definition mem_missing {A} : Op mem_world A := op_fail (ESentinel ObjectNotFound).

(** The directory and the name of a file of a storage. *)
Definition mem_split (a : gostr) : option (gostr * gostr) :=
  match reverse (path_segs a) with
  | f :: r => Some (render (reverse r), f)
  | [] => None
  end.

Section mem.
Context (resolve : gostr → option place) (bad : gostr → bool).

Definition mem_dir (v : gostr) (w : mem_world) : option (gmap gostr gostr) :=
  if bool_decide (FixAndCleanPath v = v) then k ← resolve v; w !! k else None.

Definition mem_file (b : bool) (a : gostr) (w : mem_world) : option (gostr * gostr) :=
  '(u, f) ← mem_split a; m ← w !! (b, u); c ← m !! f; Some (f, c).

Definition MemRemotes : Remotes := {|
  World := mem_world;
  Driver := bool;
  fs_GetStorage := λ p w, (match resolve (FixAndCleanPath p) with
                           | Some (b, _) => inr b | None => inl (ESentinel StorageNotFound) end, w);
  op_GetStorageAndActualPath := λ p w, (match resolve (FixAndCleanPath p) with
                           | Some k => inr k | None => inl (ESentinel StorageNotFound) end, w);
  fs_List := λ p _ w, (match mem_dir p w with
                       | Some m => inr (map mem_entry (map_to_list m))
                       | None => inl (ESentinel ObjectNotFound) end, w);
  fs_Get := λ p w, (match mem_dir (FixAndCleanPath p) w with
                    | Some _ => inr {| e_Name := path_Base p; e_Size := 0; e_ModTime := 0; e_CreateTime := 0;
                                       e_IsDir := true; e_Hash := ∅ |}
                    | None => inl (ESentinel ObjectNotFound) end, w);
  fs_MakeDir := λ p w, match resolve (FixAndCleanPath p) with
                       | Some k => (inr (), match w !! k with Some _ => w | None => <[k := ∅]> w end)
                       | None => (inl (ESentinel StorageNotFound), w) end;
  op_Link := λ b a w, (match mem_file b a w with
                       | Some fc => inr ({| l_MFile := Some fc.2; l_RangeReadCloser := None; l_URL := [] |},
                                         mem_entry fc)
                       | None => inl (ESentinel ObjectNotFound) end, w);
  op_Put := λ b a u w, match w !! (b, FixAndCleanPath a) with
                       | Some m => if bad (u_Name u) then (inl (EMessage #"upload failed"), 0%nat, w)
                                   else (inr (), length (u_Reader u),
                                         <[(b, FixAndCleanPath a) := <[u_Name u := u_Reader u]> m]> w)
                       | None => (inl (ESentinel ObjectNotFound), 0%nat, w) end;
  op_Move := λ _ _ _, mem_missing;
  op_Copy := λ _ _ _, mem_missing;
  op_Rename := λ _ _ _, mem_missing;
  op_Remove := λ b a w, (inr (), match mem_split a with
                                 | Some (u, f) => alter (delete f) (b, u) w
                                 | None => w end);
  url_read := λ _ _ _ _, inl (EMessage #"no address");
|}.

Definition MemView : @RemoteView MemRemotes := {|
  look := (λ w v f, m ← mem_dir v w; m !! f) : @World MemRemotes → _;
  is_dir := (λ w v, bool_decide (is_Some (mem_dir v w))) : @World MemRemotes → _;
  has_sub := λ _ _ _, false;
  locate := mem_locate : @Driver MemRemotes → _;
|}.
End mem.

(** ** The laws *)

Definition mem_seg (b : bool) : gostr := if b then #"y" else #"x".

Lemma mem_locate_segs b a : mem_locate b a = render (mem_seg b :: path_segs a).
Proof. by destruct b. Qed.

Lemma mem_seg_good b : good_seg (mem_seg b).
Proof. destruct b; apply (bool_decide_unpack _); by vm_compute. Qed.

Lemma mem_split_Some a u f : mem_split a = Some (u, f) →
  ∃ l, path_segs a = l ++ [f] ∧ u = render l ∧ Forall good_seg l ∧ good_seg f.
Proof.
  unfold mem_split. destruct (reverse (path_segs a)) as [|g r] eqn:E; [done|]. intros. simplify_eq.
  apply (f_equal reverse) in E. rewrite reverse_involutive, reverse_cons in E.
  exists (reverse r). split; [done|]. split; [done|]. pose proof (path_segs_good a) as H.
  rewrite E in H. apply Forall_app in H as [? ?%Forall_cons]. tauto.
Qed.

Lemma mem_split_None a : mem_split a = None → path_segs a = [].
Proof.
  unfold mem_split. destruct (reverse (path_segs a)) eqn:E; [|done]. intros _.
  apply (f_equal reverse) in E. by rewrite reverse_involutive in E.
Qed.

Lemma resolve_xy_good b l : Forall good_seg l → resolve_xy (render (mem_seg b :: l)) = Some (b, render l).
Proof.
  intros H. unfold resolve_xy. rewrite path_segs_render by (constructor; [apply mem_seg_good|done]).
  by destruct b.
Qed.

Lemma resolve_xy_Some v b u : resolve_xy v = Some (b, u) →
  ∃ l, path_segs v = mem_seg b :: l ∧ u = render l ∧ Forall good_seg l.
Proof.
  unfold resolve_xy. pose proof (path_segs_good v) as H. destruct (path_segs v) as [|s r]; [done|].
  apply Forall_cons in H as [_ H].
  intros E. repeat case_bool_decide; simplify_eq; by exists r.
Qed.

Lemma mem_dir_good b l w : Forall good_seg l →
  mem_dir resolve_xy (render (mem_seg b :: l)) w = w !! (b, render l).
Proof.
  intros H. unfold mem_dir. rewrite FixAndCleanPath_render by (constructor; [apply mem_seg_good|done]).
  rewrite bool_decide_eq_true_2 by done. by rewrite resolve_xy_good.
Qed.

(** A directory the storages have is named by its cleaned path. *)
Lemma mem_dir_Some v w m : mem_dir resolve_xy v w = Some m →
  ∃ b l, v = render (mem_seg b :: l) ∧ Forall good_seg l ∧ w !! (b, render l) = Some m.
Proof.
  unfold mem_dir. case_bool_decide as Hv; [|done]. destruct (resolve_xy v) as [[b u]|] eqn:E; [|done].
  intros Hm. apply resolve_xy_Some in E as (l & Hl & -> & Hg). exists b, l.
  split; [|done]. by rewrite <- Hv, FixAndCleanPath_segs, Hl.
Qed.

Lemma render_good_inj l k : Forall good_seg l → Forall good_seg k → render l = render k → l = k.
Proof. intros Hl Hk E. by rewrite <- (path_segs_render l), <- (path_segs_render k), E by done. Qed.

(** Two worlds that differ in the directory [(b, l)] only. *)
Lemma mem_dir_other b l w w' v : Forall good_seg l →
  (∀ k, k ≠ (b, render l) → w' !! k = w !! k) → v ≠ render (mem_seg b :: l) →
  mem_dir resolve_xy v w' = mem_dir resolve_xy v w.
Proof.
  intros Hl Hw Hv. unfold mem_dir. case_bool_decide as Hc; [|done].
  destruct (resolve_xy v) as [[b' u]|] eqn:E; [|done]. simpl. apply Hw. intros ?. simplify_eq.
  apply Hv. apply resolve_xy_Some in E as (k & Hk & Er & Hg). apply render_good_inj in Er; [|done..]. subst k.
  by rewrite <- Hc, FixAndCleanPath_segs, Hk.
Qed.

Section laws.
Context (bad : gostr → bool).
#[local] Existing Instance MemView.
Abbreviation RM := (MemRemotes resolve_xy bad).
Abbreviation RV := (MemView resolve_xy bad).

Lemma mem_same (w : mem_world) : @same_view RM RV w w.
Proof. by repeat split. Qed.

Lemma mem_entry_inj (m : gmap gostr gostr) : NoDup (map e_Name (map mem_entry (map_to_list m))).
Proof. rewrite map_map. apply (NoDup_fst_map_to_list m). Qed.

Lemma mem_lists (v : gostr) (w : mem_world) m :
  mem_dir resolve_xy v w = Some m → @lists_dir RM RV w v (map mem_entry (map_to_list m)).
Proof.
  intros Hm. split.
  - apply mem_entry_inj.
  - intros e (fc & -> & _)%list_elem_of_fmap. done.
  - intros e ([f c] & -> & Hin%elem_of_map_to_list)%list_elem_of_fmap _. exists c. split; [|done].
    simpl. by rewrite Hm.
  - intros f c H. simpl in H. rewrite Hm in H. exists (mem_entry (f, c)).
    split; [|done]. apply list_elem_of_fmap. exists (f, c). split; [done|]. by apply elem_of_map_to_list.
Qed.

Lemma mem_file_at b a (w : mem_world) c : @file_at RM RV w (mem_locate b a) = Some c →
  ∃ f, mem_file b a w = Some (f, c).
Proof.
  unfold file_at. rewrite mem_locate_segs. destruct (mem_split a) as [[u f]|] eqn:E.
  - apply mem_split_Some in E as Hs. destruct Hs as (l & Hl & -> & Hg & Hf). rewrite Hl, app_comm_cons.
    assert (Hn : norm_seg f) by apply Hf.
    rewrite path_Dir_render; [|apply good_norm; constructor; [apply mem_seg_good|done]|done].
    rewrite path_Base_render by done. simpl. rewrite mem_dir_good by done.
    intros H. exists f. unfold mem_file. rewrite E. simpl. destruct (w !! _); simpl in *; [|done]. by rewrite H.
  - apply mem_split_None in E. rewrite E. by destruct b.
Qed.

#[export] Instance mem_ReadLaws : @ReadLaws RM RV.
Proof.
  split.
  - intros v w. apply mem_same.
  - intros v r w. apply mem_same.
  - intros v r w H. simpl in H. apply bool_decide_eq_true in H as [m Hm].
    exists (map mem_entry (map_to_list m)). simpl. rewrite Hm. split; [done|]. by apply mem_lists.
  - intros v r w H. simpl in *. apply bool_decide_eq_false in H.
    destruct (mem_dir resolve_xy v w) as [m|]; [by destruct H|]. split; [|done]. eexists. split; [done|]. done.
  - intros st a w. apply mem_same.
  - intros st a w c H. apply mem_file_at in H as (f & H). simpl. rewrite H. eexists _, _. split; [done|].
    split; [done|]. intros w' _ off len Ho Hl Hs. unfold openPartRange. cbn [l_MFile l_RangeReadCloser]. done.
Qed.

(** The directory [(b, l)] is replaced. *)
Lemma mem_dir_set (b : bool) (l : list gostr) (m : gmap gostr gostr) (w : mem_world) (v : gostr) : Forall good_seg l →
  mem_dir resolve_xy v (<[(b, render l) := m]> w)
  = if bool_decide (v = render (mem_seg b :: l)) then Some m else mem_dir resolve_xy v w.
Proof.
  intros Hl. case_bool_decide as Hv.
  - subst v. rewrite mem_dir_good by done. apply lookup_insert_eq.
  - apply (mem_dir_other b l); [done| |done]. intros k Hk. by apply lookup_insert_ne.
Qed.

Lemma mem_dir_delete (b : bool) (l : list gostr) (f : gostr) (w : mem_world) (v : gostr) : Forall good_seg l →
  mem_dir resolve_xy v (alter (delete f) (b, render l) w)
  = if bool_decide (v = render (mem_seg b :: l)) then delete f <$> mem_dir resolve_xy v w else mem_dir resolve_xy v w.
Proof.
  intros Hl. case_bool_decide as Hv.
  - subst v. rewrite !mem_dir_good by done. apply lookup_alter_eq.
  - apply (mem_dir_other b l); [done| |done]. intros k Hk. by apply lookup_alter_ne.
Qed.

#[export] Instance mem_WriteLaws : @WriteLaws RM RV.
Proof.
  split.
  - intros b a u w r k w' E Hd _ Hn Hsz. simpl in *. rewrite mem_locate_segs in *.
    pose proof (path_segs_good a) as Ha. rewrite mem_dir_good in Hd by done.
    rewrite FixAndCleanPath_segs in E. apply bool_decide_eq_true in Hd as [m Hm]. rewrite Hm in E.
    destruct (bad (u_Name u)); simplify_eq; [by repeat split|].
    split_ands; [intros v f Hvf|intros v|done|intros _]; rewrite mem_dir_set by done.
    + case_bool_decide; [subst v|done]. rewrite mem_dir_good, Hm by done. simpl. apply lookup_insert_ne. intros E; apply Hvf; by rewrite E.
    + destruct (bool_decide (v = _)) eqn:Ev; reflect_bools; [subst v|done]. rewrite mem_dir_good, Hm by done. done.
    + rewrite bool_decide_eq_true_2 by done. simpl. by rewrite lookup_insert_eq.
  - intros b a w r w' E _. cbn [op_Remove look is_dir has_sub locate MemRemotes MemView World Driver] in *. simplify_eq. destruct (mem_split a) as [[u f]|] eqn:E; [|by split; [left|]].
    apply mem_split_Some in E as (l & Hl & -> & Hg & Hf). rewrite mem_locate_segs, Hl, app_comm_cons.
    assert (Hn : norm_seg f) by apply Hf.
    rewrite path_Dir_render; [|apply good_norm; constructor; [apply mem_seg_good|done]|done].
    rewrite path_Base_render by done.
    split_ands; [intros v g|intros v|done]; rewrite mem_dir_delete by done.
    + case_bool_decide; [|by left]. destruct (mem_dir resolve_xy v w) as [m|]; [|by left]. simpl.
      destruct (decide (g = f)) as [->|]; [right; by rewrite lookup_delete_eq|left; by rewrite lookup_delete_ne].
    + destruct (bool_decide (v = _)); [|done]. by destruct (mem_dir resolve_xy v w).
  - intros p w r w' E. simpl in *.
    destruct (resolve_xy (FixAndCleanPath p)) as [[b u]|] eqn:Er; [|by simplify_eq; split_ands; [..|left|]].
    apply resolve_xy_Some in Er as (l & Hl & -> & Hg). rewrite path_segs_Fix in Hl. simplify_eq.
    assert (Ep : FixAndCleanPath p = render (mem_seg b :: l)) by (by rewrite FixAndCleanPath_segs, Hl).
    rewrite Ep. destruct (w !! (b, render l)) as [m|] eqn:Em.
    { split_ands; [done..|by left|]. intros _. by rewrite mem_dir_good, Em by done. }
    split_ands; [intros v f|intros v|by left|intros _]; rewrite mem_dir_set by done.
    + case_bool_decide; [subst v|done]. by rewrite mem_dir_good, Em by done.
    + destruct (bool_decide (v = _)); [|done]. intros _. by apply bool_decide_eq_true_2.
    + by rewrite bool_decide_eq_true_2 by (by rewrite bool_decide_eq_true_2).
Qed.
End laws.

Lemma mem_reliable : @reliable (MemRemotes resolve_xy (λ _, false)) (MemView resolve_xy (λ _, false)).
Proof.
  split.
  - intros b a u w Hd _ _ _. simpl in *. rewrite mem_locate_segs in Hd.
    rewrite mem_dir_good in Hd by apply path_segs_good. apply bool_decide_eq_true in Hd as [m Hm].
    by rewrite FixAndCleanPath_segs, Hm.
  - done.
  - intros s t w Hg Hd. simpl in *. apply bool_decide_eq_true in Hd as [m Hm].
    apply mem_dir_Some in Hm as (b & l & El & Hl & _).
    apply Forall_app in Hg as [Hs Ht].
    apply render_good_inj in El; [|done|constructor; [apply mem_seg_good|done]]. subst s.
    rewrite FixAndCleanPath_render by (apply Forall_app_2; [constructor; [apply mem_seg_good|done]|done]).
    rewrite <- app_comm_cons, resolve_xy_good; [done|]. by apply Forall_app_2.
Qed.
