(* ===== verification/ChunkerThms.v ===== *)
(** * The chunker driver: theorems

    Chunk names and metadata are read back as they were written; the reader
    of the parts gives exactly the range asked for; a file that was uploaded
    reads as what was uploaded, and an upload that fails before the file's own
    object is replaced leaves it as it was.  The last theorem shows, on two
    storages in memory, where the driver misreads what is there. *)

From S2P Require Import Prelude GoStrings Errs Store Paths HttpRange Json Crypto ChunkerNames ChunkerNamesThms Chunker ChunkerRead ChunkerServe ChunkerPut ChunkerMem.

Local Open Scope Z_scope.

(** ** Names and metadata *)

(** For every accepted name format whose text between name and number ends
    in a byte that is no lower-case letter, digit or underscore and does not
    occur after the number, where no digit follows: the name made for a chunk
    of a file is parsed to that file, that number and that transaction. *)
Theorem chunk_name_roundtrip pattern d dir base no x :
  setChunkNameFormat pattern = Ret (inr (nameRegexp_of d, dataNameFmt d)) →
  separated (nameRegexp_of d) = true →
  dir_part dir → file_name base → int64_ok (StartFrom d) → 0 ≤ no ≤ max_int64 →
  0 ≤ no + StartFrom d ≤ max_int64 → xact_ok x = true →
  parseChunkName d (makeChunkName d (dir ++ base) no x) = (dir ++ base, no, [], x).
Proof. apply parseChunkName_make. Qed.

Definition default_names_of : name_format :=
  {| nameRegexp_of := {| re_beforeName := []; re_between := #".rclone_chunk."; re_width := 3; re_afterChunk := [] |};
     dataNameFmt := #"%s.rclone_chunk.%03d"; StartFrom := 1 |}.

(** The metadata written for a file fits the size limit and is read back:
    the size, the number of chunks, the hashes and the transaction. *)
Theorem metadata_roundtrip size n md5v sha1v x :
  0 ≤ size ≤ max_int64 → 1 ≤ n ≤ maxSafeChunkNumber →
  hash_ok 32 md5v → hash_ok 40 sha1v → xact_ok x = true →
  ∃ data, marshalMetadata size n md5v sha1v x = inr data ∧ Z.of_nat (length data) < maxMetadataSizeWrite ∧
    unmarshalMetadata data
    = inr {| m_Version := if bool_decide (x = []) then 1 else 2; m_Size := size; m_NChunks := n;
             m_MD5 := md5v; m_SHA1 := sha1v; m_XactID := x |}.
Proof.
  intros Hs Hn Hm Hh Hx. destruct (unmarshal_marshal size n md5v sha1v x) as (data & E & Hl & U); [done..|].
  exists data. unfold maxMetadataSizeWrite. split_ands; [done|lia|done].
Qed.

(** ** Reading *)

(** The reader over the parts of a file, when each part's link gives the
    part: a start outside the file is refused; a range without an end, or one
    that reaches over the end of the file, is cut there; an inner range is
    given exactly, whichever parts it spans; and one whose end is no 64-bit
    number ends in an error. *)
Theorem openChunkReader_exact {RM : Remotes} w parts cs r :
  Forall2 (part_gives w) parts cs → zlen (concat cs) ≤ max_int64 →
  int64_ok (Start r) → int64_ok (Length r) →
  let c := concat cs in
  openChunkReader parts (zlen c) r w
  = if (Start r <? 0) || (zlen c <? Start r) then inl (EMessage #"range start out of bound")
    else if (Length r <? 0) || ((zlen c <? Start r + Length r) && (Start r + Length r <=? max_int64))
    then inr (drop (Z.to_nat (Start r)) c)
    else if max_int64 <? Start r + Length r then inl (EMessage #"missing chunk data")
    else inr (section c (Start r) (Length r)).
Proof. apply openChunkReader_reads. Qed.

(** The storages [/x] and [/y], without failures. *)
Abbreviation Mem := (MemRemotes resolve_xy (λ _, false)).

Definition mem_part (no : Z) (c : gostr) : @linkedPart Mem :=
  {| lp_part := {| p_No := no; p_Size := zlen c; p_XactID := []; p_RemoteIndex := 0 |};
     lp_link := {| l_MFile := Some c; l_RangeReadCloser := None; l_URL := [] |} |}.

(** ** Uploading *)

(** An upload of the file [n] into the directory [segs]. *)
Record upload_ok `{RemoteView} (pattern : gostr) (d : Chunker) (segs : list gostr) (n : gostr)
    (now : Z) (dstDir : Obj) (s : streamer) (w : World) : Prop := {
  up_driver : driver_ok pattern d;
  up_meta : MetaFormat (d_Addition d) = #"simplejson";
  up_dir : Forall good_seg segs;
  up_file : file_ok d n;
  up_now : 0 ≤ now;
  up_dst : GetPath dstDir = render segs;
  up_name : s_Name s = n;
  up_size : s_Size s = zlen (s_Content s);
  up_max : s_Size s ≤ max_int64;
  up_count : s_Size s ≤ ChunkSize (d_Addition d) * maxSafeChunkNumber;
  up_roots : roots d w;
  up_files : files_only d n segs w;
  up_exist : ∀ o, s_Exist s ≫= linkedObject = Some o → existing_ok d n segs (new_xactID now) o;
}.

(** A large file is uploaded under a transaction of which there are no chunks;
    the content of a small one is not taken for metadata of chunks there are. *)
Definition upload_new `{RemoteView} (d : Chunker) (segs : list gostr) (n : gostr) (now : Z) (s : streamer) (w : World) : Prop :=
  if s_Size s <=? ChunkSize (d_Addition d) then not_metadata d n segs s w
  else fresh_xact d n segs (new_xactID now) w.

(** A file of the directory as [Put] lays it out. *)
Definition laid_out `{RemoteView} (d : Chunker) (segs : list gostr) (m : gostr) (w : World) (c : gostr) : Prop :=
  (∃ x, chunked_at d m segs w x c) ∨ plain_at d m segs w c.

Section upload.
Context {RM : Remotes} {RV : RemoteView} {RL : ReadLaws} {WL : WriteLaws}.
Context (pattern : gostr) (d : Chunker) (segs : list gostr).

Lemma laid_out_serves (DK : driver_ok pattern d) n w c : Forall good_seg segs → file_ok d n →
  laid_out d segs n w c → serves d w (render (segs ++ [n])) c.
Proof. intros Hs FO [(x & H)|H]; [by eapply chunked_serves|by eapply plain_serves]. Qed.

(** Another file of the directory is laid out as before. *)
Lemma neighbour_kept (DK : driver_ok pattern d) n m w w' c :
  file_ok d n → file_ok d m → m ≠ n → changes d segs (own_file d n segs) w w' →
  laid_out d segs m w c → laid_out d segs m w' c.
Proof.
  intros FN FM Hmn C.
  assert (Hother : ∀ i f, f = m ∨ (parseChunkName (nf d) f).1.1.1 = m → stored d segs w' i f = stored d segs w i f).
  { intros i f Hf. apply (cg_look _ _ _ _ _ C). intros (j & _ & _ & [Hn|Hn]); destruct Hf as [Hf|Hf]; subst.
    - done.
    - rewrite (fo_plain _ _ FN) in FM. by destruct (fo_name _ _ FM).
    - rewrite (fo_plain _ _ FM) in FN. by destruct (fo_name _ _ FN).
    - done. }
  assert (Hsub : no_subdir d m segs w → no_subdir d m segs w').
  { intros H i Hi. rewrite (cg_sub _ _ _ _ _ C) by done. by apply H. }
  intros [(x & [X1 X2 X3 (cs & E & Hne & [K1 K2 K3]) X5])|[P1 P2 P3 P4]]; [left; exists x|right].
  - split; [done|done|by rewrite Hother by (by left)| |by apply Hsub].
    exists cs. split; [done|]. split; [done|]. split; [done| |].
    + intros k c' Hk. rewrite Hother; [by apply K2|]. right. rewrite (parse_chunk_name pattern); [done..| |done].
      apply lookup_lt_Some in Hk. unfold chunk_no. lia.
    + intros i f no Hi Hst Hpe. rewrite Hother in Hst by (right; by rewrite Hpe). by apply K3.
  - split; [by rewrite Hother by (by left)|done| |by apply Hsub].
    destruct P3 as [P3|P3]; [by left|right]. intros i f Hi Hst Hpe.
    rewrite Hother in Hst by (by right). by apply (P3 i f).
Qed.

Lemma ends_Put n now dstDir s w :
  upload_ok pattern d segs n now dstDir s w → upload_new d segs n now s w →
  ends (Put d now dstDir s) w (λ r w', changes d segs (own_file d n segs) w w' ∧
    (∀ u, r = inr u → laid_out d segs n w' (s_Content s)) ∧ (reliable → r = inr ())).
Proof.
  intros [DK Hm Hd FO Hn Hdst Hname Hsz Hmax Hct Hr Hf Hex] Hnew. unfold upload_new in Hnew.
  destruct (new_xactID_ok now Hn) as [Hx _].
  assert (Hj : path_join (render segs) n = render (segs ++ [n])).
  { apply path_join_name; [by apply good_norm|apply (fo_seg _ _ FO)]. }
  pose proof (path_segs_render segs Hd) as Hp.
  destruct (s_Size s <=? ChunkSize (d_Addition d)) eqn:E; reflect_bools.
  - eapply ends_mono; [by eapply ends_Put_small|]. intros r w' (C & D & R). split; [done|]. split; [|done].
    intros u Hu. right. by eapply D.
  - eapply ends_mono; [by eapply ends_Put_large|]. intros r w' (C & D & _ & R). split; [done|]. split; [|done].
    intros u Hu. left. eexists. by eapply D.
Qed.

(** C19. An upload through the chunker ends (no index leaves the target list
    and the loop over the chunks stops), and when it reports success, the file
    is found with its size and its link gives every range of what was
    uploaded, whether it was stored whole or cut into chunks.  Whatever its
    outcome, only objects with the name of the file or of a chunk of it are
    touched, so the other files of the directory read as before; over remotes
    whose writes do not fail it succeeds.

    It holds under [upload_ok] and [upload_new]: metadata are written as
    simplejson; a chunk format the driver accepts whose parts are separated; at
    most [maxSafeChunkNumber] chunks; remotes that resolve to their own
    storages and are not nested in each other; a name that is not itself of
    the form of a chunk, and no directory of that name; for a large file no
    chunk of the same transaction, and for a small one content that is not
    read as metadata where chunks of the name exist.  What happens outside of
    these is in [chunker_misreads]. *)
Theorem chunker_put_get n now dstDir s w :
  upload_ok pattern d segs n now dstDir s w → upload_new d segs n now s w →
  ends (Put d now dstDir s) w (λ r w',
    (∀ u, r = inr u → serves d w' (render (segs ++ [n])) (s_Content s)) ∧
    (∀ v f, ¬ own_file d n segs v f → look w' v f = look w v f) ∧
    (∀ m c, file_ok d m → m ≠ n → laid_out d segs m w c → serves d w' (render (segs ++ [m])) c) ∧
    (reliable → r = inr ())).
Proof.
  intros U N. pose proof U as [DK _ Hd FO]. eapply ends_mono; [by apply ends_Put|].
  intros r w' (C & D & R). split; [|split; [apply C|split; [|done]]].
  - intros u Hu. apply laid_out_serves; [done..|]. by eapply D.
  - intros m c FM Hmn Hc. apply laid_out_serves; [done..|]. by eapply (neighbour_kept DK n).
Qed.

(** C20. A file is replaced at once: after an upload of a large file, with
    whatever outcome, the file reads as the new content, or, as long as its own
    object is the one from before, as the old content, whether that was stored
    whole or in chunks of another transaction.  It holds under [upload_ok] (in
    particular with metadata as simplejson: without metadata chunks carry no
    transaction, and a failed upload overwrites old chunks in place), for a new
    transaction of which there are no chunks, and an old file that is in chunks
    of another transaction or whole and not readable as metadata. *)
Theorem chunker_put_atomic n now dstDir s w old :
  upload_ok pattern d segs n now dstDir s w → ChunkSize (d_Addition d) < s_Size s →
  fresh_xact d n segs (new_xactID now) w → old_layout d n segs (new_xactID now) w old →
  ends (Put d now dstDir s) w (λ r w',
    serves d w' (render (segs ++ [n])) (s_Content s) ∨
    (stored d segs w' 0 n = stored d segs w 0 n → serves d w' (render (segs ++ [n])) old)).
Proof.
  intros [DK Hm Hd FO Hn Hdst Hname Hsz Hmax Hct Hr Hf Hex] Hbig Hnew Hold.
  destruct (new_xactID_ok now Hn) as [Hx _].
  assert (Hj : path_join (render segs) n = render (segs ++ [n])).
  { apply path_join_name; [by apply good_norm|apply (fo_seg _ _ FO)]. }
  pose proof (path_segs_render segs Hd) as Hp.
  eapply ends_mono; [by eapply ends_Put_large|]. intros r w' (_ & D & D' & _).
  destruct r as [e|u]; [|left; eapply chunked_serves; [done..|]; by eapply D].
  destruct (D' e eq_refl) as [Hu|Hc]; [right|left; by eapply chunked_serves].
  intros Hbase. eapply (old_layout_serves pattern d DK n FO segs Hd (new_xactID now)).
  by eapply (old_survives pattern d DK n FO segs (new_xactID now) Hx s w).
Qed.
End upload.

(** *** Two storages, chunks of four bytes *)

Definition xy_options : Addition :=
  {| RemotePath := #"/x"; RemotePaths := #"/y"; StoreChunksInPrimary := true; ChunkSize := 4;
     NameFormat := default_format; a_StartFrom := 1; MetaFormat := #"simplejson"; HashType := #"md5" |}.

Definition xy_driver (bad : gostr → bool) : @Chunker (MemRemotes resolve_xy bad) :=
  @Build_Chunker (MemRemotes resolve_xy bad) xy_options (nameRegexp_of default_names_of) (dataNameFmt default_names_of)
    [@Build_remoteTarget (MemRemotes resolve_xy bad) #"/x" false; @Build_remoteTarget (MemRemotes resolve_xy bad) #"/y" true].

(** The roots of the storages, and the file [/a/f.bin] as one object. *)
Definition xy_world : mem_world :=
  {[ (false, #"/") := ∅; (true, #"/") := ∅; (false, #"/a") := {[ #"f.bin" := #"old" ]} ]}.

Definition xy_upload : streamer :=
  {| s_Name := #"f.bin"; s_Size := 11; s_ModTime := 0; s_CreateTime := 0; s_Content := #"hello world"; s_Exist := None |}.

Definition xy_dir : Obj :=
  Plain {| o_Path := #"/a"; o_Name := #"a"; o_Size := 0; o_Modified := 0; o_Ctime := 0; o_IsFolder := true;
           o_HashInfo := ∅ |}.

(** What [Init] makes of options, over storages in memory. *)
Definition mem_init (a : Addition) : option (Addition * nameRegexp * gostr * list (gostr * bool)) :=
  match @Init Mem a xy_world with
  | Done (inr d) _ => Some (d_Addition d, d_nameRegexp d, d_dataNameFmt d,
                            map (λ t : @remoteTarget Mem, (MountPath t, Storage t : bool)) (remoteTargets d))
  | _ => None
  end.

Example xy_driver_init :
  mem_init xy_options
  = Some (xy_options, nameRegexp_of default_names_of, dataNameFmt default_names_of, [( #"/x", false); ( #"/y", true)]).
Proof. by vm_compute. Qed.

Section xy.
Context (bad : gostr → bool).
Abbreviation RM := (MemRemotes resolve_xy bad).
Abbreviation RV := (MemView resolve_xy bad).

Lemma xy_targets i t : remoteTargets (xy_driver bad) !! i = Some t →
  ∃ b, MountPath t = mem_mount b ∧ Storage t = b ∧ i = (if b then 1 else 0)%nat.
Proof.
  destruct i as [|[|i]]; intros H; [injection H as <-; by exists false|injection H as <-; by exists true|].
  by apply lookup_lt_Some in H as ?%Nat.ltb_lt.
Qed.

Lemma xy_driver_ok : @driver_ok RM RV default_format (xy_driver bad).
Proof.
  split; try done.
  - apply (bool_decide_unpack _). by vm_compute.
  - intros i t p w (b & Hm & Hs & _)%xy_targets.
    assert (Hv : vpath t p = render (mem_seg b :: path_segs p)).
    { unfold vpath. rewrite joinRemotePathWithBase_segs, Hm. by destruct b. }
    exists b, (render (path_segs p)). rewrite Hv, Hs. pose proof (path_segs_good p) as Hg. cbn [op_GetStorageAndActualPath MemRemotes].
    rewrite FixAndCleanPath_render by (constructor; [apply mem_seg_good|done]).
    rewrite resolve_xy_good by done. split; [done|]. cbn [locate MemView].
    by rewrite mem_locate_segs, path_segs_render.
  - intros i j t u (b & Ht & _ & ->)%xy_targets (b' & Hu & _ & ->)%xy_targets Hij. rewrite Ht, Hu.
    destruct b, b'; [done| | |done]; intros Hp; by apply prefix_cons_inv_1 in Hp.
Qed.

Lemma xy_file_ok : @file_ok RM (xy_driver bad) #"f.bin".
Proof. split; [apply (bool_decide_unpack _)..|]; by vm_compute. Qed.

Lemma xy_stored i f : is_Some (@stored RM RV (xy_driver bad) [ #"a"] xy_world i f) → i = 0%nat ∧ f = #"f.bin".
Proof.
  destruct i as [|[|i]]; intros [c Hc].
  - split; [done|]. change (({[ #"f.bin" := #"old" ]} : gmap gostr gostr) !! f = Some c) in Hc.
    by apply lookup_singleton_Some in Hc as [-> _].
  - done.
  - done.
Qed.

Lemma xy_fresh now : @fresh_xact RM RV (xy_driver bad) #"f.bin" [ #"a"] (new_xactID now) xy_world.
Proof.
  intros i f no _ [_ ->]%xy_stored E. apply (f_equal (λ t, t.1.1.1)) in E.
  rewrite (fo_plain _ _ xy_file_ok) in E. done.
Qed.

Lemma xy_upload_ok now : 0 ≤ now →
  @upload_ok RM RV default_format (xy_driver bad) [ #"a"] #"f.bin" now xy_dir xy_upload xy_world.
Proof.
  intros Hn. split; try done.
  - apply xy_driver_ok.
  - constructor; [apply (bool_decide_unpack _); by vm_compute|constructor].
  - apply xy_file_ok.
  - intros i Hi. destruct i as [|[|i]]; [done|done|]. by apply Nat.ltb_lt in Hi.
Qed.
End xy.

Lemma chunker_put_get_witness :
  let d := xy_driver (λ _, false) in
  ends (Put d 1700000000 xy_dir xy_upload) xy_world (λ r w',
    (∀ u, r = inr u → @serves Mem d w' #"/a/f.bin" #"hello world") ∧
    (∀ v f, ¬ @own_file Mem d #"f.bin" [ #"a"] v f → @look Mem (MemView _ _) w' v f = @look Mem (MemView _ _) xy_world v f) ∧
    (∀ m c, file_ok d m → m ≠ #"f.bin" → @laid_out Mem (MemView _ _) d [ #"a"] m xy_world c →
       serves d w' (render [ #"a"; m]) c) ∧
    (@reliable Mem (MemView _ _) → r = inr ())).
Proof.
  cbv zeta.
  apply (@chunker_put_get Mem (MemView resolve_xy (λ _, false)) _ _ default_format (xy_driver (λ _, false)) [ #"a"]
    #"f.bin" 1700000000 xy_dir xy_upload xy_world).
  - by apply xy_upload_ok.
  - apply xy_fresh.
Defined.

(** The upload of the last chunk fails. *)
Definition last_bad (f : gostr) : bool := HasPrefix f #"f.bin.rclone_chunk.003".

Lemma chunker_put_atomic_witness :
  let d := xy_driver last_bad in
  ends (Put d 1700000000 xy_dir xy_upload) xy_world (λ r w',
    serves d w' #"/a/f.bin" #"hello world" ∨
    (@stored _ (MemView resolve_xy last_bad) d [ #"a"] w' 0 #"f.bin"
     = @stored _ (MemView resolve_xy last_bad) d [ #"a"] xy_world 0 #"f.bin" → serves d w' #"/a/f.bin" #"old")).
Proof.
  cbv zeta.
  apply (@chunker_put_atomic _ (MemView resolve_xy last_bad) _ _ default_format (xy_driver last_bad) [ #"a"]
    #"f.bin" 1700000000 xy_dir xy_upload xy_world).
  - by apply xy_upload_ok.
  - done.
  - apply xy_fresh.
  - right. split; [split; [done|done| |done]|].
    + left. intros meta E. by vm_compute in E.
    + intros meta E. by vm_compute in E.
Defined.

(** ** Where the driver misreads *)

(** Get a file and read a range of it: its size, and the bytes or an error. *)
Definition read_file {RM : Remotes} (d : Chunker) (p : gostr) (off len : Z) (w : World) : option (Z * result gostr) :=
  match Get d p w with
  | Done (inr o) w1 =>
      match Link d o w1 with
      | Done (inr l) w2 => Some (GetSize o, openPartRange l (GetSize o) off len w2)
      | _ => None
      end
  | _ => None
  end.

(** The world an upload leaves when it succeeds. *)
Definition uploaded (s : streamer) (w : mem_world) : option mem_world :=
  match Put (xy_driver (λ _, false)) 1700000000 xy_dir s w with Done (inr _) w' => Some w' | _ => None end.

(** The last chunk of the upload is not taken by the remote. *)
Definition failed_upload : option mem_world :=
  match Put (xy_driver last_bad) 1700000000 xy_dir xy_upload xy_world with Done (inl _) w' => Some w' | _ => None end.

Example failed_upload_keeps :
  (λ w, (@read_file (MemRemotes resolve_xy last_bad) (xy_driver last_bad) #"/a/f.bin" 0 3 w)) <$> failed_upload
  = Some (Some (3, inr #"old")).
Proof. by vm_compute. Qed.

Definition chunk_002 : gostr := #"f.bin.rclone_chunk.002_s44we8".

(** A driver on the storage [/x], in which [/x/sub] is another storage. *)
Abbreviation Nested := (MemRemotes resolve_nested (λ _, false)).
Definition nested_driver : @Chunker Nested :=
  @Build_Chunker Nested xy_options (nameRegexp_of default_names_of) (dataNameFmt default_names_of)
    [@Build_remoteTarget Nested #"/x" false].
Definition nested_world : mem_world :=
  {[ (false, #"/") := {[ #"f.bin" := #"outside" ]}; (true, #"/") := {[ #"f.bin" := #"beneath" ]} ]}.

Definition small_upload : streamer :=
  {| s_Name := #"g.rclone_chunk.001"; s_Size := 3; s_ModTime := 0; s_CreateTime := 0; s_Content := #"abc"; s_Exist := None |}.

(** What the driver does not notice.  A chunk in the middle of a file is
    gone: the file keeps its size and ranges behind the gap are read from the
    wrong place, without an error, since the number of chunks in the metadata
    is never compared.  Another storage is mounted inside the remote: a file
    of it is listed there, but read from the same path of the outer storage.
    A small file whose name looks like a chunk is stored and never found
    again.  The format of name and number without anything between is accepted
    although two files get the same chunk name; a width above 1000 makes
    [regexp.MustCompile] panic; a start of 0 is silently replaced by 1. *)
Theorem chunker_misreads :
  (w ← uploaded xy_upload xy_world;
   read_file (xy_driver (λ _, false)) #"/a/f.bin" 4 3 w) = Some (11, inr #"o w") ∧
  (w ← uploaded xy_upload xy_world;
   read_file (xy_driver (λ _, false)) #"/a/f.bin" 4 3 (alter (delete chunk_002) (true, #"/a") w)) = Some (11, inr #"rld") ∧
  @read_file Nested nested_driver #"/sub/f.bin" 0 7 nested_world = Some (7, inr #"outside") ∧
  (w ← uploaded small_upload xy_world; read_file (xy_driver (λ _, false)) #"/a/g.rclone_chunk.001" 0 3 w) = None ∧
  ((λ d, (makeChunkName d #"a" 10 [], makeChunkName d #"a1" 0 [])) <$> names_of #"{name}{chunk}" 1)
    = Some ( #"a11", #"a11") ∧
  setChunkNameFormat #"{name}.{chunk:1001}" = Panic ∧
  a_StartFrom (with_defaults {| RemotePath := #"/x"; RemotePaths := []; StoreChunksInPrimary := true; ChunkSize := 4;
    NameFormat := []; a_StartFrom := 0; MetaFormat := []; HashType := [] |}) = 1.
Proof. split_ands; by vm_compute. Qed.
