(* ===== verification/UrlTree.v ===== *)
(** * A driver whose files are links: [drivers/url_tree]

    The tree of names and links is kept as text in the storage's settings:
    [BuildTree] reads it, [StringifyTree] writes it back after every change.
    A found node is a pointer in the code; here [alterByPath] changes the node
    that [getByPath] finds. *)

From S2P Require Import Prelude GoStrings Errs.

Local Open Scope Z_scope.

(** ** Nodes: [types.go] *)

Inductive Node := mkNode {
  n_Url : gostr;
  n_Name : gostr;
  n_Level : Z;
  n_Modified : Z;
  n_Size : Z;
  n_Children : list Node;
}.

Definition set_Children (l : list Node) (n : Node) : Node :=
  mkNode (n_Url n) (n_Name n) (n_Level n) (n_Modified n) (n_Size n) l.
Definition set_Level (level : Z) (n : Node) : Node :=
  mkNode (n_Url n) (n_Name n) level (n_Modified n) (n_Size n) (n_Children n).
Definition set_Name (name : gostr) (n : Node) : Node :=
  mkNode (n_Url n) name (n_Level n) (n_Modified n) (n_Size n) (n_Children n).
Definition add_child (c n : Node) : Node := set_Children (n_Children n ++ [c]) n.

Definition isFile (n : Node) : bool := bool_decide (n_Url n ≠ []).

(** The first child for which the search succeeds. *)
Fixpoint first_some {A B} (f : A → option B) (l : list A) : option B :=
  match l with
  | [] => None
  | x :: l' => match f x with Some y => Some y | None => first_some f l' end
  end.

Fixpoint getByPath (paths : list gostr) (node : Node) : option Node :=
  match paths with
  | [] => None
  | p :: ps =>
      if bool_decide (n_Name node ≠ p) then None
      else match ps with [] => Some node | _ => first_some (getByPath ps) (n_Children node) end
  end.

Fixpoint alter_first {A} (f : A → option A) (l : list A) : option (list A) :=
  match l with
  | [] => None
  | x :: l' => match f x with Some y => Some (y :: l') | None => cons x <$> alter_first f l' end
  end.

Fixpoint alterByPath (g : Node → Node) (paths : list gostr) (node : Node) : option Node :=
  match paths with
  | [] => None
  | p :: ps =>
      if bool_decide (n_Name node ≠ p) then None
      else
        match ps with
        | [] => Some (g node)
        | _ => (λ l, set_Children l node) <$> alter_first (alterByPath g ps) (n_Children node)
        end
  end.

Fixpoint calSize (n : Node) : Node :=
  match n with
  | mkNode url name level modified size l =>
      if bool_decide (url ≠ []) then n
      else
        let l := map calSize l in
        mkNode url name level modified (fold_left (λ s c, wrap64 (s + n_Size c)) l 0) l
  end.

Fixpoint setLevel (level : Z) (n : Node) : Node :=
  match n with
  | mkNode url name _ modified size l => mkNode url name level modified size (map (setLevel (level + 1)) l)
  end.

(** The copy shares nothing with the original. *)
Definition deepCopy (level : Z) (n : Node) : Node := setLevel level n.

(** ** The text: [util.go] *)

(** [getSizeFromUrl], the template of the download parameters and the query
    that is put on an address. *)
Class UrlEnv := {
  getSizeFromUrl : gostr → option Z;
  downloadParams : gostr → option (Node → gostr → result gostr);
  injectQuery : gostr → gostr → result gostr;
}.

Section text.
Context {UE : UrlEnv}.

Definition http : gostr := #"http://".
Definition https : gostr := #"https://".

Definition isFolder (line : gostr) : bool := HasSuffix line #":".

Definition file_node (url name : gostr) (size modified : Z) : Node := mkNode url name 0 modified size [].

Definition invalid {A} : result A := inl (EMessage #"invalid line").

(** The size is looked up when the line has none. *)
Definition with_head (headSize : bool) (n : Node) : Node :=
  if headSize then
    match getSizeFromUrl (n_Url n) with
    | Some size => mkNode (n_Url n) (n_Name n) (n_Level n) (n_Modified n) size (n_Children n)
    | None => n
    end
  else n.

Definition parseFileLine (line : gostr) (headSize : bool) : result Node :=
  if negb (Contains line http) && negb (Contains line https) then invalid
  else
    let index := if Index line http =? -1 then Index line https else Index line http in
    let url := drop (Z.to_nat index) line in
    let info := take (Z.to_nat index) line in
    if 0 <? index then
      if negb (HasSuffix info #":") then invalid
      else
        let info := take (length info - 1) info in
        if bool_decide (info = []) then invalid
        else
          match Split ":" info with
          | [] => invalid
          | [name] => inr (with_head headSize (file_node url name 0 0))
          | [name; s] =>
              match ParseInt s with
              | (size, None) => inr (file_node url name size 0)
              | _ => invalid
              end
          | name :: s :: m :: _ =>
              match ParseInt s, ParseInt m with
              | (size, None), (modified, None) => inr (file_node url name size modified)
              | _, _ => invalid
              end
          end
    else inr (with_head headSize (file_node url (path_Base url) 0 0)).

(** The stack, its top apart.  In the code a node on the stack is already the
    last child of the node below it; here it becomes that when it is popped. *)
Definition stack := (Node * list Node)%type.

(** The root has level [-1] and is never popped. *)
Fixpoint pop_to (level : Z) (top : Node) (rest : list Node) : stack :=
  match rest with
  | [] => (top, [])
  | below :: rest' => if level <=? n_Level top then pop_to level (add_child top below) rest' else (top, rest)
  end.

Fixpoint count_spaces (s : gostr) : nat :=
  match s with
  | c :: s' => if bool_decide (c = " "%char) then S (count_spaces s') else 0
  | [] => 0
  end.

Definition build_line (headSize : bool) (line : gostr) (st : stack) : result stack :=
  let indent := count_spaces line in
  if Nat.odd indent then inl (EMessage #"the line is not a multiple of 2")
  else
    let level := Z.of_nat (indent / 2) in
    let line := TrimSpace (drop indent line) in
    if bool_decide (line = []) then inr st
    else
      let '(top, rest) := pop_to level st.1 st.2 in
      if isFolder line then inr (mkNode [] (TrimSuffix line #":") level 0 0 [], top :: rest)
      else
        let! node := parseFileLine line headSize in
        inr (add_child (set_Level level node) top, rest).

Fixpoint build_lines (headSize : bool) (lines : list gostr) (st : stack) : result stack :=
  match lines with
  | [] => inr st
  | line :: lines' => let! st := build_line headSize line st in build_lines headSize lines' st
  end.

Definition root_node : Node := mkNode [] #"root" (-1) 0 0 [].

Definition BuildTree (text : gostr) (headSize : bool) : result Node :=
  let! (top, rest) := build_lines headSize (Split "010" text) (root_node, []) in
  inr (fst (pop_to 0 top rest)).

Definition nl : gostr := ["010"%char].

(** The line of a file without its indentation. *)
Definition file_text (url name : gostr) (size modified : Z) : gostr :=
  if (size =? 0) && (modified =? 0) then
    if bool_decide (path_Base url = name) then url else name ++ #":" ++ url
  else
    name ++ #":" ++ FormatInt size ++ #":"
      ++ (if negb (modified =? 0) then FormatInt modified ++ #":" else []) ++ url.

Definition spaces (level : Z) : gostr := replicate (2 * Z.to_nat level) " "%char.

Fixpoint StringifyTree (n : Node) : gostr :=
  match n with
  | mkNode url name level modified size l =>
      if level =? -1 then Join nl (map StringifyTree l)
      else
        spaces level ++
        if bool_decide (url = []) then name ++ #":" ++ concat (map (λ c, nl ++ StringifyTree c) l)
        else file_text url name size modified
  end.

Definition splitPath (path : gostr) : list gostr :=
  if bool_decide (path = #"/") then [ #"root"]
  else
    let path := if HasSuffix path #"/" then take (length path - 1) path else path in
    #"root" :: tail (Split "/" path).

Definition GetNodeFromRootByPath (root : Node) (path : gostr) : option Node := getByPath (splitPath path) root.

Record TObj := { t_Name : gostr; t_Size : Z; t_Modified : Z; t_IsFolder : bool; t_Path : gostr }.

Definition nodeToObj (n : Node) (path : gostr) : TObj :=
  {| t_Name := n_Name n; t_Size := n_Size n; t_Modified := n_Modified n; t_IsFolder := negb (isFile n); t_Path := path |}.

(** ** The driver: [driver.go] *)

(** [u_saved] is the text in the database. *)
Record Urls := {
  u_UrlStructure : gostr;
  u_HeadSize : bool;
  u_Writable : bool;
  u_DownloadParams : gostr;
  u_root : Node;
  u_tmpl : option (Node → gostr → result gostr);
  u_saved : gostr;
}.

Definition set_root (r : Node) (d : Urls) : Urls :=
  {| u_UrlStructure := u_UrlStructure d; u_HeadSize := u_HeadSize d; u_Writable := u_Writable d;
     u_DownloadParams := u_DownloadParams d; u_root := r; u_tmpl := u_tmpl d; u_saved := u_saved d |}.

Definition updateStorage (d : Urls) : Urls :=
  let text := StringifyTree (u_root d) in
  {| u_UrlStructure := text; u_HeadSize := u_HeadSize d; u_Writable := u_Writable d;
     u_DownloadParams := u_DownloadParams d; u_root := u_root d; u_tmpl := u_tmpl d; u_saved := text |}.

Definition Init (d : Urls) : result Urls :=
  let! node := BuildTree (u_UrlStructure d) (u_HeadSize d) in
  let d := set_root (calSize node) d in
  let params := TrimSpace (u_DownloadParams d) in
  let with_tmpl t := {| u_UrlStructure := u_UrlStructure d; u_HeadSize := u_HeadSize d; u_Writable := u_Writable d;
                        u_DownloadParams := u_DownloadParams d; u_root := u_root d; u_tmpl := t; u_saved := u_saved d |} in
  if bool_decide (params = []) then inr (with_tmpl None)
  else
    match downloadParams params with
    | None => inl (EMessage #"failed to parse download_params")
    | Some tmpl => inr (with_tmpl (Some tmpl))
    end.

Definition Get (path : gostr) (d : Urls) : result TObj :=
  match GetNodeFromRootByPath (u_root d) path with
  | None => inl (ESentinel ObjectNotFound)
  | Some n => inr (nodeToObj n path)
  end.

Definition List (dir : gostr) (d : Urls) : result (list TObj) :=
  match GetNodeFromRootByPath (u_root d) dir with
  | None => inl (ESentinel ObjectNotFound)
  | Some n =>
      if isFile n then inl (ESentinel NotFolder)
      else inr (map (λ c, nodeToObj c (path_join dir (n_Name c))) (n_Children n))
  end.

Definition buildDownloadURL (tmpl : Node → gostr → result gostr) (n : Node) (path : gostr) : result gostr :=
  let! s := tmpl n path in
  let rendered := TrimPrefix (TrimSpace s) #"?" in
  if bool_decide (rendered = []) then inr (n_Url n) else injectQuery (n_Url n) rendered.

Definition Link (path type : gostr) (d : Urls) : result gostr :=
  match GetNodeFromRootByPath (u_root d) path with
  | None => inl (ESentinel ObjectNotFound)
  | Some n =>
      if isFile n then
        match u_tmpl d with
        | Some tmpl => if bool_decide (type ≠ #"preview") then buildDownloadURL tmpl n path else inr (n_Url n)
        | None => inr (n_Url n)
        end
      else inl (ESentinel NotFile)
  end.

(** The change of a node, whose path was looked up before. *)
Definition alter (g : Node → Node) (path : gostr) (d : Urls) : Urls :=
  match alterByPath g (splitPath path) (u_root d) with Some r => set_root r d | None => d end.

Definition sized (d : Urls) : Urls := set_root (calSize (u_root d)) d.

Definition MakeDir (parentDir dirName : gostr) (d : Urls) : result TObj * Urls :=
  if negb (u_Writable d) then (inl (ESentinel PermissionDenied), d)
  else
    match GetNodeFromRootByPath (u_root d) parentDir with
    | None => (inl (ESentinel ObjectNotFound), d)
    | Some node =>
        if isFile node then (inl (ESentinel NotFolder), d)
        else
          let dir := mkNode [] dirName (n_Level node + 1) 0 0 [] in
          (inr (nodeToObj dir (path_join parentDir dirName)), updateStorage (alter (add_child dir) parentDir d))
    end.

(** A directory for what is moved, copied or put. *)
Definition target (dir : gostr) (d : Urls) : option Node :=
  match GetNodeFromRootByPath (u_root d) dir with
  | Some n => if isFile n then None else Some n
  | None => None
  end.

Definition without (name : gostr) (n : Node) : Node :=
  set_Children (filter (λ c, n_Name c ≠ name) (n_Children n)) n.

(** The last child of the name. *)
Definition named (name : gostr) (n : Node) : option Node := last (filter (λ c, n_Name c = name) (n_Children n)).

Definition Move (srcObj dstDir : gostr) (d : Urls) : result TObj * Urls :=
  if negb (u_Writable d) then (inl (ESentinel PermissionDenied), d)
  else if HasPrefix dstDir srcObj then (inl (EMessage #"cannot move parent dir to child"), d)
  else
    match target dstDir d with
    | None => (inl (ESentinel NotFolder), d)
    | Some dstNode =>
        let '(srcDir, srcName) := path_Split srcObj in
        match GetNodeFromRootByPath (u_root d) srcDir with
        | None => (inl (ESentinel ObjectNotFound), d)
        | Some srcParentNode =>
            match named srcName srcParentNode with
            | None => (inl (ESentinel ObjectNotFound), d)
            | Some srcNode =>
                let srcNode := setLevel (n_Level dstNode + 1) srcNode in
                let d := alter (add_child srcNode) dstDir (alter (without srcName) srcDir d) in
                (inr (nodeToObj (calSize srcNode) (path_join dstDir srcName)), updateStorage (sized d))
            end
        end
    end.

Definition Rename (srcObj newName : gostr) (d : Urls) : result TObj * Urls :=
  if negb (u_Writable d) then (inl (ESentinel PermissionDenied), d)
  else
    match GetNodeFromRootByPath (u_root d) srcObj with
    | None => (inl (ESentinel ObjectNotFound), d)
    | Some srcNode =>
        (inr (nodeToObj (set_Name newName srcNode) (path_join (path_Dir srcObj) newName)),
         updateStorage (alter (set_Name newName) srcObj d))
    end.

Definition Copy (srcObj dstDir : gostr) (d : Urls) : result TObj * Urls :=
  if negb (u_Writable d) then (inl (ESentinel PermissionDenied), d)
  else if HasPrefix dstDir srcObj then (inl (EMessage #"cannot copy parent dir to child"), d)
  else
    match target dstDir d with
    | None => (inl (ESentinel NotFolder), d)
    | Some dstNode =>
        match GetNodeFromRootByPath (u_root d) srcObj with
        | None => (inl (ESentinel ObjectNotFound), d)
        | Some srcNode =>
            let newNode := deepCopy (n_Level dstNode + 1) srcNode in
            (inr (nodeToObj (calSize newNode) (path_join dstDir (path_Base srcObj))),
             updateStorage (sized (alter (add_child newNode) dstDir d)))
        end
    end.

Definition Remove (obj : gostr) (d : Urls) : option error * Urls :=
  if negb (u_Writable d) then (Some (ESentinel PermissionDenied), d)
  else
    let '(objDir, objName) := path_Split obj in
    match GetNodeFromRootByPath (u_root d) objDir with
    | None => (Some (ESentinel ObjectNotFound), d)
    | Some nodeParent =>
        match named objName nodeParent with
        | None => (Some (ESentinel ObjectNotFound), d)
        | Some deletedObj =>
            let d := alter (without objName) objDir d in
            (None, updateStorage (if 0 <? n_Size deletedObj then sized d else d))
        end
    end.

Definition PutURL (dstDir name url : gostr) (d : Urls) : result TObj * Urls :=
  if negb (u_Writable d) then (inl (ESentinel PermissionDenied), d)
  else
    match target dstDir d with
    | None => (inl (ESentinel NotFolder), d)
    | Some dirNode =>
        let newNode := mkNode url name (n_Level dirNode + 1) 0 0 [] in
        let newNode := with_head (u_HeadSize d) newNode in
        let d' := alter (add_child newNode) dstDir d in
        let found := u_HeadSize d && bool_decide (is_Some (getSizeFromUrl url)) in
        (inr (nodeToObj newNode (path_join dstDir name)), updateStorage (if found then sized d' else d'))
    end.

(** The name of the stream is a line of the text. *)
Definition Put (dstDir streamName : gostr) (d : Urls) : option error * Urls :=
  if negb (u_Writable d) then (Some (ESentinel PermissionDenied), d)
  else
    match GetNodeFromRootByPath (u_root d) dstDir with
    | None => (Some (ESentinel ObjectNotFound), d)
    | Some node =>
        if isFile node then (Some (ESentinel NotFolder), d)
        else
          match parseFileLine streamName (u_HeadSize d) with
          | inl e => (Some e, d)
          | inr file => (None, updateStorage (alter (add_child file) dstDir d))
          end
    end.
End text.
