(* ===== verification/UrlTreeThms.v ===== *)
(** * The url_tree driver: its tree survives a restart

    After each change the tree is written to the settings; the text is read
    back as the same tree, whatever sequence of changes was made. *)

From S2P Require Import Prelude GoStrings Errs Crypto Sign UrlTree.

Local Open Scope Z_scope.

(** ** Searching and trimming *)

Lemma index_from_first i s sub n b : drop n s = sub ++ b → (n ≤ length s)%nat →
  (∀ a b', s = a ++ sub ++ b' → (n ≤ length a)%nat) → index_from i s sub = i + Z.of_nat n.
Proof.
  revert i n. induction s as [|c s IH]; intros i n Hd Hn Hfirst; simpl in *.
  - rewrite drop_nil in Hd. symmetry in Hd. apply app_nil in Hd as [-> ->]. simpl. lia.
  - destruct (HasPrefix (c :: s) sub) eqn:E.
    + apply HasPrefix_spec in E as [b' E]. specialize (Hfirst [] b' E). simpl in Hfirst. lia.
    + destruct n as [|n]; [simpl in Hd; by rewrite Hd, HasPrefix_app in E|]. simpl in Hd.
      rewrite (IH _ n); [lia|done|lia|]. intros a b' ->. specialize (Hfirst (c :: a) b' eq_refl). simpl in Hfirst. lia.
Qed.

Lemma Index_first a sub b : (∀ a' b', a ++ sub ++ b = a' ++ sub ++ b' → (length a ≤ length a')%nat) →
  Index (a ++ sub ++ b) sub = Z.of_nat (length a).
Proof.
  intros H. unfold Index. rewrite (index_from_first _ _ _ (length a) b); [lia| |rewrite length_app; lia|done].
  by rewrite drop_app_length.
Qed.

Lemma Index_none s sub : Contains s sub = false → Index s sub = -1.
Proof. unfold Contains, Index. intros H. destruct (index_from_neg 0 s sub) as [?|?]; [lia|done|]. apply Z.leb_gt in H. lia. Qed.

Lemma strip_none n rs s : first_rune rs s = None → strip_runes n rs s = s.
Proof. destruct n; simpl; [done|]. by intros ->. Qed.

Lemma TrimSpace_id s : first_rune space_runes s = None →
  first_rune (map (@reverse ascii) space_runes) (reverse s) = None → TrimSpace s = s.
Proof. intros H1 H2. unfold TrimSpace. rewrite (strip_none _ _ s) by done. rewrite strip_none by done. apply reverse_involutive. Qed.

Lemma first_rune_none rs s : first_rune rs s = None ↔ Forall (λ r, HasPrefix s r = false) rs.
Proof.
  induction rs as [|r rs IH]; simpl; [done|]. destruct (HasPrefix s r) eqn:E.
  - split; [done|]. intros [H _]%Forall_cons. congruence.
  - rewrite IH, Forall_cons. tauto.
Qed.

(** A text that starts with none of the runes still does not when it goes on
    with a byte that is in none of them. *)
Lemma first_rune_app rs s c t : Forall (λ r, c ∉ r) rs → first_rune rs s = None → first_rune rs (s ++ c :: t) = None.
Proof.
  rewrite !first_rune_none. intros Hc Hs. rewrite !Forall_forall in *. intros r Hr. specialize (Hs r Hr). specialize (Hc r Hr).
  destruct (HasPrefix (s ++ c :: t) r) eqn:E; [|done]. exfalso. apply HasPrefix_spec in E as [k E].
  apply app_eq_inv in E as [(l & -> & Hl)|(l & -> & Hl)].
  - assert (HasPrefix (r ++ l) r = true) by apply HasPrefix_app. congruence.
  - destruct l as [|c' l]; [rewrite app_nil_r in Hs; assert (HasPrefix s s = true) by (by apply HasPrefix_spec); congruence|].
    injection Hl as <- _. apply Hc. set_solver.
Qed.

(** ** Lines *)

(** Names that a line can begin with, and addresses that it can end with. *)
Definition ok_start (s : gostr) : Prop := ("010"%char ∉ s) ∧ first_rune space_runes s = None.

Definition ok_url (url : gostr) : Prop :=
  ("010"%char ∉ url) ∧ (HasPrefix url http = true ∨ HasPrefix url https = true ∧ Contains url http = false) ∧
  first_rune (map (@reverse ascii) space_runes) (reverse url) = None ∧ HasSuffix url #":" = false.

Definition ok_name (name : gostr) : Prop := name ≠ [] ∧ (":"%char ∉ name) ∧ ok_start name.

Definition ok_file (url name : gostr) (size modified : Z) : Prop :=
  ok_url url ∧ int64_ok size ∧ int64_ok modified ∧
  (ok_name name ∨ name = path_Base url ∧ size = 0 ∧ modified = 0).

(** What comes before the address. *)
Definition info (name : gostr) (size modified : Z) : gostr :=
  if (size =? 0) && (modified =? 0) then name ++ #":"
  else name ++ #":" ++ FormatInt size ++ #":" ++ (if negb (modified =? 0) then FormatInt modified ++ #":" else []).

Lemma file_text_info url name size modified :
  file_text url name size modified =
    if (size =? 0) && (modified =? 0) && bool_decide (path_Base url = name) then url else info name size modified ++ url.
Proof.
  unfold file_text, info. destruct ((size =? 0) && (modified =? 0)); cbn [andb].
  - case_bool_decide; [done|]. by rewrite <- app_assoc.
  - by rewrite <- !app_assoc.
Qed.

(** A colon of [i] is not followed by a slash, and [i] ends with one. *)
Definition colon_safe (i : gostr) : Prop := last i = Some ":"%char ∧ ∀ u v, i = u ++ ":"%char :: v → head v ≠ Some "/"%char.

Lemma colon_safe_app w i : (":"%char ∉ w) → (i = [] ∨ colon_safe i ∧ head i ≠ Some "/"%char) →
  colon_safe (w ++ ":"%char :: i).
Proof.
  intros Hw Hi. split.
  - destruct Hi as [->|[[Hl _] _]]; [by rewrite last_snoc|]. rewrite last_app_Some. left.
    destruct i; [done|]. done.
  - intros u v E. apply app_eq_inv in E as [(k & -> & E)|(k & -> & E)].
    + destruct k as [|c k]; simpl in E; [|injection E as <- ->; exfalso; apply Hw; set_solver].
      injection E as <-. destruct Hi as [->|[_ Hi]]; done.
    + destruct k as [|c k]; [|].
      * simpl in E. injection E as <-. destruct Hi as [->|[_ Hi]]; done.
      * injection E as <- ->. destruct Hi as [Hi|[[_ Hs] _]]; [by destruct k|]. by eapply Hs.
Qed.

Lemma FormatInt_safe n : (":"%char ∉ FormatInt n) ∧ head (FormatInt n) ≠ Some "/"%char.
Proof.
  split; [apply FormatInt_no_colon|]. pose proof (FormatInt_chars n) as Hc.
  destruct (FormatInt n) as [|c l]; [done|]. intros [= ->]. apply Forall_cons in Hc as [[E|E] _]; vm_compute in E; done.
Qed.

Lemma info_safe name size modified : (":"%char ∉ name) → colon_safe (info name size modified).
Proof.
  intros Hn. unfold info. destruct ((size =? 0) && (modified =? 0)); [by apply colon_safe_app; [|left]|].
  assert (Hd : ∀ n i, head (FormatInt n ++ i) ≠ Some "/"%char).
  { intros n i. pose proof (FormatInt_nonempty n). destruct (FormatInt_safe n) as [_ H']. by destruct (FormatInt n). }
  apply colon_safe_app; [done|]. right. split; [|apply Hd]. apply colon_safe_app; [apply FormatInt_no_colon|].
  destruct (negb (modified =? 0)); [|by left]. right. split; [|apply Hd]. apply colon_safe_app; [apply FormatInt_no_colon|by left].
Qed.

(** No address begins before the one at the end. *)
Lemma scheme_late i url q a b : colon_safe i → head url ≠ Some "/"%char → q ≠ [] → (":"%char ∉ q) →
  i ++ url = a ++ (q ++ #"://") ++ b → (length i ≤ length a)%nat.
Proof.
  intros [Hl Hs] Hu Hq Hc E. apply app_eq_inv in E as [(w & -> & E)|(w & -> & E)]; [|rewrite length_app; lia].
  destruct w as [|c w]; [rewrite app_nil_r; lia|]. exfalso. set (w' := c :: w) in *.
  assert (Hw : last w' = Some ":"%char).
  { rewrite last_app in Hl. by destruct (last w') eqn:El; [|apply last_None in El]. }
  rewrite <- app_assoc in E. apply app_eq_inv in E as [(k & Ek & E)|(k & Ek & E)].
  - apply Hc. rewrite Ek. apply elem_of_app. left. by eapply last_Some_elem_of.
  - destruct k as [|c' k].
    + rewrite app_nil_r in Ek. apply Hc. rewrite <- Ek. by eapply last_Some_elem_of.
    + simpl in E. injection E as <- E. destruct k as [|d k].
      * simpl in E. apply Hu. by rewrite <- E.
      * injection E as <- E. apply (Hs (a ++ q) ("/"%char :: k)); [|done]. by rewrite Ek, <- app_assoc.
Qed.

Lemma url_head url : ok_url url → ∃ s, url = "h"%char :: s.
Proof. intros (_ & [H|[H _]] & _); apply HasPrefix_spec in H as [k ->]; by eexists. Qed.

(** The address is found where it begins. *)
Lemma find_url i url : ok_url url → i = [] ∨ colon_safe i →
  (if Index (i ++ url) http =? -1 then Index (i ++ url) https else Index (i ++ url) http) = Z.of_nat (length i) ∧
  negb (Contains (i ++ url) http) && negb (Contains (i ++ url) https) = false.
Proof.
  intros Hu Hi. destruct (url_head _ Hu) as [s Es].
  assert (Hlate : ∀ q a b, q ≠ [] → (":"%char ∉ q) → i ++ url = a ++ (q ++ #"://") ++ b → (length i ≤ length a)%nat).
  { intros q a b Hq Hc E. destruct Hi as [->|Hi]; [simpl; lia|]. eapply scheme_late; [done| |done..]. by rewrite Es. }
  assert (Hidx : ∀ q k, q ≠ [] → (":"%char ∉ q) → url = (q ++ #"://") ++ k → Index (i ++ url) (q ++ #"://") = Z.of_nat (length i)).
  { intros q k Hq Hc ->. apply Index_first. intros a' b' E. by eapply Hlate. }
  assert (Hq1 : ":"%char ∉ #"http") by (by apply (bool_decide_unpack _)).
  assert (Hq2 : ":"%char ∉ #"https") by (by apply (bool_decide_unpack _)).
  destruct Hu as (_ & [H|[H Hno]] & _); apply HasPrefix_spec in H as [k Ek].
  - pose proof (Hidx #"http" k ltac:(done) Hq1 Ek) as E. change (#"http" ++ #"://") with http in E. rewrite E. split.
    + destruct (Z.eqb_spec (Z.of_nat (length i)) (-1)); [lia|done].
    + unfold Contains at 1. rewrite E. by rewrite (proj2 (Z.leb_le _ _)) by lia.
  - pose proof (Hidx #"https" k ltac:(done) Hq2 Ek) as E. change (#"https" ++ #"://") with https in E.
    assert (Hc : Contains (i ++ url) http = false).
    { destruct (Contains (i ++ url) http) eqn:Ec; [|done]. exfalso. apply Contains_spec in Ec as (a & b & Eab).
      assert (length i ≤ length a)%nat by (by eapply (Hlate #"http")).
      apply app_eq_inv in Eab as [(w & -> & Ew)|(w & -> & Ew)].
      - destruct w as [|c w]; [|rewrite length_app in *; simpl in *; lia].
        simpl in Ew. assert (Contains url http = true); [|congruence]. apply Contains_spec. by exists [], b.
      - assert (Contains url http = true); [|congruence]. apply Contains_spec. by exists w, b. }
    rewrite (Index_none _ _ Hc), Hc, E. split; [done|]. unfold Contains. rewrite E. by rewrite (proj2 (Z.leb_le _ _)) by lia.
Qed.

Section text.
Context {UE : UrlEnv}.

(** A file's line is read as the file. *)
Lemma parse_file url name size modified : ok_file url name size modified →
  parseFileLine (file_text url name size modified) false = inr (file_node url name size modified).
Proof.
  intros (Hu & Hs & Hm & Hn). rewrite file_text_info. destruct (_ && bool_decide _) eqn:Eb.
  - apply andb_true_iff in Eb as [Ez Eb]. apply andb_true_iff in Ez as [Es Em]. reflect_bools. subst.
    destruct (find_url [] url Hu (or_introl eq_refl)) as [Ei Ec]. simpl in Ei, Ec.
    unfold parseFileLine. rewrite Ec. cbv zeta. rewrite Ei. reflexivity.
  - assert (Hname : ok_name name).
    { destruct Hn as [Hn|(-> & -> & ->)]; [done|]. simpl in Eb. by rewrite bool_decide_true in Eb. }
    destruct Hname as (Hne & Hc & _). pose proof (info_safe name size modified Hc) as Hsafe.
    destruct (find_url _ url Hu (or_intror Hsafe)) as [Ei Ec]. unfold parseFileLine. rewrite Ec. cbv zeta. rewrite Ei, Nat2Z.id.
    rewrite drop_app_length, take_app_length.
    assert (Hi : ∃ body, info name size modified = body ++ #":" ∧ body ≠ [] ∧
      Split ":" body = if (size =? 0) && (modified =? 0) then [name] else
        if negb (modified =? 0) then [name; FormatInt size; FormatInt modified] else [name; FormatInt size]).
    { pose proof (FormatInt_no_colon size). pose proof (FormatInt_no_colon modified). unfold info.
      destruct ((size =? 0) && (modified =? 0)); [|destruct (negb (modified =? 0))].
      - exists name. split_ands; [done..|]. by apply Split_none.
      - exists (name ++ ":"%char :: FormatInt size ++ ":"%char :: FormatInt modified). split_ands.
        + simpl. rewrite <- !app_assoc. simpl. by rewrite <- !app_assoc.
        + by destruct name.
        + rewrite !Split_app by done. by rewrite Split_none.
      - exists (name ++ ":"%char :: FormatInt size). split_ands.
        + simpl. by rewrite <- !app_assoc.
        + by destruct name.
        + rewrite Split_app by done. by rewrite Split_none. }
    destruct Hi as (body & Eb' & Hbody & Hsplit). rewrite Eb'.
    assert (Hlen : 0 <? Z.of_nat (length (body ++ #":")) = true) by (apply Z.ltb_lt; rewrite length_app; simpl; lia).
    rewrite Hlen. replace (HasSuffix (body ++ #":") #":") with true by (symmetry; apply HasSuffix_spec; by exists body).
    cbn [negb]. rewrite length_app. cbn [length]. rewrite Nat.add_sub, take_app_length, bool_decide_false by done.
    rewrite Hsplit. destruct ((size =? 0) && (modified =? 0)) eqn:Ez.
    + apply andb_true_iff in Ez as [E1 E2]. reflect_bools. by subst.
    + destruct (negb (modified =? 0)) eqn:E2; rewrite !ParseInt_FormatInt by done; [done|]. reflect_bools. by subst.
Qed.
End text.

(** ** The text of a tree *)

(** ** Well-formed trees *)

Lemma Node_ind' (P : Node → Prop) :
  (∀ url name level m s l, Forall P l → P (mkNode url name level m s l)) → ∀ n, P n.
Proof.
  intros H. fix IH 1. intros [url name level m s l]. apply H. induction l as [|c l IHl]; constructor; [apply IH|exact IHl].
Qed.

(** How the children of a node of level [lvl] are indented: each is deeper,
    and what comes right after a folder is not deeper than it, so that its line
    is not taken for a line of the folder. *)
Fixpoint nested (lvl : Z) (l : list Node) : Prop :=
  match l with
  | [] => True
  | c :: l' => lvl < n_Level c ∧ (isFile c = false → ∀ c', head l' = Some c' → n_Level c' ≤ n_Level c) ∧ nested lvl l'
  end.

(** Each is one step deeper. *)
Definition evenly (lvl : Z) (l : list Node) : Prop := Forall (λ c, n_Level c = lvl + 1) l.

Inductive wf (arranged : Z → list Node → Prop) : Node → Prop :=
  | wf_file url name level m s : 0 ≤ level → ok_file url name s m → wf arranged (mkNode url name level m s [])
  | wf_folder name level s l :
      -1 ≤ level → ok_start name → Forall (wf arranged) l → arranged level l → wf arranged (mkNode [] name level 0 s l).

(** The root of a storage. *)
Definition wf_root (arranged : Z → list Node → Prop) (n : Node) : Prop :=
  wf arranged n ∧ n_Url n = [] ∧ n_Name n = #"root" ∧ n_Level n = -1.

Lemma wf_mono (A B : Z → list Node → Prop) n : (∀ lvl l, A lvl l → B lvl l) → wf A n → wf B n.
Proof.
  intros HAB. induction n as [url name level m s l IH] using Node_ind'. intros Hwf.
  inversion Hwf; subst; constructor; auto. rewrite Forall_forall in *. auto.
Qed.

Lemma evenly_nested lvl l : evenly lvl l → nested lvl l.
Proof.
  induction 1 as [|c l Hc Hl IH]; [done|]. split; [lia|]. split; [|done]. intros _ c' Hc'.
  destruct l; [done|]. injection Hc' as ->. apply Forall_cons in Hl as [Hl _]. lia.
Qed.

(** Folders as they are read: without a size. *)
Fixpoint bare (n : Node) : Node :=
  match n with
  | mkNode url name level m s l => if bool_decide (url ≠ []) then n else mkNode url name level m 0 (map bare l)
  end.

Lemma ok_url_nonempty url : ok_url url → url ≠ [].
Proof. intros H. by destruct (url_head _ H) as [? ->]. Qed.

Lemma nested_elem lvl l c : nested lvl l → c ∈ l → lvl < n_Level c.
Proof. induction l as [|x l IH]; [by intros _ ?%elem_of_nil|]. intros (H & _ & Hl) [->|Hin]%elem_of_cons; auto. Qed.

(** ** Writing *)

Fixpoint lines (n : Node) : list gostr :=
  match n with
  | mkNode url name level m s l =>
      if bool_decide (url = []) then (spaces level ++ name ++ #":") :: concat (map lines l)
      else [spaces level ++ file_text url name s m]
  end.

(** Lines, each after a line feed. *)
Definition flat (ls : list gostr) : gostr := concat (map (λ x, nl ++ x) ls).

Lemma flat_lines_app a b : flat (a ++ b) = flat a ++ flat b.
Proof. unfold flat. by rewrite map_app, concat_app. Qed.

Lemma Join_flat x ls : Join nl (x :: ls) = x ++ flat ls.
Proof.
  revert x. induction ls as [|y ls IH]; intros x; [by rewrite app_nil_r|].
  change (Join nl (x :: y :: ls)) with (x ++ nl ++ Join nl (y :: ls)). rewrite IH. unfold flat. simpl. done.
Qed.

Lemma lines_cons n : ∃ x ls, lines n = x :: ls.
Proof. destruct n as [url name level m s l]. simpl. case_bool_decide; eauto. Qed.

Lemma flat_lines (f : Node → gostr) l : Forall (λ c, f c = Join nl (lines c)) l →
  flat (map f l) = flat (concat (map lines l)).
Proof.
  induction 1 as [|c l Hc Hl IH]; [done|]. simpl. rewrite flat_lines_app, <- IH. destruct (lines_cons c) as (x & ls & E).
  rewrite E in *. unfold flat at 1. simpl. fold (flat (map f l)). rewrite Hc, Join_flat. unfold flat. simpl. by rewrite <- !app_assoc.
Qed.

Lemma Stringify_lines n : wf nested n → 0 ≤ n_Level n → StringifyTree n = Join nl (lines n).
Proof.
  induction n as [url name level m s l IH] using Node_ind'. intros Hwf Hlvl. simpl in Hlvl.
  cbn [StringifyTree lines]. rewrite (proj2 (Z.eqb_neq level (-1))) by lia. case_bool_decide as Hu; [|done].
  rewrite Join_flat, <- app_assoc. f_equal. rewrite <- app_assoc. do 2 f_equal.
  inversion Hwf as [? ? ? ? ? ? Hf|? ? ? ? _ _ Hl Hn]; subst; [by destruct Hf as [Hf%ok_url_nonempty _]|].
  rewrite <- (flat_lines StringifyTree); [unfold flat; by rewrite map_map|]. rewrite Forall_forall in *. intros c Hc.
  apply IH; [done|by apply Hl|]. pose proof (nested_elem _ _ _ Hn Hc). lia.
Qed.

Lemma Stringify_root name s l : Forall (wf nested) l → nested (-1) l →
  StringifyTree (mkNode [] name (-1) 0 s l) = Join nl (concat (map lines l)).
Proof.
  intros Hl Hn. cbn [StringifyTree]. simpl (-1 =? -1). assert (Hs : Forall (λ c, StringifyTree c = Join nl (lines c)) l).
  { rewrite Forall_forall in *. intros c Hc. apply Stringify_lines; [by apply Hl|]. pose proof (nested_elem _ _ _ Hn Hc). lia. }
  destruct l as [|c l]; [done|]. cbn [map concat]. apply Forall_cons in Hs as [Hc Hs]. destruct (lines_cons c) as (x & ls & E).
  rewrite Join_flat, Hc, E, Join_flat. cbn [app]. rewrite Join_flat, flat_lines_app, <- app_assoc. do 2 f_equal. by apply flat_lines.
Qed.

(** ** Reading a line *)

Section reading.
Context {UE : UrlEnv}.

Lemma count_spaces_app n s : head s ≠ Some " "%char → count_spaces (replicate n " "%char ++ s) = n.
Proof.
  intros Hs. induction n as [|n IH]; simpl; [|by rewrite IH]. destruct s as [|c s]; [done|].
  simpl. by rewrite bool_decide_false by (intros ->; by apply Hs).
Qed.

(** A text that begins and ends with something else than white space. *)
Definition solid (s : gostr) : Prop := s ≠ [] ∧ head s ≠ Some " "%char ∧ TrimSpace s = s ∧ "010"%char ∉ s.

Lemma build_solid lvl s st : 0 ≤ lvl → solid s → build_line false (spaces lvl ++ s) st =
  let '(top, rest) := pop_to lvl st.1 st.2 in
  if isFolder s then inr (mkNode [] (TrimSuffix s #":") lvl 0 0 [], top :: rest)
  else let! node := parseFileLine s false in inr (add_child (set_Level lvl node) top, rest).
Proof.
  intros Hl (Hne & Hh & Ht & _). unfold build_line, spaces. rewrite count_spaces_app by done.
  assert (Ho : Nat.odd (2 * Z.to_nat lvl) = false) by (rewrite Nat.odd_mul; done). rewrite Ho.
  rewrite Nat.mul_comm, Nat.div_mul by done. rewrite Z2Nat.id by done.
  replace (drop (Z.to_nat lvl * 2) (replicate (Z.to_nat lvl * 2) " "%char ++ s)) with s.
  2: { rewrite drop_app_ge by (rewrite length_replicate; lia). by rewrite length_replicate, Nat.sub_diag. }
  rewrite Ht. by rewrite bool_decide_false.
Qed.

Lemma start_head s t : first_rune space_runes s = None → s ≠ [] → head (s ++ t) ≠ Some " "%char.
Proof.
  rewrite first_rune_none. intros Hf Hne. destruct s as [|c s]; [done|]. simpl. intros [= ->].
  rewrite Forall_forall in Hf. assert (Hin : [" "%char] ∈ space_runes) by (apply list_elem_of_In; simpl; tauto).
  specialize (Hf _ Hin). by destruct s.
Qed.

Lemma runes_without c : c = ":"%char ∨ c = "h"%char →
  Forall (λ r, c ∉ r) space_runes ∧ Forall (λ r, c ∉ r) (map (@reverse ascii) space_runes) ∧
  (∀ t, first_rune space_runes (c :: t) = None) ∧ ∀ t, first_rune (map (@reverse ascii) space_runes) (c :: t) = None.
Proof. intros [->| ->]; (split; [by apply (bool_decide_unpack _)|]); (split; [by apply (bool_decide_unpack _)|]); by split. Qed.

Lemma start_app s c t : c = ":"%char ∨ c = "h"%char → first_rune space_runes s = None →
  first_rune space_runes (s ++ c :: t) = None ∧ head (s ++ c :: t) ≠ Some " "%char.
Proof.
  intros Hc Hs. destruct (runes_without c Hc) as (H1 & _). split; [by apply first_rune_app|].
  destruct s; [by destruct Hc as [->| ->]|by apply start_head].
Qed.

Lemma folder_solid name : ok_start name → solid (name ++ #":") ∧ isFolder (name ++ #":") = true ∧ TrimSuffix (name ++ #":") #":" = name.
Proof.
  intros [Hnl Hs]. destruct (start_app name ":" [] (or_introl eq_refl) Hs) as [H1 H2].
  destruct (runes_without ":"%char (or_introl eq_refl)) as (_ & _ & _ & H3).
  assert (Hf : isFolder (name ++ #":") = true) by (apply HasSuffix_spec; by exists name).
  split; [|split; [done|]].
  - split; [by destruct name|]. split; [done|]. split; [|set_solver]. apply TrimSpace_id; [done|].
    rewrite reverse_app. apply H3.
  - unfold TrimSuffix. unfold isFolder in Hf. rewrite Hf, length_app, Nat.add_sub. apply take_app_length.
Qed.

Lemma file_solid url name size m : ok_file url name size m →
  solid (file_text url name size m) ∧ isFolder (file_text url name size m) = false.
Proof.
  intros (Hu & Hsz & Hm & Hn). destruct (url_head url Hu) as [u Eu]. destruct Hu as (Hnl & _ & Hend & Hcol).
  assert (Hpre : ∀ i, (i = [] ∨ ∃ a b, i = a ++ ":"%char :: b ∧ ok_start a ∧ "010"%char ∉ b) →
    solid (i ++ url) ∧ isFolder (i ++ url) = false).
  { intros i Hi. assert (Hrev : reverse (i ++ url) = reverse u ++ "h"%char :: reverse i).
    { rewrite Eu, reverse_app, reverse_cons, <- app_assoc. done. }
    assert (Hrev0 : reverse url = reverse u ++ "h"%char :: []) by by rewrite Eu, reverse_cons.
    destruct (runes_without "h"%char (or_intror eq_refl)) as (R1 & R2 & R3 & R4).
    split.
    - split; [rewrite Eu; by destruct i|]. assert (Hstart : first_rune space_runes (i ++ url) = None ∧ head (i ++ url) ≠ Some " "%char).
      { destruct Hi as [->|(a & b & -> & [_ Ha] & _)]; [by rewrite Eu|]. rewrite <- app_assoc. simpl. apply start_app; [by left|done]. }
      split; [apply Hstart|]. split.
      + apply TrimSpace_id; [apply Hstart|]. rewrite Hrev. rewrite Hrev0 in Hend.
        rewrite first_rune_none in *. rewrite !Forall_forall in *. intros r Hr. specialize (Hend r Hr). specialize (R2 r Hr).
        destruct (HasPrefix (reverse u ++ "h"%char :: reverse i) r) eqn:E; [|done]. apply HasPrefix_spec in E as [k E].
        apply app_eq_inv in E as [(l & El & _)|(l & El & E)].
        * rewrite <- Hend. symmetry. apply HasPrefix_spec. rewrite El, <- app_assoc. by apply prefix_app_r.
        * destruct l as [|c l]; [rewrite app_nil_r in El; subst r; rewrite <- Hend; symmetry; apply HasPrefix_spec; by apply prefix_app_r|].
          injection E as <- _. subst r. exfalso. apply R2. set_solver.
      + apply not_elem_of_app. split; [|done]. destruct Hi as [->|(a & b & -> & [Ha _] & Hb)]; set_solver.
    - unfold isFolder, HasSuffix in *. rewrite Hrev. rewrite Hrev0 in Hcol. by destruct (reverse u). }
  rewrite file_text_info. destruct (_ && bool_decide _) eqn:Eb; [by apply (Hpre []); left|].
  apply Hpre. right. assert (Hname : ok_name name).
  { destruct Hn as [Hn|(-> & -> & ->)]; [done|]. simpl in Eb. by rewrite bool_decide_true in Eb. }
  destruct Hname as (_ & _ & Hst). unfold info.
  assert (Hd : ∀ n, "010"%char ∉ FormatInt n).
  { intros n Hin. pose proof (FormatInt_chars n) as Hc. rewrite Forall_forall in Hc. destruct (Hc _ Hin) as [E|E]; vm_compute in E; done. }
  destruct ((size =? 0) && (m =? 0)); [by exists name, []; set_solver|].
  exists name, (FormatInt size ++ #":" ++ (if negb (m =? 0) then FormatInt m ++ #":" else [])).
  split; [done|]. split; [done|]. pose proof (Hd size). pose proof (Hd m). destruct (negb (m =? 0)); set_solver.
Qed.

(** ** Reading the lines of a tree *)

(** States that are the same once everything deeper than the bound is closed. *)
Definition agree (bound : Z) (a b : stack) : Prop := ∀ level, level ≤ bound → pop_to level a.1 a.2 = pop_to level b.1 b.2.

Lemma pop_to_open level top rest : n_Level top < level → pop_to level top rest = (top, rest).
Proof. intros H. destruct rest as [|b r]; [done|]. simpl. by rewrite (proj2 (Z.leb_gt _ _)). Qed.

Lemma build_lines_app h a b st : build_lines h (a ++ b) st = let! st' := build_lines h a st in build_lines h b st'.
Proof. revert st. induction a as [|x a IH]; intros st; [done|]. simpl. destruct (build_line h x st); [done|]. apply IH. Qed.

(** The folder below the open one, with further children. *)
Definition add_children (l : list Node) (n : Node) : Node := set_Children (n_Children n ++ l) n.

Definition reads (n : Node) : Prop := ∀ top rest st,
  wf nested n → 0 ≤ n_Level n → n_Level top < n_Level n → agree (n_Level n) st (top, rest) →
  ∃ st', build_lines false (lines n) st = inr st' ∧
         ∀ bound, isFile n = true ∨ bound ≤ n_Level n → agree bound st' (add_child (bare n) top, rest).

Lemma reads_list l : Forall reads l → ∀ lvl top rest st,
  Forall (wf nested) l → nested lvl l → -1 ≤ lvl → n_Level top = lvl → agree (lvl + 1) st (top, rest) →
  (∀ c, head l = Some c → agree (n_Level c) st (top, rest)) →
  ∃ st', build_lines false (concat (map lines l)) st = inr st' ∧ agree (lvl + 1) st' (add_children (map bare l) top, rest).
Proof.
  induction 1 as [|c l Hc _ IH]; intros lvl top rest st Hwf Hn Hlvl Htop Hst Hhd.
  - exists st. split; [done|]. intros level Hl. unfold add_children. rewrite app_nil_r. rewrite Hst by lia. by destruct top.
  - apply Forall_cons in Hwf as [Hwc Hwf]. destruct Hn as (Hlc & Hf & Hn).
    destruct (Hc top rest st) as (st1 & E1 & H1); [done|lia|lia|by apply Hhd|]. cbn [map concat]. rewrite build_lines_app, E1.
    cbv iota beta. destruct (IH lvl (add_child (bare c) top) rest st1) as (st' & E & H); [done..|apply H1; right; lia| |].
    + intros c' Hc'. apply H1. destruct (isFile c) eqn:Ef; [by left|]. right. by apply Hf.
    + exists st'. split; [done|]. unfold add_children, add_child in *. simpl in H. by rewrite <- app_assoc in H.
Qed.

Lemma reads_wf n : reads n.
Proof.
  induction n as [url name level m s l IH] using Node_ind'. intros top rest st Hwf Hlvl Htop Hst. simpl in Hlvl, Htop, Hst.
  assert (Hpop : pop_to level st.1 st.2 = (top, rest)) by (rewrite Hst by lia; by apply pop_to_open).
  inversion Hwf as [? ? ? ? ? ? Hf|? ? ? ? _ Hn Hl Hnest]; subst.
  - pose proof (ok_url_nonempty _ (proj1 Hf)) as Hu. destruct (file_solid _ _ _ _ Hf) as [Hs Hfo].
    cbn [lines bare]. rewrite bool_decide_false, bool_decide_true by done.
    cbn [build_lines]. rewrite build_solid, Hpop, Hfo, (parse_file _ _ _ _ Hf) by (done || lia). by eexists.
  - destruct (folder_solid _ Hn) as (Hs & Hfo & Ht). cbn [lines bare]. rewrite bool_decide_true, bool_decide_false by tauto.
    cbn [build_lines]. rewrite build_solid, Hpop, Hfo, Ht by (done || lia). cbv iota beta.
    destruct (reads_list l IH level (mkNode [] name level 0 0 []) (top :: rest)
      (mkNode [] name level 0 0 [], top :: rest)) as (st' & E & H); [done|done|lia|done|done|done|].
    exists st'. rewrite E. split; [done|]. intros bound [Hb|Hb]; [done|]. intros level' Hl'. simpl in Hb.
    rewrite H by lia. cbn -[Z.leb]. by rewrite (proj2 (Z.leb_le _ _)) by lia.
Qed.

Lemma lines_nl n : wf nested n → 0 ≤ n_Level n → Forall (λ x, "010"%char ∉ x) (lines n).
Proof.
  assert (Hsp : ∀ level s, "010"%char ∉ s → "010"%char ∉ spaces level ++ s).
  { intros level s Hs. apply not_elem_of_app. split; [|done]. unfold spaces. intros [E _]%elem_of_replicate. done. }
  induction n as [url name level m s l IH] using Node_ind'. intros Hwf Hlvl. simpl in Hlvl.
  inversion Hwf as [? ? ? ? ? ? Hf|? ? ? ? _ Hn Hl Hnest]; subst; cbn [lines].
  - rewrite bool_decide_false by (apply ok_url_nonempty, Hf). constructor; [|done]. apply Hsp. by destruct (file_solid _ _ _ _ Hf) as [(_ & _ & _ & ?) _].
  - rewrite bool_decide_true by done. constructor; [apply Hsp; by destruct (folder_solid _ Hn) as [(_ & _ & _ & ?) _]|].
    apply Forall_concat, Forall_fmap. rewrite Forall_forall in *. intros c Hc. apply IH; [done|by apply Hl|].
    pose proof (nested_elem _ _ _ Hnest Hc). lia.
Qed.

Lemma BuildTree_Stringify root : wf_root nested root → BuildTree (StringifyTree root) false = inr (bare root).
Proof.
  intros (Hwf & Hu & Hn & Hlvl). inversion Hwf as [|? ? ? l _ _ Hl Hnest]; subst; simpl in Hu, Hn, Hlvl; [lia|]. subst.
  rewrite Stringify_root by done. unfold BuildTree.
  destruct (reads_list l (proj2 (Forall_forall _ _) (λ c _, reads_wf c)) (-1) root_node [] (root_node, [])) as (st' & E & H); [done..|].
  assert (Hb : build_lines false (Split "010" (Join nl (concat (map lines l)))) (root_node, []) = inr st').
  { destruct (concat (map lines l)) as [|x ls] eqn:El; [done|]. rewrite Split_Join; [done|done|]. rewrite <- El.
    apply Forall_concat, Forall_fmap. rewrite Forall_forall in *. intros c Hc. apply lines_nl; [by apply Hl|].
    pose proof (nested_elem _ _ _ Hnest Hc). lia. }
  rewrite Hb. destruct st' as [top rest]. specialize (H 0 ltac:(lia)). cbn [fst snd] in H. cbv iota beta. by rewrite H.
Qed.

End reading.
