(* ===== verification/UrlTreeParse.v ===== *)
(** * The text of a url_tree storage, as a user writes it

    Whatever text is accepted, the tree that was read is well formed, and its
    own text is read as the same tree. *)

From S2P Require Import Prelude GoStrings Errs Crypto Sign UrlTree UrlTreeThms.

Local Open Scope Z_scope.

(** ** Trimmed lines *)

Lemma first_rune_some rs s s' : first_rune rs s = Some s' → ∃ r, r ∈ rs ∧ s = r ++ s'.
Proof.
  induction rs as [|r rs IH]; simpl; [done|]. destruct (HasPrefix s r) eqn:E.
  - intros [= <-]. apply HasPrefix_spec in E as [k ->]. exists r. rewrite drop_app_length. set_solver.
  - intros (x & Hx & ->)%IH. set_solver.
Qed.

Lemma strip_end n rs s : Forall (λ r, r ≠ []) rs → (length s ≤ n)%nat → first_rune rs (strip_runes n rs s) = None.
Proof.
  intros Hr. revert s. induction n as [|n IH]; intros s Hn; simpl.
  - destruct s; [|simpl in Hn; lia]. rewrite first_rune_none. eapply Forall_impl; [exact Hr|]. intros r Hr'. by destruct r.
  - destruct (first_rune rs s) as [s'|] eqn:E; [|done]. destruct (first_rune_some _ _ _ E) as (r & Hin & ->). apply IH.
    rewrite Forall_forall in Hr. specialize (Hr r Hin). rewrite length_app in Hn. destruct r; [done|]. simpl in Hn. lia.
Qed.

Lemma strip_suffix n rs s : strip_runes n rs s `suffix_of` s.
Proof.
  revert s. induction n as [|n IH]; intros s; simpl; [done|]. destruct (first_rune rs s) as [s'|] eqn:E; [|done].
  destruct (first_rune_some _ _ _ E) as (r & _ & ->). etrans; [apply IH|]. by exists r.
Qed.

Lemma first_rune_prefix rs a b : first_rune rs (a ++ b) = None → first_rune rs a = None.
Proof.
  rewrite !first_rune_none. intros H. eapply Forall_impl; [exact H|]. intros r Hr. simpl in Hr.
  destruct (HasPrefix a r) eqn:E; [|done]. rewrite <- Hr. symmetry. apply HasPrefix_spec in E as [k ->].
  rewrite <- app_assoc. apply HasPrefix_app.
Qed.

Lemma space_runes_nonempty : Forall (λ r, r ≠ []) space_runes ∧ Forall (λ r, r ≠ []) (map (@reverse ascii) space_runes).
Proof. split; by apply (bool_decide_unpack _). Qed.

(** What is left by [TrimSpace] is a part of the text, with no white space at
    its ends. *)
Lemma TrimSpace_spec s : ∃ a b, s = a ++ TrimSpace s ++ b ∧ first_rune space_runes (TrimSpace s) = None ∧
  first_rune (map (@reverse ascii) space_runes) (reverse (TrimSpace s)) = None.
Proof.
  unfold TrimSpace. set (l := strip_runes (length s) space_runes s). set (r := strip_runes (length l) _ (reverse l)).
  assert (Hl : first_rune space_runes l = None) by (apply strip_end; [apply space_runes_nonempty|done]).
  assert (Hr : first_rune (map (@reverse ascii) space_runes) r = None).
  { apply strip_end; [apply space_runes_nonempty|]. by rewrite length_reverse. }
  destruct (strip_suffix (length s) space_runes s) as [a Ea]. fold l in Ea.
  destruct (strip_suffix (length l) (map (@reverse ascii) space_runes) (reverse l)) as [b Eb]. fold r in Eb.
  assert (El : l = reverse r ++ reverse b) by (rewrite <- reverse_app, <- Eb; by rewrite reverse_involutive).
  exists a, (reverse b). split; [by rewrite <- El|]. split; [|by rewrite reverse_involutive].
  apply (first_rune_prefix _ _ (reverse b)). by rewrite <- El.
Qed.

(** ** A line that was read *)

Definition trimmed (line : gostr) : Prop :=
  ("010"%char ∉ line) ∧ first_rune space_runes line = None ∧ first_rune (map (@reverse ascii) space_runes) (reverse line) = None.

Lemma trimmed_start a b : trimmed (a ++ b) → ok_start a.
Proof. intros (Hn & Hs & _). split; [set_solver|by eapply first_rune_prefix]. Qed.

Lemma Index_spec s sub k : Index s sub = k → 0 ≤ k → ∃ b, drop (Z.to_nat k) s = sub ++ b.
Proof.
  unfold Index. assert (H : ∀ i s, 0 ≤ i → i ≤ index_from i s sub → ∃ b, drop (Z.to_nat (index_from i s sub - i)) s = sub ++ b).
  { clear. intros i s. revert i. induction s as [|c s IH]; intros i Hi; cbn [index_from].
    - destruct (HasPrefix [] sub) eqn:E; [|lia]. intros _. rewrite Z.sub_diag. apply HasPrefix_spec in E as [b E]. by exists b.
    - destruct (HasPrefix (c :: s) sub) eqn:E.
      + intros _. rewrite Z.sub_diag. apply HasPrefix_spec in E as [b E]. by exists b.
      + intros Hk. destruct (index_from_neg (i + 1) s sub) as [E'|E']; [lia|lia|]. destruct (IH (i + 1)) as [b Hb]; [lia|done|].
        exists b. rewrite <- Hb. replace (Z.to_nat (index_from (i + 1) s sub - i)) with (S (Z.to_nat (index_from (i + 1) s sub - (i + 1)))) by lia.
        done. }
  intros <- Hk. destruct (H 0 s) as [b Hb]; [lia|done|]. rewrite Z.sub_0_r in Hb. by exists b.
Qed.

Lemma url_of_line line info url : trimmed line → isFolder line = false → line = info ++ url →
  (HasPrefix url http = true ∨ HasPrefix url https = true ∧ Contains line http = false) → ok_url url.
Proof.
  intros (Hn & Hs & He) Hf -> Hp. assert (Hne : url ≠ []) by (intros ->; by destruct Hp as [?|[? _]]).
  split; [set_solver|]. split; [|split].
  - destruct Hp as [Hp|[Hp Hc]]; [by left|]. right. split; [done|]. destruct (Contains url http) eqn:E; [|done].
    rewrite <- Hc. symmetry. apply Contains_spec. apply Contains_spec in E as (a & b & ->). exists (info ++ a), b. by rewrite <- app_assoc.
  - rewrite reverse_app in He. by eapply first_rune_prefix.
  - destruct (HasSuffix url #":") eqn:E; [|done]. rewrite <- Hf. symmetry. unfold isFolder. apply HasSuffix_spec in E as [k ->].
    apply HasSuffix_spec. exists (info ++ k). by rewrite <- app_assoc.
Qed.

Lemma Split_head_prefix sep s w ws : Split sep s = w :: ws → ∃ k, s = w ++ k.
Proof.
  revert w ws. induction s as [|c s IH]; intros w ws; simpl; [by intros [= <- <-]; exists []|].
  case_bool_decide; [intros [= <- <-]; by exists (c :: s)|]. destruct (Split sep s) as [|w' ws']; intros [= <- <-].
  - by exists s.
  - destruct (IH w' ws' eq_refl) as [k Ek]. exists k. simpl. by f_equal.
Qed.

Section parse.
Context {UE : UrlEnv}.

Lemma parseFileLine_ok line n : trimmed line → isFolder line = false → parseFileLine line false = inr n →
  ∃ url name s m, n = file_node url name s m ∧ ok_url url ∧ (name ≠ [] → ok_file url name s m).
Proof.
  intros Ht Hf. unfold parseFileLine. destruct (negb _ && negb _) eqn:Ec; [done|]. cbv zeta.
  set (index := if Index line http =? -1 then Index line https else Index line http).
  assert (Hi : 0 ≤ index ∧ (HasPrefix (drop (Z.to_nat index) line) http = true ∨
    HasPrefix (drop (Z.to_nat index) line) https = true ∧ Contains line http = false)).
  { unfold index. destruct (index_from_neg 0 line http) as [E|E]; [lia| |].
    - fold (Index line http) in E. assert (Hc : Contains line http = false) by (unfold Contains; by rewrite E).
      rewrite E. cbn [Z.eqb Pos.eqb]. rewrite Hc in Ec. simpl in Ec. apply negb_false_iff in Ec. unfold Contains in Ec. apply Z.leb_le in Ec.
      split; [done|]. right. split; [|done]. destruct (Index_spec line https _ eq_refl Ec) as [b ->]. apply HasPrefix_app.
    - fold (Index line http) in E. destruct (Z.eqb_spec (Index line http) (-1)); [lia|]. split; [done|]. left.
      destruct (Index_spec line http _ eq_refl E) as [b ->]. apply HasPrefix_app. }
  destruct Hi as [Hi Hp]. pose proof (take_drop (Z.to_nat index) line) as Etd. symmetry in Etd.
  pose proof (url_of_line _ _ _ Ht Hf Etd Hp) as Hu.
  destruct (0 <? index) eqn:E0.
  - destruct (HasSuffix _ _) eqn:Es; [|done]. cbn [negb]. case_bool_decide as Ee; [done|].
    set (inf := take _ (take _ _)) in *. assert (Hst : ∀ name w, Split ":" inf = name :: w → name ≠ [] → ok_name name).
    { intros name w Ew Hne. split; [done|]. pose proof (Split_no_sep ":" inf) as Hns. rewrite Ew in Hns. apply Forall_cons in Hns as [Hns _].
      split; [done|]. assert (∃ k, line = name ++ k) as [k Ek]; [|apply (trimmed_start name k); by rewrite <- Ek].
      destruct (Split_head_prefix _ _ _ _ Ew) as [k Ek]. exists (k ++ drop (length (take (Z.to_nat index) line) - 1) (take (Z.to_nat index) line) ++ drop (Z.to_nat index) line).
      rewrite Etd at 1. rewrite <- (take_drop (length (take (Z.to_nat index) line) - 1) (take (Z.to_nat index) line)) at 1. fold inf.
      rewrite Ek at 1. by rewrite <- !app_assoc. }
    destruct (Split ":" inf) as [|name [|s [|m w]]] eqn:Ew; [done|..].
    + intros [= <-]. eexists _, _, _, _. split; [done|]. split; [done|]. intros Hne. split; [done|]. split; [by split|]. split; [by split|].
      left. by eapply Hst.
    + destruct (ParseInt s) as [size [e|]] eqn:Eps; [done|]. intros [= <-]. eexists _, _, _, _. split; [done|]. split; [done|]. intros Hne. split; [done|].
      pose proof (ParseInt_ok s) as Hs. rewrite Eps in Hs. split; [done|]. split; [by split|]. left. by eapply Hst.
    + destruct (ParseInt s) as [size [e|]] eqn:Eps; [done|]. destruct (ParseInt m) as [mt [e|]] eqn:Epm; [done|].
      intros [= <-]. eexists _, _, _, _. split; [done|]. split; [done|]. intros Hne. split; [done|].
      pose proof (ParseInt_ok s) as Hs. pose proof (ParseInt_ok m) as Hm. rewrite Eps in Hs. rewrite Epm in Hm. split; [done|]. split; [done|].
      left. by eapply Hst.
  - assert (index = 0) as E by (apply Z.ltb_ge in E0; lia). rewrite E in *. simpl in *. intros [= <-].
    eexists _, _, _, _. split; [done|]. split; [done|]. intros Hne. split; [done|]. split; [by split|]. split; [by split|]. by right.
Qed.

(** ** The nodes that are open *)

Fixpoint files_named (n : Node) : bool :=
  match n with
  | mkNode url name _ _ _ l => (bool_decide (url = []) || bool_decide (name ≠ [])) && forallb files_named l
  end.

Definition stack_named (st : stack) : bool := files_named st.1 && forallb files_named st.2.

Lemma files_named_add c n : files_named (add_child c n) = files_named n && files_named c.
Proof. destruct n. simpl. rewrite forallb_app. simpl. by rewrite andb_true_r, andb_assoc. Qed.

Lemma pop_named level top rest : stack_named (pop_to level top rest) = stack_named (top, rest).
Proof.
  revert top. induction rest as [|b rest IH]; intros top; simpl; [done|]. destruct (level <=? n_Level top); [|done].
  rewrite IH. unfold stack_named. cbn [fst snd forallb]. rewrite files_named_add. by destruct (files_named b), (files_named top), (forallb files_named rest).
Qed.

Lemma build_line_named line st st' : build_line false line st = inr st' → stack_named st' = true → stack_named st = true.
Proof.
  unfold build_line. destruct (Nat.odd _); [done|]. cbv zeta. case_bool_decide; [by intros [= <-]|].
  assert (Hs : stack_named st = stack_named (pop_to (Z.of_nat (count_spaces line / 2)) st.1 st.2)) by (rewrite pop_named; by destruct st).
  rewrite Hs. destruct (pop_to _ _ _) as [top rest].
  unfold stack_named. destruct (isFolder _).
  - intros [= <-]. simpl. done.
  - destruct (parseFileLine _ _) as [|n]; [done|]. intros [= <-]. cbn [fst snd forallb]. rewrite files_named_add, !andb_true_iff. tauto.
Qed.

Lemma build_lines_named ls st st' : build_lines false ls st = inr st' → stack_named st' = true → stack_named st = true.
Proof.
  revert st. induction ls as [|x ls IH]; intros st; simpl; [by intros [= <-]|]. destruct (build_line _ _ _) as [|st1] eqn:E; [done|].
  intros H H'. eapply build_line_named; [done|by eapply IH].
Qed.

Lemma nested_snoc lvl l c : nested lvl (l ++ [c]) ↔
  nested lvl l ∧ lvl < n_Level c ∧ ∀ x, last l = Some x → isFile x = false → n_Level c ≤ n_Level x.
Proof.
  induction l as [|y l IH]; simpl; [split; [intros (? & _ & _); split_ands; [done..|]; intros; done|intros (_ & ? & _); split_ands; done]|].
  rewrite IH. destruct l as [|z l]; simpl.
  - split.
    + intros (H1 & H2 & _ & H3 & _). split_ands; auto; [done|]. intros x [= <-] Hx. by apply H2.
    + intros ((H1 & _ & _) & H2 & H3). split_ands; auto; try done. intros Hy c' [= <-]. by apply H3.
  - split.
    + intros (H1 & H2 & H3 & H4 & H5). split_ands; tauto.
    + intros ((H1 & H2 & H3) & H4 & H5). split_ands; tauto.
Qed.

Lemma wf_add (A : Z → list Node → Prop) n c : wf A n → isFile n = false → wf A c → A (n_Level n) (n_Children n ++ [c]) → wf A (add_child c n).
Proof.
  intros Hn Hf Hc Ha. inversion Hn as [? ? ? ? ? ? Ho|? ? ? ? ? ? Hl]; subst.
  - exfalso. unfold isFile in Hf. apply bool_decide_eq_false in Hf. by apply Hf, ok_url_nonempty, Ho.
  - constructor; [done|done| |done]. apply Forall_app. by split; [|constructor].
Qed.

Lemma bare_add n c : bare n = n → bare c = c → bare (add_child c n) = add_child c n.
Proof.
  destruct n as [url name level m s l]. unfold add_child, set_Children. simpl. case_bool_decide; [done|]. intros [= Hs Hl] Hc.
  rewrite map_app, Hl. simpl. by rewrite Hc, <- Hs.
Qed.

(** As it is read: well formed, folders without a size. *)
Definition sound (n : Node) : Prop := wf nested n ∧ bare n = n.

Lemma sound_add n c : sound n → isFile n = false → sound c → nested (n_Level n) (n_Children n ++ [c]) → sound (add_child c n).
Proof. intros [] ? [] ?. split; [by apply wf_add|by apply bare_add]. Qed.

(** Each open folder can become the last child of the one below it. *)
Fixpoint opened (top : Node) (rest : list Node) : Prop :=
  sound top ∧ isFile top = false ∧
  match rest with
  | [] => wf_root nested top
  | below :: rest' => nested (n_Level below) (n_Children below ++ [top]) ∧ opened below rest'
  end.

(** A line of the level can follow the last child. *)
Definition can_follow (level : Z) (n : Node) : Prop := ∀ x, last (n_Children n) = Some x → isFile x = false → level ≤ n_Level x.

Lemma opened_alike a b rest : opened a rest → sound b → isFile b = false → n_Level b = n_Level a → n_Name b = n_Name a → opened b rest.
Proof.
  intros Ha Hw Hf Hl Hn. destruct rest as [|below rest]; destruct Ha as (_ & _ & Ha).
  - split; [done|]. split; [done|]. destruct Ha as (_ & ? & ? & ?). split; [apply Hw|]. split_ands; [|congruence..]. unfold isFile in Hf. by apply bool_decide_eq_false, dec_stable in Hf.
  - split; [done|]. split; [done|]. split; [|apply Ha]. destruct Ha as [Ha _]. rewrite nested_snoc in *. rewrite Hl. done.
Qed.

Lemma opened_top top rest : opened top rest → sound top ∧ isFile top = false.
Proof. destruct rest; simpl; tauto. Qed.

Lemma pop_opened level top rest : 0 ≤ level → opened top rest → can_follow level top →
  let st := pop_to level top rest in opened st.1 st.2 ∧ n_Level st.1 < level ∧ can_follow level st.1.
Proof.
  intros Hl. revert top. induction rest as [|b rest IH]; intros top Ho Hc; simpl.
  - split; [done|]. split; [|done]. destruct Ho as (_ & _ & _ & _ & _ & ->). lia.
  - destruct (Z.leb_spec level (n_Level top)); [|done]. destruct Ho as (Hw & Hf & Hn & Ho). destruct (opened_top _ _ Ho) as [Hwb Hfb].
    apply IH; [|intros x; simpl; rewrite last_snoc; by intros [= <-]].
    apply (opened_alike b); [done|by apply sound_add|done..].
Qed.

Lemma build_line_opened line st st' : ("010"%char ∉ line) → opened st.1 st.2 → (∀ level, can_follow level st.1) →
  build_line false line st = inr st' → stack_named st' = true → opened st'.1 st'.2 ∧ ∀ level, can_follow level st'.1.
Proof.
  intros Hnl Ho Hc. unfold build_line. destruct (Nat.odd _); [done|]. cbv zeta. case_bool_decide as He; [by intros [= <-]|].
  set (level := Z.of_nat _). destruct (pop_opened level st.1 st.2 ltac:(lia) Ho (Hc level)) as (Hp & Hlt & Hf).
  destruct (pop_to _ _ _) as [top rest]. simpl in Hp, Hlt, Hf.
  destruct (TrimSpace_spec (drop (count_spaces line) line)) as (a & b & Eab & Ht1 & Ht2). set (l := TrimSpace _) in *.
  assert (Htr : trimmed l).
  { split; [|done]. rewrite <- (take_drop (count_spaces line) line), Eab in Hnl. set_solver. }
  destruct (opened_top _ _ Hp) as [Hst Hft]. pose proof (proj1 Hst) as Hwt. destruct (isFolder l) eqn:Efo.
  - intros [= <-] _. split; [|done]. split; [|split; [done|split; [|done]]].
    + split; [|done]. constructor; [lia| |done|done]. unfold TrimSuffix. unfold isFolder in Efo. rewrite Efo. apply HasSuffix_spec in Efo as [k Ek].
      rewrite Ek, length_app, Nat.add_sub, take_app_length. apply (trimmed_start k #":"). by rewrite <- Ek.
    + apply nested_snoc. split_ands; [|done|done]. by inversion Hwt.
  - destruct (parseFileLine l false) as [|n] eqn:Ep; [done|]. intros [= <-] Hnamed. unfold stack_named in Hnamed.
    apply andb_true_iff in Hnamed as [Hnamed _]. cbn [fst] in Hnamed. rewrite files_named_add in Hnamed. apply andb_true_iff in Hnamed as [_ Hnamed].
    destruct (parseFileLine_ok _ _ Htr Efo Ep) as (url & name & s & m & -> & Hu & Hok). pose proof (ok_url_nonempty _ Hu) as Hune.
    assert (Hwn : sound (mkNode url name level m s [])).
    { split; [|simpl; by rewrite bool_decide_true]. constructor; [lia|]. apply Hok. intros ->. simpl in Hnamed. by rewrite bool_decide_false in Hnamed. }
    assert (Hfn : isFile (mkNode url name level m s []) = true) by (by apply bool_decide_eq_true).
    split; [|intros lv x; simpl; rewrite last_snoc; intros [= <-]; unfold set_Level, file_node; simpl; congruence].
    apply (opened_alike top); [done| |done..]. apply sound_add; [done|done|done|]. apply nested_snoc. split_ands; [|done|done]. by inversion Hwt.
Qed.

Lemma build_lines_opened ls st st' : Forall (λ x, "010"%char ∉ x) ls → opened st.1 st.2 → (∀ level, can_follow level st.1) →
  build_lines false ls st = inr st' → stack_named st' = true → opened st'.1 st'.2 ∧ ∀ level, can_follow level st'.1.
Proof.
  intros Hls. revert st. induction Hls as [|x ls Hx _ IH]; intros st Ho Hc; simpl; [by intros [= <-]|].
  destruct (build_line _ _ _) as [|st1] eqn:E; [done|]. intros H Hn.
  destruct (build_line_opened x st st1) as [Ho1 Hc1]; [done..|by eapply build_lines_named|]. by eapply IH.
Qed.

(** Only the root is at a negative level. *)
Fixpoint deep (top : Node) (rest : list Node) : Prop :=
  match rest with [] => True | b :: rest' => 0 ≤ n_Level top ∧ deep b rest' end.

Lemma deep_alike a b rest : n_Level a = n_Level b → deep a rest → deep b rest.
Proof. intros H. destruct rest; simpl; [done|]. by rewrite H. Qed.

Lemma pop_deep level top rest : deep top rest → deep (pop_to level top rest).1 (pop_to level top rest).2.
Proof.
  revert top. induction rest as [|b rest IH]; intros top H; [done|]. cbn [pop_to]. destruct (level <=? n_Level top); [|done].
  apply IH. destruct H as [_ H]. by eapply deep_alike; [|exact H].
Qed.

Lemma pop_root top rest : deep top rest → (pop_to 0 top rest).2 = [].
Proof.
  revert top. induction rest as [|b rest IH]; intros top H; simpl; [done|]. destruct H as [Ht H].
  rewrite (proj2 (Z.leb_le _ _)) by done. apply IH. by eapply deep_alike; [|exact H].
Qed.

Lemma build_lines_deep ls st st' : deep st.1 st.2 → build_lines false ls st = inr st' → deep st'.1 st'.2.
Proof.
  revert st. induction ls as [|x ls IH]; intros st Hd; simpl; [by intros [= <-]|]. destruct (build_line _ _ _) as [|st1] eqn:E; [done|].
  apply IH. revert E. unfold build_line. destruct (Nat.odd _); [done|]. cbv zeta. case_bool_decide; [by intros [= <-]|].
  set (level := Z.of_nat _). pose proof (pop_deep level _ _ Hd) as Hp. destruct (pop_to level _ _) as [top rest]. simpl in Hp.
  destruct (isFolder _); [intros [= <-]; split; [simpl; lia|done]|]. destruct (parseFileLine _ _); [done|]. intros [= <-].
  by eapply deep_alike; [|exact Hp].
Qed.

Lemma root_opened : opened root_node [].
Proof.
  assert (Hw : wf nested root_node) by (constructor; [done| |done|done]; split; [by apply (bool_decide_unpack _)|done]).
  by repeat split.
Qed.

Lemma BuildTree_sound text root : BuildTree text false = inr root → files_named root = true → wf_root nested root ∧ bare root = root.
Proof.
  unfold BuildTree. destruct (build_lines _ _ _) as [|[top rest]] eqn:E; [done|]. intros [= <-] Hn.
  assert (Hnil : (pop_to 0 top rest).2 = []) by (apply pop_root; by eapply (build_lines_deep _ (root_node, []) (top, rest))).
  assert (Hs : stack_named (top, rest) = true) by (rewrite <- (pop_named 0); unfold stack_named; by rewrite Hn, Hnil).
  destruct (build_lines_opened _ (root_node, []) (top, rest) (Split_no_sep _ _) root_opened ltac:(done) E Hs) as [Ho Hc].
  destruct (pop_opened 0 top rest ltac:(done) Ho (Hc 0)) as (Hp & _). rewrite Hnil in Hp. destruct Hp as ([_ Hb] & _ & Hr). done.
Qed.

(** Sizes of folders are not written. *)
Lemma bare_calSize n : bare (calSize n) = bare n.
Proof.
  induction n as [url name level m s l IH] using Node_ind'. simpl. case_bool_decide as E; [simpl; by rewrite bool_decide_true|].
  simpl. rewrite bool_decide_false by (intros H; by apply H). f_equal. rewrite map_map. apply map_ext_Forall. done.
Qed.

Lemma calSize_alike n : n_Url (calSize n) = n_Url n ∧ n_Name (calSize n) = n_Name n ∧ n_Level (calSize n) = n_Level n.
Proof. destruct n. simpl. by case_bool_decide. Qed.

Lemma isFile_calSize n : isFile (calSize n) = isFile n.
Proof. unfold isFile. by rewrite (proj1 (calSize_alike n)). Qed.

Lemma nested_calSize lvl l : nested lvl l → nested lvl (map calSize l).
Proof.
  induction l as [|c l IH]; [done|]. intros (H1 & H2 & H3). cbn [map nested]. destruct (calSize_alike c) as (_ & _ & ->). rewrite isFile_calSize.
  split_ands; [done| |by apply IH]. intros Hf c'. destruct l as [|d l]; [done|]. intros [= <-].
  destruct (calSize_alike d) as (_ & _ & ->). by apply H2.
Qed.

Lemma wf_calSize (A : Z → list Node → Prop) n : (∀ lvl l, A lvl l → A lvl (map calSize l)) → wf A n → wf A (calSize n).
Proof.
  intros HA. induction n as [url name level m s l IH] using Node_ind'. intros Hwf. simpl. case_bool_decide as E; [done|].
  inversion Hwf as [? ? ? ? ? ? Ho|? ? ? ? ? ? Hl Ha]; subst; [exfalso; by apply (ok_url_nonempty [] (proj1 Ho))|].
  constructor; [done|done| |by apply HA]. rewrite Forall_fmap. rewrite Forall_forall in *. intros c Hc. by apply IH; [|apply Hl].
Qed.

Lemma wf_root_calSize (A : Z → list Node → Prop) n : (∀ lvl l, A lvl l → A lvl (map calSize l)) → wf_root A n → wf_root A (calSize n).
Proof.
  intros HA (Hw & Hu & Hn & Hl). destruct (calSize_alike n) as (E1 & E2 & E3).
  split; [by apply wf_calSize|]. rewrite E1, E2, E3. done.
Qed.

(** C31. Whatever text a url_tree storage accepts, with sizes not looked up
    (head_size off) and no file with an empty name, the text that it writes for
    the tree it has read is read as the same tree: names, links, sizes, times,
    nesting and order.  The sizes that the storage computes for its folders are
    not part of it.  A line without a name, such as one that begins with a
    colon, is accepted once, but what is written for it is refused. *)
Theorem url_text_stable text root : BuildTree text false = inr root → files_named root = true →
  BuildTree (StringifyTree (calSize root)) false = inr root.
Proof.
  intros H Hn. destruct (BuildTree_sound _ _ H Hn) as [Hr Hb].
  rewrite BuildTree_Stringify by (apply wf_root_calSize; [apply nested_calSize|done]). by rewrite bare_calSize, Hb.
Qed.
End parse.
