(* ===== verification/UrlTreeOps.v ===== *)
(** * The url_tree driver: its changes survive a restart

    After each change the tree is written to the settings of the storage; when
    the storage is loaded again, the text gives the tree back, whatever
    sequence of changes was made. *)

From S2P Require Import Prelude GoStrings Errs Paths Crypto Sign UrlTree UrlTreeThms UrlTreeParse.

Local Open Scope Z_scope.

(** ** Nodes found and changed *)

Lemma first_some_spec {A B} (f : A → option B) l y : first_some f l = Some y ↔
  ∃ l1 x l2, l = l1 ++ x :: l2 ∧ f x = Some y ∧ Forall (λ z, f z = None) l1.
Proof.
  split.
  - induction l as [|x l IH]; simpl; [done|]. destruct (f x) eqn:E; [intros [= <-]; by exists [], x, l|].
    intros (l1 & z & l2 & -> & Hz & Hl)%IH. exists (x :: l1), z, l2. by repeat split; [|constructor].
  - intros (l1 & x & l2 & -> & Hx & Hl). induction Hl as [|z l1 Hz Hl IH]; simpl; [by rewrite Hx|]. by rewrite Hz.
Qed.

Lemma alter_first_spec {A} (f : A → option A) l l' : alter_first f l = Some l' →
  ∃ l1 x y l2, l = l1 ++ x :: l2 ∧ l' = l1 ++ y :: l2 ∧ f x = Some y ∧ Forall (λ z, f z = None) l1.
Proof.
  revert l'. induction l as [|x l IH]; intros l'; simpl; [done|]. destruct (f x) as [y|] eqn:E; [intros [= <-]; by exists [], x, y, l|].
  intros (l0 & Hl0 & ->)%fmap_Some. destruct (IH _ Hl0) as (l1 & z & y & l2 & -> & -> & Hz & Hl).
  exists (x :: l1), z, y, l2. by repeat split; [|constructor].
Qed.

Lemma alter_first_None {A B} (f : A → option A) (g : A → option B) l : (∀ x, f x = None ↔ g x = None) →
  alter_first f l = None ↔ first_some g l = None.
Proof.
  intros H. induction l as [|x l IH]; simpl; [done|]. specialize (H x). destruct (f x), (g x); try naive_solver.
  by rewrite fmap_None.
Qed.

Lemma alter_get g ps n : alterByPath g ps n = None ↔ getByPath ps n = None.
Proof.
  revert n. induction ps as [|p ps IH]; intros n; simpl; [done|]. case_bool_decide; [done|]. destruct ps as [|q ps]; [done|].
  rewrite fmap_None. by apply alter_first_None.
Qed.

Lemma wf_children (A : Z → list Node → Prop) n c : wf A n → c ∈ n_Children n → wf A c.
Proof.
  intros Hn Hc. inversion Hn as [|? ? ? ? ? ? Hl]; subst; simpl in Hc; [by apply elem_of_nil in Hc|].
  rewrite Forall_forall in Hl. by apply Hl.
Qed.

Lemma wf_get (A : Z → list Node → Prop) ps n m : wf A n → getByPath ps n = Some m → wf A m.
Proof.
  revert n. induction ps as [|p ps IH]; intros n Hn; simpl; [done|]. case_bool_decide; [done|].
  destruct ps as [|q ps]; [by intros [= <-]|]. intros (l1 & x & l2 & E & Hx & _)%first_some_spec. apply (IH x); [|done].
  apply (wf_children _ n); [done|]. rewrite E. set_solver.
Qed.

Lemma wf_replace n l1 x y l2 : wf evenly n → n_Children n = l1 ++ x :: l2 → wf evenly y → n_Level y = n_Level x →
  wf evenly (set_Children (l1 ++ y :: l2) n).
Proof.
  intros Hn E Hy Hl. inversion Hn as [|? ? ? ? ? ? Hc Ha]; subst; simpl in E; [by destruct l1|]. subst.
  unfold set_Children, evenly in *. simpl. rewrite Forall_app, Forall_cons in Hc, Ha.
  constructor; [done|done|..]; unfold evenly; rewrite Forall_app, Forall_cons; [tauto|]. rewrite Hl. tauto.
Qed.

(** A change at a path: what it must do there for the tree to stay well formed. *)
Lemma wf_alter g ps n n' : alterByPath g ps n = Some n' → wf evenly n →
  (∀ m, getByPath ps n = Some m → wf evenly m → wf evenly (g m) ∧ n_Level (g m) = n_Level m) →
  wf evenly n' ∧ n_Level n' = n_Level n.
Proof.
  revert n n'. induction ps as [|p ps IH]; intros n n'; simpl; [done|]. case_bool_decide; [done|].
  destruct ps as [|q ps]; [intros [= <-] Hn H'; by apply H'|].
  intros (l' & Hl' & ->)%fmap_Some Hn Hg. destruct (alter_first_spec _ _ _ Hl') as (l1 & x & y & l2 & E & -> & Hx & Hl1).
  destruct (IH x y) as [Hy Hlv]; [done|apply (wf_children _ n); [done|]; rewrite E; set_solver| |].
  - intros m Hm. apply Hg. apply first_some_spec. exists l1, x, l2. split; [done|]. split; [done|].
    eapply Forall_impl; [exact Hl1|]. intros z. apply alter_get.
  - split; [|done]. by eapply wf_replace.
Qed.

Lemma alter_root g ps n n' : alterByPath g ps n = Some n' →
  (length ps = 1%nat ∧ n' = g n) ∨ (1 < length ps)%nat ∧ n_Url n' = n_Url n ∧ n_Name n' = n_Name n.
Proof.
  destruct ps as [|p [|q ps]]; simpl; [done|..]; case_bool_decide; try done; [intros [= <-]; by left|].
  intros (l' & _ & ->)%fmap_Some. right. split; [lia|done].
Qed.

(** ** The changes *)

Lemma wf_added n c : wf evenly n → isFile n = false → wf evenly c → n_Level c = n_Level n + 1 → wf evenly (add_child c n).
Proof.
  intros Hn Hf Hc Hl. apply wf_add; [done..|]. apply Forall_app. split; [by inversion Hn; subst; [constructor|]|by constructor].
Qed.

Lemma wf_without name n : wf evenly n → wf evenly (without name n).
Proof.
  intros Hn. inversion Hn as [|? ? ? ? ? ? Hc Ha]; subst; [by constructor|].
  unfold evenly in Ha. rewrite Forall_forall in Hc, Ha.
  constructor; [done|done|..]; apply Forall_forall; intros c [_ Hin]%list_elem_of_filter; auto.
Qed.

Lemma wf_setLevel level n : 0 ≤ level → wf evenly n → wf evenly (setLevel level n).
Proof.
  revert level. induction n as [url name lv m s l IH] using Node_ind'. intros level Hl Hn.
  inversion Hn as [|? ? ? ? ? ? Hc Ha]; subst; simpl; [by constructor|]. constructor; [lia|done|..].
  - rewrite Forall_fmap. rewrite Forall_forall in *. intros c Hin. apply (IH c Hin); [lia|by apply Hc].
  - apply Forall_fmap, Forall_forall. intros c _. by destruct c.
Qed.

Lemma setLevel_Level level n : n_Level (setLevel level n) = level.
Proof. by destruct n. Qed.

Lemma wf_set_Name name n : ok_name name → wf evenly n → wf evenly (set_Name name n).
Proof.
  intros Ho Hn. inversion Hn as [? ? ? ? ? ? Hf|]; subst; constructor; try done; [|apply Ho].
  destruct Hf as (? & ? & ? & _). split; [done|]. split; [done|]. split; [done|]. by left.
Qed.

Lemma wf_level n : wf evenly n → -1 ≤ n_Level n.
Proof. inversion 1; simpl; lia. Qed.

Lemma evenly_calSize lvl l : evenly lvl l → evenly lvl (map calSize l).
Proof. intros H. apply Forall_fmap. eapply Forall_impl; [exact H|]. intros c Hc. simpl. by destruct (calSize_alike c) as (_ & _ & ->). Qed.

(** ** Where a moved node goes *)

(** Alike for what is put into them. *)
Definition alike (a b : Node) : Prop := n_Level a = n_Level b ∧ isFile a = isFile b.

Lemma first_some_alike (f g : Node → option Node) l : (∀ x, x ∈ l → option_Forall2 alike (f x) (g x)) →
  option_Forall2 alike (first_some f l) (first_some g l).
Proof.
  induction l as [|x l IH]; intros H; simpl; [constructor|].
  destruct (H x) as [a b Hab|]; [set_solver|by constructor|]. apply IH. set_solver.
Qed.

Lemma alike_refl o : option_Forall2 alike o o.
Proof. destruct o; by constructor. Qed.

Lemma first_some_app {A B} (f : A → option B) l k :
  first_some f (l ++ k) = match first_some f l with Some y => Some y | None => first_some f k end.
Proof. induction l as [|x l IH]; simpl; [done|]. by destruct (f x). Qed.

Lemma getByPath_name p ps n : n_Name n ≠ p → getByPath (p :: ps) n = None.
Proof. intros H. simpl. by rewrite bool_decide_true. Qed.

(** Children of another name are not looked at. *)
Lemma first_some_without name q ps l : q ≠ name →
  first_some (getByPath (q :: ps)) (filter (λ c, n_Name c ≠ name) l) = first_some (getByPath (q :: ps)) l.
Proof.
  intros Hq. induction l as [|c l IH]; [done|]. rewrite filter_cons. destruct (decide (n_Name c ≠ name)) as [Hc|Hc].
  - cbn [first_some]. by rewrite IH.
  - apply dec_stable in Hc. cbn [first_some]. by rewrite getByPath_name, IH by congruence.
Qed.

(** What is not below the removed path is still found. *)
Lemma get_without name ps ds n n' : alterByPath (without name) ps n = Some n' → ¬ (ps ++ [name]) `prefix_of` ds →
  option_Forall2 alike (getByPath ds n) (getByPath ds n').
Proof.
  revert ds n n'. induction ps as [|p ps IH]; intros ds n n'; [done|]. cbn [alterByPath]. case_bool_decide as Hp; [done|].
  subst p. intros Ha Hpre. destruct ds as [|d ds]; [constructor|]. cbn [getByPath].
  assert (Hname : n_Name n' = n_Name n) by (destruct ps; [by injection Ha as <-|by apply fmap_Some in Ha as (? & _ & ->)]).
  rewrite Hname. case_bool_decide as Hd; [constructor|]. subst d. destruct ds as [|d ds].
  - constructor. destruct ps; [by injection Ha as <-|by apply fmap_Some in Ha as (? & _ & ->)].
  - destruct ps as [|q ps].
    + injection Ha as <-. cbn [without set_Children n_Children]. rewrite first_some_without; [apply alike_refl|].
      intros ->. apply Hpre. simpl. by apply prefix_cons, prefix_cons, prefix_nil.
    + apply fmap_Some in Ha as (l' & Hl' & ->). destruct (alter_first_spec _ _ _ Hl') as (l1 & x & y & l2 & E & -> & Hx & _).
      cbn [set_Children n_Children]. rewrite E, !first_some_app. destruct (first_some _ l1); [apply alike_refl|].
      cbn [first_some]. destruct (IH (d :: ds) x y Hx) as [a b Hab|]; [|by constructor|apply alike_refl].
      intros H'. apply Hpre. simpl. by apply prefix_cons.
Qed.

(** ** Paths *)

Lemma render_no_slash s segs : Forall norm_seg (s :: segs) → HasSuffix (render (s :: segs)) #"/" = false.
Proof.
  intros Hs. destruct (HasSuffix _ _) eqn:E; [|done]. exfalso. apply HasSuffix_spec in E as [k E].
  destruct (exists_last (l := s :: segs) ltac:(done)) as (l & w & El). rewrite El in E, Hs. apply Forall_app in Hs as [_ [Hw _]%Forall_cons].
  destruct Hw as (Hne & _ & _ & Hsl). rewrite render_snoc_slash in E. destruct (exists_last Hne) as (w' & c & ->).
  rewrite app_assoc in E. apply app_inj_tail in E as [_ ->]. set_solver.
Qed.

Lemma splitPath_render segs : Forall norm_seg segs → splitPath (render segs) = #"root" :: segs.
Proof.
  intros Hs. destruct segs as [|s segs]; [done|]. unfold splitPath. rewrite render_no_slash by done. rewrite bool_decide_false.
  2: { apply Forall_cons in Hs as [(Hne & _) _]. destruct s; [done|]. by destruct segs. }
  f_equal. change (render (s :: segs)) with ([] ++ "/"%char :: Join #"/" (s :: segs)).
  rewrite Split_app by set_solver. cbn [tail]. apply (Split_Join "/"); [done|]. by apply norm_no_slash.
Qed.

Lemma splitPath_dir segs : Forall norm_seg segs → splitPath (dir_slash segs) = #"root" :: segs.
Proof.
  intros Hs. destruct segs as [|s segs]; [done|]. pose proof (splitPath_render _ Hs) as Hr. unfold splitPath in *. cbn [dir_slash].
  rewrite render_no_slash in Hr by done.
  assert (Hsuf : HasSuffix (render (s :: segs) ++ #"/") #"/" = true) by (apply HasSuffix_spec; by eexists).
  rewrite Hsuf, length_app, Nat.add_sub, take_app_length. rewrite bool_decide_false by (by destruct s, segs).
  destruct (bool_decide (render (s :: segs) = #"/")) eqn:E; [by inversion Hr|]. done.
Qed.

Lemma not_below src name dst : HasPrefix (render dst) (render (src ++ [name])) = false →
  ¬ ((#"root" :: src) ++ [name]) `prefix_of` (#"root" :: dst).
Proof.
  intros Hf [k Hk]. simpl in Hk. injection Hk as ->. assert (Ht : HasPrefix (render ((src ++ [name]) ++ k)) (render (src ++ [name])) = true); [|congruence].
  apply HasPrefix_spec. unfold render. destruct k as [|x k]; [by rewrite app_nil_r|]. rewrite (Join_app (src ++ [name])) by (by destruct src).
  apply prefix_cons. by eexists.
Qed.

(** ** Storages *)

Section storages.
Context {UE : UrlEnv}.

(** The settings hold the text of the tree. *)
Record kept (d : Urls) : Prop := {
  kept_root : wf_root evenly (u_root d);
  kept_text : BuildTree (u_UrlStructure d) false = inr (bare (u_root d));
  kept_saved : u_saved d = u_UrlStructure d;
  kept_head : u_HeadSize d = false;
}.

Lemma kept_update d : wf_root evenly (u_root d) → u_HeadSize d = false → kept (updateStorage d).
Proof.
  intros Hr Hh. constructor; [done| |done|done]. apply BuildTree_Stringify.
  destruct Hr as (Hw & Hr). split; [|done]. by apply (wf_mono evenly nested); [apply evenly_nested|].
Qed.

Lemma sized_root d : wf_root evenly (u_root d) → wf_root evenly (u_root (sized d)).
Proof. intros H. apply wf_root_calSize; [apply evenly_calSize|done]. Qed.

(** A change that keeps what the code looks at in the root. *)
Lemma alter_wf_root g path d : wf_root evenly (u_root d) →
  (∀ m, getByPath (splitPath path) (u_root d) = Some m → wf evenly m → wf evenly (g m) ∧ n_Level (g m) = n_Level m) →
  (length (splitPath path) = 1%nat → ∀ m, n_Url (g m) = n_Url m ∧ n_Name (g m) = n_Name m) →
  wf_root evenly (u_root (alter g path d)).
Proof.
  intros (Hw & Hu & Hn & Hl) Hg Hroot. unfold alter. destruct (alterByPath _ _ _) as [r|] eqn:E; [|done]. simpl.
  destruct (wf_alter _ _ _ _ E Hw Hg) as [Hwr Hlr]. split; [done|]. rewrite Hlr.
  destruct (alter_root _ _ _ _ E) as [[H1 ->]|(_ & -> & ->)]; [|done]. destruct (Hroot H1 (u_root d)) as [-> ->]. done.
Qed.

Lemma alter_HeadSize g path d : u_HeadSize (alter g path d) = u_HeadSize d.
Proof. unfold alter. by destruct (alterByPath _ _ _). Qed.

Lemma target_spec dir d n : target dir d = Some n → getByPath (splitPath dir) (u_root d) = Some n ∧ isFile n = false.
Proof. unfold target, GetNodeFromRootByPath. destruct (getByPath _ _) as [m|]; [|done]. destruct (isFile m) eqn:E; [done|]. by intros [= <-]. Qed.

(** Putting a node into a directory. *)
Lemma add_wf_root c dir d n : wf_root evenly (u_root d) → getByPath (splitPath dir) (u_root d) = Some n → isFile n = false →
  wf evenly c → n_Level c = n_Level n + 1 → wf_root evenly (u_root (alter (add_child c) dir d)).
Proof.
  intros Hr Hg Hf Hc Hl. apply alter_wf_root; [done| |done]. intros m Hm Hwm. rewrite Hg in Hm. injection Hm as <-. split; [|done].
  by apply wf_added.
Qed.

Lemma without_wf_root name dir d : wf_root evenly (u_root d) → wf_root evenly (u_root (alter (without name) dir d)).
Proof. intros Hr. apply alter_wf_root; [done| |done]. intros m _ Hm. split; [by apply wf_without|done]. Qed.

Lemma named_wf name n c : wf evenly n → named name n = Some c → wf evenly c.
Proof.
  intros Hn H. apply last_Some_elem_of, list_elem_of_filter in H as [_ H]. by eapply wf_children.
Qed.

Lemma target_level (n : Node) : wf evenly n → 0 ≤ n_Level n + 1.
Proof. intros H%wf_level. lia. Qed.

(** ** Sequences of changes *)

(** A change, with the segments of its paths.  A file is put by its line only
    into the root, where the level that [Put] gives it is right. *)
Inductive url_op :=
  | UMakeDir (dir : list gostr) (name : gostr)
  | UMove (src dst : list gostr)
  | URename (src : list gostr) (name : gostr)
  | UCopy (src dst : list gostr)
  | URemove (obj : list gostr)
  | UPutURL (dir : list gostr) (name url : gostr)
  | UPutRoot (url name : gostr) (size modified : Z).

Definition run_op (o : url_op) (d : Urls) : Urls :=
  match o with
  | UMakeDir dir name => (MakeDir (render dir) name d).2
  | UMove src dst => (Move (render src) (render dst) d).2
  | URename src name => (Rename (render src) name d).2
  | UCopy src dst => (Copy (render src) (render dst) d).2
  | URemove obj => (Remove (render obj) d).2
  | UPutURL dir name url => (PutURL (render dir) name url d).2
  | UPutRoot url name size modified => (Put #"/" (file_text url name size modified) d).2
  end.

(** The names and links that a line can hold; the root is not renamed. *)
Definition ok_op (o : url_op) : Prop :=
  match o with
  | UMakeDir dir name => Forall norm_seg dir ∧ ok_start name
  | UMove src dst | UCopy src dst => Forall norm_seg src ∧ Forall norm_seg dst
  | URename src name => Forall norm_seg src ∧ src ≠ [] ∧ ok_name name
  | URemove obj => True
  | UPutURL dir name url => ok_name name ∧ ok_url url
  | UPutRoot url name size modified => ok_file url name size modified
  end.

Ltac unwritable := destruct (u_Writable _); cbn [negb]; [|done].

Lemma kept_MakeDir dir name d : ok_start name → kept d → kept (MakeDir dir name d).2.
Proof.
  intros Hn [Hr Ht Hs Hh]. unfold MakeDir, GetNodeFromRootByPath. unwritable.
  destruct (getByPath _ _) as [n|] eqn:E; [|done]. destruct (isFile n) eqn:Ef; [done|].
  pose proof (target_level n (wf_get _ _ _ _ (proj1 Hr) E)).
  apply kept_update; [|by rewrite alter_HeadSize]. eapply add_wf_root; [done|done|done| |done]. constructor; [lia|done|done|constructor].
Qed.

Lemma kept_PutURL dir name url d : ok_name name → ok_url url → kept d → kept (PutURL dir name url d).2.
Proof.
  intros Hn Hu [Hr Ht Hs Hh]. unfold PutURL. unwritable. destruct (target dir d) as [n|] eqn:E; [|done].
  apply target_spec in E as [E Ef]. rewrite Hh. cbn [andb snd]. pose proof (target_level n (wf_get _ _ _ _ (proj1 Hr) E)).
  apply kept_update; [|by rewrite alter_HeadSize]. eapply add_wf_root; [done|done|done| |done]. constructor; [done|].
  split; [done|]. split; [done|]. split; [done|]. by left.
Qed.

Lemma kept_PutRoot url name size modified d : ok_file url name size modified → kept d →
  kept (Put #"/" (file_text url name size modified) d).2.
Proof.
  intros Ho [Hr Ht Hs Hh]. unfold Put, GetNodeFromRootByPath. unwritable.
  destruct (getByPath _ _) as [n|] eqn:E; [|done]. destruct (isFile n) eqn:Ef; [done|].
  rewrite Hh, parse_file by done. apply kept_update; [|by rewrite alter_HeadSize].
  eapply add_wf_root; [done|done|done|by constructor|]. destruct Hr as (_ & _ & Hn & Hl).
  assert (n = u_root d) as ->; [|by rewrite Hl]. change (splitPath #"/") with [ #"root"] in E. simpl in E. case_bool_decide; congruence.
Qed.

Lemma kept_Rename src name d : Forall norm_seg src → src ≠ [] → ok_name name → kept d → kept (Rename (render src) name d).2.
Proof.
  intros Hs Hne Hn [Hr Ht Hsv Hh]. unfold Rename, GetNodeFromRootByPath. unwritable.
  destruct (getByPath _ _) as [n|] eqn:E; [|done]. apply kept_update; [|by rewrite alter_HeadSize].
  apply alter_wf_root; [done|intros m _ Hm; split; [by apply wf_set_Name|done]|].
  rewrite splitPath_render by done. destruct src; [done|]. done.
Qed.

Lemma kept_Copy src dst d : kept d → kept (Copy src dst d).2.
Proof.
  intros [Hr Ht Hs Hh]. unfold Copy, GetNodeFromRootByPath. unwritable. destruct (HasPrefix _ _); [done|].
  destruct (target dst d) as [n|] eqn:E; [|done]. apply target_spec in E as [E Ef].
  pose proof (target_level n (wf_get _ _ _ _ (proj1 Hr) E)). destruct (getByPath (splitPath src) _) as [m|] eqn:Em; [|done].
  apply kept_update; [|by simpl; rewrite alter_HeadSize]. apply sized_root. eapply add_wf_root; [done..| |apply setLevel_Level].
  apply wf_setLevel; [done|]. by eapply wf_get; [apply Hr|].
Qed.

Lemma kept_Remove obj d : kept d → kept (Remove obj d).2.
Proof.
  intros [Hr Ht Hs Hh]. unfold Remove. unwritable. destruct (path_Split obj) as [dir name].
  destruct (GetNodeFromRootByPath _ _) as [n|] eqn:E; [|done]. destruct (named name n) as [c|] eqn:Ec; [|done].
  pose proof (without_wf_root name dir d Hr). destruct (0 <? n_Size c); apply kept_update; simpl; rewrite ?alter_HeadSize; auto.
  by apply sized_root.
Qed.

Lemma kept_Move src dst d : Forall norm_seg src → Forall norm_seg dst → kept d → kept (Move (render src) (render dst) d).2.
Proof.
  intros Hsrc Hdst [Hr Ht Hs Hh]. unfold Move. unwritable. destruct (HasPrefix _ _) eqn:Ep; [done|].
  destruct src as [|s0 src0]; [by destruct dst|]. destruct (exists_last (l := s0 :: src0) ltac:(done)) as (src & name & Es). rewrite Es in *. clear Es s0 src0.
  apply Forall_app in Hsrc as [Hsrc [Hname _]%Forall_cons]. destruct (target _ d) as [n|] eqn:E; [|done]. apply target_spec in E as [E Ef].
  rewrite path_Split_render by apply Hname. cbv iota beta. destruct (GetNodeFromRootByPath _ _) as [p|] eqn:Epar; [|done].
  destruct (named name p) as [c|] eqn:Ec; [|done]. pose proof (target_level n (wf_get _ _ _ _ (proj1 Hr) E)).
  apply kept_update; [|by simpl; rewrite !alter_HeadSize]. apply sized_root.
  unfold GetNodeFromRootByPath in Epar. pose proof (without_wf_root name (dir_slash src) d Hr) as Hr1.
  assert (Hg : ∃ n', getByPath (splitPath (render dst)) (u_root (alter (without name) (dir_slash src) d)) = Some n' ∧ alike n n').
  { unfold alter. rewrite splitPath_render in * by done. rewrite splitPath_dir in * by done.
    destruct (alterByPath _ _ (u_root d)) as [r|] eqn:Er; [|by exists n].
    pose proof (get_without _ _ _ _ _ Er (not_below _ _ _ Ep)) as Hal. rewrite E in Hal. inversion Hal; subst. by eexists. }
  destruct Hg as (n' & E' & Hlv & Hf). eapply add_wf_root; [done|exact E'|congruence| |rewrite setLevel_Level; lia].
  apply wf_setLevel; [done|]. eapply named_wf; [|done]. by eapply wf_get; [apply Hr|].
Qed.

Lemma kept_op o d : ok_op o → kept d → kept (run_op o d).
Proof.
  destruct o; simpl; intros Ho Hk.
  - destruct Ho. by apply kept_MakeDir.
  - destruct Ho. by apply kept_Move.
  - destruct Ho as (? & ? & ?). by apply kept_Rename.
  - by apply kept_Copy.
  - by apply kept_Remove.
  - destruct Ho. by apply kept_PutURL.
  - by apply kept_PutRoot.
Qed.

(** Every line is indented one step more than its folder. *)
Fixpoint even_levels (n : Node) : bool :=
  match n with
  | mkNode _ _ level _ _ l => forallb (λ c, n_Level c =? level + 1) l && forallb even_levels l
  end.

Lemma even_wf n : even_levels n = true → wf nested n → wf evenly n.
Proof.
  induction n as [url name level m s l IH] using Node_ind'. simpl. rewrite andb_true_iff, !forallb_forall. intros [He Hl] Hw.
  inversion Hw as [|? ? ? ? ? ? Hc _]; subst; constructor; try done.
  - rewrite Forall_forall in *. intros c Hin. apply IH; [done|by apply Hl, list_elem_of_In|by apply Hc].
  - apply Forall_forall. intros c Hin. apply Z.eqb_eq, He. by apply list_elem_of_In.
Qed.

Definition run_ops (ops : list url_op) (d : Urls) : Urls := fold_left (λ d o, run_op o d) ops d.

(** A storage that is loaded from the database. *)
Definition reload (d : Urls) : Urls :=
  {| u_UrlStructure := u_saved d; u_HeadSize := u_HeadSize d; u_Writable := u_Writable d;
     u_DownloadParams := u_DownloadParams d; u_root := root_node; u_tmpl := None; u_saved := u_saved d |}.

Lemma kept_ops ops d : Forall ok_op ops → kept d → kept (run_ops ops d).
Proof. intros Ho. revert d. induction Ho as [|o ops Ho _ IH]; intros d Hk; [done|]. apply IH. by apply kept_op. Qed.

(** The settings that no change touches. *)
Definition settings (d : Urls) := (u_HeadSize d, u_Writable d, u_DownloadParams d, u_tmpl d).

Lemma alter_settings g path d : settings (alter g path d) = settings d.
Proof. unfold alter. by destruct (alterByPath _ _ _). Qed.

Lemma updateStorage_settings d : settings (updateStorage d) = settings d.
Proof. done. Qed.

Lemma sized_settings d : settings (sized d) = settings d.
Proof. done. Qed.

Lemma run_op_settings o d : settings (run_op o d) = settings d.
Proof.
  destruct o; simpl; unfold MakeDir, Move, Rename, Copy, Remove, PutURL, Put; destruct (negb _); try done;
    repeat case_match; simplify_eq/=; rewrite ?updateStorage_settings, ?sized_settings, ?alter_settings; done.
Qed.

Lemma run_ops_settings ops d : settings (run_ops ops d) = settings d.
Proof. revert d. induction ops as [|o ops IH]; intros d; [done|]. simpl. rewrite IH. apply run_op_settings. Qed.

Lemma Init_spec d d' : Init d = inr d' ↔ ∃ node tmpl, BuildTree (u_UrlStructure d) (u_HeadSize d) = inr node ∧
  (if bool_decide (TrimSpace (u_DownloadParams d) = []) then tmpl = None
   else ∃ t, downloadParams (TrimSpace (u_DownloadParams d)) = Some t ∧ tmpl = Some t) ∧
  d' = {| u_UrlStructure := u_UrlStructure d; u_HeadSize := u_HeadSize d; u_Writable := u_Writable d;
          u_DownloadParams := u_DownloadParams d; u_root := calSize node; u_tmpl := tmpl; u_saved := u_saved d |}.
Proof.
  unfold Init. destruct (BuildTree _ _) as [e|node]; [split; [done|naive_solver]|]. cbv zeta.
  change (u_DownloadParams (set_root _ d)) with (u_DownloadParams d). case_bool_decide; [naive_solver|].
  destruct (downloadParams _); naive_solver.
Qed.

Lemma calSize_bare n : calSize (bare n) = calSize n.
Proof.
  induction n as [url name level m s l IH] using Node_ind'. simpl. case_bool_decide as E; [simpl; by rewrite bool_decide_true|].
  simpl. rewrite bool_decide_false by (intros H; by apply H). rewrite map_map.
  assert (El : map (λ x, calSize (bare x)) l = map calSize l) by (apply map_ext_Forall; exact IH). by rewrite El.
Qed.

(** C30. A url_tree storage that was loaded (from a text with no empty file
    name, each line indented one step more than its folder, sizes not looked
    up) keeps every change a line can hold: after any sequence of directories
    made, links put, files put by their line into the root, nodes moved,
    renamed, copied and removed, failed requests among them, a storage that is
    loaded from the database has the tree that the running one has, with the
    sizes of its folders computed afresh, and the same settings.  A line can
    hold a name without a line feed, leading space or, but for a new directory,
    colon, and a link to http or https (an https link with no http link inside)
    that ends neither in space nor in a colon; the root is not renamed, and a
    file is not put by its line into another directory than the root.  The
    driver accepts such changes and does not keep them ([url_tree_defects]). *)
Theorem url_tree_persistent d0 node d ops :
  u_HeadSize d0 = false → u_saved d0 = u_UrlStructure d0 →
  BuildTree (u_UrlStructure d0) false = inr node → files_named node = true → even_levels node = true →
  Init d0 = inr d → Forall ok_op ops →
  let d1 := run_ops ops d in
  ∃ d2, Init (reload d1) = inr d2 ∧ u_root d2 = calSize (u_root d1) ∧ settings d2 = settings d1.
Proof.
  intros Hh Hsv Hb Hn He Hi Hops d1. apply Init_spec in Hi as (node' & tmpl & Hb' & Ht & ->). rewrite Hh, Hb in Hb'. injection Hb' as <-.
  destruct (BuildTree_sound _ _ Hb Hn) as [Hr Hbare].
  assert (Hk : kept d1).
  { apply kept_ops; [done|]. constructor; simpl; [|by rewrite bare_calSize, Hbare|done|done].
    apply wf_root_calSize; [apply evenly_calSize|]. destruct Hr as [Hw Hr]. split; [by apply even_wf|done]. }
  pose proof (run_ops_settings ops _ : settings d1 = _) as Hset. destruct Hk as [_ Htext Hsaved Hhead].
  unfold settings in *. cbn [u_HeadSize u_Writable u_DownloadParams u_tmpl] in Hset. injection Hset as H1 H2 H3 H4.
  eexists. split; [apply Init_spec; exists (bare (u_root d1)), tmpl; simpl; rewrite Hsaved, Hhead, H3; done|].
  simpl. split; [apply calSize_bare|congruence].
Qed.
End storages.

(** ** url_tree: storages on which the theorems are used, and inputs that the
    driver does not keep *)

#[local] Instance ok_start_dec s : Decision (ok_start s).
Proof. unfold ok_start. apply _. Defined.
#[local] Instance ok_name_dec s : Decision (ok_name s).
Proof. unfold ok_name. apply _. Defined.
#[local] Instance ok_url_dec s : Decision (ok_url s).
Proof. unfold ok_url. apply _. Defined.
#[local] Instance ok_file_dec u n s m : Decision (ok_file u n s m).
Proof. unfold ok_file, int64_ok. apply _. Defined.
#[local] Instance ok_op_dec o : Decision (ok_op o).
Proof. destruct o; simpl; apply _. Defined.

Module UrlExample.

(** No sizes are looked up, no parameters are set. *)
#[local] Instance env : UrlEnv := {|
  getSizeFromUrl := λ _, None;
  downloadParams := λ _, None;
  injectQuery := λ u q, inr (u ++ #"?" ++ q);
|}.

Definition text : gostr :=
  Join nl [ #"docs:"; #"  notes.txt:https://a.org/1"; #"  scan.pdf:1024:1700000000:https://a.org/2"; #"  old:"; #"    https://a.org/3.txt";
    #"clip.mp4:2048:http://b.org/c?x=https://b.org"].

Definition storage (text : gostr) : Urls :=
  {| u_UrlStructure := text; u_HeadSize := false; u_Writable := true; u_DownloadParams := [];
     u_root := root_node; u_tmpl := None; u_saved := text |}.

Definition loaded (text : gostr) : Urls := match Init (storage text) with inr d => d | inl _ => storage text end.

Definition tree (text : gostr) : Node := match BuildTree text false with inr n => n | inl _ => root_node end.

Definition ops : list url_op :=
  [ UMakeDir [ #"docs"] #"new"; UMove [ #"docs"; #"notes.txt"] [ #"docs"; #"new"]; URename [ #"docs"; #"new"; #"notes.txt"] #"n 1.txt";
    UCopy [ #"docs"; #"old"] []; URemove [ #"docs"; #"scan.pdf"]; UMove [ #"docs"; #"old"] [ #"docs"; #"old"];
    UPutURL [ #"docs"; #"old"] #"z" #"https://c.org/z"; UPutRoot #"https://d.org/q" #"q" 5 0 ].

(** The text after the changes. *)
Example text_after : u_saved (run_ops ops (loaded text)) =
  Join nl [ #"docs:"; #"  old:"; #"    https://a.org/3.txt"; #"    https://c.org/z"; #"  new:"; #"    n 1.txt:https://a.org/1";
    #"clip.mp4:2048:http://b.org/c?x=https://b.org"; #"old:"; #"  https://a.org/3.txt"; #"q:5:https://d.org/q" ].
Proof. vm_compute. reflexivity. Qed.

Lemma url_text_stable_witness : BuildTree (StringifyTree (calSize (tree text))) false = inr (tree text).
Proof. apply (url_text_stable text); vm_compute; reflexivity. Defined.

Lemma url_tree_persistent_witness : ∃ d2, Init (reload (run_ops ops (loaded text))) = inr d2 ∧
  u_root d2 = calSize (u_root (run_ops ops (loaded text))) ∧ settings d2 = settings (run_ops ops (loaded text)).
Proof.
  assert (Hops : Forall ok_op ops) by (apply (bool_decide_unpack _); vm_compute; exact I).
  refine (url_tree_persistent (storage text) (tree text) (loaded text) ops eq_refl eq_refl _ _ _ _ Hops); vm_compute; reflexivity.
Defined.

(** ** What is not kept *)

Definition names (d : Urls) (dir : gostr) : result (list gostr) := let! l := List dir d in inr (map t_Name l).

Definition after (o : Urls → Urls) : result Urls := Init (reload (o (loaded text))).

Definition names_after (o : Urls → Urls) (dir : gostr) : result (list gostr) := let! d := after o in names d dir.

(** Changes that the driver accepts and does not keep: a file that is put by
    its line into a directory is in the root after a restart ([Put] gives it
    level 0); a secure link whose parameters hold a plain one, and a file with
    a colon in its name, are written and then refused, so that the whole
    storage no longer loads; the root can be renamed, and then nothing is
    found; an empty link makes a directory.  A directory is not moved into one
    whose name begins with its own, and a move or a removal by name takes every
    child of the name. *)
Theorem url_tree_defects :
  (let put d := snd (Put #"/docs" #"f:https://x.org/f" d) in
   names (put (loaded text)) #"/docs" = inr [ #"notes.txt"; #"scan.pdf"; #"old"; #"f"] ∧
   names_after put #"/docs" = inr [ #"notes.txt"; #"scan.pdf"; #"old"] ∧
   names_after put #"/" = inr [ #"docs"; #"f"; #"clip.mp4"]) ∧
  after (λ d, snd (PutURL #"/" #"x" #"https://x.org/?u=http://y.org" d)) = invalid ∧
  after (λ d, snd (Rename #"/docs/notes.txt" #"a:b" d)) = invalid ∧
  (let d := snd (Rename #"/" #"top" (loaded text)) in
   Get #"/docs" d = inl (ESentinel ObjectNotFound) ∧ Get #"/" d = inl (ESentinel ObjectNotFound)) ∧
  (∃ o, Get #"/x" (snd (PutURL #"/" #"x" [] (loaded text))) = inr o ∧ t_IsFolder o = true) ∧
  fst (Move #"/a" #"/ab" (loaded (Join nl [ #"a:"; #"ab:"]))) = inl (EMessage #"cannot move parent dir to child") ∧
  (let d := loaded (Join nl [ #"a:https://x.org/1"; #"a:https://x.org/2"; #"b:"]) in
   names (snd (Move #"/a" #"/b" d)) #"/" = inr [ #"b"] ∧ names (snd (Move #"/a" #"/b" d)) #"/b" = inr [ #"a"] ∧
   names (snd (Remove #"/a" d)) #"/" = inr [ #"b"]).
Proof. vm_compute. repeat split. eexists. split; reflexivity. Qed.
End UrlExample.
